(* ===== verification/_CoqProject ===== *)
-Q . S2P
Prelude.v
RustStd.v
F64.v
Json.v
Auth.v
Frame.v
Transport.v
FileTransfer.v
VpsRules.v
VpsDecimal.v
VpsSelectors.v
VpsRuleTheorems.v
Expression.v
ExpressionParser.v
ExpressionProofs.v
ParserProofs.v
ParserRoundtrip.v
Templates.v
TemplateProofs.v
TagOrder.v
TagOrderProofs.v
Net.v
TunnelModels.v
NetworkCost.v
NetworkCostProofs.v
OpenvpnOverride.v
NetworkPlanner.v
TunnelRender.v
NetworkAllocator.v
AllocatorProofs.v
NetProofs.v
NetworkPlanProofs.v
ClientIp.v
WebhookTarget.v
WebhookProofs.v
PortForwarding.v
PortForwardProofs.v
NftRender.v
NftProofs.v
NftReconcile.v
NftReconcileProofs.v
NftPoolProofs.v
NftSizeProofs.v
NftProgram.v
NftProgramProofs.v
NftAgentProofs.v
ConfigModels.v
ConfigValidation.v
ConfigProofs.v
JobStatus.v
JobCommands.v
JobCommandProofs.v
JobTargets.v
JobAdmission.v
AgentRequestChecks.v
JobAdmissionProofs.v
SuiteConfig.v
SuiteConfigProofs.v
CommandLedger.v
CommandLedgerProofs.v
AgentCommands.v
AgentTunnelSync.v
AgentHandlers.v
AgentCommandProofs.v
AgentRunProofs.v
AgentTheorems.v
AgentTunnelSyncProofs.v
ForwardAdapters.v
ForwardAdapterProofs.v
AlertEvents.v
AlertEventProofs.v
Totp.v
TotpProofs.v
OperatorAuth.v
OperatorAuthProofs.v
GatewayFence.v
GatewayFenceProofs.v
GatewaySessions.v
GatewaySessionProofs.v
GatewaySessionTheorems.v
