(* ===== verification/Prelude.v ===== *)
(** * A verification of vpsman

    vpsman manages a fleet of virtual servers: agents connect to gateways over
    an encrypted framed transport; the API server, the worker and the command
    line tool ask gateways to dispatch commands to agents.  The crate
    [crates/common] holds the logic all of them share (wire format, transport,
    authentication, file transfer, operator rules, selector expressions, message
    templates, alert events, network planning and allocation, port forwarding,
    job commands and configurations); [crates/gateway] holds the per-client state
    that orders commands against suspensions and deletions, and the connections
    of the agents; [crates/api] the sign-in of operators and the admission of
    jobs; [crates/server-core] the checks on outgoing webhooks and on the targets
    of a job; [crates/agent] takes commands, remembers them over lost connections and
    restarts, applies runtime configurations and port forwarding.  The
    development models these parts as executable functions, one per function of
    the source, and proves what makes them correct.

    ** Files and the code they model (paths under src/)

    - [Prelude] (this file): the result monad, the development's tactics
      ([inv_bind], [bytes], [bools]) and lemmas on lists, options and integers.
    - [RustStd]: Rust's [char], [str], UTF-8, trimming, splitting, integer
      parsing and printing.  [F64]: [f64] parsing, comparison and fixed-point
      printing on [spec_float].  [Json]: [serde_json::Value].  [Net]: [std::net]'s
      addresses and their texts.
    - [Auth]: crates/common/src/security/auth.rs.  The state is the replay cache
      (queue and map of nonces); [verify_privilege_assertion] threads it.
    - [Frame]: crates/common/src/protocol/tlv.rs.  [decode] maps the receive
      buffer to an outcome and the buffer left.
    - [Transport]: crates/common/src/protocol/transport.rs.  The state is
      [NoiseFrameStream] with the Noise state as a type parameter; the socket is
      the list of pieces it will deliver, and an operation that runs out of them
      is suspended ([Pending]).
    - [FileTransfer]: crates/common/src/protocol/file_transfer.rs.
    - [VpsRules]: crates/common/src/config/vps_rules.rs, with the lemmas by kind
      of value in [VpsDecimal] and [VpsSelectors] and the theorems on the entry
      point in [VpsRuleTheorems].
    - [Expression] and [ExpressionParser]:
      crates/common/src/selection/expression.rs, evaluation and text; they call
      [VpsRules] for rule values as the code does.  Theorems in
      [ExpressionProofs], [ParserProofs] and [ParserRoundtrip].
    - [Templates], [TemplateProofs]: crates/common/src/selection/template.rs, the
      parser of message templates, path resolution, rendering with limits and
      scalar rendering.
    - [TagOrder], [TagOrderProofs]: crates/common/src/selection/tag_order.rs.  The
      class [CmpOrder] states the laws of a comparison.
    - [NetworkAllocator], [AllocatorProofs]:
      crates/common/src/network/network_allocator.rs, over the interface
      [IpNetOps] with the laws [IpNetLaws] of the ipnet crate.
    - [TunnelModels], [NetworkCost], [OpenvpnOverride], [NetworkPlanner] and
      [TunnelRender]: network_models.rs, network_cost.rs, network_planner.rs and
      network_runtime_render.rs of crates/common/src/network (plans, link costs,
      validation, commands and previews).  Theorems in [NetworkCostProofs],
      [NetProofs] and [NetworkPlanProofs].
    - [ConfigModels], [ConfigValidation], [ConfigProofs]: config_models.rs and
      config_validation.rs of crates/common/src/config, the agent's configuration
      and the part of it the server manages.
    - [JobStatus], [JobCommands], [JobCommandProofs]:
      crates/common/src/protocol/protocol.rs, statuses, job commands and their
      published tables and versions.
    - [JobTargets], [JobAdmission]: the target checks and the status of a job of
      crates/server-core/src/lib.rs, the rollout checks of
      crates/api/src/routes/jobs/routes_jobs.rs, and the validation of requests of
      job_request.rs, job_files.rs and job_terminal.rs of crates/api/src/jobs.
      [AgentRequestChecks]: the checks the executors of crates/agent/src
      (execution, files, host, lifecycle, network) make of a command, alone or
      against what the agent is ([Agent]); one definition per check, composed by command in
      [request_checks].  Theorems in [JobAdmissionProofs].
    - [SuiteConfig], [SuiteConfigProofs]: crates/common/src/config/suite_config.rs,
      the configuration of the servers, its checks and its redaction.
    - [CommandLedger], [CommandLedgerProofs]:
      crates/agent/src/execution/command_ledger.rs.  The disk is a directory of
      files with a stream of failures; operations are actions in a state and
      error monad.  The classes [Platform] and [PlatformLaws] state what is used
      of the crates the agent links.
    - [AgentCommands], [AgentTunnelSync], [AgentHandlers]:
      crates/agent/src/runtime/runtime.rs, runtime_config_cache.rs,
      config_update.rs and crates/agent/src/execution/command_worker.rs.  The
      state [World] is what survives a lost connection; [agent_step] is one turn
      of the event loop, and [agent_run] any sequence of frames, reports of
      tasks, failing sends and disk operations, disconnects, cleanups and
      restarts.  [AgentTunnelSync] is the body of a configuration
      synchronisation, with the executors of single tunnels as inputs.  Proofs
      in [AgentCommandProofs] (replay cache, cached configuration),
      [AgentRunProofs] (every turn is a sequence of a few kinds of changes; the
      invariant), [AgentTheorems] and [AgentTunnelSyncProofs].
    - [ClientIp]: crates/api/src/auth/client_ip.rs.
    - [WebhookTarget], [WebhookProofs]:
      crates/server-core/src/runtime/webhook_target.rs, over the URL parser
      ([UrlOps]), name resolution and the HTTP client's configuration.
    - [PortForwarding]: crates/common/src/network/port_forwarding.rs and
      port_forwarding_pools.rs, with [PortForwardProofs].  [NftRender] and [NftReconcile]: port_forwarding.rs and
      port_forwarding_pools.rs of crates/agent/src/network (rendering; ownership, drift
      detection, reconciliation, inspection).  Theorems in [NftProofs],
      [NftPoolProofs], [NftReconcileProofs], [NftSizeProofs] and
      [NftAgentProofs].  [NftProgram] is the part of nft's language the rendered
      text is written in, with a printer and what a program does to a packet;
      [NftProgramProofs] shows that the text is such a program.  The nft binary is the environment: its answers are
      arguments, the programs it is given are outputs.
    - [ForwardAdapters], [ForwardAdapterProofs]:
      crates/agent/src/network/port_forwarding_adapters.rs and the consumer of
      port_forwarding.rs beside it.  An operation is a program on the state of the
      consumer, the inventory file and the answers of the environment; the
      process is killed when the answers end, so runs cover a kill at every
      effect.  The proofs use weakest preconditions ([wp]) of such programs.
    - [AlertEvents], [AlertEventProofs]: alert_event_expression.rs,
      alert_event_argv.rs and alert_policy_evidence.rs of
      crates/common/src/selection.
    - [Totp], [TotpProofs]: crates/api/src/auth/auth_totp.rs and security.rs, the
      roles and scopes of crates/server-core/src/lib.rs.
    - [OperatorAuth], [OperatorAuthProofs]:
      crates/api/src/repository/access/repository_auth.rs and
      repository_operator_totp.rs.  A database transaction is a function on
      [AuthDb]; a login is a program of several transactions, and the step
      relation interleaves any number of logins in flight.
    - [GatewayFence]: crates/gateway/src/runtime/state.rs (with the registry of
      sessions) and the fence, command, terminal and disconnect handlers of
      crates/gateway/src/transport/control.rs.  Each handler is a function on
      [GatewayState]; [step] and [run] interleave them.  Theorems in
      [GatewayFenceProofs].
    - [GatewaySessions]: the connection of an agent, crates/gateway/src/main.rs:
      the frames it handles, its pending commands, cancellations and terminal
      controls, and its end.  What the API answers to a post is an input.  A run
      interleaves any number of connections with the handlers of [GatewayFence].
      Proofs in [GatewaySessionProofs] and [GatewaySessionTheorems].

    [Transport] is built on [Frame]; [ExpressionParser] on [Expression], which is
    built on [VpsRules]; [AlertEvents] on the expressions; [NftRender] on
    [PortForwarding] and [NftReconcile] on both; [OperatorAuth] on [Totp].
    [ConfigValidation] calls the planner's checks and those of [PortForwarding];
    [JobCommands] carries configurations and plans; [JobAdmission] calls the
    checks of [FileTransfer] and [NetworkPlanner] and makes selectors that
    [ExpressionParser] reads; [Templates] evaluates conditions with [Expression];
    [GatewaySessions] is built on [GatewayFence]; [ForwardAdapters] on
    [NftReconcile] and on the errors of [CommandLedger]; [AgentHandlers] is built on
    all of these and on [CommandLedger].

    ** What the theorems show

    - Privilege assertions: no accepted assertion is accepted again
      ([verify_never_accepts_twice]); the replay cache's invariant and exact
      acceptance condition; signed assertions are accepted; and a variant
      spelling of a nonce that the cache does not recognise
      ([nonce_case_variant_replays]).
    - Frames and transport: codec round trips in both directions, incremental
      decoding, compression, end-to-end in-order delivery over any fragmentation
      of frames whose sequence numbers grow,
      cancellation safety, monotone sequence numbers, termination of the read
      loop, and identity pinning of the handshake.
    - File transfer: chunked round trip, soundness of what is accepted, accepted
      paths.
    - VPS rules: exact quota arithmetic, acceptance of selector lists, canonical
      texts as fixed points (with the one exception,
      [rate_interface_reserved_word]), and the meaning of a stored interface
      policy.
    - Expressions: three-valued verdicts are sound for every completion of the
      missing evidence; the glob loop decides the declarative glob relation (with
      the exception [star_in_value_defeats_wildcard]); parsing is total and the
      typed grammar bounds nesting (the selector grammar does not,
      [selector_nesting_unbounded]); every
      expression has a text that parses back to it; the id selector is exact.
    - Templates: parsing is total ([parse_template_total]); an accepted template
      renders; scalar rendering is rendering; a cut substitution is the longest
      that fits.
    - Tags: the natural order is total; insertion keeps blocks together.
    - Allocation: the allocator returns the first free aligned subnet and keeps
      the endpoints an operator chose.
    - Network planning: the addresses of a plan are distinct; what the planner
      accepts can be rendered (with the exception
      [blank_underlay_accepted_not_rendered]) and is not refused by the agent's
      repeated checks; adjusted link costs are exact; overrides keep the lines the
      generator owns; addresses print and parse back.
    - Configurations and commands: accepted configurations run only absolute
      programs with bounded arguments; a synchronisation keeps a configuration
      accepted; the published tables agree with the types; dispatched versions
      are accepted.
    - Job admission: a command the API admits passes the checks the agent's
      executors make of it, on an agent that is fit for it
      ([admitted_commands_pass_agent], [agent_fit]; what only the agent refuses
      is [agent_asks_no_more], with [padded_service_name_refused_by_agent],
      [binary_text_refused_by_agent], [artifact_url_refused_by_agent],
      [padded_archive_path_refused_by_agent] and [slashes_refused_by_agent]), and
      names absolute programs only; the selector of a fixed list of plain ids
      selects exactly the list; the status of a job says what its targets did.
    - Suite configuration: redaction hides exactly what names a secret or shows
      the credentials of the first URL of a text (not of the next,
      [second_url_shown]); an accepted configuration loads, and its limits
      are usable by the components that read it ([accepted_suite_usable]).
    - Agent: over every run a job the agent knows of is not started again
      ([job_started_once]), an exclusive command runs alone, accepted versions
      never go back and survive restarts, outputs leave in order, the replay
      cache keeps its limits; ledger records are atomic and cleanup keeps the
      newest entries; a synchronisation reported as applied did all of it
      ([applied_sync_converged], with the exception
      [duplicated_tunnel_hides_change]).
    - Addresses: a client behind proxies cannot choose the address it is seen
      under (text that is no list of addresses gives the peer's); a webhook reaches public addresses only.
    - Port forwarding: an accepted configuration gives every port to one rule;
      the rendered text is a program that sends packets where the rules say and
      gives every pool endpoint its weight ([packets_follow_the_rules]); the size
      estimate bounds the text, so what the server accepts the agent renders; no
      foreign table is touched; a table reported applied has the hash of one that
      was applied, by its structure only when the monitor saw no event
      ([reported_applied_sound]; the limit is [monitor_gap_unnoticed]);
      reconciliation settles; whatever fails and wherever the process is killed, a
      rule an adapter was started for stays in the inventory on disk, and a removal
      receipt means that the adapter in charge reported it absent
      ([started_rules_recoverable], [receipts_prove_absence]; the limits are
      [adopted_adapter_receipted], [residue_of_replaced_adapter_receipted] and
      [canceled_inspection_reports_applied]).
    - Alert events: schedules fire only on the edges they name; rendered
      arguments are exactly the template's.
    - Sign-in: over every interleaving a one-time code step and a refresh token
      are used once; the throttle bounds guesses; a session needs its
      credentials; codes and secrets round-trip.
    - Gateway fences: every handler refines a small per-client automaton
      ([act], [expires]); by induction on runs, a confirmed lease excludes
      dispatches, a fence holds until it is released, a deletion lease is
      exclusive, retirement is permanent, ownership is well formed, and an
      accepted prepare reports exactly the commands in flight.
    - Gateway connections: over every run a caller is answered at most once, a
      registered session leads to a live connection, a client under a deletion
      lease is closed off, and a living connection has posted every output it
      took, in order.

    ** Parameters, fuel and integers

    Third-party code is an argument: SHA-256, HMAC and hex ([Auth]), LZ4
    ([Frame]), the Noise session and handshake ([Transport]), base64 and the
    digest ([FileTransfer]), the regex engine, RFC 3339 parsing and float
    printing ([Expression]), ipnet ([NetworkAllocator]), the URL parser and name
    resolution ([WebhookTarget]), HMAC-SHA-1, Argon2 and the cipher of stored
    secrets ([Totp]), UUID and JSON texts ([NftRender], [NftReconcile],
    [CommandLedger], [AgentCommands], [JobAdmission]), X25519
    ([ConfigValidation]), the JSON parser and the text of JSON values and floats
    ([Templates]), the JSON of inventories, requests and observations
    ([ForwardAdapters]), TOML ([SuiteConfig]).  What a
    theorem needs of it (a codec undoes itself, a digest is 64 hex digits, the
    Noise reader decrypts in order what its peer encrypted) is a hypothesis, and
    each such theorem is applied to a concrete instance in its witness.

    Fuel: the tokenizer takes the length of its input, since every turn consumes
    a char; the parser takes four calls per token plus four
    ([parse_expression_total] shows it is enough); the glob loop takes
    [glob_fuel], a bound on its backtracking measure
    ([wildcard_literal_matches_glob] shows it is enough); the frame reader takes
    the number of unread bytes ([read_frame_terminates]); the template visitor
    takes the length of the template ([visit_template_parts_eq]); the parser of
    message templates takes [template_fuel], two calls per character plus two
    ([parse_template_total]); natural
    comparison, tag blocks and base 32 take the length of their input, each turn
    consuming some of it; integer printing takes the binary length.  Recursive
    calls have no stack limit.  Integers are
    [Z] with the checked, saturating, wrapping or bounded operation the source
    uses written out; a UUID is its 128-bit value.

    Gateway handlers hold the client's lifecycle lock, so each is one atomic
    transition; a second clock reading of a handler is an argument of its own.
    The port-forwarding consumer of the agent is one task, so each of its
    operations is one transition.  The agent's event loop handles one event at a
    time, so each turn is one transition; its tasks run beside it and are seen
    through what they report.

    ** Not modelled

    The rest of crates/api and crates/worker is SQL and HTTP around queries;
    crates/vpsctl, crates/object-store and the frontend are input and output.  Of
    the gateway, its client of the API with the spool, the listener and the
    reload of its configuration are not modelled; of the agent, what the
    executors do on the host once a request has passed their checks (shells,
    files, processes, packages, backups, single tunnels), telemetry, terminal
    sessions, self-updates and the connection; of port forwarding, the processes
    of nft and its probe; of crates/common, the metrics read
    from the operating system; of sign-in, the administration of operators. *)

From Stdlib Require Export ZArith Lia List.
From stdpp Require Export base list gmap option decidable numbers strings.

(** * Result, the error monad of the code *)

(** Rust's [Result<A, E>]. *)
Inductive result (E A : Type) : Type :=
| Ok (a : A)
| Err (e : E).

Arguments Ok {E A} a.
Arguments Err {E A} e.

#[export] Instance result_ret {E} : MRet (result E) := fun A a => Ok a.

#[export] Instance result_bind {E} : MBind (result E) :=
  fun A B k m => match m with Ok a => k a | Err e => Err e end.

#[export] Instance result_eq_dec {E A} `{EqDecision E, EqDecision A} :
  EqDecision (result E A).
Proof. solve_decision. Defined.

(** [Option::ok_or]. *)
Definition ok_or {E A} (o : option A) (e : E) : result E A :=
  match o with Some a => Ok a | None => Err e end.

(** [Result::ok]. *)
Definition ok {E A} (r : result E A) : option A :=
  match r with Ok a => Some a | Err _ => None end.

(** [Result::map_err]. *)
Definition map_err {E F A} (f : E -> F) (r : result E A) : result F A :=
  match r with Ok a => Ok a | Err e => Err (f e) end.

Definition is_ok {E A} (r : result E A) : bool :=
  match r with Ok _ => true | Err _ => false end.

(** [if !condition { return Err(e) }]. *)
Definition guard_err {E} (c : bool) (e : E) : result E unit :=
  if c then Ok tt else Err e.

(** [iter().map(f).collect::<Result<Vec<_>, _>>()]: the first error wins. *)
Fixpoint try_map {E A B} (f : A -> result E B) (l : list A) : result E (list B) :=
  match l with
  | [] => Ok []
  | a :: l' => b ← f a; bs ← try_map f l'; Ok (b :: bs)
  end.

(** [for x in l { f(x)? }] with an accumulator. *)
Fixpoint try_fold {E A S} (f : S -> A -> result E S) (s : S) (l : list A) : result E S :=
  match l with
  | [] => Ok s
  | a :: l' => s' ← f s a; try_fold f s' l'
  end.

(** [if c { return Err(e) }]. *)
Definition reject_if {E} (c : bool) (e : E) : result E unit := if c then Err e else Ok tt.

(** [for x in l { f(x)? }]. *)
Fixpoint try_each {E A} (f : A -> result E unit) (l : list A) : result E unit :=
  match l with
  | [] => Ok tt
  | a :: l' => f a;; try_each f l'
  end.

(** * Machine integers as bounded [Z] *)

Definition u8_max : Z := 2 ^ 8 - 1.
Definition u16_max : Z := 2 ^ 16 - 1.
Definition u32_max : Z := 2 ^ 32 - 1.
Definition u64_max : Z := 2 ^ 64 - 1.
Definition u128_max : Z := 2 ^ 128 - 1.
Definition i32_max : Z := 2 ^ 31 - 1.
Definition i32_min : Z := - 2 ^ 31.
Definition i64_max : Z := 2 ^ 63 - 1.
Definition i64_min : Z := - 2 ^ 63.
Definition i128_max : Z := 2 ^ 127 - 1.
Definition i128_min : Z := - 2 ^ 127.

(** Unsigned arithmetic at a width given by its maximum. *)
Definition saturating_add (max a b : Z) : Z := Z.min max (a + b).
Definition saturating_sub (a b : Z) : Z := Z.max 0 (a - b).
Definition saturating_mul (max a b : Z) : Z := Z.min max (a * b).
Definition checked_add (max a b : Z) : option Z :=
  if (a + b <=? max)%Z then Some (a + b)%Z else None.
Definition checked_mul (max a b : Z) : option Z :=
  if (a * b <=? max)%Z then Some (a * b)%Z else None.
Definition in_range (lo hi a : Z) : bool := ((lo <=? a) && (a <=? hi))%Z.

(** * Bytes *)

(** The [n] big-endian bytes of [v]: [to_be_bytes], [put_u16], [put_u32], ... *)
Fixpoint be_bytes (n : nat) (v : Z) : list Z :=
  match n with
  | O => []
  | S n' => (v / 256 ^ Z.of_nat n' mod 256)%Z :: be_bytes n' v
  end.

(** The big-endian value of a byte string: [from_be_bytes], [get_u16], ... *)
Definition be_val (bs : list Z) : Z := foldl (fun acc b => acc * 256 + b)%Z 0%Z bs.

(** [from_le_bytes]. *)
Definition le_val (bs : list Z) : Z := be_val (rev bs).

Definition is_byte (b : Z) : Prop := (0 <= b < 256)%Z.

(** * Proof automation *)

(** Inverts one monadic step in a hypothesis [bind .. = Ok ..]. *)
Ltac inv_bind :=
  repeat match goal with
  | H : mbind _ ?m = Ok _ |- _ =>
      let E := fresh "E" in destruct m eqn:E; cbn [mbind result_bind] in H;
      [| discriminate H]
  | H : guard_err ?c _ = Ok _ |- _ =>
      let E := fresh "G" in destruct c eqn:E; cbn [guard_err] in H;
      [clear H | discriminate H]
  | H : Ok _ = Ok _ |- _ => injection H as H
  | H : Err _ = Ok _ |- _ => discriminate H
  | H : ok_or ?o _ = Ok _ |- _ =>
      let E := fresh "O" in destruct o eqn:E; cbn [ok_or] in H;
      [injection H as H | discriminate H]
  | H : map_err _ ?r = Ok _ |- _ =>
      let E := fresh "M" in destruct r eqn:E; cbn [map_err] in H;
      [injection H as H | discriminate H]
  end.

(** [Forall is_byte] of a literal byte string. *)
Ltac bytes :=
  repeat first [apply Forall_nil_2 | apply Forall_cons_2; [unfold is_byte; lia|]].

(** Turns boolean tests into propositions. *)
Ltac bools :=
  repeat match goal with
  | H : _ && _ = true |- _ => apply andb_prop in H; destruct H
  | H : _ || _ = false |- _ => apply orb_false_elim in H; destruct H
  | H : negb _ = true |- _ => apply negb_true_iff in H
  | H : negb _ = false |- _ => apply negb_false_iff in H
  | H : (_ <=? _)%Z = true |- _ => apply Z.leb_le in H
  | H : (_ <=? _)%Z = false |- _ => apply Z.leb_gt in H
  | H : (_ <? _)%Z = true |- _ => apply Z.ltb_lt in H
  | H : (_ <? _)%Z = false |- _ => apply Z.ltb_ge in H
  | H : (_ =? _)%Z = true |- _ => apply Z.eqb_eq in H
  | H : (_ =? _)%Z = false |- _ => apply Z.eqb_neq in H
  | H : bool_decide _ = true |- _ => apply bool_decide_eq_true in H
  | H : bool_decide _ = false |- _ => apply bool_decide_eq_false in H
  end.

(** * Generic lemmas *)

Lemma reject_if_ok {E} c (e : E) u : reject_if c e = Ok u -> c = false.
Proof. by destruct c. Qed.

Lemma try_each_ok {E A} (f : A -> result E unit) l u : try_each f l = Ok u -> forall a, In a l -> f a = Ok tt.
Proof.
  induction l as [|a l IH]; intros H b; [done|]. cbn [try_each] in H.
  destruct (f a) as [[]|] eqn:F; [|done]. intros [<-|Hb]; [done|]. by apply IH.
Qed.

Lemma try_each_all {E A} (f : A -> result E unit) l : (forall a, In a l -> f a = Ok tt) -> try_each f l = Ok tt.
Proof.
  induction l as [|a l IH]; intros H; [done|]. cbn [try_each]. rewrite (H a) by (by left). cbn.
  apply IH. intros b Hb. apply H. by right.
Qed.

(** Takes a successful chain of checks apart. *)
Ltac inv_checks :=
  repeat match goal with
  | H : mbind _ ?m = Ok _ |- _ =>
      let E := fresh "E" in destruct m eqn:E; cbn [mbind result_bind] in H; [|discriminate H]
  | H : reject_if _ _ = Ok _ |- _ => apply reject_if_ok in H
  | H : ok_or ?o _ = Ok _ |- _ =>
      let E := fresh "O" in destruct o eqn:E; cbn [ok_or] in H; [injection H as H | discriminate H]
  | u : () |- _ => destruct u
  end.

Lemma try_map_ok {E A B} (f : A -> result E B) l bs :
  try_map f l = Ok bs -> Forall2 (fun a b => f a = Ok b) l bs.
Proof.
  revert bs; induction l as [|a l IH]; intros bs H; cbn in H; [by simplify_eq|].
  inv_bind. subst. constructor; auto.
Qed.

Lemma try_fold_app {E A S} (f : S -> A -> result E S) s l1 l2 :
  try_fold f s (l1 ++ l2) = (s' ← try_fold f s l1; try_fold f s' l2).
Proof.
  revert s; induction l1 as [|a l1 IH]; intros s; cbn; [done|].
  destruct (f s a); cbn; auto.
Qed.

Lemma Ok_inj {E A} (a b : A) : @Ok E A a = Ok b -> a = b.
Proof. congruence. Qed.

Lemma existsb_false {A} (f : A -> bool) l x : existsb f l = false -> In x l -> f x = false.
Proof.
  intros H Hin. destruct (f x) eqn:E; [|done].
  assert (existsb f l = true) by (apply existsb_exists; eauto). congruence.
Qed.

(** ** Big-endian bytes *)

Lemma length_be_bytes n v : length (be_bytes n v) = n.
Proof. induction n; cbn; auto. Qed.

Lemma be_bytes_byte n v : Forall is_byte (be_bytes n v).
Proof.
  induction n as [|n IH]; cbn; constructor; auto.
  apply Z.mod_pos_bound. lia.
Qed.

Lemma be_val_app_go acc bs :
  foldl (fun a b => a * 256 + b)%Z acc bs = (acc * 256 ^ Z.of_nat (length bs) + be_val bs)%Z.
Proof.
  unfold be_val. revert acc. induction bs as [|b bs IH]; intros acc; cbn [foldl].
  - cbn. lia.
  - rewrite IH, (IH (0 * 256 + b)%Z).
    replace (Z.of_nat (length (b :: bs))) with (Z.of_nat (length bs) + 1)%Z by (cbn; lia).
    rewrite Z.pow_add_r by lia. lia.
Qed.

Lemma be_val_cons b bs : be_val (b :: bs) = (b * 256 ^ Z.of_nat (length bs) + be_val bs)%Z.
Proof. unfold be_val at 1. cbn [foldl]. rewrite be_val_app_go. lia. Qed.

(** Reading back a value that fits. *)
Lemma be_val_be_bytes n v : (0 <= v < 256 ^ Z.of_nat n)%Z -> be_val (be_bytes n v) = v.
Proof.
  assert (G : forall v, (0 <= v)%Z -> be_val (be_bytes n v) = (v mod 256 ^ Z.of_nat n)%Z).
  - clear v. intros v Hv. induction n as [|n IH].
    + cbn. by rewrite Z.mod_1_r.
    + cbn [be_bytes]. rewrite be_val_cons, IH, length_be_bytes.
      rewrite Nat2Z.inj_succ, Z.pow_succ_r by lia.
      rewrite (Z.mul_comm 256), Z.rem_mul_r by lia. lia.
  - intros H. rewrite G by lia. by apply Z.mod_small.
Qed.

Lemma be_val_bounds bs : Forall is_byte bs -> (0 <= be_val bs < 256 ^ Z.of_nat (length bs))%Z.
Proof.
  induction 1 as [|b bs Hb Hbs IH]; [cbn; lia|].
  rewrite be_val_cons. cbn [length]. rewrite Nat2Z.inj_succ, Z.pow_succ_r by lia.
  unfold is_byte in Hb. nia.
Qed.

Lemma be_bytes_be_val bs : Forall is_byte bs -> be_bytes (length bs) (be_val bs) = bs.
Proof.
  assert (G : forall n k bs, Forall is_byte bs -> (length bs = n)%nat ->
    be_bytes n (k * 256 ^ Z.of_nat n + be_val bs)%Z = bs).
  - intros n. induction n as [|n IH]; intros k cs Hcs Hl; destruct cs as [|c cs]; try done.
    apply Forall_cons_iff in Hcs as [Hc Hcs]. injection Hl as Hl. cbn [be_bytes].
    rewrite be_val_cons, Hl, Nat2Z.inj_succ. rewrite Z.pow_succ_r by lia.
    pose proof (be_val_bounds cs Hcs) as Hb. rewrite Hl in Hb.
    set (p := (256 ^ Z.of_nat n)%Z) in *. assert (0 < p)%Z by lia.
    replace (k * (256 * p) + (c * p + be_val cs))%Z with ((k * 256 + c) * p + be_val cs)%Z by lia.
    f_equal.
    + rewrite Z.div_add_l by lia. rewrite (Z.div_small (be_val cs)) by lia. rewrite Z.add_0_r.
      rewrite Z.add_comm, Z_mod_plus_full. by apply Z.mod_small.
    + by apply IH.
  - intros H. pose proof (G (length bs) 0%Z bs H eq_refl) as E.
    by rewrite Z.mul_0_l, Z.add_0_l in E.
Qed.

Lemma filter_none {A} (p : A -> bool) l : List.filter p l = [] <-> forall x, In x l -> p x = false.
Proof.
  induction l as [|a l IH]; cbn; [by split|]. destruct (p a) eqn:E; split.
  - done.
  - intros H. rewrite (H a) in E by auto. done.
  - intros H x [->|Hx]; [done|]. by apply IH.
  - intros H. apply IH. auto.
Qed.
