(* ===== verification/RustStd.v ===== *)
(** Rust's [char], [str] and integer text conversions.

    A [char] is its Unicode scalar value as a [Z]; a [str] is the list of its
    chars.  [as_bytes] is the UTF-8 encoding, so [len] and the byte-wise
    operations of the code are those of the encoding.  The integer parsers and
    printers follow [FromStr] and [Display]; the round trip between them is
    proved here and used by the components. *)

From Stdlib Require Import Ascii.
From S2P Require Import Prelude.

Open Scope Z_scope.

Abbreviation char := Z (only parsing).
Abbreviation str := (list Z) (only parsing).

(** An ASCII literal of the source. *)
Definition lit (s : string) : str :=
  map (fun a => Z.of_N (N_of_ascii a)) (String.list_ascii_of_string s).

Definition str_eqb (a b : str) : bool := bool_decide (a = b).

(** [matches!(s, "a" | "b" | ..)]. *)
Definition one_of (s : str) (l : list string) : bool :=
  existsb (fun x => str_eqb s (lit x)) l.

(** * Characters *)

Definition is_ascii_digit (c : char) : bool := in_range 48 57 c.
Definition is_ascii_uppercase (c : char) : bool := in_range 65 90 c.
Definition is_ascii_lowercase (c : char) : bool := in_range 97 122 c.
Definition is_ascii_alphabetic (c : char) : bool :=
  is_ascii_uppercase c || is_ascii_lowercase c.
Definition is_ascii_hexdigit (c : char) : bool :=
  is_ascii_digit c || in_range 65 70 c || in_range 97 102 c.
(** [char::is_control]: the general category Cc. *)
Definition is_control (c : char) : bool := in_range 0 31 c || in_range 127 159 c.
(** [char::is_whitespace]: the property White_Space. *)
Definition is_whitespace (c : char) : bool :=
  in_range 9 13 c || (c =? 32) || (c =? 133) || (c =? 160) || (c =? 5760)
  || in_range 8192 8202 c || (c =? 8232) || (c =? 8233) || (c =? 8239)
  || (c =? 8287) || (c =? 12288).

Definition lower (c : char) : char := if is_ascii_uppercase c then c + 32 else c.
Definition upper (c : char) : char := if is_ascii_lowercase c then c - 32 else c.

Definition to_ascii_lowercase (s : str) : str := map lower s.
Definition to_ascii_uppercase (s : str) : str := map upper s.
Definition eq_ignore_ascii_case (a b : str) : bool :=
  str_eqb (to_ascii_lowercase a) (to_ascii_lowercase b).

(** * UTF-8 *)

Definition utf8_char (c : char) : list Z :=
  if c <? 128 then [c]
  else if c <? 2048 then [192 + c / 64; 128 + c mod 64]
  else if c <? 65536 then [224 + c / 4096; 128 + (c / 64) mod 64; 128 + c mod 64]
  else [240 + c / 262144; 128 + (c / 4096) mod 64; 128 + (c / 64) mod 64; 128 + c mod 64].

Definition as_bytes (s : str) : list Z := concat (map utf8_char s).

(** [str::len]: bytes of the encoding. *)
Definition str_len (s : str) : Z := Z.of_nat (List.length (as_bytes s)).

Definition vec_len {A} (l : list A) : Z := Z.of_nat (List.length l).

Definition is_empty {A} (l : list A) : bool := match l with [] => true | _ => false end.

(** * Searching and splitting *)

Fixpoint strip_prefix (p s : str) : option str :=
  match p, s with
  | [], _ => Some s
  | _ :: _, [] => None
  | a :: p', b :: s' => if a =? b then strip_prefix p' s' else None
  end.

Definition starts_with (s p : str) : bool := bool_decide (is_Some (strip_prefix p s)).

Definition contains_char (c : char) (s : str) : bool := existsb (Z.eqb c) s.

(** [s.contains(p)]: [p] occurs as a substring. *)
Fixpoint contains_str (s p : str) : bool :=
  starts_with s p || match s with [] => false | _ :: s' => contains_str s' p end.

(** The longest prefix whose chars all satisfy [p], and the rest: the split at
    [s.find(|c| !p(c))]. *)
Fixpoint span (p : char -> bool) (s : str) : str * str :=
  match s with
  | [] => ([], [])
  | c :: s' => if p c then let '(a, b) := span p s' in (c :: a, b) else ([], s)
  end.

(** [s.split_once(c)]. *)
Fixpoint split_once (c : char) (s : str) : option (str * str) :=
  match s with
  | [] => None
  | a :: s' =>
      if a =? c then Some ([], s')
      else match split_once c s' with
           | Some (l, r) => Some (a :: l, r)
           | None => None
           end
  end.

(** [s.rsplit_once(c)]. *)
Definition rsplit_once (c : char) (s : str) : option (str * str) :=
  '(r, l) ← split_once c (rev s); Some (rev l, rev r).

(** [s.split(c)]: never empty. *)
Fixpoint split (c : char) (s : str) : list str :=
  match s with
  | [] => [[]]
  | a :: s' =>
      if a =? c then [] :: split c s'
      else match split c s' with
           | w :: ws => (a :: w) :: ws
           | [] => [[a]]
           end
  end.

(** [s.lines()]: pieces between newlines, each without a carriage return before
    its newline; a last piece without newline counts unless it is empty. *)
Definition strip_cr (line : str) : str :=
  match rev line with
  | 13 :: r => rev r
  | _ => line
  end.
Fixpoint lines_of (pieces : list str) : list str :=
  match pieces with
  | [] => []
  | [piece] => if is_empty piece then [] else [piece]
  | piece :: pieces' => strip_cr piece :: lines_of pieces'
  end.
Definition lines (s : str) : list str := lines_of (split 10 s).

(** [s.split_whitespace()]: the maximal runs of non-white-space chars. *)
Fixpoint split_ws_go (cur : str) (s : str) : list str :=
  match s with
  | [] => if is_empty cur then [] else [cur]
  | a :: s' =>
      if is_whitespace a
      then if is_empty cur then split_ws_go [] s' else cur :: split_ws_go [] s'
      else split_ws_go (cur ++ [a]) s'
  end.
Definition split_whitespace (s : str) : list str := split_ws_go [] s.

(** [parts.join(sep)]. *)
Fixpoint join (sep : str) (parts : list str) : str :=
  match parts with
  | [] => []
  | [p] => p
  | p :: ps => p ++ sep ++ join sep ps
  end.

Fixpoint drop_while (p : char -> bool) (s : str) : str :=
  match s with
  | [] => []
  | c :: s' => if p c then drop_while p s' else s
  end.

Definition trim_start (s : str) : str := drop_while is_whitespace s.
Definition trim_end (s : str) : str := rev (drop_while is_whitespace (rev s)).
Definition trim (s : str) : str := trim_end (trim_start s).
Definition trim_start_matches (c : char) (s : str) : str := drop_while (Z.eqb c) s.
Definition trim_end_matches (c : char) (s : str) : str :=
  rev (drop_while (Z.eqb c) (rev s)).

(** [s.strip_suffix(c)] and [s.ends_with(c)]. *)
Definition strip_suffix_char (c : char) (s : str) : option str :=
  match rev s with
  | d :: r => if d =? c then Some (rev r) else None
  | [] => None
  end.
Definition ends_with_char (c : char) (s : str) : bool :=
  bool_decide (is_Some (strip_suffix_char c s)).

(** [s.trim_end_matches(p)] of a string [p]: strips it as often as it ends [s]. *)
Fixpoint trim_prefix_go (fuel : nat) (p s : str) : str :=
  match fuel with
  | O => s
  | S fuel' => match strip_prefix p s with Some r => trim_prefix_go fuel' p r | None => s end
  end.
Definition trim_start_matches_str (p s : str) : str := trim_prefix_go (length s) p s.
Definition trim_end_matches_str (p s : str) : str :=
  rev (trim_prefix_go (length s) (rev p) (rev s)).

(** [s.matches(c).count()]. *)
Definition count_char (c : char) (s : str) : Z := vec_len (List.filter (Z.eqb c) s).

(** * Integers as text *)

Definition digit_val (c : char) : Z := c - 48.

(** The value of a digit string. *)
Fixpoint digits_val_go (acc : Z) (s : str) : Z :=
  match s with
  | [] => acc
  | c :: s' => digits_val_go (10 * acc + digit_val c) s'
  end.
Definition digits_val (s : str) : Z := digits_val_go 0 s.

Definition all_digits (s : str) : bool := forallb is_ascii_digit s.

(** The digits of a non-empty digit string, or an error. *)
Definition parse_digits (s : str) : option Z :=
  if negb (is_empty s) && all_digits s then Some (digits_val s) else None.

Definition bounded (lo hi : Z) (o : option Z) : option Z :=
  match o with
  | Some v => if in_range lo hi v then Some v else None
  | None => None
  end.

(** [s.parse::<uN>()]: an optional [+], then digits, at most the maximum. *)
Definition parse_unsigned (max : Z) (s : str) : option Z :=
  bounded 0 max
    match s with
    | 43 :: s' => parse_digits s'
    | _ => parse_digits s
    end.

(** [s.parse::<iN>()]: an optional sign, then digits, within the range. *)
Definition parse_signed (min max : Z) (s : str) : option Z :=
  bounded min max
    match s with
    | 43 :: s' => parse_digits s'
    | 45 :: s' => option_map Z.opp (parse_digits s')
    | _ => parse_digits s
    end.

(** The decimal digits of a non-negative number. *)
Fixpoint print_digits (fuel : nat) (n : Z) (acc : str) : str :=
  match fuel with
  | O => acc
  | S fuel' =>
      let acc' := (48 + n mod 10) :: acc in
      if n <? 10 then acc' else print_digits fuel' (n / 10) acc'
  end.

(** [n.to_string()]; [S (log2 n)] divisions by ten reach a single digit. *)
Definition to_string (n : Z) : str :=
  if n <? 0 then 45 :: print_digits (S (Z.to_nat (Z.log2 (- n)))) (- n) []
  else print_digits (S (Z.to_nat (Z.log2 n))) n [].

(** [format!("{n:02}")] of a non-negative number. *)
Definition pad2 (n : Z) : str :=
  let t := to_string n in if (vec_len t <? 2) then 48 :: t else t.

(** * Lemmas *)

Create HintDb rust.

Lemma vec_len_nonneg {A} (l : list A) : 0 <= vec_len l.
Proof. unfold vec_len. lia. Qed.

Lemma str_eqb_eq a b : str_eqb a b = true <-> a = b.
Proof. unfold str_eqb. apply bool_decide_eq_true. Qed.

Lemma str_eqb_refl a : str_eqb a a = true.
Proof. by apply str_eqb_eq. Qed.

Lemma str_eqb_neq a b : str_eqb a b = false <-> a <> b.
Proof. unfold str_eqb. apply bool_decide_eq_false. Qed.

Lemma one_of_spec s l : one_of s l = true <-> exists x, In x l /\ s = lit x.
Proof.
  unfold one_of. rewrite existsb_exists.
  split; intros (x & ? & H); exists x; split; auto; by apply str_eqb_eq.
Qed.

Lemma lower_idemp c : lower (lower c) = lower c.
Proof.
  unfold lower, is_ascii_uppercase, in_range.
  repeat (case_match; bools; try lia). all: exfalso; lia.
Qed.

Lemma to_ascii_lowercase_idemp s :
  to_ascii_lowercase (to_ascii_lowercase s) = to_ascii_lowercase s.
Proof.
  unfold to_ascii_lowercase. rewrite map_map. apply map_ext, lower_idemp.
Qed.

(** ** Prefixes, splits *)

Lemma strip_prefix_spec p s r : strip_prefix p s = Some r <-> s = p ++ r.
Proof.
  revert s; induction p as [|a p IH]; intros [|b s]; cbn.
  1, 2: naive_solver.
  1: split; [done|]; intros ?; discriminate.
  destruct (Z.eqb_spec a b) as [->|Hne]; [rewrite IH; naive_solver|].
  split; [done|naive_solver].
Qed.

Lemma starts_with_spec s p : starts_with s p = true <-> exists r, s = p ++ r.
Proof.
  unfold starts_with. rewrite bool_decide_eq_true.
  split; intros [r H]; exists r; by apply strip_prefix_spec.
Qed.

Lemma split_once_spec c s l r :
  split_once c s = Some (l, r) <-> s = l ++ c :: r /\ c ∉ l.
Proof.
  revert l; induction s as [|a s IH]; intros l; cbn.
  - split; [done|]. intros [H _]. by destruct l.
  - destruct (Z.eqb_spec a c) as [->|Hne].
    + split.
      * intros [= <- <-]. split; [done|]. apply not_elem_of_nil.
      * intros [H Hn]. destruct l as [|x l]; [by simplify_eq/=|].
        simplify_eq/=. exfalso. apply Hn. by left.
    + destruct (split_once c s) as [[l' r']|] eqn:E.
      * split.
        -- intros [= <- <-]. destruct (proj1 (IH l')) as [-> Hn]; [done|].
           split; [done|]. apply not_elem_of_cons; naive_solver.
        -- intros [H Hn]. destruct l as [|x l]; [naive_solver|].
           simplify_eq/=. apply not_elem_of_cons in Hn as [_ Hn].
           destruct (proj2 (IH l)) as []; [done|]. naive_solver.
      * split; [done|]. intros [H Hn]. destruct l as [|x l]; [naive_solver|].
        simplify_eq/=. apply not_elem_of_cons in Hn as [_ Hn].
        by assert (H : None = Some (l, r)) by (apply IH; done).
Qed.

Lemma split_once_None c s : split_once c s = None <-> c ∉ s.
Proof.
  induction s as [|a s IH]; cbn; [split; [intros _; apply not_elem_of_nil|done]|].
  rewrite not_elem_of_cons. destruct (Z.eqb_spec a c) as [->|Hne]; [naive_solver|].
  destruct (split_once c s) as [[l r]|]; naive_solver.
Qed.

Lemma split_nonempty c s : split c s <> [].
Proof.
  induction s as [|a s IH]; cbn; [done|]. case_match; [done|].
  by destruct (split c s).
Qed.

Lemma join_cons sep p ps : ps <> [] -> join sep (p :: ps) = p ++ sep ++ join sep ps.
Proof. by destruct ps. Qed.

Lemma join_split c s : join [c] (split c s) = s.
Proof.
  induction s as [|a s IH]; [done|]. cbn [split].
  destruct (Z.eqb_spec a c) as [->|Hne].
  - rewrite join_cons by apply split_nonempty. by rewrite IH.
  - pose proof (split_nonempty c s). destruct (split c s) as [|w ws] eqn:E; [done|].
    rewrite <- IH. destruct ws; done.
Qed.

Lemma split_concat c a b : split c (a ++ c :: b) = split c a ++ split c b.
Proof.
  induction a as [|x a IH]; cbn; [by rewrite Z.eqb_refl|].
  destruct (x =? c); cbn; [by rewrite IH|].
  rewrite IH. destruct (split c a) eqn:E; [|done]. by apply split_nonempty in E.
Qed.

Lemma split_no_sep c s : c ∉ s -> split c s = [s].
Proof.
  induction s as [|a s IH]; intros H; [done|]. cbn [split].
  apply not_elem_of_cons in H as [H1 H2].
  destruct (Z.eqb_spec a c); [congruence|]. by rewrite IH.
Qed.

Lemma split_app c w s : c ∉ w -> split c (w ++ c :: s) = w :: split c s.
Proof.
  induction w as [|a w IH]; intros H; cbn.
  - by rewrite Z.eqb_refl.
  - apply not_elem_of_cons in H as [H1 H2].
    destruct (Z.eqb_spec a c); [congruence|]. by rewrite IH.
Qed.

(** Splitting what [join] glued gives back the parts. *)
Lemma split_join c ws :
  ws <> [] -> Forall (fun w => c ∉ w) ws -> split c (join [c] ws) = ws.
Proof.
  induction ws as [|w ws IH]; intros Hne H; [done|].
  apply Forall_cons_iff in H as [Hw H]. destruct ws as [|w' ws].
  - by apply split_no_sep.
  - rewrite join_cons by done. cbn [app]. rewrite split_app by done.
    by rewrite IH.
Qed.

Lemma split_parts c s : Forall (fun w => c ∉ w) (split c s).
Proof.
  induction s as [|a s IH]; cbn.
  - constructor; [apply not_elem_of_nil|done].
  - destruct (Z.eqb_spec a c) as [->|Hne].
    + constructor; [apply not_elem_of_nil|done].
    + destruct (split c s) as [|w ws]; apply Forall_cons_iff.
      * split; [apply not_elem_of_cons; split; [congruence|apply not_elem_of_nil]|done].
      * apply Forall_cons_iff in IH as [? ?].
        split; [apply not_elem_of_cons; split; [congruence|done]|done].
Qed.

(** ** Trimming *)

Lemma drop_while_id p s : (forall c, head s = Some c -> p c = false) -> drop_while p s = s.
Proof. destruct s as [|c s]; cbn; [done|]. intros H. by rewrite (H c). Qed.

Lemma drop_while_head p s c : head (drop_while p s) = Some c -> p c = false.
Proof.
  induction s as [|a s IH]; cbn; [done|]. destruct (p a) eqn:E; [done|].
  cbn. by intros [= <-].
Qed.

Lemma drop_while_suffix p s : exists l, s = l ++ drop_while p s /\ Forall (fun c => p c = true) l.
Proof.
  induction s as [|a s (l & IH & Hl)]; cbn; [by exists []|].
  destruct (p a) eqn:E; [exists (a :: l); split; [by f_equal/=|by constructor]|by exists []].
Qed.

Lemma trim_id s :
  (forall c, head s = Some c -> is_whitespace c = false) ->
  (forall c, head (rev s) = Some c -> is_whitespace c = false) -> trim s = s.
Proof.
  intros H1 H2. unfold trim, trim_start, trim_end.
  rewrite (drop_while_id _ s H1), (drop_while_id _ (rev s) H2).
  apply rev_involutive.
Qed.

Lemma trim_start_head s c : head (trim_start s) = Some c -> is_whitespace c = false.
Proof. apply drop_while_head. Qed.

Lemma trim_end_prefix s : exists r, s = trim_end s ++ r /\ Forall (fun c => is_whitespace c = true) r.
Proof.
  unfold trim_end. destruct (drop_while_suffix is_whitespace (rev s)) as (l & E & Hl).
  exists (rev l). split.
  - rewrite <- rev_app_distr, <- E. by rewrite rev_involutive.
  - by apply Forall_rev.
Qed.

Lemma trim_head s c : head (trim s) = Some c -> is_whitespace c = false.
Proof.
  unfold trim. destruct (trim_end_prefix (trim_start s)) as (r & E & _).
  intros H. apply (trim_start_head s). rewrite E.
  destruct (trim_end (trim_start s)); [done|]. cbn in *. congruence.
Qed.

Lemma trim_last s c : head (rev (trim s)) = Some c -> is_whitespace c = false.
Proof. unfold trim, trim_end. rewrite rev_involutive. apply drop_while_head. Qed.

Lemma trim_idemp s : trim (trim s) = trim s.
Proof. apply trim_id; [apply trim_head|apply trim_last]. Qed.

(** ** Decimal digits *)

Lemma digits_val_go_app acc s t :
  digits_val_go acc (s ++ t) = digits_val_go (digits_val_go acc s) t.
Proof. revert acc; induction s as [|c s IH]; intros acc; cbn; auto. Qed.

Lemma digits_val_go_acc acc s :
  digits_val_go acc s = acc * 10 ^ vec_len s + digits_val s.
Proof.
  unfold digits_val, vec_len. revert acc. induction s as [|c s IH]; intros acc; cbn [digits_val_go].
  - cbn. lia.
  - rewrite IH, (IH (10 * 0 + digit_val c)).
    replace (Z.of_nat (List.length (c :: s))) with (Z.of_nat (List.length s) + 1) by (cbn; lia).
    rewrite Z.pow_add_r by lia. lia.
Qed.

Lemma digits_val_nonneg s : all_digits s = true -> 0 <= digits_val s.
Proof.
  unfold digits_val. assert (G : forall acc, 0 <= acc -> all_digits s = true ->
    0 <= digits_val_go acc s); [|by intros; apply G].
  induction s as [|c s IH]; intros acc Ha H; cbn in *; [done|]. bools.
  apply IH; [|done]. unfold is_ascii_digit, in_range in *. bools. unfold digit_val. lia.
Qed.

(** With enough fuel, [print_digits] writes the digits of [n] in front of [acc]. *)
Lemma print_digits_spec fuel n acc :
  0 <= n < 10 ^ Z.of_nat fuel -> (0 < fuel)%nat ->
  exists d, print_digits fuel n acc = d ++ acc /\ all_digits d = true /\
            d <> [] /\ digits_val d = n /\ (10 <= n -> head d <> Some 48) /\
            (n < 10 -> List.length d = 1%nat).
Proof.
  revert n acc. induction fuel as [|fuel IH]; intros n acc Hn Hf; [lia|].
  cbn [print_digits].
  assert (Hd : is_ascii_digit (48 + n mod 10) = true).
  { unfold is_ascii_digit, in_range. pose proof (Z.mod_pos_bound n 10 ltac:(lia)).
    apply andb_true_intro; split; apply Z.leb_le; lia. }
  destruct (Z.ltb_spec n 10) as [H|H].
  - exists [48 + n mod 10]. split; [done|]. split; [cbn; by rewrite Hd|].
    split; [done|]. split; [unfold digits_val; cbn; unfold digit_val; rewrite Z.mod_small; lia|].
    split; [lia|done].
  - assert (Hq : 1 <= n / 10) by (apply Z.div_le_lower_bound; lia).
    assert (Hf' : (0 < fuel)%nat).
    { destruct fuel; [cbn in Hn; lia|lia]. }
    destruct (IH (n / 10) ((48 + n mod 10) :: acc)) as (d & -> & Hall & Hne & Hv & Hh & Hl).
    { split; [lia|]. apply Z.div_lt_upper_bound; [lia|].
      rewrite Nat2Z.inj_succ, Z.pow_succ_r in Hn by lia. lia. }
    { done. }
    exists (d ++ [48 + n mod 10]). rewrite <- app_assoc. split; [done|].
    split; [unfold all_digits in *; rewrite forallb_app, Hall; cbn; by rewrite Hd|].
    split; [by destruct d|]. split.
    + unfold digits_val in *. rewrite digits_val_go_app, Hv. cbn. unfold digit_val.
      pose proof (Z.div_mod n 10). lia.
    + split; [|lia]. intros _. destruct d as [|x d]; [done|]. cbn.
      destruct (Z.ltb_spec (n / 10) 10) as [Hlt|Hge]; [|by apply Hh].
      specialize (Hl Hlt). destruct d; [|done]. intros [= ->].
      unfold digits_val in Hv; cbn in Hv. unfold digit_val in Hv. lia.
Qed.

Lemma log2_fuel n : 0 <= n -> n < 10 ^ Z.of_nat (S (Z.to_nat (Z.log2 n))).
Proof.
  intros H. destruct (Z.eq_dec n 0) as [->|Hne]; [cbn; lia|].
  pose proof (Z.log2_spec n ltac:(lia)) as [_ Hl].
  rewrite Nat2Z.inj_succ, Z2Nat.id by apply Z.log2_nonneg.
  eapply Z.lt_le_trans; [exact Hl|].
  apply Z.pow_le_mono_l. pose proof (Z.log2_nonneg n). lia.
Qed.

(** What [to_string] writes for a non-negative number. *)
Lemma to_string_spec n :
  0 <= n -> all_digits (to_string n) = true /\ to_string n <> [] /\
            digits_val (to_string n) = n /\ (10 <= n -> head (to_string n) <> Some 48) /\
            (n < 10 -> List.length (to_string n) = 1%nat).
Proof.
  intros H. unfold to_string. destruct (Z.ltb_spec n 0); [lia|].
  destruct (print_digits_spec (S (Z.to_nat (Z.log2 n))) n []) as (d & E & ?).
  - split; [done|]. by apply log2_fuel.
  - lia.
  - rewrite E, app_nil_r. done.
Qed.

Lemma all_digits_head c s : all_digits (c :: s) = true -> 48 <= c <= 57.
Proof. cbn. intros H. bools. unfold is_ascii_digit, in_range in *. bools. lia. Qed.

Lemma parse_digits_all s : s <> [] -> all_digits s = true -> parse_digits s = Some (digits_val s).
Proof. intros H1 H2. unfold parse_digits. rewrite H2. by destruct s. Qed.

Lemma parse_unsigned_digits max s :
  s <> [] -> all_digits s = true -> digits_val s <= max ->
  parse_unsigned max s = Some (digits_val s).
Proof.
  intros Hne Ha Hm. unfold parse_unsigned.
  assert (E : match s with 43 :: s' => parse_digits s' | _ => parse_digits s end
              = Some (digits_val s)).
  { destruct s as [|c s]; [done|]. pose proof (all_digits_head c s Ha).
    rewrite <- parse_digits_all by done. repeat case_match; simplify_eq; lia || done. }
  rewrite E. cbn. unfold in_range. pose proof (digits_val_nonneg s Ha).
  rewrite (proj2 (Z.leb_le 0 _)), (proj2 (Z.leb_le _ max)) by lia. done.
Qed.

(** Parsing what [to_string] wrote gives the number back. *)
Lemma parse_unsigned_to_string max n :
  0 <= n <= max -> parse_unsigned max (to_string n) = Some n.
Proof.
  intros H. destruct (to_string_spec n) as (Ha & Hne & Hv & _); [lia|].
  rewrite parse_unsigned_digits by (done || lia). by rewrite Hv.
Qed.

Lemma parse_unsigned_bounds max s v : parse_unsigned max s = Some v -> 0 <= v <= max.
Proof.
  unfold parse_unsigned, bounded. intros H. repeat case_match; simplify_eq; unfold in_range in *; bools; lia.
Qed.

Lemma parse_signed_bounds min max s v : parse_signed min max s = Some v -> min <= v <= max.
Proof.
  unfold parse_signed, bounded. intros H. repeat case_match; simplify_eq; unfold in_range in *; bools; lia.
Qed.

(** ** ASCII text *)

Lemma as_bytes_ascii s : Forall (fun c => c < 128) s -> as_bytes s = s.
Proof.
  unfold as_bytes. induction 1 as [|c s Hc _ IH]; [done|].
  cbn [map concat]. rewrite IH. unfold utf8_char.
  rewrite (proj2 (Z.ltb_lt c 128)) by done. done.
Qed.

Lemma as_bytes_app s t : as_bytes (s ++ t) = as_bytes s ++ as_bytes t.
Proof. unfold as_bytes. by rewrite map_app, concat_app. Qed.

Lemma to_ascii_lowercase_id s :
  Forall (fun c => is_ascii_uppercase c = false) s -> to_ascii_lowercase s = s.
Proof.
  unfold to_ascii_lowercase. induction 1 as [|c s Hc _ IH]; [done|].
  cbn [map]. rewrite IH. unfold lower. by rewrite Hc.
Qed.

Lemma head_Forall {A} (P : A -> Prop) l x : Forall P l -> head l = Some x -> P x.
Proof. destruct 1; [done|]. cbn. intros [= <-]. done. Qed.

Lemma trim_no_ws s : Forall (fun c => is_whitespace c = false) s -> trim s = s.
Proof.
  intros H. apply trim_id.
  - intros c Hc. by apply (head_Forall _ _ _ H).
  - intros c Hc. by apply (head_Forall _ _ _ (Forall_rev H)).
Qed.

Lemma contains_char_spec c s : contains_char c s = true <-> c ∈ s.
Proof.
  unfold contains_char. rewrite existsb_exists, list_elem_of_In.
  split; [intros (x & Hx & E%Z.eqb_eq); by subst|intros H; exists c; split; [done|apply Z.eqb_refl]].
Qed.

Lemma contains_char_false c s : c ∉ s -> contains_char c s = false.
Proof. intros H. apply not_true_iff_false. by rewrite contains_char_spec. Qed.

(** ** Texts of numbers *)

Lemma all_digits_Forall s : all_digits s = true <-> Forall (fun c => 48 <= c <= 57) s.
Proof.
  unfold all_digits. rewrite forallb_forall, List.Forall_forall.
  unfold is_ascii_digit, in_range. split; intros H x Hx; specialize (H x Hx); bools; lia.
Qed.

Lemma all_digits_app s t : all_digits (s ++ t) = all_digits s && all_digits t.
Proof. apply forallb_app. Qed.

Lemma digits_as_bytes s : all_digits s = true -> as_bytes s = s.
Proof.
  rewrite all_digits_Forall. intros H. apply as_bytes_ascii.
  eapply Forall_impl; [exact H|]. cbn. lia.
Qed.

Lemma str_len_digits s : all_digits s = true -> str_len s = vec_len s.
Proof. intros H. unfold str_len. by rewrite digits_as_bytes. Qed.

Lemma print_digits_length fuel n acc k :
  0 <= n < 10 ^ Z.of_nat (S k) -> (length (print_digits fuel n acc) <= length acc + S k)%nat.
Proof.
  revert n acc k. induction fuel as [|fuel IH]; intros n acc k Hn; cbn [print_digits]; [lia|].
  destruct (Z.ltb_spec n 10); [cbn; lia|]. destruct k as [|k]; [cbn in Hn; lia|].
  etransitivity; [apply (IH _ _ k)|cbn; lia].
  rewrite Nat2Z.inj_succ, Z.pow_succ_r in Hn by lia.
  split; [apply Z.div_pos; lia|apply Z.div_lt_upper_bound; lia].
Qed.

Lemma to_string_len k n : 0 <= n < 10 ^ Z.of_nat (S k) -> str_len (to_string n) <= Z.of_nat (S k).
Proof.
  intros Hn. destruct (to_string_spec n) as (Hd & _); [lia|]. rewrite (str_len_digits _ Hd).
  unfold to_string, vec_len. destruct (Z.ltb_spec n 0); [lia|].
  pose proof (print_digits_length (S (Z.to_nat (Z.log2 n))) n [] k Hn). cbn [length] in *. lia.
Qed.

Lemma digits_val_bound s : all_digits s = true -> digits_val s < 10 ^ vec_len s.
Proof.
  induction s as [|c s IH]; intros H; [done|]. pose proof (all_digits_head c s H) as Hc.
  cbn in H. bools. specialize (IH H0). unfold digits_val in *. cbn [digits_val_go]. rewrite digits_val_go_acc.
  unfold digits_val, vec_len, digit_val in *. cbn [List.length]. rewrite Nat2Z.inj_succ, Z.pow_succ_r by lia. nia.
Qed.

(** Adding [k] adds at most [k] digits. *)
Lemma to_string_len_add n k : 1 <= n -> 0 <= k -> str_len (to_string (n + k)) <= str_len (to_string n) + k.
Proof.
  intros Hn Hk. destruct (to_string_spec n) as (Hd & Hne & Hv & _); [lia|].
  pose proof (digits_val_bound _ Hd) as Hb. rewrite Hv in Hb. rewrite (str_len_digits _ Hd).
  assert (k < 10 ^ k) as Hpow by (apply Z.pow_gt_lin_r; lia).
  set (w := vec_len (to_string n)) in *.
  assert (1 <= w) by (subst w; unfold vec_len; destruct (to_string n); [done|cbn; lia]).
  assert (10 <= 10 ^ w) by (change 10 with (10 ^ 1) at 1; apply Z.pow_le_mono_r; lia).
  pose proof (to_string_len (Z.to_nat (w + k - 1)) (n + k)) as Hlen.
  replace (Z.of_nat (S (Z.to_nat (w + k - 1)))) with (w + k) in Hlen by lia. apply Hlen.
  split; [lia|]. rewrite Z.pow_add_r by lia. nia.
Qed.

Lemma digits_not_in c s : all_digits s = true -> ~ 48 <= c <= 57 -> c ∉ s.
Proof.
  rewrite all_digits_Forall. intros H Hc Hin. rewrite list.Forall_forall in H. naive_solver.
Qed.

Lemma to_string_neg n : n < 0 -> to_string n = 45 :: to_string (- n).
Proof.
  intros H. unfold to_string. rewrite (proj2 (Z.ltb_lt n 0)), (proj2 (Z.ltb_ge (- n) 0)) by lia. done.
Qed.

Lemma to_string_inj a b : to_string a = to_string b -> a = b.
Proof.
  assert (Hneg : forall n, n < 0 -> to_string n = 45 :: to_string (- n)).
  { intros n H. unfold to_string. rewrite (proj2 (Z.ltb_lt n 0)), (proj2 (Z.ltb_ge (- n) 0)) by lia. done. }
  assert (Hpos : forall n, 0 <= n -> exists c r, to_string n = c :: r /\ 48 <= c <= 57).
  { intros n H. destruct (to_string_spec n H) as (Hd & Hne & _).
    destruct (to_string n) as [|c r]; [done|]. exists c, r. split; [done|]. by eapply all_digits_head. }
  assert (Hval : forall x y, 0 <= x -> 0 <= y -> to_string x = to_string y -> x = y).
  { intros x y Hx Hy E. destruct (to_string_spec x Hx) as (_ & _ & Vx & _).
    destruct (to_string_spec y Hy) as (_ & _ & Vy & _). congruence. }
  intros E. destruct (Z.leb_spec 0 a), (Z.leb_spec 0 b).
  - auto.
  - destruct (Hpos a) as (c & r & Ea & ?); [lia|]. rewrite (Hneg b) in E by lia. rewrite Ea in E. simplify_eq. lia.
  - destruct (Hpos b) as (c & r & Eb & ?); [lia|]. rewrite (Hneg a) in E by lia. rewrite Eb in E. simplify_eq. lia.
  - rewrite (Hneg a), (Hneg b) in E by lia. injection E as E. apply Hval in E; lia.
Qed.
