(* ===== verification/F64.v ===== *)
(** The [f64] operations of the code, on the Standard Library's [spec_float]
    (IEEE 754 binary64: precision 53, exponent bound 1024).

    [parse_f64] follows [f64::from_str]: the decimal is an exact rational that
    is rounded once, to nearest even.  [format_fixed] follows [{:.N}]: the
    exact value of the float rounded to [N] decimals, ties to even. *)

From Stdlib Require Import SpecFloat.
From S2P Require Import Prelude RustStd.

Open Scope Z_scope.

Abbreviation f64 := spec_float (only parsing).

Definition f64_prec : Z := 53.
Definition f64_emax : Z := 1024.

(** [z as f64]. *)
Definition f64_of_Z (z : Z) : f64 := binary_normalize f64_prec f64_emax z 0 false.

Definition f64_div (a b : f64) : f64 := SFdiv f64_prec f64_emax a b.

Definition f64_is_finite (a : f64) : bool :=
  match a with S754_zero _ | S754_finite _ _ _ => true | _ => false end.

(** Arithmetic, rounded to nearest even. *)
Definition f64_mul (a b : f64) : f64 := SFmul f64_prec f64_emax a b.
Definition f64_add (a b : f64) : f64 := SFadd f64_prec f64_emax a b.
Definition f64_sqrt (a : f64) : f64 := SFsqrt f64_prec f64_emax a.

Definition f64_is_nan (a : f64) : bool := match a with S754_nan => true | _ => false end.

(** [a.max(b)]: the other operand when one is not a number. *)
Definition f64_max (a b : f64) : f64 :=
  if f64_is_nan a then b else if f64_is_nan b then a else if SFltb a b then b else a.

(** [x.clamp(lo, hi)]: a value that is not a number stays. *)
Definition f64_clamp (x lo hi : f64) : f64 :=
  let x := if SFltb x lo then lo else x in
  if SFltb hi x then hi else x.

(** [x.round()]: to the nearest integer, halves away from zero. *)
Definition f64_round (x : f64) : f64 :=
  match x with
  | S754_finite neg m e =>
      if 0 <=? e then x
      else
        let q := (2 * Zpos m + 2 ^ (- e)) / (2 * 2 ^ (- e)) in
        binary_normalize f64_prec f64_emax (if neg then - q else q) 0 neg
  | _ => x
  end.

(** [x as uN]: towards zero, saturating; 0 for a value that is not a number. *)
Definition f64_to_unsigned (max : Z) (x : f64) : Z :=
  match x with
  | S754_finite false m e => Z.min max (if 0 <=? e then Zpos m * 2 ^ e else Zpos m / 2 ^ (- e))
  | S754_infinity false => max
  | _ => 0
  end.

(** The float nearest to [(-1)^neg * m * 10^e]. *)
Definition f64_of_decimal (neg : bool) (m e : Z) : f64 :=
  match m with
  | Zpos p =>
      if 0 <=? e then binary_normalize f64_prec f64_emax
        ((if neg then -1 else 1) * (m * 10 ^ e)) 0 false
      else match 10 ^ (- e) with
           | Zpos q => SFdiv f64_prec f64_emax (S754_finite neg p 0) (S754_finite false q 0)
           | _ => S754_nan
           end
  | _ => S754_zero neg
  end.

(** The exponent part: absent, or [e], an optional sign and digits. *)
Definition parse_exponent (s : str) : option Z :=
  match s with
  | [] => Some 0
  | c :: s' =>
      if (c =? 101) || (c =? 69) then
        match s' with
        | 43 :: d => parse_digits d
        | 45 :: d => option_map Z.opp (parse_digits d)
        | d => parse_digits d
        end
      else None
  end.

(** An unsigned decimal with its exponent part. *)
Definition parse_f64_number (neg : bool) (s : str) : option f64 :=
  let '(whole, rest) := span is_ascii_digit s in
  let '(fraction, rest) :=
    match rest with
    | 46 :: r => span is_ascii_digit r
    | _ => ([], rest)
    end in
  if is_empty whole && is_empty fraction then None
  else match parse_exponent rest with
       | Some e => Some (f64_of_decimal neg (digits_val (whole ++ fraction)) (e - vec_len fraction))
       | None => None
       end.

(** [s.parse::<f64>()]. *)
Definition parse_f64 (s : str) : option f64 :=
  let '(neg, body) := match s with
                      | 43 :: r => (false, r)
                      | 45 :: r => (true, r)
                      | _ => (false, s)
                      end in
  let word := to_ascii_lowercase body in
  if one_of word ["inf"; "infinity"] then Some (S754_infinity neg)
  else if one_of word ["nan"] then Some S754_nan
  else parse_f64_number neg body.

(** [num / den] rounded to the nearest integer, ties to even. *)
Definition round_half_even (num den : Z) : Z :=
  let q := num / den in
  let r := num mod den in
  if 2 * r <? den then q
  else if den <? 2 * r then q + 1
  else if Z.even q then q else q + 1.

(** [format!("{v:.n}")] of a finite float. *)
Definition format_fixed (n : Z) (v : f64) : str :=
  match v with
  | S754_finite neg m e =>
      let num := Zpos m * 10 ^ n * (if 0 <=? e then 2 ^ e else 1) in
      let den := if 0 <=? e then 1 else 2 ^ (- e) in
      let q := round_half_even num den in
      let whole := to_string (q / 10 ^ n) in
      let frac := to_string (q mod 10 ^ n) in
      (if neg then [45] else []) ++ whole ++
      (if n =? 0 then [] else 46 :: repeat 48 (Z.to_nat (n - vec_len frac)) ++ frac)
  | S754_zero neg =>
      (if neg then [45] else []) ++ [48] ++ (if n =? 0 then [] else 46 :: repeat 48 (Z.to_nat n))
  | S754_infinity neg => (if neg then [45] else []) ++ lit "inf"
  | S754_nan => lit "NaN"
  end.

(** * Reference values *)

Example parse_f64_tenth :
  parse_f64 (lit "0.1") = Some (S754_finite false 7205759403792794 (-56)).
Proof. vm_compute. reflexivity. Qed.

Example parse_f64_exponent : parse_f64 (lit "-25e-1") = Some (S754_finite true 5629499534213120 (-51)).
Proof. vm_compute. reflexivity. Qed.

Example parse_f64_max :
  parse_f64 (lit "1.7976931348623157e308") = Some (S754_finite false 9007199254740991 971)
  /\ parse_f64 (lit "1.8e308") = Some (S754_infinity false).
Proof. vm_compute. done. Qed.

Example parse_f64_rejects :
  map parse_f64 [lit ""; lit "."; lit "e5"; lit "1e"; lit "+"; lit " 1"; lit "1_0"]
  = [None; None; None; None; None; None; None].
Proof. vm_compute. reflexivity. Qed.

Example format_fixed_ties :
  map (fun s => option_map (format_fixed 0) (parse_f64 (lit s))) ["10.5"; "11.5"; "99.4"]
  = [Some (lit "10"); Some (lit "12"); Some (lit "99")].
Proof. vm_compute. reflexivity. Qed.

Example format_fixed_one :
  map (fun s => option_map (format_fixed 1) (parse_f64 (lit s))) ["1.25"; "0.35"; "9.97"; "2"]
  = [Some (lit "1.2"); Some (lit "0.3"); Some (lit "10.0"); Some (lit "2.0")].
Proof. vm_compute. reflexivity. Qed.
