(* ===== verification/Json.v ===== *)
(** The [serde_json::Value] the code reads and builds.

    An object is the list of its members; lookups take the first member of a
    name.  A number is what [serde_json] keeps: a non-negative integer of 64
    bits, a negative one, or a float. *)

From Stdlib Require Import SpecFloat.
From S2P Require Import Prelude RustStd F64.

Open Scope Z_scope.

Inductive Number :=
| PosInt (n : Z)
| NegInt (n : Z)
| Float (f : f64).

Inductive Value :=
| Null
| Bool (b : bool)
| Num (n : Number)
| Str (s : str)
| Array (l : list Value)
| Object (members : list (str * Value)).

(** [json!(n)] of an integer. *)
Definition json_int (n : Z) : Value := if n <? 0 then Num (NegInt n) else Num (PosInt n).

(** [json!({ "k": v, .. })]. *)
Definition json_object (members : list (string * Value)) : Value :=
  Object (map (fun '(k, v) => (lit k, v)) members).

Fixpoint member_get (k : str) (l : list (str * Value)) : option Value :=
  match l with
  | [] => None
  | (k', v) :: l' => if str_eqb k k' then Some v else member_get k l'
  end.

(** [value.get(k)]. *)
Definition json_get (v : Value) (k : str) : option Value :=
  match v with Object members => member_get k members | _ => None end.

Definition as_str (v : Value) : option str := match v with Str s => Some s | _ => None end.
Definition as_bool (v : Value) : option bool := match v with Bool b => Some b | _ => None end.
Definition as_array (v : Value) : option (list Value) :=
  match v with Array l => Some l | _ => None end.
Definition as_i64 (v : Value) : option Z :=
  match v with
  | Num (PosInt n) => if n <=? i64_max then Some n else None
  | Num (NegInt n) => Some n
  | _ => None
  end.
Definition as_u64 (v : Value) : option Z :=
  match v with Num (PosInt n) => Some n | _ => None end.
Definition number_as_f64 (n : Number) : option f64 :=
  match n with
  | PosInt z | NegInt z => Some (f64_of_Z z)
  | Float f => Some f
  end.
