(* ===== verification/Auth.v ===== *)
(** Privilege assertions ([crates/common/src/security/auth.rs]).

    The gateway accepts a privileged operation when it carries an assertion:
    an HMAC over the hash of the operation's intent, a nonce and a validity
    window.  The replay cache remembers the accepted nonces until they expire.
    The hash, the HMAC and the hex codec are third-party code: they are
    arguments of the definitions. *)

From S2P Require Import Prelude RustStd.

Open Scope Z_scope.

Definition MAX_PRIVILEGE_ASSERTION_AGE_SECS : Z := 300.
Definition MAX_PRIVILEGE_ASSERTION_CLOCK_SKEW_SECS : Z := 60.

Record PrivilegeAssertion := {
  nonce_hex : str;
  issued_unix : Z;
  expires_unix : Z;
  assertion_hex : str;
}.

Inductive PrivilegeAssertionError :=
| InvalidNonce
| InvalidTime
| InvalidAssertion
| Replay
| ReplayProtectionSaturated.

Record PrivilegeAssertionReplayCache := {
  seen : gmap str Z;
  order : list (str * Z);
  max_entries : Z;
}.

(** [PrivilegeAssertionReplayCache::new]. *)
Definition cache_new (max : Z) : PrivilegeAssertionReplayCache :=
  {| seen := ∅; order := []; max_entries := Z.max max 1 |}.

Definition cache_default : PrivilegeAssertionReplayCache := cache_new 4096.

(** The loop of [purge_expired] over the queue: [active] is the queue kept. *)
Fixpoint purge_loop (now_unix : Z) (sn : gmap str Z) (active queue : list (str * Z))
  : gmap str Z * list (str * Z) :=
  match queue with
  | [] => (sn, active)
  | (nonce, expires) :: rest =>
      if expires <? now_unix then
        let sn' := match sn !! nonce with
                   | Some current => if current =? expires then delete nonce sn else sn
                   | None => sn
                   end in
        purge_loop now_unix sn' active rest
      else purge_loop now_unix sn (active ++ [(nonce, expires)]) rest
  end.

Definition purge_expired (c : PrivilegeAssertionReplayCache) (now_unix : Z)
  : PrivilegeAssertionReplayCache :=
  let '(sn, active) := purge_loop now_unix (seen c) [] (order c) in
  {| seen := sn; order := active; max_entries := max_entries c |}.

(** [remember]: the cache is purged also when the call fails. *)
Definition remember (c : PrivilegeAssertionReplayCache) (nonce : str) (expires now_unix : Z)
  : result PrivilegeAssertionError unit * PrivilegeAssertionReplayCache :=
  let c := purge_expired c now_unix in
  match seen c !! nonce with
  | Some _ => (Err Replay, c)
  | None =>
      if max_entries c <=? Z.of_nat (size (seen c))
      then (Err ReplayProtectionSaturated, c)
      else (Ok tt, {| seen := <[nonce := expires]> (seen c);
                      order := order c ++ [(nonce, expires)];
                      max_entries := max_entries c |})
  end.

(** [constant_time_eq]. *)
Definition constant_time_eq (a b : list Z) : bool :=
  if negb (vec_len a =? vec_len b) then false
  else foldl (fun acc '(l, r) => Z.lor acc (Z.lxor l r)) 0 (zip a b) =? 0.

Section Verify.
Context (sha256 : list Z -> list Z).
Context (hmac_sha256 : list Z -> list Z -> list Z).
Context (hex_encode : list Z -> str).
Context (hex_decode : str -> option (list Z)).

Definition payload_hash (payload : list Z) : str := hex_encode (sha256 payload).

Definition derive_super_key (password : str) (salt : list Z) : list Z :=
  sha256 (as_bytes (lit "vpsman-super-key-v1") ++ be_bytes 8 (vec_len salt) ++
          salt ++ as_bytes password).

Definition sign_privilege_assertion (verifier_key : list Z) (intent_hash_hex : str)
  (nonce : list Z) (issued expires : Z) : PrivilegeAssertion :=
  let mac := hmac_sha256 verifier_key
    (as_bytes (lit "vpsman-gateway-privilege-assertion-v1") ++ as_bytes intent_hash_hex ++
     nonce ++ be_bytes 8 issued ++ be_bytes 8 expires) in
  {| nonce_hex := hex_encode nonce;
     issued_unix := issued;
     expires_unix := expires;
     assertion_hex := hex_encode mac |}.

(** The time test at the head of [verify_privilege_assertion]. *)
Definition time_rejected (a : PrivilegeAssertion) (now_unix : Z) : bool :=
  (expires_unix a <? issued_unix a)
  || (expires_unix a <? now_unix)
  || (saturating_add u64_max now_unix MAX_PRIVILEGE_ASSERTION_CLOCK_SKEW_SECS <? issued_unix a)
  || (MAX_PRIVILEGE_ASSERTION_AGE_SECS <? saturating_sub now_unix (issued_unix a)).

Definition replay_expires_unix (a : PrivilegeAssertion) : Z :=
  Z.min (saturating_add u64_max (issued_unix a) MAX_PRIVILEGE_ASSERTION_AGE_SECS)
        (expires_unix a).

Definition verify_privilege_assertion (verifier_key : list Z) (intent : str)
  (a : PrivilegeAssertion) (now_unix : Z) (c : PrivilegeAssertionReplayCache)
  : result PrivilegeAssertionError str * PrivilegeAssertionReplayCache :=
  if time_rejected a now_unix then (Err InvalidTime, c)
  else match hex_decode (nonce_hex a) with
  | None => (Err InvalidNonce, c)
  | Some nonce =>
      if negb (vec_len nonce =? 16) then (Err InvalidNonce, c)
      else
        let intent_hash_hex := payload_hash (as_bytes intent) in
        let expected := sign_privilege_assertion verifier_key intent_hash_hex nonce
                          (issued_unix a) (expires_unix a) in
        if negb (constant_time_eq (as_bytes (assertion_hex expected))
                                  (as_bytes (assertion_hex a)))
        then (Err InvalidAssertion, c)
        else match remember c (nonce_hex a) (replay_expires_unix a) now_unix with
             | (Ok _, c') => (Ok intent_hash_hex, c')
             | (Err e, c') => (Err e, c')
             end
  end.

(** A sequence of verifications against one cache: (intent, assertion, now). *)
Fixpoint verify_all (verifier_key : list Z) (calls : list (str * PrivilegeAssertion * Z))
  (c : PrivilegeAssertionReplayCache) : PrivilegeAssertionReplayCache :=
  match calls with
  | [] => c
  | (intent, a, now) :: rest =>
      verify_all verifier_key rest (snd (verify_privilege_assertion verifier_key intent a now c))
  end.
End Verify.

(** The clock of a sequence of calls never goes back, from [t] to [t']. *)
Fixpoint clock_monotone (t : Z) (calls : list (str * PrivilegeAssertion * Z)) (t' : Z) : Prop :=
  match calls with
  | [] => t <= t'
  | (_, _, now) :: rest => t <= now /\ clock_monotone now rest t'
  end.

(** The queue and the map of a cache hold the same nonces, at most
    [max_entries] of them. *)
Record cache_wf (c : PrivilegeAssertionReplayCache) : Prop := {
  wf_seen : forall n e, seen c !! n = Some e <-> (n, e) ∈ order c;
  wf_nodup : NoDup (order c).*1;
  wf_bound : Z.of_nat (length (order c)) <= max_entries c;
}.

(** * Lemmas *)

Lemma purge_loop_order now sn active queue :
  snd (purge_loop now sn active queue)
  = active ++ List.filter (fun p => now <=? snd p) queue.
Proof.
  revert sn active. induction queue as [|[n e] q IH]; intros sn active; cbn.
  - by rewrite app_nil_r.
  - destruct (Z.ltb_spec e now).
    + rewrite IH. destruct (Z.leb_spec now e); [lia|done].
    + rewrite IH. destruct (Z.leb_spec now e); [|lia]. by rewrite <- app_assoc.
Qed.

(** Purging removes exactly the expired entries of the queue from the map. *)
Lemma purge_loop_seen now sn active queue n e :
  NoDup queue.*1 -> (forall m f, (m, f) ∈ queue -> sn !! m = Some f) ->
  fst (purge_loop now sn active queue) !! n = Some e <->
  sn !! n = Some e /\ ~ ((n, e) ∈ queue /\ e < now).
Proof.
  revert sn active. induction queue as [|[m f] q IH]; intros sn active Hnd Hq; cbn.
  - split; [|naive_solver]. intros ?. split; [done|]. intros [Hin%elem_of_nil _]; done.
  - apply NoDup_cons in Hnd as [Hm Hnd].
    assert (Hmq : forall g, (m, g) ∉ q).
    { intros g Hg. apply Hm. apply list_elem_of_fmap. by exists (m, g). }
    assert (Hsm : sn !! m = Some f) by (apply Hq; by left).
    destruct (Z.ltb_spec f now) as [Hlt|Hge].
    + rewrite Hsm, Z.eqb_refl, IH; [|done|].
      * rewrite lookup_delete_Some, elem_of_cons. naive_solver lia.
      * intros m' f' Hin. rewrite lookup_delete_ne.
        -- apply Hq. by right.
        -- intros ->. by apply (Hmq f').
    + rewrite IH; [|done|intros; apply Hq; by right].
      rewrite elem_of_cons. naive_solver lia.
Qed.

Lemma wf_size c : cache_wf c -> size (seen c) = length (order c).
Proof.
  intros [Hs Hn _]. replace (seen c) with (list_to_map (order c) : gmap str Z).
  - by apply map_size_list_to_map.
  - apply map_eq. intros n. apply option_eq. intros e.
    rewrite Hs. symmetry. by apply elem_of_list_to_map.
Qed.

Lemma NoDup_fst_filter {A B} (f : A * B -> bool) (l : list (A * B)) :
  NoDup l.*1 -> NoDup (List.filter f l).*1.
Proof.
  induction l as [|x l IH]; cbn; [done|]. intros [Hx Hn]%NoDup_cons.
  destruct (f x); cbn; [|auto]. apply NoDup_cons. split; [|auto].
  intros [y [Hy Hin]]%list_elem_of_fmap. apply Hx. rewrite Hy.
  apply list_elem_of_fmap. exists y. split; [done|].
  apply list_elem_of_In. apply list_elem_of_In, filter_In in Hin. tauto.
Qed.

Lemma elem_of_filter_fresh now (l : list (str * Z)) n e :
  (n, e) ∈ List.filter (fun p => now <=? snd p) l <-> (n, e) ∈ l /\ now <= e.
Proof.
  rewrite !list_elem_of_In, filter_In. cbn. by rewrite Z.leb_le.
Qed.

Lemma purge_seen c now n e :
  cache_wf c -> seen (purge_expired c now) !! n = Some e <-> seen c !! n = Some e /\ now <= e.
Proof.
  intros [Hs Hn Hb]. unfold purge_expired.
  pose proof (purge_loop_seen now (seen c) [] (order c) n e Hn (fun m f H => proj2 (Hs m f) H)) as P.
  destruct (purge_loop _ _ _ _) as [sn ac]. cbn in *. rewrite P.
  pose proof (Hs n e). split; [|naive_solver lia].
  intros [H1 H2]. split; [done|]. apply Z.nlt_ge. naive_solver.
Qed.

Lemma purge_order c now :
  order (purge_expired c now) = List.filter (fun p => now <=? snd p) (order c).
Proof.
  unfold purge_expired. pose proof (purge_loop_order now (seen c) [] (order c)) as P.
  by destruct (purge_loop _ _ _ _).
Qed.

Lemma purge_max c now : max_entries (purge_expired c now) = max_entries c.
Proof. unfold purge_expired. by destruct (purge_loop _ _ _ _). Qed.

Lemma purge_wf c now : cache_wf c -> cache_wf (purge_expired c now).
Proof.
  intros H. split.
  - intros n e. rewrite purge_seen, purge_order, elem_of_filter_fresh by done.
    by rewrite (wf_seen c H).
  - rewrite purge_order. apply NoDup_fst_filter, H.
  - rewrite purge_order, purge_max. pose proof (wf_bound c H).
    pose proof (filter_length_le (fun p : str * Z => now <=? snd p) (order c)). lia.
Qed.

Lemma remember_wf c n e now : cache_wf c -> cache_wf (snd (remember c n e now)).
Proof.
  intros H%(purge_wf _ now). unfold remember.
  destruct (seen (purge_expired c now) !! n) eqn:E; [done|].
  case_match eqn:G; [done|]. bools. rewrite wf_size in G by done. cbn.
  split; cbn.
  - intros m f. rewrite lookup_insert_Some, elem_of_app, list_elem_of_singleton.
    rewrite (wf_seen _ H). split; [naive_solver|].
    intros [Hin|[= -> ->]]; [|by left]. right. split; [|done].
    intros ->. apply (wf_seen _ H) in Hin. congruence.
  - rewrite fmap_app. apply NoDup_app. split; [apply H|]. split; [|apply NoDup_singleton].
    intros x Hx Hx2. cbn in Hx2. apply list_elem_of_singleton in Hx2 as ->.
    apply list_elem_of_fmap in Hx as ([m f] & -> & Hin).
    apply (wf_seen _ H) in Hin. cbn in E. congruence.
  - rewrite length_app. cbn. lia.
Qed.

(** An accepted nonce is in the cache afterwards. *)
Lemma remember_ok c n e now c' :
  remember c n e now = (Ok tt, c') -> seen c' !! n = Some e.
Proof.
  unfold remember. repeat case_match; intros [= <-]. cbn. apply lookup_insert_eq.
Qed.

(** A remembered unexpired nonce stays remembered. *)
Lemma remember_keeps c n e m f now :
  cache_wf c -> seen c !! n = Some e -> now <= e -> seen (snd (remember c m f now)) !! n = Some e.
Proof.
  intros H Hn Hle. assert (P : seen (purge_expired c now) !! n = Some e) by (by apply purge_seen).
  unfold remember. destruct (seen (purge_expired c now) !! m) eqn:E; [done|].
  case_match; cbn; [done|]. rewrite lookup_insert_ne; [done|]. intros ->. congruence.
Qed.

Lemma remember_replay c n e f now :
  cache_wf c -> seen c !! n = Some e -> now <= e -> fst (remember c n f now) = Err Replay.
Proof.
  intros H Hn Hle. unfold remember.
  by rewrite (proj2 (purge_seen c now n e H) (conj Hn Hle)).
Qed.

(** The window in which [verify_privilege_assertion] can accept. *)
Lemma time_accepted a now :
  0 <= now <= u64_max -> 0 <= issued_unix a -> time_rejected a now = false ->
  issued_unix a <= now + 60 /\ now <= replay_expires_unix a.
Proof.
  unfold time_rejected, replay_expires_unix, saturating_add, saturating_sub,
    MAX_PRIVILEGE_ASSERTION_AGE_SECS, MAX_PRIVILEGE_ASSERTION_CLOCK_SKEW_SECS.
  intros. bools. lia.
Qed.

Lemma constant_time_fold l acc :
  foldl (fun acc '(l, r) => Z.lor acc (Z.lxor l r)) acc l = 0 <->
  acc = 0 /\ Forall (fun '(x, y) => x = y) l.
Proof.
  revert acc. induction l as [|[x y] l IH]; intros acc; cbn.
  - split; [done|]. by intros [].
  - rewrite IH, Forall_cons_iff, Z.lor_eq_0_iff, Z.lxor_eq_0_iff. tauto.
Qed.

(** The branch-free comparison is equality. *)
Lemma constant_time_eq_spec a b : constant_time_eq a b = true <-> a = b.
Proof.
  unfold constant_time_eq, vec_len. destruct (Z.eqb_spec (Z.of_nat (length a)) (Z.of_nat (length b))) as [E|E]; cbn.
  - rewrite Z.eqb_eq, constant_time_fold. apply Nat2Z.inj in E. revert b E.
    induction a as [|x a IH]; intros [|y b] E; cbn in *; try done.
    injection E as E. rewrite Forall_cons_iff. specialize (IH b E). naive_solver.
  - split; [done|]. by intros ->.
Qed.

(** * Properties *)

Section Properties.
Context (sha256 : list Z -> list Z).
Context (hmac_sha256 : list Z -> list Z -> list Z).
Context (hex_encode : list Z -> str).
Context (hex_decode : str -> option (list Z)).
Local Abbreviation verify :=
  (verify_privilege_assertion sha256 hmac_sha256 hex_encode hex_decode).
Local Abbreviation verifies := (verify_all sha256 hmac_sha256 hex_encode hex_decode).

(** The byte string an acceptable assertion must carry. *)
Definition expected_mac (key : list Z) (intent : str) (nonce : list Z) (issued expires : Z)
  : list Z :=
  as_bytes (assertion_hex (sign_privilege_assertion hmac_sha256 hex_encode key
    (payload_hash sha256 hex_encode (as_bytes intent)) nonce issued expires)).

Lemma verify_cases key intent a now c :
  (exists e, verify key intent a now c = (Err e, c)) \/
  exists nonce, time_rejected a now = false /\ hex_decode (nonce_hex a) = Some nonce /\
    vec_len nonce = 16 /\
    expected_mac key intent nonce (issued_unix a) (expires_unix a) = as_bytes (assertion_hex a) /\
    verify key intent a now c =
      match remember c (nonce_hex a) (replay_expires_unix a) now with
      | (Ok _, c') => (Ok (payload_hash sha256 hex_encode (as_bytes intent)), c')
      | (Err e, c') => (Err e, c')
      end.
Proof.
  unfold verify_privilege_assertion.
  destruct (time_rejected a now) eqn:Et; [left; eauto|].
  destruct (hex_decode (nonce_hex a)) as [nonce|] eqn:Eh; [|left; eauto].
  destruct (vec_len nonce =? 16) eqn:El; cbn [negb]; [|left; eauto].
  destruct (constant_time_eq _ _) eqn:Ec; cbn [negb]; [|left; eauto].
  right. exists nonce. bools. apply constant_time_eq_spec in Ec. auto 10.
Qed.

Lemma verify_wf key intent a now c : cache_wf c -> cache_wf (snd (verify key intent a now c)).
Proof.
  intros H. destruct (verify_cases key intent a now c) as [(e & ->)|(nonce & _ & _ & _ & _ & ->)]; [done|].
  pose proof (remember_wf c (nonce_hex a) (replay_expires_unix a) now H) as R.
  by destruct (remember _ _ _ _) as [[] c'].
Qed.

Lemma verify_keeps key intent a now c n e :
  cache_wf c -> seen c !! n = Some e -> now <= e ->
  seen (snd (verify key intent a now c)) !! n = Some e.
Proof.
  intros H Hn He.
  destruct (verify_cases key intent a now c) as [(? & ->)|(nonce & _ & _ & _ & _ & ->)]; [done|].
  pose proof (remember_keeps c n e (nonce_hex a) (replay_expires_unix a) now H Hn He) as R.
  by destruct (remember _ _ _ _) as [[] c'].
Qed.

Lemma verify_all_wf key calls c : cache_wf c -> cache_wf (verifies key calls c).
Proof.
  revert c. induction calls as [|[[i a] now] calls IH]; intros c H; cbn; [done|].
  by apply IH, verify_wf.
Qed.

Lemma cache_new_wf m : cache_wf (cache_new m).
Proof.
  split; cbn; [|constructor|lia].
  intros n e. rewrite lookup_empty. split; [done|]. intros H. by apply elem_of_nil in H.
Qed.

Lemma clock_monotone_le t calls t' : clock_monotone t calls t' -> t <= t'.
Proof.
  revert t. induction calls as [|[[i a] now] calls IH]; intros t; cbn; [done|].
  intros [H1 H2%IH]. lia.
Qed.

Lemma verify_all_keeps key calls c n e t t' :
  cache_wf c -> seen c !! n = Some e -> clock_monotone t calls t' -> t' <= e ->
  seen (verifies key calls c) !! n = Some e.
Proof.
  revert c t. induction calls as [|[[i a] now] calls IH]; intros c t H Hn Hm He; cbn; [done|].
  destruct Hm as [Hm1 Hm2]. apply (IH _ now); [by apply verify_wf| |done|done].
  apply verify_keeps; [done..|]. apply clock_monotone_le in Hm2. lia.
Qed.

(** The cache a gateway can reach from [cache_new m]. *)
Definition reachable_cache (key : list Z) (m : Z) (c : PrivilegeAssertionReplayCache) : Prop :=
  exists calls, c = verifies key calls (cache_new m).

Lemma reachable_wf key m c : reachable_cache key m c -> cache_wf c.
Proof. intros [calls ->]. apply verify_all_wf, cache_new_wf. Qed.

Lemma reachable_max key m c : reachable_cache key m c -> max_entries c = Z.max m 1.
Proof.
  intros [calls ->].
  assert (G : forall c0, max_entries (verifies key calls c0) = max_entries c0); [|by rewrite G].
  induction calls as [|[[i a] now] calls IH]; intros c0; cbn; [done|]. rewrite IH.
  destruct (verify_cases key i a now c0) as [(? & ->)|(nonce & _ & _ & _ & _ & ->)]; [done|].
  unfold remember. repeat case_match; simplify_eq; cbn; apply purge_max.
Qed.

(** A remembered nonce makes every later assertion that spells it the same way
    fail until the remembered expiry. *)
Lemma verify_seen_rejected key intent a now c e :
  cache_wf c -> seen c !! nonce_hex a = Some e -> now <= e ->
  exists err, fst (verify key intent a now c) = Err err.
Proof.
  intros H Hn He.
  destruct (verify_cases key intent a now c) as [(? & ->)|(nonce & _ & _ & _ & _ & ->)]; [by eexists|].
  pose proof (remember_replay c (nonce_hex a) e (replay_expires_unix a) now H Hn He) as R.
  destruct (remember _ _ _ _) as [[] c']; [done|]. by eexists.
Qed.

(** A rejected time makes [verify] fail. *)
Lemma verify_time_rejected key intent a now c :
  time_rejected a now = true -> verify key intent a now c = (Err InvalidTime, c).
Proof. intros H. unfold verify_privilege_assertion. by rewrite H. Qed.

Lemma verify_ok_seen key intent a now c h c' :
  verify key intent a now c = (Ok h, c') ->
  time_rejected a now = false /\ seen c' !! nonce_hex a = Some (replay_expires_unix a).
Proof.
  intros H. destruct (verify_cases key intent a now c) as [(? & E)|(nonce & Ht & _ & _ & _ & E)];
    rewrite E in H; [done|]. split; [done|].
  destruct (remember _ _ _ _) as [[[]|] c1] eqn:R; [|done]. simplify_eq. by eapply remember_ok.
Qed.

(** A nonce that is not remembered past [now] is accepted when there is room. *)
Lemma remember_fresh c n e now :
  cache_wf c -> (forall f, seen c !! n = Some f -> f < now) ->
  vec_len (List.filter (fun p => now <=? snd p) (order c)) < max_entries c ->
  fst (remember c n e now) = Ok tt.
Proof.
  intros W Hf Hm. pose proof (purge_wf c now W) as P. unfold remember.
  destruct (seen (purge_expired c now) !! n) as [f|] eqn:E.
  { apply purge_seen in E as [E1 E2]; [|done]. apply Hf in E1. lia. }
  rewrite (wf_size _ P), purge_order, purge_max. unfold vec_len in Hm.
  rewrite (proj2 (Z.leb_gt _ _)) by lia. done.
Qed.

Lemma fresh_count_le now (l : list (str * Z)) :
  vec_len (List.filter (fun p => now <=? snd p) l) <= vec_len l.
Proof.
  unfold vec_len. pose proof (filter_length_le (fun p : str * Z => now <=? snd p) l). lia.
Qed.

Lemma verify_accepts key intent a now c nonce :
  cache_wf c -> time_rejected a now = false ->
  hex_decode (nonce_hex a) = Some nonce -> vec_len nonce = 16 ->
  expected_mac key intent nonce (issued_unix a) (expires_unix a) = as_bytes (assertion_hex a) ->
  (forall f, seen c !! nonce_hex a = Some f -> f < now) ->
  vec_len (List.filter (fun p => now <=? snd p) (order c)) < max_entries c ->
  fst (verify key intent a now c) = Ok (payload_hash sha256 hex_encode (as_bytes intent)).
Proof.
  intros W Ht Hd Hl Hc Hf Hm. unfold expected_mac in Hc.
  unfold verify_privilege_assertion. rewrite Ht, Hd, Hl.
  change (negb (16 =? 16)) with false. cbn [negb].
  rewrite (proj2 (constant_time_eq_spec _ _) Hc). cbn [negb].
  pose proof (remember_fresh c (nonce_hex a) (replay_expires_unix a) now W Hf Hm) as R.
  destruct (remember _ _ _ _) as [[] ?]; [done|]. discriminate R.
Qed.
End Properties.

(** ** Claims *)

Section Claims.
Context (sha256 : list Z -> list Z).
Context (hmac_sha256 : list Z -> list Z -> list Z).
Context (hex_encode : list Z -> str).
Context (hex_decode : str -> option (list Z)).
Local Abbreviation verify :=
  (verify_privilege_assertion sha256 hmac_sha256 hex_encode hex_decode).
Local Abbreviation verifies := (verify_all sha256 hmac_sha256 hex_encode hex_decode).

(** C2: replay protection.  Once an assertion was accepted by a gateway whose
    cache is reachable from an empty one, and whatever verifications follow
    with a clock that does not go back, the same assertion is never accepted
    again, and no assertion with the same nonce text is accepted while the
    accepted one could still be valid. *)
Theorem verify_never_accepts_twice key m c intent a now1 h c1 calls now2 :
  reachable_cache sha256 hmac_sha256 hex_encode hex_decode key m c ->
  0 <= now1 -> now2 <= u64_max -> 0 <= issued_unix a ->
  verify key intent a now1 c = (Ok h, c1) ->
  clock_monotone now1 calls now2 ->
  (forall intent', exists e, fst (verify key intent' a now2 (verifies key calls c1)) = Err e) /\
  (forall intent' a', nonce_hex a' = nonce_hex a -> now2 <= replay_expires_unix a ->
     exists e, fst (verify key intent' a' now2 (verifies key calls c1)) = Err e).
Proof.
  intros Hr H1 H2 Hi Hv Hm.
  assert (W : cache_wf c1).
  { replace c1 with (snd (verify key intent a now1 c)) by (by rewrite Hv).
    eapply verify_wf, reachable_wf, Hr. }
  destruct (verify_ok_seen _ _ _ _ _ _ _ _ _ _ _ Hv) as [_ Hs].
  assert (G : forall intent' a', nonce_hex a' = nonce_hex a -> now2 <= replay_expires_unix a ->
     exists e, fst (verify key intent' a' now2 (verifies key calls c1)) = Err e).
  { intros i' a' Hn He. eapply verify_seen_rejected; [by apply verify_all_wf| |exact He].
    rewrite Hn. by eapply verify_all_keeps. }
  split; [|exact G]. intros i'.
  destruct (time_rejected a now2) eqn:Et; [rewrite verify_time_rejected; eauto|].
  apply G; [done|]. pose proof (clock_monotone_le _ _ _ Hm).
  by apply time_accepted in Et as [_ ?]; [|lia|lia].
Qed.

(** Invariant of the replay cache.  In every reachable cache the queue and
    the map hold the same nonces, each once, and their number never exceeds
    the configured bound. *)
Theorem reachable_cache_invariant key m c :
  reachable_cache sha256 hmac_sha256 hex_encode hex_decode key m c ->
  (forall n e, seen c !! n = Some e <-> (n, e) ∈ order c) /\
  NoDup (order c).*1 /\ Z.of_nat (size (seen c)) <= Z.max m 1.
Proof.
  intros H. pose proof (reachable_max _ _ _ _ _ _ _ H) as M.
  apply reachable_wf in H. pose proof (wf_size _ H). destruct H as [H1 H2 H3].
  split; [done|]. split; [done|]. lia.
Qed.

(** Acceptance is exactly: the time is inside the window, the nonce decodes
    to 16 bytes, the MAC is the one of the key, no unexpired nonce is spelled
    the same way, and fewer than [max_entries] unexpired nonces are held; so a
    full cache refuses instead of forgetting an unexpired nonce. *)
Theorem verify_accepts_iff key intent a now c h :
  cache_wf c ->
  fst (verify key intent a now c) = Ok h <->
  h = payload_hash sha256 hex_encode (as_bytes intent) /\
  time_rejected a now = false /\
  (exists nonce, hex_decode (nonce_hex a) = Some nonce /\ vec_len nonce = 16 /\
     expected_mac sha256 hmac_sha256 hex_encode key intent nonce
       (issued_unix a) (expires_unix a) = as_bytes (assertion_hex a)) /\
  (forall e, seen c !! nonce_hex a = Some e -> e < now) /\
  vec_len (List.filter (fun p => now <=? snd p) (order c)) < max_entries c.
Proof.
  intros H. pose proof (purge_wf c now H) as P. split.
  - destruct (verify_cases sha256 hmac_sha256 hex_encode hex_decode key intent a now c)
      as [(? & ->)|(nonce & Ht & Hd & Hl & Hc & ->)]; [done|].
    unfold remember. destruct (seen (purge_expired c now) !! nonce_hex a) eqn:E; [done|].
    destruct (max_entries _ <=? _) eqn:G; [done|]. cbn. intros [= <-]. bools.
    rewrite (wf_size _ P), purge_order in G. split; [done|]. split; [done|].
    split; [by exists nonce|]. split; [|by rewrite purge_max in G].
    intros e He. apply Z.nle_gt. intros Hle.
    assert (seen (purge_expired c now) !! nonce_hex a = Some e) by (by apply purge_seen).
    congruence.
  - intros (-> & Ht & (nonce & Hd & Hl & Hc) & Hf & Hm). by eapply verify_accepts.
Qed.

(** An assertion signed with the gateway's key for the same intent is
    accepted inside its window by a cache that has room and has not seen the
    nonce, whenever the hex codec decodes what it encodes. *)
Theorem signed_assertion_accepted key intent nonce issued expires now c :
  (forall bs, Forall is_byte bs -> hex_decode (hex_encode bs) = Some bs) ->
  cache_wf c -> vec_len nonce = 16 -> Forall is_byte nonce ->
  0 <= issued <= u64_max - 300 -> 0 <= now <= u64_max - 60 ->
  issued <= expires -> now <= expires -> issued <= now + 60 -> now <= issued + 300 ->
  seen c !! hex_encode nonce = None ->
  vec_len (order c) < max_entries c ->
  fst (verify key intent
    (sign_privilege_assertion hmac_sha256 hex_encode key
       (payload_hash sha256 hex_encode (as_bytes intent)) nonce issued expires) now c)
  = Ok (payload_hash sha256 hex_encode (as_bytes intent)).
Proof.
  intros Hx W Hl Hb Hi Hn H1 H2 H3 H4 Hs Hm.
  apply verify_accepts with (nonce := nonce); cbn; try done.
  - unfold time_rejected, saturating_add, saturating_sub, MAX_PRIVILEGE_ASSERTION_AGE_SECS,
      MAX_PRIVILEGE_ASSERTION_CLOCK_SKEW_SECS. cbn.
    repeat (apply orb_false_intro); apply Z.ltb_ge; lia.
  - by apply Hx.
  - congruence.
  - pose proof (fresh_count_le now (order c)). lia.
Qed.

(** The cache is keyed by the text of the nonce, and hex text is decoded
    without regard to case: the accepted assertion with its nonce re-spelled
    in upper case is accepted a second time, at the same instant, for the same
    intent, whenever the cache still has room. *)
Theorem nonce_case_variant_replays key intent a now c h c1 :
  (forall s, hex_decode (to_ascii_uppercase s) = hex_decode s) ->
  cache_wf c ->
  verify key intent a now c = (Ok h, c1) ->
  to_ascii_uppercase (nonce_hex a) <> nonce_hex a ->
  seen c1 !! to_ascii_uppercase (nonce_hex a) = None ->
  vec_len (order c1) < max_entries c1 ->
  fst (verify key intent
    {| nonce_hex := to_ascii_uppercase (nonce_hex a); issued_unix := issued_unix a;
       expires_unix := expires_unix a; assertion_hex := assertion_hex a |} now c1) = Ok h.
Proof.
  intros Hx W Hv Hne Hs Hm.
  assert (W1 : cache_wf c1).
  { replace c1 with (snd (verify key intent a now c)) by (by rewrite Hv). by apply verify_wf. }
  destruct (verify_cases sha256 hmac_sha256 hex_encode hex_decode key intent a now c)
    as [(? & E)|(nonce & Ht & Hd & Hl & Hc & E)]; [congruence|].
  assert (h = payload_hash sha256 hex_encode (as_bytes intent)) as ->.
  { rewrite E in Hv. destruct (remember _ _ _ _) as [[] ?]; congruence. }
  apply verify_accepts with (nonce := nonce); cbn; try done.
  - by rewrite Hx.
  - congruence.
  - pose proof (fresh_count_le now (order c1)). lia.
Qed.
End Claims.

(** * Witnesses: a hex codec and toy digests *)

Definition nibble_char (n : Z) : char := if n <? 10 then 48 + n else 87 + n.

Definition char_nibble (c : char) : option Z :=
  if in_range 48 57 c then Some (c - 48)
  else if in_range 97 102 c then Some (c - 87)
  else if in_range 65 70 c then Some (c - 55) else None.

Definition hex_encode_ex (bs : list Z) : str :=
  concat (map (fun b => [nibble_char (b / 16); nibble_char (b mod 16)]) bs).

Fixpoint hex_decode_ex (s : str) : option (list Z) :=
  match s with
  | [] => Some []
  | [_] => None
  | a :: b :: s' =>
      match char_nibble a, char_nibble b, hex_decode_ex s' with
      | Some x, Some y, Some r => Some (16 * x + y :: r)
      | _, _, _ => None
      end
  end.

Definition digest_ex (bs : list Z) : list Z := be_bytes 4 (foldl (fun a b => 31 * a + b) 7 bs).
Definition hmac_ex (k m : list Z) : list Z := digest_ex (k ++ m).

Lemma char_nibble_char n : 0 <= n < 16 -> char_nibble (nibble_char n) = Some n.
Proof.
  intros H. unfold nibble_char, char_nibble, in_range.
  destruct (Z.ltb_spec n 10); repeat (case_match; bools); try (f_equal; lia); lia.
Qed.

Lemma hex_ex_roundtrip bs : Forall is_byte bs -> hex_decode_ex (hex_encode_ex bs) = Some bs.
Proof.
  induction 1 as [|b bs Hb _ IH]; [done|]. unfold is_byte in Hb.
  cbn. unfold hex_encode_ex in IH. rewrite IH.
  pose proof (Z.mod_pos_bound b 16 ltac:(lia)). pose proof (Z.div_mod b 16).
  rewrite !char_nibble_char by lia. do 2 f_equal. lia.
Qed.

Lemma char_nibble_upper c : char_nibble (upper c) = char_nibble c.
Proof.
  unfold upper, is_ascii_lowercase, char_nibble, in_range.
  repeat (case_match; bools); try done; try (f_equal; lia); lia.
Qed.

Lemma hex_ex_upper s : hex_decode_ex (to_ascii_uppercase s) = hex_decode_ex s.
Proof.
  revert s. fix IH 1. intros [|a [|b s]]; [done..|]. cbn -[char_nibble].
  rewrite !char_nibble_upper. specialize (IH s). unfold to_ascii_uppercase in IH.
  by rewrite IH.
Qed.

Definition key_ex : list Z := repeat 3 32.
Definition assertion_ex : PrivilegeAssertion :=
  sign_privilege_assertion hmac_ex hex_encode_ex key_ex
    (payload_hash digest_ex hex_encode_ex (as_bytes (lit "intent"))) (repeat 171 16) 100 300.
Local Abbreviation verify_ex :=
  (verify_privilege_assertion digest_ex hmac_ex hex_encode_ex hex_decode_ex).

Lemma verify_never_accepts_twice_witness :
  exists h c1, verify_ex key_ex (lit "intent") assertion_ex 120 (cache_new 2) = (Ok h, c1) /\
  exists e, fst (verify_ex key_ex (lit "intent") assertion_ex 130 c1) = Err e.
Proof.
  eexists _, _. split; [vm_compute; reflexivity|].
  match goal with |- exists e, fst (verify_privilege_assertion _ _ _ _ _ _ _ _ ?c) = _ =>
    apply (proj1 (verify_never_accepts_twice digest_ex hmac_ex hex_encode_ex hex_decode_ex
      key_ex 2 (cache_new 2) (lit "intent") assertion_ex 120
      (payload_hash digest_ex hex_encode_ex (as_bytes (lit "intent"))) c [] 130
      (ex_intro _ [] eq_refl) ltac:(lia) ltac:(vm_compute; discriminate) ltac:(vm_compute; discriminate)
      ltac:(vm_compute; reflexivity) ltac:(cbn; lia)) (lit "intent")) end.
Defined.

Lemma reachable_cache_invariant_witness :
  NoDup (order (verify_all digest_ex hmac_ex hex_encode_ex hex_decode_ex key_ex
    [(lit "intent", assertion_ex, 120)] (cache_new 2))).*1.
Proof.
  exact (proj1 (proj2 (reachable_cache_invariant digest_ex hmac_ex hex_encode_ex hex_decode_ex
    key_ex 2 _ (ex_intro _ [(lit "intent", assertion_ex, 120)] eq_refl)))).
Defined.

Lemma verify_accepts_iff_witness :
  vec_len (List.filter (fun p => 120 <=? snd p) (order (cache_new 2))) < max_entries (cache_new 2).
Proof.
  apply (verify_accepts_iff digest_ex hmac_ex hex_encode_ex hex_decode_ex key_ex (lit "intent")
    assertion_ex 120 (cache_new 2) (payload_hash digest_ex hex_encode_ex (as_bytes (lit "intent")))
    (cache_new_wf 2)). vm_compute. reflexivity.
Defined.

Lemma signed_assertion_accepted_witness :
  fst (verify_ex key_ex (lit "intent") assertion_ex 120 (cache_new 2))
  = Ok (payload_hash digest_ex hex_encode_ex (as_bytes (lit "intent"))).
Proof.
  apply (signed_assertion_accepted digest_ex hmac_ex hex_encode_ex hex_decode_ex);
    [exact hex_ex_roundtrip|apply cache_new_wf|vm_compute; reflexivity| |vm_compute; intuition discriminate..
    |vm_compute; reflexivity|vm_compute; reflexivity].
  repeat constructor; vm_compute; intuition discriminate.
Defined.

Lemma nonce_case_variant_replays_witness :
  exists c1, verify_ex key_ex (lit "intent") assertion_ex 120 (cache_new 4) =
    (Ok (payload_hash digest_ex hex_encode_ex (as_bytes (lit "intent"))), c1) /\
  fst (verify_ex key_ex (lit "intent")
    {| nonce_hex := to_ascii_uppercase (nonce_hex assertion_ex); issued_unix := 100;
       expires_unix := 300; assertion_hex := assertion_hex assertion_ex |} 120 c1)
  = Ok (payload_hash digest_ex hex_encode_ex (as_bytes (lit "intent"))).
Proof.
  eexists. split; [vm_compute; reflexivity|].
  apply (nonce_case_variant_replays digest_ex hmac_ex hex_encode_ex hex_decode_ex key_ex
    (lit "intent") assertion_ex 120 (cache_new 4));
    [exact hex_ex_upper|apply cache_new_wf|vm_compute; reflexivity|vm_compute; discriminate
    |vm_compute; reflexivity|vm_compute; reflexivity].
Defined.
