(* ===== verification/Frame.v ===== *)
(** The TLV frame codec ([crates/common/src/protocol/tlv.rs]).

    A frame is a 24-byte header (magic, version, flags, kind, stream, sequence
    number, payload length, big-endian) and a payload.  [decode] works on the
    receive buffer: it leaves it alone while the frame is incomplete and takes
    exactly one frame off its front otherwise.  The LZ4 codec is third-party
    code: it is an argument of the payload functions. *)

From S2P Require Import Prelude RustStd.

Open Scope Z_scope.

Definition MAGIC : list Z := [86; 80; 83; 77].
Definition CURRENT_VERSION : Z := 1.
Definition HEADER_LEN : Z := 24.
Definition MAX_PAYLOAD_LEN : Z := 16 * 1024 * 1024.
Definition FLAG_COMPRESSED_LZ4 : Z := 1.

Inductive ProtocolError :=
| InvalidMagic
| UnsupportedVersion (v : Z)
| PayloadTooLarge (n : Z)
| DecompressedPayloadTooLarge (n : Z)
| Compression (msg : str).

Inductive MessageKind :=
| ClientHello | ServerHello | Telemetry | Command | CommandAck | CommandCancel
| CommandCancelAck | CommandOutput | CommandResume | TerminalStreamOutput
| AgentSessionDisconnect | AgentUpdateVerificationRequest | AgentUpdateVerificationResult
| TerminalControl | TerminalControlAck | FileChunk | ConfigUpdate | Keepalive | KindError
| KindUnknown (v : Z).

Definition from_u16 (value : Z) : MessageKind :=
  match value with
  | 1 => ClientHello
  | 2 => ServerHello
  | 16 => Telemetry
  | 32 => Command
  | 33 => CommandAck
  | 35 => CommandCancel
  | 37 => CommandCancelAck
  | 34 => CommandOutput
  | 38 => CommandResume
  | 36 => TerminalStreamOutput
  | 39 => AgentSessionDisconnect
  | 40 => AgentUpdateVerificationRequest
  | 41 => AgentUpdateVerificationResult
  | 42 => TerminalControl
  | 43 => TerminalControlAck
  | 48 => FileChunk
  | 49 => ConfigUpdate
  | 64 => Keepalive
  | 255 => KindError
  | other => KindUnknown other
  end.

Definition as_u16 (k : MessageKind) : Z :=
  match k with
  | ClientHello => 1
  | ServerHello => 2
  | Telemetry => 16
  | Command => 32
  | CommandAck => 33
  | CommandCancel => 35
  | CommandCancelAck => 37
  | CommandOutput => 34
  | CommandResume => 38
  | TerminalStreamOutput => 36
  | AgentSessionDisconnect => 39
  | AgentUpdateVerificationRequest => 40
  | AgentUpdateVerificationResult => 41
  | TerminalControl => 42
  | TerminalControlAck => 43
  | FileChunk => 48
  | ConfigUpdate => 49
  | Keepalive => 64
  | KindError => 255
  | KindUnknown value => value
  end.

Record Frame := {
  version : Z;
  flags : Z;
  kind : MessageKind;
  stream_id : Z;
  seq : Z;
  payload : list Z;
}.

(** [Frame::new]. *)
Definition frame_new (k : MessageKind) (stream sq : Z) (p : list Z) : Frame :=
  {| version := CURRENT_VERSION; flags := 0; kind := k; stream_id := stream;
     seq := sq; payload := p |}.

(** [Frame::encode]: the bytes appended to [dst]. *)
Definition encode (f : Frame) (dst : list Z) : result ProtocolError (list Z) :=
  if negb (version f =? CURRENT_VERSION) then Err (UnsupportedVersion (version f))
  else if MAX_PAYLOAD_LEN <? vec_len (payload f)
  then Err (PayloadTooLarge (vec_len (payload f)))
  else Ok (dst ++ MAGIC ++ be_bytes 1 (version f) ++ be_bytes 1 (flags f)
             ++ be_bytes 2 (as_u16 (kind f)) ++ be_bytes 4 (stream_id f)
             ++ be_bytes 8 (seq f) ++ be_bytes 4 (vec_len (payload f)) ++ payload f).

(** [src[i..i+n]] as a big-endian number. *)
Definition get_be (src : list Z) (i n : nat) : Z := be_val (take n (drop i src)).

(** [Frame::decode]: the outcome and the buffer left. *)
Definition decode (src : list Z) : result ProtocolError (option Frame) * list Z :=
  if vec_len src <? HEADER_LEN then (Ok None, src)
  else if negb (bool_decide (take 4 src = MAGIC)) then (Err InvalidMagic, src)
  else if negb (get_be src 4 1 =? CURRENT_VERSION)
  then (Err (UnsupportedVersion (get_be src 4 1)), src)
  else
    let payload_len := get_be src 20 4 in
    if MAX_PAYLOAD_LEN <? payload_len then (Err (PayloadTooLarge payload_len), src)
    else if vec_len src <? HEADER_LEN + payload_len then (Ok None, src)
    else
      (Ok (Some {| version := get_be src 4 1;
                   flags := get_be src 5 1;
                   kind := from_u16 (get_be src 6 2);
                   stream_id := get_be src 8 4;
                   seq := get_be src 12 8;
                   payload := take (Z.to_nat payload_len) (drop 24 src) |}),
       drop (24 + Z.to_nat payload_len) src).

(** [decompressed_len_prefix]. *)
Definition decompressed_len_prefix (p : list Z) : result ProtocolError Z :=
  if vec_len p <? 4 then Err (Compression (lit "missing size prefix"))
  else Ok (le_val (take 4 p)).

Section Lz4.
Context (lz4_compress_prepend_size : list Z -> list Z).
Context (lz4_decompress_size_prepended : list Z -> result str (list Z)).

Definition decoded_payload (f : Frame) : result ProtocolError (list Z) :=
  if Z.land (flags f) FLAG_COMPRESSED_LZ4 =? 0 then Ok (payload f)
  else
    decompressed_len ← decompressed_len_prefix (payload f);
    if MAX_PAYLOAD_LEN <? decompressed_len
    then Err (DecompressedPayloadTooLarge decompressed_len)
    else map_err Compression (lz4_decompress_size_prepended (payload f)).

Definition maybe_compress_payload (p : list Z) (threshold : Z)
  : result ProtocolError (Z * list Z) :=
  if vec_len p <? threshold then Ok (0, p)
  else
    let compressed := lz4_compress_prepend_size p in
    if vec_len p <=? vec_len compressed then Ok (0, p)
    else Ok (FLAG_COMPRESSED_LZ4, compressed).
End Lz4.

(** The values a [Frame] of the code can hold. *)
Record frame_wf (f : Frame) : Prop := {
  wf_flags : 0 <= flags f <= u8_max;
  wf_kind : 0 <= as_u16 (kind f) <= u16_max;
  wf_stream : 0 <= stream_id f <= u32_max;
  wf_seq : 0 <= seq f <= u64_max;
  wf_payload : Forall is_byte (payload f);
}.

(** The kind a receiver sees: a [KindUnknown] that names a known kind is read
    as that kind. *)
Definition canonical_kind (f : Frame) : Frame :=
  {| version := version f; flags := flags f; kind := from_u16 (as_u16 (kind f));
     stream_id := stream_id f; seq := seq f; payload := payload f |}.

(** * Lemmas *)

(** The wire form of a frame. *)
Definition wire (f : Frame) : list Z :=
  MAGIC ++ be_bytes 1 (version f) ++ be_bytes 1 (flags f)
  ++ be_bytes 2 (as_u16 (kind f)) ++ be_bytes 4 (stream_id f)
  ++ be_bytes 8 (seq f) ++ be_bytes 4 (vec_len (payload f)) ++ payload f.

Arguments wire : simpl never.

Lemma as_u16_from_u16 v : as_u16 (from_u16 v) = v.
Proof.
  unfold from_u16.
  repeat (match goal with |- context [match ?x with _ => _ end] => destruct x end; try done).
Qed.

Lemma encode_ok f dst bs :
  encode f dst = Ok bs ->
  bs = dst ++ wire f /\ version f = CURRENT_VERSION /\ vec_len (payload f) <= MAX_PAYLOAD_LEN.
Proof.
  unfold encode. destruct (_ =? _) eqn:E1; cbn; [|done].
  destruct (_ <? _) eqn:E2; [done|]. bools. intros [= <-]. auto.
Qed.

(** The fields of a header at the front of a buffer. *)
Record header_at (src : list Z) (v fl k st sq len : Z) (body : list Z) : Prop := {
  at_src : src = MAGIC ++ be_bytes 1 v ++ be_bytes 1 fl ++ be_bytes 2 k ++
                 be_bytes 4 st ++ be_bytes 8 sq ++ be_bytes 4 len ++ body;
}.

Lemma header_fields src v fl k st sq len body :
  header_at src v fl k st sq len body ->
  take 4 src = MAGIC /\
  get_be src 4 1 = be_val (be_bytes 1 v) /\ get_be src 5 1 = be_val (be_bytes 1 fl) /\
  get_be src 6 2 = be_val (be_bytes 2 k) /\ get_be src 8 4 = be_val (be_bytes 4 st) /\
  get_be src 12 8 = be_val (be_bytes 8 sq) /\ get_be src 20 4 = be_val (be_bytes 4 len) /\
  drop 24 src = body /\ vec_len src = 24 + vec_len body.
Proof.
  intros [->]. repeat (split; [reflexivity|]).
  unfold vec_len. rewrite !length_app. cbn [length be_bytes MAGIC]. lia.
Qed.

(** A buffer of at least 24 bytes that starts with the magic has a header. *)
Lemma header_exists src :
  Forall is_byte src -> HEADER_LEN <= vec_len src -> take 4 src = MAGIC ->
  header_at src (get_be src 4 1) (get_be src 5 1) (get_be src 6 2) (get_be src 8 4)
            (get_be src 12 8) (get_be src 20 4) (drop 24 src).
Proof.
  intros Hb Hl Hm. constructor. unfold HEADER_LEN, vec_len in Hl. unfold get_be.
  assert (G : forall i n, (i + n <= length src)%nat ->
    be_bytes n (be_val (take n (drop i src))) ++ drop (i + n) src = drop i src).
  { intros i n Hi. rewrite <- (take_drop n (drop i src)) at 2. rewrite drop_drop. f_equal.
    rewrite <- (be_bytes_be_val (take n (drop i src))) at 2 by (apply Forall_take, Forall_drop, Hb).
    f_equal. rewrite length_take, length_drop. lia. }
  pose proof (G 20 4 ltac:(lia))%nat as G6. pose proof (G 12 8 ltac:(lia))%nat as G5.
  pose proof (G 8 4 ltac:(lia))%nat as G4. pose proof (G 6 2 ltac:(lia))%nat as G3.
  pose proof (G 5 1 ltac:(lia))%nat as G2. pose proof (G 4 1 ltac:(lia))%nat as G1.
  cbn [Nat.add] in *. rewrite G6, G5, G4, G3, G2, G1, <- Hm. by rewrite take_drop.
Qed.

Lemma wire_header f rest :
  header_at (wire f ++ rest) (version f) (flags f) (as_u16 (kind f)) (stream_id f) (seq f)
            (vec_len (payload f)) (payload f ++ rest).
Proof. constructor. unfold wire. by rewrite <- !app_assoc. Qed.

Lemma length_wire f : vec_len (wire f) = 24 + vec_len (payload f).
Proof. pose proof (wire_header f []) as H%header_fields. rewrite !app_nil_r in H. apply H. Qed.

Lemma fits_u32 n : 0 <= n <= MAX_PAYLOAD_LEN -> 0 <= n < 256 ^ Z.of_nat 4.
Proof. unfold MAX_PAYLOAD_LEN. lia. Qed.

(** Decoding a buffer that starts with a whole frame. *)
Lemma decode_wire f rest :
  frame_wf f -> version f = CURRENT_VERSION -> vec_len (payload f) <= MAX_PAYLOAD_LEN ->
  decode (wire f ++ rest) = (Ok (Some (canonical_kind f)), rest).
Proof.
  intros [Hf Hk Hst Hsq Hp] Hv Hl.
  destruct (header_fields _ _ _ _ _ _ _ _ (wire_header f rest))
    as (Em & E1 & E2 & E3 & E4 & E5 & E6 & E7 & E8).
  pose proof (vec_len_nonneg (payload f)) as Hn. pose proof (vec_len_nonneg rest) as Hr.
  unfold u8_max, u16_max, u32_max, u64_max in *.
  rewrite be_val_be_bytes in E1, E2, E3, E4, E5 by (rewrite ?Hv; unfold CURRENT_VERSION; lia).
  rewrite be_val_be_bytes in E6 by (apply fits_u32; lia).
  unfold decode. rewrite Em, bool_decide_true, E1, E2, E3, E4, E5, E6, E8, Hv by done. cbn [negb].
  assert (Ha : vec_len (payload f ++ rest) = vec_len (payload f) + vec_len rest).
  { unfold vec_len. rewrite length_app. lia. }
  rewrite Ha. unfold HEADER_LEN.
  rewrite !(proj2 (Z.ltb_ge _ _)) by lia. change (negb (CURRENT_VERSION =? CURRENT_VERSION)) with false.
  cbn [negb]. unfold canonical_kind. rewrite Hv.
  assert (Hto : Z.to_nat (vec_len (payload f)) = length (payload f)) by (unfold vec_len; lia).
  rewrite <- drop_drop, E7, Hto, drop_app_length, take_app_length. done.
Qed.

(** While bytes of a frame are missing, [decode] waits and leaves the buffer. *)
Lemma decode_short f p q :
  frame_wf f -> version f = CURRENT_VERSION -> vec_len (payload f) <= MAX_PAYLOAD_LEN ->
  wire f = p ++ q -> q <> [] -> decode p = (Ok None, p).
Proof.
  intros Hwf Hv Hl Hw Hq. unfold decode.
  destruct (Z.ltb_spec (vec_len p) HEADER_LEN) as [|Hp]; [done|].
  destruct (header_fields _ _ _ _ _ _ _ _ (wire_header f []))
    as (Em & E1 & _ & _ & _ & _ & E6 & _ & _).
  rewrite app_nil_r in *. rewrite Hw in Em, E1, E6. unfold get_be, HEADER_LEN, vec_len in *.
  pose proof (vec_len_nonneg (payload f)) as Hn. unfold vec_len in Hn.
  rewrite be_val_be_bytes in E1 by (rewrite Hv; unfold CURRENT_VERSION; lia).
  rewrite be_val_be_bytes in E6 by (apply fits_u32; lia).
  rewrite take_app_le in Em by lia.
  rewrite drop_app_le, take_app_le in E1 by (rewrite ?length_drop; lia).
  rewrite drop_app_le, take_app_le in E6 by (rewrite ?length_drop; lia).
  rewrite Em, bool_decide_true, E1, E6, Hv by done. cbn [negb].
  change (negb (CURRENT_VERSION =? CURRENT_VERSION)) with false. cbn [negb].
  rewrite (proj2 (Z.ltb_ge _ _)) by lia.
  pose proof (length_wire f) as Hlw. unfold vec_len in Hlw. rewrite Hw, length_app in Hlw.
  assert (0 < length q)%nat by (destruct q; [done|cbn; lia]).
  rewrite (proj2 (Z.ltb_lt _ _)) by lia. done.
Qed.

(** * Claims *)

(** C34: round trip of the codec.  Decoding a buffer that starts with an encoded
    frame returns that frame (with its kind in canonical form) and leaves
    exactly the bytes that follow it. *)
Theorem decode_encode f bs rest :
  frame_wf f -> encode f [] = Ok bs ->
  decode (bs ++ rest) = (Ok (Some (canonical_kind f)), rest).
Proof. intros Hw H. apply encode_ok in H as (-> & Hv & Hl). by apply decode_wire. Qed.

Lemma decode_encode_witness :
  decode (match encode (frame_new Telemetry 7 9 [1; 2; 3]) [] with Ok b => b | Err _ => [] end ++ [5; 6])
  = (Ok (Some (frame_new Telemetry 7 9 [1; 2; 3])), [5; 6]).
Proof.
  apply (decode_encode (frame_new Telemetry 7 9 [1; 2; 3])); [|reflexivity].
  constructor; cbn; [unfold u8_max, u16_max, u32_max, u64_max; lia..|].
  bytes.
Defined.

(** Incremental decoding.  On every proper prefix of an encoded frame
    [decode] neither fails nor consumes bytes: it waits for the rest. *)
Theorem decode_incomplete_waits f bs p q :
  frame_wf f -> encode f [] = Ok bs -> bs = p ++ q -> q <> [] -> decode p = (Ok None, p).
Proof.
  intros Hw H Hpq Hq. apply encode_ok in H as (-> & Hv & Hl). by eapply decode_short.
Qed.

Lemma decode_incomplete_waits_witness :
  decode (take 26 (wire (frame_new Command 1 2 [1; 2; 3]))) =
    (Ok None, take 26 (wire (frame_new Command 1 2 [1; 2; 3]))).
Proof.
  apply (decode_incomplete_waits (frame_new Command 1 2 [1; 2; 3])
    (wire (frame_new Command 1 2 [1; 2; 3])) _ [3]); [|reflexivity|reflexivity|discriminate].
  constructor; cbn; [unfold u8_max, u16_max, u32_max, u64_max; lia..|].
  bytes.
Defined.

(** What [decode] accepts is exactly an encoded frame: the frame it returns
    is within the field widths and re-encodes to the bytes it consumed. *)
Theorem decode_reencode src f rest :
  Forall is_byte src -> decode src = (Ok (Some f), rest) ->
  frame_wf f /\ exists bs, encode f [] = Ok bs /\ src = bs ++ rest.
Proof.
  intros Hb. unfold decode. destruct (Z.ltb_spec (vec_len src) HEADER_LEN) as [|Hl]; [done|].
  destruct (bool_decide _) eqn:Em; cbn [negb]; [|done]. bools.
  destruct (get_be src 4 1 =? CURRENT_VERSION) eqn:Ev; cbn [negb]; [|done]. bools.
  destruct (Z.ltb_spec MAX_PAYLOAD_LEN (get_be src 20 4)) as [|Hm]; [done|].
  destruct (Z.ltb_spec (vec_len src) (HEADER_LEN + get_be src 20 4)) as [|Hs]; [done|].
  intros [= <- <-]. pose proof (header_exists src Hb Hl Em) as [Hh].
  assert (Hget : forall i n, 0 <= get_be src i n < 256 ^ Z.of_nat n).
  { intros i n. unfold get_be. pose proof (be_val_bounds (take n (drop i src))
      (Forall_take _ _ _ (Forall_drop _ _ _ Hb))) as B. split; [lia|].
    eapply Z.lt_le_trans; [apply B|]. apply Z.pow_le_mono_r; [lia|].
    rewrite length_take. lia. }
  pose proof (Hget 20 4)%nat as Hplen. set (pl := get_be src 20 4) in *.
  unfold HEADER_LEN, vec_len in *.
  assert (Hlen : Z.of_nat (length (take (Z.to_nat pl) (drop 24 src))) = pl).
  { rewrite length_take, length_drop. lia. }
  split.
  - constructor; cbn [flags kind stream_id seq payload]; rewrite ?as_u16_from_u16.
    + pose proof (Hget 5 1)%nat. unfold u8_max. lia.
    + pose proof (Hget 6 2)%nat. unfold u16_max. lia.
    + pose proof (Hget 8 4)%nat. unfold u32_max. lia.
    + pose proof (Hget 12 8)%nat. unfold u64_max. lia.
    + by apply Forall_take, Forall_drop.
  - unfold encode. cbn [version flags kind stream_id seq payload].
    rewrite Ev. change (negb (CURRENT_VERSION =? CURRENT_VERSION)) with false. cbn [negb].
    unfold vec_len. rewrite Hlen, (proj2 (Z.ltb_ge _ _)) by lia.
    assert (Hd : drop (24 + Z.to_nat pl) src = drop (Z.to_nat pl) (drop 24 src))
      by (by rewrite drop_drop). cbn [Nat.add] in Hd.
    eexists. split; [reflexivity|]. rewrite as_u16_from_u16, Hd, <- Ev. cbn [app].
    rewrite <- !app_assoc, take_drop. exact Hh.
Qed.

Lemma decode_reencode_witness :
  frame_wf (frame_new Keepalive 1 2 [8]) /\
  exists bs, encode (frame_new Keepalive 1 2 [8]) [] = Ok bs /\
             wire (frame_new Keepalive 1 2 [8]) ++ [4] = bs ++ [4].
Proof.
  apply (decode_reencode (wire (frame_new Keepalive 1 2 [8]) ++ [4])); [|reflexivity].
  vm_compute wire. cbn [app]. bytes.
Defined.

(** A payload that fits a frame survives [maybe_compress_payload] followed by
    [decoded_payload], and compression never makes it longer; the LZ4 codec is
    assumed to undo itself and to prepend the length in little-endian. *)
Theorem compressed_payload_roundtrip (compress : list Z -> list Z)
  (decompress : list Z -> result str (list Z)) f p threshold fl q :
  (forall b : list Z, vec_len b <= MAX_PAYLOAD_LEN -> decompress (compress b) = Ok b) ->
  (forall b : list Z, vec_len b <= MAX_PAYLOAD_LEN ->
     4 <= vec_len (compress b) /\ le_val (take 4 (compress b)) = vec_len b) ->
  vec_len p <= MAX_PAYLOAD_LEN ->
  maybe_compress_payload compress p threshold = Ok (fl, q) ->
  vec_len q <= vec_len p /\
  decoded_payload decompress
    {| version := version f; flags := fl; kind := kind f; stream_id := stream_id f;
       seq := seq f; payload := q |} = Ok p.
Proof.
  intros Hd Hp Hl. unfold maybe_compress_payload, decoded_payload. cbn [flags payload].
  destruct (_ <? threshold); [intros [= <- <-]; split; [lia|done]|].
  destruct (Z.leb_spec (vec_len p) (vec_len (compress p))); intros [= <- <-]; [split; [lia|done]|].
  destruct (Hp p Hl) as [H4 Hv]. split; [lia|].
  change (Z.land FLAG_COMPRESSED_LZ4 FLAG_COMPRESSED_LZ4 =? 0) with false. cbn [mbind result_bind].
  unfold decompressed_len_prefix. rewrite (proj2 (Z.ltb_ge _ _)) by lia. cbn [mbind result_bind].
  rewrite Hv, (proj2 (Z.ltb_ge _ _)), Hd by lia. done.
Qed.

(** A codec with the assumed behaviour: runs of zeros become a bare length. *)
Definition zero_run_compress (p : list Z) : list Z :=
  rev (be_bytes 4 (vec_len p)) ++ if forallb (Z.eqb 0) p then [] else p.

Definition zero_run_decompress (c : list Z) : result str (list Z) :=
  match drop 4 c with
  | [] => Ok (repeat 0 (Z.to_nat (le_val (take 4 c))))
  | p => Ok p
  end.

Lemma zero_run_prefix p : take 4 (zero_run_compress p) = rev (be_bytes 4 (vec_len p)).
Proof. reflexivity. Qed.

Lemma zero_run_le (p : list Z) :
  vec_len p <= MAX_PAYLOAD_LEN -> le_val (rev (be_bytes 4 (vec_len p))) = vec_len p.
Proof.
  intros H. unfold le_val. rewrite rev_involutive. apply be_val_be_bytes, fits_u32.
  split; [apply vec_len_nonneg|done].
Qed.

Lemma zero_run_roundtrip (p : list Z) :
  vec_len p <= MAX_PAYLOAD_LEN -> zero_run_decompress (zero_run_compress p) = Ok p.
Proof.
  intros H. unfold zero_run_decompress. rewrite zero_run_prefix, zero_run_le by done.
  change (drop 4 (zero_run_compress p)) with (if forallb (Z.eqb 0) p then [] else p).
  destruct (forallb (Z.eqb 0) p) eqn:E; [|by destruct p]. f_equal.
  unfold vec_len. rewrite Nat2Z.id. clear H. induction p as [|x p IH]; cbn in *; [done|].
  destruct x; try done. f_equal. auto.
Qed.

Lemma compressed_payload_roundtrip_witness :
  decoded_payload zero_run_decompress
    {| version := 1; flags := 1; kind := Telemetry; stream_id := 0; seq := 0;
       payload := [8; 0; 0; 0] |} = Ok (repeat 0 8).
Proof.
  apply (compressed_payload_roundtrip zero_run_compress zero_run_decompress
    (frame_new Telemetry 0 0 []) (repeat 0 8) 5 1 [8; 0; 0; 0]).
  - exact zero_run_roundtrip.
  - intros b Hb. rewrite zero_run_prefix. split; [|by apply zero_run_le].
    unfold vec_len, zero_run_compress. rewrite length_app, length_rev, length_be_bytes. lia.
  - vm_compute. discriminate.
  - reflexivity.
Defined.
