(* ===== verification/Transport.v ===== *)
(** The framed Noise transport ([crates/common/src/protocol/transport.rs]).

    A frame is encoded, cut into chunks, encrypted chunk by chunk and written
    as length-prefixed records; the reader reassembles records from whatever
    pieces the socket delivers, decrypts them and decodes frames, refusing a
    frame whose sequence number does not grow on its stream.

    The Noise implementation (the [snow] crate) is an argument: a handshake
    state type [HS] and a transport state type [T] with their operations.  The
    socket is the list of pieces its reads return: an empty piece is end of
    file, the end of the list is "nothing to read yet", at which the reading
    future is suspended (and may be dropped and created again). *)

From Stdlib Require Import Sorted.
From S2P Require Import Prelude RustStd Frame.

Open Scope Z_scope.

Definition MAX_NOISE_MESSAGE_LEN : Z := 65535.
Definition MAX_NOISE_PLAINTEXT_CHUNK : Z := 16 * 1024.

Inductive TransportError :=
| Io
| Noise
| Protocol (e : ProtocolError)
| NoiseMessageTooLarge (n : Z)
| InvalidKeyHex (msg : str)
| MissingRemoteStatic
| RemoteStaticMismatch
| StaleFrame (stream sq last : Z).

(** [decode_noise_key_hex], with the third-party hex decoder as an argument. *)
Definition decode_noise_key_hex (hex_decode : str -> result str (list Z)) (value : str)
  : result TransportError (list Z) :=
  key ← map_err InvalidKeyHex (hex_decode value);
  if negb (vec_len key =? 32)
  then Err (InvalidKeyHex (lit "expected 32 bytes, got " ++ to_string (vec_len key)))
  else Ok key.

(** [slice.chunks(n)]; [n] is positive in the code. *)
Fixpoint chunks_go (fuel : nat) (n : nat) (l : list Z) : list (list Z) :=
  match fuel, l with
  | O, _ => []
  | _, [] => []
  | S fuel', _ => take n l :: chunks_go fuel' n (drop n l)
  end.
Definition chunks (n : Z) (l : list Z) : list (list Z) := chunks_go (length l) (Z.to_nat n) l.

(** [write_noise_message]: the bytes put on the wire. *)
Definition write_noise_message (message : list Z) : result TransportError (list Z) :=
  if MAX_NOISE_MESSAGE_LEN <? vec_len message
  then Err (NoiseMessageTooLarge (vec_len message))
  else Ok (be_bytes 2 (vec_len message) ++ message).

(** [read_noise_message] of the handshake: the message and the bytes left. *)
Definition read_noise_message (io : list Z) : result TransportError (list Z * list Z) :=
  if vec_len io <? 2 then Err Io
  else
    let len := be_val (take 2 io) in
    if MAX_NOISE_MESSAGE_LEN <? len then Err (NoiseMessageTooLarge len)
    else if vec_len io <? 2 + len then Err Io
    else Ok (take (Z.to_nat len) (drop 2 io), drop (2 + Z.to_nat len) io).

(** The outcome of polling a reading future. *)
Inductive poll (A : Type) :=
| Ready (a : A)
| Pending
| OutOfFuel.
Arguments Ready {A} a.
Arguments Pending {A}.
Arguments OutOfFuel {A}.

(** One record off the front of the staging buffer, when it is complete. *)
Definition take_record (buf : list Z) : option (result TransportError (list Z * list Z)) :=
  if vec_len buf <? 2 then None
  else
    let len := be_val (take 2 buf) in
    if MAX_NOISE_MESSAGE_LEN <? len then Some (Err (NoiseMessageTooLarge len))
    else if vec_len buf <? 2 + len then None
    else Some (Ok (take (Z.to_nat len) (drop 2 buf), drop (2 + Z.to_nat len) buf)).

(** [read_noise_message_buffered]: outcome, staging buffer and socket left. *)
Fixpoint read_noise_message_buffered (buf : list Z) (io : list (list Z))
  : poll (result TransportError (list Z)) * list Z * list (list Z) :=
  match take_record buf with
  | Some (Err e) => (Ready (Err e), buf, io)
  | Some (Ok (record, rest)) => (Ready (Ok record), rest, io)
  | None =>
      match io with
      | [] => (Pending, buf, [])
      | [] :: io' => (Ready (Err Io), buf, io')
      | piece :: io' => read_noise_message_buffered (buf ++ piece) io'
      end
  end.

Section Noise.
Context {HS T : Type}.
Context (noise_write : T -> list Z -> option (list Z * T)).
Context (noise_read : T -> list Z -> option (list Z * T)).
Context (hs_write : HS -> option (list Z * HS)).
Context (hs_read : HS -> list Z -> option HS).
Context (hs_remote_static : HS -> option (list Z)).
Context (hs_into_transport : HS -> option T).

Record NoiseFrameStream := {
  transport : T;
  remote_static : option (list Z);
  wire_read_buf : list Z;
  plaintext_buf : list Z;
  highest_inbound_seq : gmap Z Z;
}.

(** [from_handshake]. *)
Definition from_handshake (hs : HS) (remote : option (list Z))
  : result TransportError NoiseFrameStream :=
  t ← ok_or (hs_into_transport hs) Noise;
  Ok {| transport := t; remote_static := remote; wire_read_buf := [];
        plaintext_buf := []; highest_inbound_seq := ∅ |}.

(** [handshake_ik_client]: the stream and the bytes written.  [inbound] is what
    the peer answers to the first message. *)
Definition handshake_ik_client (hs : HS) (inbound : list Z)
  : result TransportError NoiseFrameStream * list Z :=
  match hs_write hs with
  | None => (Err Noise, [])
  | Some (msg, hs1) =>
      match write_noise_message msg with
      | Err e => (Err e, [])
      | Ok out =>
          (m ← read_noise_message inbound;
           hs2 ← ok_or (hs_read hs1 (fst m)) Noise;
           from_handshake hs2 (hs_remote_static hs2), out)
      end
  end.

(** [handshake_ik_server]: the stream and the bytes written. *)
Definition handshake_ik_server (hs : HS) (inbound : list Z) (expected : option (list Z))
  : result TransportError NoiseFrameStream * list Z :=
  match read_noise_message inbound with
  | Err e => (Err e, [])
  | Ok (incoming, _) =>
      match hs_read hs incoming with
      | None => (Err Noise, [])
      | Some hs1 =>
          match hs_remote_static hs1 with
          | None => (Err MissingRemoteStatic, [])
          | Some remote =>
              if match expected with
                 | Some e => negb (bool_decide (remote = e))
                 | None => false
                 end
              then (Err RemoteStaticMismatch, [])
              else match hs_write hs1 with
              | None => (Err Noise, [])
              | Some (msg, hs2) =>
                  match write_noise_message msg with
                  | Err e => (Err e, [])
                  | Ok out => (from_handshake hs2 (Some remote), out)
                  end
              end
          end
      end
  end.

(** The loop of [write_frame] over the chunks: outcome, transport, bytes sent. *)
Fixpoint write_chunks (t : T) (l : list (list Z)) : result TransportError unit * T * list Z :=
  match l with
  | [] => (Ok tt, t, [])
  | chunk :: rest =>
      match noise_write t chunk with
      | None => (Err Noise, t, [])
      | Some (c, t1) =>
          match write_noise_message c with
          | Err e => (Err e, t1, [])
          | Ok out => let '(r, t2, outs) := write_chunks t1 rest in (r, t2, out ++ outs)
          end
      end
  end.

Definition write_frame (t : T) (f : Frame) : result TransportError unit * T * list Z :=
  match encode f [] with
  | Err e => (Err (Protocol e), t, [])
  | Ok plaintext => write_chunks t (chunks MAX_NOISE_PLAINTEXT_CHUNK plaintext)
  end.

(** [validate_inbound_frame]. *)
Definition validate_inbound_frame (st : NoiseFrameStream) (f : Frame)
  : result TransportError unit * NoiseFrameStream :=
  let bump := {| transport := transport st; remote_static := remote_static st;
                 wire_read_buf := wire_read_buf st; plaintext_buf := plaintext_buf st;
                 highest_inbound_seq := <[stream_id f := seq f]> (highest_inbound_seq st) |} in
  match highest_inbound_seq st !! stream_id f with
  | Some last => if seq f <=? last then (Err (StaleFrame (stream_id f) (seq f) last), st)
                 else (Ok tt, bump)
  | None => (Ok tt, bump)
  end.

Definition set_plaintext (st : NoiseFrameStream) (p : list Z) : NoiseFrameStream :=
  {| transport := transport st; remote_static := remote_static st;
     wire_read_buf := wire_read_buf st; plaintext_buf := p;
     highest_inbound_seq := highest_inbound_seq st |}.

Definition set_wire (st : NoiseFrameStream) (w : list Z) : NoiseFrameStream :=
  {| transport := transport st; remote_static := remote_static st;
     wire_read_buf := w; plaintext_buf := plaintext_buf st;
     highest_inbound_seq := highest_inbound_seq st |}.

Definition set_transport (st : NoiseFrameStream) (t : T) : NoiseFrameStream :=
  {| transport := t; remote_static := remote_static st;
     wire_read_buf := wire_read_buf st; plaintext_buf := plaintext_buf st;
     highest_inbound_seq := highest_inbound_seq st |}.

(** The loop of [read_frame]; every turn takes a record, so at least two bytes,
    off the wire. *)
Fixpoint read_frame_loop (fuel : nat) (st : NoiseFrameStream) (io : list (list Z))
  : poll (result TransportError Frame) * NoiseFrameStream * list (list Z) :=
  match fuel with
  | O => (OutOfFuel, st, io)
  | S fuel' =>
      match decode (plaintext_buf st) with
      | (Err e, p) => (Ready (Err (Protocol e)), set_plaintext st p, io)
      | (Ok (Some f), p) =>
          match validate_inbound_frame (set_plaintext st p) f with
          | (Ok _, st') => (Ready (Ok f), st', io)
          | (Err e, st') => (Ready (Err e), st', io)
          end
      | (Ok None, p) =>
          match read_noise_message_buffered (wire_read_buf st) io with
          | (Pending, w, io') => (Pending, set_wire (set_plaintext st p) w, io')
          | (OutOfFuel, w, io') => (OutOfFuel, set_wire (set_plaintext st p) w, io')
          | (Ready (Err e), w, io') => (Ready (Err e), set_wire (set_plaintext st p) w, io')
          | (Ready (Ok encrypted), w, io') =>
              match noise_read (transport st) encrypted with
              | None => (Ready (Err Noise), set_wire (set_plaintext st p) w, io')
              | Some (plain, t') =>
                  read_frame_loop fuel'
                    (set_transport (set_wire (set_plaintext st (p ++ plain)) w) t') io'
              end
          end
      end
  end.

(** Bytes still to be consumed, the measure of the loop. *)
Definition unread (st : NoiseFrameStream) (io : list (list Z)) : nat :=
  (length (wire_read_buf st) + length (concat io))%nat.

Definition read_frame (st : NoiseFrameStream) (io : list (list Z)) :=
  read_frame_loop (S (unread st io)) st io.

(** Reading [n] frames one after the other. *)
Fixpoint read_frames (n : nat) (st : NoiseFrameStream) (io : list (list Z))
  : option (list Frame * NoiseFrameStream * list (list Z)) :=
  match n with
  | O => Some ([], st, io)
  | S n' =>
      match read_frame st io with
      | (Ready (Ok f), st', io') =>
          match read_frames n' st' io' with
          | Some (fs, st'', io'') => Some (f :: fs, st'', io'')
          | None => None
          end
      | _ => None
      end
  end.

(** Writing frames one after the other. *)
Fixpoint write_frames (t : T) (fs : list Frame) : result TransportError unit * T * list Z :=
  match fs with
  | [] => (Ok tt, t, [])
  | f :: rest =>
      match write_frame t f with
      | (Ok _, t1, out) => let '(r, t2, outs) := write_frames t1 rest in (r, t2, out ++ outs)
      | other => other
      end
  end.
End Noise.

Arguments NoiseFrameStream : clear implicits.

(** * Lemmas *)

(** ** Records and the staging buffer *)

Lemma take_record_app buf more x :
  take_record buf = Some x ->
  take_record (buf ++ more) =
    Some (match x with Ok (r, rest) => Ok (r, rest ++ more) | Err e => Err e end).
Proof.
  unfold take_record, vec_len. destruct (Z.ltb_spec (Z.of_nat (length buf)) 2) as [|H2]; [done|].
  rewrite length_app, (proj2 (Z.ltb_ge (Z.of_nat (_ + _)) 2)) by lia.
  rewrite take_app_le by lia.
  destruct (Z.ltb_spec MAX_NOISE_MESSAGE_LEN (be_val (take 2 buf))); [by intros [= <-]|].
  destruct (Z.ltb_spec (Z.of_nat (length buf)) (2 + be_val (take 2 buf))) as [|Hl]; [done|].
  intros [= <-]. rewrite (proj2 (Z.ltb_ge (Z.of_nat (_ + _)) _)) by lia.
  rewrite (drop_app_le buf more 2), take_app_le by (rewrite ?length_drop; lia).
  by rewrite (drop_app_le buf more (2 + _)) by lia.
Qed.

(** A record at the front of the staging buffer is taken off it. *)
Lemma take_record_record c rest :
  vec_len c <= MAX_NOISE_MESSAGE_LEN ->
  take_record (be_bytes 2 (vec_len c) ++ c ++ rest) = Some (Ok (c, rest)).
Proof.
  intros Hc. pose proof (vec_len_nonneg c). unfold take_record.
  assert (E : be_val (take 2 (be_bytes 2 (vec_len c) ++ c ++ rest)) = vec_len c).
  { change (take 2 (be_bytes 2 (vec_len c) ++ c ++ rest)) with (be_bytes 2 (vec_len c)).
    apply be_val_be_bytes. unfold MAX_NOISE_MESSAGE_LEN in Hc. lia. }
  rewrite E, (proj2 (Z.ltb_ge MAX_NOISE_MESSAGE_LEN _)) by done.
  change (drop 2 (be_bytes 2 (vec_len c) ++ c ++ rest)) with (c ++ rest).
  unfold vec_len in *. rewrite !length_app, length_be_bytes.
  rewrite !(proj2 (Z.ltb_ge _ _)) by lia. rewrite Nat2Z.id.
  change (drop (2 + length c) (be_bytes 2 (Z.of_nat (length c)) ++ c ++ rest))
    with (drop (length c) (c ++ rest)).
  by rewrite take_app_length, drop_app_length.
Qed.

(** A proper prefix of a record is not taken. *)
Lemma take_record_short c buf more :
  vec_len c <= MAX_NOISE_MESSAGE_LEN -> be_bytes 2 (vec_len c) ++ c = buf ++ more ->
  more <> [] -> take_record buf = None.
Proof.
  intros Hc E Hm. pose proof (take_record_record c [] Hc) as R. rewrite app_nil_r in R.
  destruct (take_record buf) as [[[r rest]|e]|] eqn:B; [| |done]; exfalso.
  - apply (take_record_app _ more) in B. rewrite <- E, R in B. simplify_eq.
    destruct rest; [by subst|done].
  - apply (take_record_app _ more) in B. by rewrite <- E, R in B.
Qed.

(** Taking a record shortens the buffer. *)
Lemma take_record_length buf r rest :
  take_record buf = Some (Ok (r, rest)) -> (length rest + 2 <= length buf)%nat.
Proof.
  unfold take_record, vec_len. repeat (case_match; try done). bools. intros [= <- <-].
  cbn [drop]. rewrite length_drop. lia.
Qed.

(** ** The buffered reader *)

Lemma read_msg_pending buf io w io' io2 :
  read_noise_message_buffered buf io = (Pending, w, io') ->
  io' = [] /\ w = buf ++ concat io /\
  read_noise_message_buffered buf (io ++ io2) = read_noise_message_buffered w io2.
Proof.
  revert buf. induction io as [|pc io IH]; intros buf; cbn.
  - destruct (take_record buf) as [[[]|]|] eqn:E; [done..|]. intros [= <- <-].
    rewrite app_nil_r. auto.
  - destruct (take_record buf) as [[[]|]|] eqn:E; [done..|].
    destruct pc as [|b pc]; [done|]. intros H%IH. destruct H as (-> & -> & H).
    rewrite H, <- app_assoc. auto.
Qed.

Lemma read_msg_ready buf io x w io' io2 :
  read_noise_message_buffered buf io = (Ready x, w, io') ->
  read_noise_message_buffered buf (io ++ io2) = (Ready x, w, io' ++ io2).
Proof.
  revert buf. induction io as [|pc io IH]; intros buf; cbn.
  - destruct (take_record buf) as [[[r rest]|]|] eqn:E; intros H; simplify_eq;
      destruct io2; cbn; by rewrite E.
  - destruct (take_record buf) as [[[r rest]|]|] eqn:E; intros H; simplify_eq; [done..|].
    destruct pc as [|b pc]; [by simplify_eq|]. by apply IH.
Qed.

Lemma read_msg_fuel buf io w io' : read_noise_message_buffered buf io <> (OutOfFuel, w, io').
Proof.
  revert buf. induction io as [|pc io IH]; intros buf; cbn;
    destruct (take_record buf) as [[[r rest]|]|]; try done. destruct pc; [done|apply IH].
Qed.

(** A delivered record took at least two bytes. *)
Lemma read_msg_length buf io c w io' :
  read_noise_message_buffered buf io = (Ready (Ok c), w, io') ->
  (length w + length (concat io') + 2 <= length buf + length (concat io))%nat.
Proof.
  revert buf. induction io as [|pc io IH]; intros buf; cbn.
  - destruct (take_record buf) as [[[r rest]|]|] eqn:E; intros H; simplify_eq.
    apply take_record_length in E. cbn. lia.
  - destruct (take_record buf) as [[[r rest]|]|] eqn:E; intros H; simplify_eq.
    + apply take_record_length in E. cbn. lia.
    + destruct pc as [|b pc]; [done|]. apply IH in H. rewrite length_app in H |- *. cbn in *. lia.
Qed.

(** Whatever the pieces, the next record is delivered and the rest is kept. *)
Lemma read_msg_record c bytes buf io :
  vec_len c <= MAX_NOISE_MESSAGE_LEN -> Forall (fun p => p <> []) io ->
  buf ++ concat io = be_bytes 2 (vec_len c) ++ c ++ bytes ->
  exists w io', read_noise_message_buffered buf io = (Ready (Ok c), w, io') /\
    w ++ concat io' = bytes /\ Forall (fun p => p <> []) io'.
Proof.
  intros Hc. revert buf. induction io as [|pc io IH]; intros buf Hne E;
    cbn [read_noise_message_buffered concat] in *.
  - rewrite app_nil_r in E. rewrite E, take_record_record by done.
    exists bytes, []. rewrite app_nil_r. auto.
  - apply Forall_cons_iff in Hne as [Hpc Hne].
    rewrite (app_assoc (be_bytes 2 _)) in E.
    apply app_eq_inv in E as [(k & -> & Ek)|(k & Ek & E2)].
    + rewrite <- app_assoc, take_record_record by done.
      exists k, (pc :: io). rewrite Ek. auto.
    + destruct k as [|x k].
      * rewrite app_nil_r in Ek. subst buf. rewrite <- (app_nil_r (_ ++ c)), <- app_assoc.
        rewrite take_record_record by done. exists [], (pc :: io). cbn [app concat] in *. rewrite E2. auto.
      * rewrite (take_record_short c buf (x :: k)) by done. destruct pc as [|b pc]; [done|].
        apply IH; [done|]. rewrite <- app_assoc, E2, (app_assoc buf), <- Ek.
        by rewrite <- app_assoc.
Qed.

Section ReadFrame.
Context {T : Type} (noise_read : T -> list Z -> option (list Z * T)).
Local Abbreviation stream := (NoiseFrameStream T).
Local Abbreviation loop := (read_frame_loop noise_read).
Local Abbreviation read := (read_frame noise_read).

Lemma decode_none_buf p q : decode p = (Ok None, q) -> q = p.
Proof. unfold decode. repeat case_match; congruence. Qed.

(** ** Termination of the loop *)

Lemma read_loop_enough f1 f2 (st : stream) io :
  (unread st io < f1)%nat -> (unread st io < f2)%nat -> loop f1 st io = loop f2 st io.
Proof.
  revert f2 st io. induction f1 as [|f1 IH]; intros [|f2] st io H1 H2; [lia..|]. cbn.
  destruct (decode (plaintext_buf st)) as [[[f|]|e] p]; [done| |done].
  destruct (read_noise_message_buffered _ _) as [[[[c|e]| |] w] io'] eqn:R; try done.
  destruct (noise_read _ _) as [[plain t']|]; [|done].
  apply read_msg_length in R. apply IH; unfold unread in *; cbn; lia.
Qed.

Lemma read_loop_total f (st : stream) io r st' io' :
  (unread st io < f)%nat -> loop f st io = (r, st', io') -> r <> OutOfFuel.
Proof.
  revert st io. induction f as [|f IH]; intros st io H; [lia|]. cbn.
  destruct (decode (plaintext_buf st)) as [[[fr|]|e] p].
  - destruct (validate_inbound_frame _ _) as [[] ?]; intros [= <- <- <-]; done.
  - destruct (read_noise_message_buffered _ _) as [[[[c|e]| |] w] io1] eqn:R;
      try (intros [= <- <- <-]; done).
    + destruct (noise_read _ _) as [[plain t']|]; [|intros [= <- <- <-]; done].
      apply read_msg_length in R. apply IH. unfold unread in *; cbn; lia.
    + by apply read_msg_fuel in R.
  - intros [= <- <- <-]; done.
Qed.

(** ** Suspension *)

Lemma read_loop_pending f (st : stream) io1 io2 st' io' :
  (unread st io1 < f)%nat -> loop f st io1 = (Pending, st', io') ->
  io' = [] /\ read st (io1 ++ io2) = read st' io2.
Proof.
  revert st io1. induction f as [|f IH]; intros st io1 Hf; [lia|].
  cbn [read_frame_loop].
  destruct (decode (plaintext_buf st)) as [[[fr|]|e] p] eqn:D; [|
    |done].
  { destruct (validate_inbound_frame _ _) as [[] ?]; done. }
  pose proof (decode_none_buf _ _ D) as ->.
  destruct (read_noise_message_buffered _ _) as [[[[c|e]| |] w] io1'] eqn:R; try done.
  - destruct (noise_read (transport st) c) as [[plain t']|] eqn:N; [|done].
    intros H. pose proof (read_msg_length _ _ _ _ _ R) as L.
    apply IH in H as [-> H]; [|unfold unread in *; cbn; lia]. split; [done|].
    rewrite <- H. unfold read_frame at 1. cbn [read_frame_loop]. rewrite D.
    rewrite (read_msg_ready _ _ _ _ _ io2 R), N.
    apply read_loop_enough; unfold unread; cbn; rewrite ?concat_app, ?length_app; lia.
  - intros [= <- <-]. destruct (read_msg_pending _ _ _ _ io2 R) as (-> & -> & E).
    split; [done|]. unfold read_frame. cbn [read_frame_loop set_wire set_plaintext plaintext_buf wire_read_buf].
    rewrite D, E.
    destruct (read_noise_message_buffered (_ ++ _) io2) as [[[[c|e]| |] w] io'] eqn:R2; try done.
    destruct (noise_read _ _) as [[plain t']|]; [|done].
    apply read_msg_length in R2. rewrite length_app in R2.
    apply read_loop_enough; unfold unread; cbn; rewrite ?concat_app, ?length_app in *; lia.
Qed.

(** ** Sequence numbers *)

Lemma validate_spec (st : stream) f r st' :
  validate_inbound_frame st f = (r, st') ->
  match r with
  | Ok _ => highest_inbound_seq st' = <[stream_id f := seq f]> (highest_inbound_seq st) /\
            forall last, highest_inbound_seq st !! stream_id f = Some last -> last < seq f
  | Err _ => highest_inbound_seq st' = highest_inbound_seq st
  end.
Proof.
  unfold validate_inbound_frame. destruct (_ !! _) as [last|].
  - destruct (Z.leb_spec (seq f) last); intros [= <- <-]; cbn; [done|].
    split; [done|]. intros ? [= ->]. lia.
  - intros [= <- <-]. done.
Qed.

Lemma read_loop_seq f (st : stream) io r st' io' :
  loop f st io = (r, st', io') ->
  match r with
  | Ready (Ok fr) => highest_inbound_seq st' = <[stream_id fr := seq fr]> (highest_inbound_seq st) /\
            forall last, highest_inbound_seq st !! stream_id fr = Some last -> last < seq fr
  | _ => highest_inbound_seq st' = highest_inbound_seq st
  end.
Proof.
  revert st io. induction f as [|f IH]; intros st io; cbn; [by intros [= <- <- <-]|].
  destruct (decode (plaintext_buf st)) as [[[fr|]|e] p].
  - destruct (validate_inbound_frame _ _) as [r1 st1] eqn:V. apply validate_spec in V.
    destruct r1; intros [= <- <- <-]; exact V.
  - destruct (read_noise_message_buffered _ _) as [[[[c|e]| |] w] io1];
      try (intros [= <- <- <-]; done).
    destruct (noise_read _ _) as [[plain t']|]; [|intros [= <- <- <-]; done].
    intros H%IH. exact H.
  - intros [= <- <- <-]; done.
Qed.

(** Any use of a stream: polls that deliver frames and polls that do not. *)
Inductive polls : stream -> list Frame -> stream -> Prop :=
| polls_nil st : polls st [] st
| polls_frame st io f st1 io1 fs st2 :
    read st io = (Ready (Ok f), st1, io1) -> polls st1 fs st2 -> polls st (f :: fs) st2
| polls_other st io r st1 io1 fs st2 :
    read st io = (r, st1, io1) -> (forall f, r <> Ready (Ok f)) -> polls st1 fs st2 ->
    polls st fs st2.

Lemma polls_above st fs st' :
  polls st fs st' -> forall s last, highest_inbound_seq st !! s = Some last ->
  Forall (fun f => stream_id f = s -> last < seq f) fs.
Proof.
  induction 1 as [|st io f st1 io1 fs st2 R _ IH|st io r st1 io1 fs st2 R Hr _ IH];
    intros s last Hl; [constructor| |].
  - apply read_loop_seq in R as [E Hlt]. constructor; [intros <-; auto|].
    destruct (decide (stream_id f = s)) as [<-|Hne].
    + eapply Forall_impl; [apply (IH (stream_id f) (seq f))|].
      * rewrite E. apply lookup_insert_eq.
      * cbn. intros g Hg Hs. specialize (Hlt _ Hl). specialize (Hg Hs). lia.
    + apply IH. by rewrite E, lookup_insert_ne.
  - apply read_loop_seq in R. apply IH.
    assert (highest_inbound_seq st1 = highest_inbound_seq st) as ->; [|done].
    repeat case_match; try done. naive_solver.
Qed.
End ReadFrame.

(** ** From the writer to the reader *)

Lemma concat_chunks_go fuel n l :
  (0 < n)%nat -> (length l <= fuel)%nat -> concat (chunks_go fuel n l) = l.
Proof.
  intros Hn. revert l. induction fuel as [|fuel IH]; intros [|x l] Hl; cbn in Hl |- *; [done|lia|done|].
  rewrite IH by (rewrite length_drop; cbn; lia). apply (take_drop n (x :: l)).
Qed.

Lemma concat_chunks n l : 0 < n -> concat (chunks n l) = l.
Proof. intros H. apply concat_chunks_go; lia. Qed.

Section EndToEnd.
Context {T : Type}.
Context (noise_write : T -> list Z -> option (list Z * T)).
Context (noise_read : T -> list Z -> option (list Z * T)).
Context (synced : T -> T -> Prop).
Context (noise_synced : forall s r p c s', synced s r -> noise_write s p = Some (c, s') ->
  exists r', noise_read r c = Some (p, r') /\ synced s' r').
Local Abbreviation stream := (NoiseFrameStream T).

(** The bytes [w] are records that the receiver in state [r] decrypts to [p]. *)
Inductive records (r : T) : list Z -> list Z -> Prop :=
| records_nil : records r [] []
| records_cons c p r' w plain :
    noise_read r c = Some (p, r') -> vec_len c <= MAX_NOISE_MESSAGE_LEN ->
    records r' w plain -> records r (be_bytes 2 (vec_len c) ++ c ++ w) (p ++ plain).

Lemma write_noise_message_ok c out :
  write_noise_message c = Ok out ->
  vec_len c <= MAX_NOISE_MESSAGE_LEN /\ out = be_bytes 2 (vec_len c) ++ c.
Proof. unfold write_noise_message. case_match eqn:E; [done|]. bools. by intros [= <-]. Qed.

Lemma write_chunks_records s r l s' w :
  synced s r -> write_chunks noise_write s l = (Ok tt, s', w) ->
  forall w2 p2, (forall r', synced s' r' -> records r' w2 p2) -> records r (w ++ w2) (concat l ++ p2).
Proof.
  revert s r w. induction l as [|ch l IH]; intros s r w Hs H w2 p2 Hr; cbn in *.
  - simplify_eq. by apply Hr.
  - destruct (noise_write s ch) as [[c s1]|] eqn:Nw; [|done].
    destruct (write_noise_message c) as [out|] eqn:W; [|done].
    destruct (write_chunks noise_write s1 l) as [[r1 s2] outs] eqn:Wc. simplify_eq.
    apply write_noise_message_ok in W as [Hc ->].
    destruct (noise_synced _ _ _ _ _ Hs Nw) as (r' & Nr & Hs').
    rewrite <- !app_assoc. econstructor; [done..|]. by eapply IH.
Qed.

Lemma write_frame_ok s f s' w :
  write_frame noise_write s f = (Ok tt, s', w) ->
  version f = CURRENT_VERSION /\ vec_len (payload f) <= MAX_PAYLOAD_LEN /\
  exists l, concat l = wire f /\ write_chunks noise_write s l = (Ok tt, s', w).
Proof.
  unfold write_frame. destruct (encode f []) as [pt|] eqn:E; [|done].
  apply encode_ok in E as (-> & Hv & Hl). intros H. split; [done|]. split; [done|].
  eexists. split; [|exact H]. apply concat_chunks. unfold MAX_NOISE_PLAINTEXT_CHUNK. lia.
Qed.

Lemma write_frames_fit s fs s' w :
  write_frames noise_write s fs = (Ok tt, s', w) ->
  Forall (fun f => version f = CURRENT_VERSION /\ vec_len (payload f) <= MAX_PAYLOAD_LEN) fs.
Proof.
  revert s w. induction fs as [|f fs IH]; intros s w H; cbn [write_frames] in H; [constructor|].
  destruct (write_frame noise_write s f) as [[[[]|] s1] out] eqn:W; [|done].
  destruct (write_frames noise_write s1 fs) as [[r1 s2] outs] eqn:Ws. simplify_eq.
  apply write_frame_ok in W as (Hv & Hl & _). constructor; [done|]. by eapply IH.
Qed.

Lemma write_frames_records s r fs s' w :
  synced s r -> write_frames noise_write s fs = (Ok tt, s', w) ->
  records r w (concat (map wire fs)).
Proof.
  revert s r w. induction fs as [|f fs IH]; intros s r w Hs H;
    cbn [write_frames map concat] in *; [simplify_eq; constructor|].
  destruct (write_frame noise_write s f) as [[[[]|] s1] out] eqn:W; [|done].
  destruct (write_frames noise_write s1 fs) as [[r1 s2] outs] eqn:Ws. simplify_eq.
  apply write_frame_ok in W as (_ & _ & l & <- & W).
  eapply write_chunks_records; [done..|]. intros r' Hs'. by eapply IH.
Qed.

Lemma validate_fresh (st : stream) f :
  (forall last, highest_inbound_seq st !! stream_id f = Some last -> last < seq f) ->
  exists st', validate_inbound_frame st (canonical_kind f) = (Ok tt, st') /\
    transport st' = transport st /\ wire_read_buf st' = wire_read_buf st /\
    plaintext_buf st' = plaintext_buf st /\
    highest_inbound_seq st' = <[stream_id f := seq f]> (highest_inbound_seq st).
Proof.
  intros Hs. unfold validate_inbound_frame. cbn [canonical_kind stream_id seq].
  destruct (_ !! stream_id f) as [last|] eqn:El; [|by eexists].
  specialize (Hs last eq_refl). rewrite (proj2 (Z.leb_gt _ _)) by lia. by eexists.
Qed.

(** One frame is read off any pieces that spell records of a plaintext that
    starts with it. *)
Lemma read_loop_frame fuel (st : stream) io plain f rest :
  (unread st io < fuel)%nat -> frame_wf f -> version f = CURRENT_VERSION ->
  vec_len (payload f) <= MAX_PAYLOAD_LEN ->
  (forall last, highest_inbound_seq st !! stream_id f = Some last -> last < seq f) ->
  records (transport st) (wire_read_buf st ++ concat io) plain ->
  Forall (fun p => p <> []) io -> plaintext_buf st ++ plain = wire f ++ rest ->
  exists st' io' plain', read_frame_loop noise_read fuel st io = (Ready (Ok (canonical_kind f)), st', io') /\
    records (transport st') (wire_read_buf st' ++ concat io') plain' /\
    Forall (fun p => p <> []) io' /\ plaintext_buf st' ++ plain' = rest /\
    highest_inbound_seq st' = <[stream_id f := seq f]> (highest_inbound_seq st).
Proof.
  revert st io plain. induction fuel as [|fuel IH]; intros st io plain Hf Hw Hv Hl Hs Hr Hne E; [lia|].
  cbn [read_frame_loop]. apply app_eq_inv in E as [(k & Ep & Ek)|(k & Ep & E2)].
  - rewrite Ep, decode_wire by done.
    destruct (validate_fresh (set_plaintext st k) f Hs) as (st' & -> & Et & Ew & Epl & Eh).
    exists st', io, plain. rewrite Et, Ew, Epl, Eh. by split_and!.
  - destruct k as [|x k].
    { rewrite app_nil_r in Ep. rewrite <- Ep, <- (app_nil_r (wire f)), decode_wire by done.
      destruct (validate_fresh (set_plaintext st []) f Hs) as (st' & -> & Et & Ew & Epl & Eh).
      exists st', io, plain. rewrite Et, Ew, Epl, Eh. by split_and!. }
    rewrite (decode_short f (plaintext_buf st) (x :: k)) by done.
    inversion Hr as [Hw0 Hp0|c p r' w plain0 Nr Hc Hr' Hw0 Hp0]; [subst plain; done|].
    symmetry in Hw0. destruct (read_msg_record c w _ _ Hc Hne Hw0) as (w' & io' & R & Ew & Hne').
    rewrite R, Nr. pose proof (read_msg_length _ _ _ _ _ R).
    edestruct (IH (set_transport (set_wire (set_plaintext st (plaintext_buf st ++ p)) w') r') io' plain0)
      as (st' & io'' & plain' & G); try done.
    + unfold unread in *. cbn. lia.
    + cbn. by rewrite Ew.
    + cbn. rewrite <- app_assoc, Hp0, E2, Ep. by rewrite <- app_assoc.
    + exists st', io'', plain'. exact G.
Qed.

(** The frames are acceptable in order: their numbers grow on each stream,
    above what the receiver has seen. *)
Definition fresh_in_order (seen_seq : gmap Z Z) (fs : list Frame) : Prop :=
  StronglySorted (fun f g => stream_id f = stream_id g -> seq f < seq g) fs /\
  Forall (fun f => forall last, seen_seq !! stream_id f = Some last -> last < seq f) fs.

Lemma fresh_in_order_tail h f fs :
  fresh_in_order h (f :: fs) -> fresh_in_order (<[stream_id f := seq f]> h) fs.
Proof.
  intros [[Hs Hf]%StronglySorted_inv Ha]. apply Forall_cons_iff in Ha as [_ Ha]. split; [done|].
  rewrite Forall_forall in Hf, Ha |- *. intros g Hg last. rewrite lookup_insert_Some.
  intros [[E <-]|[_ Hl]]; [by apply Hf|by eapply Ha].
Qed.

Lemma read_frames_records fs (st : stream) io plain :
  Forall frame_wf fs ->
  Forall (fun f => version f = CURRENT_VERSION /\ vec_len (payload f) <= MAX_PAYLOAD_LEN) fs ->
  fresh_in_order (highest_inbound_seq st) fs ->
  records (transport st) (wire_read_buf st ++ concat io) plain ->
  Forall (fun p => p <> []) io -> plaintext_buf st ++ plain = concat (map wire fs) ->
  exists st' io', read_frames noise_read (length fs) st io = Some (map canonical_kind fs, st', io').
Proof.
  revert st io plain. induction fs as [|f fs IH]; intros st io plain Hw Hv Ho Hr Hne E;
    cbn [read_frames length map concat] in *; [by eexists _, _|].
  apply Forall_cons_iff in Hw as [Hw Hws]. apply Forall_cons_iff in Hv as [[Hv Hl] Hvs].
  destruct Ho as [Ho1 Ho2].
  destruct (read_loop_frame (S (unread st io)) st io plain f (concat (map wire fs)))
    as (st1 & io1 & plain1 & R & Hr1 & Hne1 & E1 & Hh); try done; [lia| |].
  { apply Forall_cons_iff in Ho2. apply Ho2. }
  unfold read_frame. rewrite R.
  destruct (IH st1 io1 plain1) as (st2 & io2 & ->); try done; [|by eexists _, _].
  rewrite Hh. by apply fresh_in_order_tail.
Qed.
End EndToEnd.

(** * Claims *)

(** C5: end to end.  However the network cuts the bytes of written frames into
    pieces, the reader delivers exactly those frames in order, each kind in the
    canonical form of the decoder.  The frames are well formed and their sequence
    numbers strictly grow on each stream, above those the reader has seen: the
    writer does not enforce this, and the reader answers [StaleFrame] to others.
    The Noise session is assumed to decrypt in order what its peer encrypted. *)
Theorem frames_delivered_in_order {T} noise_write noise_read (synced : T -> T -> Prop)
  s fs s' w (st : NoiseFrameStream T) io :
  (forall s r p c s', synced s r -> noise_write s p = Some (c, s') ->
     exists r', noise_read r c = Some (p, r') /\ synced s' r') ->
  synced s (transport st) -> wire_read_buf st = [] -> plaintext_buf st = [] ->
  Forall frame_wf fs -> fresh_in_order (highest_inbound_seq st) fs ->
  write_frames noise_write s fs = (Ok tt, s', w) ->
  concat io = w -> Forall (fun p => p <> []) io ->
  exists st' io', read_frames noise_read (length fs) st io = Some (map canonical_kind fs, st', io').
Proof.
  intros Hn Hs Ew Ep Hw Ho H Hio Hne.
  eapply read_frames_records with (plain := concat (map wire fs)); try done.
  - by eapply write_frames_fit.
  - rewrite Ew, Hio. by eapply write_frames_records.
  - by rewrite Ep.
Qed.

(** Cancellation safety.  When a read is suspended for lack of input, its
    future can be dropped: starting over from the saved state with the input
    that arrives later gives the outcome of an undisturbed read of all of it. *)
Theorem read_frame_cancel_safe {T} (noise_read : T -> list Z -> option (list Z * T))
  (st : NoiseFrameStream T) io1 io2 st' io' :
  read_frame noise_read st io1 = (Pending, st', io') ->
  io' = [] /\ read_frame noise_read st (io1 ++ io2) = read_frame noise_read st' io2.
Proof. intros H. eapply read_loop_pending; [|exact H]. lia. Qed.

(** No replay or reordering is delivered.  Over any use of a stream (reads
    that deliver, fail or are suspended, in any number and on any input) the
    sequence numbers of the delivered frames strictly grow on each stream. *)
Theorem delivered_seq_increase {T} (noise_read : T -> list Z -> option (list Z * T))
  (st : NoiseFrameStream T) fs st' :
  polls noise_read st fs st' ->
  StronglySorted (fun f g => stream_id f = stream_id g -> seq f < seq g) fs.
Proof.
  induction 1 as [|st io f st1 io1 fs st2 R P IH|]; [constructor| |done].
  constructor; [done|]. apply read_loop_seq in R as [E _].
  eapply Forall_impl.
  - apply (polls_above noise_read st1 fs st2 P (stream_id f) (seq f)).
    rewrite E. apply lookup_insert_eq.
  - cbn. auto.
Qed.

(** The read loop terminates on every finite input: the bytes that are still
    unread bound its number of turns. *)
Theorem read_frame_terminates {T} (noise_read : T -> list Z -> option (list Z * T))
  (st : NoiseFrameStream T) io :
  fst (fst (read_frame noise_read st io)) <> OutOfFuel.
Proof.
  destruct (read_frame noise_read st io) as [[r st'] io'] eqn:E.
  eapply read_loop_total; [|exact E]. lia.
Qed.

(** Identity pinning.  A server handshake with an expected client key
    succeeds only when the peer proved that key, and a server that finds
    another key has not written a byte to the peer. *)
Theorem server_handshake_pins_identity {HS T} hs_write hs_read hs_remote_static
  (hs_into_transport : HS -> option T) hs inbound expected r out :
  handshake_ik_server hs_write hs_read hs_remote_static hs_into_transport hs inbound (Some expected)
    = (r, out) ->
  (forall st, r = Ok st -> remote_static st = Some expected /\ highest_inbound_seq st = ∅) /\
  (r = Err RemoteStaticMismatch -> out = []).
Proof.
  unfold handshake_ik_server. destruct (read_noise_message inbound) as [[m ?]|e];
    [|intros [= <- <-]; naive_solver].
  destruct (hs_read hs m) as [hs1|]; [|intros [= <- <-]; naive_solver].
  destruct (hs_remote_static hs1) as [remote|]; [|intros [= <- <-]; naive_solver].
  destruct (decide (remote = expected)) as [->|Hne].
  2: { rewrite bool_decide_false by done. intros [= <- <-]. naive_solver. }
  rewrite bool_decide_true by done. cbn [negb].
  destruct (hs_write hs1) as [[msg hs2]|]; [|intros [= <- <-]; naive_solver].
  unfold write_noise_message. destruct (_ <? _); [intros [= <- <-]; naive_solver|].
  intros [= <- <-]. unfold from_handshake.
  destruct (hs_into_transport hs2); cbn; naive_solver.
Qed.

(** ** Witnesses: a session that appends a 16-byte tag *)

Definition tag_write (t : Z) (p : list Z) : option (list Z * Z) := Some (p ++ repeat t 16, t + 1).
Definition tag_read (t : Z) (c : list Z) : option (list Z * Z) :=
  Some (take (length c - 16) c, t + 1).

Lemma tag_synced (s r : Z) p c s' :
  s = r -> tag_write s p = Some (c, s') -> exists r', tag_read r c = Some (p, r') /\ s' = r'.
Proof.
  intros -> [= <- <-]. unfold tag_read. rewrite length_app. cbn [length].
  replace (length p + 16 - 16)%nat with (length p) by lia. rewrite take_app_length. eauto.
Qed.

Definition stream_ex : NoiseFrameStream Z :=
  {| transport := 0; remote_static := None; wire_read_buf := []; plaintext_buf := [];
     highest_inbound_seq := ∅ |}.

Definition frames_ex : list Frame := [frame_new Command 1 1 [7]; frame_new Keepalive 1 2 []].

Lemma frames_ex_wf : Forall frame_wf frames_ex.
Proof.
  unfold u8_max, frames_ex.
  repeat (apply Forall_cons_2; [constructor; cbn; [unfold u8_max, u16_max, u32_max, u64_max; lia..|bytes]|]).
  apply Forall_nil_2.
Defined.

Lemma frames_ex_fresh : fresh_in_order (highest_inbound_seq stream_ex) frames_ex.
Proof.
  split.
  - repeat constructor.
  - apply Forall_cons_2; [|apply Forall_cons_2; [|apply Forall_nil_2]]; cbn; intros ?; by rewrite lookup_empty.
Defined.

Definition wire_ex : list Z := snd (write_frames tag_write 0 frames_ex).

Lemma frames_delivered_in_order_witness :
  exists st' io', read_frames tag_read 2 stream_ex (map (fun b => [b]) wire_ex)
    = Some (map canonical_kind frames_ex, st', io').
Proof.
  apply (frames_delivered_in_order tag_write tag_read eq 0 frames_ex 2 wire_ex stream_ex
    (map (fun b => [b]) wire_ex)).
  - exact tag_synced.
  - reflexivity.
  - reflexivity.
  - reflexivity.
  - exact frames_ex_wf.
  - exact frames_ex_fresh.
  - vm_compute. reflexivity.
  - vm_compute. reflexivity.
  - vm_compute. repeat constructor; discriminate.
Defined.

Lemma read_frame_cancel_safe_witness :
  exists st', read_frame tag_read stream_ex [take 30 wire_ex] = (Pending, st', []) /\
  read_frame tag_read stream_ex ([take 30 wire_ex] ++ [drop 30 wire_ex])
  = read_frame tag_read st' [drop 30 wire_ex].
Proof.
  eexists. split; [vm_compute; reflexivity|].
  eapply (read_frame_cancel_safe tag_read stream_ex [take 30 wire_ex] [drop 30 wire_ex]).
  vm_compute. reflexivity.
Defined.

Lemma delivered_seq_increase_witness :
  StronglySorted (fun f g => stream_id f = stream_id g -> seq f < seq g) (map canonical_kind frames_ex).
Proof.
  eapply (delivered_seq_increase tag_read stream_ex).
  eapply (polls_frame tag_read stream_ex [wire_ex]); [vm_compute; reflexivity|].
  eapply (polls_frame tag_read _ []); [vm_compute; reflexivity|]. apply polls_nil.
Defined.

Lemma server_handshake_pins_identity_witness :
  snd (handshake_ik_server (fun h : Z => Some ([1], h)) (fun h _ => Some h) (fun _ => Some [9])
    (fun h => Some h) 0 [0; 1; 5] (Some [8])) = [].
Proof.
  apply (proj2 (server_handshake_pins_identity (fun h : Z => Some ([1], h)) (fun h _ => Some h)
    (fun _ => Some [9]) (fun h => Some h) 0 [0; 1; 5] [8] (Err RemoteStaticMismatch) [] eq_refl)).
  reflexivity.
Defined.
