(* ===== verification/FileTransfer.v ===== *)
(** File transfer payloads ([crates/common/src/protocol/file_transfer.rs]).

    Paths, modes and digests are validated; a file travels inline or as a list
    of chunks with offsets and digests, which the receiver checks before it
    accepts the data.  Base64 and SHA-256 are third-party code: they are
    arguments of the definitions.  A session id is the 128-bit value of its
    UUID, nil being zero. *)

From S2P Require Import Prelude RustStd Auth Transport.

Open Scope Z_scope.

Definition MAX_FILE_PATH_BYTES : Z := 4096.
Definition MAX_INLINE_FILE_PUSH_BYTES : Z := 1024 * 1024.
Definition FILE_TRANSFER_CHUNK_BYTES : Z := 64 * 1024.
Definition MAX_CHUNKED_FILE_PUSH_BYTES : Z := 8 * 1024 * 1024.
Definition MAX_RESUMABLE_FILE_PUSH_BYTES : Z := 1024 * 1024 * 1024.
Definition MAX_RESUMABLE_FILE_DOWNLOAD_BYTES : Z := 1024 * 1024 * 1024.
Definition MAX_FILE_TRANSFER_RATE_LIMIT_KBPS : Z := 1000000.
Definition MAX_FILE_MODE : Z := 511.

(** [a.div_ceil(b)]. *)
Definition div_ceil (a b : Z) : Z := (a + b - 1) / b.

Definition MAX_FILE_TRANSFER_CHUNKS : Z :=
  div_ceil MAX_CHUNKED_FILE_PUSH_BYTES FILE_TRANSFER_CHUNK_BYTES.

Record FilePushChunk := {
  offset : Z;
  size_bytes : Z;
  sha256_hex : str;
  data_base64 : str;
}.

Inductive FileTransferValidationError :=
| PathRequired | InvalidPath | PathMustBeAbsolute | InvalidMode | TooLarge | InvalidBase64
| SizeMismatch | InvalidSha256 | HashMismatch | InvalidChunks | InvalidChunkOffset
| ChunkTooLarge | ChunkHashMismatch | InvalidSessionId | InvalidResumeTokenHash
| InvalidChunkSize | InvalidRateLimit | InvalidOffset.

Local Abbreviation check := (result FileTransferValidationError).

Definition validate_absolute_file_path (path : str) : check unit :=
  if is_empty path then Err PathRequired
  else if (MAX_FILE_PATH_BYTES <? str_len path) || contains_char 0 (as_bytes path)
  then Err InvalidPath
  else if negb (starts_with path (lit "/")) then Err PathMustBeAbsolute
  else if existsb (fun segment => str_eqb segment (lit ".") || str_eqb segment (lit ".."))
            (split 47 path)
  then Err InvalidPath
  else Ok tt.

Definition validate_file_mode (mode : Z) : check unit :=
  if MAX_FILE_MODE <? mode then Err InvalidMode else Ok tt.

Definition normalize_sha256_hex (value : str) : check str :=
  let normalized := to_ascii_lowercase (trim value) in
  if negb (str_len normalized =? 64) || negb (forallb is_ascii_hexdigit (as_bytes normalized))
  then Err InvalidSha256 else Ok normalized.

Definition validate_file_transfer_chunk_size (value : Z) : check unit :=
  if (value =? 0) || (FILE_TRANSFER_CHUNK_BYTES <? value) then Err InvalidChunkSize else Ok tt.

Definition validate_file_transfer_rate_limit (value : Z) : check unit :=
  if MAX_FILE_TRANSFER_RATE_LIMIT_KBPS <? value then Err InvalidRateLimit else Ok tt.

Definition validate_resume_token_hash (value : str) : check unit :=
  match normalize_sha256_hex value with
  | Ok _ => Ok tt
  | Err _ => Err InvalidResumeTokenHash
  end.

Definition uuid_is_nil (session_id : Z) : bool := session_id =? 0.

Definition validate_file_transfer_session (session_id : Z) (path : str) (mode size : Z)
  (sha : str) (chunk_size rate_limit : Z) (resume_token_hash : str) : check unit :=
  if uuid_is_nil session_id then Err InvalidSessionId else
  validate_absolute_file_path path;;
  validate_file_mode mode;;
  if MAX_RESUMABLE_FILE_PUSH_BYTES <? size then Err TooLarge else
  normalize_sha256_hex sha;;
  validate_file_transfer_chunk_size chunk_size;;
  validate_file_transfer_rate_limit rate_limit;;
  validate_resume_token_hash resume_token_hash;;
  Ok tt.

Definition validate_file_transfer_session_token (session_id : Z) (resume_token_hash : str)
  : check unit :=
  if uuid_is_nil session_id then Err InvalidSessionId
  else validate_resume_token_hash resume_token_hash.

Definition validate_file_transfer_download_session (session_id : Z) (path : str)
  (chunk_size rate_limit : Z) (resume_token_hash : str) : check unit :=
  if uuid_is_nil session_id then Err InvalidSessionId else
  validate_absolute_file_path path;;
  validate_file_transfer_chunk_size chunk_size;;
  validate_file_transfer_rate_limit rate_limit;;
  validate_resume_token_hash resume_token_hash;;
  Ok tt.

Definition validate_file_transfer_download_chunk_request (session_id off max_bytes : Z)
  (resume_token_hash : str) : check unit :=
  if uuid_is_nil session_id then Err InvalidSessionId else
  if MAX_RESUMABLE_FILE_DOWNLOAD_BYTES <? off then Err InvalidOffset else
  validate_file_transfer_chunk_size max_bytes;;
  validate_resume_token_hash resume_token_hash.

Section Codec.
Context (hash : list Z -> str).
Context (b64_encode : list Z -> str).
Context (b64_decode : str -> option (list Z)).

Definition encode_inline_file_payload (data : list Z) : check str :=
  if MAX_INLINE_FILE_PUSH_BYTES <? vec_len data then Err TooLarge else Ok (b64_encode data).

Definition decode_inline_file_payload (data64 : str) (size : Z) (sha : str) : check (list Z) :=
  if MAX_INLINE_FILE_PUSH_BYTES <? size then Err TooLarge else
  let max_base64_len := div_ceil MAX_INLINE_FILE_PUSH_BYTES 3 * 4 in
  if max_base64_len <? str_len data64 then Err TooLarge else
  expected_hash ← normalize_sha256_hex sha;
  data ← ok_or (b64_decode data64) InvalidBase64;
  if negb (vec_len data =? size) then Err SizeMismatch
  else if negb (str_eqb (hash data) expected_hash) then Err HashMismatch
  else Ok data.

(** The [scan] over the chunks, with the running offset. *)
Fixpoint encode_chunks (off : Z) (l : list (list Z)) : list FilePushChunk :=
  match l with
  | [] => []
  | chunk :: rest =>
      {| offset := off; size_bytes := vec_len chunk; sha256_hex := hash chunk;
         data_base64 := b64_encode chunk |} :: encode_chunks (off + vec_len chunk) rest
  end.

Definition encode_chunked_file_payload (data : list Z) : check (list FilePushChunk) :=
  if MAX_CHUNKED_FILE_PUSH_BYTES <? vec_len data then Err TooLarge
  else Ok (encode_chunks 0 (chunks FILE_TRANSFER_CHUNK_BYTES data)).

(** The body of the loop of [decode_chunked_file_payload]. *)
Definition decode_chunk_step (data : list Z) (chunk : FilePushChunk) : check (list Z) :=
  if negb (offset chunk =? vec_len data) then Err InvalidChunkOffset else
  if FILE_TRANSFER_CHUNK_BYTES <? size_bytes chunk then Err ChunkTooLarge else
  let max_base64_len := div_ceil FILE_TRANSFER_CHUNK_BYTES 3 * 4 in
  if max_base64_len <? str_len (data_base64 chunk) then Err ChunkTooLarge else
  chunk_hash ← normalize_sha256_hex (sha256_hex chunk);
  decoded ← ok_or (b64_decode (data_base64 chunk)) InvalidBase64;
  if negb (vec_len decoded =? size_bytes chunk) then Err SizeMismatch
  else if negb (str_eqb (hash decoded) chunk_hash) then Err ChunkHashMismatch
  else if MAX_CHUNKED_FILE_PUSH_BYTES <?
            saturating_add u64_max (vec_len data) (vec_len decoded) then Err TooLarge
  else Ok (data ++ decoded).

Definition decode_chunked_file_payload (l : list FilePushChunk) (size : Z) (sha : str)
  : check (list Z) :=
  if MAX_CHUNKED_FILE_PUSH_BYTES <? size then Err TooLarge else
  if MAX_FILE_TRANSFER_CHUNKS <? vec_len l then Err InvalidChunks else
  if (0 <? size) && is_empty l then Err InvalidChunks else
  expected_hash ← normalize_sha256_hex sha;
  data ← try_fold decode_chunk_step [] l;
  if negb (vec_len data =? size) then Err SizeMismatch
  else if negb (str_eqb (hash data) expected_hash) then Err HashMismatch
  else Ok data.

Definition decode_file_transfer_chunk (chunk : FilePushChunk) (max_chunk_bytes : Z)
  : check (list Z) :=
  validate_file_transfer_chunk_size max_chunk_bytes;;
  if (size_bytes chunk =? 0) || (max_chunk_bytes <? size_bytes chunk) then Err InvalidChunkSize else
  let max_base64_len := div_ceil max_chunk_bytes 3 * 4 in
  if max_base64_len <? str_len (data_base64 chunk) then Err ChunkTooLarge else
  chunk_hash ← normalize_sha256_hex (sha256_hex chunk);
  decoded ← ok_or (b64_decode (data_base64 chunk)) InvalidBase64;
  if negb (vec_len decoded =? size_bytes chunk) then Err SizeMismatch
  else if negb (str_eqb (hash decoded) chunk_hash) then Err ChunkHashMismatch
  else Ok decoded.

Definition validate_file_transfer_chunk_request (session_id off : Z) (chunk : FilePushChunk)
  (resume_token_hash : str) : check (list Z) :=
  if uuid_is_nil session_id then Err InvalidSessionId else
  if negb (off =? offset chunk) then Err InvalidOffset else
  validate_resume_token_hash resume_token_hash;;
  decode_file_transfer_chunk chunk FILE_TRANSFER_CHUNK_BYTES.
End Codec.

(** * Lemmas *)

(** 64 lower-case hexadecimal digits, the form of a digest. *)
Definition lower_hex64 (s : str) : Prop :=
  length s = 64%nat /\ Forall (fun c => 48 <= c <= 57 \/ 97 <= c <= 102) s.

Lemma normalize_lower_hex64 s : lower_hex64 s -> normalize_sha256_hex s = Ok s.
Proof.
  intros [Hl Hd]. unfold normalize_sha256_hex.
  assert (Ht : trim s = s).
  { apply trim_no_ws. eapply Forall_impl; [exact Hd|]. cbn. intros c Hc.
    unfold is_whitespace, in_range. repeat (apply orb_false_intro); lia. }
  assert (Hlow : to_ascii_lowercase s = s).
  { apply to_ascii_lowercase_id. eapply Forall_impl; [exact Hd|]. cbn. intros c Hc.
    unfold is_ascii_uppercase, in_range. lia. }
  assert (Hb : as_bytes s = s).
  { apply as_bytes_ascii. eapply Forall_impl; [exact Hd|]. cbn. lia. }
  rewrite Ht, Hlow. unfold str_len. rewrite Hb, Hl. cbn [Z.of_nat negb orb Z.eqb].
  change (Z.of_nat 64 =? 64) with true. cbn [negb orb].
  rewrite (proj2 (forallb_forall is_ascii_hexdigit s)); [done|].
  intros c Hc. rewrite Forall_forall in Hd. apply list_elem_of_In, Hd in Hc.
  unfold is_ascii_hexdigit, is_ascii_digit, in_range. lia.
Qed.

Lemma chunks_go_sizes fuel n l :
  Forall (fun c => (length c <= n)%nat) (chunks_go fuel n l).
Proof.
  revert l. induction fuel as [|fuel IH]; intros [|x l]; cbn; try constructor; [|apply IH].
  rewrite length_take. lia.
Qed.

Lemma chunks_go_count fuel n l :
  (0 < n)%nat -> (length (chunks_go fuel n l) * n <= length l + n - 1)%nat.
Proof.
  intros Hn. revert l. induction fuel as [|fuel IH]; intros [|x l]; cbn [chunks_go length]; [lia..|].
  specialize (IH (drop n (x :: l))). rewrite length_drop in IH. cbn [length] in IH.
  destruct (Nat.leb_spec (S (length l)) n); [|lia].
  destruct fuel; cbn [chunks_go length] in *; [lia|].
  replace (drop n (x :: l)) with (@nil Z) in *; [cbn; lia|].
  symmetry. apply drop_ge. cbn. lia.
Qed.

Section RoundTrip.
Context (hash : list Z -> str).
Context (b64_encode : list Z -> str).
Context (b64_decode : str -> option (list Z)).
Context (hash_hex : forall d, lower_hex64 (hash d)).
Context (b64_inverse : forall d, Forall is_byte d -> b64_decode (b64_encode d) = Some d).
Context (b64_length : forall d, Forall is_byte d ->
  str_len (b64_encode d) = div_ceil (vec_len d) 3 * 4).

Lemma div_ceil_mono a b c : 0 < c -> a <= b -> div_ceil a c <= div_ceil b c.
Proof. intros. unfold div_ceil. apply Z.div_le_mono; lia. Qed.

(** The receiver accepts the next chunk of the sender. *)
Lemma decode_encode_chunk c data :
  Forall is_byte c -> vec_len c <= FILE_TRANSFER_CHUNK_BYTES ->
  vec_len data + vec_len c <= MAX_CHUNKED_FILE_PUSH_BYTES ->
  decode_chunk_step hash b64_decode data
    {| offset := vec_len data; size_bytes := vec_len c; sha256_hex := hash c;
       data_base64 := b64_encode c |} = Ok (data ++ c).
Proof.
  intros Hc Hs Hm. unfold decode_chunk_step. cbn [offset size_bytes sha256_hex data_base64].
  rewrite Z.eqb_refl. cbn [negb]. rewrite (proj2 (Z.ltb_ge FILE_TRANSFER_CHUNK_BYTES _)) by done.
  rewrite b64_length by done. rewrite (proj2 (Z.ltb_ge (div_ceil FILE_TRANSFER_CHUNK_BYTES 3 * 4) _)).
  2: { apply Z.mul_le_mono_nonneg_r; [lia|]. apply div_ceil_mono; [lia|done]. }
  rewrite normalize_lower_hex64 by apply hash_hex. cbn [mbind result_bind].
  rewrite b64_inverse by done. cbn [ok_or mbind result_bind].
  rewrite Z.eqb_refl, str_eqb_refl. cbn [negb]. unfold saturating_add.
  by rewrite (proj2 (Z.ltb_ge MAX_CHUNKED_FILE_PUSH_BYTES _)) by lia.
Qed.

(** The receiver's loop over the sender's chunks rebuilds the data. *)
Lemma decode_encode_chunks l data :
  Forall is_byte (concat l) ->
  Forall (fun c => vec_len c <= FILE_TRANSFER_CHUNK_BYTES) l ->
  vec_len data + vec_len (concat l) <= MAX_CHUNKED_FILE_PUSH_BYTES ->
  try_fold (decode_chunk_step hash b64_decode) data (encode_chunks hash b64_encode (vec_len data) l)
  = Ok (data ++ concat l).
Proof.
  revert data. induction l as [|c l IH]; intros data Hb Hs Hm; cbn [encode_chunks try_fold concat].
  - by rewrite app_nil_r.
  - cbn in Hb. apply Forall_app in Hb as [Hc Hb]. apply Forall_cons_iff in Hs as [Hsc Hs].
    unfold vec_len in Hm. cbn [concat] in Hm. rewrite length_app in Hm.
    rewrite decode_encode_chunk by (done || unfold vec_len; lia). cbn [mbind result_bind].
    replace (vec_len data + vec_len c) with (vec_len (data ++ c))
      by (unfold vec_len; rewrite length_app; lia).
    rewrite IH; [by rewrite <- app_assoc|done|done|].
    unfold vec_len. rewrite length_app. lia.
Qed.
End RoundTrip.

Lemma length_encode_chunks hash b64_encode off l :
  vec_len (encode_chunks hash b64_encode off l) = vec_len l.
Proof.
  unfold vec_len. f_equal. revert off.
  induction l as [|c l IH]; intros off; cbn; auto.
Qed.

(** What an accepted chunk list says of its chunks: [parts] are the decoded
    chunks, [start] the length decoded before them. *)
Fixpoint chunks_hold (hash : list Z -> str) (b64_decode : str -> option (list Z))
  (start : Z) (l : list FilePushChunk) (parts : list (list Z)) : Prop :=
  match l, parts with
  | [], [] => True
  | c :: l', p :: parts' =>
      offset c = start /\ size_bytes c = vec_len p /\ vec_len p <= FILE_TRANSFER_CHUNK_BYTES /\
      b64_decode (data_base64 c) = Some p /\ normalize_sha256_hex (sha256_hex c) = Ok (hash p) /\
      chunks_hold hash b64_decode (start + vec_len p) l' parts'
  | _, _ => False
  end.

Lemma decode_chunk_step_ok hash b64_decode data c data' :
  decode_chunk_step hash b64_decode data c = Ok data' ->
  exists p, data' = data ++ p /\ offset c = vec_len data /\ size_bytes c = vec_len p /\
    vec_len p <= FILE_TRANSFER_CHUNK_BYTES /\ b64_decode (data_base64 c) = Some p /\
    normalize_sha256_hex (sha256_hex c) = Ok (hash p).
Proof.
  unfold decode_chunk_step.
  destruct (_ =? _) eqn:E1; cbn [negb]; [|done].
  destruct (_ <? _) eqn:E2; [done|]. destruct (_ <? str_len _); [done|].
  intros H. inv_bind. destruct (vec_len _ =? _) eqn:E3; cbn [negb] in H; [|done].
  destruct (str_eqb _ _) eqn:E4; cbn [negb] in H; [|done].
  destruct (_ <? saturating_add _ _ _); [done|]. injection H as <-.
  bools. apply str_eqb_eq in E4. subst. eexists. split; [reflexivity|]. split_and!; try done. lia.
Qed.

Lemma decode_chunks_ok hash b64_decode l data data' :
  try_fold (decode_chunk_step hash b64_decode) data l = Ok data' ->
  exists parts, data' = data ++ concat parts /\ chunks_hold hash b64_decode (vec_len data) l parts.
Proof.
  revert data. induction l as [|c l IH]; intros data H; cbn in H.
  - simplify_eq. exists []. by rewrite app_nil_r.
  - inv_bind. apply decode_chunk_step_ok in E as (p & -> & Ho & Hs & Hl & Hd & Hh).
    apply IH in H as (parts & -> & Hp). exists (p :: parts). cbn. rewrite <- app_assoc.
    split_and!; try done. by replace (vec_len data + vec_len p) with (vec_len (data ++ p))
      by (unfold vec_len; rewrite length_app; lia).
Qed.

Lemma split_slash_head path :
  starts_with path (lit "/") = true <-> exists rest, path = 47 :: rest.
Proof. rewrite starts_with_spec. reflexivity. Qed.

Lemma is_empty_false {A} (l : list A) : is_empty l = false <-> l <> [].
Proof. by destruct l. Qed.

(** * Claims *)

(** A chunked transfer round trip.  Every file within the limit is accepted
    by the receiver from the sender's chunks, with its size and digest, and
    comes out unchanged; base64 is assumed to undo itself with the standard
    length, and digests to be 64 lower-case hex digits. *)
Theorem chunked_payload_roundtrip (hash : list Z -> str) b64_encode b64_decode data l :
  (forall d, lower_hex64 (hash d)) ->
  (forall d, Forall is_byte d -> b64_decode (b64_encode d) = Some d) ->
  (forall d, Forall is_byte d -> str_len (b64_encode d) = div_ceil (vec_len d) 3 * 4) ->
  Forall is_byte data ->
  encode_chunked_file_payload hash b64_encode data = Ok l ->
  decode_chunked_file_payload hash b64_decode l (vec_len data) (hash data) = Ok data.
Proof.
  intros Hh Hi Hl Hb. unfold encode_chunked_file_payload.
  destruct (Z.ltb_spec MAX_CHUNKED_FILE_PUSH_BYTES (vec_len data)) as [|Hm]; [done|].
  intros [= <-]. unfold decode_chunked_file_payload.
  assert (Hcat : concat (chunks FILE_TRANSFER_CHUNK_BYTES data) = data) by (by apply concat_chunks).
  assert (Hcount : vec_len (encode_chunks hash b64_encode 0 (chunks FILE_TRANSFER_CHUNK_BYTES data))
    <= MAX_FILE_TRANSFER_CHUNKS).
  { rewrite length_encode_chunks.
    pose proof (chunks_go_count (length data) (Z.to_nat FILE_TRANSFER_CHUNK_BYTES) data) as C.
    unfold vec_len, chunks in *. change MAX_FILE_TRANSFER_CHUNKS with 128.
    unfold MAX_CHUNKED_FILE_PUSH_BYTES, FILE_TRANSFER_CHUNK_BYTES in *. lia. }
  rewrite (proj2 (Z.ltb_ge _ _) Hm), (proj2 (Z.ltb_ge _ _) Hcount).
  replace ((0 <? vec_len data) && _) with false.
  2: { symmetry. destruct data as [|x data]; [done|]. by cbn. }
  rewrite normalize_lower_hex64 by apply Hh. cbn [mbind result_bind].
  change 0 with (vec_len (@nil Z)). rewrite decode_encode_chunks; try done.
  - cbn [mbind result_bind app]. rewrite Hcat, Z.eqb_refl, str_eqb_refl. done.
  - by rewrite Hcat.
  - eapply Forall_impl; [apply chunks_go_sizes|]. cbn. intros c Hc. unfold vec_len.
    unfold FILE_TRANSFER_CHUNK_BYTES in *. lia.
  - rewrite Hcat. exact Hm.
Qed.

(** C38: what the receiver of a chunked file accepts.  The chunks are contiguous
    from offset 0, each decodes to its declared size, within the chunk limit
    and with its declared digest; together they are the data, whose size and
    digest are the declared ones and whose size is within the limit. *)
Theorem decode_chunked_sound (hash : list Z -> str) b64_decode l size sha data :
  decode_chunked_file_payload hash b64_decode l size sha = Ok data ->
  vec_len data = size /\ size <= MAX_CHUNKED_FILE_PUSH_BYTES /\
  vec_len l <= MAX_FILE_TRANSFER_CHUNKS /\ normalize_sha256_hex sha = Ok (hash data) /\
  exists parts, data = concat parts /\ chunks_hold hash b64_decode 0 l parts.
Proof.
  unfold decode_chunked_file_payload.
  destruct (Z.ltb_spec MAX_CHUNKED_FILE_PUSH_BYTES size) as [|H1]; [done|].
  destruct (Z.ltb_spec MAX_FILE_TRANSFER_CHUNKS (vec_len l)) as [|H2]; [done|].
  destruct (_ && _); [done|]. intros H. inv_bind.
  destruct (vec_len _ =? _) eqn:E3; cbn [negb] in H; [|done].
  destruct (str_eqb _ _) eqn:E4; cbn [negb] in H; [|done].
  injection H as <-. bools. apply str_eqb_eq in E4. subst.
  apply decode_chunks_ok in E0 as (parts & -> & Hp). cbn [app] in *. split_and!; eauto.
Qed.

(** The accepted paths are exactly the absolute ones, at most 4096 bytes long,
    without a NUL byte and without a dot or dot-dot segment. *)
Theorem validate_absolute_file_path_iff path :
  validate_absolute_file_path path = Ok tt <->
  (exists rest, path = 47 :: rest) /\ str_len path <= MAX_FILE_PATH_BYTES /\
  0 ∉ as_bytes path /\ (lit ".") ∉ split 47 path /\ (lit "..") ∉ split 47 path.
Proof.
  unfold validate_absolute_file_path. rewrite <- split_slash_head.
  destruct (is_empty path) eqn:E0.
  { destruct path; [|done]. split; [done|]. intros [H _]. vm_compute in H. done. }
  destruct (Z.ltb_spec MAX_FILE_PATH_BYTES (str_len path)) as [H1|H1]; cbn [orb].
  { split; [done|]. lia. }
  destruct (contains_char 0 (as_bytes path)) eqn:E2.
  { apply contains_char_spec in E2. split; [done|]. tauto. }
  assert (H2 : 0 ∉ as_bytes path).
  { intros H. apply contains_char_spec in H. congruence. }
  destruct (starts_with path (lit "/")); cbn [negb]; [|split; [done|]; by intros [? _]].
  destruct (existsb _ (split 47 path)) eqn:E3.
  - split; [done|]. intros (_ & _ & _ & Hd1 & Hd2). exfalso.
    apply existsb_exists in E3 as (x & Hx & Hd). apply list_elem_of_In in Hx.
    apply orb_prop in Hd as [Hd|Hd]; apply str_eqb_eq in Hd; subst; auto.
  - split; [|done]. intros _. split_and!; try done; intros Hin; apply list_elem_of_In in Hin.
    + eapply existsb_false in E3; [|exact Hin]. done.
    + eapply existsb_false in E3; [|exact Hin]. done.
Qed.

(** ** Witnesses: a base-64 codec on the alphabet 32..95 with padding 96 *)

Fixpoint b64_encode_ex (d : list Z) : str :=
  match d with
  | [] => []
  | [a] => [32 + a / 4; 32 + a mod 4 * 16; 96; 96]
  | [a; b] => [32 + a / 4; 32 + (a mod 4 * 16 + b / 16); 32 + b mod 16 * 4; 96]
  | a :: b :: c :: d' =>
      32 + a / 4 :: 32 + (a mod 4 * 16 + b / 16) :: 32 + (b mod 16 * 4 + c / 64)
      :: 32 + c mod 64 :: b64_encode_ex d'
  end.

Fixpoint b64_decode_ex (s : str) : option (list Z) :=
  match s with
  | [] => Some []
  | w :: x :: y :: z :: s' =>
      let p := w - 32 in let q := x - 32 in let r := y - 32 in let t := z - 32 in
      if y =? 96 then Some [p * 4 + q / 16]
      else if z =? 96 then Some [p * 4 + q / 16; q mod 16 * 16 + r / 4]
      else match b64_decode_ex s' with
           | Some d => Some (p * 4 + q / 16 :: q mod 16 * 16 + r / 4 :: r mod 4 * 64 + t :: d)
           | None => None
           end
  | _ => None
  end.

Ltac divmod := Z.div_mod_to_equations; lia.

Lemma b64_ex_inverse d : Forall is_byte d -> b64_decode_ex (b64_encode_ex d) = Some d.
Proof.
  revert d. fix IH 1. intros [|a [|b [|c d]]] H; [done| | |];
    repeat match goal with H : Forall is_byte (_ :: _) |- _ => apply Forall_cons_iff in H as [? H] end;
    unfold is_byte in *; cbn [b64_encode_ex b64_decode_ex].
  - rewrite Z.eqb_refl. do 2 f_equal. divmod.
  - rewrite (proj2 (Z.eqb_neq _ _)), Z.eqb_refl by divmod. do 3 f_equal; divmod.
  - rewrite !(proj2 (Z.eqb_neq _ _)), (IH d H) by divmod.
    f_equal. f_equal; [divmod|]. f_equal; [divmod|]. f_equal. divmod.
Qed.

Lemma b64_ex_length d : Forall is_byte d -> str_len (b64_encode_ex d) = div_ceil (vec_len d) 3 * 4.
Proof.
  intros H. unfold str_len. rewrite as_bytes_ascii.
  - clear H. unfold div_ceil, vec_len. revert d. fix IH 1. intros [|a [|b [|c d]]]; [done..|].
    cbn [b64_encode_ex length]. specialize (IH d). rewrite !Nat2Z.inj_succ. divmod.
  - revert d H. fix IH 1. intros [|a [|b [|c d]]] H; [constructor| | |];
      repeat match goal with H : Forall is_byte (_ :: _) |- _ => apply Forall_cons_iff in H as [? H] end;
      unfold is_byte in *; cbn [b64_encode_ex]; repeat (apply Forall_cons_2; [divmod|]);
      [apply Forall_nil_2..|]. by apply IH.
Qed.

Definition hash_ex (d : list Z) : str := repeat (48 + foldl Z.add 0 d mod 10) 64.

Lemma hash_ex_hex d : lower_hex64 (hash_ex d).
Proof.
  unfold hash_ex. split; [apply repeat_length|]. apply Forall_forall. intros c Hc.
  apply list_elem_of_In, repeat_spec in Hc. subst c.
  pose proof (Z.mod_pos_bound (foldl Z.add 0 d) 10 ltac:(lia)). lia.
Qed.

Lemma chunked_payload_roundtrip_witness :
  decode_chunked_file_payload hash_ex b64_decode_ex
    (encode_chunks hash_ex b64_encode_ex 0 [[1; 2; 3; 255]]) 4 (hash_ex [1; 2; 3; 255])
  = Ok [1; 2; 3; 255].
Proof.
  apply (chunked_payload_roundtrip hash_ex b64_encode_ex b64_decode_ex [1; 2; 3; 255]).
  - exact hash_ex_hex.
  - exact b64_ex_inverse.
  - exact b64_ex_length.
  - bytes.
  - vm_compute. reflexivity.
Defined.

Lemma decode_chunked_sound_witness :
  vec_len [5; 6] = 2 /\ exists parts, [5; 6] = concat parts /\
    chunks_hold hash_ex b64_decode_ex 0 (encode_chunks hash_ex b64_encode_ex 0 [[5; 6]]) parts.
Proof.
  destruct (decode_chunked_sound hash_ex b64_decode_ex
    (encode_chunks hash_ex b64_encode_ex 0 [[5; 6]]) 2 (hash_ex [5; 6]) [5; 6]) as (H & _ & _ & _ & G).
  - vm_compute. reflexivity.
  - split; [exact H|exact G].
Defined.
