(* ===== verification/VpsRules.v ===== *)
(** The operator-facing VPS rules: crates/common/src/config/vps_rules.rs.

    A rule value is free text; [parse_vps_rule_value] turns it into a canonical
    text ([raw]), the JSON the rest of the system reads and a display text.
    The file models every parser of the module and the interface policy read
    back from the JSON; [VpsDecimal], [VpsSelectors] and [VpsRuleTheorems] hold
    what is proved of them. *)

From Stdlib Require Import SpecFloat.
From S2P Require Import Prelude RustStd F64 Json.

Open Scope Z_scope.

(** * Keys and limits *)

Definition VPS_RULE_KEY_TRAFFIC_RESET_DAY : str := lit "traffic.reset_day".
Definition VPS_RULE_KEY_TRAFFIC_QUOTA_TOTAL : str := lit "traffic.quota.total".
Definition VPS_RULE_KEY_TRAFFIC_QUOTA_RX : str := lit "traffic.quota.rx".
Definition VPS_RULE_KEY_TRAFFIC_QUOTA_TX : str := lit "traffic.quota.tx".
Definition VPS_RULE_KEY_TRAFFIC_SELECTORS : str := lit "traffic.selectors".
Definition VPS_RULE_KEY_BILLING_PRICE : str := lit "billing.price".
Definition VPS_RULE_KEY_BILLING_CYCLE : str := lit "billing.cycle".
Definition VPS_RULE_KEY_NETWORK_PORT_SPEED : str := lit "network.port_speed".
Definition VPS_RULE_KEY_NETWORK_INTERFACES : str := lit "network.interfaces".
Definition VPS_RULE_KEY_NETWORK_RATE_INTERFACES : str := lit "network.rate.interfaces".
Definition VPS_RULE_KEY_PRODUCT_NAME : str := lit "product.name".
Definition NETWORK_RATE_TRAFFIC_SELECTOR_REFERENCE_SYNTAX : str := lit "[traffic.selectors]".

Definition SUPPORTED_VPS_RULE_KEYS : list str :=
  [VPS_RULE_KEY_BILLING_PRICE; VPS_RULE_KEY_BILLING_CYCLE; VPS_RULE_KEY_NETWORK_PORT_SPEED;
   VPS_RULE_KEY_NETWORK_INTERFACES; VPS_RULE_KEY_NETWORK_RATE_INTERFACES;
   VPS_RULE_KEY_PRODUCT_NAME; VPS_RULE_KEY_TRAFFIC_RESET_DAY; VPS_RULE_KEY_TRAFFIC_QUOTA_TOTAL;
   VPS_RULE_KEY_TRAFFIC_QUOTA_RX; VPS_RULE_KEY_TRAFFIC_QUOTA_TX; VPS_RULE_KEY_TRAFFIC_SELECTORS].

Definition MAX_VPS_RULE_VALUE_BYTES : Z := 4096.
Definition MAX_PRODUCT_NAME_BYTES : Z := 160.
Definition MAX_TRAFFIC_SELECTOR_ITEMS : Z := 16.
Definition MAX_TRAFFIC_INTERFACE_BYTES : Z := 128.
Definition MAX_BILLING_PRICE_WHOLE_DIGITS : Z := 9.

(** * Data *)

Record ParsedVpsRuleValue := mkParsed {
  raw : str;
  json : Value;
  display : str;
}.

Inductive NetworkInterfaceSource := Host | Tunnel.

Inductive NetworkInterfacePolicy :=
| DefaultPhysical
| All
| Patterns (patterns : list str).

Record TrafficSelector := mkSelector {
  ts_source : str;
  ts_interface : str;
  ts_direction : str;
  ts_canonical : str;
}.

(** Errors of the module are static codes. *)
Abbreviation parsed := (result str) (only parsing).

Definition ensure (condition : bool) (error : string) : parsed unit :=
  if condition then Ok tt else Err (lit error).

(** [option.ok_or_else(|| code.to_string())] and [result.map_err(|_| code)]. *)
Definition or_code {A} (o : option A) (error : string) : parsed A := ok_or o (lit error).

(** * Interface patterns *)

Definition interface_char_rejected (c : char) : bool :=
  (c =? 44) || (c =? 43) || (c =? 58) || is_whitespace c || is_control c.

Definition validate_network_interface_pattern (pattern : str) : parsed unit :=
  ensure
    (negb (is_empty pattern) && (str_len pattern <=? MAX_TRAFFIC_INTERFACE_BYTES)
     && negb (existsb interface_char_rejected pattern)
     && (if count_char 42 pattern =? 0 then true
         else if count_char 42 pattern =? 1 then ends_with_char 42 pattern
         else false))
    "network_interfaces_pattern_invalid".

Definition network_interface_pattern_matches (pattern interface : str) : bool :=
  str_eqb pattern (lit "*")
  || match strip_suffix_char 42 pattern with
     | Some prefix => starts_with interface prefix
     | None => str_eqb interface pattern
     end.

(** The loop of [from_rule_json] over the stored patterns. *)
Definition policy_pattern_step (acc : list str * gset str) (pattern : Value) :
  parsed (list str * gset str) :=
  let '(out, seen) := acc in
  pattern ← or_code (as_str pattern) "network_interfaces_pattern_invalid";
  validate_network_interface_pattern pattern;;
  ensure (negb (str_eqb pattern (lit "*")) && bool_decide (pattern ∉ seen))
    "network_interfaces_pattern_invalid";;
  Ok (out ++ [pattern], {[ pattern ]} ∪ seen).

Definition from_rule_json (value : option Value) : parsed NetworkInterfacePolicy :=
  match value with
  | None => Ok DefaultPhysical
  | Some value =>
      match json_get value (lit "mode") ≫= as_str with
      | Some mode =>
          if str_eqb mode (lit "all") then Ok All
          else if str_eqb mode (lit "patterns") then
            patterns ← or_code (json_get value (lit "patterns") ≫= as_array)
                         "network_interfaces_patterns_invalid";
            ensure (negb (is_empty patterns)
                    && (vec_len patterns <=? MAX_TRAFFIC_SELECTOR_ITEMS))
              "network_interfaces_patterns_invalid";;
            acc ← try_fold policy_pattern_step ([], ∅) patterns;
            Ok (Patterns (fst acc))
          else Err (lit "network_interfaces_mode_invalid")
      | None => Err (lit "network_interfaces_mode_invalid")
      end
  end.

Definition policy_matches (policy : NetworkInterfacePolicy) (source : NetworkInterfaceSource)
    (interface : str) : bool :=
  match policy with
  | DefaultPhysical =>
      match source with Host => true | Tunnel => false end
      && (starts_with interface (lit "e") || starts_with interface (lit "w"))
  | All => true
  | Patterns patterns =>
      existsb (fun pattern => network_interface_pattern_matches pattern interface) patterns
  end.

Definition interface_pattern_step (acc : list str * gset str) (item : str) :
  parsed (list str * gset str) :=
  let '(patterns, seen) := acc in
  let pattern := trim item in
  validate_network_interface_pattern pattern;;
  ensure (negb (str_eqb pattern (lit "*"))) "network_interfaces_all_must_stand_alone";;
  ensure (bool_decide (pattern ∉ seen)) "network_interfaces_pattern_duplicate";;
  Ok (patterns ++ [pattern], {[ pattern ]} ∪ seen).

Definition parse_network_interface_patterns (input : str) : parsed (list str) :=
  acc ← try_fold interface_pattern_step ([], ∅) (split 44 input);
  let patterns := fst acc in
  ensure (negb (is_empty patterns) && (vec_len patterns <=? MAX_TRAFFIC_SELECTOR_ITEMS))
    "network_interfaces_too_many_patterns";;
  Ok patterns.

(** * Traffic selectors *)

Definition traffic_selector_direction_mask (selector : TrafficSelector) : Z :=
  if str_eqb (ts_direction selector) (lit "rx") then 1
  else if str_eqb (ts_direction selector) (lit "tx") then 2
  else 3.

Definition parse_direction (direction : str) : parsed str :=
  if str_eqb direction (lit "rx") then Ok (lit "rx")
  else if str_eqb direction (lit "tx") then Ok (lit "tx")
  else if one_of direction ["total"; "rx+tx"; "tx+rx"] then Ok (lit "total")
  else if one_of direction ["tx/rx"; "rx/tx"] then Ok (lit "tx/rx")
  else Err (lit "traffic_selector_direction_invalid").

Definition canonical_selector (source interface direction : str) : str :=
  if str_eqb source (lit "host") then
    if str_eqb direction (lit "total") then interface
    else interface ++ lit "+" ++ direction
  else if str_eqb direction (lit "total") then source ++ lit ":" ++ interface
  else source ++ lit ":" ++ interface ++ lit "+" ++ direction.

Definition parse_traffic_selector (item : str) : parsed TrafficSelector :=
  let item := trim item in
  ensure (negb (is_empty item)) "traffic_selector_empty_item";;
  source_rest ←
    match split_once 58 item with
    | Some (source, rest) =>
        let source := to_ascii_lowercase (trim source) in
        ensure (str_eqb source (lit "host") || str_eqb source (lit "tunnel"))
          "traffic_selector_source_invalid";;
        Ok (source, rest)
    | None => Ok (lit "host", item)
    end;
  let '(source, rest) := source_rest in
  let '(interface, direction) :=
    match split_once 43 rest with
    | Some (interface, direction) => (trim interface, to_ascii_lowercase (trim direction))
    | None => (trim rest, lit "total")
    end in
  ensure (negb (is_empty interface)) "traffic_selector_interface_required";;
  ensure ((str_len interface <=? MAX_TRAFFIC_INTERFACE_BYTES)
          && negb (contains_char 42 interface)
          && negb (existsb interface_char_rejected interface))
    "traffic_selector_interface_invalid";;
  direction ← parse_direction direction;
  Ok (mkSelector source interface direction (canonical_selector source interface direction)).

Record selector_acc := mkAcc {
  sa_selectors : list TrafficSelector;
  sa_seen : gset str;
  sa_directions : gmap (str * str) Z;
}.

(** The body of the loop after the item is parsed. *)
Definition selector_add (acc : selector_acc) (selector : TrafficSelector) : parsed selector_acc :=
  ensure (bool_decide (ts_canonical selector ∉ sa_seen acc)) "traffic_selector_duplicate";;
  let requested := traffic_selector_direction_mask selector in
  let key := (ts_source selector, ts_interface selector) in
  let selected := default 0 (sa_directions acc !! key) in
  ensure (Z.land selected requested =? 0) "traffic_selector_direction_overlap";;
  Ok (mkAcc (sa_selectors acc ++ [selector])
            ({[ ts_canonical selector ]} ∪ sa_seen acc)
            (<[ key := Z.lor selected requested ]> (sa_directions acc))).

Definition selector_step (acc : selector_acc) (item : str) : parsed selector_acc :=
  selector ← parse_traffic_selector item;
  selector_add acc selector.

Definition parse_traffic_selector_list (input : str) : parsed (list TrafficSelector) :=
  let raw := trim input in
  ensure (negb (is_empty raw)) "traffic_selector_empty";;
  acc ← try_fold selector_step (mkAcc [] ∅ ∅) (split 44 raw);
  ensure (vec_len (sa_selectors acc) <=? MAX_TRAFFIC_SELECTOR_ITEMS)
    "traffic_selector_too_many_items";;
  Ok (sa_selectors acc).

Definition traffic_selector_json (selector : TrafficSelector) : Value :=
  json_object [("source", Str (ts_source selector)); ("interface", Str (ts_interface selector));
               ("direction", Str (ts_direction selector));
               ("canonical", Str (ts_canonical selector))].

Definition canonical_selector_list (selectors : list TrafficSelector) : str :=
  join (lit ",") (map ts_canonical selectors).

(** * Decimals and sizes *)

Definition normalize_decimal_text (whole fraction : str) : str :=
  let whole := trim_start_matches 48 whole in
  let whole := if is_empty whole then lit "0" else whole in
  let fraction := trim_end_matches 48 fraction in
  if is_empty fraction then whole else whole ++ lit "." ++ fraction.

(** One iteration of the digit loop; the state is [(carry, remainder_tenths)]. *)
Definition fraction_step (multiplier : Z) (acc : Z * Z) (digit : Z) : parsed (Z * Z) :=
  let '(carry, _) := acc in
  product ← or_code (checked_mul u128_max (digit - 48) multiplier
                       ≫= fun value => checked_add u128_max value carry)
              "byte_size_too_large";
  Ok (product / 10, product mod 10).

Definition checked_decimal_times_multiplier (whole fraction : str) (multiplier : Z) : parsed Z :=
  let normalized_whole := trim_start_matches 48 whole in
  whole_value ← (if is_empty normalized_whole then Ok 0
                 else or_code (parse_unsigned u128_max normalized_whole) "byte_size_too_large");
  whole_scaled ← or_code (checked_mul u128_max whole_value multiplier) "byte_size_too_large";
  state ← try_fold (fraction_step multiplier) (0, 0) (rev (as_bytes fraction));
  let '(carry, remainder_tenths) := state in
  fractional_scaled ← (if 5 <=? remainder_tenths
                       then or_code (checked_add u128_max carry 1) "byte_size_too_large"
                       else Ok carry);
  scaled ← or_code (checked_add u128_max whole_scaled fractional_scaled) "byte_size_too_large";
  ensure (scaled <=? i64_max) "byte_size_too_large";;
  Ok scaled.

Definition byte_size_unit (suffix : str) : option (str * Z) :=
  if str_eqb suffix [] then Some ([], 1)
  else if str_eqb suffix (lit "b") then Some (lit "B", 1)
  else if str_eqb suffix (lit "kb") then Some (lit "KB", 1000)
  else if str_eqb suffix (lit "mb") then Some (lit "MB", 1000000)
  else if str_eqb suffix (lit "gb") then Some (lit "GB", 1000000000)
  else if str_eqb suffix (lit "tb") then Some (lit "TB", 1000000000000)
  else if str_eqb suffix (lit "kib") then Some (lit "KiB", 1024)
  else if str_eqb suffix (lit "mib") then Some (lit "MiB", 1048576)
  else if str_eqb suffix (lit "gib") then Some (lit "GiB", 1073741824)
  else if str_eqb suffix (lit "tib") then Some (lit "TiB", 1099511627776)
  else None.

Definition is_number_char (c : char) : bool := is_ascii_digit c || (c =? 46).

(** [text.split_once('.').unwrap_or((text, ""))]. *)
Definition split_decimal (text : str) : str * str := default (text, []) (split_once 46 text).

Definition parse_byte_size (raw : str) : parsed (Z * str) :=
  let value := trim raw in
  ensure (negb (is_empty value)) "byte_size_empty";;
  let '(number_raw, rest) := span is_number_char value in
  let suffix := to_ascii_lowercase (trim rest) in
  unit_multiplier ← or_code (byte_size_unit suffix) "byte_size_unit_invalid";
  let '(unit, multiplier) := unit_multiplier in
  let '(whole, fraction) := split_decimal number_raw in
  ensure (negb (is_empty whole) && all_digits whole && all_digits fraction
          && (count_char 46 number_raw <=? 1))
    "byte_size_number_invalid";;
  ensure (existsb (fun digit => negb (digit =? 48)) (as_bytes whole ++ as_bytes fraction))
    "byte_size_number_invalid";;
  bytes ← checked_decimal_times_multiplier whole fraction multiplier;
  Ok (bytes, normalize_decimal_text whole fraction ++ unit).

Definition DISPLAY_UNITS : list (string * Z) :=
  [("TB", 1000000000000); ("GB", 1000000000); ("MB", 1000000); ("KB", 1000); ("B", 1)].

Fixpoint display_bytes_go (bytes : Z) (units : list (string * Z)) : str :=
  match units with
  | [] => to_string bytes ++ lit " B"
  | (unit, factor) :: units' =>
      if SFleb (f64_of_Z factor) (f64_of_Z bytes) || str_eqb (lit unit) (lit "B") then
        let value := f64_div (f64_of_Z bytes) (f64_of_Z factor) in
        if str_eqb (lit unit) (lit "B") then to_string bytes ++ lit " B"
        else if SFleb (f64_of_Z 10) value then format_fixed 0 value ++ lit " " ++ lit unit
        else format_fixed 1 value ++ lit " " ++ lit unit
      else display_bytes_go bytes units'
  end.
Definition display_bytes (bytes : Z) : str := display_bytes_go bytes DISPLAY_UNITS.

(** * One parser per rule *)

Definition parse_reset_hour (time : str) : parsed Z :=
  match split 58 time with
  | [hour_text; minute_text] =>
      ensure ((str_len hour_text =? 2) && (str_len minute_text =? 2)
              && all_digits hour_text && all_digits minute_text)
        "traffic_reset_day_invalid";;
      hour ← or_code (parse_signed i32_min i32_max hour_text) "traffic_reset_day_invalid";
      minute ← or_code (parse_signed i32_min i32_max minute_text) "traffic_reset_day_invalid";
      ensure (in_range 0 23 hour && in_range 0 59 minute) "traffic_reset_day_invalid";;
      Ok hour
  | _ => Err (lit "traffic_reset_day_invalid")
  end.

Definition parse_traffic_reset_day (raw : str) : parsed ParsedVpsRuleValue :=
  let parts := split_whitespace raw in
  ensure (in_range 1 2 (vec_len parts)) "traffic_reset_day_invalid";;
  day ← or_code (parse_signed i32_min i32_max (nth 0 parts [])) "traffic_reset_day_invalid";
  ensure ((day =? -1) || in_range 1 31 day) "traffic_reset_day_invalid";;
  if day =? -1 then
    ensure (vec_len parts =? 1) "traffic_reset_day_invalid";;
    Ok (mkParsed (lit "-1") (json_object [("day", json_int (-1)); ("hour", json_int 0)])
          (lit "-"))
  else
    hour ← match parts !! 1%nat with
           | Some time => parse_reset_hour time
           | None => Ok 0
           end;
    let canonical := to_string day ++ lit " " ++ pad2 hour ++ lit ":00" in
    Ok (mkParsed canonical (json_object [("day", json_int day); ("hour", json_int hour)])
          (to_string day ++ lit " " ++ pad2 hour ++ lit ":00 UTC")).

Definition parse_product_name (raw : str) : parsed ParsedVpsRuleValue :=
  let canonical := join (lit " ") (split_whitespace raw) in
  ensure (negb (is_empty canonical)) "product_name_empty";;
  ensure (str_len canonical <=? MAX_PRODUCT_NAME_BYTES) "product_name_too_long";;
  ensure (negb (existsb is_control canonical)) "product_name_control_character_invalid";;
  Ok (mkParsed canonical (json_object [("name", Str canonical); ("display", Str canonical)])
        canonical).

Definition parse_traffic_quota (raw : str) : parsed ParsedVpsRuleValue :=
  if str_eqb raw (lit "-1") then
    Ok (mkParsed (lit "-1")
          (json_object [("bytes", json_int (-1)); ("unlimited", Bool true);
                        ("display", Str (lit "Unlimited"))])
          (lit "Unlimited"))
  else
    size ← parse_byte_size raw;
    let '(bytes, canonical) := size in
    Ok (mkParsed canonical
          (json_object [("bytes", json_int bytes); ("display", Str (display_bytes bytes))])
          (to_string bytes ++ lit " bytes")).

Definition all_mode (text : string) : ParsedVpsRuleValue :=
  mkParsed (lit "*") (json_object [("mode", Str (lit "all"))]) (lit text).

Definition exact_mode (selectors : list TrafficSelector) (text : string) : ParsedVpsRuleValue :=
  mkParsed (canonical_selector_list selectors)
    (json_object [("mode", Str (lit "exact"));
                  ("selectors", Array (map traffic_selector_json selectors))])
    (to_string (vec_len selectors) ++ lit text).

Definition parse_traffic_selectors (raw : str) : parsed ParsedVpsRuleValue :=
  if str_eqb raw (lit "*") then Ok (all_mode "All eligible interfaces")
  else
    selectors ← parse_traffic_selector_list raw;
    Ok (exact_mode selectors " selectors").

Definition parse_network_interfaces (raw : str) : parsed ParsedVpsRuleValue :=
  if str_eqb raw (lit "*") then Ok (all_mode "All reported interfaces")
  else
    patterns ← parse_network_interface_patterns raw;
    Ok (mkParsed (join (lit ",") patterns)
          (json_object [("mode", Str (lit "patterns")); ("patterns", Array (map Str patterns))])
          (to_string (vec_len patterns) ++ lit " interface patterns")).

Definition parse_network_rate_interfaces (raw : str) : parsed ParsedVpsRuleValue :=
  if str_eqb raw NETWORK_RATE_TRAFFIC_SELECTOR_REFERENCE_SYNTAX then
    Ok (mkParsed NETWORK_RATE_TRAFFIC_SELECTOR_REFERENCE_SYNTAX
          (json_object [("mode", Str (lit "reference"));
                        ("reference",
                         json_object [("rule", Str VPS_RULE_KEY_TRAFFIC_SELECTORS)])])
          (lit "Traffic selectors (referenced)"))
  else if str_eqb raw (lit "*") then Ok (all_mode "All eligible interfaces")
  else if str_eqb raw (lit "[]") then
    Ok (mkParsed (lit "[]")
          (json_object [("mode", Str (lit "exact")); ("selectors", Array [])])
          (lit "No live-rate interfaces"))
  else
    selectors ← parse_traffic_selector_list raw;
    ensure (forallb (fun selector => str_eqb (ts_source selector) (lit "host")) selectors)
      "network_rate_selector_source_invalid";;
    Ok (exact_mode selectors " live-rate selectors").

Definition normalize_billing_price (input : str) : parsed str :=
  let '(whole, fraction) := split_decimal input in
  ensure (negb (is_empty whole) && (str_len whole <=? MAX_BILLING_PRICE_WHOLE_DIGITS)
          && all_digits whole && (str_len fraction <=? 2) && all_digits fraction
          && (count_char 46 input <=? 1))
    "billing_plan_price_invalid";;
  let whole := trim_start_matches 48 whole in
  let whole := if is_empty whole then lit "0" else whole in
  let fraction := if str_len fraction =? 0 then lit "00"
                  else if str_len fraction =? 1 then fraction ++ lit "0"
                  else fraction in
  Ok (whole ++ lit "." ++ fraction).

Definition YEN : str := [165].
Definition FULLWIDTH_YEN : str := [65509].
Definition EURO : str := [8364].
Definition POUND : str := [163].

Definition normalize_billing_currency (input : str) : parsed (str * str) :=
  let upper := to_ascii_uppercase input in
  if str_eqb input (lit "$") then Ok (lit "USD", lit "$")
  else if str_eqb input YEN || str_eqb input FULLWIDTH_YEN then Ok (lit "CNY", YEN)
  else if str_eqb input EURO then Ok (lit "EUR", EURO)
  else if str_eqb input POUND then Ok (lit "GBP", POUND)
  else if (str_len upper =? 3) && forallb is_ascii_alphabetic upper then Ok (upper, upper)
  else Err (lit "billing_plan_currency_invalid").

Definition is_amount_char (c : char) : bool := is_ascii_digit c || (c =? 46) || is_whitespace c.

Definition billing_period (input : str) : parsed (str * str) :=
  if str_eqb input (lit "m") then Ok (lit "m", lit "month")
  else if str_eqb input (lit "q") then Ok (lit "q", lit "quarter")
  else if one_of input ["h"; "hy"] then Ok (lit "hy", lit "half_year")
  else if str_eqb input (lit "y") then Ok (lit "y", lit "year")
  else Err (lit "billing_plan_period_invalid").

Definition parse_billing_price (raw : str) : parsed ParsedVpsRuleValue :=
  if str_eqb (List.filter (fun c => negb (is_whitespace c)) raw) (lit "-1") then
    Ok (mkParsed (lit "-1")
          (json_object [("disabled", Bool true); ("display", Str (lit "-"))]) (lit "-"))
  else
    parts ← or_code (split_once 47 raw) "billing_plan_period_required";
    let '(amount_and_currency, period_input) := parts in
    ensure (negb (contains_char 47 period_input)
            && negb (existsb is_whitespace (trim period_input)))
      "billing_plan_period_invalid";;
    let amount_and_currency := trim amount_and_currency in
    let '(amount, currency_input) := span is_amount_char amount_and_currency in
    ensure (negb (is_empty currency_input)) "billing_plan_currency_required";;
    let amount := trim_end amount in
    let currency_input := trim currency_input in
    ensure (negb (existsb is_whitespace amount) && negb (existsb is_whitespace currency_input))
      "billing_plan_price_invalid";;
    price ← normalize_billing_price amount;
    currency_pair ← normalize_billing_currency currency_input;
    let '(currency, currency_display) := currency_pair in
    period_pair ← billing_period (to_ascii_lowercase (trim period_input));
    let '(period_code, period) := period_pair in
    let display := price ++ lit " " ++ currency_display ++ lit "/" ++ period_code in
    Ok (mkParsed display
          (json_object [("disabled", Bool false); ("price", Str price);
                        ("currency", Str currency); ("currency_display", Str currency_display);
                        ("period", Str period); ("period_code", Str period_code);
                        ("display", Str display)])
          display).

Definition parse_billing_day (input : str) : parsed Z :=
  day ← or_code (parse_unsigned u8_max (trim input)) "billing_cycle_day_invalid";
  ensure (in_range 1 31 day) "billing_cycle_day_invalid";;
  Ok day.

Definition parse_billing_month (input : str) : parsed Z :=
  month ← or_code (parse_unsigned u8_max (trim input)) "billing_cycle_month_invalid";
  ensure (in_range 1 12 month) "billing_cycle_month_invalid";;
  Ok month.

Definition maximum_day (month : Z) : Z :=
  if month =? 2 then 29
  else if (month =? 4) || (month =? 6) || (month =? 9) || (month =? 11) then 30
  else 31.

Definition parse_billing_cycle (raw : str) : parsed ParsedVpsRuleValue :=
  day_month ← match split_once 45 raw with
              | Some (month, day) =>
                  day ← parse_billing_day day;
                  month ← parse_billing_month month;
                  Ok (day, Some month)
              | None => day ← parse_billing_day raw; Ok (day, None)
              end;
  let '(day, month) := day_month in
  match month with
  | Some month => ensure (day <=? maximum_day month) "billing_cycle_day_invalid"
  | None => Ok tt
  end;;
  let display := match month with
                 | Some month => pad2 month ++ lit "-" ++ pad2 day
                 | None => to_string day
                 end in
  Ok (mkParsed display
        (json_object [("day", json_int day);
                      ("month", match month with Some m => json_int m | None => Null end);
                      ("display", Str display)])
        display).

Definition port_speed_unit (unit : str) : option (str * Z) :=
  if str_eqb unit (lit "bps") then Some (lit "bps", 1)
  else if str_eqb unit (lit "kbps") then Some (lit "Kbps", 1000)
  else if str_eqb unit (lit "mbps") then Some (lit "Mbps", 1000000)
  else if str_eqb unit (lit "gbps") then Some (lit "Gbps", 1000000000)
  else if str_eqb unit (lit "tbps") then Some (lit "Tbps", 1000000000000)
  else None.

(** [10_u128.checked_pow(n)]. *)
Definition checked_pow10 (n : Z) : option Z :=
  if 10 ^ n <=? u128_max then Some (10 ^ n) else None.

(** The arithmetic of [parse_port_speed] on digit strings, in one piece. *)
Definition port_bps (w f : str) (m : Z) : parsed Z :=
  scale ← or_code (checked_pow10 (str_len f)) "port_speed_value_too_large";
  whole_value ← or_code (parse_unsigned u128_max w) "port_speed_value_invalid";
  fraction_value ← (if is_empty f then Ok 0
                    else or_code (parse_unsigned u128_max f) "port_speed_value_invalid");
  scaled ← or_code (checked_mul u128_max whole_value scale
                      ≫= fun value => checked_add u128_max value fraction_value)
             "port_speed_value_too_large";
  product ← or_code (checked_mul u128_max scaled m) "port_speed_value_too_large";
  Ok (product / scale).

Definition parse_port_speed (raw : str) : parsed ParsedVpsRuleValue :=
  let raw := trim raw in
  let '(amount, unit_input) := span (fun c => negb (is_ascii_alphabetic c)) raw in
  ensure (negb (is_empty unit_input)) "port_speed_unit_required";;
  let amount := trim_end amount in
  let unit_input := trim unit_input in
  ensure (negb (existsb is_whitespace amount) && negb (existsb is_whitespace unit_input))
    "port_speed_value_invalid";;
  unit_multiplier ← or_code (port_speed_unit (to_ascii_lowercase unit_input))
                      "port_speed_unit_invalid";
  let '(unit, multiplier) := unit_multiplier in
  let '(whole, fraction) := split_decimal amount in
  ensure (negb (is_empty whole) && all_digits whole && (str_len fraction <=? 3)
          && all_digits fraction && (count_char 46 amount <=? 1))
    "port_speed_value_invalid";;
  bps ← port_bps whole fraction multiplier;
  ensure ((0 <? bps) && (bps <=? i64_max)) "port_speed_value_invalid";;
  let display := normalize_decimal_text whole fraction ++ lit " " ++ unit in
  Ok (mkParsed display (json_object [("bps", json_int bps); ("display", Str display)]) display).

(** * The entry point *)

Definition normalize_vps_rule_key (key : str) : parsed str :=
  let key := trim key in
  if existsb (str_eqb key) SUPPORTED_VPS_RULE_KEYS then Ok key
  else Err (lit "vps_rules_key_unsupported").

(** The [match] on the normalised key; the last arm is the source's
    [unreachable!]. *)
Definition parse_rule (key raw : str) : option (parsed ParsedVpsRuleValue) :=
  if str_eqb key VPS_RULE_KEY_TRAFFIC_RESET_DAY then Some (parse_traffic_reset_day raw)
  else if str_eqb key VPS_RULE_KEY_TRAFFIC_QUOTA_TOTAL
          || str_eqb key VPS_RULE_KEY_TRAFFIC_QUOTA_RX
          || str_eqb key VPS_RULE_KEY_TRAFFIC_QUOTA_TX then Some (parse_traffic_quota raw)
  else if str_eqb key VPS_RULE_KEY_TRAFFIC_SELECTORS then Some (parse_traffic_selectors raw)
  else if str_eqb key VPS_RULE_KEY_NETWORK_INTERFACES then Some (parse_network_interfaces raw)
  else if str_eqb key VPS_RULE_KEY_NETWORK_RATE_INTERFACES then
    Some (parse_network_rate_interfaces raw)
  else if str_eqb key VPS_RULE_KEY_BILLING_PRICE then Some (parse_billing_price raw)
  else if str_eqb key VPS_RULE_KEY_BILLING_CYCLE then Some (parse_billing_cycle raw)
  else if str_eqb key VPS_RULE_KEY_NETWORK_PORT_SPEED then Some (parse_port_speed raw)
  else if str_eqb key VPS_RULE_KEY_PRODUCT_NAME then Some (parse_product_name raw)
  else None.

(** [None] is the panic of the [unreachable!] arm. *)
Definition parse_vps_rule_value (key value : str) : option (parsed ParsedVpsRuleValue) :=
  match normalize_vps_rule_key key with
  | Err e => Some (Err e)
  | Ok key =>
      match ensure (str_len value <=? MAX_VPS_RULE_VALUE_BYTES) "vps_rules_value_too_long" with
      | Err e => Some (Err e)
      | Ok _ =>
          let raw := trim value in
          match ensure (negb (is_empty raw)) "vps_rules_empty_value_invalid" with
          | Err e => Some (Err e)
          | Ok _ => parse_rule key raw
          end
      end
  end.

(** * The module's test table *)

Definition canonical_of (key value : str) : option str :=
  match parse_vps_rule_value key value with Some (Ok p) => Some (raw p) | _ => None end.

Example normalizes_operator_facing_rule_values :
  forallb (fun '(k, v, c) => bool_decide (canonical_of k (lit v) = Some (lit c)))
    [(VPS_RULE_KEY_TRAFFIC_RESET_DAY, "014", "14 00:00");
     (VPS_RULE_KEY_TRAFFIC_QUOTA_TOTAL, " 04.00 tb ", "4TB");
     (VPS_RULE_KEY_NETWORK_PORT_SPEED, "1.500gbps", "1.5 Gbps");
     (VPS_RULE_KEY_BILLING_PRICE, "29.9 cny / M", "29.90 CNY/m");
     (VPS_RULE_KEY_BILLING_CYCLE, "6-15", "06-15");
     (VPS_RULE_KEY_TRAFFIC_SELECTORS, " ens3, eth0+tx ", "ens3,eth0+tx");
     (VPS_RULE_KEY_NETWORK_RATE_INTERFACES, " host:eth0, eth1+tx ", "eth0,eth1+tx")] = true.
Proof. vm_compute. reflexivity. Qed.

Example display_bytes_values :
  map display_bytes [999; 1500; 4000000000000; 12345678; 9223372036854775807]
  = map lit ["999 B"; "1.5 KB"; "4.0 TB"; "12 MB"; "9223372 TB"].
Proof. vm_compute. reflexivity. Qed.
