(* ===== verification/VpsDecimal.v ===== *)
(** Decimal texts in the VPS rules of [VpsRules]: exact scaling of a decimal by
    a unit, canonical decimals, and the canonical texts of quotas, reset days
    and billing cycles as fixed points of their parsers. *)

From S2P Require Import Prelude RustStd F64 Json VpsRules.

Open Scope Z_scope.

#[local] Arguments lit : simpl never.
#[local] Arguments str_eqb : simpl never.

(** * Reference definitions *)

(** The decimal [N / 10^k] times [m], rounded half up. *)
Definition round_half_up (N k m : Z) : Z := (2 * N * m + 10 ^ k) / (2 * 10 ^ k).

(** The digit after the point of [V * m / 10^k]. *)
Definition tenths (V m k : Z) : Z := if k =? 0 then 0 else (V * m / 10 ^ (k - 1)) mod 10.

(** The two parts of a canonical decimal. *)
Definition norm_whole (whole : str) : str :=
  let whole := trim_start_matches 48 whole in if is_empty whole then lit "0" else whole.
Definition norm_fraction (fraction : str) : str := trim_end_matches 48 fraction.

(** What a canonical text is for a parser: it parses to the very value it was
    printed for, needs no trimming and stays within the length limit. *)
Definition fixed_point (parse : str -> parsed ParsedVpsRuleValue) (p : ParsedVpsRuleValue) : Prop :=
  parse (raw p) = Ok p /\ trim (raw p) = raw p /\ raw p <> [] /\
  str_len (raw p) <= MAX_VPS_RULE_VALUE_BYTES.

Definition z_range (lo hi : Z) : list Z := map (fun i => lo + Z.of_nat i) (seq 0 (Z.to_nat (hi - lo + 1))).

Definition reset_value (dh : Z * Z) : ParsedVpsRuleValue :=
  let '(day, hour) := dh in
  mkParsed (to_string day ++ lit " " ++ pad2 hour ++ lit ":00")
    (json_object [("day", json_int day); ("hour", json_int hour)])
    (to_string day ++ lit " " ++ pad2 hour ++ lit ":00 UTC").

Definition cycle_value (dm : Z * option Z) : ParsedVpsRuleValue :=
  let '(day, month) := dm in
  let display := match month with
                 | Some month => pad2 month ++ lit "-" ++ pad2 day
                 | None => to_string day
                 end in
  mkParsed display
    (json_object [("day", json_int day);
                  ("month", match month with Some m => json_int m | None => Null end);
                  ("display", Str display)])
    display.

(** The checks of [fixed_point] as one computed value. *)
Definition observe (parse : str -> parsed ParsedVpsRuleValue) (p : ParsedVpsRuleValue) :=
  (parse (raw p), trim (raw p), is_empty (raw p), str_len (raw p) <=? MAX_VPS_RULE_VALUE_BYTES).

Definition reset_domain : list (Z * Z) := list_prod (z_range 1 31) (z_range 0 23).

Definition cycle_domain : list (Z * option Z) :=
  list_prod (z_range 1 31) (None :: map Some (z_range 1 12)).

Definition cycle_valid (dm : Z * option Z) : bool :=
  match snd dm with Some m => fst dm <=? maximum_day m | None => true end.

(** * Digit strings *)

Lemma digits_val_cons c s : digits_val (c :: s) = (c - 48) * 10 ^ vec_len s + digits_val s.
Proof.
  unfold digits_val at 1. cbn [digits_val_go]. rewrite digits_val_go_acc. unfold digit_val. lia.
Qed.

Lemma digits_val_app s t : digits_val (s ++ t) = digits_val s * 10 ^ vec_len t + digits_val t.
Proof. unfold digits_val at 1. rewrite digits_val_go_app. apply digits_val_go_acc. Qed.

Lemma vec_len_app {A} (s t : list A) : vec_len (s ++ t) = vec_len s + vec_len t.
Proof. unfold vec_len. rewrite length_app. lia. Qed.

Lemma pow10_pos {A} (s : list A) : 0 < 10 ^ vec_len s.
Proof. apply Z.pow_pos_nonneg; [lia|apply vec_len_nonneg]. Qed.

Lemma vec_len_cons {A} (a : A) s : vec_len (a :: s) = Z.succ (vec_len s).
Proof. unfold vec_len. cbn [length]. lia. Qed.

Lemma digits_val_bounds s : all_digits s = true -> 0 <= digits_val s < 10 ^ vec_len s.
Proof.
  rewrite all_digits_Forall. induction 1 as [|c s Hc _ IH]; [vm_compute; split; congruence|].
  rewrite digits_val_cons, vec_len_cons, Z.pow_succ_r by apply vec_len_nonneg.
  pose proof (pow10_pos s). cbn beta in Hc. nia.
Qed.

Lemma digits_val_drop_zeros s : digits_val (trim_start_matches 48 s) = digits_val s.
Proof.
  unfold trim_start_matches. induction s as [|c s IH]; [done|]. cbn [drop_while].
  destruct (Z.eqb_spec 48 c) as [<-|]; [|done].
  rewrite IH, digits_val_cons. lia.
Qed.

Lemma all_digits_drop p s : all_digits s = true -> all_digits (drop_while p s) = true.
Proof.
  intros H. destruct (drop_while_suffix p s) as (l & E & _).
  rewrite E, all_digits_app in H. by bools.
Qed.

Lemma all_digits_rev s : all_digits (rev s) = all_digits s.
Proof.
  apply eq_true_iff_eq. rewrite !all_digits_Forall. split; intros H.
  - rewrite <- (rev_involutive s). by apply Forall_rev.
  - by apply Forall_rev.
Qed.

Lemma parse_unsigned_all max s :
  s <> [] -> all_digits s = true ->
  parse_unsigned max s = if digits_val s <=? max then Some (digits_val s) else None.
Proof.
  intros Hne Ha. pose proof (digits_val_nonneg s Ha).
  destruct (Z.leb_spec (digits_val s) max) as [H'|H']; [by apply parse_unsigned_digits|].
  unfold parse_unsigned. destruct s as [|c s]; [done|].
  pose proof (all_digits_head _ _ Ha) as Hc.
  replace (match c :: s with 43 :: s' => parse_digits s' | _ => parse_digits (c :: s) end)
    with (parse_digits (c :: s)) by (repeat (case_match; try done; try lia)).
  rewrite parse_digits_all by done. unfold bounded, in_range.
  rewrite (proj2 (Z.leb_gt _ max)) by lia. by rewrite andb_false_r.
Qed.

(** * Exact decimal multiplication *)

Lemma fraction_loop m d :
  0 < m -> 10 * m <= u128_max -> all_digits d = true ->
  try_fold (fraction_step m) (0, 0) (rev d)
  = Ok (digits_val d * m / 10 ^ vec_len d, tenths (digits_val d) m (vec_len d)).
Proof.
  intros Hm Hb. induction d as [|c d IH]; intros Hd; [done|].
  pose proof (all_digits_head _ _ Hd) as Hc. cbn in Hd. bools.
  cbn [rev]. rewrite try_fold_app, IH by done. cbn [mbind result_bind try_fold fraction_step].
  pose proof (digits_val_bounds d ltac:(done)) as Hv. pose proof (pow10_pos d) as Hp.
  set (V := digits_val d) in *. set (P := 10 ^ vec_len d) in *.
  assert (Hq : 0 <= V * m / P < m).
  { split; [apply Z.div_pos; nia|]. apply Z.div_lt_upper_bound; nia. }
  assert (Hprod : (c - 48) * m + V * m / P = ((c - 48) * P + V) * m / P).
  { rewrite <- Z.div_add_l by lia. f_equal. ring. }
  unfold checked_mul, checked_add.
  rewrite (proj2 (Z.leb_le ((c - 48) * m) u128_max)) by nia. cbn [mbind option_bind].
  rewrite (proj2 (Z.leb_le ((c - 48) * m + V * m / P) u128_max)) by nia.
  cbn [or_code ok_or mbind result_bind].
  rewrite digits_val_cons, vec_len_cons. fold V P. rewrite Hprod. do 2 f_equal.
  - rewrite Z.pow_succ_r by apply vec_len_nonneg. fold P.
    rewrite Z.div_div by lia. f_equal. lia.
  - unfold tenths. pose proof (vec_len_nonneg d).
    rewrite (proj2 (Z.eqb_neq (Z.succ (vec_len d)) 0)) by lia.
    replace (Z.succ (vec_len d) - 1) with (vec_len d) by lia. done.
Qed.

(** The tenths digit of the remainder decides the rounding. *)
Lemma tenths_rounds V m k :
  0 <= V -> 0 < m -> 0 <= k -> (k = 0 -> V = 0) ->
  V * m / 10 ^ k + (if 5 <=? tenths V m k then 1 else 0) = round_half_up V k m.
Proof.
  intros HV Hm Hk H0. unfold tenths, round_half_up.
  destruct (Z.eqb_spec k 0) as [->|Hne].
  - rewrite H0 by done. reflexivity.
  - set (Q := 10 ^ (k - 1)). assert (HQ : 0 < Q) by (apply Z.pow_pos_nonneg; lia).
    assert (E10 : 10 ^ k = 10 * Q).
    { unfold Q. rewrite <- Z.pow_succ_r by lia. f_equal. lia. }
    rewrite E10.
    replace (2 * V * m) with (2 * (V * m)) by ring. set (N := V * m).
    rewrite (Z.mul_comm 10 Q), <- Z.div_div by lia.
    pose proof (Z.div_mod N Q ltac:(lia)). pose proof (Z.mod_pos_bound N Q HQ).
    set (t := N / Q) in *. pose proof (Z.div_mod t 10 ltac:(lia)).
    pose proof (Z.mod_pos_bound t 10 ltac:(lia)).
    assert (E : forall a, 2 * (Q * 10) * a <= 2 * N + Q * 10 < 2 * (Q * 10) * (a + 1) ->
      a = (2 * N + Q * 10) / (2 * (Q * 10))).
    { intros a Ha. apply Z.div_unique_pos with (2 * N + Q * 10 - 2 * (Q * 10) * a); lia. }
    apply E. destruct (Z.leb_spec 5 (t mod 10)); nia.
Qed.

Lemma round_half_up_whole W F k m :
  0 <= k -> round_half_up (W * 10 ^ k + F) k m = W * m + round_half_up F k m.
Proof.
  intros Hk. assert (0 < 10 ^ k) by (apply Z.pow_pos_nonneg; lia). unfold round_half_up.
  rewrite <- Z.div_add_l by lia. f_equal. ring.
Qed.

Lemma round_half_up_nonneg V k m : 0 <= V -> 0 < m -> 0 <= k -> 0 <= round_half_up V k m.
Proof.
  intros. assert (0 < 10 ^ k) by (apply Z.pow_pos_nonneg; lia).
  apply Z.div_pos; nia.
Qed.

Lemma round_half_up_small V k m :
  0 <= V < 10 ^ k -> 0 < m -> 0 <= k -> round_half_up V k m <= m.
Proof.
  intros HV Hm Hk. unfold round_half_up. apply Z.lt_succ_r.
  apply Z.div_lt_upper_bound; nia.
Qed.

Lemma digits_val_nil k V : 0 <= V < 10 ^ k -> k = 0 -> V = 0.
Proof. intros H ->. lia. Qed.

Lemma parse_whole whole :
  all_digits whole = true ->
  (if is_empty (trim_start_matches 48 whole) then Ok 0
   else or_code (parse_unsigned u128_max (trim_start_matches 48 whole)) "byte_size_too_large")
  = if digits_val whole <=? u128_max then Ok (digits_val whole)
    else Err (lit "byte_size_too_large").
Proof.
  intros Hw. rewrite <- (digits_val_drop_zeros whole).
  pose proof (all_digits_drop (Z.eqb 48) whole Hw) as Ha.
  unfold trim_start_matches in *. set (t := drop_while _ _) in *.
  destruct t as [|c t'] eqn:E; [done|]. rewrite <- E in *. cbn [is_empty].
  replace (is_empty t) with false by (by rewrite E).
  pose proof (digits_val_nonneg t Ha). rewrite parse_unsigned_all by (done || by rewrite E).
  by destruct (_ <=? u128_max).
Qed.

(** The conditional increment does not overflow. *)
Lemma round_step carry rem total :
  carry + (if 5 <=? rem then 1 else 0) = total -> total <= u128_max ->
  (if 5 <=? rem then or_code (checked_add u128_max carry 1) "byte_size_too_large" else Ok carry)
  = Ok total.
Proof.
  intros <- Hb. destruct (5 <=? rem); [|by rewrite Z.add_0_r].
  unfold checked_add. by rewrite (proj2 (Z.leb_le _ _)).
Qed.

Lemma decimal_exact whole fraction multiplier :
  all_digits whole = true -> all_digits fraction = true ->
  0 < multiplier <= 1099511627776 ->
  let exact := round_half_up (digits_val (whole ++ fraction)) (vec_len fraction) multiplier in
  checked_decimal_times_multiplier whole fraction multiplier
  = if exact <=? i64_max then Ok exact else Err (lit "byte_size_too_large").
Proof.
  intros Hw Hf Hm exact. unfold checked_decimal_times_multiplier.
  pose proof (digits_val_bounds whole Hw) as Bw. pose proof (digits_val_bounds fraction Hf) as Bf.
  pose proof (vec_len_nonneg fraction) as Hk.
  pose proof (round_half_up_nonneg (digits_val fraction) (vec_len fraction) multiplier
    ltac:(lia) ltac:(lia) Hk) as Hn.
  pose proof (round_half_up_small (digits_val fraction) (vec_len fraction) multiplier
    Bf ltac:(lia) Hk) as Hs.
  assert (Hexact : exact = digits_val whole * multiplier
                          + round_half_up (digits_val fraction) (vec_len fraction) multiplier).
  { unfold exact. rewrite digits_val_app. by apply round_half_up_whole. }
  rewrite Hexact. clear exact Hexact.
  rewrite (parse_whole whole) by done.
  destruct (Z.leb_spec (digits_val whole) u128_max) as [Hu|Hu]; cbn [or_code ok_or mbind result_bind].
  2: { rewrite (proj2 (Z.leb_gt _ _)); [done|]. unfold u128_max, i64_max in *. nia. }
  unfold checked_mul at 1. destruct (Z.leb_spec (digits_val whole * multiplier) u128_max) as [Hu'|Hu'];
    cbn [or_code ok_or mbind result_bind].
  2: { rewrite (proj2 (Z.leb_gt _ _)); [done|]. unfold u128_max, i64_max in *. nia. }
  rewrite digits_as_bytes, fraction_loop by (done || unfold u128_max; lia).
  cbn [mbind result_bind].
  pose proof (tenths_rounds (digits_val fraction) multiplier (vec_len fraction)
    ltac:(lia) ltac:(lia) Hk (digits_val_nil _ _ Bf)) as Ht.
  rewrite (round_step _ _ _ Ht) by (unfold u128_max; lia). cbn [mbind result_bind].
  unfold checked_add. destruct (_ <=? u128_max) eqn:E; cbn [or_code ok_or mbind result_bind].
  - unfold ensure. by destruct (_ <=? i64_max).
  - bools. rewrite (proj2 (Z.leb_gt _ _)); [done|]. unfold u128_max, i64_max in *. lia.
Qed.

(** C36: The quota arithmetic is exact: for digit strings and any multiplier of the unit table the
    result is the decimal times the multiplier rounded half up, and the only failure is a result
    above [i64::MAX]; no intermediate 128-bit step loses a representable result. *)
Theorem decimal_times_multiplier_exact whole fraction multiplier :
  all_digits whole = true -> all_digits fraction = true ->
  0 < multiplier <= 1099511627776 ->
  let exact := round_half_up (digits_val (whole ++ fraction)) (vec_len fraction) multiplier in
  checked_decimal_times_multiplier whole fraction multiplier
  = if exact <=? i64_max then Ok exact else Err (lit "byte_size_too_large").
Proof. apply decimal_exact. Qed.

Lemma decimal_times_multiplier_exact_witness :
  checked_decimal_times_multiplier (lit "9223372") (lit "0368547758075") 1000000000000
  = Err (lit "byte_size_too_large")
  /\ checked_decimal_times_multiplier (lit "0") (lit "000000000000500000000001") 1000000000000
  = Ok 1.
Proof.
  split.
  - exact (decimal_times_multiplier_exact (lit "9223372") (lit "0368547758075") 1000000000000
             eq_refl eq_refl ltac:(lia)).
  - exact (decimal_times_multiplier_exact (lit "0") (lit "000000000000500000000001") 1000000000000
             eq_refl eq_refl ltac:(lia)).
Defined.

(** * Canonical decimal texts *)

Lemma span_app p a b :
  Forall (fun c => p c = true) a -> (forall c, head b = Some c -> p c = false) ->
  span p (a ++ b) = (a, b).
Proof.
  intros Ha Hb. induction Ha as [|c a Hc _ IH]; cbn.
  - destruct b as [|c b]; [done|]. cbn. by rewrite (Hb c).
  - by rewrite Hc, IH.
Qed.

Lemma span_spec p s a b :
  span p s = (a, b) ->
  s = a ++ b /\ Forall (fun c => p c = true) a /\ (forall c, head b = Some c -> p c = false).
Proof.
  revert a b; induction s as [|c s IH]; intros a b H; cbn in H; [by simplify_eq/=|].
  destruct (p c) eqn:E.
  - destruct (span p s) as [a' b']. injection H as <- <-. destruct (IH a' b' eq_refl) as (-> & Ha & Hb).
    split; [done|]. split; [by constructor|done].
  - simplify_eq. split; [done|]. split; [constructor|]. by intros ? [= <-].
Qed.

Lemma count_char_app c s t : count_char c (s ++ t) = count_char c s + count_char c t.
Proof. unfold count_char. rewrite List.filter_app. apply vec_len_app. Qed.

Lemma count_char_0 c s : c ∉ s -> count_char c s = 0.
Proof.
  unfold count_char. induction s as [|a s IH]; intros H; [done|].
  apply not_elem_of_cons in H as [Hne H]. cbn.
  rewrite (proj2 (Z.eqb_neq c a)) by done. by apply IH.
Qed.

Lemma normalize_decimal_eq whole fraction :
  normalize_decimal_text whole fraction
  = norm_whole whole ++ (if is_empty (norm_fraction fraction) then []
                         else lit "." ++ norm_fraction fraction).
Proof.
  unfold normalize_decimal_text, norm_whole, norm_fraction.
  destruct (is_empty (trim_end_matches 48 fraction)); by rewrite ?app_nil_r.
Qed.

Lemma norm_whole_spec w :
  all_digits w = true ->
  all_digits (norm_whole w) = true /\ norm_whole w <> [] /\
  digits_val (norm_whole w) = digits_val w /\ norm_whole (norm_whole w) = norm_whole w.
Proof.
  intros H. pose proof (all_digits_drop (Z.eqb 48) w H) as Ha.
  pose proof (digits_val_drop_zeros w) as Hv.
  unfold norm_whole. destruct (is_empty (trim_start_matches 48 w)) eqn:E.
  - split; [done|]. split; [done|]. split; [|done].
    rewrite <- Hv. by destruct (trim_start_matches 48 w).
  - assert (Hid : trim_start_matches 48 (trim_start_matches 48 w) = trim_start_matches 48 w).
    { apply drop_while_id. intros c Hc. by apply drop_while_head in Hc. }
    rewrite Hid, E. repeat split; auto. by destruct (trim_start_matches 48 w).
Qed.

Lemma trim_end_matches_spec c s :
  exists n, s = trim_end_matches c s ++ repeat c n.
Proof.
  unfold trim_end_matches. destruct (drop_while_suffix (Z.eqb c) (rev s)) as (l & E & Hl).
  exists (length l). rewrite <- (rev_involutive s) at 1. rewrite E at 1. rewrite rev_app_distr.
  f_equal. clear E. induction Hl as [|a l Ha _ IH]; [done|].
  apply Z.eqb_eq in Ha as <-. cbn [rev length repeat]. rewrite IH. by rewrite <- repeat_cons.
Qed.

Lemma digits_val_zeros n : digits_val (repeat 48 n) = 0.
Proof. induction n as [|n IH]; [done|]. cbn [repeat]. rewrite digits_val_cons, IH. lia. Qed.

Lemma norm_fraction_spec f :
  all_digits f = true ->
  all_digits (norm_fraction f) = true /\ norm_fraction (norm_fraction f) = norm_fraction f /\
  exists t, 0 <= t /\ vec_len f = vec_len (norm_fraction f) + t /\
            digits_val f = digits_val (norm_fraction f) * 10 ^ t.
Proof.
  intros H. unfold norm_fraction. destruct (trim_end_matches_spec 48 f) as [n E].
  split; [|split].
  - rewrite E, all_digits_app in H. by bools.
  - unfold trim_end_matches. rewrite rev_involutive. f_equal. apply drop_while_id.
    intros c Hc. by apply drop_while_head in Hc.
  - exists (Z.of_nat n). split; [lia|]. rewrite E at 1 3. rewrite vec_len_app, digits_val_app.
    rewrite digits_val_zeros. unfold vec_len. rewrite repeat_length. split; [done|lia].
Qed.

Lemma split_decimal_parts w f :
  all_digits w = true -> split_decimal (w ++ (if is_empty f then [] else lit "." ++ f)) = (w, f).
Proof.
  intros Hw. unfold split_decimal. pose proof (digits_not_in 46 w Hw ltac:(lia)) as Hn.
  destruct f as [|c f]; cbn [is_empty].
  - rewrite app_nil_r. by rewrite (proj2 (split_once_None 46 w)).
  - by rewrite (proj2 (split_once_spec 46 (w ++ lit "." ++ c :: f) w (c :: f))).
Qed.

Lemma split_decimal_norm w f :
  all_digits w = true ->
  split_decimal (normalize_decimal_text w f) = (norm_whole w, norm_fraction f).
Proof.
  intros Hw. rewrite normalize_decimal_eq. apply split_decimal_parts. by apply norm_whole_spec.
Qed.

Lemma normalize_decimal_idemp w f :
  all_digits w = true -> all_digits f = true ->
  normalize_decimal_text (norm_whole w) (norm_fraction f) = normalize_decimal_text w f.
Proof.
  intros Hw Hf. rewrite !normalize_decimal_eq.
  destruct (norm_whole_spec w Hw) as (_ & _ & _ & ->).
  by destruct (norm_fraction_spec f Hf) as (_ & -> & _).
Qed.

Lemma count_decimal_norm w f :
  all_digits w = true -> all_digits f = true -> count_char 46 (normalize_decimal_text w f) <= 1.
Proof.
  intros Hw Hf. rewrite normalize_decimal_eq, count_char_app.
  destruct (norm_whole_spec w Hw) as (Hw' & _). destruct (norm_fraction_spec f Hf) as (Hf' & _).
  rewrite (count_char_0 46 (norm_whole w)) by (by apply digits_not_in; [|lia]).
  destruct (is_empty _); [vm_compute; congruence|]. rewrite count_char_app.
  rewrite (count_char_0 46 (norm_fraction f)) by (by apply digits_not_in; [|lia]).
  vm_compute. congruence.
Qed.

Lemma number_chars_norm w f :
  all_digits w = true -> all_digits f = true ->
  Forall (fun c => is_number_char c = true) (normalize_decimal_text w f).
Proof.
  intros Hw Hf. destruct (norm_whole_spec w Hw) as (Hw' & _).
  destruct (norm_fraction_spec f Hf) as (Hf' & _).
  assert (G : forall s, all_digits s = true -> Forall (fun c => is_number_char c = true) s).
  { intros s Hs. unfold all_digits in Hs. rewrite forallb_forall in Hs.
    apply List.Forall_forall. intros c Hc. unfold is_number_char. by rewrite Hs. }
  rewrite normalize_decimal_eq. apply Forall_app; split; [auto|].
  destruct (is_empty _); [constructor|]. apply Forall_app; split; [|auto].
  by constructor.
Qed.

Lemma round_half_up_scale N k t m :
  0 <= k -> 0 <= t -> round_half_up (N * 10 ^ t) (k + t) m = round_half_up N k m.
Proof.
  intros. unfold round_half_up. rewrite Z.pow_add_r by lia.
  assert (0 < 10 ^ t) by (apply Z.pow_pos_nonneg; lia).
  assert (0 < 10 ^ k) by (apply Z.pow_pos_nonneg; lia).
  rewrite <- (Z.div_mul_cancel_r (2 * N * m + 10 ^ k) (2 * 10 ^ k) (10 ^ t)) by lia.
  f_equal; ring.
Qed.

(** * Lengths *)

Lemma vec_len_le_str_len s : vec_len s <= str_len s.
Proof.
  unfold vec_len, str_len, as_bytes. induction s as [|c s IH]; [done|].
  cbn [map concat length]. rewrite length_app.
  assert (1 <= length (utf8_char c))%nat; [|lia].
  unfold utf8_char. repeat case_match; cbn; lia.
Qed.

Lemma str_len_app s t : str_len (s ++ t) = str_len s + str_len t.
Proof. unfold str_len. rewrite as_bytes_app, length_app. lia. Qed.

Lemma str_len_ascii s : Forall (fun c => c < 128) s -> str_len s = vec_len s.
Proof. intros H. unfold str_len. by rewrite as_bytes_ascii. Qed.

Lemma vec_len_drop p s : vec_len (drop_while p s) <= vec_len s.
Proof.
  destruct (drop_while_suffix p s) as (l & E & _). rewrite E at 2. rewrite vec_len_app.
  pose proof (vec_len_nonneg l). lia.
Qed.

Lemma vec_len_rev {A} (s : list A) : vec_len (rev s) = vec_len s.
Proof. unfold vec_len. by rewrite length_rev. Qed.

Lemma vec_len_trim s : vec_len (trim s) <= vec_len s.
Proof.
  unfold trim, trim_end, trim_start. rewrite vec_len_rev.
  etransitivity; [apply vec_len_drop|]. rewrite vec_len_rev. apply vec_len_drop.
Qed.

Lemma norm_whole_len w : w <> [] -> vec_len (norm_whole w) <= vec_len w.
Proof.
  intros Hw. unfold norm_whole. destruct (is_empty _) eqn:E; [|apply vec_len_drop].
  destruct w as [|c w]; [done|]. rewrite vec_len_cons. pose proof (vec_len_nonneg w).
  change (vec_len (lit "0")) with 1. lia.
Qed.

Lemma split_decimal_inv s w f :
  split_decimal s = (w, f) -> s = w ++ (if contains_char 46 s then lit "." ++ f else [])
  /\ (contains_char 46 s = false -> f = []).
Proof.
  unfold split_decimal. destruct (split_once 46 s) as [[a b]|] eqn:E; cbn [default];
    intros [= <- <-].
  - apply split_once_spec in E as [-> _].
    assert (contains_char 46 (a ++ 46 :: b) = true) as ->.
    { apply contains_char_spec. apply elem_of_app. right. by left. }
    done.
  - apply split_once_None in E.
    destruct (contains_char 46 s) eqn:C; [by apply contains_char_spec in C|].
    by rewrite app_nil_r.
Qed.

Lemma normalize_decimal_len s w f :
  split_decimal s = (w, f) -> w <> [] -> all_digits w = true -> all_digits f = true ->
  vec_len (normalize_decimal_text w f) <= vec_len s.
Proof.
  intros Hs Hw Dw Df. destruct (split_decimal_inv _ _ _ Hs) as [E H0].
  pose proof (norm_whole_len w Hw) as Lw.
  destruct (norm_fraction_spec f Df) as (_ & _ & t & Ht & Lf & _).
  rewrite normalize_decimal_eq, vec_len_app. rewrite E.
  destruct (contains_char 46 s) eqn:C.
  - rewrite !vec_len_app. change (vec_len (lit ".")) with 1.
    pose proof (vec_len_nonneg (norm_fraction f)).
    destruct (is_empty (norm_fraction f)); [change (vec_len (@nil Z)) with 0|rewrite vec_len_app;
      change (vec_len (lit ".")) with 1]; lia.
  - rewrite (H0 eq_refl), (app_nil_r w). change (norm_fraction []) with (@nil Z).
    cbn [is_empty]. change (vec_len (@nil Z)) with 0. lia.
Qed.

(** * Quotas are canonical *)

Lemma nonzero_digit s :
  all_digits s = true -> existsb (fun digit => negb (digit =? 48)) s = negb (digits_val s =? 0).
Proof.
  induction s as [|c s IH]; [done|]. intros H. pose proof (all_digits_head _ _ H).
  cbn in H. bools. cbn [existsb]. rewrite IH, digits_val_cons by done.
  pose proof (digits_val_nonneg s ltac:(done)). pose proof (pow10_pos s).
  destruct (Z.eqb_spec c 48) as [->|Hne]; cbn [negb orb]; [by rewrite Z.sub_diag|].
  destruct (Z.eqb_spec ((c - 48) * 10 ^ vec_len s + digits_val s) 0); [nia|done].
Qed.

Lemma norm_decimal_val w f :
  all_digits w = true -> all_digits f = true ->
  exists t, 0 <= t /\ vec_len f = vec_len (norm_fraction f) + t /\
    digits_val (w ++ f) = digits_val (norm_whole w ++ norm_fraction f) * 10 ^ t.
Proof.
  intros Hw Hf. destruct (norm_fraction_spec f Hf) as (_ & _ & t & Ht & L & V).
  exists t. split; [done|]. split; [done|]. rewrite !digits_val_app, L, V.
  destruct (norm_whole_spec w Hw) as (_ & _ & -> & _).
  rewrite Z.pow_add_r by (apply vec_len_nonneg || done). ring.
Qed.

Lemma norm_decimal_scaled w f m :
  all_digits w = true -> all_digits f = true -> 0 < m <= 1099511627776 ->
  checked_decimal_times_multiplier (norm_whole w) (norm_fraction f) m
  = checked_decimal_times_multiplier w f m.
Proof.
  intros Hw Hf Hm. destruct (norm_whole_spec w Hw) as (Hw' & _).
  destruct (norm_fraction_spec f Hf) as (Hf' & _).
  rewrite !decimal_exact by done.
  destruct (norm_decimal_val w f Hw Hf) as (t & Ht & -> & ->).
  by rewrite round_half_up_scale by (apply vec_len_nonneg || done).
Qed.

Lemma byte_size_unit_spec suffix unit m :
  byte_size_unit suffix = Some (unit, m) ->
  to_ascii_lowercase (trim unit) = suffix /\ 0 < m <= 1099511627776 /\
  Forall (fun c => c < 128 /\ is_number_char c = false /\ is_whitespace c = false) unit /\
  unit <> lit "-1".
Proof.
  unfold byte_size_unit. intros H.
  repeat (case_match; [match goal with E : str_eqb _ _ = true |- _ => apply str_eqb_eq in E end;
    simplify_eq; split; [done|split; [lia|split; [repeat constructor|done]]]|]).
  done.
Qed.

Ltac inv_ensure :=
  repeat (inv_bind; match goal with
  | H : ensure ?c _ = Ok _ |- _ =>
      let E := fresh "G" in destruct c eqn:E; cbn [ensure] in H; [clear H|discriminate H]
  | H : or_code ?o _ = Ok _ |- _ =>
      let E := fresh "O" in destruct o eqn:E; cbn [or_code ok_or] in H;
      [injection H as ?; subst|discriminate H]
  | H : (let '(_, _) := ?x in _) = Ok _ |- _ =>
      let E := fresh "P" in destruct x eqn:E; try (injection E as ?; subst)
  end); inv_bind; simplify_eq; repeat match goal with u : () |- _ => clear u end.

Ltac destruct_units := repeat match goal with u : () |- _ => destruct u end.

Lemma not_empty {A} (s : list A) : negb (is_empty s) = true <-> s <> [].
Proof. by destruct s. Qed.

Lemma number_char_not_ws c : is_number_char c = true -> is_whitespace c = false /\ c < 128.
Proof.
  unfold is_number_char, is_ascii_digit, is_whitespace, in_range. intros H.
  apply orb_prop in H. split; [|destruct H; bools; lia].
  repeat rewrite orb_false_iff. rewrite !andb_false_iff, !Z.eqb_neq, !Z.leb_gt.
  destruct H; bools; lia.
Qed.

(** A canonical number followed by a canonical unit is parsed as such. *)
Lemma parse_byte_size_canonical w f unit m bytes :
  w <> [] -> all_digits w = true -> all_digits f = true -> digits_val (w ++ f) <> 0 ->
  byte_size_unit (to_ascii_lowercase (trim unit)) = Some (unit, m) ->
  Forall (fun c => is_number_char c = false /\ is_whitespace c = false) unit ->
  0 < m <= 1099511627776 -> checked_decimal_times_multiplier w f m = Ok bytes ->
  let c := normalize_decimal_text w f ++ unit in
  trim c = c /\ c <> [] /\ parse_byte_size c = Ok (bytes, c).
Proof.
  intros Hw Dw Df Hnz Hu Huc Hm Hb c.
  destruct (norm_whole_spec w Dw) as (Dw' & Nw' & _).
  destruct (norm_fraction_spec f Df) as (Df' & _).
  assert (Hn : Forall (fun c => is_number_char c = true) (normalize_decimal_text w f))
    by (by apply number_chars_norm).
  assert (Hne : c <> []).
  { unfold c. rewrite normalize_decimal_eq. intros E%app_nil. destruct E as [E _].
    apply app_nil in E. naive_solver. }
  assert (Ht : trim c = c).
  { apply trim_no_ws, Forall_app; split; eapply Forall_impl; try eassumption; cbn; intros x Hx;
      [by apply number_char_not_ws|naive_solver]. }
  split; [done|]. split; [done|].
  unfold parse_byte_size. rewrite Ht, (proj2 (not_empty c)) by done. cbn [ensure mbind result_bind].
  unfold c at 1. rewrite span_app; [|done|].
  2: { intros x Hx. exact (proj1 (head_Forall _ _ _ Huc Hx)). }
  rewrite Hu. cbn [or_code ok_or mbind result_bind]. rewrite split_decimal_norm by done.
  rewrite (proj2 (not_empty _) Nw'), Dw', Df', (proj2 (Z.leb_le _ 1)) by (by apply count_decimal_norm).
  cbn [andb ensure mbind result_bind]. rewrite !digits_as_bytes by done.
  rewrite nonzero_digit by (by rewrite all_digits_app, Dw', Df').
  destruct (norm_decimal_val w f Dw Df) as (t & _ & _ & Ev).
  rewrite (proj2 (Z.eqb_neq _ 0)) by (intros E0; rewrite E0 in Ev; lia).
  cbn [negb ensure mbind result_bind]. rewrite norm_decimal_scaled, Hb by done.
  cbn [mbind result_bind]. by rewrite normalize_decimal_idemp.
Qed.

Lemma byte_size_canonical input bytes c :
  parse_byte_size input = Ok (bytes, c) ->
  parse_byte_size c = Ok (bytes, c) /\ trim c = c /\ c <> [] /\ c <> lit "-1" /\
  str_len c <= str_len input.
Proof.
  unfold parse_byte_size at 1. intros H. inv_ensure.
  rename l into number, l0 into rest, l1 into unit, z into m, l2 into w, l3 into f.
  destruct (byte_size_unit_spec _ _ _ O) as (Hlow & Hm & Hunit & _).
  bools. apply (f_equal negb) in H. apply not_empty in H. rename H into Hw.
  rewrite !digits_as_bytes in G0 by done.
  rewrite nonzero_digit in G0 by (rewrite all_digits_app; by apply andb_true_intro). bools.
  destruct (parse_byte_size_canonical w f unit m bytes) as (Ht & Hne & Hp); try done.
  { by rewrite Hlow. }
  { eapply Forall_impl; [exact Hunit|]. naive_solver. }
  split; [done|]. split; [done|]. split; [done|].
  pose proof (number_chars_norm w f ltac:(done) ltac:(done)) as Hn. split.
  - destruct (norm_whole_spec w ltac:(done)) as (_ & Nw & _). intros E.
    rewrite normalize_decimal_eq in E, Hn. destruct (norm_whole w) as [|x s]; [done|].
    injection E as -> _. apply Forall_cons_iff in Hn as [Hn _]. by vm_compute in Hn.
  - rewrite str_len_ascii.
    2: { apply Forall_app; split; eapply Forall_impl; try eassumption; cbn; intros x Hx;
           [by apply number_char_not_ws|naive_solver]. }
    apply span_spec in P as (Et & _).
    pose proof (normalize_decimal_len _ _ _ P1 Hw ltac:(done) ltac:(done)) as Ln.
    pose proof (vec_len_trim input). rewrite Et, vec_len_app in *.
    pose proof (vec_len_trim rest). pose proof (vec_len_le_str_len input).
    apply (f_equal vec_len) in Hlow. unfold to_ascii_lowercase, vec_len in Hlow.
    rewrite !length_map in Hlow. fold (vec_len (trim unit)) (vec_len (trim rest)) in Hlow.
    rewrite (trim_no_ws unit) in Hlow by (eapply Forall_impl; [exact Hunit|naive_solver]).
    lia.
Qed.

Lemma quota_canonical input p :
  str_len input <= MAX_VPS_RULE_VALUE_BYTES ->
  parse_traffic_quota input = Ok p -> fixed_point parse_traffic_quota p.
Proof.
  unfold parse_traffic_quota at 1. intros Hl H. destruct (str_eqb input (lit "-1")).
  - simplify_eq. by vm_compute.
  - inv_ensure. destruct (byte_size_canonical _ _ _ E) as (Hp & Ht & Hne & Hm & Hlen).
    unfold fixed_point, parse_traffic_quota. cbn [raw].
    rewrite (proj2 (str_eqb_neq _ _) Hm), Hp. repeat split; [done|done|lia].
Qed.

(** * Reset days and billing cycles: finitely many canonical texts *)

Lemma in_z_range lo hi v : lo <= v <= hi -> In v (z_range lo hi).
Proof.
  intros H. unfold z_range. apply in_map_iff. exists (Z.to_nat (v - lo)).
  split; [lia|]. apply in_seq. lia.
Qed.

(** Two functions agree on a computed finite domain. *)
Lemma agree_on {A B} (f g : A -> B) l a : map f l = map g l -> In a l -> f a = g a.
Proof. intros H. by apply ext_in_map. Qed.

Lemma fixed_point_observe parse p :
  observe parse p = (Ok p, raw p, false, true) -> fixed_point parse p.
Proof.
  unfold observe. intros [= H1 H2 H3 H4]. unfold fixed_point. repeat split; auto.
  - by destruct (raw p).
  - by apply Z.leb_le.
Qed.

Lemma reset_canonical_all :
  map (fun dh => observe parse_traffic_reset_day (reset_value dh)) reset_domain
  = map (fun dh => (Ok (reset_value dh), raw (reset_value dh), false, true)) reset_domain.
Proof. vm_compute. reflexivity. Qed.

Lemma reset_hour_bounds time hour : parse_reset_hour time = Ok hour -> 0 <= hour <= 23.
Proof.
  unfold parse_reset_hour. intros H. repeat case_match; try done. inv_ensure.
  unfold in_range in *. bools. lia.
Qed.

Lemma reset_day_canonical input p :
  parse_traffic_reset_day input = Ok p -> fixed_point parse_traffic_reset_day p.
Proof.
  unfold parse_traffic_reset_day at 1. intros H. inv_ensure.
  match type of H with (if ?d =? -1 then _ else _) = _ =>
    rename d into day; destruct (Z.eqb_spec day (-1)) as [Hd|Hd]; inv_ensure end.
  - by vm_compute.
  - rename a into hour.
    assert (Hh : 0 <= hour <= 23).
    { destruct (split_whitespace input !! 1%nat); [by eapply reset_hour_bounds|].
      simplify_eq. lia. }
    apply (fixed_point_observe _ (reset_value (day, hour))).
    apply (agree_on _ _ _ (day, hour) reset_canonical_all), in_prod; apply in_z_range; [|lia].
    unfold in_range in *. cbn [orb] in *. bools. lia.
Qed.

Lemma cycle_canonical_all :
  map (fun dm => observe parse_billing_cycle (cycle_value dm)) (List.filter cycle_valid cycle_domain)
  = map (fun dm => (Ok (cycle_value dm), raw (cycle_value dm), false, true))
      (List.filter cycle_valid cycle_domain).
Proof. vm_compute. reflexivity. Qed.

Lemma billing_day_bounds s v : parse_billing_day s = Ok v -> 1 <= v <= 31.
Proof. unfold parse_billing_day. intros H. inv_ensure. unfold in_range in *. bools. lia. Qed.

Lemma billing_month_bounds s v : parse_billing_month s = Ok v -> 1 <= v <= 12.
Proof. unfold parse_billing_month. intros H. inv_ensure. unfold in_range in *. bools. lia. Qed.

Lemma billing_cycle_canonical input p :
  parse_billing_cycle input = Ok p -> fixed_point parse_billing_cycle p.
Proof.
  unfold parse_billing_cycle at 1. intros H. inv_ensure. rename z into day, o into month.
  assert (Hd : 1 <= day <= 31 /\ forall m, month = Some m -> 1 <= m <= 12).
  { destruct (split_once 45 input) as [[m d]|]; inv_ensure.
    - apply billing_day_bounds in E1. apply billing_month_bounds in E2. naive_solver.
    - apply billing_day_bounds in E1. naive_solver. }
  destruct Hd as [Hd Hmonth]. apply (fixed_point_observe _ (cycle_value (day, month))).
  apply (agree_on _ _ _ (day, month) cycle_canonical_all), filter_In. split.
  - apply in_prod; [by apply in_z_range|]. destruct month as [m|]; [right|by left].
    apply in_map, in_z_range. naive_solver.
  - destruct month as [m|]; [|done]. unfold cycle_valid, ensure in *. cbn.
    by destruct (day <=? maximum_day m).
Qed.
