(* ===== verification/VpsSelectors.v ===== *)
(** Lists in the VPS rules of [VpsRules]: product names, interface patterns and
    traffic selectors.  Canonical texts are fixed points of their parsers, an
    accepted selector list never counts a direction of an interface twice, and
    an interface policy survives the round trip through its stored JSON. *)

From S2P Require Import Prelude RustStd F64 Json VpsRules VpsDecimal.

Open Scope Z_scope.

#[local] Arguments lit : simpl never.
#[local] Arguments str_eqb : simpl never.

(** * Reference definitions *)

(** A word: not empty and free of white space. *)
Definition word (w : str) : Prop := w <> [] /\ Forall (fun c => is_whitespace c = false) w.

Definition pattern_ok (p : str) : Prop :=
  validate_network_interface_pattern p = Ok tt /\ p <> lit "*".

Definition DIRECTIONS : list str := [lit "rx"; lit "tx"; lit "total"; lit "tx/rx"].

Definition interface_ok (i : str) : Prop :=
  i <> [] /\ str_len i <= MAX_TRAFFIC_INTERFACE_BYTES /\ 42 ∉ i /\
  Forall (fun c => interface_char_rejected c = false) i.

Definition selector_ok (sel : TrafficSelector) : Prop :=
  (ts_source sel = lit "host" \/ ts_source sel = lit "tunnel") /\
  interface_ok (ts_interface sel) /\ In (ts_direction sel) DIRECTIONS /\
  ts_canonical sel = canonical_selector (ts_source sel) (ts_interface sel) (ts_direction sel).

(** The text after the optional source of a canonical selector. *)
Definition direction_suffix (d : str) : str := if str_eqb d (lit "total") then [] else lit "+" ++ d.

Definition source_prefix (s : str) : str := if str_eqb s (lit "host") then [] else s ++ lit ":".

Definition selector_key (sel : TrafficSelector) : str * str := (ts_source sel, ts_interface sel).

(** Two selectors do not count the same direction of the same interface. *)
Definition directions_disjoint (a b : TrafficSelector) : Prop :=
  selector_key a = selector_key b ->
  Z.land (traffic_selector_direction_mask a) (traffic_selector_direction_mask b) = 0.

(** The directions a list selects for one interface. *)
Definition selected_union (key : str * str) (sels : list TrafficSelector) : Z :=
  foldr (fun s acc => if decide (selector_key s = key)
                      then Z.lor (traffic_selector_direction_mask s) acc else acc) 0 sels.

(** The loop state after the selectors [sels]. *)
Definition acc_of (acc : selector_acc) (sels : list TrafficSelector) : Prop :=
  (forall c, c ∈ sa_seen acc <-> c ∈ map ts_canonical sels) /\
  (forall key, default 0 (sa_directions acc !! key) = selected_union key sels).

(** * Joined lists *)

Lemma join_first sep ws : ws <> [] -> exists w l, join sep ws = w ++ l /\ In w ws.
Proof.
  intros H. destruct ws as [|w [|w' ws]]; [done| |].
  - exists w, []. rewrite app_nil_r. split; [done|by left].
  - exists w. eexists. split; [done|by left].
Qed.

Lemma join_last sep ws : ws <> [] -> exists l w, join sep ws = l ++ w /\ In w ws.
Proof.
  induction ws as [|w ws IH]; intros H; [done|]. destruct ws as [|w' ws].
  - exists [], w. split; [done|by left].
  - destruct IH as (l & v & E & Hin); [done|]. rewrite join_cons, E by done.
    exists (w ++ sep ++ l), v. rewrite <- !app_assoc. split; [done|by right].
Qed.

Lemma trim_join sep ws :
  ws <> [] -> Forall word ws -> trim (join sep ws) = join sep ws /\ join sep ws <> [].
Proof.
  intros Hne Hw. rewrite List.Forall_forall in Hw.
  destruct (join_first sep ws Hne) as (w & l & E1 & Hin).
  destruct (join_last sep ws Hne) as (l' & v & E2 & Hin').
  destruct (Hw w Hin) as [Hwne Hwf]. destruct (Hw v Hin') as [Hvne Hvf]. split.
  - apply trim_id; intros c Hc.
    + rewrite E1 in Hc. destruct w as [|a w]; [done|]. apply (head_Forall _ _ _ Hwf Hc).
    + rewrite E2, rev_app_distr in Hc. apply Forall_rev in Hvf.
      destruct (rev v) as [|a r] eqn:Er; [|apply (head_Forall _ _ _ Hvf Hc)].
      by rewrite <- (rev_involutive v), Er in Hvne.
  - rewrite E1. by destruct w.
Qed.

Lemma str_len_join sep ws B :
  str_len sep <= 1 -> Forall (fun w => str_len w <= B) ws ->
  str_len (join sep ws) <= vec_len ws * (B + 1).
Proof.
  intros Hs. induction 1 as [|w ws Hw Hws IH]; [done|].
  rewrite vec_len_cons. destruct ws as [|w' ws].
  - change (join sep [w]) with w. change (vec_len (@nil str)) with 0. lia.
  - rewrite join_cons by done. rewrite !str_len_app. lia.
Qed.

(** * Product names *)

Lemma split_ws_go_word cur w s :
  Forall (fun c => is_whitespace c = false) w ->
  split_ws_go cur (w ++ s) = split_ws_go (cur ++ w) s.
Proof.
  intros H. revert cur. induction H as [|c w Hc _ IH]; intros cur; cbn; [by rewrite app_nil_r|].
  rewrite Hc, IH. by rewrite <- app_assoc.
Qed.

Lemma split_ws_words s cur :
  Forall (fun c => is_whitespace c = false) cur -> Forall word (split_ws_go cur s).
Proof.
  revert cur; induction s as [|c s IH]; intros cur Hc; cbn.
  - destruct cur; cbn; [constructor|]. constructor; [done|constructor].
  - destruct (is_whitespace c) eqn:E.
    + destruct cur; cbn; [by apply IH|]. constructor; [done|by apply IH].
    + apply IH. apply Forall_app; split; [done|by repeat constructor].
Qed.

Lemma split_whitespace_join ws : Forall word ws -> split_whitespace (join (lit " ") ws) = ws.
Proof.
  unfold split_whitespace. induction 1 as [|w ws [Hne Hw] Hws IH]; [done|].
  destruct ws as [|w' ws].
  - change (join (lit " ") [w]) with w. rewrite <- (app_nil_r w) at 1.
    rewrite split_ws_go_word by done. cbn. by destruct w.
  - rewrite join_cons, split_ws_go_word by done. cbn [app lit].
    change (split_ws_go w (32 :: join (lit " ") (w' :: ws)) = w :: w' :: ws).
    cbn [split_ws_go]. change (is_whitespace 32) with true. cbn iota.
    rewrite IH. by destruct w.
Qed.

Lemma product_name_canonical input p :
  parse_product_name input = Ok p -> fixed_point parse_product_name p.
Proof.
  unfold parse_product_name at 1. intros H. inv_ensure.
  pose proof (split_ws_words input [] (Forall_nil_2 _)) as Hw.
  fold (split_whitespace input) in Hw. set (ws := split_whitespace input) in *.
  assert (Hne : ws <> []) by (by intros E; rewrite E in G1).
  destruct (trim_join (lit " ") ws Hne Hw) as [Ht Hj].
  unfold fixed_point, parse_product_name. cbn [raw].
  rewrite split_whitespace_join, G, G0, G1 by done. cbn [ensure mbind result_bind].
  bools. unfold MAX_PRODUCT_NAME_BYTES, MAX_VPS_RULE_VALUE_BYTES in *. repeat split; [done|done|lia].
Qed.

(** * Interface patterns *)

Lemma pattern_fold items out seen out' seen' :
  try_fold interface_pattern_step (out, seen) items = Ok (out', seen') ->
  let ps := map trim items in
  out' = out ++ ps /\ Forall pattern_ok ps /\ NoDup ps /\ (forall p, p ∈ ps -> p ∉ seen).
Proof.
  revert out seen. induction items as [|item items IH]; intros out seen H; cbn in H.
  - simplify_eq. cbn. rewrite app_nil_r. repeat split; [constructor|constructor|].
    by intros p Hp%not_elem_of_nil.
  - inv_ensure. apply IH in H as (-> & Hok & Hnd & Hfresh). bools.
    cbn [map]. rewrite <- app_assoc. split; [done|]. split; [|split].
    + constructor; [|done]. split; [by destruct_units|by apply str_eqb_neq].
    + constructor; [|done]. intros Hin. apply (Hfresh _ Hin). set_solver.
    + intros p [->|Hin]%elem_of_cons; [done|]. specialize (Hfresh p Hin). set_solver.
Qed.

Lemma pattern_fold_ok items out seen :
  map trim items = items -> Forall pattern_ok items -> NoDup items ->
  (forall p, p ∈ items -> p ∉ seen) ->
  exists seen', try_fold interface_pattern_step (out, seen) items = Ok (out ++ items, seen').
Proof.
  revert out seen. induction items as [|p items IH]; intros out seen Ht Hok Hnd Hfresh.
  - exists seen. cbn. by rewrite app_nil_r.
  - cbn [map] in Ht. injection Ht as Hp Ht. apply Forall_cons_iff in Hok as [[Hv Hs] Hok].
    apply NoDup_cons in Hnd as [Hn Hnd].
    destruct (IH (out ++ [p]) ({[p]} ∪ seen)) as [seen' E]; try done.
    { intros q Hq. specialize (Hfresh q). set_solver. }
    exists seen'. cbn. rewrite Hp, Hv. cbn [mbind result_bind].
    rewrite (proj2 (str_eqb_neq _ _) Hs). cbn [negb ensure mbind result_bind].
    rewrite bool_decide_eq_true_2 by (apply Hfresh; by left). cbn [ensure mbind result_bind].
    rewrite E. by rewrite <- app_assoc.
Qed.

Lemma interface_char_allowed c :
  interface_char_rejected c = false ->
  c <> 44 /\ c <> 43 /\ c <> 58 /\ is_whitespace c = false /\ is_control c = false.
Proof. unfold interface_char_rejected. intros H. bools. repeat split; done. Qed.

Lemma existsb_false_Forall {A} (f : A -> bool) l :
  existsb f l = false -> Forall (fun x => f x = false) l.
Proof. intros H. apply List.Forall_forall. intros x Hx. by apply (existsb_false f l). Qed.

Lemma pattern_ok_word p :
  pattern_ok p -> word p /\ 44 ∉ p /\ str_len p <= MAX_TRAFFIC_INTERFACE_BYTES.
Proof.
  intros [Hv _]. unfold validate_network_interface_pattern, ensure in Hv.
  destruct (_ && _) eqn:E in Hv; [|done]. bools.
  match goal with H : existsb _ _ = false |- _ => apply existsb_false_Forall in H; rename H into Hc end.
  repeat split.
  - by destruct p.
  - eapply Forall_impl; [exact Hc|]. intros c Hr. apply interface_char_allowed in Hr. naive_solver.
  - intros Hin. rewrite list.Forall_forall in Hc. apply Hc, interface_char_allowed in Hin. naive_solver.
  - done.
Qed.

(** Joining accepted patterns gives them back, in order. *)
Lemma patterns_join ps :
  ps <> [] -> vec_len ps <= MAX_TRAFFIC_SELECTOR_ITEMS -> Forall pattern_ok ps -> NoDup ps ->
  parse_network_interface_patterns (join (lit ",") ps) = Ok ps.
Proof.
  intros Hne Hlen Hok Hnd. unfold parse_network_interface_patterns. rewrite split_join; [|done|].
  2: { eapply Forall_impl; [exact Hok|]. intros p Hp. by apply pattern_ok_word in Hp as (_ & ? & _). }
  destruct (pattern_fold_ok ps [] ∅) as [seen E]; [|done|done|by intros p _; apply not_elem_of_empty|].
  { rewrite <- (map_id ps) at 2. apply map_ext_in. intros p Hp. apply trim_no_ws.
    rewrite List.Forall_forall in Hok. by apply Hok, pattern_ok_word in Hp as ([_ ?] & _). }
  rewrite E. cbn [mbind result_bind fst app].
  by rewrite (proj2 (not_empty ps)), (proj2 (Z.leb_le _ _)).
Qed.

Lemma patterns_of_input input ps :
  parse_network_interface_patterns input = Ok ps ->
  ps <> [] /\ vec_len ps <= MAX_TRAFFIC_SELECTOR_ITEMS /\ Forall pattern_ok ps /\ NoDup ps.
Proof.
  unfold parse_network_interface_patterns. intros H. inv_ensure. bools.
  destruct a as [qs seen]. apply pattern_fold in E as (-> & Hok & Hnd & _).
  cbn [fst app] in *. repeat split; try done.
  by apply not_empty, negb_true_iff.
Qed.

Lemma interfaces_canonical input p :
  parse_network_interfaces input = Ok p -> fixed_point parse_network_interfaces p.
Proof.
  unfold parse_network_interfaces at 1. intros H. destruct (str_eqb input (lit "*")).
  { simplify_eq. by vm_compute. }
  inv_ensure. apply patterns_of_input in E as (Hne & Hlen & Hok & Hnd). rename a into ps.
  assert (Hw : Forall word ps).
  { eapply Forall_impl; [exact Hok|]. intros p Hp. by apply pattern_ok_word in Hp as (? & _). }
  destruct (trim_join (lit ",") ps Hne Hw) as [Ht Hj].
  unfold fixed_point, parse_network_interfaces. cbn [raw].
  replace (str_eqb (join (lit ",") ps) (lit "*")) with false.
  2: { symmetry. apply str_eqb_neq. intros E.
       pose proof (patterns_join ps Hne Hlen Hok Hnd) as Hp. rewrite E in Hp.
       by vm_compute in Hp. }
  rewrite patterns_join by done. cbn [mbind result_bind]. split; [done|]. split; [done|].
  split; [done|].
  etransitivity; [apply (str_len_join _ _ MAX_TRAFFIC_INTERFACE_BYTES); [by vm_compute|]|].
  - eapply Forall_impl; [exact Hok|]. intros p Hp. by apply pattern_ok_word in Hp as (_ & _ & ?).
  - unfold MAX_TRAFFIC_INTERFACE_BYTES, MAX_TRAFFIC_SELECTOR_ITEMS, MAX_VPS_RULE_VALUE_BYTES in *. lia.
Qed.

(** * Traffic selectors *)

Lemma parse_direction_spec d d' : parse_direction d = Ok d' -> In d' DIRECTIONS.
Proof. unfold parse_direction, DIRECTIONS. intros H. repeat case_match; simplify_eq; cbn; tauto. Qed.

Lemma parse_direction_id d : In d DIRECTIONS -> parse_direction d = Ok d.
Proof. intros [<-|[<-|[<-|[<-|[]]]]]; by vm_compute. Qed.

Lemma parse_selector_ok item sel : parse_traffic_selector item = Ok sel -> selector_ok sel.
Proof.
  unfold parse_traffic_selector. intros H. inv_ensure. bools.
  unfold selector_ok. cbn [ts_source ts_interface ts_direction ts_canonical].
  split; [|split; [|split; [by eapply parse_direction_spec|done]]].
  - destruct (split_once 58 (trim item)) as [[s r]|]; inv_ensure; [|by left].
    match goal with Hs : _ || _ = true |- _ =>
      apply orb_prop in Hs; destruct Hs as [Hs|Hs]; apply str_eqb_eq in Hs; tauto end.
  - split; [by apply not_empty, negb_true_iff|]. split; [done|]. split.
    + intros Hin%contains_char_spec. congruence.
    + by apply existsb_false_Forall.
Qed.

Lemma interface_ok_facts i :
  interface_ok i ->
  43 ∉ i /\ 44 ∉ i /\ 58 ∉ i /\ Forall (fun c => is_whitespace c = false) i /\
  negb (is_empty i) = true /\ (str_len i <=? MAX_TRAFFIC_INTERFACE_BYTES) = true /\
  negb (contains_char 42 i) = true /\ negb (existsb interface_char_rejected i) = true.
Proof.
  intros (Hne & Hl & H42 & Hc). pose proof Hc as Hc'. rewrite list.Forall_forall in Hc'.
  repeat split.
  1-3: intros Hin%Hc'%interface_char_allowed; naive_solver.
  - eapply Forall_impl; [exact Hc|]. intros c Hr%interface_char_allowed. naive_solver.
  - by apply not_empty.
  - by apply Z.leb_le.
  - apply negb_true_iff. destruct (contains_char 42 i) eqn:E; [|done].
    by apply contains_char_spec in E.
  - apply negb_true_iff. destruct (existsb _ i) eqn:E; [|done].
    apply existsb_exists in E as (c & Hin & Hr). apply list_elem_of_In, Hc' in Hin. congruence.
Qed.

Lemma canonical_selector_eq s i d :
  canonical_selector s i d = source_prefix s ++ i ++ direction_suffix d.
Proof.
  unfold canonical_selector, source_prefix, direction_suffix.
  destruct (str_eqb s (lit "host")), (str_eqb d (lit "total")); cbn [app];
    by rewrite ?app_nil_r, <- ?app_assoc.
Qed.

Lemma direction_suffix_chars d :
  In d DIRECTIONS ->
  Forall (fun c => is_whitespace c = false /\ c <> 44 /\ c <> 58) (direction_suffix d)
  /\ str_len (direction_suffix d) <= 6.
Proof.
  intros [<-|[<-|[<-|[<-|[]]]]]; (split; [vm_compute; repeat constructor; congruence|by vm_compute]).
Qed.

Lemma split_direction i d :
  43 ∉ i -> In d DIRECTIONS -> Forall (fun c => is_whitespace c = false) i ->
  match split_once 43 (i ++ direction_suffix d) with
  | Some (interface, direction) => (trim interface, to_ascii_lowercase (trim direction))
  | None => (trim (i ++ direction_suffix d), lit "total")
  end = (i, d).
Proof.
  intros Hn Hd Hw. unfold direction_suffix. destruct (str_eqb d (lit "total")) eqn:E.
  - apply str_eqb_eq in E as ->. rewrite app_nil_r.
    rewrite (proj2 (split_once_None 43 i)) by done. by rewrite trim_no_ws.
  - rewrite (proj2 (split_once_spec 43 (i ++ lit "+" ++ d) i d)) by done.
    rewrite trim_no_ws by done. f_equal.
    destruct Hd as [<-|[<-|[<-|[<-|[]]]]]; by vm_compute.
Qed.

Lemma selector_ok_word sel :
  selector_ok sel ->
  word (ts_canonical sel) /\ 44 ∉ ts_canonical sel /\ str_len (ts_canonical sel) <= 141.
Proof.
  intros (Hs & Hi & Hd & ->). rewrite canonical_selector_eq.
  destruct (interface_ok_facts _ Hi) as (_ & Hi44 & _ & Hiw & _).
  destruct Hi as (Hine & Hil & _). destruct (direction_suffix_chars _ Hd) as [Hdc Hdl].
  assert (Hp : Forall (fun c => is_whitespace c = false /\ c <> 44) (source_prefix (ts_source sel))
    /\ str_len (source_prefix (ts_source sel)) <= 7).
  { destruct Hs as [-> | ->]; (split; [vm_compute; repeat constructor; congruence|by vm_compute]). }
  destruct Hp as [Hpc Hpl]. split; [split|split].
  - intros E%app_nil. destruct E as [_ E%app_nil]. naive_solver.
  - repeat (apply Forall_app; split); [| done |]; (eapply Forall_impl; [eassumption|naive_solver]).
  - rewrite !not_elem_of_app. split; [|split; [done|]]; intros Hin; rewrite list.Forall_forall in *;
      naive_solver.
  - rewrite !str_len_app. unfold MAX_TRAFFIC_INTERFACE_BYTES in *. lia.
Qed.

Lemma parse_canonical_selector sel :
  selector_ok sel -> parse_traffic_selector (ts_canonical sel) = Ok sel.
Proof.
  intros Hok. destruct (selector_ok_word sel Hok) as ([Hne Hw] & _ & _).
  destruct Hok as (Hs & Hi & Hd & Hc).
  destruct (interface_ok_facts _ Hi) as (H43 & _ & H58 & Hiw & Hb1 & Hb2 & Hb3 & Hb4).
  destruct (direction_suffix_chars _ Hd) as [Hdc _].
  unfold parse_traffic_selector. rewrite trim_no_ws, (proj2 (not_empty _) Hne) by done.
  cbn [ensure mbind result_bind]. rewrite Hc, canonical_selector_eq.
  assert (E : match split_once 58 (source_prefix (ts_source sel) ++ ts_interface sel
                                   ++ direction_suffix (ts_direction sel)) with
    | Some (source, rest) =>
        ensure (str_eqb (to_ascii_lowercase (trim source)) (lit "host")
                || str_eqb (to_ascii_lowercase (trim source)) (lit "tunnel"))
          "traffic_selector_source_invalid";;
        Ok (to_ascii_lowercase (trim source), rest)
    | None => Ok (lit "host", source_prefix (ts_source sel) ++ ts_interface sel
                                   ++ direction_suffix (ts_direction sel))
    end = Ok (ts_source sel, ts_interface sel ++ direction_suffix (ts_direction sel))).
  { destruct Hs as [-> | ->].
    - change (source_prefix (lit "host")) with (@nil Z). cbn [app].
      rewrite (proj2 (split_once_None _ _)); [done|]. apply not_elem_of_app. split; [done|].
      intros Hin. rewrite list.Forall_forall in Hdc. naive_solver.
    - rewrite (proj2 (split_once_spec 58 _ (lit "tunnel")
        (ts_interface sel ++ direction_suffix (ts_direction sel)))); [by vm_compute|].
      split; [done|]. apply (bool_decide_unpack _). by vm_compute. }
  rewrite E. cbn [mbind result_bind]. rewrite split_direction by done.
  rewrite Hb1. cbn [ensure mbind result_bind]. rewrite Hb2, Hb3, Hb4.
  cbn [andb ensure mbind result_bind]. rewrite parse_direction_id by done.
  cbn [mbind result_bind]. rewrite <- Hc. by destruct sel.
Qed.

(** The list parser is the fold of [selector_add] over the parsed items. *)
Lemma selector_fold_split items acc acc' :
  try_fold selector_step acc items = Ok acc' <->
  exists sels, Forall2 (fun i s => parse_traffic_selector i = Ok s) items sels /\
               try_fold selector_add acc sels = Ok acc'.
Proof.
  revert acc. induction items as [|i items IH]; intros acc; cbn [try_fold].
  - split; [intros H; exists []; by split; [constructor|]|].
    intros (sels & H & E). inversion H; subst. done.
  - split.
    + intros H. inv_bind. apply IH in H as (sels & Hf & Hs). unfold selector_step in E. inv_bind.
      exists (a0 :: sels). split; [by constructor|]. cbn [try_fold]. by rewrite E.
    + intros (sels & H & E). inversion H as [|? s ? ss Hp Hf]; subst.
      cbn [try_fold] in E. inv_bind.
      assert (selector_step acc i = Ok a) as -> by (unfold selector_step; by rewrite Hp).
      apply IH. naive_solver.
Qed.

Lemma selector_add_list sels acc acc' :
  try_fold selector_add acc sels = Ok acc' -> sa_selectors acc' = sa_selectors acc ++ sels.
Proof.
  revert acc. induction sels as [|s sels IH]; intros acc H; cbn in H.
  - simplify_eq. by rewrite app_nil_r.
  - inv_bind. apply IH in H. rewrite H. unfold selector_add in E. inv_ensure.
    cbn [sa_selectors]. by rewrite <- app_assoc.
Qed.

Lemma selector_list_inv input sels :
  parse_traffic_selector_list input = Ok sels ->
  sels <> [] /\ Forall selector_ok sels /\ vec_len sels <= MAX_TRAFFIC_SELECTOR_ITEMS /\
  exists acc, try_fold selector_add (mkAcc [] ∅ ∅) sels = Ok acc /\ sa_selectors acc = sels.
Proof.
  unfold parse_traffic_selector_list. intros H. inv_ensure.
  apply selector_fold_split in E0 as (sels & Hf & Hadd).
  pose proof (selector_add_list _ _ _ Hadd) as Hl. cbn [sa_selectors app] in Hl. rewrite Hl in *.
  bools. split; [|split; [|split; [done|by eexists]]].
  - intros ->. inversion Hf as [E|]. by apply (split_nonempty 44 (trim input)).
  - clear -Hf. induction Hf; constructor; [by eapply parse_selector_ok|done].
Qed.

Lemma selector_list_canonical input sels :
  parse_traffic_selector_list input = Ok sels ->
  let c := canonical_selector_list sels in
  parse_traffic_selector_list c = Ok sels /\ trim c = c /\ c <> [] /\
  str_len c <= MAX_VPS_RULE_VALUE_BYTES.
Proof.
  intros H. apply selector_list_inv in H as (Hne & Hok & Hlen & acc & Hadd & Hacc).
  cbv zeta. unfold canonical_selector_list. set (cs := map ts_canonical sels).
  assert (Hcs : Forall (fun c => word c /\ 44 ∉ c /\ str_len c <= 141) cs).
  { unfold cs. apply Forall_map. eapply Forall_impl; [exact Hok|]. apply selector_ok_word. }
  assert (Hcne : cs <> []) by (unfold cs; by destruct sels).
  destruct (trim_join (lit ",") cs Hcne) as [Ht Hj].
  { eapply Forall_impl; [exact Hcs|]. naive_solver. }
  split; [|split; [done|split; [done|]]].
  - unfold parse_traffic_selector_list. rewrite Ht, (proj2 (not_empty _) Hj).
    cbn [ensure mbind result_bind]. rewrite split_join; [|done|].
    2: { eapply Forall_impl; [exact Hcs|]. naive_solver. }
    rewrite (proj2 (selector_fold_split cs _ acc)).
    2: { exists sels. split; [|done]. unfold cs. clear -Hok.
         induction Hok; cbn; constructor; [by apply parse_canonical_selector|done]. }
    cbn [mbind result_bind]. rewrite Hacc, (proj2 (Z.leb_le _ _)) by done. done.
  - etransitivity; [apply (str_len_join _ _ 141); [by vm_compute|]|].
    + eapply Forall_impl; [exact Hcs|]. naive_solver.
    + unfold cs, vec_len, MAX_TRAFFIC_SELECTOR_ITEMS, MAX_VPS_RULE_VALUE_BYTES in *.
      rewrite length_map. lia.
Qed.

Lemma star_not_selector input sels :
  parse_traffic_selector_list input = Ok sels -> canonical_selector_list sels <> lit "*".
Proof.
  intros H E. apply selector_list_canonical in H as (H & _). rewrite E in H. by vm_compute in H.
Qed.

Lemma selectors_canonical input p :
  parse_traffic_selectors input = Ok p -> fixed_point parse_traffic_selectors p.
Proof.
  unfold parse_traffic_selectors at 1. intros H. destruct (str_eqb input (lit "*")).
  { simplify_eq. by vm_compute. }
  inv_bind. subst p. pose proof (star_not_selector _ _ E) as Hs.
  apply selector_list_canonical in E as (Hp & Ht & Hne & Hl).
  unfold fixed_point, parse_traffic_selectors. cbn [raw exact_mode].
  rewrite (proj2 (str_eqb_neq _ _) Hs), Hp. done.
Qed.

(** * Disjoint directions *)

Lemma mask_nonneg s : 0 < traffic_selector_direction_mask s.
Proof. unfold traffic_selector_direction_mask. repeat case_match; lia. Qed.

Lemma selected_union_snoc key sels s :
  selected_union key (sels ++ [s])
  = if decide (selector_key s = key)
    then Z.lor (selected_union key sels) (traffic_selector_direction_mask s)
    else selected_union key sels.
Proof.
  induction sels as [|a sels IH]; cbn [app selected_union foldr].
  - case_decide; [|done]. by rewrite Z.lor_0_r.
  - fold (selected_union key (sels ++ [s])) (selected_union key sels). rewrite IH.
    repeat case_decide; try done. by rewrite Z.lor_assoc.
Qed.

Lemma selected_union_nonneg key sels : 0 <= selected_union key sels.
Proof.
  induction sels as [|a sels IH]; [done|]. cbn [selected_union foldr].
  fold (selected_union key sels). case_decide; [|done].
  apply Z.lor_nonneg. pose proof (mask_nonneg a). lia.
Qed.

Lemma selected_union_disjoint s sels :
  Z.land (selected_union (selector_key s) sels) (traffic_selector_direction_mask s) = 0
  <-> Forall (fun a => directions_disjoint a s) sels.
Proof.
  induction sels as [|a sels IH]; [split; [constructor|done]|].
  cbn [selected_union foldr]. fold (selected_union (selector_key s) sels).
  rewrite Forall_cons_iff, <- IH. unfold directions_disjoint.
  case_decide as Hk; [|tauto]. rewrite Z.land_lor_distr_l, Z.lor_eq_0_iff. tauto.
Qed.

Lemma canonical_inj a b :
  selector_ok a -> selector_ok b -> ts_canonical a = ts_canonical b -> a = b.
Proof.
  intros Ha%parse_canonical_selector Hb%parse_canonical_selector E.
  rewrite E in Ha. congruence.
Qed.

Lemma selector_add_ok acc sels s acc' :
  acc_of acc sels -> selector_add acc s = Ok acc' ->
  Forall (fun a => directions_disjoint a s) sels /\ acc_of acc' (sels ++ [s]).
Proof.
  intros [Hseen Hdir] H. unfold selector_add in H. inv_ensure. bools.
  change (ts_source s, ts_interface s) with (selector_key s) in *. split; [|split].
  - apply selected_union_disjoint. by rewrite <- Hdir.
  - intros c. cbn [sa_seen]. rewrite map_app, elem_of_app, <- Hseen. cbn. set_solver.
  - intros key. cbn [sa_directions]. rewrite selected_union_snoc, <- Hdir.
    case_decide as Hk; [subst key; by rewrite lookup_insert_eq, Hdir|].
    by rewrite lookup_insert_ne.
Qed.

Lemma selector_add_complete acc sels s :
  acc_of acc sels -> Forall selector_ok sels -> selector_ok s ->
  Forall (fun a => directions_disjoint a s) sels -> exists acc', selector_add acc s = Ok acc'.
Proof.
  intros [Hseen Hdir] Hok Hs Hd. unfold selector_add.
  change (ts_source s, ts_interface s) with (selector_key s).
  rewrite bool_decide_eq_true_2; cbn [ensure mbind result_bind].
  - rewrite Hdir, (proj2 (selected_union_disjoint s sels) Hd). by eexists.
  - rewrite Hseen. intros Hin. apply list_elem_of_In, in_map_iff in Hin as (a & E & Hin).
    rewrite List.Forall_forall in Hok, Hd.
    apply canonical_inj in E as ->; [|by apply Hok|done].
    specialize (Hd s Hin eq_refl). rewrite Z.land_diag in Hd. pose proof (mask_nonneg s). lia.
Qed.

Lemma pairs_snoc {A} (R : A -> A -> Prop) l a :
  ForallOrdPairs R l -> Forall (fun x => R x a) l -> ForallOrdPairs R (l ++ [a]).
Proof.
  induction 1 as [|x l Hx Hl IH]; intros Hf; cbn.
  - repeat constructor.
  - apply Forall_cons_iff in Hf as [Hxa Hf]. constructor; [|by apply IH].
    apply Forall_app; split; [done|by repeat constructor].
Qed.

Lemma pairs_split {A} (R : A -> A -> Prop) l a r :
  ForallOrdPairs R (l ++ a :: r) -> Forall (fun x => R x a) l.
Proof.
  induction l as [|x l IH]; intros H; [constructor|]. inversion H as [|? ? Hx Hl]; subst.
  constructor; [|by apply IH]. rewrite List.Forall_forall in Hx. apply Hx, in_elt.
Qed.

Lemma selector_fold_iff sels acc done :
  acc_of acc done -> Forall selector_ok (done ++ sels) -> ForallOrdPairs directions_disjoint done ->
  (exists acc', try_fold selector_add acc sels = Ok acc') <->
  ForallOrdPairs directions_disjoint (done ++ sels).
Proof.
  revert acc done. induction sels as [|s sels IH]; intros acc prev Hacc Hok Hp.
  - rewrite app_nil_r. split; [done|by eexists].
  - assert (Hok' : Forall selector_ok ((prev ++ [s]) ++ sels)) by (by rewrite <- app_assoc).
    apply Forall_app in Hok as [Hok1 Hok2]. apply Forall_cons_iff in Hok2 as [Hs Hok2].
    replace (prev ++ s :: sels) with ((prev ++ [s]) ++ sels) by (by rewrite <- app_assoc).
    cbn [try_fold]. split.
    + intros [acc' H]. inv_bind.
      destruct (selector_add_ok _ _ _ _ Hacc E) as [Hd Hacc'].
      apply (IH a); [done|done|by apply pairs_snoc|by eexists].
    + intros H. pose proof H as Hd. rewrite <- app_assoc in Hd. apply pairs_split in Hd.
      destruct (selector_add_complete acc prev s Hacc Hok1 Hs Hd) as [a E]. rewrite E.
      destruct (selector_add_ok _ _ _ _ Hacc E) as [_ Hacc'].
      apply (IH a (prev ++ [s])); [done|done|by apply pairs_snoc|done].
Qed.

(** A traffic-selector list is accepted exactly when it has one to sixteen items, each of
    which parses, and no two of them select a common direction of the same interface; the result
    is the parsed items in order.  No duplicate or overlap is counted twice, and nothing
    disjoint is refused. *)
Theorem selector_list_accepts_iff input sels :
  parse_traffic_selector_list input = Ok sels <->
  trim input <> [] /\
  Forall2 (fun item sel => parse_traffic_selector item = Ok sel) (split 44 (trim input)) sels /\
  vec_len sels <= MAX_TRAFFIC_SELECTOR_ITEMS /\
  ForallOrdPairs directions_disjoint sels.
Proof.
  assert (Hparse : Forall2 (fun i s => parse_traffic_selector i = Ok s) (split 44 (trim input)) sels ->
    Forall selector_ok sels).
  { induction 1; constructor; [by eapply parse_selector_ok|done]. }
  assert (Hinit : acc_of (mkAcc [] ∅ ∅) []) by (split; intros; set_solver).
  unfold parse_traffic_selector_list. split.
  - intros H. inv_ensure. bools. apply selector_fold_split in E0 as (sels & Hf & Hadd).
    pose proof (selector_add_list _ _ _ Hadd) as Hl. cbn [sa_selectors app] in Hl. rewrite Hl in *.
    split; [by apply not_empty, negb_true_iff|]. split; [done|]. split; [done|].
    apply (selector_fold_iff sels (mkAcc [] ∅ ∅) []); [done|by apply Hparse|constructor|by eexists].
  - intros (Hne & Hf & Hlen & Hp). rewrite (proj2 (not_empty _) Hne). cbn [ensure mbind result_bind].
    destruct (proj2 (selector_fold_iff sels (mkAcc [] ∅ ∅) [] Hinit (Hparse Hf)
      (FOP_nil _)) Hp) as [acc Hadd].
    rewrite (proj2 (selector_fold_split _ _ acc)) by (by exists sels). cbn [mbind result_bind].
    pose proof (selector_add_list _ _ _ Hadd) as Hl. cbn [sa_selectors app] in Hl. rewrite Hl.
    by rewrite (proj2 (Z.leb_le _ _) Hlen).
Qed.
