(* ===== verification/VpsRuleTheorems.v ===== *)
(** The remaining rules of [VpsRules] (port speed and billing price) and the
    theorems on the entry point: canonical texts are fixed points of
    [parse_vps_rule_value], and a stored interface policy means what the
    operator wrote. *)

From S2P Require Import Prelude RustStd F64 Json VpsRules VpsDecimal VpsSelectors.

Open Scope Z_scope.

#[local] Arguments lit : simpl never.
#[local] Arguments str_eqb : simpl never.

(** * Reference definitions *)

Definition port_speed_value (w f unit : str) (bps : Z) : ParsedVpsRuleValue :=
  let display := normalize_decimal_text w f ++ lit " " ++ unit in
  mkParsed display (json_object [("bps", json_int bps); ("display", Str display)]) display.

(** A canonical price: at most nine digits, a point, two digits. *)
Definition price_shape (price : str) : Prop :=
  exists w f, price = w ++ lit "." ++ f /\ all_digits w = true /\ all_digits f = true /\
    w <> [] /\ norm_whole w = w /\ vec_len w <= MAX_BILLING_PRICE_WHOLE_DIGITS /\ vec_len f = 2.

(** What the parser relies on in a canonical currency. *)
Definition currency_shape (cur : str) : Prop :=
  word cur /\ Forall (fun c => c <> 47) cur /\ str_len cur <= 3 /\
  exists c r, cur = c :: r /\ is_amount_char c = false.

(** * Words and a separating blank *)

Lemma trim_end_blank n :
  Forall (fun c => is_whitespace c = false) n -> trim_end (n ++ lit " ") = n.
Proof.
  intros H. unfold trim_end. rewrite rev_app_distr.
  change (rev (lit " ")) with [32]. cbn [app drop_while]. change (is_whitespace 32) with true.
  cbn iota. rewrite drop_while_id; [apply rev_involutive|].
  intros c Hc. by apply (head_Forall _ _ _ (Forall_rev H)).
Qed.

Lemma trim_end_id n : Forall (fun c => is_whitespace c = false) n -> trim_end n = n.
Proof.
  intros H. unfold trim_end. rewrite drop_while_id; [apply rev_involutive|].
  intros c Hc. by apply (head_Forall _ _ _ (Forall_rev H)).
Qed.

Lemma no_ws s : Forall (fun c => is_whitespace c = false) s -> existsb is_whitespace s = false.
Proof.
  intros H. destruct (existsb is_whitespace s) eqn:E; [|done].
  apply existsb_exists in E as (c & Hin & Hc). rewrite List.Forall_forall in H.
  rewrite (H c Hin) in Hc. done.
Qed.

(** Two words with a blank between them need no trimming. *)
Lemma trim_two a b : word a -> word b -> trim (a ++ lit " " ++ b) = a ++ lit " " ++ b.
Proof.
  intros Ha Hb. change (a ++ lit " " ++ b) with (join (lit " ") [a; b]).
  apply trim_join; [done|]. constructor; [done|]. constructor; [done|constructor].
Qed.

Lemma digits_word s : all_digits s = true -> s <> [] -> word s.
Proof.
  intros Ha Hne. split; [done|]. rewrite all_digits_Forall in Ha.
  eapply Forall_impl; [exact Ha|]. cbn. intros c Hc.
  assert (is_number_char c = true) as Hn%number_char_not_ws.
  { unfold is_number_char, is_ascii_digit, in_range.
    apply orb_true_intro. left. apply andb_true_intro. rewrite !Z.leb_le. lia. }
  naive_solver.
Qed.

(** * Port speeds *)

Lemma norm_whole_bound w :
  all_digits w = true -> digits_val w <= u128_max -> vec_len (norm_whole w) <= 40.
Proof.
  intros Ha Hv. unfold norm_whole. destruct (is_empty _) eqn:E; [by vm_compute|].
  rewrite <- digits_val_drop_zeros in Hv. apply (all_digits_drop (Z.eqb 48)) in Ha.
  pose proof (fun c => drop_while_head (Z.eqb 48) w c) as Hh.
  unfold trim_start_matches in *. destruct (drop_while (Z.eqb 48) w) as [|c s]; [done|].
  specialize (Hh c eq_refl). apply Z.eqb_neq in Hh.
  pose proof (all_digits_head _ _ Ha). rewrite digits_val_cons, vec_len_cons in *.
  cbn in Ha. bools. pose proof (digits_val_nonneg s ltac:(done)).
  destruct (Z.le_gt_cases (vec_len s) 39) as [|Hgt]; [lia|].
  pose proof (Z.pow_le_mono_r 10 40 (vec_len s) ltac:(lia) ltac:(lia)).
  assert (u128_max < 10 ^ 40) by (by vm_compute). nia.
Qed.

Lemma port_speed_unit_spec u unit m :
  port_speed_unit u = Some (unit, m) ->
  to_ascii_lowercase unit = u /\ word unit /\ 0 < m /\ str_len unit <= 4 /\
  Forall (fun c => c < 128) unit /\ exists a r, unit = a :: r /\ is_ascii_alphabetic a = true.
Proof.
  unfold port_speed_unit. intros H.
  repeat (case_match; [match goal with E : str_eqb _ _ = true |- _ => apply str_eqb_eq in E end;
    simplify_eq; split; [done|split; [split; [done|by repeat constructor]|split; [lia|split;
      [by vm_compute|split; [by repeat constructor|by repeat eexists]]]]]|]).
  done.
Qed.

Lemma number_char_not_alpha c : is_number_char c = true -> is_ascii_alphabetic c = false.
Proof.
  unfold is_number_char, is_ascii_alphabetic, is_ascii_uppercase, is_ascii_lowercase,
    is_ascii_digit, in_range. intros H.
  apply orb_prop in H. apply orb_false_intro; apply andb_false_iff; rewrite !Z.leb_gt;
    destruct H; bools; lia.
Qed.

(** Scaled amounts before and after normalisation. *)
Lemma scaled_norm w f m :
  all_digits w = true -> all_digits f = true -> 0 < m ->
  let scaled w f := digits_val w * 10 ^ vec_len f + digits_val f in
  scaled w f * m / 10 ^ vec_len f
  = scaled (norm_whole w) (norm_fraction f) * m / 10 ^ vec_len (norm_fraction f)
  /\ scaled (norm_whole w) (norm_fraction f) <= scaled w f
  /\ 0 <= scaled (norm_whole w) (norm_fraction f).
Proof.
  intros Hw Hf Hm scaled. destruct (norm_fraction_spec f Hf) as (Df & _ & t & Ht & L & V).
  destruct (norm_whole_spec w Hw) as (Dw & _ & Vw & _). unfold scaled. rewrite Vw, L, V.
  pose proof (vec_len_nonneg (norm_fraction f)). rewrite Z.pow_add_r by lia.
  assert (0 < 10 ^ t) by (apply Z.pow_pos_nonneg; lia).
  pose proof (pow10_pos (norm_fraction f)). pose proof (digits_val_nonneg w Hw).
  pose proof (digits_val_nonneg _ Df).
  split; [|split; nia].
  rewrite <- (Z.div_mul_cancel_r _ (10 ^ vec_len (norm_fraction f)) (10 ^ t)) by lia.
  f_equal; ring.
Qed.

Lemma port_bps_iff w f m bps :
  w <> [] -> all_digits w = true -> all_digits f = true -> vec_len f <= 3 -> 0 < m ->
  let scaled := digits_val w * 10 ^ vec_len f + digits_val f in
  port_bps w f m = Ok bps <-> scaled * m <= u128_max /\ bps = scaled * m / 10 ^ vec_len f.
Proof.
  intros Hne Hw Hf Hl Hm scaled. pose proof (vec_len_nonneg f) as Hl0.
  pose proof (digits_val_bounds f Hf) as Bf. pose proof (digits_val_nonneg w Hw) as Bw.
  pose proof (pow10_pos f) as Hp. unfold port_bps.
  assert (Hpow : 10 ^ vec_len f <= 1000) by (apply (Z.pow_le_mono_r 10 (vec_len f) 3); lia).
  assert (Hu : 1000 < u128_max) by (by vm_compute).
  rewrite str_len_digits by done. unfold checked_pow10.
  rewrite (proj2 (Z.leb_le _ u128_max)) by lia. cbn [or_code ok_or mbind result_bind].
  rewrite (parse_unsigned_all u128_max w) by done.
  assert (Hfv : (if is_empty f then Ok 0 else or_code (parse_unsigned u128_max f)
    "port_speed_value_invalid") = Ok (digits_val f)).
  { destruct f as [|c f']; [done|]. cbn [is_empty]. rewrite parse_unsigned_all by done.
    by rewrite (proj2 (Z.leb_le _ u128_max)) by lia. }
  assert (Hs : digits_val w <= digits_val w * 10 ^ vec_len f <= scaled) by (unfold scaled; nia).
  assert (Hm' : scaled <= scaled * m) by nia.
  rewrite Hfv. unfold checked_mul, checked_add.
  destruct (Z.leb_spec (digits_val w) u128_max) as [H1|H1]; cbn [or_code ok_or mbind result_bind];
    [|split; [done|]; lia].
  destruct (Z.leb_spec (digits_val w * 10 ^ vec_len f) u128_max) as [H2|H2];
    cbn [or_code ok_or mbind result_bind option_bind]; [|split; [done|]; lia].
  fold scaled. destruct (Z.leb_spec scaled u128_max) as [H3|H3];
    cbn [or_code ok_or mbind result_bind option_bind]; [|split; [done|]; lia].
  destruct (Z.leb_spec (scaled * m) u128_max) as [H4|H4];
    cbn [or_code ok_or mbind result_bind option_bind]; [|split; [done|]; lia].
  split; [intros [= <-]; done|by intros [_ ->]].
Qed.

Lemma norm_word w f :
  all_digits w = true -> all_digits f = true -> word (normalize_decimal_text w f).
Proof.
  intros Hw Hf. split.
  - rewrite normalize_decimal_eq. intros [E _]%app_nil. by apply norm_whole_spec in E.
  - eapply Forall_impl; [by apply number_chars_norm|]. intros c Hc. by apply number_char_not_ws.
Qed.

Lemma port_speed_reparse w f unit m bps :
  w <> [] -> all_digits w = true -> all_digits f = true -> vec_len f <= 3 ->
  port_speed_unit (to_ascii_lowercase unit) = Some (unit, m) ->
  port_bps w f m = Ok bps -> 0 < bps <= i64_max ->
  fixed_point parse_port_speed (port_speed_value w f unit bps).
Proof.
  intros Hne Hw Hf Hl Hu Hb Hr.
  destruct (port_speed_unit_spec _ _ _ Hu) as (_ & Huw & Hm & Hul & Hua & a & r & Ea & Ha).
  pose proof (norm_word w f Hw Hf) as Hn. pose proof (number_chars_norm w f Hw Hf) as Hnc.
  destruct (norm_whole_spec w Hw) as (Dw & Nw & Vw & _).
  destruct (norm_fraction_spec f Hf) as (Df & _ & t & Ht & Lt & _).
  assert (Hb' : port_bps (norm_whole w) (norm_fraction f) m = Ok bps).
  { apply port_bps_iff in Hb as [Hs ->]; try done. apply port_bps_iff; try done; [lia|].
    destruct (scaled_norm w f m Hw Hf Hm) as (E1 & E2 & E3). split; [nia|done]. }
  apply port_bps_iff in Hb as [Hs _]; try done.
  unfold fixed_point, port_speed_value. cbn [raw].
  split; [|split; [by apply trim_two|split; [by destruct (normalize_decimal_text w f); destruct Hn|]]].
  - unfold parse_port_speed. rewrite trim_two by done.
    rewrite app_assoc, span_app; [| |by rewrite Ea; intros c [= <-]; rewrite Ha].
    2: { apply Forall_app; split; [|by repeat constructor]. eapply Forall_impl; [exact Hnc|].
         intros c Hc. by rewrite number_char_not_alpha. }
    rewrite Ea at 1. cbn [is_empty negb ensure mbind result_bind]. rewrite trim_end_blank by apply Hn.
    rewrite trim_no_ws by apply Huw. rewrite !no_ws by (apply Hn || apply Huw).
    cbn [negb andb ensure mbind result_bind]. rewrite Hu. cbn [or_code ok_or mbind result_bind].
    rewrite split_decimal_norm by done. rewrite (proj2 (not_empty _) Nw), Dw, Df.
    rewrite str_len_digits by done. rewrite (proj2 (Z.leb_le _ 3)) by lia.
    rewrite (proj2 (Z.leb_le _ 1)) by (by apply count_decimal_norm).
    cbn [andb ensure mbind result_bind]. rewrite Hb'. cbn [mbind result_bind].
    rewrite (proj2 (Z.ltb_lt _ _)), (proj2 (Z.leb_le _ _)) by lia. cbn [andb ensure mbind result_bind].
    by rewrite normalize_decimal_idemp, <- app_assoc.
  - rewrite !str_len_app. rewrite str_len_ascii.
    2: { eapply Forall_impl; [exact Hnc|]. intros c Hc. by apply number_char_not_ws. }
    pose proof (norm_whole_bound w Hw) as Lw. pose proof (vec_len_nonneg (norm_fraction f)).
    pose proof (pow10_pos f). pose proof (digits_val_nonneg w Hw). pose proof (digits_val_nonneg f Hf).
    set (W := digits_val w) in *. set (P := 10 ^ vec_len f) in *.
    assert (W <= W * P) by nia. assert (W * P + digits_val f <= (W * P + digits_val f) * m) by nia.
    rewrite normalize_decimal_eq, vec_len_app. change (str_len (lit " ")) with 1.
    unfold MAX_VPS_RULE_VALUE_BYTES.
    destruct (is_empty _); [change (vec_len (@nil Z)) with 0; lia|].
    rewrite vec_len_app. change (vec_len (lit ".")) with 1. lia.
Qed.

Lemma port_speed_canonical input p :
  parse_port_speed input = Ok p -> fixed_point parse_port_speed p.
Proof.
  unfold parse_port_speed at 1. intros H. inv_ensure. bools.
  match goal with
  | Hu : port_speed_unit _ = Some (?unit, ?m), Hd : split_decimal _ = (?w, ?f),
    Hb : port_bps ?w ?f ?m = Ok ?bps |- _ =>
      pose proof (port_speed_unit_spec _ _ _ Hu) as (Hlow & _);
      apply (port_speed_reparse w f unit m bps); try done; [|by rewrite <- str_len_digits|by rewrite Hlow]
  end.
  by apply not_empty, negb_true_iff.
Qed.

(** * Billing prices *)

Lemma normalize_price_shape input price :
  normalize_billing_price input = Ok price -> price_shape price.
Proof.
  unfold normalize_billing_price. intros H. inv_ensure. bools.
  match goal with Hs : split_decimal _ = (?a, ?b) |- _ => rename a into w, b into f end.
  destruct (norm_whole_spec w ltac:(done)) as (Dw & Nw & _ & Iw).
  assert (Hwne : w <> []) by (by apply not_empty, negb_true_iff).
  pose proof (norm_whole_len w Hwne).
  fold (norm_whole w).
  assert (Hf : all_digits (if str_len f =? 0 then lit "00" else
    if str_len f =? 1 then f ++ lit "0" else f) = true /\
    vec_len (if str_len f =? 0 then lit "00" else if str_len f =? 1 then f ++ lit "0" else f) = 2).
  { rewrite str_len_digits in * by done. pose proof (vec_len_nonneg f).
    repeat case_match; bools; [done| |split; [done|lia]].
    rewrite all_digits_app, vec_len_app. change (vec_len (lit "0")) with 1. split; [|lia].
    by apply andb_true_intro. }
  destruct Hf as [Hf1 Hf2]. eexists (norm_whole w), _. split; [done|].
  rewrite str_len_digits in * by done. repeat split; try done. lia.
Qed.

Lemma price_shape_fixed price : price_shape price -> normalize_billing_price price = Ok price.
Proof.
  intros (w & f & -> & Hw & Hf & Hne & Hn & Hl & Hl2).
  assert (Hfne : is_empty f = false) by (by destruct f).
  pose proof (split_decimal_parts w f Hw) as Hs. rewrite Hfne in Hs.
  unfold normalize_billing_price. rewrite Hs, (proj2 (not_empty _) Hne), Hw, Hf.
  rewrite !str_len_digits, (proj2 (Z.leb_le _ _) Hl), Hl2 by done.
  rewrite !count_char_app, (count_char_0 46 w), (count_char_0 46 f) by (by apply digits_not_in; [|lia]).
  cbn [andb ensure mbind result_bind Z.leb Z.eqb Z.compare Pos.compare Pos.compare_cont Pos.eqb].
  change (count_char 46 (lit ".")) with 1. cbn [Z.add Z.leb Z.compare Pos.compare Pos.compare_cont].
  cbn [ensure mbind result_bind]. fold (norm_whole w). by rewrite Hn.
Qed.

Lemma price_shape_facts price :
  price_shape price ->
  word price /\ Forall (fun c => is_amount_char c = true /\ c <> 47) price /\
  str_len price <= 12 /\ exists c r, price = c :: r /\ 48 <= c <= 57.
Proof.
  intros (w & f & -> & Hw & Hf & Hne & _ & Hl & Hl2). rewrite all_digits_Forall in Hw, Hf.
  assert (Hd : forall c, 48 <= c <= 57 -> is_number_char c = true).
  { intros c Hc. unfold is_number_char, is_ascii_digit, in_range.
    rewrite (proj2 (Z.leb_le 48 c)), (proj2 (Z.leb_le c 57)) by lia. done. }
  assert (Hall : Forall (fun c => is_number_char c = true /\ c <> 47) (w ++ lit "." ++ f)).
  { repeat (apply Forall_app; split); [|by repeat constructor|];
      (eapply Forall_impl; [eassumption|]; cbn; intros c Hc; split; [by apply Hd|lia]). }
  split; [|split; [|split]].
  - split; [by destruct w|]. eapply Forall_impl; [exact Hall|]. intros c [Hc _].
    by apply number_char_not_ws.
  - eapply Forall_impl; [exact Hall|]. intros c [Hc ?]. split; [|done].
    unfold is_amount_char. unfold is_number_char in Hc. by rewrite Hc.
  - rewrite str_len_ascii.
    + rewrite !vec_len_app, Hl2. change (vec_len (lit ".")) with 1.
      unfold MAX_BILLING_PRICE_WHOLE_DIGITS in *. lia.
    + eapply Forall_impl; [exact Hall|]. intros c [Hc _]. by apply number_char_not_ws.
  - destruct w as [|c w]; [done|]. apply Forall_cons_iff in Hw as [Hc _]. by exists c, (w ++ lit "." ++ f).
Qed.

Lemma upper_alpha c :
  is_ascii_alphabetic (upper c) = true ->
  upper (upper c) = upper c /\ is_whitespace (upper c) = false /\ upper c <> 47 /\
  is_amount_char (upper c) = false /\ 65 <= upper c <= 90.
Proof.
  intros H.
  assert (Hr : 65 <= upper c <= 90).
  { unfold upper, is_ascii_alphabetic, is_ascii_uppercase, is_ascii_lowercase, in_range in *.
    destruct ((97 <=? c) && (c <=? 122)) eqn:E; bools; [lia|].
    rewrite E, orb_false_r in H. bools. lia. }
  assert (Hw : is_whitespace (upper c) = false).
  { unfold is_whitespace, in_range. repeat rewrite orb_false_iff.
    rewrite !andb_false_iff, !Z.eqb_neq, !Z.leb_gt. lia. }
  repeat split; try lia; try done.
  - unfold upper at 1. unfold is_ascii_lowercase, in_range.
    by rewrite (proj2 (Z.leb_gt 97 (upper c))) by lia.
  - unfold is_amount_char, is_ascii_digit, in_range.
    rewrite Hw, (proj2 (Z.leb_gt (upper c) 57)), (proj2 (Z.eqb_neq (upper c) 46)) by lia.
    by rewrite andb_false_r.
Qed.

Lemma currency_fixed input currency cur :
  normalize_billing_currency input = Ok (currency, cur) ->
  normalize_billing_currency cur = Ok (currency, cur) /\ currency_shape cur.
Proof.
  unfold normalize_billing_currency at 1. intros H.
  do 4 (match type of H with (if ?b then _ else _) = _ => destruct b end;
    [injection H as <- <-; split; [by vm_compute|split; [split; [done|by repeat constructor]|
      split; [vm_compute; repeat constructor; congruence|split; [by vm_compute|by repeat eexists]]]]|]).
  match type of H with (if ?b then _ else _) = _ => destruct b eqn:E; [|done] end.
  injection H as <- <-. bools.
  assert (Hup : Forall (fun c => is_ascii_alphabetic c = true /\ upper c = c /\ 65 <= c <= 90 /\
    is_whitespace c = false /\ is_amount_char c = false) (to_ascii_uppercase input)).
  { apply List.Forall_forall. intros c Hin. rewrite forallb_forall in *. pose proof Hin as Ha.
    match goal with H : forall x, In x _ -> _ |- _ => apply H in Ha end.
    unfold to_ascii_uppercase in Hin. apply in_map_iff in Hin as (x & <- & _).
    destruct (upper_alpha x Ha) as (-> & -> & ? & -> & ?). naive_solver. }
  assert (Hid : to_ascii_uppercase (to_ascii_uppercase input) = to_ascii_uppercase input).
  { rewrite <- (map_id (to_ascii_uppercase input)) at 2. apply map_ext_in. intros c Hin.
    rewrite List.Forall_forall in Hup. by apply Hup. }
  set (u := to_ascii_uppercase input) in *.
  assert (Hhd : exists c r, u = c :: r /\ 65 <= c <= 90 /\ is_amount_char c = false).
  { destruct u as [|c r]; [done|]. apply Forall_cons_iff in Hup as [Hc _]. exists c, r. naive_solver. }
  destruct Hhd as (c & r & Hu & Hc & Hca).
  assert (Hsym : forall x l, ~ 65 <= x <= 90 -> str_eqb u (x :: l) = false).
  { intros x l Hx. apply str_eqb_neq. rewrite Hu. intros [= <- _]. lia. }
  split.
  - unfold normalize_billing_currency. rewrite Hid.
    change (lit "$") with [36]. unfold YEN, FULLWIDTH_YEN, EURO, POUND.
    rewrite !Hsym by lia. cbn [orb].
    rewrite (proj2 (Z.eqb_eq (str_len u) 3)) by done.
    by match goal with H : forallb _ u = true |- _ => rewrite H end.
  - split; [split; [by rewrite Hu|]|split; [|split; [lia|by exists c, r]]];
      (eapply Forall_impl; [exact Hup|]; cbn; intros x Hx; first [naive_solver|lia]).
Qed.

Lemma period_fixed input code period :
  billing_period input = Ok (code, period) ->
  billing_period (to_ascii_lowercase (trim code)) = Ok (code, period) /\
  contains_char 47 code = false /\ trim code = code /\ existsb is_whitespace code = false /\
  str_len code <= 2.
Proof.
  unfold billing_period at 1. intros H.
  repeat (case_match; [simplify_eq; by vm_compute|]). done.
Qed.

Lemma price_not_disabled price rest :
  price_shape price ->
  str_eqb (List.filter (fun c => negb (is_whitespace c)) (price ++ rest)) (lit "-1") = false.
Proof.
  intros H. destruct (price_shape_facts price H) as ([_ Hw] & _ & _ & c & r & -> & Hc).
  apply Forall_cons_iff in Hw as [Hw _]. apply str_eqb_neq. cbn [app List.filter].
  rewrite Hw. cbn [negb]. change (lit "-1") with [45; 49]. intros [= E _]. lia.
Qed.

Lemma price_reparse price cur code currency period :
  price_shape price -> normalize_billing_currency cur = Ok (currency, cur) -> currency_shape cur ->
  billing_period (to_ascii_lowercase (trim code)) = Ok (code, period) ->
  contains_char 47 code = false -> trim code = code -> existsb is_whitespace code = false ->
  str_len code <= 2 ->
  let display := price ++ lit " " ++ cur ++ lit "/" ++ code in
  fixed_point parse_billing_price
    (mkParsed display
       (json_object [("disabled", Bool false); ("price", Str price);
                     ("currency", Str currency); ("currency_display", Str cur);
                     ("period", Str period); ("period_code", Str code);
                     ("display", Str display)])
       display).
Proof.
  intros Hp Hcur Hcs Hper H47 Htc Hwc Hlc display.
  destruct (price_shape_facts price Hp) as (Hpw & Hpc & Hpl & a & r & Ea & Ha).
  destruct Hcs as (Hcw & Hc47 & Hcl & c & cr & Ec & Hca).
  assert (Hsplit : split_once 47 display = Some (price ++ lit " " ++ cur, code)).
  { apply split_once_spec. unfold display. rewrite <- !app_assoc. split; [done|].
    rewrite !not_elem_of_app. repeat split.
    - intros Hin. rewrite list.Forall_forall in Hpc. naive_solver.
    - change (lit " ") with [32]. set_solver.
    - intros Hin. rewrite list.Forall_forall in Hc47. naive_solver. }
  assert (Hdw : trim display = display).
  { assert (Hj : word (cur ++ lit "/" ++ code)).
    { split; [by rewrite Ec|]. repeat (apply Forall_app; split); [apply Hcw|by repeat constructor|].
      apply existsb_false_Forall, Hwc. }
    by apply trim_two. }
  unfold fixed_point. cbn [raw]. split; [|split; [done|split; [by unfold display; rewrite Ea|]]].
  - unfold parse_billing_price. unfold display at 1. rewrite price_not_disabled by done.
    rewrite Hsplit. cbn [or_code ok_or mbind result_bind]. rewrite H47, Htc, Hwc.
    cbn [negb andb ensure mbind result_bind]. rewrite trim_two by done.
    rewrite app_assoc, span_app; [| |by rewrite Ec; intros x [= <-]].
    2: { apply Forall_app; split; [|by repeat constructor]. eapply Forall_impl; [exact Hpc|]. naive_solver. }
    rewrite Ec at 1. cbn [is_empty negb ensure mbind result_bind].
    rewrite trim_end_blank by apply Hpw. rewrite trim_no_ws by apply Hcw.
    rewrite !no_ws by (apply Hpw || apply Hcw). cbn [negb andb ensure mbind result_bind].
    rewrite price_shape_fixed by done. cbn [mbind result_bind]. rewrite Hcur. cbn [mbind result_bind].
    rewrite <- Htc at 1. rewrite Hper. done.
  - unfold display, MAX_VPS_RULE_VALUE_BYTES. rewrite !str_len_app.
    change (str_len (lit " ")) with 1. change (str_len (lit "/")) with 1. lia.
Qed.

Lemma billing_price_canonical input p :
  parse_billing_price input = Ok p -> fixed_point parse_billing_price p.
Proof.
  unfold parse_billing_price at 1. intros H.
  match type of H with (if ?b then _ else _) = _ => destruct b end; [simplify_eq; by vm_compute|].
  inv_ensure.
  match goal with
  | Hp : normalize_billing_price _ = Ok _, Hc : normalize_billing_currency _ = Ok _,
    Hb : billing_period _ = Ok _ |- _ =>
      apply normalize_price_shape in Hp; apply currency_fixed in Hc as [Hc1 Hc2];
      apply period_fixed in Hb as (Hb1 & Hb2 & Hb3 & Hb4 & Hb5)
  end.
  by apply price_reparse.
Qed.

(** * The entry point *)

Lemma rate_interfaces_canonical input p :
  parse_network_rate_interfaces input = Ok p ->
  raw p <> lit "[]" -> raw p <> NETWORK_RATE_TRAFFIC_SELECTOR_REFERENCE_SYNTAX ->
  fixed_point parse_network_rate_interfaces p.
Proof.
  unfold parse_network_rate_interfaces at 1. intros H Hne1 Hne2.
  do 3 (match type of H with (if ?b then _ else _) = _ => destruct b end;
    [simplify_eq; first [by vm_compute|done]|]).
  inv_bind. subst p. cbn [raw exact_mode] in *. unfold ensure in E0.
  destruct (forallb _ a) eqn:Hh; [|done].
  pose proof (star_not_selector _ _ E) as Hs.
  apply selector_list_canonical in E as (Hp & Ht & Hne & Hl).
  unfold fixed_point, parse_network_rate_interfaces. cbn [raw exact_mode].
  rewrite !(proj2 (str_eqb_neq _ _)) by done. rewrite Hp. cbn [mbind result_bind].
  rewrite Hh. done.
Qed.

Lemma parse_rule_canonical key input r p :
  str_len input <= MAX_VPS_RULE_VALUE_BYTES ->
  (key = VPS_RULE_KEY_NETWORK_RATE_INTERFACES ->
   raw p <> lit "[]" /\ raw p <> NETWORK_RATE_TRAFFIC_SELECTOR_REFERENCE_SYNTAX) ->
  parse_rule key input = Some r -> r = Ok p ->
  parse_rule key (raw p) = Some (Ok p) /\ trim (raw p) = raw p /\ raw p <> [] /\
  str_len (raw p) <= MAX_VPS_RULE_VALUE_BYTES.
Proof.
  intros Hl Hrate Hr ->. unfold parse_rule in *.
  repeat match goal with
  | H : (if str_eqb ?k ?c then _ else _) = _ |- _ => destruct (str_eqb k c) eqn:?
  | H : (if ?b then _ else _) = Some (Ok p) |- _ => destruct b eqn:?
  end; try discriminate Hr; injection Hr as Hr.
  - apply reset_day_canonical in Hr as (-> & ? & ? & ?); done.
  - apply quota_canonical in Hr as (-> & ? & ? & ?); done.
  - apply selectors_canonical in Hr as (-> & ? & ? & ?); done.
  - apply interfaces_canonical in Hr as (-> & ? & ? & ?); done.
  - apply rate_interfaces_canonical in Hr as (-> & ? & ? & ?);
      first [done|by apply Hrate, str_eqb_eq].
  - apply billing_price_canonical in Hr as (-> & ? & ? & ?); done.
  - apply billing_cycle_canonical in Hr as (-> & ? & ? & ?); done.
  - apply port_speed_canonical in Hr as (-> & ? & ? & ?); done.
  - apply product_name_canonical in Hr as (-> & ? & ? & ?); done.
Qed.

Lemma str_len_nonneg s : 0 <= str_len s.
Proof. unfold str_len. lia. Qed.

Lemma str_len_trim s : str_len (trim s) <= str_len s.
Proof.
  unfold trim. destruct (drop_while_suffix is_whitespace s) as (l & E & _).
  destruct (trim_end_prefix (trim_start s)) as (r & E' & _).
  unfold trim_start in *. rewrite E at 2. rewrite E' at 2. rewrite !str_len_app.
  pose proof (str_len_nonneg l). pose proof (str_len_nonneg r). lia.
Qed.

(** The [unreachable!] arm is never taken: a supported key has a parser. *)
Lemma parse_rule_total key raw :
  existsb (str_eqb key) SUPPORTED_VPS_RULE_KEYS = true -> is_Some (parse_rule key raw).
Proof.
  intros H. apply existsb_exists in H as (k & Hin & ->%str_eqb_eq).
  repeat (destruct Hin as [<-|Hin]; [by eexists|]). done.
Qed.

(** C37: the canonical text of an accepted rule value is a fixed point of the parser: parsing it
    again under the same key gives the same canonical text, the same JSON and the same display.
    The hypothesis leaves out only the two reserved words of [network.rate.interfaces]. *)
Theorem canonical_text_fixed_point key value p :
  parse_vps_rule_value key value = Some (Ok p) ->
  (trim key = VPS_RULE_KEY_NETWORK_RATE_INTERFACES ->
   raw p <> lit "[]" /\ raw p <> NETWORK_RATE_TRAFFIC_SELECTOR_REFERENCE_SYNTAX) ->
  parse_vps_rule_value key (raw p) = Some (Ok p).
Proof.
  unfold parse_vps_rule_value, normalize_vps_rule_key. intros H Hrate.
  destruct (existsb (str_eqb (trim key)) SUPPORTED_VPS_RULE_KEYS); [|done].
  unfold ensure in *. destruct (str_len value <=? MAX_VPS_RULE_VALUE_BYTES) eqn:El; [|done].
  destruct (negb (is_empty (trim value))); [|done]. bools.
  pose proof (str_len_trim value).
  destruct (parse_rule_canonical (trim key) (trim value) (Ok p) p) as (Hp & Ht & Hne & Hl);
    [lia|done|done|done|].
  by rewrite (proj2 (Z.leb_le _ _) Hl), Ht, (proj2 (not_empty _) Hne).
Qed.

Lemma canonical_text_fixed_point_witness :
  exists p, parse_vps_rule_value VPS_RULE_KEY_NETWORK_PORT_SPEED (lit " 01.500gbps ") = Some (Ok p)
    /\ raw p = lit "1.5 Gbps"
    /\ parse_vps_rule_value VPS_RULE_KEY_NETWORK_PORT_SPEED (raw p) = Some (Ok p).
Proof.
  eexists. split; [vm_compute; reflexivity|]. split; [by vm_compute|].
  apply (canonical_text_fixed_point VPS_RULE_KEY_NETWORK_PORT_SPEED (lit " 01.500gbps "));
    [by vm_compute|]. intros E. by vm_compute in E.
Defined.

(** The exception is real: a live-rate selector for an interface named [[]] is accepted with an
    explicit source and canonicalises to the reserved word [[]], which parses back as the empty
    selection, so the canonical text has lost the selected interface. *)
Theorem rate_interface_reserved_word :
  exists p q,
    parse_vps_rule_value VPS_RULE_KEY_NETWORK_RATE_INTERFACES (lit "host:[]") = Some (Ok p) /\
    parse_vps_rule_value VPS_RULE_KEY_NETWORK_RATE_INTERFACES (raw p) = Some (Ok q) /\
    json_get (json p) (lit "selectors")
    = Some (Array [traffic_selector_json (mkSelector (lit "host") (lit "[]") (lit "total") (lit "[]"))]) /\
    json_get (json q) (lit "selectors") = Some (Array []).
Proof.
  eexists _, _. split; [vm_compute; reflexivity|]. split; [vm_compute; reflexivity|].
  by vm_compute.
Qed.

(** * Interface policies *)

Lemma policy_fold ps out seen :
  Forall pattern_ok ps -> NoDup ps -> (forall p, p ∈ ps -> p ∉ seen) ->
  exists seen', try_fold policy_pattern_step (out, seen) (map Str ps) = Ok (out ++ ps, seen').
Proof.
  revert out seen. induction ps as [|p ps IH]; intros out seen Hok Hnd Hfresh.
  - exists seen. cbn. by rewrite app_nil_r.
  - apply Forall_cons_iff in Hok as [[Hv Hs] Hok]. apply NoDup_cons in Hnd as [Hn Hnd].
    destruct (IH (out ++ [p]) ({[p]} ∪ seen)) as [seen' E]; try done.
    { intros q Hq. specialize (Hfresh q). set_solver. }
    exists seen'. cbn. rewrite Hv. cbn [mbind result_bind].
    rewrite (proj2 (str_eqb_neq _ _) Hs), bool_decide_eq_true_2 by (apply Hfresh; by left).
    cbn [negb andb ensure mbind result_bind]. rewrite E. by rewrite <- app_assoc.
Qed.

(** The patterns of a canonical text. *)
Lemma interfaces_inv input p :
  parse_network_interfaces input = Ok p ->
  p = all_mode "All reported interfaces" \/
  exists ps, ps <> [] /\ vec_len ps <= MAX_TRAFFIC_SELECTOR_ITEMS /\ Forall pattern_ok ps /\
    NoDup ps /\ split 44 (raw p) = ps /\ raw p <> lit "*" /\
    json p = json_object [("mode", Str (lit "patterns")); ("patterns", Array (map Str ps))].
Proof.
  intros H. pose proof (interfaces_canonical _ _ H) as [Hfix _].
  unfold parse_network_interfaces in H. destruct (str_eqb input (lit "*")); [left; by simplify_eq|right].
  inv_bind. subst p. cbn [raw json] in *. apply patterns_of_input in E as (Hne & Hlen & Hok & Hnd).
  exists a. repeat split; try done.
  - apply split_join; [done|]. eapply Forall_impl; [exact Hok|].
    intros q Hq. by apply pattern_ok_word in Hq as (_ & ? & _).
  - intros E. pose proof (patterns_join a Hne Hlen Hok Hnd) as Hp. rewrite E in Hp.
    by vm_compute in Hp.
Qed.

Lemma strip_suffix_spec c s r : strip_suffix_char c s = Some r <-> s = r ++ [c].
Proof.
  unfold strip_suffix_char. rewrite <- (rev_involutive s) at 2.
  destruct (rev s) as [|d t]; cbn [rev].
  - split; [done|]. intros E. by destruct r.
  - destruct (Z.eqb_spec d c) as [->|Hne].
    + split; [by intros [= <-]|]. intros [-> _]%app_inj_tail. done.
    + split; [done|]. intros [_ ?]%app_inj_tail. done.
Qed.

Lemma pattern_matches_spec pattern interface :
  pattern <> lit "*" ->
  network_interface_pattern_matches pattern interface = true <->
  (exists prefix rest, pattern = prefix ++ [42] /\ interface = prefix ++ rest) \/
  (interface = pattern /\ forall prefix, pattern <> prefix ++ [42]).
Proof.
  intros Hs. unfold network_interface_pattern_matches. rewrite (proj2 (str_eqb_neq _ _) Hs).
  cbn [orb]. destruct (strip_suffix_char 42 pattern) as [prefix|] eqn:E.
  - apply strip_suffix_spec in E. rewrite starts_with_spec. split.
    + intros [r Hr]. left. by exists prefix, r.
    + intros [(q & r & Hq & Hr)|[_ H]]; [|by destruct (H prefix)].
      subst pattern. apply app_inj_tail in Hq as [-> _]. by exists r.
  - rewrite str_eqb_eq. split.
    + intros ->. right. split; [done|]. intros q Hq%strip_suffix_spec. congruence.
    + intros [(q & r & Hq%strip_suffix_spec & _)|[? _]]; congruence.
Qed.

(** What the operator wrote for [network.interfaces] is what the policy read back from the
    stored JSON enforces: the text is accepted back, and an interface of either source matches
    exactly when the text is [*] or one of its comma-separated items is the interface name or a
    prefix of it followed by [*]. *)
Theorem interface_policy_semantics input p source interface :
  parse_network_interfaces input = Ok p ->
  exists policy, from_rule_json (Some (json p)) = Ok policy /\
    (policy_matches policy source interface = true <->
     raw p = lit "*" \/
     exists item, In item (split 44 (raw p)) /\
       ((exists prefix rest, item = prefix ++ [42] /\ interface = prefix ++ rest) \/
        (interface = item /\ forall prefix, item <> prefix ++ [42]))).
Proof.
  intros H. destruct (interfaces_inv _ _ H) as [->|(ps & Hne & Hlen & Hok & Hnd & Hsp & Hraw & Hj)].
  - exists All. split; [by vm_compute|]. cbn. split; [by left|done].
  - exists (Patterns ps). split.
    + rewrite Hj. destruct (policy_fold ps [] ∅ Hok Hnd) as [seen' E];
        [by intros q _; apply not_elem_of_empty|].
      unfold from_rule_json, json_object. cbn [map json_get].
      change (member_get (lit "mode") _) with (Some (Str (lit "patterns"))).
      change (member_get (lit "patterns") _) with (Some (Array (map Str ps))).
      cbn [mbind option_bind as_str as_array].
      change (str_eqb (lit "patterns") (lit "all")) with false.
      rewrite str_eqb_refl. cbn [or_code ok_or mbind result_bind].
      unfold vec_len. rewrite length_map. fold (vec_len ps).
      rewrite (proj2 (Z.leb_le _ _) Hlen), (proj2 (not_empty (map Str ps))) by (by destruct ps).
      cbn [andb ensure mbind result_bind]. by rewrite E.
    + cbn [policy_matches]. rewrite existsb_exists, Hsp. rewrite List.Forall_forall in Hok.
      split.
      * intros (q & Hin & Hm). right. exists q. split; [done|].
        apply pattern_matches_spec; [|done]. by apply Hok.
      * intros [?|(q & Hin & Hm)]; [done|]. exists q. split; [done|].
        apply pattern_matches_spec; [by apply Hok|done].
Qed.

Lemma interface_policy_semantics_witness :
  exists p policy,
    parse_network_interfaces (lit "w*, eth0") = Ok p /\
    from_rule_json (Some (json p)) = Ok policy /\
    policy_matches policy Tunnel (lit "wg0") = true.
Proof.
  eexists. destruct (interface_policy_semantics (lit "w*, eth0") _ Tunnel (lit "wg0") eq_refl)
    as (policy & Hp & Hm).
  exists policy. split; [reflexivity|]. split; [exact Hp|]. apply Hm. right.
  exists (lit "w*"). split; [by left|]. left. by exists (lit "w"), (lit "g0").
Defined.
