(* ===== verification/Expression.v ===== *)
(** Selector and policy expressions: the evaluation half of
    crates/common/src/selection/expression.rs.

    [expression_matches] is the boolean matcher of selectors and webhooks,
    [expression_truth] the three-valued evaluation of policies over partial
    evidence.  Code outside the repository is a parameter of the section: the
    regex crate ([regex_is_match]: compile the pattern and search the text),
    chrono's RFC 3339 parser ([parse_rfc3339], seconds since the epoch) and the
    float printer of serde_json ([float_to_string]). *)

From Stdlib Require Import SpecFloat.
From stdpp Require Import sorting.
From S2P Require Import Prelude RustStd F64 Json VpsRules.

Open Scope Z_scope.

(** * Data *)

Inductive ComparisonOperator := Eq | NotEq | Lt | Lte | Gt | Gte.

#[export] Instance comparison_operator_eq_dec : EqDecision ComparisonOperator.
Proof. solve_decision. Defined.

Inductive ScalarValue := ScalarLiteral (s : str).

Inductive ListValue :=
| ListLiteral (s : str)
| ListRegex (pattern : str).

Inductive Predicate :=
| Bare (raw : str)
| Comparison (field : str) (operator : ComparisonOperator) (value : ScalarValue)
| Membership (field : str) (negated : bool) (values : list ListValue)
| Event (name : str)
| Untagged.

Inductive Expression :=
| Pred (p : Predicate)
| Not (e : Expression)
| And (l r : Expression)
| Or (l r : Expression).

Inductive ExpressionTruth := True_ | False_ | Unknown.

Definition truth_not (t : ExpressionTruth) : ExpressionTruth :=
  match t with True_ => False_ | False_ => True_ | Unknown => Unknown end.

Definition truth_and (a b : ExpressionTruth) : ExpressionTruth :=
  match a, b with
  | False_, _ | _, False_ => False_
  | True_, True_ => True_
  | _, _ => Unknown
  end.

Definition truth_or (a b : ExpressionTruth) : ExpressionTruth :=
  match a, b with
  | True_, _ | _, True_ => True_
  | False_, False_ => False_
  | _, _ => Unknown
  end.

Record VpsMetadata := mkVps {
  vps_id : str;
  vps_display_name : str;
  vps_status : str;
  vps_tags : list str;
  vps_registration_ip : option str;
  vps_last_ip : option str;
  vps_last_seen_at : option str;
  vps_internal_build_number : option Z;
  vps_stale_since : option str;
  vps_stale_reason : option str;
  vps_extra : option Value;
}.

Definition VPS_RULE_FIELD : str := lit "vps.rules".

Record VpsRuleValue := mkRule { value_raw : str; value_json : Value }.

(** [VpsRuleContext]: a [BTreeMap] of rules; [rule_keys] are its keys in order. *)
Abbreviation VpsRuleContext := (gmap str VpsRuleValue) (only parsing).

(** [Ord] of [str]: the bytes, lexicographically. *)
Fixpoint bytes_leb (a b : list Z) : bool :=
  match a, b with
  | [], _ => true
  | _ :: _, [] => false
  | x :: a', y :: b' => if x <? y then true else if y <? x then false else bytes_leb a' b'
  end.
Definition str_leb (a b : str) : bool := bytes_leb (as_bytes a) (as_bytes b).

Definition str_le (a b : str) : Prop := str_leb a b = true.

#[export] Instance str_le_dec : RelDecision str_le.
Proof. intros a b. unfold str_le. apply _. Defined.

Definition rule_keys (rules : VpsRuleContext) : list str :=
  merge_sort str_le (map fst (map_to_list rules)).

Record ExpressionContext := mkContext {
  ctx_vps : option VpsMetadata;
  ctx_vps_rules : option VpsRuleContext;
  ctx_rule : option Value;
  ctx_event : option Value;
  ctx_query : option Value;
  ctx_server : option Value;
  ctx_job : option Value;
  ctx_schedule : option Value;
  ctx_alert : option Value;
  ctx_policy_rule : option Value;
  ctx_telemetry : option Value;
  ctx_objects : gmap str Value;
  ctx_event_predicates : gset str;
}.

Definition context_default : ExpressionContext :=
  mkContext None None None None None None None None None None None ∅ ∅.

Inductive FieldValue :=
| FString (s : str)
| FNumber (n : Z)
| FDecimal (s : str).

(** * Building a context *)

Definition for_vps (vps : VpsMetadata) : ExpressionContext :=
  mkContext (Some vps) None None None None None None None None None None ∅ ∅.

Definition with_event_predicate (c : ExpressionContext) (predicate : str) : ExpressionContext :=
  mkContext (ctx_vps c) (ctx_vps_rules c) (ctx_rule c) (ctx_event c) (ctx_query c) (ctx_server c)
    (ctx_job c) (ctx_schedule c) (ctx_alert c) (ctx_policy_rule c) (ctx_telemetry c)
    (ctx_objects c) ({[ to_ascii_lowercase predicate ]} ∪ ctx_event_predicates c).

Definition with_vps_rules (c : ExpressionContext) (rules : VpsRuleContext) : ExpressionContext :=
  mkContext (ctx_vps c) (Some rules) (ctx_rule c) (ctx_event c) (ctx_query c) (ctx_server c)
    (ctx_job c) (ctx_schedule c) (ctx_alert c) (ctx_policy_rule c) (ctx_telemetry c)
    (ctx_objects c) (ctx_event_predicates c).

Definition with_json_root (c : ExpressionContext) (root : str) (value : Value) : ExpressionContext :=
  let root := to_ascii_lowercase root in
  let named name := str_eqb root (lit name) in
  let put name (old : option Value) := if named name then Some value else old in
  mkContext (ctx_vps c) (ctx_vps_rules c) (put "rule" (ctx_rule c)) (put "event" (ctx_event c))
    (put "query" (ctx_query c)) (put "server" (ctx_server c)) (put "job" (ctx_job c))
    (put "schedule" (ctx_schedule c)) (put "alert" (ctx_alert c))
    (put "policy_rule" (ctx_policy_rule c)) (put "telemetry" (ctx_telemetry c))
    (if one_of root ["rule"; "event"; "query"; "server"; "job"; "schedule"; "alert";
                     "policy_rule"; "telemetry"]
     then ctx_objects c else <[ root := value ]> (ctx_objects c))
    (ctx_event_predicates c).

Definition rule_context_insert (rules : VpsRuleContext) (key raw : str) (json : Value) :
  VpsRuleContext :=
  <[ to_ascii_lowercase (trim key) := mkRule raw json ]> rules.

Definition rule_context_from_values (values : list (str * VpsRuleValue)) : VpsRuleContext :=
  foldl (fun rules '(key, value) => <[ to_ascii_lowercase (trim key) := value ]> rules) ∅ values.

(** * Fields *)

Definition canonical_field (field : str) : str :=
  let field := to_ascii_lowercase field in
  if one_of field ["id"; "client_id"; "vps.id"; "vps.client_id"] then lit "vps.id"
  else if one_of field ["name"; "display_name"; "vps.name"; "vps.display_name"] then
    lit "vps.display_name"
  else if one_of field ["status"; "vps.status"] then lit "vps.status"
  else if one_of field ["tag"; "tags"; "vps.tag"; "vps.tags"] then lit "vps.tag"
  else if one_of field ["last_seen"; "last_seen_at"; "vps.last_seen"; "vps.last_seen_at"] then
    lit "vps.last_seen_at"
  else if one_of field ["region"; "vps.region"] then lit "vps.region"
  else field.

Definition is_vps_rule_field (field : str) : bool :=
  let field := to_ascii_lowercase field in
  str_eqb field VPS_RULE_FIELD || starts_with field (lit "vps.rules:")
  || starts_with field (lit "vps.rules.").

Definition is_order_operator (operator : ComparisonOperator) : bool :=
  match operator with Lt | Lte | Gt | Gte => true | Eq | NotEq => false end.

Definition option_string_value (value : option str) : option (list FieldValue) :=
  option_map (fun v => [FString v]) value.

Definition tag_alias_values (tags : list str) (prefix : str) : list FieldValue :=
  omap (fun tag =>
          if starts_with (to_ascii_lowercase tag) (to_ascii_lowercase prefix)
          then Some (FString (drop (length prefix) tag)) else None) tags.

(** [s.trim_start_matches(p)]: every leading occurrence; [length s] rounds are
    enough since each one removes a non-empty prefix. *)
Fixpoint trim_start_str_go (fuel : nat) (p s : str) : str :=
  match fuel with
  | O => s
  | S fuel' => match strip_prefix p s with Some r => trim_start_str_go fuel' p r | None => s end
  end.
Definition trim_start_str (p s : str) : str := trim_start_str_go (length s) p s.

(** [value.fract() == 0.0] and [value as i64] of a finite float. *)
Definition f64_is_integer (v : f64) : bool :=
  match v with
  | S754_zero _ => true
  | S754_finite _ m e => if 0 <=? e then true else (Zpos m mod 2 ^ (- e) =? 0)
  | _ => false
  end.
Definition f64_trunc (v : f64) : Z :=
  match v with
  | S754_finite neg m e =>
      let a := if 0 <=? e then Zpos m * 2 ^ e else Zpos m / 2 ^ (- e) in
      if (neg : bool) then - a else a
  | _ => 0
  end.
Definition f64_as_i64 (v : f64) : Z := Z.max i64_min (Z.min i64_max (f64_trunc v)).

(** [text.parse::<f64>().ok().filter(|value| value.is_finite())]. *)
Definition parse_finite (text : str) : option f64 :=
  match parse_f64 text with Some v => if f64_is_finite v then Some v else None | None => None end.

Definition parse_i128 (text : str) : option Z := parse_signed i128_min i128_max text.
Definition parse_i64 (text : str) : option Z := parse_signed i64_min i64_max text.

(** The equality and order operators are never mixed up by the callers; the
    [Eq] and [NotEq] arms are the source's [unreachable!]. *)
Definition compare_order (actual expected : Z) (operator : ComparisonOperator) : bool :=
  match operator with
  | Lt => actual <? expected
  | Lte => actual <=? expected
  | Gt => expected <? actual
  | Gte => expected <=? actual
  | Eq | NotEq => false
  end.

Definition compare_order_f64 (actual expected : f64) (operator : ComparisonOperator) : bool :=
  match operator with
  | Lt => SFltb actual expected
  | Lte => SFleb actual expected
  | Gt => SFltb expected actual
  | Gte => SFleb expected actual
  | Eq | NotEq => false
  end.

(** * Literals and globs *)

(** The loop of [glob_matches]: the rest of the value and of the pattern, and
    after a star the pattern behind it with the value it was tried at.  Each
    iteration consumes a value byte, a pattern byte or a retry position. *)
Fixpoint glob_loop (fuel : nat) (value pattern : list Z) (star : option (list Z * list Z)) : bool :=
  match fuel with
  | O => false
  | S fuel' =>
      match value with
      | [] => is_empty (drop_while (Z.eqb 42) pattern)
      | v :: value' =>
          match pattern with
          | p :: pattern' =>
              if (p =? 63) || (p =? v) then glob_loop fuel' value' pattern' star
              else if p =? 42 then glob_loop fuel' value pattern' (Some (pattern', value))
              else match star with
                   | Some (after, _ :: tried) => glob_loop fuel' tried after (Some (after, tried))
                   | _ => false
                   end
          | [] =>
              match star with
              | Some (after, _ :: tried) => glob_loop fuel' tried after (Some (after, tried))
              | _ => false
              end
          end
      end
  end.

(** A retry drops one more value byte and scans at most the whole pattern. *)
Definition glob_fuel (value pattern : list Z) : nat :=
  S (S (length value) * S (length value + length pattern)).

Definition glob_matches (value pattern : str) : bool :=
  let value := as_bytes value in
  let pattern := as_bytes pattern in
  glob_loop (glob_fuel value pattern) value pattern None.

Definition has_wildcard (text : str) : bool := contains_char 42 text || contains_char 63 text.

Definition literal_matches (value pattern : str) (allow_contains : bool) : bool :=
  let value := to_ascii_lowercase value in
  let pattern := to_ascii_lowercase pattern in
  if has_wildcard pattern then glob_matches value pattern
  else if allow_contains then contains_str value pattern
  else str_eqb value pattern.

(** * Values of a field *)

Section Evaluation.

Variable regex_is_match : str -> str -> bool.
Variable parse_rfc3339 : str -> option Z.
Variable float_to_string : f64 -> str.

Fixpoint json_value_to_field_values (value : Value) : option (list FieldValue) :=
  match value with
  | Str value => Some [FString value]
  | Num n =>
      match n with
      | PosInt z | NegInt z => Some [FNumber z]
      | Float f => if f64_is_finite f then Some [FDecimal (float_to_string f)] else None
      end
  | Bool b => Some [FString (lit (if b then "true" else "false"))]
  | Array values =>
      Some (flat_map (fun v => default [] (json_value_to_field_values v)) values)
  | Null | Object _ => None
  end.

Definition path_step (current : option Value) (segment : str) : option Value :=
  match current with
  | None => None
  | Some current => if is_empty segment then None else json_get current segment
  end.

Definition json_path_values (value : Value) (path : str) : option (list FieldValue) :=
  foldl path_step (Some value) (split 46 path) ≫= json_value_to_field_values.

Definition vps_rule_field_values (rules : option VpsRuleContext) (field : str) :
  option (list FieldValue) :=
  if str_eqb field VPS_RULE_FIELD then option_map (fun r => map FString (rule_keys r)) rules
  else
    key ← strip_prefix (lit "vps.rules:") field;
    rules ← rules;
    rule ← rules !! key;
    Some [FString (value_raw rule)].

Definition vps_field_values (vps : option VpsMetadata) (field : str) : option (list FieldValue) :=
  vps ← vps;
  let named name := str_eqb field (lit name) in
  if named "vps.id" then Some [FString (vps_id vps)]
  else if named "vps.display_name" then Some [FString (vps_display_name vps)]
  else if named "vps.status" then Some [FString (vps_status vps)]
  else if named "vps.tag" then Some (map FString (vps_tags vps))
  else if named "vps.provider" then Some (tag_alias_values (vps_tags vps) (lit "provider:"))
  else if named "vps.country" then Some (tag_alias_values (vps_tags vps) (lit "country:"))
  else if named "vps.region" then Some (tag_alias_values (vps_tags vps) (lit "region:"))
  else if named "vps.registration_ip" then option_string_value (vps_registration_ip vps)
  else if named "vps.last_ip" then option_string_value (vps_last_ip vps)
  else if named "vps.last_seen_at" then option_string_value (vps_last_seen_at vps)
  else if named "vps.internal_build_number" then
    option_map (fun n => [FNumber n]) (vps_internal_build_number vps)
  else if named "vps.stale_since" then option_string_value (vps_stale_since vps)
  else if named "vps.stale_reason" then option_string_value (vps_stale_reason vps)
  else if starts_with field (lit "vps.") then
    vps_extra vps ≫= fun extra => json_path_values extra (trim_start_str (lit "vps.") field)
  else None.

Definition context_root (context : ExpressionContext) (root : str) : option Value :=
  let named name := str_eqb root (lit name) in
  if named "rule" then ctx_rule context
  else if named "event" then ctx_event context
  else if named "query" then ctx_query context
  else if named "server" then ctx_server context
  else if named "job" then ctx_job context
  else if named "schedule" then ctx_schedule context
  else if named "alert" then ctx_alert context
  else if named "policy_rule" then ctx_policy_rule context
  else if named "telemetry" then ctx_telemetry context
  else ctx_objects context !! root.

Definition field_values (context : ExpressionContext) (field : str) : option (list FieldValue) :=
  let field := canonical_field field in
  match vps_rule_field_values (ctx_vps_rules context) field with
  | Some values => Some values
  | None =>
      match vps_field_values (ctx_vps context) field with
      | Some values => Some values
      | None =>
          root_path ← split_once 46 field;
          value ← context_root context (fst root_path);
          json_path_values value (snd root_path)
      end
  end.

(** * Comparing field values *)

Definition parse_timestamp (value : str) : option Z :=
  match parse_i64 value with
  | Some seconds => Some seconds
  | None => parse_rfc3339 value
  end.

Definition field_value_timestamp (value : FieldValue) : option Z :=
  match value with
  | FString value => parse_timestamp value
  | FNumber value => if in_range i64_min i64_max value then Some value else None
  | FDecimal value =>
      match parse_finite value with
      | Some v =>
          if f64_is_integer v
             && SFleb (f64_of_Z i64_min) v && SFleb v (f64_of_Z i64_max)
          then Some (f64_as_i64 v) else None
      | None => None
      end
  end.

Definition field_value_literal_matches (actual : FieldValue) (expected : str) : bool :=
  match actual with
  | FString actual => literal_matches actual expected false
  | FNumber actual => match parse_i128 expected with Some e => actual =? e | None => false end
  | FDecimal actual =>
      match parse_finite actual with
      | None => false
      | Some actual =>
          match parse_finite expected with Some e => SFeqb actual e | None => false end
      end
  end.

(** The last attempt of [order_field_value]: both sides as timestamps. *)
Definition order_timestamps (actual : FieldValue) (operator : ComparisonOperator) (expected : str) :
  bool :=
  match field_value_timestamp actual, parse_timestamp expected with
  | Some a, Some e => compare_order a e operator
  | _, _ => false
  end.

Definition order_field_value (actual : FieldValue) (operator : ComparisonOperator) (expected : str) :
  bool :=
  match actual with
  | FNumber a =>
      match parse_i128 expected with
      | Some e => compare_order a e operator
      | None => order_timestamps actual operator expected
      end
  | FDecimal a =>
      match parse_finite a, parse_finite expected with
      | Some a, Some e => compare_order_f64 a e operator
      | _, _ => order_timestamps actual operator expected
      end
  | FString _ => order_timestamps actual operator expected
  end.

Definition compare_field_value (actual : FieldValue) (operator : ComparisonOperator)
    (expected : str) : bool :=
  match operator with
  | Eq => field_value_literal_matches actual expected
  | NotEq => negb (field_value_literal_matches actual expected)
  | Lt | Lte | Gt | Gte => order_field_value actual operator expected
  end.

Definition list_values_match (actual : str) (expected_values : list ListValue) : bool :=
  existsb (fun expected =>
             match expected with
             | ListLiteral expected => literal_matches actual expected false
             | ListRegex pattern => regex_is_match pattern actual
             end) expected_values.

(** * VPS rules in expressions *)

(** [parse_vps_rule_value(key, value).ok()]. *)
Definition rule_value (key value : str) : option ParsedVpsRuleValue :=
  match parse_vps_rule_value key value with Some (Ok p) => Some p | _ => None end.

Definition normalized_rule_values (key : str) (actual : VpsRuleValue) (expected : str) :
  option (str * str) :=
  actual ← rule_value key (value_raw actual);
  expected ← rule_value key expected;
  Some (raw actual, raw expected).

(** The stored rule a field [vps.rules:<key>] names. *)
Definition rule_of_field (rules : option VpsRuleContext) (field : str) :
  option (str * VpsRuleValue) :=
  key ← strip_prefix (lit "vps.rules:") (to_ascii_lowercase field);
  rules ← rules;
  rule ← rules !! key;
  Some (key, rule).

Definition vps_rule_exact_comparison_matches (rules : option VpsRuleContext) (field : str)
    (operator : ComparisonOperator) (expected : str) : bool :=
  match rule_of_field rules field with
  | None => false
  | Some (key, rule) =>
      match normalized_rule_values key rule expected with
      | None => false
      | Some (actual, expected) =>
          let matched := eq_ignore_ascii_case actual expected in
          match operator with
          | Eq => matched
          | NotEq => negb matched
          | _ => false
          end
      end
  end.

Definition vps_rule_membership_matches (rules : option VpsRuleContext) (field : str)
    (negated : bool) (values : list ListValue) : bool :=
  match rule_of_field rules field with
  | None => false
  | Some (key, rule) =>
      let matched :=
        existsb (fun expected =>
          match expected with
          | ListRegex pattern => regex_is_match pattern (value_raw rule)
          | ListLiteral pattern =>
              if has_wildcard pattern then literal_matches (value_raw rule) pattern false
              else match normalized_rule_values key rule pattern with
                   | Some (actual, expected) => eq_ignore_ascii_case actual expected
                   | None => false
                   end
          end) values in
      if negated then negb matched else matched
  end.

Definition vps_rule_json_integer (value : Value) (field : str) : option Z :=
  value ← json_get value field;
  match as_i64 value with
  | Some n => Some n
  | None =>
      match as_u64 value with
      | Some n => Some n
      | None => as_str value ≫= parse_i128
      end
  end.

Definition parsed_vps_rule_json_integer (rule : VpsRuleValue) (key field : str) : option Z :=
  parsed ← rule_value key (value_raw rule);
  vps_rule_json_integer (json parsed) field.

Definition expected_vps_rule_json_integer (key value field : str) : option Z :=
  parsed ← rule_value key value;
  vps_rule_json_integer (json parsed) field.

Record BillingPriceOrderValue := mkPrice {
  amount_minor : Z;
  price_currency : str;
  price_period : str;
}.

Definition parse_billing_amount_minor (value : str) : option Z :=
  parts ← split_once 46 value;
  let '(whole, fraction) := parts in
  if is_empty whole || negb (forallb is_ascii_digit (as_bytes whole))
     || negb (str_len fraction =? 2) || negb (forallb is_ascii_digit (as_bytes fraction))
  then None
  else
    whole ← parse_i128 whole;
    scaled ← checked_mul i128_max whole 100;
    fraction ← parse_i128 fraction;
    checked_add i128_max scaled fraction.

Definition billing_price_from_json (value : Value) (allow_zero : bool) :
  option BillingPriceOrderValue :=
  if default false (json_get value (lit "disabled") ≫= as_bool) then None
  else
    price ← json_get value (lit "price");
    price ← as_str price;
    amount_minor ← parse_billing_amount_minor price;
    if negb allow_zero && (amount_minor =? 0) then None
    else
      currency ← json_get value (lit "currency");
      currency ← as_str currency;
      period ← json_get value (lit "period_code");
      period ← as_str period;
      Some (mkPrice amount_minor (to_ascii_uppercase currency) (to_ascii_lowercase period)).

Definition parse_billing_price_order_value (value : str) : option BillingPriceOrderValue :=
  parsed ← rule_value (lit "billing.price") value;
  billing_price_from_json (json parsed) false.

Definition billing_price_from_rule (rule : VpsRuleValue) : option BillingPriceOrderValue :=
  parsed ← rule_value (lit "billing.price") (value_raw rule);
  billing_price_from_json (json parsed) true.

(** [a.filter(p).zip(b.filter(p)).is_some_and(compare)]. *)
Definition ordered_pair (p : Z -> bool) (actual expected : option Z)
    (operator : ComparisonOperator) : bool :=
  match actual, expected with
  | Some a, Some e => p a && p e && compare_order a e operator
  | _, _ => false
  end.

Definition vps_rule_order_matches (rules : option VpsRuleContext) (field : str)
    (operator : ComparisonOperator) (expected : str) : bool :=
  match rule_of_field rules field with
  | None => false
  | Some (key, rule) =>
      if str_eqb key (lit "traffic.reset_day") then
        ordered_pair (in_range 1 31) (parsed_vps_rule_json_integer rule key (lit "day"))
          (expected_vps_rule_json_integer key expected (lit "day")) operator
      else if one_of key ["traffic.quota.total"; "traffic.quota.rx"; "traffic.quota.tx"] then
        ordered_pair (Z.leb 0) (parsed_vps_rule_json_integer rule key (lit "bytes"))
          (expected_vps_rule_json_integer key expected (lit "bytes")) operator
      else if str_eqb key (lit "network.port_speed") then
        ordered_pair (Z.ltb 0) (parsed_vps_rule_json_integer rule key (lit "bps"))
          (expected_vps_rule_json_integer key expected (lit "bps")) operator
      else if str_eqb key (lit "billing.price") then
        match billing_price_from_rule rule, parse_billing_price_order_value expected with
        | Some a, Some e =>
            str_eqb (price_currency a) (price_currency e)
            && str_eqb (price_period a) (price_period e)
            && compare_order (amount_minor a) (amount_minor e) operator
        | _, _ => false
        end
      else false
  end.

(** * Predicates and expressions *)

Definition bare_matches (context : ExpressionContext) (raw : str) : bool :=
  match ctx_vps context with
  | None => false
  | Some vps =>
      literal_matches (vps_id vps) raw true || literal_matches (vps_display_name vps) raw true
  end.

Definition comparison_matches (context : ExpressionContext) (field : str)
    (operator : ComparisonOperator) (value : ScalarValue) : bool :=
  let '(ScalarLiteral expected) := value in
  let rule_field := starts_with (to_ascii_lowercase field) (lit "vps.rules:") in
  if negb (is_order_operator operator) && negb (has_wildcard expected) && rule_field then
    vps_rule_exact_comparison_matches (ctx_vps_rules context) field operator expected
  else if is_order_operator operator && rule_field then
    vps_rule_order_matches (ctx_vps_rules context) field operator expected
  else
    match field_values context field with
    | None => false
    | Some values => existsb (fun actual => compare_field_value actual operator expected) values
    end.

Definition field_value_text (actual : FieldValue) : str :=
  match actual with
  | FString value => value
  | FNumber value => to_string value
  | FDecimal value => value
  end.

Definition membership_matches (context : ExpressionContext) (field : str) (negated : bool)
    (values : list ListValue) : bool :=
  if starts_with (to_ascii_lowercase field) (lit "vps.rules:") then
    vps_rule_membership_matches (ctx_vps_rules context) field negated values
  else
    match field_values context field with
    | None => false
    | Some actual_values =>
        let matched :=
          existsb (fun actual => list_values_match (field_value_text actual) values) actual_values in
        if negated then negb matched else matched
    end.

Definition predicate_matches (context : ExpressionContext) (predicate : Predicate) : bool :=
  match predicate with
  | Bare raw => bare_matches context raw
  | Comparison field operator value => comparison_matches context field operator value
  | Membership field negated values => membership_matches context field negated values
  | Event name => bool_decide (name ∈ ctx_event_predicates context)
  | Untagged => match ctx_vps context with Some vps => is_empty (vps_tags vps) | None => false end
  end.

Definition truth_of_bool (b : bool) : ExpressionTruth := if b then True_ else False_.

Definition predicate_truth (context : ExpressionContext) (predicate : Predicate) : ExpressionTruth :=
  match predicate with
  | Bare raw =>
      match ctx_vps context with
      | None => Unknown
      | Some _ => truth_of_bool (bare_matches context raw)
      end
  | Comparison field operator value =>
      match field_values context field with
      | None => Unknown
      | Some _ => truth_of_bool (comparison_matches context field operator value)
      end
  | Membership field negated values =>
      match field_values context field with
      | None => Unknown
      | Some _ => truth_of_bool (membership_matches context field negated values)
      end
  | Event name => truth_of_bool (bool_decide (name ∈ ctx_event_predicates context))
  | Untagged =>
      match ctx_vps context with
      | Some vps => truth_of_bool (is_empty (vps_tags vps))
      | None => Unknown
      end
  end.

Fixpoint expression_matches (context : ExpressionContext) (expression : Expression) : bool :=
  match expression with
  | Pred predicate => predicate_matches context predicate
  | Not inner => negb (expression_matches context inner)
  | And l r => expression_matches context l && expression_matches context r
  | Or l r => expression_matches context l || expression_matches context r
  end.

Fixpoint expression_truth (context : ExpressionContext) (expression : Expression) :
  ExpressionTruth :=
  match expression with
  | Pred predicate => predicate_truth context predicate
  | Not inner => truth_not (expression_truth context inner)
  | And l r => truth_and (expression_truth context l) (expression_truth context r)
  | Or l r => truth_or (expression_truth context l) (expression_truth context r)
  end.

End Evaluation.

(** * What an expression refers to *)

Definition collect_predicate_roots (predicate : Predicate) (roots : gset str) : gset str :=
  match predicate with
  | Comparison field _ _ | Membership field _ _ =>
      match split_once 46 field with Some (root, _) => {[ root ]} ∪ roots | None => roots end
  | Bare _ | Event _ | Untagged => roots
  end.

Fixpoint collect_expression_roots (expression : Expression) (roots : gset str) : gset str :=
  match expression with
  | Pred predicate => collect_predicate_roots predicate roots
  | Not inner => collect_expression_roots inner roots
  | And l r | Or l r =>
      collect_expression_roots r (collect_expression_roots l roots)
  end.

Definition expression_referenced_roots (expression : Expression) : gset str :=
  collect_expression_roots expression ∅.

Fixpoint collect_expression_events (expression : Expression) (events : gset str) : gset str :=
  match expression with
  | Pred (Event event) => {[ event ]} ∪ events
  | Pred _ => events
  | Not inner => collect_expression_events inner events
  | And l r | Or l r =>
      collect_expression_events r (collect_expression_events l events)
  end.

Definition expression_referenced_events (expression : Expression) : gset str :=
  collect_expression_events expression ∅.

Fixpoint expression_references_vps_rules (expression : Expression) : bool :=
  match expression with
  | Pred (Comparison field _ _) | Pred (Membership field _ _) => is_vps_rule_field field
  | Pred (Bare raw) => is_vps_rule_field raw
  | Pred _ => false
  | Not inner => expression_references_vps_rules inner
  | And l r | Or l r =>
      expression_references_vps_rules l || expression_references_vps_rules r
  end.
