(* ===== verification/ExpressionParser.v ===== *)
(** The text of expressions: tokenizer, parser and validation of
    crates/common/src/selection/expression.rs.

    The source walks an index over the chars and a position over the tokens;
    the model passes the rest of the list instead.  The byte offset of an error
    message is the length of the whole input less that of the rest.  The parser
    recurses on fuel; [None] stands for exhausted fuel and for the
    [unreachable!] arm, and the theorems show that neither happens for the fuel
    the entry points use.  [regex_new] stands for [Regex::new] of the regex
    crate: the error text of a pattern that does not compile. *)

From S2P Require Import Prelude RustStd F64 Json VpsRules Expression.

Open Scope Z_scope.

Inductive TokenKind :=
| TAnd | TColon | TComma | TEq | TGt | TGte | TIn | TLeftBracket | TLeftParen | TLt | TLte
| TNot | TNotEq | TOr
| TRegex (pattern : str)
| TRightBracket | TRightParen
| TString (s : str)
| TWord (s : str).

Abbreviation outcome := (result str) (only parsing).

(** [format!("... starting at byte {start}")] where [rest] starts there. *)
Definition at_byte (text : string) (input rest : str) : str :=
  lit text ++ to_string (str_len input - str_len rest).

(** * Tokens *)

Definition is_word_end (c : char) : bool := contains_char c (lit "()[],=!<>&|~").

Definition next_is (c : char) (s : str) : bool :=
  match s with d :: _ => d =? c | [] => false end.

(** The body of a quoted part: its text up to the closing quote, and the rest. *)
Fixpoint read_quoted (quote : char) (escaped : bool) (value : str) (s : str) : option (str * str) :=
  match s with
  | [] => None
  | c :: s' =>
      if escaped then read_quoted quote false (value ++ [c]) s'
      else if c =? 92 then read_quoted quote true value s'
      else if c =? quote then Some (value, s')
      else read_quoted quote false (value ++ [c]) s'
  end.

(** [read_word]; [quote] is the open quote with the text it starts at. *)
Fixpoint read_word (input : str) (value : str) (quote : option (char * str)) (escaped : bool)
    (s : str) : outcome (str * str) :=
  match s with
  | [] =>
      match quote with
      | Some (_, start) => Err (at_byte "unterminated quoted value starting at byte " input start)
      | None => Ok (value, [])
      end
  | c :: s' =>
      match quote with
      | Some (active, _) =>
          if escaped then read_word input (value ++ [c]) quote false s'
          else if c =? 92 then read_word input value quote true s'
          else if c =? active then read_word input value None false s'
          else read_word input (value ++ [c]) quote false s'
      | None =>
          if is_whitespace c || (c =? 35) || ((c =? 47) && next_is 42 s') || is_word_end c
          then Ok (value, s)
          else if (c =? 34) || (c =? 39) then read_word input value (Some (c, s)) false s'
          else read_word input (value ++ [c]) None false s'
      end
  end.

Fixpoint read_regex (escaped : bool) (pattern : str) (s : str) : option (outcome (str * str)) :=
  match s with
  | [] => None
  | c :: s' =>
      if escaped then read_regex false (pattern ++ [92; c]) s'
      else if c =? 92 then read_regex true pattern s'
      else if c =? 47 then
        Some (if match s' with flag :: _ => is_ascii_alphabetic flag | [] => false end
              then Err (lit "regex flags are not supported") else Ok (pattern, s'))
      else read_regex false (pattern ++ [c]) s'
  end.

(** The rest after the closing [*/] of a block comment. *)
Fixpoint skip_block (s : str) : option str :=
  match s with
  | a :: s' =>
      match s' with
      | b :: s'' => if (a =? 42) && (b =? 47) then Some s'' else skip_block s'
      | [] => None
      end
  | [] => None
  end.

(** The line comment ends before a carriage return or line feed. *)
Definition skip_line (s : str) : str := drop_while (fun c => negb ((c =? 13) || (c =? 10))) s.

Definition word_token (raw : str) : TokenKind :=
  let lower := to_ascii_lowercase raw in
  if str_eqb lower (lit "and") then TAnd
  else if str_eqb lower (lit "or") then TOr
  else if str_eqb lower (lit "not") then TNot
  else if str_eqb lower (lit "in") then TIn
  else TWord raw.

(** One iteration of the loop of [tokenize] on the rest [c :: s']: the tokens it
    pushes (at most one) and the new rest. *)
Definition token_step (input : str) (c : char) (s' : str) : outcome (list TokenKind * str) :=
  let s := c :: s' in
  if is_whitespace c then Ok ([], s')
  else if c =? 35 then Ok ([], skip_line s)
  else if (c =? 47) && next_is 42 s' then
    match skip_block (tail s') with
    | None => Err (at_byte "unterminated block comment starting at byte " input s)
    | Some rest => Ok ([], rest)
    end
  else if c =? 40 then Ok ([TLeftParen], s')
  else if c =? 41 then Ok ([TRightParen], s')
  else if c =? 91 then Ok ([TLeftBracket], s')
  else if c =? 93 then Ok ([TRightBracket], s')
  else if c =? 44 then Ok ([TComma], s')
  else if c =? 58 then Ok ([TColon], s')
  else if c =? 126 then Ok ([TNot], s')
  else if c =? 33 then
    if next_is 61 s' then Ok ([TNotEq], tail s') else Ok ([TNot], s')
  else if c =? 61 then Ok ([TEq], s')
  else if c =? 60 then
    if next_is 61 s' then Ok ([TLte], tail s') else Ok ([TLt], s')
  else if c =? 62 then
    if next_is 61 s' then Ok ([TGte], tail s') else Ok ([TGt], s')
  else if c =? 38 then
    if next_is 38 s' then Ok ([TAnd], tail s')
    else Err (lit "use && or || for boolean operators")
  else if c =? 124 then
    if next_is 124 s' then Ok ([TOr], tail s')
    else Err (lit "use && or || for boolean operators")
  else if (c =? 34) || (c =? 39) then
    match read_quoted c false [] s' with
    | None => Err (at_byte "unterminated quoted value starting at byte " input s)
    | Some (value, rest) => Ok ([TString value], rest)
    end
  else if c =? 47 then
    match read_regex false [] s' with
    | None => Err (at_byte "unterminated regex value starting at byte " input s)
    | Some (Err e) => Err e
    | Some (Ok (pattern, rest)) => Ok ([TRegex pattern], rest)
    end
  else
    word_rest ← read_word input [] None false s;
    let '(word, rest) := word_rest in
    let raw := trim word in
    Ok (if is_empty raw then [] else [word_token raw], rest).

(** Every iteration shortens the rest, so its length is enough fuel. *)
Fixpoint tokenize_go (input : str) (fuel : nat) (s : str) : option (outcome (list TokenKind)) :=
  match s with
  | [] => Some (Ok [])
  | c :: s' =>
      match fuel with
      | O => None
      | S fuel' =>
          match token_step input c s' with
          | Err e => Some (Err e)
          | Ok (pushed, rest) =>
              match tokenize_go input fuel' rest with
              | Some (Ok tokens) => Some (Ok (pushed ++ tokens))
              | other => other
              end
          end
      end
  end.

Definition tokenize (input : str) : option (outcome (list TokenKind)) :=
  tokenize_go input (length input) input.

(** * Predicates *)

Definition is_event_predicate (raw : str) : bool :=
  let lower := to_ascii_lowercase raw in
  existsb (fun p => starts_with lower (lit p))
    ["interval."; "vps.status."; "vps.tag_event:"; "vps.tag_event.added:";
     "vps.tag_event.removed:"; "job.status:"; "job.status.become_"; "job.type:";
     "job.target.status:"; "schedule.id:"; "schedule.name:"; "alert.severity:";
     "alert.category:"]
  || one_of lower
       ["server.on_start"; "schedule.due"; "schedule.job_finished"; "schedule.failed";
        "vps.tag_changed"; "job.created"; "alert.triggered"; "alert.resolved";
        "telemetry.rollup"; "telemetry.network_rate"; "telemetry.tunnel"].

Definition is_event_field_alias (namespace : str) : bool :=
  existsb (fun p => starts_with namespace (lit p)) ["job."; "schedule."; "alert."; "telemetry."].

Definition tag_membership (tag : str) : Predicate :=
  Membership (lit "vps.tag") false [ListLiteral tag].

(** The field of a shorthand [namespace:value], or the tag it stands for. *)
Definition shorthand_field (namespace value : str) : str + str :=
  let lower := to_ascii_lowercase namespace in
  if str_eqb lower (lit "id") then inl (lit "vps.id")
  else if str_eqb lower (lit "name") then inl (lit "vps.display_name")
  else if str_eqb lower (lit "status") then inl (lit "vps.status")
  else if one_of lower ["tag"; "tags"; "vps.tag"; "vps.tags"] then inl (lit "vps.tag")
  else if str_eqb lower (lit "provider") then inr (lit "provider:" ++ value)
  else if str_eqb lower (lit "country") then inr (lit "country:" ++ value)
  else if str_eqb lower (lit "region") then inr (lit "region:" ++ value)
  else if starts_with lower (lit "vps.") then inl (canonical_field namespace)
  else if is_event_field_alias lower then inl (canonical_field namespace)
  else inr (namespace ++ lit ":" ++ value).

Definition shorthand_predicate (namespace value : str) : Predicate :=
  match shorthand_field namespace value with
  | inr tag => tag_membership tag
  | inl field =>
      if one_of field ["vps.tag"; "vps.tags"] then tag_membership value
      else Comparison field Eq (ScalarLiteral value)
  end.

Definition comparison_operator (token : TokenKind) : option ComparisonOperator :=
  match token with
  | TEq => Some Eq
  | TNotEq => Some NotEq
  | TLt => Some Lt
  | TLte => Some Lte
  | TGt => Some Gt
  | TGte => Some Gte
  | _ => None
  end.

(** [consume_comparison_operator]. *)
Definition consume_comparison_operator (tokens : list TokenKind) :
  option (ComparisonOperator * list TokenKind) :=
  match tokens with
  | token :: rest => option_map (fun operator => (operator, rest)) (comparison_operator token)
  | [] => None
  end.

Definition parse_scalar_value (tokens : list TokenKind) : outcome (ScalarValue * list TokenKind) :=
  match tokens with
  | (TWord value | TString value) :: rest => Ok (ScalarLiteral value, rest)
  | TRegex _ :: _ => Err (lit "regex scalar values are only supported in lists")
  | _ => Err (lit "comparison is missing a scalar value")
  end.

Section Parsing.

Variable regex_new : str -> result str unit.

(** The loop of [parse_list_values] after the opening bracket; [values] are the
    ones read so far. *)
Fixpoint parse_list_items (values : list ListValue) (tokens : list TokenKind) :
  outcome (list ListValue * list TokenKind) :=
  let continue value rest :=
    match rest with
    | TComma :: rest' => parse_list_items (values ++ [value]) rest'
    | TRightBracket :: rest' => Ok (values ++ [value], rest')
    | _ :: _ => Err (lit "membership list values must be comma-separated")
    | [] => Err (lit "membership list is missing ]")
    end in
  match tokens with
  | (TWord value | TString value) :: rest => continue (ListLiteral value) rest
  | TRegex pattern :: rest =>
      match regex_new pattern with
      | Err error => Err (lit "invalid regex list value: " ++ error)
      | Ok _ => continue (ListRegex pattern) rest
      end
  | TRightBracket :: _ =>
      if is_empty values then Err (lit "membership list must not be empty")
      else Err (lit "membership list contains an invalid value")
  | _ :: _ => Err (lit "membership list contains an invalid value")
  | [] => Err (lit "membership list is missing ]")
  end.

Definition parse_list_values (tokens : list TokenKind) : outcome (list ListValue * list TokenKind) :=
  match tokens with
  | TLeftBracket :: rest => parse_list_items [] rest
  | _ => Err (lit "membership comparison is missing [")
  end.

Variable field_aliases : bool.

Definition field_name (raw : str) : str :=
  if field_aliases then canonical_field raw else to_ascii_lowercase raw.

(** A word that no operator follows. *)
Definition parse_bare_word (raw : str) : outcome Predicate :=
  if negb field_aliases then
    match split_once 58 raw with
    | Some (field, value) =>
        if is_empty field || is_empty value
        then Err (lit "field:value requires both a field and a value")
        else Ok (Comparison (to_ascii_lowercase field) Eq (ScalarLiteral value))
    | None => Ok (Bare raw)
    end
  else if eq_ignore_ascii_case raw (lit "untagged") then Ok Untagged
  else if is_event_predicate raw then Ok (Event (to_ascii_lowercase raw))
  else
    match split_once 58 raw with
    | Some (namespace, value) =>
        if is_empty namespace then Err (lit "selector namespace is empty")
        else if is_empty value then Err (lit "selector value is empty")
        else Ok (shorthand_predicate namespace value)
    | None => Ok (Bare raw)
    end.

Definition parse_predicate (raw : str) (tokens : list TokenKind) :
  outcome (Predicate * list TokenKind) :=
  match consume_comparison_operator tokens with
  | Some (operator, rest) =>
      value_rest ← parse_scalar_value rest;
      Ok (Comparison (field_name raw) operator (fst value_rest), snd value_rest)
  | None =>
      match tokens with
      | TIn :: rest =>
          values_rest ← parse_list_values rest;
          Ok (Membership (field_name raw) false (fst values_rest), snd values_rest)
      | TNot :: TIn :: rest =>
          values_rest ← parse_list_values rest;
          Ok (Membership (field_name raw) true (fst values_rest), snd values_rest)
      | _ =>
          predicate ← parse_bare_word raw;
          Ok (predicate, tokens)
      end
  end.

(** * The recursive descent *)

Definition next_starts_primary (tokens : list TokenKind) : bool :=
  match tokens with
  | (TWord _ | TLeftParen | TNot) :: _ => true
  | _ => false
  end.

Abbreviation parsing := (option (outcome (Expression * list TokenKind))) (only parsing).

(** [x?] inside the fuelled parser. *)
Definition andthen (m : parsing) (k : Expression -> list TokenKind -> parsing) : parsing :=
  match m with
  | Some (Ok (e, rest)) => k e rest
  | other => other
  end.

Fixpoint parse_or (fuel : nat) (depth : Z) (tokens : list TokenKind) {struct fuel} : parsing :=
  match fuel with
  | O => None
  | S fuel' => andthen (parse_and fuel' depth tokens) (or_loop fuel' depth)
  end
with or_loop (fuel : nat) (depth : Z) (expression : Expression) (tokens : list TokenKind)
    {struct fuel} : parsing :=
  match fuel with
  | O => None
  | S fuel' =>
      match tokens with
      | TOr :: rest =>
          andthen (parse_and fuel' depth rest)
            (fun r rest => or_loop fuel' depth (Or expression r) rest)
      | _ => Some (Ok (expression, tokens))
      end
  end
with parse_and (fuel : nat) (depth : Z) (tokens : list TokenKind) {struct fuel} : parsing :=
  match fuel with
  | O => None
  | S fuel' => andthen (parse_not fuel' depth tokens) (and_loop fuel' depth)
  end
with and_loop (fuel : nat) (depth : Z) (expression : Expression) (tokens : list TokenKind)
    {struct fuel} : parsing :=
  match fuel with
  | O => None
  | S fuel' =>
      match tokens with
      | TAnd :: rest =>
          andthen (parse_not fuel' depth rest)
            (fun r rest => and_loop fuel' depth (And expression r) rest)
      | _ =>
          if next_starts_primary tokens then
            andthen (parse_not fuel' depth tokens)
              (fun r rest => and_loop fuel' depth (And expression r) rest)
          else Some (Ok (expression, tokens))
      end
  end
with parse_not (fuel : nat) (depth : Z) (tokens : list TokenKind) {struct fuel} : parsing :=
  match fuel with
  | O => None
  | S fuel' =>
      if negb field_aliases && (64 <=? depth)
      then Some (Err (lit "Search nesting exceeds 64 levels."))
      else
        match tokens with
        | TNot :: rest =>
            andthen (parse_not fuel' (depth + 1) rest) (fun inner rest => Some (Ok (Not inner, rest)))
        | _ => parse_primary fuel' (depth + 1) tokens
        end
  end
with parse_primary (fuel : nat) (depth : Z) (tokens : list TokenKind) {struct fuel} : parsing :=
  match fuel with
  | O => None
  | S fuel' =>
      match tokens with
      | TWord raw :: rest =>
          Some (predicate_rest ← parse_predicate raw rest;
                Ok (Pred (fst predicate_rest), snd predicate_rest))
      | TLeftParen :: rest =>
          andthen (parse_or fuel' depth rest)
            (fun expression rest =>
               match rest with
               | TRightParen :: rest' => Some (Ok (expression, rest'))
               | _ => Some (Err (lit "missing closing parenthesis"))
               end)
      | (TAnd | TOr | TIn) :: _ => Some (Err (lit "operator is missing a left operand"))
      | TNot :: _ => None
      | TRightParen :: _ => Some (Err (lit "unexpected closing parenthesis"))
      | TString raw :: rest =>
          if negb field_aliases then Some (Ok (Pred (Bare raw), rest))
          else Some (Err (lit "predicate must start with a field or shorthand term"))
      | _ :: _ => Some (Err (lit "predicate must start with a field or shorthand term"))
      | [] => Some (Err (lit "expression is incomplete"))
      end
  end.

End Parsing.

(** * Validation *)

(** [parse_vps_rule_value(key, value)] with the error text of the validators. *)
Definition check_rule_value (key value : str) : outcome unit :=
  match parse_vps_rule_value key value with
  | Some (Ok _) => Ok tt
  | Some (Err error) =>
      Err (lit "invalid value for VPS rule `" ++ key ++ lit "`: " ++ error)
  | None => Err []
  end.

Definition validate_vps_rule_key (key : str) : outcome unit :=
  if existsb (str_eqb key) SUPPORTED_VPS_RULE_KEYS then Ok tt
  else Err (lit "unsupported VPS rule key `" ++ key ++ lit "`").

Definition validate_vps_rule_key_pattern (pattern : str) : outcome unit :=
  if has_wildcard pattern then Ok tt else validate_vps_rule_key (to_ascii_lowercase pattern).

Definition quota_key (key : str) : bool :=
  one_of key ["traffic.quota.total"; "traffic.quota.rx"; "traffic.quota.tx"].

Definition holds (o : option Z) (p : Z -> bool) : bool :=
  match o with Some v => p v | None => false end.

(** Whether the right-hand side of an ordered comparison is usable; [None] when
    the rule has no order. *)
Definition order_rhs_valid (key expected : str) : option bool :=
  if str_eqb key (lit "traffic.reset_day") then
    Some (holds (expected_vps_rule_json_integer key expected (lit "day")) (in_range 1 31))
  else if quota_key key then
    Some (holds (expected_vps_rule_json_integer key expected (lit "bytes")) (Z.leb 0))
  else if str_eqb key (lit "network.port_speed") then
    Some (holds (expected_vps_rule_json_integer key expected (lit "bps")) (Z.ltb 0))
  else if str_eqb key (lit "billing.price") then
    Some (match parse_billing_price_order_value expected with Some _ => true | None => false end)
  else None.

Definition order_requirement (key : str) : string :=
  if str_eqb key (lit "traffic.reset_day") then "a day from 1 to 31"
  else if quota_key key then
    "a positive byte size using B, KB, MB, GB, TB, KiB, MiB, GiB, or TiB"
  else if str_eqb key (lit "network.port_speed") then
    "a positive speed using bps, Kbps, Mbps, Gbps, or Tbps"
  else "a positive amount with currency and period, such as 50 USD/m".

Definition validate_vps_rule_order_rhs (key expected : str) : outcome unit :=
  match order_rhs_valid key expected with
  | None =>
      Err (lit "VPS rule `" ++ key ++ lit "` does not support ordered comparisons")
  | Some true => Ok tt
  | Some false =>
      Err (lit "VPS rule `" ++ key ++ lit "` ordered comparison requires "
           ++ lit (order_requirement key))
  end.

Definition RULE_VALUE_HINT : str :=
  lit "VPS rule values use vps.rules:<key>, for example vps.rules:traffic.reset_day".

Definition validate_vps_rule_comparison (field : str) (operator : ComparisonOperator)
    (expected : str) : outcome unit :=
  let field := to_ascii_lowercase field in
  if str_eqb field VPS_RULE_FIELD then
    match operator with
    | Eq => validate_vps_rule_key_pattern expected
    | NotEq => Err (lit "vps.rules key absence uses !(vps.rules:<key>), not !=")
    | Lt | Lte | Gt | Gte =>
        Err (lit "vps.rules key presence does not support ordered comparisons")
    end
  else
    match strip_prefix (lit "vps.rules:") field with
    | None => if starts_with field (lit "vps.rules.") then Err RULE_VALUE_HINT else Ok tt
    | Some key =>
        validate_vps_rule_key key;;
        (if negb (is_order_operator operator) && negb (has_wildcard expected)
         then check_rule_value key expected else Ok tt);;
        if is_order_operator operator then validate_vps_rule_order_rhs key expected else Ok tt
    end.

(** [for value in values { if let Literal(text) = value { check(text)? } }]. *)
Definition each_literal (check : str -> outcome unit) (values : list ListValue) : outcome unit :=
  try_fold (fun _ value =>
              match value with ListLiteral text => check text | ListRegex _ => Ok tt end) tt values.

Definition validate_vps_rule_membership (field : str) (negated : bool) (values : list ListValue) :
  outcome unit :=
  let field := to_ascii_lowercase field in
  if str_eqb field VPS_RULE_FIELD then
    if negated then
      Err (lit "vps.rules key absence uses unary ! around a presence expression, not `not in`")
    else each_literal validate_vps_rule_key_pattern values
  else
    match strip_prefix (lit "vps.rules:") field with
    | Some key =>
        validate_vps_rule_key key;;
        each_literal (fun text => if has_wildcard text then Ok tt else check_rule_value key text)
          values
    | None => if starts_with field (lit "vps.rules.") then Err RULE_VALUE_HINT else Ok tt
    end.

Definition validate_vps_rule_bare (raw : str) : outcome unit :=
  let raw := to_ascii_lowercase raw in
  if str_eqb raw VPS_RULE_FIELD || starts_with raw (lit "vps.rules.") then
    Err (lit "choose a VPS rule; use vps.rules:<key>, for example vps.rules:traffic.reset_day")
  else Ok tt.

Definition validate_predicate (predicate : Predicate) : outcome unit :=
  match predicate with
  | Comparison field operator (ScalarLiteral expected) =>
      validate_vps_rule_comparison field operator expected
  | Membership field negated values => validate_vps_rule_membership field negated values
  | Bare raw => validate_vps_rule_bare raw
  | Event _ | Untagged => Ok tt
  end.

Fixpoint validate_expression (expression : Expression) : outcome unit :=
  match expression with
  | Pred predicate => validate_predicate predicate
  | Not inner => validate_expression inner
  | And l r | Or l r => validate_expression l;; validate_expression r
  end.

(** * Entry points *)

(** Four calls reach a primary, which consumes a token. *)
Definition parser_fuel (tokens : list TokenKind) : nat := (4 * length tokens + 4)%nat.

Section Entry.

Variable regex_new : str -> result str unit.

Definition parse_expression_with_aliases (input : str) (field_aliases : bool) :
  option (outcome (option Expression)) :=
  match tokenize input with
  | None => None
  | Some (Err e) => Some (Err e)
  | Some (Ok tokens) =>
      if negb field_aliases && (1024 <? vec_len tokens) then
        Some (Err (lit "Search expression is too large (maximum 1,024 tokens)."))
      else if is_empty tokens then
        Some (if negb (is_empty (trim input)) then Err (lit "expression is empty") else Ok None)
      else
        match parse_or regex_new field_aliases (parser_fuel tokens) 0 tokens with
        | None => None
        | Some (Err e) => Some (Err e)
        | Some (Ok (_, _ :: _)) => Some (Err (lit "unexpected token after expression"))
        | Some (Ok (expression, [])) =>
            Some (validate_expression expression;; Ok (Some expression))
        end
  end.

Definition parse_expression (input : str) := parse_expression_with_aliases input true.
Definition parse_field_expression (input : str) := parse_expression_with_aliases input false.

(** [parse_and_match_expression]: an empty text matches everything. *)
Definition parse_and_match_expression (matches : Expression -> bool) (input : str) :
  option (outcome bool) :=
  match parse_expression input with
  | Some (Ok None) => Some (Ok true)
  | Some (Ok (Some expression)) => Some (Ok (matches expression))
  | Some (Err e) => Some (Err e)
  | None => None
  end.

End Entry.

Definition id_selector_expression (client_id : str) : str := lit "id:" ++ trim client_id.
