(* ===== verification/ExpressionProofs.v ===== *)
(** Theorems on the evaluation of expressions ([Expression]): strong Kleene
    logic is sound for every way the missing facts may turn out, and the
    backtracking glob matcher decides the declarative glob relation. *)

From S2P Require Import Prelude RustStd F64 Json VpsRules Expression.

Open Scope Z_scope.

(** * Reference definitions *)

(** The value of an expression under an assignment of its predicates. *)
Fixpoint eval (v : Predicate -> bool) (e : Expression) : bool :=
  match e with
  | Pred p => v p
  | Not e => negb (eval v e)
  | And l r => eval v l && eval v r
  | Or l r => eval v l || eval v r
  end.

Fixpoint predicates (e : Expression) : list Predicate :=
  match e with
  | Pred p => [p]
  | Not e => predicates e
  | And l r | Or l r => predicates l ++ predicates r
  end.

(** The declarative meaning of a glob on bytes: [?] (63) is any byte, [*] (42)
    any run of bytes, every other byte itself. *)
Inductive Glob : list Z -> list Z -> Prop :=
| glob_nil : Glob [] []
| glob_byte p v ps vs : p <> 42 -> p = 63 \/ p = v -> Glob ps vs -> Glob (p :: ps) (v :: vs)
| glob_star_skip ps vs : Glob ps vs -> Glob (42 :: ps) vs
| glob_star_take ps v vs : Glob (42 :: ps) vs -> Glob (42 :: ps) (v :: vs).

Definition literal (q : list Z) : Prop := Forall (fun b => b <> 42) q.

(** What a loop state can still match. *)
Definition glob_state (value pattern : list Z) (star : option (list Z * list Z)) : Prop :=
  Glob pattern value \/
  exists after t tried, star = Some (after, t :: tried) /\ Glob (42 :: after) tried.

(** The bytes consumed since the last star match the pattern consumed since. *)
Definition since_star (value pattern : list Z) (star : option (list Z * list Z)) : Prop :=
  match star with
  | None => True
  | Some (after, tried) =>
      exists q u, after = q ++ pattern /\ tried = u ++ value /\ length u = length q /\ literal q
  end.

(** The fuel a state needs when no pattern is longer than [P]. *)
Definition state_fuel (P : nat) (value pattern : list Z) (star : option (list Z * list Z)) : nat :=
  let t := match star with Some (_, tried) => length tried | None => length value end in
  (t * S P + S (length pattern))%nat.

(** * Kleene logic *)

Lemma truth_not_of b t : truth_not t = truth_of_bool b -> t = truth_of_bool (negb b).
Proof. by destruct t, b. Qed.

Lemma truth_and_of a c b :
  truth_and a c = truth_of_bool b ->
  (b = true /\ a = True_ /\ c = True_) \/ (b = false /\ (a = False_ \/ c = False_)).
Proof. destruct a, c, b; cbn; intros; try done; tauto. Qed.

Lemma truth_or_of a c b :
  truth_or a c = truth_of_bool b ->
  (b = false /\ a = False_ /\ c = False_) \/ (b = true /\ (a = True_ \/ c = True_)).
Proof. destruct a, c, b; cbn; intros; try done; tauto. Qed.

Section Kleene.
Context (re : str -> str -> bool) (ts : str -> option Z) (fs : SpecFloat.spec_float -> str).

(** The context says what the predicate asks about: it has the VPS, or values of the field; events that are not
    listed did not happen. *)
Definition known (context : ExpressionContext) (p : Predicate) : Prop :=
  match p with
  | Bare _ | Untagged => is_Some (ctx_vps context)
  | Comparison field _ _ | Membership field _ _ => is_Some (field_values fs context field)
  | Event _ => True
  end.

(** A predicate has a verdict exactly when it is known, and it is that of the matcher. *)
Lemma predicate_truth_iff context p b :
  predicate_truth re ts fs context p = truth_of_bool b <->
  known context p /\ predicate_matches re ts fs context p = b.
Proof.
  assert (Hb : forall x y : bool, truth_of_bool x = truth_of_bool y <-> x = y) by by intros [] [].
  assert (Hu : forall y : bool, Unknown = truth_of_bool y <-> False) by by intros [].
  destruct p as [raw|field op value|field neg values|name|]; cbn [predicate_truth known predicate_matches].
  - unfold bare_matches. destruct (ctx_vps context); rewrite ?Hb, ?Hu, ?is_Some_alt; naive_solver.
  - destruct (field_values fs context field); rewrite ?Hb, ?Hu, ?is_Some_alt; naive_solver.
  - destruct (field_values fs context field); rewrite ?Hb, ?Hu, ?is_Some_alt; naive_solver.
  - rewrite Hb. naive_solver.
  - destruct (ctx_vps context) as [vps|]; rewrite ?Hb, ?Hu, ?is_Some_alt; naive_solver.
Qed.

Lemma truth_sound context e v :
  (forall p, In p (predicates e) -> known context p -> v p = predicate_matches re ts fs context p) ->
  forall b, expression_truth re ts fs context e = truth_of_bool b -> eval v e = b.
Proof.
  induction e as [p|e IH|l IHl r IHr|l IHl r IHr]; intros Hv b H; cbn in *.
  - apply predicate_truth_iff in H as [Hk <-]. apply Hv; [by left|done].
  - apply truth_not_of in H. rewrite (IH Hv _ H). by rewrite negb_involutive.
  - assert (Hl := IHl (fun p Hp => Hv p (in_or_app _ _ _ (or_introl Hp)))).
    assert (Hr := IHr (fun p Hp => Hv p (in_or_app _ _ _ (or_intror Hp)))).
    apply truth_and_of in H as [(-> & H1 & H2)|(-> & [H1|H1])].
    + by rewrite (Hl true H1), (Hr true H2).
    + by rewrite (Hl false H1).
    + rewrite (Hr false H1). apply andb_false_r.
  - assert (Hl := IHl (fun p Hp => Hv p (in_or_app _ _ _ (or_introl Hp)))).
    assert (Hr := IHr (fun p Hp => Hv p (in_or_app _ _ _ (or_intror Hp)))).
    apply truth_or_of in H as [(-> & H1 & H2)|(-> & [H1|H1])].
    + by rewrite (Hl false H1), (Hr false H2).
    + by rewrite (Hl true H1).
    + rewrite (Hr true H1). apply orb_true_r.
Qed.

Lemma matches_eval context e :
  expression_matches re ts fs context e = eval (predicate_matches re ts fs context) e.
Proof. induction e; cbn; congruence. Qed.

Lemma truth_complete context e :
  (forall p, In p (predicates e) -> known context p) ->
  expression_truth re ts fs context e = truth_of_bool (expression_matches re ts fs context e).
Proof.
  induction e as [p|e IH|l IHl r IHr|l IHl r IHr]; cbn [predicates expression_truth expression_matches]; intros Hk.
  - apply predicate_truth_iff. split; [apply Hk; by left|done].
  - rewrite IH by done. by destruct (expression_matches _ _ _ _ e).
  - rewrite IHl, IHr by (intros p Hp; apply Hk, in_or_app; auto).
    by destruct (expression_matches _ _ _ _ l), (expression_matches _ _ _ _ r).
  - rewrite IHl, IHr by (intros p Hp; apply Hk, in_or_app; auto).
    by destruct (expression_matches _ _ _ _ l), (expression_matches _ _ _ _ r).
Qed.

(** The second context has more facts: what the first one says of the VPS, of its rules and of any field stays,
    and so do the events; a field that has a value does not become one of a rule. *)
Record completes (context more : ExpressionContext) : Prop := {
  completes_vps : forall vps, ctx_vps context = Some vps -> ctx_vps more = Some vps;
  completes_rules : forall rules, ctx_vps_rules context = Some rules -> ctx_vps_rules more = Some rules;
  completes_fields : forall field values,
    field_values fs context field = Some values -> field_values fs more field = Some values;
  completes_rule_fields : forall field, is_Some (field_values fs context field) ->
    rule_of_field (ctx_vps_rules context) field = None -> rule_of_field (ctx_vps_rules more) field = None;
  completes_events : ctx_event_predicates more = ctx_event_predicates context;
}.

Lemma rule_of_field_completed context more field :
  completes context more -> is_Some (field_values fs context field) ->
  rule_of_field (ctx_vps_rules more) field = rule_of_field (ctx_vps_rules context) field.
Proof.
  intros [_ Hr _ Hn _] Hk. destruct (rule_of_field (ctx_vps_rules context) field) as [x|] eqn:E; [|by apply Hn].
  rewrite <- E. destruct (ctx_vps_rules context) as [rules|]; [by rewrite (Hr rules)|].
  unfold rule_of_field in E. destruct (strip_prefix _ _); done.
Qed.

Lemma known_completed context more p :
  completes context more -> known context p ->
  predicate_matches re ts fs more p = predicate_matches re ts fs context p.
Proof.
  intros Hc. destruct p as [raw|field op [value]|field neg values|name|]; cbn [known predicate_matches].
  - intros [vps Hv]. unfold bare_matches. by rewrite Hv, (completes_vps _ _ Hc _ Hv).
  - intros Hk. pose proof (rule_of_field_completed _ _ _ Hc Hk) as Hr. destruct Hk as [vs Hf].
    unfold comparison_matches, vps_rule_exact_comparison_matches, vps_rule_order_matches.
    by rewrite Hr, Hf, (completes_fields _ _ Hc _ _ Hf).
  - intros Hk. pose proof (rule_of_field_completed _ _ _ Hc Hk) as Hr. destruct Hk as [vs Hf].
    unfold membership_matches, vps_rule_membership_matches. by rewrite Hr, Hf, (completes_fields _ _ Hc _ _ Hf).
  - intros _. by rewrite (completes_events _ _ Hc).
  - intros [vps Hv]. by rewrite Hv, (completes_vps _ _ Hc _ Hv).
Qed.

End Kleene.

(** C35: a conclusive verdict of the three-valued evaluation is right however the missing facts turn out.
    Whenever [expression_truth] answers true or false, the expression has that value under every assignment that
    agrees with the boolean matcher on the predicates whose VPS or field is in the context, in particular for the
    boolean matcher, in the same context and in every context that completes it; absent evidence is never read
    as a conclusive false.  And when the context has what every predicate asks about, the verdict is conclusive. *)
Theorem truth_verdict_sound re ts fs context e :
  (forall b, expression_truth re ts fs context e = truth_of_bool b ->
     expression_matches re ts fs context e = b /\
     (forall more, completes fs context more -> expression_matches re ts fs more e = b) /\
     forall v,
       (forall p, In p (predicates e) -> known fs context p -> v p = predicate_matches re ts fs context p) ->
       eval v e = b) /\
  ((forall p, In p (predicates e) -> known fs context p) -> expression_truth re ts fs context e <> Unknown).
Proof.
  split.
  - intros b H. split; [|split].
    + rewrite matches_eval. by apply (truth_sound re ts fs context e).
    + intros more Hm. rewrite matches_eval. apply (truth_sound re ts fs context e); [|done].
      intros p _ Hk. by apply known_completed.
    + intros v Hv. by apply (truth_sound re ts fs context e v Hv).
  - intros Hk. rewrite truth_complete by done. by destruct (expression_matches _ _ _ _ _).
Qed.

Lemma truth_verdict_sound_witness :
  let c := with_json_root context_default (lit "evidence")
             (json_object [("status", Str (lit "ok"))]) in
  let p f v := Pred (Comparison (lit f) Eq (ScalarLiteral (lit v))) in
  let e := And (p "evidence.status" "failed") (p "evidence.missing" "x") in
  let t := expression_truth (fun _ _ => false) (fun _ => None) (fun _ => []) in
  t c e = False_ /\ t c (p "evidence.missing" "x") = Unknown /\
  expression_matches (fun _ _ => false) (fun _ => None) (fun _ => []) c e = false.
Proof.
  cbv zeta. split; [vm_compute; reflexivity|]. split; [vm_compute; reflexivity|].
  refine (proj1 (proj1 (truth_verdict_sound (fun _ _ => false) (fun _ => None) (fun _ => []) _ _) false _)).
  vm_compute. reflexivity.
Defined.

(** * Globs *)

Lemma glob_stars pattern : is_empty (drop_while (Z.eqb 42) pattern) = true <-> Glob pattern [].
Proof.
  induction pattern as [|p ps IH]; [split; [constructor|done]|]. cbn [drop_while].
  destruct (Z.eqb_spec 42 p) as [<-|Hne].
  - rewrite IH. split; [apply glob_star_skip|]. intros H. by inversion H.
  - cbn [is_empty]. split; [done|]. intros H. inversion H; congruence.
Qed.

Lemma glob_absorb ps w z : Glob (42 :: ps) z -> Glob (42 :: ps) (w ++ z).
Proof. intros H. induction w as [|a w IH]; [done|]. cbn. by apply glob_star_take. Qed.

Lemma glob_literal_split q r s :
  literal q -> Glob (q ++ r) s -> exists u z, s = u ++ z /\ length u = length q /\ Glob r z.
Proof.
  intros Hq. revert s. induction Hq as [|b q Hb _ IH]; intros s H; [by exists [], s|].
  cbn in H. inversion H as [|? v ? vs ? ? Hg| |]; subst; try done.
  destruct (IH _ Hg) as (u & z & -> & Hl & Hz). exists (v :: u), z.
  repeat split; [cbn; congruence|done].
Qed.

Lemma glob_star_split q r s :
  literal q -> Glob (42 :: q ++ r) s ->
  exists u z, s = u ++ z /\ (length q <= length u)%nat /\ Glob r z.
Proof.
  intros Hq H. remember (42 :: q ++ r) as pat eqn:Ep. induction H as [|? ? ? ? Hp| |].
  - done.
  - simplify_eq.
  - injection Ep as ->. destruct (glob_literal_split q r vs Hq H) as (u & z & -> & Hl & Hz).
    exists u, z. split; [done|]. split; [lia|done].
  - destruct (IHGlob Ep) as (u & z & -> & Hl & Hz).
    exists (v :: u), z. split; [done|]. split; [cbn; lia|done].
Qed.

Lemma glob_loop_sound fuel value pattern star :
  glob_loop fuel value pattern star = true -> glob_state value pattern star.
Proof.
  revert value pattern star. induction fuel as [|fuel IH]; intros value pattern star H; [done|].
  cbn [glob_loop] in H. destruct value as [|v value]; [left; by apply glob_stars|].
  assert (Hretry : match star with
    | Some (after, _ :: tried) => glob_loop fuel tried after (Some (after, tried))
    | _ => false end = true -> glob_state (v :: value) pattern star).
  { destruct star as [[after [|t tried]]|]; [done| |done]. intros Hl. right.
    exists after, t, tried. split; [done|]. apply IH in Hl as [Hg|(a & t' & tr & [= <- ->] & Hg)].
    - by apply glob_star_skip.
    - by apply glob_star_take. }
  destruct pattern as [|p pattern]; [auto|].
  destruct ((p =? 63) || (p =? v)) eqn:Em.
  - apply IH in H as [Hg|Hs]; [left|right; done].
    destruct (Z.eq_dec p 42) as [->|Hp].
    + by apply glob_star_take, glob_star_skip.
    + apply glob_byte; [done| |done]. apply orb_prop in Em. rewrite !Z.eqb_eq in Em. done.
  - destruct (Z.eqb_spec p 42) as [->|Hp]; [|auto].
    left. apply IH in H as [Hg|(a & t & tr & [= <- <- <-] & Hg)].
    + by apply glob_star_skip.
    + by apply glob_star_take.
Qed.

(** A later star makes the earlier one redundant. *)
Lemma star_supersedes value p' star :
  since_star value (42 :: p') star -> glob_state value (42 :: p') star -> Glob (42 :: p') value.
Proof.
  intros Hs [H|(after & t & tried & -> & Hg)]; [done|].
  destruct Hs as (q & u & -> & Et & Hl & Hq).
  destruct (glob_star_split q (42 :: p') tried Hq Hg) as (x & z & -> & Hx & Hz).
  change (t :: x ++ z) with ((t :: x) ++ z) in Et.
  apply app_eq_app in Et as (l & [[_ ->]|[E _]]).
  - by apply glob_absorb.
  - apply (f_equal length) in E. rewrite length_app in E. cbn in E. lia.
Qed.

Lemma stale_star_no_match after q u t tried pattern :
  after = q ++ pattern -> t :: tried = u -> length u = length q -> literal q ->
  Glob (42 :: after) tried -> False.
Proof.
  intros -> Et Hl Hq Hg. destruct (glob_star_split q pattern tried Hq Hg) as (x & z & -> & Hx & _).
  apply (f_equal length) in Et. cbn in Et. rewrite length_app in Et. lia.
Qed.

Lemma glob_loop_complete P fuel value pattern star :
  42 ∉ value -> (forall after tried, star = Some (after, tried) -> 42 ∉ tried /\ (length after <= P)%nat) ->
  (length pattern <= P)%nat -> since_star value pattern star ->
  (state_fuel P value pattern star <= fuel)%nat ->
  glob_state value pattern star -> glob_loop fuel value pattern star = true.
Proof.
  revert value pattern star.
  induction fuel as [|fuel IH]; intros value pattern star Hv Hst Hp Hs Hf Hg.
  { unfold state_fuel in Hf. lia. }
  cbn [glob_loop]. destruct value as [|v value].
  { apply glob_stars. destruct Hg as [?|(after & t & tried & -> & Hg)]; [done|].
    destruct Hs as (q & u & Ea & Et & Hl & Hq). rewrite app_nil_r in Et.
    destruct (stale_star_no_match after q u t tried pattern); done. }
  apply not_elem_of_cons in Hv as [Hv42 Hv].
  assert (Hretry : ~ Glob pattern (v :: value) -> match star with
    | Some (after, _ :: tried) => glob_loop fuel tried after (Some (after, tried))
    | _ => false end = true).
  { intros Hn. destruct Hg as [?|(after & t & tried & -> & Hg)]; [done|].
    destruct (Hst _ _ eq_refl) as [Ht Ha]. apply not_elem_of_cons in Ht as [_ Ht]. apply IH; try done.
    - intros a b [= <- <-]. done.
    - exists [], []. repeat split. constructor.
    - unfold state_fuel in *. cbn [length] in Hf. nia.
    - inversion Hg; subst; [done|by left|]. right. by repeat eexists. }
  destruct pattern as [|p pattern]; [apply Hretry; intros H; inversion H|].
  cbn [length] in Hp. destruct ((p =? 63) || (p =? v)) eqn:Em.
  - apply orb_prop in Em. rewrite !Z.eqb_eq in Em. assert (Hp42 : p <> 42) by (intros ->; naive_solver).
    apply IH; try done; [lia| | |].
    + destruct star as [[after tried]|]; [|done]. destruct Hs as (q & u & -> & -> & Hl & Hq).
      exists (q ++ [p]), (u ++ [v]). rewrite <- !app_assoc, !length_app. repeat split; [cbn; lia|].
      apply Forall_app; split; [done|by repeat constructor].
    + unfold state_fuel in *. cbn [length] in Hf. destruct star as [[? ?]|]; [lia|]. nia.
    + destruct Hg as [H|H]; [left; by inversion H|by right].
  - destruct (Z.eqb_spec p 42) as [->|Hp42].
    + apply (star_supersedes (v :: value) pattern star Hs) in Hg. apply IH.
      * by apply not_elem_of_cons.
      * intros a b [= <- <-]. split; [by apply not_elem_of_cons|lia].
      * lia.
      * exists [], []. repeat split. constructor.
      * unfold state_fuel in *. cbn [length] in *. destruct star as [[after tried]|]; [|lia].
        destruct Hs as (q & u & _ & -> & _). rewrite length_app in Hf. cbn [length] in Hf. nia.
      * inversion Hg; subst; [done|by left|]. right. by repeat eexists.
    + apply Hretry. intros H. inversion H; subst; try done.
      apply orb_false_elim in Em as [Em1 Em2]. bools. naive_solver.
Qed.

Lemma glob_matches_iff value pattern :
  42 ∉ as_bytes value ->
  glob_matches value pattern = true <-> Glob (as_bytes pattern) (as_bytes value).
Proof.
  intros Hv. unfold glob_matches. split.
  - intros H. by apply glob_loop_sound in H as [?|(? & ? & ? & ? & _)].
  - intros H. apply (glob_loop_complete (length (as_bytes pattern))); try done; [|by left].
    unfold state_fuel, glob_fuel. nia.
Qed.

Lemma star_not_in_bytes s : 42 ∉ s -> 42 ∉ as_bytes s.
Proof.
  unfold as_bytes. induction s as [|c s IH]; intros H; [done|].
  apply not_elem_of_cons in H as [Hc H]. cbn [map concat]. apply not_elem_of_app. split; [|by apply IH].
  unfold utf8_char. rewrite list_elem_of_In.
  assert (M : forall a, 0 <= a mod 64) by (intros a; apply Z.mod_pos_bound; lia).
  pose proof (M c). pose proof (M (c / 64)). pose proof (M (c / 4096)).
  destruct (Z.ltb_spec c 128); [cbn; intuition lia|].
  assert (D : forall k, 0 < k -> 0 <= c / k) by (intros k Hk; apply Z.div_pos; lia).
  pose proof (D 64 ltac:(lia)). pose proof (D 4096 ltac:(lia)). pose proof (D 262144 ltac:(lia)).
  repeat case_match; cbn [In]; intuition lia.
Qed.

Lemma lower_star s c : c = 42 \/ c = 63 -> c ∈ to_ascii_lowercase s <-> c ∈ s.
Proof.
  intros Hc. unfold to_ascii_lowercase. rewrite !list_elem_of_In, in_map_iff.
  assert (Hl : forall x, lower x = c <-> x = c).
  { intros x. unfold lower, is_ascii_uppercase, in_range.
    destruct (65 <=? x) eqn:E1, (x <=? 90) eqn:E2; cbn; bools; lia. }
  split.
  - intros (x & Hx & Hin). by apply Hl in Hx as ->.
  - intros Hin. exists c. split; [by apply Hl|done].
Qed.

Lemma has_wildcard_lower s : has_wildcard (to_ascii_lowercase s) = has_wildcard s.
Proof.
  unfold has_wildcard. f_equal; apply eq_true_iff_eq; rewrite !contains_char_spec;
    apply lower_star; tauto.
Qed.

(** A literal with wildcards matches a value exactly when the glob relation relates them,
    ignoring ASCII case: the single-backtrack loop finds a match whenever one exists, and its fuel
    is enough. *)
Theorem wildcard_literal_matches_glob value pattern allow_contains :
  has_wildcard pattern = true -> 42 ∉ value ->
  literal_matches value pattern allow_contains = true <->
  Glob (as_bytes (to_ascii_lowercase pattern)) (as_bytes (to_ascii_lowercase value)).
Proof.
  intros Hw Hv. unfold literal_matches. rewrite has_wildcard_lower, Hw.
  apply glob_matches_iff, star_not_in_bytes. rewrite lower_star by tauto. done.
Qed.

Lemma wildcard_literal_matches_glob_witness :
  Glob (lit "edge-*-0?") (lit "edge-eu-west-07") /\
  literal_matches (lit "Edge-EU-West-07") (lit "EDGE-*-0?") false = true.
Proof.
  assert (H : literal_matches (lit "Edge-EU-West-07") (lit "EDGE-*-0?") false = true)
    by (vm_compute; reflexivity).
  split; [|exact H].
  refine (proj1 (wildcard_literal_matches_glob (lit "Edge-EU-West-07") (lit "EDGE-*-0?") false _ _) H).
  - vm_compute. reflexivity.
  - apply (bool_decide_unpack _). vm_compute. exact I.
Defined.

(** A star in the value defeats the wildcard: [*] relates to every value, but the loop takes a
    star byte of the value as a literal match of the pattern's star and then has nothing to
    backtrack to, so the catch-all pattern refuses a name that starts with a star. *)
Theorem star_in_value_defeats_wildcard :
  (forall v, Glob [42] v) /\ literal_matches (lit "*edge") (lit "*") false = false.
Proof.
  split; [|by vm_compute]. intros v. induction v as [|b v IH].
  - apply glob_star_skip. constructor.
  - by apply glob_star_take.
Qed.
