(* ===== verification/ParserProofs.v ===== *)
(** Theorems on the text of expressions ([ExpressionParser]): the tokenizer and
    the parser always return (their fuel is enough and the [unreachable!] arm is
    not reached), and an accepted typed expression nests at most 64 levels. *)

From S2P Require Import Prelude RustStd F64 Json VpsRules Expression ExpressionParser.

Open Scope Z_scope.

#[local] Arguments lit : simpl never.
#[local] Arguments str_eqb : simpl never.

(** * The tokenizer returns *)

Lemma read_quoted_shorter quote escaped value s v rest :
  read_quoted quote escaped value s = Some (v, rest) -> (length rest < length s)%nat.
Proof.
  revert escaped value; induction s as [|c s IH]; intros escaped value H; cbn in H; [done|].
  repeat case_match; simplify_eq; cbn; try (apply IH in H; lia); lia.
Qed.

Lemma read_regex_shorter escaped pattern s p rest :
  read_regex escaped pattern s = Some (Ok (p, rest)) -> (length rest < length s)%nat.
Proof.
  revert escaped pattern; induction s as [|c s IH]; intros escaped pattern H; cbn in H; [done|].
  destruct escaped; [apply IH in H; cbn; lia|].
  destruct (c =? 92); [apply IH in H; cbn; lia|].
  destruct (c =? 47); [|apply IH in H; cbn; lia].
  cbn. repeat case_match; simplify_eq; cbn; lia.
Qed.

Lemma skip_block_shorter s rest : skip_block s = Some rest -> (length rest < length s)%nat.
Proof.
  induction s as [|a s IH]; intros H; cbn in H; [done|].
  destruct s as [|b s]; [done|]. destruct ((a =? 42) && (b =? 47)).
  - simplify_eq. cbn. lia.
  - apply IH in H. cbn in *. lia.
Qed.

Lemma drop_while_length p s : (length (drop_while p s) <= length s)%nat.
Proof. induction s as [|c s IH]; cbn; [lia|]. destruct (p c); cbn; lia. Qed.

Lemma read_word_shorter input value quote escaped s w rest :
  read_word input value quote escaped s = Ok (w, rest) -> (length rest <= length s)%nat.
Proof.
  revert value quote escaped; induction s as [|c s IH]; intros value quote escaped H; cbn in H.
  - repeat case_match; simplify_eq; done.
  - destruct quote as [[active start]|].
    + repeat (case_match; [apply IH in H; cbn; lia|]). apply IH in H. cbn. lia.
    + case_match; [simplify_eq; done|]. case_match; apply IH in H; cbn; lia.
Qed.

Lemma tail_length {A} (s : list A) : (length (tail s) <= length s)%nat.
Proof. destruct s; cbn; lia. Qed.

Lemma token_step_shorter input c s pushed rest :
  token_step input c s = Ok (pushed, rest) -> (length rest <= length s)%nat.
Proof.
  pose proof (tail_length s) as Ht. unfold token_step. intros H.
  repeat match type of H with
  | (if ?b then _ else _) = Ok _ => destruct b eqn:?
  end; simplify_eq; try done.
  - unfold skip_line. apply Z.eqb_eq in Heqb0 as ->. cbn [drop_while].
    change (negb ((35 =? 13) || (35 =? 10))) with true. cbn iota. apply drop_while_length.
  - destruct (skip_block (tail s)) eqn:E; simplify_eq. apply skip_block_shorter in E. lia.
  - destruct (read_quoted c false [] s) as [[v r]|] eqn:E; simplify_eq.
    apply read_quoted_shorter in E. lia.
  - destruct (read_regex false [] s) as [[[v r]|]|] eqn:E; simplify_eq.
    apply read_regex_shorter in E. lia.
  - inv_bind. destruct a as [w r]. simplify_eq. cbn in E.
    match type of E with (if ?b then _ else _) = _ => destruct b eqn:Hb end.
    { exfalso. unfold is_word_end in Hb.
      change (lit "()[],=!<>&|~") with [40; 41; 91; 93; 44; 61; 33; 60; 62; 38; 124; 126] in Hb.
      cbn [contains_char existsb] in Hb.
      repeat match goal with H : _ = false |- _ => rewrite H in Hb; clear H end. done. }
    case_match; apply read_word_shorter in E; done.
Qed.

Lemma tokenize_fuel input fuel s :
  (length s <= fuel)%nat -> exists r, tokenize_go input fuel s = Some r.
Proof.
  revert s; induction fuel as [|fuel IH]; intros s Hf; destruct s as [|c s]; cbn in *;
    [by eexists|lia|by eexists|].
  destruct (token_step input c s) as [[pushed rest]|e] eqn:E; [|by eexists].
  apply token_step_shorter in E. destruct (IH rest ltac:(lia)) as [[tokens|e] ->]; by eexists.
Qed.

(** More fuel changes nothing. *)
Lemma tokenize_more input fuel fuel' s r :
  (fuel <= fuel')%nat -> tokenize_go input fuel s = Some r -> tokenize_go input fuel' s = Some r.
Proof.
  revert fuel' s r; induction fuel as [|fuel IH]; intros fuel' s r Hf H; destruct s as [|c s]; cbn in H;
    try (destruct fuel'; cbn; done).
  destruct fuel' as [|fuel']; [lia|]. cbn.
  destruct (token_step input c s) as [[pushed rest]|e]; [|done].
  destruct (tokenize_go input fuel rest) as [q|] eqn:E; [|done].
  by rewrite (IH fuel' rest q) by (done || lia).
Qed.

Lemma tokenize_cons input c s pushed rest tokens :
  token_step input c s = Ok (pushed, rest) ->
  tokenize_go input (length rest) rest = Some (Ok tokens) ->
  tokenize_go input (length (c :: s)) (c :: s) = Some (Ok (pushed ++ tokens)).
Proof.
  intros Hs Hr. cbn [length tokenize_go]. rewrite Hs.
  apply token_step_shorter in Hs. by rewrite (tokenize_more _ (length rest) (length s) _ (Ok tokens)).
Qed.

(** * The parser returns *)

Section Parser.
Context (regex_new : str -> result str unit) (field_aliases : bool).

(** [r] is a result, and a success leaves fewer than [n] tokens. *)
Definition returns (m : option (result str (Expression * list TokenKind))) (n : nat) : Prop :=
  exists r, m = Some r /\ forall e rest, r = Ok (e, rest) -> (length rest < n)%nat.

Lemma returns_andthen m k n n' :
  returns m n ->
  (forall e rest, (length rest < n)%nat -> returns (k e rest) n') -> returns (andthen m k) n'.
Proof.
  intros ([[e rest]|err] & -> & Hr) Hk; cbn.
  - apply Hk. by apply (Hr e rest).
  - exists (Err err). by split.
Qed.

Lemma returns_err e n : returns (Some (Err e)) n.
Proof. exists (Err e). by split. Qed.

Lemma returns_ok e rest n : (length rest < n)%nat -> returns (Some (Ok (e, rest))) n.
Proof. intros H. exists (Ok (e, rest)). split; [done|]. by intros ? ? [= _ <-]. Qed.

Lemma returns_le m n n' : returns m n -> (n <= n')%nat -> returns m n'.
Proof.
  intros (r & -> & Hr) Hn. exists r. split; [done|]. intros e rest E. specialize (Hr e rest E). lia.
Qed.

Lemma list_items_shorter values tokens vs rest :
  parse_list_items regex_new values tokens = Ok (vs, rest) -> (length rest <= length tokens)%nat.
Proof.
  revert values. induction tokens as [tokens IH] using (induction_ltof1 _ (@length TokenKind)).
  unfold ltof in IH. intros values H.
  assert (G : forall value rest0, (length rest0 < length tokens)%nat ->
    match rest0 with
    | TComma :: rest' => parse_list_items regex_new (values ++ [value]) rest'
    | TRightBracket :: rest' => Ok (values ++ [value], rest')
    | _ :: _ => Err (lit "membership list values must be comma-separated")
    | [] => Err (lit "membership list is missing ]")
    end = Ok (vs, rest) -> (length rest <= length tokens)%nat).
  { intros value rest0 Hl Hm. destruct rest0 as [|[] rest0]; simplify_eq; cbn in *; [|lia].
    apply IH in Hm; lia. }
  destruct tokens as [|[] tokens]; cbn in H; try done;
    try (destruct (is_empty values); done).
  - destruct (regex_new pattern); [|done]. apply (G (ListRegex pattern) tokens); [cbn; lia|done].
  - apply (G (ListLiteral s) tokens); [cbn; lia|done].
  - apply (G (ListLiteral s) tokens); [cbn; lia|done].
Qed.

Lemma list_values_shorter tokens vs rest :
  parse_list_values regex_new tokens = Ok (vs, rest) -> (length rest <= length tokens)%nat.
Proof.
  destruct tokens as [|[] tokens]; cbn; try done. intros H%list_items_shorter. lia.
Qed.

Lemma predicate_shorter raw tokens p rest :
  parse_predicate regex_new field_aliases raw tokens = Ok (p, rest) ->
  (length rest <= length tokens)%nat.
Proof.
  unfold parse_predicate. intros H.
  destruct (consume_comparison_operator tokens) as [[op rest0]|] eqn:E.
  - inv_bind. destruct tokens as [|t tokens]; [done|]. cbn in E.
    destruct (comparison_operator t); cbn in E; simplify_eq. destruct a as [v r]. simplify_eq. cbn.
    destruct rest0 as [|[] rest0]; cbn in *; simplify_eq; lia.
  - assert (Hb : (predicate ← parse_bare_word field_aliases raw; Ok (predicate, tokens)) = Ok (p, rest)
      -> (length rest <= length tokens)%nat) by (intros Hb; inv_bind; simplify_eq; done).
    destruct tokens as [|[] tokens]; try (by apply Hb).
    + inv_bind. destruct a as [v r]. simplify_eq. apply list_values_shorter in E0. cbn. lia.
    + destruct tokens as [|[] tokens]; try (by apply Hb).
      inv_bind. destruct a as [v r]. simplify_eq. apply list_values_shorter in E0. cbn. lia.
Qed.

(** All six functions, by induction on the fuel. *)
Lemma parser_returns fuel :
  (forall d ts, (4 * length ts + 4 <= fuel)%nat ->
     returns (parse_or regex_new field_aliases fuel d ts) (length ts)) /\
  (forall d e ts, (4 * length ts + 1 <= fuel)%nat ->
     returns (or_loop regex_new field_aliases fuel d e ts) (S (length ts))) /\
  (forall d ts, (4 * length ts + 3 <= fuel)%nat ->
     returns (parse_and regex_new field_aliases fuel d ts) (length ts)) /\
  (forall d e ts, (4 * length ts + 3 <= fuel)%nat ->
     returns (and_loop regex_new field_aliases fuel d e ts) (S (length ts))) /\
  (forall d ts, (4 * length ts + 2 <= fuel)%nat ->
     returns (parse_not regex_new field_aliases fuel d ts) (length ts)) /\
  (forall d ts, (4 * length ts + 1 <= fuel)%nat -> (forall r, ts <> TNot :: r) ->
     returns (parse_primary regex_new field_aliases fuel d ts) (length ts)).
Proof.
  induction fuel as [|fuel (IHor & IHol & IHand & IHal & IHnot & IHprim)].
  { repeat split; intros; lia. }
  repeat split.
  - intros d ts Hf. cbn [parse_or]. eapply returns_andthen; [apply IHand; lia|]. intros e rest Hr.
    eapply returns_le; [apply IHol; lia|]. lia.
  - intros d e ts Hf. destruct ts as [|t ts]; [apply returns_ok; cbn; lia|]. cbn [length] in *.
    destruct t; try (apply returns_ok; cbn; lia). cbn [or_loop].
    eapply returns_andthen; [apply IHand; lia|]. intros r rest Hr.
    eapply returns_le; [apply IHol; lia|lia].
  - intros d ts Hf. cbn [parse_and]. eapply returns_andthen; [apply IHnot; lia|]. intros e rest Hr.
    eapply returns_le; [apply IHal; lia|]. lia.
  - intros d e ts Hf.
    assert (Hnext : forall ts, (length ts > 0)%nat -> (4 * length ts + 3 <= S fuel)%nat ->
      returns (andthen (parse_not regex_new field_aliases fuel d ts)
        (fun r rest => and_loop regex_new field_aliases fuel d (And e r) rest)) (S (length ts))).
    { clear ts Hf. intros ts Hl Hf. eapply returns_andthen; [apply IHnot; lia|]. intros r rest Hr.
      eapply returns_le; [apply IHal; lia|lia]. }
    destruct ts as [|t ts]; [apply returns_ok; cbn; lia|]. cbn [length] in *.
    destruct t; cbn [and_loop next_starts_primary]; try (apply returns_ok; cbn; lia);
      try (apply Hnext; cbn; lia).
    eapply returns_andthen; [apply IHnot; lia|]. intros r rest Hr.
    eapply returns_le; [apply IHal; lia|lia].
  - intros d ts Hf. cbn [parse_not]. destruct (negb field_aliases && (64 <=? d)); [apply returns_err|].
    destruct ts as [|t ts]; [apply IHprim; [cbn in *; lia|done]|]. cbn [length] in *.
    destruct t; try (apply IHprim; [cbn in *; lia|done]).
    eapply returns_andthen; [apply IHnot; lia|]. intros e rest Hr. apply returns_ok. lia.
  - intros d ts Hf Hn. cbn [parse_primary]. destruct ts as [|t ts]; [apply returns_err|].
    cbn [length] in *. destruct t; try apply returns_err.
    + eapply returns_andthen; [apply IHor; lia|]. intros e rest Hr.
      destruct rest as [|[] rest]; try apply returns_err. apply returns_ok. cbn in Hr. lia.
    + by destruct (Hn ts).
    + destruct (negb field_aliases); [apply returns_ok; lia|apply returns_err].
    + destruct (parse_predicate regex_new field_aliases s ts) as [[q rest]|e] eqn:E;
        cbn; [|apply returns_err]. apply returns_ok. apply predicate_shorter in E. lia.
Qed.

(** More fuel changes nothing. *)
Definition extends (m m' : option (result str (Expression * list TokenKind))) : Prop :=
  forall r, m = Some r -> m' = Some r.

Lemma extends_andthen m m' k k' :
  extends m m' -> (forall e rest, extends (k e rest) (k' e rest)) ->
  extends (andthen m k) (andthen m' k').
Proof.
  intros Hm Hk r H. destruct m as [[[e rest]|err]|]; cbn in H; [| |done].
  - rewrite (Hm _ eq_refl). cbn. by apply Hk.
  - rewrite (Hm _ eq_refl). done.
Qed.

Lemma extends_refl m : extends m m.
Proof. by intros r. Qed.

Lemma parser_more fuel fuel' :
  (fuel <= fuel')%nat ->
  (forall d ts, extends (parse_or regex_new field_aliases fuel d ts)
                        (parse_or regex_new field_aliases fuel' d ts)) /\
  (forall d e ts, extends (or_loop regex_new field_aliases fuel d e ts)
                          (or_loop regex_new field_aliases fuel' d e ts)) /\
  (forall d ts, extends (parse_and regex_new field_aliases fuel d ts)
                        (parse_and regex_new field_aliases fuel' d ts)) /\
  (forall d e ts, extends (and_loop regex_new field_aliases fuel d e ts)
                          (and_loop regex_new field_aliases fuel' d e ts)) /\
  (forall d ts, extends (parse_not regex_new field_aliases fuel d ts)
                        (parse_not regex_new field_aliases fuel' d ts)) /\
  (forall d ts, extends (parse_primary regex_new field_aliases fuel d ts)
                        (parse_primary regex_new field_aliases fuel' d ts)).
Proof.
  revert fuel'. induction fuel as [|fuel IH]; intros fuel' Hf; [repeat split; by intros * r H|].
  destruct fuel' as [|fuel']; [lia|].
  destruct (IH fuel' ltac:(lia)) as (IHor & IHol & IHand & IHal & IHnot & IHprim).
  repeat split.
  - intros d ts. cbn. apply extends_andthen; auto.
  - intros d e ts. destruct ts as [|[] ts]; cbn; try apply extends_refl.
    apply extends_andthen; auto.
  - intros d ts. cbn. apply extends_andthen; auto.
  - intros d e ts. destruct ts as [|[] ts]; cbn; try apply extends_refl; apply extends_andthen; auto.
  - intros d ts. cbn. destruct (negb field_aliases && (64 <=? d)); [apply extends_refl|].
    destruct ts as [|[] ts]; auto. apply extends_andthen; [auto|]. intros; apply extends_refl.
  - intros d ts. destruct ts as [|[] ts]; cbn; try apply extends_refl.
    apply extends_andthen; [auto|]. intros; apply extends_refl.
Qed.

(** ** Nesting *)

(** The nesting of an expression written with the fewest parentheses at a level of the grammar (0 for [or], 1 for
    [and], 2 for [not]): one for a predicate, one more for every [not] and every pair of parentheses. *)
Fixpoint nesting (level : nat) (e : Expression) : Z :=
  match e with
  | Pred _ => 1
  | Not e => 1 + nesting 2 e
  | And l r =>
      let body := Z.max (nesting 1 l) (nesting 2 r) in
      if (level <=? 1)%nat then body else 1 + body
  | Or l r =>
      let body := Z.max (nesting 0 l) (nesting 1 r) in
      if (level =? 0)%nat then body else 1 + body
  end.

Lemma nesting_paren e : nesting 2 e <= 1 + nesting 0 e /\ nesting 1 e <= 1 + nesting 0 e.
Proof. destruct e; cbn; lia. Qed.

(** A result of the typed grammar at depth [d] is within the limit. *)
Definition shallow (level : nat) (d : Z) (m : option (result str (Expression * list TokenKind))) : Prop :=
  forall e rest, m = Some (Ok (e, rest)) -> d + nesting level e <= 64.

Lemma shallow_andthen level level' d m k :
  shallow level d m -> (forall e rest, d + nesting level e <= 64 -> shallow level' d (k e rest)) ->
  shallow level' d (andthen m k).
Proof. intros Hm Hk. destruct m as [[[e rest]|]|]; cbn; [|by intros ? ?..]. apply Hk, (Hm e rest eq_refl). Qed.

Lemma shallow_ok level d e rest : d + nesting level e <= 64 -> shallow level d (Some (Ok (e, rest))).
Proof. by intros H e' rest' [= -> ->]. Qed.

Lemma shallow_err level d err : shallow level d (Some (Err err)).
Proof. by intros e rest. Qed.

Lemma andthen_ok m k e rest :
  andthen m k = Some (Ok (e, rest)) -> exists i r, m = Some (Ok (i, r)) /\ k i r = Some (Ok (e, rest)).
Proof. destruct m as [[[i r]|]|]; cbn; [by eauto|done..]. Qed.

(** Without the aliases of selectors, every function keeps to the limit. *)
Lemma parser_shallow fuel :
  field_aliases = false ->
  (forall d ts, shallow 0 d (parse_or regex_new field_aliases fuel d ts)) /\
  (forall d e ts, d + nesting 0 e <= 64 -> shallow 0 d (or_loop regex_new field_aliases fuel d e ts)) /\
  (forall d ts, shallow 1 d (parse_and regex_new field_aliases fuel d ts)) /\
  (forall d e ts, d + nesting 1 e <= 64 -> shallow 1 d (and_loop regex_new field_aliases fuel d e ts)) /\
  (forall d ts, shallow 2 d (parse_not regex_new field_aliases fuel d ts)) /\
  (forall d ts, d <= 64 -> shallow 2 (d - 1) (parse_primary regex_new field_aliases fuel d ts)).
Proof.
  intros Hfa. induction fuel as [|fuel (IHor & IHol & IHand & IHal & IHnot & IHprim)]; [by repeat split|].
  assert (Hweak : forall e, nesting 1 e <= nesting 2 e /\ nesting 0 e <= nesting 1 e) by (destruct e; cbn; lia).
  repeat split.
  - intros d ts. cbn [parse_or]. eapply shallow_andthen; [apply IHand|]. intros e rest He. apply IHol. specialize (Hweak e). lia.
  - intros d e ts He. destruct ts as [|[] ts]; cbn [or_loop]; try by apply shallow_ok.
    eapply (shallow_andthen 1); [apply IHand|]. intros r rest Hr. apply IHol. cbn [nesting Nat.eqb]. lia.
  - intros d ts. cbn [parse_and]. eapply shallow_andthen; [apply IHnot|]. intros e rest He. apply IHal. specialize (Hweak e). lia.
  - intros d e ts He.
    assert (Hnext : forall ts, shallow 1 d (andthen (parse_not regex_new field_aliases fuel d ts)
      (fun r rest => and_loop regex_new field_aliases fuel d (And e r) rest))).
    { intros ts'. eapply (shallow_andthen 2); [apply IHnot|]. intros r rest Hr. apply IHal. cbn [nesting Nat.leb]. lia. }
    destruct ts as [|[] ts]; cbn [and_loop next_starts_primary]; first [by apply shallow_ok|apply Hnext].
  - intros d ts. cbn [parse_not].
    assert (Hg : negb field_aliases && (64 <=? d) = (64 <=? d)) by by rewrite Hfa.
    rewrite Hg. destruct (Z.leb_spec 64 d); [apply shallow_err|]. assert (Hp : shallow 2 d (parse_primary regex_new field_aliases fuel (d + 1) ts)).
    { replace d with (d + 1 - 1) at 1 by lia. apply IHprim. lia. }
    destruct ts as [|[] ts]; try exact Hp. intros e rest (i & r & E & [= <- <-])%andthen_ok.
    specialize (IHnot _ _ _ _ E). cbn [nesting]. lia.
  - intros d ts Hd. destruct ts as [|[] ts]; cbn [parse_primary]; try apply shallow_err; try (by intros ? ?).
    + intros e rest (i & r & E & Hr)%andthen_ok. destruct r as [|[] r]; try discriminate Hr. injection Hr as <- <-.
      specialize (IHor _ _ _ _ E). destruct (nesting_paren i). lia.
    + destruct (negb field_aliases); [apply shallow_ok; cbn [nesting]; lia|apply shallow_err].
    + intros e rest. destruct (parse_predicate _ _ _ _) as [[q r]|]; cbn [mbind result_bind]; [|done].
      intros [= <- <-]. cbn [nesting]. lia.
Qed.

End Parser.

(** C40: parsing always returns: for every text, in both grammars and for every regex compiler, the
    result is an expression, no expression or an error message; the recursion is bounded by four
    calls per token and the parser never reaches its [unreachable!] arm.  Calls have no stack limit
    in the model; the typed grammar limits their nesting: an expression it accepts nests at most 64
    levels of [not] and parentheses.  The selector grammar has no such limit
    ([selector_nesting_unbounded]). *)
Theorem parse_expression_total regex_new input field_aliases :
  exists r, parse_expression_with_aliases regex_new input field_aliases = Some r /\
    forall e, r = Ok (Some e) -> field_aliases = false -> nesting 0 e <= 64.
Proof.
  unfold parse_expression_with_aliases, tokenize.
  destruct (tokenize_fuel input (length input) input (le_n _)) as [[tokens|e] ->]; [|by eexists].
  destruct (negb field_aliases && _); [by eexists|].
  destruct (is_empty tokens); [eexists; split; [done|]; by destruct (negb _)|].
  destruct (parser_returns regex_new field_aliases (parser_fuel tokens)) as (Hor & _).
  destruct (Hor 0 tokens (le_n _)) as ([[e [|t rest]]|e] & Hp & _); rewrite Hp; [|by eexists..].
  eexists. split; [done|]. intros e' He Hfa. destruct (parser_shallow regex_new field_aliases (parser_fuel tokens) Hfa) as (Hs & _).
  destruct (validate_expression e); cbn in He; [|done]. injection He as <-. by apply (Hs 0 tokens e []).
Qed.

(** Sixty-three [not]s before a word are accepted by the typed grammar. *)
Lemma parse_expression_total_witness :
  exists e, parse_expression_with_aliases (fun _ => Ok tt) (repeat 33 63 ++ lit "web") false = Some (Ok (Some e)) /\
    nesting 0 e <= 64.
Proof.
  destruct (parse_expression_total (fun _ => Ok tt) (repeat 33 63 ++ lit "web") false) as (r & Hr & Hn).
  assert (Hok : exists e, r = Ok (Some e)).
  { assert (Hv : exists e, parse_expression_with_aliases (fun _ => Ok tt) (repeat 33 63 ++ lit "web") false = Some (Ok (Some e)))
      by (eexists; vm_compute; reflexivity).
    destruct Hv as [e Hv]. exists e. rewrite Hv in Hr. injection Hr as <-. reflexivity. }
  destruct Hok as [e ->]. exists e. split; [exact Hr|exact (Hn e eq_refl eq_refl)].
Defined.

(** One more is refused there, and accepted by the selector grammar. *)
Example selector_nesting_unbounded :
  let parse := parse_expression_with_aliases (fun _ => Ok tt) (repeat 33 64 ++ lit "web") in
  parse false = Some (Err (lit "Search nesting exceeds 64 levels.")) /\
  match parse true with Some (Ok (Some e)) => nesting 0 e = 65 | _ => False end.
Proof. split; vm_compute; reflexivity. Qed.
