(* ===== verification/ParserRoundtrip.v ===== *)
(** The text of an expression parses back to it.

    [render] writes an expression with the fewest parentheses the grammar
    allows, quoting every value; [parse_render] below shows that parsing the
    text gives the expression again, in the selector grammar and in the typed
    grammar with its nesting and size limits.  So [not] binds tighter than
    [and], [and] tighter than [or], both associate to the left, and any text is
    representable as a value. *)

From S2P Require Import Prelude RustStd F64 Json VpsRules Expression ExpressionProofs ExpressionParser ParserProofs.

Open Scope Z_scope.

#[local] Arguments lit : simpl never.
#[local] Arguments str_eqb : simpl never.

(** * Rendering *)

(** A value in double quotes: quotes and backslashes are escaped. *)
Definition escape (s : str) : str :=
  flat_map (fun c => if (c =? 92) || (c =? 34) then [92; c] else [c]) s.
Definition quote (s : str) : str := 34 :: escape s ++ [34].

Definition operator_token (operator : ComparisonOperator) : TokenKind :=
  match operator with
  | Eq => TEq | NotEq => TNotEq | Lt => TLt | Lte => TLte | Gt => TGt | Gte => TGte
  end.

Definition list_value_token (value : ListValue) : TokenKind :=
  match value with ListLiteral s => TString s | ListRegex pattern => TRegex pattern end.

Fixpoint list_tokens (values : list ListValue) : list TokenKind :=
  match values with
  | [] => [TRightBracket]
  | [value] => [list_value_token value; TRightBracket]
  | value :: values' => list_value_token value :: TComma :: list_tokens values'
  end.

Definition predicate_tokens (predicate : Predicate) : list TokenKind :=
  match predicate with
  | Bare raw => [TWord raw]
  | Comparison field operator (ScalarLiteral value) =>
      [TWord field; operator_token operator; TString value]
  | Membership field negated values =>
      TWord field :: (if negated then [TNot] else []) ++ TIn :: TLeftBracket :: list_tokens values
  | Event name => [TWord name]
  | Untagged => [TWord (lit "untagged")]
  end.

Definition parens (tokens : list TokenKind) : list TokenKind :=
  TLeftParen :: tokens ++ [TRightParen].

(** Level 0 is an [or] operand, 1 an [and] operand, 2 a [not] operand. *)
Fixpoint expression_tokens (level : nat) (e : Expression) : list TokenKind :=
  match e with
  | Pred p => predicate_tokens p
  | Not e => TNot :: expression_tokens 2 e
  | And l r =>
      let body := expression_tokens 1 l ++ TAnd :: expression_tokens 2 r in
      if (level <=? 1)%nat then body else parens body
  | Or l r =>
      let body := expression_tokens 0 l ++ TOr :: expression_tokens 1 r in
      if (level =? 0)%nat then body else parens body
  end.

Definition token_text (token : TokenKind) : str :=
  match token with
  | TAnd => lit "&&" | TColon => lit ":" | TComma => lit "," | TEq => lit "=" | TGt => lit ">"
  | TGte => lit ">=" | TIn => lit "in" | TLeftBracket => lit "[" | TLeftParen => lit "("
  | TLt => lit "<" | TLte => lit "<=" | TNot => lit "!" | TNotEq => lit "!=" | TOr => lit "||"
  | TRegex pattern => lit "/" ++ pattern ++ lit "/"
  | TRightBracket => lit "]" | TRightParen => lit ")"
  | TString s => quote s
  | TWord s => s
  end.

Definition tokens_text (tokens : list TokenKind) : str :=
  flat_map (fun token => token_text token ++ lit " ") tokens.

Definition render (e : Expression) : str := tokens_text (expression_tokens 0 e).

(** * Well-formed expressions *)

(** A char that stays inside a word and never starts something else. *)
Definition word_char (c : char) : bool :=
  negb (is_whitespace c || (c =? 35) || (c =? 47) || is_word_end c || (c =? 34) || (c =? 39)).

Definition plain_word (w : str) : bool :=
  match w with
  | [] => false
  | c :: _ => word_char c && negb (c =? 58)
  end && forallb word_char w && negb (one_of (to_ascii_lowercase w) ["and"; "or"; "not"; "in"]).

(** A regex body as the reader stores it: no bare slash, no dangling backslash. *)
Fixpoint regex_body (pattern : str) : bool :=
  match pattern with
  | [] => true
  | c :: pattern' =>
      if c =? 92 then match pattern' with [] => false | _ :: p => regex_body p end
      else negb (c =? 47) && regex_body pattern'
  end.

Section WellFormed.
Context (regex_new : str -> result str unit) (field_aliases : bool).

Definition list_value_wf (value : ListValue) : bool :=
  match value with
  | ListLiteral _ => true
  | ListRegex pattern => regex_body pattern && negb (next_is 42 pattern) && is_ok (regex_new pattern)
  end.

Definition field_wf (field : str) : bool :=
  plain_word field && str_eqb (field_name field_aliases field) field.

(** A predicate a word alone stands for. *)
Definition bare_wf (word : str) (p : Predicate) : Prop :=
  plain_word word = true /\ parse_bare_word field_aliases word = Ok p.

Definition predicate_wf (predicate : Predicate) : Prop :=
  match predicate with
  | Comparison field _ _ => field_wf field = true
  | Membership field _ values =>
      field_wf field = true /\ values <> [] /\ forallb list_value_wf values = true
  | Bare raw => bare_wf raw predicate
  | Event name => bare_wf name predicate
  | Untagged => field_aliases = true
  end.

Fixpoint expression_wf (e : Expression) : Prop :=
  match e with
  | Pred p => predicate_wf p
  | Not e => expression_wf e
  | And l r | Or l r => expression_wf l /\ expression_wf r
  end.

End WellFormed.

(** * The tokenizer reads a rendered token back *)

Definition token_wf (token : TokenKind) : bool :=
  match token with
  | TWord w => plain_word w
  | TRegex pattern => regex_body pattern && negb (next_is 42 pattern)
  | _ => true
  end.

(** A word ends here: at the end of the text or before white space. *)
Definition word_stop (rest : str) : Prop :=
  match rest with [] => True | c :: _ => is_whitespace c = true end.

Lemma word_char_facts c :
  word_char c = true ->
  is_whitespace c = false /\ (c =? 35) = false /\ (c =? 47) = false /\ is_word_end c = false /\
  (c =? 34) = false /\ (c =? 39) = false.
Proof.
  unfold word_char. rewrite negb_true_iff, !orb_false_iff. intuition.
Qed.

Lemma read_word_plain input w value rest :
  forallb word_char w = true -> word_stop rest ->
  read_word input value None false (w ++ rest) = Ok (value ++ w, rest).
Proof.
  intros H Hr. revert value H. induction w as [|c w IH]; intros value H; cbn [app].
  - rewrite app_nil_r. destruct rest as [|d rest]; [done|]. cbn in *. by rewrite Hr.
  - cbn in H. bools. destruct (word_char_facts c ltac:(done)) as (H1 & H2 & H3 & H4 & H5 & H6).
    cbn [read_word]. rewrite H1, H2, H3, H4, H5, H6. cbn [andb orb].
    rewrite IH by done. by rewrite <- app_assoc.
Qed.

Lemma read_quoted_escape s value rest :
  read_quoted 34 false value (escape s ++ 34 :: rest) = Some (value ++ s, rest).
Proof.
  revert value. induction s as [|c s IH]; intros value; cbn [escape flat_map app].
  - cbn. by rewrite app_nil_r.
  - fold (escape s). destruct ((c =? 92) || (c =? 34)) eqn:E; cbn [app read_quoted].
    + change (92 =? 92) with true. cbn iota. rewrite IH. by rewrite <- app_assoc.
    + apply orb_false_elim in E as [-> ->]. rewrite IH. by rewrite <- app_assoc.
Qed.

Lemma read_regex_body body pattern rest :
  regex_body body = true ->
  read_regex false pattern (body ++ 47 :: 32 :: rest) = Some (Ok (pattern ++ body, 32 :: rest)).
Proof.
  revert pattern. induction body as [body IH] using (induction_ltof1 _ (@length Z)).
  unfold ltof in IH. intros pattern H. destruct body as [|c body].
  - cbn. by rewrite app_nil_r.
  - cbn [regex_body] in H. cbn [app read_regex]. destruct (c =? 92) eqn:E92.
    + apply Z.eqb_eq in E92 as ->. destruct body as [|d body]; [done|]. cbn [app read_regex].
      rewrite IH by (done || cbn; lia). by rewrite <- app_assoc.
    + bools. rewrite (proj2 (Z.eqb_neq c 47)) by done. rewrite IH by (done || cbn; lia).
      by rewrite <- app_assoc.
Qed.

Lemma word_end_codes c :
  is_word_end c = false ->
  Forall (fun k => (c =? k) = false) [40; 41; 91; 93; 44; 61; 33; 60; 62; 38; 124; 126].
Proof.
  unfold is_word_end. change (lit "()[],=!<>&|~") with [40; 41; 91; 93; 44; 61; 33; 60; 62; 38; 124; 126].
  unfold contains_char. intros H. apply List.Forall_forall. intros k Hk.
  by apply (existsb_false (Z.eqb c) _ k H).
Qed.

Lemma plain_word_step input c w rest :
  plain_word (c :: w) = true -> word_stop rest ->
  token_step input c (w ++ rest) = Ok ([TWord (c :: w)], rest).
Proof.
  unfold plain_word. intros H Hr. bools.
  destruct (word_char_facts c ltac:(done)) as (F1 & F2 & F3 & F4 & F5 & F6).
  apply word_end_codes in F4. repeat (apply Forall_cons_iff in F4 as [? F4]). clear F4.
  unfold token_step. rewrite F1, F2, F3, F5, F6.
  repeat match goal with E : (c =? _) = false |- _ => rewrite E; clear E end.
  rewrite (proj2 (Z.eqb_neq c 58)) by done. cbn [andb orb].
  change (c :: w ++ rest) with ((c :: w) ++ rest).
  rewrite read_word_plain by done. cbn [mbind result_bind app].
  rewrite trim_no_ws.
  2: { apply List.Forall_forall. intros x Hx. rewrite forallb_forall in *.
       match goal with E : forall x, In x (c :: w) -> _ |- _ => apply E in Hx end.
       by apply word_char_facts in Hx as (? & _). }
  cbn [is_empty]. unfold word_token.
  match goal with E : one_of _ _ = false |- _ =>
    unfold one_of in E; cbn [existsb] in E; repeat (apply orb_false_elim in E as [-> E]) end.
  done.
Qed.

Lemma token_text_cons t : token_wf t = true -> exists c s, token_text t = c :: s.
Proof. destruct t; cbn; try (intros; by repeat eexists). destruct s; [done|by repeat eexists]. Qed.

Lemma token_text_step input t c s rest :
  token_wf t = true -> token_text t = c :: s ->
  token_step input c (s ++ 32 :: rest) = Ok ([t], 32 :: rest).
Proof.
  intros Hwf Ht. destruct t; try (injection Ht as <- <-; reflexivity).
  - injection Ht as <- <-. cbn in Hwf. bools. unfold token_step.
    change (is_whitespace 47) with false. cbn iota.
    change (47 =? 35) with false. change (47 =? 47) with true. cbn iota. cbn [andb].
    replace (next_is 42 ((pattern ++ lit "/") ++ 32 :: rest)) with false.
    2: { symmetry. destruct pattern as [|a p]; cbn in *; [done|]. done. }
    rewrite <- app_assoc. change (lit "/" ++ 32 :: rest) with (47 :: 32 :: rest).
    cbn [Z.eqb Pos.eqb orb]. by rewrite read_regex_body.
  - injection Ht as <- <-. unfold token_step. cbn [is_whitespace].
    change (is_whitespace 34) with false. cbn iota.
    cbn [Z.eqb Pos.eqb orb andb]. rewrite <- app_assoc. cbn [app].
    by rewrite read_quoted_escape.
  - cbn in Hwf, Ht. subst s0. by apply plain_word_step.
Qed.

Lemma tokenize_text input ts :
  forallb token_wf ts = true ->
  tokenize_go input (length (tokens_text ts)) (tokens_text ts) = Some (Ok ts).
Proof.
  induction ts as [|t ts IH]; intros H; [done|]. cbn in H. bools.
  destruct (token_text_cons t ltac:(done)) as (c & s & E).
  assert (Ets : tokens_text (t :: ts) = c :: s ++ 32 :: tokens_text ts).
  { unfold tokens_text. cbn [flat_map]. rewrite E. cbn [app]. by rewrite <- app_assoc. }
  rewrite Ets. apply (tokenize_cons input c _ [t] (32 :: tokens_text ts) ts).
  - by apply token_text_step.
  - by apply (tokenize_cons input 32 (tokens_text ts) [] (tokens_text ts) ts); [|apply IH].
Qed.

(** * The parser reads rendered tokens back *)

(** What may follow an operand of each level. *)
Definition follow (ts : list TokenKind) : Prop :=
  match ts with [] | TAnd :: _ | TOr :: _ | TRightParen :: _ => True | _ => False end.
Definition follow_and (ts : list TokenKind) : Prop :=
  match ts with [] | TOr :: _ | TRightParen :: _ => True | _ => False end.
Definition follow_or (ts : list TokenKind) : Prop :=
  match ts with [] | TRightParen :: _ => True | _ => False end.

(** With all large enough fuel. *)
Definition eventually (m : nat -> option (result str (Expression * list TokenKind)))
    (r : result str (Expression * list TokenKind)) : Prop :=
  exists F, forall f, (F <= f)%nat -> m f = Some r.

Lemma eventually_step m n r :
  (forall f, m (S f) = n f) -> eventually n r -> eventually m r.
Proof.
  intros Hs [F H]. exists (S F). intros f Hf. destruct f as [|f]; [lia|].
  rewrite Hs. apply H. lia.
Qed.

Lemma eventually_andthen m k e rest r :
  eventually m (Ok (e, rest)) -> eventually (fun f => k f e rest) r ->
  eventually (fun f => andthen (m f) (k f)) r.
Proof.
  intros [F1 H1] [F2 H2]. exists (Nat.max F1 F2). intros f Hf.
  rewrite H1 by lia. cbn. apply H2. lia.
Qed.

Lemma eventually_const r : eventually (fun _ => Some r) r.
Proof. by exists 0%nat. Qed.

Section Parser.
Context (regex_new : str -> result str unit) (field_aliases : bool).

Abbreviation parse_or := (ExpressionParser.parse_or regex_new field_aliases).
Abbreviation or_loop := (ExpressionParser.or_loop regex_new field_aliases).
Abbreviation parse_and := (ExpressionParser.parse_and regex_new field_aliases).
Abbreviation and_loop := (ExpressionParser.and_loop regex_new field_aliases).
Abbreviation parse_not := (ExpressionParser.parse_not regex_new field_aliases).
Abbreviation parse_primary := (ExpressionParser.parse_primary regex_new field_aliases).

Definition depth_ok (depth need : Z) : Prop := field_aliases = true \/ depth + need <= 64.

Lemma list_items_read values done rest :
  values <> [] -> forallb (list_value_wf regex_new) values = true ->
  parse_list_items regex_new done (list_tokens values ++ rest) = Ok (done ++ values, rest).
Proof.
  revert done. induction values as [|v values IH]; intros prev Hne H; [done|]. cbn in H. bools.
  assert (Hv : forall ts, parse_list_items regex_new prev (list_value_token v :: ts)
    = match ts with
      | TComma :: rest' => parse_list_items regex_new (prev ++ [v]) rest'
      | TRightBracket :: rest' => Ok (prev ++ [v], rest')
      | _ :: _ => Err (lit "membership list values must be comma-separated")
      | [] => Err (lit "membership list is missing ]")
      end).
  { intros ts. destruct v as [s|pattern]; [done|]. cbn. cbn in H. bools.
    by destruct (regex_new pattern). }
  destruct values as [|v' values].
  - change (list_tokens [v] ++ rest) with (list_value_token v :: TRightBracket :: rest). by rewrite Hv.
  - change (list_tokens (v :: v' :: values) ++ rest)
      with (list_value_token v :: TComma :: list_tokens (v' :: values) ++ rest).
    rewrite Hv, IH by done. by rewrite <- app_assoc.
Qed.

Lemma bare_follow word p rest :
  parse_bare_word field_aliases word = Ok p -> follow rest ->
  parse_predicate regex_new field_aliases word rest = Ok (p, rest).
Proof.
  intros Hp Hf. unfold parse_predicate.
  destruct rest as [|[] rest]; cbn [consume_comparison_operator comparison_operator option_map];
    try done; by rewrite Hp.
Qed.

Lemma predicate_read p rest :
  predicate_wf regex_new field_aliases p -> follow rest ->
  exists w ts, predicate_tokens p = TWord w :: ts /\
    parse_predicate regex_new field_aliases w (ts ++ rest) = Ok (p, rest).
Proof.
  intros Hwf Hf. destruct p as [raw|field op [v]|field neg values|name|]; cbn in Hwf.
  - exists raw, []. split; [done|]. by apply bare_follow; [apply Hwf|].
  - eexists _, _. split; [reflexivity|]. unfold field_wf in Hwf. bools.
    match goal with E : str_eqb _ _ = true |- _ => apply str_eqb_eq in E; rename E into Hn end.
    unfold parse_predicate. destruct op; cbn; by rewrite Hn.
  - destruct Hwf as (Hw & Hne & Hvs). unfold field_wf in Hw. bools.
    match goal with E : str_eqb _ _ = true |- _ => apply str_eqb_eq in E; rename E into Hn end.
    eexists _, _. split; [reflexivity|]. unfold parse_predicate. destruct neg; cbn;
      rewrite list_items_read by done; cbn; by rewrite Hn.
  - exists name, []. split; [done|]. by apply bare_follow; [apply Hwf|].
  - exists (lit "untagged"), []. split; [done|]. apply bare_follow; [|done].
    unfold parse_bare_word. rewrite Hwf. by vm_compute.
Qed.

Lemma not_step d ts :
  depth_ok d 1 -> forall f,
  parse_not (S f) d ts
  = match ts with
    | TNot :: rest => andthen (parse_not f (d + 1) rest) (fun inner rest => Some (Ok (Not inner, rest)))
    | _ => parse_primary f (d + 1) ts
    end.
Proof.
  intros Hd f. cbn. replace (negb field_aliases && (64 <=? d)) with false; [done|].
  symmetry. apply andb_false_iff. destruct Hd as [->|Hd]; [by left|right; apply Z.leb_gt; lia].
Qed.

Lemma nesting_pos level e : 1 <= nesting level e.
Proof. revert level. induction e; intros level; cbn; repeat case_match; try lia; try (specialize (IHe 2%nat); lia);
  try (specialize (IHe1 1%nat); lia); specialize (IHe1 0%nat); lia. Qed.

Lemma depth_ok_le d n n' : depth_ok d n -> n' <= n -> depth_ok d n'.
Proof. unfold depth_ok. intros [?|?] ?; [by left|right; lia]. Qed.

Lemma depth_ok_in d n : depth_ok d (1 + n) -> depth_ok (d + 1) n.
Proof. unfold depth_ok. intros [?|?]; [by left|right; lia]. Qed.

(** The three readings of an expression, one per level. *)
Definition reads_not (e : Expression) : Prop :=
  forall d rest, follow rest -> depth_ok d (nesting 2 e) ->
  eventually (fun f => parse_not f d (expression_tokens 2 e ++ rest)) (Ok (e, rest)).
Definition reads_and (e : Expression) : Prop :=
  forall d rest r, follow rest -> depth_ok d (nesting 1 e) ->
  eventually (fun f => and_loop f d e rest) r ->
  eventually (fun f => parse_and f d (expression_tokens 1 e ++ rest)) r.
Definition reads_or (e : Expression) : Prop :=
  forall d rest r, follow_and rest -> depth_ok d (nesting 0 e) ->
  eventually (fun f => or_loop f d e rest) r ->
  eventually (fun f => parse_or f d (expression_tokens 0 e ++ rest)) r.

Lemma follow_weaken rest : follow_and rest -> follow rest.
Proof. by destruct rest as [|[] ?]. Qed.

Lemma and_loop_stops d e rest : follow_and rest -> eventually (fun f => and_loop f d e rest) (Ok (e, rest)).
Proof.
  intros H. exists 1%nat. intros f Hf. destruct f as [|f]; [lia|]. by destruct rest as [|[] ?].
Qed.

Lemma or_loop_stops d e rest : follow_or rest -> eventually (fun f => or_loop f d e rest) (Ok (e, rest)).
Proof.
  intros H. exists 1%nat. intros f Hf. destruct f as [|f]; [lia|]. by destruct rest as [|[] ?].
Qed.

(** An operand that is not an [and] is read by [parse_not] first. *)
Lemma reads_and_operand e :
  expression_tokens 1 e = expression_tokens 2 e -> nesting 1 e = nesting 2 e ->
  reads_not e -> reads_and e.
Proof.
  intros Et En Hn d rest r Hf Hd Hl. rewrite Et. rewrite En in Hd.
  apply (eventually_step _ (fun f => andthen (parse_not f d (expression_tokens 2 e ++ rest))
    (and_loop f d))); [done|]. by eapply eventually_andthen; [apply Hn|].
Qed.

Lemma reads_or_operand e :
  expression_tokens 0 e = expression_tokens 1 e -> nesting 0 e = nesting 1 e ->
  reads_and e -> reads_or e.
Proof.
  intros Et En Ha d rest r Hf Hd Hl. rewrite Et. rewrite En in Hd.
  apply (eventually_step _ (fun f => andthen (parse_and f d (expression_tokens 1 e ++ rest))
    (or_loop f d))); [done|]. eapply eventually_andthen; [|exact Hl].
  apply Ha; [by apply follow_weaken|done|by apply and_loop_stops].
Qed.

(** A parenthesised expression is a [not] operand. *)
Lemma reads_not_parens e :
  expression_tokens 2 e = parens (expression_tokens 0 e) -> nesting 2 e = 1 + nesting 0 e ->
  reads_or e -> reads_not e.
Proof.
  intros Et En Ho d rest Hf Hd. rewrite Et. rewrite En in Hd. unfold parens. cbn [app].
  rewrite <- app_assoc. cbn [app].
  apply (eventually_step _ (fun f => parse_primary f (d + 1)
    (TLeftParen :: expression_tokens 0 e ++ TRightParen :: rest))).
  { intros f. rewrite not_step; [done|]. eapply depth_ok_le; [exact Hd|].
    pose proof (nesting_pos 0 e). lia. }
  eapply (eventually_step _ (fun f => andthen (parse_or f (d + 1)
    (expression_tokens 0 e ++ TRightParen :: rest)) _)); [intros f; reflexivity|].
  eapply (eventually_andthen _ (fun _ => _) e (TRightParen :: rest)); [|apply eventually_const].
  apply Ho; [done|by apply depth_ok_in|by apply or_loop_stops].
Qed.

Lemma reads_all e :
  expression_wf regex_new field_aliases e -> reads_not e /\ reads_and e /\ reads_or e.
Proof.
  induction e as [p|e IH|l IHl r IHr|l IHl r IHr]; intros Hwf; cbn in Hwf.
  - assert (Hn : reads_not (Pred p)).
    { intros d rest Hf Hd. destruct (predicate_read p rest Hwf Hf) as (w & ts & Et & Hp).
      cbn [expression_tokens]. rewrite Et. cbn [app].
      apply (eventually_step _ (fun f => parse_primary f (d + 1) (TWord w :: ts ++ rest))).
      { intros f. by rewrite not_step. }
      eapply (eventually_step _ (fun _ => _)); [intros f; reflexivity|].
      cbn. rewrite Hp. apply eventually_const. }
    assert (Ha : reads_and (Pred p)) by (by apply reads_and_operand).
    split; [done|]. split; [done|by apply reads_or_operand].
  - destruct (IH Hwf) as (Hn' & _ & _).
    assert (Hn : reads_not (Not e)).
    { intros d rest Hf Hd. cbn [expression_tokens app]. cbn [nesting] in Hd.
      eapply (eventually_step _ (fun f => andthen (parse_not f (d + 1) (expression_tokens 2 e ++ rest))
        (fun inner rest => Some (Ok (Not inner, rest))))).
      { intros f. rewrite not_step; [done|]. eapply depth_ok_le; [exact Hd|].
        pose proof (nesting_pos 2 e). lia. }
      eapply (eventually_andthen _ (fun _ => _) e rest); [|apply eventually_const].
      apply Hn'; [done|by apply depth_ok_in]. }
    assert (Ha : reads_and (Not e)) by (by apply reads_and_operand).
    split; [done|]. split; [done|by apply reads_or_operand].
  - destruct Hwf as [Hwl Hwr]. destruct (IHl Hwl) as (_ & Hal & _). destruct (IHr Hwr) as (Hnr & _ & _).
    assert (Ha : reads_and (And l r)).
    { intros d rest R Hf Hd Hl. cbn [expression_tokens nesting Nat.leb] in *.
      rewrite <- app_assoc. cbn [app].
      apply Hal; [done|eapply depth_ok_le; [exact Hd|lia]|].
      eapply (eventually_step _ (fun f => andthen (parse_not f d (expression_tokens 2 r ++ rest))
        (fun r rest => and_loop f d (And l r) rest))); [intros f; reflexivity|].
      eapply (eventually_andthen _ (fun f r rest => and_loop f d (And l r) rest)); [|exact Hl].
      apply Hnr; [done|eapply depth_ok_le; [exact Hd|lia]]. }
    assert (Ho : reads_or (And l r)) by (by apply reads_or_operand).
    split; [by apply reads_not_parens|done].
  - destruct Hwf as [Hwl Hwr]. destruct (IHl Hwl) as (_ & _ & Hol). destruct (IHr Hwr) as (_ & Har & _).
    assert (Ho : reads_or (Or l r)).
    { intros d rest R Hf Hd Hl. cbn [expression_tokens nesting Nat.eqb] in *.
      rewrite <- app_assoc. cbn [app].
      apply Hol; [done|eapply depth_ok_le; [exact Hd|lia]|].
      eapply (eventually_step _ (fun f => andthen (parse_and f d (expression_tokens 1 r ++ rest))
        (fun r rest => or_loop f d (Or l r) rest))); [intros f; reflexivity|].
      eapply (eventually_andthen _ (fun f r rest => or_loop f d (Or l r) rest)); [|exact Hl].
      apply Har; [by apply follow_weaken|eapply depth_ok_le; [exact Hd|lia]|by apply and_loop_stops]. }
    assert (Hn : reads_not (Or l r)) by (by apply reads_not_parens).
    split; [done|]. split; [by apply reads_and_operand|done].
Qed.

(** The fuel of the entry points reads what large enough fuel reads. *)
Lemma parse_fuel_enough ts r :
  eventually (fun f => parse_or f 0 ts) r -> parse_or (parser_fuel ts) 0 ts = Some r.
Proof.
  intros [F HF].
  destruct (parser_returns regex_new field_aliases (parser_fuel ts)) as (Hor & _).
  destruct (Hor 0 ts (le_n _)) as (r' & Hr & _).
  destruct (parser_more regex_new field_aliases (parser_fuel ts) (Nat.max F (parser_fuel ts))
    ltac:(lia)) as (Hm & _).
  specialize (Hm 0 ts r' Hr). rewrite HF in Hm by lia. congruence.
Qed.

Lemma parse_tokens_read e :
  expression_wf regex_new field_aliases e -> depth_ok 0 (nesting 0 e) ->
  let ts := expression_tokens 0 e in parse_or (parser_fuel ts) 0 ts = Some (Ok (e, [])).
Proof.
  intros Hwf Hd ts. destruct (reads_all e Hwf) as (_ & _ & Ho). apply parse_fuel_enough.
  pose proof (Ho 0 [] (Ok (e, [])) I Hd (or_loop_stops 0 e [] I)) as H. by rewrite app_nil_r in H.
Qed.

Lemma parse_single_word w p :
  parse_bare_word field_aliases w = Ok p ->
  parse_or (parser_fuel [TWord w]) 0 [TWord w] = Some (Ok (Pred p, [])).
Proof.
  intros Hp. apply parse_fuel_enough.
  apply (eventually_step _ (fun f => andthen (parse_and f 0 [TWord w]) (or_loop f 0))); [done|].
  eapply eventually_andthen; [|by apply or_loop_stops].
  apply (eventually_step _ (fun f => andthen (parse_not f 0 [TWord w]) (and_loop f 0))); [done|].
  eapply eventually_andthen; [|by apply and_loop_stops].
  apply (eventually_step _ (fun f => parse_primary f 1 [TWord w])).
  { intros f. rewrite not_step; [done|right; lia]. }
  apply (eventually_step _ (fun _ => Some (
    predicate_rest ← parse_predicate regex_new field_aliases w [];
    Ok (Pred (fst predicate_rest), snd predicate_rest)))); [done|].
  rewrite (bare_follow w p [] Hp I). apply eventually_const.
Qed.

End Parser.

Lemma list_tokens_wf regex_new values :
  forallb (list_value_wf regex_new) values = true -> forallb token_wf (list_tokens values) = true.
Proof.
  induction values as [|v values IH]; intros H; [done|]. cbn in H. bools.
  assert (Hv : token_wf (list_value_token v) = true).
  { destruct v as [s|pattern]; [done|]. cbn in *. bools. by apply andb_true_intro; split; [|apply negb_true_iff]. }
  destruct values as [|v' values].
  - cbn. by rewrite Hv.
  - change (forallb token_wf (list_tokens (v :: v' :: values)))
      with (token_wf (list_value_token v) && forallb token_wf (list_tokens (v' :: values))).
    by rewrite Hv, IH.
Qed.

Lemma predicate_tokens_wf regex_new field_aliases p :
  predicate_wf regex_new field_aliases p -> forallb token_wf (predicate_tokens p) = true.
Proof.
  destruct p as [raw|field op [v]|field neg values|name|]; cbn; unfold field_wf.
  - intros [-> _]. done.
  - intros H. bools. destruct op; by apply andb_true_intro.
  - intros (H & _ & Hv). bools. apply andb_true_intro. split; [done|].
    rewrite forallb_app. cbn. rewrite (list_tokens_wf regex_new values Hv). by destruct neg.
  - intros [-> _]. done.
  - done.
Qed.

Lemma expression_tokens_wf regex_new field_aliases e level :
  expression_wf regex_new field_aliases e -> forallb token_wf (expression_tokens level e) = true.
Proof.
  revert level. induction e as [p|e IH|l IHl r IHr|l IHl r IHr]; intros level H; cbn in H |- *.
  - by eapply predicate_tokens_wf.
  - by apply IH.
  - destruct H as [Hl Hr]. destruct (level <=? 1)%nat; cbn; rewrite ?forallb_app; cbn;
      rewrite ?IHl, ?IHr, ?forallb_app by done; cbn; rewrite ?IHl, ?IHr by done; done.
  - destruct H as [Hl Hr]. destruct (level =? 0)%nat; cbn; rewrite ?forallb_app; cbn;
      rewrite ?IHl, ?IHr, ?forallb_app by done; cbn; rewrite ?IHl, ?IHr by done; done.
Qed.

Lemma expression_tokens_nonempty e level : is_empty (expression_tokens level e) = false.
Proof.
  assert (Hp : forall p, is_empty (predicate_tokens p) = false).
  { by destruct p as [raw|field op [v]|field neg values|name|]. }
  revert level. induction e as [p|e IH|l IHl r IHr|l IHl r IHr]; intros level; cbn; try done.
  - destruct (level <=? 1)%nat; [|done]. specialize (IHl 1%nat). by destruct (expression_tokens 1 l).
  - destruct (level =? 0)%nat; [|done]. specialize (IHl 0%nat). by destruct (expression_tokens 0 l).
Qed.

(** C8: every well-formed expression has a text that parses to exactly it, in the selector grammar
    without limits and in the typed grammar within its 64 levels and 1,024 tokens.  The text has
    only the parentheses that precedence and left associativity require, and values of any content
    survive their quoting. *)
Theorem parse_render regex_new field_aliases e :
  expression_wf regex_new field_aliases e -> validate_expression e = Ok tt ->
  field_aliases = true \/ (nesting 0 e <= 64 /\ vec_len (expression_tokens 0 e) <= 1024) ->
  parse_expression_with_aliases regex_new (render e) field_aliases = Some (Ok (Some e)).
Proof.
  intros Hwf Hval Hlim. unfold parse_expression_with_aliases, tokenize, render.
  rewrite tokenize_text by (by eapply expression_tokens_wf).
  replace (negb field_aliases && (1024 <? vec_len (expression_tokens 0 e))) with false.
  2: { symmetry. apply andb_false_iff. destruct Hlim as [->|[_ Hl]]; [by left|right; by apply Z.ltb_ge]. }
  rewrite expression_tokens_nonempty.
  rewrite parse_tokens_read; [|done|].
  2: { unfold depth_ok. destruct Hlim as [?|[? _]]; [by left|right; lia]. }
  rewrite Hval. done.
Qed.

Lemma parse_render_witness :
  let e := And (Or (Pred (Bare (lit "edge"))) (Not (Pred Untagged)))
             (Pred (Membership (lit "vps.tag") true [ListLiteral (lit "a \ b"); ListRegex (lit "^x")])) in
  render e = lit "( edge || ! untagged ) && vps.tag ! in [ " ++ quote (lit "a \ b")
             ++ lit " , /^x/ ] "
  /\ parse_expression_with_aliases (fun _ => Ok tt) (render e) true = Some (Ok (Some e)).
Proof.
  cbv zeta. split; [vm_compute; reflexivity|].
  apply parse_render; [|vm_compute; reflexivity|left; reflexivity].
  cbn [expression_wf predicate_wf bare_wf]. unfold bare_wf, field_wf.
  split; [split; [split; vm_compute; reflexivity|reflexivity]|].
  split; [vm_compute; reflexivity|]. split; [discriminate|vm_compute; reflexivity].
Defined.

(** * Selecting one VPS by its id *)

(** The word [id:<id>] stands for a comparison of the VPS id. *)
Lemma id_word_predicate id :
  id <> [] -> parse_bare_word true (lit "id:" ++ id) = Ok (Comparison (lit "vps.id") Eq (ScalarLiteral id)).
Proof.
  intros Hne. unfold parse_bare_word. cbn [negb].
  assert (Hlow : to_ascii_lowercase (lit "id:" ++ id) = 105 :: 100 :: 58 :: to_ascii_lowercase id) by done.
  assert (Hs : forall p, (match p with [] => true | a :: _ => a =? 105 end = false) ->
    starts_with (105 :: 100 :: 58 :: to_ascii_lowercase id) p = false).
  { intros p Hp. destruct p as [|a p]; [done|]. unfold starts_with. cbn [strip_prefix].
    rewrite Hp. by apply bool_decide_eq_false_2, is_Some_None. }
  assert (Hi : starts_with (105 :: 100 :: 58 :: to_ascii_lowercase id) (lit "interval.") = false).
  { apply bool_decide_eq_false_2. vm_compute. by intros [? ?]. }
  assert (He : is_event_predicate (lit "id:" ++ id) = false).
  { unfold is_event_predicate. rewrite Hlow. apply orb_false_intro.
    - cbn [existsb]. rewrite Hi. cbn [orb]. by rewrite !Hs.
    - unfold one_of. cbn [existsb]. by rewrite !(proj2 (str_eqb_neq _ _)) by (vm_compute; congruence). }
  assert (Hu : eq_ignore_ascii_case (lit "id:" ++ id) (lit "untagged") = false).
  { unfold eq_ignore_ascii_case. rewrite Hlow. apply str_eqb_neq. vm_compute. congruence. }
  rewrite Hu, He. change (lit "id:" ++ id) with (lit "id" ++ 58 :: id).
  rewrite (proj2 (split_once_spec 58 (lit "id" ++ 58 :: id) (lit "id") id)).
  2: { split; [done|]. apply (bool_decide_unpack _). by vm_compute. }
  cbn [is_empty]. by destruct id.
Qed.

Lemma id_word_plain id : forallb word_char id = true -> plain_word (lit "id:" ++ id) = true.
Proof.
  intros Hw. unfold plain_word. change (lit "id:" ++ id) with (105 :: 100 :: 58 :: id).
  cbn [forallb]. rewrite Hw. change (to_ascii_lowercase (105 :: 100 :: 58 :: id))
    with (105 :: 100 :: 58 :: to_ascii_lowercase id).
  unfold one_of. cbn [existsb]. by rewrite !(proj2 (str_eqb_neq _ _)) by (vm_compute; congruence).
Qed.

Lemma tokenize_id id :
  forallb word_char id = true -> tokenize (lit "id:" ++ id) = Some (Ok [TWord (lit "id:" ++ id)]).
Proof.
  intros Hw. pose proof (id_word_plain id Hw) as Hp.
  unfold tokenize. change (lit "id:" ++ id) with (105 :: 100 :: 58 :: id) in *.
  apply (tokenize_cons _ _ _ [TWord (105 :: 100 :: 58 :: id)] [] []); [|done].
  pose proof (plain_word_step (105 :: 100 :: 58 :: id) 105 (100 :: 58 :: id) [] Hp I) as H.
  by rewrite app_nil_r in H.
Qed.

(** The comparison of the VPS id with a text without wildcards. *)
Lemma id_comparison_matches re ts fs context vps id :
  ctx_vps context = Some vps -> has_wildcard id = false ->
  predicate_matches re ts fs context (Comparison (lit "vps.id") Eq (ScalarLiteral id))
  = eq_ignore_ascii_case (vps_id vps) id.
Proof.
  intros Hvps Hwild. cbn [predicate_matches]. unfold comparison_matches. cbn [is_order_operator negb andb].
  change (starts_with (to_ascii_lowercase (lit "vps.id")) (lit "vps.rules:")) with false.
  rewrite andb_false_r.
  assert (Hf : field_values fs context (lit "vps.id") = Some [FString (vps_id vps)]).
  { unfold field_values. change (canonical_field (lit "vps.id")) with (lit "vps.id").
    change (vps_rule_field_values (ctx_vps_rules context) (lit "vps.id")) with (@None (list FieldValue)).
    rewrite Hvps. reflexivity. }
  rewrite Hf. cbn [existsb compare_field_value field_value_literal_matches].
  unfold literal_matches. rewrite has_wildcard_lower, Hwild. by rewrite orb_false_r.
Qed.

(** The selector built for a client id selects exactly the VPS with that id (up to ASCII case):
    for an id of word characters without wildcards, parsing [id:<id>] and matching it is the
    comparison of the two ids, whatever else the context holds. *)
Theorem id_selector_selects_only_that_id regex_new re ts fs context vps id :
  ctx_vps context = Some vps -> forallb word_char (trim id) = true -> trim id <> [] ->
  has_wildcard (trim id) = false ->
  parse_and_match_expression regex_new (expression_matches re ts fs context)
    (id_selector_expression id)
  = Some (Ok (eq_ignore_ascii_case (vps_id vps) (trim id))).
Proof.
  intros Hvps Hw Hne Hwild. unfold id_selector_expression, parse_and_match_expression,
    parse_expression, parse_expression_with_aliases.
  rewrite (tokenize_id (trim id) Hw). cbn [negb andb is_empty].
  rewrite (parse_single_word regex_new true _ _ (id_word_predicate (trim id) Hne)).
  change (validate_expression (Pred (Comparison (lit "vps.id") Eq (ScalarLiteral (trim id)))))
    with (@Ok str unit tt). cbn [mbind result_bind expression_matches].
  do 2 f_equal. by apply id_comparison_matches.
Qed.

Lemma id_selector_selects_only_that_id_witness :
  let vps := mkVps (lit "Edge-01") (lit "Edge One") (lit "online") [] None None None None None None None in
  parse_and_match_expression (fun _ => Ok tt)
    (expression_matches (fun _ _ => false) (fun _ => None) (fun _ => []) (for_vps vps))
    (id_selector_expression (lit " edge-01 "))
  = Some (Ok true).
Proof.
  cbv zeta. set (vps := mkVps _ _ _ _ _ _ _ _ _ _ _).
  refine (eq_trans (id_selector_selects_only_that_id (fun _ => Ok tt) (fun _ _ => false) (fun _ => None)
    (fun _ => []) (for_vps vps) vps (lit " edge-01 ") _ _ _ _) _).
  - reflexivity.
  - vm_compute. reflexivity.
  - vm_compute. discriminate.
  - vm_compute. reflexivity.
  - vm_compute. reflexivity.
Defined.
