(* ===== verification/Templates.v ===== *)
(** Message templates: crates/common/src/selection/template.rs.

    A template is text with placeholders in braces, blocks in brackets and
    comments.  The source walks a byte cursor over the input; the model passes the
    text before the cursor and the rest, so an index is never inside a character.
    The parser recurses on fuel; [None] is exhausted fuel.  A [TemplateError] always
    holds one message, which is its model.  A condition is an expression of
    [ExpressionParser], whose totality makes the default of [parse_condition]
    unused. *)

From stdpp Require Import sorting.
From S2P Require Import Prelude RustStd F64 Json VpsRules Expression ExpressionParser.

Open Scope Z_scope.

(** * Data *)

Inductive HelperCall :=
| Length
| Join (separator : str)
| Split (separator : str)
| Substr (start : Z) (length : option Z)
| First
| Last
| Map (path : str)
| Filter (condition : str)
| Count (condition : option str).

Record PathExpr := mkPath { path_base : str; path_helpers : list HelperCall }.

Inductive Node :=
| Text (text : str)
| Placeholder (path : PathExpr)
| For (variable : str) (path : PathExpr) (body : list Node)
| If (branches : list (str * list Node)) (else_body : list Node).

Inductive EndTag := EndFor | ElseIf (condition : str) | Else | EndIf.

Record Scope := mkTemplateScope {
  scope_root : Value;
  scope_locals : gmap str Value;
  scope_literal_locals : gset str;
}.

Record TemplateRenderOptions := mkRenderOptions {
  max_message_bytes : Z;
  max_substitution_bytes : option Z;
  literal_object_paths : list str;
}.

Definition DEFAULT_MESSAGE_LIMIT_BYTES : Z := 16 * 1024.

(** What the code takes from other crates: the regex engine, RFC 3339 parsing, the
    text of floats and of JSON values, and the parser of a JSON string. *)
Class TemplateOps := {
  t_regex_new : str -> result str unit;
  t_regex_is_match : str -> str -> bool;
  t_parse_rfc3339 : str -> option Z;
  t_float_to_string : f64 -> str;
  t_json_to_string : Value -> str;
  t_parse_json_string : str -> result str str;
}.

(** * Text *)

(** [s.find(p)] of a string: what is before the first occurrence, and the rest from it. *)
Fixpoint find_str (p s : str) : option (str * str) :=
  if starts_with s p then Some ([], s)
  else match s with
       | [] => None
       | c :: s' => match find_str p s' with Some (a, b) => Some (c :: a, b) | None => None end
       end.

(** [s.split(p)] of a non-empty string; [skip] characters belong to a separator. *)
Fixpoint split_str_go (p : str) (skip : nat) (cur : str) (s : str) : list str :=
  match s with
  | [] => [cur]
  | c :: s' =>
      match skip with
      | S skip => split_str_go p skip cur s'
      | O => if starts_with s p then cur :: split_str_go p (length p - 1) [] s'
             else split_str_go p 0 (cur ++ [c]) s'
      end
  end.
Definition split_str (p s : str) : list str := split_str_go p 0 [] s.

Definition is_identifier (value : str) : bool :=
  match value with
  | [] => false
  | first :: rest =>
      (is_ascii_alphabetic first || (first =? 95))
      && forallb (fun c => is_ascii_alphabetic c || is_ascii_digit c || (c =? 95)) rest
  end.

Definition end_tag_label (tag : EndTag) : str :=
  match tag with
  | EndFor => lit "endfor" | ElseIf _ => lit "elseif" | Else => lit "else" | EndIf => lit "endif"
  end.

Definition unquote (value : str) : str :=
  let trimmed := trim value in
  match trimmed with
  | first :: rest =>
      match rev rest with
      | last :: middle =>
          if ((first =? 34) && (last =? 34)) || ((first =? 39) && (last =? 39))
          then rev middle else trimmed
      | [] => trimmed
      end
  | [] => trimmed
  end.

(** The characters between single quotes, as those of a JSON string; [None] for a
    backslash at the end. *)
Fixpoint requote (escaped : bool) (s : str) : option str :=
  match s with
  | [] => if escaped then None else Some []
  | c :: s' =>
      if escaped then
        rest ← requote false s'; Some ((if c =? 39 then [c] else [92; c]) ++ rest)
      else if c =? 92 then requote true s'
      else rest ← requote false s'; Some ((if c =? 34 then [92; 34] else [c]) ++ rest)
  end.

(** * Parsing *)

Definition parse_end_tag (tag : str) : option EndTag :=
  if str_eqb tag (lit "endfor") then Some EndFor
  else if str_eqb tag (lit "else") then Some Else
  else if str_eqb tag (lit "endif") then Some EndIf
  else match strip_prefix (lit "elseif ") tag with
       | Some condition =>
           let condition := trim condition in
           if is_empty condition then None else Some (ElseIf condition)
       | None => None
       end.

Definition HELPER_NEEDLES : list string :=
  [".length"; ".join("; ".split("; ".substr("; ".first"; ".last"; ".map("; ".filter("; ".where(";
   ".count("; ".count"].

Definition min_option (a b : option nat) : option nat :=
  match a, b with
  | Some x, Some y => Some (Nat.min x y)
  | Some x, None | None, Some x => Some x
  | None, None => None
  end.

(** Where the first helper of the text begins. *)
Definition first_helper_start (raw : str) : option nat :=
  foldr (fun needle found => min_option (option_map (fun r => length (fst r)) (find_str (lit needle) raw)) found)
    None HELPER_NEEDLES.

(** The text up to the parenthesis that closes the first one, and the rest. *)
Fixpoint find_close (depth : Z) (quote : option char) (escaped : bool) (argument s : str) :
  option (str * str) :=
  match s with
  | [] => None
  | c :: s' =>
      let next depth quote escaped := find_close depth quote escaped (argument ++ [c]) s' in
      if escaped then next depth quote false
      else if c =? 92 then next depth quote true
      else match quote with
           | Some active => next depth (if c =? active then None else quote) false
           | None =>
               if (c =? 34) || (c =? 39) then next depth (Some c) false
               else if c =? 40 then next (depth + 1) None false
               else if c =? 41 then
                 if depth - 1 =? 0 then Some (argument, s') else next (depth - 1) None false
               else next depth None false
           end
  end.

(** The argument without its parentheses: [s] starts at the opening one. *)
Definition helper_argument (s : str) : result str (str * str) :=
  match s with
  | 40 :: s' => ok_or (find_close 1 None false [] s') (lit "helper is missing closing parenthesis")
  | _ => Err (lit "helper is missing opening parenthesis")
  end.

Section Parsing.
Context `{TemplateOps}.

(** [parse_expression]; it returns for every text. *)
Definition parse_condition (condition : str) : result str (option Expression) :=
  default (Err []) (parse_expression t_regex_new condition).

Definition validate_condition (condition : str) : result str unit :=
  map_err (fun e => lit "invalid condition expression: " ++ e) (parse_condition condition);; Ok tt.

Definition parse_string_helper_argument (argument : str) : result str str :=
  let argument := trim argument in
  let parse encoded :=
    map_err (fun e => lit "invalid quoted helper argument: " ++ e) (t_parse_json_string encoded) in
  match argument with
  | [] => Err (lit "split helper requires a separator")
  | 39 :: rest =>
      match rev rest with
      | 39 :: middle =>
          encoded ← ok_or (requote false (rev middle)) (lit "invalid quoted helper argument");
          parse ([34] ++ encoded ++ [34])
      | _ => Err (lit "invalid quoted helper argument")
      end
  | 34 :: _ => parse argument
  | _ => Ok argument
  end.

Definition parse_substr (argument : str) : result str HelperCall :=
  let index value := ok_or (parse_i64 value) (lit "substr indices must be integers") in
  match map trim (split 44 argument) with
  | [start] => start ← index start; Ok (Substr start None)
  | [start; len] => start ← index start; len ← index len; Ok (Substr start (Some len))
  | _ => Err (lit "substr expects start and optional length")
  end.

(** One helper at the front of [tail], and what follows it. *)
Definition parse_helper (tail : str) : result str (HelperCall * str) :=
  let at_ name := strip_prefix (lit name) tail in
  (* the argument of a helper named [name], whose text starts at its parenthesis *)
  let argument (name : string) := helper_argument (drop (length (lit name)) tail) in
  if at_ ".length" is Some rest then Ok (Length, rest)
  else if at_ ".first" is Some rest then Ok (First, rest)
  else if at_ ".last" is Some rest then Ok (Last, rest)
  else if at_ ".join(" is Some _ then
    '(a, rest) ← argument ".join"; Ok (Join (unquote (trim a)), rest)
  else if at_ ".split(" is Some _ then
    '(a, rest) ← argument ".split"; a ← parse_string_helper_argument a; Ok (Split a, rest)
  else if at_ ".substr(" is Some _ then
    '(a, rest) ← argument ".substr"; helper ← parse_substr a; Ok (helper, rest)
  else if at_ ".map(" is Some _ then
    '(a, rest) ← argument ".map";
    let a := trim a in
    reject_if (is_empty a || bool_decide (is_Some (first_helper_start a))) (lit "invalid map helper syntax");;
    Ok (Map a, rest)
  else if starts_with tail (lit ".filter(") || starts_with tail (lit ".where(") then
    '(a, rest) ← argument (if starts_with tail (lit ".filter(") then ".filter" else ".where")%string;
    let a := trim a in
    reject_if (is_empty a) (lit "filter helper is missing a condition");;
    validate_condition a;; Ok (Filter a, rest)
  else if at_ ".count(" is Some _ then
    '(a, rest) ← argument ".count";
    let a := trim a in
    if is_empty a then Ok (Count None, rest) else validate_condition a;; Ok (Count (Some a), rest)
  else if at_ ".count" is Some rest then Ok (Count None, rest)
  else Err (lit "invalid helper syntax near " ++ tail).

(** Every helper takes text from the tail; the fuel is its length. *)
Fixpoint parse_helpers (fuel : nat) (tail : str) : option (result str (list HelperCall)) :=
  match tail with
  | [] => Some (Ok [])
  | _ =>
      match fuel with
      | O => None
      | S fuel =>
          match parse_helper tail with
          | Err e => Some (Err e)
          | Ok (helper, rest) =>
              match parse_helpers fuel rest with
              | Some (Ok helpers) => Some (Ok (helper :: helpers))
              | r => r
              end
          end
      end
  end.

Definition parse_path_expr (raw : str) : option (result str PathExpr) :=
  let helper_start := default (length raw) (first_helper_start raw) in
  let base := trim (take helper_start raw) in
  if is_empty base then Some (Err (lit "path is missing a root"))
  else
    match parse_helpers (length raw) (drop helper_start raw) with
    | Some (Ok helpers) => Some (Ok (mkPath base helpers))
    | Some (Err e) => Some (Err e)
    | None => None
    end.

(** [s.split_once(" in ")]. *)
Definition split_in (s : str) : option (str * str) :=
  match find_str (lit " in ") s with
  | Some (variable, path) => Some (variable, drop (length (lit " in ")) path)
  | None => None
  end.

Definition parse_for_tag (tag : str) : option (result str (option (str * PathExpr))) :=
  match strip_prefix (lit "for ") tag with
  | None => Some (Ok None)
  | Some rest =>
      match split_in rest with
      | None => Some (Err (lit "invalid for block syntax"))
      | Some (variable, path) =>
          let variable := trim variable in
          let path := trim path in
          if negb (is_identifier variable) then Some (Err (lit "invalid loop variable"))
          else if is_empty path then Some (Err (lit "for block is missing an iterable path"))
          else match parse_path_expr path with
               | Some (Ok path) => Some (Ok (Some (variable, path)))
               | Some (Err e) => Some (Err e)
               | None => None
               end
      end
  end.

Definition parse_if_tag (tag : str) : result str (option str) :=
  match strip_prefix (lit "if ") tag with
  | None => Ok None
  | Some condition =>
      let condition := trim condition in
      reject_if (is_empty condition) (lit "if block is missing a condition");;
      validate_condition condition;; Ok (Some condition)
  end.

(** The part of the line of a comment before it. *)
Definition line_indentation (before : str) : str := rev (fst (span (fun c => negb (c =? 10)) (rev before))).

(** Where a comment that stands alone on its line ends: after the line break. *)
Definition standalone_comment_end (before remaining : str) : option (str * str) :=
  if negb (is_empty (trim (line_indentation before))) then None
  else
    let '(line, rest) := span (fun c => negb (c =? 10)) remaining in
    if negb (is_empty (trim line)) then None
    else match rest with
         | newline :: rest => Some (line ++ [newline], rest)
         | [] => Some (remaining, [])
         end.

(** The indentation of the comment goes with it. *)
Definition remove_comment_line_indentation (nodes : list Node) (before : str) : list Node :=
  let indentation := line_indentation before in
  if is_empty indentation then nodes
  else match rev nodes with
       | Text text :: earlier =>
           match strip_prefix (rev indentation) (rev text) with
           | Some kept => rev (Text (rev kept) :: earlier)
           | None => nodes
           end
       | _ => nodes
       end.

(** The nodes of a block, the tag that closed it, and the text before and after the cursor. *)
Abbreviation Parsed := (list Node * option EndTag * (str * str))%type.

Definition is_text (c : char) : bool := negb ((c =? 123) || (c =? 91)).

Fixpoint parse_nodes (fuel : nat) (in_block : bool) (nodes : list Node) (before rest : str) {struct fuel} :
  option (result str Parsed) :=
  match fuel with
  | O => None
  | S fuel =>
      let '(text, rest1) := span is_text rest in
      match rest1 with
      | [] =>
          Some (Ok ((if is_empty rest then nodes else nodes ++ [Text rest]), None, (before ++ rest, [])))
      | c :: after =>
          let nodes := if is_empty text then nodes else nodes ++ [Text text] in
          let before := before ++ text in
          if c =? 123 then
            match strip_prefix (lit "{#") rest1 with
            | Some inside =>
                match find_str (lit "#}") inside with
                | None => Some (Err (lit "unmatched comment"))
                | Some (comment, closing) =>
                    let remaining := drop 2 closing in
                    let passed := before ++ lit "{#" ++ comment ++ lit "#}" in
                    match standalone_comment_end before remaining with
                    | Some (line, remaining) =>
                        parse_nodes fuel in_block (remove_comment_line_indentation nodes before)
                          (passed ++ line) remaining
                    | None => parse_nodes fuel in_block nodes passed remaining
                    end
                end
            | None =>
                match split_once 125 after with
                | None => Some (Err (lit "unmatched placeholder"))
                | Some (inner, remaining) =>
                    let raw := trim inner in
                    if is_empty raw then Some (Err (lit "empty placeholder"))
                    else match parse_path_expr raw with
                         | Some (Ok path) =>
                             parse_nodes fuel in_block (nodes ++ [Placeholder path])
                               (before ++ [123] ++ inner ++ [125]) remaining
                         | Some (Err e) => Some (Err e)
                         | None => None
                         end
                end
            end
          else
            match split_once 93 after with
            | None => parse_nodes fuel in_block (nodes ++ [Text [91]]) (before ++ [91]) after
            | Some (inner, remaining) =>
                let tag := trim inner in
                let passed := before ++ [91] ++ inner ++ [93] in
                match parse_end_tag tag with
                | Some end_tag =>
                    if in_block then Some (Ok (nodes, Some end_tag, (passed, remaining)))
                    else Some (Err (lit "unexpected closing block tag " ++ end_tag_label end_tag))
                | None =>
                    match parse_for_tag tag with
                    | None => None
                    | Some (Err e) => Some (Err e)
                    | Some (Ok (Some (variable, path))) =>
                        match parse_nodes fuel true [] passed remaining with
                        | Some (Ok (body, Some EndFor, (before, rest))) =>
                            parse_nodes fuel in_block (nodes ++ [For variable path body]) before rest
                        | Some (Ok (_, Some other, _)) => Some (Err (lit "for block closed by " ++ end_tag_label other))
                        | Some (Ok (_, None, _)) => Some (Err (lit "unmatched for block"))
                        | Some (Err e) => Some (Err e)
                        | None => None
                        end
                    | Some (Ok None) =>
                        match parse_if_tag tag with
                        | Err e => Some (Err e)
                        | Ok (Some condition) =>
                            match parse_nodes fuel true [] passed remaining with
                            | Some (Ok (body, end_tag, (before, rest))) =>
                                match parse_branches fuel [(condition, body)] end_tag before rest with
                                | Some (Ok (branches, else_body, (before, rest))) =>
                                    parse_nodes fuel in_block (nodes ++ [If branches else_body]) before rest
                                | Some (Err e) => Some (Err e)
                                | None => None
                                end
                            | Some (Err e) => Some (Err e)
                            | None => None
                            end
                        | Ok None =>
                            parse_nodes fuel in_block (nodes ++ [Text ([91] ++ inner ++ [93])]) passed remaining
                        end
                    end
                end
            end
      end
  end
(** The loop over [elseif] and [else] up to [endif]. *)
with parse_branches (fuel : nat) (branches : list (str * list Node)) (end_tag : option EndTag)
    (before rest : str) {struct fuel} :
  option (result str (list (str * list Node) * list Node * (str * str))) :=
  match fuel with
  | O => None
  | S fuel =>
      match end_tag with
      | Some (ElseIf condition) =>
          match validate_condition condition with
          | Err e => Some (Err e)
          | Ok _ =>
              match parse_nodes fuel true [] before rest with
              | Some (Ok (body, next, (before, rest))) =>
                  parse_branches fuel (branches ++ [(condition, body)]) next before rest
              | Some (Err e) => Some (Err e)
              | None => None
              end
          end
      | Some Else =>
          match parse_nodes fuel true [] before rest with
          | Some (Ok (body, Some EndIf, position)) => Some (Ok (branches, body, position))
          | Some (Ok (_, Some other, _)) => Some (Err (lit "else block closed by " ++ end_tag_label other))
          | Some (Ok (_, None, _)) => Some (Err (lit "unmatched if block"))
          | Some (Err e) => Some (Err e)
          | None => None
          end
      | Some EndIf => Some (Ok (branches, [], (before, rest)))
      | Some other => Some (Err (lit "if block closed by " ++ end_tag_label other))
      | None => Some (Err (lit "unmatched if block"))
      end
  end.

(** Two calls for every character. *)
Definition template_fuel (input : str) : nat := 2 * length input + 2.

Definition parse_template (input : str) : option (result str (list Node)) :=
  match parse_nodes (template_fuel input) false [] [] input with
  | Some (Ok (nodes, None, _)) => Some (Ok nodes)
  | Some (Ok (_, Some end_tag, _)) => Some (Err (lit "unexpected closing block tag " ++ end_tag_label end_tag))
  | Some (Err e) => Some (Err e)
  | None => None
  end.

Definition validate_template (template : str) : option (result str unit) :=
  option_map (fun r => r ≫= (fun _ => Ok tt)) (parse_template template).
End Parsing.

(** * Values *)

Definition array_values (value : Value) : option (list Value) :=
  match value with Array values => Some values | Null => Some [] | _ => None end.

Definition value_length (value : Value) : Z :=
  match value with
  | Array values => vec_len values
  | Object members => vec_len members
  | Str s => vec_len s
  | Bool _ | Num _ | Null => 0
  end.

Definition path_segments (path : str) : list str :=
  List.filter (fun segment => negb (is_empty segment)) (map trim (split 46 path)).

(** The key a segment looks up: an object's display name stands for its name. *)
Definition segment_key (literal_objects : bool) (current : Value) (segment : str) : str :=
  if negb literal_objects && str_eqb segment (lit "name")
     && bool_decide (is_Some (json_get current (lit "display_name")))
  then lit "display_name" else segment.

(** The walk from [current] along its segments.  An array met on the way
    is mapped over [every], every segment of the call and not only those that are left. *)
Fixpoint value_path_from (literal_objects : bool) (every segments : list str) (current : Value) {struct current} :
  option Value :=
  match segments with
  | [] => Some current
  | segment :: segments =>
      match current with
      | Array values =>
          Some (Array (map (fun value => default Null (value_path_from literal_objects every every value)) values))
      | Object members =>
          let key := segment_key literal_objects current segment in
          (fix get (l : list (str * Value)) : option Value :=
             match l with
             | [] => None
             | (k, v) :: l => if str_eqb key k then value_path_from literal_objects every segments v else get l
             end) members
      | _ => None
      end
  end.

Definition value_path (literal_objects : bool) (segments : list str) (value : Value) : option Value :=
  value_path_from literal_objects segments segments value.

Definition looks_like_vps (value : Value) : bool :=
  bool_decide (is_Some (json_get value (lit "id") ≫= as_str))
  && (bool_decide (is_Some (json_get value (lit "display_name")))
      || bool_decide (is_Some (json_get value (lit "status")))).

Definition string_field (value : Value) (field : string) : option str :=
  json_get value (lit field) ≫= as_str.

(** [a.or_else(|| b)]. *)
Definition or_else {A} (a b : option A) : option A := match a with Some x => Some x | None => b end.

Definition vps_metadata_from_value (value : Value) : option VpsMetadata :=
  id ← json_get value (lit "id") ≫= as_str;
  Some (mkVps id
    (default [] (or_else (json_get value (lit "display_name")) (json_get value (lit "name")) ≫= as_str))
    (default [] (string_field value "status"))
    (default [] (option_map (omap as_str) (json_get value (lit "tags") ≫= as_array)))
    (string_field value "registration_ip") (string_field value "last_ip") (string_field value "last_seen_at")
    (json_get value (lit "internal_build_number") ≫= as_u64)
    (string_field value "stale_since") (string_field value "stale_reason") (Some value)).

Definition set_ctx_vps (vps : option VpsMetadata) (c : ExpressionContext) : ExpressionContext :=
  mkContext vps (ctx_vps_rules c) (ctx_rule c) (ctx_event c) (ctx_query c) (ctx_server c) (ctx_job c)
    (ctx_schedule c) (ctx_alert c) (ctx_policy_rule c) (ctx_telemetry c) (ctx_objects c)
    (ctx_event_predicates c).
Definition add_ctx_object (key : str) (value : Value) (c : ExpressionContext) : ExpressionContext :=
  mkContext (ctx_vps c) (ctx_vps_rules c) (ctx_rule c) (ctx_event c) (ctx_query c) (ctx_server c) (ctx_job c)
    (ctx_schedule c) (ctx_alert c) (ctx_policy_rule c) (ctx_telemetry c) (<[ key := value ]> (ctx_objects c))
    (ctx_event_predicates c).

Definition CONTEXT_ROOTS : list string :=
  ["rule"; "event"; "query"; "server"; "job"; "schedule"; "alert"; "policy"; "policy_rule"; "telemetry"].

Definition add_context_root (root : Value) (c : ExpressionContext) (name : string) : ExpressionContext :=
  match json_get root (lit name) with Some value => with_json_root c (lit name) value | None => c end.

Definition add_context_local (locals : gmap str Value) (c : ExpressionContext) (key : str) : ExpressionContext :=
  match locals !! key with
  | None => c
  | Some value =>
      let c := add_ctx_object (to_ascii_lowercase key) value c in
      if str_eqb key (lit "vps") || looks_like_vps value then set_ctx_vps (vps_metadata_from_value value) c else c
  end.

Definition add_context_item (c : ExpressionContext) (item : Value) : ExpressionContext :=
  let c := add_ctx_object (lit "item") item c in
  if looks_like_vps item
  then add_ctx_object (lit "vps") item (set_ctx_vps (vps_metadata_from_value item) c) else c.

(** The predicates of the event: its kind and the listed ones. *)
Definition event_predicate_names (event : Value) : list str :=
  option_list (json_get event (lit "kind") ≫= as_str)
  ++ flat_map (fun key => omap as_str (default [] (json_get event (lit key) ≫= as_array)))
       ["predicates"; "event_predicates"]%string.

(** The locals are visited in the order of their names. *)
Definition expression_context (scope : Scope) (item : option Value) : ExpressionContext :=
  let c := foldl (add_context_root (scope_root scope)) context_default CONTEXT_ROOTS in
  let keys := merge_sort str_le (map fst (map_to_list (scope_locals scope))) in
  let c := foldl (add_context_local (scope_locals scope)) c keys in
  let c := match item with Some item => add_context_item c item | None => c end in
  match json_get (scope_root scope) (lit "event") with
  | Some event => foldl with_event_predicate c (event_predicate_names event)
  | None => c
  end.

Definition set_local (name : str) (value : Value) (literal : bool) (scope : Scope) : Scope :=
  mkTemplateScope (scope_root scope) (<[ name := value ]> (scope_locals scope))
    (if literal then {[ name ]} ∪ scope_literal_locals scope else scope_literal_locals scope ∖ {[ name ]}).

Definition scope_with_item (scope : Scope) (item : Value) (literal_objects : bool) : Scope :=
  let child := set_local (lit "item") item literal_objects scope in
  if looks_like_vps item then set_local (lit "vps") item literal_objects child else child.

Definition literal_object_path (path : str) (scope : Scope) (paths : list str) : bool :=
  let segments := path_segments path in
  let listed :=
    existsb (fun p => let p := path_segments p in
                      negb (is_empty p) && bool_decide (take (length p) segments = p)) paths in
  match segments with
  | root :: _ =>
      if bool_decide (is_Some (scope_locals scope !! root))
      then bool_decide (root ∈ scope_literal_locals scope) else listed
  | [] => listed
  end.

Definition resolve_path_with_object_mode (scope : Scope) (path : str) (literal_objects : bool) : Value :=
  match path_segments path with
  | [] => Null
  | root :: rest =>
      if str_eqb root (lit "vps") && bool_decide (scope_locals scope !! lit "vps" = None) then
        match json_get (scope_root scope) (lit "matched_vps") ≫= as_array with
        | None => Null
        | Some values =>
            if is_empty rest then Array values
            else Array (map (fun value => default Null (value_path literal_objects rest value)) values)
        end
      else
        match or_else (scope_locals scope !! root) (json_get (scope_root scope) root) with
        | None => Null
        | Some current =>
            if is_empty rest then current else default Null (value_path literal_objects rest current)
        end
  end.

(** * Rendering *)

Section Rendering.
Context `{TemplateOps}.

(** [Number::to_string]. *)
Definition number_text (n : Number) : str :=
  match n with PosInt n | NegInt n => to_string n | Float f => t_float_to_string f end.

Definition render_object (members : list (str * Value)) : str :=
  let id := member_get (lit "id") members ≫= as_str in
  let name := or_else (member_get (lit "display_name") members) (member_get (lit "name") members) ≫= as_str in
  match name, id with
  | Some name, Some id => name ++ lit " (" ++ id ++ lit ")"
  | Some name, None => name
  | None, Some id => id
  | None, None => t_json_to_string (Object members)
  end.

Fixpoint render_value_with_object_mode (literal_objects : bool) (value : Value) : str :=
  match value with
  | Null => []
  | Str s => s
  | Num n => number_text n
  | Bool b => lit (if b then "true" else "false")
  | Array values => join (lit " ") (map (render_value_with_object_mode literal_objects) values)
  | Object members => if literal_objects then t_json_to_string value else render_object members
  end.

Definition condition_matches (condition : str) (scope : Scope) (item : option Value) : result str bool :=
  expression ← map_err (fun e => lit "invalid condition expression: " ++ e) (parse_condition condition);
  Ok match expression with
     | None => false
     | Some expression =>
         expression_matches t_regex_is_match t_parse_rfc3339 t_float_to_string
           (expression_context scope item) expression
     end.

(** [condition_matches(..).unwrap_or(false)]. *)
Definition item_matches (condition : str) (scope : Scope) (item : Value) : bool :=
  default false (ok (condition_matches condition scope (Some item))).

Definition substr_start (start count : Z) : Z :=
  if start <? 0 then saturating_sub count (- start) else Z.min start count.

(** Every helper but [map]; [None] is the unreachable arm. *)
Definition apply_helper (value : Value) (helper : HelperCall) (scope : Scope) (literal_objects : bool) :
  option (result str Value) :=
  let values := default [] (array_values value) in
  match helper with
  | Length => Some (Ok (json_int (value_length value)))
  | Join separator =>
      Some (Ok (Str match array_values value with
                    | None => render_value_with_object_mode literal_objects value
                    | Some values => join separator (map (render_value_with_object_mode literal_objects) values)
                    end))
  | Split separator =>
      Some match as_str value with
           | None => Err (lit "split helper requires a string")
           | Some s =>
               Ok (Array (map Str (if is_empty separator then map (fun c => [c]) s else split_str separator s)))
           end
  | Substr start len =>
      Some match as_str value with
           | None => Err (lit "substr helper requires a string")
           | Some s =>
               let rest := drop (Z.to_nat (substr_start start (vec_len s))) s in
               Ok (Str match len with Some len => take (Z.to_nat (Z.max 0 len)) rest | None => rest end)
           end
  | First => Some (Ok (default Null (head values)))
  | Last => Some (Ok (default Null (last values)))
  | Map _ => None
  | Filter condition => Some (Ok (Array (List.filter (item_matches condition scope) values)))
  | Count None => Some (Ok (json_int (vec_len values)))
  | Count (Some condition) => Some (Ok (json_int (vec_len (List.filter (item_matches condition scope) values))))
  end.

(** [map] resolves its argument for every item, under the path policy of the argument. *)
Definition apply_map (argument : str) (scope : Scope) (paths : list str) (value : Value) (literal_objects : bool) :
  Value * bool :=
  let resolved :=
    map (fun item =>
      let item_scope := scope_with_item scope item literal_objects in
      let literal := literal_object_path argument item_scope paths in
      (resolve_path_with_object_mode item_scope argument literal, literal))
      (default [] (array_values value)) in
  (Array (map fst resolved), existsb snd resolved).

Fixpoint apply_helpers (helpers : list HelperCall) (scope : Scope) (paths : list str) (value : Value)
    (literal_objects : bool) : option (result str (Value * bool)) :=
  match helpers with
  | [] => Some (Ok (value, literal_objects))
  | Map argument :: helpers =>
      let '(value, literal_objects) := apply_map argument scope paths value literal_objects in
      apply_helpers helpers scope paths value literal_objects
  | helper :: helpers =>
      match apply_helper value helper scope literal_objects with
      | Some (Ok value) => apply_helpers helpers scope paths value literal_objects
      | Some (Err e) => Some (Err e)
      | None => None
      end
  end.

Definition resolve_path_expr_with_literal_paths (path : PathExpr) (scope : Scope) (paths : list str) :
  option (result str (Value * bool)) :=
  let literal_objects := literal_object_path (path_base path) scope paths in
  apply_helpers (path_helpers path) scope paths
    (resolve_path_with_object_mode scope (path_base path) literal_objects) literal_objects.

Definition resolve_path_expr (path : PathExpr) (scope : Scope) : option (result str Value) :=
  option_map (fun r => r ≫= (fun '(value, _) => Ok value)) (resolve_path_expr_with_literal_paths path scope []).

(** ** Substitutions *)

Definition remaining_marker (remaining : Z) : str :=
  lit "...[" ++ to_string remaining ++ lit " bytes remaining]".

(** The longest prefix that fits with its marker: the bytes passed so far and the prefix so far. *)
Fixpoint fitting_prefix (limit total boundary : Z) (passed best : str) (s : str) : str :=
  match s with
  | [] => best
  | c :: s' =>
      if limit <? boundary + str_len (remaining_marker (total - boundary)) then best
      else fitting_prefix limit total (boundary + str_len [c]) (passed ++ [c]) passed s'
  end.

Definition truncate_substitution (value : str) (limit : Z) : result str str :=
  if str_len value <=? limit then Ok value
  else if limit <? str_len (remaining_marker (str_len value)) then
    Err (lit "substitution limit cannot fit remaining-byte marker")
  else
    let prefix := fitting_prefix limit (str_len value) 0 [] [] value in
    Ok (prefix ++ remaining_marker (str_len value - str_len prefix)).

(** ** Nodes *)

(** [None] stands for the unreachable arms. *)
Definition bind_render {A B} (r : option (result str A)) (k : A -> option (result str B)) :
  option (result str B) :=
  match r with Some (Ok a) => k a | Some (Err e) => Some (Err e) | None => None end.

Definition render_substitution (options : TemplateRenderOptions) (resolved : Value * bool) : result str str :=
  let rendered := render_value_with_object_mode (snd resolved) (fst resolved) in
  match max_substitution_bytes options with
  | Some limit => truncate_substitution rendered limit
  | None => Ok rendered
  end.

(** A loop whose pieces are appended to the output. *)
Definition render_each {A} (render : A -> option (result str str)) : list A -> option (result str str) :=
  fix each l :=
    match l with
    | [] => Some (Ok [])
    | a :: l => bind_render (render a) (fun out => bind_render (each l) (fun rest => Some (Ok (out ++ rest))))
    end.

(** The body of the first branch whose condition holds, or the [else] one. *)
Definition choose_branch {A} (render : list Node -> option (result str A)) (scope : Scope) (else_body : list Node) :
  list (str * list Node) -> option (result str A) :=
  fix choose branches :=
    match branches with
    | [] => render else_body
    | (condition, body) :: branches =>
        match condition_matches condition scope None with
        | Err e => Some (Err e)
        | Ok true => render body
        | Ok false => choose branches
        end
    end.

Fixpoint render_node (options : TemplateRenderOptions) (scope : Scope) (node : Node) {struct node} :
  option (result str str) :=
  match node with
  | Text text => Some (Ok text)
  | Placeholder path =>
      bind_render (resolve_path_expr_with_literal_paths path scope (literal_object_paths options))
        (fun resolved => Some (render_substitution options resolved))
  | For variable path body =>
      bind_render (resolve_path_expr_with_literal_paths path scope (literal_object_paths options))
        (fun '(iterable, literal_objects) =>
           match iterable with
           | Array values =>
               render_each (fun value =>
                 let child := set_local variable value literal_objects scope in
                 render_each (render_node options child) body) values
           | _ => Some (Ok [])
           end)
  | If branches else_body =>
      choose_branch (render_each (render_node options scope)) scope else_body branches
  end.

Definition render_nodes (options : TemplateRenderOptions) (nodes : list Node) (scope : Scope) :
  option (result str str) :=
  render_each (render_node options scope) nodes.

Definition root_scope (context : Value) : Scope := mkTemplateScope context ∅ ∅.

(** The rendered text, unless it is over the limit. *)
Definition check_length (limit : Z) (rendered : str) : result str str :=
  if limit <? str_len rendered then Err (lit "rendered message exceeds length limit") else Ok rendered.

Definition render_template_with_options (template : str) (context : Value) (options : TemplateRenderOptions) :
  option (result str str) :=
  bind_render (parse_template template) (fun nodes =>
  bind_render (render_nodes options nodes (root_scope context)) (fun rendered =>
  Some (check_length (max_message_bytes options) rendered))).

Definition render_template_with_limit (template : str) (context : Value) (limit : Z) : option (result str str) :=
  render_template_with_options template context (mkRenderOptions limit None []).

Definition render_template (template : str) (context : Value) : option (result str str) :=
  render_template_with_limit template context DEFAULT_MESSAGE_LIMIT_BYTES.

Definition default_webhook_message (rule_name : str) (matched_vps_count : Z) : str :=
  rule_name ++ lit " matched " ++ to_string matched_vps_count ++ lit " VPS"
  ++ (if matched_vps_count =? 1 then [] else lit "s").

(** ** Scalar templates *)

Fixpoint validate_scalar_node (node : Node) : result str unit :=
  match node with
  | For _ _ _ => Err (lit "scalar templates do not support for blocks")
  | If branches else_body =>
      try_each (fun '(_, body) => try_each validate_scalar_node body) branches;;
      try_each validate_scalar_node else_body
  | Text _ | Placeholder _ => Ok tt
  end.

Definition validate_scalar_template_nodes (nodes : list Node) : result str unit :=
  try_each validate_scalar_node nodes.

Definition scalar_text (base : str) (value : Value) : result str str :=
  match value with
  | Null => Err (lit "template scalar path `" ++ base ++ lit "` is missing")
  | Array _ | Object _ => Err (lit "template path `" ++ base ++ lit "` did not resolve to a scalar")
  | Str s => Ok s
  | Num n => Ok (number_text n)
  | Bool b => Ok (lit (if b then "true" else "false"))
  end.

Fixpoint render_scalar_node (scope : Scope) (node : Node) {struct node} : option (result str str) :=
  match node with
  | Text text => Some (Ok text)
  | Placeholder path =>
      bind_render (resolve_path_expr path scope) (fun value => Some (scalar_text (path_base path) value))
  | For _ _ _ => None
  | If branches else_body => choose_branch (render_each (render_scalar_node scope)) scope else_body branches
  end.

Definition render_scalar_nodes (nodes : list Node) (scope : Scope) : option (result str str) :=
  render_each (render_scalar_node scope) nodes.

Definition render_scalar_template (template : str) (context : Value) : option (result str str) :=
  bind_render (parse_template template) (fun nodes =>
  bind_render (Some (validate_scalar_template_nodes nodes)) (fun _ =>
  bind_render (render_scalar_nodes nodes (root_scope context)) (fun rendered =>
  Some (check_length DEFAULT_MESSAGE_LIMIT_BYTES rendered)))).

(** * Referenced paths *)

Definition predicate_paths (predicate : Predicate) : gset str :=
  match predicate with
  | Comparison field _ _ | Membership field _ _ => {[ field ]}
  | _ => ∅
  end.

Fixpoint expression_paths (expression : Expression) : gset str :=
  match expression with
  | Pred predicate => predicate_paths predicate
  | Not inner => expression_paths inner
  | And l r | Or l r => expression_paths l ∪ expression_paths r
  end.

Definition collect_condition_paths (condition : str) : result str (gset str) :=
  expression ← parse_condition condition;
  Ok match expression with Some expression => expression_paths expression | None => ∅ end.

Definition joined_path (path : str) : str := join (lit ".") (path_segments path).

Definition helper_paths (helper : HelperCall) : result str (gset str) :=
  match helper with
  | Map path => Ok {[ joined_path path ]}
  | Filter condition | Count (Some condition) => collect_condition_paths condition
  | _ => Ok ∅
  end.

(** The paths of a list, the first error winning. *)
Definition collect_each {A} (collect : A -> result str (gset str)) : list A -> result str (gset str) :=
  fix each l :=
    match l with
    | [] => Ok ∅
    | a :: l => first ← collect a; rest ← each l; Ok (first ∪ rest)
    end.

Definition collect_path_expression (path : PathExpr) : result str (gset str) :=
  more ← collect_each helper_paths (path_helpers path); Ok ({[ joined_path (path_base path) ]} ∪ more).

Fixpoint collect_node_paths (node : Node) : result str (gset str) :=
  match node with
  | Text _ => Ok ∅
  | Placeholder path => collect_path_expression path
  | For _ path body =>
      a ← collect_path_expression path; b ← collect_each collect_node_paths body; Ok (a ∪ b)
  | If branches else_body =>
      a ← collect_each (fun '(condition, body) =>
            a ← collect_condition_paths condition; b ← collect_each collect_node_paths body; Ok (a ∪ b)) branches;
      b ← collect_each collect_node_paths else_body; Ok (a ∪ b)
  end.

Definition collect_paths (nodes : list Node) : result str (gset str) :=
  collect_each collect_node_paths nodes.

Definition template_referenced_paths (template : str) : option (result str (gset str)) :=
  bind_render (parse_template template) (fun nodes => Some (collect_paths nodes)).
End Rendering.
