(* ===== verification/TemplateProofs.v ===== *)
(** Theorems on message templates ([Templates]): parsing returns for every text, an
    accepted template renders or fails with one of three messages, scalar rendering
    agrees with general rendering, and a cut substitution is the longest that fits. *)

From S2P Require Import Prelude RustStd F64 Json VpsRules VpsDecimal Expression ExpressionParser Templates.

Open Scope Z_scope.

(** * Text *)

Lemma span_concat p s : let '(a, b) := span p s in s = a ++ b.
Proof. induction s as [|c s IH]; cbn; [done|]. destruct (p c); [|done]. destruct (span p s). by subst. Qed.

Lemma find_str_app p s a b : find_str p s = Some (a, b) -> exists r, s = a ++ p ++ r /\ b = p ++ r.
Proof.
  revert a; induction s as [|c s IH]; intros a H; cbn [find_str] in H.
  - destruct (starts_with [] p) eqn:E; simplify_eq. apply starts_with_spec in E as [r E].
    exists r. cbn. by rewrite <- E.
  - destruct (starts_with (c :: s) p) eqn:E.
    + simplify_eq. apply starts_with_spec in E as [r E]. exists r. cbn. by rewrite <- E.
    + destruct (find_str p s) as [[a' b']|] eqn:F; simplify_eq. edestruct IH as (r & -> & ->); [done|]. by exists r.
Qed.

Lemma find_close_shorter depth quote escaped argument s a r :
  find_close depth quote escaped argument s = Some (a, r) -> (length r < length s)%nat.
Proof.
  revert depth quote escaped argument; induction s as [|c s IH]; intros depth quote escaped argument H; [done|].
  cbn in H. repeat case_match; simplify_eq; cbn; try (apply IH in H; lia); lia.
Qed.

Lemma helper_argument_shorter s a r : helper_argument s = Ok (a, r) -> (length r < length s)%nat.
Proof.
  unfold helper_argument. intros H. repeat case_match; simplify_eq.
  unfold ok_or in H. case_match; simplify_eq. apply find_close_shorter in H0. cbn. lia.
Qed.

Lemma strip_prefix_shorter p s r : p <> [] -> strip_prefix p s = Some r -> (length r < length s)%nat.
Proof. intros Hp ->%strip_prefix_spec. rewrite length_app. destruct p; cbn in *; [done|lia]. Qed.

(** * Parsing returns *)

Section Returns.
Context `{TemplateOps}.

Lemma parse_helper_shorter tail h r : parse_helper tail = Ok (h, r) -> (length r < length tail)%nat.
Proof.
  unfold parse_helper. intros E.
  repeat case_match; simplify_eq; try (by eapply strip_prefix_shorter; [|eassumption]);
    inv_checks; repeat case_match; simplify_eq; inv_checks; simplify_eq;
    match goal with A : helper_argument _ = Ok _ |- _ => apply helper_argument_shorter in A; rewrite length_drop in A; lia end.
Qed.

Lemma parse_helpers_returns fuel tail : (length tail <= fuel)%nat -> exists r, parse_helpers fuel tail = Some r.
Proof.
  revert tail; induction fuel as [|fuel IH]; intros [|c tail] Hlen; cbn in Hlen; try lia; try by eexists.
  cbn [parse_helpers]. destruct (parse_helper (c :: tail)) as [[h r]|e] eqn:E; [|by eexists].
  apply parse_helper_shorter in E. destruct (IH r) as [[hs|e] ->]; [cbn in E; lia|by eexists..].
Qed.

Lemma parse_path_expr_returns raw : exists r, parse_path_expr raw = Some r.
Proof.
  unfold parse_path_expr. case_match; [by eexists|].
  destruct (parse_helpers_returns (length raw) (drop (default (length raw) (first_helper_start raw)) raw)) as [[hs|e] ->];
    [rewrite length_drop; lia|by eexists..].
Qed.

Lemma parse_for_tag_returns tag : exists r, parse_for_tag tag = Some r.
Proof.
  unfold parse_for_tag. repeat case_match; try by eexists.
  edestruct parse_path_expr_returns as [r Hr]. rewrite Hr in *. simplify_eq.
Qed.

(** The conditions of the helpers of a path and of the blocks of a node. *)
Definition helper_condition (helper : HelperCall) : list str :=
  match helper with Filter condition | Count (Some condition) => [condition] | _ => [] end.
Definition path_conditions (path : PathExpr) : list str := flat_map helper_condition (path_helpers path).
Fixpoint node_conditions (node : Node) : list str :=
  match node with
  | Text _ => []
  | Placeholder path => path_conditions path
  | For _ path body => path_conditions path ++ flat_map node_conditions body
  | If branches else_body =>
      flat_map (fun '(condition, body) => condition :: flat_map node_conditions body) branches
      ++ flat_map node_conditions else_body
  end.

(** Conditions that parse. *)
Definition accepted (conditions : list str) : Prop :=
  Forall (fun c => exists e, parse_condition c = Ok e) conditions.
Abbreviation accepted_nodes nodes := (accepted (flat_map node_conditions nodes)).

Lemma accepted_app a b : accepted (a ++ b) <-> accepted a /\ accepted b.
Proof. apply Forall_app. Qed.

Lemma accepted_snoc nodes node :
  accepted_nodes (nodes ++ [node]) <-> accepted_nodes nodes /\ accepted (node_conditions node).
Proof. rewrite flat_map_app, accepted_app. cbn. by rewrite app_nil_r. Qed.

Lemma validate_condition_accepted c u : validate_condition c = Ok u -> exists e, parse_condition c = Ok e.
Proof. unfold validate_condition. destruct (parse_condition c); [by eexists|done]. Qed.

Lemma parse_helper_accepted tail h r : parse_helper tail = Ok (h, r) -> accepted (helper_condition h).
Proof.
  unfold parse_helper. intros E.
  repeat case_match; simplify_eq; try constructor;
    inv_checks; repeat case_match; simplify_eq; inv_checks; simplify_eq; try constructor; try constructor;
    try (by eapply validate_condition_accepted).
  unfold parse_substr in *. repeat case_match; simplify_eq; inv_checks; simplify_eq; constructor.
Qed.

Lemma parse_helpers_accepted fuel tail hs :
  parse_helpers fuel tail = Some (Ok hs) -> accepted (flat_map helper_condition hs).
Proof.
  revert tail hs; induction fuel as [|fuel IH]; intros [|c tail] hs E; cbn [parse_helpers] in E; simplify_eq;
    try constructor.
  destruct (parse_helper (c :: tail)) as [[h r]|e] eqn:Eh; [|done].
  repeat case_match; simplify_eq. apply accepted_app. split; [by eapply parse_helper_accepted|by eapply IH].
Qed.

Lemma parse_path_accepted raw path : parse_path_expr raw = Some (Ok path) -> accepted (path_conditions path).
Proof.
  unfold parse_path_expr. intros E. repeat case_match; simplify_eq. by eapply parse_helpers_accepted.
Qed.

Lemma parse_for_accepted tag v path :
  parse_for_tag tag = Some (Ok (Some (v, path))) -> accepted (path_conditions path).
Proof. unfold parse_for_tag. intros E. repeat case_match; simplify_eq. by eapply parse_path_accepted. Qed.

Lemma parse_if_accepted tag c : parse_if_tag tag = Ok (Some c) -> exists e, parse_condition c = Ok e.
Proof.
  unfold parse_if_tag. intros E. repeat case_match; simplify_eq. inv_checks. simplify_eq.
  by eapply validate_condition_accepted.
Qed.

Lemma remove_indentation_conditions nodes before :
  flat_map node_conditions (remove_comment_line_indentation nodes before) = flat_map node_conditions nodes.
Proof.
  unfold remove_comment_line_indentation. repeat case_match; try done.
  rewrite <- (rev_involutive nodes), H1. cbn. by rewrite !flat_map_app.
Qed.

Lemma standalone_comment_shorter before remaining line r :
  standalone_comment_end before remaining = Some (line, r) -> (length r <= length remaining)%nat.
Proof.
  unfold standalone_comment_end. case_match; [done|].
  pose proof (span_concat (fun c => negb (c =? 10)) remaining) as Hs. destruct (span _ remaining) as [l rest].
  case_match; [done|]. case_match; intros; simplify_eq; cbn; [lia|]. rewrite length_app. cbn. lia.
Qed.

(** What a call that returns a block leaves: less text than it was given when a tag closed
    the block, and only conditions that parse. *)
Definition nodes_left (rest : str) (r : result str (list Node * option EndTag * (str * str))) : Prop :=
  match r with
  | Ok (nodes, end_tag, (_, rest')) =>
      accepted_nodes nodes /\ (length rest' <= length rest)%nat
      /\ (end_tag <> None -> (length rest' < length rest)%nat)
  | Err _ => True
  end.
Definition branches_left (rest : str) (r : result str (list (str * list Node) * list Node * (str * str))) : Prop :=
  match r with
  | Ok (branches, else_body, (_, rest')) =>
      accepted (node_conditions (If branches else_body)) /\ (length rest' <= length rest)%nat
  | Err _ => True
  end.

Definition nodes_return (fuel : nat) : Prop :=
  forall in_block nodes before rest, (2 * length rest + 1 <= fuel)%nat -> accepted_nodes nodes ->
    exists r, parse_nodes fuel in_block nodes before rest = Some r /\ nodes_left rest r.
Definition branches_return (fuel : nat) : Prop :=
  forall branches (end_tag : option EndTag) before rest,
    (match end_tag with Some _ => 2 * length rest + 2 | None => 1 end <= fuel)%nat ->
    accepted (node_conditions (If branches [])) ->
    exists r, parse_branches fuel branches end_tag before rest = Some r /\ branches_left rest r.

Lemma nodes_left_weaken rest rest' r : (length rest' < length rest)%nat -> nodes_left rest' r -> nodes_left rest r.
Proof.
  destruct r as [[[nodes end_tag] [before r]]|e]; [|done]. intros Hlen (Ha & Hl & Ht). cbn. split; [done|].
  split; [lia|]. intros _. lia.
Qed.

(** A call on less text, as part of a call on [rest]. *)
Lemma nodes_call fuel in_block nodes before rest rest' :
  nodes_return fuel -> (2 * length rest + 1 <= S fuel)%nat -> (length rest' < length rest)%nat ->
  accepted_nodes nodes ->
  exists r, parse_nodes fuel in_block nodes before rest' = Some r /\ nodes_left rest r.
Proof.
  intros IH Hf Hlen Ha. destruct (IH in_block nodes before rest') as (r & Hr & Hp); [lia|done|].
  exists r. split; [done|]. by eapply nodes_left_weaken.
Qed.

Lemma branches_step fuel : nodes_return fuel -> branches_return fuel -> branches_return (S fuel).
Proof.
  intros IHn IHb branches end_tag before rest Hf Ha. cbn [parse_branches].
  destruct end_tag as [[|condition| |]|]; try (by eexists).
  - destruct (validate_condition condition) as [u|e] eqn:Ev; [|by eexists].
    destruct (IHn true [] before rest) as (r & -> & Hr); [lia|constructor|].
    destruct r as [[[body next] [before' rest']]|e]; [|by eexists]. destruct Hr as (Hb & Hl & Ht).
    destruct (IHb (branches ++ [(condition, body)]) next before' rest') as (r & -> & Hr).
    + destruct next; [specialize (Ht ltac:(done)); lia|lia].
    + cbn [node_conditions] in *. rewrite flat_map_app, !accepted_app in *. destruct Ha as [Ha _].
      split; [split; [done|]|constructor]. cbn. rewrite app_nil_r. constructor; [|done].
      by eapply validate_condition_accepted.
    + exists r. split; [done|]. destruct r as [[[bs els] [bf rs]]|]; [|done]. destruct Hr. split; [done|lia].
  - destruct (IHn true [] before rest) as (r & -> & Hr); [lia|constructor|].
    destruct r as [[[body [[]|]] [before' rest']]|e]; try by eexists.
    destruct Hr as (Hb & Hl & Ht). eexists. split; [done|]. split; [|done].
    cbn [node_conditions] in *. rewrite accepted_app in *. by destruct Ha.
Qed.

Lemma nodes_step fuel : nodes_return fuel -> branches_return fuel -> nodes_return (S fuel).
Proof.
  intros IHn IHb in_block nodes before rest Hf Ha. cbn [parse_nodes].
  pose proof (span_concat is_text rest) as Hs. destruct (span is_text rest) as [text rest1].
  destruct rest1 as [|c after].
  { eexists. split; [done|]. cbn. split; [|split; [lia|done]].
    destruct rest; [done|]. apply accepted_snoc. split; [done|constructor]. }
  assert (length after < length rest)%nat as Hafter by (subst; rewrite length_app; cbn; lia).
  set (nodes1 := if is_empty text then nodes else nodes ++ [Text text]).
  assert (accepted_nodes nodes1) as Ha1.
  { subst nodes1. destruct (is_empty text); [done|]. apply accepted_snoc. split; [done|constructor]. }
  destruct (c =? 123).
  - destruct (strip_prefix (lit "{#") (c :: after)) as [inside|] eqn:Ei.
    + apply strip_prefix_spec in Ei. destruct (find_str (lit "#}") inside) as [[comment closing]|] eqn:Ec; [|by eexists].
      apply find_str_app in Ec as (r & Ec & ->).
      assert (length r < length rest)%nat as Hr.
      { assert (length (c :: after) <= length rest)%nat by (subst rest; rewrite length_app; lia).
        rewrite Ei, Ec, !length_app in H0. cbn in H0. lia. }
      change (drop 2 (lit "#}" ++ r)) with r.
      destruct (standalone_comment_end _ r) as [[line r']|] eqn:El; [|by eapply nodes_call].
      apply standalone_comment_shorter in El.
      eapply nodes_call; [done..|lia|]. by rewrite remove_indentation_conditions.
    + destruct (split_once 125 after) as [[inner remaining]|] eqn:Es; [|by eexists].
      apply split_once_spec in Es as [-> _]. rewrite length_app in Hafter. cbn in Hafter.
      destruct (is_empty (trim inner)); [by eexists|].
      destruct (parse_path_expr_returns (trim inner)) as [[path|e] Hp]; rewrite Hp; [|by eexists].
      eapply nodes_call; [done..|lia|]. apply accepted_snoc. split; [done|]. by eapply parse_path_accepted.
  - destruct (split_once 93 after) as [[inner remaining]|] eqn:Es.
    2: { eapply nodes_call; [done..|]. apply accepted_snoc. split; [done|constructor]. }
    apply split_once_spec in Es as [-> _]. rewrite length_app in Hafter. cbn in Hafter.
    destruct (parse_end_tag (trim inner)) as [end_tag|].
    { destruct in_block; [|by eexists]. eexists. split; [done|]. cbn. split; [done|]. split; [lia|]. intros _. lia. }
    destruct (parse_for_tag_returns (trim inner)) as [[[[variable path]|]|e] Hfor]; rewrite Hfor; [| |by eexists].
    + destruct (IHn true [] (before ++ text ++ [91] ++ inner ++ [93]) remaining) as (r & Hr & Hp); [lia|constructor|].
      rewrite <- app_assoc, Hr.
      destruct r as [[[body [[]|]] [before' rest']]|e]; try by eexists. destruct Hp as (Hb & Hl & _).
      eapply nodes_call; [done..|lia|]. apply accepted_snoc. split; [done|]. apply accepted_app.
      split; [by eapply parse_for_accepted|done].
    + destruct (parse_if_tag (trim inner)) as [[condition|]|e] eqn:Eif; [| |by eexists].
      * destruct (IHn true [] (before ++ text ++ [91] ++ inner ++ [93]) remaining) as (r & Hr & Hp); [lia|constructor|].
        rewrite <- app_assoc, Hr.
        destruct r as [[[body end_tag] [before' rest']]|e]; [|by eexists]. destruct Hp as (Hb & Hl & _).
        destruct (IHb [(condition, body)] end_tag before' rest') as (r & Hr2 & Hp); [destruct end_tag; lia| |].
        { cbn. rewrite !app_nil_r. constructor; [by eapply parse_if_accepted|done]. }
        rewrite Hr2. destruct r as [[[bs els] [bf rs]]|e]; [|by eexists]. destruct Hp as [Hp Hl2].
        eapply nodes_call; [done..|lia|]. by apply accepted_snoc.
      * eapply nodes_call; [done..|lia|]. apply accepted_snoc. split; [done|constructor].
Qed.

Lemma parsers_return fuel : nodes_return fuel /\ branches_return fuel.
Proof.
  induction fuel as [|fuel [IHn IHb]].
  - split; intros ? ** ; exfalso; [lia|]. destruct end_tag; lia.
  - split; [by apply nodes_step|by apply branches_step].
Qed.

Lemma parse_template_returns input :
  exists r, parse_template input = Some r /\ forall nodes, r = Ok nodes -> accepted_nodes nodes.
Proof.
  unfold parse_template.
  destruct (proj1 (parsers_return (template_fuel input)) false [] [] input) as (r & -> & Hr);
    [unfold template_fuel; lia|constructor|].
  destruct r as [[[nodes [tag|]] [? ?]]|e]; eexists; (split; [done|]); intros; simplify_eq. by destruct Hr.
Qed.
End Returns.

(** * Rendering *)

(** Induction on the nodes of a template. *)
Section NodeInduction.
Variable P : Node -> Prop.
Hypothesis HText : forall t, P (Text t).
Hypothesis HPlaceholder : forall p, P (Placeholder p).
Hypothesis HFor : forall v p body, Forall P body -> P (For v p body).
Hypothesis HIf : forall branches else_body,
  Forall (fun b => Forall P b.2) branches -> Forall P else_body -> P (If branches else_body).

Definition each_rule {A} {R : A -> Prop} (rule : forall a, R a) : forall l, Forall R l :=
  fix go l := match l with [] => Forall_nil_2 _ | a :: l => Forall_cons_2 _ a l (rule a) (go l) end.

Fixpoint node_rule (node : Node) : P node :=
  match node with
  | Text t => HText t
  | Placeholder p => HPlaceholder p
  | For v p body => HFor v p body (each_rule node_rule body)
  | If branches else_body =>
      HIf branches else_body
        (each_rule (fun b => match b as b return Forall P b.2 with (_, body) => each_rule node_rule body end) branches)
        (each_rule node_rule else_body)
  end.
End NodeInduction.

(** A computation that does not reach an unreachable arm and whose errors are listed. *)
Definition renders {A} (allowed : str -> Prop) (r : option (result str A)) : Prop :=
  exists x, r = Some x /\ forall e, x = Err e -> allowed e.

Section Renders.
Context {A B : Type} (allowed : str -> Prop).

Lemma renders_ok (a : A) : renders allowed (Some (Ok a)).
Proof. by eexists. Qed.

Lemma renders_bind (r : option (result str A)) (k : A -> option (result str B)) :
  renders allowed r -> (forall a, r = Some (Ok a) -> renders allowed (k a)) -> renders allowed (bind_render r k).
Proof.
  intros (x & -> & Hx) Hk. destruct x as [a|e]; cbn; [by apply Hk|]. exists (Err e). split; [done|].
  intros ? [= <-]. by apply Hx.
Qed.

Lemma renders_each (f : A -> option (result str str)) l :
  Forall (fun a => renders allowed (f a)) l -> renders allowed (render_each f l).
Proof.
  induction 1 as [|a l Ha _ IH]; [by eexists|]. cbn.
  destruct Ha as ([out|e] & -> & Ho); [|by exists (Err e)]. cbn.
  destruct IH as ([rest|e] & Hr & Hrest); rewrite Hr; [by eexists|by exists (Err e)].
Qed.
End Renders.

Section Render.
Context `{TemplateOps}.

(** What rendering an accepted template fails with, besides the length limit. *)
Definition helper_error (e : str) : Prop :=
  e = lit "split helper requires a string" \/ e = lit "substr helper requires a string".
Definition render_error (options : TemplateRenderOptions) (e : str) : Prop :=
  helper_error e
  \/ e = lit "substitution limit cannot fit remaining-byte marker" /\ max_substitution_bytes options <> None.

Lemma apply_helper_renders value helper scope literal :
  (forall p, helper <> Map p) -> renders helper_error (apply_helper value helper scope literal).
Proof.
  intros Hm. destruct helper as [| | | | | | | |[]]; cbn; try by eexists.
  - destruct (as_str value); [by eexists|]. eexists. split; [done|]. intros ? [= <-]. by left.
  - destruct (as_str value); [by eexists|]. eexists. split; [done|]. intros ? [= <-]. by right.
  - by destruct (Hm path).
Qed.

Lemma apply_helpers_renders helpers scope paths value literal :
  renders helper_error (apply_helpers helpers scope paths value literal).
Proof.
  revert value literal; induction helpers as [|helper helpers IH]; intros value literal; [by eexists|].
  assert ((exists p, helper = Map p) \/ forall p, helper <> Map p) as [[p ->]|Hm]
    by (destruct helper; (by left; eexists) || by right).
  - cbn. apply IH.
  - pose proof (renders_bind helper_error _ (fun v => apply_helpers helpers scope paths v literal)
      (apply_helper_renders value helper scope literal Hm) (fun v _ => IH v literal)) as Hr.
    destruct helper; try exact Hr. by destruct (Hm path).
Qed.

Lemma condition_accepted condition scope item :
  (exists e, parse_condition condition = Ok e) -> exists b, condition_matches condition scope item = Ok b.
Proof. intros [e He]. unfold condition_matches. rewrite He. by eexists. Qed.

Lemma choose_renders allowed (render : list Node -> option (result str str)) scope else_body branches :
  accepted (map fst branches) -> Forall (fun b => renders allowed (render b.2)) branches ->
  renders allowed (render else_body) -> renders allowed (choose_branch render scope else_body branches).
Proof.
  intros Ha Hb He. induction branches as [|[condition body] branches IH]; [done|]. cbn.
  apply Forall_cons in Ha as [Hc Ha], Hb as [Hbody Hb].
  destruct (condition_accepted condition scope None Hc) as [[] ->]; auto.
Qed.

Lemma truncate_error value limit e :
  truncate_substitution value limit = Err e -> e = lit "substitution limit cannot fit remaining-byte marker".
Proof. unfold truncate_substitution. repeat case_match; congruence. Qed.

Lemma render_node_renders options node : forall scope,
  accepted (node_conditions node) -> renders (render_error options) (render_node options scope node).
Proof.
  assert (forall path scope paths, renders (render_error options) (resolve_path_expr_with_literal_paths path scope paths)) as Hpath.
  { intros path scope paths. destruct (apply_helpers_renders (path_helpers path) scope paths
      (resolve_path_with_object_mode scope (path_base path) (literal_object_path (path_base path) scope paths))
      (literal_object_path (path_base path) scope paths)) as (x & Hx & He).
    exists x. split; [done|]. intros e ?. left. by apply He. }
  assert (forall l, Forall (fun node => forall scope, accepted (node_conditions node) ->
      renders (render_error options) (render_node options scope node)) l ->
    forall scope, accepted (flat_map node_conditions l) -> renders (render_error options) (render_each (render_node options scope) l)) as Hlist.
  { intros l Hl scope Ha. apply renders_each. induction Hl as [|n l Hn _ IH]; [done|].
    apply accepted_app in Ha as [? ?]. constructor; auto. }
  induction node as [t|path|v path body Hbody|branches else_body Hb He] using node_rule; intros scope Ha;
    cbn [render_node].
  - by eexists.
  - apply renders_bind; [apply Hpath|]. intros resolved _. eexists. split; [done|].
    unfold render_substitution. intros e Her. case_match; [|done].
    apply truncate_error in Her. right. split; congruence.
  - apply accepted_app in Ha as [_ Ha]. apply renders_bind; [apply Hpath|]. intros [iterable literal] _.
    destruct iterable; try by eexists. apply renders_each, Forall_forall. intros value _. by apply Hlist.
  - cbn in Ha. apply accepted_app in Ha as [Ha Hae]. apply choose_renders; [| |by apply Hlist].
    + clear -Ha. induction branches as [|[c body] branches IH]; [constructor|].
      apply Forall_cons in Ha as [? Ha]. apply accepted_app in Ha as [? ?]. constructor; [done|by apply IH].
    + clear He Hae. induction Hb as [|[c body] branches Hbody Hb IH]; [constructor|].
      apply Forall_cons in Ha as [? Ha]. apply accepted_app in Ha as [? ?]. constructor; [by apply Hlist|by apply IH].
Qed.
End Render.

(** * Cut substitutions *)

Lemma str_len_pos s : s <> [] -> 1 <= str_len s.
Proof.
  destruct s as [|c s]; [done|]. intros _. unfold str_len. cbn. rewrite length_app.
  enough (1 <= length (utf8_char c))%nat by lia. unfold utf8_char. repeat case_match; cbn; lia.
Qed.

(** A prefix and its marker take at most [limit] bytes. *)
Definition fits (limit : Z) (value prefix : str) : Prop :=
  str_len prefix + str_len (remaining_marker (str_len value - str_len prefix)) <= limit.

(** The bytes of a prefix and its marker do not decrease while bytes remain. *)
Lemma fits_shorter limit prefix more rest :
  rest <> [] -> fits limit (prefix ++ more ++ rest) (prefix ++ more) -> fits limit (prefix ++ more ++ rest) prefix.
Proof.
  intros Hr. unfold fits, remaining_marker. rewrite !str_len_app.
  pose proof (to_string_len_add (str_len rest) (str_len more) (str_len_pos _ Hr) ltac:(unfold str_len; lia)).
  replace (str_len prefix + (str_len more + str_len rest) - (str_len prefix + str_len more)) with (str_len rest) by lia.
  replace (str_len prefix + (str_len more + str_len rest) - str_len prefix) with (str_len rest + str_len more) by lia.
  lia.
Qed.

(** The longest proper prefix that fits. *)
Definition longest_fitting (limit : Z) (value prefix : str) : Prop :=
  (exists rest, value = prefix ++ rest /\ rest <> []) /\ fits limit value prefix
  /\ forall longer rest, value = longer ++ rest -> rest <> [] -> fits limit value longer ->
       (length longer <= length prefix)%nat.

Lemma fitting_prefix_longest limit value passed best s :
  value = passed ++ s -> value <> [] ->
  (exists rest, value = best ++ rest /\ rest <> []) -> fits limit value best ->
  (forall p rest, value = p ++ rest -> (length p < length passed)%nat -> (length p <= length best)%nat) ->
  longest_fitting limit value (fitting_prefix limit (str_len value) (str_len passed) passed best s).
Proof.
  revert passed best; induction s as [|c s IH]; intros passed best Hv Hne Hb Hfit Hbest; cbn [fitting_prefix].
  - split; [done|]. split; [done|]. intros longer rest -> Hrest _. eapply Hbest; [done|].
    rewrite app_nil_r in Hv. rewrite <- Hv, length_app. destruct rest; [done|cbn; lia].
  - destruct (Z.ltb_spec limit (str_len passed + str_len (remaining_marker (str_len value - str_len passed)))) as [Hover|Hok].
    + split; [done|]. split; [done|]. intros longer rest Hl Hrest Hf.
      destruct (Nat.ltb_spec (length longer) (length passed)); [by eapply Hbest|]. exfalso.
      assert (exists more, longer = passed ++ more) as [more ->].
      { exists (drop (length passed) longer). rewrite <- (take_drop (length passed) longer) at 1. f_equal.
        rewrite Hv in Hl. apply (f_equal (take (length passed))) in Hl.
        rewrite take_app_length, take_app_le in Hl by lia. done. }
      subst value. rewrite <- app_assoc in Hl. rewrite Hl in *. apply fits_shorter in Hf; [|done]. unfold fits in Hf. lia.
    + rewrite <- (str_len_app passed [c]). apply IH.
      * by rewrite <- app_assoc.
      * done.
      * by exists (c :: s).
      * done.
      * intros p rest _ Hp. rewrite length_app in Hp. cbn in Hp. lia.
Qed.

(** * Theorems *)

(** A substitution over its limit is replaced by the longest prefix that fits together with a marker,
    the marker states exactly the bytes that were cut, and the whole never exceeds the limit; a value
    within the limit is left alone, and the only failure is a limit the bare marker does not fit. *)
Theorem truncated_substitution_longest value limit :
  match truncate_substitution value limit with
  | Ok out =>
      str_len out <= limit
      /\ ((str_len value <= limit /\ out = value)
          \/ exists prefix rest, value = prefix ++ rest /\ rest <> []
             /\ out = prefix ++ remaining_marker (str_len rest) /\ longest_fitting limit value prefix)
  | Err _ => limit < str_len value /\ limit < str_len (remaining_marker (str_len value))
  end.
Proof.
  unfold truncate_substitution. destruct (Z.leb_spec (str_len value) limit); [split; [done|by left]|].
  destruct (Z.ltb_spec limit (str_len (remaining_marker (str_len value)))) as [|Hm]; [done|].
  assert (value <> []) as Hne by (intros ->; revert Hm; vm_compute (str_len (remaining_marker _)); unfold str_len in *; cbn in *; lia).
  assert (fits limit value []) as H0.
  { unfold fits. change (str_len []) with 0. by rewrite Z.sub_0_r, Z.add_0_l. }
  pose proof (fitting_prefix_longest limit value [] [] value eq_refl Hne (ex_intro _ value (conj eq_refl Hne)) H0) as Hl.
  destruct Hl as ((rest & Hv & Hr) & Hfit & Hlong); [intros p r _ Hp; cbn in Hp; lia|].
  change (str_len []) with 0 in *. set (prefix := fitting_prefix _ _ _ _ _ _) in *.
  assert (str_len value - str_len prefix = str_len rest) as Hrest by (rewrite Hv at 1; rewrite str_len_app; lia).
  split; [unfold fits in Hfit; by rewrite str_len_app|]. right. exists prefix, rest. rewrite Hrest.
  split; [done|]. split; [done|]. split; [done|]. split; [by exists rest|done].
Qed.

Section Theorems.
Context `{TemplateOps}.

(** parsing a template always returns: for every text the result is the list of its nodes or an error
    message; two calls for every character are enough for every nesting of blocks. *)
Theorem parse_template_total input : exists r, parse_template input = Some r.
Proof. destruct (parse_template_returns input) as (r & Hr & _). by exists r. Qed.

Lemma collect_each_ok {A} (f : A -> result str (gset str)) l :
  Forall (fun a => exists p, f a = Ok p) l -> exists p, collect_each f l = Ok p.
Proof. induction 1 as [|a l [p Hp] _ [q Hq]]; [by eexists|]. cbn. rewrite Hp. cbn. rewrite Hq. by eexists. Qed.

Lemma collect_condition_ok c : (exists e, parse_condition c = Ok e) -> exists p, collect_condition_paths c = Ok p.
Proof. intros [e He]. unfold collect_condition_paths. rewrite He. by eexists. Qed.

Lemma collect_path_ok path : accepted (path_conditions path) -> exists p, collect_path_expression path = Ok p.
Proof.
  intros Ha. unfold collect_path_expression.
  destruct (collect_each_ok helper_paths (path_helpers path)) as [p ->]; [|by eexists].
  unfold path_conditions in Ha. induction (path_helpers path) as [|h hs IH]; [constructor|].
  apply accepted_app in Ha as [Hh Ha]. constructor; [|by apply IH].
  destruct h as [| | | | | | | |[]]; try (by eexists); apply Forall_cons in Hh as [Hh _]; by apply collect_condition_ok.
Qed.

Lemma accepted_each {B} (f : B -> list str) (R : B -> Prop) l :
  accepted (flat_map f l) -> Forall (fun b => accepted (f b) -> R b) l -> Forall R l.
Proof.
  intros Ha Hl. induction Hl as [|b l Hb _ IH]; [constructor|]. apply accepted_app in Ha as [? ?]. constructor; auto.
Qed.

Lemma collect_node_ok node : accepted (node_conditions node) -> exists p, collect_node_paths node = Ok p.
Proof.
  induction node as [t|path|v path body Hbody|branches else_body Hb He] using node_rule; intros Ha; cbn [collect_node_paths].
  - by eexists.
  - by apply collect_path_ok.
  - apply accepted_app in Ha as [Hp Ha]. destruct (collect_path_ok path Hp) as [p ->]. cbn.
    destruct (collect_each_ok collect_node_paths body) as [q ->]; [by eapply accepted_each|by eexists].
  - apply accepted_app in Ha as [Ha Hae].
    match goal with |- context [collect_each ?f branches] => destruct (collect_each_ok f branches) as [p Hp] end.
    + eapply accepted_each; [exact Ha|]. eapply Forall_impl; [exact Hb|]. intros [c body] Hbody Hc. cbn in Hbody.
      apply Forall_cons in Hc as [Hc Hac]. destruct (collect_condition_ok c Hc) as [q ->]. cbn.
      destruct (collect_each_ok collect_node_paths body) as [q' ->]; [by eapply accepted_each|by eexists].
    + rewrite Hp. cbn. destruct (collect_each_ok collect_node_paths else_body) as [q ->]; [by eapply accepted_each|by eexists].
Qed.

(** C24: a template that validation accepts has its referenced paths collected without an error and renders
    against every context: no unreachable arm is reached, every condition of a block or helper still
    parses, and the only failures are [split] or [substr] of a value that is not a string, a substitution
    limit too small for its marker, and a message over the length limit. *)
Theorem accepted_template_renders template context options :
  validate_template template = Some (Ok tt) ->
  (exists paths, template_referenced_paths template = Some (Ok paths))
  /\ exists r, render_template_with_options template context options = Some r
     /\ match r with
        | Ok rendered => str_len rendered <= max_message_bytes options
        | Err e => render_error options e \/ e = lit "rendered message exceeds length limit"
        end.
Proof.
  intros Hv. unfold validate_template, template_referenced_paths, render_template_with_options in *.
  destruct (parse_template_returns template) as (r & Hr & Ha). rewrite Hr in *.
  destruct r as [nodes|e]; [|done]. specialize (Ha nodes eq_refl). cbn [bind_render]. split.
  - destruct (collect_each_ok collect_node_paths nodes) as [p Hp].
    { eapply accepted_each; [exact Ha|]. apply Forall_forall. intros n _. apply collect_node_ok. }
    exists p. unfold collect_paths. by rewrite Hp.
  - destruct (renders_each (render_error options) (render_node options (root_scope context)) nodes) as (r & Hn & He).
    { eapply accepted_each; [exact Ha|]. apply Forall_forall. intros n _. apply render_node_renders. }
    unfold render_nodes. rewrite Hn. destruct r as [rendered|e]; cbn; eexists; (split; [done|]).
    + unfold check_length. destruct (Z.ltb_spec (max_message_bytes options) (str_len rendered)); [by right|done].
    + left. by apply He.
Qed.

(** ** Scalar templates *)

Lemma Forall_modus {A} (P Q : A -> Prop) l : Forall (fun a => P a -> Q a) l -> Forall P l -> Forall Q l.
Proof. induction 1; intros Hp; [constructor|]. apply Forall_cons in Hp as [? ?]. constructor; auto. Qed.

Lemma validate_if branches else_body :
  validate_scalar_node (If branches else_body) = Ok tt ->
  Forall (fun b => Forall (fun n => validate_scalar_node n = Ok tt) b.2) branches
  /\ Forall (fun n => validate_scalar_node n = Ok tt) else_body.
Proof.
  cbn. intros Hv. destruct (try_each _ branches) eqn:Eb; [|done]. cbn in Hv. split.
  - apply Forall_forall. intros [c body] Hin%list_elem_of_In. apply (try_each_ok _ _ _ Eb) in Hin as Hb.
    apply Forall_forall. intros n Hn%list_elem_of_In. by eapply try_each_ok.
  - apply Forall_forall. intros n Hn%list_elem_of_In. by eapply try_each_ok.
Qed.

(** The general options scalar rendering is compared with: no limit on a substitution. *)
Definition plain_options : TemplateRenderOptions := mkRenderOptions DEFAULT_MESSAGE_LIMIT_BYTES None [].

(** A scalar rendering returns, and what it renders is what the general one renders. *)
Definition agrees (scalar general : option (result str str)) : Prop :=
  exists r, scalar = Some r /\ forall s, r = Ok s -> general = Some (Ok s).

Lemma agrees_refl x : agrees (Some x) (Some x).
Proof. exists x. split; [done|congruence]. Qed.

Lemma agrees_each {A} (f g : A -> option (result str str)) l :
  Forall (fun a => agrees (f a) (g a)) l -> agrees (render_each f l) (render_each g l).
Proof.
  induction 1 as [|a l (r & Hf & Hg) _ (r' & Hf' & Hg')]; [apply agrees_refl|]. cbn. rewrite Hf.
  destruct r as [out|e]; cbn; [|by exists (Err e)]. rewrite Hf', (Hg out eq_refl). cbn.
  destruct r' as [rest|e]; cbn; [|by exists (Err e)]. rewrite (Hg' rest eq_refl). apply agrees_refl.
Qed.

Lemma agrees_choose f g scope else_body branches :
  Forall (fun b => agrees (f b.2) (g b.2)) branches -> agrees (f else_body) (g else_body) ->
  agrees (choose_branch f scope else_body branches) (choose_branch g scope else_body branches).
Proof.
  intros Hb He. induction Hb as [|[c body] branches Hbody _ IH]; [done|]. cbn.
  destruct (condition_matches c scope None) as [[]|e]; [done|done|by exists (Err e)].
Qed.

Lemma scalar_text_rendered literal base value s :
  scalar_text base value = Ok s -> render_value_with_object_mode literal value = s.
Proof. destruct value as [| | | | |]; cbn; intros Hs; simplify_eq; done. Qed.

Lemma scalar_node_agrees scope node :
  validate_scalar_node node = Ok tt -> agrees (render_scalar_node scope node) (render_node plain_options scope node).
Proof.
  induction node as [t|path|v path body _|branches else_body Hb He] using node_rule; intros Hv; cbn [render_scalar_node render_node].
  - apply agrees_refl.
  - unfold resolve_path_expr, resolve_path_expr_with_literal_paths. cbn [literal_object_paths plain_options].
    match goal with |- context [apply_helpers ?a ?b ?c ?d ?e] =>
      destruct (apply_helpers_renders a b c d e) as ([[value literal]|er] & -> & _) end; cbn; [|by exists (Err er)].
    eexists. split; [done|]. intros s Hs. unfold render_substitution. cbn. by rewrite (scalar_text_rendered _ _ _ _ Hs).
  - done.
  - apply validate_if in Hv as [Hvb Hve]. apply agrees_choose.
    + revert Hvb. induction Hb as [|b branches Hbody _ IH]; intros Hvb; [constructor|].
      apply Forall_cons in Hvb as [Hv Hvb]. constructor; [|by apply IH]. apply agrees_each.
      exact (Forall_modus _ _ _ Hbody Hv).
    + apply agrees_each. exact (Forall_modus _ _ _ He Hve).
Qed.

(** Rendering a scalar template returns for every text and context, never reaching the arm for [for]
    blocks, and whatever it renders is exactly what the general renderer renders and within the default
    limit: the scalar renderer only rejects more. *)
Theorem scalar_rendering_agrees template context :
  exists r, render_scalar_template template context = Some r
  /\ forall s, r = Ok s -> render_template template context = Some (Ok s) /\ str_len s <= DEFAULT_MESSAGE_LIMIT_BYTES.
Proof.
  unfold render_scalar_template, render_template, render_template_with_limit, render_template_with_options.
  destruct (parse_template_returns template) as (r & -> & _). destruct r as [nodes|e]; cbn [bind_render]; [|by exists (Err e)].
  destruct (validate_scalar_template_nodes nodes) as [[]|e] eqn:Hv; cbn [bind_render]; [|by exists (Err e)].
  destruct (agrees_each (render_scalar_node (root_scope context)) (render_node plain_options (root_scope context)) nodes)
    as (r & Hr & Hg).
  { apply Forall_forall. intros n Hn%list_elem_of_In. apply scalar_node_agrees. by eapply try_each_ok. }
  unfold render_scalar_nodes, render_nodes. rewrite Hr. destruct r as [s|e]; cbn [bind_render]; [|by exists (Err e)].
  eexists. split; [done|]. intros s' Hs'. fold plain_options. rewrite (Hg s eq_refl). cbn. rewrite Hs'. split; [done|].
  unfold check_length in Hs'. destruct (Z.ltb_spec DEFAULT_MESSAGE_LIMIT_BYTES (str_len s)); simplify_eq. lia.
Qed.
End Theorems.


(** * Paths and helpers *)

(** One member of an object. *)
Lemma value_path_member literal every segment segments members value :
  member_get (segment_key literal (Object members) segment) members = Some value ->
  value_path_from literal every (segment :: segments) (Object members) = value_path_from literal every segments value.
Proof.
  intros Hm. cbn [value_path_from]. set (key := segment_key literal (Object members) segment) in *. clearbody key.
  revert Hm. induction members as [|[k v] members IH]; [done|]. cbn. destruct (str_eqb key k); [by intros [= ->]|apply IH].
Qed.

(** A path that meets an array after its first segment looks the whole path up again in every item,
    so an item without the first segment resolves to nothing. *)
Lemma nested_array_restarts literal key segment segments members items :
  segment_key literal (Object members) key = key -> member_get key members = Some (Array items) ->
  value_path literal (key :: segment :: segments) (Object members) =
  Some (Array (map (fun item => default Null (value_path literal (key :: segment :: segments) item)) items)).
Proof. intros Hk Hm. unfold value_path at 1. rewrite (value_path_member _ _ _ _ _ (Array items)); [done|by rewrite Hk]. Qed.

#[local] Instance sample_ops : TemplateOps := {
  t_regex_new := fun _ => Ok tt;
  t_regex_is_match := fun _ _ => false;
  t_parse_rfc3339 := fun _ => None;
  t_float_to_string := fun _ => [];
  t_json_to_string := fun _ => [];
  t_parse_json_string := fun _ => Err [];
}.
Definition sample_context : Value := json_object
  [("rule", json_object [("name", Str (lit "r"))]);
   ("alert", json_object [("severity", Str (lit "critical"))]);
   ("job", json_object [("targets", Array [json_object [("id", Str (lit "a"))]; json_object [("id", Str (lit "b"))]])]);
   ("schedule", json_object [("last_job_error", Str (lit "e"))]);
   ("matched_vps", Array
     [json_object [("id", Str (lit "v1")); ("display_name", Str (lit "one")); ("status", Str (lit "online"))];
      json_object [("id", Str (lit "v2")); ("display_name", Str (lit "two")); ("status", Str (lit "stale"))]])].

(** The items of [job.targets] have ids, yet the path through them renders a space. *)
Example nested_array_path_is_empty :
  render_template (lit "{job.targets.id}|{job.targets.map(item.id)}") sample_context = Some (Ok (lit " |a b")).
Proof. vm_compute. reflexivity. Qed.

(** A field whose name begins with that of a helper without parentheses cannot be read. *)
Example helper_named_field_rejected :
  render_template (lit "{schedule.last_job_error}") sample_context =
  Some (Err (lit "invalid helper syntax near _job_error")).
Proof. vm_compute. reflexivity. Qed.

Lemma accepted_template_renders_witness :
  (exists paths, template_referenced_paths (lit "{rule.name.split(x)}[if alert.severity = critical]![endif]") = Some (Ok paths))
  /\ exists r, render_template_with_options (lit "{rule.name.split(x)}[if alert.severity = critical]![endif]") sample_context
       (mkRenderOptions 8 (Some 4) []) = Some r
     /\ match r with
        | Ok rendered => str_len rendered <= 8
        | Err e => render_error (mkRenderOptions 8 (Some 4) []) e \/ e = lit "rendered message exceeds length limit"
        end.
Proof.
  exact (accepted_template_renders (lit "{rule.name.split(x)}[if alert.severity = critical]![endif]") sample_context
    (mkRenderOptions 8 (Some 4) []) ltac:(vm_compute; reflexivity)).
Defined.
