(* ===== verification/TagOrder.v ===== *)
(** The order of tags: crates/common/src/selection/tag_order.rs.

    Tags are listed in an order the operator controls; within a run of tags of
    one namespace they may be kept in natural order, where a run of digits counts
    as a number.  The source walks two cursors over the bytes; the model passes
    what is left of them. *)

From stdpp Require Import sorting.
From S2P Require Import Prelude RustStd.

Open Scope Z_scope.

(** * Orderings *)

(** [Ordering::then_with]. *)
Definition then_with (a b : comparison) : comparison := match a with Eq => b | _ => a end.

(** [Ord for [T]] and [Iterator::cmp]: lexicographic. *)
Fixpoint list_cmp {A} (cmp : A -> A -> comparison) (l r : list A) : comparison :=
  match l, r with
  | [], [] => Eq
  | [], _ :: _ => Lt
  | _ :: _, [] => Gt
  | a :: l', b :: r' => then_with (cmp a b) (list_cmp cmp l' r')
  end.

Definition bytes_cmp : list Z -> list Z -> comparison := list_cmp Z.compare.

(** [Ord for str]: the order of the bytes. *)
Definition str_cmp (l r : str) : comparison := bytes_cmp (as_bytes l) (as_bytes r).

(** * Natural order *)

Definition fold_ascii (byte : Z) : Z := lower byte.

Definition significant_digits (value : list Z) : list Z :=
  match drop_while (Z.eqb 48) value with
  | [] => drop (length value - 1) value
  | digits => digits
  end.

Definition compare_digit_chunks (l r : list Z) : comparison :=
  then_with (Z.compare (vec_len (significant_digits l)) (vec_len (significant_digits r)))
    (bytes_cmp (significant_digits l) (significant_digits r)).

Definition compare_text_chunks (l r : list Z) : comparison :=
  bytes_cmp (map fold_ascii l) (map fold_ascii r).

(** The chunk at a cursor: the bytes up to [chunk_end], and the rest. *)
Definition chunk_end (value : list Z) (digit : bool) : list Z * list Z :=
  span (fun byte => eqb (is_ascii_digit byte) digit) value.

(** The tie-break of two equal numbers written with different leading zeros. *)
Definition numeric_tie (l r : list Z) : comparison :=
  then_with (Z.compare (vec_len l) (vec_len r)) (bytes_cmp l r).

(** Every turn consumes at least one byte of each side, so the length of either
    is enough fuel. *)
Fixpoint natural_loop (fuel : nat) (l r : list Z) (tie : comparison) : comparison :=
  match l, r with
  | [], [] => tie
  | [], _ => Lt
  | _, [] => Gt
  | a :: _, b :: _ =>
      match fuel with
      | O => Eq
      | S fuel' =>
          let digit := is_ascii_digit a in
          if negb (eqb digit (is_ascii_digit b)) then Z.compare (fold_ascii a) (fold_ascii b)
          else
            let '(left_chunk, l') := chunk_end l digit in
            let '(right_chunk, r') := chunk_end r digit in
            let ordering := if digit then compare_digit_chunks left_chunk right_chunk
                            else compare_text_chunks left_chunk right_chunk in
            match ordering with
            | Eq =>
                natural_loop fuel' l' r'
                  (if digit then then_with tie (numeric_tie left_chunk right_chunk) else tie)
            | _ => ordering
            end
      end
  end.

Definition compare_ascii_natural (l r : str) : comparison :=
  natural_loop (length (as_bytes l)) (as_bytes l) (as_bytes r) Eq.

(** * Tags *)

Definition tag_namespace (tag : str) : option str :=
  match split_once 58 tag with
  | Some (namespace, _) => if is_empty namespace then None else Some namespace
  | None => None
  end.

Definition same_tag_namespace (l r : str) : bool :=
  match tag_namespace l, tag_namespace r with
  | Some l, Some r => eq_ignore_ascii_case l r
  | _, _ => false
  end.

Definition tag_value (tag : str) : str :=
  match split_once 58 tag with Some (_, value) => value | None => tag end.

Definition compare_tag_names_naturally (l r : str) : comparison :=
  then_with (compare_ascii_natural (tag_value l) (tag_value r)) (str_cmp l r).

(** The relation [sort_by] sorts by. *)
Definition tag_le (l r : str) : Prop := compare_tag_names_naturally l r <> Gt.

#[export] Instance tag_le_dec : RelDecision tag_le.
Proof. intros l r. unfold tag_le. solve_decision. Defined.

(** The tags after [start] that continue its block, and the rest. *)
Fixpoint take_block (start : str) (tags : list str) : list str * list str :=
  match tags with
  | [] => ([], [])
  | tag :: tags' =>
      if same_tag_namespace start tag
      then let '(block, rest) := take_block start tags' in (tag :: block, rest)
      else ([], tags)
  end.

(** The loop over the blocks; a turn consumes at least one tag. *)
Fixpoint normalize_loop (fuel : nat) (tags : list str) : list str :=
  match fuel, tags with
  | _, [] => []
  | O, _ => tags
  | S fuel', start :: tags' =>
      match tag_namespace start with
      | None => start :: normalize_loop fuel' tags'
      | Some _ =>
          let '(block, rest) := take_block start tags' in
          (if is_empty block then [start] else merge_sort tag_le (start :: block))
          ++ normalize_loop fuel' rest
      end
  end.

Definition normalize_tag_namespace_blocks (tags : list str) : list str :=
  normalize_loop (length tags) tags.

(** [v.insert(v.rposition(p)? + 1, x)]. *)
Fixpoint insert_after_last (p : str -> bool) (x : str) (tags : list str) : option (list str) :=
  match tags with
  | [] => None
  | tag :: tags' =>
      match insert_after_last p x tags' with
      | Some inserted => Some (tag :: inserted)
      | None => if p tag then Some (tag :: x :: tags') else None
      end
  end.

Definition insert_tag (tags : list str) (addition : str) : list str :=
  if existsb (fun tag => str_eqb tag addition) tags then tags
  else
    match tag_namespace addition with
    | Some _ =>
        default (tags ++ [addition])
          (insert_after_last (fun existing => same_tag_namespace existing addition) addition tags)
    | None => tags ++ [addition]
    end.

Definition insert_tags_into_last_namespace_blocks (ordered_tags additions : list str)
    (namespace_natural_sort_enabled : bool) : list str :=
  let tags := foldl insert_tag ordered_tags additions in
  if namespace_natural_sort_enabled then normalize_tag_namespace_blocks tags else tags.

(** The cases of the source's tests. *)
Example tag_order_tests :
  (normalize_tag_namespace_blocks
     (map lit ["provider:B"; "provider:A"; "country:US"; "plain"; "Provider:D"; "provider:C"])
   = map lit ["provider:A"; "provider:B"; "country:US"; "plain"; "provider:C"; "Provider:D"])
  /\
  (insert_tags_into_last_namespace_blocks
     (map lit ["provider:A"; "country:US"; "provider:D"; "provider:B"; "plain"])
     (map lit ["Provider:C"; "standalone"]) true
   = map lit ["provider:A"; "country:US"; "provider:B"; "Provider:C"; "provider:D"; "plain";
              "standalone"]).
Proof. split; vm_compute; reflexivity. Qed.
