(* ===== verification/TagOrderProofs.v ===== *)
(** Theorems on the order of tags ([TagOrder]): natural order is a total order in
    which numbers compare by value, and keeping blocks in it only permutes tags
    within their blocks. *)

From stdpp Require Import sorting.
From S2P Require Import Prelude RustStd F64 Json VpsRules VpsDecimal TagOrder.

Open Scope Z_scope.

#[local] Arguments lit : simpl never.

(** * Comparison functions *)

(** A comparison that orders its type up to an equivalence, its [Eq]. *)
Class CmpOrder {A} (cmp : A -> A -> comparison) : Prop := {
  cmp_opp x y : cmp y x = CompOpp (cmp x y);
  cmp_trans x y z : cmp x y = Lt -> cmp y z = Lt -> cmp x z = Lt;
  cmp_eq_l x y z : cmp x y = Eq -> cmp x z = cmp y z;
}.

Arguments cmp_opp {A} cmp {_} x y.
Arguments cmp_trans {A} cmp {_} x y z.
Arguments cmp_eq_l {A} cmp {_} x y z.

Definition lex_cmp {A B} (ca : A -> A -> comparison) (cb : B -> B -> comparison) (x y : A * B) :
  comparison :=
  then_with (ca (fst x) (fst y)) (cb (snd x) (snd y)).

(** ** The keys natural order compares *)

(** The chunks of a text, each with whether it is a number. *)
Fixpoint chunks_of (fuel : nat) (l : list Z) : list (bool * list Z) :=
  match fuel, l with
  | S fuel', a :: _ =>
      let '(chunk, rest) := chunk_end l (is_ascii_digit a) in
      (is_ascii_digit a, chunk) :: chunks_of fuel' rest
  | _, _ => []
  end.

(** Numbers sort where the digits do, by their length without leading zeros and
    then by their digits; other text by its folded bytes. *)
Definition chunk_key (c : bool * list Z) : list Z :=
  if fst c then 48 :: vec_len (significant_digits (snd c)) :: significant_digits (snd c)
  else map fold_ascii (snd c).

Definition tie_key (c : bool * list Z) : list Z := vec_len (snd c) :: snd c.

Definition natural_keys (l : list (bool * list Z)) : list (list Z) * list (list Z) :=
  (map chunk_key l, map tie_key (List.filter fst l)).

Definition natural_key (s : str) : list (list Z) * list (list Z) :=
  natural_keys (chunks_of (length (as_bytes s)) (as_bytes s)).

Definition keys_cmp : list (list Z) * list (list Z) -> list (list Z) * list (list Z) -> comparison :=
  lex_cmp (list_cmp bytes_cmp) (list_cmp bytes_cmp).

Definition tag_key (tag : str) : (list (list Z) * list (list Z)) * list Z :=
  (natural_key (tag_value tag), as_bytes tag).

(** ** Blocks *)

(** The namespace of a tag up to ASCII case. *)
Definition namespace_key (tag : str) : option str := option_map to_ascii_lowercase (tag_namespace tag).

(** Neighbours of one namespace are in natural order. *)
Fixpoint blocks_sorted (tags : list str) : Prop :=
  match tags with
  | a :: (b :: _) as rest => (same_tag_namespace a b = true -> tag_le a b) /\ blocks_sorted rest
  | _ => True
  end.

(** Unicode scalar values. *)
Definition is_char (c : Z) : Prop := 0 <= c < 1114112.
Definition tag_wf (tag : str) : Prop := Forall is_char tag.

(** * Laws of comparisons *)

Lemma then_with_assoc a b c : then_with (then_with a b) c = then_with a (then_with b c).
Proof. by destruct a. Qed.

Lemma cmp_eq_r {A} (cmp : A -> A -> comparison) `{CmpOrder A cmp} x y z :
  cmp y z = Eq -> cmp x y = cmp x z.
Proof. intros Heq. rewrite (cmp_opp cmp y x), (cmp_opp cmp z x). by rewrite (cmp_eq_l cmp y z x). Qed.

Lemma cmp_refl {A} (cmp : A -> A -> comparison) `{CmpOrder A cmp} x : cmp x x = Eq.
Proof. pose proof (cmp_opp cmp x x) as H1. by destruct (cmp x x). Qed.

(** The relation a comparison sorts by is a total preorder. *)
Lemma cmp_le_trans {A} (cmp : A -> A -> comparison) `{CmpOrder A cmp} :
  Transitive (fun x y => cmp x y <> Gt).
Proof.
  intros a b c H1 H2 H3. destruct (cmp a b) eqn:E1; [| |done].
  - by rewrite (cmp_eq_l cmp a b c E1) in H3.
  - destruct (cmp b c) eqn:E2; [| |done].
    + by rewrite <- (cmp_eq_r cmp a b c E2), E1 in H3.
    + by rewrite (cmp_trans cmp a b c E1 E2) in H3.
Qed.

Lemma cmp_le_total {A} (cmp : A -> A -> comparison) `{CmpOrder A cmp} :
  Total (fun x y => cmp x y <> Gt).
Proof. intros a b. rewrite (cmp_opp cmp a b). by destruct (cmp a b); [left|left|right]. Qed.

Lemma cmp_le_antisym {A} (cmp : A -> A -> comparison) `{CmpOrder A cmp} x y :
  cmp x y <> Gt -> cmp y x <> Gt -> cmp x y = Eq.
Proof. rewrite (cmp_opp cmp x y). by destruct (cmp x y). Qed.

#[export] Instance Z_compare_order : CmpOrder Z.compare.
Proof.
  split.
  - intros x y. apply Z.compare_antisym.
  - intros x y z. rewrite !Z.compare_lt_iff. lia.
  - intros x y z ->%Z.compare_eq. done.
Qed.

#[export] Instance lex_order {A B} (ca : A -> A -> comparison) (cb : B -> B -> comparison)
    `{CmpOrder A ca, CmpOrder B cb} : CmpOrder (lex_cmp ca cb).
Proof.
  unfold lex_cmp. split.
  - intros [a b] [c d]. cbn. rewrite (cmp_opp ca a c), (cmp_opp cb b d). by destruct (ca a c).
  - intros [a b] [c d] [e f]. cbn. intros H1 H2.
    destruct (ca a c) eqn:E1; try done.
    + rewrite (cmp_eq_l ca a c e E1). destruct (ca c e) eqn:E2; try done. cbn in *. by eapply (cmp_trans cb).
    + destruct (ca c e) eqn:E2; try done.
      * by rewrite <- (cmp_eq_r ca a c e E2), E1.
      * by rewrite (cmp_trans ca a c e E1 E2).
  - intros [a b] [c d] [e f]. cbn. intros H1. destruct (ca a c) eqn:E1; try done. cbn in H1.
    by rewrite (cmp_eq_l ca a c e E1), (cmp_eq_l cb b d f H1).
Qed.

Lemma pullback_order {A B} (f : A -> B) (cmp : B -> B -> comparison) `{CmpOrder B cmp} :
  CmpOrder (fun x y => cmp (f x) (f y)).
Proof.
  split.
  - intros x y. apply (cmp_opp cmp).
  - intros x y z. apply (cmp_trans cmp).
  - intros x y z. apply (cmp_eq_l cmp).
Qed.

#[export] Instance list_order {A} (cmp : A -> A -> comparison) `{CmpOrder A cmp} :
  CmpOrder (list_cmp cmp).
Proof.
  split.
  - induction x as [|a x IH]; intros [|b y]; cbn; try done.
    rewrite (cmp_opp cmp a b), IH. by destruct (cmp a b).
  - induction x as [|a x IH]; intros [|b y] [|c z]; cbn; try done. intros H1 H2.
    destruct (cmp a b) eqn:E1; try done.
    + rewrite (cmp_eq_l cmp a b c E1). destruct (cmp b c) eqn:E2; try done. cbn in *. by eapply IH.
    + destruct (cmp b c) eqn:E2; try done.
      * by rewrite <- (cmp_eq_r cmp a b c E2), E1.
      * by rewrite (cmp_trans cmp a b c E1 E2).
  - induction x as [|a x IH]; intros [|b y] [|c z]; cbn; try done. intros H1.
    destruct (cmp a b) eqn:E1; try done. cbn in H1. by rewrite (cmp_eq_l cmp a b c E1), (IH y z H1).
Qed.

Lemma bytes_cmp_eq l r : bytes_cmp l r = Eq <-> l = r.
Proof.
  split; [|intros ->; apply (cmp_refl bytes_cmp)]. revert r.
  induction l as [|a l IH]; intros [|b r]; cbn; try done.
  destruct (a ?= b) eqn:E; try done. cbn. intros Hr. apply Z.compare_eq in E as ->. f_equal. by apply IH.
Qed.

(** * Natural order compares keys *)

Lemma chunk_end_cons a l chunk rest :
  chunk_end (a :: l) (is_ascii_digit a) = (chunk, rest) ->
  exists c, chunk = a :: c /\ (length rest <= length l)%nat /\
            Forall (fun b => is_ascii_digit b = is_ascii_digit a) chunk.
Proof.
  unfold chunk_end. cbn [span]. rewrite eqb_reflx.
  destruct (span _ l) as [c r] eqn:E. intros [= <- <-]. exists c. split; [done|].
  apply span_spec in E as (-> & Hc & _). split; [rewrite length_app; lia|]. constructor; [done|].
  eapply Forall_impl; [exact Hc|]. intros b Hb. by apply eqb_prop in Hb.
Qed.

(** A digit and another byte compare as their chunks' keys do. *)
Lemma mixed_key a b ca cb :
  is_ascii_digit a <> is_ascii_digit b ->
  bytes_cmp (chunk_key (is_ascii_digit a, a :: ca)) (chunk_key (is_ascii_digit b, b :: cb))
  = (fold_ascii a ?= fold_ascii b) /\ (fold_ascii a ?= fold_ascii b) <> Eq.
Proof.
  unfold chunk_key, fold_ascii, lower, is_ascii_digit, is_ascii_uppercase, in_range.
  destruct (48 <=? a) eqn:A1, (a <=? 57) eqn:A2, (48 <=? b) eqn:B1, (b <=? 57) eqn:B2;
    cbn [andb fst snd map]; try done; intros _; bools;
    destruct (65 <=? a) eqn:A3, (a <=? 90) eqn:A4, (65 <=? b) eqn:B3, (b <=? 90) eqn:B4;
    cbn [andb]; bools; try lia; cbn [bytes_cmp list_cmp];
    match goal with |- then_with (?x ?= ?y) _ = (?z ?= ?w) /\ _ =>
      destruct (Z.compare_spec x y), (Z.compare_spec z w); try lia; done end.
Qed.

Lemma chunks_of_nil n : chunks_of n [] = [].
Proof. by destruct n. Qed.

Lemma natural_loop_nil fuel r tie n m :
  (length r <= m)%nat ->
  natural_loop fuel [] r tie =
  then_with (list_cmp bytes_cmp (fst (natural_keys (chunks_of n []))) (fst (natural_keys (chunks_of m r))))
    (then_with tie
       (list_cmp bytes_cmp (snd (natural_keys (chunks_of n []))) (snd (natural_keys (chunks_of m r))))).
Proof.
  intros Hm. rewrite chunks_of_nil. destruct r as [|b r].
  - rewrite chunks_of_nil. destruct fuel; cbn; by destruct tie.
  - destruct m as [|m]; [cbn in Hm; lia|]. cbn [chunks_of].
    destruct (chunk_end _ _). by destruct fuel.
Qed.

Lemma natural_loop_keys fuel l r tie n m :
  (length l <= fuel)%nat -> (length l <= n)%nat -> (length r <= m)%nat ->
  natural_loop fuel l r tie =
  then_with (list_cmp bytes_cmp (fst (natural_keys (chunks_of n l))) (fst (natural_keys (chunks_of m r))))
    (then_with tie
       (list_cmp bytes_cmp (snd (natural_keys (chunks_of n l))) (snd (natural_keys (chunks_of m r))))).
Proof.
  revert l r tie n m. induction fuel as [|fuel IH]; intros l r tie n m Hf Hn Hm.
  { destruct l; [|cbn in Hf; lia]. apply natural_loop_nil. lia. }
  destruct l as [|a l]; [apply natural_loop_nil; lia|].
  destruct n as [|n]; [cbn in Hn; lia|].
  destruct r as [|b r]; [rewrite chunks_of_nil; cbn [chunks_of]; by destruct (chunk_end _ _)|].
  destruct m as [|m]; [cbn in Hm; lia|]. cbn [natural_loop chunks_of].
  destruct (chunk_end (a :: l) (is_ascii_digit a)) as [lc l'] eqn:El.
  destruct (chunk_end (b :: r) (is_ascii_digit b)) as [rc r'] eqn:Er.
  destruct (chunk_end_cons _ _ _ _ El) as (ca & -> & Hl' & _).
  destruct (chunk_end_cons _ _ _ _ Er) as (cb & -> & Hr' & _).
  cbn in Hf, Hn, Hm. unfold natural_keys. cbn [fst snd map List.filter list_cmp].
  destruct (eqb (is_ascii_digit a) (is_ascii_digit b)) eqn:Ed; cbn [negb].
  2: { apply eqb_false_iff in Ed. destruct (mixed_key a b ca cb Ed) as [-> Hne].
       by destruct (fold_ascii a ?= fold_ascii b). }
  apply eqb_prop in Ed. rewrite Ed in *. rewrite Er.
  destruct (is_ascii_digit b).
  - cbn [fst map list_cmp]. rewrite (IH l' r' _ n m) by lia. unfold natural_keys. cbn [fst snd].
    change (bytes_cmp (chunk_key (true, a :: ca)) (chunk_key (true, b :: cb)))
      with (compare_digit_chunks (a :: ca) (b :: cb)).
    change (bytes_cmp (tie_key (true, a :: ca)) (tie_key (true, b :: cb)))
      with (numeric_tie (a :: ca) (b :: cb)).
    rewrite then_with_assoc. by destruct (compare_digit_chunks _ _).
  - cbn [fst map list_cmp]. rewrite (IH l' r' _ n m) by lia. unfold natural_keys. cbn [fst snd].
    change (bytes_cmp (chunk_key (false, a :: ca)) (chunk_key (false, b :: cb)))
      with (compare_text_chunks (a :: ca) (b :: cb)). by destruct (compare_text_chunks _ _).
Qed.

Lemma natural_cmp_keys l r : compare_ascii_natural l r = keys_cmp (natural_key l) (natural_key r).
Proof.
  unfold compare_ascii_natural.
  rewrite (natural_loop_keys _ _ _ _ (length (as_bytes l)) (length (as_bytes r))) by lia. done.
Qed.

Lemma tag_cmp_keys l r : compare_tag_names_naturally l r = lex_cmp keys_cmp bytes_cmp (tag_key l) (tag_key r).
Proof. unfold compare_tag_names_naturally. by rewrite natural_cmp_keys. Qed.

#[export] Instance tag_cmp_order : CmpOrder compare_tag_names_naturally.
Proof.
  pose proof (pullback_order tag_key (lex_cmp keys_cmp bytes_cmp)) as [H1 H2 H3].
  split; intros *; rewrite !tag_cmp_keys; [apply H1|apply H2|apply H3].
Qed.

(** * Texts are their bytes *)

Lemma utf8_char_inj c d x y :
  is_char c -> is_char d -> utf8_char c ++ x = utf8_char d ++ y -> c = d /\ x = y.
Proof.
  unfold is_char, utf8_char. intros Hc Hd.
  destruct (c <? 128) eqn:C1, (d <? 128) eqn:D1; bools;
    [|destruct (d <? 2048) eqn:D2, (d <? 65536) eqn:D3
     |destruct (c <? 2048) eqn:C2, (c <? 65536) eqn:C3
     |destruct (c <? 2048) eqn:C2, (c <? 65536) eqn:C3, (d <? 2048) eqn:D2, (d <? 65536) eqn:D3];
    bools; cbn [app]; intros H; injection H; clear H; intros; try (exfalso; Z.div_mod_to_equations; lia);
    split; assumption || (Z.div_mod_to_equations; lia).
Qed.

Lemma as_bytes_inj l r : tag_wf l -> tag_wf r -> as_bytes l = as_bytes r -> l = r.
Proof.
  unfold tag_wf, as_bytes. intros Hl. revert r. induction Hl as [|c l Hc Hl IH]; intros r Hr H.
  - destruct Hr as [|d r Hd _]; [done|]. cbn in H. unfold utf8_char in H. by repeat case_match.
  - destruct Hr as [|d r Hd Hr]; [cbn in H; unfold utf8_char in H; by repeat case_match|].
    cbn in H. apply utf8_char_inj in H as [-> H]; [|done|done]. f_equal. by apply IH.
Qed.

(** * Numbers compare by value *)

Lemma digits_cmp_same_length l r :
  all_digits l = true -> all_digits r = true -> vec_len l = vec_len r ->
  bytes_cmp l r = Z.compare (digits_val l) (digits_val r).
Proof.
  rewrite !all_digits_Forall. intros Hl. revert r. induction Hl as [|a l Ha Hl IH]; intros [|b r] Hr Hn;
    unfold vec_len in Hn; cbn in Hn; try lia; [done|].
  inversion_clear Hr as [|? ? Hb Hr']. cbn [bytes_cmp list_cmp]. fold bytes_cmp.
  assert (Hlen : vec_len l = vec_len r) by (unfold vec_len; lia).
  rewrite !digits_val_cons, Hlen. unfold bytes_cmp in IH. rewrite IH by done.
  pose proof (digits_val_bounds l (proj2 (all_digits_Forall l) Hl)) as B1.
  pose proof (digits_val_bounds r (proj2 (all_digits_Forall r) Hr')) as B2. rewrite Hlen in B1.
  set (k := 10 ^ vec_len r) in *. cbn beta in Ha, Hb.
  destruct (Z.compare_spec a b) as [->|Hlt|Hgt]; cbn [then_with]; symmetry.
  - apply Z.add_compare_mono_l.
  - apply Z.compare_lt_iff. nia.
  - apply Z.compare_gt_iff. nia.
Qed.

Lemma significant_digits_spec l :
  all_digits l = true -> l <> [] ->
  all_digits (significant_digits l) = true /\ digits_val (significant_digits l) = digits_val l /\
  (significant_digits l = [48] \/ exists c s, significant_digits l = c :: s /\ 49 <= c).
Proof.
  intros Hl Hne. unfold significant_digits.
  pose proof (digits_val_drop_zeros l) as Hv. unfold trim_start_matches in Hv.
  pose proof (all_digits_drop (Z.eqb 48) l Hl) as Hd.
  destruct (drop_while (Z.eqb 48) l) as [|c s] eqn:E.
  - destruct (drop_while_suffix (Z.eqb 48) l) as (z & Ez & Hz). rewrite E, app_nil_r in Ez. subst z.
    assert (Hlast : drop (length l - 1) l = [48]).
    { destruct (exists_last Hne) as (l' & x & ->). rewrite length_app. cbn.
      replace (length l' + 1 - 1)%nat with (length l') by lia. rewrite drop_app_length.
      apply Forall_app in Hz as [_ Hz]. inversion_clear Hz as [|? ? Hx _]. by apply Z.eqb_eq in Hx as <-. }
    rewrite Hlast. split; [done|]. split; [|by left]. rewrite <- Hv. done.
  - split; [done|]. split; [done|]. right. exists c, s. split; [done|].
    pose proof (drop_while_head (Z.eqb 48) l c) as Hh. rewrite E in Hh. specialize (Hh eq_refl).
    apply all_digits_Forall in Hd. inversion_clear Hd. apply Z.eqb_neq in Hh. lia.
Qed.

Lemma pow10_le_digits c s : 49 <= c -> all_digits s = true -> 10 ^ vec_len s <= digits_val (c :: s).
Proof.
  intros Hc Hs. rewrite digits_val_cons. pose proof (digits_val_bounds s Hs). nia.
Qed.

Lemma compare_digit_chunks_value l r :
  all_digits l = true -> all_digits r = true -> l <> [] -> r <> [] ->
  compare_digit_chunks l r = Z.compare (digits_val l) (digits_val r).
Proof.
  intros Hl Hr Nl Nr. unfold compare_digit_chunks.
  destruct (significant_digits_spec l Hl Nl) as (Dl & <- & Sl).
  destruct (significant_digits_spec r Hr Nr) as (Dr & <- & Sr).
  set (a := significant_digits l) in *. set (b := significant_digits r) in *. clearbody a b.
  assert (Hlt : forall x y, all_digits x = true -> all_digits y = true ->
    (x = [48] \/ exists c s, x = c :: s /\ 49 <= c) -> (y = [48] \/ exists c s, y = c :: s /\ 49 <= c) ->
    vec_len x < vec_len y -> digits_val x < digits_val y).
  { intros x y Dx Dy Sx [->|(c & s & -> & Hc)] Hxy.
    - destruct Sx as [->|(? & ? & -> & _)]; unfold vec_len in Hxy; cbn in Hxy; lia.
    - pose proof (digits_val_bounds x Dx) as B.
      apply all_digits_Forall in Dy. inversion_clear Dy as [|? ? _ Ds]. apply all_digits_Forall in Ds.
      pose proof (pow10_le_digits c s Hc Ds). rewrite vec_len_cons in Hxy.
      assert (10 ^ vec_len x <= 10 ^ vec_len s) by (apply Z.pow_le_mono_r; lia). lia. }
  destruct (Z.compare_spec (vec_len a) (vec_len b)) as [He|Hab|Hba]; cbn [then_with].
  - by apply digits_cmp_same_length.
  - symmetry. apply Z.compare_lt_iff. by apply Hlt.
  - symmetry. apply Z.compare_gt_iff. by apply Hlt.
Qed.

(** * Sorting blocks *)

#[export] Instance tag_le_trans : Transitive tag_le.
Proof. exact (cmp_le_trans compare_tag_names_naturally). Qed.

#[export] Instance tag_le_total : Total tag_le.
Proof. exact (cmp_le_total compare_tag_names_naturally). Qed.

Lemma tag_cmp_eq l r : tag_wf l -> tag_wf r -> compare_tag_names_naturally l r = Eq <-> l = r.
Proof.
  intros Hl Hr. split; [|intros ->; apply (cmp_refl compare_tag_names_naturally)].
  unfold compare_tag_names_naturally, str_cmp. destruct (compare_ascii_natural _ _); try done.
  intros H%bytes_cmp_eq. by apply as_bytes_inj.
Qed.

Lemma tag_le_antisym l r : tag_wf l -> tag_wf r -> tag_le l r -> tag_le r l -> l = r.
Proof.
  unfold tag_le. intros Hl Hr H1 H2. apply tag_cmp_eq; [done|done|].
  rewrite (cmp_opp compare_tag_names_naturally l r) in H2. by destruct (compare_tag_names_naturally l r).
Qed.

Lemma same_namespace_key a b :
  same_tag_namespace a b = true <-> is_Some (namespace_key a) /\ namespace_key a = namespace_key b.
Proof.
  unfold same_tag_namespace, namespace_key, eq_ignore_ascii_case.
  destruct (tag_namespace a) as [x|], (tag_namespace b) as [y|]; cbn; try rewrite str_eqb_eq;
    (split; [intros H; try done|intros [[k Hk] H]; try done]).
  - split; [by eexists|congruence].
  - by injection H.
Qed.

Lemma take_block_spec start tags block rest :
  take_block start tags = (block, rest) ->
  tags = block ++ rest /\ Forall (fun t => same_tag_namespace start t = true) block /\
  (forall t, head rest = Some t -> same_tag_namespace start t = false).
Proof.
  revert block rest. induction tags as [|t tags IH]; intros block rest H; cbn in H; [by simplify_eq|].
  destruct (same_tag_namespace start t) eqn:E.
  - destruct (take_block start tags) as [b r] eqn:Eb. simplify_eq.
    destruct (IH b rest eq_refl) as (-> & Hb & Hr). split; [done|]. split; [by constructor|done].
  - simplify_eq. split; [done|]. split; [constructor|]. cbn. congruence.
Qed.

(** A sorted run of one namespace, before tags that do not continue it. *)
Lemma blocks_sorted_app k B R :
  Forall (fun t => namespace_key t = Some k) B -> StronglySorted tag_le B -> blocks_sorted R ->
  (forall t, head R = Some t -> namespace_key t <> Some k) -> blocks_sorted (B ++ R).
Proof.
  intros HB HS HR Hh. induction HS as [|a B HS IH Ha]; [done|].
  apply Forall_cons in HB as [Hka HB]. specialize (IH HB). destruct B as [|b B].
  - destruct R as [|r R]; [done|]. cbn. split; [|done].
    intros [_ Hs]%same_namespace_key. exfalso. apply (Hh r eq_refl). congruence.
  - cbn. split; [|exact IH]. intros _. by apply Forall_cons in Ha as [? _].
Qed.

Lemma keys_replicate k B : Forall (fun t => namespace_key t = Some k) B ->
  map namespace_key B = replicate (length B) (Some k).
Proof. induction 1 as [|t B Ht _ IH]; cbn; [done|]. by rewrite Ht, IH. Qed.

Lemma block_keys k start block :
  namespace_key start = Some k -> Forall (fun t => same_tag_namespace start t = true) block ->
  Forall (fun t => namespace_key t = Some k) (start :: block).
Proof.
  intros Hs Hb. constructor; [done|]. eapply Forall_impl; [exact Hb|].
  intros t [_ Ht]%same_namespace_key. congruence.
Qed.

Lemma sorted_block k B (B' := merge_sort tag_le B) :
  Forall (fun t => namespace_key t = Some k) B ->
  B' ≡ₚ B /\ StronglySorted tag_le B' /\ map namespace_key B' = map namespace_key B /\
  Forall (fun t => namespace_key t = Some k) B'.
Proof.
  intros HB. assert (Hp : B' ≡ₚ B) by apply merge_sort_Permutation.
  assert (HB' : Forall (fun t => namespace_key t = Some k) B') by by rewrite Hp.
  split; [done|]. split; [apply (StronglySorted_merge_sort tag_le)|]. split; [|done].
  rewrite !(keys_replicate k) by done. by rewrite Hp.
Qed.

Lemma normalize_loop_spec n tags :
  (length tags <= n)%nat ->
  normalize_loop n tags ≡ₚ tags /\
  map namespace_key (normalize_loop n tags) = map namespace_key tags /\
  blocks_sorted (normalize_loop n tags).
Proof.
  revert tags. induction n as [|n IH]; intros [|start tags] Hn; cbn in Hn; try lia; try done.
  cbn [normalize_loop]. destruct (tag_namespace start) as [ns|] eqn:En.
  - destruct (take_block start tags) as [block rest] eqn:Eb.
    apply take_block_spec in Eb as (-> & Hb & Hr).
    assert (Hk : namespace_key start = Some (to_ascii_lowercase ns)) by (unfold namespace_key; by rewrite En).
    pose proof (block_keys _ _ _ Hk Hb) as HB.
    destruct (IH rest) as (Hp & Hm & Hs); [rewrite length_app in Hn; lia|].
    set (B := if is_empty block then [start] else merge_sort tag_le (start :: block)).
    assert (HBB : B ≡ₚ start :: block /\ StronglySorted tag_le B /\
      map namespace_key B = map namespace_key (start :: block) /\
      Forall (fun t => namespace_key t = Some (to_ascii_lowercase ns)) B).
    { unfold B. destruct block as [|b block]; cbn [is_empty].
      - split; [done|]. split; [by repeat constructor|]. done.
      - by apply sorted_block. }
    destruct HBB as (Hp1 & Hs1 & Hm1 & Hk1). split; [by rewrite Hp1, Hp|].
    split; [rewrite map_app, Hm1, Hm; cbn; by rewrite map_app|].
    apply (blocks_sorted_app (to_ascii_lowercase ns)); [done|done|done|].
    intros t Ht Hkt. destruct rest as [|r rest]; [by destruct n|].
    assert (Hhead : namespace_key r = namespace_key t).
    { destruct (normalize_loop n (r :: rest)) as [|t' l]; [done|]. cbn in Ht, Hm. congruence. }
    assert (same_tag_namespace start r = true) as Hx
      by (apply same_namespace_key; rewrite Hk, Hhead, Hkt; split; [by eexists|done]).
    rewrite (Hr r eq_refl) in Hx. done.
  - destruct (IH tags) as (Hp & Hm & Hs); [lia|]. split; [by rewrite Hp|]. split; [cbn; by rewrite Hm|].
    destruct (normalize_loop n tags) as [|t l] eqn:E; [done|]. cbn. split; [|done].
    unfold same_tag_namespace. by rewrite En.
Qed.

Lemma blocks_sorted_inv k B R :
  Forall (fun t => namespace_key t = Some k) B -> blocks_sorted (B ++ R) ->
  StronglySorted tag_le B /\ blocks_sorted R.
Proof.
  intros HB. induction HB as [|a B Ha HB IH]; [intros; split; [constructor|done]|].
  intros Hs. destruct B as [|b B].
  - split; [by repeat constructor|]. destruct R as [|r R]; [done|]. cbn in Hs. apply Hs.
  - destruct Hs as [Hab Hs]. destruct (IH Hs) as [Hsb HR]. split; [|done]. constructor; [done|].
    assert (tag_le a b).
    { apply Hab, same_namespace_key. inversion_clear HB. split; [rewrite Ha; by eexists|congruence]. }
    inversion_clear Hsb as [|? ? _ Hall]. constructor; [done|].
    eapply Forall_impl; [exact Hall|]. intros c Hc. by transitivity b.
Qed.

Lemma normalize_loop_id n tags :
  (length tags <= n)%nat -> Forall tag_wf tags -> blocks_sorted tags -> normalize_loop n tags = tags.
Proof.
  revert tags. induction n as [|n IH]; intros [|start tags] Hn Hw Hs; cbn in Hn; try lia; try done.
  cbn [normalize_loop]. destruct (tag_namespace start) as [ns|] eqn:En.
  - destruct (take_block start tags) as [block rest] eqn:Eb.
    apply take_block_spec in Eb as (-> & Hb & _).
    assert (Hk : namespace_key start = Some (to_ascii_lowercase ns)) by (unfold namespace_key; by rewrite En).
    pose proof (block_keys _ _ _ Hk Hb) as HB. change (start :: block ++ rest) with ((start :: block) ++ rest) in *.
    destruct (blocks_sorted_inv _ _ _ HB Hs) as [HSB HR]. apply Forall_app in Hw as [HwB HwR].
    rewrite IH; [|cbn in Hn; rewrite length_app in Hn; lia|done|done]. f_equal.
    destruct block as [|b block]; [done|]. cbn [is_empty].
    apply (StronglySorted_unique_strong tag_le);
      [|apply (StronglySorted_merge_sort tag_le)|done|apply merge_sort_Permutation].
    intros x y Hx Hy. rewrite merge_sort_Permutation in Hx.
    rewrite Forall_forall in HwB. apply tag_le_antisym; by apply HwB.
  - apply Forall_cons in Hw as [_ Hw]. f_equal. apply IH; [lia|done|].
    destruct tags as [|t tags]; [done|]. apply Hs.
Qed.

Lemma natural_numbers l r :
  all_digits l = true -> all_digits r = true -> l <> [] -> r <> [] -> digits_val l <> digits_val r ->
  compare_ascii_natural l r = Z.compare (digits_val l) (digits_val r).
Proof.
  intros Hl Hr Nl Nr Hne. unfold compare_ascii_natural. rewrite !digits_as_bytes by done.
  rewrite <- compare_digit_chunks_value in * by done.
  destruct l as [|a l], r as [|b r]; try done. cbn [length natural_loop].
  assert (Hchunk : forall x s, all_digits (x :: s) = true ->
    is_ascii_digit x = true /\ chunk_end (x :: s) true = (x :: s, [])).
  { intros x s Hx. split; [by apply andb_prop in Hx as [? _]|]. unfold chunk_end.
    rewrite <- (app_nil_r (x :: s)) at 1. apply span_app; [|done].
    apply all_digits_Forall in Hx. eapply Forall_impl; [exact Hx|]. intros c Hc. cbn beta in Hc.
    unfold is_ascii_digit, in_range. by rewrite (proj2 (Z.leb_le 48 c)), (proj2 (Z.leb_le c 57)) by lia. }
  destruct (Hchunk a l Hl) as [-> ->], (Hchunk b r Hr) as [-> ->]. cbn [eqb negb].
  pose proof (compare_digit_chunks_value (a :: l) (b :: r) Hl Hr Nl Nr) as Hv.
  destruct (compare_digit_chunks (a :: l) (b :: r)) eqn:E; [|done|done].
  symmetry in Hv. by apply Z.compare_eq in Hv.
Qed.

(** Natural order is a total order of tags in which numbers count by value: it is antisymmetric
    and transitive, two tags compare equal only when they are the same tag, and two values that are
    numbers compare as the numbers do unless these are equal. *)
Theorem natural_order_total :
  (forall l r, compare_tag_names_naturally r l = CompOpp (compare_tag_names_naturally l r)) /\
  (forall a b c, compare_tag_names_naturally a b = Lt -> compare_tag_names_naturally b c = Lt ->
     compare_tag_names_naturally a c = Lt) /\
  (forall l r, tag_wf l -> tag_wf r -> compare_tag_names_naturally l r = Eq <-> l = r) /\
  (forall l r, all_digits l = true -> all_digits r = true -> l <> [] -> r <> [] ->
     digits_val l <> digits_val r ->
     compare_ascii_natural l r = Z.compare (digits_val l) (digits_val r)).
Proof.
  split; [intros l r; apply (cmp_opp compare_tag_names_naturally)|].
  split; [intros a b c; apply (cmp_trans compare_tag_names_naturally)|].
  split; [apply tag_cmp_eq|]. intros l r Hl Hr Nl Nr Hne. by apply natural_numbers.
Qed.

(** Keeping namespace blocks in natural order only reorders tags inside their blocks: the result
    is a permutation, the namespaces appear in the same positions, every run of one namespace is in
    natural order, and doing it again changes nothing. *)
Theorem normalized_blocks tags :
  let result := normalize_tag_namespace_blocks tags in
  result ≡ₚ tags /\ map namespace_key result = map namespace_key tags /\ blocks_sorted result /\
  (Forall tag_wf tags -> normalize_tag_namespace_blocks result = result).
Proof.
  unfold normalize_tag_namespace_blocks.
  destruct (normalize_loop_spec (length tags) tags (le_n _)) as (Hp & Hm & Hs).
  split; [done|]. split; [done|]. split; [done|]. intros Hw.
  apply normalize_loop_id; [done|by rewrite Hp|done].
Qed.

(** * Inserting tags *)

Lemma insert_after_last_spec p x tags tags' :
  insert_after_last p x tags = Some tags' ->
  exists l1 a l2, tags = l1 ++ a :: l2 /\ p a = true /\ Forall (fun t => p t = false) l2 /\
                  tags' = l1 ++ a :: x :: l2.
Proof.
  assert (Hnone : forall l, insert_after_last p x l = None -> Forall (fun t => p t = false) l).
  { induction l as [|t l IH]; [done|]. cbn. destruct (insert_after_last p x l); [done|].
    destruct (p t) eqn:E; [done|]. intros _. constructor; [done|by apply IH]. }
  revert tags'. induction tags as [|t tags IH]; intros tags' H; cbn in H; [done|].
  destruct (insert_after_last p x tags) as [ins|] eqn:E.
  - injection H as <-. destruct (IH ins eq_refl) as (l1 & a & l2 & -> & Ha & Hl2 & ->).
    by exists (t :: l1), a, l2.
  - destruct (p t) eqn:Ep; [|done]. injection H as <-.
    exists [], t, tags. split; [done|]. split; [done|]. split; [by apply Hnone|done].
Qed.

Lemma insert_tag_spec tags addition :
  (addition ∈ tags /\ insert_tag tags addition = tags) \/
  (addition ∉ tags /\ insert_tag tags addition ≡ₚ addition :: tags /\
   tags `sublist_of` insert_tag tags addition).
Proof.
  unfold insert_tag. destruct (existsb _ tags) eqn:E.
  - left. apply existsb_exists in E as (t & Hin & <-%str_eqb_eq). split; [by apply list_elem_of_In|done].
  - right. assert (Hn : addition ∉ tags).
    { intros Hin%list_elem_of_In. pose proof (existsb_false _ _ addition E Hin) as Hf. cbn beta in Hf.
      by rewrite str_eqb_refl in Hf. }
    assert (Hend : tags ++ [addition] ≡ₚ addition :: tags /\ tags `sublist_of` tags ++ [addition])
      by (split; [symmetry; apply Permutation_cons_append|by apply sublist_inserts_r]).
    split; [done|]. destruct (tag_namespace addition); [|done].
    destruct (insert_after_last _ addition tags) as [tags'|] eqn:Ei; cbn; [|done].
    apply insert_after_last_spec in Ei as (l1 & a & l2 & -> & _ & _ & ->). split.
    + rewrite (Permutation_middle l1 (a :: l2) addition). by apply Permutation_app_head, Permutation_swap.
    + by apply sublist_app, sublist_skip, sublist_cons.
Qed.

(** Inserting tags adds exactly the missing ones: starting from a list without repetitions, the
    result has no repetitions and holds the old tags and the additions and nothing else, and while
    natural sorting is off the old tags keep their order. *)
Theorem inserted_tags_exact ordered additions (natural : bool) :
  NoDup ordered ->
  let result := insert_tags_into_last_namespace_blocks ordered additions natural in
  NoDup result /\ (forall t, t ∈ result <-> t ∈ ordered \/ t ∈ additions) /\
  (natural = false -> ordered `sublist_of` result).
Proof.
  intros Hnd result. set (tags := foldl insert_tag ordered additions).
  assert (Hp : result ≡ₚ tags).
  { unfold result, insert_tags_into_last_namespace_blocks. fold tags. destruct natural; [|done].
    by apply normalize_loop_spec. }
  assert (Ht : NoDup tags /\ (forall t, t ∈ tags <-> t ∈ ordered \/ t ∈ additions) /\
               ordered `sublist_of` tags).
  { unfold tags. clear tags Hp result. revert ordered Hnd.
    induction additions as [|x additions IH]; intros ordered Hnd; cbn.
    { split; [done|]. split; [set_solver|done]. }
    destruct (insert_tag_spec ordered x) as [[Hx ->]|(Hx & Hp & Hs)].
    - destruct (IH ordered Hnd) as (? & Hm & ?). split; [done|]. split; [|done]. set_solver.
    - destruct (IH (insert_tag ordered x)) as (? & Hm & Hs'); [rewrite Hp; by constructor|].
      split; [done|]. split; [|by transitivity (insert_tag ordered x)].
      intros t. rewrite Hm, Hp. set_solver. }
  destruct Ht as (Hn & Hm & Hs). split; [by rewrite Hp|]. split; [intros t; by rewrite Hp|].
  intros ->. exact Hs.
Qed.

(** * Witnesses *)

Lemma inserted_tags_exact_witness :
  let ordered := map lit ["provider:B"; "plain"] in
  let additions := map lit ["provider:A"; "plain"] in
  insert_tags_into_last_namespace_blocks ordered additions false
  = map lit ["provider:B"; "provider:A"; "plain"] /\
  ordered `sublist_of` insert_tags_into_last_namespace_blocks ordered additions false.
Proof.
  split; [vm_compute; reflexivity|].
  refine (proj2 (proj2 (inserted_tags_exact (map lit ["provider:B"; "plain"])
            (map lit ["provider:A"; "plain"]) false _)) eq_refl).
  apply (bool_decide_unpack _). vm_compute. exact I.
Defined.
