(* ===== verification/Net.v ===== *)
(** [std::net]'s addresses and their text.

    An address is its value as an integer of 32 or 128 bits.  [parse_ip_addr]
    follows the recursive-descent parser of [FromStr for IpAddr]: a reader takes
    the text and returns what it read and the rest, or nothing when it does not
    apply, in which case the text is left as it was.  [format_ip_addr] follows
    [Display]. *)

From S2P Require Import Prelude RustStd.

Open Scope Z_scope.

(** * Addresses *)

Inductive IpAddr :=
| IpV4 (value : Z)
| IpV6 (value : Z).

#[export] Instance ip_addr_eq_dec : EqDecision IpAddr.
Proof. solve_decision. Defined.

Definition is_ipv4 (a : IpAddr) : bool := match a with IpV4 _ => true | IpV6 _ => false end.
Definition ip_value (a : IpAddr) : Z := match a with IpV4 v | IpV6 v => v end.

(** The address family's width in bits. *)
Definition ip_width (ipv4 : bool) : Z := if ipv4 then 32 else 128.

(** The value is one of the family's addresses. *)
Definition ip_wf (a : IpAddr) : Prop := 0 <= ip_value a < 2 ^ ip_width (is_ipv4 a).

(** * Reading *)

(** [char::to_digit(radix)] for the radices 10 and 16. *)
Definition to_digit (radix : Z) (c : char) : option Z :=
  let v := if is_ascii_digit c then Some (c - 48)
           else if in_range 97 102 c then Some (c - 87)
           else if in_range 65 70 c then Some (c - 55) else None in
  match v with Some d => if d <? radix then Some d else None | None => None end.

(** The digits of [read_number]: value, count and rest; nothing past [max_digits]
    digits or past [max]. *)
Fixpoint read_digits (radix max : Z) (max_digits : nat) (value : Z) (count : nat) (s : str) :
  option (Z * nat * str) :=
  match s with
  | c :: s' =>
      match to_digit radix c with
      | Some d =>
          if (max <? value * radix + d) || (max_digits <=? count)%nat then None
          else read_digits radix max max_digits (value * radix + d) (S count) s'
      | None => Some (value, count, s)
      end
  | [] => Some (value, count, s)
  end.

Definition read_number (radix max : Z) (max_digits : nat) (allow_zero_prefix : bool) (s : str) :
  option (Z * str) :=
  match read_digits radix max max_digits 0 0 s with
  | Some (value, count, rest) =>
      let has_leading_zero := match s with c :: _ => c =? 48 | [] => false end in
      if (count =? 0)%nat then None
      else if negb allow_zero_prefix && has_leading_zero && (1 <? count)%nat then None
      else Some (value, rest)
  | None => None
  end.

(** [read_separator]: the separator comes before every item but the first. *)
Definition read_separator {A} (sep : char) (index : nat) (reader : str -> option (A * str)) (s : str) :
  option (A * str) :=
  match index, s with
  | O, _ => reader s
  | _, c :: s' => if c =? sep then reader s' else None
  | _, [] => None
  end.

(** The octets of an IPv4 address from number [index] on, four in all. *)
Fixpoint read_octets (todo index : nat) (value : Z) (s : str) : option (Z * str) :=
  match todo with
  | O => Some (value, s)
  | S todo' =>
      match read_separator 46 index (read_number 10 u8_max 3 false) s with
      | Some (octet, rest) => read_octets todo' (S index) (value * 256 + octet) rest
      | None => None
      end
  end.
Definition read_ipv4_addr (s : str) : option (Z * str) := read_octets 4 0 0 s.

(** [read_groups]: up to [todo] groups of 16 bits from number [index] on, an
    embedded IPv4 address as the last two; the groups, whether they ended in an
    IPv4 address, and the rest. *)
Fixpoint read_groups (todo index : nat) (s : str) : list Z * bool * str :=
  match todo with
  | O => ([], false, s)
  | S todo' =>
      let embedded := match todo' with
                      | O => None
                      | S _ => read_separator 58 index read_ipv4_addr s
                      end in
      match embedded with
      | Some (v4, rest) => ([v4 / 65536; v4 mod 65536], true, rest)
      | None =>
          match read_separator 58 index (read_number 16 u16_max 4 true) s with
          | Some (group, rest) =>
              let '(groups, v4, rest) := read_groups todo' (S index) rest in
              (group :: groups, v4, rest)
          | None => ([], false, s)
          end
      end
  end.

Definition groups_value (groups : list Z) : Z := foldl (fun acc g => acc * 65536 + g) 0 groups.

Definition read_ipv6_addr (s : str) : option (Z * str) :=
  let '(head, head_ipv4, rest) := read_groups 8 0 s in
  if (length head =? 8)%nat then Some (groups_value head, rest)
  else if head_ipv4 then None
  else
    match rest with
    | 58 :: 58 :: rest =>
        let '(tail, _, rest) := read_groups (8 - (length head + 1)) 0 rest in
        Some (groups_value (head ++ replicate (8 - length head - length tail) 0 ++ tail), rest)
    | _ => None
    end.

(** [text.parse::<IpAddr>()]. *)
Definition parse_ip_addr (s : str) : option IpAddr :=
  match read_ipv4_addr s with
  | Some (v, rest) => if is_empty rest then Some (IpV4 v) else None
  | None =>
      match read_ipv6_addr s with
      | Some (v, []) => Some (IpV6 v)
      | _ => None
      end
  end.

(** [text.parse::<Ipv4Addr>()] and [text.parse::<Ipv6Addr>()]. *)
Definition parse_ipv4_addr (s : str) : option Z :=
  match read_ipv4_addr s with Some (v, []) => Some v | _ => None end.
Definition parse_ipv6_addr (s : str) : option Z :=
  match read_ipv6_addr s with Some (v, []) => Some v | _ => None end.

(** * Printing *)

Definition format_ipv4 (v : Z) : str :=
  to_string (v / 2 ^ 24) ++ lit "." ++ to_string (v / 2 ^ 16 mod 256) ++ lit "."
  ++ to_string (v / 2 ^ 8 mod 256) ++ lit "." ++ to_string (v mod 256).

Definition ipv6_groups (v : Z) : list Z :=
  map (fun i => v / 2 ^ (16 * i) mod 65536) [7; 6; 5; 4; 3; 2; 1; 0].

Definition hex_char (d : Z) : char := if d <? 10 then 48 + d else 87 + d.

(** [{:x}] of a group: no leading zeros. *)
Definition format_hex (g : Z) : str :=
  match drop_while (Z.eqb 48)
          (map hex_char [g / 4096; g / 256 mod 16; g / 16 mod 16; g mod 16]) with
  | [] => [48]
  | digits => digits
  end.

(** The first longest run of zero groups, as its start and length. *)
Fixpoint longest_zeros (index : nat) (groups : list Z) (current longest : nat * nat) : nat * nat :=
  match groups with
  | [] => longest
  | g :: groups' =>
      if g =? 0 then
        let start := if (snd current =? 0)%nat then index else fst current in
        let current := (start, S (snd current)) in
        longest_zeros (S index) groups' current
          (if (snd longest <? snd current)%nat then current else longest)
      else longest_zeros (S index) groups' (O, O) longest
  end.

Definition format_groups (groups : list Z) : str := join (lit ":") (map format_hex groups).

(** [Ipv6Addr::to_ipv4_mapped]. *)
Definition ipv4_mapped (v : Z) : option Z :=
  if v / 2 ^ 32 =? 65535 then Some (v mod 2 ^ 32) else None.

Definition format_ipv6 (v : Z) : str :=
  match ipv4_mapped v with
  | Some v4 => lit "::ffff:" ++ format_ipv4 v4
  | None =>
      let groups := ipv6_groups v in
      let '(start, len) := longest_zeros 0 groups (O, O) (O, O) in
      if (1 <? len)%nat then
        format_groups (take start groups) ++ lit "::" ++ format_groups (drop (start + len) groups)
      else format_groups groups
  end.

Definition format_ip_addr (a : IpAddr) : str :=
  match a with IpV4 v => format_ipv4 v | IpV6 v => format_ipv6 v end.

(** * Checks against the documented texts *)

Example parse_ip_samples :
  map parse_ip_addr [lit "10.0.0.1"; lit "01.2.3.4"; lit "1.2.3.256"; lit "::"; lit "::ffff:1.2.3.4";
                     lit "2001:db8::1:0:0:1"; lit "1:2:3:4:5:6:7::"; lit "1::2::3"; lit "12345::"]
  = [Some (IpV4 167772161); None; None; Some (IpV6 0); Some (IpV6 281470698652420);
     Some (IpV6 42540766411282592856904266426630537217);
     Some (IpV6 5192455318486707404433266433261568); None; None].
Proof. vm_compute. reflexivity. Qed.

Example format_ip_samples :
  map format_ip_addr [IpV4 167772161; IpV6 0; IpV6 1; IpV6 281470698652420;
                      IpV6 42540766411282592856904266426630537217; IpV6 (2 ^ 128 - 1)]
  = [lit "10.0.0.1"; lit "::"; lit "::1"; lit "::ffff:1.2.3.4"; lit "2001:db8::1:0:0:1";
     lit "ffff:ffff:ffff:ffff:ffff:ffff:ffff:ffff"].
Proof. vm_compute. reflexivity. Qed.
