(* ===== verification/TunnelModels.v ===== *)
(** Data of tunnel plans: crates/common/src/network/network_models.rs and the
    error type of network_planner.rs.

    An enum is an inductive type, a struct a record whose fields carry a prefix
    for the struct; [is_default] compares with the default as the derived
    [PartialEq] does.  The serde attributes (defaults and omitted fields) concern
    the text form only and are not part of the records. *)

From S2P Require Import Prelude RustStd F64.

Open Scope Z_scope.

(** * Enumerations *)

Inductive TunnelKind :=
| Gre | Gre6 | Ipip | Sit | Fou | Openvpn | Wireguard | TunTap | Custom.

#[export] Instance tunnel_kind_eq_dec : EqDecision TunnelKind.
Proof. solve_decision. Defined.

Inductive TunnelEndpointSide := SideLeft | SideRight.

#[export] Instance tunnel_endpoint_side_eq_dec : EqDecision TunnelEndpointSide.
Proof. solve_decision. Defined.

Inductive TunnelAddressFamily := Ipv4 | Ipv6.

#[export] Instance tunnel_address_family_eq_dec : EqDecision TunnelAddressFamily.
Proof. solve_decision. Defined.

Inductive RuntimeTunnelManager := AgentBuiltin | ExternalObserved | CustomAdapter.

#[export] Instance runtime_tunnel_manager_eq_dec : EqDecision RuntimeTunnelManager.
Proof. solve_decision. Defined.

Inductive RuntimeTunnelFouKind := FouGre | FouGre6 | FouIpip | FouSit.

#[export] Instance runtime_tunnel_fou_kind_eq_dec : EqDecision RuntimeTunnelFouKind.
Proof. solve_decision. Defined.

Definition underlay_family (k : RuntimeTunnelFouKind) : TunnelAddressFamily :=
  match k with FouGre6 => Ipv6 | _ => Ipv4 end.

Definition fou_linux_tunnel_mode (k : RuntimeTunnelFouKind) : str :=
  match k with
  | FouGre => lit "gre"
  | FouGre6 => lit "ip6gre"
  | FouIpip => lit "ipip"
  | FouSit => lit "sit"
  end.

Definition ip_protocol (k : RuntimeTunnelFouKind) : Z :=
  match k with FouGre | FouGre6 => 47 | FouIpip => 4 | FouSit => 41 end.

Definition fou_default_mtu (k : RuntimeTunnelFouKind) : Z :=
  match k with FouGre => 1468 | FouGre6 => 1440 | FouIpip | FouSit => 1472 end.

Definition supports_family (k : RuntimeTunnelFouKind) (family : TunnelAddressFamily) : bool :=
  match k, family with
  | FouGre, _ | FouGre6, _ => true
  | FouIpip, Ipv4 => true
  | FouSit, Ipv6 => true
  | _, _ => false
  end.

Definition iproute2_underlay_family (k : TunnelKind) (fou_kind : RuntimeTunnelFouKind) :
    option TunnelAddressFamily :=
  match k with
  | Gre | Ipip | Sit => Some Ipv4
  | Gre6 => Some Ipv6
  | Fou => Some (underlay_family fou_kind)
  | _ => None
  end.

Definition MIN_TUNNEL_MTU : Z := 68.
Definition MIN_IPV6_TUNNEL_MTU : Z := 1280.

Definition default_tunnel_mtu (kind : TunnelKind) : option Z :=
  match kind with
  | Gre => Some 1476
  | Gre6 => Some 1448
  | Ipip | Sit => Some 1480
  | Fou => Some (fou_default_mtu FouGre)
  | Wireguard => Some 1420
  | Openvpn => Some 1500
  | TunTap | Custom => None
  end.

(** * Link costs *)

Record OspfCostPolicy := mkPolicy {
  latency_weight : f64;
  loss_weight : f64;
  bandwidth_weight : f64;
  preference_bias : f64;
  min_cost : Z;
  max_cost : Z;
}.

Definition ospf_cost_policy_default : OspfCostPolicy :=
  mkPolicy (f64_of_Z 1) (f64_of_Z 400) (f64_of_Z 10) (f64_of_Z 1) 5 65535.

Inductive OspfControlMode := Reviewed | Automatic.

Record TunnelOspfConfig := mkOspf {
  ospf_mode : OspfControlMode;
  planned_latency_ms : f64;
  planned_packet_loss_ratio : f64;
  ospf_preference : f64;
  left_cost_offset : f64;
  right_cost_offset : f64;
  left_cost_multiplier : f64;
  right_cost_multiplier : f64;
  cost_floor : Z;
  ospf_policy : OspfCostPolicy;
  min_cost_delta : Z;
  healthy_windows : Z;
  ospf_left_adapter_definition_id : option str;
  ospf_right_adapter_definition_id : option str;
  legacy_cost_wire : bool;
}.

Definition default_ospf_cost_multiplier : f64 := f64_of_Z 1.
Definition default_ospf_cost_floor : Z := 5.

Definition has_directional_cost_fields (c : TunnelOspfConfig) : bool :=
  negb (legacy_cost_wire c)
  || negb (SpecFloat.SFeqb (left_cost_offset c) (f64_of_Z 0))
  || negb (SpecFloat.SFeqb (right_cost_offset c) (f64_of_Z 0))
  || negb (SpecFloat.SFeqb (left_cost_multiplier c) default_ospf_cost_multiplier)
  || negb (SpecFloat.SFeqb (right_cost_multiplier c) default_ospf_cost_multiplier)
  || negb (cost_floor c =? default_ospf_cost_floor).

Record TunnelObservation := mkObservation {
  obs_latency_ms : f64;
  obs_packet_loss_ratio : f64;
  obs_bandwidth_mbps : Z;
  obs_preference : f64;
}.

(** * Commands, hooks and limits *)

Record RuntimeTunnelCommand := mkCommand {
  cmd_argv : list str;
  cmd_max_timeout_secs : Z;
  cmd_max_output_bytes : Z;
}.

#[export] Instance runtime_tunnel_command_eq_dec : EqDecision RuntimeTunnelCommand.
Proof. solve_decision. Defined.

Record RuntimeTunnelEndpointHooks := mkHooks {
  pre_start : option RuntimeTunnelCommand;
  post_start : option RuntimeTunnelCommand;
  pre_shutdown : option RuntimeTunnelCommand;
  post_shutdown : option RuntimeTunnelCommand;
}.

#[export] Instance runtime_tunnel_endpoint_hooks_eq_dec : EqDecision RuntimeTunnelEndpointHooks.
Proof. solve_decision. Defined.

Definition endpoint_hooks_default : RuntimeTunnelEndpointHooks := mkHooks None None None None.

Record RuntimeTunnelHooks := mkBothHooks {
  hooks_left : RuntimeTunnelEndpointHooks;
  hooks_right : RuntimeTunnelEndpointHooks;
}.

#[export] Instance runtime_tunnel_hooks_eq_dec : EqDecision RuntimeTunnelHooks.
Proof. solve_decision. Defined.

Definition hooks_default : RuntimeTunnelHooks := mkBothHooks endpoint_hooks_default endpoint_hooks_default.
Definition hooks_is_default (h : RuntimeTunnelHooks) : bool := bool_decide (h = hooks_default).
Definition hooks_for_side (h : RuntimeTunnelHooks) (side : TunnelEndpointSide) :
    RuntimeTunnelEndpointHooks :=
  match side with SideLeft => hooks_left h | SideRight => hooks_right h end.

Record RuntimeTunnelTrafficLimit := mkLimit {
  ingress_kbps : option Z;
  egress_kbps : option Z;
  burst_kb : option Z;
}.

#[export] Instance runtime_tunnel_traffic_limit_eq_dec : EqDecision RuntimeTunnelTrafficLimit.
Proof. solve_decision. Defined.

Definition limit_default : RuntimeTunnelTrafficLimit := mkLimit None None None.
Definition limit_is_default (l : RuntimeTunnelTrafficLimit) : bool := bool_decide (l = limit_default).

(** * Driver options *)

Record RuntimeTunnelFouOptions := mkFou {
  fou_port : Z;
  fou_peer_port : Z;
  fou_tunnel_kind : RuntimeTunnelFouKind;
}.

#[export] Instance runtime_tunnel_fou_options_eq_dec : EqDecision RuntimeTunnelFouOptions.
Proof. solve_decision. Defined.

Definition fou_default : RuntimeTunnelFouOptions := mkFou 5555 5555 FouGre.
Definition fou_is_default (o : RuntimeTunnelFouOptions) : bool := bool_decide (o = fou_default).

Inductive RuntimeTunnelWireguardEndpointMode := WgLeft | WgRight | WgBoth.

#[export] Instance wireguard_endpoint_mode_eq_dec : EqDecision RuntimeTunnelWireguardEndpointMode.
Proof. solve_decision. Defined.

Record RuntimeTunnelWireguardOptions := mkWireguard {
  endpoint_mode : RuntimeTunnelWireguardEndpointMode;
  left_listen_port : Z;
  right_listen_port : Z;
  left_keepalive_secs : Z;
  right_keepalive_secs : Z;
}.

#[export] Instance runtime_tunnel_wireguard_options_eq_dec : EqDecision RuntimeTunnelWireguardOptions.
Proof. solve_decision. Defined.

Definition wireguard_default : RuntimeTunnelWireguardOptions := mkWireguard WgBoth 51820 51820 25 25.
Definition wireguard_is_default (o : RuntimeTunnelWireguardOptions) : bool :=
  bool_decide (o = wireguard_default).
Definition listen_port (o : RuntimeTunnelWireguardOptions) (side : TunnelEndpointSide) : Z :=
  match side with SideLeft => left_listen_port o | SideRight => right_listen_port o end.
Definition peer_listen_port (o : RuntimeTunnelWireguardOptions) (side : TunnelEndpointSide) : Z :=
  match side with SideLeft => right_listen_port o | SideRight => left_listen_port o end.
Definition keepalive_secs (o : RuntimeTunnelWireguardOptions) (side : TunnelEndpointSide) : Z :=
  match side with SideLeft => left_keepalive_secs o | SideRight => right_keepalive_secs o end.
Definition configures_peer_endpoint (o : RuntimeTunnelWireguardOptions) (side : TunnelEndpointSide) : bool :=
  match endpoint_mode o with
  | WgBoth => true
  | WgLeft => bool_decide (side = SideRight)
  | WgRight => bool_decide (side = SideLeft)
  end.

Inductive RuntimeTunnelOpenvpnTransport := Udp | Tcp.

#[export] Instance openvpn_transport_eq_dec : EqDecision RuntimeTunnelOpenvpnTransport.
Proof. solve_decision. Defined.

Record RuntimeTunnelOpenvpnOptions := mkOpenvpn {
  ovpn_transport : RuntimeTunnelOpenvpnTransport;
  listener_side : TunnelEndpointSide;
  ovpn_port : Z;
  left_config_override : option str;
  right_config_override : option str;
}.

#[export] Instance runtime_tunnel_openvpn_options_eq_dec : EqDecision RuntimeTunnelOpenvpnOptions.
Proof. solve_decision. Defined.

Definition openvpn_default : RuntimeTunnelOpenvpnOptions := mkOpenvpn Udp SideLeft 1194 None None.
Definition openvpn_is_default (o : RuntimeTunnelOpenvpnOptions) : bool := bool_decide (o = openvpn_default).
Definition config_override (o : RuntimeTunnelOpenvpnOptions) (side : TunnelEndpointSide) : option str :=
  match side with SideLeft => left_config_override o | SideRight => right_config_override o end.

(** * Topology and control *)

Record RuntimeTunnelRoute := mkRoute {
  destination_cidr : str;
  route_via : option str;
  route_interface_name : option str;
  route_metric : option Z;
}.

#[export] Instance runtime_tunnel_route_eq_dec : EqDecision RuntimeTunnelRoute.
Proof. solve_decision. Defined.

Record RuntimeTunnelTopologyIntent := mkTopology {
  topology_version : option str;
  desired_interfaces : list str;
  stale_interfaces : list str;
  topology_routes : list RuntimeTunnelRoute;
  stale_routes : list RuntimeTunnelRoute;
}.

#[export] Instance runtime_tunnel_topology_intent_eq_dec : EqDecision RuntimeTunnelTopologyIntent.
Proof. solve_decision. Defined.

Definition topology_default : RuntimeTunnelTopologyIntent := mkTopology None [] [] [] [].
Definition topology_is_default (t : RuntimeTunnelTopologyIntent) : bool := bool_decide (t = topology_default).

Record RuntimeTunnelControl := mkControl {
  rc_manager : RuntimeTunnelManager;
  rc_left_adapter_definition_id : option str;
  rc_right_adapter_definition_id : option str;
  rc_traffic_limit : RuntimeTunnelTrafficLimit;
  rc_fou : RuntimeTunnelFouOptions;
  rc_wireguard : RuntimeTunnelWireguardOptions;
  rc_openvpn : RuntimeTunnelOpenvpnOptions;
  rc_hooks : RuntimeTunnelHooks;
}.

Definition control_default : RuntimeTunnelControl :=
  mkControl AgentBuiltin None None limit_default fou_default wireguard_default openvpn_default hooks_default.

(** * Adapters and credentials *)

Inductive RoutingCostCommandSource := PlanOverride | ConfigurationPreset.

Record RoutingCostAdapterCommands := mkRoutingAdapter {
  ra_source : RoutingCostCommandSource;
  ra_definition_id : str;
  ra_definition_name : str;
  ra_definition_hash : str;
  ra_status : RuntimeTunnelCommand;
  ra_update : RuntimeTunnelCommand;
}.

Record RuntimeTunnelAdapterCommands := mkTunnelAdapter {
  ta_definition_id : str;
  ta_definition_name : str;
  ta_definition_hash : str;
  ta_startup : option RuntimeTunnelCommand;
  ta_stop : option RuntimeTunnelCommand;
  ta_cleanup : option RuntimeTunnelCommand;
  ta_restart : option RuntimeTunnelCommand;
  ta_status : RuntimeTunnelCommand;
  ta_traffic_limit_apply : option RuntimeTunnelCommand;
}.

Record TunnelWireguardIdentity := mkWireguardIdentity {
  private_key_base64 : str;
  public_key_base64 : str;
}.

Record TunnelOpenvpnIdentity := mkOpenvpnIdentity {
  private_key_pem : str;
  certificate_pem : str;
  issuer_certificate_pem : str;
  certificate_sha256_fingerprint : str;
}.

Inductive TunnelBuiltinCredentials :=
| WireguardCredentials (generation : Z) (l r : TunnelWireguardIdentity)
| OpenvpnCredentials (generation : Z) (l r : TunnelOpenvpnIdentity).

Inductive TunnelEndpointBuiltinCredentials :=
| EndpointWireguard (generation : Z)
    (local_private_key_base64 local_public_key_base64 peer_public_key_base64 : str)
| EndpointOpenvpn (generation : Z)
    (local_private_key_pem local_certificate_pem peer_issuer_certificate_pem
     peer_certificate_sha256_fingerprint : str).

Definition credentials_generation (c : TunnelBuiltinCredentials) : Z :=
  match c with WireguardCredentials g _ _ | OpenvpnCredentials g _ _ => g end.

Definition credentials_endpoint (c : TunnelBuiltinCredentials) (side : TunnelEndpointSide) :
    TunnelEndpointBuiltinCredentials :=
  match c with
  | WireguardCredentials generation l r =>
      let '(local, peer) := match side with SideLeft => (l, r) | SideRight => (r, l) end in
      EndpointWireguard generation (private_key_base64 local) (public_key_base64 local) (public_key_base64 peer)
  | OpenvpnCredentials generation l r =>
      let '(local, peer) := match side with SideLeft => (l, r) | SideRight => (r, l) end in
      EndpointOpenvpn generation (private_key_pem local) (certificate_pem local) (issuer_certificate_pem peer)
        (certificate_sha256_fingerprint peer)
  end.

(** * Addresses *)

Record TunnelAddressPair := mkPair {
  left : str;
  right : str;
  prefix_len : Z;
}.

Record TunnelEndpointAdditionalAddresses := mkExtra {
  extra_ipv4 : list str;
  extra_ipv6 : list str;
}.

Definition endpoint_extra_is_empty (e : TunnelEndpointAdditionalAddresses) : bool :=
  is_empty (extra_ipv4 e) && is_empty (extra_ipv6 e).

Record TunnelAdditionalAddresses := mkExtras {
  extras_left : TunnelEndpointAdditionalAddresses;
  extras_right : TunnelEndpointAdditionalAddresses;
}.

Definition extras_is_empty (e : TunnelAdditionalAddresses) : bool :=
  endpoint_extra_is_empty (extras_left e) && endpoint_extra_is_empty (extras_right e).
Definition extras_for_side (e : TunnelAdditionalAddresses) (side : TunnelEndpointSide) :
    TunnelEndpointAdditionalAddresses :=
  match side with SideLeft => extras_left e | SideRight => extras_right e end.

(** * Plans *)

Record TunnelPlanInput := mkPlanInput {
  in_name : str;
  in_interface_name : str;
  in_kind : TunnelKind;
  in_runtime_control : RuntimeTunnelControl;
  in_runtime_topology : RuntimeTunnelTopologyIntent;
  in_left_client_id : str;
  in_right_client_id : str;
  in_left_remote_underlay : str;
  in_left_local_underlay : option str;
  in_right_remote_underlay : str;
  in_right_local_underlay : option str;
  in_address_pool_cidr : str;
  in_reserved_addresses : list str;
  in_ipv4_tunnel : option TunnelAddressPair;
  in_ipv6_address_pool_cidr : option str;
  in_ipv6_tunnel : option TunnelAddressPair;
  in_additional_addresses : TunnelAdditionalAddresses;
  in_manage_link_local : bool;
  in_latency_primary_family : TunnelAddressFamily;
  in_bandwidth_mbps : Z;
  in_dynamic_bandwidth : bool;
  in_left_mtu : option Z;
  in_right_mtu : option Z;
  in_ospf : option TunnelOspfConfig;
}.

Record TunnelPlan := mkPlan {
  plan_name : str;
  plan_interface_name : str;
  plan_kind : TunnelKind;
  plan_runtime_control : RuntimeTunnelControl;
  plan_runtime_topology : RuntimeTunnelTopologyIntent;
  plan_left_client_id : str;
  plan_right_client_id : str;
  plan_left_remote_underlay : str;
  plan_left_local_underlay : option str;
  plan_right_remote_underlay : str;
  plan_right_local_underlay : option str;
  plan_left_tunnel_address : str;
  plan_right_tunnel_address : str;
  plan_tunnel_prefix_len : Z;
  plan_ipv4_tunnel : option TunnelAddressPair;
  plan_ipv6_tunnel : option TunnelAddressPair;
  plan_additional_addresses : TunnelAdditionalAddresses;
  plan_manage_link_local : bool;
  plan_latency_primary_family : TunnelAddressFamily;
  plan_bandwidth_mbps : Z;
  plan_left_mtu : option Z;
  plan_right_mtu : option Z;
  plan_ospf : option TunnelOspfConfig;
  plan_recommended_ospf_cost : option Z;
  plan_left_recommended_ospf_cost : option Z;
  plan_right_recommended_ospf_cost : option Z;
  plan_conflicts : list str;
}.

Record TunnelEndpointConfig := mkEndpoint {
  e_side : TunnelEndpointSide;
  e_local_client_id : str;
  e_peer_client_id : str;
  e_local_mtu : option Z;
  e_runtime_control : RuntimeTunnelControl;
  e_remote_underlay : str;
  e_local_underlay : option str;
  e_local_tunnel_address : str;
  e_remote_tunnel_address : str;
  e_tunnel_prefix_len : Z;
  e_primary_family : TunnelAddressFamily;
  e_ipv4_tunnel : option TunnelAddressPair;
  e_ipv6_tunnel : option TunnelAddressPair;
  e_additional_addresses : TunnelEndpointAdditionalAddresses;
  e_peer_additional_addresses : TunnelEndpointAdditionalAddresses;
  e_manage_link_local : bool;
}.

(** * Errors *)

Inductive NetworkPlanError :=
| InvalidPlanIdentity
| InvalidTunnelEndpoints
| InvalidUnderlayAddress
| InvalidGre6UnderlayAddress
| InvalidInterfaceName
| InvalidCidr
| AddressPoolTooSmall
| AddressPoolExhausted
| AddressPoolRequired
| InvalidTunnelPrefix
| InvalidPreferredTunnelAddress
| TunnelAddressConflict
| InvalidReservedAddress (value : str)
| TunnelAddressRequired
| InvalidAdditionalAddress (message : str)
| InvalidFouAddressFamily (mode : str)
| UnsupportedRuntimeManagerTunnelKind
| InvalidRuntimeTunnelCommand
| OpenvpnDirectiveOwned (directive : str)
| InvalidRuntimeTunnelConfigPath
| RuntimeTunnelAdapterCommandRequired
| RuntimeTunnelObservedCannotMutate
| RuntimeTunnelTopologyRequiresAgentBuiltin
| InvalidRuntimeTunnelTrafficLimit
| InvalidRuntimeTunnelTopology
| InvalidRuntimeTunnelRoute
| InvalidBandwidthMbps
| InvalidTunnelMtu
| TunnelMtuRequired
| TunnelMtuExternallyOwned
| InvalidOspfConfig.

Abbreviation planned := (result NetworkPlanError).
