(* ===== verification/NetworkCost.v ===== *)
(** Link costs: crates/common/src/network/network_cost.rs.

    The dynamic base cost is computed in binary64 ([ospf_cost]); the endpoint
    policy is then applied in exact decimal arithmetic ([adjusted_ospf_cost]).
    The decimal of a float is the one [serde_json] prints; that printer is the
    parameter [json_f64], of which only the shape of its output is assumed. *)

From Stdlib Require Import SpecFloat.
From S2P Require Import Prelude RustStd F64 TunnelModels.

Open Scope Z_scope.

Definition MIN_TUNNEL_BANDWIDTH_MBPS : Z := 10.
Definition MAX_TUNNEL_BANDWIDTH_MBPS : Z := 10000.
Definition BANDWIDTH_REFERENCE_MBPS : f64 := f64_of_Z 100.

Definition clamp_Z (v lo hi : Z) : Z := if v <? lo then lo else if hi <? v then hi else v.

Definition finite_or (value fallback : f64) : f64 := if f64_is_finite value then value else fallback.

(** The literal [0.1]. *)
Definition f64_tenth : f64 := f64_of_decimal false 1 (-1).

Definition ospf_cost (policy : OspfCostPolicy) (observation : TunnelObservation) : Z :=
  let default_policy := ospf_cost_policy_default in
  let bandwidth_mbps :=
    f64_of_Z (clamp_Z (obs_bandwidth_mbps observation) MIN_TUNNEL_BANDWIDTH_MBPS MAX_TUNNEL_BANDWIDTH_MBPS) in
  let latency_ms := f64_max (finite_or (obs_latency_ms observation) (f64_of_Z 0)) (f64_of_Z 0) in
  let packet_loss_ratio :=
    f64_clamp (finite_or (obs_packet_loss_ratio observation) (f64_of_Z 0)) (f64_of_Z 0) (f64_of_Z 1) in
  let preference := f64_max (finite_or (obs_preference observation) (f64_of_Z 1)) f64_tenth in
  let latency_weight := finite_or (latency_weight policy) (latency_weight default_policy) in
  let loss_weight := finite_or (loss_weight policy) (loss_weight default_policy) in
  let bandwidth_weight := finite_or (bandwidth_weight policy) (bandwidth_weight default_policy) in
  let preference_bias :=
    f64_max (finite_or (preference_bias policy) (preference_bias default_policy)) (f64_of_Z 0) in
  let lowest := Z.min (min_cost policy) (max_cost policy) in
  let highest := Z.max (max_cost policy) (min_cost policy) in
  let bandwidth_penalty :=
    f64_mul bandwidth_weight (f64_sqrt (f64_div BANDWIDTH_REFERENCE_MBPS bandwidth_mbps)) in
  let raw :=
    f64_add (f64_add (f64_mul latency_ms latency_weight) (f64_mul packet_loss_ratio loss_weight))
      bandwidth_penalty in
  let biased := f64_div (f64_mul raw preference_bias) preference in
  f64_to_unsigned u16_max (f64_clamp (f64_round biased) (f64_of_Z lowest) (f64_of_Z highest)).

(** [n.is_multiple_of(d)] for a positive [d]. *)
Definition is_multiple_of (n d : Z) : bool := n mod d =? 0.

Definition ospf_cost_needs_floor_alignment (cost : Z) (config : TunnelOspfConfig) : bool :=
  negb (cost =? min_cost (ospf_policy config))
  && negb (cost =? max_cost (ospf_policy config))
  && negb (is_multiple_of cost (Z.max (cost_floor config) 1)).

Definition effective_bandwidth_mbps (configured : Z) (observed_mbps : option f64) : Z :=
  let configured := clamp_Z configured MIN_TUNNEL_BANDWIDTH_MBPS MAX_TUNNEL_BANDWIDTH_MBPS in
  match observed_mbps with
  | Some observed =>
      if f64_is_finite observed && SFltb (f64_of_Z 0) observed
      then f64_to_unsigned u32_max
             (f64_clamp (f64_round observed) (f64_of_Z MIN_TUNNEL_BANDWIDTH_MBPS) (f64_of_Z configured))
      else configured
  | None => configured
  end.

Definition observed_ospf_cost (policy : OspfCostPolicy) (configured_bandwidth_mbps : Z)
    (latency_ms packet_loss_ratio preference : f64) (observed_throughput_mbps : option f64) : Z * Z :=
  let effective := effective_bandwidth_mbps configured_bandwidth_mbps observed_throughput_mbps in
  (ospf_cost policy (mkObservation latency_ms packet_loss_ratio effective preference), effective).

(** [text.replace('.', "")]. *)
Definition remove_dots (s : str) : str := List.filter (fun c => negb (c =? 46)) s.

(** [BigInt::parse_bytes(_, 10)]. *)
Definition parse_bigint (s : str) : option Z :=
  match s with
  | 43 :: s' => parse_digits s'
  | 45 :: s' => option_map Z.opp (parse_digits s')
  | _ => parse_digits s
  end.

(** The text of a decimal as a ratio; [None] where the code's [expect] fails. *)
Definition decimal_ratio_of_text (text : str) : option (Z * Z) :=
  parts ← match split_once 101 text with
          | Some (mantissa, exponent) => e ← parse_signed i32_min i32_max exponent; Some (mantissa, e)
          | None => Some (text, 0)
          end;
  let '(mantissa, exponent) := parts in
  let fractional_digits :=
    match split_once 46 mantissa with Some (_, fraction) => str_len fraction | None => 0 end in
  coefficient ← parse_bigint (remove_dots mantissa);
  let exponent := exponent - fractional_digits in
  Some (if 0 <=? exponent then (coefficient * 10 ^ exponent, 1) else (coefficient, 10 ^ (- exponent))).

Section Adjusted.

(** [serde_json::to_string] of a finite float. *)
Context (json_f64 : f64 -> str).

Definition decimal_ratio (value : f64) : option (Z * Z) := decimal_ratio_of_text (json_f64 value).

Definition side_offset (config : TunnelOspfConfig) (side : TunnelEndpointSide) : f64 :=
  finite_or match side with SideLeft => left_cost_offset config | SideRight => right_cost_offset config end
    (f64_of_Z 0).

Definition side_multiplier (config : TunnelOspfConfig) (side : TunnelEndpointSide) : f64 :=
  let multiplier :=
    match side with SideLeft => left_cost_multiplier config | SideRight => right_cost_multiplier config end in
  if f64_is_finite multiplier && SFltb (f64_of_Z 0) multiplier then multiplier else f64_of_Z 1.

Definition adjusted_ospf_cost (base : Z) (config : TunnelOspfConfig) (side : TunnelEndpointSide) : option Z :=
  offset ← decimal_ratio (side_offset config side);
  let '(offset_numerator, offset_denominator) := offset in
  multiplier ← decimal_ratio (side_multiplier config side);
  let '(multiplier_numerator, multiplier_denominator) := multiplier in
  let numerator := (base * offset_denominator + offset_numerator) * multiplier_numerator in
  let denominator := offset_denominator * multiplier_denominator in
  let lowest := Z.min (min_cost (ospf_policy config)) (max_cost (ospf_policy config)) in
  let highest := Z.max (max_cost (ospf_policy config)) (min_cost (ospf_policy config)) in
  if numerator <=? 0 then Some lowest
  else
    let step := Z.max (cost_floor config) 1 in
    let floored := numerator / (denominator * step) * step in
    Some (if floored <=? lowest then lowest else if highest <=? floored then highest else floored).

End Adjusted.

(** [routing_cost_update_privilege_payload]; a UUID is its text. *)
Definition cost_text (c : option Z) : str := match c with Some v => to_string v | None => lit "none" end.
Definition routing_cost_update_privilege_payload (plan_id : str) (plan_revision : Z)
    (recommendation_id : str) (left_current_cost right_current_cost : option Z)
    (left_desired_cost right_desired_cost : Z) (left_adapter_definition_hash right_adapter_definition_hash : str) :
    str :=
  join (lit "|") [lit "v4"; plan_id; to_string plan_revision; trim recommendation_id;
    cost_text left_current_cost; cost_text right_current_cost; to_string left_desired_cost;
    to_string right_desired_cost; left_adapter_definition_hash; right_adapter_definition_hash].
