(* ===== verification/NetworkCostProofs.v ===== *)
(** Properties of the link costs.

    The adjusted cost is the greatest multiple of the configured step that does
    not exceed the exact product, clamped to the policy's range; so it is
    monotone in the base cost and never reported as off the grid.  The text an
    operator signs for a cost update determines the update. *)

From Stdlib Require Import SpecFloat.
From S2P Require Import Prelude RustStd F64 TunnelModels NetworkCost.

Open Scope Z_scope.

(** * Decimal texts *)

Definition f64_sign (v : f64) : bool :=
  match v with S754_zero s | S754_infinity s | S754_finite s _ _ => s | S754_nan => false end.

Definition minus_text (neg : bool) : str := if neg then [45] else [].
Definition fraction_text (f : str) : str := if is_empty f then [] else 46 :: f.
Definition exponent_text (e : option (bool * str)) : str :=
  match e with Some (neg, ds) => 101 :: minus_text neg ++ ds | None => [] end.
Definition signed (neg : bool) (v : Z) : Z := if neg then - v else v.
Definition exponent_value (e : option (bool * str)) : Z :=
  match e with Some (neg, ds) => signed neg (digits_val ds) | None => 0 end.

(** A JSON number: sign, digits, an optional fraction and exponent. *)
Definition decimal_text (neg : bool) (w f : str) (e : option (bool * str)) : str :=
  minus_text neg ++ w ++ fraction_text f ++ exponent_text e.

Definition decimal_wf (w f : str) (e : option (bool * str)) : Prop :=
  w <> [] /\ all_digits w = true /\ all_digits f = true /\
  match e with
  | Some (_, ds) => ds <> [] /\ all_digits ds = true /\ digits_val ds <= 1000
  | None => True
  end.

(** What [serde_json] documents of the number it prints for a finite float. *)
Class JsonF64 (json_f64 : f64 -> str) : Prop :=
  json_f64_text v : f64_is_finite v = true ->
    exists w f e, decimal_wf w f e /\ json_f64 v = decimal_text (f64_sign v) w f e.

Lemma minus_text_not_in c neg : c <> 45 -> c ∉ minus_text neg.
Proof. intros H. destruct neg; [by apply not_elem_of_cons; split; [|apply not_elem_of_nil] | apply not_elem_of_nil]. Qed.

Lemma remove_dots_digits s : all_digits s = true -> remove_dots s = s.
Proof.
  intros H%all_digits_Forall. unfold remove_dots.
  induction H as [|c s Hc _ IH]; [done|]. cbn.
  destruct (Z.eqb_spec c 46); [lia|]. cbn. by rewrite IH.
Qed.

Lemma parse_bigint_digits neg s : s <> [] -> all_digits s = true ->
  parse_bigint (minus_text neg ++ s) = Some (signed neg (digits_val s)).
Proof.
  intros Hne Hd. pose proof (parse_digits_all s Hne Hd) as Hp.
  destruct neg; cbn [minus_text app].
  - cbn [parse_bigint]. by rewrite Hp.
  - destruct s as [|c s]; [done|]. pose proof (all_digits_head _ _ Hd).
    cbn [signed]. rewrite <- Hp. unfold parse_bigint. repeat case_match; simplify_eq; lia || done.
Qed.

Lemma parse_signed_exponent neg ds : ds <> [] -> all_digits ds = true -> digits_val ds <= 1000 ->
  parse_signed i32_min i32_max (minus_text neg ++ ds) = Some (signed neg (digits_val ds)).
Proof.
  intros Hne Hd Hb. pose proof (digits_val_nonneg ds Hd).
  pose proof (parse_bigint_digits neg ds Hne Hd) as Hp. unfold parse_signed.
  change (match minus_text neg ++ ds with
          | [] => parse_digits (minus_text neg ++ ds)
          | 43 :: s' => parse_digits s'
          | 45 :: s' => option_map Z.opp (parse_digits s')
          | _ :: _ => parse_digits (minus_text neg ++ ds) end)
    with (parse_bigint (minus_text neg ++ ds)).
  rewrite Hp. cbn [bounded].
  assert (in_range i32_min i32_max (signed neg (digits_val ds)) = true) as ->; [|done].
  unfold in_range, i32_min, i32_max, signed.
  apply andb_true_intro; split; apply Z.leb_le; destruct neg; lia.
Qed.

(** The ratio read back from a decimal text is its value: coefficient and power
    of ten. *)
Lemma decimal_ratio_of_decimal neg w f e : decimal_wf w f e ->
  decimal_ratio_of_text (decimal_text neg w f e) =
  let coefficient := signed neg (digits_val (w ++ f)) in
  let exponent := exponent_value e - vec_len f in
  Some (if 0 <=? exponent then (coefficient * 10 ^ exponent, 1) else (coefficient, 10 ^ (- exponent))).
Proof.
  intros (Hw & Hwd & Hfd & He). unfold decimal_ratio_of_text, decimal_text.
  assert (Hm : 101 ∉ minus_text neg ++ w ++ fraction_text f).
  { unfold minus_text, fraction_text. rewrite !not_elem_of_app. repeat split.
    - by apply minus_text_not_in.
    - apply digits_not_in; [done|lia].
    - destruct (is_empty f); [apply not_elem_of_nil|].
      apply not_elem_of_cons; split; [lia|]. apply digits_not_in; [done|lia]. }
  assert (Hparts : match split_once 101 (minus_text neg ++ w ++ fraction_text f ++ exponent_text e) with
          | Some (mantissa, exponent) => e ← parse_signed i32_min i32_max exponent; Some (mantissa, e)
          | None => Some (minus_text neg ++ w ++ fraction_text f ++ exponent_text e, 0)
          end = Some (minus_text neg ++ w ++ fraction_text f, exponent_value e)).
  { destruct e as [[eneg ds]|]; cbn [exponent_text exponent_value].
    - destruct He as (? & ? & ?).
      rewrite (proj2 (split_once_spec 101 _ (minus_text neg ++ w ++ fraction_text f) (minus_text eneg ++ ds))).
      + by rewrite parse_signed_exponent.
      + split; [by rewrite <- !app_assoc|done].
    - rewrite app_nil_r, (proj2 (split_once_None _ _)) by done. done. }
  rewrite Hparts. cbn [mbind option_bind].
  assert (Hdots : remove_dots (minus_text neg ++ w ++ fraction_text f) = minus_text neg ++ w ++ f).
  { unfold remove_dots. rewrite !List.filter_app. fold (remove_dots w).
    rewrite (remove_dots_digits w) by done. do 2 f_equal; [by destruct neg|].
    unfold fraction_text. destruct f as [|c f]; [done|].
    change (remove_dots (c :: f) = c :: f). by apply remove_dots_digits. }
  rewrite Hdots, parse_bigint_digits; [|by destruct w|by rewrite all_digits_app, Hwd, Hfd].
  assert (Hfrac : match split_once 46 (minus_text neg ++ w ++ fraction_text f) with
                  | Some (_, fraction) => str_len fraction | None => 0 end = vec_len f).
  { assert (46 ∉ minus_text neg ++ w).
    { rewrite not_elem_of_app. split; [|apply digits_not_in; [done|lia]].
      by apply minus_text_not_in. }
    unfold fraction_text. destruct f as [|c f].
    - cbn [is_empty]. rewrite app_nil_r, (proj2 (split_once_None _ _)) by done. done.
    - cbn [is_empty].
      rewrite (proj2 (split_once_spec 46 _ (minus_text neg ++ w) (c :: f))); [by apply str_len_digits|].
      split; [by rewrite <- app_assoc|done]. }
  cbn [mbind option_bind]. by rewrite Hfrac.
Qed.

(** * The adjusted cost *)

Section Adjusted.

Context (json_f64 : f64 -> str) `{!JsonF64 json_f64}.

Lemma side_offset_finite config side : f64_is_finite (side_offset config side) = true.
Proof. unfold side_offset, finite_or. destruct side; case_match; done. Qed.

Lemma side_multiplier_positive config side :
  f64_is_finite (side_multiplier config side) = true /\ f64_sign (side_multiplier config side) = false.
Proof.
  unfold side_multiplier. set (m := match side with SideLeft => _ | SideRight => _ end).
  destruct (f64_is_finite m) eqn:Ef; [|done]. destruct (SFltb (f64_of_Z 0) m) eqn:El; [|done].
  cbn. split; [done|]. destruct m as [[]| | |[] ? ?]; done.
Qed.

Lemma signed_nonneg s : all_digits s = true -> 0 <= signed false (digits_val s).
Proof. apply digits_val_nonneg. Qed.

(** Every finite float has a ratio with a positive denominator; that of a float
    without sign is not negative. *)
Lemma decimal_ratio_finite v : f64_is_finite v = true ->
  exists n d, decimal_ratio json_f64 v = Some (n, d) /\ 0 < d /\ (f64_sign v = false -> 0 <= n).
Proof.
  intros Hv. destruct (json_f64_text v Hv) as (w & f & e & Hwf & Ht).
  unfold decimal_ratio. rewrite Ht, (decimal_ratio_of_decimal _ _ _ _ Hwf). cbv zeta.
  destruct Hwf as (_ & Hwd & Hfd & _).
  assert (f64_sign v = false -> 0 <= signed (f64_sign v) (digits_val (w ++ f))).
  { intros ->. apply signed_nonneg. by rewrite all_digits_app, Hwd, Hfd. }
  destruct (Z.leb_spec 0 (exponent_value e - vec_len f)).
  - eexists _, _. split; [done|]. split; [lia|]. intros Hs. specialize (H Hs). nia.
  - eexists _, _. split; [done|]. split; [apply Z.pow_pos_nonneg; lia|done].
Qed.

(** The exact value [(base + offset) * multiplier] as a fraction. *)
Definition exact_cost (base : Z) (config : TunnelOspfConfig) (side : TunnelEndpointSide) : option (Z * Z) :=
  offset ← decimal_ratio json_f64 (side_offset config side);
  multiplier ← decimal_ratio json_f64 (side_multiplier config side);
  Some ((base * offset.2 + offset.1) * multiplier.1, offset.2 * multiplier.2).

Definition cost_step (config : TunnelOspfConfig) : Z := Z.max (cost_floor config) 1.
Definition lowest_cost (config : TunnelOspfConfig) : Z :=
  Z.min (min_cost (ospf_policy config)) (max_cost (ospf_policy config)).
Definition highest_cost (config : TunnelOspfConfig) : Z :=
  Z.max (max_cost (ospf_policy config)) (min_cost (ospf_policy config)).

(** The whole adjustment as one floor and one clamp. *)
Lemma adjusted_ospf_cost_floor base config side : 0 <= lowest_cost config ->
  exists num den,
    exact_cost base config side = Some (num, den) /\ 0 < den /\
    adjusted_ospf_cost json_f64 base config side =
    Some (Z.max (lowest_cost config)
            (Z.min (highest_cost config) (num / (den * cost_step config) * cost_step config))).
Proof.
  intros Hlow. unfold adjusted_ospf_cost, exact_cost.
  destruct (decimal_ratio_finite _ (side_offset_finite config side)) as (on & od & -> & Hod & _).
  destruct (side_multiplier_positive config side) as [Hmf Hms].
  destruct (decimal_ratio_finite _ Hmf) as (mn & md & -> & Hmd & Hmn).
  specialize (Hmn Hms). cbn [mbind option_bind fst snd].
  eexists _, _. split; [done|]. split; [nia|].
  fold (lowest_cost config) (highest_cost config) (cost_step config).
  set (num := (base * od + on) * mn). set (den := od * md).
  assert (0 < cost_step config) by (unfold cost_step; lia).
  assert (0 < den) by (unfold den; nia).
  assert (lowest_cost config <= highest_cost config) by (unfold lowest_cost, highest_cost; lia).
  destruct (Z.leb_spec num 0).
  - f_equal. assert (num / (den * cost_step config) <= 0).
    { apply Z.div_le_upper_bound; nia. }
    assert (num / (den * cost_step config) * cost_step config <= 0) by nia. lia.
  - f_equal. set (fl := num / (den * cost_step config) * cost_step config).
    destruct (Z.leb_spec fl (lowest_cost config)); [lia|].
    destruct (Z.leb_spec (highest_cost config) fl); lia.
Qed.

(** The adjusted cost is defined for every configuration, is the greatest
    multiple of the configured step that does not exceed the exact decimal value
    of [(base + offset) * multiplier], clamped to the policy's range, and is
    never reported as off the grid. *)
Theorem adjusted_ospf_cost_exact base config side : 0 <= lowest_cost config ->
  exists num den k cost,
    exact_cost base config side = Some (num, den) /\ 0 < den /\
    k * cost_step config * den <= num < (k + 1) * cost_step config * den /\
    adjusted_ospf_cost json_f64 base config side = Some cost /\
    cost = Z.max (lowest_cost config) (Z.min (highest_cost config) (k * cost_step config)) /\
    lowest_cost config <= cost <= highest_cost config /\
    ospf_cost_needs_floor_alignment cost config = false.
Proof.
  intros Hlow. destruct (adjusted_ospf_cost_floor base config side Hlow) as (num & den & He & Hd & ->).
  set (step := cost_step config). set (k := num / (den * step)).
  assert (Hstep : 0 < step) by (unfold step, cost_step; lia).
  assert (lowest_cost config <= highest_cost config) by (unfold lowest_cost, highest_cost; lia).
  exists num, den, k. eexists. split; [done|]. split; [done|]. split.
  { assert (0 < den * step) by nia.
    pose proof (Z.div_mod num (den * step) ltac:(lia)).
    pose proof (Z.mod_pos_bound num (den * step) ltac:(lia)). fold k in H1. nia. }
  split; [done|]. split; [done|]. split; [lia|].
  apply not_true_is_false. unfold ospf_cost_needs_floor_alignment, is_multiple_of. intros H0. bools.
  fold (cost_step config) in *. fold step in H1.
  assert (Hc : Z.max (lowest_cost config) (Z.min (highest_cost config) (k * step)) = k * step).
  { unfold lowest_cost, highest_cost in *. lia. }
  rewrite Hc in H1. by rewrite Z.mod_mul in H1 by lia.
Qed.

(** A higher base never gives a lower adjusted cost. *)
Lemma adjusted_ospf_cost_monotone base base' config side c c' :
  0 <= lowest_cost config -> base <= base' ->
  adjusted_ospf_cost json_f64 base config side = Some c ->
  adjusted_ospf_cost json_f64 base' config side = Some c' -> c <= c'.
Proof.
  intros Hlow Hb Hc Hc'.
  destruct (adjusted_ospf_cost_floor base config side Hlow) as (n & d & He & Hd & E).
  destruct (adjusted_ospf_cost_floor base' config side Hlow) as (n' & d' & He' & Hd' & E').
  rewrite E in Hc. rewrite E' in Hc'. injection Hc as <-. injection Hc' as <-.
  unfold exact_cost in He, He'.
  destruct (decimal_ratio_finite _ (side_offset_finite config side)) as (on & od & Eo & Hod & _).
  destruct (side_multiplier_positive config side) as [Hmf Hms].
  destruct (decimal_ratio_finite _ Hmf) as (mn & md & Em & Hmd & Hmn). specialize (Hmn Hms).
  rewrite Eo, Em in He, He'. cbn [mbind option_bind fst snd] in He, He'.
  injection He as <- <-. injection He' as <- <-.
  assert (0 < cost_step config) by (unfold cost_step; lia).
  assert (((base * od + on) * mn) / (od * md * cost_step config)
          <= ((base' * od + on) * mn) / (od * md * cost_step config)).
  { apply Z.div_le_mono; [apply Z.mul_pos_pos; lia|]. apply Z.mul_le_mono_nonneg_r; [lia|]. nia. }
  assert (((base * od + on) * mn) / (od * md * cost_step config) * cost_step config
          <= ((base' * od + on) * mn) / (od * md * cost_step config) * cost_step config) by nia.
  lia.
Qed.

End Adjusted.

(** * The signed payload of a cost update *)

Lemma to_string_no_bar n : 124 ∉ to_string n.
Proof.
  destruct (Z.leb_spec 0 n) as [H|H].
  - destruct (to_string_spec n H) as (Hd & _). apply digits_not_in; [done|lia].
  - assert (Hs : to_string n = 45 :: to_string (- n)).
    { unfold to_string. rewrite (proj2 (Z.ltb_lt n 0)), (proj2 (Z.ltb_ge (- n) 0)) by lia. done. }
    rewrite Hs. destruct (to_string_spec (- n)) as (Hd & _); [lia|].
    apply not_elem_of_cons. split; [lia|]. apply digits_not_in; [done|lia].
Qed.

Lemma cost_text_no_bar c : 124 ∉ cost_text c.
Proof.
  destruct c as [n|]; [apply to_string_no_bar|].
  intros H%contains_char_spec. by vm_compute in H.
Qed.

Lemma cost_text_inj a b : cost_text a = cost_text b -> a = b.
Proof.
  assert (Hno : forall n, to_string n <> lit "none").
  { intros n H. assert (Hh : head (to_string n) = Some 110) by (rewrite H; done).
    destruct (Z.leb_spec 0 n) as [Hn|Hn].
    - destruct (to_string_spec n Hn) as (Hd & _). destruct (to_string n); [done|].
      apply all_digits_head in Hd. cbn in Hh. simplify_eq. lia.
    - unfold to_string in Hh. rewrite (proj2 (Z.ltb_lt n 0)) in Hh by lia. done. }
  destruct a as [a|], b as [b|]; cbn; intros E; [f_equal; by apply to_string_inj| | |done].
  - by apply Hno in E.
  - by symmetry in E; apply Hno in E.
Qed.

(** The fields before and after the free-form recommendation. *)
Definition payload_front (plan_id : str) (plan_revision : Z) : list str :=
  [lit "v4"; plan_id; to_string plan_revision].
Definition payload_back (lc rc : option Z) (ld rd : Z) (lh rh : str) : list str :=
  [cost_text lc; cost_text rc; to_string ld; to_string rd; lh; rh].

Lemma payload_split plan_id rev rec lc rc ld rd lh rh :
  124 ∉ plan_id -> 124 ∉ lh -> 124 ∉ rh ->
  split 124 (routing_cost_update_privilege_payload plan_id rev rec lc rc ld rd lh rh)
  = payload_front plan_id rev ++ split 124 (trim rec) ++ payload_back lc rc ld rd lh rh.
Proof.
  intros Hp Hl Hr. unfold routing_cost_update_privilege_payload.
  assert (E : forall a l, l <> [] -> join (lit "|") (a :: l) = a ++ 124 :: join (lit "|") l).
  { intros a l Hne. by rewrite join_cons. }
  rewrite !E by done. rewrite (split_app 124 (lit "v4")) by (intros H%contains_char_spec; by vm_compute in H).
  rewrite (split_app 124 plan_id), (split_app 124 (to_string rev)) by (done || apply to_string_no_bar).
  rewrite split_concat, !split_app by (apply cost_text_no_bar || apply to_string_no_bar || done).
  change (join (lit "|") [rh]) with rh. rewrite (split_no_sep 124 rh) by done. reflexivity.
Qed.

(** The text an operator's privilege assertion covers determines the cost
    update: two updates with the same payload are the same update, whatever the
    recommendation id contains (it enters trimmed). *)
Theorem cost_update_payload_injective plan_id rev rec lc rc ld rd lh rh
    plan_id' rev' rec' lc' rc' ld' rd' lh' rh' :
  124 ∉ plan_id -> 124 ∉ lh -> 124 ∉ rh -> 124 ∉ plan_id' -> 124 ∉ lh' -> 124 ∉ rh' ->
  routing_cost_update_privilege_payload plan_id rev rec lc rc ld rd lh rh
  = routing_cost_update_privilege_payload plan_id' rev' rec' lc' rc' ld' rd' lh' rh' ->
  plan_id = plan_id' /\ rev = rev' /\ trim rec = trim rec' /\ lc = lc' /\ rc = rc' /\
  ld = ld' /\ rd = rd' /\ lh = lh' /\ rh = rh'.
Proof.
  intros Hp Hl Hr Hp' Hl' Hr' E%(f_equal (split 124)).
  rewrite !payload_split in E by done.
  apply app_inj_1 in E as [Ef E]; [|done]. apply app_inj_2 in E as [Er Eb]; [|done].
  unfold payload_front, payload_back in *. simplify_eq.
  apply (f_equal (join [124])) in Er. rewrite !join_split in Er.
  repeat split; try done; by (apply to_string_inj || apply cost_text_inj).
Qed.

(** * Witnesses *)

(** A printer that always writes [1.0], enough to instantiate the law. *)
Definition one_text (_ : f64) : str := lit "1.0".

#[local] Instance signed_one_json : JsonF64 (fun v => minus_text (f64_sign v) ++ one_text v).
Proof.
  intros v _. exists [49], [48], None. split; [|done].
  repeat split; done.
Qed.

Definition ex_ospf : TunnelOspfConfig :=
  mkOspf Automatic (f64_of_Z 20) (f64_of_Z 0) (f64_of_Z 1) (f64_of_Z 0) (f64_of_Z 0) (f64_of_Z 1) (f64_of_Z 1)
    5 ospf_cost_policy_default 5 2 None None false.

Lemma adjusted_ospf_cost_exact_witness :
  0 <= lowest_cost ex_ospf /\
  exists num den k cost,
    exact_cost (fun v => minus_text (f64_sign v) ++ one_text v) 113 ex_ospf SideLeft = Some (num, den) /\ 0 < den /\
    k * cost_step ex_ospf * den <= num < (k + 1) * cost_step ex_ospf * den /\
    adjusted_ospf_cost (fun v => minus_text (f64_sign v) ++ one_text v) 113 ex_ospf SideLeft = Some cost /\
    cost = Z.max (lowest_cost ex_ospf) (Z.min (highest_cost ex_ospf) (k * cost_step ex_ospf)) /\
    lowest_cost ex_ospf <= cost <= highest_cost ex_ospf /\
    ospf_cost_needs_floor_alignment cost ex_ospf = false.
Proof.
  split; [vm_compute; discriminate|].
  apply (adjusted_ospf_cost_exact (fun v => minus_text (f64_sign v) ++ one_text v) 113 ex_ospf SideLeft).
  vm_compute; discriminate.
Defined.

Lemma cost_update_payload_injective_witness :
  124 ∉ lit "6f" /\ 124 ∉ lit "aa" /\
  routing_cost_update_privilege_payload (lit "6f") 3 (lit " a|b ") None (Some 20) 25 30 (lit "aa") (lit "aa")
  = routing_cost_update_privilege_payload (lit "6f") 3 (lit "a|b") None (Some 20) 25 30 (lit "aa") (lit "aa") /\
  trim (lit " a|b ") = trim (lit "a|b").
Proof.
  assert (H1 : 124 ∉ lit "6f") by (intros H%contains_char_spec; by vm_compute in H).
  assert (H2 : 124 ∉ lit "aa") by (intros H%contains_char_spec; by vm_compute in H).
  split; [exact H1|]. split; [exact H2|]. split; [vm_compute; reflexivity|].
  refine (proj1 (proj2 (proj2 (cost_update_payload_injective (lit "6f") 3 (lit " a|b ") None (Some 20) 25 30
    (lit "aa") (lit "aa") (lit "6f") 3 (lit "a|b") None (Some 20) 25 30 (lit "aa") (lit "aa") H1 H2 H2 H1 H2 H2 _)))).
  vm_compute. reflexivity.
Defined.

(** A policy the planner accepts whose weighted latency overflows and whose bias
    is zero: the product is not a number, and the cost is 0, below the minimum. *)
Example overflowing_policy_cost_below_minimum :
  let policy := mkPolicy (f64_of_decimal false 1 308) (f64_of_Z 400) (f64_of_Z 10) (f64_of_Z 0) 5 65535 in
  f64_is_finite (latency_weight policy) = true /\
  ospf_cost policy (mkObservation (f64_of_Z 60000) (f64_of_Z 0) 100 (f64_of_Z 1)) = 0.
Proof. split; vm_compute; reflexivity. Qed.
