(* ===== verification/OpenvpnOverride.v ===== *)
(** Operator overrides of the generated OpenVPN configuration:
    crates/common/src/network/network_runtime_render.rs.

    An operator may add native directives to the configuration of an
    agent-managed OpenVPN tunnel, but not those the agent owns (addresses,
    endpoints, identity, process control).  The code reads just enough of the
    native syntax to name the directive of each line; the theorem of this file
    says that merging an accepted override leaves the owned part of the
    configuration exactly as generated. *)

From S2P Require Import Prelude RustStd TunnelModels.

Open Scope Z_scope.

(** * Directives *)

(** One word of a line: quotes and backslashes as the native parser has them;
    the white space that ends it is consumed. *)
Fixpoint read_token (quote : option char) (token : str) (chars : str) : str * str :=
  match chars with
  | [] => (token, [])
  | ch :: rest =>
      match quote with
      | None =>
          if (ch =? 34) || (ch =? 39) then read_token (Some ch) token rest
          else if ch =? 92 then
            match rest with
            | next :: rest' => read_token None (token ++ [next]) rest'
            | [] => (token, [])
            end
          else if is_whitespace ch then (token, rest)
          else read_token None (token ++ [ch]) rest
      | Some delimiter =>
          if delimiter =? ch then read_token None token rest
          else if ch =? 92 then
            match rest with
            | next :: rest' => read_token (Some delimiter) (token ++ [next]) rest'
            | [] => (token, [])
            end
          else read_token (Some delimiter) (token ++ [ch]) rest
      end
  end.

(** At most [n] words; a [#] or [;] that starts a word starts a comment. *)
Fixpoint read_tokens (n : nat) (chars : str) : list str :=
  match n with
  | O => []
  | S n' =>
      match drop_while is_whitespace chars with
      | [] => []
      | ch :: rest =>
          if (ch =? 35) || (ch =? 59) then []
          else let '(token, rest) := read_token None [] (ch :: rest) in
               token :: read_tokens n' rest
      end
  end.

Definition bare_directive (directive : str) : str :=
  trim_end_matches 62 (trim_start_matches 47 (trim_start_matches 60 directive)).

Definition openvpn_directive (line : str) : option str :=
  match read_tokens 3 (drop_while (Z.eqb 65279) line) with
  | [] => None
  | token :: tokens =>
      let first := trim_start_matches_str (lit "--") token in
      match tokens with
      | second :: tokens' =>
          if str_eqb first (lit "setenv") && str_eqb second (lit "opt") then
            match tokens' with
            | third :: _ => Some (bare_directive (trim_start_matches_str (lit "--") third))
            | [] => None
            end
          else Some (bare_directive first)
      | [] => Some (bare_directive first)
      end
  end.

Definition openvpn_directive_is_owned (directive : str) : bool :=
  one_of directive
    [ "mode"; "dev"; "dev-type"; "dev-node"; "topology"; "proto";
      "local"; "remote"; "port"; "lport"; "rport"; "bind"; "nobind";
      "tun-mtu"; "ifconfig"; "ifconfig-ipv6";
      "ifconfig-noexec"; "ifconfig-pool"; "ifconfig-pool-persist"; "ifconfig-ipv6-pool";
      "route"; "route-ipv6"; "route-gateway"; "route-ipv6-gateway"; "route-noexec";
      "redirect-gateway"; "redirect-private"; "client"; "server"; "server-ipv6";
      "server-bridge"; "pull"; "push"; "client-config-dir"; "client-connect";
      "ca"; "capath"; "cert"; "extra-certs"; "key"; "pkcs12"; "secret";
      "tls-server"; "tls-client"; "remote-cert-tls"; "remote-cert-ku";
      "remote-cert-eku"; "ns-cert-type"; "verify-x509-name"; "peer-fingerprint";
      "tls-auth"; "tls-crypt"; "tls-crypt-v2"; "dh"; "auth-user-pass";
      "cryptoapicert"; "pkcs11-id"; "pkcs11-providers"; "management-external-key";
      "daemon"; "writepid"; "status";
      "up"; "down"; "up-delay"; "up-restart"; "down-pre"; "route-up";
      "route-pre-down"; "ipchange"; "iproute"; "tls-verify"; "tls-crypt-v2-verify";
      "auth-user-pass-verify"; "client-disconnect"; "learn-address"; "plugin";
      "config"; "connection" ].

#[local] Arguments openvpn_directive_is_owned : simpl never.

(** The directives of a text, line by line. *)
Definition directives (text : str) : list str := omap openvpn_directive (lines text).

Fixpoint refuse_owned (l : list str) : planned unit :=
  match l with
  | [] => Ok tt
  | directive :: l' =>
      if openvpn_directive_is_owned directive then Err (OpenvpnDirectiveOwned directive)
      else refuse_owned l'
  end.

Definition validate_openvpn_config_override (text : str) : planned unit := refuse_owned (directives text).

(** A generated line stays unless the override names its directive. *)
Definition keeps_line (overridden : list str) (line : str) : bool :=
  match openvpn_directive line with
  | Some directive => negb (existsb (str_eqb directive) overridden)
  | None => true
  end.

Definition merge_openvpn_config_override (generated : str) (overrides : option str) : planned str :=
  match overrides with
  | Some overrides =>
      if is_empty (trim overrides) then Ok generated
      else
        validate_openvpn_config_override overrides;;
        let result := join [10] (List.filter (keeps_line (directives overrides)) (lines generated)) in
        let result := if is_empty result then result else result ++ [10] in
        let result := result ++ overrides in
        Ok (if ends_with_char 10 result then result else result ++ [10])
  | None => Ok generated
  end.

(** * Lines of glued texts *)

Definition line_wf (line : str) : Prop := 10 ∉ line.

Lemma lines_of_last (pieces : list str) : lines_of (pieces ++ [[]]) = map strip_cr pieces.
Proof.
  induction pieces as [|p pieces IH]; [done|]. destruct pieces as [|q pieces]; [done|].
  change (lines_of ((p :: q :: pieces) ++ [[]])) with (strip_cr p :: lines_of ((q :: pieces) ++ [[]])).
  by rewrite IH.
Qed.

Lemma strip_cr_id line : 13 ∉ line -> strip_cr line = line.
Proof.
  intros H. unfold strip_cr. destruct (rev line) as [|c r] eqn:E; [done|].
  assert (c <> 13).
  { intros ->. apply H. rewrite <- (rev_involutive line), E. apply elem_of_app. right. by left. }
  repeat case_match; simplify_eq; done.
Qed.

Lemma lines_of_cr_free (pieces : list str) : Forall (fun p => 13 ∉ p) pieces ->
  exists last, pieces = lines_of pieces ++ last /\ (last = [] \/ last = [[]]).
Proof.
  induction 1 as [|p pieces Hp _ IH]; [by exists []; split; [|left]|].
  destruct pieces as [|q pieces].
  - destruct p as [|c p]; cbn; [exists [[]] | exists []]; auto.
  - destruct IH as (last & E & Hl). exists last. split; [|done].
    change (lines_of (p :: q :: pieces)) with (strip_cr p :: lines_of (q :: pieces)).
    rewrite strip_cr_id by done. cbn [app]. by rewrite <- E.
Qed.

Lemma lines_no_newline s : Forall line_wf (lines s).
Proof.
  unfold lines. pose proof (split_parts 10 s) as H. revert H.
  generalize (split 10 s). intros pieces. induction 1 as [|p pieces Hp H IH]; [constructor|].
  destruct pieces as [|q pieces].
  - cbn. destruct (is_empty p); [constructor|]. by repeat constructor.
  - change (lines_of (p :: q :: pieces)) with (strip_cr p :: lines_of (q :: pieces)).
    constructor; [|done]. unfold line_wf, strip_cr. repeat case_match; try done.
    subst. intros Hin. apply Hp. rewrite <- (rev_involutive p), H0. cbn. apply elem_of_app. by left.
Qed.

Lemma lines_cr_free s : 13 ∉ s -> Forall (fun l => 13 ∉ l) (lines s).
Proof.
  intros H. assert (Hp : Forall (fun p => 13 ∉ p) (split 10 s)).
  { apply Forall_forall. intros p Hp Hc. apply H. rewrite <- (join_split 10 s).
    revert Hp. generalize (split 10 s). intros pieces Hp.
    induction pieces as [|q pieces IH]; [by apply elem_of_nil in Hp|].
    destruct pieces as [|q' pieces].
    - apply list_elem_of_singleton in Hp. by subst.
    - rewrite join_cons by done. apply elem_of_cons in Hp as [->|Hp].
      + apply elem_of_app. by left.
      + apply elem_of_app. right. apply elem_of_app. right. by apply IH. }
  unfold lines. destruct (lines_of_cr_free _ Hp) as (last & E & _). rewrite E in Hp.
  by apply Forall_app in Hp as [? _].
Qed.

(** The lines of a text glued from lines and a rest. *)
Lemma lines_glue ls rest : ls <> [] -> Forall line_wf ls -> Forall (fun l => 13 ∉ l) ls ->
  lines (join [10] ls ++ 10 :: rest) = ls ++ lines rest.
Proof.
  intros Hne Hwf Hcr. unfold lines. rewrite split_concat, split_join by done.
  pose proof (split_nonempty 10 rest) as Hr. revert Hr. generalize (split 10 rest). intros pieces Hr.
  clear Hwf Hne. induction Hcr as [|l ls Hl _ IH]; [done|].
  cbn [app]. assert (ls ++ pieces <> []) by (destruct ls; done).
  destruct (ls ++ pieces) as [|q qs] eqn:E; [done|].
  change (lines_of (l :: q :: qs)) with (strip_cr l :: lines_of (q :: qs)).
  by rewrite strip_cr_id, IH.
Qed.

Lemma last_app_cons {A} (p j : list A) a : j <> [] -> last (p ++ a :: j) = last j.
Proof.
  intros Hj. rewrite last_app, last_cons. destruct (last j) eqn:E; [done|].
  by apply last_None in E.
Qed.

(** Ending a text with a newline leaves its lines. *)
Lemma lines_newline s : s <> [] -> ends_with_char 10 s = false -> ends_with_char 13 s = false ->
  lines (s ++ [10]) = lines s.
Proof.
  intros Hne H10 H13. unfold lines. rewrite (split_concat 10 s []). cbn [split].
  rewrite lines_of_last.
  assert (Hlast : forall c, ends_with_char c s = false -> last s <> Some c).
  { intros c Hc Hl. apply last_Some in Hl as [l' ->]. unfold ends_with_char, strip_suffix_char in Hc.
    rewrite rev_app_distr in Hc. cbn in Hc. rewrite Z.eqb_refl in Hc. bools. by destruct Hc. }
  pose proof (Hlast 10 H10) as L10. pose proof (Hlast 13 H13) as L13. clear Hlast H10 H13.
  rewrite <- (join_split 10 s) in Hne, L10, L13. pose proof (split_nonempty 10 s) as Hs.
  revert Hs Hne L10 L13. generalize (split 10 s). intros pieces.
  induction pieces as [|p pieces IH]; [done|]. intros _ Hne L10 L13.
  destruct pieces as [|q pieces].
  - cbn in *. destruct p as [|c p]; [done|]. cbn [is_empty]. f_equal.
    unfold strip_cr. destruct (rev (c :: p)) as [|d r] eqn:E; [done|].
    assert (c :: p = rev r ++ [d]) as Hcp by (rewrite <- (rev_involutive (c :: p)), E; done).
    rewrite Hcp, last_snoc in L13. repeat case_match; simplify_eq; done.
  - cbn [map]. change (lines_of (p :: q :: pieces)) with (strip_cr p :: lines_of (q :: pieces)).
    f_equal. rewrite join_cons in Hne, L10, L13 by done. cbn [app] in *.
    assert (Hj : join [10] (q :: pieces) <> []).
    { intros E. rewrite E in L10. by rewrite last_app in L10. }
    apply IH; [done|done| |].
    + by rewrite last_app_cons in L10.
    + by rewrite last_app_cons in L13.
Qed.

(** * Ownership *)

Definition line_is_owned (line : str) : bool :=
  match openvpn_directive line with Some d => openvpn_directive_is_owned d | None => false end.

(** The lines of a configuration that set what the agent owns. *)
Definition owned_lines (text : str) : list str := List.filter line_is_owned (lines text).

Lemma refuse_owned_ok l : refuse_owned l = Ok tt -> Forall (fun d => openvpn_directive_is_owned d = false) l.
Proof.
  induction l as [|d l IH]; cbn [refuse_owned]; intros H; [constructor|].
  destruct (openvpn_directive_is_owned d) eqn:E; [done|]. constructor; auto.
Qed.

Lemma directives_owned text line :
  validate_openvpn_config_override text = Ok tt -> In line (lines text) -> line_is_owned line = false.
Proof.
  intros H%refuse_owned_ok Hin. unfold line_is_owned. destruct (openvpn_directive line) as [d|] eqn:E; [|done].
  rewrite Forall_forall in H. apply H. apply list_elem_of_omap. exists line. split; [|done].
  by apply list_elem_of_In.
Qed.

Lemma Forall_filter_sub {A} (P : A -> Prop) (f : A -> bool) l : Forall P l -> Forall P (List.filter f l).
Proof. rewrite !List.Forall_forall. intros H x [Hx _]%List.filter_In. by apply H. Qed.

(** Dropping lines whose directive the override names drops no owned line. *)
Lemma kept_owned o ls : validate_openvpn_config_override o = Ok tt ->
  List.filter line_is_owned (List.filter (keeps_line (directives o)) ls) = List.filter line_is_owned ls.
Proof.
  intros H%refuse_owned_ok. induction ls as [|l ls IH]; [done|]. cbn [List.filter].
  destruct (line_is_owned l) eqn:Eo.
  - assert (keeps_line (directives o) l = true) as ->; [|cbn [List.filter]; by rewrite Eo, IH].
    unfold line_is_owned in Eo. unfold keeps_line. destruct (openvpn_directive l) as [d|]; [|done].
    apply negb_true_iff, not_true_is_false. intros (d' & Hin & ->%str_eqb_eq)%existsb_exists.
    rewrite Forall_forall in H. rewrite H in Eo; [done|]. by apply list_elem_of_In.
  - destruct (keeps_line (directives o) l); [cbn [List.filter]; by rewrite Eo|done].
Qed.

Lemma owned_blank : line_is_owned [] = false.
Proof. done. Qed.

Lemma join_lines_empty ls : join [10] ls = [] -> ls = [] \/ ls = [[]].
Proof.
  destruct ls as [|l [|l' ls]]; [by left| |].
  - cbn. intros ->. by right.
  - rewrite join_cons by done. by destruct l.
Qed.

(** The lines of a merged configuration: the kept generated lines, then those
    of the override. *)
Lemma merged_lines generated o r :
  13 ∉ generated -> ends_with_char 13 o = false -> is_empty (trim o) = false ->
  merge_openvpn_config_override generated (Some o) = Ok r ->
  validate_openvpn_config_override o = Ok tt /\
  exists kept, lines r = kept ++ lines o /\
    List.filter line_is_owned kept = List.filter line_is_owned (lines generated).
Proof.
  intros Hcr Ho Hb. unfold merge_openvpn_config_override. rewrite Hb.
  destruct (validate_openvpn_config_override o) as [[]|] eqn:Hv; [|done]. cbn [mbind result_bind].
  intros [= <-]. split; [done|].
  set (kept := List.filter (keeps_line (directives o)) (lines generated)).
  assert (Hone : o <> []) by (intros ->; done).
  assert (Hend : forall front, ends_with_char 10 (front ++ o) = ends_with_char 10 o).
  { intros front. unfold ends_with_char, strip_suffix_char. rewrite rev_app_distr.
    destruct (rev o) as [|d t] eqn:E; [|cbn; by destruct (d =? 10)].
    apply (f_equal (@rev Z)) in E. by rewrite rev_involutive in E. }
  assert (Htail : lines (if ends_with_char 10 o then o else o ++ [10]) = lines o).
  { destruct (ends_with_char 10 o) eqn:E; [done|]. by apply lines_newline. }
  assert (Hk : List.filter line_is_owned kept = List.filter line_is_owned (lines generated))
    by (by apply kept_owned).
  destruct (is_empty (join [10] kept)) eqn:Ej.
  - exists []. destruct (join [10] kept) eqn:Ejn; [|done]. rewrite <- (app_nil_l o) at 1. rewrite Hend.
    cbn [app]. split; [by destruct (ends_with_char 10 o)|].
    rewrite <- Hk. by destruct (join_lines_empty _ Ejn) as [-> | ->].
  - exists kept. split; [|done]. rewrite Hend.
    assert (E : (if ends_with_char 10 o then (join [10] kept ++ [10]) ++ o else ((join [10] kept ++ [10]) ++ o) ++ [10])
            = join [10] kept ++ 10 :: (if ends_with_char 10 o then o else o ++ [10])).
    { destruct (ends_with_char 10 o); by rewrite <- !app_assoc. }
    rewrite E, lines_glue, Htail; [done| | |].
    + intros Hn. by rewrite Hn in Ej.
    + apply Forall_filter_sub, lines_no_newline.
    + by apply Forall_filter_sub, lines_cr_free.
Qed.

(** Merging an accepted override into a generated OpenVPN configuration
    leaves the agent-owned part as generated: the lines that set an owned
    directive are those of the generated text, in their order, and the
    operator's lines follow verbatim. *)
Theorem override_keeps_owned_lines generated o r :
  13 ∉ generated -> ends_with_char 13 o = false -> is_empty (trim o) = false ->
  merge_openvpn_config_override generated (Some o) = Ok r ->
  owned_lines r = owned_lines generated /\ exists front, lines r = front ++ lines o.
Proof.
  intros Hcr Ho Hb Hm. destruct (merged_lines _ _ _ Hcr Ho Hb Hm) as (Hv & kept & El & Ek).
  split; [|by exists kept]. unfold owned_lines. rewrite El, List.filter_app, Ek.
  rewrite (proj2 (filter_none _ (lines o))); [apply app_nil_r|]. intros line. by apply directives_owned.
Qed.

(** An override is refused exactly when one of its lines names an owned
    directive; the first such directive is reported. *)
Lemma override_refused_iff text :
  is_ok (validate_openvpn_config_override text) = false <->
  exists line, In line (lines text) /\ line_is_owned line = true.
Proof.
  split.
  - unfold validate_openvpn_config_override, directives.
    induction (lines text) as [|l ls IH]; [done|]. cbn [omap list_omap].
    destruct (openvpn_directive l) as [d|] eqn:E.
    + cbn [refuse_owned]. destruct (openvpn_directive_is_owned d) eqn:Eo.
      * intros _. exists l. split; [by left|]. unfold line_is_owned. by rewrite E.
      * intros H. destruct (IH H) as (l' & ? & ?). exists l'. split; [by right|done].
    + intros H. destruct (IH H) as (l' & ? & ?). exists l'. split; [by right|done].
  - intros (l & Hin & Ho). destruct (validate_openvpn_config_override text) as [[]|] eqn:E; [|done].
    by rewrite (directives_owned _ _ E Hin) in Ho.
Qed.

Definition ex_generated : str := lit "dev tun0" ++ [10] ++ lit "verb 3" ++ [10].

Lemma override_keeps_owned_lines_witness :
  owned_lines (lit "dev tun0" ++ [10] ++ lit "verb 4" ++ [10]) = owned_lines ex_generated.
Proof.
  refine (proj1 (override_keeps_owned_lines ex_generated (lit "verb 4") _ _ _ _ _)).
  - intros H%contains_char_spec. by vm_compute in H.
  - vm_compute. reflexivity.
  - vm_compute. reflexivity.
  - vm_compute. reflexivity.
Defined.

(** Quoted, dashed and conditional spellings of an owned directive are seen. *)
Example owned_spellings :
  map line_is_owned [lit "--dev tun9"; lit "<ca>"; lit "setenv opt local 1.2.3.4"; lit "  d\ev x";
                     lit "# dev x"; lit "verb 3"]
  = [true; true; true; true; false; false].
Proof. vm_compute. reflexivity. Qed.
