(* ===== verification/NetworkPlanner.v ===== *)
(** Tunnel plans: crates/common/src/network/network_planner.rs.

    [plan_tunnel] checks an operator's input and completes it to a plan;
    [render_tunnel_endpoint_config] is one side's view of a plan.  Parameters:
    [uuid_parses] is [Uuid::parse_str(_).is_ok()], [json_f64] the number printer
    of [serde_json] and [sha256] the hash.  A [HashSet] the code iterates over is
    a finite set, its elements in an unspecified order. *)

From Stdlib Require Import SpecFloat.
From S2P Require Import Prelude RustStd Net F64 TunnelModels NetworkCost OpenvpnOverride.

Open Scope Z_scope.

Definition MAX_RUNTIME_TOPOLOGY_VERSION_BYTES : Z := 128.
Definition MAX_RUNTIME_TOPOLOGY_INTERFACES : Z := 128.
Definition MAX_RUNTIME_TOPOLOGY_ROUTES : Z := 256.

(** * Underlays *)

Definition is_multicast_v6 (v : Z) : bool := v / 2 ^ 120 =? 255.
Definition is_unicast_link_local_v6 (v : Z) : bool := v / 2 ^ 118 =? 1018.

(** A source or destination an [ip6gre] link can transmit with. *)
Definition gre6_usable (ip : IpAddr) : bool :=
  match ip with
  | IpV6 v => negb (v =? 0) && negb (is_multicast_v6 v) && negb (is_unicast_link_local_v6 v)
  | IpV4 _ => false
  end.

(** [local.map(str::trim).filter(|v| !v.is_empty())]. *)
Definition trimmed_local (local : option str) : option str :=
  match option_map trim local with
  | Some v => if is_empty v then None else Some v
  | None => None
  end.

(** [.map(str::parse::<IpAddr>).transpose()]. *)
Definition parse_optional_ip (local : option str) : planned (option IpAddr) :=
  match local with
  | Some v => a ← ok_or (parse_ip_addr v) InvalidUnderlayAddress; Ok (Some a)
  | None => Ok None
  end.

Definition builtin (manager : RuntimeTunnelManager) : bool := bool_decide (manager = AgentBuiltin).
Definition kind_is (kind k : TunnelKind) : bool := bool_decide (kind = k).

Definition validate_endpoint_underlay (remote : str) (local : option str) (manager : RuntimeTunnelManager)
    (kind : TunnelKind) (fou_kind : RuntimeTunnelFouKind) : planned unit :=
  remote ← ok_or (parse_ip_addr remote) InvalidUnderlayAddress;
  local ← parse_optional_ip (trimmed_local local);
  let builtin_family := if builtin manager then iproute2_underlay_family kind fou_kind else None in
  reject_if (bool_decide (builtin_family = Some Ipv6)
             && (negb (gre6_usable remote)
                 || negb match local with Some l => gre6_usable l | None => false end))
    InvalidGre6UnderlayAddress;;
  let builtin_wireguard := builtin manager && kind_is kind Wireguard in
  let builtin_openvpn := builtin manager && kind_is kind Openvpn in
  reject_if
    ((negb builtin_openvpn
      && match local with Some l => negb (Bool.eqb (is_ipv4 l) (is_ipv4 remote)) | None => false end)
     || (bool_decide (builtin_family = Some Ipv4) && negb (is_ipv4 remote))
     || (builtin_wireguard && match local with Some _ => true | None => false end))
    InvalidUnderlayAddress.

Definition validate_openvpn_underlays (input : TunnelPlanInput) : planned unit :=
  if negb (builtin (rc_manager (in_runtime_control input))) || negb (kind_is (in_kind input) Openvpn)
  then Ok tt
  else
    let '(listener_local, initiator_local, initiator_remote) :=
      match listener_side (rc_openvpn (in_runtime_control input)) with
      | SideLeft => (in_left_local_underlay input, in_right_local_underlay input, in_right_remote_underlay input)
      | SideRight => (in_right_local_underlay input, in_left_local_underlay input, in_left_remote_underlay input)
      end in
    target ← ok_or (parse_ip_addr initiator_remote) InvalidUnderlayAddress;
    try_each
      (fun local =>
         local ← ok_or (parse_ip_addr local) InvalidUnderlayAddress;
         reject_if (negb (Bool.eqb (is_ipv4 local) (is_ipv4 target))) InvalidUnderlayAddress)
      (List.filter (fun local => negb (is_empty local))
         (map trim (option_list listener_local ++ option_list initiator_local))).

Definition validate_plan_identity (input : TunnelPlanInput) : planned unit :=
  reject_if (is_empty (trim (in_name input)) || (128 <? str_len (in_name input))
             || existsb is_control (in_name input)) InvalidPlanIdentity;;
  reject_if (is_empty (trim (in_left_client_id input)) || is_empty (trim (in_right_client_id input))
             || str_eqb (in_left_client_id input) (in_right_client_id input)) InvalidTunnelEndpoints;;
  let control := in_runtime_control input in
  validate_endpoint_underlay (in_left_remote_underlay input) (in_left_local_underlay input)
    (rc_manager control) (in_kind input) (fou_tunnel_kind (rc_fou control));;
  validate_endpoint_underlay (in_right_remote_underlay input) (in_right_local_underlay input)
    (rc_manager control) (in_kind input) (fou_tunnel_kind (rc_fou control));;
  validate_openvpn_underlays input.

(** * Bandwidth, MTU *)

Definition validate_bandwidth_mbps (value : Z) : planned unit :=
  if in_range MIN_TUNNEL_BANDWIDTH_MBPS MAX_TUNNEL_BANDWIDTH_MBPS value then Ok tt else Err InvalidBandwidthMbps.

Definition validate_tunnel_mtus (manager : RuntimeTunnelManager) (kind : TunnelKind)
    (left_mtu right_mtu : option Z) (ipv6_left ipv6_right : bool) : planned unit :=
  match manager with
  | AgentBuiltin =>
      match left_mtu, right_mtu with
      | Some left_mtu, Some right_mtu =>
          try_each
            (fun '(value, ipv6_enabled) =>
               let requires_ipv6_mtu := ipv6_enabled || kind_is kind Sit in
               reject_if ((value <? MIN_TUNNEL_MTU) || (requires_ipv6_mtu && (value <? MIN_IPV6_TUNNEL_MTU)))
                 InvalidTunnelMtu)
            [(left_mtu, ipv6_left); (right_mtu, ipv6_right)]
      | _, _ => Err TunnelMtuRequired
      end
  | ExternalObserved | CustomAdapter =>
      match left_mtu, right_mtu with
      | None, None => Ok tt
      | _, _ => Err TunnelMtuExternallyOwned
      end
  end.

(** * Names, routes and topology *)

Definition is_ascii_alphanumeric (c : Z) : bool := is_ascii_alphabetic c || is_ascii_digit c.

Definition validate_interface_name (name : str) : planned unit :=
  if negb (is_empty name) && (str_len name <=? 15)
     && forallb (fun b => is_ascii_alphanumeric b || (b =? 95) || (b =? 45) || (b =? 46)) (as_bytes name)
  then Ok tt else Err InvalidInterfaceName.

(** [Ipv4Cidr] and [Ipv6Cidr]: first and last address. *)
Record Cidr := mkCidr { cidr_network : Z; cidr_broadcast : Z }.

(** The mask of a prefix, and its complement within the width. *)
Definition prefix_mask (width prefix_len : Z) : Z :=
  if prefix_len =? 0 then 0 else Z.shiftl (2 ^ width - 1) (width - prefix_len) mod 2 ^ width.

Definition parse_cidr (width : Z) (parse : str -> option Z) (value : str) : planned Cidr :=
  parts ← ok_or (split_once 47 value) InvalidCidr;
  let '(address, prefix) := parts in
  address ← ok_or (parse address) InvalidCidr;
  prefix_len ← ok_or (parse_unsigned u8_max prefix) InvalidCidr;
  reject_if (width <? prefix_len) InvalidCidr;;
  let mask := prefix_mask width prefix_len in
  let network := Z.land address mask in
  Ok (mkCidr network (Z.lor network (2 ^ width - 1 - mask))).

Definition ipv4_cidr_parse : str -> planned Cidr := parse_cidr 32 parse_ipv4_addr.
Definition ipv6_cidr_parse : str -> planned Cidr := parse_cidr 128 parse_ipv6_addr.

Definition parse_ip_cidr (value : str) : planned unit :=
  if is_ok (ipv4_cidr_parse value) || is_ok (ipv6_cidr_parse value) then Ok tt else Err InvalidCidr.

(** The loop with its [seen] set; the error of a duplicate is [dup]. *)
Fixpoint validate_interfaces (seen : list str) (interfaces : list str) : planned unit :=
  match interfaces with
  | [] => Ok tt
  | interface :: rest =>
      map_err (fun _ => InvalidRuntimeTunnelTopology) (validate_interface_name interface);;
      reject_if (existsb (str_eqb interface) seen) InvalidRuntimeTunnelTopology;;
      validate_interfaces (interface :: seen) rest
  end.

Definition validate_runtime_interface_set (interfaces : list str) : planned unit :=
  reject_if (MAX_RUNTIME_TOPOLOGY_INTERFACES <? vec_len interfaces) InvalidRuntimeTunnelTopology;;
  validate_interfaces [] interfaces.

Definition route_key (route : RuntimeTunnelRoute) : str * str * str * Z :=
  (destination_cidr route, default [] (route_via route), default [] (route_interface_name route),
   default 0 (route_metric route)).

Fixpoint validate_route_list (seen : list (str * str * str * Z)) (routes : list RuntimeTunnelRoute) : planned unit :=
  match routes with
  | [] => Ok tt
  | route :: rest =>
      map_err (fun _ => InvalidRuntimeTunnelRoute) (parse_ip_cidr (destination_cidr route));;
      match route_via route with
      | Some via => ok_or (parse_ip_addr via) InvalidRuntimeTunnelRoute;; Ok tt
      | None => Ok tt
      end;;
      match route_interface_name route with
      | Some interface => validate_interface_name interface
      | None => Ok tt
      end;;
      reject_if (bool_decide (route_metric route = Some 0)) InvalidRuntimeTunnelRoute;;
      reject_if (existsb (fun key => bool_decide (key = route_key route)) seen) InvalidRuntimeTunnelRoute;;
      validate_route_list (route_key route :: seen) rest
  end.

Definition validate_runtime_routes (routes : list RuntimeTunnelRoute) : planned unit :=
  reject_if (MAX_RUNTIME_TOPOLOGY_ROUTES <? vec_len routes) InvalidRuntimeTunnelTopology;;
  validate_route_list [] routes.

Definition valid_topology_version (version : str) : bool :=
  negb (is_empty version || (MAX_RUNTIME_TOPOLOGY_VERSION_BYTES <? str_len version)
        || existsb (Z.eqb 0) (as_bytes version)
        || negb (forallb (fun b => is_ascii_alphanumeric b || (b =? 46) || (b =? 95) || (b =? 45) || (b =? 58))
                   (as_bytes version))).

Definition validate_runtime_topology_intent (topology : RuntimeTunnelTopologyIntent)
    (current_interface_name : str) : planned unit :=
  validate_interface_name current_interface_name;;
  match topology_version topology with
  | Some version => reject_if (negb (valid_topology_version version)) InvalidRuntimeTunnelTopology
  | None => Ok tt
  end;;
  validate_runtime_interface_set (desired_interfaces topology);;
  validate_runtime_interface_set (stale_interfaces topology);;
  let desired name := existsb (str_eqb name) (desired_interfaces topology) in
  let stale name := existsb (str_eqb name) (stale_interfaces topology) in
  reject_if (negb (is_empty (desired_interfaces topology)) && negb (desired current_interface_name))
    InvalidRuntimeTunnelTopology;;
  reject_if (stale current_interface_name || existsb stale (desired_interfaces topology))
    InvalidRuntimeTunnelTopology;;
  validate_runtime_routes (topology_routes topology);;
  validate_runtime_routes (stale_routes topology).

(** * Limits, hooks and driver options *)

Definition limit_in (lo hi : Z) (value : option Z) : planned unit :=
  match value with
  | Some v => reject_if (negb (in_range lo hi v)) InvalidRuntimeTunnelTrafficLimit
  | None => Ok tt
  end.

Definition validate_runtime_traffic_limit (limit : RuntimeTunnelTrafficLimit) : planned unit :=
  limit_in 64 1000000 (ingress_kbps limit);;
  limit_in 64 1000000 (egress_kbps limit);;
  limit_in 1 1048576 (burst_kb limit).

(** [validate_runtime_tunnel_hook]. *)
Definition validate_runtime_tunnel_hook (command : RuntimeTunnelCommand) : planned unit :=
  reject_if
    (is_empty (cmd_argv command) || (32 <? vec_len (cmd_argv command))
     || negb (match cmd_argv command with arg :: _ => starts_with arg [47] | [] => false end)
     || existsb (fun arg => is_empty arg || (4096 <? str_len arg) || contains_char 0 arg) (cmd_argv command)
     || negb (in_range 1 120 (cmd_max_timeout_secs command))
     || negb (in_range 1024 (64 * 1024) (cmd_max_output_bytes command)))
    InvalidRuntimeTunnelCommand.

Definition endpoint_hook_list (hooks : RuntimeTunnelEndpointHooks) : list RuntimeTunnelCommand :=
  option_list (pre_start hooks) ++ option_list (post_start hooks)
  ++ option_list (pre_shutdown hooks) ++ option_list (post_shutdown hooks).

Definition validate_runtime_fou_options (kind : TunnelKind) (options : RuntimeTunnelFouOptions) : planned unit :=
  reject_if (negb (kind_is kind Fou) && negb (fou_is_default options)) InvalidRuntimeTunnelCommand;;
  reject_if ((fou_port options =? 0) || (fou_peer_port options =? 0)) InvalidRuntimeTunnelCommand.

Definition validate_runtime_wireguard_options (kind : TunnelKind) (manager : RuntimeTunnelManager)
    (options : RuntimeTunnelWireguardOptions) : planned unit :=
  reject_if ((negb (kind_is kind Wireguard) || negb (builtin manager)) && negb (wireguard_is_default options))
    InvalidRuntimeTunnelCommand;;
  reject_if (kind_is kind Wireguard && builtin manager
             && ((left_listen_port options =? 0) || (right_listen_port options =? 0)))
    InvalidRuntimeTunnelCommand.

Definition validate_runtime_openvpn_options (kind : TunnelKind) (manager : RuntimeTunnelManager)
    (options : RuntimeTunnelOpenvpnOptions) : planned unit :=
  reject_if ((negb (kind_is kind Openvpn) || negb (builtin manager)) && negb (openvpn_is_default options))
    InvalidRuntimeTunnelCommand;;
  reject_if (kind_is kind Openvpn && builtin manager && (ovpn_port options =? 0)) InvalidRuntimeTunnelCommand;;
  try_each validate_openvpn_config_override
    (option_list (left_config_override options) ++ option_list (right_config_override options)).

Definition builtin_kind (kind : TunnelKind) : bool :=
  match kind with Gre | Gre6 | Ipip | Sit | Fou | Wireguard | Openvpn => true | TunTap | Custom => false end.

Definition validate_runtime_tunnel_driver_options (kind : TunnelKind) (control : RuntimeTunnelControl) :
    planned unit :=
  validate_runtime_fou_options kind (rc_fou control);;
  validate_runtime_wireguard_options kind (rc_manager control) (rc_wireguard control);;
  validate_runtime_openvpn_options kind (rc_manager control) (rc_openvpn control);;
  reject_if (builtin (rc_manager control) && negb (builtin_kind kind)) UnsupportedRuntimeManagerTunnelKind.

(** * Address families *)

Definition has_extra_ipv4 (additional : TunnelAdditionalAddresses) : bool :=
  negb (is_empty (extra_ipv4 (extras_left additional))) || negb (is_empty (extra_ipv4 (extras_right additional))).
Definition has_extra_ipv6 (additional : TunnelAdditionalAddresses) : bool :=
  negb (is_empty (extra_ipv6 (extras_left additional))) || negb (is_empty (extra_ipv6 (extras_right additional))).

Definition validate_fou_address_families (kind : TunnelKind) (control : RuntimeTunnelControl)
    (primary_ipv4 primary_ipv6 : bool) (additional : TunnelAdditionalAddresses) : planned unit :=
  if negb (kind_is kind Fou) || negb (builtin (rc_manager control)) then Ok tt
  else
    let ipv4 := primary_ipv4 || has_extra_ipv4 additional in
    let ipv6 := primary_ipv6 || has_extra_ipv6 additional in
    let tunnel_kind := fou_tunnel_kind (rc_fou control) in
    reject_if ((ipv4 && negb (supports_family tunnel_kind Ipv4)) || (ipv6 && negb (supports_family tunnel_kind Ipv6)))
      (InvalidFouAddressFamily (to_ascii_uppercase (fou_linux_tunnel_mode tunnel_kind))).

(** The error of one line of additional addresses. *)
Definition additional_error (side : str) (ipv4 : bool) (index : nat) (reason : string) : NetworkPlanError :=
  InvalidAdditionalAddress
    (side ++ lit " IPv" ++ to_string (if ipv4 then 4 else 6) ++ lit " line "
     ++ to_string (Z.of_nat index + 1) ++ lit ": " ++ lit reason).

(** The canonical text of one line and the address it configures. *)
Definition canonical_additional_entry (side : str) (ipv4 : bool) (seen : list IpAddr) (index : nat) (entry : str) :
    planned (str * IpAddr) :=
  let error := additional_error side ipv4 index in
  parts ← ok_or (split_once 47 (trim entry)) (error "a CIDR prefix is required");
  let '(address, prefix) := parts in
  address ← ok_or (parse_ip_addr address) (error "invalid IP address");
  prefix ← ok_or (parse_unsigned u8_max prefix) (error "invalid prefix length");
  reject_if (negb (Bool.eqb (is_ipv4 address) ipv4) || ((if ipv4 then 32 else 128) <? prefix))
    (error "address family or prefix length does not match");;
  reject_if (existsb (fun a => bool_decide (a = address)) seen)
    (error "address is already configured on this tunnel");;
  Ok (format_ip_addr address ++ lit "/" ++ to_string prefix, address).

(** The entries of one family from number [index] on, with the addresses seen. *)
Fixpoint canonical_additional_family (side : str) (ipv4 : bool) (index : nat) (seen : list IpAddr)
    (entries : list str) : planned (list str * list IpAddr) :=
  match entries with
  | [] => Ok ([], seen)
  | entry :: rest =>
      canonical ← canonical_additional_entry side ipv4 seen index entry;
      let '(text, address) := canonical in
      family ← canonical_additional_family side ipv4 (S index) (address :: seen) rest;
      let '(texts, seen) := family in
      Ok (text :: texts, seen)
  end.

Definition canonical_endpoint (side : str) (seen : list IpAddr) (source : TunnelEndpointAdditionalAddresses) :
    planned (TunnelEndpointAdditionalAddresses * list IpAddr) :=
  v4 ← canonical_additional_family side true 0 seen (extra_ipv4 source);
  let '(ipv4, seen) := v4 in
  v6 ← canonical_additional_family side false 0 seen (extra_ipv6 source);
  let '(ipv6, seen) := v6 in
  Ok (mkExtra ipv4 ipv6, seen).

Definition pair_texts (pair : option TunnelAddressPair) : list str :=
  match pair with Some p => [left p; right p] | None => [] end.

Definition canonical_additional_addresses (input : TunnelAdditionalAddresses)
    (ipv4 ipv6 : option TunnelAddressPair) : planned TunnelAdditionalAddresses :=
  let seen := omap parse_ip_addr (pair_texts ipv4 ++ pair_texts ipv6) in
  l ← canonical_endpoint (lit "left") seen (extras_left input);
  let '(left, seen) := l in
  r ← canonical_endpoint (lit "right") seen (extras_right input);
  let '(right, _) := r in
  Ok (mkExtras left right).

(** * Endpoint pairs *)

Definition validate_pair (width : Z) (parse : str -> option Z) (pair : TunnelAddressPair) : planned unit :=
  l ← ok_or (parse (left pair)) InvalidCidr;
  r ← ok_or (parse (right pair)) InvalidCidr;
  reject_if (width <? prefix_len pair) InvalidCidr;;
  let mask := prefix_mask width (prefix_len pair) in
  reject_if ((l =? r) || negb (Z.land l mask =? Z.land r mask)) InvalidCidr.

Definition validate_ipv4_pair : TunnelAddressPair -> planned unit := validate_pair 32 parse_ipv4_addr.
Definition validate_ipv6_pair : TunnelAddressPair -> planned unit := validate_pair 128 parse_ipv6_addr.

Definition resolve_ipv4_tunnel (input : TunnelPlanInput) : planned (option TunnelAddressPair) :=
  match in_ipv4_tunnel input with
  | Some endpoints => validate_ipv4_pair endpoints;; Ok (Some endpoints)
  | None => Ok None
  end.

Definition resolve_ipv6_tunnel (input : TunnelPlanInput) : planned (option TunnelAddressPair) :=
  match in_ipv6_tunnel input with
  | Some endpoints => validate_ipv6_pair endpoints;; Ok (Some endpoints)
  | None => Ok None
  end.

Definition primary_family (requested : TunnelAddressFamily) (ipv4 ipv6 : option TunnelAddressPair) :
    TunnelAddressFamily :=
  match requested, ipv4, ipv6 with
  | Ipv4, Some _, _ => Ipv4
  | Ipv6, _, Some _ => Ipv6
  | _, Some _, _ => Ipv4
  | _, _, _ => Ipv6
  end.

Definition primary_tunnel (family : TunnelAddressFamily) (ipv4 ipv6 : option TunnelAddressPair) :
    option TunnelAddressPair :=
  match family with
  | Ipv4 => match ipv4 with Some p => Some p | None => ipv6 end
  | Ipv6 => match ipv6 with Some p => Some p | None => ipv4 end
  end.

(** * Conflicts with reserved addresses *)

Definition conflicts_in (pool_family : string) (format : Z -> str) (cidr : Cidr) (reserved : gset Z) : list str :=
  map (fun address => lit "reserved address " ++ format address ++ lit " is inside requested "
                      ++ lit pool_family ++ lit " pool")
    (List.filter (fun address => (cidr_network cidr <=? address) && (address <=? cidr_broadcast cidr))
       (elements reserved)).

Definition plan_conflicts (input : TunnelPlanInput) (reserved_ipv4 reserved_ipv6 : gset Z) : planned (list str) :=
  v4 ← (if is_empty (trim (in_address_pool_cidr input)) then Ok []
        else cidr ← ipv4_cidr_parse (in_address_pool_cidr input);
             Ok (conflicts_in "IPv4" format_ipv4 cidr reserved_ipv4));
  v6 ← match trimmed_local (in_ipv6_address_pool_cidr input) with
       | Some pool => cidr ← ipv6_cidr_parse pool;
                      Ok (conflicts_in "IPv6" format_ipv6 cidr reserved_ipv6)
       | None => Ok []
       end;
  Ok (v4 ++ v6).

(** The parts of a plan [plan_tunnel] resolves before it assembles it. *)
Record PlanParts := mkParts {
  part_ipv4 : option TunnelAddressPair;
  part_ipv6 : option TunnelAddressPair;
  part_additional : TunnelAdditionalAddresses;
  part_primary_family : TunnelAddressFamily;
  part_primary : TunnelAddressPair;
  part_cost : option Z;
  part_conflicts : list str;
}.

Section Planner.

(** [Uuid::parse_str(_).is_ok()] and the number text of [serde_json]. *)
Context (uuid_parses : str -> bool) (json_f64 : f64 -> str).

Definition valid_definition_id (value : option str) : bool :=
  match value with Some v => uuid_parses v | None => false end.

Definition validate_ospf_config (config : TunnelOspfConfig) : planned unit :=
  let policy := ospf_policy config in
  let zero := f64_of_Z 0 in
  let within lo hi v := SFleb lo v && SFleb v hi in
  reject_if
    (negb (f64_is_finite (planned_latency_ms config))
     || negb (within zero (f64_of_Z 60000) (planned_latency_ms config))
     || negb (f64_is_finite (planned_packet_loss_ratio config))
     || negb (within zero (f64_of_Z 1) (planned_packet_loss_ratio config))
     || negb (f64_is_finite (ospf_preference config))
     || negb (within f64_tenth (f64_of_Z 100) (ospf_preference config))
     || negb (f64_is_finite (left_cost_offset config))
     || negb (f64_is_finite (right_cost_offset config))
     || negb (f64_is_finite (left_cost_multiplier config))
     || SFleb (left_cost_multiplier config) zero
     || negb (f64_is_finite (right_cost_multiplier config))
     || SFleb (right_cost_multiplier config) zero
     || (cost_floor config =? 0)
     || (min_cost_delta config =? 0)
     || negb (in_range 1 10 (healthy_windows config))
     || (min_cost policy =? 0)
     || (max_cost policy <? min_cost policy)
     || existsb (fun value => negb (f64_is_finite value) || SFltb value zero)
          [latency_weight policy; loss_weight policy; bandwidth_weight policy; preference_bias policy]
     || negb match ospf_left_adapter_definition_id config with
             | Some value => valid_definition_id (Some value) | None => true end
     || negb match ospf_right_adapter_definition_id config with
             | Some value => valid_definition_id (Some value) | None => true end)
    InvalidOspfConfig.

Definition validate_runtime_tunnel_control (control : RuntimeTunnelControl) : planned unit :=
  (if hooks_is_default (rc_hooks control) then Ok tt
   else
     reject_if (negb (builtin (rc_manager control))) RuntimeTunnelTopologyRequiresAgentBuiltin;;
     try_each validate_runtime_tunnel_hook
       (endpoint_hook_list (hooks_left (rc_hooks control)) ++ endpoint_hook_list (hooks_right (rc_hooks control))));;
  match rc_manager control with
  | AgentBuiltin =>
      reject_if (bool_decide (is_Some (rc_left_adapter_definition_id control))
                 || bool_decide (is_Some (rc_right_adapter_definition_id control)))
        InvalidRuntimeTunnelCommand
  | ExternalObserved =>
      reject_if (bool_decide (is_Some (rc_left_adapter_definition_id control))
                 || bool_decide (is_Some (rc_right_adapter_definition_id control))
                 || negb (limit_is_default (rc_traffic_limit control)) || negb (fou_is_default (rc_fou control)))
        RuntimeTunnelObservedCannotMutate
  | CustomAdapter =>
      reject_if (negb (valid_definition_id (rc_left_adapter_definition_id control))
                 || negb (valid_definition_id (rc_right_adapter_definition_id control)))
        RuntimeTunnelAdapterCommandRequired
  end;;
  validate_runtime_traffic_limit (rc_traffic_limit control).

(** The checks and resolutions of [plan_tunnel], up to the assembly.  There is a
    primary pair unless both families are absent, which is the error. *)
Definition plan_parts (input : TunnelPlanInput) : planned PlanParts :=
  validate_plan_identity input;;
  validate_interface_name (in_interface_name input);;
  validate_bandwidth_mbps (in_bandwidth_mbps input);;
  validate_runtime_tunnel_control (in_runtime_control input);;
  validate_runtime_tunnel_driver_options (in_kind input) (in_runtime_control input);;
  reject_if (negb (builtin (rc_manager (in_runtime_control input)))
             && negb (topology_is_default (in_runtime_topology input)))
    RuntimeTunnelTopologyRequiresAgentBuiltin;;
  validate_runtime_topology_intent (in_runtime_topology input) (in_interface_name input);;
  match in_ospf input with Some ospf => validate_ospf_config ospf | None => Ok tt end;;
  let reserved_ipv4 : gset Z := list_to_set (omap parse_ipv4_addr (in_reserved_addresses input)) in
  let reserved_ipv6 : gset Z := list_to_set (omap parse_ipv6_addr (in_reserved_addresses input)) in
  ipv4_tunnel ← resolve_ipv4_tunnel input;
  ipv6_tunnel ← resolve_ipv6_tunnel input;
  additional ← canonical_additional_addresses (in_additional_addresses input) ipv4_tunnel ipv6_tunnel;
  validate_fou_address_families (in_kind input) (in_runtime_control input)
    (bool_decide (is_Some ipv4_tunnel)) (bool_decide (is_Some ipv6_tunnel)) additional;;
  validate_tunnel_mtus (rc_manager (in_runtime_control input)) (in_kind input) (in_left_mtu input) (in_right_mtu input)
    (bool_decide (is_Some ipv6_tunnel) || negb (is_empty (extra_ipv6 (extras_left additional))))
    (bool_decide (is_Some ipv6_tunnel) || negb (is_empty (extra_ipv6 (extras_right additional))));;
  let family := primary_family (in_latency_primary_family input) ipv4_tunnel ipv6_tunnel in
  primary ← ok_or (primary_tunnel family ipv4_tunnel ipv6_tunnel) TunnelAddressRequired;
  let cost :=
    option_map
      (fun ospf => ospf_cost (ospf_policy ospf)
                     (mkObservation (planned_latency_ms ospf) (planned_packet_loss_ratio ospf)
                        (in_bandwidth_mbps input) (ospf_preference ospf)))
      (in_ospf input) in
  conflicts ← plan_conflicts input reserved_ipv4 reserved_ipv6;
  Ok (mkParts ipv4_tunnel ipv6_tunnel additional family primary cost conflicts).

(** [recommended_ospf_cost.zip(input.ospf).map(|..| adjusted_ospf_cost(..))]; the
    outer [None] is a failed [expect]. *)
Definition side_cost (cost : option Z) (ospf : option TunnelOspfConfig) (side : TunnelEndpointSide) :
    option (option Z) :=
  match cost, ospf with
  | Some base, Some config => option_map Some (adjusted_ospf_cost json_f64 base config side)
  | _, _ => Some None
  end.

Definition without_legacy_wire (c : TunnelOspfConfig) : TunnelOspfConfig :=
  mkOspf (ospf_mode c) (planned_latency_ms c) (planned_packet_loss_ratio c) (ospf_preference c)
    (left_cost_offset c) (right_cost_offset c) (left_cost_multiplier c) (right_cost_multiplier c)
    (cost_floor c) (ospf_policy c) (min_cost_delta c) (healthy_windows c)
    (ospf_left_adapter_definition_id c) (ospf_right_adapter_definition_id c) false.

Definition assemble_plan (input : TunnelPlanInput) (parts : PlanParts) (left_cost right_cost : option Z) : TunnelPlan :=
  mkPlan (in_name input) (in_interface_name input) (in_kind input) (in_runtime_control input)
    (in_runtime_topology input) (in_left_client_id input) (in_right_client_id input)
    (in_left_remote_underlay input) (in_left_local_underlay input)
    (in_right_remote_underlay input) (in_right_local_underlay input)
    (left (part_primary parts)) (right (part_primary parts)) (prefix_len (part_primary parts))
    (part_ipv4 parts) (part_ipv6 parts) (part_additional parts) (in_manage_link_local input)
    (part_primary_family parts) (in_bandwidth_mbps input) (in_left_mtu input) (in_right_mtu input)
    (option_map without_legacy_wire (in_ospf input)) (part_cost parts) left_cost right_cost (part_conflicts parts).

(** [plan_tunnel]; [None] where an [expect] of the cost arithmetic fails. *)
Definition plan_tunnel (input : TunnelPlanInput) : option (planned TunnelPlan) :=
  match plan_parts input with
  | Err e => Some (Err e)
  | Ok parts =>
      left_cost ← side_cost (part_cost parts) (in_ospf input) SideLeft;
      right_cost ← side_cost (part_cost parts) (in_ospf input) SideRight;
      Some (Ok (assemble_plan input parts left_cost right_cost))
  end.

End Planner.

(** * One side of a plan *)

Definition other_side (side : TunnelEndpointSide) : TunnelEndpointSide :=
  match side with SideLeft => SideRight | SideRight => SideLeft end.

Definition render_tunnel_endpoint_config (plan : TunnelPlan) (side : TunnelEndpointSide) :
    planned TunnelEndpointConfig :=
  validate_interface_name (plan_interface_name plan);;
  validate_fou_address_families (plan_kind plan) (plan_runtime_control plan)
    (bool_decide (is_Some (plan_ipv4_tunnel plan))) (bool_decide (is_Some (plan_ipv6_tunnel plan)))
    (plan_additional_addresses plan);;
  let pick {A} (l r : A) : A := match side with SideLeft => l | SideRight => r end in
  let remote_underlay := pick (plan_left_remote_underlay plan) (plan_right_remote_underlay plan) in
  let local_underlay := pick (plan_left_local_underlay plan) (plan_right_local_underlay plan) in
  let fou_kind := fou_tunnel_kind (rc_fou (plan_runtime_control plan)) in
  (if bool_decide (iproute2_underlay_family (plan_kind plan) fou_kind = Some Ipv6)
   then validate_endpoint_underlay remote_underlay local_underlay
          (rc_manager (plan_runtime_control plan)) (plan_kind plan) fou_kind
   else Ok tt);;
  Ok (mkEndpoint side
        (pick (plan_left_client_id plan) (plan_right_client_id plan))
        (pick (plan_right_client_id plan) (plan_left_client_id plan))
        (pick (plan_left_mtu plan) (plan_right_mtu plan))
        (plan_runtime_control plan) remote_underlay local_underlay
        (pick (plan_left_tunnel_address plan) (plan_right_tunnel_address plan))
        (pick (plan_right_tunnel_address plan) (plan_left_tunnel_address plan))
        (plan_tunnel_prefix_len plan) (plan_latency_primary_family plan)
        (plan_ipv4_tunnel plan) (plan_ipv6_tunnel plan)
        (extras_for_side (plan_additional_addresses plan) side)
        (extras_for_side (plan_additional_addresses plan) (other_side side))
        (plan_manage_link_local plan)).
