(* ===== verification/TunnelRender.v ===== *)
(** Native rendering of tunnel plans:
    crates/common/src/network/network_runtime_render.rs (overrides apart, which
    are in OpenvpnOverride) and [validate_tunnel_link_local_addresses] of
    network_planner.rs.

    Commands are argument vectors, a path is its text.  [sha256] is the hash of
    the [sha2] crate; a [Uuid] is its 128-bit value. *)

From S2P Require Import Prelude RustStd Net TunnelModels OpenvpnOverride NetworkPlanner.

Open Scope Z_scope.

Abbreviation Uuid := Z (only parsing).
Abbreviation argv := (list str) (only parsing).

(** * Paths and devices *)

(** [value.replace('\\', "\\\\").replace('"', "\\\"")]. *)
Definition escape_quoted (value : str) : str :=
  concat (map (fun c => if (c =? 92) || (c =? 34) then [92; c] else [c]) value).

Definition openvpn_config_path_value (path : str) : planned str :=
  reject_if (existsb is_control path) InvalidRuntimeTunnelConfigPath;;
  Ok ([34] ++ escape_quoted path ++ [34]).

(** [Path::join] of a relative name. *)
Definition path_join (dir : str) (name : string) : str := dir ++ lit "/" ++ lit name.

Definition tunnel_iproute2_mode (plan : TunnelPlan) : planned str :=
  match plan_kind plan with
  | Gre => Ok (lit "gre")
  | Gre6 => Ok (lit "ip6gre")
  | Ipip => Ok (lit "ipip")
  | Sit => Ok (lit "sit")
  | Fou => Ok (fou_linux_tunnel_mode (fou_tunnel_kind (rc_fou (plan_runtime_control plan))))
  | _ => Err UnsupportedRuntimeManagerTunnelKind
  end.

Definition plan_fou (plan : TunnelPlan) : RuntimeTunnelFouOptions := rc_fou (plan_runtime_control plan).

Definition fou_underlay_is_ipv6 (plan : TunnelPlan) : bool :=
  bool_decide (underlay_family (fou_tunnel_kind (plan_fou plan)) = Ipv6).

Definition build_ip_tunnel_argv (base : argv) (action : str) (plan : TunnelPlan) (endpoint : TunnelEndpointConfig) :
    planned argv :=
  mode ← tunnel_iproute2_mode plan;
  let '(object, mode_option) :=
    match plan_kind plan with
    | Fou | Gre6 => (lit "link", lit "type")
    | _ => (lit "tunnel", lit "mode")
    end in
  Ok (base ++ [object; action]
      ++ (if str_eqb mode (lit "ip6gre") then [lit "dev"] else [])
      ++ [plan_interface_name plan; mode_option; mode; lit "remote"; e_remote_underlay endpoint]
      ++ match e_local_underlay endpoint with Some local => [lit "local"; local] | None => [] end
      ++ [lit "ttl"; lit "255"]
      ++ (if kind_is (plan_kind plan) Fou
          then [lit "encap"; lit "fou"; lit "encap-sport"; lit "auto"; lit "encap-dport";
                to_string (fou_peer_port (plan_fou plan))]
               ++ (if fou_underlay_is_ipv6 plan then [lit "encap-udp6-csum"] else [])
          else [])).

Definition build_fou_listener_argv (base : argv) (action : str) (plan : TunnelPlan) : argv :=
  base ++ (if fou_underlay_is_ipv6 plan then [lit "-6"] else [])
  ++ [lit "fou"; action; lit "port"; to_string (fou_port (plan_fou plan))]
  ++ (if str_eqb action (lit "add")
      then [lit "ipproto"; to_string (ip_protocol (fou_tunnel_kind (plan_fou plan)))] else []).

(** * Addresses *)

Definition tunnel_endpoint_address_pairs (plan : TunnelPlan) (endpoint : TunnelEndpointConfig) : list (str * str * Z) :=
  map (fun p => match e_side endpoint with
                | SideLeft => (left p, right p, prefix_len p)
                | SideRight => (right p, left p, prefix_len p)
                end)
    (option_list (plan_ipv4_tunnel plan) ++ option_list (plan_ipv6_tunnel plan)).

Definition tunnel_endpoint_explicit_address_cidrs (plan : TunnelPlan) (endpoint : TunnelEndpointConfig) : list str :=
  map (fun '(local, _, prefix) => local ++ lit "/" ++ to_string prefix) (tunnel_endpoint_address_pairs plan endpoint)
  ++ extra_ipv4 (e_additional_addresses endpoint) ++ extra_ipv6 (e_additional_addresses endpoint).

Definition tunnel_endpoint_manages_link_local (plan : TunnelPlan) : bool :=
  builtin (rc_manager (plan_runtime_control plan)) && plan_manage_link_local plan.

(** [cidr.split('/').next()]. *)
Definition before_slash (cidr : str) : str := match split 47 cidr with p :: _ => p | [] => cidr end.

Definition build_ip_route_argv (base : argv) (action : str) (route : RuntimeTunnelRoute)
    (default_interface_name : str) : argv :=
  base ++ [lit "route"; action; destination_cidr route]
  ++ match route_via route with Some via => [lit "via"; via] | None => [] end
  ++ [lit "dev"; default default_interface_name (route_interface_name route)]
  ++ match route_metric route with Some metric => [lit "metric"; to_string metric] | None => [] end.

Record RuntimeTunnelNativeCommand := mkNative {
  native_label : str;
  native_argv : argv;
  native_required : bool;
}.

Definition build_tunnel_topology_cleanup_commands (base : argv) (plan : TunnelPlan) : list RuntimeTunnelNativeCommand :=
  map (fun route => mkNative (lit "runtime_route_delete")
                      (build_ip_route_argv base (lit "del") route (plan_interface_name plan)) false)
    (stale_routes (plan_runtime_topology plan))
  ++ map (fun interface => mkNative (lit "runtime_stale_link_delete")
                             (base ++ [lit "link"; lit "delete"; lit "dev"; interface]) false)
       (stale_interfaces (plan_runtime_topology plan)).

Definition build_tunnel_traffic_limit_commands (base : argv) (interface : str) (limit : RuntimeTunnelTrafficLimit) :
    list RuntimeTunnelNativeCommand :=
  if limit_is_default limit && is_empty base then []
  else
    let burst := to_string (default 32 (burst_kb limit)) in
    match egress_kbps limit with
    | Some egress =>
        [mkNative (lit "runtime_traffic_egress_limit")
           (base ++ [lit "qdisc"; lit "replace"; lit "dev"; interface; lit "root"; lit "tbf"; lit "rate";
                     to_string egress ++ lit "kbit"; lit "burst"; burst ++ lit "kb"; lit "latency"; lit "50ms"]) true]
    | None =>
        [mkNative (lit "runtime_traffic_egress_clear")
           (base ++ [lit "qdisc"; lit "del"; lit "dev"; interface; lit "root"]) true]
    end
    ++
    match ingress_kbps limit with
    | Some ingress =>
        [mkNative (lit "runtime_traffic_ingress_qdisc")
           (base ++ [lit "qdisc"; lit "replace"; lit "dev"; interface; lit "ingress"]) true;
         mkNative (lit "runtime_traffic_ingress_filter")
           (base ++ [lit "filter"; lit "replace"; lit "dev"; interface; lit "parent"; lit "ffff:"; lit "protocol";
                     lit "all"; lit "u32"; lit "match"; lit "u32"; lit "0"; lit "0"; lit "police"; lit "rate";
                     to_string ingress ++ lit "kbit"; lit "burst"; burst ++ lit "kb";
                     lit "conform-exceed"; lit "drop"]) true]
    | None =>
        [mkNative (lit "runtime_traffic_ingress_clear")
           (base ++ [lit "qdisc"; lit "del"; lit "dev"; interface; lit "ingress"]) true]
    end.

(** * Placeholders *)

(** One argument: a token [{name}] that names a placeholder is replaced by its
    value, any other text stays; values are not read again. *)
Fixpoint substitute (fuel : nat) (placeholders : list (str * str)) (argument : str) : str :=
  match fuel with
  | O => argument
  | S fuel' =>
      match split_once 123 argument with
      | None => argument
      | Some (before, rest) =>
          match split_once 125 rest with
          | None => argument
          | Some (name, after) =>
              let token := [123] ++ name ++ [125] in
              let replacement :=
                match List.find (fun '(key, _) => str_eqb key token) placeholders with
                | Some (_, value) => value
                | None => token
                end in
              before ++ replacement ++ substitute fuel' placeholders after
          end
      end
  end.

Definition render_argument (placeholders : list (str * str)) (argument : str) : str :=
  substitute (length argument) placeholders argument.

Definition kind_name (kind : TunnelKind) : str :=
  match kind with
  | Gre => lit "gre" | Gre6 => lit "gre6" | Ipip => lit "ipip" | Sit => lit "sit" | Fou => lit "fou"
  | Wireguard => lit "wireguard" | Openvpn => lit "openvpn" | TunTap => lit "tun_tap" | Custom => lit "custom"
  end.

(** The [address] closure. *)
Definition pair_address (tunnel : option TunnelAddressPair) (side : TunnelEndpointSide) (local : bool) : str :=
  match tunnel with
  | Some p => match side, local with
              | SideLeft, true | SideRight, false => left p
              | _, _ => right p
              end
  | None => []
  end.

Definition optional_text (value : option Z) : str := match value with Some v => to_string v | None => [] end.

Definition command_placeholders (plan : TunnelPlan) (endpoint : TunnelEndpointConfig) : list (str * str) :=
  let limit := rc_traffic_limit (plan_runtime_control plan) in
  let side := e_side endpoint in
  [ (lit "{interface}", plan_interface_name plan);
    (lit "{plan}", plan_name plan);
    (lit "{kind}", kind_name (plan_kind plan));
    (lit "{local_client_id}", e_local_client_id endpoint);
    (lit "{peer_client_id}", e_peer_client_id endpoint);
    (lit "{local_underlay}", default [] (e_local_underlay endpoint));
    (lit "{remote_underlay}", e_remote_underlay endpoint);
    (lit "{local_address}", e_local_tunnel_address endpoint);
    (lit "{remote_address}", e_remote_tunnel_address endpoint);
    (lit "{prefix_len}", to_string (e_tunnel_prefix_len endpoint));
    (lit "{local_ipv4}", pair_address (plan_ipv4_tunnel plan) side true);
    (lit "{remote_ipv4}", pair_address (plan_ipv4_tunnel plan) side false);
    (lit "{prefix_len_ipv4}", optional_text (option_map prefix_len (plan_ipv4_tunnel plan)));
    (lit "{local_ipv6}", pair_address (plan_ipv6_tunnel plan) side true);
    (lit "{remote_ipv6}", pair_address (plan_ipv6_tunnel plan) side false);
    (lit "{prefix_len_ipv6}", optional_text (option_map prefix_len (plan_ipv6_tunnel plan)));
    (lit "{fou_port}", to_string (fou_port (plan_fou plan)));
    (lit "{fou_peer_port}", to_string (fou_peer_port (plan_fou plan)));
    (lit "{fou_ipproto}", to_string (ip_protocol (fou_tunnel_kind (plan_fou plan))));
    (lit "{egress_kbps}", optional_text (egress_kbps limit));
    (lit "{ingress_kbps}", optional_text (ingress_kbps limit));
    (lit "{burst_kb}", optional_text (burst_kb limit)) ].

Definition render_runtime_tunnel_command (command : RuntimeTunnelCommand) (plan : TunnelPlan)
    (endpoint : TunnelEndpointConfig) (additional_placeholders : list (str * str)) : planned argv :=
  reject_if (match cmd_argv command with executable :: _ => negb (starts_with executable [47]) | [] => true end)
    InvalidRuntimeTunnelCommand;;
  Ok (map (render_argument (command_placeholders plan endpoint ++ additional_placeholders)) (cmd_argv command)).

(** * OpenVPN *)

Record OpenvpnConfigPaths := mkPaths {
  path_key : str;
  path_certificate : str;
  path_peer_ca : str;
  path_pid : str;
  path_status : str;
}.

Definition openvpn_protocol (transport : RuntimeTunnelOpenvpnTransport) (listener : bool) (family : IpAddr) : string :=
  match transport, listener, family with
  | Udp, _, IpV4 _ => "udp4"
  | Udp, _, IpV6 _ => "udp6"
  | Tcp, true, IpV4 _ => "tcp4-server"
  | Tcp, true, IpV6 _ => "tcp6-server"
  | Tcp, false, IpV4 _ => "tcp4-client"
  | Tcp, false, IpV6 _ => "tcp6-client"
  end.

Definition openvpn_address_line (tunnel : str * str * Z) : planned str :=
  let '(local, remote, prefix) := tunnel in
  address ← ok_or (parse_ip_addr local) InvalidCidr;
  Ok (if is_ipv4 address then lit "ifconfig " ++ local ++ lit " " ++ remote
      else lit "ifconfig-ipv6 " ++ local ++ lit "/" ++ to_string prefix ++ lit " " ++ remote).

Definition openvpn_endpoint_lines (listener : bool) (port : Z) (endpoint : TunnelEndpointConfig) : list str :=
  if listener then
    [lit "dh none"; lit "lport " ++ to_string port]
    ++ match e_local_underlay endpoint with Some local => [lit "local " ++ local] | None => [] end
  else
    [lit "remote " ++ e_remote_underlay endpoint ++ lit " " ++ to_string port]
    ++ match e_local_underlay endpoint with
       | Some local => [lit "local " ++ local; lit "lport 0"]
       | None => [lit "nobind"]
       end.

Definition openvpn_family_address (plan : TunnelPlan) (endpoint : TunnelEndpointConfig) (listener : bool) : str :=
  if listener then
    default (match e_side endpoint with
             | SideLeft => plan_right_remote_underlay plan
             | SideRight => plan_left_remote_underlay plan
             end) (e_local_underlay endpoint)
  else e_remote_underlay endpoint.

Definition render_openvpn_config (plan : TunnelPlan) (endpoint : TunnelEndpointConfig) (paths : OpenvpnConfigPaths)
    (supports_data_ciphers : bool) : planned str :=
  let options := rc_openvpn (plan_runtime_control plan) in
  let listener := bool_decide (e_side endpoint = listener_side options) in
  family ← ok_or (parse_ip_addr (openvpn_family_address plan endpoint listener)) InvalidUnderlayAddress;
  mtu ← ok_or (e_local_mtu endpoint) TunnelMtuRequired;
  certificate ← openvpn_config_path_value (path_certificate paths);
  key ← openvpn_config_path_value (path_key paths);
  ca ← openvpn_config_path_value (path_peer_ca paths);
  pid ← openvpn_config_path_value (path_pid paths);
  status ← openvpn_config_path_value (path_status paths);
  addresses ← try_map openvpn_address_line (tunnel_endpoint_address_pairs plan endpoint);
  let lines :=
    [ lit "mode p2p"; lit "dev " ++ plan_interface_name plan; lit "dev-type tun"; lit "topology p2p";
      lit "ifconfig-noexec"; lit "proto " ++ lit (openvpn_protocol (ovpn_transport options) listener family);
      lit "tun-mtu " ++ to_string mtu; lit "cert " ++ certificate; lit "key " ++ key; lit "ca " ++ ca;
      if listener then lit "tls-server" else lit "tls-client";
      if listener then lit "remote-cert-tls client" else lit "remote-cert-tls server";
      lit "tls-version-min 1.2"; lit "cipher AES-256-GCM"; lit "auth SHA256"; lit "persist-key"; lit "persist-tun";
      lit "ping 10"; lit "ping-restart 60"; lit "daemon"; lit "writepid " ++ pid;
      lit "status " ++ status ++ lit " 10"; lit "verb 3";
      if supports_data_ciphers then lit "data-ciphers AES-256-GCM:AES-128-GCM"
      else lit "ncp-ciphers AES-256-GCM:AES-128-GCM" ]
    ++ openvpn_endpoint_lines listener (ovpn_port options) endpoint ++ addresses in
  merge_openvpn_config_override (join [10] lines ++ [10]) (config_override options (e_side endpoint)).

(** * Generated addresses, WireGuard and the preview *)

Record TunnelRuntimePreviewArtifact := mkArtifact { artifact_label : str; artifact_content : str }.
Record TunnelRuntimePreviewCommand := mkPreviewCommand { pc_phase : str; pc_label : str; pc_argv : argv }.
Record TunnelRuntimeEndpointPreview := mkEndpointPreview {
  ep_side : TunnelEndpointSide;
  ep_client_id : str;
  ep_artifacts : list TunnelRuntimePreviewArtifact;
  ep_commands : list TunnelRuntimePreviewCommand;
}.

Section Generated.

Context (sha256 : list Z -> list Z).

(** The address as a number: [fe80::/64] and the first eight bytes of the hash,
    the bit that marks a universal identifier cleared. *)
Definition generated_link_local_value (plan_id : Uuid) (client_id : str) : Z :=
  let hash := sha256 (as_bytes (lit "vpsman-tunnel-link-local-v1") ++ [0] ++ be_bytes 16 plan_id ++ [0]
                      ++ as_bytes client_id) in
  let iid := match take 8 hash with b :: bs => Z.land b 253 :: bs | [] => [] end in
  be_val ([254; 128; 0; 0; 0; 0; 0; 0] ++ iid).

Definition tunnel_generated_link_local (plan_id : Uuid) (client_id : str) : str :=
  format_ipv6 (generated_link_local_value plan_id client_id) ++ lit "/64".

(** [collides]: the text is the generated address. *)
Definition collides (generated_ip : str) (address : str) : bool :=
  match parse_ipv6_addr address with Some v => str_eqb (format_ipv6 v) generated_ip | None => false end.

(** The first entry that collides, by its index. *)
Fixpoint position {A} (f : A -> bool) (index : nat) (l : list A) : option nat :=
  match l with
  | [] => None
  | a :: l' => if f a then Some index else position f (S index) l'
  end.

Definition validate_link_local_side (plan_id : Uuid) (local : string) (client_id : str) (peer : string)
    (peer_primary : option str) (peer_extra : TunnelEndpointAdditionalAddresses) : planned unit :=
  let generated := tunnel_generated_link_local plan_id client_id in
  let generated_ip := trim_end_matches_str (lit "/64") generated in
  reject_if (match peer_primary with Some address => collides generated_ip address | None => false end)
    (InvalidAdditionalAddress
       (lit peer ++ lit " primary IPv6 conflicts with " ++ lit local ++ lit " automatic link-local " ++ generated));;
  match position (fun cidr => collides generated_ip (before_slash cidr)) 0 (extra_ipv6 peer_extra) with
  | Some index =>
      Err (InvalidAdditionalAddress
             (lit peer ++ lit " IPv6 line " ++ to_string (Z.of_nat index + 1) ++ lit " conflicts with " ++ lit local
              ++ lit " automatic link-local " ++ generated))
  | None => Ok tt
  end.

Definition validate_tunnel_link_local_addresses (plan_id : Uuid) (plan : TunnelPlan) : planned unit :=
  if tunnel_endpoint_manages_link_local plan then
    validate_link_local_side plan_id "left" (plan_left_client_id plan) "right"
      (option_map right (plan_ipv6_tunnel plan)) (extras_right (plan_additional_addresses plan));;
    validate_link_local_side plan_id "right" (plan_right_client_id plan) "left"
      (option_map left (plan_ipv6_tunnel plan)) (extras_left (plan_additional_addresses plan))
  else Ok tt.

(** [None] is a draft without identity. *)
Definition generated_or (plan_id : option Uuid) (draft : string) (client_id : str) : str :=
  match plan_id with Some id => tunnel_generated_link_local id client_id | None => lit draft end.

Definition build_tunnel_address_argv (base : argv) (plan : TunnelPlan) (endpoint : TunnelEndpointConfig)
    (plan_id : option Uuid) : list argv :=
  map (fun '(local, remote, prefix) =>
         base ++ [lit "addr"; lit "replace"; local; lit "peer"; remote ++ lit "/" ++ to_string prefix;
                  lit "dev"; plan_interface_name plan])
    (tunnel_endpoint_address_pairs plan endpoint)
  ++ map (fun cidr => base ++ [lit "addr"; lit "replace"; cidr; lit "dev"; plan_interface_name plan])
       (extra_ipv4 (e_additional_addresses endpoint) ++ extra_ipv6 (e_additional_addresses endpoint))
  ++ (if tunnel_endpoint_manages_link_local plan then
        let generated := generated_or plan_id "{generated_link_local}/64" (e_local_client_id endpoint) in
        if existsb (fun cidr => str_eqb (before_slash cidr) (before_slash generated))
             (tunnel_endpoint_explicit_address_cidrs plan endpoint)
        then []
        else [base ++ [lit "addr"; lit "replace"; generated; lit "dev"; plan_interface_name plan]]
      else []).

(** The peer's addresses of a family, as host routes. *)
Definition host_allowances (suffix : string) (cidrs : list str) : planned (list str) :=
  try_map (fun cidr => parts ← ok_or (split_once 47 cidr) InvalidCidr; Ok (fst parts ++ lit suffix)) cidrs.

Definition wireguard_allowed_ips (plan : TunnelPlan) (endpoint : TunnelEndpointConfig) (plan_id : option Uuid) :
    planned (list str) :=
  v4 ← match plan_ipv4_tunnel plan with
       | Some _ => Ok [lit "0.0.0.0/0"]
       | None => host_allowances "/32" (extra_ipv4 (e_peer_additional_addresses endpoint))
       end;
  match plan_ipv6_tunnel plan with
  | Some _ => Ok (v4 ++ [lit "::/0"])
  | None =>
      v6 ← host_allowances "/128" (extra_ipv6 (e_peer_additional_addresses endpoint));
      let allowed := v4 ++ v6 in
      if tunnel_endpoint_manages_link_local plan then
        let generated := generated_or plan_id "{generated_peer_link_local}/64" (e_peer_client_id endpoint) in
        let allowance := trim_end_matches_str (lit "/64") generated ++ lit "/128" in
        Ok (if existsb (str_eqb allowance) allowed then allowed else allowed ++ [allowance])
      else Ok allowed
  end.

Definition socket_text (address : IpAddr) (port : Z) : str :=
  match address with
  | IpV4 v => format_ipv4 v ++ lit ":" ++ to_string port
  | IpV6 v => lit "[" ++ format_ipv6 v ++ lit "]:" ++ to_string port
  end.

Definition build_wireguard_configure_argv (base : argv) (plan : TunnelPlan) (endpoint : TunnelEndpointConfig)
    (private_key_path : str) (peer_public_key : str) (plan_id : option Uuid) : planned argv :=
  let options := rc_wireguard (plan_runtime_control plan) in
  allowed_ips ← wireguard_allowed_ips plan endpoint plan_id;
  reject_if (is_empty allowed_ips) TunnelAddressRequired;;
  peer ← (if configures_peer_endpoint options (e_side endpoint) then
            address ← ok_or (parse_ip_addr (e_remote_underlay endpoint)) InvalidUnderlayAddress;
            Ok [lit "endpoint"; socket_text address (peer_listen_port options (e_side endpoint))]
          else Ok []);
  Ok (base ++ [lit "set"; plan_interface_name plan; lit "private-key"; private_key_path; lit "listen-port";
               to_string (listen_port options (e_side endpoint)); lit "peer"; peer_public_key]
      ++ peer
      ++ [lit "persistent-keepalive"; to_string (keepalive_secs options (e_side endpoint)); lit "allowed-ips";
          join (lit ",") allowed_ips]).

(** * The preview *)

Definition push (phase label : string) (words : argv) : TunnelRuntimePreviewCommand :=
  mkPreviewCommand (lit phase) (lit label) words.

(** [if let Some(hook) = .. { push(phase, label, render(hook)?) }]. *)
Definition push_hook (phase label : string) (hook : option RuntimeTunnelCommand) (plan : TunnelPlan)
    (endpoint : TunnelEndpointConfig) : planned (list TunnelRuntimePreviewCommand) :=
  match hook with
  | Some command => words ← render_runtime_tunnel_command command plan endpoint []; Ok [push phase label words]
  | None => Ok []
  end.

Definition ip_base : argv := [lit "{runtime_ip_argv}"].

Definition endpoint_state_dir (side : TunnelEndpointSide) : str :=
  path_join (lit "{agent_state}/network-tunnels/{plan_id}") (match side with SideLeft => "left" | SideRight => "right" end).

Definition preview_paths (side : TunnelEndpointSide) : OpenvpnConfigPaths :=
  let dir := endpoint_state_dir side in
  mkPaths (path_join dir "openvpn.key") (path_join dir "openvpn.crt") (path_join dir "openvpn-peer-ca.crt")
    (path_join dir "openvpn.pid") (path_join dir "openvpn.status").

(** The commands that create the device, and the files that go with them. *)
Definition preview_start (plan : TunnelPlan) (endpoint : TunnelEndpointConfig) (plan_id : option Uuid) :
    planned (list TunnelRuntimePreviewArtifact * list TunnelRuntimePreviewCommand) :=
  let side := e_side endpoint in
  match plan_kind plan with
  | Gre | Gre6 | Ipip | Sit | Fou =>
      words ← build_ip_tunnel_argv ip_base (lit "add") plan endpoint;
      Ok ([], (if kind_is (plan_kind plan) Fou
               then [push "start" "FOU listener" (build_fou_listener_argv ip_base (lit "add") plan)] else [])
              ++ [push "start" "Create interface when absent" words])
  | Wireguard =>
      words ← build_wireguard_configure_argv [lit "{runtime_wg_argv}"] plan endpoint
                (path_join (endpoint_state_dir side) "wireguard.key") (lit "{peer_public_key}") plan_id;
      Ok ([], [push "start" "Create interface when absent"
                 (ip_base ++ [lit "link"; lit "add"; lit "dev"; plan_interface_name plan; lit "type"; lit "wireguard"]);
               push "configure" "Configure WireGuard" words])
  | Openvpn =>
      legacy ← render_openvpn_config plan endpoint (preview_paths side) false;
      current ← render_openvpn_config plan endpoint (preview_paths side) true;
      Ok ([mkArtifact (lit "OpenVPN 2.4 configuration") legacy; mkArtifact (lit "OpenVPN 2.5+ configuration") current],
          [push "start" "Start OpenVPN when absent or configuration changed"
             [lit "{runtime_openvpn_argv}"; lit "--config"; path_join (endpoint_state_dir side) "openvpn.conf"]])
  | TunTap | Custom => Err UnsupportedRuntimeManagerTunnelKind
  end.

Definition link_local_artifact (plan_id : option Uuid) : TunnelRuntimePreviewArtifact :=
  mkArtifact (lit "Managed IPv6 link-local")
    (lit "The agent disables native link-local generation and maintains one stable generated /64 address for this plan UUID and endpoint identity, plus all explicitly configured link-local addresses. Other link-local addresses on this agent-owned interface are removed."
     ++ match plan_id with
        | None => lit " The generated address is assigned when this draft is saved; placeholders below are not executable addresses."
        | Some _ => []
        end).

Definition preview_endpoint (plan : TunnelPlan) (plan_id : option Uuid) (side : TunnelEndpointSide) :
    planned TunnelRuntimeEndpointPreview :=
  endpoint ← render_tunnel_endpoint_config plan side;
  let hooks := hooks_for_side (rc_hooks (plan_runtime_control plan)) side in
  let interface := plan_interface_name plan in
  let topology := plan_runtime_topology plan in
  let managed := tunnel_endpoint_manages_link_local plan in
  before ← push_hook "pre_start" "Pre-start hook" (pre_start hooks) plan endpoint;
  start ← preview_start plan endpoint plan_id;
  let '(artifacts, starting) := start in
  mtu ← ok_or (e_local_mtu endpoint) TunnelMtuRequired;
  started ← push_hook "post_start" "Post-start hook" (post_start hooks) plan endpoint;
  stopping ← push_hook "pre_shutdown" "Pre-shutdown hook" (pre_shutdown hooks) plan endpoint;
  stopped ← push_hook "post_shutdown" "Post-shutdown hook" (post_shutdown hooks) plan endpoint;
  Ok (mkEndpointPreview side (e_local_client_id endpoint)
        (artifacts ++ (if managed then [link_local_artifact plan_id] else [])
         ++ (if kind_is (plan_kind plan) Openvpn
             then [mkArtifact (lit "Native shutdown")
                     (lit "Signal and wait for the existing agent-owned OpenVPN process; PID is resolved on the agent.")]
             else []))
        (before
         ++ map (fun c => mkPreviewCommand (lit "cleanup") (native_label c) (native_argv c))
              (build_tunnel_topology_cleanup_commands ip_base plan)
         ++ starting
         ++ [push "configure" "Set interface MTU"
               (ip_base ++ [lit "link"; lit "set"; lit "dev"; interface; lit "mtu"; to_string mtu])]
         ++ (if managed
             then [push "configure" "Set managed link-local generation mode"
                     (ip_base ++ [lit "link"; lit "set"; lit "dev"; interface; lit "addrgenmode"; lit "none"])]
             else [])
         ++ map (push "configure" "Set tunnel address") (build_tunnel_address_argv ip_base plan endpoint plan_id)
         ++ [push "configure" "Bring interface up"
               (ip_base ++ [lit "link"; lit "set"; lit "dev"; interface; lit "up"])]
         ++ map (fun route => push "configure" "Apply declared route"
                                (build_ip_route_argv ip_base (lit "replace") route interface))
              (topology_routes topology)
         ++ map (fun c => mkPreviewCommand (lit "configure") (native_label c) (native_argv c))
              (build_tunnel_traffic_limit_commands [lit "{runtime_tc_argv}"] interface
                 (rc_traffic_limit (plan_runtime_control plan)))
         ++ started ++ stopping
         ++ map (fun route => push "shutdown" "Remove declared route"
                                (build_ip_route_argv ip_base (lit "del") route interface))
              (topology_routes topology)
         ++ [push "shutdown" "Remove interface when present"
               (ip_base ++ [lit "link"; lit "delete"; lit "dev"; interface])]
         ++ (if kind_is (plan_kind plan) Fou
             then [push "shutdown" "Remove FOU listener" (build_fou_listener_argv ip_base (lit "del") plan)] else [])
         ++ stopped)).

Definition render_tunnel_runtime_preview (plan : TunnelPlan) (plan_id : option Uuid) :
    planned (list TunnelRuntimeEndpointPreview) :=
  reject_if (negb (builtin (rc_manager (plan_runtime_control plan)))) UnsupportedRuntimeManagerTunnelKind;;
  match plan_id with
  | Some id => validate_tunnel_link_local_addresses id plan
  | None => Ok tt
  end;;
  try_map (preview_endpoint plan plan_id) [SideLeft; SideRight].

End Generated.
