(* ===== verification/NetworkAllocator.v ===== *)
(** Allocation of tunnel endpoints: crates/common/src/network/network_allocator.rs.

    The allocator hands out the first aligned, unoccupied subnet of a pool, or
    completes the endpoints an operator has chosen.  [IpNet] is a type of the
    [ipnet] crate: the class [IpNetOps] is the part of its interface the code
    calls, [IpNetLaws] what its documentation says of it, and the definitions
    here are written, as the theorems are proved, against the two. *)

From stdpp Require Import sorting.
From S2P Require Import Prelude RustStd Net F64 TunnelModels.

Open Scope Z_scope.

(** * The interface of the [ipnet] crate *)

Class IpNetOps (IpNet : Type) := {
  net_new : IpAddr -> Z -> option IpNet;
  net_from : IpAddr -> IpNet;
  net_parse : str -> option IpNet;
  net_trunc : IpNet -> IpNet;
  net_is_v4 : IpNet -> bool;
  net_prefix_len : IpNet -> Z;
  net_network : IpNet -> Z;
  net_broadcast : IpNet -> Z;
  net_contains : IpNet -> IpAddr -> bool;
}.

(** Host bits of a network. *)
Definition net_host_bits {IpNet} `{IpNetOps IpNet} (n : IpNet) : Z :=
  ip_width (net_is_v4 n) - net_prefix_len n.

Class IpNetLaws (IpNet : Type) `{IpNetOps IpNet} : Prop := {
  net_prefix_range n : 0 <= net_prefix_len n <= ip_width (net_is_v4 n);
  (** The first address has the host bits clear and lies in the family. *)
  net_network_aligned n : (2 ^ net_host_bits n | net_network n);
  net_network_range n : 0 <= net_network n < 2 ^ ip_width (net_is_v4 n);
  (** The last address has them set. *)
  net_broadcast_eq n : net_broadcast n = net_network n + 2 ^ net_host_bits n - 1;
  net_trunc_family n : net_is_v4 (net_trunc n) = net_is_v4 n;
  net_trunc_prefix n : net_prefix_len (net_trunc n) = net_prefix_len n;
  net_trunc_network n : net_network (net_trunc n) = net_network n;
  (** A network can be built from an address and a prefix within the width. *)
  net_new_spec a p :
    ip_wf a -> 0 <= p <= ip_width (is_ipv4 a) ->
    exists n, net_new a p = Some n /\ net_is_v4 n = is_ipv4 a /\ net_prefix_len n = p /\
              net_network n = ip_value a / 2 ^ (ip_width (is_ipv4 a) - p) * 2 ^ (ip_width (is_ipv4 a) - p);
  net_contains_spec n a :
    net_contains n a = true <->
    net_is_v4 n = is_ipv4 a /\ net_network n <= ip_value a <= net_broadcast n;
}.

(** * Data *)

Record TunnelEndpointAllocation := mkAllocation {
  alloc_ipv4_tunnel : option TunnelAddressPair;
  alloc_ipv6_tunnel : option TunnelAddressPair;
  latency_primary_family : TunnelAddressFamily;
}.

Record TunnelEndpointAllocationOptions := mkOptions {
  include_ipv4 : bool;
  include_ipv6 : bool;
  ipv4_prefix_len : Z;
  ipv6_prefix_len : Z;
  preferred_ipv4 : option TunnelAddressPair;
  preferred_ipv6 : option TunnelAddressPair;
}.

Definition options_default : TunnelEndpointAllocationOptions := mkOptions true false 31 127 None None.

(** * Subnets and intervals *)

Definition format_address (value : Z) (ipv4 : bool) : str :=
  if ipv4 then format_ipv4 (value mod 2 ^ 32) else format_ipv6 value.

(** [host_bits] is at most 128. *)
Definition host_mask (host_bits : Z) : Z :=
  if host_bits =? 128 then u128_max else 2 ^ host_bits - 1.

(** The loop over the sorted intervals; [candidate] is the subnet tried. *)
Fixpoint free_subnet_loop (pool_end mask : Z) (candidate : Z) (occupied : list (Z * Z)) : planned Z :=
  match occupied with
  | [] => Ok candidate
  | (start, end_) :: occupied' =>
      if end_ <? candidate then free_subnet_loop pool_end mask candidate occupied'
      else if Z.lor candidate mask <? start then Ok candidate
      else
        match checked_add u128_max (Z.lor end_ mask) 1 with
        | Some next =>
            if next <=? pool_end then free_subnet_loop pool_end mask next occupied'
            else Err AddressPoolExhausted
        | None => Err AddressPoolExhausted
        end
  end.

Definition first_free_subnet (pool_start pool_end mask : Z) (occupied : list (Z * Z)) : planned Z :=
  candidate ← free_subnet_loop pool_end mask pool_start occupied;
  if Z.lor candidate mask <=? pool_end then Ok candidate else Err AddressPoolExhausted.

(** The order [sort_unstable] sorts pairs by. *)
Definition pair_le (a b : Z * Z) : Prop := fst a < fst b \/ (fst a = fst b /\ snd a <= snd b).

#[export] Instance pair_le_dec : RelDecision pair_le.
Proof. intros a b. unfold pair_le. solve_decision. Defined.

(** One turn of the merge; the accumulator is [merged] with its last first. *)
Definition merge_step (merged : list (Z * Z)) (interval : Z * Z) : list (Z * Z) :=
  let '(start, end_) := interval in
  match merged with
  | (last_start, last_end) :: rest =>
      if start <=? saturating_add u128_max last_end 1
      then (last_start, Z.max last_end end_) :: rest
      else interval :: merged
  | [] => [interval]
  end.

Section Allocator.
Context {IpNet : Type} `{IpNetOps IpNet}.

Definition network_interval (network : IpNet) : Z * Z := (net_network network, net_broadcast network).

Definition merged_intervals (networks : list IpNet) (ipv4 : bool) : list (Z * Z) :=
  let intervals := map network_interval (List.filter (fun n => eqb (net_is_v4 n) ipv4) networks) in
  rev (foldl merge_step [] (merge_sort pair_le intervals)).

Definition tunnel_networks_overlap (l r : IpNet) : bool :=
  if negb (eqb (net_is_v4 l) (net_is_v4 r)) then false
  else
    let '(left_start, left_end) := network_interval l in
    let '(right_start, right_end) := network_interval r in
    (left_start <=? right_end) && (right_start <=? left_end).

(** [Ipv6Addr::is_unicast_link_local] of the first address, from prefix 10 on. *)
Definition is_link_local_network (network : IpNet) : bool :=
  negb (net_is_v4 network) && (10 <=? net_prefix_len network)
  && (Z.land (net_network network / 2 ^ 112) 65472 =? 65152).

(** * Reservations and pairs *)

Definition parse_reservation (value : str) : planned IpNet :=
  let value := trim value in
  match net_parse value with
  | Some network => Ok (net_trunc network)
  | None =>
      match parse_ip_addr value with
      | Some address => Ok (net_from address)
      | None => Err (InvalidReservedAddress value)
      end
  end.

Definition pair_network (tunnel : TunnelAddressPair) (ipv4 : bool) : planned IpNet :=
  l ← ok_or (parse_ip_addr (left tunnel)) InvalidCidr;
  r ← ok_or (parse_ip_addr (right tunnel)) InvalidCidr;
  if bool_decide (l = r) || negb (eqb (is_ipv4 l) ipv4) || negb (eqb (is_ipv4 r) ipv4)
  then Err InvalidCidr
  else
    network ← ok_or (net_new l (prefix_len tunnel)) InvalidCidr;
    let network := net_trunc network in
    if negb (net_contains network r) then Err InvalidCidr else Ok network.

(** The first host address the code uses: IPv4 subnets below /31 skip the
    network address. *)
Definition first_host (start : Z) (prefix : Z) (ipv4 : bool) : Z :=
  start + (if ipv4 && (prefix <? 31) then 1 else 0).

Definition peer_value (first anchor : Z) : Z := first + (if first =? anchor then 1 else 0).

Definition fill_preferred_pair (tunnel : TunnelAddressPair) (ipv4 : bool) : planned TunnelAddressPair :=
  let left_empty := is_empty (trim (left tunnel)) in
  let right_empty := is_empty (trim (right tunnel)) in
  if negb left_empty && negb right_empty then Ok tunnel
  else
    anchor ← ok_or (parse_ip_addr (if left_empty then right tunnel else left tunnel))
               InvalidPreferredTunnelAddress;
    if negb (eqb (is_ipv4 anchor) ipv4) then Err InvalidPreferredTunnelAddress
    else
      network ← ok_or (net_new anchor (prefix_len tunnel)) InvalidPreferredTunnelAddress;
      let '(start, _) := network_interval (net_trunc network) in
      let first := first_host start (prefix_len tunnel) ipv4 in
      let peer := format_address (peer_value first (ip_value anchor)) ipv4 in
      Ok (mkPair (if left_empty then peer else left tunnel)
                 (if right_empty then peer else right tunnel) (prefix_len tunnel)).

(** * The entry points *)

Definition has_endpoint (tunnel : TunnelAddressPair) : bool :=
  negb (is_empty (trim (left tunnel))) || negb (is_empty (trim (right tunnel))).

(** The branch of a pair with an endpoint the operator chose. *)
Definition resolve_preferred (tunnel : TunnelAddressPair) (prefix : Z) (occupied : list IpNet)
    (ipv4 : bool) : planned TunnelAddressPair :=
  if negb (prefix_len tunnel =? prefix) then Err InvalidPreferredTunnelAddress
  else
    tunnel ← fill_preferred_pair tunnel ipv4;
    network ← map_err (fun _ => InvalidPreferredTunnelAddress) (pair_network tunnel ipv4);
    if existsb (tunnel_networks_overlap network) occupied then Err TunnelAddressConflict
    else Ok tunnel.

(** The branch that takes a subnet of the pool. *)
Definition resolve_from_pool (pool : option str) (prefix : Z) (occupied : list IpNet) (ipv4 : bool) :
  planned TunnelAddressPair :=
  let width := ip_width ipv4 in
  text ← ok_or (match pool with
                | Some value => if is_empty (trim value) then None else Some (trim value)
                | None => None
                end) AddressPoolRequired;
  parsed ← ok_or (net_parse text) InvalidCidr;
  let pool := net_trunc parsed in
  if negb (eqb (net_is_v4 pool) ipv4) then Err InvalidCidr
  else if prefix <? net_prefix_len pool then Err AddressPoolTooSmall
  else
    let intervals := merged_intervals occupied ipv4 in
    let '(pool_start, pool_end) := network_interval pool in
    start ← first_free_subnet pool_start pool_end (host_mask (width - prefix)) intervals;
    let first := first_host start prefix ipv4 in
    Ok (mkPair (format_address first ipv4) (format_address (first + 1) ipv4) prefix).

Definition resolve_family (pool : option str) (prefix : Z) (preferred : option TunnelAddressPair)
    (occupied : list IpNet) (ipv4 : bool) : planned TunnelAddressPair :=
  if ip_width ipv4 <=? prefix then Err InvalidTunnelPrefix
  else
    match preferred with
    | Some tunnel =>
        if has_endpoint tunnel then resolve_preferred tunnel prefix occupied ipv4
        else resolve_from_pool pool prefix occupied ipv4
    | None => resolve_from_pool pool prefix occupied ipv4
    end.

Definition allocate_tunnel_endpoints_with_options (ipv4_pool_cidr ipv6_pool_cidr : option str)
    (reserved_addresses : list str) (options : TunnelEndpointAllocationOptions) :
  planned TunnelEndpointAllocation :=
  if negb (include_ipv4 options) && negb (include_ipv6 options) then Err TunnelAddressRequired
  else
    occupied ← try_map parse_reservation reserved_addresses;
    ipv4_tunnel ←
      (if include_ipv4 options then
         tunnel ← resolve_family ipv4_pool_cidr (ipv4_prefix_len options) (preferred_ipv4 options)
                  occupied true;
         Ok (Some tunnel)
       else Ok None);
    ipv6_tunnel ←
      (if include_ipv6 options then
         tunnel ← resolve_family ipv6_pool_cidr (ipv6_prefix_len options) (preferred_ipv6 options)
                  occupied false;
         Ok (Some tunnel)
       else Ok None);
    Ok (mkAllocation ipv4_tunnel ipv6_tunnel
          (match ipv4_tunnel with Some _ => Ipv4 | None => Ipv6 end)).

Definition allocate_tunnel_endpoints (ipv4_pool_cidr ipv6_pool_cidr : option str)
    (reserved_addresses : list str) (ipv4 ipv6 : bool) : planned TunnelEndpointAllocation :=
  allocate_tunnel_endpoints_with_options ipv4_pool_cidr ipv6_pool_cidr reserved_addresses
    (mkOptions ipv4 ipv6 (ipv4_prefix_len options_default) (ipv6_prefix_len options_default)
       (preferred_ipv4 options_default) (preferred_ipv6 options_default)).

Definition pair_networks (tunnel : option TunnelAddressPair) (ipv4 : bool) : planned (list IpNet) :=
  match tunnel with
  | Some tunnel => network ← pair_network tunnel ipv4; Ok [network]
  | None => Ok []
  end.

Definition tunnel_plan_global_networks (plan : TunnelPlan) : planned (list IpNet) :=
  v4 ← pair_networks (plan_ipv4_tunnel plan) true;
  v6 ← pair_networks (plan_ipv6_tunnel plan) false;
  Ok (List.filter (fun network => negb (is_link_local_network network)) (v4 ++ v6)).

End Allocator.
