(* ===== verification/AllocatorProofs.v ===== *)
(** Theorems on the tunnel allocator ([NetworkAllocator]), proved for every
    implementation of the [ipnet] interface: allocation is first fit over the
    aligned subnets of the pool and fails only when none is free, chosen
    endpoints are kept and never collide, and exactly the subnets inside
    fe80::/10 are interface-local. *)

From stdpp Require Import sorting.
From S2P Require Import Prelude RustStd Net TunnelModels NetworkAllocator.

Open Scope Z_scope.

(** * Reference definitions *)

(** [x] lies in one of the inclusive intervals. *)
Definition covered (l : list (Z * Z)) (x : Z) : Prop :=
  exists s e, In (s, e) l /\ s <= x <= e.

(** The subnet of [2^h] addresses from [c] on meets none of the intervals. *)
Definition block_free (h : Z) (l : list (Z * Z)) (c : Z) : Prop :=
  forall x, c <= x < c + 2 ^ h -> ~ covered l x.

Definition interval_ok (i : Z * Z) : Prop := 0 <= fst i <= snd i /\ snd i <= u128_max.

Definition start_le (a b : Z * Z) : Prop := fst a <= fst b.

(** What the loop answers from [c] on. *)
Definition fit (h pool_end : Z) (l : list (Z * Z)) (c : Z) (r : result NetworkPlanError Z) : Prop :=
  match r with
  | Ok r => (2 ^ h | r) /\ c <= r /\ block_free h l r /\
            forall b, (2 ^ h | b) -> c <= b < r -> ~ block_free h l b
  | Err e => e = AddressPoolExhausted /\
             forall b, (2 ^ h | b) -> c <= b -> b + 2 ^ h - 1 <= pool_end -> ~ block_free h l b
  end.

Section Reference.
Context {IpNet : Type} `{IpNetOps IpNet}.

(** A subnet the allocator may hand out: aligned and inside the pool. *)
Definition subnet_of (pool : IpNet) (h start : Z) : Prop :=
  (2 ^ h | start) /\ net_network pool <= start /\ start + 2 ^ h - 1 <= net_broadcast pool.

(** No address of the subnet belongs to an occupied network of the family. *)
Definition unoccupied (occupied : list IpNet) (ipv4 : bool) (h start : Z) : Prop :=
  forall n x, In n occupied -> net_is_v4 n = ipv4 -> start <= x < start + 2 ^ h ->
    ~ (net_network n <= x <= net_broadcast n).

End Reference.

(** ** A concrete [ipnet] *)

Record cidr := mkCidr { cidr_v4 : bool; cidr_addr : Z; cidr_prefix : Z }.

(** The prefix and the address, clamped to the family. *)
Definition cidr_len (n : cidr) : Z := Z.max 0 (Z.min (ip_width (cidr_v4 n)) (cidr_prefix n)).
Definition cidr_host (n : cidr) : Z := 2 ^ (ip_width (cidr_v4 n) - cidr_len n).
Definition cidr_first (n : cidr) : Z :=
  (cidr_addr n mod 2 ^ ip_width (cidr_v4 n)) / cidr_host n * cidr_host n.
Definition cidr_parse (s : str) : option cidr :=
  match split_once 47 s with
  | Some (a, p) =>
      address ← parse_ip_addr a;
      prefix ← parse_unsigned (ip_width (is_ipv4 address)) p;
      Some (mkCidr (is_ipv4 address) (ip_value address) prefix)
  | None => None
  end.

#[export] Instance cidr_ops : IpNetOps cidr := {
  net_new a p := if in_range 0 (ip_width (is_ipv4 a)) p
                 then Some (mkCidr (is_ipv4 a) (ip_value a) p) else None;
  net_from a := mkCidr (is_ipv4 a) (ip_value a) (ip_width (is_ipv4 a));
  net_parse := cidr_parse;
  net_trunc n := mkCidr (cidr_v4 n) (cidr_first n) (cidr_prefix n);
  net_is_v4 := cidr_v4;
  net_prefix_len := cidr_len;
  net_network := cidr_first;
  net_broadcast n := cidr_first n + cidr_host n - 1;
  net_contains n a := eqb (cidr_v4 n) (is_ipv4 a) && (cidr_first n <=? ip_value a)
                      && (ip_value a <=? cidr_first n + cidr_host n - 1);
}.

(** 10.0.0.0/29 with 10.0.0.0/31 and 10.0.0.3 taken: the next free /31 is 10.0.0.4. *)
Definition ex_pool : str := lit "10.0.0.0/29".
Definition ex_pool_net : cidr := mkCidr true 167772160 29.
Definition ex_occupied : list cidr := [mkCidr true 167772163 32; mkCidr true 167772160 31].

(** * Masks and alignment *)

Lemma div_eq_iff a k q : 0 < k -> a / k = q <-> q * k <= a < (q + 1) * k.
Proof.
  intros Hk. split.
  - intros <-. pose proof (Z.mod_pos_bound a k Hk). pose proof (Z.div_mod a k). lia.
  - intros H. symmetry. apply (Z.div_unique a k q (a - q * k)); lia.
Qed.

(** The ten leading bits of a 16-bit group. *)
Lemma land_leading_bits top :
  0 <= top < 65536 -> Z.land top 65472 = 65152 <-> top / 64 = 1018.
Proof.
  intros Ht. replace (Z.land top 65472) with (top / 64 * 64); [lia|].
  change 64 with (2 ^ 6). rewrite <- Z.shiftr_div_pow2, <- Z.shiftl_mul_pow2, <- Z.ldiff_ones_r by lia.
  transitivity (Z.land (Z.land top (Z.ones 16)) (Z.lnot (Z.ones 6))).
  - rewrite Z.land_ones, Z.mod_small, Z.ldiff_land by lia. done.
  - rewrite <- Z.land_assoc. f_equal.
Qed.

Lemma lor_mask x h : 0 <= h -> Z.lor x (2 ^ h - 1) = x / 2 ^ h * 2 ^ h + 2 ^ h - 1.
Proof.
  intros Hh. replace (2 ^ h - 1) with (Z.ones h) by (rewrite Z.ones_equiv; lia).
  transitivity (x / 2 ^ h * 2 ^ h + Z.ones h); [|rewrite Z.ones_equiv; lia].
  rewrite <- Z.shiftr_div_pow2, <- Z.shiftl_mul_pow2 by done.
  rewrite Z.add_nocarry_lxor, Z.lxor_lor.
  1: apply Z.bits_inj'; intros i Hi; rewrite !Z.lor_spec, Z.shiftl_spec by done;
     destruct (Z.lt_ge_cases i h);
     [rewrite Z.ones_spec_low by lia; by rewrite !orb_true_r|
      rewrite Z.shiftr_spec by lia; by replace (i - h + h) with i by lia].
  all: apply Z.bits_inj'; intros i Hi; rewrite Z.land_spec, Z.shiftl_spec, Z.bits_0 by done;
     destruct (Z.lt_ge_cases i h);
     [rewrite Z.testbit_neg_r by lia; done|rewrite Z.ones_spec_high by lia; apply andb_false_r].
Qed.

Lemma aligned_floor k x b : 0 < k -> (k | b) -> b <= x -> b <= x / k * k.
Proof.
  intros Hk [q ->] Hb. apply Z.mul_le_mono_nonneg_r; [lia|].
  apply Z.div_le_lower_bound; lia.
Qed.

Lemma aligned_next k c b : 0 < k -> (k | c) -> (k | b) -> c < b -> c + k <= b.
Proof.
  intros Hk [p ->] [q ->] H. assert (p < q) by (apply (Z.mul_lt_mono_pos_r k); lia).
  replace (p * k + k) with ((p + 1) * k) by lia. apply Z.mul_le_mono_nonneg_r; lia.
Qed.

Lemma host_mask_eq h : 0 <= h <= 128 -> host_mask h = 2 ^ h - 1.
Proof. intros Hh. unfold host_mask. destruct (h =? 128) eqn:E; [bools; by subst|done]. Qed.

(** * First fit *)

Lemma block_free_cons h s e l c :
  s <= e -> 0 <= h ->
  block_free h ((s, e) :: l) c <-> (e < c \/ c + 2 ^ h - 1 < s) /\ block_free h l c.
Proof.
  intros Hse Hh. pose proof (Z.pow_pos_nonneg 2 h ltac:(lia) Hh) as Hk. split.
  - intros Hf. split.
    + destruct (Z.lt_ge_cases e c); [by left|]. destruct (Z.lt_ge_cases (c + 2 ^ h - 1) s); [by right|].
      exfalso. apply (Hf (Z.max c s)); [lia|]. exists s, e. split; [by left|lia].
    + intros x Hx (s' & e' & Hin & Hr). apply (Hf x Hx). exists s', e'. split; [by right|done].
  - intros [Hd Hf] x Hx (s' & e' & [[= <- <-]|Hin] & Hr); [lia|]. apply (Hf x Hx). by exists s', e'.
Qed.

Section FirstFit.
Context (h pool_end : Z) (Hh : 0 <= h) (Hend : pool_end <= u128_max).

Lemma fit_skip l c s e r : s <= e -> e < c -> fit h pool_end l c r -> fit h pool_end ((s, e) :: l) c r.
Proof.
  intros Hse Hec. destruct r as [r|err]; cbn.
  - intros (Ha & Hc & Hf & Hm). split; [done|]. split; [done|].
    split; [apply block_free_cons; [done|done|]; split; [lia|done]|].
    intros b Hb Hr Hfb. apply block_free_cons in Hfb as [_ Hfb]; [|done|done]. by apply (Hm b).
  - intros [-> Hm]. split; [done|]. intros b Hb Hc Hp Hfb.
    apply block_free_cons in Hfb as [_ Hfb]; [|done|done]. by apply (Hm b).
Qed.

(** The blocks up to the end of an overlapping interval are taken. *)
Lemma taken_below l c s e b :
  s <= e -> (2 ^ h | c) -> (2 ^ h | b) -> s <= c + 2 ^ h - 1 ->
  c <= b < e / 2 ^ h * 2 ^ h + 2 ^ h -> c <= e -> ~ block_free h ((s, e) :: l) b.
Proof.
  intros Hse Hc Hb Hs Hr Hce Hf. pose proof (Z.pow_pos_nonneg 2 h ltac:(lia) Hh) as Hk.
  apply block_free_cons in Hf as [[Hf|Hf] _]; [| |done|done].
  - assert (2 ^ h | e / 2 ^ h * 2 ^ h) as Hd by apply Z.divide_factor_r.
    pose proof (aligned_next _ _ _ Hk Hd Hb). pose proof (Z.mul_div_le e (2 ^ h) Hk).
    assert (e / 2 ^ h * 2 ^ h < b) by lia. lia.
  - destruct (Z.eq_dec b c) as [->|Hne]; [lia|]. pose proof (aligned_next _ _ _ Hk Hc Hb). lia.
Qed.

Lemma loop_fit l c :
  StronglySorted start_le l -> Forall interval_ok l -> (2 ^ h | c) ->
  fit h pool_end l c (free_subnet_loop pool_end (2 ^ h - 1) c l).
Proof.
  intros Hs Ho. revert c. pose proof (Z.pow_pos_nonneg 2 h ltac:(lia) Hh) as Hk.
  induction Hs as [|[s e] l Hs IH Hall]; intros c Hc; cbn.
  { split; [done|]. split; [lia|]. split; [|lia]. intros x _ (? & ? & [] & _). }
  apply Forall_cons in Ho as [[[Hs0 Hse] He] Ho]. cbn in Hs0, Hse, He. specialize (IH Ho).
  destruct (e <? c) eqn:E1; bools; [apply fit_skip; [done|done|by apply IH]|].
  rewrite !lor_mask by done.
  assert (Hcc : c / 2 ^ h * 2 ^ h = c) by (destruct Hc as [q ->]; rewrite Z.div_mul by lia; done).
  rewrite Hcc. destruct (c + 2 ^ h - 1 <? s) eqn:E2; bools.
  { cbn. split; [done|]. split; [lia|]. split; [|lia]. intros x Hx (s' & e' & Hin & Hr).
    destruct Hin as [[= <- <-]|Hin]; [lia|]. rewrite Forall_forall in Hall.
    specialize (Hall (s', e') (proj2 (list_elem_of_In _ _) Hin)). unfold start_le in Hall. cbn in Hall. lia. }
  set (next := e / 2 ^ h * 2 ^ h + 2 ^ h).
  assert (Hnext : (2 ^ h | next)) by (apply Z.divide_add_r; [apply Z.divide_factor_r|done]).
  assert (Htaken : forall b, (2 ^ h | b) -> c <= b < next -> ~ block_free h ((s, e) :: l) b)
    by (intros b Hb Hr; apply (taken_below l c s e b); done || (unfold next in *; lia)).
  pose proof (aligned_floor _ _ _ Hk Hc E1) as Hle.
  assert (Hexh : ~ next <= pool_end -> fit h pool_end ((s, e) :: l) c (Err AddressPoolExhausted)).
  { intros Hn. split; [done|]. intros b Hb Hcb Hbp. apply Htaken; [done|]. lia. }
  unfold checked_add. replace (next - 1 + 1) with next by lia.
  destruct (next <=? u128_max) eqn:E3; bools; [|apply Hexh; lia].
  destruct (next <=? pool_end) eqn:E4; bools; [|apply Hexh; lia].
  assert (Hen : e < next) by (pose proof (Z.mod_pos_bound e (2 ^ h) Hk); pose proof (Z.div_mod e (2 ^ h)); unfold next; lia).
  pose proof (fit_skip l next s e _ Hse Hen (IH next Hnext)) as Hf.
  destruct (free_subnet_loop pool_end (2 ^ h - 1) next l) as [r|err]; cbn in Hf |- *.
  - destruct Hf as (Ha & Hnr & Hfr & Hm). split; [done|]. split; [unfold next in *; lia|]. split; [done|].
    intros b Hb Hr. destruct (Z.lt_ge_cases b next); [apply Htaken; [done|lia]|apply Hm; [done|lia]].
  - destruct Hf as [-> Hm]. split; [done|]. intros b Hb Hcb Hbp.
    destruct (Z.lt_ge_cases b next); [apply Htaken; [done|lia]|by apply Hm].
Qed.

End FirstFit.

Lemma first_fit h pool_start pool_end l :
  0 <= h -> pool_end <= u128_max -> (2 ^ h | pool_start) ->
  StronglySorted start_le l -> Forall interval_ok l ->
  match first_free_subnet pool_start pool_end (2 ^ h - 1) l with
  | Ok r => (2 ^ h | r) /\ pool_start <= r /\ r + 2 ^ h - 1 <= pool_end /\ block_free h l r /\
            forall b, (2 ^ h | b) -> pool_start <= b < r -> ~ block_free h l b
  | Err e => e = AddressPoolExhausted /\
             forall b, (2 ^ h | b) -> pool_start <= b -> b + 2 ^ h - 1 <= pool_end ->
               ~ block_free h l b
  end.
Proof.
  intros Hh Hend Ha Hs Ho. unfold first_free_subnet.
  pose proof (loop_fit h pool_end Hh Hend l pool_start Hs Ho Ha) as Hf.
  destruct (free_subnet_loop _ _ _ _) as [r|e]; cbn in Hf |- *; [|done].
  destruct Hf as (Hr & Hle & Hfr & Hm).
  assert (Hrr : r / 2 ^ h * 2 ^ h = r)
    by (pose proof (Z.pow_pos_nonneg 2 h); destruct Hr as [q ->]; rewrite Z.div_mul by lia; done).
  rewrite lor_mask, Hrr by done. destruct (_ <=? pool_end) eqn:E; bools; [done|].
  split; [done|]. intros b Hb Hp Hbp. apply Hm; [done|lia].
Qed.

(** * Merged intervals *)

Lemma merge_step_spec acc i :
  interval_ok i -> Forall interval_ok acc -> StronglySorted (flip start_le) acc ->
  Forall (fun j => start_le j i) acc ->
  (forall x, covered (merge_step acc i) x <-> covered acc x \/ covered [i] x) /\
  Forall interval_ok (merge_step acc i) /\ StronglySorted (flip start_le) (merge_step acc i) /\
  (forall j, start_le i j -> Forall (fun k => start_le k j) (merge_step acc i)).
Proof.
  destruct i as [s e]. intros [[H0 Hse] He] Ho Hs Hle. cbn in H0, Hse, He. unfold merge_step.
  assert (Hkeep : forall j, start_le (s, e) j -> Forall (fun k => start_le k j) acc).
  { intros j Hj. eapply Forall_impl; [exact Hle|]. unfold start_le in *. cbn in *. intros; lia. }
  assert (Hpush : (forall x, covered ((s, e) :: acc) x <-> covered acc x \/ covered [(s, e)] x) /\
    Forall interval_ok ((s, e) :: acc) /\ StronglySorted (flip start_le) ((s, e) :: acc) /\
    (forall j, start_le (s, e) j -> Forall (fun k => start_le k j) ((s, e) :: acc))).
  { split; [|split; [by constructor|split; [by constructor|]]].
    - intros x. unfold covered. split.
      + intros (a & b & [Hin|Hin] & Hr); [right|left]; exists a, b; (split; [|done]); [by left|done].
      + intros [(a & b & Hin & Hr)|(a & b & [Hin|[]] & Hr)]; exists a, b; (split; [|done]);
          [by right|by left].
    - intros j Hj. constructor; [done|by apply Hkeep]. }
  destruct acc as [|[ls le] rest]; [exact Hpush|].
  destruct (s <=? saturating_add u128_max le 1) eqn:E; [|exact Hpush]. clear Hpush.
  unfold saturating_add in E. bools. apply Forall_cons in Ho as [[[Hl0 Hl1] Hl2] Ho]. cbn in Hl0, Hl1, Hl2.
  apply Forall_cons in Hle as [Hls Hle]. unfold start_le in Hls. cbn in Hls.
  split; [|split; [constructor; [split; cbn; lia|done]|split]].
  - intros x. unfold covered. split.
    + intros (a & b & [[= <- <-]|Hin] & Hr).
      * destruct (Z.le_gt_cases x le); [left; exists ls, le|right; exists s, e];
          (split; [by left|lia]).
      * left. exists a, b. split; [by right|done].
    + intros [(a & b & [[= <- <-]|Hin] & Hr)|(a & b & [[= <- <-]|[]] & Hr)].
      * exists ls, (Z.max le e). split; [by left|lia].
      * exists a, b. split; [by right|done].
      * exists ls, (Z.max le e). split; [by left|lia].
  - inversion_clear Hs. by constructor.
  - intros j Hj. specialize (Hkeep j Hj). apply Forall_cons in Hkeep as [? ?]. by constructor.
Qed.

Lemma merge_fold acc l :
  Forall interval_ok l -> StronglySorted start_le l ->
  Forall interval_ok acc -> StronglySorted (flip start_le) acc ->
  (forall i, In i l -> Forall (fun j => start_le j i) acc) ->
  (forall x, covered (foldl merge_step acc l) x <-> covered acc x \/ covered l x) /\
  Forall interval_ok (foldl merge_step acc l) /\
  StronglySorted (flip start_le) (foldl merge_step acc l).
Proof.
  revert acc. induction l as [|i l IH]; intros acc Hl Hs Ha Hsa Hle; cbn.
  { split; [|done]. intros x. split; [by left|]. intros [?|(? & ? & [] & _)]; done. }
  apply Forall_cons in Hl as [Hi Hl]. inversion_clear Hs as [|? ? Hsl Hil].
  destruct (merge_step_spec acc i Hi Ha Hsa (Hle i (or_introl eq_refl))) as (Hc & Ho & Hss & Hn).
  destruct (IH (merge_step acc i) Hl Hsl Ho Hss) as (Hc' & Ho' & Hs').
  { intros j Hj. apply Hn. rewrite Forall_forall in Hil. by apply Hil, list_elem_of_In. }
  split; [|done]. intros x. rewrite Hc', Hc. unfold covered. cbn. naive_solver.
Qed.

Lemma sorted_rev l : StronglySorted (flip start_le) l -> StronglySorted start_le (rev l).
Proof.
  induction 1 as [|i l Hs IH Hi]; cbn; [constructor|].
  rewrite Forall_forall in Hi. revert IH.
  assert (Hr : Forall (fun j => start_le j i) (rev l)).
  { apply Forall_forall. intros j Hj%list_elem_of_In%in_rev. apply Hi. by apply list_elem_of_In. }
  induction (rev l) as [|j r IHr]; cbn; intros Hss; [by repeat constructor|].
  apply Forall_cons in Hr as [Hj Hr]. inversion_clear Hss as [|? ? Hss' Hjr].
  constructor; [by apply IHr|]. apply Forall_app. by repeat constructor.
Qed.

#[export] Instance pair_le_trans : Transitive pair_le.
Proof. intros [a b] [c d] [e f]. unfold pair_le. cbn. lia. Qed.

#[export] Instance pair_le_total : Total pair_le.
Proof. intros [a b] [c d]. unfold pair_le. cbn. lia. Qed.

Lemma sort_starts l : StronglySorted start_le (merge_sort pair_le l).
Proof.
  pose proof (StronglySorted_merge_sort pair_le l) as Hs.
  induction Hs as [|a r _ IH Ha]; constructor; [done|]. eapply Forall_impl; [exact Ha|].
  intros b. unfold pair_le, start_le. lia.
Qed.

Section Laws.
Context {IpNet : Type} `{IpNetLaws IpNet}.

Lemma net_size_pos (n : IpNet) : 0 < 2 ^ net_host_bits n.
Proof. apply Z.pow_pos_nonneg; [lia|]. unfold net_host_bits. pose proof (net_prefix_range n). lia. Qed.

(** The last address stays inside the family. *)
Lemma net_broadcast_range (n : IpNet) :
  net_network n <= net_broadcast n < 2 ^ ip_width (net_is_v4 n).
Proof.
  rewrite net_broadcast_eq. pose proof (net_size_pos n) as Hk. pose proof (net_network_range n) as Hr.
  pose proof (net_prefix_range n) as Hp. split; [lia|].
  assert (2 ^ net_host_bits n | 2 ^ ip_width (net_is_v4 n)) as Hd.
  { exists (2 ^ net_prefix_len n). unfold net_host_bits.
    rewrite <- Z.pow_add_r by lia. f_equal. lia. }
  pose proof (aligned_next _ _ _ Hk (net_network_aligned n) Hd). lia.
Qed.

Lemma width_fits (ipv4 : bool) : 2 ^ ip_width ipv4 - 1 <= u128_max.
Proof. destruct ipv4; vm_compute; discriminate. Qed.

Lemma network_interval_ok (n : IpNet) : interval_ok (network_interval n).
Proof.
  unfold interval_ok, network_interval. cbn. pose proof (net_broadcast_range n).
  pose proof (net_network_range n). pose proof (width_fits (net_is_v4 n)). lia.
Qed.

Lemma merged_intervals_spec (occupied : list IpNet) (ipv4 : bool) :
  StronglySorted start_le (merged_intervals occupied ipv4) /\
  Forall interval_ok (merged_intervals occupied ipv4) /\
  forall x, covered (merged_intervals occupied ipv4) x <->
    exists n, In n occupied /\ net_is_v4 n = ipv4 /\ net_network n <= x <= net_broadcast n.
Proof.
  unfold merged_intervals.
  set (l := map network_interval _). set (sorted := merge_sort pair_le l).
  assert (Hp : sorted ≡ₚ l) by apply merge_sort_Permutation.
  assert (Hok : Forall interval_ok sorted).
  { rewrite Hp. unfold l. apply Forall_map, Forall_forall. intros n _. apply network_interval_ok. }
  destruct (merge_fold [] sorted Hok (sort_starts l)) as (Hc & Ho & Hs);
    [constructor|constructor|intros; constructor|].
  split; [by apply sorted_rev|]. split; [by apply Forall_rev|]. intros x.
  transitivity (covered sorted x).
  { assert (covered (rev (foldl merge_step [] sorted)) x <-> covered (foldl merge_step [] sorted) x) as ->.
    { unfold covered. by setoid_rewrite <- in_rev. }
    rewrite Hc. split; [intros [(? & ? & [] & _)|?]; done|by right]. }
  unfold covered. setoid_rewrite <- list_elem_of_In. setoid_rewrite Hp.
  setoid_rewrite list_elem_of_In. unfold l. split.
  - intros (a & b & Hin & Hr). apply in_map_iff in Hin as (n & [= <- <-] & Hn).
    apply filter_In in Hn as [Hn Hv]. apply eqb_prop in Hv. by exists n.
  - intros (n & Hn & Hv & Hr). exists (net_network n), (net_broadcast n). split; [|done].
    apply in_map_iff. exists n. split; [done|]. apply filter_In. split; [done|].
    rewrite Hv. apply eqb_reflx.
Qed.

Lemma block_free_unoccupied (occupied : list IpNet) (ipv4 : bool) h c :
  block_free h (merged_intervals occupied ipv4) c <-> unoccupied occupied ipv4 h c.
Proof.
  unfold block_free, unoccupied. destruct (merged_intervals_spec occupied ipv4) as (_ & _ & Hc).
  setoid_rewrite Hc. naive_solver.
Qed.

Lemma net_trunc_broadcast (n : IpNet) : net_broadcast (net_trunc n) = net_broadcast n.
Proof.
  rewrite !net_broadcast_eq, net_trunc_network. unfold net_host_bits.
  by rewrite net_trunc_family, net_trunc_prefix.
Qed.

Lemma resolve_from_pool_eq text (pool : IpNet) prefix occupied :
  is_empty (trim text) = false -> net_parse (trim text) = Some pool ->
  0 <= net_prefix_len pool <= prefix -> prefix < ip_width (net_is_v4 pool) ->
  let h := ip_width (net_is_v4 pool) - prefix in
  resolve_from_pool (Some text) prefix occupied (net_is_v4 pool) =
  start ← first_free_subnet (net_network pool) (net_broadcast pool) (2 ^ h - 1)
            (merged_intervals occupied (net_is_v4 pool));
  Ok (mkPair (format_address (first_host start prefix (net_is_v4 pool)) (net_is_v4 pool))
        (format_address (first_host start prefix (net_is_v4 pool) + 1) (net_is_v4 pool)) prefix).
Proof.
  intros He Hp Hpre Hw h. unfold resolve_from_pool. rewrite He. cbn. rewrite Hp. cbn.
  rewrite net_trunc_family, eqb_reflx. cbn. rewrite net_trunc_prefix.
  rewrite (proj2 (Z.ltb_ge prefix (net_prefix_len pool))) by lia.
  rewrite net_trunc_network, net_trunc_broadcast, host_mask_eq; [done|].
  unfold h, ip_width in *. destruct (net_is_v4 pool); lia.
Qed.

Lemma first_host_in start prefix ipv4 :
  0 <= prefix < ip_width ipv4 ->
  start <= first_host start prefix ipv4 < start + 2 ^ (ip_width ipv4 - prefix) - 1.
Proof.
  intros Hp. unfold first_host, ip_width in *. destruct ipv4; cbn [andb].
  - destruct (prefix <? 31) eqn:E; bools.
    + assert (2 ^ 2 <= 2 ^ (32 - prefix)) by (apply Z.pow_le_mono_r; lia). lia.
    + replace prefix with 31 by lia. lia.
  - assert (2 ^ 1 <= 2 ^ (128 - prefix)) by (apply Z.pow_le_mono_r; lia). lia.
Qed.

Lemma pool_aligned (pool : IpNet) prefix :
  net_prefix_len pool <= prefix <= ip_width (net_is_v4 pool) ->
  (2 ^ (ip_width (net_is_v4 pool) - prefix) | net_network pool).
Proof.
  intros Hp. pose proof (net_prefix_range pool). etransitivity; [|apply net_network_aligned].
  exists (2 ^ (prefix - net_prefix_len pool)). unfold net_host_bits.
  rewrite <- Z.pow_add_r by lia. f_equal. lia.
Qed.

(** C25: allocation from a pool is first fit and complete: for a pool that parses, in the requested
    family and no smaller than the requested subnet, the result is the pair of the first two hosts of
    the lowest aligned subnet of the pool that no occupied network of the family meets - the hosts
    lie in that subnet - and allocation fails, as exhausted, only when every such subnet is met. *)
Theorem pool_allocation_first_fit text (pool : IpNet) prefix occupied :
  is_empty (trim text) = false -> net_parse (trim text) = Some pool ->
  net_prefix_len pool <= prefix < ip_width (net_is_v4 pool) ->
  let ipv4 := net_is_v4 pool in
  let h := ip_width ipv4 - prefix in
  match resolve_family (Some text) prefix None occupied ipv4 with
  | Ok endpoints =>
      exists start, subnet_of pool h start /\ unoccupied occupied ipv4 h start /\
        (forall s, subnet_of pool h s -> s < start -> ~ unoccupied occupied ipv4 h s) /\
        endpoints = mkPair (format_address (first_host start prefix ipv4) ipv4)
                      (format_address (first_host start prefix ipv4 + 1) ipv4) prefix /\
        start <= first_host start prefix ipv4 < start + 2 ^ h - 1
  | Err e => e = AddressPoolExhausted /\
             forall s, subnet_of pool h s -> ~ unoccupied occupied ipv4 h s
  end.
Proof.
  intros He Hpa Hpre ipv4 h. pose proof (net_prefix_range pool) as Hr.
  unfold resolve_family. rewrite (proj2 (Z.leb_gt (ip_width ipv4) prefix)) by (unfold ipv4; lia).
  unfold ipv4 at 1. rewrite (resolve_from_pool_eq text pool prefix occupied He Hpa) by lia.
  fold ipv4. fold h.
  assert (Hend : net_broadcast pool <= u128_max)
    by (pose proof (net_broadcast_range pool); pose proof (width_fits (net_is_v4 pool)); lia).
  destruct (merged_intervals_spec occupied ipv4) as (Hs & Ho & _).
  pose proof (first_fit h (net_network pool) (net_broadcast pool) (merged_intervals occupied ipv4)
    ltac:(unfold h, ipv4; lia) Hend (pool_aligned pool prefix ltac:(lia)) Hs Ho) as Hf.
  destruct (first_free_subnet _ _ _ _) as [start|e]; cbn in Hf |- *.
  - destruct Hf as (Ha & Hp1 & Hp2 & Hfree & Hmin). exists start.
    split; [done|]. split; [by apply block_free_unoccupied|]. split.
    + intros s (Hsa & Hs1 & Hs2) Hlt Hu. apply (Hmin s Hsa); [lia|]. by apply block_free_unoccupied.
    + split; [done|]. apply first_host_in. unfold ipv4. lia.
  - destruct Hf as [-> Hnone]. split; [done|]. intros s (Hsa & Hs1 & Hs2) Hu.
    apply (Hnone s Hsa); [done|done|]. by apply block_free_unoccupied.
Qed.

(** * Chosen endpoints *)

Lemma fill_keeps_prefix (endpoints filled : TunnelAddressPair) ipv4 :
  fill_preferred_pair endpoints ipv4 = Ok filled ->
  prefix_len filled = prefix_len endpoints /\
  (is_empty (trim (left endpoints)) = false -> left filled = left endpoints) /\
  (is_empty (trim (right endpoints)) = false -> right filled = right endpoints).
Proof.
  unfold fill_preferred_pair. intros Hf.
  destruct (is_empty (trim (left endpoints))) eqn:El, (is_empty (trim (right endpoints))) eqn:Er;
    cbn [negb andb] in Hf; try (by simplify_eq);
    (destruct (parse_ip_addr _) as [a|]; cbn in Hf; [|done]);
    (destruct (eqb (is_ipv4 a) ipv4); cbn in Hf; [|done]);
    (destruct (net_new a _) as [n|]; cbn in Hf; [|done]); injection Hf as <-; cbn; done.
Qed.

Lemma overlap_spec (n m : IpNet) :
  tunnel_networks_overlap n m = false ->
  net_is_v4 n = net_is_v4 m -> forall x, ~ (net_network n <= x <= net_broadcast n /\
                                            net_network m <= x <= net_broadcast m).
Proof.
  unfold tunnel_networks_overlap, network_interval. intros Ho Hv. rewrite Hv, eqb_reflx in Ho.
  cbn in Ho. intros x. apply andb_false_iff in Ho as [Ho|Ho]; bools; lia.
Qed.

(** Chosen endpoints are kept: when the operator has chosen an endpoint and the request is
    accepted, every non-blank endpoint comes back as it was, the two endpoints are distinct addresses
    of the requested family in one network of the requested prefix, and no occupied network of the
    family shares an address with that network. *)
Theorem chosen_endpoints_kept pool prefix endpoints (occupied : list IpNet) ipv4 r :
  has_endpoint endpoints = true ->
  resolve_family pool prefix (Some endpoints) occupied ipv4 = Ok r ->
  prefix_len r = prefix /\
  (is_empty (trim (left endpoints)) = false -> left r = left endpoints) /\
  (is_empty (trim (right endpoints)) = false -> right r = right endpoints) /\
  exists a b n,
    parse_ip_addr (left r) = Some a /\ parse_ip_addr (right r) = Some b /\ a <> b /\
    is_ipv4 a = ipv4 /\ net_new a prefix = Some n /\
    net_is_v4 n = is_ipv4 b /\ net_network n <= ip_value b <= net_broadcast n /\
    forall m x, In m occupied -> net_is_v4 m = ipv4 -> net_network n <= x <= net_broadcast n ->
      ~ (net_network m <= x <= net_broadcast m).
Proof.
  intros Hh Hr. unfold resolve_family in Hr. rewrite Hh in Hr.
  destruct (_ <=? prefix); [done|]. unfold resolve_preferred in Hr.
  destruct (prefix_len endpoints =? prefix) eqn:Ep; cbn in Hr; [|done]. bools.
  destruct (fill_preferred_pair endpoints ipv4) as [filled|] eqn:Ef; cbn in Hr; [|done].
  destruct (fill_keeps_prefix _ _ _ Ef) as (Hpf & Hl & Hrt).
  destruct (pair_network filled ipv4) as [network|] eqn:En; cbn in Hr; [|done].
  destruct (existsb _ occupied) eqn:Eo; [done|]. injection Hr as <-.
  split; [congruence|]. split; [done|]. split; [done|].
  unfold pair_network in En.
  destruct (parse_ip_addr (left filled)) as [a|] eqn:Ea; cbn in En; [|done].
  destruct (parse_ip_addr (right filled)) as [b|] eqn:Eb; cbn in En; [|done].
  destruct (bool_decide (a = b) || _ || _) eqn:Ec; [done|]. bools.
  destruct (net_new a (prefix_len filled)) as [n|] eqn:Enew; cbn in En; [|done].
  destruct (net_contains (net_trunc n) b) eqn:Econ; cbn in En; [|done]. injection En as <-.
  apply net_contains_spec in Econ as [Hv Hin].
  rewrite net_trunc_family in Hv. rewrite net_trunc_network, net_trunc_broadcast in Hin.
  repeat match goal with H : eqb _ _ = true |- _ => apply eqb_prop in H end.
  exists a, b, n. split; [done|]. split; [done|]. split; [done|]. split; [done|].
  split; [congruence|]. split; [done|]. split; [done|].
  intros m x Hm Hvm Hx Hxm. pose proof (existsb_false _ _ m Eo Hm) as Hov. cbn in Hov.
  apply (overlap_spec _ _ Hov) with x; rewrite ?net_trunc_family, ?net_trunc_network, ?net_trunc_broadcast;
    [congruence|done].
Qed.

(** * Interface-local networks *)

(** Exactly the subnets that lie inside fe80::/10 are treated as interface-local: a larger network
    that merely starts there, such as fe80::/0, keeps its reservation. *)
Theorem link_local_networks_inside (n : IpNet) :
  is_link_local_network n = true <->
  net_is_v4 n = false /\
  forall x, net_network n <= x <= net_broadcast n -> 65152 * 2 ^ 112 <= x < 65216 * 2 ^ 112.
Proof.
  pose proof (net_network_range n) as Hr. pose proof (net_prefix_range n) as Hp.
  pose proof (net_size_pos n) as Hk. pose proof (net_network_aligned n) as Ha.
  pose proof (net_broadcast_eq n) as Hb. unfold is_link_local_network, net_host_bits in *.
  destruct (net_is_v4 n); cbn [negb andb]; [split; [done|intros [? _]; done]|].
  change (ip_width false) with 128 in *. set (a := net_network n) in *. set (p := net_prefix_len n) in *.
  assert (Htop : 0 <= a / 2 ^ 112 < 65536)
    by (split; [apply Z.div_pos; lia|apply Z.div_lt_upper_bound; lia]).
  assert (Hlead : Z.land (a / 2 ^ 112) 65472 = 65152 <-> 1018 * 2 ^ 118 <= a < 1019 * 2 ^ 118).
  { rewrite land_leading_bits by done. rewrite Z.div_div by lia.
    change (2 ^ 112 * 64) with (2 ^ 118). by rewrite div_eq_iff by lia. }
  rewrite andb_true_iff, Z.leb_le, Z.eqb_eq, Hlead, Hb.
  change (65152 * 2 ^ 112) with (1018 * 2 ^ 118). change (65216 * 2 ^ 112) with (1019 * 2 ^ 118).
  split.
  - intros [H10 Hin]. split; [done|]. intros x Hx.
    assert (Hd : (2 ^ (128 - p) | 1019 * 2 ^ 118)).
    { apply Z.divide_mul_r. exists (2 ^ (p - 10)). rewrite <- Z.pow_add_r by lia. f_equal. lia. }
    pose proof (aligned_next _ _ _ Hk Ha Hd ltac:(lia)). lia.
  - intros [_ Hall]. pose proof (Hall a ltac:(lia)) as H1.
    pose proof (Hall (a + 2 ^ (128 - p) - 1) ltac:(lia)) as H2. split; [|lia].
    assert (2 ^ (128 - p) <= 2 ^ 118) as Hpow by lia.
    apply Z.pow_le_mono_r_iff in Hpow; lia.
Qed.

End Laws.

(** * The concrete [ipnet] obeys the laws *)

Lemma ip_width_pos ipv4 : 0 < ip_width ipv4.
Proof. destruct ipv4; done. Qed.

Lemma cidr_len_range n : 0 <= cidr_len n <= ip_width (cidr_v4 n).
Proof. unfold cidr_len. pose proof (ip_width_pos (cidr_v4 n)). lia. Qed.

Lemma cidr_first_range n : 0 <= cidr_first n < 2 ^ ip_width (cidr_v4 n).
Proof.
  unfold cidr_first, cidr_host. pose proof (cidr_len_range n) as Hl.
  pose proof (Z.mod_pos_bound (cidr_addr n) (2 ^ ip_width (cidr_v4 n)) ltac:(apply Z.pow_pos_nonneg; lia)).
  set (k := 2 ^ (_ - _)). assert (0 < k) by (apply Z.pow_pos_nonneg; lia).
  pose proof (Z.mul_div_le (cidr_addr n mod 2 ^ ip_width (cidr_v4 n)) k).
  pose proof (Z.div_pos (cidr_addr n mod 2 ^ ip_width (cidr_v4 n)) k). nia.
Qed.

#[export] Instance cidr_laws : IpNetLaws cidr.
Proof.
  split; cbn.
  - apply cidr_len_range.
  - intros n. apply Z.divide_factor_r.
  - apply cidr_first_range.
  - done.
  - done.
  - done.
  - intros n. pose proof (cidr_first_range n) as Hr. unfold cidr_first at 1. cbn.
    rewrite Z.mod_small by done. change (cidr_host (mkCidr _ _ _)) with (cidr_host n).
    unfold cidr_first at 1. rewrite Z.div_mul; [done|].
    pose proof (cidr_len_range n). unfold cidr_host. apply Z.pow_nonzero; lia.
  - intros a p Hw Hp. unfold in_range.
    rewrite (proj2 (Z.leb_le 0 p)), (proj2 (Z.leb_le p _)) by lia. cbn. eexists. split; [done|].
    split; [done|]. assert (Hl : cidr_len (mkCidr (is_ipv4 a) (ip_value a) p) = p)
      by (unfold cidr_len; cbn; lia).
    split; [done|]. unfold cidr_first, cidr_host. rewrite Hl. cbn. by rewrite Z.mod_small.
  - intros n a. rewrite !andb_true_iff, !Z.leb_le. split.
    + intros [[Hv%eqb_prop ?] ?]. done.
    + intros [-> [? ?]]. rewrite eqb_reflx. done.
Qed.

(** * Witnesses *)

Lemma pool_allocation_first_fit_witness :
  resolve_family (Some ex_pool) 31 None ex_occupied true
  = Ok (mkPair (lit "10.0.0.4") (lit "10.0.0.5") 31) /\
  exists start, subnet_of ex_pool_net 1 start /\ unoccupied ex_occupied true 1 start /\
    (forall s, subnet_of ex_pool_net 1 s -> s < start -> ~ unoccupied ex_occupied true 1 s) /\
    mkPair (lit "10.0.0.4") (lit "10.0.0.5") 31
    = mkPair (format_address (first_host start 31 true) true)
        (format_address (first_host start 31 true + 1) true) 31 /\
    start <= first_host start 31 true < start + 2 ^ 1 - 1.
Proof.
  assert (E : resolve_family (Some ex_pool) 31 None ex_occupied true
    = Ok (mkPair (lit "10.0.0.4") (lit "10.0.0.5") 31)) by (vm_compute; reflexivity).
  split; [exact E|].
  pose proof (pool_allocation_first_fit ex_pool ex_pool_net 31 ex_occupied
    ltac:(vm_compute; reflexivity) ltac:(vm_compute; reflexivity)
    ltac:(vm_compute; split; congruence)) as Hfit.
  cbv zeta in Hfit. change (net_is_v4 ex_pool_net) with true in Hfit. rewrite E in Hfit.
  change (ip_width true - 31) with 1 in Hfit. exact Hfit.
Defined.

Lemma chosen_endpoints_kept_witness :
  resolve_family None 31 (Some (mkPair (lit "10.9.0.1") [] 31)) ex_occupied true
  = Ok (mkPair (lit "10.9.0.1") (lit "10.9.0.0") 31) /\
  left (mkPair (lit "10.9.0.1") (lit "10.9.0.0") 31) = lit "10.9.0.1".
Proof.
  split; [vm_compute; reflexivity|].
  refine (proj1 (proj2 (chosen_endpoints_kept None 31 (mkPair (lit "10.9.0.1") [] 31) ex_occupied true
            (mkPair (lit "10.9.0.1") (lit "10.9.0.0") 31) _ _)) _); vm_compute; reflexivity.
Defined.
