(* ===== verification/NetProofs.v ===== *)
(** The text form of IP addresses is faithful: parsing what [Display] writes
    gives the address back, for every IPv4 and IPv6 address, zero compression
    and embedded IPv4 addresses included. *)

From S2P Require Import Prelude RustStd Net.

Open Scope Z_scope.

(** * Numbers *)

(** What follows a number does not continue it. *)
Definition stops (radix : Z) (rest : str) : Prop :=
  match rest with c :: _ => to_digit radix c = None | [] => True end.

Lemma read_digits_app radix max n value count ds v k rest :
  read_digits radix max n value count ds = Some (v, k, []) -> stops radix rest ->
  read_digits radix max n value count (ds ++ rest) = Some (v, k, rest).
Proof.
  revert value count. induction ds as [|c ds IH]; intros value count; cbn [read_digits app].
  - intros [= <- <-] Hs. destruct rest as [|c rest]; [done|]. cbn in *. by rewrite Hs.
  - destruct (to_digit radix c); [|done]. case_match; [done|]. by apply IH.
Qed.

Lemma read_number_app radix max n zeros ds v rest :
  read_number radix max n zeros ds = Some (v, []) -> stops radix rest ->
  read_number radix max n zeros (ds ++ rest) = Some (v, rest).
Proof.
  unfold read_number. destruct (read_digits radix max n 0 0 ds) as [[[v' k] r]|] eqn:E; [|done].
  intros H Hs. assert (r = []) as -> by (repeat case_match; simplify_eq; done).
  rewrite (read_digits_app _ _ _ _ _ _ _ _ rest E Hs).
  destruct ds as [|c ds]; [cbn in E; by simplify_eq|].
  cbn [app] in *. repeat case_match; simplify_eq; done.
Qed.

Lemma read_digits_suffix radix max n value count s v k rest :
  read_digits radix max n value count s = Some (v, k, rest) -> exists p, s = p ++ rest.
Proof.
  revert value count. induction s as [|c s IH]; intros value count; cbn [read_digits].
  - intros [= <- <- <-]. by exists [].
  - destruct (to_digit radix c); [|by intros [= <- <- <-]; exists []].
    case_match; [done|]. intros (p & ->)%IH. by exists (c :: p).
Qed.

Lemma read_number_suffix radix max n zeros s v rest :
  read_number radix max n zeros s = Some (v, rest) -> exists p, s = p ++ rest.
Proof.
  unfold read_number. destruct (read_digits radix max n 0 0 s) as [[[v' k] r]|] eqn:E; [|done].
  apply read_digits_suffix in E. intros H. repeat case_match; simplify_eq; done.
Qed.

Lemma read_number_stop radix max n zeros s : stops radix s -> read_number radix max n zeros s = None.
Proof.
  unfold read_number. destruct s as [|c s]; [done|]. cbn. intros ->. done.
Qed.

(** ** Groups in hexadecimal *)

Definition digit (d : Z) : Prop := 0 <= d < 16.

Definition horner (v : Z) (ds : list Z) : Z := foldl (fun acc d => acc * 16 + d) v ds.

Lemma digit_cases (P : Z -> Prop) :
  Forall P [0; 1; 2; 3; 4; 5; 6; 7; 8; 9; 10; 11; 12; 13; 14; 15] -> forall d, digit d -> P d.
Proof.
  intros H d Hd. rewrite Forall_forall in H. apply H. unfold digit in Hd.
  assert (d = 0 \/ d = 1 \/ d = 2 \/ d = 3 \/ d = 4 \/ d = 5 \/ d = 6 \/ d = 7 \/ d = 8 \/ d = 9 \/ d = 10
          \/ d = 11 \/ d = 12 \/ d = 13 \/ d = 14 \/ d = 15) by lia.
  rewrite !elem_of_cons. tauto.
Qed.

Lemma hex_char_digit d : digit d ->
  to_digit 16 (hex_char d) = Some d /\ hex_char d <> 46 /\ ((48 =? hex_char d) = (0 =? d)).
Proof. revert d. apply digit_cases. by repeat constructor. Qed.

Lemma horner_ge ds v : Forall digit ds -> 0 <= v -> v <= horner v ds.
Proof.
  intros H. revert v. induction H as [|d ds Hd _ IH]; intros v Hv; cbn; [lia|].
  unfold digit in Hd. etransitivity; [|apply IH; lia]. lia.
Qed.

Lemma read_hex_digits max n ds v count rest :
  Forall digit ds -> 0 <= v -> horner v ds <= max -> (count + length ds <= n)%nat -> stops 16 rest ->
  read_digits 16 max n v count (map hex_char ds ++ rest) = Some (horner v ds, (count + length ds)%nat, rest).
Proof.
  intros H. revert v count. induction H as [|d ds Hd H IH]; intros v count Hv Hm Hn Hs; cbn [map app].
  - cbn [length horner foldl] in *. rewrite Nat.add_0_r. destruct rest as [|c rest]; [done|].
    cbn in *. by rewrite Hs.
  - cbn [read_digits]. destruct (hex_char_digit d Hd) as (-> & _). unfold digit in Hd.
    change (horner v (d :: ds)) with (horner (v * 16 + d) ds) in *. cbn [length] in *.
    pose proof (horner_ge ds (v * 16 + d) H ltac:(lia)).
    rewrite (proj2 (Z.ltb_ge max (v * 16 + d))) by lia. rewrite (proj2 (Nat.leb_gt n count)) by lia.
    cbn [orb]. rewrite IH by (done || lia). do 3 f_equal. lia.
Qed.

Lemma drop_zeros ds : Forall digit ds ->
  drop_while (Z.eqb 48) (map hex_char ds) = map hex_char (drop_while (Z.eqb 0) ds) /\
  horner 0 (drop_while (Z.eqb 0) ds) = horner 0 ds /\ Forall digit (drop_while (Z.eqb 0) ds) /\
  (length (drop_while (Z.eqb 0) ds) <= length ds)%nat.
Proof.
  induction 1 as [|d ds Hd H IH]; [done|]. cbn [map drop_while].
  destruct (hex_char_digit d Hd) as (_ & _ & ->). destruct (Z.eqb_spec 0 d) as [<-|Hne].
  - destruct IH as (E & Eh & Ef & El). split; [done|]. split; [done|]. split; [done|]. cbn [length]. lia.
  - split; [done|]. split; [done|]. split; [by constructor|done].
Qed.

Lemma hex_digits g : 0 <= g < 65536 ->
  Forall digit [g / 4096; g / 256 mod 16; g / 16 mod 16; g mod 16] /\
  horner 0 [g / 4096; g / 256 mod 16; g / 16 mod 16; g mod 16] = g.
Proof.
  intros Hg. split.
  - repeat constructor; unfold digit; try (apply Z.mod_pos_bound; lia); Z.div_mod_to_equations; lia.
  - cbn [horner foldl]. Z.div_mod_to_equations. lia.
Qed.

Lemma format_hex_digits g : 0 <= g < 65536 ->
  exists ds, format_hex g = map hex_char ds /\ Forall digit ds /\ horner 0 ds = g /\
             (1 <= length ds <= 4)%nat.
Proof.
  intros Hg. destruct (hex_digits g Hg) as [Hd Hv]. destruct (drop_zeros _ Hd) as (E & Eh & Ef & El).
  unfold format_hex. rewrite E. rewrite Hv in Eh.
  destruct (drop_while (Z.eqb 0) _) as [|d ds] eqn:Ed.
  - exists [0]. split; [done|]. split; [by repeat constructor|]. split; [exact Eh|]. cbn. lia.
  - exists (d :: ds). split; [done|]. split; [done|]. split; [done|]. cbn [length] in *. lia.
Qed.

Lemma read_hex g rest : 0 <= g < 65536 -> stops 16 rest ->
  read_number 16 u16_max 4 true (format_hex g ++ rest) = Some (g, rest).
Proof.
  intros Hg Hs. destruct (format_hex_digits g Hg) as (ds & -> & Hd & Hv & Hl).
  unfold read_number. rewrite read_hex_digits by (done || (unfold u16_max in *; lia)).
  rewrite Hv. cbn [Nat.add]. destruct (length ds) as [|k] eqn:E; [lia|]. done.
Qed.

Lemma hex_no_dot g : 0 <= g < 65536 -> 46 ∉ format_hex g.
Proof.
  intros Hg Hin. destruct (format_hex_digits g Hg) as (ds & E & Hd & _). rewrite E in Hin.
  apply list_elem_of_In, in_map_iff in Hin as (d & Ec & Hin). rewrite List.Forall_forall in Hd.
  destruct (hex_char_digit d (Hd d Hin)) as (_ & ? & _). congruence.
Qed.

Lemma octets_all_ok :
  forallb (fun o => bool_decide (read_number 10 u8_max 3 false (to_string o) = Some (o, []))) (seqZ 0 256) = true.
Proof. vm_compute. reflexivity. Qed.

Lemma read_octet o rest : 0 <= o < 256 -> stops 10 rest ->
  read_number 10 u8_max 3 false (to_string o ++ rest) = Some (o, rest).
Proof.
  intros H. apply read_number_app.
  apply (bool_decide_eq_true _), (proj1 (forallb_forall _ _) octets_all_ok).
  apply list_elem_of_In, elem_of_seqZ. lia.
Qed.

(** * IPv4 *)

Lemma read_ipv4_format v rest : 0 <= v < 2 ^ 32 -> stops 10 rest ->
  read_ipv4_addr (format_ipv4 v ++ rest) = Some (v, rest).
Proof.
  intros Hv Hs. unfold format_ipv4, read_ipv4_addr.
  assert (Ha : 0 <= v / 2 ^ 24 < 256) by (split; [apply Z.div_pos|apply Z.div_lt_upper_bound]; lia).
  assert (Hm : forall x, 0 <= x mod 256 < 256) by (intros; apply Z.mod_pos_bound; lia).
  rewrite <- !app_assoc. change (lit ".") with [46].
  cbn [read_octets read_separator app]. rewrite read_octet by done.
  cbn [read_octets read_separator Z.eqb Pos.eqb]. rewrite read_octet by done.
  cbn [read_octets read_separator Z.eqb Pos.eqb]. rewrite read_octet by done.
  cbn [read_octets read_separator Z.eqb Pos.eqb]. rewrite read_octet by done.
  f_equal. f_equal.
  replace (v / 2 ^ 16) with (v / 2 ^ 8 / 256) by (rewrite Z.div_div by lia; f_equal).
  replace (v / 2 ^ 24) with (v / 2 ^ 8 / 256 / 256) by (rewrite !Z.div_div by lia; f_equal).
  change (2 ^ 8) with 256.
  pose proof (Z.div_mod v 256 ltac:(lia)). pose proof (Z.div_mod (v / 256) 256 ltac:(lia)).
  pose proof (Z.div_mod (v / 256 / 256) 256 ltac:(lia)). lia.
Qed.

(** Without a dot there is no IPv4 address. *)
Lemma read_ipv4_no_dot s : 46 ∉ s -> read_ipv4_addr s = None.
Proof.
  intros H. unfold read_ipv4_addr. cbn [read_octets read_separator].
  destruct (read_number 10 u8_max 3 false s) as [[o rest]|] eqn:E; [|done].
  apply read_number_suffix in E as [p ->]. cbn [read_separator].
  destruct rest as [|c rest]; [done|]. destruct (Z.eqb_spec c 46) as [->|]; [|done].
  exfalso. apply H, elem_of_app. right. by left.
Qed.

Theorem parse_format_ipv4 v : 0 <= v < 2 ^ 32 -> parse_ip_addr (format_ipv4 v) = Some (IpV4 v).
Proof.
  intros H. unfold parse_ip_addr. rewrite <- (app_nil_r (format_ipv4 v)), read_ipv4_format by done. done.
Qed.

(** * IPv6 groups *)

Definition group (g : Z) : Prop := 0 <= g < 65536.

(** The groups after the first, with their separators. *)
Definition group_tail (gs : list Z) : str := concat (map (fun g => 58 :: format_hex g) gs).

Lemma format_groups_cons g gs : format_groups (g :: gs) = format_hex g ++ group_tail gs.
Proof.
  revert g. induction gs as [|h gs IH]; intros g; [by rewrite app_nil_r|].
  unfold format_groups in *. cbn [map]. rewrite join_cons by done. cbn [map] in IH. by rewrite IH.
Qed.

Lemma group_tail_stops gs rest : stops 16 rest -> stops 16 (group_tail gs ++ rest).
Proof. by destruct gs. Qed.

Lemma group_tail_no_dot gs : Forall group gs -> 46 ∉ group_tail gs.
Proof.
  induction 1 as [|g gs Hg _ IH]; [apply not_elem_of_nil|].
  change (group_tail (g :: gs)) with ((58 :: format_hex g) ++ group_tail gs).
  apply not_elem_of_app. split; [|done]. apply not_elem_of_cons. split; [lia|]. by apply hex_no_dot.
Qed.

Lemma format_groups_no_dot gs : Forall group gs -> 46 ∉ format_groups gs.
Proof.
  destruct 1 as [|g gs Hg H]; [apply not_elem_of_nil|]. rewrite format_groups_cons.
  apply not_elem_of_app. split; [by apply hex_no_dot|by apply group_tail_no_dot].
Qed.

(** No further group starts at [rest]. *)
Definition no_group (rest : str) : Prop :=
  match rest with
  | 58 :: s => stops 16 s
  | _ => True
  end.

Lemma no_embedded index s : 46 ∉ s -> read_separator 58 index read_ipv4_addr s = None.
Proof.
  intros H. destruct index; [by apply read_ipv4_no_dot|]. destruct s as [|c s]; [done|]. cbn.
  destruct (c =? 58); [|done]. apply read_ipv4_no_dot. apply not_elem_of_cons in H. tauto.
Qed.

Lemma no_group_read i rest : no_group rest ->
  read_separator 58 (S i) (read_number 16 u16_max 4 true) rest = None.
Proof.
  destruct rest as [|c rest]; [done|]. cbn. destruct (Z.eqb_spec c 58) as [->|]; [|done].
  apply read_number_stop.
Qed.

Lemma read_group_tail todo i gs rest :
  Forall group gs -> (length gs <= todo)%nat -> 46 ∉ rest -> stops 16 rest -> no_group rest ->
  read_groups todo (S i) (group_tail gs ++ rest) = (gs, false, rest).
Proof.
  intros Hg. revert todo i. induction Hg as [|g gs Hg H IH]; intros todo i Hl Hd Hs Hn.
  - destruct todo as [|todo]; [done|]. cbn [group_tail map concat app].
    cbn [read_groups]. rewrite (no_embedded (S i)) by done. rewrite no_group_read by done. by destruct todo.
  - destruct todo as [|todo]; [cbn in Hl; lia|].
    change (group_tail (g :: gs) ++ rest) with (58 :: (format_hex g ++ group_tail gs) ++ rest).
    rewrite <- app_assoc. cbn [read_groups].
    rewrite (no_embedded (S i)).
    2: { apply not_elem_of_cons; split; [lia|]. rewrite !not_elem_of_app.
         split; [by apply hex_no_dot|]. split; [by apply group_tail_no_dot|done]. }
    assert (Hr : read_separator 58 (S i) (read_number 16 u16_max 4 true)
                   (58 :: format_hex g ++ group_tail gs ++ rest) = Some (g, group_tail gs ++ rest)).
    { cbn. apply read_hex; [done|]. by apply group_tail_stops. }
    rewrite Hr, IH by (done || (cbn in Hl; lia)). by destruct todo.
Qed.

Lemma read_groups_format todo gs rest :
  Forall group gs -> (length gs <= todo)%nat -> 46 ∉ rest -> stops 16 rest -> no_group rest ->
  read_groups todo 0 (format_groups gs ++ rest) = (gs, false, rest).
Proof.
  intros Hg Hl Hd Hs Hn. destruct Hg as [|g gs Hg H].
  - destruct todo as [|todo]; [done|]. cbn [format_groups map join app read_groups].
    rewrite (no_embedded 0) by done. cbn [read_separator]. rewrite read_number_stop by done. by destruct todo.
  - destruct todo as [|todo]; [cbn in Hl; lia|].
    rewrite format_groups_cons, <- app_assoc. cbn [read_groups].
    rewrite (no_embedded 0).
    2: { rewrite !not_elem_of_app. split; [by apply hex_no_dot|]. split; [by apply group_tail_no_dot|done]. }
    cbn [read_separator]. rewrite read_hex by (done || by apply group_tail_stops).
    rewrite read_group_tail by (done || (cbn in Hl; lia)). by destruct todo.
Qed.

Lemma length_ipv6_groups v : length (ipv6_groups v) = 8%nat.
Proof. done. Qed.

Lemma ipv6_groups_group v : Forall group (ipv6_groups v).
Proof. repeat constructor; unfold group; apply Z.mod_pos_bound; lia. Qed.

Lemma groups_value_ipv6 v : 0 <= v < 2 ^ 128 -> groups_value (ipv6_groups v) = v.
Proof.
  intros Hv. unfold groups_value, ipv6_groups. cbn [map foldl].
  assert (E : forall i j, 0 <= i -> j = i + 1 -> v / 2 ^ (16 * j) = v / 2 ^ (16 * i) / 65536).
  { intros i j Hi ->. rewrite Z.div_div by lia. f_equal. rewrite <- Z.pow_add_r with (c := 16) by lia. f_equal. lia. }
  pose proof (E 0 1 ltac:(lia) eq_refl) as E0.
  pose proof (E 1 2 ltac:(lia) eq_refl) as E1.
  pose proof (E 2 3 ltac:(lia) eq_refl) as E2.
  pose proof (E 3 4 ltac:(lia) eq_refl) as E3.
  pose proof (E 4 5 ltac:(lia) eq_refl) as E4.
  pose proof (E 5 6 ltac:(lia) eq_refl) as E5.
  pose proof (E 6 7 ltac:(lia) eq_refl) as E6.
  assert (v / 2 ^ (16 * 0) = v) as F0 by (change (2 ^ (16 * 0)) with 1; apply Z.div_1_r).
  assert (0 <= v / 2 ^ (16 * 7) < 65536) as F7.
  { split; [apply Z.div_pos; lia|]. apply Z.div_lt_upper_bound; lia. }
  set (q7 := v / 2 ^ (16 * 7)) in *. set (q6 := v / 2 ^ (16 * 6)) in *. set (q5 := v / 2 ^ (16 * 5)) in *.
  set (q4 := v / 2 ^ (16 * 4)) in *. set (q3 := v / 2 ^ (16 * 3)) in *. set (q2 := v / 2 ^ (16 * 2)) in *.
  set (q1 := v / 2 ^ (16 * 1)) in *. set (q0 := v / 2 ^ (16 * 0)) in *.
  rewrite (Z.mod_small q7) by lia.
  pose proof (Z.div_mod q6 65536 ltac:(lia)). pose proof (Z.div_mod q5 65536 ltac:(lia)).
  pose proof (Z.div_mod q4 65536 ltac:(lia)). pose proof (Z.div_mod q3 65536 ltac:(lia)).
  pose proof (Z.div_mod q2 65536 ltac:(lia)). pose proof (Z.div_mod q1 65536 ltac:(lia)).
  pose proof (Z.div_mod q0 65536 ltac:(lia)). lia.
Qed.

(** * Zero compression *)

(** A run of zero groups within the first [n] groups. *)
Definition zero_run (gs : list Z) (n : nat) (run : nat * nat) : Prop :=
  let '(start, len) := run in
  len = O \/ ((start + len <= n)%nat /\ take len (drop start gs) = replicate len 0).

Lemma zero_run_mono gs n m run : zero_run gs n run -> (n <= m)%nat -> zero_run gs m run.
Proof. destruct run as [start len]. intros [->|[H E]] Hm; [by left|right; split; [lia|done]]. Qed.

Lemma longest_zeros_run done todo current longest :
  zero_run (done ++ todo) (length done) longest ->
  zero_run (done ++ todo) (length done) current ->
  (snd current = O \/ fst current + snd current = length done)%nat ->
  zero_run (done ++ todo) (length (done ++ todo)) (longest_zeros (length done) todo current longest).
Proof.
  revert done current longest. induction todo as [|g todo IH]; intros done [cs cl] [ls ll] Hl Hc He.
  - cbn [longest_zeros]. by rewrite app_nil_r in *.
  - cbn [longest_zeros fst snd] in *.
    assert (Happ : done ++ g :: todo = (done ++ [g]) ++ todo) by (by rewrite <- app_assoc).
    assert (Hlen : length (done ++ [g]) = S (length done)) by (rewrite length_app; cbn; lia).
    destruct (Z.eqb_spec g 0) as [->|Hg].
    + set (start := if (cl =? 0)%nat then length done else cs).
      assert (Hcur : zero_run (done ++ 0 :: todo) (S (length done)) (start, S cl)).
      { right. unfold start. destruct cl as [|cl]; cbn [Nat.eqb].
        - split; [lia|]. rewrite drop_app_length. done.
        - destruct He as [?|He]; [done|]. destruct Hc as [?|[Hc Er]]; [done|]. split; [lia|].
          rewrite <- (take_drop (S cl) (drop cs (done ++ 0 :: todo))).
          rewrite drop_drop, Er, take_app_ge, length_replicate by (rewrite length_replicate; lia).
          replace (cs + S cl)%nat with (length done) by lia. rewrite drop_app_length.
          replace (S (S cl) - S cl)%nat with 1%nat by lia. cbn [take].
          rewrite take_0. symmetry. apply (replicate_cons_app (S cl)). }
      rewrite Happ in *. rewrite <- Hlen in *. apply IH.
      * case_match; [done|]. eapply zero_run_mono; [exact Hl|lia].
      * done.
      * right. cbn [fst snd]. unfold start. destruct cl; cbn [Nat.eqb]; lia.
    + rewrite Happ in *. rewrite <- Hlen in *. apply IH.
      * eapply zero_run_mono; [exact Hl|lia].
      * by left.
      * by left.
Qed.

Lemma compressed_groups gs start len : length gs = 8%nat ->
  longest_zeros 0 gs (O, O) (O, O) = (start, len) -> (1 < len)%nat ->
  (start + len <= 8)%nat /\ gs = take start gs ++ replicate len 0 ++ drop (start + len) gs.
Proof.
  intros H8 E Hl. pose proof (longest_zeros_run [] gs (O, O) (O, O)) as H. cbn [app length] in H.
  rewrite E, H8 in H. destruct H as [?|[Hb Hz]]; try (by left). { lia. }
  split; [done|]. rewrite <- Hz, <- drop_drop, take_drop. by rewrite take_drop.
Qed.

(** * IPv6 *)

Lemma read_compressed head tail : Forall group head -> Forall group tail ->
  (length head + length tail <= 6)%nat ->
  read_ipv6_addr (format_groups head ++ lit "::" ++ format_groups tail)
  = Some (groups_value (head ++ replicate (8 - length head - length tail) 0 ++ tail), []).
Proof.
  intros Hh Ht Hl. unfold read_ipv6_addr. change (lit "::") with [58; 58].
  rewrite (read_groups_format 8 head) by
    (done || lia || (cbn [app]; apply not_elem_of_cons; split; [lia|]; apply not_elem_of_cons; split; [lia|];
                     by apply format_groups_no_dot)).
  rewrite (proj2 (Nat.eqb_neq (length head) 8)) by lia. cbn [app].
  rewrite <- (app_nil_r (format_groups tail)).
  rewrite (read_groups_format _ tail []) by (done || lia || apply not_elem_of_nil). done.
Qed.

Lemma read_mapped v4 : 0 <= v4 < 2 ^ 32 ->
  read_ipv6_addr (lit "::ffff:" ++ format_ipv4 v4) = Some (65535 * 2 ^ 32 + v4, []).
Proof.
  intros H. unfold read_ipv6_addr.
  assert (E0 : read_groups 8 0 (lit "::ffff:" ++ format_ipv4 v4) = ([], false, lit "::ffff:" ++ format_ipv4 v4)) by done.
  rewrite E0. cbn [length Nat.eqb].
  change (lit "::ffff:" ++ format_ipv4 v4) with (58 :: 58 :: format_hex 65535 ++ 58 :: format_ipv4 v4).
  cbn [Nat.sub Nat.add].
  assert (E1 : read_groups 7 0 (format_hex 65535 ++ 58 :: format_ipv4 v4)
               = ([65535; v4 / 65536; v4 mod 65536], true, [])).
  { assert (En : read_separator 58 0 read_ipv4_addr (format_hex 65535 ++ 58 :: format_ipv4 v4) = None) by done.
    change (read_groups 7 0 (format_hex 65535 ++ 58 :: format_ipv4 v4)) with
      (match read_separator 58 0 read_ipv4_addr (format_hex 65535 ++ 58 :: format_ipv4 v4) with
       | Some (v4, rest) => ([v4 / 65536; v4 mod 65536], true, rest)
       | None =>
           match read_separator 58 0 (read_number 16 u16_max 4 true) (format_hex 65535 ++ 58 :: format_ipv4 v4) with
           | Some (group, rest) =>
               let '(groups, v4, rest) := read_groups 6 1 rest in (group :: groups, v4, rest)
           | None => ([], false, format_hex 65535 ++ 58 :: format_ipv4 v4)
           end
       end).
    rewrite En. unfold read_separator at 1. rewrite read_hex by (done || lia).
    cbn [read_groups read_separator Z.eqb Pos.eqb].
    rewrite <- (app_nil_r (format_ipv4 v4)), read_ipv4_format by done. done. }
  rewrite E1. f_equal. f_equal. unfold groups_value. cbn [app foldl length Nat.sub replicate].
  pose proof (Z.div_mod v4 65536 ltac:(lia)). lia.
Qed.

(** The text of an IPv6 address reads back as the address. *)
Lemma read_ipv6_format v : 0 <= v < 2 ^ 128 -> read_ipv6_addr (format_ipv6 v) = Some (v, []).
Proof.
  intros Hv. unfold format_ipv6, ipv4_mapped. destruct (Z.eqb_spec (v / 2 ^ 32) 65535) as [E|E].
  - rewrite read_mapped by (apply Z.mod_pos_bound; lia). do 2 f_equal.
    pose proof (Z.div_mod v (2 ^ 32) ltac:(lia)). lia.
  - destruct (longest_zeros 0 (ipv6_groups v) (O, O) (O, O)) as [start len] eqn:El.
    pose proof (ipv6_groups_group v) as Hg.
    destruct (Nat.ltb_spec 1 len) as [H1|H1].
    + destruct (compressed_groups _ start len (length_ipv6_groups v) El H1) as [Hb Hs].
      assert (Ht : length (take start (ipv6_groups v)) = start) by (rewrite length_take, length_ipv6_groups; lia).
      assert (Hd : length (drop (start + len) (ipv6_groups v)) = (8 - (start + len))%nat)
        by (by rewrite length_drop, length_ipv6_groups).
      rewrite read_compressed; [|by apply Forall_take|by apply Forall_drop|lia].
      rewrite Ht, Hd. replace (8 - start - (8 - (start + len)))%nat with len by lia.
      rewrite <- Hs. by rewrite groups_value_ipv6.
    + unfold read_ipv6_addr. rewrite <- (app_nil_r (format_groups (ipv6_groups v))).
      rewrite read_groups_format by (done || apply not_elem_of_nil). cbn [length Nat.eqb].
      rewrite length_ipv6_groups. cbn [Nat.eqb]. by rewrite groups_value_ipv6.
Qed.

Lemma read_ipv4_of_ipv6 v : 0 <= v < 2 ^ 128 -> read_ipv4_addr (format_ipv6 v) = None.
Proof.
  intros Hv. unfold format_ipv6, ipv4_mapped. destruct (v / 2 ^ 32 =? 65535); [done|].
  destruct (longest_zeros _ _ _ _) as [start len]. pose proof (ipv6_groups_group v) as Hg.
  apply read_ipv4_no_dot. destruct (1 <? len)%nat; [|by apply format_groups_no_dot].
  rewrite !not_elem_of_app. repeat split.
  - by apply format_groups_no_dot, Forall_take.
  - change (lit "::") with [58; 58]. intros [?|[?|?%elem_of_nil]%elem_of_cons]%elem_of_cons; lia || done.
  - by apply format_groups_no_dot, Forall_drop.
Qed.

Lemma parse_format_ip a : ip_wf a -> parse_ip_addr (format_ip_addr a) = Some a.
Proof.
  intros H. destruct a as [v|v]; cbn in H; cbn [format_ip_addr].
  - by apply parse_format_ipv4.
  - unfold parse_ip_addr. rewrite read_ipv4_of_ipv6, read_ipv6_format by done. done.
Qed.

(** Parsing the text of an IP address gives the address back, for every IPv4
    and IPv6 address, whatever zero groups its text compresses; so different
    addresses have different texts. *)
Theorem parse_format_ip_addr a : ip_wf a ->
  parse_ip_addr (format_ip_addr a) = Some a /\
  forall b, ip_wf b -> format_ip_addr a = format_ip_addr b -> a = b.
Proof.
  intros Ha. split; [by apply parse_format_ip|]. intros b Hb E.
  pose proof (parse_format_ip a Ha) as H. rewrite E, parse_format_ip in H by done. congruence.
Qed.

Lemma parse_format_ip_addr_witness :
  parse_ip_addr (lit "2001:db8::1:0:0:1") = Some (IpV6 42540766411282592856904266426630537217).
Proof.
  assert (H : ip_wf (IpV6 42540766411282592856904266426630537217)) by (unfold ip_wf; cbn [ip_value is_ipv4 ip_width]; lia).
  exact (proj1 (parse_format_ip_addr (IpV6 42540766411282592856904266426630537217) H)).
Defined.


(** * What the parser accepts *)

Lemma read_digits_bound radix max n value count s v k rest :
  0 < radix -> 0 <= value <= max -> read_digits radix max n value count s = Some (v, k, rest) -> 0 <= v <= max.
Proof.
  intros Hr. revert value count. induction s as [|c s IH]; intros value count Hv; cbn [read_digits].
  - by intros [= <- <- <-].
  - destruct (to_digit radix c) as [d|] eqn:Ed; [|by intros [= <- <- <-]].
    destruct ((max <? value * radix + d) || (n <=? count)%nat) eqn:Eb; [done|]. bools. apply IH.
    assert (0 <= d) by (unfold to_digit, is_ascii_digit, in_range in Ed; repeat case_match; simplify_eq; bools; lia).
    nia.
Qed.

Lemma read_number_bound radix max n zeros s v rest :
  0 < radix -> 0 <= max -> read_number radix max n zeros s = Some (v, rest) -> 0 <= v <= max.
Proof.
  intros Hr Hm. unfold read_number. destruct (read_digits radix max n 0 0 s) as [[[v' k] r]|] eqn:E; [|done].
  apply read_digits_bound in E; [|done|lia]. intros H. repeat case_match; simplify_eq; done.
Qed.

Lemma read_separator_some {A} sep index (reader : str -> option (A * str)) s r :
  read_separator sep index reader s = Some r -> exists s', reader s' = Some r.
Proof. destruct index; [by exists s|]. destruct s as [|c s]; [done|]. cbn. case_match; [by exists s|done]. Qed.

Lemma read_octets_bound todo index value s v rest k : 0 <= value < 256 ^ k -> 0 <= k ->
  read_octets todo index value s = Some (v, rest) -> 0 <= v < 256 ^ (k + Z.of_nat todo).
Proof.
  revert index value s k. induction todo as [|todo IH]; intros index value s k Hv Hk; cbn [read_octets].
  - intros [= <- <-]. by rewrite Z.add_0_r.
  - destruct (read_separator 46 index _ s) as [[o r]|] eqn:E; [|done].
    apply read_separator_some in E as [s' E]. apply read_number_bound in E; [|done|done].
    intros H. apply (IH _ _ _ (k + 1)) in H; [|rewrite Z.pow_add_r by lia; unfold u8_max in E; lia|lia].
    rewrite Nat2Z.inj_succ. by replace (k + Z.succ (Z.of_nat todo)) with (k + 1 + Z.of_nat todo) by lia.
Qed.

Lemma read_ipv4_bound s v rest : read_ipv4_addr s = Some (v, rest) -> 0 <= v < 2 ^ 32.
Proof. intros H. apply (read_octets_bound 4 0 0 s v rest 0) in H; lia. Qed.

Lemma read_groups_bound todo index s gs v4 rest :
  read_groups todo index s = (gs, v4, rest) -> Forall group gs /\ (length gs <= todo)%nat.
Proof.
  revert index s gs v4 rest. induction todo as [|todo IH]; intros index s gs v4 rest; cbn [read_groups].
  - intros [= <- <- <-]. split; [constructor|done].
  - destruct (match todo with O => None | S _ => read_separator 58 index read_ipv4_addr s end) as [[v r]|] eqn:E.
    + intros [= <- <- <-]. destruct todo as [|todo]; [done|].
      apply read_separator_some in E as [s' E]. apply read_ipv4_bound in E. split; [|cbn; lia].
      repeat constructor; unfold group; try (apply Z.mod_pos_bound; lia); Z.div_mod_to_equations; lia.
    + destruct (read_separator 58 index (read_number 16 u16_max 4 true) s) as [[g r]|] eqn:Eg.
      2: { intros [= <- <- <-]. split; [constructor|cbn; lia]. }
      apply read_separator_some in Eg as [s' Eg]. apply read_number_bound in Eg; [|done|done].
      destruct (read_groups todo (S index) r) as [[gs' v'] r'] eqn:Er. intros [= <- <- <-].
      apply IH in Er as [? ?]. split; [constructor; [unfold group, u16_max in *; lia|done]|cbn; lia].
Qed.

Lemma groups_value_bound gs v : Forall group gs -> 0 <= v ->
  0 <= foldl (fun acc g => acc * 65536 + g) v gs < (v + 1) * 65536 ^ Z.of_nat (length gs).
Proof.
  intros H. revert v. induction H as [|g gs Hg _ IH]; intros v Hv; cbn [foldl length]; [lia|].
  unfold group in Hg. destruct (IH (v * 65536 + g) ltac:(lia)) as [H1 H2]. split; [done|].
  rewrite Nat2Z.inj_succ, Z.pow_succ_r by lia.
  assert (0 < 65536 ^ Z.of_nat (length gs)) by (apply Z.pow_pos_nonneg; lia). nia.
Qed.

Lemma groups_value_wf gs : Forall group gs -> (length gs <= 8)%nat -> 0 <= groups_value gs < 2 ^ 128.
Proof.
  intros H Hl. unfold groups_value. pose proof (groups_value_bound gs 0 H ltac:(lia)) as [H1 H2]. split; [done|].
  eapply Z.lt_le_trans; [exact H2|]. rewrite Z.add_0_l, Z.mul_1_l. change (2 ^ 128) with (65536 ^ 8).
  apply Z.pow_le_mono_r; lia.
Qed.

Lemma read_ipv6_bound s v rest : read_ipv6_addr s = Some (v, rest) -> 0 <= v < 2 ^ 128.
Proof.
  unfold read_ipv6_addr. destruct (read_groups 8 0 s) as [[head h4] r] eqn:E.
  apply read_groups_bound in E as [Hh Hl]. destruct (Nat.eqb_spec (length head) 8).
  { intros [= <- <-]. by apply groups_value_wf. }
  destruct h4; [done|]. destruct r as [|c1 [|c2 r]]; try (repeat case_match; done).
  destruct (Z.eq_dec c1 58) as [->|]; [|repeat case_match; done].
  destruct (Z.eq_dec c2 58) as [->|]; [|repeat case_match; done].
  destruct (read_groups (8 - (length head + 1)) 0 r) as [[tail t4] r'] eqn:Et.
  apply read_groups_bound in Et as [Ht Htl]. intros [= <- <-]. apply groups_value_wf.
  - rewrite !Forall_app. split; [done|]. split; [|done]. apply Forall_replicate. unfold group. lia.
  - rewrite !length_app, length_replicate. lia.
Qed.

(** A parsed address is one of its family. *)
Lemma parse_ip_wf s a : parse_ip_addr s = Some a -> ip_wf a.
Proof.
  unfold parse_ip_addr. destruct (read_ipv4_addr s) as [[v r]|] eqn:E4.
  - destruct (is_empty r); [|done]. intros [= <-]. by apply read_ipv4_bound in E4.
  - destruct (read_ipv6_addr s) as [[v [|]]|] eqn:E6; [|done|done]. intros [= <-]. by apply read_ipv6_bound in E6.
Qed.

(** * The alphabet of addresses *)

Definition ip_char (c : Z) : Prop := 48 <= c <= 58 \/ 97 <= c <= 102 \/ c = 46.

Lemma to_string_ip_chars n : 0 <= n -> Forall ip_char (to_string n).
Proof.
  intros H. destruct (to_string_spec n H) as (Hd & _). unfold all_digits in Hd.
  rewrite forallb_forall in Hd. apply Forall_forall. intros c Hc. apply list_elem_of_In, Hd in Hc.
  unfold is_ascii_digit, in_range in Hc. bools. left. lia.
Qed.

Lemma format_ipv4_chars v : 0 <= v < 2 ^ 32 -> Forall ip_char (format_ipv4 v).
Proof.
  intros H. assert (Hdot : Forall ip_char (lit ".")) by (apply Forall_singleton; by do 2 right).
  unfold format_ipv4. repeat (apply Forall_app; split); try exact Hdot; apply to_string_ip_chars;
    try (apply Z.mod_pos_bound; lia); apply Z.div_pos; lia.
Qed.

Lemma hex_ip_chars g : 0 <= g < 65536 -> Forall ip_char (format_hex g).
Proof.
  intros Hg. destruct (format_hex_digits g Hg) as (ds & -> & Hd & _). apply Forall_map.
  eapply Forall_impl; [exact Hd|]. unfold digit, ip_char, hex_char. intros d. case_match; bools; lia.
Qed.

Lemma format_groups_chars gs : Forall group gs -> Forall ip_char (format_groups gs).
Proof.
  destruct 1 as [|g gs Hg H]; [constructor|]. rewrite format_groups_cons. apply Forall_app. split; [by apply hex_ip_chars|].
  clear Hg. induction H as [|h gs Hh _ IH]; [constructor|].
  change (group_tail (h :: gs)) with ((58 :: format_hex h) ++ group_tail gs). apply Forall_app. split; [|done].
  constructor; [left; lia|by apply hex_ip_chars].
Qed.

Lemma format_ip_chars a : ip_wf a -> Forall ip_char (format_ip_addr a).
Proof.
  destruct a as [v|v]; unfold ip_wf; cbn [ip_value is_ipv4 ip_width format_ip_addr]; intros H; [by apply format_ipv4_chars|].
  unfold format_ipv6, ipv4_mapped. pose proof (ipv6_groups_group v) as Hg.
  assert (Hc : Forall ip_char (lit "::")).
  { change (lit "::") with [58; 58]. repeat (apply Forall_cons_2; [unfold ip_char; lia|]). apply Forall_nil_2. }
  destruct (v / 2 ^ 32 =? 65535).
  - apply Forall_app. split; [|apply format_ipv4_chars, Z.mod_pos_bound; lia].
    change (lit "::ffff:") with [58; 58; 102; 102; 102; 102; 58].
    repeat (apply Forall_cons_2; [unfold ip_char; lia|]). apply Forall_nil_2.
  - destruct (longest_zeros _ _ _ _) as [start len]. case_match; [|by apply format_groups_chars].
    apply Forall_app. split; [by apply format_groups_chars, Forall_take|].
    apply Forall_app. split; [done|by apply format_groups_chars, Forall_drop].
Qed.
