(* ===== verification/NetworkPlanProofs.v ===== *)
(** Properties of tunnel plans.

    A plan the planner accepts for an agent-managed tunnel can be rendered: every
    error of the renderer is excluded by a check of the planner, apart from a
    local underlay that is not written as a bare address (which the planner
    trims before it checks it, and the renderer does not).  The addresses of an
    accepted plan are pairwise distinct, and planning them again changes
    nothing. *)

From S2P Require Import Prelude RustStd Net NetProofs F64 TunnelModels NetworkCost OpenvpnOverride NetworkPlanner TunnelRender.

Open Scope Z_scope.

(** * Helpers *)

Lemma try_map_total {A B} (f : A -> planned B) l : (forall a, In a l -> is_ok (f a) = true) ->
  is_ok (try_map f l) = true.
Proof.
  induction l as [|a l IH]; intros H; [done|]. cbn [try_map].
  pose proof (H a ltac:(by left)) as Ha. destruct (f a) as [b|]; [|done]. cbn [mbind result_bind].
  assert (is_ok (try_map f l) = true) as Hl by (apply IH; intros x Hx; apply H; by right).
  by destruct (try_map f l).
Qed.

Lemma is_ok_bind {A B} (m : planned A) (k : A -> planned B) a :
  m = Ok a -> is_ok (k a) = true -> is_ok (m ≫= k) = true.
Proof. by intros ->. Qed.

Lemma is_ok_exists {A} (m : planned A) : is_ok m = true <-> exists a, m = Ok a.
Proof. destruct m; split; naive_solver. Qed.

(** An IPv6 address is read as one by the general parser. *)
Lemma parse_ipv6_is_ip s v : parse_ipv6_addr s = Some v -> parse_ip_addr s = Some (IpV6 v).
Proof.
  unfold parse_ipv6_addr, parse_ip_addr. intros H.
  destruct (read_ipv4_addr s) as [[v4 rest]|] eqn:E4; [|repeat case_match; simplify_eq; done].
  exfalso. assert (read_ipv6_addr s = None) as Hn; [|by rewrite Hn in H].
  unfold read_ipv6_addr.
  assert (read_groups 8 0 s = ([v4 / 65536; v4 mod 65536], true, rest)) as ->; [|done].
  cbn [read_groups]. unfold read_separator at 1. by rewrite E4.
Qed.

Lemma parse_ipv4_is_ip s v : parse_ipv4_addr s = Some v -> parse_ip_addr s = Some (IpV4 v).
Proof.
  unfold parse_ipv4_addr, parse_ip_addr. intros H.
  destruct (read_ipv4_addr s) as [[v4 [|]]|]; simplify_eq; done.
Qed.

(** * What an accepted plan satisfies *)

(** A local underlay written as the bare address, as the renderer reads it. *)
Definition bare_local (local : option str) : Prop :=
  match local with Some s => trim s = s /\ s <> [] | None => True end.

Section Accepted.

Context (uuid_parses : str -> bool) (json_f64 : f64 -> str).

Lemma plan_tunnel_inv input plan : plan_tunnel uuid_parses json_f64 input = Some (Ok plan) ->
  exists parts lc rc, plan_parts uuid_parses input = Ok parts /\ plan = assemble_plan input parts lc rc.
Proof.
  unfold plan_tunnel. intros H. destruct (plan_parts uuid_parses input) as [parts|]; [|done].
  destruct (side_cost _ _ _ SideLeft) as [lc|]; [|done]. cbn [mbind option_bind] in H.
  destruct (side_cost _ _ _ SideRight) as [rc|]; [|done]. cbn [mbind option_bind] in H.
  exists parts, lc, rc. by simplify_eq.
Qed.

(** The facts the renderer relies on. *)
Record plan_ok (input : TunnelPlanInput) (parts : PlanParts) : Prop := {
  ok_interface : validate_interface_name (in_interface_name input) = Ok tt;
  ok_left_underlay :
    validate_endpoint_underlay (in_left_remote_underlay input) (in_left_local_underlay input)
      (rc_manager (in_runtime_control input)) (in_kind input) (fou_tunnel_kind (rc_fou (in_runtime_control input))) = Ok tt;
  ok_right_underlay :
    validate_endpoint_underlay (in_right_remote_underlay input) (in_right_local_underlay input)
      (rc_manager (in_runtime_control input)) (in_kind input) (fou_tunnel_kind (rc_fou (in_runtime_control input))) = Ok tt;
  ok_control : validate_runtime_tunnel_control uuid_parses (in_runtime_control input) = Ok tt;
  ok_driver : validate_runtime_tunnel_driver_options (in_kind input) (in_runtime_control input) = Ok tt;
  ok_ipv4 : resolve_ipv4_tunnel input = Ok (part_ipv4 parts);
  ok_ipv6 : resolve_ipv6_tunnel input = Ok (part_ipv6 parts);
  ok_additional :
    canonical_additional_addresses (in_additional_addresses input) (part_ipv4 parts) (part_ipv6 parts)
    = Ok (part_additional parts);
  ok_fou :
    validate_fou_address_families (in_kind input) (in_runtime_control input)
      (bool_decide (is_Some (part_ipv4 parts))) (bool_decide (is_Some (part_ipv6 parts))) (part_additional parts) = Ok tt;
  ok_mtus : exists v6l v6r,
    validate_tunnel_mtus (rc_manager (in_runtime_control input)) (in_kind input) (in_left_mtu input) (in_right_mtu input)
      v6l v6r = Ok tt;
  ok_primary : is_Some (part_ipv4 parts) \/ is_Some (part_ipv6 parts);
}.

Lemma plan_parts_ok input parts : plan_parts uuid_parses input = Ok parts -> plan_ok input parts.
Proof.
  unfold plan_parts. intros H. unfold validate_plan_identity in H. inv_checks. injection H as <-. subst.
  split; cbn; eauto.
  unfold primary_tunnel, primary_family in *. repeat case_match; simplify_eq; eauto.
Qed.

(** The view of one side, as the renderer returns it. *)
Definition plan_endpoint (plan : TunnelPlan) (side : TunnelEndpointSide) : TunnelEndpointConfig :=
  match side with
  | SideLeft =>
      mkEndpoint SideLeft (plan_left_client_id plan) (plan_right_client_id plan) (plan_left_mtu plan)
        (plan_runtime_control plan) (plan_left_remote_underlay plan) (plan_left_local_underlay plan)
        (plan_left_tunnel_address plan) (plan_right_tunnel_address plan) (plan_tunnel_prefix_len plan)
        (plan_latency_primary_family plan) (plan_ipv4_tunnel plan) (plan_ipv6_tunnel plan)
        (extras_left (plan_additional_addresses plan)) (extras_right (plan_additional_addresses plan))
        (plan_manage_link_local plan)
  | SideRight =>
      mkEndpoint SideRight (plan_right_client_id plan) (plan_left_client_id plan) (plan_right_mtu plan)
        (plan_runtime_control plan) (plan_right_remote_underlay plan) (plan_right_local_underlay plan)
        (plan_right_tunnel_address plan) (plan_left_tunnel_address plan) (plan_tunnel_prefix_len plan)
        (plan_latency_primary_family plan) (plan_ipv4_tunnel plan) (plan_ipv6_tunnel plan)
        (extras_right (plan_additional_addresses plan)) (extras_left (plan_additional_addresses plan))
        (plan_manage_link_local plan)
  end.

Lemma plan_endpoint_side plan side : e_side (plan_endpoint plan side) = side.
Proof. by destruct side. Qed.

Lemma endpoint_renders input parts lc rc side : plan_ok input parts ->
  render_tunnel_endpoint_config (assemble_plan input parts lc rc) side
  = Ok (plan_endpoint (assemble_plan input parts lc rc) side).
Proof.
  intros Hok. destruct Hok. unfold render_tunnel_endpoint_config. cbn [plan_interface_name plan_kind plan_runtime_control
    plan_ipv4_tunnel plan_ipv6_tunnel plan_additional_addresses assemble_plan].
  rewrite ok_interface0, ok_fou0. cbn [mbind result_bind].
  destruct side; cbn [plan_left_remote_underlay plan_left_local_underlay plan_right_remote_underlay
    plan_right_local_underlay assemble_plan].
  - rewrite ok_left_underlay0. case_match; reflexivity.
  - rewrite ok_right_underlay0. case_match; reflexivity.
Qed.

Lemma underlay_parses remote local manager kind fou :
  validate_endpoint_underlay remote local manager kind fou = Ok tt ->
  is_Some (parse_ip_addr remote) /\
  (bare_local local -> match local with Some s => is_Some (parse_ip_addr s) | None => True end).
Proof.
  unfold validate_endpoint_underlay. intros H. inv_checks. split; [done|].
  destruct local as [s|]; [|done]. intros [Ht Hne]. unfold trimmed_local in E0. cbn [option_map] in E0.
  rewrite Ht in E0. destruct s as [|c s]; [done|]. cbn [is_empty parse_optional_ip] in E0. by inv_checks.
Qed.

Lemma endpoint_underlays input parts lc rc side : plan_ok input parts ->
  is_Some (parse_ip_addr (e_remote_underlay (plan_endpoint (assemble_plan input parts lc rc) side))) /\
  (bare_local (e_local_underlay (plan_endpoint (assemble_plan input parts lc rc) side)) ->
   match e_local_underlay (plan_endpoint (assemble_plan input parts lc rc) side) with
   | Some s => is_Some (parse_ip_addr s) | None => True end).
Proof. intros Hok. destruct Hok. destruct side; by eapply underlay_parses. Qed.

(** The hooks of an accepted control are executable. *)
Lemma hook_renders control side plan endpoint command phase label :
  validate_runtime_tunnel_control uuid_parses control = Ok tt ->
  In command (endpoint_hook_list (hooks_for_side (rc_hooks control) side)) ->
  is_ok (push_hook phase label (Some command) plan endpoint) = true.
Proof.
  unfold validate_runtime_tunnel_control. intros H Hin.
  destruct (hooks_is_default (rc_hooks control)) eqn:Ed.
  { unfold hooks_is_default in Ed. bools. rewrite Ed in Hin. by destruct side. }
  inv_checks. rename E0 into Eh.
  assert (Hv : validate_runtime_tunnel_hook command = Ok tt).
  { apply (try_each_ok _ _ _ E). apply in_app_iff. destruct side; auto. }
  unfold validate_runtime_tunnel_hook in Hv. apply reject_if_ok in Hv. bools.
  cbn [push_hook]. unfold render_runtime_tunnel_command.
  destruct (cmd_argv command) as [|arg rest]; [done|]. by rewrite H4.
Qed.

Lemma hook_option_renders control side plan endpoint hook phase label :
  validate_runtime_tunnel_control uuid_parses control = Ok tt ->
  In hook [pre_start; post_start; pre_shutdown; post_shutdown] ->
  is_ok (push_hook phase label (hook (hooks_for_side (rc_hooks control) side)) plan endpoint) = true.
Proof.
  intros Hv Hin. destruct (hook (hooks_for_side (rc_hooks control) side)) as [command|] eqn:E; [|done].
  apply (hook_renders control side); [done|]. unfold endpoint_hook_list.
  rewrite !in_app_iff. destruct Hin as [<-|[<-|[<-|[<-|[]]]]]; rewrite E; cbn; tauto.
Qed.

Lemma mtus_present manager kind l r v6l v6r :
  manager = AgentBuiltin -> validate_tunnel_mtus manager kind l r v6l v6r = Ok tt -> is_Some l /\ is_Some r.
Proof. intros ->. cbn [validate_tunnel_mtus]. destruct l, r; done. Qed.

Lemma endpoint_mtu input parts lc rc side : plan_ok input parts ->
  rc_manager (in_runtime_control input) = AgentBuiltin ->
  is_Some (e_local_mtu (plan_endpoint (assemble_plan input parts lc rc) side)).
Proof.
  intros Hok Hb. destruct Hok. destruct ok_mtus0 as (v6l & v6r & Hm).
  destruct (mtus_present _ _ _ _ _ _ Hb Hm). by destruct side.
Qed.

(** Canonical additional addresses carry a prefix. *)
Lemma canonical_family_slash side ipv4 index seen entries texts seen' :
  canonical_additional_family side ipv4 index seen entries = Ok (texts, seen') ->
  Forall (fun text => is_Some (split_once 47 text)) texts.
Proof.
  revert index seen texts seen'. induction entries as [|entry entries IH]; intros index seen texts seen' H;
    cbn [canonical_additional_family] in H.
  { injection H as <- <-. constructor. }
  inv_checks. destruct a as [text address]. inv_checks. destruct a as [texts' seen'']. injection H as <- <-.
  constructor; [|by eapply IH]. unfold canonical_additional_entry in E. inv_checks.
  destruct a as [address' prefix]. inv_checks. injection E as <- <-.
  match goal with |- is_Some ?x => destruct x eqn:En end; [by eexists|].
  apply split_once_None in En. exfalso. apply En.
  apply elem_of_app. right. by left.
Qed.

Lemma canonical_endpoint_slash side seen source extra seen' :
  canonical_endpoint side seen source = Ok (extra, seen') ->
  Forall (fun text => is_Some (split_once 47 text)) (extra_ipv4 extra) /\
  Forall (fun text => is_Some (split_once 47 text)) (extra_ipv6 extra).
Proof.
  unfold canonical_endpoint. intros H. inv_checks. destruct a as [v4 s4]. inv_checks. destruct a as [v6 s6].
  injection H as <- <-. cbn. split; by eapply canonical_family_slash.
Qed.

Lemma host_allowances_ok suffix cidrs : Forall (fun text => is_Some (split_once 47 text)) cidrs ->
  is_ok (host_allowances suffix cidrs) = true.
Proof.
  intros H. apply try_map_total. intros a Ha. rewrite List.Forall_forall in H.
  destruct (H a Ha) as [parts ->]. done.
Qed.

Lemma endpoint_extras_slash input parts lc rc side : plan_ok input parts ->
  let extra := e_peer_additional_addresses (plan_endpoint (assemble_plan input parts lc rc) side) in
  Forall (fun text => is_Some (split_once 47 text)) (extra_ipv4 extra) /\
  Forall (fun text => is_Some (split_once 47 text)) (extra_ipv6 extra).
Proof.
  intros Hok. destruct Hok. unfold canonical_additional_addresses in ok_additional0. inv_checks.
  destruct a as [l sl]. inv_checks. destruct a as [r sr]. injection ok_additional0 as Ep.
  cbv zeta. destruct side; cbn [plan_endpoint e_peer_additional_addresses plan_additional_addresses assemble_plan];
    rewrite <- Ep; cbn; by eapply canonical_endpoint_slash.
Qed.

(** The endpoint pairs of an accepted plan are addresses. *)
Lemma pair_parses width parse p side : validate_pair width parse p = Ok tt ->
  (forall s v, parse s = Some v -> is_Some (parse_ip_addr s)) ->
  is_Some (parse_ip_addr (match side with SideLeft => left p | SideRight => right p end)).
Proof. unfold validate_pair. intros H Hp. inv_checks. destruct side; eauto. Qed.

Lemma address_lines_ok input parts lc rc side : plan_ok input parts ->
  is_ok (try_map openvpn_address_line
           (tunnel_endpoint_address_pairs (assemble_plan input parts lc rc)
              (plan_endpoint (assemble_plan input parts lc rc) side))) = true.
Proof.
  intros Hok. pose proof (ok_ipv4 _ _ Hok) as H4. pose proof (ok_ipv6 _ _ Hok) as H6.
  apply try_map_total. intros t Ht. unfold tunnel_endpoint_address_pairs in Ht.
  apply in_map_iff in Ht as (p & <- & Hp). rewrite plan_endpoint_side.
  assert (Hparse : is_Some (parse_ip_addr (match side with SideLeft => left p | SideRight => right p end))).
  { apply in_app_iff in Hp as [Hp|Hp]; cbn [plan_ipv4_tunnel plan_ipv6_tunnel assemble_plan] in Hp.
    - unfold resolve_ipv4_tunnel in H4. destruct (in_ipv4_tunnel input) as [q|]; inv_checks; injection H4 as Eq; rewrite <- Eq in Hp; [|done].
      destruct Hp as [<-|[]].
      eapply pair_parses; [exact E|]. intros s v ->%parse_ipv4_is_ip. done.
    - unfold resolve_ipv6_tunnel in H6. destruct (in_ipv6_tunnel input) as [q|]; inv_checks; injection H6 as Eq; rewrite <- Eq in Hp; [|done].
      destruct Hp as [<-|[]].
      eapply pair_parses; [exact E|]. intros s v ->%parse_ipv6_is_ip. done. }
  destruct side; destruct Hparse as [a Ha]; unfold openvpn_address_line; by rewrite Ha.
Qed.

(** Accepted overrides merge. *)
Lemma override_merges generated text : validate_openvpn_config_override text = Ok tt ->
  is_ok (merge_openvpn_config_override generated (Some text)) = true.
Proof. intros H. cbn [merge_openvpn_config_override]. case_match; [done|]. by rewrite H. Qed.

Lemma side_override_merges input side generated :
  validate_runtime_tunnel_driver_options (in_kind input) (in_runtime_control input) = Ok tt ->
  is_ok (merge_openvpn_config_override generated
           (config_override (rc_openvpn (in_runtime_control input)) side)) = true.
Proof.
  unfold validate_runtime_tunnel_driver_options, validate_runtime_openvpn_options. intros H. inv_checks.
  destruct (config_override _ side) as [text|] eqn:Eo; [|done].
  apply override_merges, (try_each_ok _ _ _ E1). apply in_app_iff.
  destruct side; cbn [config_override] in Eo; rewrite Eo; cbn; tauto.
Qed.

Lemma preview_paths_ok side :
  is_ok (openvpn_config_path_value (path_certificate (preview_paths side))) = true /\
  is_ok (openvpn_config_path_value (path_key (preview_paths side))) = true /\
  is_ok (openvpn_config_path_value (path_peer_ca (preview_paths side))) = true /\
  is_ok (openvpn_config_path_value (path_pid (preview_paths side))) = true /\
  is_ok (openvpn_config_path_value (path_status (preview_paths side))) = true.
Proof. destruct side; vm_compute; done. Qed.

Lemma openvpn_family_parses input parts lc rc side listener : plan_ok input parts ->
  bare_local (e_local_underlay (plan_endpoint (assemble_plan input parts lc rc) side)) ->
  is_Some (parse_ip_addr (openvpn_family_address (assemble_plan input parts lc rc)
             (plan_endpoint (assemble_plan input parts lc rc) side) listener)).
Proof.
  intros Hok Hb. unfold openvpn_family_address. rewrite plan_endpoint_side.
  destruct (endpoint_underlays _ _ lc rc side Hok) as [Hr Hl]. specialize (Hl Hb).
  destruct listener; [|done].
  destruct (e_local_underlay _); [done|]. cbn [default].
  destruct (endpoint_underlays _ _ lc rc (other_side side) Hok) as [Ho _]. by destruct side.
Qed.

Lemma openvpn_renders input parts lc rc side ciphers : plan_ok input parts ->
  rc_manager (in_runtime_control input) = AgentBuiltin ->
  bare_local (e_local_underlay (plan_endpoint (assemble_plan input parts lc rc) side)) ->
  is_ok (render_openvpn_config (assemble_plan input parts lc rc)
           (plan_endpoint (assemble_plan input parts lc rc) side) (preview_paths side) ciphers) = true.
Proof.
  intros Hok Hm Hb. unfold render_openvpn_config. cbv zeta. rewrite plan_endpoint_side.
  destruct (openvpn_family_parses _ _ lc rc side
              (bool_decide (side = listener_side (rc_openvpn (plan_runtime_control (assemble_plan input parts lc rc)))))
              Hok Hb) as [family ->].
  destruct (endpoint_mtu _ _ lc rc side Hok Hm) as [mtu ->].
  destruct (preview_paths_ok side) as (Hc & Hk & Ha & Hp & Hs).
  apply is_ok_exists in Hc as [? ->], Hk as [? ->], Ha as [? ->], Hp as [? ->], Hs as [? ->].
  pose proof (address_lines_ok _ _ lc rc side Hok) as Hl. apply is_ok_exists in Hl as [? ->].
  cbn [ok_or mbind result_bind]. apply (side_override_merges input). by apply (ok_driver _ _ Hok).
Qed.

Lemma wireguard_configures (sha256 : list Z -> list Z) input parts lc rc side base path key plan_id :
  plan_ok input parts ->
  is_ok (build_wireguard_configure_argv sha256 base (assemble_plan input parts lc rc)
           (plan_endpoint (assemble_plan input parts lc rc) side) path key plan_id) = true.
Proof.
  intros Hok. unfold build_wireguard_configure_argv. cbv zeta. set (plan := assemble_plan input parts lc rc).
  destruct (endpoint_extras_slash _ _ lc rc side Hok) as [H4 H6]. fold plan in H4, H6.
  assert (Ha : exists a, wireguard_allowed_ips sha256 plan (plan_endpoint plan side) plan_id = Ok a /\ a <> []).
  { unfold wireguard_allowed_ips. destruct (plan_ipv4_tunnel plan) as [p4|] eqn:E4; cbn [mbind result_bind].
    - destruct (plan_ipv6_tunnel plan) as [p6|] eqn:E6; [by eexists|].
      pose proof (host_allowances_ok "/128" _ H6) as Hh. apply is_ok_exists in Hh as [v6 ->].
      cbn [mbind result_bind]. case_match; [|by eexists]. eexists. split; [done|]. by case_match.
    - pose proof (host_allowances_ok "/32" _ H4) as Hh. apply is_ok_exists in Hh as [v4 ->]. cbn [mbind result_bind].
      destruct (plan_ipv6_tunnel plan) as [p6|] eqn:E6.
      + eexists. split; [done|]. by destruct v4.
      + exfalso. destruct (ok_primary _ _ Hok) as [[? H]|[? H]]; cbn in E4, E6; congruence. }
  destruct Ha as (a & -> & Hne). cbn [mbind result_bind].
  assert (is_empty a = false) as -> by (by destruct a). cbn [reject_if mbind result_bind].
  destruct (endpoint_underlays _ _ lc rc side Hok) as [[r Hr] _]. fold plan in Hr. rewrite Hr.
  by case_match.
Qed.

Lemma starts_ok (sha256 : list Z -> list Z) input parts lc rc side plan_id : plan_ok input parts ->
  rc_manager (in_runtime_control input) = AgentBuiltin ->
  (in_kind input = Openvpn -> bare_local (e_local_underlay (plan_endpoint (assemble_plan input parts lc rc) side))) ->
  is_ok (preview_start sha256 (assemble_plan input parts lc rc)
           (plan_endpoint (assemble_plan input parts lc rc) side) plan_id) = true.
Proof.
  intros Hok Hm Hb. pose proof (ok_driver _ _ Hok) as Hd. unfold validate_runtime_tunnel_driver_options in Hd.
  inv_checks. rewrite Hm in Hd. cbn [builtin bool_decide decide] in Hd. bools.
  unfold preview_start. cbv zeta. rewrite plan_endpoint_side.
  cbn [plan_kind assemble_plan] in *. destruct (in_kind input) eqn:Ek; try done.
  all: try (unfold build_ip_tunnel_argv, tunnel_iproute2_mode; cbn [plan_kind assemble_plan]; rewrite Ek; done).
  - specialize (Hb eq_refl).
    pose proof (openvpn_renders _ _ lc rc side false Hok Hm Hb) as H1. apply is_ok_exists in H1 as [? ->].
    pose proof (openvpn_renders _ _ lc rc side true Hok Hm Hb) as H2. by apply is_ok_exists in H2 as [? ->].
  - pose proof (wireguard_configures sha256 _ _ lc rc side [lit "{runtime_wg_argv}"]
      (path_join (endpoint_state_dir side) "wireguard.key") (lit "{peer_public_key}") plan_id Hok) as H1.
    by apply is_ok_exists in H1 as [? ->].
Qed.

Lemma endpoint_previews (sha256 : list Z -> list Z) input parts lc rc side plan_id : plan_ok input parts ->
  rc_manager (in_runtime_control input) = AgentBuiltin ->
  (in_kind input = Openvpn -> bare_local (in_left_local_underlay input) /\ bare_local (in_right_local_underlay input)) ->
  is_ok (preview_endpoint sha256 (assemble_plan input parts lc rc) plan_id side) = true.
Proof.
  intros Hok Hm Hb. unfold preview_endpoint. rewrite (endpoint_renders _ _ lc rc side Hok). cbn [mbind result_bind].
  cbv zeta. change (plan_runtime_control (assemble_plan input parts lc rc)) with (in_runtime_control input).
  set (plan := assemble_plan input parts lc rc).
  assert (Hh : forall hook phase label, In hook [pre_start; post_start; pre_shutdown; post_shutdown] ->
    exists c, push_hook phase label (hook (hooks_for_side (rc_hooks (in_runtime_control input)) side)) plan
                (plan_endpoint plan side) = Ok c).
  { intros hook phase label Hin. apply is_ok_exists.
    apply hook_option_renders; [by apply (ok_control _ _ Hok)|done]. }
  destruct (Hh pre_start "pre_start" "Pre-start hook") as [? ->]; [by left|]. cbn [mbind result_bind].
  pose proof (starts_ok sha256 _ _ lc rc side plan_id Hok Hm) as Hs. fold plan in Hs.
  assert (is_ok (preview_start sha256 plan (plan_endpoint plan side) plan_id) = true) as Hs'.
  { apply Hs. intros Ek. destruct (Hb Ek). by destruct side. }
  apply is_ok_exists in Hs' as [[artifacts starting] ->]. cbn [mbind result_bind].
  destruct (endpoint_mtu _ _ lc rc side Hok Hm) as [mtu Hmtu]. fold plan in Hmtu. rewrite Hmtu.
  cbn [ok_or mbind result_bind].
  destruct (Hh post_start "post_start" "Post-start hook") as [? ->]; [by right; left|].
  destruct (Hh pre_shutdown "pre_shutdown" "Pre-shutdown hook") as [? ->]; [by do 2 right; left|].
  by destruct (Hh post_shutdown "post_shutdown" "Post-shutdown hook") as [? ->]; [by do 3 right; left|].
Qed.

(** Every agent-managed plan the planner accepts can be rendered: both
    endpoint previews succeed, for a draft and for a saved plan whose generated
    link-local addresses do not collide.  For OpenVPN the local underlays must be
    written as bare addresses, which the planner does not require. *)
Theorem accepted_plan_previews (sha256 : list Z -> list Z) input plan plan_id :
  plan_tunnel uuid_parses json_f64 input = Some (Ok plan) ->
  rc_manager (in_runtime_control input) = AgentBuiltin ->
  (in_kind input = Openvpn -> bare_local (in_left_local_underlay input) /\ bare_local (in_right_local_underlay input)) ->
  match plan_id with Some id => validate_tunnel_link_local_addresses sha256 id plan = Ok tt | None => True end ->
  exists l r, render_tunnel_runtime_preview sha256 plan plan_id = Ok [l; r] /\
    ep_side l = SideLeft /\ ep_side r = SideRight /\
    ep_client_id l = in_left_client_id input /\ ep_client_id r = in_right_client_id input.
Proof.
  intros (parts & lc & rc & Hp & ->)%plan_tunnel_inv Hm Hb Hid. apply plan_parts_ok in Hp.
  unfold render_tunnel_runtime_preview.
  change (plan_runtime_control (assemble_plan input parts lc rc)) with (in_runtime_control input). rewrite Hm.
  cbn [builtin negb reject_if mbind result_bind bool_decide decide].
  assert ((match plan_id with
           | Some id => validate_tunnel_link_local_addresses sha256 id (assemble_plan input parts lc rc)
           | None => Ok tt end) = Ok tt) as -> by (by destruct plan_id). cbn [mbind result_bind try_map].
  assert (Hs : forall side, exists p, preview_endpoint sha256 (assemble_plan input parts lc rc) plan_id side = Ok p /\
            ep_side p = side /\ ep_client_id p = e_local_client_id (plan_endpoint (assemble_plan input parts lc rc) side)).
  { intros side. pose proof (endpoint_previews sha256 _ _ lc rc side plan_id Hp Hm Hb) as H.
    apply is_ok_exists in H as [p E]. exists p. split; [done|]. revert E. unfold preview_endpoint.
    rewrite (endpoint_renders _ _ lc rc side Hp). cbn [mbind result_bind]. cbv zeta. intros E. inv_checks.
    destruct a0 as [artifacts starting]. inv_checks. by injection E as <-. }
  destruct (Hs SideLeft) as (l & -> & ? & ?), (Hs SideRight) as (r & -> & ? & ?). exists l, r. done.
Qed.

End Accepted.

(** * The addresses of a plan *)

(** The address an additional line configures. *)
Definition line_address (line : str) : option IpAddr :=
  parts ← split_once 47 line; parse_ip_addr (fst parts).

Definition endpoint_lines (e : TunnelEndpointAdditionalAddresses) : list str := extra_ipv4 e ++ extra_ipv6 e.

(** Every address a plan puts on the two ends of the link. *)
Definition plan_addresses (plan : TunnelPlan) : list IpAddr :=
  omap line_address
    (rev (endpoint_lines (extras_left (plan_additional_addresses plan))
          ++ endpoint_lines (extras_right (plan_additional_addresses plan))))
  ++ omap parse_ip_addr (pair_texts (plan_ipv4_tunnel plan) ++ pair_texts (plan_ipv6_tunnel plan)).

Lemma slash_not_in_address a : ip_wf a -> 47 ∉ format_ip_addr a.
Proof.
  intros H Hin. pose proof (format_ip_chars a H) as Hc. rewrite Forall_forall in Hc.
  specialize (Hc 47 Hin). unfold ip_char in Hc. lia.
Qed.

Lemma line_text_trim a p : ip_wf a -> 0 <= p ->
  trim (format_ip_addr a ++ lit "/" ++ to_string p) = format_ip_addr a ++ lit "/" ++ to_string p.
Proof.
  intros Ha Hp. apply trim_no_ws. assert (Hw : forall c, ip_char c -> is_whitespace c = false).
  { unfold ip_char, is_whitespace, in_range. intros c Hc. lia. }
  rewrite !Forall_app. repeat split.
  - eapply Forall_impl; [by apply format_ip_chars|done].
  - by apply Forall_singleton.
  - eapply Forall_impl; [by apply to_string_ip_chars|done].
Qed.

Lemma line_text_split a p : ip_wf a ->
  split_once 47 (format_ip_addr a ++ lit "/" ++ to_string p) = Some (format_ip_addr a, to_string p).
Proof. intros Ha. apply split_once_spec. split; [done|by apply slash_not_in_address]. Qed.

(** What a canonical line is, and that it is its own canonical form. *)
Lemma canonical_entry_spec side ipv4 seen index entry text a :
  canonical_additional_entry side ipv4 seen index entry = Ok (text, a) ->
  a ∉ seen /\ line_address text = Some a /\
  forall side' seen' index', a ∉ seen' -> canonical_additional_entry side' ipv4 seen' index' text = Ok (text, a).
Proof.
  unfold canonical_additional_entry. intros H.
  destruct (split_once 47 (trim entry)) as [[address prefix]|]; [|done]. cbn [ok_or mbind result_bind] in H.
  destruct (parse_ip_addr address) as [a1|] eqn:Hp; [|done]. cbn [ok_or mbind result_bind] in H.
  destruct (parse_unsigned u8_max prefix) as [q|] eqn:Hq; [|done]. cbn [ok_or mbind result_bind] in H.
  destruct (negb (Bool.eqb (is_ipv4 a1) ipv4) || ((if ipv4 then 32 else 128) <? q)) eqn:Hf; [done|].
  cbn [reject_if mbind result_bind] in H. inv_checks. rename E into Hs.
  assert (a = a1) as -> by congruence.
  assert (text = format_ip_addr a1 ++ lit "/" ++ to_string q) as -> by congruence. clear H.
  pose proof (parse_ip_wf _ _ Hp) as Hwf. pose proof (parse_unsigned_bounds _ _ _ Hq) as Hb.
  assert (Hns : forall l : list IpAddr, existsb (fun x => bool_decide (x = a1)) l = false <-> a1 ∉ l).
  { intros l. rewrite <- not_true_iff_false, existsb_exists. split; intros Hn Hin; apply Hn.
    - exists a1. rewrite bool_decide_eq_true. by rewrite <- list_elem_of_In.
    - destruct Hin as (x & ? & ->%bool_decide_eq_true). by apply list_elem_of_In. }
  split; [by apply Hns|]. split.
  { unfold line_address. rewrite line_text_split by done. by apply parse_format_ip. }
  intros side' seen' index' Hn. rewrite line_text_trim, line_text_split by (done || lia). cbn [ok_or mbind result_bind].
  rewrite parse_format_ip by done. cbn [ok_or mbind result_bind].
  rewrite parse_unsigned_to_string by lia. cbn [ok_or mbind result_bind]. rewrite Hf.
  apply Hns in Hn. by rewrite Hn.
Qed.

(** The lines of one family: the addresses seen grow by exactly those of the
    lines, which are new, and the result canonicalises to itself. *)
Lemma canonical_family_spec side ipv4 index seen entries texts seen' :
  canonical_additional_family side ipv4 index seen entries = Ok (texts, seen') ->
  seen' = omap line_address (rev texts) ++ seen /\ (NoDup seen -> NoDup seen') /\
  forall side' index', canonical_additional_family side' ipv4 index' seen texts = Ok (texts, seen').
Proof.
  revert index seen texts seen'. induction entries as [|entry entries IH]; intros index seen texts seen' H;
    cbn [canonical_additional_family] in H.
  { by injection H as <- <-. }
  destruct (canonical_additional_entry side ipv4 seen index entry) as [[text a]|] eqn:E; [|done].
  cbn [mbind result_bind] in H.
  destruct (canonical_additional_family side ipv4 (S index) (a :: seen) entries) as [[texts' seen'']|] eqn:Er; [|done].
  injection H as <- <-. apply canonical_entry_spec in E as (Hn & Hl & Hi). apply IH in Er as (-> & Hd & Hr).
  split; [|split].
  - cbn [rev]. rewrite omap_app, <- app_assoc. f_equal. cbn [omap list_omap]. by rewrite Hl.
  - intros Hnd. apply Hd. by constructor.
  - intros side' index'. cbn [canonical_additional_family]. rewrite Hi by done. cbn [mbind result_bind].
    by rewrite Hr.
Qed.

Lemma canonical_endpoint_spec side seen source extra seen' :
  canonical_endpoint side seen source = Ok (extra, seen') ->
  seen' = omap line_address (rev (endpoint_lines extra)) ++ seen /\ (NoDup seen -> NoDup seen') /\
  forall side', canonical_endpoint side' seen extra = Ok (extra, seen').
Proof.
  unfold canonical_endpoint. intros H. inv_checks. destruct a as [v4 s4]. inv_checks. destruct a as [v6 s6].
  injection H as <- <-. rename E into E4, E0 into E6.
  apply canonical_family_spec in E4 as (-> & Hd4 & Hi4), E6 as (-> & Hd6 & Hi6). split; [|split].
  - unfold endpoint_lines. cbn [extra_ipv4 extra_ipv6]. by rewrite rev_app_distr, omap_app, app_assoc.
  - auto.
  - intros side'. cbn [extra_ipv4 extra_ipv6]. rewrite Hi4. cbn [mbind result_bind]. by rewrite Hi6.
Qed.

Lemma canonical_additional_spec input ipv4 ipv6 extras :
  canonical_additional_addresses input ipv4 ipv6 = Ok extras ->
  let seen := omap parse_ip_addr (pair_texts ipv4 ++ pair_texts ipv6) in
  (NoDup seen ->
   NoDup (omap line_address (rev (endpoint_lines (extras_left extras) ++ endpoint_lines (extras_right extras))) ++ seen)) /\
  canonical_additional_addresses extras ipv4 ipv6 = Ok extras.
Proof.
  unfold canonical_additional_addresses. cbv zeta. intros H. inv_checks. destruct a as [l sl]. inv_checks.
  destruct a as [r sr]. injection H as <-.
  apply canonical_endpoint_spec in E as (-> & Hdl & Hil), E0 as (-> & Hdr & Hir). cbn [extras_left extras_right].
  split.
  - intros Hn. rewrite rev_app_distr, omap_app, <- app_assoc. auto.
  - rewrite Hil. cbn [mbind result_bind]. by rewrite Hir.
Qed.

(** The two ends of an accepted pair are distinct addresses of its family. *)
Lemma validate_ipv4_pair_addresses p : validate_ipv4_pair p = Ok tt ->
  exists l r, omap parse_ip_addr [left p; right p] = [IpV4 l; IpV4 r] /\ l <> r.
Proof.
  unfold validate_ipv4_pair, validate_pair. intros H. inv_checks. bools. subst.
  match goal with
  | Hl : parse_ipv4_addr (left p) = Some ?l, Hr : parse_ipv4_addr (right p) = Some ?r |- _ =>
      exists l, r; cbn [omap list_omap]; by rewrite (parse_ipv4_is_ip _ _ Hl), (parse_ipv4_is_ip _ _ Hr)
  end.
Qed.

Lemma validate_ipv6_pair_addresses p : validate_ipv6_pair p = Ok tt ->
  exists l r, omap parse_ip_addr [left p; right p] = [IpV6 l; IpV6 r] /\ l <> r.
Proof.
  unfold validate_ipv6_pair, validate_pair. intros H. inv_checks. bools. subst.
  match goal with
  | Hl : parse_ipv6_addr (left p) = Some ?l, Hr : parse_ipv6_addr (right p) = Some ?r |- _ =>
      exists l, r; cbn [omap list_omap]; by rewrite (parse_ipv6_is_ip _ _ Hl), (parse_ipv6_is_ip _ _ Hr)
  end.
Qed.

Lemma pair_texts_distinct input ipv4 ipv6 :
  resolve_ipv4_tunnel input = Ok ipv4 -> resolve_ipv6_tunnel input = Ok ipv6 ->
  NoDup (omap parse_ip_addr (pair_texts ipv4 ++ pair_texts ipv6)).
Proof.
  unfold resolve_ipv4_tunnel, resolve_ipv6_tunnel. intros H4 H6. rewrite omap_app.
  assert (exists vs, omap parse_ip_addr (pair_texts ipv4) = map IpV4 vs /\ NoDup vs) as (vs & -> & Hvs).
  { destruct (in_ipv4_tunnel input) as [p|]; inv_checks; injection H4 as <-; [|exists []; split; [done|constructor]].
    apply validate_ipv4_pair_addresses in E as (l & r & El & Hne). exists [l; r]. split; [exact El|].
    apply NoDup_cons. split; [by intros ->%list_elem_of_singleton|apply NoDup_singleton]. }
  assert (exists ws, omap parse_ip_addr (pair_texts ipv6) = map IpV6 ws /\ NoDup ws) as (ws & -> & Hws).
  { destruct (in_ipv6_tunnel input) as [p|]; inv_checks; injection H6 as <-; [|exists []; split; [done|constructor]].
    apply validate_ipv6_pair_addresses in E as (l & r & El & Hne). exists [l; r]. split; [exact El|].
    apply NoDup_cons. split; [by intros ->%list_elem_of_singleton|apply NoDup_singleton]. }
  apply NoDup_app. split; [by apply NoDup_fmap_2; [intros ? ? [=]|]|]. split; [|by apply NoDup_fmap_2; [intros ? ? [=]|]].
  intros a (v & -> & _)%list_elem_of_fmap (w & [=] & _)%list_elem_of_fmap.
Qed.

(** The addresses an accepted plan puts on the two ends of a link, the
    primary pairs and every additional line, are pairwise distinct, and the
    additional lines are canonical: planning them again returns them unchanged. *)
Theorem plan_addresses_distinct uuid_parses json_f64 input plan :
  plan_tunnel uuid_parses json_f64 input = Some (Ok plan) ->
  NoDup (plan_addresses plan) /\
  canonical_additional_addresses (plan_additional_addresses plan) (plan_ipv4_tunnel plan) (plan_ipv6_tunnel plan)
  = Ok (plan_additional_addresses plan).
Proof.
  intros (parts & lc & rc & Hp & ->)%plan_tunnel_inv. apply plan_parts_ok in Hp.
  pose proof (pair_texts_distinct _ _ _ (ok_ipv4 _ _ _ Hp) (ok_ipv6 _ _ _ Hp)) as Hn.
  destruct (canonical_additional_spec _ _ _ _ (ok_additional _ _ _ Hp)) as [Hd Hi].
  split; [by apply Hd|exact Hi].
Qed.

(** * Concrete plans *)

(** A WireGuard link with an IPv4 pair and one more address per end. *)
Definition sample_input (kind : TunnelKind) (local : option str) : TunnelPlanInput :=
  mkPlanInput (lit "edge to core") (lit "wg0") kind control_default topology_default (lit "edge") (lit "core")
    (lit "203.0.113.9") local (lit "198.51.100.7") None [] [] (Some (mkPair (lit "10.0.0.1") (lit "10.0.0.2") 30)) None None
    (mkExtras (mkExtra [lit " 10.1.0.1/24"] [lit "FD00::1/64"]) (mkExtra [] [lit "fd00:0::2/64"])) false Ipv4 100 false
    (Some 1420) (Some 1420) None.

Definition sample_plan (kind : TunnelKind) (local : option str) : TunnelPlan :=
  match plan_parts (fun _ => false) (sample_input kind local) with
  | Ok parts => assemble_plan (sample_input kind local) parts None None
  | Err _ => assemble_plan (sample_input kind local)
               (mkParts None None (mkExtras (mkExtra [] []) (mkExtra [] [])) Ipv4 (mkPair [] [] 0) None []) None None
  end.

Lemma accepted_plan_previews_witness :
  exists l r, render_tunnel_runtime_preview (fun _ => []) (sample_plan Wireguard None) None = Ok [l; r] /\
    ep_side l = SideLeft /\ ep_side r = SideRight /\
    ep_client_id l = lit "edge" /\ ep_client_id r = lit "core".
Proof.
  apply (accepted_plan_previews (fun _ => false) (fun _ => []) (fun _ => []) (sample_input Wireguard None)
           (sample_plan Wireguard None) None).
  - vm_compute. reflexivity.
  - reflexivity.
  - intros H. discriminate H.
  - exact I.
Defined.

Lemma plan_addresses_distinct_witness :
  NoDup (plan_addresses (sample_plan Wireguard None)) /\
  canonical_additional_addresses (plan_additional_addresses (sample_plan Wireguard None))
    (Some (mkPair (lit "10.0.0.1") (lit "10.0.0.2") 30)) None
  = Ok (mkExtras (mkExtra [lit "10.1.0.1/24"] [lit "fd00::1/64"]) (mkExtra [] [lit "fd00::2/64"])).
Proof.
  assert (H : plan_tunnel (fun _ => false) (fun _ => []) (sample_input Wireguard None)
              = Some (Ok (sample_plan Wireguard None))) by (vm_compute; reflexivity).
  destruct (plan_addresses_distinct (fun _ => false) (fun _ => []) _ _ H) as [Hd Hc]. split; [exact Hd|].
  refine (eq_trans Hc _). vm_compute. reflexivity.
Defined.

(** An OpenVPN plan whose left local underlay is blank is accepted, as if it had
    none, and its preview is refused as having an invalid underlay address. *)
Theorem blank_underlay_accepted_not_rendered sha256 :
  plan_tunnel (fun _ => false) (fun _ => []) (sample_input Openvpn (Some (lit " ")))
  = Some (Ok (sample_plan Openvpn (Some (lit " ")))) /\
  render_tunnel_runtime_preview sha256 (sample_plan Openvpn (Some (lit " "))) None = Err InvalidUnderlayAddress.
Proof. split; vm_compute; reflexivity. Qed.
