(* ===== verification/ClientIp.v ===== *)
(** The client address behind trusted proxies: crates/api/src/auth/client_ip.rs.

    Networks are those of the [ipnet] crate, through the interface of
    [NetworkAllocator]; [cidr_error] is the text of its parse error.  The header
    is the value of [x-forwarded-for], absent or not visible ASCII as [None]. *)

From S2P Require Import Prelude RustStd Net NetworkAllocator.

Open Scope Z_scope.

Abbreviation outcome := (result str) (only parsing).

Definition DEFAULT_TRUSTED_PROXY_CIDRS : list str := [lit "127.0.0.0/8"; lit "::1/128"].

Section ClientIp.
Context {IpNet : Type} `{IpNetOps IpNet} `{EqDecision IpNet} (cidr_error : str -> str).

(** [TrustedProxyConfig] is its list of networks. *)
Definition trust_none : list IpNet := [].

Definition add_entry (cidrs : list IpNet) (entry : str) : outcome (list IpNet) :=
  let entry := trim entry in
  if is_empty entry then Ok cidrs
  else
    cidr ← ok_or (net_parse entry) (lit "trusted_proxy_cidr_invalid:" ++ entry ++ lit ":" ++ cidr_error entry);
    if bool_decide (cidr ∈ cidrs) then Ok cidrs else Ok (cidrs ++ [cidr]).

Definition from_entries (entries : list str) : outcome (list IpNet) := try_fold add_entry [] entries.

Definition from_env_csv (value : str) : outcome (list IpNet) :=
  from_entries (List.filter (fun entry => negb (is_empty entry)) (map trim (split 44 value))).

(** [Default]: the code expects the default entries to parse. *)
Definition trusted_default : outcome (list IpNet) := from_entries DEFAULT_TRUSTED_PROXY_CIDRS.

Definition from_optional_entries (entries : option (list str)) : outcome (list IpNet) :=
  match entries with
  | Some entries => from_entries entries
  | None => trusted_default
  end.

Definition is_trusted (cidrs : list IpNet) (ip : IpAddr) : bool :=
  existsb (fun cidr => net_contains cidr ip) cidrs.

(** The loop over the parts: nothing when one is empty or not an address. *)
Fixpoint parse_chain (parts : list str) : option (list IpAddr) :=
  match parts with
  | [] => Some []
  | part :: parts' =>
      let part := trim part in
      if is_empty part then None
      else
        match parse_ip_addr part with
        | Some ip =>
            match parse_chain parts' with Some chain => Some (ip :: chain) | None => None end
        | None => None
        end
  end.

Definition forwarded_for_chain (header : option str) : option (list IpAddr) :=
  match header with
  | None => None
  | Some value =>
      match parse_chain (split 44 value) with
      | Some (ip :: chain) => Some (ip :: chain)
      | _ => None
      end
  end.

Definition resolve_client_ip (cidrs : list IpNet) (peer_ip : IpAddr) (header : option str) : IpAddr :=
  if negb (is_trusted cidrs peer_ip) then peer_ip
  else
    match forwarded_for_chain header with
    | None => peer_ip
    | Some chain =>
        match List.find (fun ip => negb (is_trusted cidrs ip)) (rev chain) with
        | Some ip => ip
        | None => default peer_ip (head chain)
        end
    end.

(** * Lemmas *)

Lemma parse_chain_app l r :
  parse_chain (l ++ r) =
  match parse_chain l, parse_chain r with Some a, Some b => Some (a ++ b) | _, _ => None end.
Proof.
  induction l as [|part l IH]; cbn [parse_chain app]; [by destruct (parse_chain r)|].
  destruct (is_empty (trim part)); [done|]. destruct (parse_ip_addr (trim part)); [|done].
  rewrite IH. by destruct (parse_chain l), (parse_chain r).
Qed.

Lemma parse_chain_nonempty value : parse_chain (split 44 value) <> Some [].
Proof.
  destruct (split 44 value) as [|p l] eqn:E; [by apply split_nonempty in E|]. cbn.
  by repeat case_match; simplify_eq.
Qed.

Lemma forwarded_for_chain_eq value : forwarded_for_chain (Some value) = parse_chain (split 44 value).
Proof.
  unfold forwarded_for_chain. pose proof (parse_chain_nonempty value).
  by destruct (parse_chain (split 44 value)) as [[|]|].
Qed.

Lemma find_app {A} (f : A -> bool) l r x : List.find f l = Some x -> List.find f (l ++ r) = Some x.
Proof. induction l as [|a l IH]; cbn; [done|]. destruct (f a); auto. Qed.

End ClientIp.

(** C39: nobody outside the trusted proxies chooses the address they are seen
    with.  A peer that is not trusted is seen as itself, whatever header it
    sends.  Behind a trusted peer, what comes before the part the proxies wrote
    has no say: when that part names an untrusted address, the rightmost one is
    the answer whatever is put in front of it, unless what is put in front is
    not a list of addresses, in which case the answer is the peer. *)
Theorem client_ip_not_spoofable {IpNet} `{IpNetOps IpNet} (cidrs : list IpNet) peer_ip :
  (is_trusted cidrs peer_ip = false -> forall header, resolve_client_ip cidrs peer_ip header = peer_ip) /\
  (is_trusted cidrs peer_ip = true -> forall forged genuine chain ip,
     forwarded_for_chain (Some genuine) = Some chain ->
     List.find (fun ip => negb (is_trusted cidrs ip)) (rev chain) = Some ip ->
     resolve_client_ip cidrs peer_ip (Some (forged ++ [44] ++ genuine)) =
     match forwarded_for_chain (Some forged) with Some _ => ip | None => peer_ip end).
Proof.
  unfold resolve_client_ip. split; intros Ht; rewrite Ht; cbn [negb]; [done|].
  intros forged genuine chain ip. rewrite !forwarded_for_chain_eq. intros Hc Hf.
  cbn [app]. rewrite split_concat, parse_chain_app, Hc.
  destruct (parse_chain (split 44 forged)) as [front|]; [|done].
  rewrite rev_app_distr. by rewrite (find_app _ _ _ _ Hf).
Qed.

(** The network 10.0.0.0/8 as the only one. *)
#[local] Instance private_net : IpNetOps unit := {|
  net_new _ _ := None; net_from _ := tt; net_parse _ := Some tt; net_trunc n := n; net_is_v4 _ := true;
  net_prefix_len _ := 8; net_network _ := 167772160; net_broadcast _ := 184549375;
  net_contains _ ip := match ip with IpV4 v => in_range 167772160 184549375 v | IpV6 _ => false end |}.

(** Behind the proxy 10.0.0.1 the forged 198.51.100.7 has no say. *)
Lemma client_ip_not_spoofable_witness :
  is_trusted [tt] (IpV4 167772161) = true /\
  resolve_client_ip [tt] (IpV4 167772161) (Some (lit "198.51.100.7" ++ [44] ++ lit "203.0.113.9"))
  = IpV4 3405803785.
Proof.
  split; [reflexivity|].
  refine (eq_trans (proj2 (client_ip_not_spoofable [tt] (IpV4 167772161)) _ (lit "198.51.100.7") (lit "203.0.113.9")
    [IpV4 3405803785] (IpV4 3405803785) _ _) _); vm_compute; reflexivity.
Defined.
