(* ===== verification/WebhookTarget.v ===== *)
(** Webhook targets: crates/server-core/src/runtime/webhook_target.rs.

    The code decides which URL a webhook may be delivered to and to which
    addresses the connection is pinned.  Parameters: the URL parser of the [url]
    crate (the class [UrlOps]), the DNS lookup and the constructor of the HTTP
    client.  Addresses are those of [Net]. *)

From S2P Require Import Prelude RustStd Net.

Open Scope Z_scope.

Abbreviation outcome := (result str) (only parsing).

(** * The interface of the [url] crate *)

Inductive Host :=
| HostDomain (domain : str)
| HostIpv4 (address : Z)
| HostIpv6 (address : Z).

Class UrlOps (Url : Type) := {
  url_parse : str -> option Url;
  url_scheme : Url -> str;
  url_username : Url -> str;
  url_password : Url -> option str;
  url_fragment : Url -> option str;
  url_port_or_known_default : Url -> option Z;
  url_host : Url -> option Host;
}.

(** * Data *)

Inductive WebhookTargetPolicy := PublicHttps | PublicHttpsWithDevelopmentLoopbackHttp.

#[export] Instance webhook_target_policy_eq_dec : EqDecision WebhookTargetPolicy.
Proof. solve_decision. Defined.

Inductive AddressRequirement := Public | Loopback.

(** [SocketAddr], without the flow and scope of IPv6, which the code drops. *)
Record SocketAddr := mkSocket { socket_ip : IpAddr; socket_port : Z }.

#[export] Instance socket_addr_eq_dec : EqDecision SocketAddr.
Proof. solve_decision. Defined.

Record ResolvedWebhookTarget (Url : Type) := mkResolved {
  resolved_url : Url;
  resolution_domain : option str;
  resolved_addresses : list SocketAddr;
}.
Arguments mkResolved {Url}.
Arguments resolved_url {Url}.
Arguments resolution_domain {Url}.
Arguments resolved_addresses {Url}.

(** * Addresses *)

(** The [index]-th octet of an IPv4 address. *)
Definition octet (address index : Z) : Z := address / 2 ^ (24 - 8 * index) mod 256.

Definition is_public_ipv4 (address : Z) : bool :=
  let a := octet address 0 in
  let b := octet address 1 in
  let c := octet address 2 in
  negb ((a =? 0)
        || (a =? 10)
        || ((a =? 100) && in_range 64 127 b)
        || (a =? 127)
        || ((a =? 169) && (b =? 254))
        || ((a =? 172) && in_range 16 31 b)
        || ((a =? 192) && (b =? 0) && (c =? 0))
        || ((a =? 192) && (b =? 0) && (c =? 2))
        || ((a =? 192) && (b =? 88) && (c =? 99))
        || ((a =? 192) && (b =? 168))
        || ((a =? 198) && in_range 18 19 b)
        || ((a =? 198) && (b =? 51) && (c =? 100))
        || ((a =? 203) && (b =? 0) && (c =? 113))
        || in_range 224 255 a).

Definition in_ipv6_prefix (address prefix prefix_bits : Z) : bool :=
  let shift := saturating_sub 128 prefix_bits in
  Z.shiftr address shift =? Z.shiftr prefix shift.

(** [Ipv6Addr::new(a, b, c, 0, 0, 0, 0, 0)]. *)
Definition ipv6_new (a b c : Z) : Z := a * 2 ^ 112 + b * 2 ^ 96 + c * 2 ^ 80.

Definition allocated_global_unicast : list (Z * Z) :=
  [(ipv6_new 0x2001 0x0200 0, 23); (ipv6_new 0x2001 0x0400 0, 23); (ipv6_new 0x2001 0x0600 0, 23);
   (ipv6_new 0x2001 0x0800 0, 22); (ipv6_new 0x2001 0x0c00 0, 23); (ipv6_new 0x2001 0x0e00 0, 23);
   (ipv6_new 0x2001 0x1200 0, 23); (ipv6_new 0x2001 0x1400 0, 22); (ipv6_new 0x2001 0x1800 0, 23);
   (ipv6_new 0x2001 0x1a00 0, 23); (ipv6_new 0x2001 0x1c00 0, 22); (ipv6_new 0x2001 0x2000 0, 19);
   (ipv6_new 0x2001 0x4000 0, 23); (ipv6_new 0x2001 0x4200 0, 23); (ipv6_new 0x2001 0x4400 0, 23);
   (ipv6_new 0x2001 0x4600 0, 23); (ipv6_new 0x2001 0x4800 0, 23); (ipv6_new 0x2001 0x4a00 0, 23);
   (ipv6_new 0x2001 0x4c00 0, 23); (ipv6_new 0x2001 0x5000 0, 20); (ipv6_new 0x2001 0x8000 0, 19);
   (ipv6_new 0x2001 0xa000 0, 20); (ipv6_new 0x2001 0xb000 0, 20); (ipv6_new 0x2003 0 0, 18);
   (ipv6_new 0x2400 0 0, 12); (ipv6_new 0x2410 0 0, 12); (ipv6_new 0x2600 0 0, 12);
   (ipv6_new 0x2610 0 0, 23); (ipv6_new 0x2620 0 0, 23); (ipv6_new 0x2630 0 0, 12);
   (ipv6_new 0x2800 0 0, 12); (ipv6_new 0x2a00 0 0, 12); (ipv6_new 0x2a10 0 0, 12);
   (ipv6_new 0x2c00 0 0, 12)].

Definition is_public_ipv6 (address : Z) : bool :=
  existsb (fun '(prefix, bits) => in_ipv6_prefix address prefix bits) allocated_global_unicast
  && negb (in_ipv6_prefix address (ipv6_new 0x2001 0x0db8 0) 32)
  && negb (in_ipv6_prefix address (ipv6_new 0x2620 0x004f 0x8000) 48).

Definition is_public_ip (address : IpAddr) : bool :=
  match address with
  | IpV4 address => is_public_ipv4 address
  | IpV6 address => is_public_ipv6 address
  end.

(** [IpAddr::is_loopback]. *)
Definition is_loopback (address : IpAddr) : bool :=
  match address with
  | IpV4 address => octet address 0 =? 127
  | IpV6 address => address =? 1
  end.

(** * Hosts *)

(** [s.ends_with(p)]. *)
Definition ends_with (s p : str) : bool := starts_with (rev s) (rev p).

Definition RESERVED_SUFFIXES : list string :=
  ["alt"; "arpa"; "example"; "home.arpa"; "internal"; "invalid"; "local"; "localhost"; "onion";
   "test"]%string.

(** [domain == name || domain.ends_with(".name")]. *)
Definition under (domain : str) (name : string) : bool :=
  str_eqb domain (lit name) || ends_with domain (lit "." ++ lit name).

Definition is_reserved_domain (domain : str) : bool :=
  let domain := to_ascii_lowercase (trim_end_matches 46 domain) in
  if is_empty domain || negb (contains_char 46 domain) then true
  else if existsb (under domain) RESERVED_SUFFIXES then true
  else existsb (under domain) ["example.com"; "example.net"; "example.org"]%string.

Definition host_is_loopback (host : Host) : bool :=
  match host with
  | HostIpv4 address => is_loopback (IpV4 address)
  | HostIpv6 address => is_loopback (IpV6 address)
  | HostDomain domain => eq_ignore_ascii_case (trim_end_matches 46 domain) (lit "localhost")
  end.

Definition validate_public_host (host : Host) : outcome unit :=
  match host with
  | HostIpv4 address =>
      guard_err (is_public_ipv4 address) (lit "webhook target address is not public")
  | HostIpv6 address =>
      guard_err (is_public_ipv6 address) (lit "webhook target address is not public")
  | HostDomain domain =>
      guard_err (negb (is_reserved_domain domain))
        (lit "webhook target host is reserved or non-public")
  end.

(** The text after the first [://], if any. *)
Fixpoint after_scheme (target : str) : option str :=
  match strip_prefix (lit "://") target with
  | Some remainder => Some remainder
  | None => match target with [] => None | _ :: target' => after_scheme target' end
  end.

Definition authority_contains_userinfo (target : str) : bool :=
  match after_scheme target with
  | Some remainder =>
      contains_char 64 (fst (span (fun c => negb ((c =? 47) || (c =? 63) || (c =? 35))) remainder))
  | None => false
  end.

(** * The target *)

Definition webhook_target_policy (env_value : option str) : WebhookTargetPolicy :=
  match env_value with
  | Some value =>
      if one_of (to_ascii_lowercase (trim value)) ["1"; "true"]%string
      then PublicHttpsWithDevelopmentLoopbackHttp else PublicHttps
  | None => PublicHttps
  end.

(** What [timeout(lookup_host(..))] answers. *)
Inductive Lookup := TimedOut | Failed | Found (addresses : list SocketAddr).

(** What the HTTP client is built with. *)
Record ClientConfig := mkClientConfig {
  client_timeout : Z;
  client_connect_timeout : Z;
  client_follows_redirects : bool;
  client_uses_proxy : bool;
  client_pinned : option (str * list SocketAddr);
}.

Section Target.
Context {Url : Type} `{UrlOps Url}.

Definition validate_webhook_target_with_policy (target : str) (policy : WebhookTargetPolicy) :
  outcome Url :=
  let target := trim target in
  guard_err (negb (is_empty target)) (lit "webhook target is empty");;
  let contains_userinfo := authority_contains_userinfo target in
  url ← ok_or (url_parse target) (lit "webhook target must be an absolute URL");
  guard_err (is_empty (url_username url) && bool_decide (url_password url = None)
             && negb contains_userinfo)
    (lit "webhook target must not embed credentials");;
  guard_err (bool_decide (url_fragment url = None)) (lit "webhook target must not contain a fragment");;
  guard_err (match url_port_or_known_default url with Some port => negb (port =? 0) | None => false end)
    (lit "webhook target port is invalid");;
  host ← ok_or (url_host url) (lit "webhook target must include a host");
  (if str_eqb (url_scheme url) (lit "https") then validate_public_host host
   else if str_eqb (url_scheme url) (lit "http") then
     if bool_decide (policy = PublicHttpsWithDevelopmentLoopbackHttp) && host_is_loopback host
     then Ok tt
     else Err (lit "webhook target must use https; local http requires explicit development opt-in")
   else Err (lit "webhook target must use https"));;
  Ok url.

Definition validate_webhook_target (env_value : option str) (target : str) : outcome Url :=
  validate_webhook_target_with_policy target (webhook_target_policy env_value).

Definition address_requirement (url : Url) : outcome AddressRequirement :=
  if str_eqb (url_scheme url) (lit "https") then Ok Public
  else if str_eqb (url_scheme url) (lit "http") then Ok Loopback
  else Err (lit "webhook target scheme is invalid").

Definition address_allowed (requirement : AddressRequirement) (address : IpAddr) : bool :=
  match requirement with
  | Public => is_public_ip address
  | Loopback => is_loopback address
  end.

Definition refusal (requirement : AddressRequirement) : str :=
  match requirement with
  | Public => lit "webhook target resolved to a non-public address"
  | Loopback => lit "development webhook target resolved to a non-loopback address"
  end.

(** One turn of the loop; [unique] and [validated] hold the same addresses. *)
Definition validate_address (port : Z) (requirement : AddressRequirement) (validated : list SocketAddr)
    (address : SocketAddr) : outcome (list SocketAddr) :=
  let address := mkSocket (socket_ip address) port in
  if negb (address_allowed requirement (socket_ip address)) then Err (refusal requirement)
  else if bool_decide (address ∈ validated) then Ok validated
  else Ok (validated ++ [address]).

Definition validate_resolved_addresses (url : Url) (addresses : list SocketAddr)
    (requirement : AddressRequirement) : outcome (list SocketAddr) :=
  port ← ok_or (url_port_or_known_default url) (lit "webhook target port is invalid");
  validated ← try_fold (validate_address port requirement) [] addresses;
  guard_err (negb (is_empty validated)) (lit "webhook target DNS resolution returned no addresses");;
  Ok validated.

Context (lookup_host : str -> Z -> Lookup).

Definition resolve_webhook_target (target : str) (policy : WebhookTargetPolicy) (resolve_timeout : Z) :
  outcome (ResolvedWebhookTarget Url) :=
  guard_err (negb (resolve_timeout =? 0)) (lit "webhook target timeout must be greater than zero");;
  url ← validate_webhook_target_with_policy target policy;
  requirement ← address_requirement url;
  port ← ok_or (url_port_or_known_default url) (lit "webhook target port is invalid");
  host ← ok_or (url_host url) (lit "webhook target must include a host");
  match host with
  | HostIpv4 address =>
      addresses ← validate_resolved_addresses url [mkSocket (IpV4 address) port] requirement;
      Ok (mkResolved url None addresses)
  | HostIpv6 address =>
      addresses ← validate_resolved_addresses url [mkSocket (IpV6 address) port] requirement;
      Ok (mkResolved url None addresses)
  | HostDomain domain =>
      lookup ← match lookup_host domain port with
               | TimedOut => Err (lit "webhook target DNS resolution timed out")
               | Failed => Err (lit "failed to resolve webhook target host " ++ domain)
               | Found addresses => Ok addresses
               end;
      addresses ← validate_resolved_addresses url lookup requirement;
      Ok (mkResolved url (Some domain) addresses)
  end.

Context {Client : Type} (client_build : ClientConfig -> option Client).

Definition prepare_resolved_webhook_target (resolved : ResolvedWebhookTarget Url)
    (request_timeout : Z) : outcome (Client * Url) :=
  let config := mkClientConfig request_timeout request_timeout false false
    (option_map (fun domain => (domain, resolved_addresses resolved)) (resolution_domain resolved)) in
  client ← ok_or (client_build config) (lit "failed to build pinned webhook client");
  Ok (client, resolved_url resolved).

Definition prepare_webhook_target (env_value : option str) (target : str) (request_timeout : Z) :
  outcome (Client * Url) :=
  let policy := webhook_target_policy env_value in
  resolved ← resolve_webhook_target target policy request_timeout;
  prepare_resolved_webhook_target resolved request_timeout.

End Target.
