(* ===== verification/WebhookProofs.v ===== *)
(** Theorems on webhook targets ([WebhookTarget]): the address filters against
    the registries of special-purpose blocks, and which addresses a prepared
    client can reach. *)

From S2P Require Import Prelude RustStd Net WebhookTarget.

Open Scope Z_scope.

#[local] Arguments lit : simpl never.

(** * Reference definitions *)

(** The block [base/bits] of a family [width] bits wide. *)
Definition in_block (width address : Z) (block : Z * Z) : bool :=
  let '(base, bits) := block in (base <=? address) && (address <? base + 2 ^ (width - bits)).

Definition ipv4 (a b c d : Z) : Z := ((a * 256 + b) * 256 + c) * 256 + d.

(** The IPv4 blocks that are not public: this network, private use, shared
    address space, loopback, link local, private use, protocol assignments, the
    documentation block TEST-NET-1, 6to4 relays, private use, benchmarking,
    TEST-NET-2 and 3, multicast and reserved. *)
Definition special_ipv4 : list (Z * Z) :=
  [(ipv4 0 0 0 0, 8); (ipv4 10 0 0 0, 8); (ipv4 100 64 0 0, 10); (ipv4 127 0 0 0, 8);
   (ipv4 169 254 0 0, 16); (ipv4 172 16 0 0, 12); (ipv4 192 0 0 0, 24); (ipv4 192 0 2 0, 24);
   (ipv4 192 88 99 0, 24); (ipv4 192 168 0 0, 16); (ipv4 198 18 0 0, 15); (ipv4 198 51 100 0, 24);
   (ipv4 203 0 113 0, 24); (ipv4 224 0 0 0, 3)].

(** The IPv6 blocks that are not public: unspecified, loopback, IPv4-mapped,
    NAT64 and its local-use block, discard-only, protocol assignments (Teredo
    among them), documentation, 6to4, AS112, the second documentation block,
    SRv6 SIDs, unique local, link local, site local and multicast. *)
Definition special_ipv6 : list (Z * Z) :=
  [(0, 128); (1, 128); (0xffff * 2 ^ 32, 96); (ipv6_new 0x64 0xff9b 0, 96); (ipv6_new 0x64 0xff9b 1, 48);
   (ipv6_new 0x100 0 0, 64); (ipv6_new 0x2001 0 0, 23); (ipv6_new 0x2001 0xdb8 0, 32);
   (ipv6_new 0x2002 0 0, 16); (ipv6_new 0x2620 0x4f 0x8000, 48); (ipv6_new 0x3fff 0 0, 20);
   (ipv6_new 0x5f00 0 0, 16); (ipv6_new 0xfc00 0 0, 7); (ipv6_new 0xfe80 0 0, 10);
   (ipv6_new 0xfec0 0 0, 10); (ipv6_new 0xff00 0 0, 8)].

Definition special_purpose (address : IpAddr) : bool :=
  match address with
  | IpV4 v => existsb (in_block 32 v) special_ipv4
  | IpV6 v => existsb (in_block 128 v) special_ipv6
  end.

(** The addresses a client with this configuration may connect to for a URL:
    the pinned ones for a name, the address itself for a literal. *)
Definition reachable_addresses {Url} `{UrlOps Url} (config : ClientConfig) (url : Url) : list SocketAddr :=
  match url_host url, url_port_or_known_default url with
  | Some (HostIpv4 address), Some port => [mkSocket (IpV4 address) port]
  | Some (HostIpv6 address), Some port => [mkSocket (IpV6 address) port]
  | Some (HostDomain domain), _ =>
      match client_pinned config with
      | Some (pinned, addresses) => if str_eqb pinned domain then addresses else []
      | None => []
      end
  | _, _ => []
  end.

(** * The address filters *)

Lemma octets_eq v : 0 <= v < 2 ^ 32 ->
  exists d, v = ipv4 (octet v 0) (octet v 1) (octet v 2) d /\ 0 <= octet v 0 < 256 /\
            0 <= octet v 1 < 256 /\ 0 <= octet v 2 < 256 /\ 0 <= d < 256.
Proof.
  intros H. exists (v mod 256). unfold octet, ipv4. cbn - [Z.div Z.modulo Z.mul Z.add].
  Z.div_mod_to_equations. lia.
Qed.

Lemma eqb_of_iff (a b : bool) : (a = true <-> b = true) -> a = b.
Proof. destruct a, b; naive_solver. Qed.

Lemma public_ipv4_blocks v : 0 <= v < 2 ^ 32 ->
  is_public_ipv4 v = negb (existsb (in_block 32 v) special_ipv4).
Proof.
  intros (d & E & Ha & Hb & Hc & Hd)%octets_eq. unfold is_public_ipv4.
  revert E Ha Hb Hc. generalize (octet v 0) (octet v 1) (octet v 2). intros a b c -> Ha Hb Hc.
  f_equal. unfold special_ipv4. cbn [existsb]. rewrite orb_false_r, !orb_assoc.
  repeat (f_equal; [|apply eqb_of_iff; unfold in_block, in_range, ipv4;
    rewrite ?andb_true_iff, ?Z.eqb_eq, ?Z.leb_le, ?Z.ltb_lt; lia]).
  apply eqb_of_iff; unfold in_block, in_range, ipv4;
    rewrite ?andb_true_iff, ?Z.eqb_eq, ?Z.leb_le, ?Z.ltb_lt; lia.
Qed.

Lemma in_ipv6_prefix_block v prefix bits :
  0 <= bits <= 128 -> (2 ^ (128 - bits) | prefix) ->
  in_ipv6_prefix v prefix bits = in_block 128 v (prefix, bits).
Proof.
  intros Hb [k ->]. unfold in_ipv6_prefix, in_block, saturating_sub. rewrite Z.max_r by lia.
  rewrite !Z.shiftr_div_pow2 by lia. assert (0 < 2 ^ (128 - bits)) as Hp by (apply Z.pow_pos_nonneg; lia).
  revert Hp. generalize (2 ^ (128 - bits)). intros p Hp. rewrite Z.div_mul by lia.
  apply eqb_of_iff. rewrite andb_true_iff, Z.eqb_eq, Z.leb_le, Z.ltb_lt.
  split; [intros <-|intros []].
  - pose proof (Z.mul_div_le v p Hp). pose proof (Z.mul_succ_div_gt v p Hp). lia.
  - symmetry. apply (Z.div_unique v p k (v - k * p)); lia.
Qed.

(** Two blocks have no common address. *)
Definition disjoint (a b : Z * Z) : bool :=
  let '(x, p) := a in let '(y, q) := b in
  (x + 2 ^ (128 - p) <=? y) || (y + 2 ^ (128 - q) <=? x).

Lemma disjoint_spec a b v :
  disjoint a b = true -> in_block 128 v a = true -> in_block 128 v b = true -> False.
Proof.
  destruct a as [x p], b as [y q]. unfold disjoint, in_block. intros H H1 H2. bools.
  apply orb_prop in H as [H|H]; bools; lia.
Qed.

Definition aligned_block (a : Z * Z) : bool :=
  in_range 0 128 (snd a) && (fst a mod 2 ^ (128 - snd a) =? 0).

Lemma aligned_in_prefix v x p :
  aligned_block (x, p) = true -> in_ipv6_prefix v x p = in_block 128 v (x, p).
Proof.
  unfold aligned_block, in_range. cbn [fst snd]. intros H. bools.
  apply in_ipv6_prefix_block; [lia|]. apply Z.mod_divide; [|done].
  apply Z.pow_nonzero; lia.
Qed.

Lemma public_ipv6_outside v :
  is_public_ipv6 v = true -> existsb (in_block 128 v) special_ipv6 = false.
Proof.
  unfold is_public_ipv6. intros H. bools. apply existsb_exists in H as ([p b] & Hin & Hp).
  assert (Hal : forallb aligned_block ((ipv6_new 0x2001 0x0db8 0, 32)
    :: (ipv6_new 0x2620 0x004f 0x8000, 48) :: allocated_global_unicast) = true) by (vm_compute; reflexivity).
  rewrite forallb_forall in Hal.
  rewrite (aligned_in_prefix v p b) in Hp by (apply Hal; right; right; done).
  rewrite (aligned_in_prefix v _ 32) in H1 by (apply Hal; left; done).
  rewrite (aligned_in_prefix v _ 48) in H0 by (apply Hal; right; left; done).
  assert (Hdis : forallb (fun s => forallb (fun a => disjoint a s) allocated_global_unicast
      || bool_decide (s = (ipv6_new 0x2001 0x0db8 0, 32))
      || bool_decide (s = (ipv6_new 0x2620 0x004f 0x8000, 48))) special_ipv6 = true)
    by (vm_compute; reflexivity).
  apply not_true_iff_false. intros (s & Hs & Hv)%existsb_exists.
  rewrite forallb_forall in Hdis. specialize (Hdis s Hs).
  apply orb_prop in Hdis as [Hdis|Hdis]; [apply orb_prop in Hdis as [Hdis|Hdis]|]; bools; try congruence.
  rewrite forallb_forall in Hdis. by apply (disjoint_spec (p, b) s v (Hdis _ Hin)).
Qed.

Lemma public_not_special address :
  ip_wf address -> is_public_ip address = true -> special_purpose address = false.
Proof.
  destruct address as [v|v]; cbn; intros Hw.
  - rewrite public_ipv4_blocks by done. apply negb_true_iff.
  - apply public_ipv6_outside.
Qed.

(** * The target *)

Section Targets.
Context {Url : Type} `{UrlOps Url}.

(** What an accepted target satisfies. *)
Lemma validate_target_ok target policy url :
  validate_webhook_target_with_policy target policy = Ok url ->
  url_username url = [] /\ url_password url = None /\ url_fragment url = None /\
  (exists port, url_port_or_known_default url = Some port /\ port <> 0) /\
  exists host, url_host url = Some host /\
    ((url_scheme url = lit "https" /\ validate_public_host host = Ok tt) \/
     (url_scheme url = lit "http" /\ policy = PublicHttpsWithDevelopmentLoopbackHttp /\
      host_is_loopback host = true)).
Proof.
  unfold validate_webhook_target_with_policy. intros Hv. inv_bind. subst.
  destruct (url_port_or_known_default url) as [port|]; [|done]. bools.
  split; [by destruct (url_username url)|]. split; [done|]. split; [done|]. split; [by exists port|].
  eexists. split; [done|]. destruct a5.
  destruct (str_eqb (url_scheme url) (lit "https")) eqn:Es; [left; by apply str_eqb_eq in Es|].
  destruct (str_eqb (url_scheme url) (lit "http")) eqn:Et; [|done]. apply str_eqb_eq in Et.
  destruct (bool_decide _ && _) eqn:Ed; [|done]. bools. by right.
Qed.

(** What the loop over the resolved addresses keeps. *)
Lemma validate_addresses_ok port requirement addresses validated validated' :
  try_fold (validate_address port requirement) validated addresses = Ok validated' ->
  NoDup validated -> Forall (fun s => socket_port s = port /\ address_allowed requirement (socket_ip s) = true) validated ->
  NoDup validated' /\
  Forall (fun s => socket_port s = port /\ address_allowed requirement (socket_ip s) = true) validated' /\
  (forall ip, ip ∈ map socket_ip validated' <-> ip ∈ map socket_ip validated \/ ip ∈ map socket_ip addresses).
Proof.
  revert validated. induction addresses as [|address addresses IH]; intros validated Hf Hn Hp; cbn in Hf.
  { simplify_eq. split_and!; try done. cbn. set_solver. }
  inv_bind. unfold validate_address in E. cbn [socket_ip] in E.
  destruct (address_allowed requirement (socket_ip address)) eqn:Ea; [|done]. cbn in E.
  destruct (bool_decide (mkSocket _ _ ∈ validated)) eqn:Ed; bools; simplify_eq.
  - destruct (IH _ Hf Hn Hp) as (H1 & H2 & H3). split_and!; try done. intros ip. rewrite H3. cbn.
    assert (socket_ip address ∈ map socket_ip a).
    { apply list_elem_of_fmap. by exists (mkSocket (socket_ip address) port). }
    set_solver.
  - destruct (IH _ Hf) as (H1 & H2 & H3).
    + apply NoDup_app. split_and!; [done|set_solver|apply NoDup_singleton].
    + apply Forall_app. split; [done|]. by constructor.
    + split_and!; try done. intros ip. rewrite H3, map_app. cbn. set_solver.
Qed.

Lemma resolved_addresses_ok url addresses requirement validated :
  validate_resolved_addresses url addresses requirement = Ok validated ->
  exists port, url_port_or_known_default url = Some port /\ validated <> [] /\ NoDup validated /\
  Forall (fun s => socket_port s = port /\ address_allowed requirement (socket_ip s) = true) validated /\
  (forall ip, ip ∈ map socket_ip validated <-> ip ∈ map socket_ip addresses).
Proof.
  unfold validate_resolved_addresses. intros Hv. inv_bind. subst.
  destruct (validate_addresses_ok _ _ _ _ _ E0 (NoDup_nil_2) (Forall_nil_2 _)) as (H1 & H2 & H3).
  eexists. split; [done|]. split; [by destruct validated|]. split_and!; try done.
  intros ip. rewrite H3. cbn. set_solver.
Qed.

Lemma address_requirement_ok url requirement :
  address_requirement url = Ok requirement ->
  (url_scheme url = lit "https" /\ requirement = Public) \/
  (url_scheme url = lit "http" /\ requirement = Loopback).
Proof.
  unfold address_requirement. destruct (str_eqb _ (lit "https")) eqn:E1.
  { intros [= <-]. left. by apply str_eqb_eq in E1. }
  destruct (str_eqb _ (lit "http")) eqn:E2; [|done]. intros [= <-]. right. by apply str_eqb_eq in E2.
Qed.

Context (lookup_host : str -> Z -> Lookup).

(** The addresses a host stands for, as the resolver gave them. *)
Definition host_addresses (url : Url) (addresses : list IpAddr) : Prop :=
  match url_host url with
  | Some (HostIpv4 address) => addresses = [IpV4 address]
  | Some (HostIpv6 address) => addresses = [IpV6 address]
  | Some (HostDomain domain) =>
      exists port found, lookup_host domain port = Found found /\ addresses = map socket_ip found
  | None => False
  end.

Lemma resolve_ok target policy timeout r :
  resolve_webhook_target lookup_host target policy timeout = Ok r ->
  validate_webhook_target_with_policy target policy = Ok (resolved_url r) /\
  (exists requirement candidates, address_requirement (resolved_url r) = Ok requirement /\
    validate_resolved_addresses (resolved_url r) candidates requirement = Ok (resolved_addresses r) /\
    host_addresses (resolved_url r) (map socket_ip candidates)) /\
  resolution_domain r =
    match url_host (resolved_url r) with Some (HostDomain domain) => Some domain | _ => None end.
Proof.
  unfold resolve_webhook_target. intros Hr. inv_bind.
  subst. match goal with Hu' : url_host _ = Some ?h |- _ => rename Hu' into Hu; destruct h as [domain|address|address] end;
    [destruct (lookup_host domain _) as [| |found] eqn:El; [done..|]| |]; inv_bind; subst; cbn;
    rewrite Hu; (split; [done|]); (split; [|done]); eexists _, _; (split; [done|]); (split; [done|]);
    unfold host_addresses; rewrite Hu; [by eexists _, _|done..].
Qed.

(** The addresses the client reaches are the validated ones. *)
Lemma reachable_validated r candidates requirement config :
  validate_resolved_addresses (resolved_url r) candidates requirement = Ok (resolved_addresses r) ->
  host_addresses (resolved_url r) (map socket_ip candidates) ->
  resolution_domain r =
    match url_host (resolved_url r) with Some (HostDomain domain) => Some domain | _ => None end ->
  client_pinned config =
    option_map (fun domain => (domain, resolved_addresses r)) (resolution_domain r) ->
  reachable_addresses config (resolved_url r) <> [] /\
  forall s, s ∈ reachable_addresses config (resolved_url r) ->
    url_port_or_known_default (resolved_url r) = Some (socket_port s) /\
    socket_ip s ∈ map socket_ip candidates /\ address_allowed requirement (socket_ip s) = true.
Proof.
  intros (port & Hport & Hne & _ & Hall & Hips)%resolved_addresses_ok Hh Hd Hc.
  assert (Hin : forall ip, ip ∈ map socket_ip candidates -> address_allowed requirement ip = true).
  { intros ip Hip%Hips. apply list_elem_of_fmap in Hip as (s & -> & Hs).
    rewrite Forall_forall in Hall. by apply Hall in Hs as []. }
  unfold reachable_addresses, host_addresses in *. rewrite Hport, Hc, Hd.
  destruct (url_host (resolved_url r)) as [[domain|address|address]|]; [| | |done].
  - cbn. rewrite str_eqb_refl. split; [done|]. intros s Hs. rewrite Forall_forall in Hall.
    destruct (Hall _ Hs) as [<- ?]. split_and!; try done. apply Hips.
    apply list_elem_of_fmap. by exists s.
  - split; [done|]. intros s ->%list_elem_of_singleton. cbn. rewrite Hh in *.
    split_and!; [done|by left|]. apply Hin. by left.
  - split; [done|]. intros s ->%list_elem_of_singleton. cbn. rewrite Hh in *.
    split_and!; [done|by left|]. apply Hin. by left.
Qed.
End Targets.

(** * Theorems *)

(** The IPv4 filter is the registry.  [is_public_ipv4], which tests octets,
    refuses exactly the addresses of the special-purpose blocks. *)
Theorem public_ipv4_is_complement v :
  0 <= v < 2 ^ 32 -> is_public_ipv4 v = negb (existsb (in_block 32 v) special_ipv4).
Proof. apply public_ipv4_blocks. Qed.

(** C17: a webhook cannot be aimed at the inside of the network.  When a target is
    prepared, the client was built without redirects and without a proxy, the
    URL has no credentials and no fragment, and there is at least one address
    the client can connect to; each of them carries the URL's port, is one the
    resolver gave for the name (or the literal itself), and is outside every
    special-purpose block, or else the operator has opted in to local HTTP and
    it is a loopback address. *)
Theorem webhook_reaches_only_public {Url} `{UrlOps Url} {Client} lookup_host
    (client_build : ClientConfig -> option Client) env_value target timeout client url :
  (forall domain port found, lookup_host domain port = Found found ->
     Forall (fun s => ip_wf (socket_ip s)) found) ->
  (forall (u : Url) a, url_host u = Some (HostIpv4 a) -> 0 <= a < 2 ^ 32) ->
  (forall (u : Url) a, url_host u = Some (HostIpv6 a) -> 0 <= a < 2 ^ 128) ->
  prepare_webhook_target lookup_host client_build env_value target timeout = Ok (client, url) ->
  url_username url = [] /\ url_password url = None /\ url_fragment url = None /\
  exists config candidates, client_build config = Some client /\
    client_follows_redirects config = false /\ client_uses_proxy config = false /\
    host_addresses lookup_host url candidates /\ reachable_addresses config url <> [] /\
    forall s, s ∈ reachable_addresses config url ->
      url_port_or_known_default url = Some (socket_port s) /\ socket_port s <> 0 /\
      socket_ip s ∈ candidates /\
      (special_purpose (socket_ip s) = false \/
       (webhook_target_policy env_value = PublicHttpsWithDevelopmentLoopbackHttp /\
        url_scheme url = lit "http" /\ is_loopback (socket_ip s) = true)).
Proof.
  intros Hl H4 H6 Hp. unfold prepare_webhook_target, prepare_resolved_webhook_target in Hp. inv_bind.
  simplify_eq. destruct (resolve_ok _ _ _ _ _ E) as (Hv & (req & cands & Hreq & Hval & Hh) & Hd).
  destruct (validate_target_ok _ _ _ Hv) as (Hu & Hpw & Hf & (port & Hport & Hnz) & host & _ & Hcase).
  split_and!; try done. eexists _, _. split; [exact O|]. split; [done|]. split; [done|]. split; [exact Hh|].
  destruct (reachable_validated lookup_host _ _ _ (mkClientConfig timeout timeout false false
    (option_map (fun domain => (domain, resolved_addresses a)) (resolution_domain a)))
    Hval Hh Hd ltac:(done)) as [Hne Hr].
  split; [done|]. intros s Hs. destruct (Hr s Hs) as (Hsp & Hin & Hall). split_and!; try done; [congruence|].
  assert (Hw : ip_wf (socket_ip s)).
  { unfold host_addresses in Hh. destruct (url_host (resolved_url a)) as [[domain|v|v]|] eqn:Eh; [| | |done].
    - destruct Hh as (p' & found & Hfound & Hm). apply Hl in Hfound. rewrite Forall_forall in Hfound.
      rewrite Hm in Hin. apply list_elem_of_fmap in Hin as (s' & -> & Hs'). auto.
    - rewrite Hh in Hin. apply list_elem_of_singleton in Hin as ->. by apply H4 in Eh.
    - rewrite Hh in Hin. apply list_elem_of_singleton in Hin as ->. by apply H6 in Eh. }
  destruct (address_requirement_ok _ _ Hreq) as [[Hs' ->]|[Hs' ->]].
  - left. by apply public_not_special.
  - right. destruct Hcase as [[Hc _]|(_ & Hpol & _)]; [|done]. rewrite Hs' in Hc. discriminate Hc.
Qed.

(** * Witnesses *)

(** A URL type with one shape of URL: [https] or [http], a host name, port 443. *)
Record SampleUrl := mkSampleUrl { sample_scheme : str; sample_host : str }.

#[local] Instance sample_url_ops : UrlOps SampleUrl := {
  url_parse target :=
    match split_once 58 target with
    | Some (scheme, rest) =>
        match strip_prefix (lit "//") rest with
        | Some host => Some (mkSampleUrl scheme host)
        | None => None
        end
    | None => None
    end;
  url_scheme := sample_scheme;
  url_username _ := [];
  url_password _ := None;
  url_fragment _ := None;
  url_port_or_known_default _ := Some 443;
  url_host url := Some (HostDomain (sample_host url));
}.

Lemma public_ipv4_is_complement_witness :
  is_public_ipv4 (ipv4 172 32 0 1) = negb (existsb (in_block 32 (ipv4 172 32 0 1)) special_ipv4).
Proof. apply public_ipv4_is_complement. unfold ipv4. lia. Defined.

Definition sample_lookup (domain : str) (port : Z) : Lookup :=
  Found [mkSocket (IpV4 (ipv4 93 184 216 34)) 0; mkSocket (IpV6 (ipv6_new 0x2606 0x2800 0x220)) 0].

Lemma webhook_reaches_only_public_witness :
  exists client, prepare_webhook_target sample_lookup Some None (lit " https://hooks.vpsman.io ") 5
    = Ok (client, mkSampleUrl (lit "https") (lit "hooks.vpsman.io")) /\
  exists config candidates, Some config = Some client /\
    client_follows_redirects config = false /\ client_uses_proxy config = false /\
    host_addresses sample_lookup (mkSampleUrl (lit "https") (lit "hooks.vpsman.io")) candidates.
Proof.
  eexists. split; [vm_compute; reflexivity|].
  match goal with |- exists config _, Some config = Some ?client /\ _ =>
    pose proof (webhook_reaches_only_public sample_lookup Some None (lit " https://hooks.vpsman.io ") 5
      client (mkSampleUrl (lit "https") (lit "hooks.vpsman.io"))) as T end.
  destruct T as (_ & _ & _ & config & candidates & H1 & H2 & H3 & H4 & _).
  - intros domain port found [= <-]. repeat constructor; vm_compute; discriminate.
  - intros u a [=].
  - intros u a [=].
  - vm_compute. reflexivity.
  - exists config, candidates. split; [exact H1|]. split; [exact H2|]. split; [exact H3|exact H4].
Defined.
