(* ===== verification/PortForwarding.v ===== *)
(** Port forwarding, the desired state:
    crates/common/src/network/port_forwarding.rs and port_forwarding_pools.rs.

    An operator's rule claims incoming ports of a server for a family and a
    transport, and sends them to a fixed target, to a pool of upstreams, to the
    server itself (redirect) or to a custom adapter.  A configuration is checked
    as a whole before it is stored and again before the agent applies it.  A UUID
    is its 128-bit value; [usize] has 64 bits; [serde_json::to_vec] of rules and
    the hash are arguments. *)

From stdpp Require Import sorting.
From S2P Require Import Prelude RustStd Auth TagOrder Net TunnelModels.

Open Scope Z_scope.

(** * Constants *)

Definition PORT_FORWARDING_SCHEMA_VERSION : Z := 1.
Definition PORT_FORWARDING_MODES_SCHEMA_VERSION : Z := 2.
Definition PORT_FORWARDING_POOLS_SCHEMA_VERSION : Z := 3.
Definition PORT_FORWARD_ADAPTER_CONTRACT_VERSION : Z := 2.
Definition MAX_PORT_FORWARD_RULES : Z := 512.
Definition MAX_PORT_FORWARD_MAPPINGS : Z := 256.
Definition MAX_PORT_FORWARD_NAME_BYTES : Z := 128.
Definition MAX_PORT_FORWARD_NFT_SCRIPT_BYTES : Z := 8 * 1024 * 1024.

(** * Data *)

Inductive PortForwardMode := Dnat | Redirect | CustomAdapter.
Inductive PortForwardAddressFamily := Ipv4 | Ipv6 | BothFamilies.
Inductive PortForwardProtocol := Tcp | Udp | BothTransports.
Inductive PortForwardPoolStrategy :=
| RoundRobin | Random | SourceIpHash | LeastConnections | ConsistentSourceIpHash.
Inductive PortForwardUpstreamRole := Primary | Backup.

#[export] Instance mode_eq_dec : EqDecision PortForwardMode.
Proof. solve_decision. Defined.
#[export] Instance family_eq_dec : EqDecision PortForwardAddressFamily.
Proof. solve_decision. Defined.
#[export] Instance protocol_eq_dec : EqDecision PortForwardProtocol.
Proof. solve_decision. Defined.
#[export] Instance strategy_eq_dec : EqDecision PortForwardPoolStrategy.
Proof. solve_decision. Defined.
#[export] Instance role_eq_dec : EqDecision PortForwardUpstreamRole.
Proof. solve_decision. Defined.

Inductive PortForwardValidationError :=
| PoolInvalid (message : str) | PortZero | RangeReversed | ExpressionEmpty
| ExpressionInvalid (item : str) | MappingsEmpty | MappingsTooMany | IncomingOverlap
| TargetCardinalityMismatch | TargetExpressionCountMismatch | NameEmpty | NameTooLong
| TargetIpInvalid | ModeFieldsInvalid | AdapterCommandInvalid | SchemaUnsupported
| DesiredHashMissing | DesiredHashInvalid | DesiredHashMismatch | RulesTooMany | ProgramTooLarge
| DuplicateRuleId | CleanupRuleIdInvalid | CrossRuleOverlap.

Record PortRange := { start : Z; end_ : Z }.

#[export] Instance port_range_eq_dec : EqDecision PortRange.
Proof. solve_decision. Defined.

Record PortForwardMapping := { incoming : PortRange; target : PortRange }.

Record PortForwardAdapterCommands := {
  definition_id : Z;
  definition_name : str;
  definition_hash : str;
  contract_version : Z;
  adapter_apply : RuntimeTunnelCommand;
  adapter_remove : RuntimeTunnelCommand;
  adapter_status : RuntimeTunnelCommand;
}.

Inductive PortForwardFailurePolicy :=
| FailureOff
| Temporary (threshold window_secs retry_after_secs : Z).

Inductive PortForwardRetryPolicy :=
| RetryOff
| ConnectFailure (max_attempts retry_budget_secs : option Z).

Record PortForwardUpstream := {
  up_id : Z;
  up_target_ip : IpAddr;
  up_target_hostname : option str;
  up_ports : PortRange;
  up_weight : Z;
  up_role : PortForwardUpstreamRole;
  up_enabled : bool;
  up_failure_policy : option PortForwardFailurePolicy;
}.

Record PortForwardPool := {
  pool_incoming : list PortRange;
  pool_strategy : PortForwardPoolStrategy;
  pool_upstreams : list PortForwardUpstream;
  pool_connect_timeout_secs : option Z;
  pool_retry_policy : option PortForwardRetryPolicy;
}.

Record PortForwardRule := {
  rule_id : Z;
  revision : Z;
  name : str;
  protocol : PortForwardProtocol;
  target_ip : option IpAddr;
  mappings : list PortForwardMapping;
  pool : option PortForwardPool;
  masquerade : bool;
  mode : PortForwardMode;
  address_family : option PortForwardAddressFamily;
  adapter : option PortForwardAdapterCommands;
}.

Record PortForwardCleanupRule := { cleanup_rule_id : Z; cleanup_revision : Z }.

Record AgentPortForwardingConfig := {
  schema_version : Z;
  desired_hash : str;
  rules : list PortForwardRule;
  cleanup_rules : list PortForwardCleanupRule;
  native_cleanup_pending : bool;
}.

(** [AgentPortForwardingConfig::default]. *)
Definition config_default : AgentPortForwardingConfig := {|
  schema_version := PORT_FORWARDING_SCHEMA_VERSION; desired_hash := []; rules := [];
  cleanup_rules := []; native_cleanup_pending := false |}.

(** * Port ranges *)

Definition validate_range (r : PortRange) : result PortForwardValidationError unit :=
  if (start r =? 0) || (end_ r =? 0) then Err PortZero
  else if end_ r <? start r then Err RangeReversed else Ok tt.

Definition new (first last : Z) : result PortForwardValidationError PortRange :=
  let value := {| start := first; end_ := last |} in
  _ ← validate_range value; Ok value.

(** [u32] arithmetic; every caller has checked the range, so nothing wraps. *)
Definition cardinality (r : PortRange) : Z := (end_ r - start r + 1) mod 2 ^ 32.

Definition is_single (r : PortRange) : bool := start r =? end_ r.

Definition overlaps (a b : PortRange) : bool := (start a <=? end_ b) && (start b <=? end_ a).

(** [slice.windows(2).any(|pair| p(pair[0], pair[1]))]. *)
Fixpoint windows2_any {A} (p : A -> A -> bool) (l : list A) : bool :=
  match l with
  | a :: (b :: _) as l' => p a b || windows2_any p l'
  | _ => false
  end.

(** The key [sort_by_key] compares ranges by. *)
Definition range_cmp (a b : PortRange) : comparison :=
  then_with (Z.compare (start a) (start b)) (Z.compare (end_ a) (end_ b)).
Definition range_le (a b : PortRange) : Prop := range_cmp a b <> Gt.

#[export] Instance range_le_dec : RelDecision range_le.
Proof. unfold range_le. solve_decision. Defined.

Definition validate_non_overlapping (ranges : list PortRange) :
  result PortForwardValidationError unit :=
  let sorted := merge_sort range_le ranges in
  if windows2_any overlaps sorted then Err IncomingOverlap else Ok tt.

(** * Port expressions *)

Definition parse_port (value item : str) : result PortForwardValidationError Z :=
  ok_or (parse_unsigned u16_max (trim value)) (ExpressionInvalid item).

(** One turn of the loop over the comma-separated items. *)
Definition parse_item (raw_item : str) : result PortForwardValidationError PortRange :=
  let item := trim raw_item in
  if is_empty item then Err (ExpressionInvalid raw_item)
  else
    match split_once 45 item with
    | Some (first, last) =>
        if contains_char 45 last then Err (ExpressionInvalid item)
        else first ← parse_port first item; last ← parse_port last item; new first last
    | None => port ← parse_port item item; new port port
    end.

Definition parse_port_expression (expression : str) :
  result PortForwardValidationError (list PortRange) :=
  if is_empty (trim expression) then Err ExpressionEmpty
  else
    ranges ← try_map parse_item (split 44 expression);
    if MAX_PORT_FORWARD_MAPPINGS <? vec_len ranges then Err MappingsTooMany
    else _ ← validate_non_overlapping ranges; Ok ranges.

Definition validate_mapping (m : PortForwardMapping) : result PortForwardValidationError PortRange :=
  _ ← validate_range (incoming m);
  _ ← validate_range (target m);
  if negb (is_single (target m)) && negb (cardinality (target m) =? cardinality (incoming m))
  then Err TargetCardinalityMismatch
  else Ok (incoming m).

Definition validate_mappings (ms : list PortForwardMapping) :
  result PortForwardValidationError unit :=
  if is_empty ms then Err MappingsEmpty
  else if MAX_PORT_FORWARD_MAPPINGS <? vec_len ms then Err MappingsTooMany
  else incoming ← try_map validate_mapping ms; validate_non_overlapping incoming.

(** One target range for every incoming range, in order. *)
Definition zip_mappings (ranges targets : list PortRange) :
  result PortForwardValidationError (list PortForwardMapping) :=
  if (length ranges =? length targets)%nat
  then Ok (zip_with Build_PortForwardMapping ranges targets)
  else Err TargetExpressionCountMismatch.

Definition pair_port_expressions (incoming_expression target_expression : str) :
  result PortForwardValidationError (list PortForwardMapping) :=
  ranges ← parse_port_expression incoming_expression;
  targets ← parse_port_expression target_expression;
  ms ← match targets with
       | [t] => if is_single t then Ok (map (fun r => {| incoming := r; target := t |}) ranges)
                else zip_mappings ranges targets
       | _ => zip_mappings ranges targets
       end;
  _ ← validate_mappings ms;
  Ok ms.

(** * Targets *)

Definition ip_is_unspecified (a : IpAddr) : bool := ip_value a =? 0.
Definition ip_is_loopback (a : IpAddr) : bool :=
  match a with IpV4 v => v / 2 ^ 24 =? 127 | IpV6 v => v =? 1 end.
Definition ip_is_multicast (a : IpAddr) : bool :=
  match a with IpV4 v => in_range 224 239 (v / 2 ^ 24) | IpV6 v => v / 2 ^ 120 =? 255 end.
Definition ip_is_link_local (a : IpAddr) : bool :=
  match a with
  | IpV4 v => v / 2 ^ 16 =? 169 * 256 + 254
  | IpV6 v => Z.land (v / 2 ^ 112) 65472 =? 65152
  end.
Definition ip_is_broadcast (v : Z) : bool := v =? u32_max.

Definition validate_target_ip (a : IpAddr) : result PortForwardValidationError unit :=
  let invalid :=
    match a with
    | IpV4 v => ip_is_unspecified a || ip_is_loopback a || ip_is_multicast a || ip_is_link_local a
                || ip_is_broadcast v
    | IpV6 _ => ip_is_unspecified a || ip_is_loopback a || ip_is_multicast a || ip_is_link_local a
    end in
  if invalid then Err TargetIpInvalid else Ok tt.

(** * Rules *)

Definition transports (p : PortForwardProtocol) : list str :=
  match p with
  | Tcp => [lit "tcp"]
  | Udp => [lit "udp"]
  | BothTransports => [lit "tcp"; lit "udp"]
  end.

Definition incoming_ranges (rule : PortForwardRule) : list PortRange :=
  match pool rule with
  | Some pool => pool_incoming pool
  | None => map incoming (mappings rule)
  end.

Definition required_schema_version (rule : PortForwardRule) : Z :=
  if bool_decide (is_Some (pool rule)) || bool_decide (mode rule = CustomAdapter)
  then PORT_FORWARDING_POOLS_SCHEMA_VERSION
  else if negb (bool_decide (mode rule = Dnat)) then PORT_FORWARDING_MODES_SCHEMA_VERSION
  else PORT_FORWARDING_SCHEMA_VERSION.

(** The rule's own target, or the first row of its pool. *)
Definition first_target (rule : PortForwardRule) : option IpAddr :=
  match target_ip rule with
  | Some ip => Some ip
  | None => pool ← pool rule; row ← head (pool_upstreams pool); Some (up_target_ip row)
  end.

Definition native_families (rule : PortForwardRule) : list PortForwardAddressFamily :=
  match mode rule with
  | Dnat =>
      match first_target rule with
      | Some (IpV4 _) => [Ipv4]
      | Some (IpV6 _) => [Ipv6]
      | None => []
      end
  | Redirect =>
      match address_family rule with
      | Some Ipv4 => [Ipv4]
      | Some Ipv6 => [Ipv6]
      | Some BothFamilies => [Ipv4; Ipv6]
      | None => []
      end
  | CustomAdapter => []
  end.

(** * Pools *)

Definition pool_check (condition : bool) (message : string) : result PortForwardValidationError unit :=
  if condition then Ok tt else Err (PoolInvalid (lit message)).

(** The number of endpoints of the rows; [u64], far below overflow. *)
Definition endpoint_count (rows : list PortForwardUpstream) : result PortForwardValidationError Z :=
  try_fold (fun sum row => _ ← validate_range (up_ports row); Ok (sum + cardinality (up_ports row)))
    0 rows.

Definition row_family (row : PortForwardUpstream) : PortForwardAddressFamily :=
  if is_ipv4 (up_target_ip row) then Ipv4 else Ipv6.

Definition supports_backups (m : PortForwardMode) (strategy : PortForwardPoolStrategy) : bool :=
  bool_decide (m = CustomAdapter) &&
  match strategy with RoundRobin | LeastConnections => true | _ => false end.

Definition custom_tcp (m : PortForwardMode) (p : PortForwardProtocol) : bool :=
  bool_decide (m = CustomAdapter) && bool_decide (p = Tcp).

Definition check_failure_policy (m : PortForwardMode) (p : PortForwardProtocol) (endpoints : Z)
  (policy : option PortForwardFailurePolicy) : result PortForwardValidationError unit :=
  match policy with
  | None => Ok tt
  | Some policy =>
      _ ← pool_check (custom_tcp m p && (2 <=? endpoints))
            "failure exclusion requires a custom TCP pool with at least two endpoints";
      match policy with
      | FailureOff => Ok tt
      | Temporary threshold window_secs retry_after_secs =>
          _ ← pool_check ((0 <? threshold) && (0 <? window_secs) && (0 <? retry_after_secs))
                "failure thresholds and intervals must be positive";
          pool_check (window_secs =? retry_after_secs)
            "failure window and exclusion interval must match"
      end
  end.

(** What the loop over the rows keeps: the ids, the families, the rows before the
    current one, and the weight of the enabled endpoints ([u64]). *)
Record RowState := {
  rs_ids : gset Z;
  rs_families : list PortForwardAddressFamily;
  rs_seen : list PortForwardUpstream;
  rs_total_weight : Z;
}.

Definition check_row (m : PortForwardMode) (p : PortForwardProtocol)
  (strategy : PortForwardPoolStrategy) (endpoints : Z) (s : RowState) (row : PortForwardUpstream) :
  result PortForwardValidationError RowState :=
  _ ← validate_range (up_ports row);
  _ ← pool_check (negb (bool_decide (up_id row ∈ rs_ids s))) "upstream IDs must be unique";
  _ ← pool_check (0 <? up_weight row) "upstream weight must be positive";
  _ ← if bool_decide (m = Dnat) then validate_target_ip (up_target_ip row)
      else pool_check (negb (ip_is_unspecified (up_target_ip row))
                       && negb (ip_is_multicast (up_target_ip row)))
             "upstream target must be a usable unicast address";
  _ ← pool_check (negb (existsb (fun other =>
          bool_decide (up_target_ip other = up_target_ip row)
          && overlaps (up_ports other) (up_ports row)) (rs_seen s)))
        "upstream IP/port ranges overlap";
  _ ← pool_check (negb (bool_decide (up_role row = Backup)) || supports_backups m strategy)
        "pool strategy does not support backups";
  _ ← check_failure_policy m p endpoints (up_failure_policy row);
  Ok {| rs_ids := {[up_id row]} ∪ rs_ids s;
        rs_families := if bool_decide (row_family row ∈ rs_families s) then rs_families s
                       else rs_families s ++ [row_family row];
        rs_seen := rs_seen s ++ [row];
        rs_total_weight :=
          if up_enabled row
          then rs_total_weight s + up_weight row * cardinality (up_ports row)
          else rs_total_weight s |}.

Definition row_state_init : RowState :=
  {| rs_ids := ∅; rs_families := []; rs_seen := []; rs_total_weight := 0 |}.

Definition none_or_positive (o : option Z) : bool := match o with Some n => 0 <? n | None => true end.

Definition check_retry_policy (m : PortForwardMode) (p : PortForwardProtocol)
  (retry : option PortForwardRetryPolicy) : result PortForwardValidationError unit :=
  match retry with
  | None => Ok tt
  | Some retry =>
      _ ← pool_check (custom_tcp m p) "connection retry applies to custom TCP pools";
      match retry with
      | RetryOff => Ok tt
      | ConnectFailure max_attempts retry_budget_secs =>
          pool_check (none_or_positive max_attempts && none_or_positive retry_budget_secs)
            "retry limits must be positive when supplied"
      end
  end.

Definition native_strategy (strategy : PortForwardPoolStrategy) : bool :=
  match strategy with RoundRobin | Random | SourceIpHash => true | _ => false end.

Definition validate_port_forward_pool (pool : PortForwardPool) (m : PortForwardMode)
  (p : PortForwardProtocol) : result PortForwardValidationError unit :=
  _ ← pool_check (negb (bool_decide (m = Redirect))) "REDIRECT cannot use an upstream pool";
  _ ← pool_check (negb (bool_decide (m = Dnat)) || native_strategy (pool_strategy pool))
        "DNAT pools use round robin, random, or source IP hash";
  _ ← pool_check (negb (is_empty (pool_incoming pool))
                  && (vec_len (pool_incoming pool) <=? MAX_PORT_FORWARD_MAPPINGS))
        "invalid pool incoming range count";
  _ ← try_map validate_range (pool_incoming pool);
  _ ← validate_non_overlapping (pool_incoming pool);
  let rows := pool_upstreams pool in
  _ ← pool_check (negb (is_empty rows) && (vec_len rows <=? MAX_PORT_FORWARD_MAPPINGS))
        "invalid upstream row count";
  _ ← pool_check (existsb up_enabled rows) "enable at least one upstream";
  _ ← pool_check (existsb (fun row => bool_decide (up_role row = Primary)) rows)
        "keep at least one primary upstream";
  endpoints ← endpoint_count rows;
  s ← try_fold (check_row m p (pool_strategy pool) endpoints) row_state_init rows;
  _ ← pool_check (negb (bool_decide (m = Dnat)) || (length (rs_families s) =? 1)%nat)
        "pool cannot mix address families";
  _ ← pool_check (negb (bool_decide (m = Dnat)) || (rs_total_weight s <=? u32_max))
        "expanded endpoint weights exceed 4294967295";
  _ ← match pool_connect_timeout_secs pool with
      | Some timeout =>
          pool_check ((0 <? timeout) && custom_tcp m p)
            "connect timeout must be positive and applies to custom TCP pools"
      | None => Ok tt
      end;
  check_retry_policy m p (pool_retry_policy pool).

(** * Rule validation *)

(** [Path::new(arg).is_absolute()] on Unix. *)
Definition is_absolute (arg : str) : bool := starts_with arg (lit "/").

Definition command_invalid (c : RuntimeTunnelCommand) : bool :=
  is_empty (cmd_argv c)
  || negb (existsb (fun arg => contains_str arg (lit "{rule_config_json}")) (cmd_argv c))
  || (32 <? vec_len (cmd_argv c))
  || negb (match cmd_argv c with program :: _ => is_absolute program | [] => false end)
  || existsb (fun arg => is_empty arg || (4096 <? str_len arg) || contains_char 0 arg) (cmd_argv c)
  || negb (in_range 1 120 (cmd_max_timeout_secs c))
  || negb (in_range 1024 65536 (cmd_max_output_bytes c)).

Definition validate_adapter (a : PortForwardAdapterCommands) : result PortForwardValidationError unit :=
  if negb (contract_version a =? PORT_FORWARD_ADAPTER_CONTRACT_VERSION) then Err AdapterCommandInvalid
  else if existsb command_invalid [adapter_apply a; adapter_remove a; adapter_status a]
  then Err AdapterCommandInvalid else Ok tt.

(** The fields each mode allows. *)
Definition validate_mode_fields (rule : PortForwardRule) : result PortForwardValidationError unit :=
  match mode rule with
  | Dnat =>
      _ ← match pool rule with
          | None => ip ← ok_or (target_ip rule) TargetIpInvalid; validate_target_ip ip
          | Some _ => if bool_decide (is_Some (target_ip rule)) then Err ModeFieldsInvalid else Ok tt
          end;
      if bool_decide (is_Some (adapter rule)) || bool_decide (is_Some (address_family rule))
      then Err ModeFieldsInvalid else Ok tt
  | Redirect =>
      if bool_decide (is_Some (pool rule)) || bool_decide (is_Some (target_ip rule))
         || bool_decide (is_Some (adapter rule)) || bool_decide (address_family rule = None)
         || masquerade rule
      then Err ModeFieldsInvalid else Ok tt
  | CustomAdapter =>
      if bool_decide (is_Some (address_family rule)) || masquerade rule then Err ModeFieldsInvalid
      else a ← ok_or (adapter rule) ModeFieldsInvalid; validate_adapter a
  end.

Definition validate_port_forward_rule (rule : PortForwardRule) :
  result PortForwardValidationError unit :=
  let trimmed := trim (name rule) in
  if is_empty trimmed then Err NameEmpty
  else if MAX_PORT_FORWARD_NAME_BYTES <? str_len trimmed then Err NameTooLong
  else
    _ ← validate_mode_fields rule;
    match pool rule with
    | Some p =>
        if negb (is_empty (mappings rule)) || bool_decide (is_Some (target_ip rule))
        then Err ModeFieldsInvalid
        else validate_port_forward_pool p (mode rule) (protocol rule)
    | None => validate_mappings (mappings rule)
    end.

(** * Claims of native rules *)

(** A claim: IPv6 or IPv4, the transport and the ports. *)
Definition Claim : Type := bool * str * PortRange.

Definition rule_claims (rule : PortForwardRule) : list Claim :=
  flat_map (fun family =>
    flat_map (fun transport =>
      map (fun r => (bool_decide (family = Ipv6), transport, r)) (incoming_ranges rule))
      (transports (protocol rule)))
    (native_families rule).

(** [Ord for bool]. *)
Definition bool_cmp (a b : bool) : comparison := Z.compare (Z.b2z a) (Z.b2z b).

(** The key claims are sorted by. *)
Definition claim_cmp (a b : Claim) : comparison :=
  let '(v6a, ta, ra) := a in
  let '(v6b, tb, rb) := b in
  then_with (bool_cmp v6a v6b) (then_with (str_cmp ta tb) (range_cmp ra rb)).
Definition claim_le (a b : Claim) : Prop := claim_cmp a b <> Gt.

#[export] Instance claim_le_dec : RelDecision claim_le.
Proof. unfold claim_le. solve_decision. Defined.

Definition claims_conflict (a b : Claim) : bool :=
  let '(v6a, ta, ra) := a in
  let '(v6b, tb, rb) := b in
  eqb v6a v6b && str_eqb ta tb && overlaps ra rb.

Definition validate_cross_rule_overlaps (rs : list PortForwardRule) :
  result PortForwardValidationError unit :=
  let claims := merge_sort claim_le (flat_map rule_claims rs) in
  if windows2_any claims_conflict claims then Err CrossRuleOverlap else Ok tt.

(** * The size of the nftables program *)

Definition usize_add (a b : Z) : Z := saturating_add u64_max a b.
Definition usize_mul (a b : Z) : Z := saturating_mul u64_max a b.

Definition BASE_BYTES : Z := 2 * 1024.
Definition RULE_PROGRAM_BYTES : Z := 768.
Definition DISPATCH_ELEMENT_BYTES : Z := 96.
Definition COMPACT_MAP_ELEMENT_BYTES : Z := 48.
Definition MAP_ELEMENT_BYTES : Z := 20.

Definition mapping_differs (m : PortForwardMapping) : bool :=
  negb (bool_decide (incoming m = target m)).

(** The bytes a rule adds for each transport and family. *)
Definition per_transport_bytes (rule : PortForwardRule) : Z :=
  match pool rule with
  | Some p =>
      let endpoints := foldl (fun sum row => usize_add sum (cardinality (up_ports row))) 0
                         (List.filter up_enabled (pool_upstreams p)) in
      usize_add (usize_add RULE_PROGRAM_BYTES
                   (usize_mul (vec_len (pool_incoming p)) DISPATCH_ELEMENT_BYTES))
        (usize_mul endpoints 160)
  | None =>
      let compact_elements :=
        usize_mul (vec_len (List.filter (fun m => is_single (target m) && mapping_differs m)
                              (mappings rule))) COMPACT_MAP_ELEMENT_BYTES in
      let shifted_elements :=
        foldl (fun bytes m =>
                 usize_add bytes (usize_mul (cardinality (incoming m)) MAP_ELEMENT_BYTES)) 0
          (List.filter (fun m => negb (is_single (target m)) && mapping_differs m) (mappings rule)) in
      usize_add (usize_add (usize_add RULE_PROGRAM_BYTES
                              (usize_mul (vec_len (mappings rule)) DISPATCH_ELEMENT_BYTES))
                   compact_elements)
        shifted_elements
  end.

Definition is_native (rule : PortForwardRule) : bool := negb (bool_decide (mode rule = CustomAdapter)).

Definition estimated_nft_program_bytes (rs : list PortForwardRule) : Z :=
  foldl (fun total rule =>
           usize_add total
             (usize_mul (per_transport_bytes rule)
                (vec_len (transports (protocol rule)) * vec_len (native_families rule))))
    BASE_BYTES (List.filter is_native rs).

(** * Configurations *)

Section Hashed.

Context (sha256 : list Z -> list Z) (hex_encode : list Z -> str).
(** [serde_json::to_vec(&rules)]; it does not fail on these types. *)
Context (rules_json : list PortForwardRule -> list Z).

Definition by_id (a b : PortForwardRule) : Prop := rule_id a <= rule_id b.

#[export] Instance by_id_dec : RelDecision by_id.
Proof. unfold by_id. solve_decision. Defined.

Definition port_forwarding_desired_hash (rs : list PortForwardRule) : str :=
  payload_hash sha256 hex_encode (rules_json (merge_sort by_id rs)).

Definition schema_known (version : Z) : bool :=
  (version =? PORT_FORWARDING_SCHEMA_VERSION) || (version =? PORT_FORWARDING_MODES_SCHEMA_VERSION)
  || (version =? PORT_FORWARDING_POOLS_SCHEMA_VERSION).

Definition schema_unsupported (config : AgentPortForwardingConfig) : bool :=
  negb (schema_known (schema_version config))
  || (schema_version config =? PORT_FORWARDING_SCHEMA_VERSION)
     && (negb (is_empty (cleanup_rules config))
         || existsb (fun rule => negb (bool_decide (mode rule = Dnat))) (rules config)).

Definition is_hash_byte (b : Z) : bool := is_ascii_digit b || in_range 97 102 b.

Definition desired_hash_check (config : AgentPortForwardingConfig) :
  result PortForwardValidationError unit :=
  let hash := desired_hash config in
  if negb (is_empty (rules config)) && is_empty hash then Err DesiredHashMissing
  else if negb (is_empty hash)
          && (negb (str_len hash =? 64) || negb (forallb is_hash_byte (as_bytes hash)))
  then Err DesiredHashInvalid
  else if negb (is_empty hash)
          && negb (str_eqb hash (port_forwarding_desired_hash (rules config)))
  then Err DesiredHashMismatch
  else Ok tt.

Definition check_rule (ids : gset Z) (rule : PortForwardRule) :
  result PortForwardValidationError (gset Z) :=
  if bool_decide (rule_id rule ∈ ids) then Err DuplicateRuleId
  else _ ← validate_port_forward_rule rule; Ok ({[rule_id rule]} ∪ ids).

Definition check_cleanup (rs : list PortForwardRule) (ids : gset Z) (c : PortForwardCleanupRule) :
  result PortForwardValidationError (gset Z) :=
  if (cleanup_revision c <=? 0) || bool_decide (cleanup_rule_id c ∈ ids)
     || existsb (fun rule => (rule_id rule =? cleanup_rule_id c)
                             && bool_decide (mode rule = CustomAdapter)) rs
  then Err CleanupRuleIdInvalid
  else Ok ({[cleanup_rule_id c]} ∪ ids).

Definition validate_port_forwarding_config (config : AgentPortForwardingConfig) :
  result PortForwardValidationError unit :=
  if schema_unsupported config then Err SchemaUnsupported
  else if existsb (fun rule => schema_version config <? required_schema_version rule) (rules config)
  then Err SchemaUnsupported
  else if MAX_PORT_FORWARD_RULES <? vec_len (rules config) then Err RulesTooMany
  else
    _ ← desired_hash_check config;
    _ ← try_fold check_rule ∅ (rules config);
    _ ← try_fold (check_cleanup (rules config)) ∅ (cleanup_rules config);
    if MAX_PORT_FORWARD_NFT_SCRIPT_BYTES <? estimated_nft_program_bytes (rules config)
    then Err ProgramTooLarge
    else validate_cross_rule_overlaps (rules config).

End Hashed.

(** * Capabilities *)

Inductive PortForwardCapabilityStatus :=
| Supported | NftMissing | InsufficientPrivilege | InetNatUnsupported | ProbeFailed | Unknown.

#[export] Instance capability_status_eq_dec : EqDecision PortForwardCapabilityStatus.
Proof. solve_decision. Defined.

Record PortForwardCapability := {
  cap_status : PortForwardCapabilityStatus;
  cap_nft_version : option str;
  cap_reason : option str;
  cap_schema_version : Z;
  cap_supported_modes : list PortForwardMode;
}.

Definition supported (c : PortForwardCapability) : bool := bool_decide (cap_status c = Supported).

Definition supports_mode (c : PortForwardCapability) (m : PortForwardMode) : bool :=
  match m with
  | Dnat => supported c
  | Redirect =>
      supported c && (PORT_FORWARDING_MODES_SCHEMA_VERSION <=? cap_schema_version c)
      && bool_decide (m ∈ cap_supported_modes c)
  | CustomAdapter =>
      (PORT_FORWARDING_POOLS_SCHEMA_VERSION <=? cap_schema_version c)
      && bool_decide (m ∈ cap_supported_modes c)
  end.
