(* ===== verification/PortForwardProofs.v ===== *)
(** Theorems on the desired state of port forwarding: the overlap tests, which
    look at neighbours after sorting, decide that no port is claimed twice; an
    accepted configuration gives every port of a family and a transport to one
    rule; port expressions and accepted pools. *)

From stdpp Require Import sorting.
From S2P Require Import Prelude RustStd Auth TagOrder TagOrderProofs Net PortForwarding.

Open Scope Z_scope.

(** * Sharing *)

Definition in_ports (p : Z) (r : PortRange) : bool := (start r <=? p) && (p <=? end_ r).

Definition range_ok (r : PortRange) : Prop := start r <= end_ r.

(** At most one position of the list satisfies the test. *)
Definition at_most_one {A} (p : A -> bool) (l : list A) : Prop := (length (List.filter p l) <= 1)%nat.

Lemma filter_Permutation {A} (p : A -> bool) (l k : list A) :
  l ≡ₚ k -> List.filter p l ≡ₚ List.filter p k.
Proof. induction 1; cbn; repeat case_match; eauto using Permutation_trans, perm_skip, perm_swap. Qed.

#[export] Instance at_most_one_proper {A} (p : A -> bool) :
  Proper ((≡ₚ) ==> iff) (at_most_one p).
Proof.
  intros l k H. unfold at_most_one. by rewrite (Permutation_length (filter_Permutation p l k H)).
Qed.

Lemma at_most_one_cons {A} (p : A -> bool) a l :
  at_most_one p (a :: l) <->
  at_most_one p l /\ (p a = true -> forall x, In x l -> p x = false).
Proof.
  unfold at_most_one. cbn. destruct (p a) eqn:E; cbn.
  - rewrite <- filter_none. destruct (List.filter p l) eqn:Ef; cbn; split.
    + intros. split; [lia|done].
    + intros. lia.
    + lia.
    + intros [_ H]. specialize (H eq_refl). done.
  - split; [done|tauto].
Qed.

Lemma at_most_one_lookup {A} (p : A -> bool) (l : list A) i j x y :
  at_most_one p l -> l !! i = Some x -> l !! j = Some y -> p x = true -> p y = true -> i = j.
Proof.
  revert i j. induction l as [|a l IH]; [done|]. intros i j (Hl & Ha)%at_most_one_cons Hi Hj Hx Hy.
  destruct i, j; cbn in *; simplify_eq; try done.
  - apply list_elem_of_lookup_2 in Hj as ?%list_elem_of_In. by rewrite (Ha Hx y) in Hy.
  - apply list_elem_of_lookup_2 in Hi as ?%list_elem_of_In. by rewrite (Ha Hy x) in Hx.
  - f_equal. by eapply IH.
Qed.

Lemma at_most_one_app {A} (p : A -> bool) (l k : list A) :
  at_most_one p (l ++ k) ->
  at_most_one p l /\ at_most_one p k /\ (forall x y, In x l -> In y k -> p x = true -> p y = false).
Proof.
  induction l as [|a l IH]; cbn.
  - intros H. split; [unfold at_most_one; cbn; lia|]. done.
  - intros (H & Ha)%at_most_one_cons. destruct (IH H) as (Hl & Hk & Hx). split.
    + apply at_most_one_cons. split; [done|]. intros ? x Hin. apply Ha; [done|]. apply in_app_iff. auto.
    + split; [done|]. intros x y [->|Hin] Hy Hp; [|by eauto]. apply Ha; [done|]. apply in_app_iff. auto.
Qed.

Lemma at_most_one_flat_map {A B} (p : B -> bool) (f : A -> list B) (l : list A) :
  at_most_one p (flat_map f l) ->
  Forall (fun a => at_most_one p (f a)) l /\
  forall i j x y a b, l !! i = Some x -> l !! j = Some y ->
    In a (f x) -> In b (f y) -> p a = true -> p b = true -> i = j.
Proof.
  induction l as [|c l IH]; cbn; [by split|]. intros (Hc & Hl & Hx)%at_most_one_app.
  destruct (IH Hl) as [Hall Hij]. split; [by constructor|].
  assert (Hin : forall i x a, l !! i = Some x -> In a (f x) -> In a (flat_map f l)).
  { intros i x a Hi Ha. apply in_flat_map. exists x. split; [|done].
    by apply list_elem_of_In, (list_elem_of_lookup_2 _ i). }
  intros i j x y a b Hi Hj Ha Hb Hpa Hpb. destruct i, j; cbn in *; simplify_eq; try done.
  - rewrite (Hx a b) in Hpb by eauto. done.
  - rewrite (Hx b a) in Hpa by eauto. done.
  - f_equal. eauto.
Qed.

(** * The sweep over neighbours *)

Section Sweep.

Context {A G : Type} `{EqDecision G} (group : A -> G) (range : A -> PortRange).
Context (le : A -> A -> Prop).
Context (valid : A -> Prop).
Hypothesis valid_range : forall x, valid x -> range_ok (range x).
(** Sorting keeps a group together, its ranges by their first port. *)
Hypothesis le_group : forall x y z,
  valid x -> valid y -> valid z -> le x y -> le y z -> group x = group z -> group y = group x.
Hypothesis le_start : forall x y, le x y -> group x = group y -> start (range x) <= start (range y).

Definition conflict (x y : A) : bool := bool_decide (group x = group y) && overlaps (range x) (range y).

Definition covers (g : G) (p : Z) (x : A) : bool := bool_decide (group x = g) && in_ports p (range x).

Lemma head_conflict_free a l :
  StronglySorted le (a :: l) -> Forall valid (a :: l) ->
  windows2_any conflict (a :: l) = false -> forall c, In c l -> conflict a c = false.
Proof.
  intros Hs Hok Hw c Hc. destruct l as [|b l]; [done|]. cbn in Hw. bools.
  destruct Hc as [->|Hc]; [done|].
  inversion Hs as [|? ? Hs' Ha]. inversion Hs' as [|? ? _ Hb]. subst.
  rewrite Forall_forall in Ha, Hb. setoid_rewrite list_elem_of_In in Ha. setoid_rewrite list_elem_of_In in Hb.
  inversion Hok as [|? ? Va Hok']. inversion Hok' as [|? ? Vb Vl]. subst.
  assert (Vc : valid c) by (rewrite List.Forall_forall in Vl; auto).
  pose proof (valid_range a Va). pose proof (valid_range b Vb). unfold range_ok, conflict, overlaps in *.
  destruct (bool_decide (group a = group c)) eqn:E; [|done]. bools.
  assert (Hg : group b = group a) by (apply (le_group a b c); auto using in_eq).
  rewrite Hg, bool_decide_true in H by done.
  pose proof (le_start a b (Ha b (in_eq _ _)) (eq_sym Hg)).
  pose proof (le_start b c (Hb c Hc) ltac:(congruence)).
  cbn in *. apply andb_false_iff. right. apply Z.leb_gt.
  apply andb_false_iff in H as [H|H]; bools; lia.
Qed.

Lemma conflict_shared x y :
  range_ok (range x) -> range_ok (range y) ->
  conflict x y = true <-> exists g p, covers g p x = true /\ covers g p y = true.
Proof.
  unfold range_ok, conflict, covers, overlaps, in_ports. intros Hx Hy. split.
  - intros H. bools. exists (group x), (Z.max (start (range x)) (start (range y))).
    rewrite !bool_decide_true by done. cbn. split; apply andb_true_intro; split; apply Z.leb_le; lia.
  - intros (g & p & H1 & H2). bools. rewrite bool_decide_true by congruence. cbn.
    apply andb_true_intro. split; apply Z.leb_le; lia.
Qed.

(** After sorting, no two neighbours conflict exactly when no port of a group is
    covered twice. *)
Lemma windows_decide l :
  StronglySorted le l -> Forall valid l ->
  windows2_any conflict l = false <-> forall g p, at_most_one (covers g p) l.
Proof.
  induction l as [|a l IH]; intros Hs Hok.
  { split; [intros _ ? ?; unfold at_most_one; cbn; lia|done]. }
  inversion Hs as [|? ? Hs0 _]; inversion Hok as [|? ? Ha0 Hr0]; subst. split.
  - intros Hw g p. apply at_most_one_cons. split.
    + apply IH; [done..|]. destruct l; [done|]. cbn in Hw. by bools.
    + intros Ha x Hx. destruct (covers g p x) eqn:E; [|done].
      assert (Hf := head_conflict_free a l Hs Hok Hw x Hx).
      assert (Hr : range_ok (range x)) by (rewrite List.Forall_forall in Hr0; auto).
      rewrite (proj2 (conflict_shared a x (valid_range a Ha0) Hr)) in Hf by eauto. done.
  - intros Hone. destruct l as [|b l]; [done|]. cbn [windows2_any]. apply orb_false_iff. split.
    + destruct (conflict a b) eqn:E; [|done]. inversion Hr0; subst.
      apply conflict_shared in E as (g & p & Ha & Hb); [|auto..].
      specialize (Hone g p). apply at_most_one_cons in Hone as [_ Hone].
      rewrite (Hone Ha b) in Hb; [done|apply in_eq].
    + apply IH; [done..|]. intros g p. by apply (at_most_one_cons _ a).
Qed.

End Sweep.

(** * Ranges and claims *)

Lemma range_cmp_le a b : range_cmp a b <> Gt <-> start a < start b \/ start a = start b /\ end_ a <= end_ b.
Proof.
  unfold range_cmp. destruct (Z.compare_spec (start a) (start b)); cbn; rewrite ?Z.compare_gt_iff;
    (split; [intros; try done; lia|intros; try done; lia]).
Qed.

#[export] Instance range_cmp_order : CmpOrder range_cmp.
Proof.
  exact (pullback_order (fun r => (start r, end_ r)) (lex_cmp Z.compare Z.compare)).
Qed.

#[export] Instance range_le_trans : Transitive range_le.
Proof. exact (cmp_le_trans range_cmp). Qed.

#[export] Instance range_le_total : Total range_le.
Proof. exact (cmp_le_total range_cmp). Qed.

(** [validate_non_overlapping] decides that no port lies in two of the ranges. *)
Lemma validate_non_overlapping_iff ranges :
  Forall range_ok ranges ->
  validate_non_overlapping ranges = Ok tt <-> forall p, at_most_one (in_ports p) ranges.
Proof.
  intros Hok. unfold validate_non_overlapping.
  pose proof (StronglySorted_merge_sort range_le ranges) as Hs.
  pose proof (merge_sort_Permutation range_le ranges) as Hp.
  assert (Hw := windows_decide (fun _ => tt) (fun r => r) range_le range_ok ltac:(auto) ltac:(auto)
    ltac:(intros x y; unfold range_le; rewrite range_cmp_le; lia) _ Hs ltac:(by rewrite Hp)).
  transitivity (forall (g : ()) p, at_most_one (covers (fun _ => tt) (fun r => r) g p) (merge_sort range_le ranges)).
  - rewrite <- Hw. change (windows2_any overlaps ?l) with (windows2_any (conflict (fun _ => tt) (fun r => r)) l).
    by destruct (windows2_any _ _).
  - split; [intros H p; specialize (H tt p)|intros H [] p; specialize (H p)]; by rewrite Hp in *.
Qed.

Definition claim_key (c : Claim) : Z * (list Z * (Z * Z)) :=
  let '(v6, t, r) := c in (Z.b2z v6, (as_bytes t, (start r, end_ r))).

#[export] Instance claim_cmp_order : CmpOrder claim_cmp.
Proof.
  pose proof (pullback_order claim_key
    (lex_cmp Z.compare (lex_cmp bytes_cmp (lex_cmp Z.compare Z.compare)))) as H.
  destruct H as [H1 H2 H3]. split.
  - intros [[] ?] [[] ?]. apply (H1 (_, _, _) (_, _, _)).
  - intros [[] ?] [[] ?] [[] ?]. apply (H2 (_, _, _) (_, _, _) (_, _, _)).
  - intros [[] ?] [[] ?] [[] ?]. apply (H3 (_, _, _) (_, _, _) (_, _, _)).
Qed.

#[export] Instance claim_le_trans : Transitive claim_le.
Proof. exact (cmp_le_trans claim_cmp). Qed.

#[export] Instance claim_le_total : Total claim_le.
Proof. exact (cmp_le_total claim_cmp). Qed.

Definition claim_group (c : Claim) : bool * str := fst c.
Definition claim_range (c : Claim) : PortRange := snd c.

Definition claim_valid (c : Claim) : Prop := range_ok (claim_range c) /\ tag_wf (snd (claim_group c)).

Lemma bool_cmp_eq a b : bool_cmp a b = Eq -> a = b.
Proof. by destruct a, b. Qed.

Lemma claim_le_first a b :
  claim_le a b -> bool_cmp (fst (claim_group a)) (fst (claim_group b)) <> Gt.
Proof.
  destruct a as [[v t] r], b as [[w u] q]. unfold claim_le. cbn.
  by destruct (bool_cmp v w).
Qed.

Lemma claim_le_second a b :
  claim_le a b -> fst (claim_group a) = fst (claim_group b) ->
  str_cmp (snd (claim_group a)) (snd (claim_group b)) <> Gt.
Proof.
  destruct a as [[v t] r], b as [[w u] q]. unfold claim_le. cbn [claim_cmp claim_group fst snd]. intros H ->.
  replace (bool_cmp w w) with Eq in H by (by destruct w). cbn in H. by destruct (str_cmp t u).
Qed.

Lemma claim_le_group x y z :
  claim_valid x -> claim_valid y -> claim_valid z -> claim_le x y -> claim_le y z ->
  claim_group x = claim_group z -> claim_group y = claim_group x.
Proof.
  intros [_ Wx] [_ Wy] _ Hxy Hyz Hg.
  assert (H1 : fst (claim_group x) = fst (claim_group y)).
  { apply claim_le_first in Hxy as F1. apply claim_le_first in Hyz as F2. rewrite <- Hg in F2.
    revert F1 F2. by destruct (fst (claim_group x)), (fst (claim_group y)). }
  pose proof (claim_le_second x y Hxy H1) as S1.
  pose proof (claim_le_second y z Hyz ltac:(congruence)) as S2. rewrite <- Hg in S2.
  apply (cmp_le_antisym bytes_cmp) in S1; [|done]. apply bytes_cmp_eq in S1.
  apply as_bytes_inj in S1; [|done..]. destruct (claim_group x), (claim_group y); cbn in *. congruence.
Qed.

Lemma claim_le_start x y :
  claim_le x y -> claim_group x = claim_group y -> start (claim_range x) <= start (claim_range y).
Proof.
  destruct x as [[v t] r], y as [[w u] q]. unfold claim_le. cbn. intros H [= -> ->].
  replace (bool_cmp w w) with Eq in H by (by destruct w).
  replace (str_cmp u u) with Eq in H by (symmetry; apply (cmp_refl bytes_cmp)). cbn in H. rewrite range_cmp_le in H. lia.
Qed.

(** * Accepted rules *)

Lemma validate_range_ok r : validate_range r = Ok tt -> start r <> 0 /\ end_ r <> 0 /\ range_ok r.
Proof.
  unfold validate_range, range_ok. destruct (_ || _) eqn:E; [done|].
  destruct (end_ r <? start r) eqn:E2; [done|]. intros _. bools. lia.
Qed.

Lemma validate_mapping_ok m r :
  validate_mapping m = Ok r ->
  r = incoming m /\ validate_range (incoming m) = Ok tt /\ validate_range (target m) = Ok tt /\
  (is_single (target m) = true \/ cardinality (target m) = cardinality (incoming m)).
Proof.
  unfold validate_mapping. intros H. inv_bind. destruct (negb _ && _) eqn:E1; [done|]. inv_bind. subst r.
  destruct a, a0. split; [done|]. split; [done|]. split; [done|].
  apply andb_false_iff in E1 as [E1|E1]; bools; auto.
Qed.

Lemma try_map_forall {E A B} (f : A -> result E B) (P : A -> Prop) l bs :
  (forall a b, f a = Ok b -> P a) -> try_map f l = Ok bs -> Forall P l.
Proof.
  intros Hf. revert bs. induction l as [|a l IH]; cbn; intros bs H; [constructor|].
  inv_bind. constructor; eauto.
Qed.

Lemma validate_mappings_ok ms :
  validate_mappings ms = Ok tt ->
  ms <> [] /\ Forall (fun m => validate_mapping m = Ok (incoming m)) ms /\
  forall p, at_most_one (in_ports p) (map incoming ms).
Proof.
  unfold validate_mappings. destruct ms as [|m ms]; [done|]. cbn [is_empty].
  destruct (_ <? _); [done|]. intros H. inv_bind. split; [done|].
  assert (Hv : Forall (fun m => validate_mapping m = Ok (incoming m)) (m :: ms)).
  { eapply try_map_forall; [|exact E]. intros x r Hx. by destruct (validate_mapping_ok x r Hx) as (-> & _). }
  split; [done|].
  assert (a = map incoming (m :: ms)) as ->.
  { clear H. revert a E. induction Hv as [|x l Hx _ IH]; intros a Ha.
    - by injection Ha as <-.
    - cbn in Ha. rewrite Hx in Ha. cbn in Ha. inv_bind. subst a. cbn. f_equal. by apply IH. }
  apply validate_non_overlapping_iff; [|done]. apply Forall_map. eapply Forall_impl; [exact Hv|].
  intros x Hx. apply validate_mapping_ok in Hx as (_ & Hx & _). by apply validate_range_ok in Hx as (_ & _ & ?).
Qed.

(** What an accepted pool guarantees of its incoming ranges. *)
Lemma validate_pool_incoming pool m p :
  validate_port_forward_pool pool m p = Ok tt ->
  Forall (fun r => validate_range r = Ok tt) (pool_incoming pool) /\
  validate_non_overlapping (pool_incoming pool) = Ok tt.
Proof.
  unfold validate_port_forward_pool. intros H. inv_bind. split.
  - eapply try_map_forall; [|exact E2]. by intros ? [].
  - by destruct a3.
Qed.

Lemma validate_rule_incoming rule :
  validate_port_forward_rule rule = Ok tt ->
  Forall (fun r => validate_range r = Ok tt) (incoming_ranges rule) /\
  forall p, at_most_one (in_ports p) (incoming_ranges rule).
Proof.
  unfold validate_port_forward_rule, incoming_ranges. destruct (is_empty _); [done|].
  destruct (_ <? _); [done|]. intros H. inv_bind. destruct (pool rule) as [pl|].
  - destruct (_ || _); [done|]. apply validate_pool_incoming in H as [H1 H2]. split; [done|].
    apply validate_non_overlapping_iff; [|done]. eapply Forall_impl; [exact H1|].
    intros r Hr. by apply validate_range_ok in Hr as (_ & _ & ?).
  - apply validate_mappings_ok in H as (_ & H & H2). split; [|done].
    apply Forall_map. eapply Forall_impl; [exact H|]. intros m Hm. by apply validate_mapping_ok in Hm as (_ & ? & _).
Qed.

Lemma transports_wf p : Forall tag_wf (transports p).
Proof. destruct p; repeat constructor; unfold tag_wf; vm_compute; repeat constructor; try lia; done. Qed.

Lemma in_rule_claims rule c :
  In c (rule_claims rule) <->
  exists family transport r,
    c = (bool_decide (family = Ipv6), transport, r) /\ In family (native_families rule) /\
    In transport (transports (protocol rule)) /\ In r (incoming_ranges rule).
Proof.
  unfold rule_claims. rewrite in_flat_map. setoid_rewrite in_flat_map. setoid_rewrite in_map_iff.
  split; [intros (f & Hf & t & Ht & r & <- & Hr)|intros (f & t & r & -> & Hf & Ht & Hr)]; eauto 10.
Qed.

Lemma rule_claims_valid rule :
  validate_port_forward_rule rule = Ok tt -> Forall claim_valid (rule_claims rule).
Proof.
  intros (Hr & _)%validate_rule_incoming. rewrite List.Forall_forall in Hr |- *.
  intros c (f & t & r & -> & _ & Ht & Hin)%in_rule_claims. split.
  - by apply validate_range_ok, Hr.
  - pose proof (transports_wf (protocol rule)) as W. rewrite List.Forall_forall in W. by apply W.
Qed.

(** The sweep over all claims decides that no port of a family and a transport is
    claimed twice. *)
Lemma validate_cross_rule_overlaps_iff rs :
  Forall (fun rule => validate_port_forward_rule rule = Ok tt) rs ->
  validate_cross_rule_overlaps rs = Ok tt <->
  forall g p, at_most_one (covers claim_group claim_range g p) (flat_map rule_claims rs).
Proof.
  intros Hrs. unfold validate_cross_rule_overlaps. set (cs := flat_map rule_claims rs).
  pose proof (StronglySorted_merge_sort claim_le cs) as Hs.
  pose proof (merge_sort_Permutation claim_le cs) as Hp.
  assert (Hv : Forall claim_valid cs).
  { apply List.Forall_forall. intros c (r & Hr & Hc)%in_flat_map. rewrite List.Forall_forall in Hrs.
    pose proof (rule_claims_valid r (Hrs r Hr)) as W. rewrite List.Forall_forall in W. by apply W. }
  assert (Hw := windows_decide claim_group claim_range claim_le claim_valid (fun c => @proj1 _ _)
    claim_le_group claim_le_start _ Hs ltac:(by rewrite Hp)).
  transitivity (windows2_any (conflict claim_group claim_range) (merge_sort claim_le cs) = false).
  - assert (Hc : forall l, windows2_any claims_conflict l = windows2_any (conflict claim_group claim_range) l).
    { intros l. induction l as [|a [|b l] IH]; [done..|]. cbn [windows2_any]. f_equal; [|done].
      destruct a as [[v t] r], b as [[w u] q]. unfold claims_conflict, conflict, claim_group. cbn. f_equal.
      apply eq_true_iff_eq. rewrite andb_true_iff, eqb_true_iff, str_eqb_eq, bool_decide_eq_true.
      naive_solver. }
    rewrite Hc. by destruct (windows2_any _ _).
  - rewrite Hw. setoid_rewrite Hp. done.
Qed.

(** * Accepted configurations *)

(** The rule's incoming range number [k] gives it the port. *)
Definition claims_port (rule : PortForwardRule) (family : PortForwardAddressFamily) (transport : str)
  (k : nat) (p : Z) : Prop :=
  In family (native_families rule) /\ In transport (transports (protocol rule)) /\
  exists r, incoming_ranges rule !! k = Some r /\ in_ports p r = true.

Lemma check_rules_ok ids ids' rs :
  try_fold check_rule ids rs = Ok ids' ->
  Forall (fun rule => validate_port_forward_rule rule = Ok tt) rs /\
  NoDup (map rule_id rs) /\ Forall (fun rule => rule_id rule ∉ ids) rs.
Proof.
  revert ids. induction rs as [|r rs IH]; intros ids; cbn; [by repeat constructor|].
  intros Hf. inv_bind. unfold check_rule in E. case_bool_decide; [done|]. inv_bind. destruct a0. subst.
  destruct (IH _ Hf) as (H1 & H2 & H3). split; [by constructor|]. rewrite List.Forall_forall in H3. split.
  - constructor; [|done]. intros (x & Hx & Hin)%list_elem_of_In%in_map_iff.
    apply (H3 x Hin). set_solver.
  - constructor; [done|]. apply List.Forall_forall. intros x Hx Hin. apply (H3 x Hx). set_solver.
Qed.

Lemma claims_once rs i j ri rj family transport k l p :
  Forall (fun rule => validate_port_forward_rule rule = Ok tt) rs ->
  (forall g q, at_most_one (covers claim_group claim_range g q) (flat_map rule_claims rs)) ->
  rs !! i = Some ri -> rs !! j = Some rj ->
  claims_port ri family transport k p -> claims_port rj family transport l p ->
  i = j /\ k = l.
Proof.
  intros Hr Hx Hi Hj (Fi & Ti & r & Hk & Pk) (Fj & Tj & q & Hl & Pl).
  specialize (Hx (bool_decide (family = Ipv6), transport) p).
  apply at_most_one_flat_map in Hx as [_ Hx].
  assert (Hc : forall rule n s, incoming_ranges rule !! n = Some s ->
    In family (native_families rule) -> In transport (transports (protocol rule)) ->
    In (bool_decide (family = Ipv6), transport, s) (rule_claims rule)).
  { intros rule n s Hn Hf Ht. apply in_rule_claims. exists family, transport, s. split; [done|].
    split; [done|]. split; [done|]. by eapply list_elem_of_In, list_elem_of_lookup_2. }
  assert (Hcov : forall s, in_ports p s = true ->
    covers claim_group claim_range (bool_decide (family = Ipv6), transport) p
      (bool_decide (family = Ipv6), transport, s) = true).
  { intros s Hs. unfold covers. by rewrite bool_decide_true. }
  assert (i = j) as <-
    by exact (Hx i j ri rj _ _ Hi Hj (Hc _ _ _ Hk Fi Ti) (Hc _ _ _ Hl Fj Tj) (Hcov r Pk) (Hcov q Pl)).
  split; [done|]. assert (ri = rj) as <- by congruence.
  rewrite Forall_lookup in Hr. apply Hr, validate_rule_incoming in Hi as [_ Hone].
  by eapply at_most_one_lookup.
Qed.

(** Custom rules claim nothing natively. *)
Lemma native_claims rs : flat_map rule_claims (List.filter is_native rs) = flat_map rule_claims rs.
Proof.
  induction rs as [|r rs IH]; [done|]. cbn. destruct (is_native r) eqn:E; cbn; [by rewrite IH|].
  rewrite IH. unfold is_native in E. bools. unfold rule_claims, native_families. by rewrite E.
Qed.

Section Config.

Context (sha256 : list Z -> list Z) (hex_encode : list Z -> str).
Context (rules_json : list PortForwardRule -> list Z).

Lemma validate_config_ok config :
  validate_port_forwarding_config sha256 hex_encode rules_json config = Ok tt ->
  Forall (fun rule => validate_port_forward_rule rule = Ok tt) (rules config) /\
  NoDup (map rule_id (rules config)) /\ vec_len (rules config) <= MAX_PORT_FORWARD_RULES /\
  estimated_nft_program_bytes (rules config) <= MAX_PORT_FORWARD_NFT_SCRIPT_BYTES /\
  validate_cross_rule_overlaps (rules config) = Ok tt.
Proof.
  unfold validate_port_forwarding_config. destruct (schema_unsupported config); [done|].
  destruct (existsb _ _); [done|]. destruct (_ <? vec_len _) eqn:El; [done|]. intros H. inv_bind.
  destruct (_ <? estimated_nft_program_bytes _) eqn:Eb; [done|]. bools.
  apply check_rules_ok in E0 as (H1 & H2 & _). done.
Qed.

(** In an accepted configuration no port of an address family and a transport is
    claimed twice: not by two rules, and not by two ranges of one rule. *)
Theorem accepted_ports_claimed_once config i j ri rj family transport k l p :
  validate_port_forwarding_config sha256 hex_encode rules_json config = Ok tt ->
  rules config !! i = Some ri -> rules config !! j = Some rj ->
  claims_port ri family transport k p -> claims_port rj family transport l p ->
  i = j /\ k = l.
Proof.
  intros (Hr & _ & _ & _ & Hx)%validate_config_ok. apply claims_once; [done|].
  by apply validate_cross_rule_overlaps_iff.
Qed.

End Config.

(** * A sample configuration *)

Definition range_ex (first last : Z) : PortRange := {| start := first; end_ := last |}.

(** TCP 80 to 8080, 443 to 443 and 1000-1002 to 2000-2002 of 10.0.0.5. *)
Definition dnat_ex : PortForwardRule := {|
  rule_id := 1; revision := 1; name := lit "web"; protocol := Tcp;
  target_ip := Some (IpV4 167772165);
  mappings := [ {| incoming := range_ex 80 80; target := range_ex 8080 8080 |};
                {| incoming := range_ex 443 443; target := range_ex 443 443 |};
                {| incoming := range_ex 1000 1002; target := range_ex 2000 2002 |} ];
  pool := None; masquerade := true; mode := Dnat; address_family := None; adapter := None |}.

(** UDP 80 of both families to the server's own port 8080. *)
Definition redirect_ex : PortForwardRule := {|
  rule_id := 2; revision := 1; name := lit "local"; protocol := Udp; target_ip := None;
  mappings := [ {| incoming := range_ex 80 80; target := range_ex 8080 8080 |} ];
  pool := None; masquerade := false; mode := Redirect; address_family := Some BothFamilies;
  adapter := None |}.

Definition upstream_ex (id ip first last weight : Z) : PortForwardUpstream := {|
  up_id := id; up_target_ip := IpV4 ip; up_target_hostname := None; up_ports := range_ex first last;
  up_weight := weight; up_role := Primary; up_enabled := true; up_failure_policy := None |}.

(** TCP 90 over two ports of 10.0.0.6, weight 2, and one of 10.0.0.7, weight 1. *)
Definition pool_ex : PortForwardPool := {|
  pool_incoming := [range_ex 90 90]; pool_strategy := RoundRobin;
  pool_upstreams := [upstream_ex 1 167772166 8000 8001 2; upstream_ex 2 167772167 8000 8000 1];
  pool_connect_timeout_secs := None; pool_retry_policy := None |}.

Definition pooled_ex : PortForwardRule := {|
  rule_id := 3; revision := 1; name := lit "pool"; protocol := Tcp; target_ip := None; mappings := [];
  pool := Some pool_ex; masquerade := true; mode := Dnat; address_family := None; adapter := None |}.

Definition hash_ex (_ : list Z) : list Z := repeat 0 32.
Definition hex_ex (bytes : list Z) : str := flat_map (fun _ => [48; 48]) bytes.
Definition json_ex (_ : list PortForwardRule) : list Z := [].

Definition config_ex : AgentPortForwardingConfig := {|
  schema_version := 3; desired_hash := repeat 48 64; rules := [dnat_ex; redirect_ex; pooled_ex];
  cleanup_rules := []; native_cleanup_pending := false |}.

Lemma config_ex_valid : validate_port_forwarding_config hash_ex hex_ex json_ex config_ex = Ok tt.
Proof. vm_compute. reflexivity. Qed.

(** UDP 80 of IPv4 is claimed by the second rule alone. *)
Lemma accepted_ports_claimed_once_witness :
  validate_port_forwarding_config hash_ex hex_ex json_ex config_ex = Ok tt /\
  (1%nat = 1%nat /\ 0%nat = 0%nat).
Proof.
  split; [exact config_ex_valid|].
  assert (Hc : claims_port redirect_ex Ipv4 (lit "udp") 0 80).
  { split; [by left|]. split; [by left|]. by exists (range_ex 80 80). }
  exact (accepted_ports_claimed_once hash_ex hex_ex json_ex config_ex 1 1 redirect_ex redirect_ex Ipv4
    (lit "udp") 0 0 80 config_ex_valid eq_refl eq_refl Hc Hc).
Defined.
