(* ===== verification/NftRender.v ===== *)
(** The nftables program of a port-forwarding configuration:
    crates/agent/src/network/port_forwarding.rs (rendering) and
    port_forwarding_pools.rs.

    A text is built by appending; where the source keeps a [first] flag and writes
    the separator before every element but the first, the model joins the list of
    elements.  [expect], [unreachable!] and indexing past the end are the value
    [RenderPanic].  The text of a UUID is an argument. *)

From S2P Require Import Prelude RustStd Auth Net PortForwarding.

Open Scope Z_scope.

Inductive RenderError :=
| InvalidDesiredState (error : PortForwardValidationError)
| ProgramExceedsLimit
| RenderPanic.

Definition nl : str := [10].
Definition quote : str := [34].

(** * Names and elements *)

Definition render_port_range (first last : Z) : str :=
  if first =? last then to_string first else to_string first ++ lit "-" ++ to_string last.

Definition dispatch_map_name (nfproto transport : str) : str :=
  lit "pf_dispatch_" ++ nfproto ++ lit "_" ++ transport.

Definition rule_chain_name (rule_index : Z) (transport : str) : str :=
  lit "pf_rule_" ++ to_string rule_index ++ lit "_" ++ transport.

Definition fixed_map_name (rule_index : Z) (transport : str) : str :=
  lit "pf_" ++ to_string rule_index ++ lit "_" ++ transport ++ lit "_fixed".

Definition shifted_map_name (rule_index : Z) (transport : str) : str :=
  lit "pf_" ++ to_string rule_index ++ lit "_" ++ transport ++ lit "_shift".

Definition render_target_ip (ip : IpAddr) : str * str :=
  match ip with
  | IpV4 v => (lit "ip", format_ipv4 v)
  | IpV6 v => (lit "ip6", lit "[" ++ format_ipv6 v ++ lit "]")
  end.

Definition mapping_is_identity (m : PortForwardMapping) : bool := bool_decide (incoming m = target m).
Definition mapping_is_fixed (m : PortForwardMapping) : bool :=
  is_single (target m) && negb (mapping_is_identity m).
Definition mapping_is_shifted (m : PortForwardMapping) : bool :=
  negb (is_single (target m)) && negb (mapping_is_identity m).

Definition rule_has_nfproto (rule : PortForwardRule) (nfproto : str) : bool :=
  bool_decide ((if str_eqb nfproto (lit "ipv4") then Ipv4 else Ipv6) ∈ native_families rule).

Definition dispatches_to (rule : PortForwardRule) (d : str * str) : bool :=
  rule_has_nfproto rule (fst d) && bool_decide (snd d ∈ transports (protocol rule)).

Definition populated_dispatches (rs : list PortForwardRule) : list (str * str) :=
  List.filter (fun d => existsb (fun rule => dispatches_to rule d) rs)
    [(lit "ipv4", lit "tcp"); (lit "ipv4", lit "udp"); (lit "ipv6", lit "tcp"); (lit "ipv6", lit "udp")].

(** [iter().enumerate()]. *)
Definition enumerate {A} (l : list A) : list (Z * A) := imap (fun i x => (Z.of_nat i, x)) l.

(** [first..=last] and [0..n]. *)
Definition ports_of (r : PortRange) : list Z := seqZ (start r) (end_ r - start r + 1).

(** * Dispatch maps *)

(** The elements of a dispatch map: ports and the rule they jump to. *)
Definition dispatch_elements (rs : list PortForwardRule) (d : str * str) : list (PortRange * Z) :=
  flat_map (fun '(rule_index, rule) =>
              if dispatches_to rule d
              then map (fun r => (r, rule_index)) (incoming_ranges rule) else [])
    (enumerate rs).

Definition render_dispatch_element (transport : str) (e : PortRange * Z) : str :=
  render_port_range (start (fst e)) (end_ (fst e)) ++ lit " : jump " ++
  rule_chain_name (snd e) transport.

Definition render_dispatch_map (rs : list PortForwardRule) (d : str * str) : str :=
  lit "  map " ++ dispatch_map_name (fst d) (snd d) ++ lit " {" ++ nl ++
  lit "    type inet_service : verdict" ++ nl ++ lit "    flags interval" ++ nl ++
  lit "    elements = { " ++
  join (lit ", ") (map (render_dispatch_element (snd d)) (dispatch_elements rs d)) ++
  lit " }" ++ nl ++ lit "  }" ++ nl.

Definition render_dispatch_maps (rs : list PortForwardRule) : str :=
  concat (map (render_dispatch_map rs) (populated_dispatches rs)).

(** * Translation maps *)

(** The map of a rule's mappings to one port each. *)
Definition fixed_elements (rule : PortForwardRule) : list (PortRange * Z) :=
  map (fun m => (incoming m, start (target m))) (List.filter mapping_is_fixed (mappings rule)).

(** The map of its shifted ranges, port by port. *)
Definition shifted_elements (rule : PortForwardRule) : list (Z * Z) :=
  flat_map (fun m => map (fun offset => (start (incoming m) + offset, start (target m) + offset))
                       (seqZ 0 (cardinality (incoming m))))
    (List.filter mapping_is_shifted (mappings rule)).

Definition render_fixed_element (e : PortRange * Z) : str :=
  render_port_range (start (fst e)) (end_ (fst e)) ++ lit " : " ++ to_string (snd e).
Definition render_shifted_element (e : Z * Z) : str :=
  to_string (fst e) ++ lit " : " ++ to_string (snd e).

Definition render_fixed_map (rule_index : Z) (rule : PortForwardRule) (transport : str) : str :=
  if existsb mapping_is_fixed (mappings rule) then
    lit "  map " ++ fixed_map_name rule_index transport ++ lit " {" ++ nl ++
    lit "    type inet_service : inet_service" ++ nl ++ lit "    flags interval" ++ nl ++
    lit "    elements = { " ++ join (lit ", ") (map render_fixed_element (fixed_elements rule)) ++
    lit " }" ++ nl ++ lit "  }" ++ nl
  else [].

Definition render_shifted_map (rule_index : Z) (rule : PortForwardRule) (transport : str) : str :=
  if existsb mapping_is_shifted (mappings rule) then
    lit "  map " ++ shifted_map_name rule_index transport ++ lit " {" ++ nl ++
    lit "    type inet_service : inet_service" ++ nl ++
    lit "    elements = { " ++ join (lit ", ") (map render_shifted_element (shifted_elements rule)) ++
    lit " }" ++ nl ++ lit "  }" ++ nl
  else [].

(** * Pools *)

(** An interval of the selector and the endpoint it picks. *)
Record PoolElement := { slot_first : Z; slot_last : Z; slot_ip : IpAddr; slot_port : Z }.

(** The elements of one row from the selector value [first] on, and the next. *)
Fixpoint row_elements (first weight : Z) (ip : IpAddr) (ports : list Z) : list PoolElement * Z :=
  match ports with
  | [] => ([], first)
  | port :: ports' =>
      let last := first + weight - 1 in
      let '(es, next) := row_elements (last + 1) weight ip ports' in
      ({| slot_first := first; slot_last := last; slot_ip := ip; slot_port := port |} :: es, next)
  end.

Fixpoint rows_elements (first : Z) (rows : list PortForwardUpstream) : list PoolElement :=
  match rows with
  | [] => []
  | row :: rows' =>
      let '(es, next) := row_elements first (up_weight row) (up_target_ip row) (ports_of (up_ports row)) in
      es ++ rows_elements next rows'
  end.

Definition pool_elements (p : PortForwardPool) : list PoolElement :=
  rows_elements 0 (List.filter up_enabled (pool_upstreams p)).

Definition render_pool_element (e : PoolElement) : str :=
  (if slot_first e =? slot_last e then to_string (slot_first e)
   else to_string (slot_first e) ++ lit "-" ++ to_string (slot_last e)) ++
  lit " : " ++ format_ip_addr (slot_ip e) ++ lit " . " ++ to_string (slot_port e).

(** [if pool.upstreams[0].target_ip.is_ipv4() { "ip" } else { "ip6" }]. *)
Definition pool_family (p : PortForwardPool) : result RenderError str :=
  match pool_upstreams p with
  | row :: _ => Ok (if is_ipv4 (up_target_ip row) then lit "ip" else lit "ip6")
  | [] => Err RenderPanic
  end.

Definition render_map (index : Z) (p : PortForwardPool) : result RenderError str :=
  family ← pool_family p;
  Ok (lit "  map pf_" ++ to_string index ++ lit "_pool {" ++ nl ++
      lit "    typeof numgen inc mod 1 : " ++ family ++ lit " daddr . tcp dport" ++ nl ++
      lit "    flags interval" ++ nl ++ lit "    elements = { " ++
      join (lit ", ") (map render_pool_element (pool_elements p)) ++
      lit " }" ++ nl ++ lit "  }" ++ nl).

(** The number of selector values. *)
Definition pool_total (p : PortForwardPool) : Z :=
  foldr Z.add 0 (map (fun row => up_weight row * cardinality (up_ports row))
                   (List.filter up_enabled (pool_upstreams p))).

(** The first four bytes of the rule's id, big-endian. *)
Definition affinity_seed (rule_id : Z) : Z := rule_id / 2 ^ 96.

Definition render_selector (rule : PortForwardRule) (p : PortForwardPool) (family : str) :
  result RenderError str :=
  let total := to_string (pool_total p) in
  match pool_strategy p with
  | RoundRobin => Ok (lit "numgen inc mod " ++ total)
  | Random => Ok (lit "numgen random mod " ++ total)
  | SourceIpHash =>
      Ok (lit "jhash " ++ family ++ lit " saddr mod " ++ total ++ lit " seed " ++
          to_string (affinity_seed (rule_id rule)))
  | _ => Err RenderPanic
  end.

Definition render_translation (index : Z) (rule : PortForwardRule) (p : PortForwardPool)
  (transport : str) : result RenderError str :=
  family ← pool_family p;
  selector ← render_selector rule p family;
  Ok (lit "    meta l4proto " ++ transport ++ lit " dnat " ++ family ++ lit " addr . port to " ++
      selector ++ lit " map @pf_" ++ to_string index ++ lit "_pool" ++ nl).

Definition render_rule_maps (e : Z * PortForwardRule) : result RenderError str :=
  let '(rule_index, rule) := e in
  match pool rule with
  | Some p => render_map rule_index p
  | None =>
      Ok (concat (map (fun transport =>
            render_fixed_map rule_index rule transport ++ render_shifted_map rule_index rule transport)
            (transports (protocol rule))))
  end.

Definition render_translation_maps (rs : list PortForwardRule) : result RenderError str :=
  parts ← try_map render_rule_maps (enumerate rs); Ok (concat parts).

(** * Chains *)

Definition render_dispatch_line (d : str * str) : str :=
  lit "    meta nfproto " ++ fst d ++ lit " " ++ snd d ++ lit " dport vmap @" ++
  dispatch_map_name (fst d) (snd d) ++ nl.

Definition render_dispatch_chain (rs : list PortForwardRule) : str :=
  lit "  chain pf_dispatch {" ++ nl ++ concat (map render_dispatch_line (populated_dispatches rs)) ++
  lit "  }" ++ nl.

(** The NAT statement of the rule's mode and how it names the port. *)
Definition translation_of (rule : PortForwardRule) : result RenderError (str * str) :=
  match mode rule with
  | Dnat =>
      ip ← ok_or (target_ip rule) RenderPanic;
      let '(family, text) := render_target_ip ip in
      Ok (lit "dnat " ++ family ++ lit " to " ++ text, lit " :")
  | Redirect => Ok (lit "redirect", lit " to :")
  | CustomAdapter => Err RenderPanic
  end.

Definition identity_ranges (rule : PortForwardRule) : list PortRange :=
  map incoming (List.filter mapping_is_identity (mappings rule)).

Definition render_identity (rule : PortForwardRule) (transport translation : str) : str :=
  if is_empty (identity_ranges rule) then []
  else
    lit "    " ++ transport ++ lit " dport { " ++
    join (lit ", ") (map (fun r => render_port_range (start r) (end_ r)) (identity_ranges rule)) ++
    lit " } " ++ translation ++ nl.

Definition render_map_use (transport translation destination map_name : str) : str :=
  lit "    meta l4proto " ++ transport ++ lit " " ++ translation ++ destination ++ lit " " ++
  transport ++ lit " dport map @" ++ map_name ++ nl.

Section Rendering.

Context (uuid_text : Z -> str).

Definition render_chain_head (rule_index : Z) (rule : PortForwardRule) (transport : str) : str :=
  lit "  chain " ++ rule_chain_name rule_index transport ++ lit " {" ++ nl ++ lit "    counter" ++
  (if masquerade rule then lit " add @owned_flows { ct id timeout 2m }" else []) ++
  lit " comment " ++ quote ++ lit "vpsman-rule:" ++ uuid_text (rule_id rule) ++ lit ":" ++
  to_string (revision rule) ++ quote ++ nl.

Definition render_chain_body (rule_index : Z) (rule : PortForwardRule) (transport : str) :
  result RenderError str :=
  match pool rule with
  | Some p => render_translation rule_index rule p transport
  | None =>
      '(translation, destination) ← translation_of rule;
      Ok (render_identity rule transport translation ++
          (if existsb mapping_is_fixed (mappings rule)
           then render_map_use transport translation destination (fixed_map_name rule_index transport)
           else []) ++
          (if existsb mapping_is_shifted (mappings rule)
           then render_map_use transport translation destination (shifted_map_name rule_index transport)
           else []))
  end.

Definition render_rule_chain (rule_index : Z) (rule : PortForwardRule) (transport : str) :
  result RenderError str :=
  body ← render_chain_body rule_index rule transport;
  Ok (render_chain_head rule_index rule transport ++ body ++ lit "  }" ++ nl).

Definition render_rule_chains (rs : list PortForwardRule) : result RenderError str :=
  parts ← try_map (fun '(rule_index, rule) =>
            texts ← try_map (render_rule_chain rule_index rule) (transports (protocol rule));
            Ok (concat texts)) (enumerate rs);
  Ok (concat parts).

(** * The program *)

Context (sha256 : list Z -> list Z) (hex_encode : list Z -> str).
Context (rules_json : list PortForwardRule -> list Z).

Definition native_hash (rs : list PortForwardRule) : str :=
  if is_empty rs then [] else port_forwarding_desired_hash sha256 hex_encode rules_json rs.

(** The configuration without its custom rules. *)
Definition native_config (config : AgentPortForwardingConfig) : AgentPortForwardingConfig :=
  let rs := List.filter is_native (rules config) in
  {| schema_version :=
       match map required_schema_version rs with
       | [] => 1
       | v :: vs => foldl Z.max v vs
       end;
     desired_hash := native_hash rs;
     rules := rs;
     cleanup_rules := cleanup_rules config_default;
     native_cleanup_pending := native_cleanup_pending config_default |}.

Definition hook_chain (chain : str) : str :=
  lit "  chain " ++ chain ++ lit " {" ++ nl ++ lit "    type nat hook " ++ chain ++
  lit " priority -110; policy accept;" ++ nl ++ lit "    fib daddr type local jump pf_dispatch" ++ nl ++
  lit "  }" ++ nl.

Definition delete_line : str := lit "delete table inet vpsman_port_forward" ++ nl.

Definition table_head (hash : str) : str :=
  lit "table inet vpsman_port_forward {" ++ nl ++ lit "  comment " ++ quote ++
  lit "vpsman-owned desired=" ++ hash ++ quote ++ nl.

Definition ownership_set : str :=
  lit "  set vpsman_ownership_v1 {" ++ nl ++ lit "    type mark" ++ nl ++
  lit "    elements = { 0x5650534d }" ++ nl ++ lit "  }" ++ nl.

Definition owned_flows_set : str :=
  lit "  set owned_flows {" ++ nl ++ lit "    typeof ct id" ++ nl ++
  lit "    flags dynamic,timeout" ++ nl ++ lit "    timeout 2m" ++ nl ++ lit "    size 262144" ++ nl ++
  lit "  }" ++ nl.

Definition postrouting_chain : str :=
  lit "  chain postrouting {" ++ nl ++
  lit "    type nat hook postrouting priority 90; policy accept;" ++ nl ++
  lit "    ct id @owned_flows counter masquerade comment " ++ quote ++ lit "vpsman-owned-return" ++
  quote ++ nl ++ lit "  }" ++ nl.

(** The table's text for the native configuration. *)
Definition render_table (config : AgentPortForwardingConfig) : result RenderError str :=
  let rs := rules config in
  let masqueraded := existsb masquerade rs in
  maps ← render_translation_maps rs;
  chains ← render_rule_chains rs;
  Ok (table_head (desired_hash config) ++ ownership_set ++
      (if masqueraded then owned_flows_set else []) ++
      render_dispatch_maps rs ++ maps ++
      hook_chain (lit "prerouting") ++ hook_chain (lit "output") ++
      render_dispatch_chain rs ++ chains ++
      (if masqueraded then postrouting_chain else []) ++ lit "}" ++ nl).

Definition render_apply_script (config : AgentPortForwardingConfig) (table_exists : bool) :
  result RenderError str :=
  _ ← map_err InvalidDesiredState
        (validate_port_forwarding_config sha256 hex_encode rules_json config);
  let native := native_config config in
  let script := if table_exists then delete_line else [] in
  if is_empty (rules native) then Ok script
  else
    table ← render_table native;
    let script := script ++ table in
    if MAX_PORT_FORWARD_NFT_SCRIPT_BYTES <? str_len script then Err ProgramExceedsLimit
    else Ok script.

End Rendering.
