(* ===== verification/NftProofs.v ===== *)
(** The elements of the rendered maps.

    [dispatch] and [translate_port] look a port up in the elements the way nftables
    looks a key up in a map; the lemmas relate the results to the operator's rules.
    [NftProgramProofs] shows that running the rendered program comes to these
    lookups.  At the end, port expressions and their texts. *)

From S2P Require Import Prelude RustStd Auth TagOrder TagOrderProofs VpsDecimal Net PortForwarding PortForwardProofs NftRender.

Open Scope Z_scope.

(** * Values at their width *)

Definition range_typed (r : PortRange) : Prop := 0 <= start r <= u16_max /\ 0 <= end_ r <= u16_max.
Definition mapping_typed (m : PortForwardMapping) : Prop :=
  range_typed (incoming m) /\ range_typed (target m).
Definition upstream_typed (row : PortForwardUpstream) : Prop :=
  range_typed (up_ports row) /\ ip_wf (up_target_ip row) /\ 0 <= up_weight row <= u32_max.
Definition rule_typed (rule : PortForwardRule) : Prop :=
  0 <= rule_id rule <= u128_max /\ i64_min <= revision rule <= i64_max /\
  (forall ip, target_ip rule = Some ip -> ip_wf ip) /\
  Forall mapping_typed (mappings rule) /\
  (forall p, pool rule = Some p -> Forall range_typed (pool_incoming p) /\ Forall upstream_typed (pool_upstreams p)).

Lemma cardinality_exact r : range_typed r -> range_ok r -> cardinality r = end_ r - start r + 1.
Proof. unfold range_typed, range_ok, cardinality, u16_max. intros. apply Z.mod_small. lia. Qed.

(** * Lookups *)

Definition interval_lookup {V} (p : Z) (es : list (PortRange * V)) : option V :=
  snd <$> List.find (fun e => in_ports p (fst e)) es.
Definition key_lookup {V} (p : Z) (es : list (Z * V)) : option V :=
  snd <$> List.find (fun e => p =? fst e) es.

(** The rule a packet of the family and transport [d] jumps to. *)
Definition dispatch (rs : list PortForwardRule) (d : str * str) (p : Z) : option Z :=
  interval_lookup p (dispatch_elements rs d).

(** The port the rule's chain translates [p] to: the identity set, then the fixed
    map, then the shifted map; no statement applies otherwise. *)
Definition translate_port (rule : PortForwardRule) (p : Z) : option Z :=
  if existsb (in_ports p) (identity_ranges rule) then Some p
  else match interval_lookup p (fixed_elements rule) with
       | Some q => Some q
       | None => key_lookup p (shifted_elements rule)
       end.

(** The port a mapping means. *)
Definition mapped_port (m : PortForwardMapping) (p : Z) : Z :=
  if is_single (target m) then start (target m) else start (target m) + (p - start (incoming m)).

Lemma find_unique {A} (f : A -> bool) (l : list A) x :
  at_most_one f l -> In x l -> f x = true -> List.find f l = Some x.
Proof.
  induction l as [|a l IH]; [done|]. intros (Hl & Ha)%at_most_one_cons Hin Hx. cbn.
  destruct (f a) eqn:E.
  - destruct Hin as [->|Hin]; [done|]. by rewrite (Ha eq_refl x Hin) in Hx.
  - destruct Hin as [->|Hin]; [congruence|]. auto.
Qed.

Lemma find_no {A} (f : A -> bool) (l : list A) :
  (forall x, In x l -> f x = false) -> List.find f l = None.
Proof.
  intros H. destruct (List.find f l) eqn:E; [|done]. apply find_some in E as [Hin Hf].
  by rewrite H in Hf.
Qed.

Lemma at_most_one_map {A B} (f : B -> bool) (g : A -> B) (l : list A) :
  at_most_one f (map g l) <-> at_most_one (fun a => f (g a)) l.
Proof.
  induction l as [|a l IH]; cbn [map]; [done|]. rewrite !at_most_one_cons, IH. setoid_rewrite in_map_iff.
  naive_solver.
Qed.

Lemma at_most_one_filter {A} (f g : A -> bool) (l : list A) :
  at_most_one f l -> at_most_one f (List.filter g l).
Proof.
  induction l as [|a l IH]; [done|]. intros (Hl & Ha)%at_most_one_cons. cbn.
  destruct (g a); [|auto]. apply at_most_one_cons. split; [auto|]. intros E x Hx.
  apply Ha; [done|]. by apply filter_In in Hx as [? _].
Qed.

(** * Mappings *)

Definition disjoint_mappings (ms : list PortForwardMapping) : Prop :=
  forall p, at_most_one (fun m => in_ports p (incoming m)) ms.

Lemma same_mapping ms m m' p :
  disjoint_mappings ms -> In m ms -> In m' ms -> in_ports p (incoming m) = true ->
  in_ports p (incoming m') = true -> m = m'.
Proof.
  intros Hd Hm Hm' Hp Hp'. pose proof (find_unique _ _ _ (Hd p) Hm Hp) as H1.
  pose proof (find_unique _ _ _ (Hd p) Hm' Hp') as H2. congruence.
Qed.

Lemma in_identity_ranges rule r :
  In r (identity_ranges rule) <-> exists m, In m (mappings rule) /\ mapping_is_identity m = true /\ incoming m = r.
Proof. unfold identity_ranges. rewrite in_map_iff. setoid_rewrite filter_In. naive_solver. Qed.

Lemma in_fixed_elements rule r q :
  In (r, q) (fixed_elements rule) <->
  exists m, In m (mappings rule) /\ mapping_is_fixed m = true /\ incoming m = r /\ start (target m) = q.
Proof. unfold fixed_elements. rewrite in_map_iff. setoid_rewrite filter_In. naive_solver. Qed.

Lemma in_shifted_elements rule p q :
  In (p, q) (shifted_elements rule) <->
  exists m o, In m (mappings rule) /\ mapping_is_shifted m = true /\ 0 <= o < cardinality (incoming m) /\
    p = start (incoming m) + o /\ q = start (target m) + o.
Proof.
  unfold shifted_elements. rewrite in_flat_map. setoid_rewrite in_map_iff. setoid_rewrite filter_In.
  setoid_rewrite <- list_elem_of_In. setoid_rewrite elem_of_seqZ. split.
  - intros (m & [Hm Hs] & o & [= <- <-] & Ho). exists m, o. repeat split; try done; lia.
  - intros (m & o & Hm & Hs & Ho & -> & ->). exists m. split; [done|]. exists o. split; [done|]. lia.
Qed.

Lemma existsb_none {A} (f : A -> bool) l : (forall x, In x l -> f x = false) -> existsb f l = false.
Proof. induction l as [|a l IH]; cbn; [done|]. intros H. rewrite (H a), IH; auto. Qed.

Lemma find_some_eq {A} (f : A -> bool) (l : list A) x :
  In x l -> f x = true -> (forall y, In y l -> f y = true -> y = x) -> List.find f l = Some x.
Proof.
  intros Hin Hx Hu. destruct (List.find f l) as [y|] eqn:E.
  - apply find_some in E as [Hy Hf]. by rewrite (Hu y).
  - by rewrite (find_none _ _ E x Hin) in Hx.
Qed.

Section Translation.

Context (rule : PortForwardRule).
Hypothesis Hdis : disjoint_mappings (mappings rule).
Hypothesis Hty : Forall (fun m => range_typed (incoming m) /\ range_ok (incoming m)) (mappings rule).

Lemma shifted_lookup m p :
  In m (mappings rule) -> in_ports p (incoming m) = true -> mapping_is_shifted m = true ->
  key_lookup p (shifted_elements rule) = Some (start (target m) + (p - start (incoming m))).
Proof.
  intros Hm Hp Hs. rewrite List.Forall_forall in Hty. destruct (Hty m Hm) as [T O].
  unfold key_lookup. rewrite (find_some_eq _ _ (p, start (target m) + (p - start (incoming m)))); [done|..].
  - apply in_shifted_elements. exists m, (p - start (incoming m)). rewrite cardinality_exact by done.
    unfold in_ports in Hp. bools. repeat split; try done; lia.
  - apply Z.eqb_refl.
  - intros [p' q'] (m' & o & Hm' & _ & Ho & -> & ->)%in_shifted_elements Heq. cbn in Heq. bools. subst p.
    destruct (Hty m' Hm') as [T' O']. rewrite cardinality_exact in Ho by done.
    assert (m = m') as <-; [|f_equal; lia]. apply (same_mapping _ m m' _ Hdis Hm Hm' Hp).
    unfold in_ports. apply andb_true_intro. split; apply Z.leb_le; lia.
Qed.

(** The three statements of the chain together send every port where its mapping
    says. *)
Lemma translate_covered m p :
  In m (mappings rule) -> in_ports p (incoming m) = true ->
  translate_port rule p = Some (mapped_port m p).
Proof.
  intros Hm Hp. unfold translate_port, mapped_port.
  assert (Huniq : forall m', In m' (mappings rule) -> in_ports p (incoming m') = true -> m' = m)
    by (intros; by apply (same_mapping (mappings rule) _ _ p)).
  destruct (mapping_is_identity m) eqn:Ei.
  { rewrite (proj2 (existsb_exists _ _)).
    2: { exists (incoming m). split; [|done]. apply in_identity_ranges. eauto. }
    unfold mapping_is_identity in Ei. bools. unfold is_single, in_ports in *. bools.
    destruct (_ =? _) eqn:Es; bools; f_equal; rewrite Ei in *; lia. }
  rewrite existsb_none.
  2: { intros r (m' & Hm' & Hi & <-)%in_identity_ranges. destruct (in_ports p (incoming m')) eqn:E; [|done].
       rewrite (Huniq m' Hm' E) in Hi. congruence. }
  destruct (is_single (target m)) eqn:Es.
  - unfold interval_lookup. rewrite (find_some_eq _ _ (incoming m, start (target m))); [done|..|done|].
    + apply in_fixed_elements. exists m. unfold mapping_is_fixed. by rewrite Es, Ei.
    + intros [r q] (m' & Hm' & _ & <- & <-)%in_fixed_elements E. by rewrite (Huniq m' Hm' E).
  - unfold interval_lookup. rewrite find_no; cbn.
    + apply shifted_lookup; [done..|]. unfold mapping_is_shifted. by rewrite Es, Ei.
    + intros [r q] (m' & Hm' & Hf & <- & _)%in_fixed_elements. cbn.
      destruct (in_ports p (incoming m')) eqn:E; [|done]. rewrite (Huniq m' Hm' E) in Hf.
      unfold mapping_is_fixed in Hf. rewrite Es in Hf. done.
Qed.

End Translation.

(** * Dispatch *)

Definition family_of (nfproto : str) : PortForwardAddressFamily :=
  if str_eqb nfproto (lit "ipv4") then Ipv4 else Ipv6.

Lemma in_enumerate {A} (l : list A) i x : In (i, x) (enumerate l) <-> 0 <= i /\ l !! Z.to_nat i = Some x.
Proof.
  unfold enumerate. rewrite <- list_elem_of_In, elem_of_lookup_imap. split.
  - intros (n & y & [= -> ->] & Hy). rewrite Nat2Z.id. split; [lia|done].
  - intros [Hi Hx]. exists (Z.to_nat i), x. split; [|done]. f_equal. lia.
Qed.

Lemma in_dispatch_elements rs d r i :
  In (r, i) (dispatch_elements rs d) <->
  exists rule, 0 <= i /\ rs !! Z.to_nat i = Some rule /\ dispatches_to rule d = true /\
    In r (incoming_ranges rule).
Proof.
  unfold dispatch_elements. rewrite in_flat_map. split.
  - intros ([j rule] & [Hj Hl]%in_enumerate & Hin). destruct (dispatches_to rule d) eqn:E; [|done].
    apply in_map_iff in Hin as (q & [= -> ->] & Hq). eauto 10.
  - intros (rule & Hi & Hl & Hd & Hr). exists (i, rule). rewrite in_enumerate. split; [done|].
    rewrite Hd. apply in_map_iff. eauto.
Qed.

Lemma dispatches_claims rule d k r p :
  dispatches_to rule d = true -> incoming_ranges rule !! k = Some r -> in_ports p r = true ->
  claims_port rule (family_of (fst d)) (snd d) k p.
Proof.
  unfold dispatches_to, rule_has_nfproto, claims_port, family_of. intros H Hk Hp. bools.
  rewrite <- !list_elem_of_In. eauto.
Qed.

Section Packets.

Context (uuid_text : Z -> str) (sha256 : list Z -> list Z) (hex_encode : list Z -> str).
Context (rules_json : list PortForwardRule -> list Z).

Abbreviation validate := (validate_port_forwarding_config sha256 hex_encode rules_json).
Abbreviation native := (native_config sha256 hex_encode rules_json).

Lemma native_rules_valid config :
  validate config = Ok tt ->
  Forall (fun rule => validate_port_forward_rule rule = Ok tt) (rules (native config)) /\
  Forall (fun rule => is_native rule = true) (rules (native config)) /\
  (forall g q, at_most_one (covers claim_group claim_range g q) (flat_map rule_claims (rules (native config)))).
Proof.
  intros (Hr & _ & _ & _ & Hx)%validate_config_ok. cbn [native_config rules].
  split; [|split].
  - rewrite List.Forall_forall in Hr |- *. intros x [Hin _]%filter_In. auto.
  - apply List.Forall_forall. by intros x [_ ?]%filter_In.
  - rewrite native_claims. by apply validate_cross_rule_overlaps_iff.
Qed.

(** A packet jumps to the rule that claims its port, and to no rule when none
    does. *)
Lemma dispatch_iff config d p i :
  validate config = Ok tt ->
  dispatch (rules (native config)) d p = Some i <->
  exists rule, 0 <= i /\ rules (native config) !! Z.to_nat i = Some rule /\
    dispatches_to rule d = true /\ existsb (in_ports p) (incoming_ranges rule) = true.
Proof.
  intros Hv. destruct (native_rules_valid config Hv) as (Hr & _ & Hx). unfold dispatch, interval_lookup. split.
  - destruct (List.find _ _) as [[r j]|] eqn:E; [|done]. intros [= <-]. cbn.
    apply find_some in E as [(rule & Hj & Hl & Hd & Hin)%in_dispatch_elements Hp].
    exists rule. repeat split; try done. apply existsb_exists. eauto.
  - intros (rule & Hi & Hl & Hd & (r & Hin & Hp)%existsb_exists).
    apply list_elem_of_In, list_elem_of_lookup_1 in Hin as [k Hk].
    rewrite (find_some_eq _ _ (r, i)); [done|..|done|].
    + apply in_dispatch_elements. exists rule. repeat split; try done.
      by eapply list_elem_of_In, list_elem_of_lookup_2.
    + intros [r' j] (rule' & Hj & Hl' & Hd' & Hin')%in_dispatch_elements Hp'. cbn in Hp'.
      apply list_elem_of_In, list_elem_of_lookup_1 in Hin' as [k' Hk'].
      destruct (claims_once _ _ _ _ _ _ _ _ _ p Hr Hx Hl' Hl
        (dispatches_claims _ _ _ _ _ Hd' Hk' Hp') (dispatches_claims _ _ _ _ _ Hd Hk Hp)) as [Hij Hkk].
      assert (j = i) as -> by lia. simplify_eq. done.
Qed.

End Packets.

Lemma range_ex_typed first last :
  0 <= first <= u16_max -> 0 <= last <= u16_max -> range_typed (range_ex first last).
Proof. by split. Qed.

Lemma ipv4_ex_wf v : 0 <= v < 2 ^ 32 -> ip_wf (IpV4 v).
Proof. done. Qed.

Lemma config_ex_typed : Forall rule_typed (rules config_ex).
Proof.
  assert (Hr : forall f l, 0 <= f <= 65535 -> 0 <= l <= 65535 -> range_typed (range_ex f l))
    by (intros; by apply range_ex_typed).
  repeat apply Forall_cons_2; [..|apply Forall_nil_2];
    (split; [cbn; unfold u128_max; lia|]); (split; [cbn; unfold i64_min, i64_max; lia|]);
    (split; [intros ip; cbn; try done; intros [= <-]; apply ipv4_ex_wf; lia|]).
  1,2: split; [|done]; cbn [mappings dnat_ex redirect_ex]; repeat apply Forall_cons_2; [..|apply Forall_nil_2];
    split; apply Hr; lia.
  split; [apply Forall_nil_2|]. cbn [pool pooled_ex]. intros p [= <-].
  split; cbn [pool_incoming pool_upstreams pool_ex]; repeat apply Forall_cons_2; try apply Forall_nil_2; [apply Hr; lia|..].
  all: split; [apply Hr; lia|]; split; [apply ipv4_ex_wf; lia|cbn; unfold u32_max; lia].
Qed.

(** * Port expressions

    Which lists of ranges they denote, and that every such list has a text that parses
    back to it. *)

Definition port_range_valid (r : PortRange) : Prop := 1 <= start r <= end_ r /\ end_ r <= u16_max.

(** What a port expression can denote. *)
Definition denotable (ranges : list PortRange) : Prop :=
  ranges <> [] /\ vec_len ranges <= MAX_PORT_FORWARD_MAPPINGS /\ Forall port_range_valid ranges /\
  forall p, at_most_one (in_ports p) ranges.

Definition expression_text (ranges : list PortRange) : str :=
  join (lit ",") (map (fun r => render_port_range (start r) (end_ r)) ranges).

(** * Reading an item *)

Lemma parse_port_bounds value item v : parse_port value item = Ok v -> 0 <= v <= u16_max.
Proof. unfold parse_port. intros H. inv_bind. subst. by eapply parse_unsigned_bounds. Qed.

Lemma new_ok first last r :
  0 <= first <= u16_max -> 0 <= last <= u16_max -> new first last = Ok r ->
  r = {| start := first; end_ := last |} /\ port_range_valid r.
Proof.
  unfold new. intros H1 H2 H. inv_bind. subst. destruct a. apply validate_range_ok in E. split; [done|].
  unfold port_range_valid, range_ok in *. cbn in *. lia.
Qed.

Lemma parse_item_valid item r : parse_item item = Ok r -> port_range_valid r.
Proof.
  unfold parse_item. destruct (is_empty _); [done|]. destruct (split_once _ _) as [[f l]|]; intros H.
  - destruct (contains_char _ _); [done|]. inv_bind. eapply (new_ok a a0 r); [..|done]; by eapply parse_port_bounds.
  - inv_bind. eapply (new_ok a a r); [..|done]; by eapply parse_port_bounds.
Qed.

Lemma valid_range_ok r : port_range_valid r -> validate_range r = Ok tt.
Proof.
  unfold port_range_valid, validate_range. intros H.
  rewrite (proj2 (Z.eqb_neq _ _)), (proj2 (Z.eqb_neq (end_ r) 0)) by lia. cbn.
  by rewrite (proj2 (Z.ltb_ge _ _)) by lia.
Qed.

Lemma number_text n : 0 <= n -> to_string n <> [] /\ Forall (fun c => 48 <= c <= 57) (to_string n).
Proof.
  intros Hn. destruct (to_string_spec n Hn) as (Ha & Hne & _). split; [done|].
  apply all_digits_Forall in Ha. eapply Forall_impl; [exact Ha|]. intros c Hc.
  unfold is_ascii_digit, in_range in Hc. bools. lia.
Qed.

Lemma digits_avoid c s : Forall (fun d => 48 <= d <= 57) s -> c < 48 -> c ∉ s.
Proof. intros Hf Hc Hin. rewrite Forall_forall in Hf. specialize (Hf c Hin). lia. Qed.

Lemma not_space c : 45 <= c <= 57 -> is_whitespace c = false.
Proof.
  intros H. unfold is_whitespace, in_range. repeat match goal with
  | |- context [?a <=? ?b] => destruct (Z.leb_spec a b); try lia
  | |- context [?a =? ?b] => destruct (Z.eqb_spec a b); try lia
  end; done.
Qed.

Lemma parse_port_text n item : 0 <= n <= u16_max -> parse_port (to_string n) item = Ok n.
Proof.
  intros Hn. unfold parse_port. destruct (number_text n) as [_ Hd]; [lia|].
  rewrite trim_no_ws; [by rewrite parse_unsigned_to_string|].
  eapply Forall_impl; [exact Hd|]. cbn beta. intros c Hc. apply not_space. lia.
Qed.

Lemma item_chars r :
  port_range_valid r ->
  render_port_range (start r) (end_ r) <> [] /\
  Forall (fun c => 45 <= c <= 57) (render_port_range (start r) (end_ r)).
Proof.
  unfold port_range_valid. intros H. destruct (number_text (start r)) as [N1 D1]; [lia|].
  destruct (number_text (end_ r)) as [_ D2]; [lia|]. unfold render_port_range.
  assert (W : forall s, Forall (fun c => 48 <= c <= 57) s -> Forall (fun c => 45 <= c <= 57) s).
  { intros s Hs. eapply Forall_impl; [exact Hs|]. cbn. lia. }
  destruct (_ =? _); [by split; [|apply W]|]. split; [by destruct (to_string (start r))|].
  apply Forall_app. split; [by apply W|]. constructor; [by vm_compute|]. by apply W.
Qed.

Lemma parse_item_text r :
  port_range_valid r -> parse_item (render_port_range (start r) (end_ r)) = Ok r.
Proof.
  intros Hr. destruct (item_chars r Hr) as [Hne Hc]. unfold parse_item.
  rewrite trim_no_ws by (eapply Forall_impl; [exact Hc|]; apply not_space).
  assert (He : is_empty (render_port_range (start r) (end_ r)) = false) by by destruct (render_port_range _ _).
  rewrite He. assert (Hnew : new (start r) (end_ r) = Ok r).
  { unfold new. destruct r as [f l]. cbn in *. rewrite (valid_range_ok _ Hr). done. }
  assert (Hb := Hr). unfold port_range_valid in Hb. unfold render_port_range in *.
  destruct (number_text (start r)) as [_ D1]; [lia|]. destruct (number_text (end_ r)) as [_ D2]; [lia|].
  destruct (Z.eqb_spec (start r) (end_ r)) as [Heq|Hneq].
  - rewrite (proj2 (split_once_None _ _)) by (by apply digits_avoid). rewrite parse_port_text by lia.
    cbn. by rewrite Heq in Hnew at 1; rewrite Heq.
  - assert (split_once 45 (to_string (start r) ++ lit "-" ++ to_string (end_ r))
              = Some (to_string (start r), to_string (end_ r))) as ->.
    { apply split_once_spec. split; [done|]. by apply digits_avoid. }
    rewrite contains_char_false by (by apply digits_avoid). rewrite !parse_port_text by lia. done.
Qed.

(** * Expressions *)

Lemma valid_denotable_ok ranges : Forall port_range_valid ranges -> Forall range_ok ranges.
Proof. intros H. eapply Forall_impl; [exact H|]. unfold port_range_valid, range_ok. cbn beta. lia. Qed.

Lemma parse_denotable e ranges : parse_port_expression e = Ok ranges -> denotable ranges.
Proof.
  unfold parse_port_expression. destruct (is_empty _); [done|]. intros H. inv_bind.
  destruct (_ <? _) eqn:El; [done|]. inv_bind. subst. bools. destruct a0.
  assert (Hv : Forall port_range_valid ranges).
  { apply try_map_ok in E. clear -E. induction E; constructor; [by eapply parse_item_valid|done]. }
  split; [|split; [done|split; [done|]]].
  - intros ->. pose proof (split_nonempty 44 e). destruct (split 44 e); [done|]. cbn in E. by inv_bind.
  - by apply validate_non_overlapping_iff; [apply valid_denotable_ok|].
Qed.

Lemma expression_text_nonblank ranges :
  ranges <> [] -> Forall port_range_valid ranges -> is_empty (trim (expression_text ranges)) = false.
Proof.
  intros Hne Hv. assert (Hc : Forall (fun c => is_whitespace c = false) (expression_text ranges)).
  { unfold expression_text. clear Hne. induction Hv as [|r l Hr Hl IH]; [constructor|].
    destruct (item_chars r Hr) as [_ Hcr].
    assert (Hw : Forall (fun c => is_whitespace c = false) (render_port_range (start r) (end_ r)))
      by (eapply Forall_impl; [exact Hcr|]; apply not_space).
    destruct l as [|r' l]; [done|]. cbn [map] in *. rewrite join_cons by done. apply Forall_app. split; [done|].
    constructor; [done|]. done. }
  rewrite trim_no_ws by done. destruct Hv as [|r l Hr Hl]; [done|]. destruct (item_chars r Hr) as [Hn _].
  unfold expression_text. cbn [map]. destruct l as [|r' l]; [cbn [map join]|cbn [map]; rewrite join_cons by done];
    by destruct (render_port_range _ _).
Qed.

Lemma try_map_texts ranges :
  Forall port_range_valid ranges ->
  try_map parse_item (map (fun r => render_port_range (start r) (end_ r)) ranges) = Ok ranges.
Proof.
  induction 1 as [|r l Hr _ IH]; [done|]. cbn [map try_map]. by rewrite parse_item_text, IH.
Qed.

(** Port expressions denote exactly the non-empty lists of at most 256 disjoint
    ranges of ports from 1 to 65535: what is accepted is such a list, and every
    such list, written as the agent writes ranges, parses back to itself. *)
Theorem port_expression_roundtrip ranges :
  (parse_port_expression (expression_text ranges) = Ok ranges <-> denotable ranges) /\
  (forall e, parse_port_expression e = Ok ranges ->
     parse_port_expression (expression_text ranges) = Ok ranges).
Proof.
  assert (Hr : denotable ranges -> parse_port_expression (expression_text ranges) = Ok ranges).
  { intros (Hne & Hl & Hv & Hd). unfold parse_port_expression.
    rewrite expression_text_nonblank by done. unfold expression_text. change (lit ",") with [44].
    rewrite split_join.
    - rewrite try_map_texts by done. cbn [mbind result_bind]. rewrite (proj2 (Z.ltb_ge _ _)) by done.
      by rewrite (proj2 (validate_non_overlapping_iff _ (valid_denotable_ok _ Hv))).
    - by destruct ranges.
    - apply Forall_map. eapply Forall_impl; [exact Hv|]. intros r Hr Hin.
      destruct (item_chars r Hr) as [_ Hc]. rewrite Forall_forall in Hc. specialize (Hc _ Hin). cbn in Hc. lia. }
  split; [split; [apply parse_denotable|done]|]. intros e He. by apply Hr, (parse_denotable e).
Qed.

Lemma port_expression_roundtrip_witness :
  parse_port_expression (lit " 443, 8000 - 8010 ,80") = Ok [range_ex 443 443; range_ex 8000 8010; range_ex 80 80] /\
  parse_port_expression (expression_text [range_ex 443 443; range_ex 8000 8010; range_ex 80 80])
  = Ok [range_ex 443 443; range_ex 8000 8010; range_ex 80 80].
Proof.
  assert (H : parse_port_expression (lit " 443, 8000 - 8010 ,80")
              = Ok [range_ex 443 443; range_ex 8000 8010; range_ex 80 80]) by (vm_compute; reflexivity).
  split; [exact H|]. exact (proj2 (port_expression_roundtrip _) _ H).
Defined.
