(* ===== verification/NftReconcile.v ===== *)
(** The agent's native reconciliation of port forwarding:
    crates/agent/src/network/port_forwarding.rs (ownership, drift detection,
    [reconcile_native], [inspect_native], snapshots).

    The nft binary is the environment: what each call of it answers is an argument
    ([NftReplies]), and the scripts given to nft for real (not with [--check]) are
    an output.  Listed tables are JSON values, whose object members are in the
    order of their keys.  UUID texts, the text of JSON values and the hash are
    arguments; the clock and the kernel's forwarding flags are read once per
    operation. *)

From stdpp Require Import sorting.
From S2P Require Import Prelude RustStd Json Auth Net PortForwarding NftRender.

Open Scope Z_scope.

(** * Snapshots *)

Inductive PortForwardRuntimeStatus := Absent | Applied | Drifted | Unsupported | Failed | StatusUnknown.

#[export] Instance runtime_status_eq_dec : EqDecision PortForwardRuntimeStatus.
Proof. solve_decision. Defined.

Inductive PortForwardUpstreamState := Eligible | Excluded | StateUnknown.

Record PortForwardUpstreamObservation := {
  obs_upstream_id : Z;
  obs_port : Z;
  obs_state : PortForwardUpstreamState;
  obs_reason : option str;
  obs_retry_after_unix : option Z;
}.

Record PortForwardRuleRuntimeStat := {
  stat_rule_id : Z;
  stat_revision : Z;
  stat_nat_matches : option Z;
  stat_mode : PortForwardMode;
  stat_status : option PortForwardRuntimeStatus;
  stat_observed_unix : option Z;
  stat_error_code : option str;
  stat_error_message : option str;
  stat_upstream_observations : list PortForwardUpstreamObservation;
}.

Record PortForwardRuntimeSnapshot := {
  snap_status : PortForwardRuntimeStatus;
  snap_owned_table_present : option bool;
  snap_desired_hash : option str;
  snap_observed_hash : option str;
  snap_native_desired_hash : option str;
  snap_removed_rules : list PortForwardCleanupRule;
  snap_nft_version : option str;
  snap_ipv4_forwarding_enabled : option bool;
  snap_ipv6_forwarding_enabled : option bool;
  snap_rules : list PortForwardRuleRuntimeStat;
  snap_error_code : option str;
  snap_error_message : option str;
  snap_observed_unix : Z;
}.

(** [PortForwardRuntimeSnapshot { status, nft_version, ..default() }]. *)
Definition snapshot_of (status : PortForwardRuntimeStatus) (nft_version : option str) :
  PortForwardRuntimeSnapshot := {|
  snap_status := status; snap_owned_table_present := None; snap_desired_hash := None;
  snap_observed_hash := None; snap_native_desired_hash := None; snap_removed_rules := [];
  snap_nft_version := nft_version; snap_ipv4_forwarding_enabled := None;
  snap_ipv6_forwarding_enabled := None; snap_rules := []; snap_error_code := None;
  snap_error_message := None; snap_observed_unix := 0 |}.

(** * Tables *)

Definition as_object (v : Value) : option (list (str * Value)) :=
  match v with Object members => Some members | _ => None end.

(** [object.get(k).and_then(Value::as_str) == Some(text)]. *)
Definition member_is (members : list (str * Value)) (k text : string) : bool :=
  bool_decide ((member_get (lit k) members ≫= as_str) = Some (lit text)).

Definition OWNERSHIP_MARK : Z := 1448104781.

Definition in_owned_table (members : list (str * Value)) : bool :=
  member_is members "family" "inet" && member_is members "table" "vpsman_port_forward".

(** [visit_json]: the objects of a value, each before what it contains. *)
Fixpoint visit_json (v : Value) : list (list (str * Value)) :=
  match v with
  | Object members =>
      members :: (fix go (l : list (str * Value)) :=
                    match l with [] => [] | (_, x) :: l' => visit_json x ++ go l' end) members
  | Array items =>
      (fix go (l : list Value) := match l with [] => [] | x :: l' => visit_json x ++ go l' end) items
  | _ => []
  end.

Definition ownership_mark_matches (v : Value) : bool :=
  bool_decide (as_u64 v = Some OWNERSHIP_MARK)
  || match as_str v with
     | Some text => str_eqb text (to_string OWNERSHIP_MARK)
                    || eq_ignore_ascii_case text (lit "0x5650534d")
     | None => false
     end.

Definition ownership_set_matches (set : list (str * Value)) : bool :=
  in_owned_table set && member_is set "name" "vpsman_ownership_v1" && member_is set "type" "mark"
  && match member_get (lit "elem") set ≫= as_array with
     | Some elements => existsb ownership_mark_matches elements
     | None => false
     end.

(** The table object of the visit is the owned one. *)
Definition is_owned_table_object (object : list (str * Value)) : bool :=
  match member_get (lit "table") object ≫= as_object with
  | Some table => member_is table "family" "inet" && member_is table "name" "vpsman_port_forward"
  | None => false
  end.

(** Its set object satisfies the test. *)
Definition set_object (test : list (str * Value) -> bool) (object : list (str * Value)) : bool :=
  match member_get (lit "set") object ≫= as_object with Some set => test set | None => false end.

Definition table_is_owned (v : Value) : bool :=
  existsb is_owned_table_object (visit_json v)
  && existsb (set_object ownership_set_matches) (visit_json v).

Definition ownership_set_declared (set : list (str * Value)) : bool :=
  in_owned_table set && member_is set "name" "vpsman_ownership_v1" && member_is set "type" "mark".

Definition table_has_ownership_declaration (v : Value) : bool :=
  existsb is_owned_table_object (visit_json v)
  && existsb (set_object ownership_set_declared) (visit_json v).

(** * Normal form of a table *)

Definition is_volatile (key : str) : bool := one_of key ["handle"; "packets"; "bytes"].

Definition is_flow_element (members : list (str * Value)) : bool :=
  match member_get (lit "element") members ≫= as_object with
  | Some element => in_owned_table element && member_is element "name" "owned_flows"
  | None => false
  end.

Definition has_member (k : string) (members : list (str * Value)) : bool :=
  bool_decide (is_Some (member_get (lit k) members)).

Definition keep_key (in_flow_set omit_static : bool) (key : str) : bool :=
  negb (is_volatile key) && negb (in_flow_set && str_eqb key (lit "elem"))
  && negb (omit_static && str_eqb key (lit "elem")).

(** The member is the set of owned flows. *)
Definition is_flow_set (key : str) (v : Value) : bool :=
  str_eqb key (lit "set")
  && match as_object v with Some set => member_is set "name" "owned_flows" | None => false end.

Fixpoint normalize_json_inner (v : Value) (in_flow_set omit_static : bool) : option Value :=
  match v with
  | Object members =>
      if omit_static && has_member "element" members then None
      else if is_flow_element members then None
      else
        Some (Object
          ((fix go (l : list (str * Value)) : list (str * Value) :=
              match l with
              | [] => []
              | (key, x) :: l' =>
                  if keep_key in_flow_set omit_static key then
                    match normalize_json_inner x (is_flow_set key x) omit_static with
                    | Some x' => (key, x') :: go l'
                    | None => go l'
                    end
                  else go l'
              end) members))
  | Array items =>
      Some (Array
        ((fix go (l : list Value) : list Value :=
            match l with
            | [] => []
            | x :: l' =>
                if bool_decide (json_get x (lit "metainfo") = None) then
                  match normalize_json_inner x in_flow_set omit_static with
                  | Some x' => x' :: go l'
                  | None => go l'
                  end
                else go l'
            end) items))
  | _ => Some v
  end.

Definition normalize_json (v : Value) : Value := default Null (normalize_json_inner v false false).
Definition normalize_json_structure (v : Value) : Value :=
  default Null (normalize_json_inner v false true).

(** * Counters *)

Section Counters.

Context (uuid_parse : str -> option Z).

Definition parse_rule_comment (comment : str) : option (Z * Z) :=
  value ← strip_prefix (lit "vpsman-rule:") comment;
  '(id, revision) ← rsplit_once 58 value;
  id ← uuid_parse id;
  revision ← parse_signed i64_min i64_max revision;
  Some (id, revision).

(** The packets of a rule's counters; [u64] arithmetic. *)
Definition rule_packets (rule : list (str * Value)) : Z :=
  let expressions := default [] (member_get (lit "expr") rule ≫= as_array) in
  foldl (fun sum e =>
           match (counter ← json_get e (lit "counter"); packets ← json_get counter (lit "packets");
                  as_u64 packets) with
           | Some n => (sum + n) mod 2 ^ 64
           | None => sum
           end) 0 expressions.

Definition count_object (counters : gmap (Z * Z) Z) (object : list (str * Value)) : gmap (Z * Z) Z :=
  match member_get (lit "rule") object ≫= as_object with
  | Some rule =>
      match (comment ← member_get (lit "comment") rule; text ← as_str comment;
             parse_rule_comment text) with
      | Some key => <[key := (default 0 (counters !! key) + rule_packets rule) mod 2 ^ 64]> counters
      | None => counters
      end
  | None => counters
  end.

Definition stat_le (a b : PortForwardRuleRuntimeStat) : Prop := stat_rule_id a <= stat_rule_id b.

#[export] Instance stat_le_dec : RelDecision stat_le.
Proof. unfold stat_le. solve_decision. Defined.

Definition extract_rule_counters (v : Value) : list PortForwardRuleRuntimeStat :=
  let counters := foldl count_object ∅ (visit_json v) in
  merge_sort stat_le
    (map (fun '((id, rev), n) =>
            {| stat_rule_id := id; stat_revision := rev; stat_nat_matches := Some n; stat_mode := Dnat;
               stat_status := None; stat_observed_unix := None; stat_error_code := None;
               stat_error_message := None; stat_upstream_observations := [] |}) (map_to_list counters)).

End Counters.

(** * The consumer *)

Record AppliedBaseline := {
  base_desired_hash : str;
  base_observed_hash : str;
  base_structure_hash : str;
  base_event_generation : Z;
}.

(** What reconciliation and inspection keep of [PortForwardingConsumer]. *)
Record PortForwardingConsumer := {
  con_capability : PortForwardCapability;
  con_baseline : option AppliedBaseline;
  con_event_generation : Z;
  con_monitor : bool;
  con_native_owners : gset Z;
}.

Definition with_baseline (c : PortForwardingConsumer) (b : option AppliedBaseline) :
  PortForwardingConsumer :=
  Build_PortForwardingConsumer (con_capability c) b (con_event_generation c) (con_monitor c)
    (con_native_owners c).
Definition with_owners (c : PortForwardingConsumer) (owners : gset Z) : PortForwardingConsumer :=
  Build_PortForwardingConsumer (con_capability c) (con_baseline c) (con_event_generation c)
    (con_monitor c) owners.

(** The clock and the kernel's forwarding flags. *)
Record Host := { unix_now : Z; ipv4_forwarding : option bool; ipv6_forwarding : option bool }.

(** What the calls of nft answer: the probe, whether a monitor starts, whether the
    binary is found afterwards, the table before, the check, the application, the table
    after.  An error is its message. *)
Record NftReplies := {
  reply_probe : PortForwardCapability;
  reply_monitor_started : bool;
  reply_nft_found : bool;
  reply_before : result str (option Value);
  reply_check : result str unit;
  reply_apply : result str unit;
  reply_after : result str (option Value);
}.

Inductive ReconcileError :=
| ReconcileInvalid (error : PortForwardValidationError)
| Unavailable (status : PortForwardCapabilityStatus)
| NftDisappeared
| NftFailed (message : str)
| OwnershipConflict
| RenderFailed (error : RenderError)
| TableStillPresent
| TableMissing.

(** [config.desired_hash] on the wire: none when empty. *)
Definition wire_hash (config : AgentPortForwardingConfig) : option str :=
  if is_empty (desired_hash config) then None else Some (desired_hash config).

(** [probe]: what the probe found, completed with the modes the agent offers. *)
Definition probed_capability (inner : PortForwardCapability) : PortForwardCapability := {|
  cap_status := cap_status inner; cap_nft_version := cap_nft_version inner;
  cap_reason := cap_reason inner; cap_schema_version := PORT_FORWARDING_POOLS_SCHEMA_VERSION;
  cap_supported_modes := [CustomAdapter] ++ (if supported inner then [Dnat; Redirect] else []) |}.

Definition probe (c : PortForwardingConsumer) (r : NftReplies) : PortForwardingConsumer := {|
  con_capability := probed_capability (reply_probe r);
  con_baseline := con_baseline c;
  con_event_generation := con_event_generation c;
  con_monitor := con_monitor c
                 || supported (reply_probe r) && reply_monitor_started r;
  con_native_owners := con_native_owners c |}.

Section Reconcile.

Context (uuid_text : Z -> str) (uuid_parse : str -> option Z).
Context (sha256 : list Z -> list Z) (hex_encode : list Z -> str).
Context (rules_json : list PortForwardRule -> list Z) (value_json : Value -> list Z).

Definition normalized_table_hash (v : Value) : str :=
  payload_hash sha256 hex_encode (value_json (normalize_json v)).
Definition normalized_table_structure_hash (v : Value) : str :=
  payload_hash sha256 hex_encode (value_json (normalize_json_structure v)).

(** The snapshot built from a listing, its status and observed hash given. *)
Definition table_snapshot (host : Host) (config : AgentPortForwardingConfig)
  (capability : PortForwardCapability) (table : option Value)
  (status : PortForwardRuntimeStatus) (observed_hash : option str) : PortForwardRuntimeSnapshot := {|
  snap_status := status; snap_owned_table_present := Some (bool_decide (is_Some table));
  snap_desired_hash := wire_hash config; snap_observed_hash := observed_hash;
  snap_native_desired_hash := None; snap_removed_rules := [];
  snap_nft_version := cap_nft_version capability;
  snap_ipv4_forwarding_enabled := ipv4_forwarding host;
  snap_ipv6_forwarding_enabled := ipv6_forwarding host;
  snap_rules := match table with Some t => extract_rule_counters uuid_parse t | None => [] end;
  snap_error_code := None; snap_error_message := None; snap_observed_unix := unix_now host |}.

Definition runtime_snapshot_from_table (host : Host) (config : AgentPortForwardingConfig)
  (capability : PortForwardCapability) (table : option Value) (baseline : option AppliedBaseline) :
  PortForwardRuntimeSnapshot :=
  let expected_rules := negb (is_empty (rules config)) in
  let '(status, observed_hash) :=
    match table with
    | None => (if expected_rules then Drifted else Absent, None)
    | Some v =>
        let hash := normalized_table_hash v in
        if expected_rules then
          let applied := match baseline with
                         | Some b => str_eqb (base_desired_hash b) (desired_hash config)
                                     && str_eqb (base_observed_hash b) hash
                         | None => false
                         end in
          (if applied then Applied else Drifted, Some hash)
        else (Drifted, Some hash)
    end in
  table_snapshot host config capability table status observed_hash.

Definition runtime_snapshot_from_terse_table (host : Host) (config : AgentPortForwardingConfig)
  (capability : PortForwardCapability) (table : option Value) (baseline : option AppliedBaseline) :
  PortForwardRuntimeSnapshot :=
  let expected_rules := negb (is_empty (rules config)) in
  let '(status, observed_hash) :=
    match table with
    | None => (if expected_rules then Drifted else Absent, None)
    | Some v =>
        let structure_hash := normalized_table_structure_hash v in
        if expected_rules then
          match baseline with
          | Some b =>
              if str_eqb (base_desired_hash b) (desired_hash config)
                 && str_eqb (base_structure_hash b) structure_hash
              then (Applied, Some (base_observed_hash b))
              else (Drifted, Some structure_hash)
          | None => (Drifted, Some structure_hash)
          end
        else (Drifted, Some structure_hash)
    end in
  table_snapshot host config capability table status observed_hash.

Definition stat_ids (stats : list PortForwardRuleRuntimeStat) : gset Z :=
  list_to_set (map stat_rule_id stats).

(** What the operation leaves: its answer, the consumer, and the scripts nft was
    given to apply. *)
Definition Outcome : Type :=
  result ReconcileError PortForwardRuntimeSnapshot * PortForwardingConsumer * list str.

Definition nft_err {A} (r : result str A) : result ReconcileError A := map_err NftFailed r.

(** From the application of [script] on. *)
Definition after_apply (host : Host) (config : AgentPortForwardingConfig) (r : NftReplies)
  (c : PortForwardingConsumer) (script : str) : Outcome :=
  match nft_err (reply_apply r) with
  | Err e => (Err e, c, [script])
  | Ok _ =>
      match nft_err (reply_after r) with
      | Err e => (Err e, c, [script])
      | Ok after =>
          if is_empty (rules config) then
            match after with
            | Some _ => (Err TableStillPresent, c, [script])
            | None =>
                let c := with_owners (with_baseline c None) ∅ in
                (Ok (runtime_snapshot_from_table host config (con_capability c) None (con_baseline c)),
                 c, [script])
            end
          else
            match after with
            | None => (Err TableMissing, c, [script])
            | Some observed =>
                let baseline := {| base_desired_hash := desired_hash config;
                                   base_observed_hash := normalized_table_hash observed;
                                   base_structure_hash := normalized_table_structure_hash observed;
                                   base_event_generation := con_event_generation c |} in
                let c := with_owners (with_baseline c (Some baseline))
                           (list_to_set (map rule_id (rules config))) in
                (Ok (runtime_snapshot_from_table host config (con_capability c) (Some observed)
                       (con_baseline c)), c, [script])
            end
      end
  end.

(** Rendering, checking and applying the program. *)
Definition apply_desired (host : Host) (config : AgentPortForwardingConfig) (r : NftReplies)
  (c : PortForwardingConsumer) (before : option Value) : Outcome :=
  match map_err RenderFailed
          (render_apply_script uuid_text sha256 hex_encode rules_json config
             (bool_decide (is_Some before))) with
  | Err e => (Err e, c, [])
  | Ok script =>
      match nft_err (reply_check r) with
      | Err e => (Err e, c, [])
      | Ok _ => after_apply host config r c script
      end
  end.

Definition reconcile_native (host : Host) (config : AgentPortForwardingConfig)
  (require_table_access : bool) (r : NftReplies) (c : PortForwardingConsumer) : Outcome :=
  match validate_port_forwarding_config sha256 hex_encode rules_json config with
  | Err e => (Err (ReconcileInvalid e), c, [])
  | Ok _ =>
      let c := probe c r in
      let capability := con_capability c in
      if negb (supported capability) then
        if negb require_table_access && is_empty (rules config)
        then (Ok (snapshot_of Absent (cap_nft_version capability)), c, [])
        else (Err (Unavailable (cap_status capability)), c, [])
      else if negb (reply_nft_found r) then (Err NftDisappeared, c, [])
      else
        match nft_err (reply_before r) with
        | Err e => (Err e, c, [])
        | Ok before =>
            if match before with Some t => negb (table_is_owned t) | None => false end
            then (Err OwnershipConflict, c, [])
            else
              let owners := match before with
                            | Some t => stat_ids (extract_rule_counters uuid_parse t)
                            | None => ∅
                            end in
              let c := with_owners c owners in
              match before with
              | None =>
                  if is_empty (rules config) then
                    let c := with_baseline c None in
                    (Ok (runtime_snapshot_from_table host config capability None (con_baseline c)), c, [])
                  else apply_desired host config r c before
              | Some _ =>
                  let observed :=
                    runtime_snapshot_from_table host config capability before (con_baseline c) in
                  if bool_decide (snap_status observed = Applied) then (Ok observed, c, [])
                  else apply_desired host config r c before
              end
        end
  end.

(** * Inspection *)

Inductive TableListMode := Full | Terse.

#[export] Instance list_mode_eq_dec : EqDecision TableListMode.
Proof. solve_decision. Defined.

Definition capability_status_code (status : PortForwardCapabilityStatus) : str :=
  match status with
  | Supported => lit "supported"
  | NftMissing => lit "nft_missing"
  | InsufficientPrivilege => lit "insufficient_privilege"
  | InetNatUnsupported => lit "inet_nat_unsupported"
  | ProbeFailed => lit "probe_failed"
  | Unknown => lit "unknown"
  end.

(** A snapshot without a table: status, desired hash, error and time. *)
Definition error_snapshot (host : Host) (config : AgentPortForwardingConfig)
  (capability : PortForwardCapability) (status : PortForwardRuntimeStatus)
  (code : option str) (message : option str) : PortForwardRuntimeSnapshot := {|
  snap_status := status; snap_owned_table_present := None; snap_desired_hash := wire_hash config;
  snap_observed_hash := None; snap_native_desired_hash := None; snap_removed_rules := [];
  snap_nft_version := cap_nft_version capability; snap_ipv4_forwarding_enabled := None;
  snap_ipv6_forwarding_enabled := None; snap_rules := []; snap_error_code := code;
  snap_error_message := message; snap_observed_unix := unix_now host |}.

Definition unsupported_snapshot (host : Host) (config : AgentPortForwardingConfig)
  (capability : PortForwardCapability) : PortForwardRuntimeSnapshot :=
  error_snapshot host config capability Unsupported
    (Some (capability_status_code (cap_status capability))) (cap_reason capability).

Definition failed_snapshot (host : Host) (config : AgentPortForwardingConfig)
  (capability : PortForwardCapability) (code message : str) : PortForwardRuntimeSnapshot :=
  error_snapshot host config capability Failed (Some code) (Some (take 1024 message)).

Definition ownership_conflict_snapshot (host : Host) (config : AgentPortForwardingConfig)
  (capability : PortForwardCapability) : PortForwardRuntimeSnapshot := {|
  snap_status := Failed; snap_owned_table_present := Some false;
  snap_desired_hash := wire_hash config; snap_observed_hash := None;
  snap_native_desired_hash := None; snap_removed_rules := [];
  snap_nft_version := cap_nft_version capability;
  snap_ipv4_forwarding_enabled := ipv4_forwarding host;
  snap_ipv6_forwarding_enabled := ipv6_forwarding host; snap_rules := [];
  snap_error_code := Some (lit "table_ownership_conflict");
  snap_error_message :=
    Some (lit "table inet vpsman_port_forward exists without the vpsman ownership marker; it was left unchanged");
  snap_observed_unix := unix_now host |}.

Definition list_mode (config : AgentPortForwardingConfig) (c : PortForwardingConsumer) : TableListMode :=
  if con_monitor c
     && match con_baseline c with
        | Some b => (base_event_generation b =? con_event_generation c)
                    && str_eqb (base_desired_hash b) (desired_hash config)
        | None => false
        end
  then Terse else Full.

Definition refresh_generation (generation : Z) (b : AppliedBaseline) : AppliedBaseline := {|
  base_desired_hash := base_desired_hash b; base_observed_hash := base_observed_hash b;
  base_structure_hash := base_structure_hash b; base_event_generation := generation |}.

(** The consumer handles one thing at a time, so the generation does not change
    during the listing. *)
Definition inspect_native (host : Host) (config : AgentPortForwardingConfig)
  (nft_found : bool) (listed : result str (option Value)) (c : PortForwardingConsumer) :
  PortForwardRuntimeSnapshot * PortForwardingConsumer :=
  let capability := con_capability c in
  if negb (supported capability) then (unsupported_snapshot host config capability, c)
  else if negb nft_found
  then (failed_snapshot host config capability (lit "nft_missing")
          (lit "nft binary is no longer available"), c)
  else
    let m := list_mode config c in
    match listed with
    | Err message => (failed_snapshot host config capability (lit "inspection_failed") message, c)
    | Ok table =>
        if match table with
           | Some t => negb (match m with
                             | Full => table_is_owned t
                             | Terse => table_has_ownership_declaration t
                             end)
           | None => false
           end
        then (ownership_conflict_snapshot host config capability, c)
        else
          let snapshot :=
            match m with
            | Full => runtime_snapshot_from_table host config capability table (con_baseline c)
            | Terse => runtime_snapshot_from_terse_table host config capability table (con_baseline c)
            end in
          let c := with_owners c (stat_ids (snap_rules snapshot)) in
          let c := if bool_decide (m = Full) && bool_decide (snap_status snapshot = Applied)
                   then with_baseline c (refresh_generation (con_event_generation c) <$> con_baseline c)
                   else c in
          (snapshot, c)
    end.

(** [nft_event_invalidates_owned_table] saw a line of the monitor. *)
Definition table_event (c : PortForwardingConsumer) : PortForwardingConsumer := {|
  con_capability := con_capability c; con_baseline := con_baseline c;
  con_event_generation := (con_event_generation c + 1) mod 2 ^ 64;
  con_monitor := con_monitor c; con_native_owners := con_native_owners c |}.

Definition monitor_stopped (c : PortForwardingConsumer) : PortForwardingConsumer := {|
  con_capability := con_capability c; con_baseline := con_baseline c;
  con_event_generation := con_event_generation c; con_monitor := false;
  con_native_owners := con_native_owners c |}.

Definition has_native_ownership (c : PortForwardingConsumer) (config : AgentPortForwardingConfig) :
  bool :=
  negb (is_empty (rules config)) || negb (bool_decide (con_native_owners c = ∅))
  || bool_decide (is_Some (con_baseline c)).

(** * Merging with the custom rules *)

Definition native_repair_candidates (previous : option AgentPortForwardingConfig)
  (desired : AgentPortForwardingConfig) (explicit_reapply : bool) : gset Z :=
  list_to_set (map rule_id
    (List.filter (fun rule =>
       is_native rule
       && (explicit_reapply
           || match previous with
              | Some p => negb (existsb (fun old => rule_id old =? rule_id rule) (rules p))
              | None => false
              end)) (rules desired))).

Definition custom_ownership_context (config : AgentPortForwardingConfig) : bool :=
  negb (is_empty (cleanup_rules config))
  || existsb (fun rule => bool_decide (mode rule = CustomAdapter)) (rules config).

(** [adapters::runtime_stat]. *)
Definition runtime_stat (host : Host) (rule : PortForwardRule) (status : PortForwardRuntimeStatus) :
  PortForwardRuleRuntimeStat := {|
  stat_rule_id := rule_id rule; stat_revision := revision rule; stat_nat_matches := None;
  stat_mode := mode rule; stat_status := Some status; stat_observed_unix := Some (unix_now host);
  stat_error_code := None; stat_error_message := None; stat_upstream_observations := [] |}.

Definition with_rules (s : PortForwardRuntimeSnapshot) (stats : list PortForwardRuleRuntimeStat) :
  PortForwardRuntimeSnapshot := {|
  snap_status := snap_status s; snap_owned_table_present := snap_owned_table_present s;
  snap_desired_hash := snap_desired_hash s; snap_observed_hash := snap_observed_hash s;
  snap_native_desired_hash := snap_native_desired_hash s; snap_removed_rules := snap_removed_rules s;
  snap_nft_version := snap_nft_version s;
  snap_ipv4_forwarding_enabled := snap_ipv4_forwarding_enabled s;
  snap_ipv6_forwarding_enabled := snap_ipv6_forwarding_enabled s; snap_rules := stats;
  snap_error_code := snap_error_code s; snap_error_message := snap_error_message s;
  snap_observed_unix := snap_observed_unix s |}.

(** The fields of a rule's stat taken from the snapshot. *)
Definition attach_stat (rule : PortForwardRule) (s : PortForwardRuntimeSnapshot)
  (stat : PortForwardRuleRuntimeStat) : PortForwardRuleRuntimeStat := {|
  stat_rule_id := stat_rule_id stat; stat_revision := stat_revision stat;
  stat_nat_matches := stat_nat_matches stat; stat_mode := mode rule;
  stat_status := Some (snap_status s); stat_observed_unix := Some (snap_observed_unix s);
  stat_error_code := snap_error_code s; stat_error_message := snap_error_message s;
  stat_upstream_observations := stat_upstream_observations stat |}.

(** The first stat of the rule is changed in place; a rule without one gets one at
    the end. *)
Fixpoint attach_first (host : Host) (rule : PortForwardRule) (s : PortForwardRuntimeSnapshot)
  (stats : list PortForwardRuleRuntimeStat) : list PortForwardRuleRuntimeStat :=
  match stats with
  | [] => [attach_stat rule s (runtime_stat host rule (snap_status s))]
  | stat :: stats' =>
      if stat_rule_id stat =? rule_id rule then attach_stat rule s stat :: stats'
      else stat :: attach_first host rule s stats'
  end.

Definition attach_native_stats (host : Host) (config : AgentPortForwardingConfig)
  (s : PortForwardRuntimeSnapshot) : PortForwardRuntimeSnapshot :=
  with_rules s (foldl (fun stats rule => attach_first host rule s stats) (snap_rules s) (rules config)).

Definition status_is (status : PortForwardRuntimeStatus) (stat : PortForwardRuleRuntimeStat) : bool :=
  bool_decide (stat_status stat = Some status).

Definition merged_stats (stats custom : list PortForwardRuleRuntimeStat) :
  list PortForwardRuleRuntimeStat :=
  merge_sort stat_le
    (foldl (fun acc stat =>
              List.filter (fun native => negb (stat_rule_id native =? stat_rule_id stat)) acc ++ [stat])
       stats custom).

Definition merged_status (config : AgentPortForwardingConfig) (status : PortForwardRuntimeStatus)
  (stats : list PortForwardRuleRuntimeStat) : PortForwardRuntimeStatus :=
  if bool_decide (status = Failed) || existsb (status_is Failed) stats then Failed
  else if bool_decide (status = Drifted) || existsb (status_is Drifted) stats then Drifted
  else if match status with Applied | Absent => true | _ => false end
          && negb (is_empty (rules config)) && forallb (status_is Applied) stats
  then Applied
  else status.

Definition merge_snapshot (host : Host) (config native : AgentPortForwardingConfig)
  (s : PortForwardRuntimeSnapshot) (custom : list PortForwardRuleRuntimeStat) :
  PortForwardRuntimeSnapshot :=
  let stats := merged_stats (snap_rules s) custom in {|
  snap_status := merged_status config (snap_status s) stats;
  snap_owned_table_present := snap_owned_table_present s;
  snap_desired_hash := wire_hash config; snap_observed_hash := snap_observed_hash s;
  snap_native_desired_hash :=
    if bool_decide (is_Some (snap_owned_table_present s))
       && match snap_status s with Applied | Absent => true | _ => false end
    then Some (desired_hash native) else snap_native_desired_hash s;
  snap_removed_rules := snap_removed_rules s; snap_nft_version := snap_nft_version s;
  snap_ipv4_forwarding_enabled := snap_ipv4_forwarding_enabled s;
  snap_ipv6_forwarding_enabled := snap_ipv6_forwarding_enabled s; snap_rules := stats;
  snap_error_code := snap_error_code s; snap_error_message := snap_error_message s;
  snap_observed_unix := unix_now host |}.

End Reconcile.
