(* ===== verification/NftReconcileProofs.v ===== *)
(** Theorems on the agent's reconciliation: nft is never given a program over a
    table the agent does not own; counters never make a table look changed; a
    table reported as applied is one the agent applied; and reconciliation
    settles. *)

From stdpp Require Import sorting.
From S2P Require Import Prelude RustStd Json Auth Net PortForwarding PortForwardProofs NftRender NftReconcile.

Open Scope Z_scope.

#[local] Arguments lit : simpl never.

(** * Erasing counters *)

(** The members that change with traffic or with every listing. *)
Definition erased_key (key : str) : bool := one_of key ["handle"; "packets"; "bytes"].

#[local] Arguments erased_key : simpl never.

(** They are the ones the normal form leaves out. *)
Lemma volatile_erased key : is_volatile key = erased_key key.
Proof. done. Qed.

(** The value without its handles and counters, everywhere. *)
Fixpoint erase (v : Value) : Value :=
  match v with
  | Object members =>
      Object ((fix go (l : list (str * Value)) : list (str * Value) :=
                 match l with
                 | [] => []
                 | (key, x) :: l' => if erased_key key then go l' else (key, erase x) :: go l'
                 end) members)
  | Array items =>
      Array ((fix go (l : list Value) : list Value :=
                match l with [] => [] | x :: l' => erase x :: go l' end) items)
  | _ => v
  end.

Definition erase_members (l : list (str * Value)) : list (str * Value) :=
  map (fun m => (fst m, erase (snd m))) (List.filter (fun m => negb (erased_key (fst m))) l).

Lemma erase_object members : erase (Object members) = Object (erase_members members).
Proof.
  cbn. f_equal. unfold erase_members. induction members as [|[k v] l IH]; [done|]. cbn.
  destruct (erased_key k); cbn; [done|]. by f_equal.
Qed.

Lemma erase_array items : erase (Array items) = Array (map erase items).
Proof. done. Qed.

Lemma value_nested_ind (P : Value -> Prop) :
  P Null -> (forall b, P (Bool b)) -> (forall n, P (Num n)) -> (forall s, P (Str s)) ->
  (forall l, Forall P l -> P (Array l)) ->
  (forall members, Forall (fun m => P (snd m)) members -> P (Object members)) -> forall v, P v.
Proof.
  intros Hn Hb Hm Hs Ha Ho. fix go 1. intros [| | | |l|members]; [exact Hn|apply Hb|apply Hm|apply Hs|..].
  - apply Ha. induction l as [|x l IH]; constructor; [apply go|exact IH].
  - apply Ho. induction members as [|[k x] l IH]; constructor; [apply go|exact IH].
Qed.

Lemma member_get_erase k members :
  erased_key k = false -> member_get k (erase_members members) = erase <$> member_get k members.
Proof.
  intros Hk. unfold erase_members. induction members as [|[k' v] l IH]; [done|]. cbn.
  destruct (str_eqb k k') eqn:E.
  - apply str_eqb_eq in E as <-. rewrite Hk. cbn. by rewrite str_eqb_refl.
  - destruct (erased_key k'); cbn; [done|]. by rewrite E.
Qed.

Lemma as_str_erase v : as_str (erase v) = as_str v.
Proof. by destruct v. Qed.

Lemma as_object_erase v : as_object (erase v) = erase_members <$> as_object v.
Proof. destruct v; try done. by rewrite erase_object. Qed.

Lemma member_is_erase members k text :
  erased_key (lit k) = false -> member_is (erase_members members) k text = member_is members k text.
Proof.
  intros Hk. unfold member_is. rewrite member_get_erase by done.
  destruct (member_get _ _) as [v|]; [|done]. cbn. by rewrite as_str_erase.
Qed.

Lemma has_member_erase k members :
  erased_key (lit k) = false -> has_member k (erase_members members) = has_member k members.
Proof. intros Hk. unfold has_member. rewrite member_get_erase by done. by destruct (member_get _ _). Qed.

Lemma in_owned_table_erase members : in_owned_table (erase_members members) = in_owned_table members.
Proof. unfold in_owned_table. by rewrite !member_is_erase by done. Qed.

Lemma is_flow_element_erase members : is_flow_element (erase_members members) = is_flow_element members.
Proof.
  unfold is_flow_element. rewrite member_get_erase by done. destruct (member_get _ _) as [v|]; [|done]. cbn.
  rewrite as_object_erase. destruct (as_object v); [|done]. cbn.
  by rewrite in_owned_table_erase, member_is_erase by done.
Qed.

Lemma is_flow_set_erase key v : is_flow_set key (erase v) = is_flow_set key v.
Proof.
  unfold is_flow_set. f_equal. rewrite as_object_erase. destruct (as_object v); [|done]. cbn.
  by apply member_is_erase.
Qed.

Lemma metainfo_erase v : json_get (erase v) (lit "metainfo") = erase <$> json_get v (lit "metainfo").
Proof. destruct v; try done. rewrite erase_object. cbn [json_get]. by apply member_get_erase. Qed.

(** * Normal forms *)

(** The members an object keeps, and the items an array keeps. *)
Definition normal_members (in_flow_set omit : bool) (members : list (str * Value)) : list (str * Value) :=
  omap (fun m => if keep_key in_flow_set omit (fst m)
                 then x ← normalize_json_inner (snd m) (is_flow_set (fst m) (snd m)) omit; Some (fst m, x)
                 else None) members.
Definition normal_items (in_flow_set omit : bool) (items : list Value) : list Value :=
  omap (fun x => if bool_decide (json_get x (lit "metainfo") = None)
                 then normalize_json_inner x in_flow_set omit else None) items.

Lemma normalize_object members f o :
  normalize_json_inner (Object members) f o =
  if o && has_member "element" members then None
  else if is_flow_element members then None else Some (Object (normal_members f o members)).
Proof.
  cbn [normalize_json_inner]. destruct (o && _); [done|]. destruct (is_flow_element _); [done|].
  f_equal. f_equal. unfold normal_members. induction members as [|[k v] l IH]; [done|]. cbn [omap list_omap fst snd].
  rewrite IH. destruct (keep_key _ _ _); [|done]. by destruct (normalize_json_inner _ _ _).
Qed.

Lemma normalize_array items f o :
  normalize_json_inner (Array items) f o = Some (Array (normal_items f o items)).
Proof.
  cbn [normalize_json_inner]. f_equal. f_equal. unfold normal_items.
  induction items as [|v l IH]; [done|]. cbn [omap list_omap]. rewrite IH.
  case_bool_decide; [|done]. by destruct (normalize_json_inner _ _ _).
Qed.

Lemma normalize_erase v : forall f o, normalize_json_inner (erase v) f o = normalize_json_inner v f o.
Proof.
  induction v as [| | | |l IH|members IH] using value_nested_ind; try done; intros f o.
  - rewrite erase_array, !normalize_array. f_equal. f_equal. unfold normal_items.
    induction IH as [|x l Hx _ IHl]; [done|]. cbn [map omap list_omap]. rewrite IHl, Hx, metainfo_erase.
    by destruct (json_get x _).
  - rewrite erase_object, !normalize_object, has_member_erase, is_flow_element_erase by done.
    destruct (o && _); [done|]. destruct (is_flow_element _); [done|]. f_equal. f_equal.
    unfold normal_members, erase_members. induction IH as [|[k x] l Hx _ IHl]; [done|].
    cbn [List.filter fst snd]. destruct (erased_key k) eqn:E; cbn [negb map omap list_omap fst snd] in *.
    + unfold keep_key at 2. by rewrite volatile_erased, E.
    + by rewrite IHl, is_flow_set_erase, Hx.
Qed.

(** Two listings that differ in handles and counters alone have the same normal
    form, in full and in structure. *)
Lemma erase_normalize v w :
  erase v = erase w ->
  normalize_json v = normalize_json w /\ normalize_json_structure v = normalize_json_structure w.
Proof.
  intros H. unfold normalize_json, normalize_json_structure.
  by rewrite <- (normalize_erase v false false), <- (normalize_erase v false true), H, !normalize_erase.
Qed.

Section Consumer.

Context (uuid_text : Z -> str) (uuid_parse : str -> option Z).
Context (sha256 : list Z -> list Z) (hex_encode : list Z -> str).
Context (rules_json : list PortForwardRule -> list Z) (value_json : Value -> list Z).

Abbreviation reconcile :=
  (reconcile_native uuid_text uuid_parse sha256 hex_encode rules_json value_json).
Abbreviation inspect := (inspect_native uuid_parse sha256 hex_encode value_json).
Abbreviation render := (render_apply_script uuid_text sha256 hex_encode rules_json).
Abbreviation table_hash := (normalized_table_hash sha256 hex_encode value_json).
Abbreviation structure_hash := (normalized_table_structure_hash sha256 hex_encode value_json).
Abbreviation from_table := (runtime_snapshot_from_table uuid_parse sha256 hex_encode value_json).

(** * One reconciliation *)

(** A program applied by nft, and the table listed right afterwards. *)
Record Application := { app_config : AgentPortForwardingConfig; app_script : str; app_table : Value }.

Definition describes (b : AppliedBaseline) (app : Application) : Prop :=
  base_desired_hash b = desired_hash (app_config app) /\
  base_observed_hash b = table_hash (app_table app) /\
  base_structure_hash b = structure_hash (app_table app).

(** The ways a reconciliation ends that matter to its caller. *)
Inductive ends (host : Host) (config : AgentPortForwardingConfig) (r : NftReplies)
  (c : PortForwardingConsumer) : Outcome -> Prop :=
| ends_failed e c' scripts :
    con_baseline c' = con_baseline c ->
    (scripts = [] \/ exists before script,
       reply_before r = Ok before /\ (forall t, before = Some t -> table_is_owned t = true) /\
       reply_check r = Ok tt /\ render config (bool_decide (is_Some before)) = Ok script /\
       scripts = [script]) ->
    ends host config r c (Err e, c', scripts)
| ends_quiet s c' :
    (con_baseline c' = con_baseline c \/ con_baseline c' = None) -> snap_status s <> Applied ->
    ends host config r c (Ok s, c', [])
| ends_in_place t c' :
    reply_before r = Ok (Some t) -> table_is_owned t = true -> con_baseline c' = con_baseline c ->
    snap_status (from_table host config (con_capability c') (Some t) (con_baseline c)) = Applied ->
    ends host config r c
      (Ok (from_table host config (con_capability c') (Some t) (con_baseline c)), c', [])
| ends_applied before script t b c' :
    reply_before r = Ok before -> (forall t, before = Some t -> table_is_owned t = true) ->
    reply_check r = Ok tt -> render config (bool_decide (is_Some before)) = Ok script ->
    reply_apply r = Ok tt -> reply_after r = Ok (Some t) -> rules config <> [] ->
    con_baseline c' = Some b ->
    describes b {| app_config := config; app_script := script; app_table := t |} ->
    ends host config r c (Ok (from_table host config (con_capability c') (Some t) (Some b)), c', [script])
| ends_removed before script c' s :
    reply_before r = Ok before -> (forall t, before = Some t -> table_is_owned t = true) ->
    reply_check r = Ok tt -> render config (bool_decide (is_Some before)) = Ok script ->
    rules config = [] -> con_baseline c' = None -> snap_status s = Absent ->
    ends host config r c (Ok s, c', [script]).

Lemma apply_desired_ends host config r c c0 before :
  reply_before r = Ok before -> (forall t, before = Some t -> table_is_owned t = true) ->
  con_baseline c = con_baseline c0 ->
  ends host config r c0
    (apply_desired uuid_text uuid_parse sha256 hex_encode rules_json value_json host config r c before).
Proof.
  intros Hb Ho Hc. unfold apply_desired.
  destruct (render config _) as [script|e] eqn:Er; cbn [map_err]; [|by apply ends_failed; [|left]].
  unfold nft_err. destruct (reply_check r) as [[]|e] eqn:Ec; cbn [map_err]; [|by apply ends_failed; [|left]].
  assert (Hfail : forall e, ends host config r c0 (Err e, c, [script])).
  { intros e. apply ends_failed; [done|]. right. eauto 10. }
  unfold after_apply, nft_err. destruct (reply_apply r) as [[]|e] eqn:Ea; cbn [map_err]; [|apply Hfail].
  destruct (reply_after r) as [after|e] eqn:Ef; cbn [map_err]; [|apply Hfail].
  destruct (is_empty (rules config)) eqn:Ee.
  - destruct after; [apply Hfail|].
    eapply ends_removed; eauto. { by destruct (rules config). }
    unfold runtime_snapshot_from_table. rewrite Ee. done.
  - destruct after as [t|]; [|apply Hfail]. 
    assert (Hne : rules config <> []) by (by intros Hnil; rewrite Hnil in Ee).
    by eapply ends_applied.
Qed.

Lemma from_table_none host config cap baseline :
  snap_status (from_table host config cap None baseline) <> Applied.
Proof. unfold runtime_snapshot_from_table. by destruct (negb _). Qed.

Lemma reconcile_ends host config req r c : ends host config r c (reconcile host config req r c).
Proof.
  unfold reconcile_native. destruct (validate_port_forwarding_config _ _ _ config) as [[]|e];
    [|by apply ends_failed; [|left]].
  destruct (supported _); cbn [negb].
  2: { destruct (_ && _); [|by apply ends_failed; [|left]]. by apply ends_quiet; [left|]. }
  destruct (reply_nft_found r); cbn [negb]; [|by apply ends_failed; [|left]].
  unfold nft_err. destruct (reply_before r) as [before|e] eqn:Eb; cbn [map_err]; [|by apply ends_failed; [|left]].
  destruct before as [t|].
  - destruct (table_is_owned t) eqn:Eo; cbn [negb]; [|by apply ends_failed; [|left]].
    case_bool_decide as Hs.
    + by apply (ends_in_place host config r c t
        (with_owners (probe c r) (stat_ids (extract_rule_counters uuid_parse t)))).
    + apply apply_desired_ends; [done| |done]. by intros t' [= ->].
  - destruct (is_empty (rules config)).
    + apply ends_quiet; [by right|]. apply from_table_none.
    + by apply apply_desired_ends.
Qed.

(** C28: Nothing is ever applied over a table the agent does not own: when nft is given
    a program, the table was listed just before and was absent or carried the
    ownership marker, the very program passed nft's check, and it is the rendering
    of the desired configuration that replaces the table exactly when there is
    one.  At most one program is applied. *)
Theorem foreign_table_untouched host config req r c res c' scripts :
  reconcile host config req r c = (res, c', scripts) ->
  scripts = [] \/
  exists before script, scripts = [script] /\ reply_before r = Ok before /\
    (forall t, before = Some t -> table_is_owned t = true) /\ reply_check r = Ok tt /\
    render config (bool_decide (is_Some before)) = Ok script.
Proof.
  intros H. pose proof (reconcile_ends host config req r c) as He. rewrite H in He.
  inversion He as [? ? ? ? [|(b & s & ?)]| | | |]; subst; try (by left); right; naive_solver.
Qed.

(** * Settling *)

(** C33: Once a configuration is applied, reconciling it again applies nothing and
    reports it as applied, as long as the table it finds differs from the one
    observed after the application in handles and counters alone. *)
Theorem reconcile_settles host config req r c s c' script t host2 req2 r2 t2 :
  reconcile host config req r c = (Ok s, c', [script]) -> reply_after r = Ok (Some t) ->
  supported (reply_probe r2) = true -> reply_nft_found r2 = true ->
  reply_before r2 = Ok (Some t2) -> table_is_owned t2 = true -> erase t2 = erase t ->
  exists s2 c2, reconcile host2 config req2 r2 c' = (Ok s2, c2, []) /\ snap_status s2 = Applied.
Proof.
  intros H Ha Hp Hn Hb Ho He. assert (Hok := H). unfold reconcile_native in Hok.
  destruct (validate_port_forwarding_config _ _ _ config) as [[]|] eqn:Hv; [|done]. clear Hok.
  pose proof (reconcile_ends host config req r c) as Hends. rewrite H in Hends.
  inversion Hends as [| | |before ? t' b ? Hb' _ _ Hr _ Hafter Hne Hbase Hd|before ? ? ? Hb' _ _ Hr Hnil Hbase Hs]; subst.
  - assert (t' = t) as -> by congruence. unfold reconcile_native. rewrite Hv, Hn, Hb.
    change (supported (con_capability (probe c' r2))) with (supported (reply_probe r2)). rewrite Hp.
    unfold nft_err. cbn [negb map_err]. rewrite Ho. cbn [negb].
    destruct Hd as (D1 & D2 & D3). cbn in D1, D2.
    assert (Hsnap : forall cap, snap_status (from_table host2 config cap (Some t2) (Some b)) = Applied).
    { intros cap. unfold runtime_snapshot_from_table. destruct (rules config); [done|]. cbn [is_empty negb].
      assert (table_hash t2 = table_hash t) as ->.
      { unfold normalized_table_hash. by rewrite (proj1 (erase_normalize t2 t He)). }
      by rewrite D1, D2, !str_eqb_refl. }
    cbn [with_owners probe con_baseline]. rewrite Hbase. rewrite bool_decide_true by apply Hsnap.
    eexists _, _. split; [done|]. apply Hsnap.
  - exfalso. clear - H Ha Hnil. unfold reconcile_native, apply_desired, after_apply, nft_err in H.
    rewrite Ha, Hnil in H. cbn [map_err is_empty] in H.
    repeat (case_match; simplify_eq/=; try done).
Qed.

(** * Runs *)

Inductive Op :=
| OpReconcile (host : Host) (config : AgentPortForwardingConfig) (require_table_access : bool)
    (r : NftReplies)
| OpInspect (host : Host) (config : AgentPortForwardingConfig) (nft_found : bool)
    (listed : result str (option Value))
| OpProbe (r : NftReplies)
| OpTableEvent
| OpMonitorStopped.

(** What happened, for the specification: a full listing was reported as applied; the monitor
    reported an event of the table. *)
Inductive Seen :=
| SawTable (t : Value)
| SawEvent.

(** What an operation reported: the configuration, the table it looked at, whether
    this was a full listing and the monitor was running, its snapshot, and the
    applications and what was seen up to it. *)
Record Report := {
  rep_config : AgentPortForwardingConfig;
  rep_table : option Value;
  rep_full : bool;
  rep_monitor : bool;
  rep_snapshot : PortForwardRuntimeSnapshot;
  rep_applications : list Application;
  rep_seen : list Seen;
}.

Record World := {
  w_consumer : PortForwardingConsumer;
  w_applications : list Application;
  w_reports : list Report;
  w_seen : list Seen;
}.

Definition listed_table (r : result str (option Value)) : option Value :=
  match r with Ok t => t | Err _ => None end.

Definition new_applications (config : AgentPortForwardingConfig) (r : NftReplies)
  (res : result ReconcileError PortForwardRuntimeSnapshot) (scripts : list str) : list Application :=
  match res, scripts, reply_after r with
  | Ok _, [script], Ok (Some t) => [ {| app_config := config; app_script := script; app_table := t |} ]
  | _, _, _ => []
  end.

Definition newly_seen (full : bool) (table : option Value) (s : PortForwardRuntimeSnapshot) : list Seen :=
  match table with
  | Some t => if full && bool_decide (snap_status s = Applied) then [SawTable t] else []
  | None => []
  end.

Definition with_consumer (w : World) (c : PortForwardingConsumer) : World := {|
  w_consumer := c; w_applications := w_applications w; w_reports := w_reports w; w_seen := w_seen w |}.

(** An operation that answers with the snapshot [s]. *)
Definition add_report (w : World) (c : PortForwardingConsumer) (apps : list Application)
  (config : AgentPortForwardingConfig) (table : option Value) (full : bool) (s : PortForwardRuntimeSnapshot) :
  World := {|
  w_consumer := c; w_applications := apps;
  w_reports := w_reports w ++
    [ {| rep_config := config; rep_table := table; rep_full := full; rep_monitor := con_monitor (w_consumer w);
         rep_snapshot := s; rep_applications := apps; rep_seen := w_seen w |} ];
  w_seen := w_seen w ++ newly_seen full table s |}.

Definition exec (w : World) (op : Op) : World :=
  match op with
  | OpReconcile host config req r =>
      let '(res, c, scripts) := reconcile host config req r (w_consumer w) in
      let apps := w_applications w ++ new_applications config r res scripts in
      let table := if is_empty scripts then listed_table (reply_before r) else listed_table (reply_after r) in
      match res with
      | Ok s => add_report w c apps config table true s
      | Err _ => {| w_consumer := c; w_applications := apps; w_reports := w_reports w; w_seen := w_seen w |}
      end
  | OpInspect host config nft_found listed =>
      let full := bool_decide (list_mode config (w_consumer w) = Full) in
      let '(s, c) := inspect host config nft_found listed (w_consumer w) in
      add_report w c (w_applications w) config (listed_table listed) full s
  | OpProbe r => with_consumer w (probe (w_consumer w) r)
  | OpTableEvent =>
      {| w_consumer := table_event (w_consumer w); w_applications := w_applications w;
         w_reports := w_reports w; w_seen := w_seen w ++ [SawEvent] |}
  | OpMonitorStopped => with_consumer w (monitor_stopped (w_consumer w))
  end.

Definition run (c : PortForwardingConsumer) (ops : list Op) : World :=
  foldl exec {| w_consumer := c; w_applications := []; w_reports := []; w_seen := [] |} ops.

(** An applied report names an application of a configuration with its hash.  A full
    listing has the hash of the table listed after that application.  Of a terse
    listing, which leaves the elements out, the structure has; the monitor is running, and
    it reported no event of the table since a full listing had the hash. *)
Definition report_ok (rep : Report) : Prop :=
  snap_status (rep_snapshot rep) = Applied ->
  exists app t, In app (rep_applications rep) /\ rep_table rep = Some t /\
    desired_hash (app_config app) = desired_hash (rep_config rep) /\
    (exists table_exists, render (app_config app) table_exists = Ok (app_script app)) /\
    if rep_full rep then table_hash t = table_hash (app_table app)
    else structure_hash t = structure_hash (app_table app) /\ rep_monitor rep = true /\
      exists earlier t0 later, rep_seen rep = earlier ++ SawTable t0 :: later /\
        table_hash t0 = table_hash (app_table app) /\ ~ In SawEvent later.

Definition app_ok (app : Application) : Prop :=
  exists table_exists, render (app_config app) table_exists = Ok (app_script app).

(** ** Events *)

Definition is_event (x : Seen) : bool := match x with SawEvent => true | SawTable _ => false end.
Definition events (l : list Seen) : Z := Z.of_nat (length (List.filter is_event l)).

Lemma events_app l k : events (l ++ k) = events l + events k.
Proof. unfold events. rewrite List.filter_app, length_app. lia. Qed.

Lemma events_cons_table t l : events (SawTable t :: l) = events l.
Proof. done. Qed.

Lemma events_none l : events l = 0 -> ~ In SawEvent l.
Proof.
  unfold events. intros H Hin. assert (Hf : In SawEvent (List.filter is_event l)) by by apply filter_In.
  by destruct (List.filter is_event l).
Qed.

Lemma newly_seen_events full table s : events (newly_seen full table s) = 0.
Proof. unfold newly_seen. destruct table; [|done]. by destruct (full && _). Qed.

(** A full listing with the hash [h] was seen, and [n] events after it. *)
Definition confirmed (seen : list Seen) (h : str) (n : Z) : Prop :=
  exists earlier t later, seen = earlier ++ SawTable t :: later /\ table_hash t = h /\ events later = n.

Lemma confirmed_app seen more h n : confirmed seen h n -> confirmed (seen ++ more) h (n + events more).
Proof.
  intros (earlier & t & later & -> & Ht & <-). exists earlier, t, (later ++ more).
  by rewrite <- app_assoc, events_app.
Qed.

Lemma confirmed_last seen t : confirmed (seen ++ [SawTable t]) (table_hash t) 0.
Proof. by exists seen, t, []. Qed.

(** ** The baseline *)

(** It describes an application, and its generation tells the events since a full listing
    with its hash was seen. *)
Record baseline_ok (b : AppliedBaseline) (generation : Z) (apps : list Application) (seen : list Seen) : Prop := {
  baseline_applied : exists app, In app apps /\ describes b app;
  baseline_typed : 0 <= base_event_generation b < 2 ^ 64;
  baseline_seen : exists n, confirmed seen (base_observed_hash b) n /\ n <= events seen /\
    generation = (base_event_generation b + n) mod 2 ^ 64;
}.

Definition consumer_ok (c : PortForwardingConsumer) (apps : list Application) (seen : list Seen) : Prop :=
  0 <= con_event_generation c < 2 ^ 64 /\
  forall b, con_baseline c = Some b -> baseline_ok b (con_event_generation c) apps seen.

Lemma events_nonneg l : 0 <= events l.
Proof. unfold events. lia. Qed.

Lemma baseline_mono b g apps seen more quiet :
  events quiet = 0 -> baseline_ok b g apps seen -> baseline_ok b g (apps ++ more) (seen ++ quiet).
Proof.
  intros Hq [(app & Hin & Hd) Ht (n & Hc & Hn & Hg)]. split; [|done|].
  - exists app. rewrite in_app_iff. auto.
  - exists n. rewrite events_app, Hq, Z.add_0_r. split; [|done].
    rewrite <- (Z.add_0_r n), <- Hq. by apply confirmed_app.
Qed.

Lemma consumer_mono c c' apps more seen quiet :
  con_event_generation c' = con_event_generation c ->
  (con_baseline c' = con_baseline c \/ con_baseline c' = None) ->
  events quiet = 0 -> consumer_ok c apps seen -> consumer_ok c' (apps ++ more) (seen ++ quiet).
Proof.
  intros Hg Hb Hq [Ht H]. unfold consumer_ok. rewrite Hg. split; [done|].
  intros b Hb'. apply baseline_mono; [done|]. apply H. destruct Hb; congruence.
Qed.

(** No event since: the generations agree. *)
Lemma generation_current b apps seen :
  baseline_ok b (base_event_generation b) apps seen -> events seen < 2 ^ 64 -> confirmed seen (base_observed_hash b) 0.
Proof.
  intros [_ Ht (n & Hc & Hn & Hg)] Hlt. assert (Hn0 : 0 <= n) by (destruct Hc as (? & ? & ? & _ & _ & <-); apply events_nonneg).
  replace 0 with n; [done|]. rewrite Z.add_mod, (Z.mod_small _ _ Ht) in Hg by lia.
  rewrite (Z.mod_small n) in Hg by lia. destruct (Z.le_gt_cases (2 ^ 64) (base_event_generation b + n)).
  - rewrite <- (Z.mod_add _ (-1)), Z.mod_small in Hg by lia. lia.
  - rewrite Z.mod_small in Hg by lia. lia.
Qed.

Lemma from_table_applied host config cap table baseline :
  snap_status (from_table host config cap table baseline) = Applied ->
  exists t b, table = Some t /\ baseline = Some b /\ base_desired_hash b = desired_hash config /\
    base_observed_hash b = table_hash t.
Proof.
  unfold runtime_snapshot_from_table. destruct table as [t|]; [|by destruct (negb _)].
  destruct (negb _); [|done]. destruct baseline as [b|]; [|done].
  destruct (str_eqb _ _ && _) eqn:E; [|done]. intros _. bools.
  repeat match goal with H : str_eqb _ _ = true |- _ => apply str_eqb_eq in H end. eauto 10.
Qed.

Lemma from_terse_applied host config cap table baseline :
  snap_status (runtime_snapshot_from_terse_table uuid_parse sha256 hex_encode value_json host config cap table baseline)
    = Applied ->
  exists t b, table = Some t /\ baseline = Some b /\ base_desired_hash b = desired_hash config /\
    base_structure_hash b = structure_hash t.
Proof.
  unfold runtime_snapshot_from_terse_table. destruct table as [t|]; [|by destruct (negb _)].
  destruct (negb _); [|done]. destruct baseline as [b|]; [|done].
  destruct (str_eqb _ _ && _) eqn:E; [|done]. intros _. bools.
  repeat match goal with H : str_eqb _ _ = true |- _ => apply str_eqb_eq in H end. eauto 10.
Qed.

(** The generation the operations leave. *)
Lemma reconcile_generation host config req r c res c' scripts :
  reconcile host config req r c = (res, c', scripts) ->
  con_event_generation c' = con_event_generation c /\
  (forall s b, res = Ok s -> scripts <> [] -> con_baseline c' = Some b -> base_event_generation b = con_event_generation c).
Proof.
  unfold reconcile_native, apply_desired, after_apply, nft_err. intros H.
  repeat (case_match; simplify_eq/=; try by split; [|intros; simplify_eq/=]).
Qed.

Lemma inspect_consumer host config found listed c s c' :
  inspect host config found listed c = (s, c') ->
  con_event_generation c' = con_event_generation c /\
  (con_baseline c' = con_baseline c \/
   (list_mode config c = Full /\ snap_status s = Applied /\
    con_baseline c' = refresh_generation (con_event_generation c) <$> con_baseline c)).
Proof.
  unfold inspect_native. destruct (supported _); cbn [negb]; [|intros [= <- <-]; auto].
  destruct found; cbn [negb]; [|intros [= <- <-]; auto].
  destruct listed as [table|]; [|intros [= <- <-]; auto].
  destruct (match table with Some _ => _ | None => _ end); [intros [= <- <-]; auto|].
  intros [= <- <-]. case_bool_decide as Hm; cbn [andb]; [|auto]. case_bool_decide as Hs; [|auto]. auto.
Qed.

(** What an applied answer of an inspection means. *)
Lemma inspect_applied host config found listed c s c' :
  inspect host config found listed c = (s, c') -> snap_status s = Applied ->
  exists t b, listed_table listed = Some t /\ con_baseline c = Some b /\ base_desired_hash b = desired_hash config /\
    match list_mode config c with
    | Full => base_observed_hash b = table_hash t
    | Terse => base_structure_hash b = structure_hash t /\ con_monitor c = true /\
               base_event_generation b = con_event_generation c
    end.
Proof.
  unfold inspect_native. destruct (supported _); cbn [negb]; [|by intros [= <- <-]].
  destruct found; cbn [negb]; [|by intros [= <- <-]].
  destruct listed as [table|]; [|by intros [= <- <-]].
  destruct (match table with Some _ => _ | None => _ end); [by intros [= <- <-]|].
  intros [= <- <-] Hs. cbn [listed_table]. destruct (list_mode config c) eqn:Em.
  - apply from_table_applied in Hs as (t & b & -> & -> & ? & ?). eauto 10.
  - apply from_terse_applied in Hs as (t & b & -> & Hb & ? & ?). exists t, b.
    repeat split; try done; unfold list_mode in Em; rewrite Hb in Em;
      destruct (con_monitor c); try done; destruct (_ =? _) eqn:E; try done; bools; done.
Qed.

(** ** The invariant *)

Record world_ok (w : World) : Prop := {
  w_consumer_ok : consumer_ok (w_consumer w) (w_applications w) (w_seen w);
  w_apps_ok : Forall app_ok (w_applications w);
  w_reports_ok : Forall (fun rep => events (rep_seen rep) <= events (w_seen w) /\
    (events (rep_seen rep) < 2 ^ 64 -> report_ok rep)) (w_reports w);
}.

Lemma old_reports w more :
  Forall (fun rep => events (rep_seen rep) <= events (w_seen w) /\
    (events (rep_seen rep) < 2 ^ 64 -> report_ok rep)) (w_reports w) ->
  Forall (fun rep => events (rep_seen rep) <= events (w_seen w ++ more) /\
    (events (rep_seen rep) < 2 ^ 64 -> report_ok rep)) (w_reports w).
Proof.
  intros H. eapply Forall_impl; [exact H|]. intros rep [Hle Hok]. split; [|done].
  rewrite events_app. pose proof (events_nonneg more). lia.
Qed.

Lemma add_report_ok w c apps config table full s :
  world_ok w -> Forall app_ok apps -> consumer_ok c apps (w_seen w ++ newly_seen full table s) ->
  (events (w_seen w) < 2 ^ 64 ->
   report_ok {| rep_config := config; rep_table := table; rep_full := full; rep_monitor := con_monitor (w_consumer w);
                rep_snapshot := s; rep_applications := apps; rep_seen := w_seen w |}) ->
  world_ok (add_report w c apps config table full s).
Proof.
  intros [_ _ Hr] Ha Hc Hrep. split; [done|done|]. cbn [add_report w_reports w_seen]. apply Forall_app.
  split; [by apply old_reports|]. constructor; [|constructor]. cbn [rep_seen].
  rewrite events_app, newly_seen_events, Z.add_0_r. done.
Qed.

Lemma plain_consumer w c more : world_ok w ->
  con_event_generation c = con_event_generation (w_consumer w) ->
  (con_baseline c = con_baseline (w_consumer w) \/ con_baseline c = None) ->
  forall full table s, consumer_ok c (w_applications w ++ more) (w_seen w ++ newly_seen full table s).
Proof.
  intros [Hc _ _] Hg Hb full table s. apply (consumer_mono (w_consumer w)); [done..|apply newly_seen_events|done].
Qed.

(** A full listing with the hash of the baseline is that of the application behind it. *)
Lemma full_recognised w config t b monitor s seen :
  world_ok w -> con_baseline (w_consumer w) = Some b -> base_desired_hash b = desired_hash config ->
  base_observed_hash b = table_hash t ->
  report_ok {| rep_config := config; rep_table := Some t; rep_full := true; rep_monitor := monitor;
               rep_snapshot := s; rep_applications := w_applications w; rep_seen := seen |}.
Proof.
  intros [[_ Hc] Ha _] Hb Hd Ho _. destruct (baseline_applied _ _ _ _ (Hc b Hb)) as (app & Hin & D1 & D2 & _).
  rewrite List.Forall_forall in Ha. exists app, t. cbn. split; [done|]. split; [done|]. split; [congruence|].
  split; [by apply Ha|]. congruence.
Qed.

Lemma applied_recognised w host config r script t b c :
  world_ok w -> rules config <> [] -> con_baseline c = Some b ->
  con_event_generation c = con_event_generation (w_consumer w) ->
  base_event_generation b = con_event_generation (w_consumer w) ->
  (exists table_exists, render config table_exists = Ok script) ->
  describes b {| app_config := config; app_script := script; app_table := t |} -> reply_after r = Ok (Some t) ->
  world_ok (add_report w c (w_applications w ++ [ {| app_config := config; app_script := script; app_table := t |} ])
    config (Some t) true (from_table host config (con_capability c) (Some t) (Some b))).
Proof.
  intros Hw Hne Hb Hg Hbg Hren Hd Haft. set (app := {| app_config := config; app_script := script; app_table := t |}).
  assert (Hin : In app (w_applications w ++ [app])) by (apply in_app_iff; right; by left).
  destruct (w_consumer_ok w Hw) as [Ht _]. assert (Hd' := Hd). destruct Hd' as (D1 & D2 & D3). cbn in D1, D2, D3.
  assert (Hs : snap_status (from_table host config (con_capability c) (Some t) (Some b)) = Applied).
  { unfold runtime_snapshot_from_table. destruct (rules config); [done|]. cbn [is_empty negb].
    by rewrite D1, D2, !str_eqb_refl. }
  apply add_report_ok; [done|..].
  - apply Forall_app. split; [apply Hw|]. constructor; [done|constructor].
  - unfold newly_seen. rewrite bool_decide_true by done. cbn [andb]. split; [by rewrite Hg|].
    rewrite Hb. intros b' [= <-]. split; [by exists app|by rewrite Hbg|]. exists 0. rewrite D2.
    split; [apply confirmed_last|]. split; [apply events_nonneg|]. by rewrite Hg, Hbg, Z.add_0_r, Z.mod_small.
  - intros _ _. exists app, t. cbn. done.
Qed.

Lemma reconcile_ok w host config req r : world_ok w -> world_ok (exec w (OpReconcile host config req r)).
Proof.
  intros Hw. cbn [exec]. pose proof (reconcile_ends host config req r (w_consumer w)) as He.
  destruct (reconcile host config req r (w_consumer w)) as [[res c] scripts] eqn:Hrec.
  destruct (reconcile_generation _ _ _ _ _ _ _ _ Hrec) as [Hg Hbg].
  inversion He as [e ? ? Hbc _|s ? Hbc Hns|t ? Hbef _ Hbc Hs|before script t b ? Hbef _ _ Hren _ Haft Hne Hbc Hd
    |before script ? s Hbef _ _ Hren _ Hbc Hs]; subst; unfold new_applications.
  - split; [|by rewrite app_nil_r; apply Hw|apply Hw]. cbn [w_consumer w_applications w_seen].
    rewrite <- (app_nil_r (w_seen w)). apply (consumer_mono (w_consumer w)); [done|by left|done|apply Hw].
  - apply add_report_ok; [done|by rewrite app_nil_r; apply Hw|by apply plain_consumer|]. by intros _ ?.
  - cbn [is_empty]. rewrite Hbef. cbn [listed_table].
    apply add_report_ok; [done|by rewrite app_nil_r; apply Hw|by apply plain_consumer; auto|].
    destruct (from_table_applied _ _ _ _ _ Hs) as (t' & b & [= <-] & Hbase & Hd & Ho).
    intros _. rewrite app_nil_r. by apply (full_recognised w config t b).
  - rewrite Haft. cbn [is_empty listed_table].
    apply (applied_recognised w host config r); try done; [by eapply Hbg|by eexists].
  - apply add_report_ok; [done|..|by apply plain_consumer; auto|].
    + apply Forall_app. split; [apply Hw|]. destruct (reply_after r) as [[t|]|]; repeat constructor. by eexists.
    + intros _ Hs'. cbn in Hs'. congruence.
Qed.

Lemma inspect_ok w host config found listed : world_ok w -> world_ok (exec w (OpInspect host config found listed)).
Proof.
  intros Hw. cbn [exec]. destruct (inspect _ _ _ _ _) as [s c] eqn:E.
  destruct (inspect_consumer _ _ _ _ _ _ _ E) as [Hg Hb]. assert (Happ := inspect_applied _ _ _ _ _ _ _ E).
  apply add_report_ok; [done|apply Hw|..].
  - destruct Hb as [Hb|(Hm & Hs & Hb)].
    { rewrite <- (app_nil_r (w_applications w)). apply plain_consumer; auto. }
    destruct (Happ Hs) as (t & b & Ht & Hbase & Hd & Ho). rewrite Hm in Ho. destruct (w_consumer_ok w Hw) as [Hty Hc].
    unfold newly_seen. rewrite Ht, !bool_decide_true by done. cbn [andb]. split; [by rewrite Hg|].
    rewrite Hb, Hbase. intros b' [= <-]. split; [exact (baseline_applied _ _ _ _ (Hc b Hbase))|done|]. exists 0. cbn [refresh_generation base_observed_hash base_event_generation].
    rewrite Ho. split; [apply confirmed_last|]. split; [apply events_nonneg|]. by rewrite Hg, Z.add_0_r, Z.mod_small.
  - intros Hlt Hs. cbn in Hs. destruct (Happ Hs) as (t & b & Ht & Hbase & Hd & Ho).
    rewrite Ht. destruct (list_mode config (w_consumer w)).
    + rewrite bool_decide_true by done. by apply (full_recognised w config t b).
    + rewrite bool_decide_false by done. destruct Ho as (Ho & Hmon & Hbg). destruct (w_consumer_ok w Hw) as [_ Hc].
      assert (Hbok := Hc b Hbase). destruct (baseline_applied _ _ _ _ Hbok) as (app & Hin & D1 & D2 & D3).
      rewrite <- Hbg in Hbok. destruct (generation_current _ _ _ Hbok Hlt) as (earlier & t0 & later & Hseen & Ht0 & Hev).
      assert (Ha := w_apps_ok w Hw). rewrite List.Forall_forall in Ha. exists app, t. cbn.
      split; [done|]. split; [done|]. split; [congruence|]. split; [by apply Ha|]. split; [congruence|]. split; [done|].
      exists earlier, t0, later. split; [done|]. split; [congruence|by apply events_none].
Qed.

Lemma table_event_ok w : world_ok w -> world_ok (exec w OpTableEvent).
Proof.
  intros [[Hty Hc] Ha Hr]. split; [|done|exact (old_reports w [SawEvent] Hr)]. cbn [exec w_consumer w_applications w_seen]. split.
  - cbn. apply Z.mod_pos_bound. lia.
  - cbn [table_event con_baseline con_event_generation]. intros b Hb. destruct (Hc b Hb) as [Happ Ht (n & Hn & Hle & Hg)].
    split; [done|done|]. exists (n + 1). split; [exact (confirmed_app _ [SawEvent] _ _ Hn)|].
    split; [rewrite events_app; change (events [SawEvent]) with 1; lia|].
    rewrite Hg, Z.add_mod_idemp_l by lia. f_equal. lia.
Qed.

Lemma exec_ok w op : world_ok w -> world_ok (exec w op).
Proof.
  destruct op; [apply reconcile_ok|apply inspect_ok|..|apply table_event_ok|]; by intros [Hc Ha Hr].
Qed.

Lemma exec_events w op : events (w_seen (exec w op)) <= events (w_seen w) + 1.
Proof.
  destruct op; cbn [exec].
  - destruct (reconcile _ _ _ _ _) as [[[s|e] c] scripts]; cbn [add_report w_seen]; rewrite ?events_app, ?newly_seen_events; lia.
  - destruct (inspect _ _ _ _ _) as [s c]. cbn [add_report w_seen]. rewrite events_app, newly_seen_events. lia.
  - cbn. lia.
  - cbn [w_seen]. rewrite events_app. change (events [SawEvent]) with 1. lia.
  - cbn. lia.
Qed.

Lemma world_run_ok ops w : world_ok w ->
  world_ok (foldl exec w ops) /\ events (w_seen (foldl exec w ops)) <= events (w_seen w) + vec_len ops.
Proof.
  revert w. induction ops as [|op ops IH]; intros w Hw; cbn [foldl]; unfold vec_len in *; cbn [length]; [split; [done|lia]|].
  destruct (IH (exec w op) (exec_ok w op Hw)) as [Hok Hle]. split; [done|]. pose proof (exec_events w op). lia.
Qed.

(** C29: Whatever the agent does after it starts (reconciliations, inspections, probes,
    monitor events, a stopped monitor), it reports its native rules as applied only
    when it recognised the table: the hash of its normal form is that of the table listed
    right after nft accepted the program rendered for a configuration with the same
    desired hash.  A terse listing, which leaves out the elements of sets and maps, is
    judged by the hash of its structure, and then the monitor is running and has
    reported no event of the table since the last full listing with the hash. *)
Theorem reported_applied_sound c ops rep :
  con_baseline c = None -> 0 <= con_event_generation c < 2 ^ 64 -> vec_len ops < 2 ^ 64 ->
  In rep (w_reports (run c ops)) -> report_ok rep.
Proof.
  intros Hc Hg Hlen Hin. unfold run in Hin.
  destruct (world_run_ok ops {| w_consumer := c; w_applications := []; w_reports := []; w_seen := [] |}) as [[_ _ Hr] Hle].
  { split; [|constructor|constructor]. split; [done|]. cbn. rewrite Hc. by intros b. }
  rewrite List.Forall_forall in Hr. destruct (Hr rep Hin) as [Hev Hok]. apply Hok.
  change (events []) with 0 in Hle. cbn [w_seen] in Hle. change (events []) with 0 in Hle. lia.
Qed.

End Consumer.

(** * Samples *)

(** The listing nft prints for the sample table, with its counter at [packets]. *)
Definition listing_ex (packets : Z) : Value :=
  json_object [("nftables"%string, Array [
    json_object [("metainfo"%string, json_object [("version"%string, Str (lit "1.0.9"))])];
    json_object [("table"%string, json_object [("family"%string, Str (lit "inet"));
      ("name"%string, Str (lit "vpsman_port_forward")); ("handle"%string, json_int 7)])];
    json_object [("set"%string, json_object [("elem"%string, Array [json_int 1448104781]);
      ("family"%string, Str (lit "inet")); ("name"%string, Str (lit "vpsman_ownership_v1"));
      ("table"%string, Str (lit "vpsman_port_forward")); ("type"%string, Str (lit "mark"))])];
    json_object [("rule"%string, json_object [("comment"%string, Str (lit "vpsman-rule:1:1"));
      ("expr"%string, Array [json_object [("counter"%string,
        json_object [("bytes"%string, json_int (packets * 60)); ("packets"%string, json_int packets)])]])])]])].

Definition capability_ex : PortForwardCapability := {|
  cap_status := Supported; cap_nft_version := Some (lit "1.0.9"); cap_reason := None;
  cap_schema_version := 1; cap_supported_modes := [] |}.

Definition replies_ex (before after : option Value) : NftReplies := {|
  reply_probe := capability_ex; reply_monitor_started := true; reply_nft_found := true;
  reply_before := Ok before; reply_check := Ok tt; reply_apply := Ok tt; reply_after := Ok after |}.

Definition host_ex : Host := {| unix_now := 0; ipv4_forwarding := Some true; ipv6_forwarding := None |}.

Definition consumer_ex : PortForwardingConsumer := {|
  con_capability := capability_ex; con_baseline := None; con_event_generation := 0;
  con_monitor := false; con_native_owners := ∅ |}.

Definition uuid_text_ex (_ : Z) : str := repeat 48 36.
Definition uuid_parse_ex (s : str) : option Z := parse_unsigned u128_max s.
Definition value_json_ex (v : Value) : list Z :=
  match v with Object members => concat (map fst members) | _ => [] end.

Abbreviation reconcile_ex :=
  (reconcile_native uuid_text_ex uuid_parse_ex hash_ex hex_ex json_ex value_json_ex host_ex config_ex false).

(** The first reconciliation of the sample configuration. *)
Definition first_ex : Outcome := reconcile_ex (replies_ex None (Some (listing_ex 0))) consumer_ex.

Lemma foreign_table_untouched_witness :
  snd first_ex <> [] /\
  (snd first_ex = [] \/
   exists before script, snd first_ex = [script] /\ reply_before (replies_ex None (Some (listing_ex 0))) = Ok before /\
     (forall t, before = Some t -> table_is_owned t = true) /\
     reply_check (replies_ex None (Some (listing_ex 0))) = Ok tt /\
     render_apply_script uuid_text_ex hash_ex hex_ex json_ex config_ex (bool_decide (is_Some before)) = Ok script).
Proof.
  split; [vm_compute; discriminate|].
  exact (foreign_table_untouched uuid_text_ex uuid_parse_ex hash_ex hex_ex json_ex value_json_ex host_ex config_ex
    false (replies_ex None (Some (listing_ex 0))) consumer_ex (fst (fst first_ex)) (snd (fst first_ex)) (snd first_ex)
    eq_refl).
Defined.

Lemma first_ex_applies : exists s c script, first_ex = (Ok s, c, [script]).
Proof. do 3 eexists. vm_compute. reflexivity. Qed.

(** Later traffic has moved the counter; nothing is applied again. *)
Lemma reconcile_settles_witness :
  exists s c script, first_ex = (Ok s, c, [script]) /\
    exists s2 c2, reconcile_ex (replies_ex (Some (listing_ex 12)) None) c = (Ok s2, c2, []) /\
      snap_status s2 = Applied.
Proof.
  destruct first_ex_applies as (s & c & script & H). exists s, c, script. split; [exact H|].
  exact (reconcile_settles uuid_text_ex uuid_parse_ex hash_ex hex_ex json_ex value_json_ex host_ex config_ex false
    (replies_ex None (Some (listing_ex 0))) consumer_ex s c script (listing_ex 0) host_ex false
    (replies_ex (Some (listing_ex 12)) None) (listing_ex 12) H eq_refl eq_refl eq_refl eq_refl eq_refl eq_refl).
Defined.

Definition ops_ex : list Op :=
  [OpReconcile host_ex config_ex false (replies_ex None (Some (listing_ex 0)));
   OpInspect host_ex config_ex true (Ok (Some (listing_ex 5)))].

Abbreviation reports_ex :=
  (w_reports (run uuid_text_ex uuid_parse_ex hash_ex hex_ex json_ex value_json_ex consumer_ex ops_ex)).

Lemma reported_applied_sound_witness :
  map (fun rep => (snap_status (rep_snapshot rep), rep_full rep)) reports_ex = [(Applied, true); (Applied, false)] /\
  exists rep, In rep reports_ex /\
    report_ok uuid_text_ex hash_ex hex_ex json_ex value_json_ex rep.
Proof.
  split; [vm_compute; reflexivity|].
  assert (Hne : exists rep, In rep reports_ex).
  { destruct reports_ex as [|rep l] eqn:E; [|exists rep; left; reflexivity].
    apply (f_equal length) in E. vm_compute in E. discriminate. }
  destruct Hne as [rep Hin]. exists rep. split; [exact Hin|].
  exact (reported_applied_sound uuid_text_ex uuid_parse_ex hash_ex hex_ex json_ex value_json_ex consumer_ex ops_ex
    rep eq_refl (conj (Z.le_refl 0) eq_refl) eq_refl Hin).
Defined.

(** A monitor that stopped misses events until a probe starts another; the generation
    does not change, and the next inspection is content with a terse listing. *)
Definition monitor_gap_ops : list Op :=
  [OpReconcile host_ex config_ex false (replies_ex None (Some (listing_ex 0)));
   OpMonitorStopped; OpProbe (replies_ex None None);
   OpInspect host_ex config_ex true (Ok (Some (listing_ex 5)))].

Example monitor_gap_unnoticed :
  map (fun rep => (snap_status (rep_snapshot rep), rep_full rep))
    (w_reports (run uuid_text_ex uuid_parse_ex hash_ex hex_ex json_ex value_json_ex consumer_ex monitor_gap_ops))
  = [(Applied, true); (Applied, false)].
Proof. vm_compute. reflexivity. Qed.
