(* ===== verification/NftPoolProofs.v ===== *)
(** Upstream pools: the loop of validation and the selector map of the rendered
    program.  The intervals of the map partition the selector's values, every
    enabled endpoint has exactly its weight of them. *)

From S2P Require Import Prelude RustStd Auth TagOrder TagOrderProofs Net PortForwarding PortForwardProofs NftRender NftProofs.

Open Scope Z_scope.

(** * The loop over the rows *)

Definition rows_apart (a b : PortForwardUpstream) : Prop :=
  ~ (up_target_ip a = up_target_ip b /\ overlaps (up_ports a) (up_ports b) = true).

Definition enabled_weight (rows : list PortForwardUpstream) : Z :=
  foldr Z.add 0 (map (fun row => up_weight row * cardinality (up_ports row)) (List.filter up_enabled rows)).

Record rows_checked (s : RowState) : Prop := {
  checked_apart : ForallOrdPairs rows_apart (rs_seen s);
  checked_rows : Forall (fun row => validate_range (up_ports row) = Ok tt /\ 0 < up_weight row) (rs_seen s);
  checked_families : Forall (fun row => row_family row ∈ rs_families s) (rs_seen s);
  checked_weight : rs_total_weight s = enabled_weight (rs_seen s);
}.

Lemma sum_snoc l x : foldr Z.add 0 (l ++ [x]) = foldr Z.add 0 l + x.
Proof. induction l as [|a l IH]; cbn; lia. Qed.

Lemma enabled_weight_snoc rows row :
  enabled_weight (rows ++ [row]) =
  enabled_weight rows + (if up_enabled row then up_weight row * cardinality (up_ports row) else 0).
Proof.
  unfold enabled_weight. rewrite List.filter_app, map_app. cbn. destruct (up_enabled row); cbn.
  - by rewrite sum_snoc.
  - rewrite app_nil_r. lia.
Qed.

Lemma ord_pairs_snoc {A} (R : A -> A -> Prop) l x :
  ForallOrdPairs R l -> Forall (fun y => R y x) l -> ForallOrdPairs R (l ++ [x]).
Proof.
  induction 1 as [|a l Ha Hl IH]; cbn; intros Hx.
  - by repeat constructor.
  - apply Forall_cons in Hx as [Hax Hx]. constructor; [|auto]. apply Forall_app. by repeat constructor.
Qed.

Lemma pool_check_ok c m : pool_check c m = Ok tt -> c = true.
Proof. unfold pool_check. by destruct c. Qed.

Lemma check_row_step m p strategy n s s' row :
  check_row m p strategy n s row = Ok s' -> rows_checked s ->
  rows_checked s' /\ rs_seen s' = rs_seen s ++ [row].
Proof.
  unfold check_row. intros H [Ha Hr Hf Hw]. inv_bind.
  destruct a, a0, a1, a2, a3, a4, a5. subst s'. cbn. split; [|done]. split; cbn.
  - apply ord_pairs_snoc; [done|]. apply pool_check_ok in E3. bools. apply List.Forall_forall.
    intros other Hin [He Ho]. pose proof (existsb_false _ _ other E3 Hin) as Hfalse. cbn in Hfalse.
    by rewrite bool_decide_true, Ho in Hfalse.
  - apply Forall_app. split; [done|]. constructor; [|constructor].
    apply pool_check_ok in E1. bools. done.
  - clear E E0 E1 E2 E3 E4 E5. apply Forall_app. case_bool_decide as Hin.
    + by repeat constructor.
    + split; [|repeat constructor; apply elem_of_app; right; constructor].
      eapply Forall_impl; [exact Hf|]. intros x Hx. apply elem_of_app. by left.
  - fold (enabled_weight (rs_seen s ++ [row])). rewrite enabled_weight_snoc, <- Hw. destruct (up_enabled row); lia.
Qed.

Lemma check_rows m p strategy n rows s s' :
  try_fold (check_row m p strategy n) s rows = Ok s' -> rows_checked s ->
  rows_checked s' /\ rs_seen s' = rs_seen s ++ rows.
Proof.
  revert s. induction rows as [|row rows IH]; cbn; intros s H Hs.
  - inv_bind. subst. by rewrite app_nil_r.
  - inv_bind. destruct (check_row_step _ _ _ _ _ _ _ E Hs) as [Ha Hseen].
    destruct (IH _ H Ha) as [Hs' ->]. split; [done|]. by rewrite Hseen, <- app_assoc.
Qed.

(** What an accepted pool's rows satisfy. *)
Lemma validate_pool_rows pool m p :
  validate_port_forward_pool pool m p = Ok tt ->
  exists families,
    pool_upstreams pool <> [] /\ existsb up_enabled (pool_upstreams pool) = true /\
    ForallOrdPairs rows_apart (pool_upstreams pool) /\
    Forall (fun row => validate_range (up_ports row) = Ok tt /\ 0 < up_weight row) (pool_upstreams pool) /\
    Forall (fun row => row_family row ∈ families) (pool_upstreams pool) /\
    (m = Dnat -> length families = 1%nat /\ enabled_weight (pool_upstreams pool) <= u32_max /\
                 native_strategy (pool_strategy pool) = true).
Proof.
  unfold validate_port_forward_pool. intros H. inv_bind.
  apply check_rows in E8 as [[Ha Hr Hf Hw] Hs]; [|by repeat constructor].
  cbn in Hs. rewrite Hs in *. exists (rs_families a8).
  repeat match goal with X : () |- _ => destruct X end.
  apply pool_check_ok in E0, E4, E5, E9, E10. bools.
  split; [by destruct (pool_upstreams pool)|]. split; [done|]. split; [done|]. split; [done|]. split; [done|].
  intros ->. rewrite bool_decide_true in E0, E9, E10 by done. cbn in *.
  apply Nat.eqb_eq in E9. bools. rewrite <- Hw. done.
Qed.

(** * The selector map *)

Definition in_slot (v : Z) (e : PoolElement) : bool := (slot_first e <=? v) && (v <=? slot_last e).

Definition endpoint (e : PoolElement) : IpAddr * Z := (slot_ip e, slot_port e).

(** The endpoint the map gives for a selector value. *)
Definition select_endpoint (p : PortForwardPool) (v : Z) : option (IpAddr * Z) :=
  endpoint <$> List.find (in_slot v) (pool_elements p).

(** Intervals that follow one another from [a] up to, not including, [b]. *)
Fixpoint chained (a : Z) (es : list PoolElement) (b : Z) : Prop :=
  match es with
  | [] => a = b
  | e :: es' => slot_first e = a /\ a <= slot_last e /\ chained (slot_last e + 1) es' b
  end.

Lemma chained_app a es fs c : chained a (es ++ fs) c <-> exists b, chained a es b /\ chained b fs c.
Proof.
  revert a. induction es as [|e es IH]; cbn; intros a; [naive_solver|]. rewrite IH. naive_solver.
Qed.

Lemma chained_le a es b : chained a es b -> a <= b.
Proof. revert a. induction es as [|e es IH]; cbn; intros a; [lia|]. intros (_ & Hl & H%IH). lia. Qed.

Lemma chained_in a es b e : chained a es b -> In e es ->
  a <= slot_first e /\ slot_first e <= slot_last e < b.
Proof.
  revert a. induction es as [|f es IH]; cbn; intros a; [done|]. intros (He & Hl & H) [->|Hin].
  - apply chained_le in H. lia.
  - apply IH in H; [lia|done].
Qed.

Lemma chained_once a es b v : chained a es b -> at_most_one (in_slot v) es.
Proof.
  revert a. induction es as [|e es IH]; cbn; intros a; [intros _; unfold at_most_one; cbn; lia|].
  intros (He & Hl & H). apply at_most_one_cons. split; [by eapply IH|]. intros Hv x Hx.
  apply chained_in with (e := x) in H; [|done]. unfold in_slot in *. bools.
  apply andb_false_iff. left. apply Z.leb_gt. lia.
Qed.

Lemma chained_covers a es b v : chained a es b -> a <= v < b -> exists e, In e es /\ in_slot v e = true.
Proof.
  revert a. induction es as [|e es IH]; cbn; intros a; [lia|]. intros (He & Hl & H) Hv.
  destruct (Z.le_gt_cases v (slot_last e)) as [Hle|Hgt].
  - exists e. split; [by left|]. unfold in_slot. apply andb_true_intro. split; apply Z.leb_le; lia.
  - destruct (IH _ H ltac:(lia)) as (f & Hf & Hs). eauto.
Qed.

Lemma row_elements_spec first weight ip ports :
  0 < weight ->
  let '(es, next) := row_elements first weight ip ports in
  chained first es next /\ next = first + weight * vec_len ports /\
  map endpoint es = map (fun port => (ip, port)) ports /\
  Forall (fun e => slot_last e - slot_first e + 1 = weight) es.
Proof.
  intros Hw. revert first. induction ports as [|port ports IH]; cbn; intros first.
  - split; [done|]. split; [unfold vec_len; cbn; lia|]. by split; [|constructor].
  - specialize (IH (first + weight - 1 + 1)). destruct (row_elements _ _ _ _) as [es next].
    destruct IH as (Hc & -> & Hm & Hf). cbn. split; [|split; [|split]].
    + split; [done|]. split; [lia|done].
    + unfold vec_len. cbn [length]. lia.
    + by rewrite Hm.
    + constructor; [cbn; lia|done].
Qed.

Definition row_endpoints (row : PortForwardUpstream) : list (IpAddr * Z) :=
  map (fun port => (up_target_ip row, port)) (ports_of (up_ports row)).

Definition rows_weight (rows : list PortForwardUpstream) : Z :=
  foldr Z.add 0 (map (fun row => up_weight row * vec_len (ports_of (up_ports row))) rows).

Lemma rows_elements_spec first rows :
  Forall (fun row => 0 < up_weight row) rows ->
  chained first (rows_elements first rows) (first + rows_weight rows) /\
  map endpoint (rows_elements first rows) = flat_map row_endpoints rows /\
  (forall row port, In row rows -> In port (ports_of (up_ports row)) ->
     exists e, In e (rows_elements first rows) /\ endpoint e = (up_target_ip row, port) /\
               slot_last e - slot_first e + 1 = up_weight row).
Proof.
  intros Hw. revert first. induction Hw as [|row rows Hr _ IH]; cbn; intros first.
  { unfold rows_weight. cbn. split; [lia|]. by split. }
  pose proof (row_elements_spec first (up_weight row) (up_target_ip row) (ports_of (up_ports row)) Hr) as Hs.
  destruct (row_elements _ _ _ _) as [es next]. destruct Hs as (Hc & -> & Hm & Hf).
  destruct (IH (first + up_weight row * vec_len (ports_of (up_ports row)))) as (Hc' & Hm' & He').
  split; [|split].
  - apply chained_app. eexists. split; [done|]. unfold rows_weight in *. cbn.
    by replace (first + (_ + _)) with (first + up_weight row * vec_len (ports_of (up_ports row)) +
      foldr Z.add 0 (map (fun row => up_weight row * vec_len (ports_of (up_ports row))) rows)) by lia.
  - by rewrite map_app, Hm, Hm'.
  - intros r port [<-|Hin] Hp.
    + assert (Hx : In (up_target_ip row, port) (map endpoint es)) by (rewrite Hm; by apply (in_map (fun q => (up_target_ip row, q)))).
      apply in_map_iff in Hx as (e & He & Hin). exists e. split; [apply in_app_iff; auto|]. split; [done|].
      rewrite List.Forall_forall in Hf. auto.
    + destruct (He' r port Hin Hp) as (e & He & Hx). exists e. split; [apply in_app_iff; auto|done].
Qed.

Lemma in_ports_of r p : In p (ports_of r) <-> in_ports p r = true.
Proof.
  unfold ports_of, in_ports. rewrite <- list_elem_of_In, elem_of_seqZ, andb_true_iff, !Z.leb_le. lia.
Qed.

Lemma vec_len_ports r : range_typed r -> range_ok r -> vec_len (ports_of r) = cardinality r.
Proof.
  intros T O. rewrite cardinality_exact by done. unfold vec_len, ports_of. rewrite length_seqZ.
  unfold range_ok in O. lia.
Qed.

(** Rows apart have no endpoint in common. *)
Lemma endpoints_NoDup rows :
  ForallOrdPairs rows_apart rows -> NoDup (flat_map row_endpoints rows).
Proof.
  induction 1 as [|row rows Ha _ IH]; cbn; [constructor|]. apply NoDup_app. split; [|split; [|done]].
  - apply NoDup_fmap_2; [by intros ? ? [= ->]|]. unfold ports_of. apply NoDup_seqZ.
  - intros x Hx%list_elem_of_In Hy%list_elem_of_In.
    apply in_map_iff in Hx as (p & <- & Hp). apply in_flat_map in Hy as (other & Hin & Ho).
    apply in_map_iff in Ho as (q & [= He ->] & Hq). rewrite List.Forall_forall in Ha.
    apply (Ha other Hin). split; [done|]. rewrite in_ports_of in Hp, Hq. unfold in_ports, overlaps in *. bools.
    apply andb_true_intro. split; apply Z.leb_le; lia.
Qed.

Lemma ord_pairs_filter {A} (R : A -> A -> Prop) (f : A -> bool) l :
  ForallOrdPairs R l -> ForallOrdPairs R (List.filter f l).
Proof.
  induction 1 as [|a l Ha _ IH]; cbn; [constructor|]. destruct (f a); [|done]. constructor; [|done].
  rewrite List.Forall_forall in Ha |- *. intros x [Hx _]%filter_In. auto.
Qed.

(** A value selects an element's endpoint exactly when it lies in its interval. *)
Lemma select_iff a es b e v :
  chained a es b -> NoDup (map endpoint es) -> In e es ->
  endpoint <$> List.find (in_slot v) es = Some (endpoint e) <-> in_slot v e = true.
Proof.
  intros Hc Hn He. split.
  - destruct (List.find _ es) as [f|] eqn:E; [|done]. apply find_some in E as [Hf Hv].
    cbn. intros [= Heq H0]. apply list_elem_of_In, list_elem_of_lookup in He as [i Hi].
    apply list_elem_of_In, list_elem_of_lookup in Hf as [j Hj].
    assert (i = j) as ->; [|congruence].
    eapply NoDup_lookup; [exact Hn|by rewrite list_lookup_fmap, Hi|]. rewrite list_lookup_fmap, Hj.
    cbn. unfold endpoint. by rewrite Heq, H0.
  - intros Hv. by rewrite (find_unique _ _ e (chained_once _ _ _ v Hc) He Hv).
Qed.

(** The native pool rule's validation, as the renderer relies on it. *)
Lemma dnat_pool_rows rule p :
  validate_port_forward_rule rule = Ok tt -> mode rule = Dnat -> pool rule = Some p -> rule_typed rule ->
  let rows := List.filter up_enabled (pool_upstreams p) in
  rows <> [] /\ Forall (fun row => 0 < up_weight row /\ 0 < vec_len (ports_of (up_ports row))) rows /\
  ForallOrdPairs rows_apart rows /\ pool_total p = rows_weight rows /\ pool_total p <= u32_max.
Proof.
  unfold validate_port_forward_rule. destruct (is_empty _); [done|]. destruct (_ <? _); [done|].
  intros H Hm Hp (_ & _ & _ & _ & Ht). inv_bind. rewrite Hp, Hm in *. destruct (_ || _); [done|].
  apply validate_pool_rows in H as (fs & _ & Hen & Ha & Hr & _ & Hd). destruct (Hd eq_refl) as (_ & Hw & _).
  destruct (Ht p eq_refl) as [_ Hty]. cbn. rewrite List.Forall_forall in Hr, Hty.
  assert (Hcard : forall row, In row (pool_upstreams p) ->
    vec_len (ports_of (up_ports row)) = cardinality (up_ports row) /\ 0 < cardinality (up_ports row)).
  { intros row Hin. destruct (Hr row Hin) as [(_ & _ & O)%validate_range_ok _].
    destruct (Hty row Hin) as [T _]. rewrite vec_len_ports by done. split; [done|].
    rewrite cardinality_exact by done. unfold range_ok in O. lia. }
  split; [|split; [|split; [|split]]].
  - apply existsb_exists in Hen as (row & Hin & He). intros Hnil.
    assert (Hf : In row (List.filter up_enabled (pool_upstreams p))) by by apply filter_In. by rewrite Hnil in Hf.
  - apply List.Forall_forall. intros row [Hin _]%filter_In. destruct (Hcard row Hin) as [-> ?].
    split; [by apply Hr|done].
  - by apply ord_pairs_filter.
  - unfold pool_total, rows_weight. f_equal. apply map_ext_in. intros row [Hin _]%filter_In.
    by rewrite (proj1 (Hcard row Hin)).
  - exact Hw.
Qed.

Lemma rows_weight_pos rows :
  rows <> [] -> Forall (fun row => 0 < up_weight row /\ 0 < vec_len (ports_of (up_ports row))) rows ->
  1 <= rows_weight rows.
Proof.
  assert (Hnn : forall rows, Forall (fun row => 0 < up_weight row /\ 0 < vec_len (ports_of (up_ports row))) rows ->
    0 <= rows_weight rows).
  { unfold rows_weight. induction 1 as [|row l [H1 H2] _ IH]; cbn; [lia|]. nia. }
  destruct rows as [|row rows]; [done|]. intros _ Hf. apply Forall_cons in Hf as [[H1 H2] Hf].
  apply Hnn in Hf. unfold rows_weight in *. cbn. nia.
Qed.

(** The selector map of an accepted native pool: its values are the [pool_total]
    numbers the selector produces, a 32-bit count; every value picks one endpoint,
    which is a port of an enabled row; and every enabled endpoint is picked by as
    many values, in a row, as its weight. *)
Theorem pool_weights_exact rule p :
  validate_port_forward_rule rule = Ok tt -> mode rule = Dnat -> pool rule = Some p -> rule_typed rule ->
  1 <= pool_total p <= u32_max /\
  (forall v, 0 <= v < pool_total p -> exists row port,
     In row (pool_upstreams p) /\ up_enabled row = true /\ In port (ports_of (up_ports row)) /\
     select_endpoint p v = Some (up_target_ip row, port)) /\
  (forall row port, In row (pool_upstreams p) -> up_enabled row = true ->
     In port (ports_of (up_ports row)) ->
     exists a, 0 <= a /\ a + up_weight row <= pool_total p /\
       forall v, select_endpoint p v = Some (up_target_ip row, port) <-> a <= v < a + up_weight row).
Proof.
  intros Hv Hm Hp Ht. destruct (dnat_pool_rows rule p Hv Hm Hp Ht) as (Hne & Hf & Ha & Htot & Hmax).
  set (rows := List.filter up_enabled (pool_upstreams p)) in *.
  destruct (rows_elements_spec 0 rows) as (Hc & Hend & Hex).
  { eapply Forall_impl; [exact Hf|]. by intros row []. }
  change (rows_elements 0 rows) with (pool_elements p) in Hc, Hend, Hex. rewrite Z.add_0_l, <- Htot in Hc.
  assert (Hnd : NoDup (map endpoint (pool_elements p))) by (rewrite Hend; by apply endpoints_NoDup).
  split; [split; [rewrite Htot; by apply rows_weight_pos|done]|]. split.
  - intros v Hr. destruct (chained_covers _ _ _ v Hc Hr) as (e & He & Hs).
    apply (select_iff _ _ _ e v Hc Hnd He) in Hs.
    assert (Hin : In (endpoint e) (flat_map row_endpoints rows)) by (rewrite <- Hend; by apply in_map).
    apply in_flat_map in Hin as (row & [Hrow Hen]%filter_In & (port & Heq & Hport)%in_map_iff).
    exists row, port. split; [done|]. split; [done|]. split; [done|]. by rewrite Heq.
  - intros row port Hrow Hen Hport.
    destruct (Hex row port) as (e & He & Heq & Hw); [by apply filter_In|done|].
    destruct (chained_in _ _ _ e Hc He). exists (slot_first e). split; [done|]. split; [lia|].
    intros v. rewrite <- Heq. unfold select_endpoint. rewrite (select_iff _ _ _ e v Hc Hnd He).
    unfold in_slot. rewrite andb_true_iff, !Z.leb_le. lia.
Qed.

(** Port 8001 of the first upstream has two of the five selector values. *)
Lemma pool_weights_exact_witness :
  validate_port_forward_rule pooled_ex = Ok tt /\
  exists a, 0 <= a /\ a + 2 <= pool_total pool_ex /\
    forall v, select_endpoint pool_ex v = Some (IpV4 167772166, 8001) <-> a <= v < a + 2.
Proof.
  assert (Hv : validate_port_forward_rule pooled_ex = Ok tt) by (vm_compute; reflexivity).
  split; [exact Hv|].
  assert (Ht : rule_typed pooled_ex).
  { pose proof config_ex_typed as H. rewrite List.Forall_forall in H. apply H. cbn. auto. }
  exact (proj2 (proj2 (pool_weights_exact pooled_ex pool_ex Hv eq_refl eq_refl Ht))
    (upstream_ex 1 167772166 8000 8001 2) 8001 (or_introl eq_refl) eq_refl (or_intror (or_introl eq_refl))).
Defined.
