(* ===== verification/NftSizeProofs.v ===== *)
(** The size of the rendered nftables program.

    Validation refuses a configuration whose estimated program is too large; the
    theorem at the end shows that the estimate bounds the text that is rendered,
    so an accepted configuration renders: no assertion of the renderer fails and
    its own size check never does. *)

From S2P Require Import Prelude RustStd Auth VpsDecimal TagOrder TagOrderProofs Net PortForwarding PortForwardProofs NftRender NftProofs NftPoolProofs.

Open Scope Z_scope.

(** Replaces the length of every literal by its value. *)
Ltac lens :=
  rewrite ?str_len_app;
  repeat match goal with
  | |- context [str_len (lit ?s)] =>
      let n := eval vm_compute in (str_len (lit s)) in change (str_len (lit s)) with n
  | |- context [str_len nl] => change (str_len nl) with 1
  | |- context [str_len quote] => change (str_len quote) with 1
  | |- context [str_len (@nil _)] => change (str_len []) with 0
  end.

(** * Sums *)

Definition zsum (l : list Z) : Z := foldr Z.add 0 l.

Lemma zsum_app l k : zsum (l ++ k) = zsum l + zsum k.
Proof. unfold zsum. induction l as [|a l IH]; cbn; lia. Qed.

Lemma zsum_le {A} (f g : A -> Z) l :
  (forall x, In x l -> f x <= g x) -> zsum (map f l) <= zsum (map g l).
Proof.
  unfold zsum. induction l as [|a l IH]; cbn; [lia|]. intros H.
  pose proof (H a ltac:(auto)). pose proof (IH ltac:(auto)). lia.
Qed.

Lemma zsum_plus {A} (f g : A -> Z) l : zsum (map (fun x => f x + g x) l) = zsum (map f l) + zsum (map g l).
Proof. unfold zsum. induction l as [|a l IH]; cbn; lia. Qed.

Lemma zsum_scale {A} (f : A -> Z) c l : zsum (map (fun x => c * f x) l) = c * zsum (map f l).
Proof. unfold zsum. induction l as [|a l IH]; cbn; lia. Qed.

Lemma zsum_const {A} c (l : list A) : zsum (map (fun _ => c) l) = c * vec_len l.
Proof. unfold zsum. induction l as [|a l IH]; [unfold vec_len; cbn; lia|]. rewrite vec_len_cons. cbn. lia. Qed.

Lemma zsum_nonneg {A} (f : A -> Z) l : (forall x, In x l -> 0 <= f x) -> 0 <= zsum (map f l).
Proof. intros H. pose proof (zsum_le (fun _ => 0) f l H) as Hz. rewrite zsum_const in Hz. lia. Qed.

Lemma zsum_filter_le {A} (f : A -> Z) g l :
  (forall x, In x l -> 0 <= f x) -> zsum (map f (List.filter g l)) <= zsum (map f l).
Proof.
  unfold zsum. induction l as [|a l IH]; cbn; [lia|]. intros H.
  pose proof (IH ltac:(auto)). pose proof (H a ltac:(auto)). destruct (g a); cbn; lia.
Qed.

Lemma zsum_swap {A B} (f : A -> B -> Z) l k :
  zsum (map (fun a => zsum (map (f a) k)) l) = zsum (map (fun b => zsum (map (fun a => f a b) l)) k).
Proof.
  induction l as [|a l IH]; cbn.
  - change (fun b : B => zsum []) with (fun _ : B => 0). rewrite zsum_const. lia.
  - fold (zsum (map (fun a0 => zsum (map (f a0) k)) l)). rewrite IH, <- zsum_plus. done.
Qed.

Lemma vec_len_flat_map {A B} (f : A -> list B) l : vec_len (flat_map f l) = zsum (map (fun x => vec_len (f x)) l).
Proof. induction l as [|a l IH]; [done|]. cbn [flat_map map]. rewrite vec_len_app, IH. done. Qed.

Lemma vec_len_map {A B} (f : A -> B) l : vec_len (map f l) = vec_len l.
Proof. unfold vec_len. by rewrite length_map. Qed.

Lemma map_enumerate {A B} (f : A -> B) l : map (fun e => f (snd e)) (enumerate l) = map f l.
Proof.
  unfold enumerate. change (map ?g ?l) with (g <$> l). rewrite fmap_imap. cbn.
  rewrite <- imap_const. done.
Qed.

Lemma str_len_concat l : str_len (concat l) = zsum (map str_len l).
Proof. induction l as [|a l IH]; [done|]. cbn [concat map]. rewrite str_len_app, IH. done. Qed.

Lemma text_len_nonneg s : 0 <= str_len s.
Proof. unfold str_len. lia. Qed.

Lemma join_len sep l b :
  Forall (fun x => str_len x <= b) l -> str_len (join sep l) <= (b + str_len sep) * vec_len l.
Proof.
  pose proof (text_len_nonneg sep). induction 1 as [|x l Hx Hl IH]; [by rewrite Z.mul_0_r|].
  destruct l as [|y l].
  - change (vec_len [x]) with 1. cbn [join]. lia.
  - rewrite join_cons, !str_len_app, vec_len_cons by done. lia.
Qed.

(** * Numbers and addresses *)

Lemma to_string_len_neg k n : 0 < n < 10 ^ Z.of_nat (S k) -> str_len (to_string (- n)) <= Z.of_nat (S k) + 1.
Proof.
  intros Hn. pose proof (to_string_len k n ltac:(lia)) as H. unfold to_string in *.
  destruct (Z.ltb_spec (- n) 0); [|lia]. destruct (Z.ltb_spec n 0); [lia|]. rewrite Z.opp_involutive.
  change (45 :: ?s) with ([45] ++ s). rewrite str_len_app. change (str_len [45]) with 1. lia.
Qed.

Lemma revision_len n : i64_min <= n <= i64_max -> str_len (to_string n) <= 20.
Proof.
  unfold i64_min, i64_max. intros H. destruct (Z.le_gt_cases 0 n) as [Hn|Hn].
  - pose proof (to_string_len 18 n). lia.
  - replace n with (- - n) by lia. pose proof (to_string_len_neg 18 (- n)). lia.
Qed.

Lemma port_len n : 0 <= n <= u16_max -> str_len (to_string n) <= 5.
Proof. unfold u16_max. intros H. apply (to_string_len 4). lia. Qed.

Lemma u32_len n : 0 <= n <= u32_max -> str_len (to_string n) <= 10.
Proof. unfold u32_max. intros H. apply (to_string_len 9). lia. Qed.

Lemma port_range_len r : range_typed r -> str_len (render_port_range (start r) (end_ r)) <= 11.
Proof.
  intros [H1 H2]. unfold render_port_range. pose proof (port_len _ H1). pose proof (port_len _ H2).
  destruct (_ =? _); lens; lia.
Qed.

Lemma ipv4_len v : 0 <= v < 2 ^ 32 -> str_len (format_ipv4 v) <= 15.
Proof.
  intros H. unfold format_ipv4. lens.
  assert (Ho : forall n, 0 <= n < 256 -> str_len (to_string n) <= 3) by (intros; apply (to_string_len 2); lia).
  pose proof (Ho (v / 2 ^ 24) ltac:(Z.div_mod_to_equations; lia)).
  pose proof (Ho (v / 2 ^ 16 mod 256) ltac:(apply Z.mod_pos_bound; lia)).
  pose proof (Ho (v / 2 ^ 8 mod 256) ltac:(apply Z.mod_pos_bound; lia)).
  pose proof (Ho (v mod 256) ltac:(apply Z.mod_pos_bound; lia)). lia.
Qed.

Lemma hex_char_ascii d : 0 <= d < 16 -> hex_char d < 128.
Proof. unfold hex_char. destruct (_ <? _); lia. Qed.

Lemma format_hex_len g : 0 <= g < 65536 -> str_len (format_hex g) <= 4.
Proof.
  intros Hg. unfold format_hex.
  set (ds := map hex_char _). assert (Hds : Forall (fun c => c < 128) ds).
  { subst ds. cbn [map]. repeat constructor; apply hex_char_ascii; Z.div_mod_to_equations; lia. }
  assert (Hl : vec_len ds = 4) by done. destruct (drop_while_suffix (Z.eqb 48) ds) as (l & He & _).
  destruct (drop_while (Z.eqb 48) ds) as [|c s] eqn:E; [done|].
  rewrite He in Hds. apply Forall_app in Hds as [_ Hds]. rewrite str_len_ascii by done.
  rewrite He, vec_len_app in Hl. pose proof (vec_len_nonneg l). lia.
Qed.

Lemma format_groups_len gs :
  Forall (fun g => 0 <= g < 65536) gs -> str_len (format_groups gs) <= 5 * vec_len gs.
Proof.
  intros Hg. unfold format_groups. etransitivity; [apply (join_len _ _ 4)|].
  - apply Forall_map. eapply Forall_impl; [exact Hg|]. apply format_hex_len.
  - rewrite vec_len_map. lens. lia.
Qed.

Lemma ipv6_len v : 0 <= v < 2 ^ 128 -> str_len (format_ipv6 v) <= 42.
Proof.
  intros Hv. unfold format_ipv6, ipv4_mapped. destruct (_ =? _).
  { pose proof (ipv4_len (v mod 2 ^ 32) ltac:(apply Z.mod_pos_bound; lia)). lens. lia. }
  assert (Hg : Forall (fun g => 0 <= g < 65536) (ipv6_groups v)).
  { unfold ipv6_groups. cbn [map]. repeat constructor; apply Z.mod_pos_bound; lia. }
  assert (Hl : vec_len (ipv6_groups v) = 8) by done.
  destruct (longest_zeros _ _ _ _) as [first len].
  destruct (1 <? len)%nat; [|pose proof (format_groups_len _ Hg); lia].
  pose proof (format_groups_len _ (Forall_take _ first _ Hg)).
  pose proof (format_groups_len _ (Forall_drop _ (first + len) _ Hg)). lens.
  unfold vec_len in *. rewrite length_take, length_drop in *. lia.
Qed.

Lemma ip_len a : ip_wf a -> str_len (format_ip_addr a) <= 42.
Proof.
  unfold ip_wf. destruct a as [v|v]; cbn [ip_value is_ipv4 ip_width format_ip_addr]; intros H.
  - pose proof (ipv4_len v H). lia.
  - by apply ipv6_len.
Qed.

Lemma try_map_bound {A} (f : A -> result RenderError str) l b :
  (forall x, In x l -> exists text, f x = Ok text /\ str_len text <= b) ->
  exists texts, try_map f l = Ok texts /\ str_len (concat texts) <= b * vec_len l.
Proof.
  induction l as [|a l IH]; intros H.
  - exists []. by rewrite Z.mul_0_r.
  - destruct (H a (in_eq _ _)) as (x & Hx & Hl). destruct IH as (xs & Hxs & Hls); [auto using in_cons|].
    exists (x :: xs). cbn [try_map]. rewrite Hx, Hxs. split; [done|]. cbn [concat].
    rewrite str_len_app, vec_len_cons. lia.
Qed.

(** * Elements *)

Lemma elements_len {A} (f : A -> str) es b :
  Forall (fun e => str_len (f e) <= b) es -> str_len (join (lit ", ") (map f es)) <= (b + 2) * vec_len es.
Proof.
  intros H. etransitivity; [apply (join_len _ _ b); by apply Forall_map|]. rewrite vec_len_map. lens. lia.
Qed.

Lemma transport_len p t : In t (transports p) -> str_len t = 3.
Proof. destruct p; cbn [transports In]; intuition subst; done. Qed.

Lemma family_len p f : pool_family p = Ok f -> str_len f <= 3.
Proof. unfold pool_family. destruct (pool_upstreams p); [done|]. intros [= <-]. destruct (is_ipv4 _); lens; lia. Qed.

Section Rule.

Context (i : Z) (rule : PortForwardRule).
Hypothesis Hi : 0 <= i < 1000.
Hypothesis Ht : rule_typed rule.
Hypothesis Hv : validate_port_forward_rule rule = Ok tt.
Hypothesis Hn : is_native rule = true.

Lemma index_len : str_len (to_string i) <= 3.
Proof. apply (to_string_len 2). cbn. lia. Qed.

Abbreviation n_incoming := (vec_len (incoming_ranges rule)).
Abbreviation n_fixed := (vec_len (List.filter mapping_is_fixed (mappings rule))).
Abbreviation n_identity := (vec_len (List.filter mapping_is_identity (mappings rule))).
Abbreviation n_shifted := (vec_len (shifted_elements rule)).

Lemma mapping_values m :
  pool rule = None -> In m (mappings rule) ->
  mapping_typed m /\ range_ok (incoming m) /\ range_ok (target m) /\
  (is_single (target m) = true \/ cardinality (target m) = cardinality (incoming m)).
Proof.
  intros Hp Hm. destruct Ht as (_ & _ & _ & Hmt & _). rewrite List.Forall_forall in Hmt. split; [by apply Hmt|].
  unfold validate_port_forward_rule in Hv. destruct (is_empty _); [done|]. destruct (_ <? _); [done|].
  inv_bind. rewrite Hp in Hv. apply validate_mappings_ok in Hv as (_ & Hall & _).
  rewrite List.Forall_forall in Hall. destruct (validate_mapping_ok _ _ (Hall m Hm)) as (_ & H1 & H2 & H3).
  apply validate_range_ok in H1, H2. tauto.
Qed.

Lemma fixed_map_len t :
  pool rule = None -> In t (transports (protocol rule)) ->
  str_len (render_fixed_map i rule t) <= 121 + 21 * n_fixed.
Proof.
  intros Hp Hin. pose proof index_len as HI. pose proof (transport_len _ _ Hin) as HT. unfold render_fixed_map.
  pose proof (vec_len_nonneg (List.filter mapping_is_fixed (mappings rule))).
  destruct (existsb _ _); [|lens; lia].
  assert (He : str_len (join (lit ", ") (map render_fixed_element (fixed_elements rule))) <= 21 * n_fixed).
  { etransitivity; [apply (elements_len _ _ 19)|unfold fixed_elements; rewrite vec_len_map; lia].
    apply List.Forall_forall. intros [r q] (m & Hm & _ & <- & <-)%in_fixed_elements.
    destruct (mapping_values m Hp Hm) as ([T1 [T2 _]] & _). unfold render_fixed_element. cbn [fst snd].
    pose proof (port_range_len _ T1). pose proof (port_len _ T2). lens. lia. }
  unfold fixed_map_name. lens. lia.
Qed.

Lemma shifted_map_len t :
  pool rule = None -> In t (transports (protocol rule)) ->
  str_len (render_shifted_map i rule t) <= 103 + 15 * n_shifted.
Proof.
  intros Hp Hin. pose proof index_len as HI. pose proof (transport_len _ _ Hin) as HT. unfold render_shifted_map.
  pose proof (vec_len_nonneg (shifted_elements rule)). destruct (existsb _ _); [|lens; lia].
  assert (He : str_len (join (lit ", ") (map render_shifted_element (shifted_elements rule))) <= 15 * n_shifted).
  { apply (elements_len _ _ 13).
    apply List.Forall_forall. intros [p q] (m & o & Hm & Hs & Ho & -> & ->)%in_shifted_elements.
    destruct (mapping_values m Hp Hm) as ([T1 T2] & O1 & O2 & Hc). unfold render_shifted_element. cbn [fst snd].
    unfold mapping_is_shifted in Hs. destruct Hc as [Hc|Hc]; [by rewrite Hc in Hs|].
    rewrite !cardinality_exact in * by done. unfold range_typed, range_ok in *.
    pose proof (port_len (start (incoming m) + o)). pose proof (port_len (start (target m) + o)). lens. lia. }
  unfold shifted_map_name. lens. lia.
Qed.

(** The modes of accepted native rules. *)
Lemma native_shape :
  (exists p, pool rule = Some p /\ mode rule = Dnat) \/
  (pool rule = None /\ exists ip, mode rule = Dnat /\ target_ip rule = Some ip) \/
  (pool rule = None /\ mode rule = Redirect /\ exists f, address_family rule = Some f).
Proof.
  unfold is_native in Hn. bools. unfold validate_port_forward_rule, validate_mode_fields in Hv.
  destruct (is_empty _); [done|]. destruct (_ <? _); [done|]. inv_bind.
  destruct (mode rule) eqn:Em; [|..|done].
  - destruct (pool rule) as [p|]; [left; eauto|]. right. left. split; [done|].
    inv_bind. eauto.
  - right. right. destruct (pool rule); [done|]. destruct (address_family rule); [eauto|].
    destruct (_ || masquerade rule) eqn:Eo; [done|]. bools. done.
Qed.

Lemma families_pos : 1 <= vec_len (native_families rule).
Proof.
  unfold native_families, first_target.
  destruct native_shape as [(p & Hp & ->)|[(Hp & ip & -> & ->)|(Hp & -> & f & ->)]].
  - assert (Hr := Hv). unfold validate_port_forward_rule in Hr.
    destruct (is_empty _); [done|]. destruct (_ <? _); [done|]. inv_bind. rewrite Hp in Hr |- *.
    destruct (_ || _) eqn:Eo; [done|]. bools. destruct (target_ip rule); [by destruct H0|].
    apply validate_pool_rows in Hr as (fs & Hne & _). cbn.
    destruct (pool_upstreams p) as [|row rows]; [done|]. cbn. by destruct (up_target_ip row).
  - by destruct ip.
  - by destruct f.
Qed.

Lemma pool_element_count p :
  pool rule = Some p -> mode rule = Dnat ->
  vec_len (pool_elements p) = zsum (map (fun row => cardinality (up_ports row)) (List.filter up_enabled (pool_upstreams p))).
Proof.
  intros Hp Hm. destruct (dnat_pool_rows rule p Hv Hm Hp Ht) as (_ & Hf & _ & _ & _).
  destruct (rows_elements_spec 0 (List.filter up_enabled (pool_upstreams p))) as (_ & Hend & _).
  { eapply Forall_impl; [exact Hf|]. by intros row []. }
  rewrite <- (vec_len_map endpoint). unfold pool_elements. rewrite Hend, vec_len_flat_map. f_equal.
  apply map_ext_in. intros row [Hin _]%filter_In. unfold row_endpoints. rewrite vec_len_map.
  assert (Hr := Hv). unfold validate_port_forward_rule in Hr.
  destruct (is_empty _); [done|]. destruct (_ <? _); [done|]. inv_bind. rewrite Hp in Hr.
  destruct (_ || _); [done|]. apply validate_pool_rows in Hr as (fs & _ & _ & _ & Hrows & _).
  rewrite List.Forall_forall in Hrows. destruct (Hrows row Hin) as [(_ & _ & O)%validate_range_ok _].
  destruct Ht as (_ & _ & _ & _ & Htp). destruct (Htp p Hp) as [_ Hty]. rewrite List.Forall_forall in Hty.
  apply vec_len_ports; [by apply Hty|done].
Qed.

Lemma pool_element_len p e :
  pool rule = Some p -> mode rule = Dnat -> In e (pool_elements p) ->
  str_len (render_pool_element e) <= 74.
Proof.
  intros Hp Hm He. destruct (dnat_pool_rows rule p Hv Hm Hp Ht) as (_ & Hf & _ & Htot & Hmax).
  destruct (rows_elements_spec 0 (List.filter up_enabled (pool_upstreams p))) as (Hc & Hend & _).
  { eapply Forall_impl; [exact Hf|]. by intros row []. }
  rewrite Z.add_0_l, <- Htot in Hc. destruct (chained_in _ _ _ e Hc He) as [H1 H2].
  pose proof (chained_le _ _ _ Hc).
  assert (Hin : In (endpoint e) (flat_map row_endpoints (List.filter up_enabled (pool_upstreams p))))
    by (rewrite <- Hend; by apply in_map).
  apply in_flat_map in Hin as (row & [Hrow _]%filter_In & (port & [= Hip Hport] & Hps)%in_map_iff).
  destruct Ht as (_ & _ & _ & _ & Htp). destruct (Htp p Hp) as [_ Hty]. rewrite List.Forall_forall in Hty.
  destruct (Hty row Hrow) as ([T1 T2] & Hwf & _). rewrite in_ports_of in Hps. unfold in_ports in Hps. bools.
  pose proof (ip_len _ Hwf) as Hl1. pose proof (port_len port ltac:(lia)) as Hl2.
  pose proof (u32_len (slot_first e) ltac:(lia)). pose proof (u32_len (slot_last e) ltac:(lia)).
  unfold render_pool_element. rewrite <- Hip, <- Hport. destruct (_ =? _); lens; lia.
Qed.

Lemma pool_map_renders p :
  pool rule = Some p -> mode rule = Dnat ->
  exists f text, pool_family p = Ok f /\ render_map i p = Ok text /\
    str_len text <= 117 + 76 * vec_len (pool_elements p).
Proof.
  intros Hp Hm. pose proof index_len as HI.
  assert (exists f, pool_family p = Ok f) as [f Hf].
  { destruct (dnat_pool_rows rule p Hv Hm Hp Ht) as (Hne & _). unfold pool_family.
    destruct (pool_upstreams p); [done|]. eauto. }
  pose proof (family_len p f Hf) as HF. unfold render_map. rewrite Hf. cbn [mbind result_bind].
  eexists _, _. split; [done|]. split; [done|].
  assert (He : str_len (join (lit ", ") (map render_pool_element (pool_elements p))) <= 76 * vec_len (pool_elements p)).
  { apply (elements_len _ _ 74). apply List.Forall_forall. intros e He. by apply (pool_element_len p). }
  lens. lia.
Qed.

Lemma pool_translation_renders p t :
  pool rule = Some p -> mode rule = Dnat -> In t (transports (protocol rule)) ->
  exists text, render_translation i rule p t = Ok text /\ str_len text <= 128.
Proof.
  intros Hp Hm Hin. pose proof index_len as HI. pose proof (transport_len _ _ Hin) as HT.
  destruct (pool_map_renders p Hp Hm) as (f & _ & Hf & _). pose proof (family_len p f Hf) as HF.
  destruct (dnat_pool_rows rule p Hv Hm Hp Ht) as (Hne & Hfr & _ & Htot & Hmax).
  pose proof (rows_weight_pos _ Hne Hfr) as Hpos. rewrite <- Htot in Hpos.
  pose proof (u32_len (pool_total p) ltac:(lia)) as HN.
  assert (Hseed : str_len (to_string (affinity_seed (rule_id rule))) <= 10).
  { apply u32_len. unfold affinity_seed, u32_max. destruct Ht as (Hid & _). unfold u128_max in Hid.
    Z.div_mod_to_equations. lia. }
  assert (Hst : native_strategy (pool_strategy p) = true).
  { assert (Hr := Hv). unfold validate_port_forward_rule in Hr.
    destruct (is_empty _); [done|]. destruct (_ <? _); [done|]. inv_bind. rewrite Hp, Hm in Hr.
    destruct (_ || _); [done|]. apply validate_pool_rows in Hr as (fs & _ & _ & _ & _ & _ & Hd).
    by apply Hd. }
  unfold render_translation, render_selector. rewrite Hf. cbn [mbind result_bind].
  destruct (pool_strategy p); try done; cbn [mbind result_bind]; eexists; (split; [done|]); lens; lia.
Qed.

Lemma translation_renders :
  pool rule = None ->
  exists text dest, translation_of rule = Ok (text, dest) /\ str_len text <= 56 /\ str_len dest <= 5.
Proof.
  intros Hp. unfold translation_of. destruct native_shape as [(p & Hp' & _)|[(_ & ip & -> & Hip)|(_ & -> & _)]].
  - congruence.
  - rewrite Hip. cbn [ok_or mbind result_bind]. destruct Ht as (_ & _ & Hwf & _). specialize (Hwf ip Hip).
    unfold ip_wf in Hwf. destruct ip as [v|v]; cbn [render_target_ip]; eexists _, _; (split; [done|]);
      cbn [ip_value is_ipv4 ip_width] in Hwf; [pose proof (ipv4_len v Hwf)|pose proof (ipv6_len v Hwf)]; lens; lia.
  - eexists _, _. split; [done|]. lens. lia.
Qed.

Lemma identity_len t translation :
  pool rule = None -> In t (transports (protocol rule)) -> str_len translation <= 56 ->
  str_len (render_identity rule t translation) <= 76 + 13 * n_identity.
Proof.
  intros Hp Hin Hl. pose proof (transport_len _ _ Hin) as HT. unfold render_identity.
  pose proof (vec_len_nonneg (List.filter mapping_is_identity (mappings rule))).
  destruct (is_empty _); [lens; lia|].
  assert (He : str_len (join (lit ", ") (map (fun r => render_port_range (start r) (end_ r)) (identity_ranges rule)))
                 <= 13 * n_identity).
  { etransitivity; [apply (elements_len _ _ 11)|unfold identity_ranges; rewrite vec_len_map; lia].
    apply List.Forall_forall. intros r (m & Hm & _ & <-)%in_identity_ranges.
    apply port_range_len. by apply (mapping_values m Hp Hm). }
  lens. lia.
Qed.

Context (uuid_text : Z -> str).
Hypothesis Huuid : forall id, 0 <= id <= u128_max -> str_len (uuid_text id) = 36.

Lemma chain_head_len t :
  In t (transports (protocol rule)) -> str_len (render_chain_head uuid_text i rule t) <= 160.
Proof.
  intros Hin. pose proof index_len as HI. pose proof (transport_len _ _ Hin) as HT.
  destruct Ht as (Hid & Hrev & _). pose proof (Huuid _ Hid). pose proof (revision_len _ Hrev).
  unfold render_chain_head, rule_chain_name. destruct (masquerade rule); lens; lia.
Qed.

Lemma map_use_len t translation dest name :
  In t (transports (protocol rule)) -> str_len translation <= 56 -> str_len dest <= 5 -> str_len name <= 16 ->
  str_len (render_map_use t translation dest name) <= 120.
Proof. intros Hin ? ? ?. pose proof (transport_len _ _ Hin) as HT. unfold render_map_use. lens. lia. Qed.

Lemma pool_chain_renders p t :
  pool rule = Some p -> mode rule = Dnat -> In t (transports (protocol rule)) ->
  exists text, render_rule_chain uuid_text i rule t = Ok text /\ str_len text <= 292.
Proof.
  intros Hp Hm Hin. destruct (pool_translation_renders p t Hp Hm Hin) as (text & Hr & Hl).
  unfold render_rule_chain, render_chain_body. rewrite Hp, Hr. cbn [mbind result_bind].
  eexists. split; [done|]. pose proof (chain_head_len t Hin). lens. lia.
Qed.

Lemma chain_renders t :
  pool rule = None -> In t (transports (protocol rule)) ->
  exists text, render_rule_chain uuid_text i rule t = Ok text /\ str_len text <= 480 + 13 * n_identity.
Proof.
  intros Hp Hin. destruct (translation_renders Hp) as (translation & dest & Htr & L1 & L2).
  unfold render_rule_chain, render_chain_body. rewrite Hp, Htr. cbn [mbind result_bind].
  eexists. split; [done|]. pose proof (chain_head_len t Hin). pose proof (identity_len t translation Hp Hin L1).
  pose proof index_len as HI. pose proof (transport_len _ _ Hin) as HT.
  assert (Hf : str_len (fixed_map_name i t) <= 16) by (unfold fixed_map_name; lens; lia).
  assert (Hs : str_len (shifted_map_name i t) <= 16) by (unfold shifted_map_name; lens; lia).
  pose proof (map_use_len t translation dest _ Hin L1 L2 Hf). pose proof (map_use_len t translation dest _ Hin L1 L2 Hs).
  rewrite !str_len_app. destruct (existsb mapping_is_fixed _), (existsb mapping_is_shifted _); lens; lia.
Qed.

(** What the estimate counts for a rule, for each transport and family, before
    saturation. *)
Definition exact_bytes : Z :=
  match pool rule with
  | Some p =>
      768 + vec_len (pool_incoming p) * 96 +
      zsum (map (fun row => cardinality (up_ports row)) (List.filter up_enabled (pool_upstreams p))) * 160
  | None =>
      768 + vec_len (mappings rule) * 96 + n_fixed * 48 +
      zsum (map (fun m => cardinality (incoming m) * 20) (List.filter mapping_is_shifted (mappings rule)))
  end.

Definition copies : Z := vec_len (transports (protocol rule)) * vec_len (native_families rule).

Lemma copies_transports : 1 <= vec_len (transports (protocol rule)) <= copies.
Proof.
  pose proof families_pos. unfold copies.
  assert (1 <= vec_len (transports (protocol rule))) by by destruct (protocol rule). nia.
Qed.

Lemma shifted_count :
  zsum (map (fun m => cardinality (incoming m) * 20) (List.filter mapping_is_shifted (mappings rule))) = 20 * n_shifted.
Proof.
  unfold shifted_elements. rewrite vec_len_flat_map, <- zsum_scale. f_equal. apply map_ext. intros m.
  rewrite vec_len_map. unfold vec_len. rewrite length_seqZ. unfold cardinality.
  pose proof (Z.mod_pos_bound (end_ (incoming m) - start (incoming m) + 1) (2 ^ 32) ltac:(lia)). lia.
Qed.

Lemma filter_count {A} (f : A -> bool) l : vec_len (List.filter f l) <= vec_len l.
Proof. unfold vec_len. pose proof (filter_length_le f l). lia. Qed.

(** The rule renders, and its share of the dispatch maps, its maps and its chains
    fit in what the estimate counts for it. *)
Lemma rule_renders :
  exists maps chains,
    render_rule_maps (i, rule) = Ok maps /\
    try_map (render_rule_chain uuid_text i rule) (transports (protocol rule)) = Ok chains /\
    36 * n_incoming * copies + str_len maps + str_len (concat chains) <= exact_bytes * copies.
Proof.
  pose proof copies_transports as Hc. set (nt := vec_len (transports (protocol rule))) in *.
  unfold render_rule_maps, exact_bytes, incoming_ranges.
  destruct native_shape as [(p & Hp & Hm)|Hshape].
  - rewrite Hp. destruct (pool_map_renders p Hp Hm) as (_ & maps & _ & -> & Hl).
    destruct (try_map_bound (render_rule_chain uuid_text i rule) (transports (protocol rule)) 292)
      as (chains & -> & Hlc). { intros t Hin. by apply (pool_chain_renders p). }
    exists maps, chains. split; [done|]. split; [done|]. fold nt in Hlc.
    rewrite <- (pool_element_count p Hp Hm). set (e := vec_len (pool_elements p)) in *.
    pose proof (vec_len_nonneg (pool_elements p)). pose proof (vec_len_nonneg (pool_incoming p)).
    fold e in H. assert (117 + 76 * e <= (117 + 76 * e) * copies) by nia. nia.
  - assert (Hp : pool rule = None) by (destruct Hshape as [[]|[]]; done). rewrite Hp. rewrite shifted_count, vec_len_map.
    destruct (try_map_bound (render_rule_chain uuid_text i rule) (transports (protocol rule)) (480 + 13 * n_identity))
      as (chains & -> & Hlc). { intros t Hin. by apply chain_renders. }
    eexists _, chains. split; [done|]. split; [done|]. fold nt in Hlc. rewrite str_len_concat, map_map.
    pose proof (filter_count mapping_is_identity (mappings rule)).
    pose proof (vec_len_nonneg (List.filter mapping_is_fixed (mappings rule))).
    pose proof (vec_len_nonneg (shifted_elements rule)). pose proof (vec_len_nonneg (mappings rule)).
    pose proof (vec_len_nonneg (List.filter mapping_is_identity (mappings rule))).
    assert (Hmaps : zsum (map (fun t => str_len (render_fixed_map i rule t ++ render_shifted_map i rule t))
                            (transports (protocol rule))) <= (224 + 21 * n_fixed + 15 * n_shifted) * nt).
    { unfold nt. rewrite <- (zsum_const (_ + _) (transports _)). apply zsum_le. intros t Hin. rewrite str_len_app.
      pose proof (fixed_map_len t Hp Hin). pose proof (shifted_map_len t Hp Hin). lia. }
    nia.
Qed.

End Rule.

(** * The estimate *)

(** [e] is [x], or saturated. *)
Definition reaches (e x : Z) : Prop := 0 <= x /\ Z.min u64_max x <= e.

Lemma reaches_refl x : 0 <= x -> reaches x x.
Proof. unfold reaches. lia. Qed.

Lemma reaches_add e f x y : reaches e x -> reaches f y -> reaches (usize_add e f) (x + y).
Proof. unfold reaches, usize_add, saturating_add, u64_max. lia. Qed.

Lemma reaches_mul e x c : reaches e x -> 0 <= c -> reaches (usize_mul e c) (x * c).
Proof.
  unfold reaches, usize_mul, saturating_mul. set (u := u64_max). assert (0 <= u) by by vm_compute. clearbody u.
  intros [Hx He] Hc. split; [nia|]. destruct (Z.le_gt_cases x u).
  - assert (x * c <= e * c) by nia. lia.
  - destruct (Z.eq_dec c 0) as [->|]; [lia|]. assert (u <= e * c) by nia. lia.
Qed.

Lemma reaches_fold {A} (f g : A -> Z) e x l :
  reaches e x -> (forall a, In a l -> reaches (f a) (g a)) ->
  reaches (foldl (fun acc a => usize_add acc (f a)) e l) (x + zsum (map g l)).
Proof.
  revert e x. induction l as [|a l IH]; intros e x He Hl; cbn.
  - by rewrite Z.add_0_r.
  - rewrite Z.add_assoc. apply IH; [|auto using in_cons]. apply reaches_add; auto using in_eq.
Qed.

Lemma cardinality_nonneg r : 0 <= cardinality r.
Proof. unfold cardinality. apply Z.mod_pos_bound. lia. Qed.

Lemma per_transport_reaches rule : reaches (per_transport_bytes rule) (exact_bytes rule).
Proof.
  unfold per_transport_bytes, exact_bytes. destruct (pool rule) as [p|].
  - apply reaches_add; [apply reaches_add; [by apply reaches_refl|]|].
    + apply reaches_mul; [apply reaches_refl, vec_len_nonneg|done].
    + apply reaches_mul; [|done]. rewrite <- (Z.add_0_l (zsum _)). apply (reaches_fold (fun row => cardinality (up_ports row))).
      * by apply reaches_refl.
      * intros row _. apply reaches_refl, cardinality_nonneg.
  - apply reaches_add; [apply reaches_add; [apply reaches_add; [by apply reaches_refl|]|]|].
    + apply reaches_mul; [apply reaches_refl, vec_len_nonneg|done].
    + apply reaches_mul; [apply reaches_refl, vec_len_nonneg|done].
    + rewrite <- (Z.add_0_l (zsum _)).
      apply (reaches_fold (fun m => usize_mul (cardinality (incoming m)) MAP_ELEMENT_BYTES)).
      * by apply reaches_refl.
      * intros m _. apply reaches_mul; [apply reaches_refl, cardinality_nonneg|done].
Qed.

Lemma estimate_exact rs :
  estimated_nft_program_bytes rs <= MAX_PORT_FORWARD_NFT_SCRIPT_BYTES ->
  2048 + zsum (map (fun r => exact_bytes r * copies r) (List.filter is_native rs)) <= MAX_PORT_FORWARD_NFT_SCRIPT_BYTES.
Proof.
  intros Hle.
  assert (Hr : reaches (estimated_nft_program_bytes rs)
    (2048 + zsum (map (fun r => exact_bytes r * copies r) (List.filter is_native rs)))).
  { apply (reaches_fold (fun r => usize_mul (per_transport_bytes r) (copies r))); [by apply reaches_refl|].
    intros r _. apply reaches_mul; [apply per_transport_reaches|]. unfold copies.
    pose proof (vec_len_nonneg (transports (protocol r))). pose proof (vec_len_nonneg (native_families r)). nia. }
  destruct Hr as [_ Hr]. unfold MAX_PORT_FORWARD_NFT_SCRIPT_BYTES, u64_max in *. lia.
Qed.

(** * Dispatch maps *)

Definition all_dispatches : list (str * str) :=
  [(lit "ipv4", lit "tcp"); (lit "ipv4", lit "udp"); (lit "ipv6", lit "tcp"); (lit "ipv6", lit "udp")].

(** A rule is in as many dispatch maps as it has families and transports. *)
Lemma dispatch_count rule :
  zsum (map (fun d => Z.b2z (dispatches_to rule d)) all_dispatches) = copies rule.
Proof.
  assert (Hf : native_families rule = [] \/ native_families rule = [Ipv4] \/ native_families rule = [Ipv6] \/
               native_families rule = [Ipv4; Ipv6]).
  { unfold native_families. repeat case_match; auto. }
  unfold copies, all_dispatches, dispatches_to, rule_has_nfproto. cbn [map fst snd].
  destruct Hf as [-> | [-> | [-> | ->]]], (protocol rule); vm_compute; done.
Qed.

Lemma dispatch_elements_count rs d :
  vec_len (dispatch_elements rs d) = zsum (map (fun r => vec_len (incoming_ranges r) * Z.b2z (dispatches_to r d)) rs).
Proof.
  unfold dispatch_elements. rewrite vec_len_flat_map.
  rewrite <- (map_enumerate (fun r => vec_len (incoming_ranges r) * Z.b2z (dispatches_to r d))). f_equal.
  apply map_ext. intros [i r]. cbn [snd]. destruct (dispatches_to r d); [rewrite vec_len_map; cbn; lia|].
  cbn [Z.b2z]. rewrite Z.mul_0_r. done.
Qed.

Lemma total_dispatch_elements rs :
  zsum (map (fun d => vec_len (dispatch_elements rs d)) (populated_dispatches rs)) <=
  zsum (map (fun r => vec_len (incoming_ranges r) * copies r) rs).
Proof.
  etransitivity; [apply zsum_filter_le; intros; apply vec_len_nonneg|]. fold all_dispatches.
  erewrite map_ext; [|intros d; apply dispatch_elements_count]. rewrite zsum_swap.
  apply zsum_le. intros r _. rewrite <- dispatch_count, <- zsum_scale. done.
Qed.

Lemma populated_facts rs d : In d (populated_dispatches rs) -> str_len (fst d) = 4 /\ str_len (snd d) = 3.
Proof. intros [H _]%filter_In. cbn in H. intuition subst; done. Qed.

Lemma populated_count rs : vec_len (populated_dispatches rs) <= 4.
Proof. unfold populated_dispatches. etransitivity; [apply filter_count|done]. Qed.

Lemma dispatch_map_len rs d :
  Forall (fun rule => Forall range_typed (incoming_ranges rule)) rs -> vec_len rs <= 1000 ->
  In d (populated_dispatches rs) ->
  str_len (render_dispatch_map rs d) <= 111 + 36 * vec_len (dispatch_elements rs d).
Proof.
  intros Hty Hn Hd. destruct (populated_facts rs d Hd) as [L1 L2].
  assert (He : str_len (join (lit ", ") (map (render_dispatch_element (snd d)) (dispatch_elements rs d)))
    <= 36 * vec_len (dispatch_elements rs d)).
  { apply (elements_len _ _ 34). apply List.Forall_forall. intros [r i] (rule & Hi & Hl & _ & Hr)%in_dispatch_elements.
    unfold render_dispatch_element, rule_chain_name. cbn [fst snd].
    rewrite Forall_lookup in Hty. specialize (Hty _ _ Hl). rewrite List.Forall_forall in Hty.
    pose proof (port_range_len r (Hty r Hr)). apply lookup_lt_Some in Hl. unfold vec_len in Hn.
    pose proof (to_string_len 2 i ltac:(cbn; lia)). lens. lia. }
  unfold render_dispatch_map, dispatch_map_name. lens. lia.
Qed.

Lemma dispatch_maps_len rs :
  Forall (fun rule => Forall range_typed (incoming_ranges rule)) rs -> vec_len rs <= 1000 ->
  str_len (render_dispatch_maps rs) <= 444 + zsum (map (fun r => 36 * vec_len (incoming_ranges r) * copies r) rs).
Proof.
  intros Hty Hn. unfold render_dispatch_maps. rewrite str_len_concat, map_map.
  etransitivity; [apply zsum_le; intros d Hd; by apply dispatch_map_len|].
  rewrite (zsum_plus (fun _ => 111)), zsum_const, zsum_scale.
  pose proof (populated_count rs). pose proof (total_dispatch_elements rs).
  rewrite (map_ext (fun r => 36 * _ * _) (fun r => 36 * (vec_len (incoming_ranges r) * copies r))) by (intros; lia).
  rewrite zsum_scale. lia.
Qed.

Lemma dispatch_chain_len rs : str_len (render_dispatch_chain rs) <= 300.
Proof.
  unfold render_dispatch_chain. rewrite !str_len_app, str_len_concat, map_map.
  assert (zsum (map (fun d => str_len (render_dispatch_line d)) (populated_dispatches rs)) <= 64 * 4).
  { etransitivity; [apply (zsum_le _ (fun _ => 64))|].
    - intros d Hd. destruct (populated_facts rs d Hd). unfold render_dispatch_line, dispatch_map_name. lens. lia.
    - rewrite zsum_const. pose proof (populated_count rs). lia. }
  lens. lia.
Qed.

(** * The program *)

Section Program.

Context (uuid_text : Z -> str) (sha256 : list Z -> list Z) (hex_encode : list Z -> str).
Context (rules_json : list PortForwardRule -> list Z).
(** A UUID prints as 36 characters, a digest as 64. *)
Hypothesis uuid_len : forall id, 0 <= id <= u128_max -> str_len (uuid_text id) = 36.
Hypothesis hash_len : forall bytes, str_len (payload_hash sha256 hex_encode bytes) = 64.

Abbreviation validate := (validate_port_forwarding_config sha256 hex_encode rules_json).
Abbreviation native := (native_config sha256 hex_encode rules_json).
Abbreviation render := (render_apply_script uuid_text sha256 hex_encode rules_json).

Definition rule_good (rule : PortForwardRule) : Prop :=
  rule_typed rule /\ validate_port_forward_rule rule = Ok tt /\ is_native rule = true.

Lemma rules_render (l : list (Z * PortForwardRule)) :
  Forall (fun e => 0 <= fst e < 1000 /\ rule_good (snd e)) l ->
  exists maps chains,
    try_map render_rule_maps l = Ok maps /\
    try_map (fun '(rule_index, rule) =>
      texts ← try_map (render_rule_chain uuid_text rule_index rule) (transports (protocol rule));
      Ok (concat texts)) l = Ok chains /\
    zsum (map (fun e => 36 * vec_len (incoming_ranges (snd e)) * copies (snd e)) l)
      + str_len (concat maps) + str_len (concat chains)
    <= zsum (map (fun e => exact_bytes (snd e) * copies (snd e)) l).
Proof.
  induction 1 as [|[i rule] l (Hi & Ht & Hv & Hn) _ IH]; [by exists [], []|].
  destruct IH as (maps & chains & Hm & Hc & Hl). cbn [fst snd] in *.
  destruct (rule_renders i rule Hi Ht Hv Hn uuid_text uuid_len) as (m & c & Hm1 & Hc1 & Hl1).
  exists (m :: maps), (concat c :: chains). cbn [try_map]. rewrite Hm1, Hc1, Hm, Hc. split; [done|].
  split; [done|]. cbn [concat map snd]. rewrite !str_len_app. unfold zsum in *. cbn [foldr]. lia.
Qed.

Lemma table_renders rs hash :
  Forall rule_good rs -> vec_len rs <= 512 -> str_len hash = 64 ->
  exists text,
    render_table uuid_text {| schema_version := 1; desired_hash := hash; rules := rs;
                              cleanup_rules := []; native_cleanup_pending := false |} = Ok text /\
    str_len text <= 2010 + zsum (map (fun r => exact_bytes r * copies r) rs).
Proof.
  intros Hg Hn Hh. destruct (rules_render (enumerate rs)) as (maps & chains & Hm & Hc & Hl).
  { apply List.Forall_forall. intros [i rule] [Hi Hl]%in_enumerate. cbn. rewrite Forall_lookup in Hg. split.
    - apply lookup_lt_Some in Hl. unfold vec_len in Hn. lia.
    - by eapply Hg. }
  rewrite (map_enumerate (fun r => 36 * vec_len (incoming_ranges r) * copies r)),
    (map_enumerate (fun r => exact_bytes r * copies r)) in Hl.
  unfold render_table, render_translation_maps, render_rule_chains. cbn [rules desired_hash].
  rewrite Hm, Hc. cbn [mbind result_bind]. eexists. split; [done|].
  assert (Hd := dispatch_maps_len rs). pose proof (dispatch_chain_len rs). rewrite !str_len_app.
  assert (str_len (render_dispatch_maps rs) <= 444 + zsum (map (fun r => 36 * vec_len (incoming_ranges r) * copies r) rs)).
  { apply Hd; [|lia]. eapply Forall_impl; [exact Hg|]. intros r (T & _ & _).
    destruct T as (_ & _ & _ & Tm & Tp). unfold incoming_ranges. destruct (pool r) as [p|].
    - by apply Tp.
    - apply Forall_map. eapply Forall_impl; [exact Tm|]. by intros m []. }
  unfold table_head, ownership_set, owned_flows_set, hook_chain, postrouting_chain.
  destruct (existsb masquerade rs); lens; lia.
Qed.

Lemma accepted_script_bounded config table_exists :
  validate config = Ok tt -> Forall rule_typed (rules config) ->
  exists script, render config table_exists = Ok script /\
    str_len script <= MAX_PORT_FORWARD_NFT_SCRIPT_BYTES.
Proof.
  intros Hv Ht. assert (Hok := Hv). apply validate_config_ok in Hok as (Hr & _ & Hn & Hest & _).
  apply estimate_exact in Hest. unfold render_apply_script. rewrite Hv. cbn [map_err mbind result_bind].
  set (rs := List.filter is_native (rules config)) in *.
  assert (Hg : Forall rule_good rs).
  { rewrite List.Forall_forall in Ht, Hr |- *. intros r [Hin Hnat]%filter_In. split; [auto|]. split; auto. }
  assert (Hlen : vec_len rs <= 512) by (pose proof (filter_count is_native (rules config)); unfold MAX_PORT_FORWARD_RULES in Hn; fold rs in H; lia).
  assert (Hdel : str_len delete_line = 38) by done.
  destruct (is_empty (rules (native config))) eqn:Ee.
  - eexists. split; [done|]. destruct table_exists; [rewrite Hdel|]; by vm_compute.
  - cbn in Ee. fold rs in Ee.
    destruct (table_renders rs (native_hash sha256 hex_encode rules_json rs) Hg Hlen) as (text & Htext & Hl).
    { unfold native_hash. rewrite Ee. apply hash_len. }
    assert (render_table uuid_text (native config) = Ok text) as ->.
    { rewrite <- Htext. reflexivity. }
    cbn [mbind result_bind].
    assert (Hsize : str_len ((if table_exists then delete_line else []) ++ text) <= MAX_PORT_FORWARD_NFT_SCRIPT_BYTES).
    { rewrite str_len_app. destruct table_exists; [rewrite Hdel|change (str_len []) with 0]; lia. }
    rewrite (proj2 (Z.ltb_ge _ _) Hsize). eauto.
Qed.

(** An accepted configuration renders: no assertion of the renderer fails, and the
    text respects the limit on the size of a program. *)
Theorem accepted_config_renders config table_exists :
  validate config = Ok tt -> Forall rule_typed (rules config) ->
  exists script, render config table_exists = Ok script /\
    str_len script <= MAX_PORT_FORWARD_NFT_SCRIPT_BYTES.
Proof. apply accepted_script_bounded. Qed.

End Program.

Definition uuid_ex (_ : Z) : str := repeat 48 36.

Lemma accepted_config_renders_witness :
  validate_port_forwarding_config hash_ex hex_ex json_ex config_ex = Ok tt /\
  exists script, render_apply_script uuid_ex hash_ex hex_ex json_ex config_ex true = Ok script /\
    str_len script <= MAX_PORT_FORWARD_NFT_SCRIPT_BYTES.
Proof.
  split; [exact config_ex_valid|].
  exact (accepted_config_renders uuid_ex hash_ex hex_ex json_ex (fun _ _ => eq_refl) (fun _ => eq_refl)
    config_ex true config_ex_valid config_ex_typed).
Defined.
