(* ===== verification/NftProgram.v ===== *)
(** nftables programs: their syntax, how nft writes it, and what a program does
    with a packet.

    The port-forwarding table (crates/agent/src/network/port_forwarding.rs,
    port_forwarding_pools.rs) is text.  This file has the part of the nftables
    language the text is written in: tables with sets, named maps and chains of
    statements ([Table]), their concrete syntax ([print_table]) and the evaluation
    of a packet ([run_chain]), where a statement finds the map or the chain it
    names by that name in the table.  [program] is the table of a configuration;
    [NftProgramProofs] shows that the rendered text is its concrete syntax. *)

From S2P Require Import Prelude RustStd Auth Net PortForwarding PortForwardProofs NftRender NftProofs NftPoolProofs.

Open Scope Z_scope.

(** * Syntax *)

(** [dnat ip to a], [dnat ip6 to \[a\]] or [redirect]. *)
Inductive NatTarget :=
| NatDnat (ip : IpAddr)
| NatRedirect.

(** The expression a pool is indexed with. *)
Inductive Selector :=
| NumgenInc
| NumgenRandom
| JhashSaddr (family : str) (seed : Z).

Inductive Statement :=
(** [counter \[add @owned_flows { ct id timeout 2m }\] comment "..."] *)
| CounterComment (owned : bool) (comment : str)
(** [fib daddr type local jump chain] *)
| FibLocalJump (chain : str)
(** [meta nfproto f t dport vmap @map] *)
| DportVmap (nfproto transport map_name : str)
(** [t dport { ranges } nat] *)
| DportSetNat (transport : str) (ranges : list PortRange) (nat : NatTarget)
(** [meta l4proto t nat : t' dport map @map] *)
| DportMapNat (transport : str) (nat : NatTarget) (key_transport map_name : str)
(** [meta l4proto t dnat f addr . port to selector mod n map @map] *)
| PoolNat (transport family : str) (selector : Selector) (modulus : Z) (map_name : str)
(** [ct id @owned_flows counter masquerade comment "..."] *)
| OwnedMasquerade (comment : str).

Inductive MapBody :=
(** [type inet_service : verdict], each verdict a jump *)
| VerdictMap (elements : list (PortRange * str))
(** [type inet_service : inet_service] *)
| PortMap (interval : bool) (elements : list (PortRange * Z))
(** [typeof numgen inc mod 1 : f daddr . tcp dport] *)
| EndpointMap (family : str) (elements : list PoolElement).

Record Hook := { hook_name : str; hook_priority : Z }.
Record Chain := { chain_name : str; chain_hook : option Hook; chain_body : list Statement }.
Record SetDecl := { set_name : str; set_lines : list str }.
Record Table := {
  table_comment : str;
  table_sets : list SetDecl;
  table_maps : list (str * MapBody);
  table_chains : list Chain;
}.

(** * Concrete syntax *)

Definition print_nat (nat : NatTarget) : str :=
  match nat with
  | NatDnat (IpV4 v) => lit "dnat ip to " ++ format_ipv4 v
  | NatDnat (IpV6 v) => lit "dnat ip6 to [" ++ format_ipv6 v ++ lit "]"
  | NatRedirect => lit "redirect"
  end.

(** What stands between the statement and the port it translates to. *)
Definition print_nat_port (nat : NatTarget) : str :=
  match nat with NatDnat _ => lit " :" | NatRedirect => lit " to :" end.

Definition print_selector (selector : Selector) (modulus : Z) : str :=
  match selector with
  | NumgenInc => lit "numgen inc mod " ++ to_string modulus
  | NumgenRandom => lit "numgen random mod " ++ to_string modulus
  | JhashSaddr family seed =>
      lit "jhash " ++ family ++ lit " saddr mod " ++ to_string modulus ++ lit " seed " ++ to_string seed
  end.

Definition print_range (r : PortRange) : str :=
  if start r =? end_ r then to_string (start r) else to_string (start r) ++ lit "-" ++ to_string (end_ r).

Definition print_list {A} (print : A -> str) (l : list A) : str :=
  lit "{ " ++ join (lit ", ") (map print l) ++ lit " }".

Definition print_quoted (s : str) : str := quote ++ s ++ quote.

Definition print_statement (s : Statement) : str :=
  match s with
  | CounterComment owned comment =>
      lit "counter" ++ (if owned then lit " add @owned_flows { ct id timeout 2m }" else []) ++
      lit " comment " ++ print_quoted comment
  | FibLocalJump chain => lit "fib daddr type local jump " ++ chain
  | DportVmap nfproto transport map_name =>
      lit "meta nfproto " ++ nfproto ++ lit " " ++ transport ++ lit " dport vmap @" ++ map_name
  | DportSetNat transport ranges nat =>
      transport ++ lit " dport " ++ print_list print_range ranges ++ lit " " ++ print_nat nat
  | DportMapNat transport nat key_transport map_name =>
      lit "meta l4proto " ++ transport ++ lit " " ++ print_nat nat ++ print_nat_port nat ++ lit " " ++
      key_transport ++ lit " dport map @" ++ map_name
  | PoolNat transport family selector modulus map_name =>
      lit "meta l4proto " ++ transport ++ lit " dnat " ++ family ++ lit " addr . port to " ++
      print_selector selector modulus ++ lit " map @" ++ map_name
  | OwnedMasquerade comment =>
      lit "ct id @owned_flows counter masquerade comment " ++ print_quoted comment
  end.

Definition print_line (indent text : str) : str := indent ++ text ++ nl.

(** A named block of lines. *)
Definition print_block (kind name : str) (body : list str) : str :=
  print_line (lit "  ") (kind ++ lit " " ++ name ++ lit " {") ++
  concat (map (print_line (lit "    ")) body) ++ print_line (lit "  ") (lit "}").

Definition print_endpoint (e : PoolElement) : str :=
  (if slot_first e =? slot_last e then to_string (slot_first e)
   else to_string (slot_first e) ++ lit "-" ++ to_string (slot_last e)) ++
  lit " : " ++ format_ip_addr (slot_ip e) ++ lit " . " ++ to_string (slot_port e).

Definition print_elements {A} (print : A -> str) (es : list A) : str :=
  lit "elements = " ++ print_list print es.

Definition print_map (m : str * MapBody) : str :=
  print_block (lit "map") (fst m)
    match snd m with
    | VerdictMap es =>
        [lit "type inet_service : verdict"; lit "flags interval";
         print_elements (fun e => print_range (fst e) ++ lit " : jump " ++ snd e) es]
    | PortMap interval es =>
        [lit "type inet_service : inet_service"] ++ (if interval then [lit "flags interval"] else []) ++
        [print_elements (fun e => print_range (fst e) ++ lit " : " ++ to_string (snd e)) es]
    | EndpointMap family es =>
        [lit "typeof numgen inc mod 1 : " ++ family ++ lit " daddr . tcp dport"; lit "flags interval";
         print_elements print_endpoint es]
    end.

Definition print_hook (h : Hook) : str :=
  lit "type nat hook " ++ hook_name h ++ lit " priority " ++ to_string (hook_priority h) ++
  lit "; policy accept;".

Definition print_chain (c : Chain) : str :=
  print_block (lit "chain") (chain_name c)
    (match chain_hook c with Some h => [print_hook h] | None => [] end ++
     map print_statement (chain_body c)).

Definition print_set (s : SetDecl) : str := print_block (lit "set") (set_name s) (set_lines s).

Definition print_table (t : Table) : str :=
  lit "table inet vpsman_port_forward {" ++ nl ++
  print_line (lit "  ") (lit "comment " ++ print_quoted (table_comment t)) ++
  concat (map print_set (table_sets t)) ++ concat (map print_map (table_maps t)) ++
  concat (map print_chain (table_chains t)) ++ lit "}" ++ nl.

(** * Packets *)

Inductive Family := FamilyIpv4 | FamilyIpv6.
Inductive Transport := TransportTcp | TransportUdp.

(** The names nft gives them. *)
Definition nfproto_name (f : Family) : str :=
  match f with FamilyIpv4 => lit "ipv4" | FamilyIpv6 => lit "ipv6" end.
Definition nat_family_name (f : Family) : str :=
  match f with FamilyIpv4 => lit "ip" | FamilyIpv6 => lit "ip6" end.
Definition transport_name (t : Transport) : str :=
  match t with TransportTcp => lit "tcp" | TransportUdp => lit "udp" end.

(** The first packet of a flow, and whether its destination is an address of the
    machine. *)
Record Packet := { pkt_family : Family; pkt_transport : Transport; pkt_dport : Z; pkt_local : bool }.

(** What a chain does with a packet: goes on with the caller's next statement;
    translates the destination to an address, or to the machine itself, and a port;
    gives the flow the machine's source address; or is no program, as a name is not
    declared, or has another type, or chains jump too deep. *)
Inductive Outcome :=
| Fallthrough
| Translated (address : option IpAddr) (port : Z)
| Masqueraded
| BadProgram.

Definition nat_address (nat : NatTarget) : option IpAddr :=
  match nat with NatDnat ip => Some ip | NatRedirect => None end.

(** [dnat ip] and [dnat ip6] match packets of their family only. *)
Definition nat_matches (nat : NatTarget) (f : Family) : bool :=
  match nat, f with
  | NatDnat (IpV4 _), FamilyIpv4 | NatDnat (IpV6 _), FamilyIpv6 | NatRedirect, _ => true
  | _, _ => false
  end.

Section Run.

(** The value of a selector expression for the packet. *)
Context (select : Selector -> Z -> Z).
Context (t : Table).

Definition find_map (name : str) : option MapBody :=
  snd <$> List.find (fun m => str_eqb (fst m) name) (table_maps t).
Definition find_chain (name : str) : option Chain :=
  List.find (fun c => str_eqb (chain_name c) name) (table_chains t).

(** The flow is in the set of owned flows or not; the flag is threaded. *)
Definition run_statement (jump : str -> bool -> bool * Outcome) (pkt : Packet) (s : Statement)
  (owned : bool) : bool * Outcome :=
  let is_transport name := str_eqb name (transport_name (pkt_transport pkt)) in
  match s with
  | CounterComment add _ => (owned || add, Fallthrough)
  | FibLocalJump chain => if pkt_local pkt then jump chain owned else (owned, Fallthrough)
  | DportVmap nfproto transport map_name =>
      if str_eqb nfproto (nfproto_name (pkt_family pkt)) && is_transport transport then
        match find_map map_name with
        | Some (VerdictMap es) =>
            match interval_lookup (pkt_dport pkt) es with
            | Some chain => jump chain owned
            | None => (owned, Fallthrough)
            end
        | _ => (owned, BadProgram)
        end
      else (owned, Fallthrough)
  | DportSetNat transport ranges nat =>
      if is_transport transport && nat_matches nat (pkt_family pkt) &&
         existsb (in_ports (pkt_dport pkt)) ranges
      then (owned, Translated (nat_address nat) (pkt_dport pkt)) else (owned, Fallthrough)
  | DportMapNat transport nat key_transport map_name =>
      if is_transport transport && is_transport key_transport && nat_matches nat (pkt_family pkt) then
        match find_map map_name with
        | Some (PortMap _ es) =>
            match interval_lookup (pkt_dport pkt) es with
            | Some port => (owned, Translated (nat_address nat) port)
            | None => (owned, Fallthrough)
            end
        | _ => (owned, BadProgram)
        end
      else (owned, Fallthrough)
  | PoolNat transport family selector modulus map_name =>
      if is_transport transport && str_eqb family (nat_family_name (pkt_family pkt)) then
        match find_map map_name with
        | Some (EndpointMap _ es) =>
            match List.find (in_slot (select selector modulus)) es with
            | Some e => (owned, Translated (Some (slot_ip e)) (slot_port e))
            | None => (owned, Fallthrough)
            end
        | _ => (owned, BadProgram)
        end
      else (owned, Fallthrough)
  | OwnedMasquerade _ => (owned, if owned then Masqueraded else Fallthrough)
  end.

Fixpoint run_statements (jump : str -> bool -> bool * Outcome) (pkt : Packet) (body : list Statement)
  (owned : bool) : bool * Outcome :=
  match body with
  | [] => (owned, Fallthrough)
  | s :: rest =>
      match run_statement jump pkt s owned with
      | (owned', Fallthrough) => run_statements jump pkt rest owned'
      | done => done
      end
  end.

Fixpoint run_chain (depth : nat) (pkt : Packet) (name : str) (owned : bool) : bool * Outcome :=
  match depth with
  | O => (owned, BadProgram)
  | S depth' =>
      match find_chain name with
      | Some c => run_statements (run_chain depth' pkt) pkt (chain_body c) owned
      | None => (owned, BadProgram)
      end
  end.

(** nftables allows sixteen levels of jumps. *)
Definition NFT_JUMP_STACK_SIZE : nat := 16.

(** The chain of the hook [h], for a new flow when it is a destination hook. *)
Definition run_hook (h : str) (pkt : Packet) (owned : bool) : bool * Outcome :=
  match List.find (fun c => match chain_hook c with Some k => str_eqb (hook_name k) h | None => false end)
          (table_chains t) with
  | Some c => run_chain NFT_JUMP_STACK_SIZE pkt (chain_name c) owned
  | None => (owned, Fallthrough)
  end.

End Run.

(** * The table of a configuration *)

Definition nat_target (rule : PortForwardRule) : option NatTarget :=
  match mode rule with
  | Dnat => NatDnat <$> target_ip rule
  | Redirect => Some NatRedirect
  | CustomAdapter => None
  end.

Definition pool_map_name (rule_index : Z) : str := lit "pf_" ++ to_string rule_index ++ lit "_pool".

Definition single_port (p : Z) : PortRange := {| start := p; end_ := p |}.

Definition dispatch_map (rs : list PortForwardRule) (d : str * str) : str * MapBody :=
  (dispatch_map_name (fst d) (snd d),
   VerdictMap (map (fun e => (fst e, rule_chain_name (snd e) (snd d))) (dispatch_elements rs d))).

Definition translation_maps (e : Z * PortForwardRule) (transport : str) : list (str * MapBody) :=
  (if existsb mapping_is_fixed (mappings (snd e))
   then [(fixed_map_name (fst e) transport, PortMap true (fixed_elements (snd e)))] else []) ++
  (if existsb mapping_is_shifted (mappings (snd e))
   then [(shifted_map_name (fst e) transport,
          PortMap false (map (fun x => (single_port (fst x), snd x)) (shifted_elements (snd e))))] else []).

Definition pool_nat_family (p : PortForwardPool) : option str :=
  row ← head (pool_upstreams p); Some (if is_ipv4 (up_target_ip row) then lit "ip" else lit "ip6").

Definition rule_maps (e : Z * PortForwardRule) : option (list (str * MapBody)) :=
  match pool (snd e) with
  | Some p => family ← pool_nat_family p; Some [(pool_map_name (fst e), EndpointMap family (pool_elements p))]
  | None => Some (flat_map (translation_maps e) (transports (protocol (snd e))))
  end.

Definition pool_selector (rule : PortForwardRule) (p : PortForwardPool) (family : str) : option Selector :=
  match pool_strategy p with
  | RoundRobin => Some NumgenInc
  | Random => Some NumgenRandom
  | SourceIpHash => Some (JhashSaddr family (affinity_seed (rule_id rule)))
  | _ => None
  end.

Definition plain_statements (rule_index : Z) (rule : PortForwardRule) (transport : str) (nat : NatTarget) :
  list Statement :=
  (if is_empty (identity_ranges rule) then []
   else [DportSetNat transport (identity_ranges rule) nat]) ++
  (if existsb mapping_is_fixed (mappings rule)
   then [DportMapNat transport nat transport (fixed_map_name rule_index transport)] else []) ++
  (if existsb mapping_is_shifted (mappings rule)
   then [DportMapNat transport nat transport (shifted_map_name rule_index transport)] else []).

Definition rule_statements (rule_index : Z) (rule : PortForwardRule) (transport : str) :
  option (list Statement) :=
  match pool rule with
  | Some p =>
      family ← pool_nat_family p;
      selector ← pool_selector rule p family;
      Some [PoolNat transport family selector (pool_total p) (pool_map_name rule_index)]
  | None =>
      nat ← nat_target rule; Some (plain_statements rule_index rule transport nat)
  end.

Definition dispatch_chain (rs : list PortForwardRule) : Chain := {|
  chain_name := lit "pf_dispatch"; chain_hook := None;
  chain_body := map (fun d => DportVmap (fst d) (snd d) (dispatch_map_name (fst d) (snd d)))
                  (populated_dispatches rs) |}.

Definition local_chain (hook : str) : Chain := {|
  chain_name := hook; chain_hook := Some {| hook_name := hook; hook_priority := -110 |};
  chain_body := [FibLocalJump (lit "pf_dispatch")] |}.

Definition return_chain : Chain := {|
  chain_name := lit "postrouting";
  chain_hook := Some {| hook_name := lit "postrouting"; hook_priority := 90 |};
  chain_body := [OwnedMasquerade (lit "vpsman-owned-return")] |}.

Definition marker_set : SetDecl := {|
  set_name := lit "vpsman_ownership_v1"; set_lines := [lit "type mark"; lit "elements = { 0x5650534d }"] |}.
Definition flows_set : SetDecl := {|
  set_name := lit "owned_flows";
  set_lines := [lit "typeof ct id"; lit "flags dynamic,timeout"; lit "timeout 2m"; lit "size 262144"] |}.

Section Program.

Context (uuid_text : Z -> str).

Definition rule_comment (rule : PortForwardRule) : str :=
  lit "vpsman-rule:" ++ uuid_text (rule_id rule) ++ lit ":" ++ to_string (revision rule).

Definition rule_chain (rule_index : Z) (rule : PortForwardRule) (transport : str) : option Chain :=
  body ← rule_statements rule_index rule transport;
  Some {| chain_name := rule_chain_name rule_index transport; chain_hook := None;
          chain_body := CounterComment (masquerade rule) (rule_comment rule) :: body |}.

Definition rule_chains (e : Z * PortForwardRule) : option (list Chain) :=
  mapM (rule_chain (fst e) (snd e)) (transports (protocol (snd e))).

Definition program (config : AgentPortForwardingConfig) : option Table :=
  let rs := rules config in
  maps ← mapM rule_maps (enumerate rs);
  chains ← mapM rule_chains (enumerate rs);
  Some {| table_comment := lit "vpsman-owned desired=" ++ desired_hash config;
          table_sets := marker_set :: (if existsb masquerade rs then [flows_set] else []);
          table_maps := map (dispatch_map rs) (populated_dispatches rs) ++ concat maps;
          table_chains :=
            [local_chain (lit "prerouting"); local_chain (lit "output"); dispatch_chain rs] ++
            concat chains ++ (if existsb masquerade rs then [return_chain] else []) |}.

End Program.
