(* ===== verification/NftProgramProofs.v ===== *)
(** The rendered port-forwarding table is the concrete syntax of [program], and
    what that program does with packets is what the rules say. *)

From S2P Require Import Prelude RustStd Auth VpsDecimal TagOrder TagOrderProofs Net PortForwarding PortForwardProofs NftRender NftProofs NftPoolProofs NftSizeProofs NftProgram.

Open Scope Z_scope.

(** * The text *)

(** Two texts built from literals and the same variable parts. *)
Ltac same_text :=
  unfold nl, quote;
  repeat match goal with
  | |- context [lit ?s] => let v := eval vm_compute in (lit s) in change (lit s) with v
  end;
  repeat rewrite <- app_assoc; cbn [app]; rewrite ?app_nil_r; reflexivity.

Lemma print_dispatch_map rs d : print_map (dispatch_map rs d) = render_dispatch_map rs d.
Proof.
  unfold print_map, dispatch_map, render_dispatch_map, print_block, print_line, print_elements, print_list.
  cbn [fst snd map concat]. rewrite map_map.
  change (map _ (dispatch_elements rs d)) with (map (render_dispatch_element (snd d)) (dispatch_elements rs d)).
  same_text.
Qed.

Lemma print_translation_maps i rule transport :
  concat (map print_map (translation_maps (i, rule) transport)) =
  render_fixed_map i rule transport ++ render_shifted_map i rule transport.
Proof.
  unfold translation_maps, render_fixed_map, render_shifted_map. cbn [fst snd].
  rewrite map_app, concat_app. f_equal.
  - destruct (existsb _ _); [|done]. cbn [map concat]. rewrite app_nil_r.
    unfold print_map, print_block, print_line, print_elements, print_list. cbn [fst snd map concat app].
    change (map _ (fixed_elements rule)) with (map render_fixed_element (fixed_elements rule)). same_text.
  - destruct (existsb _ _); [|done]. cbn [map concat]. rewrite app_nil_r.
    unfold print_map, print_block, print_line, print_elements, print_list. cbn [fst snd map concat app].
    rewrite map_map. erewrite (map_ext _ render_shifted_element).
    2: { intros e. unfold print_range, single_port, render_shifted_element. cbn [fst snd start end_].
         by rewrite Z.eqb_refl. }
    same_text.
Qed.

Lemma pool_family_text p f : pool_nat_family p = Some f -> pool_family p = Ok f.
Proof. unfold pool_nat_family, pool_family. destruct (pool_upstreams p); cbn; [done|]. by intros [= <-]. Qed.

Lemma print_rule_maps e ms : rule_maps e = Some ms -> render_rule_maps e = Ok (concat (map print_map ms)).
Proof.
  destruct e as [i rule]. unfold rule_maps, render_rule_maps. cbn [fst snd]. destruct (pool rule) as [p|].
  - destruct (pool_nat_family p) as [f|] eqn:Ef; [|done]. cbn [mbind option_bind]. intros [= <-].
    unfold render_map. rewrite (pool_family_text _ _ Ef). cbn [mbind result_bind map concat]. f_equal.
    unfold print_map, print_block, print_line, print_elements, print_list. cbn [fst snd map concat].
    change (map print_endpoint (pool_elements p)) with (map render_pool_element (pool_elements p)).
    unfold pool_map_name. same_text.
  - intros [= <-]. f_equal. induction (transports (protocol rule)) as [|tr trs IH]; [done|].
    cbn [flat_map map concat]. by rewrite map_app, concat_app, print_translation_maps, IH.
Qed.

Definition print_body (body : list Statement) : str :=
  concat (map (print_line (lit "    ")) (map print_statement body)).

Lemma print_plain_statements i rule transport nat :
  print_body (plain_statements i rule transport nat) =
  render_identity rule transport (print_nat nat) ++
  (if existsb mapping_is_fixed (mappings rule)
   then render_map_use transport (print_nat nat) (print_nat_port nat) (fixed_map_name i transport) else []) ++
  (if existsb mapping_is_shifted (mappings rule)
   then render_map_use transport (print_nat nat) (print_nat_port nat) (shifted_map_name i transport) else []).
Proof.
  unfold print_body, plain_statements, render_identity. rewrite !map_app, !concat_app.
  f_equal; [destruct (is_empty _); [done|]|f_equal; (destruct (existsb _ _); [|done])];
    cbn [map concat]; unfold print_line, print_statement, print_list, render_map_use.
  - change (map print_range (identity_ranges rule)) with
      (map (fun r => render_port_range (start r) (end_ r)) (identity_ranges rule)). same_text.
  - same_text.
  - same_text.
Qed.

Lemma print_nat_translation rule nat :
  nat_target rule = Some nat -> translation_of rule = Ok (print_nat nat, print_nat_port nat).
Proof.
  unfold nat_target, translation_of. destruct (mode rule); [|by intros [= <-]|done].
  destruct (target_ip rule) as [[v|v]|]; [..|done]; intros [= <-]; cbn [ok_or mbind result_bind render_target_ip];
    do 2 f_equal; unfold print_nat; same_text.
Qed.

Lemma print_rule_statements i rule transport body :
  rule_statements i rule transport = Some body ->
  render_chain_body i rule transport =
  Ok (print_body body).
Proof.
  unfold rule_statements, render_chain_body. destruct (pool rule) as [p|].
  - destruct (pool_nat_family p) as [f|] eqn:Ef; [|done]. cbn [mbind option_bind].
    unfold render_translation, pool_selector, render_selector. rewrite (pool_family_text _ _ Ef).
    cbn [mbind result_bind]. destruct (pool_strategy p); try done; cbn [mbind option_bind result_bind];
      intros [= <-]; f_equal; unfold print_body; cbn [map concat]; unfold print_line, print_statement, print_selector, pool_map_name;
      same_text.
  - destruct (nat_target rule) as [nat|] eqn:En; [|done]. cbn [mbind option_bind]. intros [= <-].
    rewrite (print_nat_translation _ _ En), print_plain_statements. done.
Qed.

Section Text.

Context (uuid_text : Z -> str).

Lemma print_rule_chain i rule transport c :
  rule_chain uuid_text i rule transport = Some c -> render_rule_chain uuid_text i rule transport = Ok (print_chain c).
Proof.
  unfold rule_chain, render_rule_chain. destruct (rule_statements _ _ _) as [body|] eqn:E; [|done].
  cbn [mbind option_bind]. intros [= <-]. rewrite (print_rule_statements _ _ _ _ E). cbn [mbind result_bind]. f_equal.
  unfold print_chain, print_block. cbn [chain_name chain_hook chain_body app map concat].
  fold (print_body body). generalize (print_body body) as texts. intros texts. unfold render_chain_head, print_line, print_statement, print_quoted, rule_comment.
  destruct (masquerade rule); same_text.
Qed.

Lemma mapM_try_map {A B E C} (f : A -> option B) (g : A -> result E C) (h : B -> C) l bs :
  (forall a b, f a = Some b -> g a = Ok (h b)) -> mapM f l = Some bs -> try_map g l = Ok (map h bs).
Proof.
  intros Hfg. revert bs. induction l as [|a l IH]; cbn [mapM try_map]; intros bs.
  - by intros [= <-].
  - destruct (f a) as [b|] eqn:Ef; [|done]. cbn. destruct (mapM f l) as [bs'|]; [|done]. cbn. intros [= <-].
    rewrite (Hfg _ _ Ef). cbn. by rewrite (IH bs' eq_refl).
Qed.

Lemma concat_map_concat {A} (f : A -> str) (ls : list (list A)) :
  concat (map (fun l => concat (map f l)) ls) = concat (map f (concat ls)).
Proof. induction ls as [|l ls IH]; [done|]. cbn [map concat]. by rewrite map_app, concat_app, IH. Qed.

Lemma print_local_chain hook : print_chain (local_chain hook) = hook_chain hook.
Proof.
  unfold print_chain, print_block, print_line, hook_chain, local_chain.
  cbn [chain_name chain_hook chain_body app map concat print_statement]. unfold print_hook. cbn [hook_name hook_priority].
  change (to_string (-110)) with (lit "-110"). same_text.
Qed.

Lemma print_dispatch_chain rs : print_chain (dispatch_chain rs) = render_dispatch_chain rs.
Proof.
  unfold print_chain, print_block, dispatch_chain, render_dispatch_chain.
  cbn [chain_name chain_hook chain_body app]. rewrite !map_map.
  erewrite (map_ext _ render_dispatch_line).
  2: { intros d. unfold print_line, print_statement, render_dispatch_line. same_text. }
  unfold print_line. same_text.
Qed.

Lemma print_return_chain : print_chain return_chain = postrouting_chain.
Proof. reflexivity. Qed.

Lemma print_marker_set : print_set marker_set = ownership_set.
Proof. reflexivity. Qed.

Lemma print_flows_set : print_set flows_set = owned_flows_set.
Proof. reflexivity. Qed.

(** The rendered text is the concrete syntax of the program. *)
Lemma render_table_prints config t :
  program uuid_text config = Some t -> render_table uuid_text config = Ok (print_table t).
Proof.
  unfold program, render_table, render_translation_maps, render_rule_chains. set (rs := rules config).
  destruct (mapM rule_maps _) as [maps|] eqn:Em; [|done]. cbn [mbind option_bind].
  destruct (mapM (rule_chains uuid_text) _) as [chains|] eqn:Ec; [|done]. cbn [mbind option_bind]. intros [= <-].
  rewrite (mapM_try_map _ _ _ _ _ print_rule_maps Em). cbn [mbind result_bind].
  erewrite (mapM_try_map (rule_chains uuid_text) _ (fun cs => concat (map print_chain cs)) _ _ _ Ec).
  Unshelve.
  2: { intros [i rule] cs Hcs. unfold rule_chains in Hcs. cbn [fst snd] in Hcs.
       by rewrite (mapM_try_map _ _ _ _ _ (print_rule_chain i rule) Hcs). }
  cbn [mbind result_bind]. f_equal. rewrite !concat_map_concat. unfold print_table.
  cbn [table_comment table_sets table_maps table_chains app]. rewrite !map_app, !concat_app, map_map.
  rewrite (map_ext _ _ (print_dispatch_map rs)). cbn [map concat]. rewrite !print_local_chain, print_dispatch_chain.
  fold (render_dispatch_maps rs). rewrite map_app, concat_app.
  destruct (existsb masquerade rs); cbn [map concat];
    rewrite ?app_nil_r, ?print_return_chain, ?print_flows_set, print_marker_set;
    unfold table_head, print_line, print_quoted; same_text.
Qed.

End Text.

(** * Names *)

(** The declared maps, and the name and body of each. *)
Inductive MapKey :=
| KeyDispatch (f : Family) (t : Transport)
| KeyFixed (i : nat) (t : Transport)
| KeyShifted (i : nat) (t : Transport)
| KeyPool (i : nat).

Definition key_name (k : MapKey) : str :=
  match k with
  | KeyDispatch f t => dispatch_map_name (nfproto_name f) (transport_name t)
  | KeyFixed i t => fixed_map_name (Z.of_nat i) (transport_name t)
  | KeyShifted i t => shifted_map_name (Z.of_nat i) (transport_name t)
  | KeyPool i => pool_map_name (Z.of_nat i)
  end.

Lemma split_index_name i rest :
  split_once 95 (to_string (Z.of_nat i) ++ lit "_" ++ rest) = Some (to_string (Z.of_nat i), rest).
Proof.
  apply split_once_spec. destruct (to_string_spec (Z.of_nat i)) as (Hd & _); [lia|].
  split; [done|]. apply digits_not_in; [done|lia].
Qed.

Lemma index_name_inj i j x y :
  to_string (Z.of_nat i) ++ lit "_" ++ x = to_string (Z.of_nat j) ++ lit "_" ++ y -> i = j /\ x = y.
Proof.
  intros E. pose proof (split_index_name i x) as Hi. rewrite E, split_index_name in Hi.
  injection Hi as Hij ->. split; [|done]. apply to_string_inj in Hij. lia.
Qed.

(** A name with an index is not one with a word. *)
Lemma index_not_word i s x : to_string (Z.of_nat i) ++ x <> lit "dispatch_" ++ s.
Proof.
  intros E. destruct (to_string_spec (Z.of_nat i)) as (Hd & Hne & _); [lia|].
  destruct (to_string (Z.of_nat i)) as [|d r] eqn:Et; [done|]. injection E as E _.
  apply all_digits_head in Hd. lia.
Qed.

Lemma key_name_inj k l : key_name k = key_name l -> k = l.
Proof.
  destruct k as [f t|i t|i t|i], l as [g u|j u|j u|j]; cbn [key_name];
    unfold dispatch_map_name, fixed_map_name, shifted_map_name, pool_map_name; intros E.
  1: by destruct f, t, g, u.
  1-3: exfalso; symmetry in E; change (lit "pf_dispatch_") with (lit "pf_" ++ lit "dispatch_") in E;
       rewrite <- app_assoc in E; apply app_inv_head in E; by eapply index_not_word in E.
  1,5,9: exfalso; change (lit "pf_dispatch_") with (lit "pf_" ++ lit "dispatch_") in E;
       rewrite <- app_assoc in E; apply app_inv_head in E; by eapply index_not_word in E.
  all: apply app_inv_head in E.
  all: try change (lit "_pool") with (lit "_" ++ lit "pool") in E.
  all: apply index_name_inj in E as [-> E]; repeat match goal with x : Transport |- _ => destruct x end;
    try done; by vm_compute in E.
Qed.

Inductive ChainKey :=
| KeyPrerouting | KeyOutput | KeyDispatchChain | KeyPostrouting
| KeyRule (i : nat) (t : Transport).

Definition chain_key_name (k : ChainKey) : str :=
  match k with
  | KeyPrerouting => lit "prerouting"
  | KeyOutput => lit "output"
  | KeyDispatchChain => lit "pf_dispatch"
  | KeyPostrouting => lit "postrouting"
  | KeyRule i t => rule_chain_name (Z.of_nat i) (transport_name t)
  end.

Lemma chain_key_name_inj k l : chain_key_name k = chain_key_name l -> k = l.
Proof.
  destruct k as [| | | |i t], l as [| | | |j u]; try done. cbn [chain_key_name]. unfold rule_chain_name.
  intros [-> E]%app_inv_head%index_name_inj. by destruct t, u.
Qed.

(** * Lookups by name *)

Lemma transports_in p s : In s (transports p) -> exists t, s = transport_name t.
Proof.
  destruct p; cbn [transports In].
  - intros [<-|[]]. by exists TransportTcp.
  - intros [<-|[]]. by exists TransportUdp.
  - intros [<-|[<-|[]]]; [by exists TransportTcp|by exists TransportUdp].
Qed.

Lemma populated_in rs d : In d (populated_dispatches rs) ->
  exists f t, d = (nfproto_name f, transport_name t).
Proof.
  intros [H _]%filter_In. destruct H as [<-|[<-|[<-|[<-|[]]]]].
  - by exists FamilyIpv4, TransportTcp.
  - by exists FamilyIpv4, TransportUdp.
  - by exists FamilyIpv6, TransportTcp.
  - by exists FamilyIpv6, TransportUdp.
Qed.

Lemma mapM_in {A B} (f : A -> option (list B)) l ls b :
  mapM f l = Some ls -> In b (concat ls) <-> exists a bs, In a l /\ f a = Some bs /\ In b bs.
Proof.
  intros H%mapM_Some. induction H as [|a bs l ls Ha _ IH]; cbn.
  - split; [done|]. by intros (a & bs & [] & _).
  - rewrite in_app_iff, IH. split.
    + intros [Hb|(a' & bs' & Hin & Hf & Hb)]; [exists a, bs|exists a', bs']; auto.
    + intros (a' & bs' & [->|Hin] & Hf & Hb); [left; by simplify_eq|right; eauto].
Qed.

Lemma enumerate_nat {A} (l : list A) e : In e (enumerate l) <-> exists n a, e = (Z.of_nat n, a) /\ l !! n = Some a.
Proof.
  destruct e as [i x]. rewrite in_enumerate. split.
  - intros [Hi Hl]. exists (Z.to_nat i), x. split; [f_equal; lia|done].
  - intros (n & a & [= -> ->] & Hl). rewrite Nat2Z.id. split; [lia|done].
Qed.

Section Lookups.

Context (uuid_text : Z -> str) (config : AgentPortForwardingConfig) (t : Table).
Hypothesis Hprog : program uuid_text config = Some t.

Abbreviation rs := (rules config).

(** The body a key stands for. *)
Definition key_body (k : MapKey) (b : MapBody) : Prop :=
  match k with
  | KeyDispatch f tr => b = snd (dispatch_map rs (nfproto_name f, transport_name tr))
  | KeyFixed i _ => exists rule, rs !! i = Some rule /\ b = PortMap true (fixed_elements rule)
  | KeyShifted i _ => exists rule, rs !! i = Some rule /\
      b = PortMap false (map (fun x => (single_port (fst x), snd x)) (shifted_elements rule))
  | KeyPool i => exists rule p family, rs !! i = Some rule /\ pool rule = Some p /\
      pool_nat_family p = Some family /\ b = EndpointMap family (pool_elements p)
  end.

Lemma key_body_unique k b b' : key_body k b -> key_body k b' -> b = b'.
Proof. destruct k; cbn; naive_solver. Qed.

Lemma in_translation_maps e tr n b :
  In (n, b) (translation_maps e tr) <->
  (existsb mapping_is_fixed (mappings (snd e)) = true /\ n = fixed_map_name (fst e) tr /\
     b = PortMap true (fixed_elements (snd e))) \/
  (existsb mapping_is_shifted (mappings (snd e)) = true /\ n = shifted_map_name (fst e) tr /\
     b = PortMap false (map (fun x => (single_port (fst x), snd x)) (shifted_elements (snd e)))).
Proof.
  unfold translation_maps. rewrite in_app_iff.
  destruct (existsb mapping_is_fixed _), (existsb mapping_is_shifted _); cbn; naive_solver.
Qed.

Lemma program_maps : exists ms, mapM rule_maps (enumerate rs) = Some ms /\
  table_maps t = map (dispatch_map rs) (populated_dispatches rs) ++ concat ms.
Proof.
  unfold program in Hprog. destruct (mapM rule_maps _) as [ms|]; [|done]. cbn [mbind option_bind] in Hprog.
  destruct (mapM (rule_chains _) _); [|done]. cbn [mbind option_bind] in Hprog. injection Hprog as <-. eauto.
Qed.

Lemma table_map_key n b : In (n, b) (table_maps t) -> exists k, n = key_name k /\ key_body k b.
Proof.
  destruct program_maps as (ms & Hms & ->). rewrite in_app_iff, in_map_iff, (mapM_in _ _ _ _ Hms).
  intros [(d & [= <- <-] & (f & tr & ->)%populated_in)|(e & bs & (i & rule & -> & Hi)%enumerate_nat & Hf & Hin)].
  { by exists (KeyDispatch f tr). }
  unfold rule_maps in Hf. cbn [fst snd] in Hf. destruct (pool rule) as [p|] eqn:Ep.
  - destruct (pool_nat_family p) as [fam|] eqn:Ef; [|done]. injection Hf as <-.
    destruct Hin as [[= <- <-]|[]]. exists (KeyPool i). cbn. eauto 10.
  - injection Hf as <-. apply in_flat_map in Hin as (tr & (tp & ->)%transports_in & Hin).
    apply in_translation_maps in Hin as [(_ & -> & ->)|(_ & -> & ->)];
      [exists (KeyFixed i tp)|exists (KeyShifted i tp)]; cbn; eauto.
Qed.

(** A declared map is found by its name. *)
Lemma find_map_key k b : In (key_name k, b) (table_maps t) -> find_map t (key_name k) = Some b.
Proof.
  intros Hin. unfold find_map. rewrite (find_some_eq _ _ (key_name k, b)); [done|done|apply str_eqb_refl|].
  intros [n b'] Hin' E%str_eqb_eq. cbn in E. subst n.
  destruct (table_map_key _ _ Hin) as (l & <-%key_name_inj & Hb).
  destruct (table_map_key _ _ Hin') as (l & <-%key_name_inj & Hb').
  by rewrite (key_body_unique k b b').
Qed.

Lemma find_dispatch_map f tr :
  In (nfproto_name f, transport_name tr) (populated_dispatches rs) ->
  find_map t (dispatch_map_name (nfproto_name f) (transport_name tr)) =
  Some (snd (dispatch_map rs (nfproto_name f, transport_name tr))).
Proof.
  intros Hin. apply (find_map_key (KeyDispatch f tr)). destruct program_maps as (ms & _ & ->).
  apply in_app_iff. left. apply in_map_iff. by exists (nfproto_name f, transport_name tr).
Qed.

Lemma rule_map_in i rule bs m :
  rs !! i = Some rule -> rule_maps (Z.of_nat i, rule) = Some bs -> In m bs -> In m (table_maps t).
Proof.
  intros Hi Hb Hm. destruct program_maps as (ms & Hms & ->). apply in_app_iff. right.
  apply (mapM_in _ _ _ _ Hms). exists (Z.of_nat i, rule), bs. split; [apply enumerate_nat; by exists i, rule|done].
Qed.

Lemma find_fixed_map i rule tr :
  rs !! i = Some rule -> pool rule = None -> In (transport_name tr) (transports (protocol rule)) ->
  existsb mapping_is_fixed (mappings rule) = true ->
  find_map t (fixed_map_name (Z.of_nat i) (transport_name tr)) = Some (PortMap true (fixed_elements rule)).
Proof.
  intros Hi Hp Htr Hf. apply (find_map_key (KeyFixed i tr)).
  eapply (rule_map_in i rule); [done|unfold rule_maps; cbn [snd]; by rewrite Hp|].
  apply in_flat_map. exists (transport_name tr). split; [done|]. apply in_translation_maps. by left.
Qed.

Lemma find_shifted_map i rule tr :
  rs !! i = Some rule -> pool rule = None -> In (transport_name tr) (transports (protocol rule)) ->
  existsb mapping_is_shifted (mappings rule) = true ->
  find_map t (shifted_map_name (Z.of_nat i) (transport_name tr)) =
  Some (PortMap false (map (fun x => (single_port (fst x), snd x)) (shifted_elements rule))).
Proof.
  intros Hi Hp Htr Hf. apply (find_map_key (KeyShifted i tr)).
  eapply (rule_map_in i rule); [done|unfold rule_maps; cbn [snd]; by rewrite Hp|].
  apply in_flat_map. exists (transport_name tr). split; [done|]. apply in_translation_maps. by right.
Qed.

Lemma find_pool_map i rule p family :
  rs !! i = Some rule -> pool rule = Some p -> pool_nat_family p = Some family ->
  find_map t (pool_map_name (Z.of_nat i)) = Some (EndpointMap family (pool_elements p)).
Proof.
  intros Hi Hp Hf. apply (find_map_key (KeyPool i)).
  eapply (rule_map_in i rule); [done|unfold rule_maps; cbn [snd fst]; by rewrite Hp, Hf|by left].
Qed.

Lemma program_chains : exists cs, mapM (rule_chains uuid_text) (enumerate rs) = Some cs /\
  table_chains t = [local_chain (lit "prerouting"); local_chain (lit "output"); dispatch_chain rs] ++
    concat cs ++ (if existsb masquerade rs then [return_chain] else []).
Proof.
  unfold program in Hprog. destruct (mapM rule_maps _) as [ms|]; [|done]. cbn [mbind option_bind] in Hprog.
  destruct (mapM (rule_chains _) _) as [cs|]; [|done]. cbn [mbind option_bind] in Hprog. injection Hprog as <-. eauto.
Qed.

(** The chain a key stands for. *)
Definition key_chain (k : ChainKey) (c : Chain) : Prop :=
  match k with
  | KeyPrerouting => c = local_chain (lit "prerouting")
  | KeyOutput => c = local_chain (lit "output")
  | KeyDispatchChain => c = dispatch_chain rs
  | KeyPostrouting => c = return_chain
  | KeyRule i tr => exists rule, rs !! i = Some rule /\
      rule_chain uuid_text (Z.of_nat i) rule (transport_name tr) = Some c
  end.

Lemma rule_chain_in_key e cs c : In e (enumerate rs) -> rule_chains uuid_text e = Some cs -> In c cs ->
  exists i tr, chain_name c = chain_key_name (KeyRule i tr) /\ chain_hook c = None /\ key_chain (KeyRule i tr) c.
Proof.
  intros (i & rule & -> & Hi)%enumerate_nat Hcs Hin. unfold rule_chains in Hcs. cbn [fst snd] in Hcs.
  apply mapM_Some in Hcs. apply list_elem_of_In, list_elem_of_lookup in Hin as [j Hj].
  destruct (Forall2_lookup_r _ _ _ _ _ Hcs Hj) as (s & Hs & Hc).
  destruct (transports_in (protocol rule) s) as [tr ->]; [by eapply list_elem_of_In, list_elem_of_lookup_2|].
  exists i, tr. assert (Hc' := Hc). unfold rule_chain in Hc'. destruct (rule_statements _ _ _); [|done].
  injection Hc' as <-. cbn. eauto.
Qed.

Lemma table_chain_key c : In c (table_chains t) ->
  exists k, chain_name c = chain_key_name k /\ key_chain k c.
Proof.
  destruct program_chains as (cs & Hcs & ->). rewrite !in_app_iff, (mapM_in _ _ _ _ Hcs).
  intros [Hin|[(e & bs & He & Hf & Hin)|Hin]].
  - cbn in Hin. destruct Hin as [<-|[<-|[<-|[]]]];
      [by exists KeyPrerouting|by exists KeyOutput|by exists KeyDispatchChain].
  - destruct (rule_chain_in_key e bs c He Hf Hin) as (i & tr & Hn & _ & Hk). eauto.
  - destruct (existsb _ _); [|done]. destruct Hin as [<-|[]]. by exists KeyPostrouting.
Qed.

Lemma find_chain_key k c : In c (table_chains t) -> chain_name c = chain_key_name k ->
  find_chain t (chain_key_name k) = Some c.
Proof.
  intros Hin Hn. unfold find_chain. apply find_some_eq; [done|by rewrite Hn, str_eqb_refl|].
  intros c' Hin' E%str_eqb_eq. destruct (table_chain_key c Hin) as (l & Hl & Hc).
  rewrite Hn in Hl. apply chain_key_name_inj in Hl as <-.
  destruct (table_chain_key c' Hin') as (l & Hl & Hc'). rewrite E in Hl. apply chain_key_name_inj in Hl as <-.
  destruct k; cbn in Hc, Hc'; naive_solver.
Qed.

Lemma find_rule_chain i rule tr :
  rs !! i = Some rule -> In (transport_name tr) (transports (protocol rule)) ->
  exists c, rule_chain uuid_text (Z.of_nat i) rule (transport_name tr) = Some c /\
    find_chain t (rule_chain_name (Z.of_nat i) (transport_name tr)) = Some c.
Proof.
  intros Hi Htr. destruct program_chains as (cs & Hcs & Ht). assert (Hm := Hcs). apply mapM_Some in Hm.
  assert (He : In (Z.of_nat i, rule) (enumerate rs)) by (apply enumerate_nat; eauto).
  apply list_elem_of_In, list_elem_of_lookup in He as [j Hj].
  destruct (Forall2_lookup_l _ _ _ _ _ Hm Hj) as (ch & Hch & Hr).
  assert (Hr' := Hr). unfold rule_chains in Hr'. cbn [fst snd] in Hr'. apply mapM_Some in Hr'.
  apply list_elem_of_In, list_elem_of_lookup in Htr as [k Hk].
  destruct (Forall2_lookup_l _ _ _ _ _ Hr' Hk) as (c & Hc & Hrc). exists c. split; [done|].
  apply (find_chain_key (KeyRule i tr)).
  - rewrite Ht, !in_app_iff, (mapM_in _ _ _ _ Hcs). right. left. exists (Z.of_nat i, rule), ch.
    split; [by eapply list_elem_of_In, list_elem_of_lookup_2|]. split; [done|]. by eapply list_elem_of_In, list_elem_of_lookup_2.
  - cbn. unfold rule_chain in Hrc. destruct (rule_statements _ _ _); [|done]. by injection Hrc as <-.
Qed.

Lemma find_dispatch_chain : find_chain t (lit "pf_dispatch") = Some (dispatch_chain rs).
Proof.
  apply (find_chain_key KeyDispatchChain); [|done]. destruct program_chains as (cs & _ & ->).
  cbn. auto.
Qed.

End Lookups.

(** * What the chains do *)

Lemma interval_singles p (es : list (Z * Z)) :
  interval_lookup p (map (fun x => (single_port (fst x), snd x)) es) = key_lookup p es.
Proof.
  unfold interval_lookup, key_lookup. induction es as [|[k v] es IH]; [done|]. cbn.
  unfold in_ports. cbn. destruct (Z.leb_spec k p), (Z.leb_spec p k), (Z.eqb_spec p k); try lia; done.
Qed.

Lemma interval_lookup_map {V W} (g : V -> W) p (es : list (PortRange * V)) :
  interval_lookup p (map (fun e => (fst e, g (snd e))) es) = g <$> interval_lookup p es.
Proof.
  unfold interval_lookup. induction es as [|[r v] es IH]; [done|]. cbn. by destruct (in_ports p r).
Qed.

Lemma no_fixed rule : existsb mapping_is_fixed (mappings rule) = false -> fixed_elements rule = [].
Proof.
  intros H. unfold fixed_elements. destruct (List.filter _ _) as [|m ms] eqn:E; [done|].
  assert (Hin : In m (List.filter mapping_is_fixed (mappings rule))) by (rewrite E; by left).
  apply filter_In in Hin as [Hin Hm]. by rewrite (existsb_false _ _ m H Hin) in Hm.
Qed.

Lemma no_shifted rule : existsb mapping_is_shifted (mappings rule) = false -> shifted_elements rule = [].
Proof.
  intros H. unfold shifted_elements. destruct (List.filter _ _) as [|m ms] eqn:E; [done|].
  assert (Hin : In m (List.filter mapping_is_shifted (mappings rule))) by (rewrite E; by left).
  apply filter_In in Hin as [Hin Hm]. by rewrite (existsb_false _ _ m H Hin) in Hm.
Qed.

Section Chains.

Context (uuid_text : Z -> str) (config : AgentPortForwardingConfig) (t : Table).
Hypothesis Hprog : program uuid_text config = Some t.
Context (select : Selector -> Z -> Z) (pkt : Packet).

Abbreviation rs := (rules config).
Abbreviation tr := (transport_name (pkt_transport pkt)).
Abbreviation d := (nfproto_name (pkt_family pkt), tr).

Definition translated (address : option IpAddr) (port : option Z) : Outcome :=
  match port with Some q => Translated address q | None => Fallthrough end.

Lemma run_statements_cons jump s rest owned :
  run_statements select t jump pkt (s :: rest) owned =
  match run_statement select t jump pkt s owned with
  | (owned', Fallthrough) => run_statements select t jump pkt rest owned'
  | r => r
  end.
Proof. reflexivity. Qed.

(** The statements of a rule without pool look the port up in the identity set,
    then in the fixed map, then in the shifted map. *)
Lemma run_plain jump i rule nat owned :
  rs !! i = Some rule -> pool rule = None -> In tr (transports (protocol rule)) ->
  nat_matches nat (pkt_family pkt) = true ->
  run_statements select t jump pkt (plain_statements (Z.of_nat i) rule tr nat) owned =
  (owned, translated (nat_address nat) (translate_port rule (pkt_dport pkt))).
Proof.
  intros Hi Hp Htr Hnat. unfold plain_statements, translate_port.
  assert (Hid : existsb (in_ports (pkt_dport pkt)) (identity_ranges rule) =
    negb (is_empty (identity_ranges rule)) && existsb (in_ports (pkt_dport pkt)) (identity_ranges rule))
    by by destruct (identity_ranges rule).
  rewrite Hid. clear Hid.
  destruct (is_empty (identity_ranges rule)); cbn [app negb andb];
    rewrite ?run_statements_cons; cbn [run_statement]; rewrite ?str_eqb_refl, ?Hnat; cbn [andb].
  2: destruct (existsb (in_ports _) _); [done|].
  all: destruct (existsb mapping_is_fixed (mappings rule)) eqn:Ef; cbn [app];
    rewrite ?run_statements_cons; cbn [run_statement];
    [rewrite ?str_eqb_refl, ?Hnat, (find_fixed_map _ _ _ Hprog i rule _ Hi Hp Htr Ef); cbn [andb];
     destruct (interval_lookup _ _); [done|]|rewrite (no_fixed _ Ef); cbn [interval_lookup List.find fmap option_fmap option_map]].
  all: destruct (existsb mapping_is_shifted (mappings rule)) eqn:Es;
    rewrite ?run_statements_cons; cbn [run_statement];
    [rewrite ?str_eqb_refl, ?Hnat, (find_shifted_map _ _ _ Hprog i rule _ Hi Hp Htr Es), interval_singles; cbn [andb];
     by destruct (key_lookup _ _)|by rewrite (no_shifted _ Es)].
Qed.

(** The statement of a pool rule sends the packet to the endpoint of the
    selector's value. *)
Lemma run_pool jump i rule p family selector owned :
  rs !! i = Some rule -> pool rule = Some p -> pool_nat_family p = Some family ->
  family = nat_family_name (pkt_family pkt) ->
  run_statements select t jump pkt
    [PoolNat tr family selector (pool_total p) (pool_map_name (Z.of_nat i))] owned =
  (owned, match select_endpoint p (select selector (pool_total p)) with
          | Some (ip, port) => Translated (Some ip) port
          | None => Fallthrough
          end).
Proof.
  intros Hi Hp Hf ->. rewrite run_statements_cons. cbn [run_statement].
  rewrite !str_eqb_refl, (find_pool_map _ _ _ Hprog i rule p _ Hi Hp Hf). cbn [andb]. unfold select_endpoint.
  by destruct (List.find _ _).
Qed.

(** A rule's chain counts the packet, marks the flow when the rule masquerades,
    and runs its statements. *)
Lemma run_rule_chain depth i rule owned :
  rs !! i = Some rule -> In tr (transports (protocol rule)) ->
  exists body, rule_statements (Z.of_nat i) rule tr = Some body /\
    run_chain select t (S depth) pkt (rule_chain_name (Z.of_nat i) tr) owned =
    run_statements select t (run_chain select t depth pkt) pkt body (owned || masquerade rule).
Proof.
  intros Hi Htr. destruct (find_rule_chain _ _ _ Hprog i rule (pkt_transport pkt) Hi Htr) as (c & Hc & Hfind).
  unfold rule_chain in Hc. destruct (rule_statements _ _ _) as [body|]; [|done]. injection Hc as <-.
  exists body. split; [done|]. cbn [run_chain]. by rewrite Hfind.
Qed.

Abbreviation vmaps := (map (fun e => DportVmap (fst e) (snd e) (dispatch_map_name (fst e) (snd e)))).

Lemma run_other_vmaps jump ds owned :
  (forall e, In e ds -> exists f u, e = (nfproto_name f, transport_name u)) -> ~ In d ds ->
  run_statements select t jump pkt (vmaps ds) owned = (owned, Fallthrough).
Proof.
  induction ds as [|e ds IH]; [done|]. intros Hform Hd. cbn [map]. rewrite run_statements_cons. cbn [run_statement].
  destruct (str_eqb (fst e) _ && str_eqb (snd e) _) eqn:E.
  - apply andb_prop in E as [E1%str_eqb_eq E2%str_eqb_eq]. destruct Hd. left. destruct e. cbn in *. by subst.
  - apply IH; [intros; apply Hform; by right|]. intros H. apply Hd. by right.
Qed.

(** The dispatch chain jumps to the chain the dispatch map of the packet's family
    and transport gives for its port. *)
Lemma run_vmaps jump ds owned :
  (forall e, In e ds -> In e (populated_dispatches rs)) -> NoDup ds -> In d ds ->
  run_statements select t jump pkt (vmaps ds) owned =
  match dispatch rs d (pkt_dport pkt) with
  | Some i => jump (rule_chain_name i tr) owned
  | None => (owned, Fallthrough)
  end.
Proof.
  induction ds as [|e ds IH]; [done|]. intros Hsub Hnd Hd. apply NoDup_cons in Hnd as [Hnot Hnd].
  cbn [map]. rewrite run_statements_cons.
  assert (Hrest : forall o, ~ In d ds -> run_statements select t jump pkt (vmaps ds) o = (o, Fallthrough)).
  { intros o Hno. apply run_other_vmaps; [|done]. intros x Hx. eapply populated_in. apply Hsub. by right. }
  destruct Hd as [->|Hd].
  - assert (~ In d ds) as Hno by by rewrite <- list_elem_of_In.
    cbn [run_statement fst snd]. rewrite !str_eqb_refl. cbn [andb].
    rewrite (find_dispatch_map _ _ _ Hprog); [|apply Hsub; by left]. unfold dispatch_map. cbn [fst snd].
    rewrite (interval_lookup_map (fun i => rule_chain_name i tr)). fold (dispatch rs d (pkt_dport pkt)).
    destruct (dispatch rs d (pkt_dport pkt)) as [i|]; cbn [fmap option_fmap option_map].
    + destruct (jump _ owned) as [o' []]; try done. by apply Hrest.
    + by apply Hrest.
  - cbn [run_statement]. destruct (str_eqb (fst e) _ && str_eqb (snd e) _) eqn:E.
    + apply andb_prop in E as [E1%str_eqb_eq E2%str_eqb_eq]. destruct Hnot. apply list_elem_of_In.
      destruct e. cbn in *. by subst.
    + apply IH; [intros; apply Hsub; by right|done..].
Qed.

Lemma populated_NoDup l : NoDup (populated_dispatches l).
Proof.
  unfold populated_dispatches. apply NoDup_ListNoDup, List.NoDup_filter, NoDup_ListNoDup.
  apply (bool_decide_unpack _). by vm_compute.
Qed.

Lemma not_populated : ~ In d (populated_dispatches rs) -> dispatch rs d (pkt_dport pkt) = None.
Proof.
  intros Hno. unfold dispatch, interval_lookup. destruct (List.find _ _) as [[r i]|] eqn:E; [|done].
  apply find_some in E as [(rule & _ & Hl & Hd & _)%in_dispatch_elements _]. destruct Hno.
  apply filter_In. split; [destruct (pkt_family pkt), (pkt_transport pkt); cbn; tauto|].
  apply existsb_exists. exists rule. split; [by eapply list_elem_of_In, list_elem_of_lookup_2|done].
Qed.

Lemma run_dispatch_chain depth owned :
  run_chain select t (S depth) pkt (lit "pf_dispatch") owned =
  match dispatch rs d (pkt_dport pkt) with
  | Some i => run_chain select t depth pkt (rule_chain_name i tr) owned
  | None => (owned, Fallthrough)
  end.
Proof.
  cbn [run_chain]. rewrite (find_dispatch_chain _ _ _ Hprog). cbn [dispatch_chain chain_body].
  destruct (decide (d ∈ populated_dispatches rs)) as [Hin|Hno].
  - apply run_vmaps; [done|apply populated_NoDup|by apply list_elem_of_In].
  - rewrite list_elem_of_In in Hno. rewrite (not_populated Hno). apply run_other_vmaps; [|done].
    intros e. apply populated_in.
Qed.

(** Both destination hooks hand packets for the machine to the dispatch chain. *)
Lemma run_destination_hook hook owned :
  In hook [lit "prerouting"; lit "output"] ->
  run_hook select t hook pkt owned =
  if pkt_local pkt then
    match dispatch rs d (pkt_dport pkt) with
    | Some i => run_chain select t 14 pkt (rule_chain_name i tr) owned
    | None => (owned, Fallthrough)
    end
  else (owned, Fallthrough).
Proof.
  intros Hh. destruct (program_chains _ _ _ Hprog) as (cs & _ & Ht). unfold run_hook.
  assert (Hc : forall k, In k [KeyPrerouting; KeyOutput] ->
    run_chain select t NFT_JUMP_STACK_SIZE pkt (chain_key_name k) owned =
    if pkt_local pkt then run_chain select t 15 pkt (lit "pf_dispatch") owned else (owned, Fallthrough)).
  { intros k Hk. unfold NFT_JUMP_STACK_SIZE. remember 15%nat as n. cbn [run_chain].
    rewrite (find_chain_key _ _ _ Hprog k (local_chain (chain_key_name k))).
    - cbn [local_chain chain_body run_statements run_statement]. destruct (pkt_local pkt); [|done].
      destruct (run_chain _ _ _ _ _ _) as [o []]; done.
    - rewrite Ht. destruct Hk as [<-|[<-|[]]]; cbn; auto.
    - done. }
  rewrite <- (run_dispatch_chain 14), Ht. destruct Hh as [<-|[<-|[]]].
  - apply (Hc KeyPrerouting). by left.
  - apply (Hc KeyOutput). by right; left.
Qed.

(** The return hook masquerades marked flows. *)
Lemma run_return_hook owned :
  (owned = true -> existsb masquerade rs = true) ->
  run_hook select t (lit "postrouting") pkt owned = (owned, if owned then Masqueraded else Fallthrough).
Proof.
  intros Hm. destruct (program_chains _ _ _ Hprog) as (cs & Hcs & Ht). unfold run_hook.
  assert (Hnone : forall c, In c (concat cs) -> chain_hook c = None).
  { intros c (e & bs & He & Hf & Hin)%(mapM_in _ _ _ _ Hcs).
    by destruct (rule_chain_in_key uuid_text config e bs c He Hf Hin) as (i & u & _ & Hh & _). }
  rewrite Ht. cbn [app List.find local_chain dispatch_chain chain_hook hook_name].
  change (str_eqb (lit "prerouting") (lit "postrouting")) with false.
  change (str_eqb (lit "output") (lit "postrouting")) with false. cbv iota.
  destruct (existsb masquerade rs) eqn:Em.
  - rewrite (find_some_eq _ _ return_chain).
    + change (chain_name return_chain) with (chain_key_name KeyPostrouting).
      unfold NFT_JUMP_STACK_SIZE. remember 15%nat as n. cbn [run_chain].
      rewrite (find_chain_key _ _ _ Hprog KeyPostrouting return_chain).
      * cbn [return_chain chain_body run_statements run_statement]. by destruct owned.
      * rewrite Ht, !in_app_iff. right. right. by left.
      * done.
    + apply in_app_iff. right. by left.
    + done.
    + intros c [Hc|[<-|[]]]%in_app_iff; [|done]. by rewrite (Hnone c Hc).
  - rewrite find_no; [destruct owned; [by discriminate Hm|done]|].
    intros c Hc. rewrite app_nil_r in Hc. by rewrite (Hnone c Hc).
Qed.

End Chains.

(** * Accepted configurations *)

Definition ip_family (ip : IpAddr) : Family := match ip with IpV4 _ => FamilyIpv4 | IpV6 _ => FamilyIpv6 end.

(** An address a rule forwards to: its own, or one of its pool's. *)
Definition forwards_to (rule : PortForwardRule) (ip : IpAddr) : Prop :=
  target_ip rule = Some ip \/
  exists p row, pool rule = Some p /\ In row (pool_upstreams p) /\ up_target_ip row = ip.

(** The packets a native rule is for: those of its transports and, for a rule with
    targets, of their family; a redirecting rule names its families. *)
Definition serves (rule : PortForwardRule) (pkt : Packet) : Prop :=
  match protocol rule, pkt_transport pkt with
  | Tcp, TransportTcp | Udp, TransportUdp | BothTransports, _ => True
  | _, _ => False
  end /\
  match mode rule with
  | Dnat => exists ip, forwards_to rule ip /\ ip_family ip = pkt_family pkt
  | Redirect =>
      match address_family rule, pkt_family pkt with
      | Some Ipv4, FamilyIpv4 | Some Ipv6, FamilyIpv6 | Some BothFamilies, _ => True
      | _, _ => False
      end
  | CustomAdapter => False
  end.

Lemma serves_transport rule pkt :
  serves rule pkt -> In (transport_name (pkt_transport pkt)) (transports (protocol rule)).
Proof.
  intros [H _]. destruct (protocol rule), (pkt_transport pkt); cbn [transports transport_name In]; try done; auto.
Qed.

Lemma transport_serves rule u :
  In (transport_name u) (transports (protocol rule)) ->
  match protocol rule, u with
  | Tcp, TransportTcp | Udp, TransportUdp | BothTransports, _ => True
  | _, _ => False
  end.
Proof. destruct (protocol rule), u; try done; by intros [H|[]]. Qed.

Section Accepted.

Context (rule : PortForwardRule).
Hypothesis Hgood : rule_good rule.

Lemma pool_one_family p row row' :
  pool rule = Some p -> In row (pool_upstreams p) -> In row' (pool_upstreams p) ->
  row_family row = row_family row'.
Proof.
  destruct Hgood as (_ & Hv & Hn). intros Hp Hr Hr'.
  assert (Hm : mode rule = Dnat) by (destruct (native_shape rule Hv Hn) as [(q & _ & Hm)|[(Hq & _)|(Hq & _)]]; congruence).
  unfold validate_port_forward_rule in Hv. destruct (is_empty _); [done|]. destruct (_ <? _); [done|].
  inv_bind. rewrite Hp, Hm in *. destruct (_ || _); [done|].
  apply validate_pool_rows in Hv as (fs & _ & _ & _ & _ & Hf & Hd). destruct (Hd eq_refl) as (Hl & _ & _).
  destruct fs as [|f [|]]; try done. rewrite List.Forall_forall in Hf.
  apply Hf, list_elem_of_singleton in Hr. apply Hf, list_elem_of_singleton in Hr'. congruence.
Qed.

Lemma row_family_ip row row' :
  row_family row = row_family row' -> ip_family (up_target_ip row) = ip_family (up_target_ip row').
Proof. unfold row_family. by destruct (up_target_ip row), (up_target_ip row'). Qed.

Lemma pool_no_target p : pool rule = Some p -> target_ip rule = None.
Proof.
  destruct Hgood as (_ & Hv & _). intros Hp. unfold validate_port_forward_rule in Hv.
  destruct (is_empty _); [done|]. destruct (_ <? _); [done|]. inv_bind. rewrite Hp in Hv.
  destruct (_ || _) eqn:Eo; [done|]. bools. by apply eq_None_not_Some.
Qed.

(** The targets of an accepted rule are of one family, that of the first. *)
Lemma dnat_first_target :
  mode rule = Dnat ->
  exists ip, first_target rule = Some ip /\ forwards_to rule ip /\
    forall ip', forwards_to rule ip' -> ip_family ip' = ip_family ip.
Proof.
  destruct Hgood as (Ht & Hv & Hn). intros Em. unfold first_target.
  destruct (native_shape rule Hv Hn) as [(p & Hp & _)|[(Hp & ip & _ & Hip)|(_ & Hm & _)]]; [..|congruence].
  - assert (Hno := pool_no_target p Hp). rewrite Hno, Hp. cbn [mbind option_bind].
    destruct (dnat_pool_rows rule p Hv Em Hp Ht) as (Hne & _).
    destruct (pool_upstreams p) as [|row rows] eqn:Er; [done|]. exists (up_target_ip row).
    assert (Hrow : In row (pool_upstreams p)) by (rewrite Er; by left).
    split; [done|]. split; [right; by exists p, row|].
    intros ip' [?|(p' & row' & Hp' & Hin & <-)]; [congruence|].
    apply row_family_ip, (pool_one_family p'); [done|done|congruence].
  - exists ip. rewrite Hip. split; [done|]. split; [by left|].
    intros ip' [?|(p' & row' & Hp' & _)]; congruence.
Qed.

Lemma nfproto_serves f :
  rule_has_nfproto rule (nfproto_name f) = true <->
  match mode rule with
  | Dnat => exists ip, forwards_to rule ip /\ ip_family ip = f
  | Redirect =>
      match address_family rule, f with
      | Some Ipv4, FamilyIpv4 | Some Ipv6, FamilyIpv6 | Some BothFamilies, _ => True
      | _, _ => False
      end
  | CustomAdapter => False
  end.
Proof.
  unfold rule_has_nfproto, native_families. rewrite bool_decide_eq_true. destruct (mode rule) eqn:Em.
  - destruct (dnat_first_target Em) as (ip & -> & Hto & Huniq). split.
    + intros H. exists ip. split; [done|]. destruct ip, f; try done; by apply list_elem_of_singleton in H.
    + intros (ip' & Hto' & Hf). rewrite (Huniq ip' Hto') in Hf.
      destruct ip; cbn in Hf; rewrite <- Hf; by apply list_elem_of_singleton.
  - destruct (address_family rule) as [[]|], f; rewrite ?elem_of_cons, ?elem_of_nil; vm_compute; intuition congruence.
  - split; [|done]. intros H. by apply not_elem_of_nil in H.
Qed.

(** The rendered dispatch maps serve exactly those packets. *)
Lemma dispatches_serves pkt :
  dispatches_to rule (nfproto_name (pkt_family pkt), transport_name (pkt_transport pkt)) = true <-> serves rule pkt.
Proof.
  unfold dispatches_to. cbn [fst snd]. rewrite andb_true_iff, nfproto_serves, bool_decide_eq_true. unfold serves. split.
  - intros [H1 H2]. split; [|done]. by apply transport_serves, list_elem_of_In.
  - intros H. split; [apply H|]. by apply list_elem_of_In, (serves_transport rule pkt).
Qed.

Lemma pool_mode p : pool rule = Some p -> mode rule = Dnat.
Proof.
  destruct Hgood as (_ & Hv & Hn). intros Hp.
  destruct (native_shape rule Hv Hn) as [(q & _ & Hm)|[(Hq & _)|(Hq & _)]]; congruence.
Qed.

Lemma pool_compiles p :
  pool rule = Some p ->
  exists row family selector, head (pool_upstreams p) = Some row /\ pool_nat_family p = Some family /\
    family = nat_family_name (ip_family (up_target_ip row)) /\ pool_selector rule p family = Some selector.
Proof.
  intros Hp. assert (Em := pool_mode p Hp). destruct Hgood as (Ht & Hv & Hn).
  destruct (dnat_pool_rows rule p Hv Em Hp Ht) as (Hne & _).
  assert (Hst : native_strategy (pool_strategy p) = true).
  { unfold validate_port_forward_rule in Hv. destruct (is_empty _); [done|]. destruct (_ <? _); [done|].
    inv_bind. rewrite Hp, Em in Hv. destruct (_ || _); [done|].
    apply validate_pool_rows in Hv as (fs & _ & _ & _ & _ & _ & Hd). by apply Hd. }
  unfold pool_nat_family, pool_selector. destruct (pool_upstreams p) as [|row rows]; [done|]. cbn.
  exists row. destruct (pool_strategy p); try done;
    eexists _, _; (split; [done|]); (split; [done|]); (split; [by destruct (up_target_ip row)|done]).
Qed.

Lemma plain_compiles :
  pool rule = None ->
  exists nat, nat_target rule = Some nat /\ nat_address nat = target_ip rule /\
    forall pkt, serves rule pkt -> nat_matches nat (pkt_family pkt) = true.
Proof.
  intros Hp. destruct Hgood as (_ & Hv & Hn). unfold nat_target, serves.
  destruct (native_shape rule Hv Hn) as [(q & Hq & _)|[(_ & ip & Hm & Hip)|(_ & Hm & _)]]; [congruence|..]; rewrite Hm.
  - rewrite Hip. exists (NatDnat ip). split; [done|]. split; [done|]. intros pkt [_ (ip' & Hto & Hf)].
    destruct (dnat_first_target Hm) as (jp & Hjp & _ & Huniq). unfold first_target in Hjp. rewrite Hip in Hjp.
    injection Hjp as <-. rewrite (Huniq ip' Hto) in Hf. destruct ip; cbn in Hf |- *; by rewrite <- Hf.
  - exists NatRedirect. split; [done|]. split; [|done]. unfold validate_port_forward_rule, validate_mode_fields in Hv.
    destruct (is_empty _); [done|]. destruct (_ <? _); [done|]. inv_bind. rewrite Hm in E.
    destruct (_ || masquerade rule) eqn:Eo; [done|]. bools. cbn. symmetry. by apply eq_None_not_Some.
Qed.

Lemma rule_compiles i :
  is_Some (rule_maps (i, rule)) /\ forall u, is_Some (rule_statements i rule u).
Proof.
  unfold rule_maps, rule_statements. cbn [fst snd]. destruct (pool rule) as [p|] eqn:Ep.
  - destruct (pool_compiles p Ep) as (row & f & sel & _ & -> & _ & Hsel). cbn [mbind option_bind]. rewrite Hsel.
    split; [by eexists|]. intros u. by eexists.
  - destruct (plain_compiles Ep) as (nat & -> & _). split; [by eexists|]. intros u. by eexists.
Qed.

End Accepted.

Lemma program_exists uuid_text config :
  Forall rule_good (rules config) -> exists t, program uuid_text config = Some t.
Proof.
  intros Hg. unfold program.
  assert (Hall : forall e, In e (enumerate (rules config)) -> rule_good (snd e)).
  { intros e (i & rule & -> & Hi)%enumerate_nat. rewrite Forall_lookup in Hg. by eapply Hg. }
  destruct (mapM_is_Some_2 rule_maps (enumerate (rules config))) as [ms ->].
  { apply List.Forall_forall. intros [i rule] Hin. apply (rule_compiles rule (Hall _ Hin)). }
  cbn [mbind option_bind].
  destruct (mapM_is_Some_2 (rule_chains uuid_text) (enumerate (rules config))) as [cs ->]; [|by eexists].
  apply List.Forall_forall. intros [i rule] Hin. apply mapM_is_Some_2. apply List.Forall_forall. intros u _.
  change (is_Some (rule_chain uuid_text i rule u)). unfold rule_chain. destruct (proj2 (rule_compiles rule (Hall _ Hin) i) u) as [b ->]. by eexists.
Qed.

Section Forwarding.

Context (uuid_text : Z -> str) (sha256 : list Z -> list Z) (hex_encode : list Z -> str).
Context (rules_json : list PortForwardRule -> list Z).

Abbreviation validate := (validate_port_forwarding_config sha256 hex_encode rules_json).
Abbreviation native := (native_config sha256 hex_encode rules_json).

Section Packet.

Context (config : AgentPortForwardingConfig) (t : Table).
Hypothesis Hv : validate config = Ok tt.
Hypothesis Hty : Forall rule_typed (rules config).
Hypothesis Hprog : program uuid_text (native config) = Some t.
Context (select : Selector -> Z -> Z) (hook : str) (pkt : Packet).
Hypothesis Hhook : In hook [lit "prerouting"; lit "output"].

Abbreviation d := (nfproto_name (pkt_family pkt), transport_name (pkt_transport pkt)).

Lemma native_good : Forall rule_good (rules (native config)).
Proof.
  destruct (native_rules_valid _ _ _ config Hv) as (Hr & Hn & _).
  rewrite List.Forall_forall in Hr, Hn, Hty |- *. intros rule Hin. split; [|by split; auto].
  apply Hty. cbn in Hin. by apply filter_In in Hin as [? _].
Qed.

(** A packet for the machine that a rule is for runs the rule's statements. *)
Lemma claimed_packet rule :
  In rule (rules config) -> is_native rule = true -> serves rule pkt -> pkt_local pkt = true ->
  existsb (in_ports (pkt_dport pkt)) (incoming_ranges rule) = true ->
  exists i body, rules (native config) !! i = Some rule /\
    rule_statements (Z.of_nat i) rule (transport_name (pkt_transport pkt)) = Some body /\
    run_hook select t hook pkt false =
    run_statements select t (run_chain select t 13 pkt) pkt body (masquerade rule).
Proof.
  intros Hin Hn Hs Hl Hports. assert (Hinn : In rule (rules (native config))) by by apply filter_In.
  apply list_elem_of_In, list_elem_of_lookup in Hinn as [i Hi].
  assert (Hg := native_good). rewrite Forall_lookup in Hg.
  assert (Hd : dispatch (rules (native config)) d (pkt_dport pkt) = Some (Z.of_nat i)).
  { apply dispatch_iff; [done|]. exists rule. rewrite Nat2Z.id. split; [lia|]. split; [done|].
    split; [|done]. by apply (dispatches_serves rule (Hg i rule Hi)). }
  rewrite (run_destination_hook _ _ _ Hprog), Hl, Hd by done.
  destruct (run_rule_chain _ _ _ Hprog select pkt 13 i rule false Hi (serves_transport rule pkt Hs)) as (body & Hb & ->).
  exists i, body. done.
Qed.

Lemma plain_packet rule m :
  In rule (rules config) -> is_native rule = true -> serves rule pkt -> pkt_local pkt = true ->
  In m (mappings rule) -> in_ports (pkt_dport pkt) (incoming m) = true ->
  run_hook select t hook pkt false = (masquerade rule, Translated (target_ip rule) (mapped_port m (pkt_dport pkt))).
Proof.
  intros Hin Hn Hs Hl Hm Hp.
  assert (Hg := native_good). rewrite List.Forall_forall in Hg.
  assert (Hgr : rule_good rule) by (apply Hg; by apply filter_In). assert (Hgr' := Hgr). destruct Hgr' as (Ht & Hvr & _).
  assert (Hpool : pool rule = None).
  { destruct (pool rule) as [p|] eqn:Ep; [|done]. unfold validate_port_forward_rule in Hvr.
    destruct (is_empty (trim _)); [done|]. destruct (_ <? _); [done|]. inv_bind. rewrite Ep in Hvr.
    destruct (_ || _) eqn:Eo; [done|]. bools. by destruct (mappings rule). }
  destruct (claimed_packet rule Hin Hn Hs Hl) as (i & body & Hi & Hb & ->).
  { unfold incoming_ranges. rewrite Hpool. apply existsb_exists. exists (incoming m). split; [by apply in_map|done]. }
  destruct (plain_compiles rule Hgr Hpool) as (nat & Hnat & Haddr & Hmatch).
  unfold rule_statements in Hb. rewrite Hpool, Hnat in Hb. cbn [mbind option_bind] in Hb. injection Hb as <-.
  rewrite (run_plain _ _ _ Hprog select pkt _ i rule nat _ Hi Hpool (serves_transport rule pkt Hs) (Hmatch pkt Hs)).
  rewrite Haddr. apply validate_rule_incoming in Hvr as [Hok Hone]. unfold incoming_ranges in Hok, Hone.
  rewrite Hpool in Hok, Hone. rewrite (translate_covered rule) with (m := m); [done|..|done|done].
  - intros q. by apply at_most_one_map.
  - destruct Ht as (_ & _ & _ & Hmt & _). rewrite List.Forall_forall in Hmt, Hok |- *. intros x Hx.
    split; [by apply Hmt|]. apply validate_range_ok, Hok. by apply in_map.
Qed.

Lemma pool_packet rule p :
  In rule (rules config) -> is_native rule = true -> serves rule pkt -> pkt_local pkt = true ->
  pool rule = Some p -> existsb (in_ports (pkt_dport pkt)) (pool_incoming p) = true ->
  exists selector, run_hook select t hook pkt false =
    (masquerade rule, match select_endpoint p (select selector (pool_total p)) with
                      | Some (ip, port) => Translated (Some ip) port
                      | None => Fallthrough
                      end).
Proof.
  intros Hin Hn Hs Hl Hpool Hp.
  assert (Hg := native_good). rewrite List.Forall_forall in Hg.
  assert (Hgr : rule_good rule) by (apply Hg; by apply filter_In).
  destruct (claimed_packet rule Hin Hn Hs Hl) as (i & body & Hi & Hb & ->).
  { unfold incoming_ranges. by rewrite Hpool. }
  destruct (pool_compiles rule Hgr p Hpool) as (row & family & selector & Hrow & Hf & Hfam & Hsel).
  unfold rule_statements in Hb. rewrite Hpool, Hf in Hb. cbn [mbind option_bind] in Hb. rewrite Hsel in Hb.
  cbn [mbind option_bind] in Hb. injection Hb as <-. exists selector.
  apply (run_pool _ _ _ Hprog select pkt _ i rule); [done..|]. rewrite Hfam. f_equal.
  assert (Em := pool_mode rule Hgr p Hpool). destruct Hs as [_ Hs]. rewrite Em in Hs. destruct Hs as (ip & Hto & <-).
  destruct (dnat_first_target rule Hgr Em) as (jp & Hjp & _ & Huniq). rewrite (Huniq ip Hto).
  unfold first_target in Hjp. rewrite (pool_no_target rule Hgr p Hpool), Hpool in Hjp. cbn in Hjp. rewrite Hrow in Hjp.
  by injection Hjp as <-.
Qed.

Lemma unclaimed_packet :
  pkt_local pkt = false \/
  (forall rule, In rule (rules config) -> is_native rule = true -> serves rule pkt ->
     existsb (in_ports (pkt_dport pkt)) (incoming_ranges rule) = false) ->
  run_hook select t hook pkt false = (false, Fallthrough).
Proof.
  intros H. rewrite (run_destination_hook _ _ _ Hprog) by done. destruct (pkt_local pkt); [|done].
  destruct H as [|H]; [done|]. destruct (dispatch _ d _) as [i|] eqn:E; [|done].
  apply dispatch_iff in E as (rule & _ & Hl & Hd & He); [|done].
  assert (Hg := native_good). rewrite Forall_lookup in Hg.
  apply (dispatches_serves rule (Hg _ _ Hl)) in Hd. apply list_elem_of_lookup_2, list_elem_of_In in Hl.
  cbn in Hl. apply filter_In in Hl as [Hin Hn]. rewrite (H rule Hin Hn Hd) in He. done.
Qed.

End Packet.

(** C27: The table rendered for an accepted configuration is the concrete syntax of a
    program which, at both destination hooks and for every packet of a new flow,
    does what the native rules say.  A packet for the machine is translated to the
    target of the rule that is for it and to the port its mapping gives, or, for a
    rule with a pool, to a port of one of the pool's enabled upstreams, each picked
    by exactly as many selector values as its weight; the flow is masqueraded on its
    way out exactly when that rule asks for it.  A packet for another address, or
    for a port that no rule for its family and transport claims, is left alone. *)
Theorem packets_follow_the_rules config :
  validate config = Ok tt -> Forall rule_typed (rules config) ->
  exists t, render_table uuid_text (native config) = Ok (print_table t) /\
    program uuid_text (native config) = Some t /\
    forall hook pkt, In hook [lit "prerouting"; lit "output"] ->
    (forall rule, In rule (rules config) -> is_native rule = true -> serves rule pkt -> pkt_local pkt = true ->
      (forall select m, In m (mappings rule) -> in_ports (pkt_dport pkt) (incoming m) = true ->
         run_hook select t hook pkt false =
         (masquerade rule, Translated (target_ip rule) (mapped_port m (pkt_dport pkt)))) /\
      (forall p, pool rule = Some p -> existsb (in_ports (pkt_dport pkt)) (pool_incoming p) = true ->
         (forall select, (forall selector n, 0 < n -> 0 <= select selector n < n) ->
            exists row port, In row (pool_upstreams p) /\ up_enabled row = true /\
              in_ports port (up_ports row) = true /\
              run_hook select t hook pkt false = (masquerade rule, Translated (Some (up_target_ip row)) port)) /\
         (forall row port, In row (pool_upstreams p) -> up_enabled row = true -> in_ports port (up_ports row) = true ->
            exists a, 0 <= a /\ a + up_weight row <= pool_total p /\
              forall v, run_hook (fun _ _ => v) t hook pkt false =
                          (masquerade rule, Translated (Some (up_target_ip row)) port) <-> a <= v < a + up_weight row)) /\
      (forall select, run_hook select t (lit "postrouting") pkt (masquerade rule) =
         (masquerade rule, if masquerade rule then Masqueraded else Fallthrough))) /\
    (pkt_local pkt = false \/
     (forall rule, In rule (rules config) -> is_native rule = true -> serves rule pkt ->
        existsb (in_ports (pkt_dport pkt)) (incoming_ranges rule) = false) ->
     forall select, run_hook select t hook pkt false = (false, Fallthrough)).
Proof.
  intros Hv Hty. assert (Hg := native_good config Hv Hty). destruct (program_exists uuid_text _ Hg) as [t Ht].
  exists t. split; [by apply render_table_prints|]. split; [done|]. intros hook pkt Hh. split.
  2: { intros H select. by apply (unclaimed_packet config). }
  intros rule Hin Hn Hs Hl. split; [|split].
  - intros select m Hm Hp. by apply (plain_packet config).
  - intros p Hp Hports. assert (Hinn : In rule (rules (native config))) by by apply filter_In.
    rewrite List.Forall_forall in Hg. destruct (Hg rule Hinn) as (Hrt & Hrv & _).
    assert (Em := pool_mode rule (Hg rule Hinn) p Hp).
    destruct (pool_weights_exact rule p Hrv Em Hp Hrt) as (Htot & Hsome & Hweights). split.
    + intros select Hsel.
      destruct (pool_packet config t Hv Hty Ht select hook pkt Hh rule p Hin Hn Hs Hl Hp Hports) as (selector & ->).
      destruct (Hsome (select selector (pool_total p))) as (row & port & Hrow & Hen & Hport & ->); [apply Hsel; lia|].
      exists row, port. split; [done|]. split; [done|]. split; [by apply in_ports_of|done].
    + intros row port Hrow Hen Hport. apply in_ports_of in Hport.
      destruct (Hweights row port Hrow Hen Hport) as (a & Ha & Hle & Hiff). exists a. split; [done|]. split; [done|].
      intros v. rewrite <- Hiff.
      destruct (pool_packet config t Hv Hty Ht (fun _ _ => v) hook pkt Hh rule p Hin Hn Hs Hl Hp Hports) as (selector & ->).
      destruct (select_endpoint p v) as [[ip q]|]; split; congruence.
  - intros select. apply (run_return_hook _ _ _ Ht). intros Hm. apply existsb_exists. exists rule.
    split; [by apply filter_In|done].
Qed.

End Forwarding.

Definition web_packet : Packet :=
  {| pkt_family := FamilyIpv4; pkt_transport := TransportTcp; pkt_dport := 1001; pkt_local := true |}.

(** TCP 1001 over IPv4 is sent to port 2001 of the first rule's target. *)
Lemma packets_follow_the_rules_witness :
  validate_port_forwarding_config hash_ex hex_ex json_ex config_ex = Ok tt /\
  exists t, render_table uuid_ex (native_config hash_ex hex_ex json_ex config_ex) = Ok (print_table t) /\
    run_hook (fun _ _ => 0) t (lit "prerouting") web_packet false =
    (masquerade dnat_ex, Translated (target_ip dnat_ex) 2001).
Proof.
  split; [exact config_ex_valid|].
  destruct (packets_follow_the_rules uuid_ex hash_ex hex_ex json_ex config_ex config_ex_valid config_ex_typed)
    as (t & Ht & _ & H).
  exists t. split; [exact Ht|].
  assert (Hs : serves dnat_ex web_packet).
  { split; [exact I|]. eexists. split; [left; reflexivity|reflexivity]. }
  destruct (H (lit "prerouting") web_packet (or_introl eq_refl)) as [Hr _].
  destruct (Hr dnat_ex (or_introl eq_refl) eq_refl Hs eq_refl) as [Hm _].
  exact (Hm (fun _ _ => 0) _ (or_intror (or_intror (or_introl eq_refl))) eq_refl).
Defined.
