(* ===== verification/NftAgentProofs.v ===== *)
(** The agent accepts what the server accepted: the native part of an accepted
    configuration is itself accepted, so reconciling it ends neither in a
    validation error nor in a rendering error. *)

From S2P Require Import Prelude RustStd Json Auth VpsDecimal TagOrder Net PortForwarding PortForwardProofs NftRender NftProofs NftReconcile NftReconcileProofs NftSizeProofs.

Open Scope Z_scope.

(** * The schema version of the native part *)

Definition max_schema (rs : list PortForwardRule) : Z :=
  match map required_schema_version rs with [] => 1 | v :: vs => foldl Z.max v vs end.

Lemma foldl_max_spec v vs :
  (forall x, In x (v :: vs) -> x <= foldl Z.max v vs) /\ In (foldl Z.max v vs) (v :: vs).
Proof.
  revert v. induction vs as [|w vs IH]; intros v; cbn [foldl].
  - split; [intros x [->|[]]; lia|by left].
  - destruct (IH (Z.max v w)) as [Hle Hin]. split.
    + intros x [->|[->|Hx]].
      * etransitivity; [|apply Hle; by left]. lia.
      * etransitivity; [|apply Hle; by left]. lia.
      * apply Hle. by right.
    + destruct Hin as [Hin|Hin]; [|by right; right]. rewrite <- Hin.
      destruct (Z.max_dec v w) as [-> | ->]; [by left|by right; left].
Qed.

Lemma required_cases rule :
  (required_schema_version rule = 1 /\ mode rule = Dnat) \/ required_schema_version rule = 2 \/
  required_schema_version rule = 3.
Proof.
  unfold required_schema_version. destruct (_ || _); [by right; right|].
  destruct (negb _) eqn:E; [by right; left|]. left. bools. done.
Qed.

Lemma max_schema_spec rs :
  (forall rule, In rule rs -> required_schema_version rule <= max_schema rs) /\
  schema_known (max_schema rs) = true.
Proof.
  unfold max_schema. destruct rs as [|rule rs]; [done|]. cbn [map].
  destruct (foldl_max_spec (required_schema_version rule) (map required_schema_version rs)) as [Hle Hin]. split.
  - intros r Hr. apply Hle. change (In (required_schema_version r) (map required_schema_version (rule :: rs))).
    by apply in_map.
  - change (In (foldl Z.max (required_schema_version rule) (map required_schema_version rs))
              (map required_schema_version (rule :: rs))) in Hin.
    apply in_map_iff in Hin as (r & <- & _). destruct (required_cases r) as [[-> _]|[-> | ->]]; done.
Qed.

Lemma filter_idem {A} (f : A -> bool) l : List.filter f (List.filter f l) = List.filter f l.
Proof. induction l as [|a l IH]; [done|]. cbn. destruct (f a) eqn:E; cbn; rewrite ?E, IH; done. Qed.

Lemma check_rules_intro ids rs :
  Forall (fun rule => validate_port_forward_rule rule = Ok tt) rs -> NoDup (map rule_id rs) ->
  Forall (fun rule => rule_id rule ∉ ids) rs -> exists ids', try_fold check_rule ids rs = Ok ids'.
Proof.
  intros Hv. revert ids. induction Hv as [|r rs Hr _ IH]; intros ids Hn Hids; [by eexists|].
  apply Forall_cons in Hids as [Hid Hids]. cbn [map] in Hn. apply NoDup_cons in Hn as [Hnot Hn].
  cbn [try_fold]. unfold check_rule. rewrite bool_decide_false, Hr by done. cbn [mbind result_bind].
  apply IH; [done|]. rewrite List.Forall_forall in Hids |- *. intros x Hx Hin.
  apply elem_of_union in Hin as [Hin|Hin]; [|by apply (Hids x Hx)]. apply Hnot.
  apply elem_of_singleton in Hin as <-. apply list_elem_of_In, in_map_iff. eauto.
Qed.

Lemma NoDup_filter_map {A B} (f : A -> B) (p : A -> bool) l :
  NoDup (map f l) -> NoDup (map f (List.filter p l)).
Proof.
  induction l as [|a l IH]; [done|]. cbn [map]. intros [Hn Hd]%NoDup_cons. cbn. destruct (p a); [|auto].
  cbn. constructor; [|auto]. intros (x & Hx & [Hin _]%filter_In)%list_elem_of_In%in_map_iff.
  apply Hn, list_elem_of_In, in_map_iff. eauto.
Qed.

Section Agent.

Context (uuid_text : Z -> str) (uuid_parse : str -> option Z).
Context (sha256 : list Z -> list Z) (hex_encode : list Z -> str).
Context (rules_json : list PortForwardRule -> list Z) (value_json : Value -> list Z).
Hypothesis uuid_len : forall id, 0 <= id <= u128_max -> str_len (uuid_text id) = 36.
(** A digest is written as 64 lower-case hexadecimal digits. *)
Hypothesis hash_len : forall bytes, str_len (payload_hash sha256 hex_encode bytes) = 64.
Hypothesis hash_hex : forall bytes,
  forallb is_hash_byte (as_bytes (payload_hash sha256 hex_encode bytes)) = true.

Abbreviation validate := (validate_port_forwarding_config sha256 hex_encode rules_json).
Abbreviation native := (native_config sha256 hex_encode rules_json).

Lemma native_hash_ok config : desired_hash_check sha256 hex_encode rules_json (native config) = Ok tt.
Proof.
  unfold desired_hash_check. cbn [native_config rules desired_hash]. unfold native_hash.
  destruct (is_empty _) eqn:E; [done|]. unfold port_forwarding_desired_hash.
  set (h := payload_hash _ _ _). assert (Hne : is_empty h = false).
  { assert (Hl : str_len h = 64) by apply hash_len. by destruct h. }
  rewrite Hne. cbn [negb andb].
  assert (str_len h = 64) as -> by apply hash_len. assert (forallb is_hash_byte (as_bytes h) = true) as -> by apply hash_hex.
  cbn. unfold h. by rewrite str_eqb_refl.
Qed.

Lemma native_valid config : validate config = Ok tt -> validate (native config) = Ok tt.
Proof.
  intros Hv. assert (Hok := Hv). apply validate_config_ok in Hok as (Hr & Hnd & Hn & Hest & Hx).
  set (rs := List.filter is_native (rules config)).
  destruct (max_schema_spec rs) as [Hmax Hknown]. unfold validate_port_forwarding_config.
  assert (Hs : schema_unsupported (native config) = false).
  { unfold schema_unsupported. change (schema_version (native config)) with (max_schema rs).
    rewrite Hknown. cbn [negb orb]. destruct (Z.eqb_spec (max_schema rs) PORT_FORWARDING_SCHEMA_VERSION) as [He|]; [|done].
    cbn [andb]. change (cleanup_rules (native config)) with (@nil PortForwardCleanupRule). cbn [is_empty negb orb].
    apply existsb_none. intros rule Hin. cbn [native_config rules] in Hin. fold rs in Hin.
    specialize (Hmax rule Hin). rewrite He in Hmax. unfold PORT_FORWARDING_SCHEMA_VERSION in Hmax.
    destruct (required_cases rule) as [[_ ->]|[E|E]]; [done|lia|lia]. }
  rewrite Hs. change (schema_version (native config)) with (max_schema rs).
  change (rules (native config)) with rs. rewrite existsb_none.
  2: { intros rule Hin. apply Z.ltb_ge. by apply Hmax. }
  assert (Hlen : vec_len rs <= MAX_PORT_FORWARD_RULES)
    by (pose proof (filter_count is_native (rules config)) as Hf; fold rs in Hf; lia).
  rewrite (proj2 (Z.ltb_ge _ _) Hlen), native_hash_ok. cbn [mbind result_bind].
  assert (Hrs : Forall (fun rule => validate_port_forward_rule rule = Ok tt) rs).
  { rewrite List.Forall_forall in Hr |- *. intros x [Hin _]%filter_In. auto. }
  destruct (check_rules_intro ∅ rs Hrs (NoDup_filter_map _ _ _ Hnd)) as [ids ->].
  { apply List.Forall_forall. intros x _. apply not_elem_of_empty. }
  cbn [mbind result_bind]. change (cleanup_rules (native config)) with (@nil PortForwardCleanupRule).
  cbn [try_fold mbind result_bind].
  assert (estimated_nft_program_bytes rs = estimated_nft_program_bytes (rules config)) as ->.
  { unfold estimated_nft_program_bytes, rs. by rewrite filter_idem. }
  rewrite (proj2 (Z.ltb_ge _ _) Hest). apply validate_cross_rule_overlaps_iff; [done|].
  unfold rs. rewrite native_claims. by apply validate_cross_rule_overlaps_iff.
Qed.

(** The error is about the configuration, not about nft. *)
Definition is_refusal (e : ReconcileError) : bool :=
  match e with ReconcileInvalid _ | RenderFailed _ => true | _ => false end.

(** C32: A configuration the server accepted is not refused by the agent: whatever nft
    answers, reconciling its native part fails neither in validation nor in
    rendering. *)
Theorem accepted_config_not_refused host config req r c e c' scripts :
  validate config = Ok tt -> Forall rule_typed (rules config) ->
  reconcile_native uuid_text uuid_parse sha256 hex_encode rules_json value_json host (native config)
    req r c = (Err e, c', scripts) ->
  is_refusal e = false.
Proof.
  intros Hv Ht. assert (Hn := native_valid config Hv).
  assert (Hren : forall before, exists script,
    render_apply_script uuid_text sha256 hex_encode rules_json (native config) before = Ok script).
  { intros before. destruct (accepted_script_bounded uuid_text sha256 hex_encode rules_json uuid_len hash_len
      (native config) before Hn) as (script & Hs & _); [|eauto].
    rewrite List.Forall_forall in Ht |- *. intros x [Hin _]%filter_In. auto. }
  unfold reconcile_native. rewrite Hn. unfold apply_desired, after_apply, nft_err.
  destruct (negb (supported _)).
  { by destruct (_ && _); intros; simplify_eq. }
  destruct (negb _); [by intros; simplify_eq|].
  destruct (reply_before r) as [before|msg]; cbn [map_err]; [|by intros; simplify_eq].
  destruct (Hren (bool_decide (is_Some before))) as [script ->]. cbn [map_err].
  destruct (reply_check r), (reply_apply r), (reply_after r) as [[]|], before as [t|], (is_empty _); cbn [map_err];
    try destruct (negb (table_is_owned t)); try case_bool_decide; intros; by simplify_eq.
Qed.

End Agent.

(** A foreign table is refused with the ownership conflict. *)
Lemma accepted_config_not_refused_witness :
  exists e c scripts,
    reconcile_native uuid_text_ex uuid_parse_ex hash_ex hex_ex json_ex value_json_ex host_ex
      (native_config hash_ex hex_ex json_ex config_ex) false (replies_ex (Some Null) None) consumer_ex
    = (Err e, c, scripts) /\ is_refusal e = false.
Proof.
  assert (H : exists e c scripts, reconcile_native uuid_text_ex uuid_parse_ex hash_ex hex_ex json_ex value_json_ex
      host_ex (native_config hash_ex hex_ex json_ex config_ex) false (replies_ex (Some Null) None) consumer_ex
      = (Err e, c, scripts)) by (do 3 eexists; vm_compute; reflexivity).
  destruct H as (e & c & scripts & H). exists e, c, scripts. split; [exact H|].
  exact (accepted_config_not_refused uuid_text_ex uuid_parse_ex hash_ex hex_ex json_ex value_json_ex
    (fun _ _ => eq_refl) (fun _ => eq_refl) (fun _ => eq_refl) host_ex config_ex false
    (replies_ex (Some Null) None) consumer_ex e c scripts config_ex_valid config_ex_typed H).
Defined.
