(* ===== verification/ConfigModels.v ===== *)
(** Agent configuration: crates/common/src/config/config_models.rs.

    The bootstrap configuration of an agent ([AgentConfig]), the part of it the
    server manages ([AgentRuntimeConfig]) and their defaults.  Fields carry a
    prefix for their struct; the [BTreeMap] of environment variables is the list
    of its entries in key order.  [serde_json::to_vec] and the hash are arguments
    of the content hash. *)

From S2P Require Import Prelude RustStd Auth Net PortForwarding TunnelModels.

Open Scope Z_scope.

Definition MAX_RUNTIME_CONFIG_PATCH_BYTES : Z := 4 * 1024 * 1024.
Definition MAX_RUNTIME_CONFIG_FIELD_BYTES : Z := 4 * 1024.
Definition MAX_RUNTIME_CONFIG_REASON_BYTES : Z := MAX_RUNTIME_CONFIG_FIELD_BYTES.
Definition MAX_AGENT_PING_TARGETS : Z := 16.
Definition DEFAULT_MAX_JOB_TIMEOUT_SECS : Z := 3600.
Definition MAX_CONFIGURABLE_JOB_TIMEOUT_SECS : Z := 7 * 24 * 60 * 60.
Definition MAX_TELEMETRY_TUNNELS : Z := 512.

(** * Connection *)

Record ServerEndpoint := mkServerEndpoint {
  se_label : str;
  se_tcp_addr : str;
  se_priority : Z;
}.

Inductive AgentNoiseMode := EnrolledIk.

Record AgentNoiseConfig := mkNoise {
  noise_mode : AgentNoiseMode;
  client_private_key_hex : option str;
  server_public_key_hex : option str;
}.

(** ["11".repeat(32)]. *)
Definition repeat_str (s : str) (n : nat) : str := concat (repeat s n).

Definition noise_default : AgentNoiseConfig :=
  mkNoise EnrolledIk (Some (repeat_str (lit "11") 32)) (Some (repeat_str (lit "22") 32)).

Record AgentAuthConfig := mkAuth {
  max_job_timeout_secs : Z;
  gateway_retry_secs : Z;
  gateway_connect_timeout_secs : Z;
}.

Definition auth_default : AgentAuthConfig := mkAuth DEFAULT_MAX_JOB_TIMEOUT_SECS 60 10.

(** * Backup and update *)

Record AgentBackupConfig := mkBackup {
  max_uncompressed_bytes : Z;
  max_archive_bytes : Z;
}.

Definition backup_default : AgentBackupConfig := mkBackup (1024 * 1024) (2 * 1024 * 1024).

Record AgentUpdateConfig := mkUpdate {
  unmanaged_enabled : bool;
  unmanaged_version_url : str;
  unmanaged_interval_secs : Z;
  unmanaged_jitter_secs : Z;
  unmanaged_activate : bool;
  unmanaged_restart_agent : bool;
}.

Definition update_default : AgentUpdateConfig :=
  mkUpdate false (lit "https://github.com/mnihyc/vpsman/releases/latest/download/version.json")
    (24 * 60 * 60) (24 * 60 * 60) true true.

(** * Execution *)

Inductive AgentExecutionEnvironmentPolicy := Inherit | Clean | MinimalPath.
Inductive AgentExecutionPtyPolicy := NativePty | PtyDisabled.
Inductive AgentExecutionProcessCleanupPolicy := ProcessGroup | DirectChild.
Inductive AgentUserSessionsSource := LinuxWWhoPreset | SessionsCustomCommand.
Inductive AgentProcessInventorySource := InventoryLinuxProcfs | InventoryCustomCommand.

Record AgentExecutionConfig := mkExecution {
  shell_script_argv : list str;
  working_directory : option str;
  environment_policy : AgentExecutionEnvironmentPolicy;
  environment_keep : list str;
  environment_set : list (str * str);
  pty_policy : AgentExecutionPtyPolicy;
  process_cleanup : AgentExecutionProcessCleanupPolicy;
  user_sessions_source : AgentUserSessionsSource;
  user_sessions_command : option RuntimeTunnelCommand;
  process_inventory_source : AgentProcessInventorySource;
  process_proc_root : str;
  process_inventory_command : option RuntimeTunnelCommand;
}.

Definition execution_default : AgentExecutionConfig :=
  mkExecution [lit "/bin/sh"; lit "-lc"] None Inherit [] [] NativePty ProcessGroup LinuxWWhoPreset None
    InventoryLinuxProcfs (lit "/proc") None.

(** * Telemetry *)

Inductive AgentTelemetrySource := LinuxProcfs | CustomCommand | LinuxProcfsAndCustomCommand.

Record AgentTelemetryConfig := mkTelemetry {
  telemetry_source : AgentTelemetrySource;
  proc_root : str;
  sys_class_net_dir : str;
  hostname_file : option str;
  os_release_file : option str;
  custom_metrics_command : option RuntimeTunnelCommand;
}.

Definition telemetry_default : AgentTelemetryConfig :=
  mkTelemetry LinuxProcfs (lit "/proc") (lit "/sys/class/net") (Some (lit "/etc/hostname"))
    (Some (lit "/etc/os-release")) None.

(** * Network *)

Inductive AgentRuntimeUnprivilegedMutationPolicy := MutationSkip | TryCustomAdapters | TryAll.
Inductive AgentPingProbeKind := ProbeIcmp | ProbeTcp.

Record AgentPingTarget := mkPingTarget {
  ping_id : str;
  ping_generation : Z;
  ping_name : str;
  ping_host : str;
  ping_kind : AgentPingProbeKind;
  ping_port : option Z;
}.

Record AgentRuntimeStatusTelemetryPlan := mkTelemetryPlan {
  tp_plan_id : option str;
  tp_topology_identity_hash : str;
  tp_runtime_evidence_identity_hash : str;
  tp_endpoint_side : TunnelEndpointSide;
  tp_plan : TunnelPlan;
  tp_builtin_credentials : option TunnelEndpointBuiltinCredentials;
  tp_runtime_adapter : option RuntimeTunnelAdapterCommands;
  tp_latency_monitoring_enabled : bool;
}.

Record AgentNetworkConfig := mkNetwork {
  apply_enabled : bool;
  runtime_reconcile_enabled : bool;
  runtime_unprivileged_mutation_policy : AgentRuntimeUnprivilegedMutationPolicy;
  root_dir : str;
  runtime_ip_argv : list str;
  runtime_tc_argv : list str;
  runtime_wg_argv : list str;
  runtime_openvpn_argv : list str;
  runtime_command_timeout_secs : Z;
  runtime_command_max_output_bytes : Z;
  probe_ping_argv : list str;
  status_probe_timeout_secs : Z;
  status_probe_max_output_bytes : Z;
  runtime_status_telemetry_enabled : bool;
  runtime_status_telemetry_interval_secs : Z;
  latency_monitoring_enabled : bool;
  latency_monitoring_interval_secs : Z;
  latency_down_windows : Z;
  ospf_status_command : option RuntimeTunnelCommand;
  ospf_update_command : option RuntimeTunnelCommand;
  runtime_status_telemetry_plans : list AgentRuntimeStatusTelemetryPlan;
  ping_targets : list AgentPingTarget;
  port_forwarding : AgentPortForwardingConfig;
}.

Definition network_default : AgentNetworkConfig :=
  mkNetwork false false MutationSkip (lit "/") [lit "/sbin/ip"] [lit "/sbin/tc"] [lit "/usr/bin/wg"]
    [lit "/usr/sbin/openvpn"] 10 (16 * 1024) [] 5 (16 * 1024) true 60 true 60 3 None None [] [] config_default.

(** * The whole *)

Record AgentConfig := mkAgentConfig {
  client_id : str;
  tcp_endpoints : list ServerEndpoint;
  ac_noise : AgentNoiseConfig;
  ac_auth : AgentAuthConfig;
  ac_backup : AgentBackupConfig;
  ac_update : AgentUpdateConfig;
  ac_execution : AgentExecutionConfig;
  ac_telemetry : AgentTelemetryConfig;
  ac_network : AgentNetworkConfig;
  ac_telemetry_interval_secs : Z;
}.

Definition agent_config_default : AgentConfig :=
  mkAgentConfig (lit "unregistered") [mkServerEndpoint (lit "local") (lit "127.0.0.1:9443") 10]
    noise_default auth_default backup_default update_default execution_default telemetry_default network_default 15.

Record AgentRuntimeConfig := mkRuntimeConfig {
  rcfg_version : Z;
  rcfg_backup : AgentBackupConfig;
  rcfg_update : AgentUpdateConfig;
  rcfg_execution : AgentExecutionConfig;
  rcfg_telemetry : AgentTelemetryConfig;
  rcfg_network : AgentNetworkConfig;
  rcfg_telemetry_interval_secs : Z;
}.

Definition runtime_config_default : AgentRuntimeConfig :=
  mkRuntimeConfig 0 backup_default update_default execution_default telemetry_default network_default 15.

Definition from_agent_config (version : Z) (config : AgentConfig) : AgentRuntimeConfig :=
  mkRuntimeConfig version (ac_backup config) (ac_update config) (ac_execution config) (ac_telemetry config)
    (ac_network config) (ac_telemetry_interval_secs config).

Definition apply_to_agent_config (r : AgentRuntimeConfig) (config : AgentConfig) : AgentConfig :=
  mkAgentConfig (client_id config) (tcp_endpoints config) (ac_noise config) (ac_auth config)
    (rcfg_backup r) (rcfg_update r) (rcfg_execution r) (rcfg_telemetry r) (rcfg_network r)
    (rcfg_telemetry_interval_secs r).

Definition with_version (version : Z) (r : AgentRuntimeConfig) : AgentRuntimeConfig :=
  mkRuntimeConfig version (rcfg_backup r) (rcfg_update r) (rcfg_execution r) (rcfg_telemetry r) (rcfg_network r)
    (rcfg_telemetry_interval_secs r).

(** [runtime_config_content_hash]; [None] where the JSON printer fails. *)
Definition runtime_config_content_hash (sha256 : list Z -> list Z) (hex_encode : list Z -> str)
    (config_json : AgentRuntimeConfig -> option (list Z)) (config : AgentRuntimeConfig) : option str :=
  payload ← config_json (with_version 0 config);
  Some (payload_hash sha256 hex_encode payload).
