(* ===== verification/ConfigProofs.v ===== *)
(** Properties of configuration validation: what an accepted configuration may
    make the agent run, what a configuration sync keeps, and that the agent's
    checks agree with the planner's. *)

From S2P Require Import Prelude RustStd Net NetProofs F64 PortForwarding TunnelModels NetworkCost PortForwardProofs OpenvpnOverride NetworkPlanner TunnelRender NetworkPlanProofs ConfigModels ConfigValidation.

Open Scope Z_scope.

(** * Commands of a configuration *)

(** A command line the agent may execute: absolute program, at most 32 arguments,
    each non-empty, at most 4096 bytes long and free of NUL. *)
Definition runnable (argv : list str) : Prop :=
  match argv with
  | [] => False
  | program :: _ =>
      starts_with program [47] = true /\ vec_len argv <= 32 /\
      Forall (fun arg => arg <> [] /\ str_len arg <= 4096 /\ 0 ∉ arg) argv
  end.

Definition runnable_or_unset (argv : list str) : Prop := argv = [] \/ runnable argv.

Definition adapter_commands (a : RuntimeTunnelAdapterCommands) : list RuntimeTunnelCommand :=
  ta_status a :: option_list (ta_startup a) ++ option_list (ta_stop a) ++ option_list (ta_cleanup a)
  ++ option_list (ta_restart a) ++ option_list (ta_traffic_limit_apply a).

Definition plan_hooks (plan : TunnelPlan) : list RuntimeTunnelCommand :=
  endpoint_hook_list (hooks_left (rc_hooks (plan_runtime_control plan)))
  ++ endpoint_hook_list (hooks_right (rc_hooks (plan_runtime_control plan))).

Definition forwarding_commands (config : AgentPortForwardingConfig) : list RuntimeTunnelCommand :=
  rules config ≫= fun rule =>
    option_list (adapter rule) ≫= fun a => [adapter_apply a; adapter_remove a; adapter_status a].

(** Every command line a configuration names. *)
Definition config_argvs (config : AgentConfig) : list (list str) :=
  let network := ac_network config in
  [shell_script_argv (ac_execution config)]
  ++ [runtime_ip_argv network; runtime_tc_argv network; runtime_wg_argv network; runtime_openvpn_argv network;
      probe_ping_argv network]
  ++ map cmd_argv
       (option_list (user_sessions_command (ac_execution config))
        ++ option_list (process_inventory_command (ac_execution config))
        ++ option_list (custom_metrics_command (ac_telemetry config))
        ++ option_list (ospf_status_command network) ++ option_list (ospf_update_command network)
        ++ (runtime_status_telemetry_plans network ≫= fun plan =>
              option_list (tp_runtime_adapter plan) ≫= adapter_commands)
        ++ (runtime_status_telemetry_plans network ≫= fun plan => plan_hooks (tp_plan plan))
        ++ forwarding_commands (port_forwarding network)).

(** A NUL byte comes from a NUL character. *)
Lemma nul_char s : 0 ∈ s -> existsb (Z.eqb 0) (as_bytes s) = true.
Proof.
  intros H. apply existsb_exists. exists 0. split; [|done]. apply list_elem_of_In.
  apply list_elem_of_split in H as (l & r & ->). rewrite as_bytes_app. apply elem_of_app. right.
  change (as_bytes (0 :: r)) with (utf8_char 0 ++ as_bytes r). apply elem_of_app. left. by left.
Qed.

Lemma hook_argv_runnable argv field : validate_network_hook_argv argv field = Ok tt -> runnable_or_unset argv.
Proof.
  unfold validate_network_hook_argv. destruct argv as [|program rest]; [by left|]. intros H. right. inv_checks. bools.
  split; [done|]. split; [done|]. apply List.Forall_forall. intros arg Hin.
  apply (try_each_ok _ _ _ H) in Hin. apply reject_if_ok in Hin. bools.
  split; [by intros ->|]. split; [done|]. intros Hz%nul_char. congruence.
Qed.

Lemma command_runnable command f g : validate_command command f g = Ok tt -> runnable_or_unset (cmd_argv command).
Proof. unfold validate_command. intros H. inv_checks. by eapply hook_argv_runnable. Qed.

Lemma if_some_ok {A} (o : option A) f a : if_some o f = Ok tt -> In a (option_list o) -> f a = Ok tt.
Proof. destruct o; cbn; intros H; [by intros [->|[]]|done]. Qed.

Lemma starts_with_slash_nonempty s : starts_with s [47] = true -> s <> [].
Proof. by intros H ->. Qed.

(** The condition the two validators of commands share. *)
Lemma checked_argv_runnable argv :
  is_empty argv = false -> vec_len argv <= 32 ->
  match argv with program :: _ => starts_with program [47] | [] => false end = true ->
  existsb (fun arg => is_empty arg || (4096 <? str_len arg) || contains_char 0 arg) argv = false -> runnable argv.
Proof.
  intros _ Hl Hp Ha. destruct argv as [|program rest]; [done|]. split; [done|]. split; [done|].
  apply List.Forall_forall. intros arg Hin. pose proof (existsb_false _ _ _ Ha Hin) as H. cbn beta in H. bools.
  split; [by intros ->|]. split; [done|]. rewrite <- contains_char_spec. congruence.
Qed.

Lemma hook_runnable command : validate_runtime_tunnel_hook command = Ok tt -> runnable (cmd_argv command).
Proof. unfold validate_runtime_tunnel_hook. intros H%reject_if_ok. bools. by apply checked_argv_runnable. Qed.

Lemma forward_command_runnable command : command_invalid command = false -> runnable (cmd_argv command).
Proof. unfold command_invalid. intros H. bools. by apply checked_argv_runnable. Qed.

(** * What each part of an accepted configuration names *)

Lemma execution_runnable config : validate_execution_config config = Ok tt ->
  runnable (shell_script_argv config) /\
  forall command, In command (option_list (user_sessions_command config) ++ option_list (process_inventory_command config)) ->
    runnable_or_unset (cmd_argv command).
Proof.
  unfold validate_execution_config. destruct (shell_script_argv config) as [|program args] eqn:Es; [done|].
  intros H. inv_checks.
  assert (Hu : forall c, user_sessions_command config = Some c -> runnable_or_unset (cmd_argv c)).
  { intros c Hc. rewrite Hc in *. destruct (user_sessions_source config); by eapply command_runnable. }
  split.
  - match goal with E : validate_network_hook_argv (program :: args) _ = _ |- _ =>
      by apply hook_argv_runnable in E as [E|E] end.
  - intros command [Hc|Hc]%in_app_iff.
    + destruct (user_sessions_command config); [|done]. destruct Hc as [->|[]]. by apply Hu.
    + destruct (process_inventory_command config) as [c|]; [|done]. destruct Hc as [->|[]].
      destruct (process_inventory_source config); unfold reject in *; inv_checks; [done|]. by eapply hook_argv_runnable.
Qed.

Lemma telemetry_runnable config command : validate_telemetry_config config = Ok tt ->
  In command (option_list (custom_metrics_command config)) -> runnable_or_unset (cmd_argv command).
Proof.
  unfold validate_telemetry_config. intros H Hc. destruct (custom_metrics_command config) as [c|]; [|done].
  destruct Hc as [->|[]]. destruct (telemetry_source config); cbn [reads_procfs mbind result_bind] in H; unfold reject in H; inv_checks;
    first [eapply hook_argv_runnable; eassumption | bools; exfalso; eauto].
Qed.

Lemma adapter_runnable uuid_parse adapter command : validate_runtime_adapter_commands uuid_parse adapter = Ok tt ->
  In command (adapter_commands adapter) -> runnable_or_unset (cmd_argv command).
Proof.
  unfold validate_runtime_adapter_commands, validate_runtime_adapter_command. intros H Hc. inv_checks.
  match goal with E : try_each _ _ = Ok _ |- _ => pose proof (try_each_ok _ _ _ E) as Ht end.
  assert (Ho : forall field o, In (field, o) [("startup", ta_startup adapter); ("stop", ta_stop adapter);
    ("cleanup", ta_cleanup adapter); ("restart", ta_restart adapter);
    ("traffic_limit", ta_traffic_limit_apply adapter)]%string -> In command (option_list o) ->
    runnable_or_unset (cmd_argv command)).
  { intros field o Hin Hco. specialize (Ht _ Hin). cbn beta iota in Ht.
    pose proof (if_some_ok _ _ _ Ht Hco) as Hv. by apply command_runnable in Hv. }
  destruct Hc as [<-|Hc]; [by eapply command_runnable|]. rewrite !in_app_iff in Hc.
  destruct Hc as [Hc|[Hc|[Hc|[Hc|Hc]]]]; (eapply Ho; [|exact Hc]); cbn; tauto.
Qed.

Lemma control_hooks_runnable uuid_parses plan command :
  validate_runtime_tunnel_control uuid_parses (plan_runtime_control plan) = Ok tt ->
  In command (plan_hooks plan) -> runnable (cmd_argv command).
Proof.
  unfold validate_runtime_tunnel_control, plan_hooks. intros H Hc.
  destruct (hooks_is_default _) eqn:Ed.
  { unfold hooks_is_default in Ed. bools. by rewrite Ed in Hc. }
  inv_checks. apply hook_runnable.
  match goal with E : try_each validate_runtime_tunnel_hook _ = Ok _ |- _ => by apply (try_each_ok _ _ _ E) end.
Qed.

Lemma forwarding_runnable sha256 hex_encode rules_json config command :
  validate_port_forwarding_config sha256 hex_encode rules_json config = Ok tt ->
  In command (forwarding_commands config) -> runnable (cmd_argv command).
Proof.
  intros (Hr & _)%validate_config_ok Hc. unfold forwarding_commands in Hc. apply list_elem_of_In in Hc.
  apply list_elem_of_bind in Hc as (rule & Hc & Hin). apply list_elem_of_bind in Hc as (a & Hc & Ha).
  rewrite Forall_forall in Hr. specialize (Hr _ Hin). unfold validate_port_forward_rule in Hr.
  destruct (is_empty _); [done|]. destruct (_ <? _); [done|]. inv_checks.
  destruct (adapter rule) as [a'|] eqn:Ea; [|by apply not_elem_of_nil in Ha]. apply list_elem_of_singleton in Ha as ->.
  assert (Hv : validate_adapter a' = Ok tt).
  { unfold validate_mode_fields in E. rewrite Ea in E. cbn [ok_or] in E.
    destruct (mode rule); inv_checks; repeat case_match; try done; bools; naive_solver. }
  clear E Hr. unfold validate_adapter in Hv. destruct (negb (contract_version a' =? _)); [done|].
  destruct (existsb command_invalid _) eqn:Ex; [done|].
  apply forward_command_runnable, (existsb_false _ _ _ Ex). by apply list_elem_of_In.
Qed.

Section Accepted.

Context (uuid_parse : str -> option Z).
Context (hex_decode base64_decode : str -> option (list Z)) (x25519_public : list Z -> list Z).
Context (sha256 : list Z -> list Z) (hex_encode : list Z -> str) (rules_json : list PortForwardRule -> list Z).

Let valid := validate_agent_config_shape uuid_parse hex_decode base64_decode x25519_public sha256 hex_encode rules_json.
Let valid_plan := validate_telemetry_plan uuid_parse base64_decode x25519_public sha256.

Lemma plan_commands_runnable plan command : valid_plan plan = Ok tt ->
  In command ((option_list (tp_runtime_adapter plan) ≫= adapter_commands) ++ plan_hooks (tp_plan plan)) ->
  runnable_or_unset (cmd_argv command).
Proof.
  unfold valid_plan, validate_telemetry_plan. cbv zeta. intros H. inv_checks. intros [Hc|Hc]%in_app_iff.
  - destruct (tp_runtime_adapter plan) as [a|] eqn:Ea; [|done].
    match goal with E : validate_runtime_adapter_snapshot _ plan = Ok _ |- _ =>
      unfold validate_runtime_adapter_snapshot in E; rewrite Ea in E; rename E into Es end.
    assert (Hc' : In command (adapter_commands a)) by (rewrite <- (app_nil_r (adapter_commands a)); exact Hc).
    cbn [ok_or] in Es.
    destruct (rc_manager _); unfold reject in Es; inv_checks; try (bools; exfalso; eauto; fail).
    simplify_eq. by eapply adapter_runnable.
  - right. match goal with E : map_err _ (validate_runtime_tunnel_control _ _) = Ok _ |- _ =>
      destruct (validate_runtime_tunnel_control _ _) as [[]|] eqn:Ec; [|done] end.
    by eapply control_hooks_runnable.
Qed.

(** What the network part names. *)
Record network_ok (network : AgentNetworkConfig) : Prop := {
  net_argvs : Forall runnable_or_unset
    [runtime_ip_argv network; runtime_tc_argv network; runtime_wg_argv network; runtime_openvpn_argv network;
     probe_ping_argv network];
  net_ospf : forall command, In command (option_list (ospf_status_command network) ++ option_list (ospf_update_command network)) ->
    runnable_or_unset (cmd_argv command);
  net_plans : forall plan, In plan (runtime_status_telemetry_plans network) -> valid_plan plan = Ok tt;
  net_forwarding :
    validate_port_forwarding_config sha256 hex_encode rules_json (port_forwarding network) = Ok tt;
}.

Lemma network_config_ok network :
  validate_network_config uuid_parse base64_decode x25519_public sha256 hex_encode rules_json network = Ok tt ->
  network_ok network.
Proof.
  unfold validate_network_config. intros H. inv_checks. split.
  - repeat (apply Forall_cons_2; [eapply hook_argv_runnable; eassumption|]). apply Forall_nil_2.
  - intros command [Hc|Hc]%in_app_iff; eapply command_runnable;
      refine (if_some_ok _ _ _ _ Hc); eassumption.
  - intros plan Hin. match goal with E : validate_runtime_status_telemetry_plans _ _ _ _ _ = Ok _ |- _ =>
      unfold validate_runtime_status_telemetry_plans in E; inv_checks; by apply (try_each_ok _ _ _ E) end.
  - by destruct (validate_port_forwarding_config _ _ _ _) as [[]|].
Qed.

(** Whatever command line an accepted agent configuration names (the shell, the
    network tools, custom collectors, OSPF and adapter commands, tunnel hooks and
    port-forward adapters) is unset or runs an absolute program with at most 32
    non-empty arguments of at most 4096 bytes without NUL; the shell is set. *)
Theorem accepted_commands_runnable config : valid config = Ok tt ->
  Forall runnable_or_unset (config_argvs config) /\ runnable (shell_script_argv (ac_execution config)).
Proof.
  unfold valid, validate_agent_config_shape. intros H. inv_checks.
  match goal with E : validate_execution_config _ = Ok _ |- _ => destruct (execution_runnable _ E) as [Hs Hx] end.
  match goal with E : validate_network_config _ _ _ _ _ _ _ = Ok _ |- _ =>
    destruct (network_config_ok _ E) as [Ha Ho Hp Hf] end.
  split; [|done]. unfold config_argvs. cbv zeta. rewrite !Forall_app. split; [|split; [exact Ha|]].
  { apply Forall_singleton. by right. }
  rewrite List.Forall_forall. intros argv (command & <- & Hc)%in_map_iff. rewrite !in_app_iff in Hc.
  destruct Hc as [Hc|[Hc|[Hc|[Hc|[Hc|[Hc|[Hc|Hc]]]]]]].
  - apply Hx, in_app_iff. by left.
  - apply Hx, in_app_iff. by right.
  - by eapply telemetry_runnable.
  - apply Ho, in_app_iff. by left.
  - apply Ho, in_app_iff. by right.
  - apply list_elem_of_In, list_elem_of_bind in Hc as (plan & Hc & Hin).
    apply (plan_commands_runnable plan); [by apply Hp, list_elem_of_In|]. apply in_app_iff. left. by apply list_elem_of_In.
  - apply list_elem_of_In, list_elem_of_bind in Hc as (plan & Hc & Hin).
    apply (plan_commands_runnable plan); [by apply Hp, list_elem_of_In|]. apply in_app_iff. right. by apply list_elem_of_In.
  - right. by eapply forwarding_runnable.
Qed.

(** * Synchronisation *)

(** Applying the server-managed part of one accepted configuration to another
    accepted configuration gives an accepted configuration that keeps the identity,
    the endpoints, the keys and the limits of the agent, and whose server-managed
    part is exactly what was sent. *)
Theorem sync_keeps_accepted config sent version : valid config = Ok tt -> valid sent = Ok tt ->
  let synced := apply_to_agent_config (from_agent_config version sent) config in
  valid synced = Ok tt /\
  from_agent_config version synced = from_agent_config version sent /\
  (client_id synced, tcp_endpoints synced, ac_noise synced, ac_auth synced)
  = (client_id config, tcp_endpoints config, ac_noise config, ac_auth config) /\
  apply_to_agent_config (from_agent_config version config) synced = config.
Proof.
  unfold valid, validate_agent_config_shape. intros H H'. cbv zeta. inv_checks.
  split; [|split; [done|split; [done|by destruct config]]].
  cbn [apply_to_agent_config from_agent_config client_id tcp_endpoints ac_noise ac_auth ac_backup ac_update ac_execution
       ac_telemetry ac_network ac_telemetry_interval_secs rcfg_backup rcfg_update rcfg_execution rcfg_telemetry
       rcfg_network rcfg_telemetry_interval_secs].
  repeat match goal with E : ?m = Ok _ |- context [?m] => rewrite E; cbn [mbind result_bind] end. done.
Qed.

(** * Agreement with the planner *)

(** What the agent checks of a plan beyond what the planner checked. *)
Definition plan_envelope_ok (plan : AgentRuntimeStatusTelemetryPlan) : Prop :=
  validate_plan_id uuid_parse sha256 plan = Ok tt /\
  is_sha256_text (tp_topology_identity_hash plan) = true /\
  (tp_runtime_evidence_identity_hash plan = [] \/ is_sha256_text (tp_runtime_evidence_identity_hash plan) = true) /\
  validate_runtime_adapter_snapshot uuid_parse plan = Ok tt /\
  validate_builtin_tunnel_credentials base64_decode x25519_public plan = Ok tt /\
  validate_identifier (expected_client plan) (lit "network_runtime_status_telemetry_local_client_id") 128 = Ok tt.

Lemma planned_checks json_f64 input plan :
  plan_tunnel (uuid_parses uuid_parse) json_f64 input = Some (Ok plan) ->
  is_empty (trim (plan_name plan)) || (128 <? str_len (plan_name plan)) || existsb is_control (plan_name plan) = false /\
  validate_runtime_tunnel_control (uuid_parses uuid_parse) (plan_runtime_control plan) = Ok tt /\
  validate_runtime_tunnel_driver_options (plan_kind plan) (plan_runtime_control plan) = Ok tt /\
  validate_runtime_topology_intent (plan_runtime_topology plan) (plan_interface_name plan) = Ok tt.
Proof.
  intros (parts & lc & rc & Hp & ->)%plan_tunnel_inv. cbn [assemble_plan plan_name plan_runtime_control plan_kind
    plan_runtime_topology plan_interface_name].
  unfold plan_parts, validate_plan_identity in Hp. inv_checks. done.
Qed.

(** C18: The agent accepts a tunnel of the planner exactly when what wraps it is
    right: its identity and hashes, the adapter snapshot, the credentials and the
    local client id.  The checks the agent repeats on the plan itself never refuse
    a planned tunnel. *)
Theorem planned_tunnel_accepted json_f64 input plan :
  plan_tunnel (uuid_parses uuid_parse) json_f64 input = Some (Ok (tp_plan plan)) ->
  valid_plan plan = Ok tt <-> plan_envelope_ok plan.
Proof.
  intros (Hn & Hc & Hd & Ht)%planned_checks. unfold valid_plan, validate_telemetry_plan, plan_envelope_ok. cbv zeta.
  rewrite Hc, Hd, Ht. cbn [map_err mbind result_bind]. unfold reject. rewrite Hn. split.
  - intros H. inv_checks. bools. cbn [mbind result_bind reject_if] in H. inv_checks.
    repeat split; try done. destruct (tp_runtime_evidence_identity_hash plan) as [|b bs]; [by left|]. right.
    cbn [is_empty negb andb] in E1. by bools.
  - intros (-> & Hh & He & -> & -> & ->). rewrite Hh. cbn [mbind result_bind negb reject_if].
    destruct He as [->|He]; [done|]. rewrite He. cbn [negb]. by rewrite andb_false_r.
Qed.

End Accepted.

(** * Concrete configurations *)

(** Stand-ins for the decoders: every text of 64 characters is 32 bytes. *)
Definition hex_ex (s : str) : option (list Z) := if str_len s =? 64 then Some (repeat 17 32) else None.
Definition no_uuid (_ : str) : option Z := None.
Definition no_bytes (_ : str) : option (list Z) := None.

Definition config_ex : AgentConfig :=
  let ping := mkCommand [lit "/usr/bin/ospf-cost"; lit "--status"] 10 4096 in
  let n := network_default in
  apply_to_agent_config
    (mkRuntimeConfig 7 backup_default update_default execution_default telemetry_default
       (mkNetwork false false MutationSkip (root_dir n) (runtime_ip_argv n) (runtime_tc_argv n) [] [] 10 4096 [] 5 4096
          true 60 true 60 3 (Some ping) (Some ping) [] [] config_default) 30)
    agent_config_default.

Lemma accepted_commands_runnable_witness :
  Forall runnable_or_unset (config_argvs config_ex) /\ runnable (shell_script_argv (ac_execution config_ex)).
Proof.
  apply (accepted_commands_runnable no_uuid hex_ex no_bytes (fun x => x) (fun _ => []) (fun x => x) (fun _ => []) config_ex).
  vm_compute. reflexivity.
Defined.

Lemma sync_keeps_accepted_witness :
  validate_agent_config_shape no_uuid hex_ex no_bytes (fun x => x) (fun _ => []) (fun x => x) (fun _ => [])
    (apply_to_agent_config (from_agent_config 8 config_ex) agent_config_default) = Ok tt.
Proof.
  refine (proj1 (sync_keeps_accepted no_uuid hex_ex no_bytes (fun x => x) (fun _ => []) (fun x => x) (fun _ => [])
                   agent_config_default config_ex 8 _ _)); vm_compute; reflexivity.
Defined.

Definition telemetry_plan_ex : AgentRuntimeStatusTelemetryPlan :=
  mkTelemetryPlan None (repeat_str (lit "0a") 32) [] SideLeft (sample_plan Gre None) None None true.

Lemma planned_tunnel_accepted_witness :
  validate_telemetry_plan no_uuid no_bytes (fun x => x) (fun _ => []) telemetry_plan_ex = Ok tt.
Proof.
  apply (planned_tunnel_accepted no_uuid no_bytes (fun x => x) (fun _ => []) (fun _ => []) (sample_input Gre None)).
  - vm_compute. reflexivity.
  - split; [vm_compute; reflexivity|]. split; [vm_compute; reflexivity|]. split; [by left|].
    repeat split; vm_compute; reflexivity.
Defined.

(** The default configuration is accepted, also as a bootstrap configuration. *)
Example default_config_accepted :
  validate_agent_bootstrap_config_shape no_uuid hex_ex no_bytes (fun x => x) (fun _ => []) (fun x => x) (fun _ => [])
    agent_config_default = Ok tt.
Proof. vm_compute. reflexivity. Qed.

(** The host of an update URL is taken to end at the first slash only, and to start
    after the last at sign: a query or fragment can name a local host. *)
Example version_url_fragment_counts_as_host :
  validate_update_version_url (lit "http://203.0.113.9#@localhost/version.json") = Ok tt /\
  validate_update_version_url (lit "http://203.0.113.9/version.json")
  = Err (lit "update_unmanaged_version_url_http_must_be_localhost").
Proof. split; vm_compute; reflexivity. Qed.
