(* ===== verification/JobStatus.v ===== *)
(** Statuses of jobs and their targets: crates/common/src/protocol/protocol.rs.

    The status types with their texts and classes, the published tables, and the
    theorem that the tables say what the types do. *)

From S2P Require Import Prelude RustStd.

Open Scope Z_scope.

(** * Texts *)

Definition JOB_STATUS_QUEUED : string := "queued".
Definition JOB_STATUS_RUNNING : string := "running".
Definition JOB_STATUS_COMPLETED : string := "completed".
Definition JOB_STATUS_PARTIAL_SUCCESS : string := "partial_success".
Definition JOB_STATUS_SKIPPED : string := "skipped".
Definition JOB_STATUS_REJECTED : string := "rejected".
Definition JOB_STATUS_FAILED : string := "failed".
Definition JOB_STATUS_AGENT_TIMEOUT : string := "agent_timeout".
Definition JOB_STATUS_CONTROL_TIMEOUT : string := "control_timeout".
Definition JOB_STATUS_CANCELED : string := "canceled".
Definition JOB_STATUS_CLASS_IN_PROGRESS : string := "in_progress".
Definition JOB_STATUS_CLASS_SUCCESSFUL : string := "successful".
Definition JOB_STATUS_CLASS_PARTIAL_SUCCESS : string := "partial_success".
Definition JOB_STATUS_CLASS_SKIPPED : string := "skipped".
Definition JOB_STATUS_CLASS_UNSUCCESSFUL : string := "unsuccessful".
Definition TARGET_STATUS_QUEUED : string := "queued".
Definition TARGET_STATUS_DISPATCHING : string := "dispatching".
Definition TARGET_STATUS_RUNNING : string := "running".
Definition TARGET_STATUS_COMPLETED : string := "completed".
Definition TARGET_STATUS_SKIPPED : string := "skipped".
Definition TARGET_STATUS_REJECTED : string := "rejected".
Definition TARGET_STATUS_FAILED : string := "failed".
Definition TARGET_STATUS_AGENT_LOST : string := "agent_lost".
Definition TARGET_STATUS_AGENT_TIMEOUT : string := "agent_timeout".
Definition TARGET_STATUS_CONTROL_TIMEOUT : string := "control_timeout".
Definition TARGET_STATUS_CANCELED : string := "canceled".
Definition JOB_TARGET_STATUS_CLASS_IN_PROGRESS : string := "in_progress".
Definition JOB_TARGET_STATUS_CLASS_SUCCESSFUL : string := "successful".
Definition JOB_TARGET_STATUS_CLASS_SKIPPED : string := "skipped".
Definition JOB_TARGET_STATUS_CLASS_UNSUCCESSFUL : string := "unsuccessful".
Definition WORKFLOW_STATUS_CLASS_IN_PROGRESS : string := "in_progress".
Definition WORKFLOW_STATUS_CLASS_SUCCESSFUL : string := "successful".
Definition WORKFLOW_STATUS_CLASS_WARNING : string := "warning".
Definition WORKFLOW_STATUS_CLASS_NEUTRAL : string := "neutral".

(** * Status types *)

Inductive JobStatusClass :=
| JobClassInProgress | JobClassSuccessful | JobClassPartialSuccess | JobClassSkipped
| JobClassUnsuccessful.

#[export] Instance job_status_class_eq_dec : EqDecision JobStatusClass.
Proof. solve_decision. Defined.

Definition jobclass_as_str (s : JobStatusClass) : string :=
  match s with
  | JobClassInProgress => JOB_STATUS_CLASS_IN_PROGRESS
  | JobClassSuccessful => JOB_STATUS_CLASS_SUCCESSFUL
  | JobClassPartialSuccess => JOB_STATUS_CLASS_PARTIAL_SUCCESS
  | JobClassSkipped => JOB_STATUS_CLASS_SKIPPED
  | JobClassUnsuccessful => JOB_STATUS_CLASS_UNSUCCESSFUL
  end.

Definition jobclass_parse (text : str) : option JobStatusClass :=
  if str_eqb text (lit JOB_STATUS_CLASS_IN_PROGRESS) then Some JobClassInProgress
  else if str_eqb text (lit JOB_STATUS_CLASS_SUCCESSFUL) then Some JobClassSuccessful
  else if str_eqb text (lit JOB_STATUS_CLASS_PARTIAL_SUCCESS) then Some JobClassPartialSuccess
  else if str_eqb text (lit JOB_STATUS_CLASS_SKIPPED) then Some JobClassSkipped
  else if str_eqb text (lit JOB_STATUS_CLASS_UNSUCCESSFUL) then Some JobClassUnsuccessful
  else None.

Definition jobclass_is_in_progress (c : JobStatusClass) : bool := bool_decide (c = JobClassInProgress).
Definition jobclass_is_terminal (c : JobStatusClass) : bool := negb (jobclass_is_in_progress c).
Definition jobclass_is_successful_outcome (c : JobStatusClass) : bool :=
  match c with JobClassSuccessful | JobClassPartialSuccess => true | _ => false end.
Definition jobclass_is_unsuccessful_outcome (c : JobStatusClass) : bool := bool_decide (c = JobClassUnsuccessful).

Inductive JobTargetStatusClass :=
| TargetClassInProgress | TargetClassSuccessful | TargetClassSkipped | TargetClassUnsuccessful.

#[export] Instance job_target_status_class_eq_dec : EqDecision JobTargetStatusClass.
Proof. solve_decision. Defined.

Definition targetclass_as_str (s : JobTargetStatusClass) : string :=
  match s with
  | TargetClassInProgress => JOB_TARGET_STATUS_CLASS_IN_PROGRESS
  | TargetClassSuccessful => JOB_TARGET_STATUS_CLASS_SUCCESSFUL
  | TargetClassSkipped => JOB_TARGET_STATUS_CLASS_SKIPPED
  | TargetClassUnsuccessful => JOB_TARGET_STATUS_CLASS_UNSUCCESSFUL
  end.

Definition targetclass_parse (text : str) : option JobTargetStatusClass :=
  if str_eqb text (lit JOB_TARGET_STATUS_CLASS_IN_PROGRESS) then Some TargetClassInProgress
  else if str_eqb text (lit JOB_TARGET_STATUS_CLASS_SUCCESSFUL) then Some TargetClassSuccessful
  else if str_eqb text (lit JOB_TARGET_STATUS_CLASS_SKIPPED) then Some TargetClassSkipped
  else if str_eqb text (lit JOB_TARGET_STATUS_CLASS_UNSUCCESSFUL) then Some TargetClassUnsuccessful
  else None.

Definition targetclass_is_in_progress (c : JobTargetStatusClass) : bool := bool_decide (c = TargetClassInProgress).
Definition targetclass_is_terminal (c : JobTargetStatusClass) : bool := negb (targetclass_is_in_progress c).
Definition targetclass_is_successful_outcome (c : JobTargetStatusClass) : bool := bool_decide (c = TargetClassSuccessful).
Definition targetclass_is_unsuccessful_outcome (c : JobTargetStatusClass) : bool :=
  bool_decide (c = TargetClassUnsuccessful).

Inductive JobStatus :=
| JobQueued | JobRunning | JobCompleted | JobPartialSuccess | JobSkipped | JobRejected | JobFailed
| JobAgentTimeout | JobControlTimeout | JobCanceled.

#[export] Instance job_status_eq_dec : EqDecision JobStatus.
Proof. solve_decision. Defined.

Definition job_as_str (s : JobStatus) : string :=
  match s with
  | JobQueued => JOB_STATUS_QUEUED
  | JobRunning => JOB_STATUS_RUNNING
  | JobCompleted => JOB_STATUS_COMPLETED
  | JobPartialSuccess => JOB_STATUS_PARTIAL_SUCCESS
  | JobSkipped => JOB_STATUS_SKIPPED
  | JobRejected => JOB_STATUS_REJECTED
  | JobFailed => JOB_STATUS_FAILED
  | JobAgentTimeout => JOB_STATUS_AGENT_TIMEOUT
  | JobControlTimeout => JOB_STATUS_CONTROL_TIMEOUT
  | JobCanceled => JOB_STATUS_CANCELED
  end.

Definition job_parse (text : str) : option JobStatus :=
  if str_eqb text (lit JOB_STATUS_QUEUED) then Some JobQueued
  else if str_eqb text (lit JOB_STATUS_RUNNING) then Some JobRunning
  else if str_eqb text (lit JOB_STATUS_COMPLETED) then Some JobCompleted
  else if str_eqb text (lit JOB_STATUS_PARTIAL_SUCCESS) then Some JobPartialSuccess
  else if str_eqb text (lit JOB_STATUS_SKIPPED) then Some JobSkipped
  else if str_eqb text (lit JOB_STATUS_REJECTED) then Some JobRejected
  else if str_eqb text (lit JOB_STATUS_FAILED) then Some JobFailed
  else if str_eqb text (lit JOB_STATUS_AGENT_TIMEOUT) then Some JobAgentTimeout
  else if str_eqb text (lit JOB_STATUS_CONTROL_TIMEOUT) then Some JobControlTimeout
  else if str_eqb text (lit JOB_STATUS_CANCELED) then Some JobCanceled
  else None.

Definition job_class (s : JobStatus) : JobStatusClass :=
  match s with
  | JobQueued | JobRunning => JobClassInProgress
  | JobCompleted => JobClassSuccessful
  | JobPartialSuccess => JobClassPartialSuccess
  | JobSkipped => JobClassSkipped
  | JobRejected | JobFailed | JobAgentTimeout | JobControlTimeout | JobCanceled => JobClassUnsuccessful
  end.

Definition job_is_in_progress (s : JobStatus) : bool := jobclass_is_in_progress (job_class s).
Definition job_is_terminal (s : JobStatus) : bool := jobclass_is_terminal (job_class s).
Definition job_is_success (s : JobStatus) : bool := jobclass_is_successful_outcome (job_class s).
Definition job_is_unsuccessful_terminal (s : JobStatus) : bool := jobclass_is_unsuccessful_outcome (job_class s).

Inductive JobTargetStatus :=
| TargetQueued | TargetDispatching | TargetRunning | TargetCompleted | TargetSkipped | TargetRejected
| TargetFailed | TargetAgentLost | TargetAgentTimeout | TargetControlTimeout | TargetCanceled.

#[export] Instance job_target_status_eq_dec : EqDecision JobTargetStatus.
Proof. solve_decision. Defined.

Definition target_as_str (s : JobTargetStatus) : string :=
  match s with
  | TargetQueued => TARGET_STATUS_QUEUED
  | TargetDispatching => TARGET_STATUS_DISPATCHING
  | TargetRunning => TARGET_STATUS_RUNNING
  | TargetCompleted => TARGET_STATUS_COMPLETED
  | TargetSkipped => TARGET_STATUS_SKIPPED
  | TargetRejected => TARGET_STATUS_REJECTED
  | TargetFailed => TARGET_STATUS_FAILED
  | TargetAgentLost => TARGET_STATUS_AGENT_LOST
  | TargetAgentTimeout => TARGET_STATUS_AGENT_TIMEOUT
  | TargetControlTimeout => TARGET_STATUS_CONTROL_TIMEOUT
  | TargetCanceled => TARGET_STATUS_CANCELED
  end.

Definition target_parse (text : str) : option JobTargetStatus :=
  if str_eqb text (lit TARGET_STATUS_QUEUED) then Some TargetQueued
  else if str_eqb text (lit TARGET_STATUS_DISPATCHING) then Some TargetDispatching
  else if str_eqb text (lit TARGET_STATUS_RUNNING) then Some TargetRunning
  else if str_eqb text (lit TARGET_STATUS_COMPLETED) then Some TargetCompleted
  else if str_eqb text (lit TARGET_STATUS_SKIPPED) then Some TargetSkipped
  else if str_eqb text (lit TARGET_STATUS_REJECTED) then Some TargetRejected
  else if str_eqb text (lit TARGET_STATUS_FAILED) then Some TargetFailed
  else if str_eqb text (lit TARGET_STATUS_AGENT_LOST) then Some TargetAgentLost
  else if str_eqb text (lit TARGET_STATUS_AGENT_TIMEOUT) then Some TargetAgentTimeout
  else if str_eqb text (lit TARGET_STATUS_CONTROL_TIMEOUT) then Some TargetControlTimeout
  else if str_eqb text (lit TARGET_STATUS_CANCELED) then Some TargetCanceled
  else None.

Definition target_class (s : JobTargetStatus) : JobTargetStatusClass :=
  match s with
  | TargetQueued | TargetDispatching | TargetRunning => TargetClassInProgress
  | TargetCompleted => TargetClassSuccessful
  | TargetSkipped => TargetClassSkipped
  | TargetRejected | TargetFailed | TargetAgentLost | TargetAgentTimeout | TargetControlTimeout | TargetCanceled => TargetClassUnsuccessful
  end.

Definition target_is_active (s : JobTargetStatus) : bool := targetclass_is_in_progress (target_class s).
Definition target_is_terminal (s : JobTargetStatus) : bool := targetclass_is_terminal (target_class s).
Definition target_is_success (s : JobTargetStatus) : bool := targetclass_is_successful_outcome (target_class s).
Definition target_is_unsuccessful_terminal (s : JobTargetStatus) : bool :=
  targetclass_is_unsuccessful_outcome (target_class s).

(** * Tables *)

Definition JOB_STATUSES : list string :=
  [JOB_STATUS_QUEUED; JOB_STATUS_RUNNING; JOB_STATUS_COMPLETED; JOB_STATUS_PARTIAL_SUCCESS;
   JOB_STATUS_SKIPPED; JOB_STATUS_REJECTED; JOB_STATUS_FAILED; JOB_STATUS_AGENT_TIMEOUT;
   JOB_STATUS_CONTROL_TIMEOUT; JOB_STATUS_CANCELED].

Definition JOB_TERMINAL_STATUSES : list string :=
  [JOB_STATUS_COMPLETED; JOB_STATUS_PARTIAL_SUCCESS; JOB_STATUS_SKIPPED; JOB_STATUS_REJECTED;
   JOB_STATUS_FAILED; JOB_STATUS_AGENT_TIMEOUT; JOB_STATUS_CONTROL_TIMEOUT; JOB_STATUS_CANCELED].

Definition JOB_STATUS_CLASSES : list string :=
  [JOB_STATUS_CLASS_IN_PROGRESS; JOB_STATUS_CLASS_SUCCESSFUL; JOB_STATUS_CLASS_PARTIAL_SUCCESS;
   JOB_STATUS_CLASS_SKIPPED; JOB_STATUS_CLASS_UNSUCCESSFUL].

Definition JOB_TARGET_STATUSES : list string :=
  [TARGET_STATUS_QUEUED; TARGET_STATUS_DISPATCHING; TARGET_STATUS_RUNNING; TARGET_STATUS_COMPLETED;
   TARGET_STATUS_SKIPPED; TARGET_STATUS_REJECTED; TARGET_STATUS_FAILED; TARGET_STATUS_AGENT_LOST;
   TARGET_STATUS_AGENT_TIMEOUT; TARGET_STATUS_CONTROL_TIMEOUT; TARGET_STATUS_CANCELED].

Definition JOB_TARGET_TERMINAL_STATUSES : list string :=
  [TARGET_STATUS_COMPLETED; TARGET_STATUS_SKIPPED; TARGET_STATUS_REJECTED; TARGET_STATUS_FAILED;
   TARGET_STATUS_AGENT_LOST; TARGET_STATUS_AGENT_TIMEOUT; TARGET_STATUS_CONTROL_TIMEOUT;
   TARGET_STATUS_CANCELED].

Definition JOB_TARGET_STATUS_CLASSES : list string :=
  [JOB_TARGET_STATUS_CLASS_IN_PROGRESS; JOB_TARGET_STATUS_CLASS_SUCCESSFUL; JOB_TARGET_STATUS_CLASS_SKIPPED;
   JOB_TARGET_STATUS_CLASS_UNSUCCESSFUL].

Definition WORKFLOW_STATUS_CLASSES : list string :=
  [WORKFLOW_STATUS_CLASS_IN_PROGRESS; WORKFLOW_STATUS_CLASS_SUCCESSFUL; WORKFLOW_STATUS_CLASS_WARNING;
   WORKFLOW_STATUS_CLASS_NEUTRAL].

Definition JOB_STATUS_CLASS_BY_STATUS : list (string * string) :=
  [(JOB_STATUS_QUEUED, JOB_STATUS_CLASS_IN_PROGRESS); (JOB_STATUS_RUNNING, JOB_STATUS_CLASS_IN_PROGRESS);
   (JOB_STATUS_COMPLETED, JOB_STATUS_CLASS_SUCCESSFUL);
   (JOB_STATUS_PARTIAL_SUCCESS, JOB_STATUS_CLASS_PARTIAL_SUCCESS);
   (JOB_STATUS_SKIPPED, JOB_STATUS_CLASS_SKIPPED); (JOB_STATUS_REJECTED, JOB_STATUS_CLASS_UNSUCCESSFUL);
   (JOB_STATUS_FAILED, JOB_STATUS_CLASS_UNSUCCESSFUL);
   (JOB_STATUS_AGENT_TIMEOUT, JOB_STATUS_CLASS_UNSUCCESSFUL);
   (JOB_STATUS_CONTROL_TIMEOUT, JOB_STATUS_CLASS_UNSUCCESSFUL);
   (JOB_STATUS_CANCELED, JOB_STATUS_CLASS_UNSUCCESSFUL)]%string.

Definition JOB_TARGET_STATUS_CLASS_BY_STATUS : list (string * string) :=
  [(TARGET_STATUS_QUEUED, JOB_TARGET_STATUS_CLASS_IN_PROGRESS);
   (TARGET_STATUS_DISPATCHING, JOB_TARGET_STATUS_CLASS_IN_PROGRESS);
   (TARGET_STATUS_RUNNING, JOB_TARGET_STATUS_CLASS_IN_PROGRESS);
   (TARGET_STATUS_COMPLETED, JOB_TARGET_STATUS_CLASS_SUCCESSFUL);
   (TARGET_STATUS_SKIPPED, JOB_TARGET_STATUS_CLASS_SKIPPED);
   (TARGET_STATUS_REJECTED, JOB_TARGET_STATUS_CLASS_UNSUCCESSFUL);
   (TARGET_STATUS_FAILED, JOB_TARGET_STATUS_CLASS_UNSUCCESSFUL);
   (TARGET_STATUS_AGENT_LOST, JOB_TARGET_STATUS_CLASS_UNSUCCESSFUL);
   (TARGET_STATUS_AGENT_TIMEOUT, JOB_TARGET_STATUS_CLASS_UNSUCCESSFUL);
   (TARGET_STATUS_CONTROL_TIMEOUT, JOB_TARGET_STATUS_CLASS_UNSUCCESSFUL);
   (TARGET_STATUS_CANCELED, JOB_TARGET_STATUS_CLASS_UNSUCCESSFUL)]%string.

Definition TERMINAL_SESSION_STATE_CLASS_BY_STATE : list (string * string) :=
  [("opening", WORKFLOW_STATUS_CLASS_IN_PROGRESS); ("open", WORKFLOW_STATUS_CLASS_IN_PROGRESS);
   ("closed", WORKFLOW_STATUS_CLASS_SUCCESSFUL); ("missing", WORKFLOW_STATUS_CLASS_WARNING);
   ("rejected", WORKFLOW_STATUS_CLASS_WARNING); ("failed", WORKFLOW_STATUS_CLASS_WARNING);
   ("exited", WORKFLOW_STATUS_CLASS_SUCCESSFUL)]%string.

Definition TERMINAL_SESSION_STATUS_CLASS_BY_STATUS : list (string * string) :=
  [("opening", WORKFLOW_STATUS_CLASS_IN_PROGRESS); ("opened", WORKFLOW_STATUS_CLASS_IN_PROGRESS);
   ("attached", WORKFLOW_STATUS_CLASS_IN_PROGRESS); ("rejected", WORKFLOW_STATUS_CLASS_WARNING);
   ("failed", WORKFLOW_STATUS_CLASS_WARNING); ("accepted", WORKFLOW_STATUS_CLASS_SUCCESSFUL);
   ("resized", WORKFLOW_STATUS_CLASS_SUCCESSFUL); ("closed", WORKFLOW_STATUS_CLASS_SUCCESSFUL);
   ("missing", WORKFLOW_STATUS_CLASS_WARNING); ("streaming", WORKFLOW_STATUS_CLASS_IN_PROGRESS);
   ("exited", WORKFLOW_STATUS_CLASS_SUCCESSFUL); ("idle_timeout", WORKFLOW_STATUS_CLASS_WARNING);
   ("disconnected_timeout", WORKFLOW_STATUS_CLASS_WARNING);
   ("lifecycle_disconnected", WORKFLOW_STATUS_CLASS_WARNING)]%string.

Definition FILE_TRANSFER_SESSION_STATUS_CLASS_BY_STATUS : list (string * string) :=
  [("started", WORKFLOW_STATUS_CLASS_IN_PROGRESS); ("transferring", WORKFLOW_STATUS_CLASS_IN_PROGRESS);
   ("completed", WORKFLOW_STATUS_CLASS_SUCCESSFUL); ("aborted", WORKFLOW_STATUS_CLASS_WARNING);
   ("unknown", WORKFLOW_STATUS_CLASS_NEUTRAL)]%string.

Definition BACKUP_REQUEST_STATUS_CLASS_BY_STATUS : list (string * string) :=
  [("requested_metadata_only", WORKFLOW_STATUS_CLASS_IN_PROGRESS);
   ("artifact_metadata_recorded", WORKFLOW_STATUS_CLASS_SUCCESSFUL);
   ("execution_failed", WORKFLOW_STATUS_CLASS_WARNING); ("execution_canceled", WORKFLOW_STATUS_CLASS_WARNING)]%string.

Definition RESTORE_PLAN_STATUS_CLASS_BY_STATUS : list (string * string) :=
  [("planned_metadata_only", WORKFLOW_STATUS_CLASS_NEUTRAL)]%string.

Definition MIGRATION_LINK_STATUS_CLASS_BY_STATUS : list (string * string) :=
  [("linked_metadata_only", WORKFLOW_STATUS_CLASS_SUCCESSFUL)]%string.

Definition AGENT_UPDATE_RELEASE_STATUS_CLASS_BY_STATUS : list (string * string) :=
  [("published_external", WORKFLOW_STATUS_CLASS_SUCCESSFUL)]%string.

Definition SERVER_JOB_STATUS_CLASS_BY_STATUS : list (string * string) :=
  [("queued", WORKFLOW_STATUS_CLASS_IN_PROGRESS); ("running", WORKFLOW_STATUS_CLASS_IN_PROGRESS);
   ("completed", WORKFLOW_STATUS_CLASS_SUCCESSFUL); ("failed", WORKFLOW_STATUS_CLASS_WARNING);
   ("canceled", WORKFLOW_STATUS_CLASS_WARNING)]%string.

Definition FLEET_ALERT_NOTIFICATION_DELIVERY_STATUS_CLASS_BY_STATUS : list (string * string) :=
  [("queued", WORKFLOW_STATUS_CLASS_IN_PROGRESS); ("in_progress", WORKFLOW_STATUS_CLASS_IN_PROGRESS);
   ("failed", WORKFLOW_STATUS_CLASS_WARNING); ("permanently_failed", WORKFLOW_STATUS_CLASS_WARNING);
   ("canceled_disabled", WORKFLOW_STATUS_CLASS_NEUTRAL); ("delivered", WORKFLOW_STATUS_CLASS_SUCCESSFUL);
   ("matched_dry_run", WORKFLOW_STATUS_CLASS_NEUTRAL)]%string.

Definition FLEET_ALERT_NOTIFICATION_DELIVERY_PROCESS_STATUS_CLASS_BY_STATUS : list (string * string) :=
  [("queued", WORKFLOW_STATUS_CLASS_IN_PROGRESS); ("failed", WORKFLOW_STATUS_CLASS_WARNING)]%string.

Definition WEBHOOK_RULE_DELIVERY_STATUS_CLASS_BY_STATUS : list (string * string) :=
  [("queued", WORKFLOW_STATUS_CLASS_IN_PROGRESS); ("in_progress", WORKFLOW_STATUS_CLASS_IN_PROGRESS);
   ("failed", WORKFLOW_STATUS_CLASS_WARNING); ("permanently_failed", WORKFLOW_STATUS_CLASS_WARNING);
   ("canceled_disabled", WORKFLOW_STATUS_CLASS_NEUTRAL); ("delivered", WORKFLOW_STATUS_CLASS_SUCCESSFUL);
   ("matched_dry_run", WORKFLOW_STATUS_CLASS_NEUTRAL)]%string.

Definition WEBHOOK_RULE_DELIVERY_HISTORY_STATUS_CLASS_BY_STATUS : list (string * string) :=
  [("queued", WORKFLOW_STATUS_CLASS_IN_PROGRESS); ("in_progress", WORKFLOW_STATUS_CLASS_IN_PROGRESS);
   ("failed", WORKFLOW_STATUS_CLASS_WARNING); ("permanently_failed", WORKFLOW_STATUS_CLASS_WARNING);
   ("canceled_disabled", WORKFLOW_STATUS_CLASS_NEUTRAL); ("delivered", WORKFLOW_STATUS_CLASS_SUCCESSFUL)]%string.

Definition WEBHOOK_RULE_DELIVERY_PROCESS_STATUS_CLASS_BY_STATUS : list (string * string) :=
  [("queued", WORKFLOW_STATUS_CLASS_IN_PROGRESS); ("failed", WORKFLOW_STATUS_CLASS_WARNING)]%string.

Definition TOPOLOGY_NODE_STATUS_CLASS_BY_STATUS : list (string * string) :=
  [("online", WORKFLOW_STATUS_CLASS_SUCCESSFUL); ("disconnected", WORKFLOW_STATUS_CLASS_WARNING);
   ("offline", WORKFLOW_STATUS_CLASS_WARNING); ("never", WORKFLOW_STATUS_CLASS_NEUTRAL);
   ("stale", WORKFLOW_STATUS_CLASS_WARNING); ("revoked", WORKFLOW_STATUS_CLASS_WARNING);
   ("unknown", WORKFLOW_STATUS_CLASS_NEUTRAL)]%string.

Definition TOPOLOGY_EDGE_HEALTH_STATUS_CLASS_BY_STATUS : list (string * string) :=
  [("disabled", WORKFLOW_STATUS_CLASS_NEUTRAL); ("unknown", WORKFLOW_STATUS_CLASS_NEUTRAL);
   ("healthy", WORKFLOW_STATUS_CLASS_SUCCESSFUL); ("degraded", WORKFLOW_STATUS_CLASS_WARNING)]%string.

Definition TOPOLOGY_NEIGHBOR_STATE_CLASS_BY_STATE : list (string * string) :=
  [("unknown", WORKFLOW_STATUS_CLASS_NEUTRAL); ("healthy", WORKFLOW_STATUS_CLASS_SUCCESSFUL);
   ("kernel_probe_success", WORKFLOW_STATUS_CLASS_SUCCESSFUL);
   ("kernel_probe_failed", WORKFLOW_STATUS_CLASS_WARNING); ("not_probed", WORKFLOW_STATUS_CLASS_NEUTRAL)]%string.

Definition TOPOLOGY_PROBE_STATE_CLASS_BY_STATE : list (string * string) :=
  [("unknown", WORKFLOW_STATUS_CLASS_NEUTRAL); ("success", WORKFLOW_STATUS_CLASS_SUCCESSFUL);
   ("failed", WORKFLOW_STATUS_CLASS_WARNING); ("skipped", WORKFLOW_STATUS_CLASS_NEUTRAL)]%string.

Definition TOPOLOGY_RUNTIME_STATE_CLASS_BY_STATE : list (string * string) :=
  [("unknown", WORKFLOW_STATUS_CLASS_NEUTRAL); ("adapter_unhealthy", WORKFLOW_STATUS_CLASS_WARNING);
   ("routing_unhealthy", WORKFLOW_STATUS_CLASS_WARNING); ("drift", WORKFLOW_STATUS_CLASS_WARNING);
   ("unhealthy", WORKFLOW_STATUS_CLASS_WARNING); ("degraded", WORKFLOW_STATUS_CLASS_WARNING);
   ("observed", WORKFLOW_STATUS_CLASS_NEUTRAL); ("healthy", WORKFLOW_STATUS_CLASS_SUCCESSFUL);
   ("not_applicable", WORKFLOW_STATUS_CLASS_NEUTRAL); ("not_configured", WORKFLOW_STATUS_CLASS_NEUTRAL);
   ("skipped", WORKFLOW_STATUS_CLASS_NEUTRAL)]%string.

Definition TOPOLOGY_OBSERVATION_STATE_CLASS_BY_STATE : list (string * string) :=
  [("unknown", WORKFLOW_STATUS_CLASS_NEUTRAL); ("healthy", WORKFLOW_STATUS_CLASS_SUCCESSFUL);
   ("degraded", WORKFLOW_STATUS_CLASS_WARNING); ("recorded", WORKFLOW_STATUS_CLASS_SUCCESSFUL)]%string.
