(* ===== verification/JobCommands.v ===== *)
(** Commands of the control protocol: crates/common/src/protocol/protocol.rs.

    The commands an operator can send to an agent, the protocol version each needs,
    and the tables by which the server labels, guards and groups them.  A [Uuid] is
    its 128-bit value and a [BTreeMap] the list of its entries in key order; the
    serde attributes concern the text form only. *)

From S2P Require Import Prelude RustStd FileTransfer PortForwarding TunnelModels ConfigModels.

Open Scope Z_scope.

(** * Protocol versions *)

Definition CURRENT_COMMAND_PROTOCOL_VERSION : Z := 12.
Definition PORT_FORWARD_POOLS_PROTOCOL_VERSION : Z := 12.
Definition MIN_COMMAND_PROTOCOL_VERSION : Z := 1.
Definition SHELL_COMMAND_PROTOCOL_VERSION : Z := 1.
Definition SHELL_SCRIPT_COMMAND_PROTOCOL_VERSION : Z := 1.
Definition TERMINAL_COMMAND_PROTOCOL_VERSION : Z := 1.
Definition FILE_COMMAND_PROTOCOL_VERSION : Z := 1.
Definition CONFIG_COMMAND_PROTOCOL_VERSION : Z := 3.
Definition TUNNEL_ADDRESS_MANAGEMENT_PROTOCOL_VERSION : Z := 6.
Definition FOU_TUNNEL_KIND_PROTOCOL_VERSION : Z := 7.
Definition GRE6_TUNNEL_PROTOCOL_VERSION : Z := 11.
Definition INDEPENDENT_LINK_LOCAL_PROTOCOL_VERSION : Z := 8.
Definition OSPF_DIRECTIONAL_COST_PROTOCOL_VERSION : Z := 9.
Definition AGENT_UPDATE_COMMAND_PROTOCOL_VERSION : Z := 1.
Definition AGENT_LIFECYCLE_COMMAND_PROTOCOL_VERSION : Z := 5.
Definition USER_SESSIONS_COMMAND_PROTOCOL_VERSION : Z := 1.
Definition PROCESS_COMMAND_PROTOCOL_VERSION : Z := 1.
Definition HOST_SERVICE_COMMAND_PROTOCOL_VERSION : Z := 2.
Definition HOST_PACKAGE_COMMAND_PROTOCOL_VERSION : Z := 2.
Definition HOST_STORAGE_COMMAND_PROTOCOL_VERSION : Z := 2.
Definition BACKUP_COMMAND_PROTOCOL_VERSION : Z := 3.
Definition RESTORE_COMMAND_PROTOCOL_VERSION : Z := 2.
Definition NETWORK_COMMAND_PROTOCOL_VERSION : Z := 2.
Definition NETWORK_ROUTING_COMMAND_PROTOCOL_VERSION : Z := 3.
Definition NETWORK_TRAFFIC_IMPORT_COMMAND_PROTOCOL_VERSION : Z := 10.

(** * Payload types *)

Inductive TerminalUserPolicy := UserFail | UserFallback.
Inductive FileActionPolicy := ActionFail | ActionEnsure | ActionIgnore.
Inductive FileExistingPolicy := ExistingSkip | ExistingReplace.
Inductive FileOwnershipPolicy := OwnershipFail | OwnershipIgnore.
Inductive BackupMissingPathPolicy := MissingFail | MissingSkip.
Inductive ProcessRestartPolicy := RestartNever | RestartOnFailure | RestartAlways.
Inductive HostServiceProvider := Systemd | Openrc | Sysv.
Inductive HostServiceAction := ServiceStart | ServiceStop | ServiceRestart | ServiceEnable | ServiceDisable.
Inductive HostPackageProvider := Apt | Dnf | Yum | Pacman.

Record ProcessRunPolicy := mkRunPolicy {
  restart : ProcessRestartPolicy;
  restart_max_retries : Z;
  restart_backoff_secs : Z;
  graceful_stop_secs : Z;
}.

Record ProcessResourceLimits := mkLimits {
  memory_max_bytes : option Z;
  pids_max : option Z;
  open_files_max : option Z;
  cpu_shares : option Z;
  no_new_privileges : bool;
}.

Record RestoreRollbackFile := mkRollbackFile {
  rf_archive_path : str;
  rf_destination_path : str;
  rf_rollback_path : option str;
  rf_restored_size_bytes : Z;
  rf_restored_sha256_hex : str;
}.

Inductive JobCommand :=
| Shell (argv : list str) (pty : bool)
| ShellScript (script : str)
| TerminalOpen
    (session_id : Z) (argv : list str) (cwd user : option str) (user_policy : TerminalUserPolicy)
    (cols rows : Z) (replay_from_seq : option Z) (idle_timeout_secs flow_window_bytes : Z)
| ConfigRead
| RuntimeConfigSync (desired_version : Z) (reason : str) (config : AgentRuntimeConfig)
| UpdateAgent (artifact_url sha256_hex : str)
| AgentUpdateActivate (staged_sha256_hex : str) (restart_agent : bool)
| AgentUpdateRollback (rollback_sha256_hex : option str)
| AgentUpdateCheck (version_url : option str) (activate restart_agent : bool)
| AgentStop
| AgentRestart
| FilePull (path : str) (follow_symlinks : bool)
| FilePush
    (path : str) (mode size_bytes : Z) (sha256_hex data_base64 : str) (existing_policy : FileExistingPolicy)
    (owner group : option str) (uid gid : option Z) (ownership_policy : FileOwnershipPolicy)
| FilePushChunked
    (path : str) (mode size_bytes : Z) (sha256_hex : str) (chunks : list FilePushChunk)
    (existing_policy : FileExistingPolicy) (owner group : option str) (uid gid : option Z)
    (ownership_policy : FileOwnershipPolicy)
| FileTransferStart
    (session_id : Z) (path : str) (mode size_bytes : Z) (sha256_hex : str)
    (chunk_size_bytes rate_limit_kbps : Z) (existing_policy : FileExistingPolicy) (resume_token_hash : str)
| FileTransferChunk (session_id offset : Z) (chunk : FilePushChunk) (resume_token_hash : str)
| FileTransferCommit (session_id : Z) (resume_token_hash : str)
| FileTransferAbort (session_id : Z) (resume_token_hash : str)
| FileTransferDownloadStart
    (session_id : Z) (path : str) (chunk_size_bytes rate_limit_kbps : Z) (follow_symlinks : bool)
    (resume_token_hash : str)
| FileTransferDownloadChunk (session_id offset max_bytes : Z) (resume_token_hash : str)
| FileStat (path : str)
| FileListDir (path : str) (offset limit : Z) (show_hidden : bool)
| FileReadText (path : str) (max_bytes : Z) (follow_symlinks : bool)
| FileWriteText
    (path : str) (mode size_bytes : Z) (sha256_hex content_base64 : str) (expected_sha256_hex : option str)
    (create : bool) (policy : FileActionPolicy)
| FileMkdir (path : str) (mode : Z) (recursive : bool) (policy : FileActionPolicy)
| FileRename (path new_path : str) (overwrite : bool) (policy : FileActionPolicy)
| FileDelete (path : str) (recursive : bool) (policy : FileActionPolicy)
| FileChmod (path : str) (mode : Z) (recursive follow_symlinks : bool) (policy : FileActionPolicy)
| FileChown
    (path : str) (owner group : option str) (uid gid : option Z) (recursive : bool)
    (ownership_policy : FileOwnershipPolicy) (policy : FileActionPolicy)
| FileCopy (path new_path : str) (overwrite recursive follow_symlinks : bool) (policy : FileActionPolicy)
| FileDownload (path : str) (max_bytes : Z) (follow_symlinks : bool)
| FileArchiveTar (path : str) (max_bytes : Z) (follow_symlinks : bool)
| UserSessions
| ProcessList (limit : Z)
| StorageInventory (include_pseudo_mounts : bool) (limit : Z)
| ProcessStart
    (name : str) (argv : list str) (cwd : option str) (env : list (str * str)) (policy : ProcessRunPolicy)
    (limits : ProcessResourceLimits)
| ProcessStop (name : str)
| ProcessRestart (name : str)
| ProcessStatus (name : option str)
| ProcessLogs (name : str) (max_bytes : Z)
| ServiceInventory (expected_provider : option HostServiceProvider) (limit : Z)
| ServiceAction
    (provider : HostServiceProvider) (service : str) (action : HostServiceAction)
    (expected_active_state expected_enabled_state : str)
| ServiceLogs (provider : HostServiceProvider) (service : str) (max_lines : Z)
| PackageUpdatePlan (expected_provider : option HostPackageProvider) (refresh_metadata : bool)
| PackageUpdateApply (provider : HostPackageProvider) (plan_hash : str)
| Backup
    (paths : list str) (include_config follow_symlinks : bool)
    (missing_path_policy : BackupMissingPathPolicy)
| Restore
    (source_backup_request_id archive_transfer_session_id : Z) (paths : list str) (include_config : bool)
    (destination_root archive_path : option str) (archive_size_bytes : option Z)
    (archive_sha256_hex : option str) (dry_run : bool) (post_restore_argv : list str)
| RestoreRollback (source_restore_job_id : Z) (restored_files : list RestoreRollbackFile)
| NetworkStatus
    (plan_id : str) (plan : TunnelPlan) (side : TunnelEndpointSide)
    (runtime_adapter : option RuntimeTunnelAdapterCommands)
| NetworkInterfaces
| NetworkTrafficImportVnstat (interfaces : list str) (start_unix : Z)
| NetworkProbe (plan_id : str) (plan : TunnelPlan) (side : TunnelEndpointSide) (count interval_ms : Z)
| NetworkSpeedTest
    (plan_id : str) (plan : TunnelPlan) (server_side : TunnelEndpointSide)
    (duration_secs max_bytes rate_limit_kbps port connect_timeout_ms : Z)
| NetworkRoutingStatus
    (plan_id : str) (plan : TunnelPlan) (side : TunnelEndpointSide) (adapter : RoutingCostAdapterCommands)
| NetworkRoutingApply
    (plan_id : str) (plan : TunnelPlan) (side : TunnelEndpointSide) (adapter : RoutingCostAdapterCommands)
    (expected_current_cost : option Z) (desired_cost : Z).

Record JobRequest := mkJobRequest {
  req_job_id : Z;
  req_command_version : Z;
  req_command : JobCommand;
  req_max_timeout_secs : Z;
}.

Record JobCancelRequest := mkJobCancel {
  cancel_job_id : Z;
  cancel_reason : option str;
}.

(** * Versions *)

Definition tunnel_plan_has_gre6 (plan : TunnelPlan) : bool :=
  bool_decide (plan_kind plan = Gre6)
  || bool_decide (fou_tunnel_kind (rc_fou (plan_runtime_control plan)) = FouGre6).

Definition tunnel_plan_has_directional_ospf_fields (plan : TunnelPlan) : bool :=
  match plan_ospf plan with Some config => has_directional_cost_fields config | None => false end
  || bool_decide (is_Some (plan_left_recommended_ospf_cost plan))
  || bool_decide (is_Some (plan_right_recommended_ospf_cost plan)).

Definition tunnel_plan_has_address_wire_fields (plan : TunnelPlan) : bool :=
  negb (extras_is_empty (plan_additional_addresses plan)) || negb (plan_manage_link_local plan).

Definition tunnel_plan_command_protocol_version (plan : TunnelPlan) (baseline : Z) : Z :=
  if tunnel_plan_has_gre6 plan then GRE6_TUNNEL_PROTOCOL_VERSION
  else if tunnel_plan_has_directional_ospf_fields plan then OSPF_DIRECTIONAL_COST_PROTOCOL_VERSION
  else if bool_decide (plan_kind plan = Fou) then FOU_TUNNEL_KIND_PROTOCOL_VERSION
  else if tunnel_plan_has_address_wire_fields plan then TUNNEL_ADDRESS_MANAGEMENT_PROTOCOL_VERSION
  else baseline.

Definition builtin_managed (plan : TunnelPlan) : bool :=
  bool_decide (rc_manager (plan_runtime_control plan) = AgentBuiltin) && plan_manage_link_local plan.

(** A plan whose link-local management does not follow its IPv6 addresses. *)
Definition independent_link_local (entry : AgentRuntimeStatusTelemetryPlan) : bool :=
  let plan := tp_plan entry in
  let extras := plan_additional_addresses plan in
  builtin_managed plan && bool_decide (plan_ipv6_tunnel plan = None)
  && (is_empty (extra_ipv6 (extras_for_side extras (tp_endpoint_side entry)))
      || (bool_decide (plan_kind plan = Wireguard)
          && (is_empty (extra_ipv6 (extras_left extras)) || is_empty (extra_ipv6 (extras_right extras))))).

Definition manages_addresses (entry : AgentRuntimeStatusTelemetryPlan) : bool :=
  let plan := tp_plan entry in
  tunnel_plan_has_address_wire_fields plan
  || (builtin_managed plan && bool_decide (is_Some (plan_ipv6_tunnel plan))).

Definition runtime_config_protocol_version (config : AgentRuntimeConfig) : Z :=
  let network := rcfg_network config in
  let any (f : AgentRuntimeStatusTelemetryPlan -> bool) := existsb f (runtime_status_telemetry_plans network) in
  if PORT_FORWARDING_POOLS_SCHEMA_VERSION <=? schema_version (port_forwarding network)
  then PORT_FORWARD_POOLS_PROTOCOL_VERSION
  else if any (fun entry => tunnel_plan_has_gre6 (tp_plan entry)) then GRE6_TUNNEL_PROTOCOL_VERSION
  else if any (fun entry => tunnel_plan_has_directional_ospf_fields (tp_plan entry))
  then OSPF_DIRECTIONAL_COST_PROTOCOL_VERSION
  else if any independent_link_local then INDEPENDENT_LINK_LOCAL_PROTOCOL_VERSION
  else if any (fun entry => bool_decide (plan_kind (tp_plan entry) = Fou)) then FOU_TUNNEL_KIND_PROTOCOL_VERSION
  else if any manages_addresses then TUNNEL_ADDRESS_MANAGEMENT_PROTOCOL_VERSION
  else CONFIG_COMMAND_PROTOCOL_VERSION.

Definition job_command_protocol_version (command : JobCommand) : Z :=
  match command with
  | Shell _ _ => SHELL_COMMAND_PROTOCOL_VERSION
  | ShellScript _ => SHELL_SCRIPT_COMMAND_PROTOCOL_VERSION
  | TerminalOpen _ _ _ _ _ _ _ _ _ _ => TERMINAL_COMMAND_PROTOCOL_VERSION
  | FilePull _ _ | FilePush _ _ _ _ _ _ _ _ _ _ _ | FilePushChunked _ _ _ _ _ _ _ _ _ _ _ |
    FileTransferStart _ _ _ _ _ _ _ _ _ | FileTransferChunk _ _ _ _ | FileTransferCommit _ _ |
    FileTransferAbort _ _ | FileTransferDownloadStart _ _ _ _ _ _ | FileTransferDownloadChunk _ _ _ _ |
    FileStat _ | FileListDir _ _ _ _ | FileReadText _ _ _ | FileWriteText _ _ _ _ _ _ _ _ |
    FileMkdir _ _ _ _ | FileRename _ _ _ _ | FileDelete _ _ _ | FileChmod _ _ _ _ _ |
    FileChown _ _ _ _ _ _ _ _ | FileCopy _ _ _ _ _ _ | FileDownload _ _ _ | FileArchiveTar _ _ _ =>
      FILE_COMMAND_PROTOCOL_VERSION
  | ConfigRead => CONFIG_COMMAND_PROTOCOL_VERSION
  | RuntimeConfigSync _ _ config => runtime_config_protocol_version config
  | UpdateAgent _ _ | AgentUpdateActivate _ _ | AgentUpdateRollback _ | AgentUpdateCheck _ _ _ =>
      AGENT_UPDATE_COMMAND_PROTOCOL_VERSION
  | AgentStop | AgentRestart => AGENT_LIFECYCLE_COMMAND_PROTOCOL_VERSION
  | UserSessions => USER_SESSIONS_COMMAND_PROTOCOL_VERSION
  | ProcessList _ | ProcessStart _ _ _ _ _ _ | ProcessStop _ | ProcessRestart _ | ProcessStatus _ |
    ProcessLogs _ _ => PROCESS_COMMAND_PROTOCOL_VERSION
  | StorageInventory _ _ => HOST_STORAGE_COMMAND_PROTOCOL_VERSION
  | ServiceInventory _ _ | ServiceAction _ _ _ _ _ | ServiceLogs _ _ _ =>
      HOST_SERVICE_COMMAND_PROTOCOL_VERSION
  | PackageUpdatePlan _ _ | PackageUpdateApply _ _ => HOST_PACKAGE_COMMAND_PROTOCOL_VERSION
  | Backup _ _ _ _ => BACKUP_COMMAND_PROTOCOL_VERSION
  | Restore _ _ _ _ _ _ _ _ _ _ | RestoreRollback _ _ => RESTORE_COMMAND_PROTOCOL_VERSION
  | NetworkInterfaces => NETWORK_COMMAND_PROTOCOL_VERSION
  | NetworkStatus _ plan _ _ | NetworkProbe _ plan _ _ _ | NetworkSpeedTest _ plan _ _ _ _ _ _ =>
      tunnel_plan_command_protocol_version plan NETWORK_COMMAND_PROTOCOL_VERSION
  | NetworkTrafficImportVnstat _ _ => NETWORK_TRAFFIC_IMPORT_COMMAND_PROTOCOL_VERSION
  | NetworkRoutingStatus _ plan _ _ | NetworkRoutingApply _ plan _ _ _ _ =>
      tunnel_plan_command_protocol_version plan NETWORK_ROUTING_COMMAND_PROTOCOL_VERSION
  end.

Definition job_command_dispatch_protocol_version (command : JobCommand) : Z :=
  match command with
  | UpdateAgent _ _ | AgentUpdateActivate _ _ | AgentUpdateRollback _ | AgentUpdateCheck _ _ _ =>
      MIN_COMMAND_PROTOCOL_VERSION
  | NetworkInterfaces => MIN_COMMAND_PROTOCOL_VERSION
  | _ => job_command_protocol_version command
  end.

Definition job_command_min_supported_protocol_version (command : JobCommand) : Z :=
  match command with
  | Shell _ _ | ShellScript _ | TerminalOpen _ _ _ _ _ _ _ _ _ _ | UpdateAgent _ _ |
    AgentUpdateActivate _ _ | AgentUpdateRollback _ | AgentUpdateCheck _ _ _ | FilePull _ _ |
    FilePush _ _ _ _ _ _ _ _ _ _ _ | FilePushChunked _ _ _ _ _ _ _ _ _ _ _ |
    FileTransferStart _ _ _ _ _ _ _ _ _ | FileTransferChunk _ _ _ _ | FileTransferCommit _ _ |
    FileTransferAbort _ _ | FileTransferDownloadStart _ _ _ _ _ _ | FileTransferDownloadChunk _ _ _ _ |
    FileStat _ | FileListDir _ _ _ _ | FileReadText _ _ _ | FileWriteText _ _ _ _ _ _ _ _ |
    FileMkdir _ _ _ _ | FileRename _ _ _ _ | FileDelete _ _ _ | FileChmod _ _ _ _ _ |
    FileChown _ _ _ _ _ _ _ _ | FileCopy _ _ _ _ _ _ | FileDownload _ _ _ | FileArchiveTar _ _ _ |
    UserSessions | ProcessList _ | ProcessStart _ _ _ _ _ _ | ProcessStop _ | ProcessRestart _ |
    ProcessStatus _ | ProcessLogs _ _ | Backup _ _ _ _ | Restore _ _ _ _ _ _ _ _ _ _ | RestoreRollback _ _ |
    NetworkInterfaces => MIN_COMMAND_PROTOCOL_VERSION
  | ConfigRead => CONFIG_COMMAND_PROTOCOL_VERSION
  | RuntimeConfigSync _ _ config => runtime_config_protocol_version config
  | AgentStop | AgentRestart => AGENT_LIFECYCLE_COMMAND_PROTOCOL_VERSION
  | NetworkStatus _ plan _ _ | NetworkProbe _ plan _ _ _ | NetworkSpeedTest _ plan _ _ _ _ _ _ =>
      tunnel_plan_command_protocol_version plan NETWORK_COMMAND_PROTOCOL_VERSION
  | NetworkTrafficImportVnstat _ _ => NETWORK_TRAFFIC_IMPORT_COMMAND_PROTOCOL_VERSION
  | NetworkRoutingStatus _ plan _ _ | NetworkRoutingApply _ plan _ _ _ _ =>
      tunnel_plan_command_protocol_version plan NETWORK_ROUTING_COMMAND_PROTOCOL_VERSION
  | StorageInventory _ _ => HOST_STORAGE_COMMAND_PROTOCOL_VERSION
  | ServiceInventory _ _ | ServiceAction _ _ _ _ _ | ServiceLogs _ _ _ =>
      HOST_SERVICE_COMMAND_PROTOCOL_VERSION
  | PackageUpdatePlan _ _ | PackageUpdateApply _ _ => HOST_PACKAGE_COMMAND_PROTOCOL_VERSION
  end.

(** * Labels, safety and tables *)

Definition job_command_type_label (command : JobCommand) : string :=
  match command with
  | Shell _ true => "shell_pty"
  | Shell _ _ => "shell_argv"
  | ShellScript _ => "shell_script"
  | TerminalOpen _ _ _ _ _ _ _ _ _ _ => "terminal_open"
  | ConfigRead => "config_read"
  | RuntimeConfigSync _ _ _ => "runtime_config_sync"
  | UpdateAgent _ _ => "agent_update"
  | AgentUpdateActivate _ _ => "agent_update_activate"
  | AgentUpdateRollback _ => "agent_update_rollback"
  | AgentUpdateCheck _ _ _ => "agent_update_check"
  | AgentStop => "agent_stop"
  | AgentRestart => "agent_restart"
  | FilePull _ _ => "file_pull"
  | FilePush _ _ _ _ _ _ _ _ _ _ _ => "file_push"
  | FilePushChunked _ _ _ _ _ _ _ _ _ _ _ => "file_push_chunked"
  | FileTransferStart _ _ _ _ _ _ _ _ _ => "file_transfer_start"
  | FileTransferChunk _ _ _ _ => "file_transfer_chunk"
  | FileTransferCommit _ _ => "file_transfer_commit"
  | FileTransferAbort _ _ => "file_transfer_abort"
  | FileTransferDownloadStart _ _ _ _ _ _ => "file_transfer_download_start"
  | FileTransferDownloadChunk _ _ _ _ => "file_transfer_download_chunk"
  | FileStat _ => "file_stat"
  | FileListDir _ _ _ _ => "file_list_dir"
  | FileReadText _ _ _ => "file_read_text"
  | FileWriteText _ _ _ _ _ _ _ _ => "file_write_text"
  | FileMkdir _ _ _ _ => "file_mkdir"
  | FileRename _ _ _ _ => "file_rename"
  | FileDelete _ _ _ => "file_delete"
  | FileChmod _ _ _ _ _ => "file_chmod"
  | FileChown _ _ _ _ _ _ _ _ => "file_chown"
  | FileCopy _ _ _ _ _ _ => "file_copy"
  | FileDownload _ _ _ => "file_download"
  | FileArchiveTar _ _ _ => "file_archive_tar"
  | UserSessions => "user_sessions"
  | ProcessList _ => "process_list"
  | StorageInventory _ _ => "storage_inventory"
  | ProcessStart _ _ _ _ _ _ => "process_start"
  | ProcessStop _ => "process_stop"
  | ProcessRestart _ => "process_restart"
  | ProcessStatus _ => "process_status"
  | ProcessLogs _ _ => "process_logs"
  | ServiceInventory _ _ => "service_inventory"
  | ServiceAction _ _ _ _ _ => "service_action"
  | ServiceLogs _ _ _ => "service_logs"
  | PackageUpdatePlan _ _ => "package_update_plan"
  | PackageUpdateApply _ _ => "package_update_apply"
  | Backup _ _ _ _ => "backup"
  | Restore _ _ _ _ _ _ _ _ _ _ => "restore"
  | RestoreRollback _ _ => "restore_rollback"
  | NetworkStatus _ _ _ _ => "network_status"
  | NetworkInterfaces => "network_interfaces"
  | NetworkTrafficImportVnstat _ _ => "network_traffic_import_vnstat"
  | NetworkProbe _ _ _ _ _ => "network_probe"
  | NetworkSpeedTest _ _ _ _ _ _ _ _ => "network_speed_test"
  | NetworkRoutingStatus _ _ _ _ => "network_routing_status"
  | NetworkRoutingApply _ _ _ _ _ _ => "network_routing_apply"
  end.

Definition job_command_operation_type (command : JobCommand) : string :=
  match command with
  | Shell _ _ => "shell"
  | _ => job_command_type_label command
  end.

Definition scheduled_command_type_label (command : JobCommand) (fallback : str) : str :=
  match command with
  | Shell _ _ | ShellScript _ | RuntimeConfigSync _ _ _ | Backup _ _ _ _ | Restore _ _ _ _ _ _ _ _ _ _ |
    RestoreRollback _ _ | NetworkStatus _ _ _ _ | NetworkInterfaces | NetworkTrafficImportVnstat _ _ |
    NetworkProbe _ _ _ _ _ | NetworkSpeedTest _ _ _ _ _ _ _ _ | NetworkRoutingStatus _ _ _ _ |
    NetworkRoutingApply _ _ _ _ _ _ | UpdateAgent _ _ | AgentUpdateActivate _ _ | AgentUpdateRollback _ |
    AgentUpdateCheck _ _ _ | AgentStop | AgentRestart | ServiceInventory _ _ | ServiceAction _ _ _ _ _ |
    ServiceLogs _ _ _ => lit (job_command_type_label command)
  | StorageInventory _ _ => lit (job_command_type_label command)
  | PackageUpdatePlan _ _ | PackageUpdateApply _ _ => lit (job_command_type_label command)
  | _ => fallback
  end.

Inductive JobCommandSafety := Read | Write | Exec | Exclusive.

#[export] Instance job_command_safety_eq_dec : EqDecision JobCommandSafety.
Proof. solve_decision. Defined.

Definition JOB_COMMAND_SAFETY_READ : string := "read".
Definition JOB_COMMAND_SAFETY_WRITE : string := "write".
Definition JOB_COMMAND_SAFETY_EXEC : string := "exec".
Definition JOB_COMMAND_SAFETY_EXCLUSIVE : string := "exclusive".

Definition job_command_safety (command : JobCommand) : JobCommandSafety :=
  match command with
  | ConfigRead | FilePull _ _ | FileStat _ | FileListDir _ _ _ _ | FileReadText _ _ _ | FileDownload _ _ _ |
    FileArchiveTar _ _ _ | FileTransferDownloadStart _ _ _ _ _ _ | FileTransferDownloadChunk _ _ _ _ |
    UserSessions | ProcessList _ | ProcessStatus _ | ProcessLogs _ _ | StorageInventory _ _ |
    ServiceInventory _ _ | ServiceLogs _ _ _ | NetworkStatus _ _ _ _ | NetworkInterfaces |
    NetworkProbe _ _ _ _ _ | NetworkRoutingStatus _ _ _ _ => Read
  | Shell _ _ | ShellScript _ | TerminalOpen _ _ _ _ _ _ _ _ _ _ | PackageUpdatePlan _ _ => Exec
  | RuntimeConfigSync _ _ _ | UpdateAgent _ _ | AgentUpdateActivate _ _ | AgentUpdateRollback _ |
    AgentUpdateCheck _ _ _ | AgentStop | AgentRestart | PackageUpdateApply _ _ => Exclusive
  | FilePush _ _ _ _ _ _ _ _ _ _ _ | FilePushChunked _ _ _ _ _ _ _ _ _ _ _ |
    FileTransferStart _ _ _ _ _ _ _ _ _ | FileTransferChunk _ _ _ _ | FileTransferCommit _ _ |
    FileTransferAbort _ _ | FileWriteText _ _ _ _ _ _ _ _ | FileMkdir _ _ _ _ | FileRename _ _ _ _ |
    FileDelete _ _ _ | FileChmod _ _ _ _ _ | FileChown _ _ _ _ _ _ _ _ | FileCopy _ _ _ _ _ _ |
    Restore _ _ _ _ _ _ _ _ _ _ | RestoreRollback _ _ | NetworkTrafficImportVnstat _ _ => Write
  | ProcessStart _ _ _ _ _ _ | ProcessStop _ | ProcessRestart _ | ServiceAction _ _ _ _ _ |
    NetworkSpeedTest _ _ _ _ _ _ _ _ | NetworkRoutingApply _ _ _ _ _ _ => Exec
  | Backup _ _ _ _ => Read
  end.

Definition job_command_variant_names : list string :=
  ["shell"; "shell_script"; "terminal_open"; "config_read"; "runtime_config_sync"; "agent_update";
   "agent_update_activate"; "agent_update_rollback"; "agent_update_check"; "agent_stop"; "agent_restart";
   "file_pull"; "file_push"; "file_push_chunked"; "file_transfer_start"; "file_transfer_chunk";
   "file_transfer_commit"; "file_transfer_abort"; "file_transfer_download_start";
   "file_transfer_download_chunk"; "file_stat"; "file_list_dir"; "file_read_text"; "file_mkdir";
   "file_write_text"; "file_rename"; "file_delete"; "file_chmod"; "file_chown"; "file_copy"; "file_download";
   "file_archive_tar"; "user_sessions"; "process_list"; "storage_inventory"; "process_start"; "process_stop";
   "process_restart"; "process_status"; "process_logs"; "service_inventory"; "service_action";
   "service_logs"; "package_update_plan"; "package_update_apply"; "backup"; "restore"; "restore_rollback";
   "network_status"; "network_interfaces"; "network_traffic_import_vnstat"; "network_probe";
   "network_speed_test"; "network_routing_status"; "network_routing_apply"]%string.

Definition JOB_COMMAND_TYPE_LABELS : list string :=
  ["shell_argv"; "shell_pty"; "shell_script"; "terminal_open"; "config_read"; "runtime_config_sync";
   "agent_update"; "agent_update_activate"; "agent_update_rollback"; "agent_update_check"; "agent_stop";
   "agent_restart"; "file_pull"; "file_push"; "file_push_chunked"; "file_transfer_start";
   "file_transfer_chunk"; "file_transfer_commit"; "file_transfer_abort"; "file_transfer_download_start";
   "file_transfer_download_chunk"; "file_stat"; "file_list_dir"; "file_read_text"; "file_mkdir";
   "file_write_text"; "file_rename"; "file_delete"; "file_chmod"; "file_chown"; "file_copy"; "file_download";
   "file_archive_tar"; "user_sessions"; "process_list"; "storage_inventory"; "process_start"; "process_stop";
   "process_restart"; "process_status"; "process_logs"; "service_inventory"; "service_action";
   "service_logs"; "package_update_plan"; "package_update_apply"; "backup"; "restore"; "restore_rollback";
   "network_status"; "network_interfaces"; "network_traffic_import_vnstat"; "network_probe";
   "network_speed_test"; "network_routing_status"; "network_routing_apply"]%string.

Definition JOB_COMMAND_SAFETY_BY_OPERATION_TYPE : list (string * string) :=
  [("shell", JOB_COMMAND_SAFETY_EXEC); ("shell_script", JOB_COMMAND_SAFETY_EXEC);
   ("terminal_open", JOB_COMMAND_SAFETY_EXEC); ("config_read", JOB_COMMAND_SAFETY_READ);
   ("runtime_config_sync", JOB_COMMAND_SAFETY_EXCLUSIVE); ("agent_update", JOB_COMMAND_SAFETY_EXCLUSIVE);
   ("agent_update_activate", JOB_COMMAND_SAFETY_EXCLUSIVE);
   ("agent_update_rollback", JOB_COMMAND_SAFETY_EXCLUSIVE);
   ("agent_update_check", JOB_COMMAND_SAFETY_EXCLUSIVE); ("agent_stop", JOB_COMMAND_SAFETY_EXCLUSIVE);
   ("agent_restart", JOB_COMMAND_SAFETY_EXCLUSIVE); ("file_pull", JOB_COMMAND_SAFETY_READ);
   ("file_push", JOB_COMMAND_SAFETY_WRITE); ("file_push_chunked", JOB_COMMAND_SAFETY_WRITE);
   ("file_transfer_start", JOB_COMMAND_SAFETY_WRITE); ("file_transfer_chunk", JOB_COMMAND_SAFETY_WRITE);
   ("file_transfer_commit", JOB_COMMAND_SAFETY_WRITE); ("file_transfer_abort", JOB_COMMAND_SAFETY_WRITE);
   ("file_transfer_download_start", JOB_COMMAND_SAFETY_READ);
   ("file_transfer_download_chunk", JOB_COMMAND_SAFETY_READ); ("file_stat", JOB_COMMAND_SAFETY_READ);
   ("file_list_dir", JOB_COMMAND_SAFETY_READ); ("file_read_text", JOB_COMMAND_SAFETY_READ);
   ("file_mkdir", JOB_COMMAND_SAFETY_WRITE); ("file_write_text", JOB_COMMAND_SAFETY_WRITE);
   ("file_rename", JOB_COMMAND_SAFETY_WRITE); ("file_delete", JOB_COMMAND_SAFETY_WRITE);
   ("file_chmod", JOB_COMMAND_SAFETY_WRITE); ("file_chown", JOB_COMMAND_SAFETY_WRITE);
   ("file_copy", JOB_COMMAND_SAFETY_WRITE); ("file_download", JOB_COMMAND_SAFETY_READ);
   ("file_archive_tar", JOB_COMMAND_SAFETY_READ); ("user_sessions", JOB_COMMAND_SAFETY_READ);
   ("process_list", JOB_COMMAND_SAFETY_READ); ("storage_inventory", JOB_COMMAND_SAFETY_READ);
   ("process_start", JOB_COMMAND_SAFETY_EXEC); ("process_stop", JOB_COMMAND_SAFETY_EXEC);
   ("process_restart", JOB_COMMAND_SAFETY_EXEC); ("process_status", JOB_COMMAND_SAFETY_READ);
   ("process_logs", JOB_COMMAND_SAFETY_READ); ("service_inventory", JOB_COMMAND_SAFETY_READ);
   ("service_action", JOB_COMMAND_SAFETY_EXEC); ("service_logs", JOB_COMMAND_SAFETY_READ);
   ("package_update_plan", JOB_COMMAND_SAFETY_EXEC); ("package_update_apply", JOB_COMMAND_SAFETY_EXCLUSIVE);
   ("backup", JOB_COMMAND_SAFETY_READ); ("restore", JOB_COMMAND_SAFETY_WRITE);
   ("restore_rollback", JOB_COMMAND_SAFETY_WRITE); ("network_status", JOB_COMMAND_SAFETY_READ);
   ("network_interfaces", JOB_COMMAND_SAFETY_READ);
   ("network_traffic_import_vnstat", JOB_COMMAND_SAFETY_WRITE); ("network_probe", JOB_COMMAND_SAFETY_READ);
   ("network_speed_test", JOB_COMMAND_SAFETY_EXEC); ("network_routing_status", JOB_COMMAND_SAFETY_READ);
   ("network_routing_apply", JOB_COMMAND_SAFETY_EXEC)]%string.

Definition JOB_COMMAND_CONFIRMATION_REQUIRED_BY_OPERATION_TYPE : list (string * bool) :=
  [("shell", true); ("shell_script", true); ("terminal_open", true); ("config_read", false);
   ("runtime_config_sync", true); ("agent_update", true); ("agent_update_activate", true);
   ("agent_update_rollback", true); ("agent_update_check", true); ("agent_stop", true);
   ("agent_restart", true); ("file_pull", false); ("file_push", true); ("file_push_chunked", true);
   ("file_transfer_start", true); ("file_transfer_chunk", true); ("file_transfer_commit", true);
   ("file_transfer_abort", true); ("file_transfer_download_start", false);
   ("file_transfer_download_chunk", false); ("file_stat", false); ("file_list_dir", false);
   ("file_read_text", false); ("file_mkdir", true); ("file_write_text", true); ("file_rename", true);
   ("file_delete", true); ("file_chmod", true); ("file_chown", true); ("file_copy", true);
   ("file_download", false); ("file_archive_tar", false); ("user_sessions", false); ("process_list", false);
   ("storage_inventory", false); ("process_start", true); ("process_stop", true); ("process_restart", true);
   ("process_status", false); ("process_logs", false); ("service_inventory", false);
   ("service_action", true); ("service_logs", false); ("package_update_plan", false);
   ("package_update_apply", true); ("backup", true); ("restore", true); ("restore_rollback", true);
   ("network_status", false); ("network_interfaces", false); ("network_traffic_import_vnstat", true);
   ("network_probe", false); ("network_speed_test", true); ("network_routing_status", false);
   ("network_routing_apply", true)]%string.

Definition JOB_COMMAND_TYPE_BY_OPERATION_TYPE : list (string * string) :=
  [("shell", "shell_argv"); ("shell_script", "shell_script"); ("terminal_open", "terminal_open");
   ("config_read", "config_read"); ("runtime_config_sync", "runtime_config_sync");
   ("agent_update", "agent_update"); ("agent_update_activate", "agent_update_activate");
   ("agent_update_rollback", "agent_update_rollback"); ("agent_update_check", "agent_update_check");
   ("agent_stop", "agent_stop"); ("agent_restart", "agent_restart"); ("file_pull", "file_pull");
   ("file_push", "file_push"); ("file_push_chunked", "file_push_chunked");
   ("file_transfer_start", "file_transfer_start"); ("file_transfer_chunk", "file_transfer_chunk");
   ("file_transfer_commit", "file_transfer_commit"); ("file_transfer_abort", "file_transfer_abort");
   ("file_transfer_download_start", "file_transfer_download_start");
   ("file_transfer_download_chunk", "file_transfer_download_chunk"); ("file_stat", "file_stat");
   ("file_list_dir", "file_list_dir"); ("file_read_text", "file_read_text"); ("file_mkdir", "file_mkdir");
   ("file_write_text", "file_write_text"); ("file_rename", "file_rename"); ("file_delete", "file_delete");
   ("file_chmod", "file_chmod"); ("file_chown", "file_chown"); ("file_copy", "file_copy");
   ("file_download", "file_download"); ("file_archive_tar", "file_archive_tar");
   ("user_sessions", "user_sessions"); ("process_list", "process_list");
   ("storage_inventory", "storage_inventory"); ("process_start", "process_start");
   ("process_stop", "process_stop"); ("process_restart", "process_restart");
   ("process_status", "process_status"); ("process_logs", "process_logs");
   ("service_inventory", "service_inventory"); ("service_action", "service_action");
   ("service_logs", "service_logs"); ("package_update_plan", "package_update_plan");
   ("package_update_apply", "package_update_apply"); ("backup", "backup"); ("restore", "restore");
   ("restore_rollback", "restore_rollback"); ("network_status", "network_status");
   ("network_interfaces", "network_interfaces");
   ("network_traffic_import_vnstat", "network_traffic_import_vnstat"); ("network_probe", "network_probe");
   ("network_speed_test", "network_speed_test"); ("network_routing_status", "network_routing_status");
   ("network_routing_apply", "network_routing_apply")]%string.

Definition JOB_COMMAND_DISPLAY_GROUP_BY_COMMAND_TYPE : list (string * string) :=
  [("shell_argv", "shell"); ("shell_pty", "shell"); ("shell_script", "shell"); ("terminal_open", "terminal");
   ("config_read", "config"); ("runtime_config_sync", "config"); ("agent_update", "agent_update");
   ("agent_update_activate", "agent_update"); ("agent_update_rollback", "agent_update");
   ("agent_update_check", "agent_update"); ("agent_stop", "agent_lifecycle");
   ("agent_restart", "agent_lifecycle"); ("file_pull", "file"); ("file_push", "file");
   ("file_push_chunked", "file"); ("file_transfer_start", "file_transfer");
   ("file_transfer_chunk", "file_transfer"); ("file_transfer_commit", "file_transfer");
   ("file_transfer_abort", "file_transfer"); ("file_transfer_download_start", "file_transfer");
   ("file_transfer_download_chunk", "file_transfer"); ("file_stat", "file"); ("file_list_dir", "file");
   ("file_read_text", "file"); ("file_mkdir", "file"); ("file_write_text", "file"); ("file_rename", "file");
   ("file_delete", "file"); ("file_chmod", "file"); ("file_chown", "file"); ("file_copy", "file");
   ("file_download", "file"); ("file_archive_tar", "file"); ("user_sessions", "inventory");
   ("process_list", "process"); ("storage_inventory", "storage"); ("process_start", "process");
   ("process_stop", "process"); ("process_restart", "process"); ("process_status", "process");
   ("process_logs", "process"); ("service_inventory", "service"); ("service_action", "service");
   ("service_logs", "service"); ("package_update_plan", "os_update"); ("package_update_apply", "os_update");
   ("backup", "backup"); ("restore", "restore"); ("restore_rollback", "restore");
   ("network_status", "network"); ("network_interfaces", "network");
   ("network_traffic_import_vnstat", "network"); ("network_probe", "network");
   ("network_speed_test", "network"); ("network_routing_status", "network");
   ("network_routing_apply", "network")]%string.

(** [find_map] over a table: the value of the first entry with that key. *)
Definition table_lookup {A} (table : list (string * A)) (key : str) : option A :=
  option_map snd (List.find (fun '(candidate, _) => str_eqb (lit candidate) key) table).

Definition job_command_requires_confirmation_by_operation_type (operation_type : str) : option bool :=
  table_lookup JOB_COMMAND_CONFIRMATION_REQUIRED_BY_OPERATION_TYPE operation_type.

Definition job_command_type_label_from_operation_type (operation_type : str) : option string :=
  table_lookup JOB_COMMAND_TYPE_BY_OPERATION_TYPE operation_type.

Definition job_command_display_group (command_type : str) : option string :=
  table_lookup JOB_COMMAND_DISPLAY_GROUP_BY_COMMAND_TYPE command_type.

Definition job_command_requires_confirmation (command : JobCommand) : bool :=
  default false (job_command_requires_confirmation_by_operation_type (lit (job_command_operation_type command))).
