(* ===== verification/JobCommandProofs.v ===== *)
(** Properties of the protocol tables: statuses, versions, labels and guards. *)

From Stdlib Require Import Sorted.
From S2P Require Import Prelude RustStd PortForwarding TunnelModels ConfigModels JobStatus JobCommands.

Open Scope Z_scope.

(** * Statuses *)

Definition keys (table : list (string * string)) : list string := map fst table.

(** A published table of workflow states: no state twice, only known classes. *)
Definition workflow_table_ok (table : list (string * string)) : bool :=
  bool_decide (NoDup (keys table)) && forallb (fun class => bool_decide (In class WORKFLOW_STATUS_CLASSES)) (map snd table).

Lemma job_parse_inv text s : job_parse text = Some s -> text = lit (job_as_str s).
Proof. unfold job_parse. intros H. repeat case_match; simplify_eq; by apply str_eqb_eq. Qed.

Lemma target_parse_inv text s : target_parse text = Some s -> text = lit (target_as_str s).
Proof. unfold target_parse. intros H. repeat case_match; simplify_eq; by apply str_eqb_eq. Qed.

Lemma job_parse_str s : job_parse (lit (job_as_str s)) = Some s.
Proof. by destruct s. Qed.

Lemma target_parse_str s : target_parse (lit (target_as_str s)) = Some s.
Proof. by destruct s. Qed.

(** Every status once. *)
Definition job_all : list JobStatus :=
  [JobQueued; JobRunning; JobCompleted; JobPartialSuccess; JobSkipped; JobRejected; JobFailed; JobAgentTimeout;
   JobControlTimeout; JobCanceled].
Definition target_all : list JobTargetStatus :=
  [TargetQueued; TargetDispatching; TargetRunning; TargetCompleted; TargetSkipped; TargetRejected; TargetFailed;
   TargetAgentLost; TargetAgentTimeout; TargetControlTimeout; TargetCanceled].

Lemma job_all_complete s : In s job_all.
Proof. destruct s; cbn; tauto. Qed.

Lemma target_all_complete s : In s target_all.
Proof. destruct s; cbn; tauto. Qed.

(** A list of texts computed from the statuses that satisfy a test. *)
Lemma job_listed (P : JobStatus -> bool) text :
  In text (map lit (map job_as_str (List.filter P job_all))) <-> exists s, job_parse text = Some s /\ P s = true.
Proof.
  rewrite map_map, in_map_iff. split.
  - intros (s & <- & [_ Hs]%filter_In). exists s. by rewrite job_parse_str.
  - intros (s & Hs & HP). exists s. split; [symmetry; by apply job_parse_inv|].
    apply filter_In. split; [apply job_all_complete|done].
Qed.

Lemma target_listed (P : JobTargetStatus -> bool) text :
  In text (map lit (map target_as_str (List.filter P target_all))) <-> exists s, target_parse text = Some s /\ P s = true.
Proof.
  rewrite map_map, in_map_iff. split.
  - intros (s & <- & [_ Hs]%filter_In). exists s. by rewrite target_parse_str.
  - intros (s & Hs & HP). exists s. split; [symmetry; by apply target_parse_inv|].
    apply filter_In. split; [apply target_all_complete|done].
Qed.

Lemma job_class_listed text class :
  In (text, class) (map (fun '(t, c) => (lit t, c)) (map (fun s => (job_as_str s, jobclass_as_str (job_class s))) job_all))
  <-> exists s, job_parse text = Some s /\ class = jobclass_as_str (job_class s).
Proof.
  rewrite map_map, in_map_iff. split.
  - intros (s & [= <- <-] & _). exists s. by rewrite job_parse_str.
  - intros (s & Hs%job_parse_inv & ->). exists s. split; [by rewrite Hs|apply job_all_complete].
Qed.

Lemma target_class_listed text class :
  In (text, class) (map (fun '(t, c) => (lit t, c))
                      (map (fun s => (target_as_str s, targetclass_as_str (target_class s))) target_all))
  <-> exists s, target_parse text = Some s /\ class = targetclass_as_str (target_class s).
Proof.
  rewrite map_map, in_map_iff. split.
  - intros (s & [= <- <-] & _). exists s. by rewrite target_parse_str.
  - intros (s & Hs%target_parse_inv & ->). exists s. split; [by rewrite Hs|apply target_all_complete].
Qed.

(** The published status tables say what the status types do: a text is a listed
    job (target) status exactly when it parses, a listed terminal status exactly when
    it parses to a status that is not in progress, and the class table pairs each
    status with its class; statuses and classes print and parse back, and every
    workflow table has distinct states and known classes. *)
Theorem status_tables_exact :
  (forall text, In text (map lit JOB_STATUSES) <-> is_Some (job_parse text)) /\
  (forall text, In text (map lit JOB_TERMINAL_STATUSES) <-> exists s, job_parse text = Some s /\ job_is_terminal s = true) /\
  (forall text class, In (text, class) (map (fun '(t, c) => (lit t, c)) JOB_STATUS_CLASS_BY_STATUS) <->
     exists s, job_parse text = Some s /\ class = jobclass_as_str (job_class s)) /\
  (forall text, In text (map lit JOB_TARGET_STATUSES) <-> is_Some (target_parse text)) /\
  (forall text, In text (map lit JOB_TARGET_TERMINAL_STATUSES) <->
     exists s, target_parse text = Some s /\ target_is_terminal s = true) /\
  (forall text class, In (text, class) (map (fun '(t, c) => (lit t, c)) JOB_TARGET_STATUS_CLASS_BY_STATUS) <->
     exists s, target_parse text = Some s /\ class = targetclass_as_str (target_class s)) /\
  (forall s, job_parse (lit (job_as_str s)) = Some s) /\ (forall s, target_parse (lit (target_as_str s)) = Some s) /\
  (forall c, jobclass_parse (lit (jobclass_as_str c)) = Some c) /\
  (forall c, targetclass_parse (lit (targetclass_as_str c)) = Some c) /\
  forallb workflow_table_ok
    [TERMINAL_SESSION_STATE_CLASS_BY_STATE; TERMINAL_SESSION_STATUS_CLASS_BY_STATUS;
     FILE_TRANSFER_SESSION_STATUS_CLASS_BY_STATUS; BACKUP_REQUEST_STATUS_CLASS_BY_STATUS;
     RESTORE_PLAN_STATUS_CLASS_BY_STATUS; MIGRATION_LINK_STATUS_CLASS_BY_STATUS;
     AGENT_UPDATE_RELEASE_STATUS_CLASS_BY_STATUS; SERVER_JOB_STATUS_CLASS_BY_STATUS;
     FLEET_ALERT_NOTIFICATION_DELIVERY_STATUS_CLASS_BY_STATUS;
     FLEET_ALERT_NOTIFICATION_DELIVERY_PROCESS_STATUS_CLASS_BY_STATUS;
     WEBHOOK_RULE_DELIVERY_STATUS_CLASS_BY_STATUS; WEBHOOK_RULE_DELIVERY_HISTORY_STATUS_CLASS_BY_STATUS;
     WEBHOOK_RULE_DELIVERY_PROCESS_STATUS_CLASS_BY_STATUS; TOPOLOGY_NODE_STATUS_CLASS_BY_STATUS;
     TOPOLOGY_EDGE_HEALTH_STATUS_CLASS_BY_STATUS; TOPOLOGY_NEIGHBOR_STATE_CLASS_BY_STATE;
     TOPOLOGY_PROBE_STATE_CLASS_BY_STATE; TOPOLOGY_RUNTIME_STATE_CLASS_BY_STATE;
     TOPOLOGY_OBSERVATION_STATE_CLASS_BY_STATE] = true.
Proof.
  split. { intros text. rewrite (job_listed (fun _ => true) text). split; [intros (s & -> & _); done|intros [s Hs]; by exists s]. }
  split. { intros text. apply (job_listed job_is_terminal). }
  split. { intros text class. apply job_class_listed. }
  split. { intros text. rewrite (target_listed (fun _ => true) text). split; [intros (s & -> & _); done|intros [s Hs]; by exists s]. }
  split. { intros text. apply (target_listed target_is_terminal). }
  split. { intros text class. apply target_class_listed. }
  split; [apply job_parse_str|]. split; [apply target_parse_str|]. split; [by intros []|]. split; [by intros []|].
  vm_compute. reflexivity.
Qed.

(** * Versions *)

#[local] Hint Unfold CURRENT_COMMAND_PROTOCOL_VERSION PORT_FORWARD_POOLS_PROTOCOL_VERSION MIN_COMMAND_PROTOCOL_VERSION
  SHELL_COMMAND_PROTOCOL_VERSION SHELL_SCRIPT_COMMAND_PROTOCOL_VERSION TERMINAL_COMMAND_PROTOCOL_VERSION
  FILE_COMMAND_PROTOCOL_VERSION CONFIG_COMMAND_PROTOCOL_VERSION TUNNEL_ADDRESS_MANAGEMENT_PROTOCOL_VERSION
  FOU_TUNNEL_KIND_PROTOCOL_VERSION GRE6_TUNNEL_PROTOCOL_VERSION INDEPENDENT_LINK_LOCAL_PROTOCOL_VERSION
  OSPF_DIRECTIONAL_COST_PROTOCOL_VERSION AGENT_UPDATE_COMMAND_PROTOCOL_VERSION AGENT_LIFECYCLE_COMMAND_PROTOCOL_VERSION
  USER_SESSIONS_COMMAND_PROTOCOL_VERSION PROCESS_COMMAND_PROTOCOL_VERSION HOST_SERVICE_COMMAND_PROTOCOL_VERSION
  HOST_PACKAGE_COMMAND_PROTOCOL_VERSION HOST_STORAGE_COMMAND_PROTOCOL_VERSION BACKUP_COMMAND_PROTOCOL_VERSION
  RESTORE_COMMAND_PROTOCOL_VERSION NETWORK_COMMAND_PROTOCOL_VERSION NETWORK_ROUTING_COMMAND_PROTOCOL_VERSION
  NETWORK_TRAFFIC_IMPORT_COMMAND_PROTOCOL_VERSION : versions.

(** Arithmetic on version numbers. *)
Ltac versions := repeat autounfold with versions in *; lia.

(** The newest version of a list. *)
Definition newest (baseline : Z) (versions : list Z) : Z := foldr Z.max baseline versions.

Lemma newest_unique baseline versions v :
  In v (baseline :: versions) -> baseline <= v -> Forall (fun w => w <= v) versions -> newest baseline versions = v.
Proof.
  intros Hin Hb Hall. unfold newest. apply Z.le_antisymm.
  - clear Hin. induction Hall; cbn; lia.
  - clear Hall. destruct Hin as [->|Hin]; [clear Hb; induction versions; cbn; lia|].
    induction versions as [|w ws IH]; [done|]. cbn. destruct Hin as [->|Hin]; [lia|]. specialize (IH Hin). lia.
Qed.

(** The first test some element passes, and the version that goes with it. *)
Fixpoint cascade {A} (tests : list ((A -> bool) * Z)) (baseline : Z) (l : list A) : Z :=
  match tests with
  | [] => baseline
  | (test, v) :: tests' => if existsb test l then v else cascade tests' baseline l
  end.

(** The versions of the tests an element passes. *)
Definition features {A} (tests : list ((A -> bool) * Z)) (a : A) : list Z :=
  flat_map (fun '(test, v) => if test a : bool then [v] else []) tests.

Lemma features_from {A} (tests : list ((A -> bool) * Z)) a v : In v (features tests a) -> In v (map snd tests).
Proof.
  unfold features. rewrite in_flat_map, in_map_iff. intros ((test & w) & Hin & Hv). exists (test, w).
  destruct (test a); [|done]. destruct Hv as [->|[]]. done.
Qed.

Lemma flat_map_ext_in {A B} (f g : A -> list B) l : (forall a, In a l -> f a = g a) -> flat_map f l = flat_map g l.
Proof. induction l as [|a l IH]; intros H; [done|]. cbn. rewrite H by (by left). f_equal. apply IH. intros b Hb. apply H. by right. Qed.

(** With the tests ordered from the newest version down, the cascade finds the
    newest version of any feature of any element. *)
Lemma cascade_newest {A} (tests : list ((A -> bool) * Z)) baseline l :
  StronglySorted (fun p q => snd q <= snd p) tests -> Forall (fun p => baseline <= snd p) tests ->
  cascade tests baseline l = newest baseline (flat_map (features tests) l).
Proof.
  intros Hs Hb. induction tests as [|[test v] tests IH]; cbn [cascade].
  { rewrite (flat_map_ext_in _ (fun _ => [])) by done. by induction l. }
  apply StronglySorted_inv in Hs as [Hs Hv]. apply Forall_cons in Hb as [Hb Hbs]. cbn [snd] in *.
  destruct (existsb test l) eqn:E.
  - symmetry. apply newest_unique; [|done|].
    + right. apply existsb_exists in E as (a & Ha & Ht). apply in_flat_map. exists a. split; [done|].
      unfold features. cbn [flat_map]. rewrite Ht. by left.
    + apply List.Forall_forall. intros w (a & Ha & Hw)%in_flat_map. apply features_from in Hw. cbn in Hw.
      destruct Hw as [->|Hw]; [done|]. apply in_map_iff in Hw as (q & <- & Hq). rewrite List.Forall_forall in Hv. by apply Hv.
  - rewrite IH by done. f_equal. apply flat_map_ext_in. intros a Ha. unfold features. cbn [flat_map].
    by rewrite (existsb_false _ _ _ E Ha).
Qed.

(** What a plan can need of the command that carries it. *)
Definition plan_tests : list ((TunnelPlan -> bool) * Z) :=
  [(tunnel_plan_has_gre6, GRE6_TUNNEL_PROTOCOL_VERSION);
   (tunnel_plan_has_directional_ospf_fields, OSPF_DIRECTIONAL_COST_PROTOCOL_VERSION);
   (fun plan => bool_decide (plan_kind plan = Fou), FOU_TUNNEL_KIND_PROTOCOL_VERSION);
   (tunnel_plan_has_address_wire_fields, TUNNEL_ADDRESS_MANAGEMENT_PROTOCOL_VERSION)].

(** What an entry of a runtime configuration can need. *)
Definition entry_tests : list ((AgentRuntimeStatusTelemetryPlan -> bool) * Z) :=
  [(fun entry => tunnel_plan_has_gre6 (tp_plan entry), GRE6_TUNNEL_PROTOCOL_VERSION);
   (fun entry => tunnel_plan_has_directional_ospf_fields (tp_plan entry), OSPF_DIRECTIONAL_COST_PROTOCOL_VERSION);
   (independent_link_local, INDEPENDENT_LINK_LOCAL_PROTOCOL_VERSION);
   (fun entry => bool_decide (plan_kind (tp_plan entry) = Fou), FOU_TUNNEL_KIND_PROTOCOL_VERSION);
   (manages_addresses, TUNNEL_ADDRESS_MANAGEMENT_PROTOCOL_VERSION)].

Definition uses_pools (config : AgentRuntimeConfig) : bool :=
  PORT_FORWARDING_POOLS_SCHEMA_VERSION <=? schema_version (port_forwarding (rcfg_network config)).

Definition config_features (config : AgentRuntimeConfig) : list Z :=
  (if uses_pools config then [PORT_FORWARD_POOLS_PROTOCOL_VERSION] else [])
  ++ flat_map (features entry_tests) (runtime_status_telemetry_plans (rcfg_network config)).

Ltac sorted_tests := repeat constructor; cbn; versions.

Lemma plan_version_newest plan baseline : baseline <= TUNNEL_ADDRESS_MANAGEMENT_PROTOCOL_VERSION ->
  tunnel_plan_command_protocol_version plan baseline = newest baseline (features plan_tests plan).
Proof.
  intros Hb. rewrite <- (app_nil_r (features plan_tests plan)).
  change (features plan_tests plan ++ []) with (flat_map (features plan_tests) [plan]).
  rewrite <- cascade_newest by sorted_tests. cbn [cascade plan_tests existsb]. by rewrite !orb_false_r.
Qed.

Lemma newest_bound baseline versions v : baseline <= v -> Forall (fun w => w <= v) versions -> newest baseline versions <= v.
Proof. intros Hb H. unfold newest. induction H; cbn; lia. Qed.

Lemma runtime_config_version_newest config :
  runtime_config_protocol_version config = newest CONFIG_COMMAND_PROTOCOL_VERSION (config_features config).
Proof.
  unfold runtime_config_protocol_version, config_features. cbv zeta. fold (uses_pools config).
  destruct (uses_pools config); cbn [app]; [|by rewrite <- cascade_newest by sorted_tests].
  cbn [newest foldr]. symmetry. apply Z.max_l, newest_bound; [versions|].
  apply List.Forall_forall. intros w (a & _ & Hw%features_from)%in_flat_map. cbn in Hw. naive_solver versions.
Qed.

Lemma plan_version_bounds plan baseline : MIN_COMMAND_PROTOCOL_VERSION <= baseline <= CONFIG_COMMAND_PROTOCOL_VERSION ->
  MIN_COMMAND_PROTOCOL_VERSION <= tunnel_plan_command_protocol_version plan baseline <= CURRENT_COMMAND_PROTOCOL_VERSION.
Proof. unfold tunnel_plan_command_protocol_version. intros Hb. repeat case_match; versions. Qed.

Lemma runtime_config_version_bounds config :
  MIN_COMMAND_PROTOCOL_VERSION <= runtime_config_protocol_version config <= CURRENT_COMMAND_PROTOCOL_VERSION.
Proof. unfold runtime_config_protocol_version. cbv zeta. repeat case_match; versions. Qed.

(** Versions: every command is dispatched with a version the agent of the same
    build accepts, and a command that carries tunnel plans or a runtime
    configuration needs exactly the newest version of any feature they use. *)
Theorem dispatched_version_accepted command :
  MIN_COMMAND_PROTOCOL_VERSION <= job_command_min_supported_protocol_version command
    <= job_command_dispatch_protocol_version command /\
  job_command_dispatch_protocol_version command <= job_command_protocol_version command
    <= CURRENT_COMMAND_PROTOCOL_VERSION /\
  (forall version reason config, command = RuntimeConfigSync version reason config ->
     job_command_dispatch_protocol_version command = newest CONFIG_COMMAND_PROTOCOL_VERSION (config_features config)) /\
  (forall id plan side adapter, command = NetworkRoutingStatus id plan side adapter ->
     job_command_dispatch_protocol_version command
     = newest NETWORK_ROUTING_COMMAND_PROTOCOL_VERSION (features plan_tests plan)) /\
  (forall id plan side count interval, command = NetworkProbe id plan side count interval ->
     job_command_dispatch_protocol_version command = newest NETWORK_COMMAND_PROTOCOL_VERSION (features plan_tests plan)).
Proof.
  split; [|split].
  1, 2: destruct command; cbn [job_command_min_supported_protocol_version job_command_dispatch_protocol_version
    job_command_protocol_version]; try versions.
  all: try match goal with
    | |- context [tunnel_plan_command_protocol_version ?p ?b] =>
        pose proof (plan_version_bounds p b ltac:(versions)); versions
    | |- context [runtime_config_protocol_version ?c] => pose proof (runtime_config_version_bounds c); versions
    end.
  split; [|split].
  - intros ? ? config ->. apply runtime_config_version_newest.
  - intros ? ? ? ? ->. apply plan_version_newest. versions.
  - intros ? ? ? ? ? ->. apply plan_version_newest. versions.
Qed.

(** * Labels and guards *)

Definition safety_text (s : JobCommandSafety) : string :=
  match s with
  | Read => JOB_COMMAND_SAFETY_READ
  | Write => JOB_COMMAND_SAFETY_WRITE
  | Exec => JOB_COMMAND_SAFETY_EXEC
  | Exclusive => JOB_COMMAND_SAFETY_EXCLUSIVE
  end.

Definition is_package_plan (command : JobCommand) : bool := match command with PackageUpdatePlan _ _ => true | _ => false end.
Definition is_backup (command : JobCommand) : bool := match command with Backup _ _ _ _ => true | _ => false end.

Lemma listed_by_search x l : existsb (String.eqb x) l = true -> In x l.
Proof. intros (y & Hy & ->%String.eqb_eq)%existsb_exists. done. Qed.

(** Every command is in every table, with its own label (that of the operation, for a shell with a
    terminal as for one without), safety class and display group, and an operator must confirm exactly the commands that are not read-only,
    together with backups and without the planning of package updates. *)
Theorem command_tables_agree command :
  In (job_command_type_label command) JOB_COMMAND_TYPE_LABELS /\
  In (job_command_operation_type command) job_command_variant_names /\
  table_lookup JOB_COMMAND_SAFETY_BY_OPERATION_TYPE (lit (job_command_operation_type command))
  = Some (safety_text (job_command_safety command)) /\
  job_command_type_label_from_operation_type (lit (job_command_operation_type command))
  = Some (match command with Shell _ _ => "shell_argv"%string | _ => job_command_type_label command end) /\
  is_Some (job_command_display_group (lit (job_command_type_label command))) /\
  job_command_requires_confirmation_by_operation_type (lit (job_command_operation_type command))
  = Some (job_command_requires_confirmation command) /\
  job_command_requires_confirmation command
  = (negb (bool_decide (job_command_safety command = Read)) || is_backup command) && negb (is_package_plan command).
Proof.
  split; [apply listed_by_search; destruct command as [? []| | | | | | | | | | | | | | | | | | | | | | | | | | | | | | |
    | | | | | | | | | | | | | | | | | | | | | | |]; vm_compute; reflexivity|].
  split; [apply listed_by_search; destruct command; vm_compute; reflexivity|].
  split; [destruct command; vm_compute; reflexivity|].
  split; [destruct command; vm_compute; reflexivity|].
  split; [destruct command as [? []| | | | | | | | | | | | | | | | | | | | | | | | | | | | | | |
    | | | | | | | | | | | | | | | | | | | | | | |]; vm_compute; eauto|].
  split; destruct command; vm_compute; reflexivity.
Qed.
