(* ===== verification/JobTargets.v ===== *)
(** The targets of a job: the network endpoint and capability checks and the
    aggregation of target outcomes of crates/server-core/src/lib.rs, and the rollout
    and time-limit checks of crates/api/src/routes/jobs/routes_jobs.rs.

    Sorted lists are compared; a capability snapshot keeps the fields the decisions
    read. *)

From stdpp Require Import sorting.
From S2P Require Import Prelude RustStd Expression TunnelModels ConfigModels JobStatus JobCommands.

Open Scope Z_scope.

(** * Endpoints *)

Inductive NetworkTargetValidationError := EndpointTargetMismatch | SpeedTestTargetMismatch.

Definition target_error_code (error : NetworkTargetValidationError) : string :=
  match error with
  | EndpointTargetMismatch => "network_endpoint_target_mismatch"
  | SpeedTestTargetMismatch => "network_speed_test_target_mismatch"
  end.

Definition validate_network_command_targets (command : JobCommand) (resolved_targets : list str) :
  result NetworkTargetValidationError unit :=
  let endpoint plan side :=
    let expected := match side with SideLeft => plan_left_client_id plan | SideRight => plan_right_client_id plan end in
    if bool_decide (resolved_targets = [expected]) then Ok tt else Err EndpointTargetMismatch in
  match command with
  | NetworkStatus _ plan side _ | NetworkProbe _ plan side _ _ => endpoint plan side
  | NetworkSpeedTest _ plan _ _ _ _ _ _ =>
      if bool_decide (merge_sort str_le resolved_targets =
                      merge_sort str_le [plan_left_client_id plan; plan_right_client_id plan])
      then Ok tt else Err SpeedTestTargetMismatch
  | _ => Ok tt
  end.

(** * Capabilities *)

Inductive AgentPrivilegeMode := PrivilegeUnknown | PrivilegeRoot | PrivilegeUnprivileged.

Record AgentCapabilitySnapshot := mkCapabilities {
  privilege_mode : AgentPrivilegeMode;
  can_attempt_privileged_ops : bool;
  can_manage_runtime_tunnels : bool;
  can_apply_process_limits : bool;
}.

Record TargetCapability := mkTargetCapability {
  target_client_id : str;
  target_capabilities : AgentCapabilitySnapshot;
}.

(** The hint and the message are texts fixed by the reason. *)
Inductive CapabilityFailure := LacksRootNetwork | LacksProcessLimits | LacksAgentUpdate | LacksRestore.

Definition capability_failure_reason (failure : CapabilityFailure) : string :=
  match failure with
  | LacksRootNetwork => "target_agent_lacks_root_runtime_network_capability"
  | LacksProcessLimits => "target_agent_lacks_process_limit_capability"
  | LacksAgentUpdate => "target_agent_lacks_agent_update_capability"
  | LacksRestore => "target_agent_lacks_restore_capability"
  end.

Definition limits_are_default (limits : ProcessResourceLimits) : bool :=
  bool_decide (memory_max_bytes limits = None) && bool_decide (pids_max limits = None)
  && bool_decide (open_files_max limits = None) && bool_decide (cpu_shares limits = None)
  && negb (no_new_privileges limits).

Definition runtime_config_requires_root_network_capability (command : JobCommand) : bool :=
  match command with
  | RuntimeConfigSync _ _ config =>
      let network := rcfg_network config in
      apply_enabled network && runtime_reconcile_enabled network
      && match runtime_unprivileged_mutation_policy network with TryAll => false | _ => true end
      && existsb (fun entry => bool_decide (rc_manager (plan_runtime_control (tp_plan entry)) = AgentBuiltin))
           (runtime_status_telemetry_plans network)
  | _ => false
  end.

Definition target_lacks_root_network_capability (command : JobCommand) (capabilities : AgentCapabilitySnapshot) : bool :=
  runtime_config_requires_root_network_capability command
  && match privilege_mode capabilities with
     | PrivilegeUnprivileged | PrivilegeRoot => negb (can_manage_runtime_tunnels capabilities)
     | PrivilegeUnknown => false
     end.

Definition target_lacks_process_limit_capability (command : JobCommand) (capabilities : AgentCapabilitySnapshot) : bool :=
  match command with
  | ProcessStart _ _ _ _ _ limits =>
      negb (limits_are_default limits)
      && match privilege_mode capabilities with
         | PrivilegeUnprivileged => true
         | PrivilegeRoot => negb (can_apply_process_limits capabilities)
         | PrivilegeUnknown => false
         end
  | _ => false
  end.

Definition target_lacks_privileged_host_mutation_capability (capabilities : AgentCapabilitySnapshot) : bool :=
  match privilege_mode capabilities with
  | PrivilegeUnprivileged => true
  | PrivilegeRoot => negb (can_attempt_privileged_ops capabilities)
  | PrivilegeUnknown => false
  end.

Definition target_lacks_agent_update_capability (command : JobCommand) (capabilities : AgentCapabilitySnapshot) : bool :=
  match command with
  | UpdateAgent _ _ | AgentUpdateActivate _ _ | AgentUpdateRollback _ | AgentUpdateCheck _ _ _ =>
      target_lacks_privileged_host_mutation_capability capabilities
  | _ => false
  end.

Definition target_lacks_restore_capability (command : JobCommand) (capabilities : AgentCapabilitySnapshot) : bool :=
  match command with
  | Restore _ _ _ _ _ _ _ _ _ _ | RestoreRollback _ _ => target_lacks_privileged_host_mutation_capability capabilities
  | _ => false
  end.

Definition target_capability_failure (command : JobCommand) (capabilities : AgentCapabilitySnapshot) :
  option CapabilityFailure :=
  if target_lacks_root_network_capability command capabilities then Some LacksRootNetwork
  else if target_lacks_process_limit_capability command capabilities then Some LacksProcessLimits
  else if target_lacks_agent_update_capability command capabilities then Some LacksAgentUpdate
  else if target_lacks_restore_capability command capabilities then Some LacksRestore
  else None.

(** The failure of the first agent listed under the id. *)
Definition capability_failure_of (command : JobCommand) (agents : list TargetCapability) (client_id : str) :
  option CapabilityFailure :=
  agent ← List.find (fun agent => str_eqb (target_client_id agent) client_id) agents;
  target_capability_failure command (target_capabilities agent).

(** The targets to dispatch to, and those skipped with their failures. *)
Fixpoint split_targets (command : JobCommand) (agents : list TargetCapability) (targets : list str) :
  list str * list (str * CapabilityFailure) :=
  match targets with
  | [] => ([], [])
  | client_id :: targets =>
      let '(dispatch, skipped) := split_targets command agents targets in
      match capability_failure_of command agents client_id with
      | Some failure => (dispatch, (client_id, failure) :: skipped)
      | None => (client_id :: dispatch, skipped)
      end
  end.

Definition split_targets_by_capability (command : JobCommand) (targets : list str) (agents : list TargetCapability)
    (force_unprivileged : bool) : list str * list (str * CapabilityFailure) :=
  if force_unprivileged then (targets, []) else split_targets command agents targets.

(** * Rollouts and time limits *)

Definition DEFAULT_MAX_JOB_TIMEOUT_SECS : Z := 3600.

Definition effective_job_max_timeout_secs (requested : option Z) (max_job_timeout_secs : Z) : result string Z :=
  let max_job := Z.max max_job_timeout_secs 1 in
  let secs := Z.max (default (Z.min DEFAULT_MAX_JOB_TIMEOUT_SECS max_job) requested) 1 in
  if max_job <? secs then Err "max_timeout_exceeds_configured_job_max"%string else Ok secs.

Record JobRolloutPolicy := mkRollout {
  canary_client_ids : list str;
  batch_size : Z;
  max_failures : Z;
  pause_after_canary : bool;
  batch_delay_secs : Z;
}.

(** The loop over the canaries, with the ones seen so far. *)
Fixpoint check_canaries (resolved seen canaries : list str) : result string unit :=
  match canaries with
  | [] => Ok tt
  | client_id :: canaries =>
      reject_if (bool_decide (client_id ∈ seen)) "job_rollout_canary_target_duplicated"%string;;
      reject_if (negb (bool_decide (client_id ∈ resolved))) "job_rollout_canary_target_not_resolved"%string;;
      check_canaries resolved (client_id :: seen) canaries
  end.

Definition validate_job_rollout (rollout : option JobRolloutPolicy) (command : JobCommand) (resolved : list str) :
  result string unit :=
  match rollout with
  | None => Ok tt
  | Some rollout =>
      let canaries := canary_client_ids rollout in
      reject_if (vec_len resolved <? 2) "job_rollout_requires_multiple_targets"%string;;
      reject_if (match command with NetworkSpeedTest _ _ _ _ _ _ _ _ => true | _ => false end)
        "job_rollout_network_speed_test_unsupported"%string;;
      reject_if (is_empty canaries || (25 <? vec_len canaries)) "job_rollout_canary_count_out_of_range"%string;;
      reject_if (vec_len resolved <=? vec_len canaries) "job_rollout_canary_must_leave_remaining_targets"%string;;
      check_canaries resolved [] canaries;;
      reject_if (negb (in_range 1 100 (batch_size rollout))) "job_rollout_batch_size_out_of_range"%string;;
      reject_if (100 <? max_failures rollout) "job_rollout_max_failures_out_of_range"%string;;
      reject_if (86400 <? batch_delay_secs rollout) "job_rollout_batch_delay_out_of_range"%string
  end.

(** * Outcomes *)

Definition target_status_is_active (status : str) : bool :=
  default false (option_map (fun s => targetclass_is_in_progress (target_class s)) (target_parse status)).

Definition aggregate_job_status_from_statuses (target_statuses : list str) (target_count : Z) : string :=
  if target_count =? 0 then JOB_STATUS_SKIPPED
  else if existsb target_status_is_active target_statuses then JOB_STATUS_RUNNING
  else
    let parsed := omap target_parse target_statuses in
    let count class := vec_len (List.filter (fun s => bool_decide (target_class s = class)) parsed) in
    let has s := existsb (fun s' => bool_decide (s = s')) parsed in
    let completed := count TargetClassSuccessful in
    if completed =? target_count then JOB_STATUS_COMPLETED
    else if count TargetClassSkipped =? target_count then JOB_STATUS_SKIPPED
    else if 0 <? completed then JOB_STATUS_PARTIAL_SUCCESS
    else if has TargetControlTimeout then JOB_STATUS_CONTROL_TIMEOUT
    else if has TargetAgentTimeout then JOB_STATUS_AGENT_TIMEOUT
    else if has TargetFailed then JOB_STATUS_FAILED
    else if has TargetCanceled then JOB_STATUS_CANCELED
    else if has TargetRejected then JOB_STATUS_REJECTED
    else JOB_STATUS_FAILED.

Definition is_backup_operation (command : JobCommand) : bool :=
  match command with Backup _ _ _ _ => true | _ => false end.
