(* ===== verification/JobAdmission.v ===== *)
(** Admission of jobs by the API server: job_request.rs, job_files.rs and
    job_terminal.rs of crates/api/src/jobs.

    A request names its targets and a command; the functions here decide whether the
    command is stored and dispatched.  An [ApiError::bad_request] is its code.  The
    digest, base64 and [Uuid::parse_str] are parameters; the clock is an argument.
    [None] of [validate_job_command] is its [unreachable!] arm. *)

From S2P Require Import Prelude RustStd FileTransfer TunnelModels NetworkPlanner ConfigModels ExpressionParser JobCommands.

Open Scope Z_scope.

Abbreviation admission := (result string unit).

(** * Limits *)

Definition MAX_BACKUP_PATHS : Z := 64.
Definition MAX_RESTORE_PATHS : Z := 64.
Definition MAX_RESTORE_ROLLBACK_FILE_BYTES : Z := 16 * 1024 * 1024.
Definition MAX_DIRECT_FILE_DOWNLOAD_BYTES : Z := 16 * 1024 * 1024.
Definition MAX_SHELL_SCRIPT_BYTES : Z := 16 * 1024.
Definition MAX_TERMINAL_REASON_BYTES : Z := 240.
Definition MIN_TERMINAL_COLS : Z := 20.
Definition MAX_TERMINAL_COLS : Z := 240.
Definition MIN_TERMINAL_ROWS : Z := 5.
Definition MAX_TERMINAL_ROWS : Z := 120.
Definition MIN_TERMINAL_IDLE_TIMEOUT_SECS : Z := 10.
Definition MAX_TERMINAL_IDLE_TIMEOUT_SECS : Z := 86400.
Definition MIN_TERMINAL_FLOW_WINDOW_BYTES : Z := 4 * 1024.
Definition MAX_TERMINAL_FLOW_WINDOW_BYTES : Z := 1024 * 1024.
Definition NETWORK_SPEED_TEST_MIN_DURATION_SECS : Z := 1.
Definition NETWORK_SPEED_TEST_MAX_DURATION_SECS : Z := 30.
Definition NETWORK_SPEED_TEST_MIN_MAX_BYTES : Z := 16 * 1024.
Definition NETWORK_SPEED_TEST_MAX_MAX_BYTES : Z := 256 * 1024 * 1024.
Definition NETWORK_SPEED_TEST_UNLIMITED_MAX_BYTES : Z := 0.
Definition NETWORK_SPEED_TEST_MIN_RATE_LIMIT_KBPS : Z := 64.
Definition NETWORK_SPEED_TEST_MAX_RATE_LIMIT_KBPS : Z := 1000000.
Definition NETWORK_SPEED_TEST_UNLIMITED_RATE_LIMIT_KBPS : Z := 0.
Definition NETWORK_SPEED_TEST_MIN_PORT : Z := 1024.
Definition NETWORK_SPEED_TEST_MAX_PORT : Z := 65535.
Definition NETWORK_SPEED_TEST_MIN_CONNECT_TIMEOUT_MS : Z := 100.
Definition NETWORK_SPEED_TEST_MAX_CONNECT_TIMEOUT_MS : Z := 30000.
Definition NETWORK_TRAFFIC_IMPORT_MAX_INTERFACES : Z := 16.

(** * Text *)

Definition has_nul (s : str) : bool := existsb (Z.eqb 0) (as_bytes s).

(** [s.ends_with(suffix)]. *)
Definition ends_with (s suffix : str) : bool := starts_with (rev s) (rev suffix).

(** [bytes().all(|b| b.is_ascii_alphanumeric() || extra.contains(b))]. *)
Definition all_bytes_in (extra s : str) : bool :=
  forallb (fun b => is_ascii_alphanumeric b || contains_char b extra) (as_bytes s).

Definition is_fixed_hex (value : str) (len : Z) : bool :=
  (str_len value =? len) && forallb is_ascii_hexdigit (as_bytes value).
Definition is_sha256_hex (value : str) : bool := is_fixed_hex value 64.
Definition validate_sha256_hex (value : str) (code : string) : admission :=
  if is_sha256_hex value then Ok tt else Err code.

Definition path_contains_dot_segment (path : str) : bool :=
  existsb (fun segment => str_eqb segment (lit ".") || str_eqb segment (lit "..")) (split 47 path).

(** * Targets *)

Definition invalid_target_id (id : str) : bool :=
  (200 <? str_len id) || existsb (fun c => is_control c || is_whitespace c) id.

(** The loop over the submitted ids: blank ones are skipped, repeated ones kept once. *)
Fixpoint normalize_ids (ids : list str) (raw : list str) : result string (list str) :=
  match raw with
  | [] => Ok ids
  | value :: raw =>
      let id := trim value in
      if is_empty id then normalize_ids ids raw
      else if invalid_target_id id then Err "target_client_id_invalid"%string
      else normalize_ids (if existsb (str_eqb id) ids then ids else ids ++ [id]) raw
  end.

Definition normalized_target_client_ids_allow_empty (raw : list str) : result string (list str) :=
  ids ← normalize_ids [] raw;
  reject_if (1000 <? vec_len ids) "too_many_fixed_targets"%string;; Ok ids.

Definition normalized_target_client_ids (raw : list str) : result string (list str) :=
  ids ← normalized_target_client_ids_allow_empty raw;
  reject_if (is_empty ids) "fixed_targets_required"%string;; Ok ids.

(** The selector of a fixed list of targets. *)
Definition fixed_target_selection (raw : list str) : result string str :=
  ids ← normalized_target_client_ids raw;
  Ok (join (lit " || ") (map id_selector_expression ids)).

(** * Files *)

Definition file_transfer_error (error : FileTransferValidationError) : string :=
  match error with
  | PathRequired => "file_path_required"
  | InvalidPath => "invalid_file_path"
  | PathMustBeAbsolute => "file_path_must_be_absolute"
  | InvalidMode => "invalid_file_mode"
  | TooLarge => "file_payload_too_large"
  | InvalidBase64 => "file_payload_invalid_base64"
  | SizeMismatch => "file_payload_size_mismatch"
  | InvalidSha256 => "file_payload_invalid_sha256"
  | HashMismatch => "file_payload_hash_mismatch"
  | InvalidChunks => "file_payload_invalid_chunks"
  | InvalidChunkOffset => "file_payload_invalid_chunk_offset"
  | ChunkTooLarge => "file_payload_chunk_too_large"
  | ChunkHashMismatch => "file_payload_chunk_hash_mismatch"
  | InvalidSessionId => "file_transfer_invalid_session_id"
  | InvalidResumeTokenHash => "file_transfer_invalid_resume_token_hash"
  | InvalidChunkSize => "file_transfer_invalid_chunk_size"
  | InvalidRateLimit => "file_transfer_invalid_rate_limit"
  | InvalidOffset => "file_transfer_invalid_offset"
  end.

(** [.map(|_| ()).map_err(file_transfer_error)]. *)
Definition file_check {A} (r : result FileTransferValidationError A) : admission :=
  map_err file_transfer_error r;; Ok tt.

Definition validate_file_path (path : str) : admission := file_check (validate_absolute_file_path path).

Definition validate_mutable_file_path (path : str) : admission :=
  validate_file_path path;;
  reject_if (str_eqb path (lit "/")) "file_path_refuses_root_mutation"%string.

Definition validate_file_list_dir (path : str) (limit : Z) : admission :=
  validate_file_path path;;
  reject_if ((limit =? 0) || (1000 <? limit)) "file_list_limit_out_of_range"%string.

Definition validate_file_read_text (path : str) (max_bytes : Z) : admission :=
  validate_file_path path;;
  reject_if ((max_bytes =? 0) || (MAX_INLINE_FILE_PUSH_BYTES <? max_bytes)) "file_read_max_bytes_out_of_range"%string.

Definition validate_file_mkdir (path : str) (mode : Z) : admission :=
  validate_mutable_file_path path;; file_check (validate_file_mode mode).
Definition validate_file_rename (path new_path : str) : admission :=
  validate_mutable_file_path path;; validate_mutable_file_path new_path.
Definition validate_file_copy (path new_path : str) : admission :=
  validate_mutable_file_path path;; validate_mutable_file_path new_path.
Definition validate_file_chmod (path : str) (mode : Z) : admission :=
  validate_mutable_file_path path;; file_check (validate_file_mode mode).

Definition validate_file_download (path : str) (max_bytes : Z) : admission :=
  validate_file_path path;;
  reject_if ((max_bytes =? 0) || (MAX_DIRECT_FILE_DOWNLOAD_BYTES <? max_bytes))
    "file_download_max_bytes_out_of_range"%string.
Definition validate_file_archive_tar (path : str) (max_bytes : Z) : admission :=
  validate_file_path path;;
  reject_if ((max_bytes =? 0) || (MAX_DIRECT_FILE_DOWNLOAD_BYTES <? max_bytes))
    "file_archive_max_bytes_out_of_range"%string.

Definition invalid_owner_group_token (value : str) : bool :=
  let trimmed := trim value in
  is_empty trimmed || (128 <? str_len trimmed)
  || existsb (fun c => is_control c || (c =? 58) || (c =? 47)) trimmed.

Definition valid_owner_group_request (owner group : option str) (uid gid : option Z) : bool :=
  let owner := option_map trim owner in
  let group := option_map trim group in
  if default false (option_map invalid_owner_group_token group) then false
  else match owner with
       | None => true
       | Some owner =>
           match split_once 58 owner with
           | Some (owner_part, group_part) =>
               bool_decide (group = None) && bool_decide (uid = None) && bool_decide (gid = None)
               && negb (invalid_owner_group_token owner_part) && negb (invalid_owner_group_token group_part)
           | None => negb (invalid_owner_group_token owner)
           end
       end.

Definition validate_ownership_request (owner group : option str) (uid gid : option Z) : admission :=
  reject_if (negb (valid_owner_group_request owner group uid gid)) "invalid_owner_group"%string.

Section Files.
(** [payload_hash] and the base64 decoder. *)
Context (hash : list Z -> str) (b64_decode : str -> option (list Z)).

Definition validate_file_push (path : str) (mode size : Z) (sha data : str) : admission :=
  validate_mutable_file_path path;;
  file_check (validate_file_mode mode);;
  file_check (decode_inline_file_payload hash b64_decode data size sha).

Definition validate_chunked_file_push (path : str) (mode size : Z) (sha : str) (chunks : list FilePushChunk) :
  admission :=
  validate_mutable_file_path path;;
  file_check (validate_file_mode mode);;
  file_check (decode_chunked_file_payload hash b64_decode chunks size sha).

Definition validate_resumable_file_transfer_start (session_id : Z) (path : str) (mode size : Z) (sha : str)
    (chunk_size rate_limit : Z) (resume_token_hash : str) : admission :=
  validate_mutable_file_path path;;
  file_check (validate_file_transfer_session session_id path mode size sha chunk_size rate_limit resume_token_hash).

Definition validate_file_write_text (path : str) (mode size : Z) (sha content : str) (expected : option str)
    (create : bool) : admission :=
  validate_file_push path mode size sha content;;
  reject_if (negb create && bool_decide (expected = None)) "file_write_expected_sha256_required"%string;;
  match expected with Some expected => file_check (normalize_sha256_hex expected) | None => Ok tt end.

(** [None] for a command that is not about files. *)
Definition validate_file_command (command : JobCommand) : option admission :=
  match command with
  | FilePull path _ => Some (validate_file_path path)
  | FilePush path mode size sha data _ owner group uid gid _ =>
      Some (validate_file_push path mode size sha data;; validate_ownership_request owner group uid gid)
  | FilePushChunked path mode size sha chunks _ owner group uid gid _ =>
      Some (validate_chunked_file_push path mode size sha chunks;; validate_ownership_request owner group uid gid)
  | FileTransferStart session_id path mode size sha chunk_size rate_limit _ token =>
      Some (validate_resumable_file_transfer_start session_id path mode size sha chunk_size rate_limit token)
  | FileTransferChunk session_id offset chunk token =>
      Some (file_check (validate_file_transfer_chunk_request hash b64_decode session_id offset chunk token))
  | FileTransferCommit session_id token | FileTransferAbort session_id token =>
      Some (file_check (validate_file_transfer_session_token session_id token))
  | FileTransferDownloadStart session_id path chunk_size rate_limit _ token =>
      Some (file_check (validate_file_transfer_download_session session_id path chunk_size rate_limit token))
  | FileTransferDownloadChunk session_id offset max_bytes token =>
      Some (file_check (validate_file_transfer_download_chunk_request session_id offset max_bytes token))
  | FileStat path => Some (validate_file_path path)
  | FileListDir path _ limit _ => Some (validate_file_list_dir path limit)
  | FileReadText path max_bytes _ => Some (validate_file_read_text path max_bytes)
  | FileWriteText path mode size sha content expected create _ =>
      Some (validate_file_write_text path mode size sha content expected create)
  | FileMkdir path mode _ _ => Some (validate_file_mkdir path mode)
  | FileRename path new_path _ _ => Some (validate_file_rename path new_path)
  | FileDelete path _ _ => Some (validate_mutable_file_path path)
  | FileChmod path mode _ _ _ => Some (validate_file_chmod path mode)
  | FileChown path owner group uid gid _ _ _ =>
      Some (validate_file_path path;; validate_mutable_file_path path;;
            validate_ownership_request owner group uid gid)
  | FileCopy path new_path _ _ _ _ => Some (validate_file_copy path new_path)
  | FileDownload path max_bytes _ => Some (validate_file_download path max_bytes)
  | FileArchiveTar path max_bytes _ => Some (validate_file_archive_tar path max_bytes)
  | _ => None
  end.
End Files.

(** * Terminals *)

(** [part.is_empty() || part.len() > 4096 || part.contains('\0')]. *)
Definition invalid_argv_part (part : str) : bool := is_empty part || (4096 <? str_len part) || has_nul part.

(** [argv[0].starts_with('/')]; the callers have checked that there is a first part. *)
Definition program_is_absolute (argv : list str) : bool :=
  match argv with program :: _ => starts_with program (lit "/") | [] => false end.

Definition validate_terminal_argv (argv : list str) : admission :=
  reject_if (is_empty argv) "terminal_argv_required"%string;;
  reject_if (64 <? vec_len argv) "terminal_argv_too_large"%string;;
  reject_if (existsb invalid_argv_part argv) "terminal_argv_invalid"%string;;
  reject_if (negb (program_is_absolute argv)) "terminal_executable_must_be_absolute"%string.

Definition validate_terminal_session_id (session_id : Z) : admission :=
  reject_if (uuid_is_nil session_id) "terminal_session_id_invalid"%string.

Definition validate_terminal_user (user : str) : admission :=
  reject_if (is_empty user || (64 <? str_len user)) "terminal_user_invalid"%string;;
  reject_if (negb (all_bytes_in (lit "_-.") user)) "terminal_user_invalid"%string.

Definition validate_terminal_dimensions (cols rows : Z) : admission :=
  reject_if (negb (in_range MIN_TERMINAL_COLS MAX_TERMINAL_COLS cols)) "terminal_cols_out_of_range"%string;;
  reject_if (negb (in_range MIN_TERMINAL_ROWS MAX_TERMINAL_ROWS rows)) "terminal_rows_out_of_range"%string.

Definition validate_terminal_open (session_id : Z) (argv : list str) (cwd user : option str) (cols rows : Z)
    (idle_timeout_secs flow_window_bytes : Z) : admission :=
  validate_terminal_session_id session_id;;
  validate_terminal_argv argv;;
  match cwd with
  | Some cwd =>
      reject_if ((4096 <? str_len cwd) || negb (starts_with cwd (lit "/")) || has_nul cwd
                 || path_contains_dot_segment cwd) "terminal_cwd_invalid"%string
  | None => Ok tt
  end;;
  match user with Some user => validate_terminal_user user | None => Ok tt end;;
  validate_terminal_dimensions cols rows;;
  reject_if (negb (in_range MIN_TERMINAL_IDLE_TIMEOUT_SECS MAX_TERMINAL_IDLE_TIMEOUT_SECS idle_timeout_secs))
    "terminal_idle_timeout_secs_out_of_range"%string;;
  reject_if (negb (in_range MIN_TERMINAL_FLOW_WINDOW_BYTES MAX_TERMINAL_FLOW_WINDOW_BYTES flow_window_bytes))
    "terminal_flow_window_bytes_out_of_range"%string.

Definition validate_terminal_resize (session_id cols rows : Z) : admission :=
  validate_terminal_session_id session_id;; validate_terminal_dimensions cols rows.

(** A control character other than a line break or a tab. *)
Definition unprintable (c : char) : bool := is_control c && negb ((c =? 10) || (c =? 13) || (c =? 9)).

Definition validate_terminal_close (session_id : Z) (reason : option str) : admission :=
  validate_terminal_session_id session_id;;
  match reason with
  | Some reason =>
      reject_if ((MAX_TERMINAL_REASON_BYTES <? str_len reason) || existsb unprintable reason)
        "terminal_close_reason_invalid"%string
  | None => Ok tt
  end.

(** * Shells, processes, services *)

Definition validate_shell_script (script : str) : admission :=
  reject_if (is_empty (trim script)) "shell_script_is_empty"%string;;
  reject_if (MAX_SHELL_SCRIPT_BYTES <? str_len script) "shell_script_too_large"%string;;
  reject_if (existsb unprintable script) "shell_script_contains_control_character"%string.

Definition validate_process_name (name : str) : admission :=
  reject_if (is_empty name || (64 <? str_len name) || negb (all_bytes_in (lit "_-.") name))
    "invalid_process_name"%string.

Definition validate_process_policy (policy : ProcessRunPolicy) : admission :=
  reject_if (100 <? restart_max_retries policy) "process_restart_retries_out_of_range"%string;;
  reject_if (3600 <? restart_backoff_secs policy) "process_restart_backoff_secs_out_of_range"%string;;
  reject_if (negb (in_range 1 300 (graceful_stop_secs policy))) "process_graceful_stop_secs_out_of_range"%string.

(** An optional limit within its range. *)
Definition limit_within (lo hi : Z) (value : option Z) (code : string) : admission :=
  match value with Some value => reject_if (negb (in_range lo hi value)) code | None => Ok tt end.

Definition validate_process_limits (limits : ProcessResourceLimits) : admission :=
  limit_within (1024 * 1024) (1024 ^ 4) (memory_max_bytes limits) "process_memory_limit_out_of_range";;
  limit_within 1 65535 (pids_max limits) "process_pids_limit_out_of_range";;
  limit_within 16 1048576 (open_files_max limits) "process_open_files_limit_out_of_range";;
  limit_within 2 262144 (cpu_shares limits) "process_cpu_shares_limit_out_of_range".

Definition validate_process_env_entry (entry : str * str) : admission :=
  let '(key, value) := entry in
  reject_if (is_empty key || (128 <? str_len key) || negb (all_bytes_in (lit "_") key))
    "invalid_process_env_key"%string;;
  reject_if ((4096 <? str_len value) || has_nul value) "invalid_process_env_value"%string.

Definition validate_process_start (name : str) (argv : list str) (cwd : option str) (env : list (str * str))
    (policy : ProcessRunPolicy) (limits : ProcessResourceLimits) : admission :=
  validate_process_name name;;
  reject_if (is_empty argv) "process_argv_required"%string;;
  reject_if (64 <? vec_len argv) "process_argv_too_large"%string;;
  reject_if (existsb invalid_argv_part argv) "invalid_process_argv"%string;;
  reject_if (negb (program_is_absolute argv)) "process_executable_must_be_absolute"%string;;
  match cwd with
  | Some cwd =>
      reject_if ((4096 <? str_len cwd) || negb (starts_with cwd (lit "/")) || has_nul cwd)
        "invalid_process_cwd"%string
  | None => Ok tt
  end;;
  reject_if (32 <? vec_len env) "process_env_too_large"%string;;
  try_each validate_process_env_entry env;;
  validate_process_policy policy;;
  validate_process_limits limits.

Fixpoint service_name_chars (first : bool) (service : str) : bool :=
  match service with
  | [] => true
  | c :: service =>
      (is_ascii_alphanumeric c || (negb first && contains_char c (lit "._@:+-\"))) && service_name_chars false service
  end.

Definition validate_host_service_name (provider : HostServiceProvider) (service : str) : admission :=
  let service := trim service in
  reject_if (negb (negb (is_empty service) && (str_len service <=? 255) && service_name_chars true service))
    "host_service_name_invalid"%string;;
  match provider with
  | Systemd => reject_if (negb (ends_with service (lit ".service"))) "systemd_service_unit_suffix_required"%string
  | _ => Ok tt
  end.

Definition validate_observed_service_state (value : str) : admission :=
  let value := trim value in
  reject_if (is_empty value || (64 <? str_len value) || existsb (fun c => is_control c || is_whitespace c) value)
    "host_service_expected_state_invalid"%string.

(** A positive count up to a limit. *)
Definition limit_up_to (hi limit : Z) (code : string) : admission :=
  reject_if ((limit =? 0) || (hi <? limit)) code.

(** * Updates *)

Definition validate_update_agent (artifact_url sha : str) : admission :=
  reject_if (is_empty artifact_url || (2048 <? str_len artifact_url) || has_nul artifact_url)
    "invalid_update_artifact_url"%string;;
  reject_if (negb (starts_with artifact_url (lit "https://"))) "update_artifact_url_must_be_https"%string;;
  reject_if (negb (is_sha256_hex sha)) "invalid_update_sha256"%string.

Definition is_localhost_http_authority (rest : str) : bool :=
  let authority := fst (span (fun c => negb ((c =? 47) || (c =? 63))) rest) in
  if is_empty authority || contains_char 64 authority then false
  else
    let is_local host := str_eqb host (lit "localhost") || str_eqb host (lit "127.0.0.1") || str_eqb host (lit "::1") in
    match strip_prefix (lit "[") authority with
    | Some rest => match split_once 93 rest with Some (host, _) => is_local host | None => false end
    | None =>
        match rsplit_once 58 authority with
        | Some (host, _) => if contains_char 58 host then is_local authority else is_local host
        | None => is_local authority
        end
    end.

Definition validate_update_manifest_url (version_url : str) : admission :=
  reject_if (is_empty version_url || (2048 <? str_len version_url) || has_nul version_url)
    "invalid_update_manifest_url"%string;;
  if starts_with version_url (lit "https://") then Ok tt
  else match strip_prefix (lit "http://") version_url with
       | Some rest =>
           if is_localhost_http_authority rest then Ok tt else Err "update_manifest_url_http_must_be_localhost"%string
       | None =>
           match strip_prefix (lit "file://") version_url with
           | Some path =>
               if starts_with path (lit "/") then Ok tt else Err "update_manifest_url_file_must_be_absolute"%string
           | None => Err "update_manifest_url_must_be_https"%string
           end
       end.

(** * Backups *)

Definition validate_backup_operation (paths : list str) (include_config : bool) : admission :=
  reject_if (negb include_config && is_empty paths) "backup_scope_required"%string;;
  reject_if (MAX_BACKUP_PATHS <? vec_len paths) "backup_path_limit_exceeded"%string;;
  try_each validate_file_path paths.

Definition validate_post_restore_argv (argv : list str) : admission :=
  match argv with
  | [] => Ok tt
  | program :: _ =>
      reject_if (32 <? vec_len argv) "restore_post_restore_argv_too_long"%string;;
      reject_if (is_empty (trim program) || negb (starts_with program (lit "/")))
        "restore_post_restore_executable_invalid"%string;;
      reject_if (existsb invalid_argv_part argv) "restore_post_restore_argv_invalid"%string
  end.

(** An absolute path without dot segments. *)
Definition validate_dotless_path (code : string) (path : str) : admission :=
  reject_if (path_contains_dot_segment path) code;; validate_file_path path.

Definition validate_restore_operation (paths : list str) (include_config : bool)
    (destination_root archive_path : option str) (archive_size_bytes : option Z) (archive_sha256_hex : option str)
    (archive_transfer_session_id : Z) (post_restore_argv : list str) : admission :=
  reject_if (negb include_config && is_empty paths) "restore_scope_required"%string;;
  reject_if (MAX_RESTORE_PATHS <? vec_len paths) "restore_path_limit_exceeded"%string;;
  try_each (validate_dotless_path "restore_path_invalid") paths;;
  match destination_root with
  | Some root => validate_dotless_path "restore_destination_root_invalid" root
  | None => Ok tt
  end;;
  reject_if (include_config && bool_decide (destination_root = None)) "restore_config_requires_destination_root"%string;;
  reject_if (uuid_is_nil archive_transfer_session_id) "restore_archive_transfer_session_required"%string;;
  let archive_path := archive_path ≫= (fun path => let path := trim path in if is_empty path then None else Some path) in
  archive_path ← ok_or archive_path "restore_archive_path_required"%string;
  validate_dotless_path "restore_archive_path_invalid" archive_path;;
  size ← ok_or archive_size_bytes "restore_archive_size_required"%string;
  reject_if (size =? 0) "restore_archive_size_invalid"%string;;
  sha ← ok_or archive_sha256_hex "restore_archive_sha256_required"%string;
  validate_sha256_hex sha "restore_archive_sha256_invalid";;
  validate_post_restore_argv post_restore_argv.

Definition validate_rollback_file (file : RestoreRollbackFile) : admission :=
  reject_if (is_empty (trim (rf_archive_path file)) || (4096 <? str_len (rf_archive_path file)))
    "restore_rollback_archive_path_invalid"%string;;
  validate_dotless_path "restore_rollback_destination_path_invalid" (rf_destination_path file);;
  match rf_rollback_path file with
  | Some path => validate_dotless_path "restore_rollback_snapshot_path_invalid" path
  | None => Ok tt
  end;;
  reject_if (MAX_RESTORE_ROLLBACK_FILE_BYTES <? rf_restored_size_bytes file) "restore_rollback_size_invalid"%string;;
  reject_if (negb (is_sha256_hex (rf_restored_sha256_hex file))) "restore_rollback_sha256_invalid"%string.

Definition validate_restore_rollback_operation (restored_files : list RestoreRollbackFile) : admission :=
  reject_if (is_empty restored_files) "restore_rollback_files_required"%string;;
  reject_if (MAX_RESTORE_PATHS <? vec_len restored_files) "restore_rollback_file_limit_exceeded"%string;;
  try_each validate_rollback_file restored_files.

(** * Networks *)

Definition valid_network_traffic_import_selector (selector : str) : bool :=
  let prefix := match rev selector with 42 :: prefix => rev prefix | _ => selector end in
  negb (is_empty selector) && (str_len selector <=? 64) && all_bytes_in (lit "_-.:") prefix.

(** The sorted and deduplicated interfaces are counted, which is the number of distinct ones. *)
Definition validate_network_traffic_import_vnstat (now : Z) (interfaces : list str) (start_unix : Z) : admission :=
  reject_if (NETWORK_TRAFFIC_IMPORT_MAX_INTERFACES <? vec_len interfaces)
    "network_traffic_import_interface_count_out_of_range"%string;;
  let normalized := map trim interfaces in
  reject_if (existsb (fun interface => negb (valid_network_traffic_import_selector interface)) normalized)
    "network_traffic_import_interface_invalid"%string;;
  reject_if (negb (vec_len (remove_dups normalized) =? vec_len interfaces))
    "network_traffic_import_interface_duplicate"%string;;
  reject_if ((start_unix <? 60) || negb (start_unix mod 60 =? 0))
    "network_traffic_import_start_not_minute_aligned"%string;;
  reject_if (now - now mod 60 <=? start_unix) "network_traffic_import_start_not_in_past"%string.

Definition validate_routing_adapter_command (command : RuntimeTunnelCommand) : admission :=
  reject_if
    (is_empty (cmd_argv command) || (32 <? vec_len (cmd_argv command)) || negb (program_is_absolute (cmd_argv command))
     || existsb invalid_argv_part (cmd_argv command) || negb (in_range 1 120 (cmd_max_timeout_secs command))
     || negb (in_range 1024 (64 * 1024) (cmd_max_output_bytes command)))
    "network_routing_adapter_command_invalid"%string.

(** 64 hexadecimal digits of a definition's hash. *)
Definition valid_definition_hash (hash : str) : bool :=
  (str_len hash =? 64) && forallb is_ascii_hexdigit (as_bytes hash).

Section Network.
(** [Uuid::parse_str]. *)
Context (uuid_parse : str -> option Z).

Definition validate_network_plan_side (plan : TunnelPlan) (side : TunnelEndpointSide) (invalid_error : string) :
  admission :=
  map_err (fun _ => "network_runtime_control_invalid"%string)
    (validate_runtime_tunnel_control (fun s => bool_decide (is_Some (uuid_parse s))) (plan_runtime_control plan));;
  map_err (fun _ => "network_runtime_topology_invalid"%string)
    (validate_runtime_topology_intent (plan_runtime_topology plan) (plan_interface_name plan));;
  map_err (fun _ => invalid_error) (render_tunnel_endpoint_config plan side);; Ok tt.

Definition validate_network_diagnostic_plan_id (plan_id : str) : admission :=
  ok_or (uuid_parse plan_id) "network_diagnostic_plan_id_invalid"%string;; Ok tt.

Definition validate_runtime_adapter_snapshot (adapter : RuntimeTunnelAdapterCommands) (traffic_limit_required : bool) :
  admission :=
  ok_or (uuid_parse (ta_definition_id adapter)) "network_status_adapter_definition_id_invalid"%string;;
  reject_if
    (is_empty (trim (ta_definition_name adapter)) || negb (valid_definition_hash (ta_definition_hash adapter))
     || (bool_decide (ta_startup adapter = None) && bool_decide (ta_restart adapter = None))
     || (bool_decide (ta_stop adapter = None) && bool_decide (ta_cleanup adapter = None))
     || (traffic_limit_required && bool_decide (ta_traffic_limit_apply adapter = None)))
    "network_status_adapter_snapshot_invalid"%string;;
  validate_routing_adapter_command (ta_status adapter);;
  try_each validate_routing_adapter_command
    (omap id [ta_startup adapter; ta_stop adapter; ta_cleanup adapter; ta_restart adapter;
              ta_traffic_limit_apply adapter]).

Definition validate_network_status_operation (plan : TunnelPlan) (side : TunnelEndpointSide)
    (adapter : option RuntimeTunnelAdapterCommands) : admission :=
  validate_network_plan_side plan side "network_status_plan_invalid";;
  let control := plan_runtime_control plan in
  match rc_manager control with
  | CustomAdapter =>
      adapter ← ok_or adapter "network_status_adapter_snapshot_required"%string;
      let expected :=
        match side with
        | SideLeft => rc_left_adapter_definition_id control
        | SideRight => rc_right_adapter_definition_id control
        end in
      reject_if (negb (bool_decide (expected = Some (ta_definition_id adapter))))
        "network_status_adapter_binding_mismatch"%string;;
      validate_runtime_adapter_snapshot adapter (negb (limit_is_default (rc_traffic_limit control)))
  | AgentBuiltin | ExternalObserved =>
      reject_if (match adapter with Some _ => true | None => false end)
        "network_status_adapter_snapshot_forbidden"%string
  end.

Definition validate_network_routing_adapter_operation (plan_id : str) (plan : TunnelPlan) (side : TunnelEndpointSide)
    (adapter : RoutingCostAdapterCommands) (desired_cost : option Z) : admission :=
  ok_or (uuid_parse plan_id) "network_routing_plan_id_invalid"%string;;
  validate_network_plan_side plan side "network_routing_plan_invalid";;
  ospf ← ok_or (plan_ospf plan) "network_routing_ospf_disabled"%string;
  let expected :=
    match side with
    | SideLeft => ospf_left_adapter_definition_id ospf
    | SideRight => ospf_right_adapter_definition_id ospf
    end in
  reject_if (negb (bool_decide (expected = Some (ra_definition_id adapter))))
    "network_routing_adapter_binding_mismatch"%string;;
  reject_if (negb (valid_definition_hash (ra_definition_hash adapter))) "network_routing_adapter_hash_invalid"%string;;
  validate_routing_adapter_command (ra_status adapter);;
  validate_routing_adapter_command (ra_update adapter);;
  reject_if (bool_decide (desired_cost = Some 0)) "network_routing_cost_invalid"%string.

Definition validate_network_probe_operation (plan : TunnelPlan) (side : TunnelEndpointSide) (count interval_ms : Z) :
  admission :=
  validate_network_plan_side plan side "network_probe_plan_invalid";;
  reject_if (negb (in_range 1 20 count)) "network_probe_count_out_of_range"%string;;
  reject_if (negb (in_range 200 10000 interval_ms)) "network_probe_interval_ms_out_of_range"%string.

Definition validate_network_speed_test_operation (plan : TunnelPlan) (server_side : TunnelEndpointSide)
    (duration_secs max_bytes rate_limit_kbps port connect_timeout_ms : Z) : admission :=
  validate_network_plan_side plan server_side "network_speed_test_plan_invalid";;
  reject_if (negb (in_range NETWORK_SPEED_TEST_MIN_DURATION_SECS NETWORK_SPEED_TEST_MAX_DURATION_SECS duration_secs))
    "network_speed_test_duration_secs_out_of_range"%string;;
  reject_if (negb (max_bytes =? NETWORK_SPEED_TEST_UNLIMITED_MAX_BYTES)
             && negb (in_range NETWORK_SPEED_TEST_MIN_MAX_BYTES NETWORK_SPEED_TEST_MAX_MAX_BYTES max_bytes))
    "network_speed_test_max_bytes_out_of_range"%string;;
  reject_if (negb (rate_limit_kbps =? NETWORK_SPEED_TEST_UNLIMITED_RATE_LIMIT_KBPS)
             && negb (in_range NETWORK_SPEED_TEST_MIN_RATE_LIMIT_KBPS NETWORK_SPEED_TEST_MAX_RATE_LIMIT_KBPS
                        rate_limit_kbps))
    "network_speed_test_rate_limit_kbps_out_of_range"%string;;
  reject_if (negb (in_range NETWORK_SPEED_TEST_MIN_PORT NETWORK_SPEED_TEST_MAX_PORT port))
    "network_speed_test_port_out_of_range"%string;;
  reject_if (negb (in_range NETWORK_SPEED_TEST_MIN_CONNECT_TIMEOUT_MS NETWORK_SPEED_TEST_MAX_CONNECT_TIMEOUT_MS
                     connect_timeout_ms))
    "network_speed_test_connect_timeout_ms_out_of_range"%string.
End Network.

(** * Commands *)

Section Commands.
Context (hash : list Z -> str) (b64_decode : str -> option (list Z)) (uuid_parse : str -> option Z) (now : Z).

Definition validate_runtime_config_sync (desired_version : Z) (reason : str) (config : AgentRuntimeConfig) :
  admission :=
  reject_if ((desired_version =? 0) || negb (rcfg_version config =? desired_version))
    "runtime_config_version_invalid"%string;;
  reject_if (is_empty (trim reason) || (MAX_RUNTIME_CONFIG_REASON_BYTES <? str_len reason) || existsb is_control reason)
    "runtime_config_reason_invalid"%string.

(** The commands that are not about files. *)
Definition validate_other_command (command : JobCommand) : option admission :=
  match command with
  | Shell argv _ =>
      Some (reject_if (is_empty argv) "argv_command_is_empty"%string;;
            reject_if (existsb is_empty argv) "argv_contains_empty_part"%string)
  | ShellScript script => Some (validate_shell_script script)
  | TerminalOpen session_id argv cwd user _ cols rows _ idle_timeout_secs flow_window_bytes =>
      Some (validate_terminal_open session_id argv cwd user cols rows idle_timeout_secs flow_window_bytes)
  | FilePull _ _ | FilePush _ _ _ _ _ _ _ _ _ _ _ | FilePushChunked _ _ _ _ _ _ _ _ _ _ _ |
    FileTransferStart _ _ _ _ _ _ _ _ _ | FileTransferChunk _ _ _ _ | FileTransferCommit _ _ |
    FileTransferAbort _ _ | FileTransferDownloadStart _ _ _ _ _ _ | FileTransferDownloadChunk _ _ _ _ |
    FileStat _ | FileListDir _ _ _ _ | FileReadText _ _ _ | FileWriteText _ _ _ _ _ _ _ _ |
    FileMkdir _ _ _ _ | FileRename _ _ _ _ | FileDelete _ _ _ | FileChmod _ _ _ _ _ |
    FileChown _ _ _ _ _ _ _ _ | FileCopy _ _ _ _ _ _ | FileDownload _ _ _ | FileArchiveTar _ _ _ => None
  | UserSessions => Some (Ok tt)
  | ProcessList limit => Some (limit_up_to 512 limit "process_list_limit_out_of_range")
  | StorageInventory _ limit => Some (limit_up_to 2048 limit "storage_inventory_limit_out_of_range")
  | ProcessStart name argv cwd env policy limits => Some (validate_process_start name argv cwd env policy limits)
  | ProcessStop name | ProcessRestart name => Some (validate_process_name name)
  | ProcessStatus name => Some (match name with Some name => validate_process_name name | None => Ok tt end)
  | ProcessLogs name max_bytes =>
      Some (validate_process_name name;; limit_up_to (512 * 1024) max_bytes "process_logs_max_bytes_out_of_range")
  | ServiceInventory _ limit => Some (limit_up_to 1024 limit "service_inventory_limit_out_of_range")
  | ServiceAction provider service _ expected_active_state expected_enabled_state =>
      Some (validate_host_service_name provider service;;
            validate_observed_service_state expected_active_state;;
            validate_observed_service_state expected_enabled_state)
  | ServiceLogs provider service max_lines =>
      Some (validate_host_service_name provider service;;
            limit_up_to 2000 max_lines "service_logs_line_limit_out_of_range")
  | PackageUpdatePlan _ _ => Some (Ok tt)
  | PackageUpdateApply _ plan_hash => Some (validate_sha256_hex plan_hash "package_update_plan_hash_invalid")
  | ConfigRead => Some (Ok tt)
  | RuntimeConfigSync desired_version reason config => Some (validate_runtime_config_sync desired_version reason config)
  | UpdateAgent artifact_url sha => Some (validate_update_agent artifact_url sha)
  | AgentUpdateActivate sha _ => Some (validate_sha256_hex sha "agent_update_activate_sha256_invalid")
  | AgentUpdateRollback sha =>
      Some (match sha with
            | Some sha => validate_sha256_hex sha "agent_update_rollback_sha256_invalid"
            | None => Ok tt
            end)
  | AgentUpdateCheck version_url _ _ =>
      Some (match version_url with Some url => validate_update_manifest_url url | None => Ok tt end)
  | AgentStop | AgentRestart => Some (Ok tt)
  | Backup paths include_config _ _ => Some (validate_backup_operation paths include_config)
  | Restore _ session_id paths include_config destination_root archive_path size sha _ post_restore_argv =>
      Some (validate_restore_operation paths include_config destination_root archive_path size sha session_id
              post_restore_argv)
  | RestoreRollback _ restored_files => Some (validate_restore_rollback_operation restored_files)
  | NetworkStatus plan_id plan side adapter =>
      Some (validate_network_diagnostic_plan_id uuid_parse plan_id;;
            validate_network_status_operation uuid_parse plan side adapter)
  | NetworkInterfaces => Some (Ok tt)
  | NetworkTrafficImportVnstat interfaces start_unix =>
      Some (validate_network_traffic_import_vnstat now interfaces start_unix)
  | NetworkProbe plan_id plan side count interval_ms =>
      Some (validate_network_diagnostic_plan_id uuid_parse plan_id;;
            validate_network_probe_operation uuid_parse plan side count interval_ms)
  | NetworkSpeedTest plan_id plan server_side duration_secs max_bytes rate_limit_kbps port connect_timeout_ms =>
      Some (validate_network_diagnostic_plan_id uuid_parse plan_id;;
            validate_network_speed_test_operation uuid_parse plan server_side duration_secs max_bytes rate_limit_kbps
              port connect_timeout_ms)
  | NetworkRoutingStatus plan_id plan side adapter =>
      Some (validate_network_routing_adapter_operation uuid_parse plan_id plan side adapter None)
  | NetworkRoutingApply plan_id plan side adapter _ desired_cost =>
      Some (validate_network_routing_adapter_operation uuid_parse plan_id plan side adapter (Some desired_cost))
  end.

Definition validate_job_command (command : JobCommand) : option admission :=
  match validate_file_command hash b64_decode command with
  | Some result => Some result
  | None => validate_other_command command
  end.

(** The parts of a [CreateJobRequest] that admission reads. *)
Record CreateJobRequest := mkCreateJob {
  job_target_client_ids : list str;
  job_command_text : str;
  job_argv : list str;
  job_operation : option JobCommand;
}.

(** [None] is the [unreachable!] arm of the validation. *)
Definition job_command (request : CreateJobRequest) : option (result string JobCommand) :=
  let validated command := option_map (fun r : admission => r;; Ok command) (validate_job_command command) in
  match job_operation request with
  | Some command => validated command
  | None =>
      let argv :=
        if is_empty (job_argv request) then
          if is_empty (trim (job_command_text request)) then Err "command_required"%string
          else Ok [job_command_text request]
        else Ok (job_argv request) in
      match argv with
      | Err code => Some (Err code)
      | Ok argv =>
          if existsb is_empty argv then Some (Err "argv_contains_empty_part"%string)
          else validated (Shell argv false)
      end
  end.

Definition command_type_label (request : CreateJobRequest) : string :=
  match job_operation request with Some command => job_command_type_label command | None => "shell_argv" end.
End Commands.
