(* ===== verification/AgentRequestChecks.v ===== *)
(** The checks an agent's executors make of a command itself, alone or against the agent's id, working
    directory, PTY policy, archive limit and version URL; not what they read of the host, nor the programs
    the agent is configured to run (its shell, ping, the listing of sessions).  From
    crates/agent/src: supervisor_validation.rs, supervisor.rs, executor.rs and terminal.rs of
    execution/, host_services.rs, host_packages.rs and platform_accounts.rs of host/, network_speed.rs,
    network_probe.rs, network_status.rs, network_routing_adapter.rs and network_traffic_import.rs of
    network/, backup.rs, restore.rs, restore_rollback.rs, update.rs and update_activation.rs of
    lifecycle/, file_push.rs, file_pull.rs, file_download.rs and file_browser.rs of files/.

    An [anyhow] error is its message without the values it prints, or the file-transfer or planning error
    it prints; the rejected status of a terminal is an error with its reason. *)

From S2P Require Import Prelude RustStd VpsDecimal Net FileTransfer TunnelModels NetworkPlanner JobCommands JobAdmission.

Open Scope Z_scope.

Inductive AgentError :=
| Message (text : string)
| FileError (error : FileTransferValidationError)
| EndpointError (error : NetworkPlanError)
| NotAddressed (operation : string) (endpoints : list str) (client_id : str).
Abbreviation checked := (result AgentError unit).

(** [anyhow::ensure!(c, text)]. *)
Definition ensure (c : bool) (text : string) : checked := guard_err c (Message text).

Definition file_result {A} (r : result FileTransferValidationError A) : checked := map_err FileError r;; Ok tt.

(** [Path::new(_).is_absolute()]. *)
Definition is_absolute (path : str) : bool := starts_with path (lit "/").

(** The [ParentDir] and [CurDir] components of [Path::components]: a dot segment other than the
    first is skipped. *)
Definition has_unsafe_component (path : str) : bool :=
  match split 47 path with
  | [] => false
  | first :: rest => str_eqb first (lit ".") || existsb (fun segment => str_eqb segment (lit "..")) (first :: rest)
  end.

(** [std::str::from_utf8(_).is_ok()]. *)
Definition is_continuation (byte : Z) : bool := in_range 128 191 byte.

(** The second byte of a sequence of three: neither an overlong form nor a surrogate. *)
Definition second_of_three (first second : Z) : bool :=
  if first =? 224 then in_range 160 191 second
  else if first =? 237 then in_range 128 159 second
  else is_continuation second.

(** The second byte of a sequence of four: neither an overlong form nor above the last scalar. *)
Definition second_of_four (first second : Z) : bool :=
  if first =? 240 then in_range 144 191 second
  else if first =? 244 then in_range 128 143 second
  else is_continuation second.

Fixpoint is_utf8 (bytes : list Z) : bool :=
  match bytes with
  | [] => true
  | first :: rest =>
      if first <? 128 then is_utf8 rest
      else match rest with
           | [] => false
           | second :: rest =>
               if in_range 194 223 first then is_continuation second && is_utf8 rest
               else match rest with
                    | [] => false
                    | third :: rest =>
                        if in_range 224 239 first
                        then second_of_three first second && is_continuation third && is_utf8 rest
                        else match rest with
                             | [] => false
                             | fourth :: rest =>
                                 in_range 240 244 first && second_of_four first second && is_continuation third
                                 && is_continuation fourth && is_utf8 rest
                             end
                    end
           end
  end.

(** What of the agent's configuration its executors compare a command with. *)
Record Agent := mkAgent {
  own_client_id : str;
  own_working_directory : option str;
  pty_disabled : bool;
  own_max_archive_bytes : Z;
  unmanaged_version_url : str;
}.

(** * Processes *)

Definition agent_process_name (name : str) : checked :=
  ensure (negb (is_empty name) && (str_len name <=? 64) && all_bytes_in (lit "_-.") name) "invalid process name".

Definition valid_argv_part (part : str) : bool := negb (is_empty part) && (str_len part <=? 4096) && negb (has_nul part).

Definition agent_process_argv (argv : list str) : checked :=
  ensure (negb (is_empty argv)) "process argv is empty";;
  ensure (vec_len argv <=? 64) "process argv has too many parts";;
  try_each (fun part => ensure (valid_argv_part part) "invalid process argv part") argv;;
  ensure (is_absolute (default [] (head argv))) "process executable must be an absolute path".

Definition agent_process_cwd (cwd : option str) : checked :=
  match cwd with
  | Some cwd =>
      ensure (is_absolute cwd && (str_len cwd <=? 4096) && negb (has_nul cwd)) "process cwd must be an absolute path"
  | None => Ok tt
  end.

Definition agent_process_env (env : list (str * str)) : checked :=
  ensure (vec_len env <=? 32) "process env has too many entries";;
  try_each (fun '(key, value) =>
    ensure (negb (is_empty key) && (str_len key <=? 128) && all_bytes_in (lit "_") key) "invalid process env key";;
    ensure ((str_len value <=? 4096) && negb (has_nul value)) "invalid process env value") env.

Definition agent_process_policy (policy : ProcessRunPolicy) : checked :=
  ensure (restart_max_retries policy <=? 100) "process restart retry budget is out of range";;
  ensure (restart_backoff_secs policy <=? 3600) "process restart backoff is out of range";;
  ensure (in_range 1 300 (graceful_stop_secs policy)) "process graceful stop timeout is out of range".

Definition agent_limit (lo hi : Z) (value : option Z) (text : string) : checked :=
  match value with Some value => ensure (in_range lo hi value) text | None => Ok tt end.

Definition agent_process_limits (limits : ProcessResourceLimits) : checked :=
  agent_limit (1024 * 1024) (1024 ^ 4) (memory_max_bytes limits) "process memory limit is out of range";;
  agent_limit 1 65535 (pids_max limits) "process pid limit is out of range";;
  agent_limit 16 1048576 (open_files_max limits) "process open-files limit is out of range";;
  agent_limit 2 262144 (cpu_shares limits) "process cpu shares limit is out of range".

Definition process_start_checks (name : str) (argv : list str) (cwd : option str) (env : list (str * str))
    (policy : ProcessRunPolicy) (limits : ProcessResourceLimits) : checked :=
  agent_process_name name;; agent_process_argv argv;; agent_process_cwd cwd;; agent_process_env env;;
  agent_process_policy policy;; agent_process_limits limits.

(** * Shells and terminals *)

Definition agent_shell_script (script : str) : checked :=
  ensure (negb (is_empty (trim script))) "shell script is empty";;
  ensure (str_len script <=? MAX_SHELL_SCRIPT_BYTES) "shell script exceeds 16384 bytes";;
  ensure (negb (existsb unprintable script)) "shell script contains unsupported control characters".

Definition agent_terminal_argv (argv : list str) : checked :=
  ensure (negb (is_empty argv)) "terminal argv is empty";;
  ensure (is_absolute (default [] (head argv))) "terminal executable must be absolute";;
  ensure (negb (existsb (fun part => is_empty part || (4096 <? str_len part)) argv)) "terminal argv contains an invalid part".

Definition agent_terminal_cwd (cwd : option str) : checked :=
  match cwd with
  | Some cwd => ensure (negb ((4096 <? str_len cwd) || negb (is_absolute cwd))) "terminal cwd must be absolute and bounded"
  | None => Ok tt
  end.

Definition ensure_pty_allowed (agent : Agent) : checked :=
  ensure (negb (pty_disabled agent)) "execution PTY policy is disabled".

Definition shell_checks (agent : Agent) (argv : list str) (pty : bool) : checked :=
  ensure (negb (is_empty argv)) "argv command is empty";;
  if pty then ensure_pty_allowed agent else Ok tt.

Definition terminal_open_checks (agent : Agent) (argv : list str) (cwd : option str) : checked :=
  ensure (negb (pty_disabled agent)) "execution_pty_policy_disabled";;
  agent_terminal_argv argv;;
  agent_terminal_cwd (match cwd with Some cwd => Some cwd | None => own_working_directory agent end).

(** * Services *)

Definition is_portable_service_name (value : str) : bool :=
  negb (is_empty value) && (str_len value <=? 255) && service_name_chars true value.

Definition service_name_check (provider : HostServiceProvider) (service : str) : checked :=
  ensure (negb (negb (is_portable_service_name service)
                || match provider with Systemd => negb (ends_with service (lit ".service")) | _ => false end))
    "host_service_name_invalid".

(** * Networks *)

Definition validate_speed_test_budget (duration_secs max_bytes rate_limit_kbps port connect_timeout_ms : Z) : checked :=
  ensure (in_range NETWORK_SPEED_TEST_MIN_DURATION_SECS NETWORK_SPEED_TEST_MAX_DURATION_SECS duration_secs)
    "network speed test duration is out of range";;
  ensure ((max_bytes =? NETWORK_SPEED_TEST_UNLIMITED_MAX_BYTES)
          || in_range NETWORK_SPEED_TEST_MIN_MAX_BYTES NETWORK_SPEED_TEST_MAX_MAX_BYTES max_bytes)
    "network speed test max bytes is out of range";;
  ensure ((rate_limit_kbps =? NETWORK_SPEED_TEST_UNLIMITED_RATE_LIMIT_KBPS)
          || in_range NETWORK_SPEED_TEST_MIN_RATE_LIMIT_KBPS NETWORK_SPEED_TEST_MAX_RATE_LIMIT_KBPS rate_limit_kbps)
    "network speed test rate limit is out of range";;
  ensure (in_range NETWORK_SPEED_TEST_MIN_PORT NETWORK_SPEED_TEST_MAX_PORT port) "network speed test port is out of range";;
  ensure (in_range NETWORK_SPEED_TEST_MIN_CONNECT_TIMEOUT_MS NETWORK_SPEED_TEST_MAX_CONNECT_TIMEOUT_MS connect_timeout_ms)
    "network speed test connect timeout is out of range".

Definition validate_adapter_command (command : RuntimeTunnelCommand) : checked :=
  ensure (negb (is_empty (cmd_argv command) || (32 <? vec_len (cmd_argv command))))
    "routing adapter argv must contain 1 to 32 entries";;
  ensure (is_absolute (default [] (head (cmd_argv command)))) "routing adapter executable must be absolute";;
  ensure (negb (existsb invalid_argv_part (cmd_argv command))) "routing adapter argv contains an invalid entry";;
  ensure (in_range 1 120 (cmd_max_timeout_secs command)) "routing adapter timeout must be between 1 and 120 seconds";;
  ensure (in_range 1024 (64 * 1024) (cmd_max_output_bytes command))
    "routing adapter output limit must be between 1024 and 65536 bytes".

Definition validate_adapter_snapshot (adapter : RoutingCostAdapterCommands) : checked :=
  ensure (negb (is_empty (trim (ra_definition_id adapter)) || (128 <? str_len (ra_definition_id adapter))))
    "routing adapter definition id is invalid";;
  ensure (negb (is_empty (trim (ra_definition_name adapter)) || (160 <? str_len (ra_definition_name adapter))))
    "routing adapter definition name is invalid";;
  ensure (valid_definition_hash (ra_definition_hash adapter)) "routing adapter definition hash is invalid";;
  validate_adapter_command (ra_status adapter);;
  validate_adapter_command (ra_update adapter).

(** [render_tunnel_endpoint_config(plan, side)?]. *)
Definition rendered_endpoint (plan : TunnelPlan) (side : TunnelEndpointSide) : result AgentError TunnelEndpointConfig :=
  map_err EndpointError (render_tunnel_endpoint_config plan side).

(** The endpoint of a plan's side, which is this agent's. *)
Definition own_endpoint (agent : Agent) (operation : string) (plan : TunnelPlan) (side : TunnelEndpointSide) : checked :=
  endpoint ← rendered_endpoint plan side;
  guard_err (str_eqb (e_local_client_id endpoint) (own_client_id agent))
    (NotAddressed operation [e_local_client_id endpoint] (own_client_id agent)).

Definition routing_checks (agent : Agent) (plan : TunnelPlan) (side : TunnelEndpointSide)
    (adapter : RoutingCostAdapterCommands) : checked :=
  validate_adapter_snapshot adapter;; own_endpoint agent "routing adapter" plan side.

Definition server_tunnel_address (plan : TunnelPlan) (side : TunnelEndpointSide) : str :=
  match side with SideLeft => plan_left_tunnel_address plan | SideRight => plan_right_tunnel_address plan end.

Definition ip_addr (address : str) : checked :=
  ensure (bool_decide (is_Some (parse_ip_addr address))) "invalid speed-test IP address".

(** Both roles read the server's tunnel address and the peer's; whether the address of a link-local
    tunnel has an interface is the host's answer. *)
Definition speed_test_checks (agent : Agent) (plan : TunnelPlan) (server_side : TunnelEndpointSide)
    (duration_secs max_bytes rate_limit_kbps port connect_timeout_ms : Z) : checked :=
  validate_speed_test_budget duration_secs max_bytes rate_limit_kbps port connect_timeout_ms;;
  endpoint ← rendered_endpoint plan server_side;
  guard_err (str_eqb (own_client_id agent) (e_local_client_id endpoint)
             || str_eqb (own_client_id agent) (e_peer_client_id endpoint))
    (NotAddressed "network speed test" [e_local_client_id endpoint; e_peer_client_id endpoint] (own_client_id agent));;
  ip_addr (server_tunnel_address plan server_side);;
  ip_addr (e_remote_tunnel_address endpoint).

Definition validate_request_at (interfaces : list str) (start_unix now_unix : Z) : checked :=
  let current_minute := now_unix - now_unix mod 60 in
  ensure (vec_len interfaces <=? NETWORK_TRAFFIC_IMPORT_MAX_INTERFACES)
    "network traffic import interface count is out of range";;
  let normalized := map trim interfaces in
  ensure (forallb valid_network_traffic_import_selector normalized) "network traffic import contains an invalid interface";;
  ensure (vec_len (remove_dups normalized) =? vec_len interfaces) "network traffic import interfaces must be unique";;
  ensure ((60 <=? start_unix) && (start_unix mod 60 =? 0)) "network traffic import start must be UTC-minute aligned";;
  ensure (start_unix <? current_minute) "network traffic import start must be before the current minute".

(** * Backups *)

Definition validate_backup_scope (paths : list str) (include_config : bool) : checked :=
  ensure (vec_len paths <=? MAX_BACKUP_PATHS) "backup path limit exceeded";;
  ensure (negb (negb include_config && is_empty paths)) "backup scope is empty";;
  try_each (fun path => file_result (validate_absolute_file_path path)) paths.

(** [validate_safe_absolute_path] of restore.rs. *)
Definition validate_restore_path (path : str) : checked :=
  ensure (negb (path_contains_dot_segment path)) "restore path contains unsafe path segment";;
  file_result (validate_absolute_file_path path);;
  ensure (negb (has_unsafe_component path)) "restore path contains unsafe path segment".

Definition validate_restore_scope (paths : list str) (include_config : bool) (destination_root : option str) : checked :=
  ensure (negb (negb include_config && is_empty paths)) "restore scope is empty";;
  try_each validate_restore_path paths;;
  match destination_root with Some root => validate_restore_path root | None => Ok tt end;;
  ensure (negb (include_config && bool_decide (destination_root = None))) "config restore requires destination root".

(** [archive_bytes_from_source] up to the archive itself. *)
Definition archive_source_checks (agent : Agent) (path : option str) (size : option Z) (sha : option str) : checked :=
  path ← ok_or path (Message "restore archive path is required");
  validate_restore_path path;;
  size ← ok_or size (Message "restore archive size is required");
  ok_or sha (Message "restore archive sha256 is required");;
  ensure (0 <? size) "restore archive size must be positive";;
  ensure (size <=? own_max_archive_bytes agent) "restore archive exceeds configured limit".

Definition agent_post_restore_argv (argv : list str) : checked :=
  match argv with
  | [] => Ok tt
  | program :: _ =>
      ensure (vec_len argv <=? 32) "post-restore argv has too many entries";;
      ensure (is_absolute program) "post-restore executable must be absolute";;
      try_each (fun part => ensure (valid_argv_part part) "post-restore argv contains invalid part") argv
  end.

(** [validate_safe_absolute_path] of restore_rollback.rs. *)
Definition validate_rollback_path (path : str) : checked :=
  file_result (validate_absolute_file_path path);;
  ensure (negb (has_unsafe_component path)) "restore path contains unsafe path segment".

Definition rollback_checks (restored_files : list RestoreRollbackFile) : checked :=
  ensure (negb (is_empty restored_files)) "restore rollback files are required";;
  try_each (fun file =>
    validate_rollback_path (rf_destination_path file);;
    match rf_rollback_path file with Some path => validate_rollback_path path | None => Ok tt end) restored_files.

(** * Files *)

Definition validate_browser_path (path : str) : checked := file_result (validate_absolute_file_path path).

Definition validate_mutable_path (path : str) : checked :=
  validate_browser_path path;; ensure (negb (str_eqb path (lit "/"))) "refusing to mutate filesystem root".

Definition validate_file_push_request (path : str) (mode : Z) : checked :=
  file_result (validate_absolute_file_path path);;
  ensure (negb (str_eqb path (lit "/"))) "refusing to write filesystem root";;
  file_result (validate_file_mode mode).

(** [transfer_session_paths]: [Path::components] without the root, whose last one is the file's
    name unless it is a parent. *)
Definition normal_components (path : str) : list str :=
  List.filter (fun segment => negb (is_empty segment || str_eqb segment (lit "."))) (split 47 path).

Definition transfer_path_checks (path : str) : checked :=
  file_result (validate_absolute_file_path path);;
  ensure (negb (str_eqb path (lit "/"))) "refusing to write filesystem root";;
  ensure (negb (is_empty (normal_components path))) "file transfer destination has no parent directory";;
  ensure (negb (str_eqb (default [] (last (normal_components path))) (lit "..")))
    "file transfer destination has no file name".

Definition trimmed_nonempty (value : option str) : option str :=
  value ≫= (fun value => let value := trim value in if is_empty value then None else Some value).

Record OwnershipTokens := mkTokens { token_owner : option str; token_group : option str }.

Definition normalize_ownership_tokens (owner group : option str) (uid gid : option Z) : result AgentError OwnershipTokens :=
  let owner := trimmed_nonempty owner in
  let group := trimmed_nonempty group in
  match owner ≫= split_once 58 with
  | Some (owner_part, group_part) =>
      ensure (bool_decide (group = None) && bool_decide (uid = None) && bool_decide (gid = None))
        "owner:group must not be combined with separate owner/group ids";;
      let owner_part := trim owner_part in
      let group_part := trim group_part in
      ensure (negb (is_empty owner_part || is_empty group_part || contains_char 58 group_part))
        "owner:group requires exactly one owner and one group";;
      Ok (mkTokens (Some owner_part) (Some group_part))
  | None => Ok (mkTokens owner group)
  end.

Definition ownership_checks (owner group : option str) (uid gid : option Z) : checked :=
  normalize_ownership_tokens owner group uid gid;; Ok tt.

(** * Updates *)

Definition agent_sha256 (text : string) (value : str) : checked :=
  let value := to_ascii_lowercase (trim value) in
  ensure ((str_len value =? 64) && forallb is_ascii_hexdigit (as_bytes value)) text.

Inductive ArtifactScheme := ArtifactFile | ArtifactHttps | ArtifactHttpLocalDev.

Record ParsedArtifactUrl := mkArtifactUrl {
  artifact_scheme : ArtifactScheme;
  artifact_host : str;
  artifact_port : Z;
  artifact_path_and_query : str;
}.

Definition default_port (scheme : ArtifactScheme) : Z :=
  match scheme with ArtifactFile => 0 | ArtifactHttps => 443 | ArtifactHttpLocalDev => 80 end.

(** [text.parse::<u16>()]. *)
Definition authority_port (text : str) : result AgentError Z :=
  ok_or (parse_unsigned 65535 text) (Message "invalid update artifact URL port").

Definition parse_authority (authority : str) (scheme : ArtifactScheme) : result AgentError (str * Z) :=
  match strip_prefix (lit "[") authority with
  | Some rest =>
      '(host, suffix) ← ok_or (split_once 93 rest) (Message "invalid bracketed IPv6 update artifact URL host");
      port ← (if is_empty suffix then Ok (default_port scheme)
              else port ← ok_or (strip_prefix (lit ":") suffix) (Message "invalid bracketed IPv6 update artifact URL port");
                   authority_port port);
      Ok (host, port)
  | None =>
      '(host, port) ← match rsplit_once 58 authority with
                      | Some (host, port) =>
                          if contains_char 58 host then Ok (authority, default_port scheme)
                          else port ← authority_port port; Ok (host, port)
                      | None => Ok (authority, default_port scheme)
                      end;
      ensure (negb (is_empty (trim host))) "update artifact URL host is empty";;
      Ok (host, port)
  end.

Definition is_localhost (host : str) : bool := one_of host ["localhost"; "127.0.0.1"; "::1"]%string.

Definition parse_http_artifact_url (scheme : ArtifactScheme) (rest : str) : result AgentError ParsedArtifactUrl :=
  let '(authority, suffix) := span (fun c => negb ((c =? 47) || (c =? 63))) rest in
  ensure (negb (is_empty authority || contains_char 64 authority)) "update artifact URL authority is invalid";;
  '(host, port) ← parse_authority authority scheme;
  ensure (negb (match scheme with ArtifactHttpLocalDev => negb (is_localhost host) | _ => false end))
    "http:// update artifacts are allowed only for localhost development";;
  Ok (mkArtifactUrl scheme host port
        (if is_empty suffix then lit "/" else if starts_with suffix (lit "?") then lit "/" ++ suffix else suffix)).

Definition parse_artifact_url (url : str) : result AgentError ParsedArtifactUrl :=
  let trimmed := trim url in
  ensure (negb (contains_char 35 trimmed)) "update artifact URL fragments are not supported";;
  match strip_prefix (lit "file://") trimmed with
  | Some path =>
      ensure (starts_with path (lit "/")) "file update artifact URL requires an absolute path";;
      Ok (mkArtifactUrl ArtifactFile [] 0 path)
  | None =>
      match strip_prefix (lit "https://") trimmed with
      | Some rest => parse_http_artifact_url ArtifactHttps rest
      | None =>
          match strip_prefix (lit "http://") trimmed with
          | Some rest => parse_http_artifact_url ArtifactHttpLocalDev rest
          | None => Err (Message "update artifact URL must use https://")
          end
      end
  end.

(** What is checked of a URL before it is handed to the HTTP client or the file is read. *)
Definition artifact_url_checks (url : str) : checked := parse_artifact_url url;; Ok tt.

(** * The checks of each executor *)

Section Executors.
Context (hash : list Z -> str) (b64_decode : str -> option (list Z)).
Context (agent : Agent) (now : Z).

Definition file_write_text_checks (path : str) (mode size : Z) (sha content : str) (expected : option str)
    (create : bool) : checked :=
  ensure (create || bool_decide (is_Some expected))
    "file write expected hash is required when replacing an existing file";;
  validate_mutable_path path;;
  file_result (validate_file_mode mode);;
  data ← map_err FileError (decode_inline_file_payload hash b64_decode content size sha);
  ensure (is_utf8 data) "file write text content is not UTF-8".

(** The checks of the executor of each command.  Inventories and reads clamp their limits and refuse
    nothing; a configuration snapshot is not the executors' but the main task's. *)
Definition request_checks (command : JobCommand) : checked :=
  match command with
  | Shell argv pty => shell_checks agent argv pty
  | ShellScript script => agent_shell_script script
  | TerminalOpen _ argv cwd _ _ _ _ _ _ _ => terminal_open_checks agent argv cwd
  | ProcessStart name argv cwd env policy limits => process_start_checks name argv cwd env policy limits
  | ProcessStop name | ProcessRestart name | ProcessLogs name _ => agent_process_name name
  | ProcessStatus name => match name with Some name => agent_process_name name | None => Ok tt end
  | FilePull path _ | FileStat path | FileListDir path _ _ _ | FileReadText path _ _ | FileArchiveTar path _ _
  | FileDownload path _ _ =>
      validate_browser_path path
  | FilePush path mode size sha data _ owner group uid gid _ =>
      validate_file_push_request path mode;; file_result (decode_inline_file_payload hash b64_decode data size sha);;
      ownership_checks owner group uid gid
  | FilePushChunked path mode size sha chunks _ owner group uid gid _ =>
      validate_file_push_request path mode;; file_result (decode_chunked_file_payload hash b64_decode chunks size sha);;
      ownership_checks owner group uid gid
  | FileWriteText path mode size sha content expected create _ =>
      file_write_text_checks path mode size sha content expected create
  | FileMkdir path mode _ _ => validate_browser_path path;; file_result (validate_file_mode mode)
  | FileRename path new_path _ _ | FileCopy path new_path _ _ _ _ =>
      validate_mutable_path path;; validate_mutable_path new_path
  | FileDelete path _ _ => validate_mutable_path path
  | FileChmod path mode _ _ _ => validate_mutable_path path;; file_result (validate_file_mode mode)
  | FileChown path owner group uid gid _ _ _ => validate_mutable_path path;; ownership_checks owner group uid gid
  | FileTransferStart session_id path mode size sha chunk_size rate_limit _ token =>
      file_result (validate_file_transfer_session session_id path mode size sha chunk_size rate_limit token);;
      transfer_path_checks path
  | FileTransferChunk session_id offset chunk token =>
      file_result (validate_file_transfer_session_token session_id token);;
      ensure (offset =? FileTransfer.offset chunk) "file transfer chunk offset does not match command offset"
  | FileTransferCommit session_id token | FileTransferAbort session_id token =>
      file_result (validate_file_transfer_session_token session_id token)
  | FileTransferDownloadStart session_id path chunk_size rate_limit _ token =>
      file_result (validate_file_transfer_download_session session_id path chunk_size rate_limit token)
  | FileTransferDownloadChunk session_id offset max_bytes token =>
      file_result (validate_file_transfer_download_chunk_request session_id offset max_bytes token)
  | ServiceAction provider service _ _ _ | ServiceLogs provider service _ => service_name_check provider service
  | Backup paths include_config _ _ => validate_backup_scope paths include_config
  | Restore _ _ paths include_config destination_root archive_path size sha _ post_restore_argv =>
      validate_restore_scope paths include_config destination_root;; agent_post_restore_argv post_restore_argv;;
      archive_source_checks agent archive_path size sha
  | RestoreRollback _ restored_files => rollback_checks restored_files
  | UpdateAgent artifact_url sha =>
      agent_sha256 "sha256_hex must be 64 lowercase or uppercase hex characters" sha;; artifact_url_checks artifact_url
  | AgentUpdateActivate sha _ => agent_sha256 "sha256 must be 64 lowercase or uppercase hex characters" sha
  | AgentUpdateRollback sha =>
      match sha with
      | Some sha => agent_sha256 "sha256 must be 64 lowercase or uppercase hex characters" sha
      | None => Ok tt
      end
  | AgentUpdateCheck version_url _ _ => artifact_url_checks (trim (default (unmanaged_version_url agent) version_url))
  | PackageUpdateApply _ plan_hash => agent_sha256 "package_update_plan_hash_invalid" plan_hash
  | NetworkStatus _ plan side _ => own_endpoint agent "network status" plan side
  | NetworkProbe _ plan side _ _ => own_endpoint agent "network probe" plan side
  | NetworkTrafficImportVnstat interfaces start_unix => validate_request_at interfaces start_unix now
  | NetworkSpeedTest _ plan server_side duration_secs max_bytes rate_limit_kbps port connect_timeout_ms =>
      speed_test_checks agent plan server_side duration_secs max_bytes rate_limit_kbps port connect_timeout_ms
  | NetworkRoutingStatus _ plan side adapter | NetworkRoutingApply _ plan side adapter _ _ =>
      routing_checks agent plan side adapter
  | ConfigRead | UserSessions | ProcessList _ | StorageInventory _ _ | ServiceInventory _ _ | PackageUpdatePlan _ _
  | NetworkInterfaces | AgentStop | AgentRestart =>
      Ok tt
  | RuntimeConfigSync _ _ _ => Err (Message "runtime config sync must run on the main agent task")
  end.
End Executors.

(** * What the checks accept

    The UTF-8 encoding of every text, the digests of the API, plain artifact URLs, paths with a
    file name, the owners the API admits. *)

(** * UTF-8 *)

(** A Unicode scalar value: a [char]. *)
Definition scalar (c : char) : Prop := 0 <= c < 55296 \/ 57344 <= c < 1114112.

Ltac utf8_tests :=
  repeat match goal with
  | |- context [in_range ?lo ?hi ?x] =>
      let H := fresh in
      first [assert (H : in_range lo hi x = true) by (unfold in_range; apply andb_true_intro; split; apply Z.leb_le; lia)
            |assert (H : in_range lo hi x = false) by (unfold in_range; apply andb_false_iff; rewrite !Z.leb_gt; lia)];
      rewrite H; clear H
  | |- context [?x =? ?y] => destruct (Z.eqb_spec x y); try lia
  end.

Lemma utf8_char_accepted c bytes : scalar c -> is_utf8 (utf8_char c ++ bytes) = is_utf8 bytes.
Proof.
  intros Hc. unfold utf8_char, scalar in *.
  destruct (Z.ltb_spec c 128) as [|H1]; [|destruct (Z.ltb_spec c 2048) as [|H2]; [|destruct (Z.ltb_spec c 65536) as [|H3]]].
  all: cbn [app is_utf8].
  - by rewrite (proj2 (Z.ltb_lt c 128)).
  - rewrite (proj2 (Z.ltb_ge (192 + c / 64) 128)) by (Z.div_mod_to_equations; lia).
    unfold is_continuation. assert (2 <= c / 64 < 32) by (Z.div_mod_to_equations; lia).
    assert (0 <= c mod 64 < 64) by (Z.div_mod_to_equations; lia). by utf8_tests.
  - rewrite (proj2 (Z.ltb_ge (224 + c / 4096) 128)) by (Z.div_mod_to_equations; lia).
    unfold second_of_three, is_continuation. assert (0 <= c / 4096 < 16) by (Z.div_mod_to_equations; lia).
    assert (0 <= c mod 64 < 64) by (Z.div_mod_to_equations; lia).
    assert (0 <= (c / 64) mod 64 < 64) by (Z.div_mod_to_equations; lia).
    assert (c / 4096 = 0 -> 32 <= (c / 64) mod 64) by (Z.div_mod_to_equations; lia).
    assert (c / 4096 = 13 -> (c / 64) mod 64 < 32) by (Z.div_mod_to_equations; lia). by utf8_tests.
  - rewrite (proj2 (Z.ltb_ge (240 + c / 262144) 128)) by (Z.div_mod_to_equations; lia).
    unfold second_of_four, is_continuation. assert (0 <= c / 262144 < 5) by (Z.div_mod_to_equations; lia).
    assert (0 <= c mod 64 < 64) by (Z.div_mod_to_equations; lia).
    assert (0 <= (c / 64) mod 64 < 64) by (Z.div_mod_to_equations; lia).
    assert (0 <= (c / 4096) mod 64 < 64) by (Z.div_mod_to_equations; lia).
    assert (c / 262144 = 0 -> 16 <= (c / 4096) mod 64) by (Z.div_mod_to_equations; lia).
    assert (c / 262144 = 4 -> (c / 4096) mod 64 < 16) by (Z.div_mod_to_equations; lia). by utf8_tests.
Qed.

(** The encoding of a text is UTF-8. *)
Lemma is_utf8_as_bytes text : Forall scalar text -> is_utf8 (as_bytes text) = true.
Proof.
  intros H. induction H as [|c text Hc _ IH]; [done|]. change (as_bytes (c :: text)) with (utf8_char c ++ as_bytes text).
  by rewrite utf8_char_accepted.
Qed.

(** * Digests *)

Lemma hexdigit_range c : is_ascii_hexdigit c = true -> 48 <= c <= 57 \/ 65 <= c <= 70 \/ 97 <= c <= 102.
Proof. unfold is_ascii_hexdigit, is_ascii_digit, in_range. rewrite !orb_true_iff, !andb_true_iff, !Z.leb_le. lia. Qed.

Lemma hexdigit_intro c : 48 <= c <= 57 \/ 65 <= c <= 70 \/ 97 <= c <= 102 -> is_ascii_hexdigit c = true.
Proof. unfold is_ascii_hexdigit, is_ascii_digit, in_range. rewrite !orb_true_iff, !andb_true_iff, !Z.leb_le. lia. Qed.

Lemma hex_bytes_hex value : forallb is_ascii_hexdigit (as_bytes value) = true ->
  Forall (fun c => is_ascii_hexdigit c = true) value.
Proof.
  induction value as [|c value IH]; [constructor|]. change (as_bytes (c :: value)) with (utf8_char c ++ as_bytes value).
  rewrite forallb_app. intros [Hc Hv]%andb_prop. constructor; [|by apply IH]. revert Hc. unfold utf8_char.
  destruct (Z.ltb_spec c 128); [cbn; by rewrite andb_true_r|].
  destruct (Z.ltb_spec c 2048); [|destruct (Z.ltb_spec c 65536)]; cbn [forallb]; intros [Hx%hexdigit_range _]%andb_prop;
    exfalso; Z.div_mod_to_equations; lia.
Qed.

Lemma sha256_accepted text value : is_sha256_hex value = true -> agent_sha256 text value = Ok tt.
Proof.
  unfold is_sha256_hex, is_fixed_hex, agent_sha256. intros [Hl Hh]%andb_prop. pose proof (hex_bytes_hex _ Hh) as Hv.
  assert (Ht : trim value = value).
  { apply trim_no_ws. eapply Forall_impl; [exact Hv|]. cbn beta. intros c Hc%hexdigit_range.
    unfold is_whitespace, in_range. apply not_true_iff_false. rewrite !orb_true_iff, !andb_true_iff, !Z.leb_le, !Z.eqb_eq. lia. }
  cbv zeta. rewrite Ht.
  assert (Hlow : Forall (fun c => is_ascii_hexdigit c = true) (to_ascii_lowercase value)).
  { apply Forall_map. eapply Forall_impl; [exact Hv|]. cbn beta. intros c Hc%hexdigit_range.
    apply hexdigit_intro. unfold lower, is_ascii_uppercase, in_range.
    destruct (Z.leb_spec 65 c), (Z.leb_spec c 90); cbn [andb]; lia. }
  assert (Hb : forall s, Forall (fun c => is_ascii_hexdigit c = true) s -> as_bytes s = s).
  { intros s Hs. apply as_bytes_ascii. eapply Forall_impl; [exact Hs|]. cbn beta. intros c Hc%hexdigit_range. lia. }
  rewrite (Hb _ Hlow). unfold str_len in *. rewrite (Hb _ Hlow). rewrite (Hb _ Hv) in Hl.
  unfold to_ascii_lowercase at 1. rewrite length_map, Hl. unfold ensure. cbn [andb].
  by rewrite (proj2 (forallb_forall _ _) (proj1 (List.Forall_forall _ _) Hlow)).
Qed.

(** * Artifact URLs *)

(** A character of a host name. *)
Definition host_char (c : char) : bool := is_ascii_alphabetic c || is_ascii_digit c || (c =? 45) || (c =? 46).

(** What follows the host name: nothing, or a port. *)
Definition port_part (text : str) : Prop :=
  text = [] \/ exists port, text = 58 :: to_string port /\ 0 <= port <= 65535.

(** An https URL with a host name, a port or none, and a path or a query or none, without fragment and
    white space. *)
Definition plain_artifact_url (url : str) : Prop :=
  exists host port path, url = lit "https://" ++ host ++ port ++ path
  /\ host <> [] /\ Forall (fun c => host_char c = true) host /\ port_part port
  /\ (path = [] \/ head path = Some 47 \/ head path = Some 63)
  /\ Forall (fun c => c <> 35 /\ is_whitespace c = false) path.

Lemma host_char_range c : host_char c = true -> 65 <= c <= 90 \/ 97 <= c <= 122 \/ 48 <= c <= 57 \/ c = 45 \/ c = 46.
Proof.
  unfold host_char, is_ascii_alphabetic, is_ascii_uppercase, is_ascii_lowercase, is_ascii_digit, in_range.
  rewrite !orb_true_iff, !andb_true_iff, !Z.leb_le, !Z.eqb_eq. lia.
Qed.

Lemma not_whitespace c : 33 <= c <= 126 -> is_whitespace c = false.
Proof.
  intros Hc. unfold is_whitespace, in_range. apply not_true_iff_false.
  rewrite !orb_true_iff, !andb_true_iff, !Z.leb_le, !Z.eqb_eq. lia.
Qed.

Lemma host_not_in c host : Forall (fun c => host_char c = true) host -> host_char c = false -> c ∉ host.
Proof. intros Hh Hc Hin. rewrite Forall_forall in Hh. rewrite (Hh _ Hin) in Hc. done. Qed.

Lemma port_chars text : port_part text -> Forall (fun c => 48 <= c <= 57 \/ c = 58) text.
Proof.
  intros [->|(port & -> & Hp)]; constructor; [by right|]. pose proof (to_string_spec port) as Hs.
  destruct Hs as (Hd & _); [lia|]. apply all_digits_Forall in Hd. eapply Forall_impl; [exact Hd|]. cbn beta. lia.
Qed.

Lemma rsplit_once_last c l r : c ∉ r -> rsplit_once c (l ++ c :: r) = Some (l, r).
Proof.
  intros Hr. unfold rsplit_once. rewrite rev_app_distr. cbn [rev]. rewrite <- app_assoc. cbn [app].
  rewrite (proj2 (split_once_spec c _ (rev r) (rev l))); [cbn; by rewrite !rev_involutive|].
  split; [done|]. by rewrite list_elem_of_In, <- in_rev, <- list_elem_of_In.
Qed.

Lemma rsplit_once_none c s : c ∉ s -> rsplit_once c s = None.
Proof.
  intros Hs. unfold rsplit_once. rewrite (proj2 (split_once_None c (rev s))); [done|].
  by rewrite list_elem_of_In, <- in_rev, <- list_elem_of_In.
Qed.

Lemma plain_authority scheme host port :
  host <> [] -> Forall (fun c => host_char c = true) host -> port_part port ->
  exists number, parse_authority (host ++ port) scheme = Ok (host, number).
Proof.
  intros Hne Hh Hp. unfold parse_authority. destruct host as [|c host]; [done|].
  assert (Hc : (91 =? c) = false).
  { apply Z.eqb_neq. apply Forall_cons in Hh as [Hc%host_char_range _]. lia. }
  cbn [lit app strip_prefix]. change (lit "[") with [91]. cbn [strip_prefix app]. rewrite Hc.
  assert (Hcolon : 58 ∉ c :: host) by (by apply host_not_in).
  assert (Ht : is_empty (trim (c :: host)) = false).
  { rewrite trim_no_ws; [done|]. eapply Forall_impl; [exact Hh|]. cbn beta. intros x Hx%host_char_range.
    apply not_whitespace. lia. }
  destruct Hp as [->|(number & -> & Hn)].
  - rewrite app_nil_r, rsplit_once_none by done. cbn [mbind]. eexists. cbv beta iota delta [mbind result_bind].
    rewrite Ht. done.
  - change (c :: (host ++ 58 :: to_string number)) with ((c :: host) ++ 58 :: to_string number).
    rewrite rsplit_once_last.
    + rewrite (contains_char_false 58) by done. unfold authority_port. rewrite parse_unsigned_to_string by lia.
      exists number. cbv beta iota delta [mbind result_bind ok_or]. rewrite Ht. done.
    + apply digits_not_in; [|lia]. apply (to_string_spec number). lia.
Qed.

(** A plain URL is accepted. *)
Lemma plain_url_accepted url : plain_artifact_url url -> artifact_url_checks url = Ok tt.
Proof.
  intros (host & port & path & -> & Hne & Hh & Hp & Hhead & Hpath). unfold artifact_url_checks, parse_artifact_url.
  pose proof (port_chars _ Hp) as Hpc.
  assert (Hall : Forall (fun c => c <> 35 /\ is_whitespace c = false) (lit "https://" ++ host ++ port ++ path)).
  { apply Forall_app; split; [by repeat constructor|]. apply Forall_app; split; [|apply Forall_app; split; [|done]].
    - eapply Forall_impl; [exact Hh|]. cbn beta. intros c Hc%host_char_range. split; [lia|]. apply not_whitespace. lia.
    - eapply Forall_impl; [exact Hpc|]. cbn beta. intros c Hc. split; [lia|]. apply not_whitespace. lia. }
  rewrite trim_no_ws by (eapply Forall_impl; [exact Hall|]; by intros c [_ ?]).
  cbv zeta. rewrite contains_char_false by (intros Hin; rewrite Forall_forall in Hall; by destruct (Hall _ Hin)).
  change (strip_prefix (lit "file://") (lit "https://" ++ host ++ port ++ path)) with (@None str).
  change (strip_prefix (lit "https://") (lit "https://" ++ host ++ port ++ path)) with (Some (host ++ port ++ path)).
  unfold parse_http_artifact_url. rewrite (app_assoc host port path), (span_app _ (host ++ port) path).
  - assert (Hat : contains_char 64 (host ++ port) = false).
    { apply contains_char_false. intros [Hin|Hin]%elem_of_app; [by apply (host_not_in 64 host)|].
      rewrite Forall_forall in Hpc. specialize (Hpc _ Hin). lia. }
    destruct (plain_authority ArtifactHttps host port Hne Hh Hp) as [number Hn].
    rewrite Hat, Hn. by destruct host.
  - apply Forall_app; split.
    + eapply Forall_impl; [exact Hh|]. cbn beta. intros c Hc%host_char_range.
      apply negb_true_iff, orb_false_iff. rewrite !Z.eqb_neq. lia.
    + eapply Forall_impl; [exact Hpc|]. cbn beta. intros c Hc. apply negb_true_iff, orb_false_iff. rewrite !Z.eqb_neq. lia.
  - intros c Hc. destruct Hhead as [->|[H|H]]; [done|rewrite H in Hc; by injection Hc as <-..].
Qed.

Lemma plain_url_trimmed url : plain_artifact_url url -> trim url = url.
Proof.
  intros (host & port & path & -> & _ & Hh & Hp & _ & Hpath). apply trim_no_ws. pose proof (port_chars _ Hp) as Hpc.
  apply Forall_app; split; [by repeat constructor|]. apply Forall_app; split; [|apply Forall_app; split].
  - eapply Forall_impl; [exact Hh|]. cbn beta. intros c Hc%host_char_range. apply not_whitespace. lia.
  - eapply Forall_impl; [exact Hpc|]. cbn beta. intros c Hc. apply not_whitespace. lia.
  - eapply Forall_impl; [exact Hpath|]. by intros c [_ ?].
Qed.

(** * Paths and owners *)

(** A path with a character other than a slash. *)
Definition names_a_file (path : str) : Prop := exists c, c ∈ path /\ c <> 47.

Lemma split_keeps c x s : x ∈ s -> x <> c -> exists w, w ∈ split c s /\ x ∈ w.
Proof.
  intros Hin Hne. induction s as [|a s IH]; [by apply not_elem_of_nil in Hin|]. cbn [split].
  apply elem_of_cons in Hin as [<-|Hin].
  - destruct (Z.eqb_spec x c); [done|]. destruct (split c s) as [|w ws]; eexists; (split; [by left|by left]).
  - destruct (IH Hin) as (w & Hw & Hx). destruct (a =? c); [exists w; split; [by right|done]|].
    destruct (split c s) as [|w' ws]; [by apply not_elem_of_nil in Hw|]. apply elem_of_cons in Hw as [->|Hw].
    + exists (a :: w'). split; [by left|by right].
    + exists w. split; [by right|done].
Qed.

Lemma transfer_path_accepted path :
  validate_absolute_file_path path = Ok tt -> names_a_file path -> transfer_path_checks path = Ok tt.
Proof.
  intros Hv (c & Hc & Hne). unfold transfer_path_checks. rewrite Hv. cbn [file_result map_err mbind result_bind].
  destruct (split_keeps 47 c path Hc Hne) as (w & Hw & Hcw).
  unfold validate_absolute_file_path in Hv. repeat case_match; simplify_eq.
  match goal with E : existsb _ (split 47 path) = false |- _ => rename E into Hdots end.
  assert (Hdot : forall s, s ∈ split 47 path -> s <> lit "." /\ s <> lit "..").
  { intros s Hs. apply not_true_iff_false in Hdots. split; intros ->; apply Hdots, existsb_exists;
      eexists; (split; [by apply list_elem_of_In|done]). }
  assert (Hnc : w ∈ normal_components path).
  { unfold normal_components. apply list_elem_of_In, filter_In. split; [by apply list_elem_of_In|].
    apply negb_true_iff, orb_false_iff. split; [by destruct w; [apply not_elem_of_nil in Hcw|]|].
    apply str_eqb_neq. by apply Hdot. }
  assert (Hroot : str_eqb path (lit "/") = false).
  { apply str_eqb_neq. intros ->. by apply (list_elem_of_singleton c 47) in Hc. }
  rewrite Hroot. cbn [negb]. destruct (normal_components path) as [|x l] eqn:E; [by apply not_elem_of_nil in Hnc|].
  assert (Hl : str_eqb (default [] (last (x :: l))) (lit "..") = false).
  { destruct (last (x :: l)) as [y|] eqn:El; [|done]. cbn [default]. apply str_eqb_neq. apply Hdot.
    apply last_Some_elem_of in El. rewrite <- E in El. unfold normal_components in El.
    apply list_elem_of_In, filter_In in El as [El _]. by apply list_elem_of_In. }
  by rewrite Hl.
Qed.

Lemma valid_token value : invalid_owner_group_token value = false ->
  is_empty (trim value) = false /\ contains_char 58 (trim value) = false.
Proof.
  unfold invalid_owner_group_token. cbv zeta. intros [[He _]%orb_false_iff Hc]%orb_false_iff. split; [done|].
  apply contains_char_false. intros Hin. apply not_true_iff_false in Hc. apply Hc, existsb_exists. exists 58.
  split; [by apply list_elem_of_In|done].
Qed.

(** The owners the API admits are those the agent reads. *)
Lemma ownership_accepted owner group uid gid u :
  validate_ownership_request owner group uid gid = Ok u -> ownership_checks owner group uid gid = Ok tt.
Proof.
  unfold validate_ownership_request, valid_owner_group_request, ownership_checks, normalize_ownership_tokens. cbv zeta.
  intros H. destruct owner as [owner|]; [|done]. cbn [option_map] in H.
  destruct (default false _) eqn:Hg in H; [done|].
  assert (Ho : trimmed_nonempty (Some owner) = Some (trim owner)).
  { unfold trimmed_nonempty. cbn. destruct (trim owner) eqn:E; [|done].
    by cbn in H. }
  rewrite Ho. cbn [mbind option_bind]. destruct (split_once 58 (trim owner)) as [[op gp]|] eqn:E; [|done].
  destruct group as [group|]; [by cbn in H|]. cbn in H. destruct uid, gid; try done. cbn in H.
  destruct (invalid_owner_group_token op) eqn:E1; [done|]. destruct (invalid_owner_group_token gp) eqn:E2; [done|].
  destruct (valid_token _ E1) as [H1 _], (valid_token _ E2) as [H2 H3]. by rewrite H1, H2, H3.
Qed.
