(* ===== verification/JobAdmissionProofs.v ===== *)
(** Theorems on the admission of jobs ([JobAdmission], [JobTargets]) and the checks agents
    repeat ([AgentRequestChecks]). *)

From S2P Require Import Prelude RustStd F64 Json VpsRules VpsDecimal FileTransfer Expression ExpressionParser ExpressionProofs ParserProofs ParserRoundtrip Net TunnelModels NetworkPlanner ConfigModels JobStatus JobCommands JobTargets JobAdmission AgentRequestChecks.

Open Scope Z_scope.

(** * The selector of a fixed list of targets *)

(** The tokens of words joined by [||]. *)
Definition or_tokens (words : list str) : list TokenKind := flat_map (fun w => [TOr; TWord w]) words.

Lemma tokenize_words input w ws :
  Forall (fun w => plain_word w = true) (w :: ws) ->
  let text := join (lit " || ") (w :: ws) in
  tokenize_go input (length text) text = Some (Ok (TWord w :: or_tokens ws)).
Proof.
  revert w; induction ws as [|w' ws IH]; intros w Hw text.
  - apply Forall_cons in Hw as [Hw _]. subst text. cbn [join]. destruct w as [|c w]; [done|].
    apply (tokenize_cons _ _ _ [TWord (c :: w)] [] []); [|done].
    pose proof (plain_word_step input c w [] Hw I) as Hs. by rewrite app_nil_r in Hs.
  - apply Forall_cons in Hw as [Hw Hws]. specialize (IH w' Hws). cbv zeta in IH.
    subst text. set (rest := join (lit " || ") (w' :: ws)) in *.
    change (join (lit " || ") (w :: w' :: ws)) with (w ++ 32 :: 124 :: 124 :: 32 :: rest).
    destruct w as [|c w]; [done|]. cbn [app].
    apply (tokenize_cons _ _ _ [TWord (c :: w)] (32 :: 124 :: 124 :: 32 :: rest)); [by apply plain_word_step|].
    apply (tokenize_cons _ _ _ [] (124 :: 124 :: 32 :: rest)); [done|].
    apply (tokenize_cons _ _ _ [TOr] (32 :: rest)); [done|].
    by apply (tokenize_cons _ _ _ [] rest).
Qed.

Section Words.
Context (regex_new : str -> result str unit).

Lemma word_operand d w p rest :
  parse_bare_word true w = Ok p -> follow_and rest ->
  eventually (fun f => parse_and regex_new true f d (TWord w :: rest)) (Ok (Pred p, rest)).
Proof.
  intros Hp Hr.
  apply (eventually_step _ (fun f => andthen (parse_not regex_new true f d (TWord w :: rest)) (and_loop regex_new true f d)));
    [done|].
  eapply eventually_andthen; [|by apply and_loop_stops].
  apply (eventually_step _ (fun f => parse_primary regex_new true f (d + 1) (TWord w :: rest))).
  { intros f. rewrite not_step; [done|by left]. }
  apply (eventually_step _ (fun _ => Some (predicate_rest ← parse_predicate regex_new true w rest;
    Ok (Pred (fst predicate_rest), snd predicate_rest)))); [done|].
  rewrite (bare_follow regex_new true w p rest Hp (follow_weaken rest Hr)). apply eventually_const.
Qed.

Lemma words_loop d e ws ps :
  Forall2 (fun w p => parse_bare_word true w = Ok p) ws ps ->
  eventually (fun f => or_loop regex_new true f d e (or_tokens ws)) (Ok (foldl (fun l p => Or l (Pred p)) e ps, [])).
Proof.
  intros Hws. revert e. induction Hws as [|w p ws ps Hw Hws IH]; intros e; [by apply or_loop_stops|].
  cbn [or_tokens flat_map app foldl].
  apply (eventually_step _ (fun f => andthen (parse_and regex_new true f d (TWord w :: or_tokens ws))
    (fun r rest => or_loop regex_new true f d (Or e r) rest))); [done|].
  eapply (eventually_andthen _ (fun f r rest => or_loop regex_new true f d (Or e r) rest)); [|apply IH].
  apply word_operand; [done|]. by destruct ws.
Qed.

Lemma parse_words w p ws ps :
  Forall (fun w => plain_word w = true) (w :: ws) ->
  parse_bare_word true w = Ok p -> Forall2 (fun w p => parse_bare_word true w = Ok p) ws ps ->
  let e := foldl (fun l p => Or l (Pred p)) (Pred p) ps in
  validate_expression e = Ok tt ->
  parse_expression regex_new (join (lit " || ") (w :: ws)) = Some (Ok (Some e)).
Proof.
  intros Hplain Hp Hps e Hv. unfold parse_expression, parse_expression_with_aliases, tokenize.
  rewrite (tokenize_words _ w ws Hplain). cbn [negb andb is_empty].
  rewrite (parse_fuel_enough regex_new true _ (Ok (e, []))); [by rewrite Hv|].
  apply (eventually_step _ (fun f => andthen (parse_and regex_new true f 0 (TWord w :: or_tokens ws))
    (or_loop regex_new true f 0))); [done|].
  eapply eventually_andthen; [apply word_operand; [done|by destruct ws]|by apply words_loop].
Qed.
End Words.

(** What the normalisation of the submitted ids guarantees of those it keeps. *)
Definition ids_ok (ids : list str) : Prop :=
  NoDup ids /\ Forall (fun id => id <> [] /\ trim id = id /\ invalid_target_id id = false) ids.

Lemma existsb_str_eqb id ids : existsb (str_eqb id) ids = true <-> id ∈ ids.
Proof.
  rewrite existsb_exists. split.
  - intros (x & Hx & E%str_eqb_eq). subst. by apply list_elem_of_In.
  - intros Hin. exists id. split; [by apply list_elem_of_In|apply str_eqb_refl].
Qed.

Lemma normalize_ids_ok raw ids out :
  normalize_ids ids raw = Ok out -> ids_ok ids ->
  ids_ok out /\ forall id, id ∈ out <-> id ∈ ids \/ (id <> [] /\ exists r, r ∈ raw /\ id = trim r).
Proof.
  revert ids; induction raw as [|value raw IH]; intros ids Hn Hok; cbn in Hn.
  { simplify_eq. split; [done|]. intros id. split; [by left|]. intros [?|(_ & r & Hr & _)]; [done|by apply not_elem_of_nil in Hr]. }
  destruct (is_empty (trim value)) eqn:Ee.
  { destruct (IH ids Hn Hok) as [Hout Hin]. split; [done|]. intros id. rewrite Hin. split; intros [?|(Hne & r & Hr & ->)]; auto.
    - right. split; [done|]. exists r. split; [by right|done].
    - apply elem_of_cons in Hr as [->|Hr]; [by destruct (trim value)|]. right. split; [done|]. by exists r. }
  destruct (invalid_target_id (trim value)) eqn:Ei; [done|].
  assert (ids_ok (if existsb (str_eqb (trim value)) ids then ids else ids ++ [trim value])) as Hok'.
  { destruct (existsb (str_eqb (trim value)) ids) eqn:Ex; [done|]. destruct Hok as [Hnd Hall]. split.
    - apply NoDup_app. split; [done|]. split; [|apply NoDup_singleton]. intros id Hid ->%list_elem_of_singleton.
      apply existsb_str_eqb in Hid. congruence.
    - apply Forall_app. split; [done|]. apply Forall_singleton. split; [by destruct (trim value)|].
      split; [apply trim_idemp|done]. }
  destruct (IH _ Hn Hok') as [Hout Hin]. split; [done|]. intros id. rewrite Hin.
  assert (id ∈ (if existsb (str_eqb (trim value)) ids then ids else ids ++ [trim value]) <-> id ∈ ids \/ id = trim value) as ->.
  { destruct (existsb (str_eqb (trim value)) ids) eqn:Ex.
    - apply existsb_str_eqb in Ex. split; [by left|]. by intros [?| ->].
    - by rewrite elem_of_app, list_elem_of_singleton. }
  split.
  - intros [[?| ->]|(Hne & r & Hr & ->)]; auto; right.
    + split; [by destruct (trim value)|]. exists value. split; [by left|done].
    + split; [done|]. exists r. split; [by right|done].
  - intros [?|(Hne & r & Hr & ->)]; auto. apply elem_of_cons in Hr as [->|Hr]; [by left; right|].
    right. split; [done|]. by exists r.
Qed.

Lemma normalized_ids_ok raw ids :
  normalized_target_client_ids raw = Ok ids ->
  ids_ok ids /\ ids <> [] /\ vec_len ids <= 1000 /\ forall id, id ∈ ids <-> id <> [] /\ exists r, r ∈ raw /\ id = trim r.
Proof.
  unfold normalized_target_client_ids, normalized_target_client_ids_allow_empty. intros H. inv_checks. simplify_eq.
  apply normalize_ids_ok in E1 as [Hok Hin]; [|split; constructor]. bools.
  split; [done|]. split; [by destruct ids|]. split; [lia|]. intros id. rewrite Hin.
  split; [intros [Hn|?]; [by apply not_elem_of_nil in Hn|done]|by right].
Qed.

(** The comparison an id stands for. *)
Definition id_predicate (id : str) : Predicate := Comparison (lit "vps.id") Eq (ScalarLiteral id).

Lemma ids_expression_valid e ids :
  validate_expression e = Ok tt ->
  validate_expression (foldl (fun l p => Or l (Pred p)) e (map id_predicate ids)) = Ok tt.
Proof.
  revert e; induction ids as [|id ids IH]; intros e He; [done|]. cbn [map foldl]. apply IH.
  cbn [validate_expression]. by rewrite He.
Qed.

Lemma ids_expression_matches re ts fs context vps e ids :
  ctx_vps context = Some vps -> Forall (fun id => has_wildcard id = false) ids ->
  expression_matches re ts fs context (foldl (fun l p => Or l (Pred p)) e (map id_predicate ids))
  = expression_matches re ts fs context e || existsb (eq_ignore_ascii_case (vps_id vps)) ids.
Proof.
  intros Hvps Hw. revert e; induction Hw as [|id ids Hid _ IH]; intros e; [cbn; by rewrite orb_false_r|].
  cbn [map foldl existsb]. rewrite IH. cbn [expression_matches]. unfold id_predicate.
  rewrite (id_comparison_matches _ _ _ _ vps) by done. by rewrite orb_assoc.
Qed.

(** C21: a fixed list of targets is sent to the resolver as a selector that selects exactly the
    listed ids: the kept ids are the distinct trimmed non-blank ones that were submitted, at most a
    thousand; and when they are words without wildcards the selector parses and matches a VPS exactly
    when its id is one of them (up to ASCII case), whatever else the context holds. *)
Theorem fixed_selection_exact regex_new re ts fs context vps raw ids :
  normalized_target_client_ids raw = Ok ids ->
  Forall (fun id => forallb word_char id = true /\ has_wildcard id = false) ids ->
  ctx_vps context = Some vps ->
  NoDup ids /\ (forall id, id ∈ ids <-> id <> [] /\ exists r, r ∈ raw /\ id = trim r) /\ vec_len ids <= 1000
  /\ exists text, fixed_target_selection raw = Ok text
     /\ parse_and_match_expression regex_new (expression_matches re ts fs context) text
        = Some (Ok (existsb (eq_ignore_ascii_case (vps_id vps)) ids)).
Proof.
  intros Hn Hplain Hvps. destruct (normalized_ids_ok raw ids Hn) as ((Hnd & Hok) & Hne & Hlen & Hin).
  split; [done|]. split; [done|]. split; [done|]. unfold fixed_target_selection. rewrite Hn. cbn [mbind result_bind].
  eexists. split; [done|].
  assert (map id_selector_expression ids = map (fun id => lit "id:" ++ id) ids) as ->.
  { apply map_ext_in. intros id Hid%list_elem_of_In. rewrite Forall_forall in Hok. destruct (Hok id Hid) as (_ & Ht & _).
    unfold id_selector_expression. by rewrite Ht. }
  destruct ids as [|id ids]; [done|]. clear Hn Hnd Hlen Hin Hne.
  pose proof (ids_expression_valid (Pred (id_predicate id)) ids eq_refl) as Hv.
  unfold parse_and_match_expression. cbn [map].
  rewrite (parse_words regex_new _ (id_predicate id) _ (map id_predicate ids)).
  - rewrite (ids_expression_matches re ts fs context vps) by (done || by apply Forall_cons in Hplain as [_ Hp];
      eapply Forall_impl; [exact Hp|]; intros ? []).
    apply Forall_cons in Hplain as [[_ Hw] _]. cbn [expression_matches existsb]. unfold id_predicate.
    by rewrite (id_comparison_matches _ _ _ _ vps).
  - change ((lit "id:" ++ id) :: map (fun id => lit "id:" ++ id) ids) with (map (fun id => lit "id:" ++ id) (id :: ids)).
    apply Forall_map. eapply Forall_impl; [exact Hplain|]. intros x [Hx _]. by apply id_word_plain.
  - apply id_word_predicate. apply Forall_cons in Hok as [(? & _) _]. done.
  - apply Forall_cons in Hok as [_ Hok]. clear -Hok. induction Hok as [|x ids (Hx & _) _ IH]; cbn; constructor; [|done].
    by apply id_word_predicate.
  - exact Hv.
Qed.

Lemma fixed_selection_exact_witness :
  let vps := mkVps (lit "Edge-02") (lit "Edge Two") (lit "online") [] None None None None None None None in
  let raw := [lit " edge-01 "; []; lit "edge-02"; lit "edge-01"] in
  normalized_target_client_ids raw = Ok [lit "edge-01"; lit "edge-02"]
  /\ exists text, fixed_target_selection raw = Ok text
     /\ parse_and_match_expression (fun _ => Ok tt)
          (expression_matches (fun _ _ => false) (fun _ => None) (fun _ => []) (for_vps vps)) text = Some (Ok true).
Proof.
  cbv zeta. set (vps := mkVps _ _ _ _ _ _ _ _ _ _ _). set (raw := [_; _; _; _]). split; [vm_compute; reflexivity|].
  destruct (fixed_selection_exact (fun _ => Ok tt) (fun _ _ => false) (fun _ => None) (fun _ => []) (for_vps vps) vps raw
    [lit "edge-01"; lit "edge-02"]) as (_ & _ & _ & text & Ht & Hm).
  - vm_compute. reflexivity.
  - repeat constructor.
  - reflexivity.
  - exists text. split; [exact Ht|]. exact Hm.
Defined.

(** * What the agent checks again *)

Lemma ensure_then c text (r : result AgentError unit) : c = true -> r = Ok tt -> (ensure c text;; r) = Ok tt.
Proof. by intros -> ->. Qed.

Lemma ensure_ok c text : c = true -> ensure c text = Ok tt.
Proof. by intros ->. Qed.

Lemma checked_then (m r : result AgentError unit) : m = Ok tt -> r = Ok tt -> (m;; r) = Ok tt.
Proof. by intros -> ->. Qed.

Lemma file_checked {A} (r : result FileTransferValidationError A) u : file_check r = Ok u -> file_result r = Ok tt.
Proof. by destruct r. Qed.

Lemma in_range_ok lo hi x : negb (in_range lo hi x) = false -> in_range lo hi x = true.
Proof. by destruct (in_range lo hi x). Qed.

Lemma try_each_checked {A} (f : A -> result string unit) (g : A -> result AgentError unit) l u :
  try_each f l = Ok u -> (forall a, f a = Ok tt -> g a = Ok tt) -> try_each g l = Ok tt.
Proof. intros Hf Hg. apply try_each_all. intros a Ha. apply Hg. by eapply try_each_ok. Qed.

(** Proves a boolean test from the tests that were passed. *)
Ltac pass_test :=
  repeat match goal with
  | |- _ && _ = true => apply andb_true_intro; split
  | |- negb _ = true => apply negb_true_iff
  | |- negb _ = false => apply negb_false_iff
  | |- _ || _ = false => apply orb_false_intro
  | H : negb ?b = false |- ?b = true => by apply negb_false_iff
  | |- (_ <=? _) = true => apply Z.leb_le
  | |- (_ <? _) = true => apply Z.ltb_lt
  | |- (_ <? _) = false => apply Z.ltb_ge
  end; try assumption; try done; try lia.

(** Walks through the checks of the agent. *)
Ltac pass_checks :=
  repeat match goal with
  | |- mbind _ (ensure _ _) = Ok tt => apply ensure_then
  | |- mbind _ _ = Ok tt => apply checked_then
  | |- ensure _ _ = Ok tt => apply ensure_ok
  end; pass_test.

Lemma argv_part_valid part : invalid_argv_part part = false -> valid_argv_part part = true.
Proof. unfold invalid_argv_part, valid_argv_part. intros H. bools. pass_test. Qed.

Lemma argv_parts_valid argv text :
  existsb invalid_argv_part argv = false -> try_each (fun part => ensure (valid_argv_part part) text) argv = Ok tt.
Proof.
  intros H. apply try_each_all. intros part Hin. apply ensure_ok, argv_part_valid. by eapply existsb_false.
Qed.

Lemma absolute_program argv : negb (program_is_absolute argv) = false -> is_absolute (default [] (head argv)) = true.
Proof. intros H%negb_false_iff. by destruct argv. Qed.

Lemma process_name_passes name u : validate_process_name name = Ok u -> agent_process_name name = Ok tt.
Proof. unfold validate_process_name, agent_process_name. intros H. inv_checks. bools. pass_checks. Qed.

Lemma process_policy_passes policy u : validate_process_policy policy = Ok u -> agent_process_policy policy = Ok tt.
Proof. unfold validate_process_policy, agent_process_policy. intros H. inv_checks. bools. pass_checks. Qed.

Lemma limit_passes lo hi value code text u : limit_within lo hi value code = Ok u -> agent_limit lo hi value text = Ok tt.
Proof. destruct value; cbn; [|done]. intros H. inv_checks. by apply ensure_ok, in_range_ok. Qed.

Lemma process_limits_pass limits u : validate_process_limits limits = Ok u -> agent_process_limits limits = Ok tt.
Proof.
  unfold validate_process_limits, agent_process_limits. intros H. inv_checks.
  repeat (apply checked_then; [by eapply limit_passes|]). by eapply limit_passes.
Qed.

Lemma process_env_passes env u :
  (32 <? vec_len env) = false -> try_each validate_process_env_entry env = Ok u -> agent_process_env env = Ok tt.
Proof.
  intros Hl He. unfold agent_process_env. bools. apply ensure_then; [pass_test|].
  eapply try_each_checked; [exact He|]. intros [key value] H. unfold validate_process_env_entry in H.
  inv_checks. bools. pass_checks.
Qed.

Lemma process_start_passes name argv cwd env policy limits u :
  validate_process_start name argv cwd env policy limits = Ok u ->
  process_start_checks name argv cwd env policy limits = Ok tt.
Proof.
  unfold validate_process_start, process_start_checks. intros H. inv_checks.
  apply checked_then; [by eapply process_name_passes|].
  apply checked_then; [unfold agent_process_argv; bools; pass_checks; [by apply argv_parts_valid|by apply absolute_program, negb_false_iff]|].
  apply checked_then.
  { destruct cwd as [cwd|]; [|done]. inv_checks. bools. unfold agent_process_cwd. pass_checks. }
  apply checked_then; [by eapply process_env_passes|].
  apply checked_then; [by eapply process_policy_passes|by eapply process_limits_pass].
Qed.

Lemma shell_script_passes script u : validate_shell_script script = Ok u -> agent_shell_script script = Ok tt.
Proof. unfold validate_shell_script, agent_shell_script. intros H. inv_checks. bools. pass_checks. Qed.

Lemma terminal_open_passes agent session_id argv cwd user cols rows idle flow u :
  pty_disabled agent = false -> agent_terminal_cwd (own_working_directory agent) = Ok tt ->
  validate_terminal_open session_id argv cwd user cols rows idle flow = Ok u ->
  terminal_open_checks agent argv cwd = Ok tt.
Proof.
  intros Hpty Hwd. unfold validate_terminal_open, validate_terminal_argv, terminal_open_checks, agent_terminal_argv.
  intros H. inv_checks. bools. rewrite Hpty. apply ensure_then; [done|].
  apply checked_then; [pass_checks|].
  - by apply absolute_program, negb_false_iff.
  - apply not_true_iff_false. intros (part & Hin & Hp)%existsb_exists.
    match goal with E : existsb invalid_argv_part argv = false |- _ => apply (existsb_false _ _ part) in E; [|done] end.
    unfold invalid_argv_part in *. rewrite Hp in *. done.
  - destruct cwd as [cwd|]; [|done]. inv_checks. bools. unfold agent_terminal_cwd. pass_checks.
Qed.

Lemma service_name_passes provider service u :
  trim service = service -> validate_host_service_name provider service = Ok u ->
  service_name_check provider service = Ok tt.
Proof.
  unfold validate_host_service_name, service_name_check, is_portable_service_name. intros Ht H. rewrite Ht in H.
  inv_checks. bools. apply ensure_ok. pass_test; destruct provider; inv_checks; bools; pass_test.
Qed.

Lemma routing_command_passes command u :
  validate_routing_adapter_command command = Ok u -> validate_adapter_command command = Ok tt.
Proof.
  unfold validate_routing_adapter_command, validate_adapter_command. intros H. inv_checks. bools. pass_checks.
  by apply absolute_program, negb_false_iff.
Qed.

(** The names and ids of a routing adapter are within the agent's bounds. *)
Definition bounded_adapter (adapter : RoutingCostAdapterCommands) : Prop :=
  trim (ra_definition_id adapter) <> [] /\ str_len (ra_definition_id adapter) <= 128
  /\ trim (ra_definition_name adapter) <> [] /\ str_len (ra_definition_name adapter) <= 160.

Lemma nonempty_not_empty {A} (l : list A) : l <> [] -> is_empty l = false.
Proof. by destruct l. Qed.

(** The client a side of a plan is for. *)
Definition side_client (plan : TunnelPlan) (side : TunnelEndpointSide) : str :=
  match side with SideLeft => plan_left_client_id plan | SideRight => plan_right_client_id plan end.

Lemma rendered_endpoint_fields plan side endpoint : render_tunnel_endpoint_config plan side = Ok endpoint ->
  e_local_client_id endpoint = side_client plan side /\ e_peer_client_id endpoint = side_client plan (other_side side)
  /\ e_remote_tunnel_address endpoint = server_tunnel_address plan (other_side side).
Proof. unfold render_tunnel_endpoint_config. intros H. inv_checks. cbv zeta in H. inv_checks. injection H as <-. by destruct side. Qed.

Lemma plan_side_rendered uuid_parse plan side code u : validate_network_plan_side uuid_parse plan side code = Ok u ->
  exists endpoint, render_tunnel_endpoint_config plan side = Ok endpoint.
Proof.
  unfold validate_network_plan_side. intros H. inv_checks.
  destruct (render_tunnel_endpoint_config plan side) as [endpoint|] eqn:Er; [by exists endpoint|done].
Qed.

Lemma own_endpoint_passes uuid_parse agent plan side code operation u :
  side_client plan side = own_client_id agent -> validate_network_plan_side uuid_parse plan side code = Ok u ->
  own_endpoint agent operation plan side = Ok tt.
Proof.
  intros Hside (endpoint & He)%plan_side_rendered. unfold own_endpoint, rendered_endpoint. rewrite He.
  destruct (rendered_endpoint_fields _ _ _ He) as [Hl _]. cbn. rewrite Hl, Hside. by rewrite str_eqb_refl.
Qed.

Lemma routing_passes uuid_parse agent plan_id plan side adapter cost u :
  bounded_adapter adapter -> side_client plan side = own_client_id agent ->
  validate_network_routing_adapter_operation uuid_parse plan_id plan side adapter cost = Ok u ->
  routing_checks agent plan side adapter = Ok tt.
Proof.
  intros (Hi & Hil & Hn & Hnl) Hside. unfold validate_network_routing_adapter_operation, routing_checks, validate_adapter_snapshot.
  intros H. inv_checks. cbv zeta in H. inv_checks. bools. apply checked_then; [|by eapply own_endpoint_passes].
  apply ensure_then; [pass_test; by apply nonempty_not_empty|]. apply ensure_then; [pass_test; by apply nonempty_not_empty|].
  apply ensure_then; [done|]. apply checked_then; by eapply routing_command_passes.
Qed.

Lemma traffic_import_passes now now' interfaces start u :
  now <= now' -> validate_network_traffic_import_vnstat now interfaces start = Ok u ->
  validate_request_at interfaces start now' = Ok tt.
Proof.
  unfold validate_network_traffic_import_vnstat, validate_request_at. intros Hnow H. inv_checks. bools. pass_checks.
  - apply forallb_forall. intros x Hx.
    match goal with E : existsb _ (map trim interfaces) = false |- _ => apply (existsb_false _ _ x) in E; [|done] end.
    by apply negb_false_iff.
  - Z.div_mod_to_equations. lia.
Qed.

Lemma speed_test_budget_passes uuid_parse plan side duration max_bytes rate port timeout u :
  validate_network_speed_test_operation uuid_parse plan side duration max_bytes rate port timeout = Ok u ->
  validate_speed_test_budget duration max_bytes rate port timeout = Ok tt.
Proof.
  unfold validate_network_speed_test_operation, validate_speed_test_budget. intros H. inv_checks. pass_checks;
    try (by apply in_range_ok); match goal with E : negb ?a && negb ?b = false |- ?a || ?b = true => by destruct a, b end.
Qed.

(** The tunnel addresses of a plan are addresses. *)
Definition addresses_parse (plan : TunnelPlan) : Prop :=
  is_Some (parse_ip_addr (plan_left_tunnel_address plan)) /\ is_Some (parse_ip_addr (plan_right_tunnel_address plan)).

Lemma ip_addr_passes address : is_Some (parse_ip_addr address) -> ip_addr address = Ok tt.
Proof. intros H. unfold ip_addr. by rewrite bool_decide_eq_true_2. Qed.

Lemma speed_test_passes uuid_parse agent plan side duration max_bytes rate port timeout u :
  addresses_parse plan -> own_client_id agent = plan_left_client_id plan \/ own_client_id agent = plan_right_client_id plan ->
  validate_network_speed_test_operation uuid_parse plan side duration max_bytes rate port timeout = Ok u ->
  speed_test_checks agent plan side duration max_bytes rate port timeout = Ok tt.
Proof.
  intros [Hleft Hright] Hown H. unfold speed_test_checks. apply checked_then; [by eapply speed_test_budget_passes|].
  unfold validate_network_speed_test_operation in H. inv_checks.
  match goal with E : validate_network_plan_side _ _ _ _ = Ok _ |- _ => destruct (plan_side_rendered _ _ _ _ _ E) as [endpoint He] end.
  destruct (rendered_endpoint_fields _ _ _ He) as (Hl & Hp & Hr). unfold rendered_endpoint. rewrite He.
  cbn [map_err mbind result_bind]. rewrite Hl, Hp, Hr.
  assert (Hor : str_eqb (own_client_id agent) (side_client plan side)
                || str_eqb (own_client_id agent) (side_client plan (other_side side)) = true).
  { apply orb_true_iff. rewrite !str_eqb_eq. destruct side; cbn [side_client other_side]; tauto. }
  rewrite Hor. cbn [guard_err mbind result_bind].
  apply checked_then; destruct side; by apply ip_addr_passes.
Qed.

Lemma file_path_passes path u : validate_file_path path = Ok u -> validate_browser_path path = Ok tt.
Proof. apply file_checked. Qed.

Lemma mutable_path_passes path u : validate_mutable_file_path path = Ok u -> validate_mutable_path path = Ok tt.
Proof.
  unfold validate_mutable_file_path, validate_mutable_path. intros H. inv_checks.
  apply checked_then; [by eapply file_path_passes|pass_checks].
Qed.

Lemma backup_passes paths include_config u :
  validate_backup_operation paths include_config = Ok u -> validate_backup_scope paths include_config = Ok tt.
Proof.
  unfold validate_backup_operation, validate_backup_scope. intros H. inv_checks. bools. pass_checks.
  eapply try_each_checked; [exact H|]. intros path. apply file_path_passes.
Qed.

Lemma dotless_no_component path : path_contains_dot_segment path = false -> has_unsafe_component path = false.
Proof.
  unfold path_contains_dot_segment, has_unsafe_component. destruct (split 47 path) as [|first rest]; [done|].
  intros H. apply orb_false_intro.
  - cbn in H. bools. done.
  - apply not_true_iff_false. intros (s & Hin & Hs)%existsb_exists. apply (existsb_false _ _ s) in H; [|done].
    cbn beta in *. bools. congruence.
Qed.

Lemma dotless_passes code path u : validate_dotless_path code path = Ok u -> validate_restore_path path = Ok tt.
Proof.
  unfold validate_dotless_path, validate_restore_path. intros H. inv_checks. pass_checks.
  - by eapply file_path_passes.
  - by apply dotless_no_component.
Qed.

Lemma post_restore_passes argv u : validate_post_restore_argv argv = Ok u -> agent_post_restore_argv argv = Ok tt.
Proof.
  unfold validate_post_restore_argv, agent_post_restore_argv. destruct argv as [|program argv]; [done|]. intros H.
  inv_checks. bools. pass_checks. by apply argv_parts_valid.
Qed.

(** A path without white space around it, as it is sent. *)
Definition trimmed_path (path : option str) : Prop := match path with Some path => trim path = path | None => True end.

(** The archive is not larger than the agent accepts. *)
Definition archive_fits (agent : Agent) (size : option Z) : Prop :=
  match size with Some size => 0 <= size <= own_max_archive_bytes agent | None => True end.

Lemma restore_passes agent paths include_config root archive size sha session argv u :
  trimmed_path archive -> archive_fits agent size ->
  validate_restore_operation paths include_config root archive size sha session argv = Ok u ->
  (validate_restore_scope paths include_config root;; agent_post_restore_argv argv;;
   archive_source_checks agent archive size sha) = Ok tt.
Proof.
  unfold validate_restore_operation, validate_restore_scope. intros Ht Hf H. inv_checks. cbv zeta in H. inv_checks.
  apply checked_then; [|apply checked_then; [by eapply post_restore_passes|]].
  - pass_checks.
    + eapply try_each_checked; [eassumption|]. intros path. apply dotless_passes.
    + destruct root as [root|]; [|done]. by eapply dotless_passes.
  - destruct archive as [archive|]; [|done]. cbn [trimmed_path] in Ht. cbn [mbind option_bind] in *. rewrite Ht in *.
    match goal with E : _ = Some ?path |- _ => destruct (is_empty archive) eqn:Ee in E; [done|]; injection E as <- end.
    destruct size as [size|], sha as [sha|]; try done. simplify_eq/=. unfold archive_source_checks.
    cbn [ok_or mbind result_bind]. apply checked_then; [by eapply dotless_passes|]. bools. pass_checks.
Qed.

Lemma rollback_path_passes code path u : validate_dotless_path code path = Ok u -> validate_rollback_path path = Ok tt.
Proof.
  unfold validate_dotless_path, validate_rollback_path. intros H. inv_checks. pass_checks.
  - by eapply file_path_passes.
  - by apply dotless_no_component.
Qed.

Lemma rollback_passes files u : validate_restore_rollback_operation files = Ok u -> rollback_checks files = Ok tt.
Proof.
  unfold validate_restore_rollback_operation, rollback_checks. intros H. inv_checks. pass_checks.
  eapply try_each_checked; [exact H|]. intros file Hf. unfold validate_rollback_file in Hf. inv_checks.
  apply checked_then; [by eapply rollback_path_passes|]. destruct (rf_rollback_path file); [|done].
  by eapply rollback_path_passes.
Qed.

Lemma push_passes path mode : validate_mutable_file_path path = Ok tt -> file_check (validate_file_mode mode) = Ok tt ->
  validate_file_push_request path mode = Ok tt.
Proof.
  unfold validate_mutable_file_path, validate_file_push_request. intros Hp Hm. inv_checks. pass_checks.
  - by eapply file_checked.
  - by eapply file_checked.
Qed.

Lemma chunk_request_passes hash b64_decode session_id off chunk token u :
  file_check (validate_file_transfer_chunk_request hash b64_decode session_id off chunk token) = Ok u ->
  (file_result (validate_file_transfer_session_token session_id token);;
   ensure (off =? offset chunk) "file transfer chunk offset does not match command offset") = Ok tt.
Proof.
  unfold file_check, file_result, validate_file_transfer_chunk_request, validate_file_transfer_session_token, ensure.
  destruct (uuid_is_nil session_id); [done|]. destruct (off =? offset chunk); cbn; [|done].
  by destruct (validate_resume_token_hash token).
Qed.

(** What an executor asks of the text of a command and admission does not: no white space around a
    service name or the path of a restored archive, bounded names and ids in a routing adapter, text content
    that is text, a transfer to a path with a file name, a plain URL of an artifact, addresses in the plan
    of a speed test.  A configuration snapshot is not given to the executors. *)
Definition agent_asks_no_more (b64_decode : str -> option (list Z)) (command : JobCommand) : Prop :=
  match command with
  | ServiceAction _ service _ _ _ | ServiceLogs _ service _ => trim service = service
  | NetworkRoutingStatus _ _ _ adapter | NetworkRoutingApply _ _ _ adapter _ _ => bounded_adapter adapter
  | FileWriteText _ _ _ _ content _ _ _ => exists text, Forall scalar text /\ b64_decode content = Some (as_bytes text)
  | FileTransferStart _ path _ _ _ _ _ _ _ => names_a_file path
  | Restore _ _ _ _ _ archive_path _ _ _ _ => trimmed_path archive_path
  | UpdateAgent url _ | AgentUpdateCheck (Some url) _ _ => plain_artifact_url url
  | NetworkSpeedTest _ plan _ _ _ _ _ _ => addresses_parse plan
  | RuntimeConfigSync _ _ _ => False
  | _ => True
  end.

(** What an executor asks of the agent: terminals where the command needs one, a valid working
    directory and version URL where the command leaves them to the agent, room for an archive, and that the
    command's side of a plan is this agent's. *)
Definition agent_fit (agent : Agent) (command : JobCommand) : Prop :=
  match command with
  | Shell _ true => pty_disabled agent = false
  | TerminalOpen _ _ _ _ _ _ _ _ _ _ =>
      pty_disabled agent = false /\ agent_terminal_cwd (own_working_directory agent) = Ok tt
  | Restore _ _ _ _ _ _ size _ _ _ => archive_fits agent size
  | AgentUpdateCheck None _ _ => plain_artifact_url (unmanaged_version_url agent)
  | NetworkStatus _ plan side _ | NetworkProbe _ plan side _ _
  | NetworkRoutingStatus _ plan side _ | NetworkRoutingApply _ plan side _ _ _ =>
      side_client plan side = own_client_id agent
  | NetworkSpeedTest _ plan _ _ _ _ _ _ =>
      own_client_id agent = plan_left_client_id plan \/ own_client_id agent = plan_right_client_id plan
  | _ => True
  end.

Lemma sha_passes value code text u : validate_sha256_hex value code = Ok u -> agent_sha256 text value = Ok tt.
Proof. unfold validate_sha256_hex. intros H. apply sha256_accepted. by destruct (is_sha256_hex value). Qed.

Lemma shell_passes agent argv (pty : bool) : is_empty argv = false -> (pty = true -> pty_disabled agent = false) ->
  shell_checks agent argv pty = Ok tt.
Proof.
  intros He Hp. unfold shell_checks, ensure_pty_allowed. rewrite He. destruct pty; [|done]. by rewrite Hp.
Qed.

Lemma update_passes url sha u : plain_artifact_url url -> validate_update_agent url sha = Ok u ->
  (agent_sha256 "sha256_hex must be 64 lowercase or uppercase hex characters" sha;; artifact_url_checks url) = Ok tt.
Proof.
  intros Hurl H. unfold validate_update_agent in H. inv_checks. apply checked_then; [|by apply plain_url_accepted].
  by apply sha256_accepted, negb_false_iff.
Qed.

Lemma inline_payload_data hash b64_decode content size sha data :
  decode_inline_file_payload hash b64_decode content size sha = Ok data -> b64_decode content = Some data.
Proof.
  unfold decode_inline_file_payload. cbv zeta. destruct (_ <? size); [done|]. destruct (_ <? str_len content); [done|].
  destruct (normalize_sha256_hex sha); [|done]. destruct (b64_decode content) as [d|]; [|done]. cbn.
  destruct (negb _); [done|]. destruct (negb _); [done|]. by intros [= ->].
Qed.

Section Agreement.
Context (hash : list Z -> str) (b64_decode : str -> option (list Z)) (uuid_parse : str -> option Z).
Context (now now' : Z) (agent : Agent).
Hypothesis Hnow : now <= now'.

Lemma write_text_passes path mode size sha content expected create text u :
  Forall scalar text -> b64_decode content = Some (as_bytes text) ->
  validate_file_write_text hash b64_decode path mode size sha content expected create = Ok u ->
  file_write_text_checks hash b64_decode path mode size sha content expected create = Ok tt.
Proof.
  intros Ht Hd H. unfold validate_file_write_text, validate_file_push, file_write_text_checks in *. inv_checks.
  apply ensure_then; [by destruct create, expected|]. apply checked_then; [by eapply mutable_path_passes|].
  apply checked_then; [by eapply file_checked|].
  match goal with E : file_check (decode_inline_file_payload _ _ _ _ _) = Ok _ |- _ => rename E into Hdec end.
  destruct (decode_inline_file_payload hash b64_decode content size sha) as [data|] eqn:E; [|done].
  assert (data = as_bytes text) as ->.
  { apply inline_payload_data in E. congruence. }
  cbn [map_err mbind result_bind]. apply ensure_ok. by apply is_utf8_as_bytes.
Qed.

Lemma file_command_passes command r :
  validate_file_command hash b64_decode command = Some r -> r = Ok tt -> agent_asks_no_more b64_decode command ->
  request_checks hash b64_decode agent now' command = Ok tt.
Proof.
  intros Hv Hr Hmore. destruct command; cbn [validate_file_command] in Hv; simplify_eq; cbn [request_checks agent_asks_no_more] in *.
  all: try (destruct Hmore as (text & Ht & Hd); by eapply write_text_passes).
  all: repeat match goal with H : ?f _ = Ok tt |- _ =>
    progress unfold validate_file_list_dir, validate_file_read_text, validate_file_mkdir, validate_file_rename,
      validate_file_copy, validate_file_chmod, validate_file_download, validate_file_archive_tar, validate_file_push,
      validate_chunked_file_push, validate_resumable_file_transfer_start in H end.
  all: inv_checks; try (by eapply chunk_request_passes); pass_checks; try (by eapply file_path_passes); try (by eapply mutable_path_passes);
    try (by eapply file_checked); try (by apply push_passes); try (by eapply ownership_accepted).
  - apply transfer_path_accepted; [|done]. unfold validate_mutable_file_path in *. inv_checks.
    match goal with E : validate_file_path path = Ok _ |- _ => unfold validate_file_path, file_check in E end.
    by destruct (validate_absolute_file_path path) as [[]|].
  - unfold validate_mutable_file_path in *. inv_checks. by eapply file_path_passes.
Qed.

(** Admission always answers: it never reaches its unreachable arm. *)
Lemma admission_answers command : exists r, validate_job_command hash b64_decode uuid_parse now command = Some r.
Proof.
  unfold validate_job_command. destruct (validate_file_command hash b64_decode command) eqn:E; [by eexists|].
  destruct command; try done; by eexists.
Qed.

Lemma other_command_passes command :
  validate_other_command uuid_parse now command = Some (Ok tt) -> agent_asks_no_more b64_decode command ->
  agent_fit agent command -> request_checks hash b64_decode agent now' command = Ok tt.
Proof.
  intros Hv Hmore Hfit. destruct command; try done; cbn [validate_other_command] in Hv;
    injection Hv as Hv; cbn [request_checks agent_asks_no_more agent_fit] in *; inv_checks.
  - by apply shell_passes; [|intros ->].
  - by eapply shell_script_passes.
  - destruct Hfit. by eapply terminal_open_passes.
  - by eapply update_passes.
  - by eapply sha_passes.
  - destruct rollback_sha256_hex; [by eapply sha_passes|done].
  - destruct version_url; cbn [default]; rewrite plain_url_trimmed by done; by apply plain_url_accepted.
  - by eapply process_start_passes.
  - by eapply process_name_passes.
  - by eapply process_name_passes.
  - destruct name; [by eapply process_name_passes|done].
  - by eapply process_name_passes.
  - by eapply service_name_passes.
  - by eapply service_name_passes.
  - by eapply sha_passes.
  - by eapply backup_passes.
  - by eapply restore_passes.
  - by eapply rollback_passes.
  - unfold validate_network_status_operation in Hv. inv_checks. by eapply own_endpoint_passes.
  - by eapply traffic_import_passes.
  - unfold validate_network_probe_operation in Hv. inv_checks. by eapply own_endpoint_passes.
  - by eapply speed_test_passes.
  - by eapply routing_passes.
  - by eapply routing_passes.
Qed.

End Agreement.

(** * Witnesses and exceptions *)

Definition sample_hash (data : list Z) : str := repeat 48 64.
Definition sample_uuid (s : str) : option Z := if is_empty s then None else Some 1.
Definition sample_start : JobCommand :=
  ProcessStart (lit "web") [lit "/usr/bin/web"; lit "-v"] (Some (lit "/srv")) [(lit "HOME", lit "/root")]
    (mkRunPolicy RestartAlways 3 5 10) (mkLimits (Some 1048576) None None None false).

Definition sample_agent : Agent :=
  mkAgent (lit "edge-1") (Some (lit "/")) false 1048576 (lit "https://example.com/version.json").
Definition sample_update : JobCommand := UpdateAgent (lit "https://example.com:8443/agent?arch=x") (repeat 97 64).


(** The API trims a service name before it checks it, and sends it as it was. *)
Example padded_service_name_refused_by_agent :
  let command := ServiceLogs Systemd (lit " nginx.service") 10 in
  validate_job_command sample_hash (fun _ => None) sample_uuid 100 command = Some (Ok tt)
  /\ request_checks sample_hash (fun _ => None) sample_agent 200 command = Err (Message "host_service_name_invalid").
Proof. split; vm_compute; reflexivity. Qed.

(** Text that is not UTF-8 is refused by the agent only. *)
Example binary_text_refused_by_agent :
  let command := FileWriteText (lit "/etc/motd") 420 1 (repeat 48 64) (lit "/w==") None true ActionFail in
  validate_job_command sample_hash (fun _ => Some [255]) sample_uuid 100 command = Some (Ok tt)
  /\ request_checks sample_hash (fun _ => Some [255]) sample_agent 200 command
     = Err (Message "file write text content is not UTF-8").
Proof. split; vm_compute; reflexivity. Qed.

(** The API looks at the scheme of an artifact's URL only. *)
Example artifact_url_refused_by_agent :
  let command url := UpdateAgent (lit url) (repeat 97 64) in
  validate_job_command sample_hash (fun _ => None) sample_uuid 100 (command "https://user@example.com/a") = Some (Ok tt)
  /\ request_checks sample_hash (fun _ => None) sample_agent 200 (command "https://user@example.com/a")
     = Err (Message "update artifact URL authority is invalid")
  /\ validate_job_command sample_hash (fun _ => None) sample_uuid 100 (command "https://example.com/a#b") = Some (Ok tt)
  /\ request_checks sample_hash (fun _ => None) sample_agent 200 (command "https://example.com/a#b")
     = Err (Message "update artifact URL fragments are not supported").
Proof. repeat split; vm_compute; reflexivity. Qed.

(** The API trims the path of a restored archive before it checks it, and sends it as it was. *)
Example padded_archive_path_refused_by_agent :
  let command := Restore 1 2 [lit "/etc"] false None (Some (lit " /tmp/a.tar")) (Some 1) (Some (repeat 97 64)) false [] in
  validate_job_command sample_hash (fun _ => None) sample_uuid 100 command = Some (Ok tt)
  /\ request_checks sample_hash (fun _ => None) sample_agent 200 command = Err (FileError PathMustBeAbsolute).
Proof. split; vm_compute; reflexivity. Qed.

(** A transfer to a path of slashes is refused by the agent only. *)
Example slashes_refused_by_agent :
  let command := FileTransferStart 1 (lit "//") 420 1 (repeat 48 64) 1024 0 ExistingSkip (repeat 48 64) in
  validate_job_command sample_hash (fun _ => None) sample_uuid 100 command = Some (Ok tt)
  /\ request_checks sample_hash (fun _ => None) sample_agent 200 command
     = Err (Message "file transfer destination has no parent directory").
Proof. split; vm_compute; reflexivity. Qed.

(** The root is refused by its text only. *)
Example doubled_root_admitted :
  validate_job_command sample_hash (fun _ => None) sample_uuid 100 (FileDelete (lit "//") true ActionFail) = Some (Ok tt)
  /\ validate_job_command sample_hash (fun _ => None) sample_uuid 100 (FileDelete (lit "/") true ActionFail)
     = Some (Err "file_path_refuses_root_mutation"%string).
Proof. split; vm_compute; reflexivity. Qed.

(** * Programs *)

(** The argument vectors that a command has run as they are. *)
Definition command_programs (command : JobCommand) : list (list str) :=
  match command with
  | TerminalOpen _ argv _ _ _ _ _ _ _ _ => [argv]
  | ProcessStart _ argv _ _ _ _ => [argv]
  | Restore _ _ _ _ _ _ _ _ _ argv => if is_empty argv then [] else [argv]
  | NetworkRoutingStatus _ _ _ adapter | NetworkRoutingApply _ _ _ adapter _ _ =>
      [cmd_argv (ra_status adapter); cmd_argv (ra_update adapter)]
  | NetworkStatus _ _ _ (Some adapter) =>
      map cmd_argv (ta_status adapter :: omap id [ta_startup adapter; ta_stop adapter; ta_cleanup adapter;
        ta_restart adapter; ta_traffic_limit_apply adapter])
  | _ => []
  end.

(** An absolute program with at most 64 non-empty, bounded arguments without NUL bytes. *)
Definition safe_argv (argv : list str) : Prop :=
  argv <> [] /\ vec_len argv <= 64 /\ program_is_absolute argv = true /\ existsb invalid_argv_part argv = false.

Lemma routing_command_safe command u : validate_routing_adapter_command command = Ok u -> safe_argv (cmd_argv command).
Proof.
  unfold validate_routing_adapter_command, safe_argv. intros H. inv_checks. bools.
  split; [by destruct (cmd_argv command)|]. split; [lia|done].
Qed.

Lemma adapter_snapshot_safe uuid_parse adapter required u :
  validate_runtime_adapter_snapshot uuid_parse adapter required = Ok u ->
  Forall safe_argv (map cmd_argv (ta_status adapter :: omap id [ta_startup adapter; ta_stop adapter; ta_cleanup adapter;
    ta_restart adapter; ta_traffic_limit_apply adapter])).
Proof.
  unfold validate_runtime_adapter_snapshot. intros H. inv_checks. constructor; [by eapply routing_command_safe|].
  apply Forall_map, Forall_forall. intros command Hin%list_elem_of_In. eapply routing_command_safe.
  by eapply try_each_ok.
Qed.

(** every program an admitted command names itself is run by an absolute path: the argument vectors of
    terminals, managed processes, post-restore hooks and tunnel and routing adapters are non-empty, have
    at most 64 parts, start with an absolute program and hold no empty, oversized or NUL-bearing part. *)
Theorem admitted_programs_absolute hash b64_decode uuid_parse now command :
  validate_job_command hash b64_decode uuid_parse now command = Some (Ok tt) ->
  Forall safe_argv (command_programs command).
Proof.
  unfold validate_job_command. destruct command; try (intros _; apply Forall_nil_2);
    cbn [validate_file_command validate_other_command]; intros [= H]; cbn [command_programs].
  - unfold validate_terminal_open, validate_terminal_argv in H. inv_checks. bools. repeat constructor; try done.
    by destruct argv.
  - unfold validate_process_start in H. inv_checks. bools. repeat constructor; try done. by destruct argv.
  - unfold validate_restore_operation in H. inv_checks. cbv zeta in H. inv_checks.
    unfold validate_post_restore_argv in H. destruct post_restore_argv as [|program argv]; [constructor|]. inv_checks. bools.
    cbn [is_empty]. repeat constructor; try done. lia.
  - destruct runtime_adapter as [adapter|]; [|constructor]. inv_checks.
    unfold validate_network_status_operation in H. inv_checks. cbv zeta in H. destruct (rc_manager _); inv_checks; try done.
    simplify_eq/=. by eapply adapter_snapshot_safe.
  - unfold validate_network_routing_adapter_operation in H. inv_checks. cbv zeta in H. inv_checks.
    repeat constructor; by eapply routing_command_safe.
  - unfold validate_network_routing_adapter_operation in H. inv_checks. cbv zeta in H. inv_checks.
    repeat constructor; by eapply routing_command_safe.
Qed.

Lemma admitted_programs_absolute_witness :
  validate_job_command sample_hash (fun _ => None) sample_uuid 100 sample_start = Some (Ok tt)
  /\ Forall safe_argv (command_programs sample_start).
Proof.
  split; [vm_compute; reflexivity|].
  apply (admitted_programs_absolute sample_hash (fun _ => None) sample_uuid 100). vm_compute. reflexivity.
Defined.

(** * Outcomes *)

(** The status a job has from those of its targets, each of which is one the system writes. *)
Definition aggregate (statuses : list JobTargetStatus) : string :=
  aggregate_job_status_from_statuses (map (fun s => lit (target_as_str s)) statuses) (vec_len statuses).

Lemma target_parse_text s : target_parse (lit (target_as_str s)) = Some s.
Proof. by destruct s; vm_compute. Qed.

Lemma parsed_texts statuses : omap target_parse (map (fun s => lit (target_as_str s)) statuses) = statuses.
Proof. induction statuses as [|s l IH]; [done|]. cbn [map omap list_omap]. rewrite target_parse_text. by f_equal. Qed.

Lemma active_texts statuses :
  existsb target_status_is_active (map (fun s => lit (target_as_str s)) statuses) = existsb target_is_active statuses.
Proof.
  induction statuses as [|s l IH]; [done|]. cbn [map existsb]. rewrite IH. f_equal.
  unfold target_status_is_active. by rewrite target_parse_text.
Qed.

Lemma count_all {A} (f : A -> bool) l : vec_len (List.filter f l) = vec_len l <-> Forall (fun a => f a = true) l.
Proof.
  unfold vec_len. rewrite Nat2Z.inj_iff. induction l as [|a l IH]; [split; [constructor|done]|]. cbn.
  rewrite Forall_cons. destruct (f a) eqn:E; cbn.
  - rewrite Nat.succ_inj_wd, IH. naive_solver.
  - pose proof (filter_length_le f l). split; [lia|]. intros [? _]. congruence.
Qed.

Definition is_status (s s' : JobTargetStatus) : bool := bool_decide (s = s').

(** The decision in terms of which statuses occur: the outcome when nothing completed, and all of it. *)
Definition failure_status (statuses : list JobTargetStatus) : string :=
  let has s := existsb (is_status s) statuses in
  if has TargetControlTimeout then JOB_STATUS_CONTROL_TIMEOUT
  else if has TargetAgentTimeout then JOB_STATUS_AGENT_TIMEOUT
  else if has TargetFailed then JOB_STATUS_FAILED
  else if has TargetCanceled then JOB_STATUS_CANCELED
  else if has TargetRejected then JOB_STATUS_REJECTED
  else JOB_STATUS_FAILED.

Definition decide_status (statuses : list JobTargetStatus) : string :=
  if existsb target_is_active statuses then JOB_STATUS_RUNNING
  else if forallb (is_status TargetCompleted) statuses then JOB_STATUS_COMPLETED
  else if forallb (is_status TargetSkipped) statuses then JOB_STATUS_SKIPPED
  else if existsb (is_status TargetCompleted) statuses then JOB_STATUS_PARTIAL_SUCCESS
  else failure_status statuses.

Lemma failure_status_cases statuses :
  failure_status statuses ∈
  [JOB_STATUS_CONTROL_TIMEOUT; JOB_STATUS_AGENT_TIMEOUT; JOB_STATUS_FAILED; JOB_STATUS_CANCELED; JOB_STATUS_REJECTED].
Proof. unfold failure_status. cbv zeta. repeat case_match; rewrite !elem_of_cons; auto 10. Qed.

Lemma filter_class class status statuses :
  (forall s, target_class s = class <-> status = s) ->
  List.filter (fun s => bool_decide (target_class s = class)) statuses = List.filter (is_status status) statuses.
Proof. intros H. apply filter_ext. intros s. apply bool_decide_ext, H. Qed.

Lemma count_is_all f (statuses : list JobTargetStatus) :
  (vec_len (List.filter f statuses) =? vec_len statuses) = forallb f statuses.
Proof.
  apply eq_true_iff_eq. rewrite Z.eqb_eq, count_all, forallb_forall. rewrite Forall_forall.
  split; intros H x Hx; apply H; by apply list_elem_of_In.
Qed.

Lemma count_is_some f (statuses : list JobTargetStatus) : (0 <? vec_len (List.filter f statuses)) = existsb f statuses.
Proof.
  induction statuses as [|s l IH]; [done|]. cbn [List.filter existsb]. destruct (f s); [|done].
  cbn [orb]. apply Z.ltb_lt. unfold vec_len. cbn [length]. lia.
Qed.

Lemma aggregate_decides first rest : aggregate (first :: rest) = decide_status (first :: rest).
Proof.
  unfold aggregate, aggregate_job_status_from_statuses. cbv zeta. rewrite active_texts, parsed_texts.
  replace (vec_len (first :: rest) =? 0) with false by (symmetry; apply Z.eqb_neq; unfold vec_len; cbn [length]; lia).
  rewrite (filter_class TargetClassSuccessful TargetCompleted), (filter_class TargetClassSkipped TargetSkipped)
    by (intros []; cbn; split; congruence).
  by rewrite !count_is_all, count_is_some.
Qed.

Lemma existsb_permutation {A} (f : A -> bool) l l' : l ≡ₚ l' -> existsb f l = existsb f l'.
Proof.
  intros Hp. apply eq_true_iff_eq. rewrite !existsb_exists.
  split; intros (x & Hx & E); exists x; (split; [|done]); by eapply Permutation_in; [|exact Hx]; try symmetry.
Qed.

Lemma forallb_permutation {A} (f : A -> bool) l l' : l ≡ₚ l' -> forallb f l = forallb f l'.
Proof.
  intros Hp. apply eq_true_iff_eq. rewrite !forallb_forall.
  split; intros H x Hx; apply H; by eapply Permutation_in; [|exact Hx]; try symmetry.
Qed.

Lemma decide_status_permutation l l' : l ≡ₚ l' -> decide_status l = decide_status l'.
Proof.
  intros Hp. unfold decide_status, failure_status. cbv zeta.
  by rewrite !(existsb_permutation _ _ _ Hp), !(forallb_permutation _ _ _ Hp).
Qed.

Lemma all_status s statuses : forallb (is_status s) statuses = true <-> Forall (fun s' => s' = s) statuses.
Proof.
  rewrite forallb_forall, Forall_forall. unfold is_status.
  split; intros H x Hx; [symmetry; eapply bool_decide_eq_true, H; by apply list_elem_of_In|].
  apply bool_decide_eq_true. symmetry. apply H. by apply list_elem_of_In.
Qed.

Lemma has_status s statuses : existsb (is_status s) statuses = true <-> s ∈ statuses.
Proof.
  rewrite existsb_exists. unfold is_status. split.
  - intros (x & Hx & E%bool_decide_eq_true). subst. by apply list_elem_of_In.
  - intros H. exists s. split; [by apply list_elem_of_In|by apply bool_decide_eq_true].
Qed.

Lemma all_one_status s statuses :
  target_is_active s = false -> forallb (is_status s) statuses = true -> existsb target_is_active statuses = false.
Proof.
  intros Hs Hall. apply not_true_iff_false. intros (x & Hx & Ha)%existsb_exists.
  rewrite all_status, Forall_forall in Hall. rewrite (Hall x) in Ha by (by apply list_elem_of_In). congruence.
Qed.

Lemma has_not_all s s' statuses :
  existsb (is_status s) statuses = true -> forallb (is_status s') statuses = true -> s = s'.
Proof. rewrite has_status, all_status, Forall_forall. intros H1 H2. by apply H2. Qed.

(** C22: the status of a job is a function of which statuses its targets have: it is running exactly while a
    target is still active, completed exactly when every target completed, skipped exactly when every
    target was skipped, a partial success exactly when all are done and some but not all completed; it is
    always a status of the protocol, terminal exactly when no target is active, and does not depend on the
    order of the targets. *)
Theorem job_status_reflects_targets first rest :
  let statuses := first :: rest in
  let job := aggregate statuses in
  (job = JOB_STATUS_RUNNING <-> existsb target_is_active statuses = true)
  /\ (job = JOB_STATUS_COMPLETED <-> Forall (fun s => s = TargetCompleted) statuses)
  /\ (job = JOB_STATUS_SKIPPED <-> Forall (fun s => s = TargetSkipped) statuses)
  /\ (job = JOB_STATUS_PARTIAL_SUCCESS <->
      existsb target_is_active statuses = false /\ TargetCompleted ∈ statuses
      /\ ~ Forall (fun s => s = TargetCompleted) statuses)
  /\ (exists j, job_parse (lit job) = Some j /\ job_is_terminal j = negb (existsb target_is_active statuses))
  /\ forall statuses', statuses' ≡ₚ statuses -> aggregate statuses' = job.
Proof.
  intros statuses job. assert (job = decide_status statuses) as Hjob by apply aggregate_decides.
  assert (statuses <> []) as Hne by done.
  assert (forallb (is_status TargetCompleted) statuses = true -> existsb (is_status TargetCompleted) statuses = true) as Hboth.
  { cbn. by destruct (is_status TargetCompleted first). }
  clearbody job. clearbody statuses. rewrite <- !all_status, <- has_status.
  pose proof (all_one_status TargetCompleted statuses eq_refl) as Hquiet1.
  pose proof (all_one_status TargetSkipped statuses eq_refl) as Hquiet2.
  pose proof (has_not_all TargetCompleted TargetSkipped statuses) as Hskip.
  split; [|split; [|split; [|split; [|split]]]].
  6: { intros statuses' Hp. rewrite Hjob, <- (decide_status_permutation _ _ Hp).
       destruct statuses' as [|f r]; [by apply Permutation_nil in Hp|apply aggregate_decides]. }
  all: rewrite Hjob; unfold decide_status; clear Hjob; revert Hboth Hquiet1 Hquiet2 Hskip.
  all: pose proof (failure_status_cases statuses) as Hfailure; rewrite !elem_of_cons, elem_of_nil in Hfailure.
  all: destruct (existsb target_is_active statuses), (forallb (is_status TargetCompleted) statuses),
    (forallb (is_status TargetSkipped) statuses), (existsb (is_status TargetCompleted) statuses); intros Hboth Hquiet1 Hquiet2 Hskip;
    first [by specialize (Hboth eq_refl) | by specialize (Hquiet1 eq_refl) | by specialize (Hquiet2 eq_refl)
          | by specialize (Hskip eq_refl eq_refl) | idtac].
  all: try (destruct Hfailure as [->|[->|[->|[->|[->|[]]]]]]).
  all: first [split; [intros; done || (split; [|split]; done)|intros; done || (destruct_and!; done)]
             | eexists; split; vm_compute; reflexivity].
Qed.
