(* ===== verification/SuiteConfig.v ===== *)
(** The suite configuration of the servers: crates/common/src/config/suite_config.rs.

    TOML and the files are arguments; networks are those of the [ipnet] crate through
    the interface of [NetworkAllocator]. *)

From S2P Require Import Prelude RustStd Json Net NetworkAllocator Templates JobTargets JobAdmission.

Open Scope Z_scope.

Definition MAX_CONFIGURABLE_JOB_TIMEOUT_SECS : Z := 7 * 24 * 60 * 60.

(** * Data *)

Record SuiteApiConfig := mkSuiteApiConfig {
  api_bind : option str;
  api_gateway_control_url : option str;
  api_require_registered_agent_updates : option bool;
  api_job_output_artifact_min_bytes : option Z;
  api_artifact_max_bytes : option Z;
  api_trusted_proxy_cidrs : option (list str);
  api_operator_auth_username_failed_attempt_limit : option Z;
  api_operator_auth_ip_failed_attempt_limit : option Z;
  api_operator_auth_failed_attempt_window_secs : option Z;
  api_operator_auth_lockout_secs : option Z;
}.

Definition api_default : SuiteApiConfig :=
  mkSuiteApiConfig None None None None None None None None None None.

Record SuiteGatewayConfig := mkSuiteGatewayConfig {
  gateway_bind : option str;
  gateway_control_bind : option str;
  gateway_api_url : option str;
  gateway_gateway_id : option str;
  gateway_reconnect_grace_secs : option Z;
  gateway_expect_client_public_key_hex : option str;
  gateway_spool_dir : option str;
  gateway_spool_ram_max_bytes : option Z;
  gateway_spool_disk_max_bytes : option Z;
  gateway_spool_shutdown_flush_secs : option Z;
  gateway_command_output_event_ttl_secs : option Z;
}.

Definition gateway_default : SuiteGatewayConfig :=
  mkSuiteGatewayConfig None None None None None None None None None None None.

Record SuiteWorkerConfig := mkSuiteWorkerConfig {
  worker_tick_secs : option Z;
  worker_once : option bool;
  worker_agent_offline_timeout_secs : option Z;
  worker_notification_delivery_limit : option Z;
  worker_notification_retention_days : option Z;
  worker_notification_retention_prune_limit : option Z;
  worker_notification_webhook_timeout_secs : option Z;
  worker_webhook_rule_delivery_limit : option Z;
  worker_webhook_rule_materialize_limit : option Z;
  worker_webhook_rule_retention_days : option Z;
  worker_webhook_rule_retention_prune_limit : option Z;
  worker_webhook_rule_timeout_secs : option Z;
  worker_backup_policy_prune_enabled : option bool;
  worker_backup_policy_prune_limit : option Z;
  worker_backup_policy_prune_dry_run : option bool;
  worker_backup_policy_prune_include_disabled : option bool;
  worker_backup_policy_prune_delete_objects : option bool;
  worker_backup_policy_prune_object_store_dir : option str;
  worker_schedule_job_max_timeout_secs : option Z;
  worker_require_registered_agent_updates : option bool;
}.

Definition worker_default : SuiteWorkerConfig :=
  mkSuiteWorkerConfig None None None None None None None None None None None None None None None None None None None None.

Record SuiteNetworkConfig := mkSuiteNetworkConfig {
  network_tunnel_ipv4_allocation_pool_cidr : option str;
  network_tunnel_ipv6_allocation_pool_cidr : option str;
}.

Definition network_default : SuiteNetworkConfig :=
  mkSuiteNetworkConfig None None.

Record SuiteDatabaseConfig := mkSuiteDatabaseConfig {
  database_postgres_url : option str;
  database_migrations_dir : option str;
}.

Definition database_default : SuiteDatabaseConfig :=
  mkSuiteDatabaseConfig None None.

Record SuiteStorageConfig := mkSuiteStorageConfig {
  storage_backup_object_store_dir : option str;
  storage_object_endpoint : option str;
  storage_object_bucket : option str;
  storage_object_region : option str;
  storage_object_create_bucket : option bool;
}.

Definition storage_default : SuiteStorageConfig :=
  mkSuiteStorageConfig None None None None None.

Record SuiteCapacityConfig := mkSuiteCapacityConfig {
  capacity_api_db_pool : option Z;
  capacity_worker_db_pool : option Z;
  capacity_dispatcher_batch : option Z;
  capacity_dispatcher_in_flight : option Z;
  capacity_gateway_telemetry_in_flight : option Z;
}.

Definition capacity_default : SuiteCapacityConfig :=
  mkSuiteCapacityConfig None None None None None.

Record SuiteTimeoutConfig := mkSuiteTimeoutConfig {
  timeout_max_job_timeout_secs : option Z;
  timeout_internal_http_connect_secs : option Z;
  timeout_internal_http_write_secs : option Z;
  timeout_internal_http_read_secs : option Z;
  timeout_dispatch_ack_secs : option Z;
  timeout_event_post_secs : option Z;
  timeout_control_deadline_grace_secs : option Z;
}.

Definition timeout_default : SuiteTimeoutConfig :=
  mkSuiteTimeoutConfig None None None None None None None.

Record SuiteSecretRefs := mkSuiteSecretRefs {
  secrets_internal_token_file : option str;
  secrets_gateway_private_key_file : option str;
  secrets_privilege_verifier_key_file : option str;
  secrets_object_access_key_file : option str;
  secrets_object_secret_key_file : option str;
}.

Definition secrets_default : SuiteSecretRefs :=
  mkSuiteSecretRefs None None None None None.

Record SuiteConfig := mkSuite {
  suite_version : Z;
  suite_api : SuiteApiConfig;
  suite_gateway : SuiteGatewayConfig;
  suite_worker : SuiteWorkerConfig;
  suite_network : SuiteNetworkConfig;
  suite_database : SuiteDatabaseConfig;
  suite_storage : SuiteStorageConfig;
  suite_capacity : SuiteCapacityConfig;
  suite_timeout : SuiteTimeoutConfig;
  suite_secrets : SuiteSecretRefs;
}.

(** [Self { version, ..Self::default() }]. *)
Definition suite_of_version (version : Z) : SuiteConfig :=
  mkSuite version api_default gateway_default worker_default network_default database_default storage_default
    capacity_default timeout_default secrets_default.

(** * Checks *)

Abbreviation checked := (result str unit).

Definition validate_range (value min max : Z) (name : string) : checked :=
  reject_if (negb (in_range min max value)) (lit name ++ lit "_out_of_range").

Definition validate_optional (value : option Z) (min max : Z) (name : string) : checked :=
  match value with Some value => validate_range value min max name | None => Ok tt end.

Inductive TunnelAllocationPoolFamily := PoolIpv4 | PoolIpv6.

#[export] Instance pool_family_eq_dec : EqDecision TunnelAllocationPoolFamily.
Proof. solve_decision. Defined.

Section Suite.
Context {IpNet : Type} `{IpNetOps IpNet}.

Definition validate_optional_ip_nets (values : option (list str)) (name : string) : checked :=
  match values with
  | None => Ok tt
  | Some values =>
      reject_if (64 <? vec_len values) (lit name ++ lit "_too_many_entries");;
      try_each (fun value =>
        let value := trim value in
        reject_if (is_empty value || bool_decide (net_parse value = None)) (lit name ++ lit "_invalid")) values
  end.

Definition validate_optional_tunnel_allocation_pool (value : option str) (family : TunnelAllocationPoolFamily)
    (name : string) : checked :=
  match value ≫= (fun value => let value := trim value in if is_empty value then None else Some value) with
  | None => Ok tt
  | Some value =>
      parsed ← ok_or (net_parse value) (lit name ++ lit "_invalid");
      match family, net_is_v4 parsed with
      | PoolIpv4, true => reject_if (31 <? net_prefix_len parsed) (lit name ++ lit "_too_small")
      | PoolIpv6, false => reject_if (127 <? net_prefix_len parsed) (lit name ++ lit "_too_small")
      | _, _ => Err (lit name ++ lit "_wrong_family")
      end
  end.

Definition suite_validate (s : SuiteConfig) : checked :=
  let api := suite_api s in let gateway := suite_gateway s in let worker := suite_worker s in
  let capacity := suite_capacity s in let timeout := suite_timeout s in
  reject_if (negb (suite_version s =? 1)) (lit "suite_config_version_unsupported");;
  validate_optional (capacity_api_db_pool capacity) 1 256 "capacity.api_db_pool";;
  validate_optional (capacity_worker_db_pool capacity) 1 256 "capacity.worker_db_pool";;
  validate_optional (capacity_dispatcher_batch capacity) 1 500 "capacity.dispatcher_batch";;
  validate_optional (capacity_dispatcher_in_flight capacity) 1 512 "capacity.dispatcher_in_flight";;
  validate_optional (capacity_gateway_telemetry_in_flight capacity) 1 512 "capacity.gateway_telemetry_in_flight";;
  validate_optional (worker_tick_secs worker) 1 3600 "worker.tick_secs";;
  validate_optional (timeout_max_job_timeout_secs timeout) 1 MAX_CONFIGURABLE_JOB_TIMEOUT_SECS "timeout.max_job_timeout_secs";;
  validate_optional (worker_schedule_job_max_timeout_secs worker) 1 (default DEFAULT_MAX_JOB_TIMEOUT_SECS (timeout_max_job_timeout_secs timeout)) "worker.schedule_job_max_timeout_secs";;
  validate_optional (worker_agent_offline_timeout_secs worker) 1 86400 "worker.agent_offline_timeout_secs";;
  validate_optional (gateway_reconnect_grace_secs gateway) 0 3600 "gateway.reconnect_grace_secs";;
  validate_optional (gateway_command_output_event_ttl_secs gateway) 300 (30 * 24 * 60 * 60) "gateway.command_output_event_ttl_secs";;
  validate_optional (timeout_internal_http_connect_secs timeout) 1 300 "timeout.internal_http_connect_secs";;
  validate_optional (timeout_internal_http_write_secs timeout) 1 300 "timeout.internal_http_write_secs";;
  validate_optional (timeout_internal_http_read_secs timeout) 1 3600 "timeout.internal_http_read_secs";;
  validate_optional (timeout_dispatch_ack_secs timeout) 1 3600 "timeout.dispatch_ack_secs";;
  validate_optional (timeout_event_post_secs timeout) 1 3600 "timeout.event_post_secs";;
  validate_optional (timeout_control_deadline_grace_secs timeout) 0 3600 "timeout.control_deadline_grace_secs";;
  validate_optional (gateway_spool_ram_max_bytes gateway) (1024 * 1024) (16 * 1024 * 1024 * 1024) "gateway.spool_ram_max_bytes";;
  validate_optional (gateway_spool_disk_max_bytes gateway) (1024 * 1024) (1024 * 1024 * 1024 * 1024) "gateway.spool_disk_max_bytes";;
  validate_optional (gateway_spool_shutdown_flush_secs gateway) 1 3600 "gateway.spool_shutdown_flush_secs";;
  validate_optional (api_artifact_max_bytes api) (1024 * 1024) (4 * 1024 * 1024 * 1024) "api.artifact_max_bytes";;
  validate_optional (api_operator_auth_username_failed_attempt_limit api) 1 1000 "api.operator_auth_username_failed_attempt_limit";;
  validate_optional (api_operator_auth_ip_failed_attempt_limit api) 1 1000 "api.operator_auth_ip_failed_attempt_limit";;
  validate_optional (api_operator_auth_failed_attempt_window_secs api) 60 (30 * 24 * 60 * 60) "api.operator_auth_failed_attempt_window_secs";;
  validate_optional (api_operator_auth_lockout_secs api) 60 (30 * 24 * 60 * 60) "api.operator_auth_lockout_secs";;
  validate_optional_ip_nets (api_trusted_proxy_cidrs api) "api.trusted_proxy_cidrs";;
  validate_optional_tunnel_allocation_pool (network_tunnel_ipv4_allocation_pool_cidr (suite_network s)) PoolIpv4
    "network.tunnel_ipv4_allocation_pool_cidr";;
  validate_optional_tunnel_allocation_pool (network_tunnel_ipv6_allocation_pool_cidr (suite_network s)) PoolIpv6
    "network.tunnel_ipv6_allocation_pool_cidr".

(** [toml::from_str]; an error is its text. *)
Context (toml_from_str : str -> result str SuiteConfig).

Definition suite_parse (text : str) : result str SuiteConfig :=
  config ← map_err (fun error => lit "suite_config_invalid_toml:" ++ error) (toml_from_str text);
  suite_validate config;; Ok config.

(** The file does not exist, or what reading it gives. *)
Definition load_optional (file : option (result str str)) : result str SuiteConfig :=
  match file with
  | None => Ok (suite_of_version 1)
  | Some contents =>
      text ← map_err (fun error => lit "suite_config_read_failed:" ++ error) contents;
      suite_parse text
  end.
End Suite.

(** [read] is [fs::read_to_string]. *)
Definition read_secret_file_ref (read : str -> result str str) (path : option str) : result str (option str) :=
  match path ≫= (fun path => let path := trim path in if is_empty path then None else Some path) with
  | None => Ok None
  | Some path =>
      value ← map_err (fun error => lit "secret_ref_read_failed:" ++ path ++ lit ":" ++ error) (read path);
      Ok (Some (trim value))
  end.

(** * Redaction *)

Definition credential_url_key (lowered_key : str) : bool :=
  one_of lowered_key ["postgres_url"; "database_url"; "db_url"; "connection_url"; "connection_string";
                      "postgres_dsn"; "database_dsn"; "db_dsn"]
  || contains_str lowered_key (lit "dsn").

Definition string_contains_url_credentials (text : str) : bool :=
  match find_str (lit "://") text with
  | None => false
  | Some (_, rest) =>
      let authority := skipn 3 rest in
      contains_char 64 (fst (span (fun c => negb ((c =? 47) || (c =? 63) || (c =? 35))) authority))
  end.

Definition is_object (v : Value) : bool := match v with Object _ => true | _ => false end.

Definition should_redact_value (lowered_key : str) (v : Value) : bool :=
  if ends_with lowered_key (lit "_file") then false
  else if str_eqb lowered_key (lit "secrets") && is_object v then false
  else
    contains_str lowered_key (lit "secret") || ends_with lowered_key (lit "_key")
    || ends_with lowered_key (lit "_key_hex") || contains_str lowered_key (lit "token")
    || contains_str lowered_key (lit "password") || credential_url_key lowered_key
    || match as_str v with Some text => string_contains_url_credentials text | None => false end.

Definition REDACTED : Value := Str (lit "<redacted>").

Fixpoint redact_value (parent_key : option str) (v : Value) : Value :=
  match v with
  | Object members =>
      Object (map (fun '(child_key, child) =>
        let lowered := to_ascii_lowercase child_key in
        (child_key, if should_redact_value lowered child then REDACTED else redact_value (Some lowered) child)) members)
  | Array l => Array (map (redact_value parent_key) l)
  | Str text =>
      if match parent_key with
         | Some key => negb (ends_with key (lit "_file")) && string_contains_url_credentials text
         | None => false
         end
      then REDACTED else v
  | _ => v
  end.

Definition redact_suite_config_value (v : Value) : Value := redact_value None v.
