(* ===== verification/SuiteConfigProofs.v ===== *)
(** The suite configuration: what redaction shows, and what an accepted configuration
    is good for. *)

From S2P Require Import Prelude RustStd Json Net NetworkAllocator ClientIp Templates TemplateProofs JobTargets JobAdmission NftReconcileProofs SuiteConfig.

Open Scope Z_scope.

(** * Redaction *)

Definition occurs (w s : str) : Prop := exists a b, s = a ++ w ++ b.
Definition ends (w s : str) : Prop := exists a, s = a ++ w.

(** A key that names a secret, and not the file that holds it. *)
Definition names_secret (key : str) : Prop :=
  ~ ends (lit "_file") key /\
  (Exists (fun w => occurs (lit w) key) ["secret"; "token"; "password"; "dsn"]%string
   \/ Exists (fun w => ends (lit w) key) ["_key"; "_key_hex"]%string
   \/ Exists (fun w => key = lit w)
        ["postgres_url"; "database_url"; "db_url"; "connection_url"; "connection_string"]%string).

(** The first URL of the text, the one after its first [://], has a part before an [@] in its
    authority, which ends at the first [/], [?] or [#]. *)
Definition shows_credentials (text : str) : Prop :=
  exists scheme user rest, text = scheme ++ lit "://" ++ user ++ lit "@" ++ rest
    /\ ~ occurs (lit "://") (scheme ++ lit ":/")
    /\ Forall (fun c => c ∉ lit "/?#") user.

(** Nothing below [v] shows a secret: a member with the name of a secret is replaced, unless it is the object
    of secret references itself; no text under a key has credentials in its first URL, unless the key names a
    file. *)
Fixpoint hides (parent_key : option str) (v : Value) : Prop :=
  match v with
  | Object members =>
      foldr (fun '(child_key, child) rest =>
        let key := to_ascii_lowercase child_key in
        ((names_secret key -> child = Str (lit "<redacted>") \/ (key = lit "secrets" /\ exists l, child = Object l))
         /\ hides (Some key) child) /\ rest) True members
  | Array l => foldr (fun child rest => hides parent_key child /\ rest) True l
  | Str text =>
      match parent_key with
      | Some key => ~ ends (lit "_file") key -> ~ shows_credentials text
      | None => True
      end
  | _ => True
  end.

Lemma contains_str_occurs s w : contains_str s w = true <-> occurs w s.
Proof.
  unfold occurs. induction s as [|c s IH]; cbn [contains_str]; rewrite orb_true_iff, starts_with_spec.
  - split; [intros [[r E]|]; [by exists [], r|done]|]. intros (a & b & E). left. exists b. by destruct a.
  - rewrite IH. split.
    + intros [[r E]|(a & b & ->)]; [by exists [], r|by exists (c :: a), b].
    + intros ([|d a] & b & E); [left; by exists b|]. injection E as -> ->. right. by exists a, b.
Qed.

Lemma ends_with_ends s w : ends_with s w = true <-> ends w s.
Proof.
  unfold ends_with, ends. rewrite starts_with_spec. split; intros [r E].
  - exists (rev r). by rewrite <- (rev_involutive s), E, rev_app_distr, rev_involutive.
  - exists (rev r). by rewrite E, rev_app_distr.
Qed.

(** What [find] finds is the first occurrence. *)
Lemma find_str_first s a b :
  find_str (lit "://") s = Some (a, b) -> ~ occurs (lit "://") (a ++ lit ":/").
Proof.
  revert a. induction s as [|c s IH]; intros a; cbn [find_str].
  - destruct (starts_with _ _) eqn:E; [|done]. by apply starts_with_spec in E as [r E].
  - destruct (starts_with (c :: s) _) eqn:E.
    + intros [= <- <-] (x & y & Hxy). apply (f_equal length) in Hxy. rewrite !length_app in Hxy. cbn in Hxy. lia.
    + destruct (find_str _ s) as [[a' b']|] eqn:F; [|done]. intros [= <- <-] ([|d x] & y & Hxy).
      * cbn [app] in Hxy. destruct (find_str_app _ _ _ _ F) as (r & -> & _).
        assert (Hs : starts_with (c :: a' ++ lit "://" ++ r) (lit "://") = true); [|congruence].
        apply starts_with_spec. exists (y ++ lit "/" ++ r).
        change (lit "://") with (lit ":/" ++ lit "/") at 1.
        by rewrite <- app_assoc, (app_assoc (lit "://")), <- Hxy, <- app_comm_cons, <- app_assoc.
      * injection Hxy as -> Hxy. apply (IH a' eq_refl). by exists x, y.
Qed.

Lemma first_occurrence_unique a b x y :
  a ++ lit "://" ++ x = b ++ lit "://" ++ y -> ~ occurs (lit "://") (a ++ lit ":/") ->
  ~ occurs (lit "://") (b ++ lit ":/") -> a = b /\ x = y.
Proof.
  assert (Hlt : forall a b x y, a ++ lit "://" ++ x = b ++ lit "://" ++ y -> (length a < length b)%nat ->
    occurs (lit "://") (b ++ lit ":/")).
  { clear. intros a b x y E Hl. exists a, (skipn (length a + 3) (b ++ lit ":/")).
    rewrite <- (firstn_skipn (length a + 3) (b ++ lit ":/")) at 1. rewrite (app_assoc a). f_equal.
    transitivity (firstn (length a + 3) (a ++ lit "://" ++ x)).
    - rewrite E. change (lit "://") with (lit ":/" ++ lit "/"). rewrite <- app_assoc, (app_assoc b).
      rewrite (take_app_le (b ++ lit ":/") (lit "/" ++ y)); [done|]. rewrite length_app. cbn. lia.
    - rewrite app_assoc. apply take_app_length'. rewrite length_app. cbn. lia. }
  intros E Ha Hb. destruct (lt_eq_lt_dec (length a) (length b)) as [[Hl|Hl]|Hl].
  - by destruct Hb; eapply Hlt.
  - apply app_inj_1 in E as [-> E]; [|done]. by apply app_inv_head in E as ->.
  - by destruct Ha; eapply Hlt.
Qed.

Abbreviation authority_part := (fun c : char => negb ((c =? 47) || (c =? 63) || (c =? 35))).

Lemma authority_part_spec c : authority_part c = true <-> c ∉ lit "/?#".
Proof.
  change (lit "/?#") with [47; 63; 35]. rewrite !elem_of_cons, elem_of_nil.
  destruct (Z.eqb_spec c 47), (Z.eqb_spec c 63), (Z.eqb_spec c 35); cbn; intuition congruence.
Qed.

Lemma span_at s : 64 ∈ fst (span authority_part s) <->
  exists user rest, s = user ++ lit "@" ++ rest /\ Forall (fun c => c ∉ lit "/?#") user.
Proof.
  change (lit "@") with [64]. induction s as [|c s IH]; cbn [span].
  - split; [intros H; by apply elem_of_nil in H|]. by intros ([|] & rest & E & _).
  - destruct (authority_part c) eqn:Ec.
    + destruct (span authority_part s) as [u v]. cbn [fst] in *. rewrite elem_of_cons, IH. split.
      * intros [<-|(user & rest & -> & Hu)]; [by exists [], s|]. exists (c :: user), rest. split; [done|].
        constructor; [by apply authority_part_spec|done].
      * intros ([|d user] & rest & E & Hu); injection E as -> ->; [by left|]. apply Forall_cons in Hu as [_ Hu].
        right. by exists user, rest.
    + split; [intros H; by apply elem_of_nil in H|]. intros ([|d user] & rest & E & Hu); injection E as -> ->; [done|].
      apply Forall_cons in Hu as [Hd _]. apply authority_part_spec in Hd. cbv beta in Hd. congruence.
Qed.

(** The detector of the code decides whether a text shows credentials. *)
Lemma url_credentials_exact text : string_contains_url_credentials text = true <-> shows_credentials text.
Proof.
  unfold string_contains_url_credentials, shows_credentials. destruct (find_str (lit "://") text) as [[a b]|] eqn:F.
  - destruct (find_str_app _ _ _ _ F) as (r & -> & ->). assert (Hfirst := find_str_first _ _ _ F).
    change (skipn 3 (lit "://" ++ r)) with r. rewrite contains_char_spec, span_at. split.
    + intros (user & rest & -> & Hu). by exists a, user, rest.
    + intros (scheme & user & rest & E & Hf & Hu). apply first_occurrence_unique in E as [_ ->]; [|done..].
      by exists user, rest.
  - split; [done|]. intros (scheme & user & rest & -> & _). exfalso.
    assert (H : contains_str (scheme ++ lit "://" ++ user ++ lit "@" ++ rest) (lit "://") = true)
      by (apply contains_str_occurs; by eexists _, _).
    clear -F H. induction (scheme ++ _) as [|c s IH]; cbn [find_str contains_str] in F, H.
    + destruct (starts_with [] _); [done|]. done.
    + destruct (starts_with (c :: s) _); [done|]. destruct (find_str _ s) as [[]|]; [done|]. by apply IH.
Qed.

(** A member is replaced for its name or for the text it holds. *)
Lemma should_redact_spec key v :
  should_redact_value key v = true <->
  ~ (key = lit "secrets" /\ exists l, v = Object l) /\
  (names_secret key \/ (~ ends (lit "_file") key /\ exists text, v = Str text /\ shows_credentials text)).
Proof.
  unfold should_redact_value, names_secret. rewrite <- ends_with_ends.
  destruct (ends_with key (lit "_file")); [split; [done|naive_solver]|].
  assert (Hobj : str_eqb key (lit "secrets") && is_object v = true <-> key = lit "secrets" /\ exists l, v = Object l).
  { rewrite andb_true_iff, str_eqb_eq. destruct v; cbn; naive_solver. }
  destruct (str_eqb _ _ && is_object v); [split; [done|intros [Hno _]; by destruct Hno; apply Hobj]|].
  assert (Htext : match as_str v with Some text => string_contains_url_credentials text | None => false end = true <->
    exists text, v = Str text /\ shows_credentials text).
  { destruct v; cbn [as_str]; try (split; [done|by intros (text & ? & _)]). rewrite url_credentials_exact.
    split; [by eauto|by intros (text & [= <-] & Ht)]. }
  unfold credential_url_key. rewrite !orb_true_iff, Htext, !contains_str_occurs, !ends_with_ends, !Exists_cons, !Exists_nil.
  unfold one_of. cbn [existsb map]. rewrite !orb_true_iff, !str_eqb_eq.
  assert (Hdsn : forall w, contains_str (lit w) (lit "dsn") = true -> key = lit w -> occurs (lit "dsn") key)
    by (intros w Hw ->; by apply contains_str_occurs).
  pose proof (Hdsn "postgres_dsn"%string eq_refl). pose proof (Hdsn "database_dsn"%string eq_refl).
  pose proof (Hdsn "db_dsn"%string eq_refl). assert (false <> true) by done. clear Hdsn Htext. tauto.
Qed.

Lemma hides_object parent members :
  hides parent (Object members) <->
  Forall (fun '(child_key, child) =>
    let key := to_ascii_lowercase child_key in
    (names_secret key -> child = REDACTED \/ (key = lit "secrets" /\ exists l, child = Object l))
    /\ hides (Some key) child) members.
Proof. cbn [hides]. induction members as [|[k v] ms IH]; cbn [foldr]; rewrite ?Forall_cons, ?Forall_nil; [done|]. by rewrite IH. Qed.

Lemma hides_array parent l : hides parent (Array l) <-> Forall (hides parent) l.
Proof. cbn [hides]. induction l as [|v l IH]; cbn [foldr]; rewrite ?Forall_cons, ?Forall_nil; [done|]. by rewrite IH. Qed.

Lemma redacted_hides parent : hides parent REDACTED.
Proof. destruct parent; cbn [hides REDACTED]; [|done]. intros _ H%url_credentials_exact. by vm_compute in H. Qed.

Lemma redact_object parent v : (exists l, redact_value parent v = Object l) <-> exists l, v = Object l.
Proof.
  destruct v; cbn [redact_value]; try naive_solver. destruct (match parent with Some _ => _ | None => _ end); naive_solver.
Qed.

Lemma redact_text key text :
  negb (ends_with key (lit "_file")) && string_contains_url_credentials text = true <->
  ~ ends (lit "_file") key /\ shows_credentials text.
Proof. by rewrite andb_true_iff, negb_true_iff, <- not_true_iff_false, ends_with_ends, url_credentials_exact. Qed.

Lemma redact_hides v : forall parent, hides parent (redact_value parent v).
Proof.
  induction v as [| | |text|l IH|members IH] using value_nested_ind; intros parent; cbn [redact_value]; try done.
  - destruct parent as [key|]; [|done]. destruct (negb _ && _) eqn:E; [apply redacted_hides|]. cbn [hides].
    apply not_true_iff_false in E. rewrite redact_text in E. naive_solver.
  - apply hides_array, Forall_fmap. eapply Forall_impl; [exact IH|]. intros v H. apply H.
  - apply hides_object, Forall_fmap. eapply Forall_impl; [exact IH|]. intros [k v] H. cbn in H |- *.
    destruct (should_redact_value _ v) eqn:E; [split; [by left|apply redacted_hides]|]. split; [|apply H].
    apply not_true_iff_false in E. rewrite should_redact_spec in E. rewrite redact_object. intros Hn. right.
    assert (Hd : Decision (to_ascii_lowercase k = lit "secrets" /\ exists l, v = Object l)).
    { apply and_dec; [apply _|]. destruct v; try (right; naive_solver). left. eauto. }
    destruct Hd; [done|]. naive_solver.
Qed.

Lemma hidden_fixed v : forall parent, hides parent v -> redact_value parent v = v.
Proof.
  induction v as [| | |text|l IH|members IH] using value_nested_ind; intros parent H; cbn [redact_value]; try done.
  - destruct parent as [key|]; [|done]. cbn [hides] in H. destruct (negb _ && _) eqn:E; [|done].
    apply redact_text in E. naive_solver.
  - f_equal. apply hides_array in H. rewrite <- (map_id l) at 2. apply map_ext_in. intros v Hin%list_elem_of_In.
    rewrite Forall_forall in IH, H. by apply IH, H.
  - f_equal. apply hides_object in H. rewrite <- (map_id members) at 2. apply map_ext_in. intros [k v] Hin%list_elem_of_In.
    rewrite Forall_forall in IH, H. specialize (H (k, v) Hin) as [Hn Hv]. cbn [id]. f_equal.
    destruct (should_redact_value _ v) eqn:E; [|by apply (IH (k, v))].
    apply should_redact_spec in E as [Hno [Hs|(Hf & text & -> & Ht)]]; [|by destruct (Hv Hf)].
    by destruct (Hn Hs) as [->|].
Qed.

(** C19: redaction removes exactly what a configuration must not show: in the redacted value every member named
    as a secret, a token, a password, a key or a connection string is replaced, except the object [secrets]
    itself, whose members are treated one by one, and no text below a key has credentials in its first URL,
    except under keys that name files; a value is left as it is exactly when it shows none of this, and
    redacting again changes nothing. *)
Theorem redaction_exact v :
  hides None (redact_suite_config_value v)
  /\ (redact_suite_config_value v = v <-> hides None v)
  /\ redact_suite_config_value (redact_suite_config_value v) = redact_suite_config_value v.
Proof.
  unfold redact_suite_config_value. split; [apply redact_hides|]. split; [|apply hidden_fixed, redact_hides].
  split; [intros <-; apply redact_hides|apply hidden_fixed].
Qed.

(** Only the first URL of a text is looked at. *)
Example second_url_shown :
  redact_suite_config_value (json_object [("note", Str (lit "http://a/ and http://user:pw@b/"))]%string)
  = json_object [("note", Str (lit "http://a/ and http://user:pw@b/"))]%string.
Proof. vm_compute. reflexivity. Qed.

(** * Accepted configurations *)

Section Accepted.
Context {IpNet : Type} `{IpNetOps IpNet} `{EqDecision IpNet} (cidr_error : str -> str).

Lemma optional_ok value min max name u : validate_optional value min max name = Ok u -> forall v, value = Some v -> min <= v <= max.
Proof.
  unfold validate_optional, validate_range. intros H' v ->. apply reject_if_ok in H'. unfold in_range in H'. bools. lia.
Qed.

Lemma nets_accepted values name u :
  validate_optional_ip_nets (Some values) name = Ok u ->
  Forall (fun value => trim value <> [] /\ is_Some (net_parse (trim value))) values.
Proof.
  unfold validate_optional_ip_nets. intros H'. inv_bind. apply Forall_forall. intros value Hin%list_elem_of_In.
  eapply try_each_ok in H'; [|done]. apply reject_if_ok in H'. apply orb_false_iff in H' as [H1 H2].
  apply bool_decide_eq_false in H2. split; [by destruct (trim value)|]. by destruct (net_parse _).
Qed.

Lemma from_entries_ok values :
  Forall (fun value => trim value <> [] /\ is_Some (net_parse (trim value))) values ->
  forall acc, exists cidrs, try_fold (add_entry cidr_error) acc values = Ok cidrs
    /\ forall net, net ∈ cidrs <-> net ∈ acc \/ exists value, value ∈ values /\ net_parse (trim value) = Some net.
Proof.
  intros Hv. induction Hv as [|value values [Hne [net Hnet]] _ IH]; intros acc.
  - exists acc. split; [done|]. intros net. split; [by left|]. intros [?|(value & Hin & _)]; [done|]. by apply elem_of_nil in Hin.
  - cbn [try_fold].
    assert (add_entry cidr_error acc value = Ok (if bool_decide (net ∈ acc) then acc else acc ++ [net])) as ->.
    { unfold add_entry. destruct (trim value) as [|c t] eqn:Et; [done|]. cbn [is_empty]. rewrite Hnet.
      cbn [ok_or mbind result_bind]. by case_bool_decide. }
    cbn [mbind result_bind]. case_bool_decide as Hdup.
    + destruct (IH acc) as (cidrs & Hf & Hin). exists cidrs. split; [done|]. intros n. rewrite Hin. setoid_rewrite elem_of_cons.
      split; [naive_solver|]. intros [?|(v & [-> |?] & Hp)]; [by left| |by right; exists v].
      rewrite Hnet in Hp. simplify_eq. by left.
    + destruct (IH (acc ++ [net])) as (cidrs & Hf & Hin). exists cidrs. split; [done|]. intros n. rewrite Hin.
      rewrite elem_of_app, list_elem_of_singleton. setoid_rewrite elem_of_cons. split.
      * intros [[?| ->]|(v & ? & ?)]; [by left|right; exists value; naive_solver|right; naive_solver].
      * intros [?|(v & [-> |?] & Hp)]; [naive_solver| |right; naive_solver]. rewrite Hnet in Hp. simplify_eq. naive_solver.
Qed.

(** The pool an accepted text names has the right family and room for the two ends of a tunnel. *)
Lemma pool_accepted value family name u :
  validate_optional_tunnel_allocation_pool (Some value) family name = Ok u -> trim value <> [] ->
  exists net, net_parse (trim value) = Some net /\ net_is_v4 net = bool_decide (family = PoolIpv4)
    /\ 1 <= ip_width (net_is_v4 net) - net_prefix_len net.
Proof.
  unfold validate_optional_tunnel_allocation_pool. cbn [mbind option_bind]. intros H' Hne.
  replace (is_empty (trim value)) with false in H' by (by destruct (trim value)).
  destruct (net_parse (trim value)) as [net|]; [|done]. cbn [ok_or mbind result_bind] in H'. exists net. split; [done|].
  destruct family, (net_is_v4 net) eqn:E; try done; apply reject_if_ok in H'; apply Z.ltb_ge in H'; cbn [ip_width]; (split; [done|lia]).
Qed.

Lemma requested_within secs max_job : 1 <= secs <= max_job -> effective_job_max_timeout_secs (Some secs) max_job = Ok secs.
Proof.
  intros Hr. unfold effective_job_max_timeout_secs. cbv zeta. change (default _ (Some secs)) with secs.
  rewrite (Z.max_l secs 1), (proj2 (Z.ltb_ge _ _)) by lia. done.
Qed.

(** an accepted suite configuration can be used: its trusted proxies load, as exactly the networks it lists; the
    limit it sets for scheduled jobs is never refused when a job asks for it; its sign-in limits are positive and
    bounded; and an allocation pool it names has the right family and room for the two ends of a tunnel. *)
Theorem accepted_suite_usable s u :
  suite_validate s = Ok u ->
  (forall values, api_trusted_proxy_cidrs (suite_api s) = Some values ->
     exists cidrs, from_optional_entries cidr_error (Some values) = Ok cidrs
       /\ forall net, net ∈ cidrs <-> exists value, value ∈ values /\ net_parse (trim value) = Some net)
  /\ (forall secs, worker_schedule_job_max_timeout_secs (suite_worker s) = Some secs ->
       effective_job_max_timeout_secs (Some secs)
         (default DEFAULT_MAX_JOB_TIMEOUT_SECS (timeout_max_job_timeout_secs (suite_timeout s))) = Ok secs)
  /\ (forall limit, api_operator_auth_username_failed_attempt_limit (suite_api s) = Some limit
         \/ api_operator_auth_ip_failed_attempt_limit (suite_api s) = Some limit -> 1 <= limit <= 1000)
  /\ (forall value family,
       match family with
       | PoolIpv4 => network_tunnel_ipv4_allocation_pool_cidr (suite_network s)
       | PoolIpv6 => network_tunnel_ipv6_allocation_pool_cidr (suite_network s)
       end = Some value -> trim value <> [] ->
       exists net, net_parse (trim value) = Some net /\ net_is_v4 net = bool_decide (family = PoolIpv4)
         /\ 1 <= ip_width (net_is_v4 net) - net_prefix_len net).
Proof.
  unfold suite_validate. cbv zeta. intros Hs. inv_bind. split; [|split; [|split]].
  - intros values Hv.
    match goal with E : validate_optional_ip_nets _ _ = Ok _ |- _ => rewrite Hv in E; apply nets_accepted in E; rename E into Hn end.
    destruct (from_entries_ok values Hn []) as (cidrs & Hf & Hin). exists cidrs. split; [exact Hf|].
    intros net. rewrite Hin, elem_of_nil. naive_solver.
  - intros secs Hsecs.
    match goal with E : validate_optional (worker_schedule_job_max_timeout_secs _) _ _ _ = Ok _ |- _ =>
      pose proof (optional_ok _ _ _ _ _ E secs Hsecs) as Hr end.
    by apply requested_within.
  - intros limit [Hl|Hl];
      match goal with
      | E : validate_optional (api_operator_auth_username_failed_attempt_limit _) _ _ _ = Ok _,
        E' : validate_optional (api_operator_auth_ip_failed_attempt_limit _) _ _ _ = Ok _ |- _ =>
          first [exact (optional_ok _ _ _ _ _ E limit Hl)|exact (optional_ok _ _ _ _ _ E' limit Hl)]
      end.
  - intros value family Hv Hne.
    match goal with
    | E : validate_optional_tunnel_allocation_pool _ PoolIpv4 _ = Ok _,
      E' : validate_optional_tunnel_allocation_pool _ PoolIpv6 _ = Ok _ |- _ =>
        destruct family; [rewrite Hv in E; by eapply pool_accepted|rewrite Hv in E'; by eapply pool_accepted]
    end.
Qed.
End Accepted.

(** * A sample *)

#[local] Instance sample_nets : IpNetOps (bool * Z) := {|
  net_new _ _ := None; net_from _ := (true, 32);
  net_parse s := if str_eqb s (lit "10.0.0.0/8") then Some (true, 8) else None;
  net_trunc n := n; net_is_v4 := fst; net_prefix_len := snd; net_network _ := 0; net_broadcast _ := 0;
  net_contains _ _ := false |}.

Definition sample_suite : SuiteConfig :=
  let suite := suite_of_version 1 in
  let api := mkSuiteApiConfig None None None None None (Some [lit " 10.0.0.0/8 "]) (Some 5) (Some 20) None None in
  let worker := mkSuiteWorkerConfig None None None None None None None None None None None None None None None None None
    None (Some 600) None in
  let timeout := mkSuiteTimeoutConfig (Some 900) None None None None None None in
  mkSuite 1 api (suite_gateway suite) worker (mkSuiteNetworkConfig (Some (lit "10.0.0.0/8")) None)
    (suite_database suite) (suite_storage suite) (suite_capacity suite) timeout (suite_secrets suite).

Lemma accepted_suite_usable_witness :
  suite_validate sample_suite = Ok tt
  /\ effective_job_max_timeout_secs (Some 600) 900 = Ok 600
  /\ exists cidrs, from_optional_entries (fun _ => []) (Some [lit " 10.0.0.0/8 "]) = Ok cidrs /\ (true, 8) ∈ cidrs.
Proof.
  assert (suite_validate sample_suite = Ok tt) as Hv by (vm_compute; reflexivity). split; [exact Hv|].
  destruct (accepted_suite_usable (fun _ => []) sample_suite tt Hv) as (Hp & Ht & _).
  split; [exact (Ht 600 eq_refl)|]. destruct (Hp [lit " 10.0.0.0/8 "] eq_refl) as (cidrs & Hf & Hin).
  exists cidrs. split; [exact Hf|]. apply Hin. exists (lit " 10.0.0.0/8 "). split; [by apply list_elem_of_singleton|].
  vm_compute. reflexivity.
Defined.
