(* ===== verification/CommandLedger.v ===== *)
(** The durable command ledger of the agent: crates/agent/src/execution/command_ledger.rs,
    and the file operations it shares with runtime/runtime_config_cache.rs.

    One file per finished job keeps its payload hash and a compact terminal
    output, so that a job delivered again after a restart is answered and not run.
    A directory is the map from its file names to contents and modification times.
    Which operations of the operating system fail, and the random ids, are input
    streams of the disk, consumed in order; a failed write leaves the file empty.
    The flush of the directory itself only logs and is left out.  Directory scans
    run in the order of the map: the order only decides which of the failures
    meets which file, and the entries are sorted before any is dropped for space. *)

From stdpp Require Import gmap sorting.
From S2P Require Import Prelude RustStd Json Auth TagOrder.

Open Scope Z_scope.

(** * Actions *)

(** [anyhow::Error]: the chain of messages, outermost first, and the
    [CommandCanceled] at its root, if that is what it is. *)
Record Error := mkError {
  err_canceled : option (string * str);
  err_chain : list str;
}.

Definition error_msg (text : str) : Error := mkError None [text].
Definition with_context (context : str) (e : Error) : Error := mkError (err_canceled e) (context :: err_chain e).
(** [error.to_string()] and [format!("{error:#}")]. *)
Definition error_to_string (e : Error) : str := hd [] (err_chain e).
Definition error_alternate (e : Error) : str := join (lit ": ") (err_chain e).

(** A computation on a state that may fail; the state is kept on failure. *)
Definition Act (S A : Type) : Type := S -> result Error A * S.

#[export] Instance act_ret {S} : MRet (Act S) := fun A a s => (Ok a, s).
#[export] Instance act_bind {S} : MBind (Act S) :=
  fun A B k m s =>
    match m s with
    | (Ok a, s') => k a s'
    | (Err e, s') => (Err e, s')
    end.

Lemma act_bind_eq {S A B} (m : Act S A) (k : A -> Act S B) s :
  (m ≫= k) s = match m s with (Ok a, s') => k a s' | (Err e, s') => (Err e, s') end.
Proof. reflexivity. Qed.

Definition act_fail {S A} (e : Error) : Act S A := fun s => (Err e, s).
Definition act_get {S} : Act S S := fun s => (Ok s, s).
Definition act_put {S} (s' : S) : Act S unit := fun _ => (Ok tt, s').
Definition act_modify {S} (f : S -> S) : Act S unit := fun s => (Ok tt, f s).

(** [for x in l { f(x)? }]. *)
Fixpoint act_each {S A} (f : A -> Act S unit) (l : list A) : Act S unit :=
  match l with
  | [] => mret tt
  | a :: l' => f a;; act_each f l'
  end.

(** * Disk *)

Record File := mkFile {
  file_bytes : list Z;
  file_modified : option Z;     (* seconds since the epoch; [None] where they cannot be read *)
}.

Abbreviation Directory := (gmap str File).

Record Disk := mkDisk {
  files : Directory;
  disk_now : Z;                 (* [unix_now()] *)
  disk_faults : list bool;      (* which operations to come fail *)
  disk_ids : list Z;            (* [Uuid::new_v4()] to come *)
  cleanup_ready : bool;         (* the permit of the ledger's [Notify] *)
}.

Definition set_files (m : Directory) (d : Disk) : Disk :=
  mkDisk m (disk_now d) (disk_faults d) (disk_ids d) (cleanup_ready d).
Definition set_ready (b : bool) (d : Disk) : Disk :=
  mkDisk (files d) (disk_now d) (disk_faults d) (disk_ids d) b.

Definition drop_fault (d : Disk) : Disk :=
  mkDisk (files d) (disk_now d) (tl (disk_faults d)) (disk_ids d) (cleanup_ready d).
(** What follows an operation of the operating system that fails, or succeeds. *)
Definition if_fault {A} (failing succeeding : Act Disk A) : Act Disk A :=
  fun d => (if hd false (disk_faults d) then failing else succeeding) (drop_fault d).
Definition new_v4 : Act Disk Z :=
  fun d => (Ok (hd 0 (disk_ids d)), mkDisk (files d) (disk_now d) (disk_faults d) (tl (disk_ids d)) (cleanup_ready d)).

Section Files.
Context (os_error : str).

(** An operation of the operating system on the directory. *)
Definition io (context : str) (f : Directory -> Directory) : Act Disk unit :=
  if_fault (act_fail (mkError None [context; os_error])) (act_modify (fun d => set_files (f (files d)) d)).

(** [create_private_file_new_async]: fails where the file exists. *)
Definition create_private_file_new (name context : str) : Act Disk unit :=
  d ← act_get;
  if bool_decide (is_Some (files d !! name)) then act_fail (mkError None [context; os_error])
  else io context <[ name := mkFile [] (Some (disk_now d)) ]>.

Definition write_all (name : str) (bytes : list Z) (context : str) : Act Disk unit :=
  d ← act_get; io context <[ name := mkFile bytes (Some (disk_now d)) ]>.

Definition sync_all (context : str) : Act Disk unit := io context id.

Definition rename_file (from to context : str) : Act Disk unit :=
  io context (fun m => match m !! from with Some file => <[ to := file ]> (delete from m) | None => m end).

Definition remove_file (name context : str) : Act Disk unit := io context (delete name).

(** [tokio::fs::read]: [None] where there is no such file. *)
Definition read_file (name context : str) : Act Disk (option (list Z)) :=
  d ← act_get;
  match files d !! name with
  | None => mret None
  | Some file =>
      if_fault (act_fail (mkError None [context; os_error])) (mret (Some (file_bytes file)))
  end.
End Files.

(** [path.file_stem()] and [path.extension()] of a file name. *)
Definition split_extension (name : str) : str * option str :=
  match rsplit_once 46 name with
  | Some (stem, extension) => if is_empty stem then (name, None) else (stem, Some extension)
  | None => (name, None)
  end.

(** * Entries *)

Definition LEDGER_SCHEMA_VERSION : Z := 1.
Definition LEDGER_RETENTION_SECS : Z := 72 * 60 * 60.
Definition LEDGER_MAX_ENTRIES : Z := 8192.
Definition LEDGER_MAX_BYTES : Z := 32 * 1024 * 1024.

Inductive OutputStream := Stdout | Stderr | Pty | Status.

Record CommandOutput := mkCommandOutput {
  co_job_id : Z;
  co_stream : OutputStream;
  co_data : list Z;
  co_exit_code : option Z;
  co_done : bool;
}.

Record SequencedCommandOutput := mkSequenced {
  sq_seq : Z;
  sq_output : CommandOutput;
}.

Definition output_stream_name (stream : OutputStream) : string :=
  match stream with Stdout => "stdout" | Stderr => "stderr" | Status => "status" | Pty => "pty" end.

Record CommandLedgerEntry := mkEntry {
  ce_schema_version : Z;
  ce_job_id : Z;
  ce_payload_hash : str;
  ce_completed_unix : Z;
  ce_terminal_output : option SequencedCommandOutput;
  ce_truncated : bool;
}.

(** What the agent uses of the crates it links: SHA-256 and hex, the text of ids
    ([uuid]), the text of JSON values and of ledger entries ([serde_json]), and
    the message of an operating-system error. *)
Class Platform := {
  sha256 : list Z -> list Z;
  hex_encode : list Z -> str;
  uuid_text : Z -> str;
  uuid_parse : str -> option Z;
  json_bytes : Value -> list Z;
  entry_json : CommandLedgerEntry -> list Z;
  entry_parse : list Z -> option CommandLedgerEntry;
  os_error : str;
}.

(** Documented behaviour: what is printed is read back, and the text of an id is
    hexadecimal digits and hyphens. *)
Class PlatformLaws (P : Platform) : Prop := {
  uuid_round_trip id : uuid_parse (uuid_text id) = Some id;
  uuid_text_plain id : 46 ∉ uuid_text id /\ uuid_text id <> [];
  entry_round_trip e : entry_parse (entry_json e) = Some e;
}.

Section Ledger.
Context `{Platform}.

(** The struct holds the path of the directory whose contents are the disk. *)
Record CommandLedger := mkLedger { ledger_root : str }.

Definition hash_of (payload : list Z) : str := payload_hash sha256 hex_encode payload.

Definition ledger_path (ledger : CommandLedger) (name : str) : str := ledger_root ledger ++ lit "/" ++ name.
Definition ledger_context (ledger : CommandLedger) (text : string) (name : str) : str :=
  lit text ++ ledger_path ledger name.

Definition entry_path (job_id : Z) : str := uuid_text job_id ++ lit ".json".

Definition ledger_lookup (ledger : CommandLedger) (job_id : Z) : Act Disk (option CommandLedgerEntry) :=
  let path := entry_path job_id in
  bytes ← read_file os_error path (ledger_context ledger "failed to read command ledger " path);
  match bytes with
  | None => mret None
  | Some bytes =>
      match entry_parse bytes with
      | None => act_fail (error_msg (ledger_context ledger "failed to decode command ledger " path))
      | Some entry =>
          mret (if negb (ce_schema_version entry =? LEDGER_SCHEMA_VERSION) || negb (ce_job_id entry =? job_id)
                then None else Some entry)
      end
  end.

Definition temp_path (job_id id : Z) : str := lit "." ++ uuid_text job_id ++ lit "." ++ uuid_text id ++ lit ".tmp".

Definition ledger_record (ledger : CommandLedger) (job_id : Z) (payload_hash : str)
    (terminal_output : option SequencedCommandOutput) (truncated : bool) : Act Disk unit :=
  d ← act_get;
  let entry := mkEntry LEDGER_SCHEMA_VERSION job_id payload_hash (disk_now d) terminal_output truncated in
  let final_path := entry_path job_id in
  id ← new_v4;
  let temp := temp_path job_id id in
  create_private_file_new os_error temp (ledger_context ledger "failed to create command ledger temp " temp);;
  write_all os_error temp (entry_json entry) (ledger_context ledger "failed to write command ledger temp " temp);;
  sync_all os_error (ledger_context ledger "failed to fsync command ledger temp " temp);;
  rename_file os_error temp final_path (ledger_context ledger "failed to promote command ledger entry " final_path);;
  act_modify (set_ready true).

Definition write_test_path (id : Z) : str := lit ".write-test-" ++ uuid_text id ++ lit ".tmp".

Definition write_test (ledger : CommandLedger) : Act Disk unit :=
  id ← new_v4;
  let path := write_test_path id in
  create_private_file_new os_error path (ledger_context ledger "failed to create command ledger write test " path);;
  write_all os_error path (lit "ok") (ledger_context ledger "failed to write command ledger write test " path);;
  sync_all os_error (ledger_context ledger "failed to fsync command ledger write test " path);;
  remove_file os_error path (ledger_context ledger "failed to remove command ledger write test " path).

(** * Cleanup *)

Definition is_ledger_entry_file (name : str) : bool :=
  let '(stem, extension) := split_extension name in
  bool_decide (extension = Some (lit "json")) && bool_decide (is_Some (uuid_parse stem)).

(** A failed removal is logged. *)
Definition remove_ledger_entry (name : str) : Act Disk unit :=
  if_fault (mret tt) (act_modify (fun d => set_files (delete name (files d)) d)).

(** Name, modification time and size of an entry. *)
Record ScannedEntry := mkScanned { se_name : str; se_modified : Z; se_bytes : Z }.

(** The loop of the directory scan. *)
Fixpoint scan_entries (now : Z) (names : list (str * File)) (entries : list ScannedEntry)
  : Act Disk (list ScannedEntry) :=
  match names with
  | [] => mret entries
  | (name, file) :: names' =>
      if_fault (act_fail (error_msg os_error))
        (if negb (is_ledger_entry_file name) then scan_entries now names' entries
         else
           if_fault (scan_entries now names' entries)
             (let modified := default now (file_modified file) in
              if LEDGER_RETENTION_SECS <? saturating_sub now modified
              then remove_ledger_entry name;; scan_entries now names' entries
              else scan_entries now names' (entries ++ [mkScanned name modified (vec_len (file_bytes file))])))
  end.

(** Newest first; entries of the same second by name, last first. *)
Definition newest_first (l r : ScannedEntry) : Prop :=
  then_with (Z.compare (se_modified r) (se_modified l)) (str_cmp (se_name r) (se_name l)) <> Gt.

#[export] Instance newest_first_dec : RelDecision newest_first.
Proof. unfold newest_first. intros l r. apply _. Defined.

(** [usize] and [u64] are 64 bits wide. *)
Fixpoint enforce_limits (kept_entries kept_bytes : Z) (entries : list ScannedEntry) : Act Disk unit :=
  match entries with
  | [] => mret tt
  | entry :: entries' =>
      let kept_entries := saturating_add u64_max kept_entries 1 in
      let kept_bytes := saturating_add u64_max kept_bytes (se_bytes entry) in
      (if (LEDGER_MAX_ENTRIES <? kept_entries) || (LEDGER_MAX_BYTES <? kept_bytes)
       then remove_ledger_entry (se_name entry) else mret tt);;
      enforce_limits kept_entries kept_bytes entries'
  end.

Definition ledger_cleanup (ledger : CommandLedger) : Act Disk unit :=
  if_fault (act_fail (mkError None [lit "failed to scan command ledger " ++ ledger_root ledger; os_error]))
    (d ← act_get;
     entries ← scan_entries (disk_now d) (map_to_list (files d)) [];
     enforce_limits 0 0 (merge_sort newest_first entries)).

(** One turn of [run_cleanup_consumer]: nothing before a record notifies it. *)
Definition cleanup_turn (ledger : CommandLedger) : Act Disk unit :=
  d ← act_get;
  if cleanup_ready d then act_modify (set_ready false);; ledger_cleanup ledger else mret tt.

(** [open_at]; the directory is there. *)
Definition open_at (root : str) : Act Disk CommandLedger :=
  if_fault (act_fail (mkError None [lit "failed to create command ledger " ++ root; os_error]))
    (act_modify (set_ready false);;
     let ledger := mkLedger root in
     write_test ledger;;
     ledger_cleanup ledger;;
     mret ledger).

(** * Terminal outputs *)

(** The document that stands for an output that was not kept. *)
Definition replay_unavailable (reason : string) (output : SequencedCommandOutput) : list Z :=
  let o := sq_output output in
  json_bytes (json_object
    [("type", Str (lit "duplicate_job_replay_unavailable"));
     ("status", Str (lit "failed"));
     ("job_id", Str (uuid_text (co_job_id o)));
     ("reason", Str (lit reason));
     ("message", Str (lit "duplicate command replay is lossy; original terminal output requires human review"));
     ("original_stream", Str (lit (output_stream_name (co_stream o))));
     ("original_exit_code", match co_exit_code o with Some c => json_int c | None => Null end);
     ("original_data_size_bytes", json_int (vec_len (co_data o)));
     ("original_data_sha256_hex", Str (hash_of (co_data o)))]%string).

Definition unavailable_output (reason : string) (output : SequencedCommandOutput) : SequencedCommandOutput :=
  mkSequenced (sq_seq output)
    (mkCommandOutput (co_job_id (sq_output output)) Status (replay_unavailable reason output) (Some 75) true).

Definition compact_ledger_terminal_output (output : option SequencedCommandOutput) : option SequencedCommandOutput :=
  option_map (unavailable_output "command_ledger_replay") output.
End Ledger.
