(* ===== verification/CommandLedgerProofs.v ===== *)
(** What the command ledger promises: recording is atomic, and cleaning keeps the
    newest entries within the limits. *)

From stdpp Require Import gmap sorting.
From S2P Require Import Prelude RustStd Json Auth TagOrder TagOrderProofs CommandLedger.

Open Scope Z_scope.

#[local] Arguments lit : simpl never.
#[local] Arguments temp_path : simpl never.
#[local] Arguments entry_path : simpl never.
#[local] Arguments write_test_path : simpl never.
#[local] Arguments ledger_context : simpl never.

(** * Specification *)

Section Spec.
Context `{Platform}.

(** What the directory says of a job: nothing, an entry, or a file that cannot be
    decoded. *)
Definition entry_of (m : Directory) (job_id : Z) : option (option CommandLedgerEntry) :=
  match m !! entry_path job_id with
  | None => Some None
  | Some file =>
      match entry_parse (file_bytes file) with
      | None => None
      | Some entry =>
          Some (if negb (ce_schema_version entry =? LEDGER_SCHEMA_VERSION) || negb (ce_job_id entry =? job_id)
                then None else Some entry)
      end
  end.

Definition modified_at (now : Z) (file : File) : Z := default now (file_modified file).

(** An entry young enough to keep. *)
Definition fresh (d : Disk) (e : ScannedEntry) : Prop :=
  exists file, files d !! se_name e = Some file /\ is_ledger_entry_file (se_name e) = true /\
    e = mkScanned (se_name e) (modified_at (disk_now d) file) (vec_len (file_bytes file)) /\
    saturating_sub (disk_now d) (modified_at (disk_now d) file) <= LEDGER_RETENTION_SECS.

Definition total_bytes (l : list ScannedEntry) : Z := foldr (fun e n => se_bytes e + n) 0 l.
Definition newer (a b : ScannedEntry) : Prop := se_modified b <= se_modified a.
End Spec.

(** * Names *)

Section Names.
Context `{PlatformLaws}.

Lemma uuid_text_inj a b : uuid_text a = uuid_text b -> a = b.
Proof. intros E. apply (f_equal uuid_parse) in E. rewrite !uuid_round_trip in E. by injection E. Qed.

Lemma entry_path_inj a b : entry_path a = entry_path b -> a = b.
Proof. unfold entry_path. intros E. apply app_inv_tail in E. by apply uuid_text_inj. Qed.

(** Names that end in [.tmp] are no entries. *)
Lemma tmp_not_entry name job_id : name ++ lit ".tmp" <> entry_path job_id.
Proof.
  unfold entry_path. intros E. apply (f_equal (fun l => List.last l 0)) in E.
  change (lit ".tmp") with (lit ".tm" ++ [112]) in E. change (lit ".json") with (lit ".jso" ++ [110]) in E.
  rewrite !app_assoc, !List.last_last in E. done.
Qed.

Lemma temp_not_entry job id job_id : temp_path job id <> entry_path job_id.
Proof. unfold temp_path. rewrite !app_assoc. apply tmp_not_entry. Qed.

Lemma write_test_not_entry id job_id : write_test_path id <> entry_path job_id.
Proof. unfold write_test_path. rewrite !app_assoc. apply tmp_not_entry. Qed.

Lemma entry_path_is_entry job_id : is_ledger_entry_file (entry_path job_id) = true.
Proof.
  destruct (uuid_text_plain job_id) as [_ Hne].
  unfold is_ledger_entry_file, split_extension, rsplit_once, entry_path.
  assert (split_once 46 (rev (uuid_text job_id ++ lit ".json")) = Some (rev (lit "json"), rev (uuid_text job_id))) as ->.
  { apply split_once_spec. rewrite rev_app_distr. split; [done|]. rewrite list_elem_of_In. vm_compute. intuition discriminate. }
  cbn [mbind option_bind]. rewrite !rev_involutive.
  destruct (uuid_text job_id) as [|c s] eqn:E; [done|]. cbn [is_empty].
  rewrite <- E, uuid_round_trip. apply andb_true_intro; split; apply bool_decide_eq_true; eauto.
Qed.
End Names.

(** * Recording *)

Section Record.
Context `{PlatformLaws}.

Lemma entry_of_other (m m' : Directory) job_id : m' !! entry_path job_id = m !! entry_path job_id ->
  entry_of m' job_id = entry_of m job_id.
Proof. unfold entry_of. by intros ->. Qed.

(** What an operation does to the directory, when it succeeds; nothing else. *)
Definition changes (m : Act Disk unit) (f : Disk -> Directory) : Prop :=
  forall d, match m d with
            | (Ok _, d') => files d' = f d /\ disk_now d' = disk_now d
            | (Err _, d') => files d' = files d /\ disk_now d' = disk_now d
            end.

Lemma io_changes context f : changes (io os_error context f) (fun d => f (files d)).
Proof. intros d. unfold io, if_fault. by destruct (hd false (disk_faults d)). Qed.

Lemma create_changes name context :
  changes (create_private_file_new os_error name context)
    (fun d => <[ name := mkFile [] (Some (disk_now d)) ]> (files d)).
Proof.
  intros d. unfold create_private_file_new. rewrite act_bind_eq. cbn [act_get].
  destruct (bool_decide _); [done|]. apply io_changes.
Qed.

Lemma write_changes name bytes context :
  changes (write_all os_error name bytes context) (fun d => <[ name := mkFile bytes (Some (disk_now d)) ]> (files d)).
Proof. intros d. unfold write_all. rewrite act_bind_eq. cbn [act_get]. apply io_changes. Qed.

(** A record only ever writes its temporary file and, last, its entry. *)
Lemma record_files ledger job hash terminal truncated d :
  exists id,
  let '(r, d') := ledger_record ledger job hash terminal truncated d in
  match r with
  | Ok _ => files d' !! entry_path job
            = Some (mkFile (entry_json (mkEntry LEDGER_SCHEMA_VERSION job hash (disk_now d) terminal truncated))
                     (Some (disk_now d))) /\
            forall name, name <> temp_path job id -> name <> entry_path job -> files d' !! name = files d !! name
  | Err _ => forall name, name <> temp_path job id -> files d' !! name = files d !! name
  end.
Proof.
  exists (hd 0 (disk_ids d)). unfold ledger_record. rewrite act_bind_eq. cbn [act_get].
  rewrite act_bind_eq. cbn [new_v4]. set (d0 := mkDisk _ _ _ _ _).
  set (temp := temp_path job _). cbv zeta.
  rewrite act_bind_eq. pose proof (create_changes temp (ledger_context ledger "failed to create command ledger temp " temp) d0) as Hs.
  destruct (create_private_file_new _ _ _ d0) as [[[]|e] d1]; destruct Hs as [F1 N1]; [|intros name _; by rewrite F1].
  rewrite act_bind_eq. pose proof (write_changes temp (entry_json (mkEntry LEDGER_SCHEMA_VERSION job hash (disk_now d)
    terminal truncated)) (ledger_context ledger "failed to write command ledger temp " temp) d1) as Hs.
  destruct (write_all _ _ _ _ d1) as [[[]|e] d2]; destruct Hs as [F2 N2];
    [|intros name Hn; by rewrite F2, F1, lookup_insert_ne by congruence].
  rewrite act_bind_eq. pose proof (io_changes (ledger_context ledger "failed to fsync command ledger temp " temp) id d2) as Hs.
  unfold sync_all. destruct (io _ _ id d2) as [[[]|e] d3]; destruct Hs as [F3 N3]; unfold id in F3;
    [|intros name Hn; by rewrite F3, F2, F1, !lookup_insert_ne by congruence].
  rewrite act_bind_eq. unfold rename_file.
  match goal with |- context [io os_error ?c ?f d3] => pose proof (io_changes c f d3) as Hs; destruct (io os_error c f d3) as [[[]|e] d4] end;
    destruct Hs as [F4 N4]; [|intros name Hn; by rewrite F4, F3, F2, F1, !lookup_insert_ne by congruence].
  cbn [act_modify set_ready files]. rewrite F4, F3, F2, lookup_insert_eq, lookup_insert_eq.
  split; [by rewrite N1|]. intros name Hn He.
  rewrite lookup_insert_ne, lookup_delete_ne, lookup_insert_ne, F1 by congruence. by rewrite lookup_insert_ne by congruence.
Qed.

Lemma record_entry ledger job hash terminal truncated d :
  let '(r, d') := ledger_record ledger job hash terminal truncated d in
  (entry_of (files d') job = match r with
                             | Ok _ => Some (Some (mkEntry LEDGER_SCHEMA_VERSION job hash (disk_now d) terminal truncated))
                             | Err _ => entry_of (files d) job
                             end) /\
  forall other, other <> job -> entry_of (files d') other = entry_of (files d) other.
Proof.
  destruct (record_files ledger job hash terminal truncated d) as [id Hr].
  destruct (ledger_record _ _ _ _ _ d) as [[[]|e] d'].
  - destruct Hr as [Hj Ho]. split.
    + unfold entry_of. rewrite Hj. cbn [file_bytes]. rewrite entry_round_trip. cbn. by rewrite Z.eqb_refl.
    + intros other Hne. apply entry_of_other, Ho; [|by intros ->%entry_path_inj].
      intros E. by apply (temp_not_entry job id other).
  - split; [|intros other _]; apply entry_of_other, Hr; intros E; by eapply temp_not_entry.
Qed.

(** C15: Recording a job is atomic: when it succeeds, the job's entry is exactly
    what was recorded; when any step fails, the job's entry is what it was; and no
    other job's entry changes in either case. *)
Theorem record_atomic ledger job hash terminal truncated d :
  let '(r, d') := ledger_record ledger job hash terminal truncated d in
  (entry_of (files d') job = match r with
                             | Ok _ => Some (Some (mkEntry LEDGER_SCHEMA_VERSION job hash (disk_now d) terminal truncated))
                             | Err _ => entry_of (files d) job
                             end) /\
  forall other, other <> job -> entry_of (files d') other = entry_of (files d) other.
Proof. apply record_entry. Qed.

Lemma lookup_files ledger job d : files (snd (ledger_lookup ledger job d)) = files d.
Proof.
  unfold ledger_lookup, read_file, if_fault, act_get, mbind, act_bind, mret, act_ret. cbn.
  destruct (files d !! _) as [file|]; [|done]. destruct (hd false _); cbn; [done|]. by destruct (entry_parse _).
Qed.

Lemma lookup_entry_of ledger job d o : fst (ledger_lookup ledger job d) = Ok o -> entry_of (files d) job = Some o.
Proof.
  unfold ledger_lookup, read_file, if_fault, act_get, mbind, act_bind, mret, act_ret, entry_of. cbn.
  destruct (files d !! _) as [file|]; [|by intros [= <-]]. destruct (hd false _); cbn; [done|].
  destruct (entry_parse _); cbn; [|done]. by intros [= <-].
Qed.

Lemma lookup_no_fault ledger job d o : disk_faults d = [] -> entry_of (files d) job = Some o ->
  fst (ledger_lookup ledger job d) = Ok o.
Proof.
  intros Hf. unfold ledger_lookup, read_file, if_fault, act_get, mbind, act_bind, mret, act_ret, entry_of. cbn.
  destruct (files d !! _) as [file|]; [|by intros [= <-]]. cbn. rewrite Hf. cbn.
  destruct (entry_parse _); cbn; [|done]. by intros [= <-].
Qed.
End Record.

(** * Cleanup *)

Lemma flip_order {A} (cmp : A -> A -> comparison) `{CmpOrder A cmp} : CmpOrder (fun x y => cmp y x).
Proof.
  split.
  - intros x y. apply (cmp_opp cmp).
  - intros x y z H1 H2. by apply (cmp_trans cmp z y x).
  - intros x y z H1. symmetry. by apply (cmp_eq_r cmp).
Qed.

#[export] Instance newest_first_order :
  CmpOrder (fun l r => then_with (Z.compare (se_modified r) (se_modified l)) (str_cmp (se_name r) (se_name l))).
Proof.
  pose proof (pullback_order (fun e => (se_modified e, as_bytes (se_name e))) (lex_cmp Z.compare bytes_cmp)) as Ho.
  exact (flip_order _).
Qed.

Section Cleanup.
Context `{Platform}.

(** Without failures the disk only changes in its files. *)
Definition quiet (d : Disk) : Prop := disk_faults d = [].

Lemma drop_quiet d : quiet d -> quiet (drop_fault d).
Proof. unfold quiet, drop_fault. cbn. by intros ->. Qed.

Lemma if_quiet {A} (failing succeeding : Act Disk A) d : quiet d ->
  if_fault failing succeeding d = succeeding (drop_fault d).
Proof. unfold if_fault. by intros ->. Qed.

Lemma remove_quiet name d : quiet d ->
  remove_ledger_entry name d = (Ok tt, set_files (delete name (files d)) (drop_fault d)).
Proof. intros Hq. unfold remove_ledger_entry. by rewrite if_quiet. Qed.

Definition remove_all (names : list str) (m : Directory) : Directory := foldl (fun m name => delete name m) m names.

Lemma remove_all_lookup names m name :
  remove_all names m !! name = if bool_decide (name ∈ names) then None else m !! name.
Proof.
  revert m. induction names as [|x names IH]; intros m; cbn; [done|].
  change (foldl _ _ _) with (remove_all names (delete x m)). rewrite IH.
  destruct (decide (name ∈ names)) as [Hin|Hin].
  - rewrite !bool_decide_true by (set_solver || done). done.
  - rewrite (bool_decide_false _ Hin). destruct (decide (name = x)) as [->|Hne].
    + rewrite bool_decide_true by set_solver. apply lookup_delete_eq.
    + rewrite bool_decide_false by set_solver. by apply lookup_delete_ne.
Qed.

(** The entries of a listing, and those that are too old. *)
Definition scanned (now : Z) (names : list (str * File)) : list ScannedEntry :=
  map (fun '(name, file) => mkScanned name (modified_at now file) (vec_len (file_bytes file)))
    (List.filter (fun '(name, _) => is_ledger_entry_file name) names).
Definition expired (now : Z) (e : ScannedEntry) : bool := LEDGER_RETENTION_SECS <? saturating_sub now (se_modified e).

Lemma scanned_cons now name file names :
  scanned now ((name, file) :: names)
  = if is_ledger_entry_file name
    then mkScanned name (modified_at now file) (vec_len (file_bytes file)) :: scanned now names else scanned now names.
Proof. unfold scanned. cbn [List.filter]. by destruct (is_ledger_entry_file name). Qed.

Lemma scan_quiet now names entries d : quiet d ->
  exists d', scan_entries now names entries d
    = (Ok (entries ++ List.filter (fun e => negb (expired now e)) (scanned now names)), d') /\ quiet d' /\
    files d' = remove_all (map se_name (List.filter (expired now) (scanned now names))) (files d).
Proof.
  revert entries d. induction names as [|[name file] names IH]; intros entries d Hq; cbn [scan_entries].
  { exists d. cbn. by rewrite app_nil_r. }
  rewrite scanned_cons.
  rewrite if_quiet by done. pose proof (drop_quiet d Hq) as Hq1.
  destruct (is_ledger_entry_file name) eqn:En; cbn [negb]; [|apply (IH entries (drop_fault d) Hq1)].
  rewrite if_quiet by done. set (d2 := drop_fault (drop_fault d)). pose proof (drop_quiet _ Hq1 : quiet d2) as Hq2.
  change (default now (file_modified file)) with (modified_at now file).
  set (e := mkScanned name (modified_at now file) (vec_len (file_bytes file))).
  change (saturating_sub now (modified_at now file)) with (saturating_sub now (se_modified e)).
  change (LEDGER_RETENTION_SECS <? saturating_sub now (se_modified e)) with (expired now e). cbn [List.filter].
  destruct (expired now e) eqn:Ee; cbn [negb].
  - rewrite act_bind_eq, (remove_quiet _ _ Hq2).
    destruct (IH entries (set_files (delete name (files d2)) (drop_fault d2))) as (d' & Hs & Hq' & Hf); [by apply drop_quiet|].
    exists d'. rewrite Hs. split; [done|]. split; [done|]. by rewrite Hf.
  - destruct (IH (entries ++ [e]) d2 Hq2) as (d' & Hs & Hq' & Hf). exists d'. rewrite Hs, <- app_assoc. done.
Qed.

(** The limits, on a prefix of [n] entries of a listing whose first [k] entries
    of [b] bytes are kept. *)
Definition within (k b : Z) (l : list ScannedEntry) : Prop :=
  k + vec_len l <= LEDGER_MAX_ENTRIES /\ b + total_bytes l <= LEDGER_MAX_BYTES.

#[local] Ltac limits := unfold saturating_add, u64_max, LEDGER_MAX_ENTRIES, LEDGER_MAX_BYTES in *; lia.

(** Once a limit is passed every later entry goes. *)
Lemma enforce_over k b l d : quiet d -> Forall (fun e => 0 <= se_bytes e) l ->
  LEDGER_MAX_ENTRIES < k \/ LEDGER_MAX_BYTES < b -> 0 <= k -> 0 <= b ->
  exists d', enforce_limits k b l d = (Ok tt, d') /\ files d' = remove_all (map se_name l) (files d).
Proof.
  revert k b d. induction l as [|e l IH]; intros k b d Hq Hb Hover Hk Hb0; [by exists d|].
  apply Forall_cons_1 in Hb as [He Hl]. cbn [enforce_limits]. rewrite act_bind_eq.
  assert ((LEDGER_MAX_ENTRIES <? saturating_add u64_max k 1) || (LEDGER_MAX_BYTES <? saturating_add u64_max b (se_bytes e)) = true)
    as -> by (apply orb_true_iff; rewrite !Z.ltb_lt; limits).
  rewrite (remove_quiet _ _ Hq).
  destruct (IH (saturating_add u64_max k 1) (saturating_add u64_max b (se_bytes e))
              (set_files (delete (se_name e) (files d)) (drop_fault d))) as (d' & -> & Hf);
    [by apply drop_quiet|done|limits|limits|limits|].
  exists d'. split; [done|]. by rewrite Hf.
Qed.

Lemma within_nil k b : within k b [] <-> k <= LEDGER_MAX_ENTRIES /\ b <= LEDGER_MAX_BYTES.
Proof. unfold within, vec_len, total_bytes. cbn [length foldr]. lia. Qed.

Lemma within_cons k b e l : within k b (e :: l) <-> within (k + 1) (b + se_bytes e) l.
Proof. unfold within, vec_len, total_bytes. cbn [length foldr]. fold (total_bytes l). lia. Qed.

Lemma enforce_quiet k b l d : quiet d -> Forall (fun e => 0 <= se_bytes e) l -> within k b [] -> 0 <= k -> 0 <= b ->
  exists n d', enforce_limits k b l d = (Ok tt, d') /\ (n <= length l)%nat /\ within k b (take n l) /\
    ((n < length l)%nat -> ~ within k b (take (S n) l)) /\
    files d' = remove_all (map se_name (drop n l)) (files d).
Proof.
  revert k b d. induction l as [|e l IH]; intros k b d Hq Hb Hw Hk0 Hb0.
  { exists 0%nat, d. cbn. repeat split; [lia|apply Hw|apply Hw|lia]. }
  apply Forall_cons_1 in Hb as [He Hl]. cbn [enforce_limits]. rewrite act_bind_eq.
  assert (k <= LEDGER_MAX_ENTRIES /\ b <= LEDGER_MAX_BYTES) as [Hk Hb] by by apply within_nil.
  destruct (_ || _) eqn:Hover.
  - apply orb_true_iff in Hover. rewrite !Z.ltb_lt in Hover. rewrite (remove_quiet _ _ Hq).
    destruct (enforce_over (saturating_add u64_max k 1) (saturating_add u64_max b (se_bytes e)) l
                (set_files (delete (se_name e) (files d)) (drop_fault d))) as (d' & -> & Hf);
      [by apply drop_quiet|done|done|limits|limits|].
    exists 0%nat, d'. split; [done|]. split; [cbn; lia|]. split; [done|]. split; [|by rewrite Hf].
    intros _. cbn [take]. rewrite within_cons, take_0, within_nil. limits.
  - apply orb_false_iff in Hover as [Hk1 Hb1]. apply Z.ltb_ge in Hk1, Hb1.
    assert (saturating_add u64_max k 1 = k + 1) as E1 by limits.
    assert (saturating_add u64_max b (se_bytes e) = b + se_bytes e) as E2 by limits.
    rewrite E1, E2 in *.
    destruct (IH (k + 1) (b + se_bytes e) d) as (n & d' & He' & Hn & Hw' & Hmax & Hf);
      [done|done|by apply within_nil|lia|lia|].
    exists (S n), d'. cbn [mret act_ret]. split; [done|]. cbn [length take drop].
    split; [lia|]. split; [by apply within_cons|]. split; [|done].
    intros Hlt. rewrite within_cons. apply Hmax. lia.
Qed.

Lemma scanned_In (now : Z) (m : Directory) e :
  In e (scanned now (map_to_list m)) <->
  exists file, m !! se_name e = Some file /\ is_ledger_entry_file (se_name e) = true /\
    e = mkScanned (se_name e) (modified_at now file) (vec_len (file_bytes file)).
Proof.
  unfold scanned. rewrite in_map_iff. split.
  - intros ([name file] & <- & [Hin Hn]%filter_In). apply list_elem_of_In, elem_of_map_to_list in Hin. by exists file.
  - intros (file & Hin & Hn & ->). cbn in *. exists (se_name e, file). split; [done|].
    apply filter_In. split; [|done]. by apply list_elem_of_In, elem_of_map_to_list.
Qed.

Lemma scanned_fresh d e :
  In e (List.filter (fun e => negb (expired (disk_now d) e)) (scanned (disk_now d) (map_to_list (files d)))) <-> fresh d e.
Proof.
  unfold fresh, expired. rewrite filter_In, scanned_In, negb_true_iff, Z.ltb_ge. split.
  - intros [(file & Hin & Hn & He) Hage]. exists file. rewrite He in Hage. done.
  - intros (file & Hin & Hn & He & Hage). split; [by exists file|]. by rewrite He.
Qed.

Lemma newest_first_newer l : StronglySorted newest_first l -> StronglySorted newer l.
Proof.
  induction 1 as [|e l Hs IH Hall]; constructor; [done|]. eapply Forall_impl; [exact Hall|]. cbn. unfold newest_first, newer.
  intros x Hx. destruct (se_modified x ?= se_modified e) eqn:E; cbn in Hx; [| |done].
  - apply Z.compare_eq in E. lia.
  - rewrite Z.compare_lt_iff in E. lia.
Qed.

(** The entries of a listing have distinct names. *)
Lemma scanned_nodup (P : ScannedEntry -> bool) (now : Z) (m : Directory) :
  NoDup (map se_name (List.filter P (scanned now (map_to_list m)))).
Proof.
  assert (Hn : NoDup (map fst (map_to_list m))) by apply NoDup_fst_map_to_list.
  revert Hn. generalize (map_to_list m). induction l as [|[name file] l IH]; [by constructor|]. rewrite scanned_cons.
  cbn [map fst]. intros [Hnot Hn]%NoDup_cons. specialize (IH Hn).
  assert (Hsub : name ∉ map se_name (List.filter P (scanned now l))).
  { intros (e & -> & He)%list_elem_of_fmap. apply Hnot. apply list_elem_of_In, filter_In in He as [He _].
    unfold scanned in He. apply in_map_iff in He as ([name' file'] & <- & [Hin _]%filter_In).
    apply list_elem_of_fmap. exists (name', file'). split; [done|]. by apply list_elem_of_In. }
  destruct (is_ledger_entry_file name); [|done]. cbn [List.filter]. destruct (P _); [|done].
  by apply NoDup_cons.
Qed.

(** A file of the directory is an entry too old, a fresh one, or no entry. *)
Lemma entry_cases d name (old := map se_name (List.filter (expired (disk_now d)) (scanned (disk_now d) (map_to_list (files d)))))
    (young := exists e, fresh d e /\ se_name e = name) :
  (name ∈ old -> is_ledger_entry_file name = true /\ ~ young) /\ (young -> is_ledger_entry_file name = true) /\
  (is_ledger_entry_file name = true -> name ∈ old \/ young \/ files d !! name = None).
Proof.
  unfold old, young. rewrite list_elem_of_fmap. split; [|split].
  - intros (e & -> & [Hin Hold]%list_elem_of_In%filter_In). apply scanned_In in Hin as (file & Hf & Hn & He).
    split; [done|]. intros (e' & (file' & Hf' & _ & He' & Hage) & Hname). rewrite <- Hname, Hf' in Hf. injection Hf as <-.
    rewrite He in Hold. unfold expired in Hold. cbn in Hold. apply Z.ltb_lt in Hold. lia.
  - intros (e & (file & _ & Hn & _) & <-). done.
  - intros Hn. destruct (files d !! name) as [file|] eqn:Hf; [|by right; right].
    set (e := mkScanned name (modified_at (disk_now d) file) (vec_len (file_bytes file))).
    destruct (expired (disk_now d) e) eqn:He.
    + left. exists e. split; [done|]. apply list_elem_of_In, filter_In. split; [|done]. apply scanned_In. by exists file.
    + right. left. exists e. split; [|done]. apply Z.ltb_ge in He. by exists file.
Qed.

(** Cleaning the ledger, when no operation fails, drops the entries older than
    72 hours, and of the others keeps exactly the longest run of newest ones that
    stays within 8192 entries and 32 MiB; it touches no other file. *)
Theorem cleanup_keeps_newest ledger d : disk_faults d = [] ->
  exists d' l n, ledger_cleanup ledger d = (Ok tt, d') /\
    (forall e, e ∈ l <-> fresh d e) /\ NoDup (map se_name l) /\ StronglySorted newer l /\
    vec_len (take n l) <= LEDGER_MAX_ENTRIES /\ total_bytes (take n l) <= LEDGER_MAX_BYTES /\
    ((n < length l)%nat ->
      LEDGER_MAX_ENTRIES < vec_len (take (S n) l) \/ LEDGER_MAX_BYTES < total_bytes (take (S n) l)) /\
    forall name, files d' !! name
      = if is_ledger_entry_file name && negb (bool_decide (name ∈ map se_name (take n l))) then None
        else files d !! name.
Proof.
  intros Hq. unfold ledger_cleanup. rewrite if_quiet by done. rewrite act_bind_eq. cbn [act_get].
  pose proof (drop_quiet d Hq) as Hq1. rewrite act_bind_eq.
  change (disk_now (drop_fault d)) with (disk_now d). change (files (drop_fault d)) with (files d).
  destruct (scan_quiet (disk_now d) (map_to_list (files d)) [] (drop_fault d) Hq1) as (d1 & -> & Hq2 & Hf1).
  change (files (drop_fault d)) with (files d) in Hf1. rewrite app_nil_l.
  set (all := scanned _ _) in *. set (young := List.filter _ all). set (l := merge_sort newest_first young).
  assert (Hp : l ≡ₚ young) by apply merge_sort_Permutation.
  assert (Hl : forall e, e ∈ l <-> fresh d e) by (intros e; rewrite Hp, list_elem_of_In; apply scanned_fresh).
  assert (Hnd : NoDup (map se_name l)) by (rewrite Hp; apply scanned_nodup).
  destruct (enforce_quiet 0 0 l d1) as (n & d' & He & Hn & Hw & Hmax & Hf); [done| | |done|done|].
  { apply Forall_forall. intros e (file & _ & _ & -> & _)%Hl. unfold vec_len. cbn. lia. }
  { apply within_nil. unfold LEDGER_MAX_ENTRIES, LEDGER_MAX_BYTES. lia. }
  exists d', l, n. rewrite He. split; [done|]. split; [done|]. split; [done|].
  split. { apply newest_first_newer, StronglySorted_merge_sort; [apply (cmp_le_trans _)|apply (cmp_le_total _)]. }
  destruct Hw as [Hw1 Hw2]. split; [lia|]. split; [lia|].
  split. { intros Hlt. specialize (Hmax Hlt). unfold within in Hmax. lia. }
  intros name. rewrite Hf, Hf1, !remove_all_lookup.
  assert (Hyoung : name ∈ map se_name l <-> exists e, fresh d e /\ se_name e = name)
    by (rewrite list_elem_of_fmap; setoid_rewrite Hl; naive_solver).
  destruct (entry_cases d name) as (Hold & Hentry & Hcases). fold all in Hold, Hcases.
  rewrite <- Hyoung in Hold, Hentry, Hcases.
  rewrite <- (take_drop n l), map_app in Hnd. apply NoDup_app in Hnd as (_ & Hdisj & _).
  rewrite <- (take_drop n l), map_app, elem_of_app in Hold, Hentry, Hcases. clear -Hold Hentry Hcases Hdisj.
  repeat case_bool_decide; destruct (is_ledger_entry_file name); cbn; naive_solver.
Qed.
End Cleanup.

(** * A platform *)

(** The laws can hold: ids as two characters, entries as the list of their
    fields. *)
Definition bit (b : bool) : Z := if b then 1 else 0.
Definition stream_code (s : OutputStream) : Z := match s with Stdout => 0 | Stderr => 1 | Pty => 2 | Status => 3 end.
Definition code_stream (z : Z) : OutputStream := match z with 0 => Stdout | 1 => Stderr | 2 => Pty | _ => Status end.

Definition entry_fields (e : CommandLedgerEntry) : list Z :=
  ce_schema_version e :: ce_job_id e :: ce_completed_unix e :: bit (ce_truncated e)
    :: vec_len (ce_payload_hash e) :: ce_payload_hash e
    ++ match ce_terminal_output e with
       | None => []
       | Some (mkSequenced n (mkCommandOutput job stream data code finished)) =>
           n :: job :: stream_code stream :: bit finished
             :: match code with Some c => c | None => 0 end :: bit (bool_decide (is_Some code)) :: data
       end.

Definition fields_entry (l : list Z) : option CommandLedgerEntry :=
  match l with
  | v :: j :: u :: t :: n :: rest =>
      Some (mkEntry v j (take (Z.to_nat n) rest) u
        match drop (Z.to_nat n) rest with
        | s :: job :: stream :: finished :: c :: coded :: data =>
            Some (mkSequenced s (mkCommandOutput job (code_stream stream) data (if coded =? 1 then Some c else None) (finished =? 1)))
        | _ => None
        end (t =? 1))
  | _ => None
  end.

Definition platform_ex : Platform :=
  {| sha256 := fun bytes => bytes; hex_encode := fun bytes => bytes;
     uuid_text := fun id => [45; 2 * id + 1];
     uuid_parse := fun s => match s with [45; x] => Some ((x - 1) / 2) | _ => None end;
     json_bytes := fun _ => []; entry_json := entry_fields; entry_parse := fields_entry; os_error := lit "os" |}.

Lemma bit_eqb b : (bit b =? 1) = b.
Proof. by destruct b. Qed.

Lemma platform_ex_laws : PlatformLaws platform_ex.
Proof.
  split.
  - intros id. cbn -[Z.mul Z.add Z.sub Z.div]. f_equal. rewrite Z.add_simpl_r, Z.mul_comm. by apply Z.div_mul.
  - intros id. cbn -[Z.mul Z.add]. split; [|done]. rewrite !not_elem_of_cons. split; [lia|]. split; [lia|set_solver].
  - intros [v j h u t b]. cbn -[Z.of_nat]. unfold vec_len. rewrite Nat2Z.id, take_app_length, drop_app_length, bit_eqb.
    destruct t as [[n [job stream data code finished]]|]; [|done]. cbn. rewrite !bit_eqb.
    by destruct stream, code.
Qed.

Definition output_ex : SequencedCommandOutput := mkSequenced 3 (mkCommandOutput 7 Stdout [104; 105] (Some 0) true).
Definition entry_ex (job : Z) : CommandLedgerEntry := mkEntry 1 job (lit "hash") 100 (Some output_ex) true.
Definition disk_ex (faults : list bool) : Disk :=
  mkDisk {[ entry_path (H := platform_ex) 1 := mkFile (entry_fields (entry_ex 1)) (Some 90);
            entry_path (H := platform_ex) 2 := mkFile (entry_fields (entry_ex 2)) (Some (-300000));
            lit "notes.txt" := mkFile [1] (Some (-300000)) ]} 100 faults [4; 5] false.

Lemma record_atomic_witness :
  let '(r, d') := ledger_record (H := platform_ex) (mkLedger []) 7 (lit "hash") None true (disk_ex [false; false; true]) in
  r = Err (mkError None [ledger_context (mkLedger []) "failed to fsync command ledger temp " (temp_path (H := platform_ex) 7 4); lit "os"]) /\
  entry_of (H := platform_ex) (files d') 7 = Some None.
Proof.
  pose proof (record_atomic (H := platform_ex_laws) (mkLedger []) 7 (lit "hash") None true (disk_ex [false; false; true])) as Hr.
  destruct (ledger_record _ _ _ _ _ _) as [[[]|e] d'] eqn:E; [vm_compute in E; discriminate E|].
  split; [|rewrite (proj1 Hr); vm_compute; reflexivity].
  apply (f_equal fst) in E. cbn [fst] in E. rewrite <- E. vm_compute. reflexivity.
Defined.

(** The old entry goes, the young one and the foreign file stay. *)
Lemma cleanup_keeps_newest_witness :
  exists d', ledger_cleanup (H := platform_ex) (mkLedger []) (disk_ex []) = (Ok tt, d') /\
    files d' !! entry_path (H := platform_ex) 2 = None.
Proof.
  destruct (cleanup_keeps_newest (H := platform_ex) (mkLedger []) (disk_ex []) eq_refl)
    as (d' & l & n & Hd & Hl & _ & _ & _ & _ & _ & Hf).
  exists d'. split; [exact Hd|]. apply (f_equal snd) in Hd. cbn [snd] in Hd. rewrite <- Hd. vm_compute. reflexivity.
Defined.
