(* ===== verification/AgentCommands.v ===== *)
(** The command runtime of the agent: crates/agent/src/runtime/runtime.rs
    (command frames, active commands, replays), runtime_config_cache.rs and the
    cancel tokens and outputs of execution/command_worker.rs.

    The state is what survives a lost connection: the commands under way with
    their unsent outputs, the replay cache, the ledger and the cached runtime
    configuration on disk, and the tasks spawned for commands.  Handlers are
    actions that may fail where the connection or the disk fails; a failed handler
    ends the session and keeps the state.  Which sends fail is an input stream.
    A task is seen through what it reports: outputs, and one outcome at its end.
    Left out: telemetry sampling, terminal sessions, update verification and the
    execution of the commands themselves.  Their frames are [SendFrame] events. *)

From stdpp Require Import gmap.
From S2P Require Import Prelude RustStd Json Frame PortForwarding TunnelModels ConfigModels ConfigValidation JobCommands CommandLedger.

Open Scope Z_scope.

(** * Messages *)

Record JobAck := mkAck { ack_job_id : Z; ack_accepted : bool; ack_message : str }.
Record JobCancelAck := mkCancelAck {
  cack_job_id : Z;
  cack_accepted : bool;
  cack_applied : bool;
  cack_message : str;
}.
Record CommandResume := mkResume {
  resume_job_id : Z;
  resume_command_version : Z;
  resume_payload_hash : str;
  resume_next_output_seq : Z;
}.

Inductive RuntimeConfigReconcileResource := RuntimeTunnels | PortForwardingResource.

#[export] Instance reconcile_resource_eq_dec : EqDecision RuntimeConfigReconcileResource.
Proof. solve_decision. Defined.
#[export] Instance reconcile_resource_countable : Countable RuntimeConfigReconcileResource.
Proof.
  refine (inj_countable' (fun r => match r with RuntimeTunnels => true | PortForwardingResource => false end)
            (fun b => if b then RuntimeTunnels else PortForwardingResource) _).
  by intros [].
Defined.

Abbreviation Resources := (gset RuntimeConfigReconcileResource).

Record AgentRuntimeConfigReloadRequest := mkReload {
  reload_client_id : str;
  reload_current_content_hash : str;
  reload_reason : str;
  reload_requires_authoritative_sync : bool;
  reload_reconcile_resources : list RuntimeConfigReconcileResource;
}.

Record RuntimeConfigReconcileScope := mkScope {
  authoritative : bool;
  resources : Resources;
}.

Definition scope_default : RuntimeConfigReconcileScope := mkScope false ∅.
Definition from_reload_request (request : AgentRuntimeConfigReloadRequest) : RuntimeConfigReconcileScope :=
  mkScope (reload_requires_authoritative_sync request) (list_to_set (reload_reconcile_resources request)).
Definition requires_reconcile (s : RuntimeConfigReconcileScope) : bool :=
  authoritative s || negb (bool_decide (resources s = ∅)).
Definition includes (s : RuntimeConfigReconcileScope) (resource : RuntimeConfigReconcileResource) : bool :=
  authoritative s || bool_decide (resource ∈ resources s).
Definition covers (s requested : RuntimeConfigReconcileScope) : bool :=
  authoritative s || (negb (authoritative requested) && bool_decide (resources requested ⊆ resources s)).

Definition runtime_config_reconcile_scope_from_reason (reason : str) : RuntimeConfigReconcileScope :=
  if str_eqb reason (lit "agent_reconnect_authoritative_sync") then mkScope true ∅
  else if str_eqb reason (lit "agent_reconnect_authoritative_port_forwarding_sync")
  then mkScope true {[ PortForwardingResource ]}
  else if one_of reason ["port_forward_table_reapply"; "port_forward_bulk_reapply"; "agent_reconnect_port_forwarding_sync"]
  then mkScope false {[ PortForwardingResource ]}
  else if one_of reason ["tunnel_plan_saved_enabled"; "tunnel_plan_updated"; "tunnel_plan_enabled"; "tunnel_plan_disabled";
                         "tunnel_plan_deleted"; "agent_reconnect_runtime_tunnels_sync"]
  then mkScope false {[ RuntimeTunnels ]}
  else if str_eqb reason (lit "agent_reconnect_network_resources_sync")
  then mkScope false {[ RuntimeTunnels; PortForwardingResource ]}
  else scope_default.

(** * Cancellation and outputs: command_worker.rs *)

Record CommandCancelToken := mkToken { canceled : bool; token_reason : option str }.
Definition token_default : CommandCancelToken := mkToken false None.
Definition cancel (reason : str) (t : CommandCancelToken) : CommandCancelToken := mkToken true (Some reason).
Definition cancel_token_reason (t : CommandCancelToken) : str := default (lit "canceled") (token_reason t).

(** [CommandCanceled::new] as an error. *)
Definition command_canceled (operation_type : string) (reason : str) : Error :=
  mkError (Some (operation_type, reason))
    [lit "command canceled: operation_type=" ++ lit operation_type ++ lit " reason=" ++ reason].

Definition check_token (operation_type : string) (t : CommandCancelToken) : result Error unit :=
  if canceled t then Err (command_canceled operation_type (cancel_token_reason t)) else Ok tt.

Section Outputs.
Context `{Platform}.

Definition status_output (job_id : Z) (data : list Z) (exit_code : Z) : CommandOutput :=
  mkCommandOutput job_id Status data (Some exit_code) true.

Definition command_canceled_output (job_id : Z) (operation_type : string) (reason : str) : CommandOutput :=
  status_output job_id
    (json_bytes (json_object [("type", Str (lit "command_canceled")); ("operation_type", Str (lit operation_type));
                              ("reason", Str reason)]%string)) 130.

Definition command_timeout_output (job_id : Z) (operation_type : string) (max_timeout_secs : Z) : CommandOutput :=
  status_output job_id
    (json_bytes (json_object [("type", Str (lit "command_timeout")); ("operation_type", Str (lit operation_type));
                              ("max_timeout_secs", json_int (Z.max max_timeout_secs 1))]%string)) 124.

Definition fallback_failed_output (job_id : Z) (error : Error) : list CommandOutput :=
  [status_output job_id (as_bytes (lit "command failed: " ++ error_alternate error)) 127].

Definition command_result_outputs (job_id : Z) (operation_type : string) (max_timeout_secs : Z)
    (result : result Error (list CommandOutput)) : list CommandOutput :=
  match result with
  | Ok outputs => outputs
  | Err error =>
      match err_canceled error with
      | Some (operation, reason) => [command_canceled_output job_id operation reason]
      | None =>
          let message := error_to_string error in
          if contains_str message (lit "timed out") || contains_str message (lit "elapsed")
          then [command_timeout_output job_id operation_type max_timeout_secs]
          else fallback_failed_output job_id error
      end
  end.

Definition sequenced_outputs_starting_at (start_output_seq : Z) (outputs : list CommandOutput)
  : list SequencedCommandOutput :=
  imap (fun offset output =>
          mkSequenced (saturating_add i32_max start_output_seq (Z.min (Z.of_nat offset) i32_max)) output) outputs.

Definition sequenced_command_outputs_bytes (outputs : list SequencedCommandOutput) : Z :=
  foldr (fun output n => vec_len (co_data (sq_output output)) + n) 0 outputs.

Definition compact_terminal_replay_output (output : SequencedCommandOutput) : SequencedCommandOutput :=
  unavailable_output "recent_command_replay_truncated" output.

Definition terminal_replay_output_from (outputs : list SequencedCommandOutput) : option SequencedCommandOutput :=
  option_map compact_terminal_replay_output (List.find (fun output => co_done (sq_output output)) (rev outputs)).

Definition duplicate_replay_unknown_terminal_output (job_id : Z) : CommandOutput :=
  status_output job_id
    (json_bytes (json_object [("type", Str (lit "duplicate_job_replay_unavailable")); ("status", Str (lit "failed"));
                              ("job_id", Str (uuid_text job_id));
                              ("reason", Str (lit "recent_command_terminal_result_unavailable"))]%string)) 75.
End Outputs.

(** * The replay cache *)

Record RecentCommandEntry := mkRecent {
  re_payload_hash : str;
  re_outputs : list SequencedCommandOutput;
  re_terminal_output : option SequencedCommandOutput;
  re_output_bytes : Z;
  re_truncated : bool;
}.

Record RecentCommandCache := mkRecentCache {
  max_entries : Z;
  max_total_output_bytes : Z;
  max_entry_output_bytes : Z;
  current_output_bytes : Z;
  entries : gmap Z RecentCommandEntry;
  order : list Z;
}.

Definition recent_default : RecentCommandCache :=
  mkRecentCache 512 (8 * 1024 * 1024) (1024 * 1024) 0 ∅ [].

Definition recent_with (c : RecentCommandCache) (bytes : Z) (m : gmap Z RecentCommandEntry) (ids : list Z)
  : RecentCommandCache :=
  mkRecentCache (max_entries c) (max_total_output_bytes c) (max_entry_output_bytes c) bytes m ids.

(** The oldest entry goes. *)
Definition drop_oldest (c : RecentCommandCache) (id : Z) (rest : list Z) : RecentCommandCache :=
  match entries c !! id with
  | Some e => recent_with c (saturating_sub (current_output_bytes c) (re_output_bytes e)) (delete id (entries c)) rest
  | None => recent_with c (current_output_bytes c) (entries c) rest
  end.

(** [usize] is 64 bits wide. *)
Fixpoint make_room (output_bytes : Z) (c : RecentCommandCache) (ids : list Z) : RecentCommandCache :=
  if max_total_output_bytes c <? saturating_add u64_max (current_output_bytes c) output_bytes then
    match ids with
    | id :: rest => make_room output_bytes (drop_oldest c id rest) rest
    | [] => c
    end
  else c.

Fixpoint drop_extra (c : RecentCommandCache) (ids : list Z) : RecentCommandCache :=
  if max_entries c <? vec_len ids then
    match ids with
    | id :: rest => drop_extra (drop_oldest c id rest) rest
    | [] => c
    end
  else c.

(** An earlier entry of the job is replaced. *)
Definition forget (job_id : Z) (c : RecentCommandCache) : RecentCommandCache :=
  match entries c !! job_id with
  | Some existing =>
      recent_with c (saturating_sub (current_output_bytes c) (re_output_bytes existing)) (delete job_id (entries c))
        (List.filter (fun candidate => negb (candidate =? job_id)) (order c))
  | None => c
  end.

Definition remember_entry (job_id : Z) (e : RecentCommandEntry) (c : RecentCommandCache) : RecentCommandCache :=
  let ids := if bool_decide (is_Some (entries c !! job_id)) then order c else order c ++ [job_id] in
  recent_with c (saturating_add u64_max (current_output_bytes c) (re_output_bytes e)) (<[ job_id := e ]> (entries c)) ids.

Definition remember (job_id : Z) (payload_hash : str) (outputs : list SequencedCommandOutput)
    (terminal_output : option SequencedCommandOutput) (truncated : bool) (c : RecentCommandCache) : RecentCommandCache :=
  let output_bytes := sequenced_command_outputs_bytes outputs in
  let replay_truncated := truncated || (max_entry_output_bytes c <? output_bytes) in
  let '(outputs, output_bytes) := if replay_truncated then ([], 0) else (outputs, output_bytes) in
  let c := forget job_id c in
  let c := make_room output_bytes c (order c) in
  let c := remember_entry job_id (mkRecent payload_hash outputs terminal_output output_bytes replay_truncated) c in
  drop_extra c (order c).

(** * Requests, configurations and their texts *)

Record JobRequestWire := mkWire {
  wire_job_id : Z;
  wire_command_version : Z;
  wire_command : Value;
  wire_max_timeout_secs : Z;
}.

Record UnsupportedJobRequest := mkUnsupported {
  un_job_id : Z;
  un_command_version : Z;
  un_command_type : str;
  un_payload_hash : str;
  un_message : str;
}.

Inductive DecodedJobRequest :=
| Supported (request : JobRequest)
| Unsupported (request : UnsupportedJobRequest).

Definition CACHE_SCHEMA_VERSION : Z := 2.
Definition CACHE_FILE_NAME : string := "last-accepted.json".

Record RuntimeConfigCacheRecord := mkCacheRecord {
  cr_schema_version : Z;
  cr_content_hash : str;
  cr_config_json : str;
}.

(** What the command runtime uses of [serde_json], [lz4], [x25519], [base64] and
    of the order of a [HashMap]'s keys. *)
Class AgentPlatform := {
  agent_platform :: Platform;
  command_json : JobCommand -> list Z;
  wire_parse : list Z -> option JobRequestWire;
  command_of_value : Value -> result str JobCommand;
  config_value : AgentRuntimeConfig -> Value;
  config_text : AgentRuntimeConfig -> str;
  config_parse : str -> option AgentRuntimeConfig;
  cache_record_json : RuntimeConfigCacheRecord -> list Z;
  cache_record_parse : list Z -> option RuntimeConfigCacheRecord;
  decompress : list Z -> result str (list Z);
  hex_decode : str -> option (list Z);
  base64_decode : str -> option (list Z);
  x25519_public : list Z -> list Z;
  rules_json : list PortForwardRule -> list Z;
  key_order : list Z -> list Z;
}.

Class AgentPlatformLaws (P : AgentPlatform) : Prop := {
  agent_platform_laws :: PlatformLaws agent_platform;
  cache_record_round_trip r : cache_record_parse (cache_record_json r) = Some r;
  key_order_perm l : key_order l ≡ₚ l;
}.

Section Runtime.
Context `{AgentPlatform}.

Definition shape_ok (config : AgentConfig) : checked :=
  validate_agent_config_shape uuid_parse hex_decode base64_decode x25519_public sha256 hex_encode rules_json config.

Definition content_hash (config : AgentRuntimeConfig) : option str :=
  runtime_config_content_hash sha256 hex_encode (fun c => Some (as_bytes (config_text c))) config.

Definition command_payload_hash (command : JobCommand) : str := hash_of (command_json command).

Definition decode_job_request_payload (payload : list Z) : result Error DecodedJobRequest :=
  match wire_parse payload with
  | None => Err (error_msg (lit "invalid json"))
  | Some wire =>
      let command_type := default (lit "unknown") (json_get (wire_command wire) (lit "type") ≫= as_str) in
      let raw_payload_hash := hash_of (json_bytes (wire_command wire)) in
      Ok match command_of_value (wire_command wire) with
         | Ok command => Supported (mkJobRequest (wire_job_id wire) (wire_command_version wire) command (wire_max_timeout_secs wire))
         | Err error => Unsupported (mkUnsupported (wire_job_id wire) (wire_command_version wire) command_type raw_payload_hash error)
         end
  end.

Definition command_supports_requested_protocol (command : JobCommand) (command_version : Z) : bool :=
  in_range (job_command_min_supported_protocol_version command) (job_command_protocol_version command) command_version.

Definition unsupported_command_version_output (job_id : Z) (command : JobCommand) (command_version : Z) : CommandOutput :=
  status_output job_id
    (json_bytes (json_object
      [("type", Str (lit "unsupported_command_version")); ("status", Str (lit "rejected")); ("job_id", Str (uuid_text job_id));
       ("command_version", json_int command_version);
       ("current_command_protocol_version", json_int (job_command_protocol_version command));
       ("min_command_protocol_version", json_int (job_command_min_supported_protocol_version command));
       ("reason", Str (lit "agent_binary_does_not_support_requested_command_protocol"))]%string)) 78.

Definition unsupported_command_shape_output (request : UnsupportedJobRequest) : CommandOutput :=
  status_output (un_job_id request)
    (json_bytes (json_object
      [("type", Str (lit "unsupported_command_version")); ("status", Str (lit "rejected"));
       ("job_id", Str (uuid_text (un_job_id request))); ("command_version", json_int (un_command_version request));
       ("command_type", Str (un_command_type request));
       ("reason", Str (lit "agent_binary_does_not_support_command_shape"))]%string)) 78.

(** ** Reading the configuration: config_update.rs *)

Definition without_credentials (plan : AgentRuntimeStatusTelemetryPlan) : AgentRuntimeStatusTelemetryPlan :=
  mkTelemetryPlan (tp_plan_id plan) (tp_topology_identity_hash plan) (tp_runtime_evidence_identity_hash plan)
    (tp_endpoint_side plan) (tp_plan plan) None (tp_runtime_adapter plan) (tp_latency_monitoring_enabled plan).

Definition with_plans (plans : list AgentRuntimeStatusTelemetryPlan) (n : AgentNetworkConfig) : AgentNetworkConfig :=
  mkNetwork (apply_enabled n) (runtime_reconcile_enabled n) (runtime_unprivileged_mutation_policy n) (root_dir n)
    (runtime_ip_argv n) (runtime_tc_argv n) (runtime_wg_argv n) (runtime_openvpn_argv n)
    (runtime_command_timeout_secs n) (runtime_command_max_output_bytes n) (probe_ping_argv n)
    (status_probe_timeout_secs n) (status_probe_max_output_bytes n) (runtime_status_telemetry_enabled n)
    (runtime_status_telemetry_interval_secs n) (latency_monitoring_enabled n) (latency_monitoring_interval_secs n)
    (latency_down_windows n) (ospf_status_command n) (ospf_update_command n) plans (ping_targets n) (port_forwarding n).

Definition projected_runtime_config (current : AgentConfig) : result Error Value :=
  let c := from_agent_config 0 current in
  let network := with_plans (map without_credentials (runtime_status_telemetry_plans (rcfg_network c))) (rcfg_network c) in
  let c := mkRuntimeConfig (rcfg_version c) (rcfg_backup c) (rcfg_update c) (rcfg_execution c) (rcfg_telemetry c) network
             (rcfg_telemetry_interval_secs c) in
  match config_value c with
  | Object members => Ok (Object (List.filter (fun '(k, _) => negb (str_eqb k (lit "version"))) members))
  | _ => Err (error_msg (lit "effective runtime config did not serialize as an object"))
  end.

Definition read_redacted_config (job_id : Z) (current : AgentConfig) : result Error (list CommandOutput) :=
  runtime_config ← projected_runtime_config current;
  Ok [status_output job_id
        (json_bytes (json_object [("type", Str (lit "config_read")); ("status", Str (lit "read"));
                                  ("scope", Str (lit "effective_runtime_config")); ("runtime_config", runtime_config)]%string)) 0].

(** ** The cached runtime configuration: runtime_config_cache.rs *)

Record RuntimeConfigCache := mkCache { cache_root : str }.

Definition cache_path : str := lit CACHE_FILE_NAME.
Definition cache_temp (id : Z) : str := lit "." ++ lit CACHE_FILE_NAME ++ lit "." ++ uuid_text id ++ lit ".tmp".
Definition cache_context (cache : RuntimeConfigCache) (text : string) (name : str) : str :=
  lit text ++ cache_root cache ++ lit "/" ++ name.

Definition cache_load (cache : RuntimeConfigCache) : Act Disk (option AgentRuntimeConfig) :=
  bytes ← read_file os_error cache_path (cache_context cache "failed to read runtime config cache " cache_path);
  match bytes with
  | None => mret None
  | Some bytes =>
      match cache_record_parse bytes with
      | None => act_fail (error_msg (cache_context cache "failed to decode runtime config cache " cache_path))
      | Some r =>
          if negb (cr_schema_version r =? CACHE_SCHEMA_VERSION)
          then act_fail (error_msg (lit "unsupported runtime config cache schema " ++ to_string (cr_schema_version r)))
          else if negb (str_eqb (hash_of (as_bytes (cr_config_json r))) (cr_content_hash r))
          then act_fail (error_msg (lit "runtime config cache hash mismatch"))
          else match config_parse (cr_config_json r) with
               | None => act_fail (error_msg (cache_context cache "failed to decode cached runtime config " cache_path))
               | Some config => mret (Some config)
               end
      end
  end.

(** [if let Err(error) = m { let _ = remove_file(temp); return Err(error) }]. *)
Definition or_remove (temp : str) (m : Act Disk unit) : Act Disk unit :=
  fun d => match m d with
           | (Ok _, d') => (Ok tt, d')
           | (Err e, d') => (Err e, snd (remove_file os_error temp [] d'))
           end.

Definition cache_store (cache : RuntimeConfigCache) (config : AgentRuntimeConfig) : Act Disk unit :=
  let config_json := config_text config in
  let bytes := cache_record_json (mkCacheRecord CACHE_SCHEMA_VERSION (hash_of (as_bytes config_json)) config_json) in
  id ← new_v4;
  let temp := cache_temp id in
  create_private_file_new os_error temp (cache_context cache "failed to create runtime config cache temp " temp);;
  or_remove temp (write_all os_error temp bytes (cache_context cache "failed to write runtime config cache " temp));;
  or_remove temp (sync_all os_error (cache_context cache "failed to fsync runtime config cache " temp));;
  or_remove temp (rename_file os_error temp cache_path (cache_context cache "failed to promote runtime config cache " cache_path)).

(** ** Configuration updates *)

Definition runtime_config_candidate (config : AgentConfig) (runtime_config : AgentRuntimeConfig) (desired_version : Z)
  : result Error AgentConfig :=
  if negb (rcfg_version runtime_config =? desired_version) then Err (error_msg (lit "runtime config version mismatch"))
  else
    let candidate := apply_to_agent_config runtime_config config in
    match shape_ok candidate with
    | Ok _ => Ok candidate
    | Err error => Err (mkError None [lit "invalid runtime config candidate"; error])
    end.

Definition runtime_config_snapshot_is_stale (accepted_version : option Z) (current : AgentConfig) (desired_version : Z)
    (incoming : AgentRuntimeConfig) : bool :=
  match accepted_version with
  | None => false
  | Some accepted_version =>
      if desired_version <? accepted_version then true
      else if accepted_version <? desired_version then false
      else negb (bool_decide (content_hash (from_agent_config 0 current) = content_hash incoming))
  end.

(** * State *)

Record ActiveCommand := mkActive {
  active_payload_hash : str;
  active_cancel_token : CommandCancelToken;
  active_command_version : Z;
  active_safety : JobCommandSafety;
  active_stream_id : Z;
  replay_outputs : list SequencedCommandOutput;
  terminal_output : option SequencedCommandOutput;
  replay_output_bytes : Z;
  replay_truncated : bool;
  pending_outputs : list SequencedCommandOutput;
  next_output_seq : Z;
  finished : bool;
}.

Definition with_token (t : CommandCancelToken) (a : ActiveCommand) : ActiveCommand :=
  mkActive (active_payload_hash a) t (active_command_version a) (active_safety a) (active_stream_id a) (replay_outputs a)
    (terminal_output a) (replay_output_bytes a) (replay_truncated a) (pending_outputs a) (next_output_seq a) (finished a).
Definition with_stream (stream_id : Z) (a : ActiveCommand) : ActiveCommand :=
  mkActive (active_payload_hash a) (active_cancel_token a) (active_command_version a) (active_safety a) stream_id
    (replay_outputs a) (terminal_output a) (replay_output_bytes a) (replay_truncated a) (pending_outputs a)
    (next_output_seq a) (finished a).
Definition with_pending (pending : list SequencedCommandOutput) (a : ActiveCommand) : ActiveCommand :=
  mkActive (active_payload_hash a) (active_cancel_token a) (active_command_version a) (active_safety a) (active_stream_id a)
    (replay_outputs a) (terminal_output a) (replay_output_bytes a) (replay_truncated a) pending (next_output_seq a)
    (finished a).
Definition with_finished (a : ActiveCommand) : ActiveCommand :=
  mkActive (active_payload_hash a) (active_cancel_token a) (active_command_version a) (active_safety a) (active_stream_id a)
    (replay_outputs a) (terminal_output a) (replay_output_bytes a) (replay_truncated a) (pending_outputs a)
    (next_output_seq a) true.
Definition with_replay (terminal : option SequencedCommandOutput) (outputs : list SequencedCommandOutput) (bytes : Z)
    (truncated : bool) (a : ActiveCommand) : ActiveCommand :=
  mkActive (active_payload_hash a) (active_cancel_token a) (active_command_version a) (active_safety a) (active_stream_id a)
    outputs terminal bytes truncated (pending_outputs a) (next_output_seq a) (finished a).
Definition with_next_seq (n : Z) (a : ActiveCommand) : ActiveCommand :=
  mkActive (active_payload_hash a) (active_cancel_token a) (active_command_version a) (active_safety a) (active_stream_id a)
    (replay_outputs a) (terminal_output a) (replay_output_bytes a) (replay_truncated a) (pending_outputs a) n (finished a).

Definition MAX_REPLAY_BYTES : Z := 1024 * 1024.

Definition capture_replay_output (output : SequencedCommandOutput) (a : ActiveCommand) : ActiveCommand :=
  let terminal := if co_done (sq_output output) then Some (compact_terminal_replay_output output) else terminal_output a in
  if replay_truncated a then with_replay terminal (replay_outputs a) (replay_output_bytes a) true a
  else
    let bytes := saturating_add u64_max (replay_output_bytes a) (vec_len (co_data (sq_output output))) in
    if MAX_REPLAY_BYTES <? bytes then with_replay terminal [] 0 true a
    else with_replay terminal (replay_outputs a ++ [output]) bytes false a.

Definition enqueue_active_command_output (output : CommandOutput) (a : ActiveCommand) : ActiveCommand :=
  let seq := next_output_seq a in
  let a := with_next_seq (saturating_add i32_max seq 1) a in
  let output := mkSequenced seq output in
  let a := capture_replay_output output a in
  with_pending (pending_outputs a ++ [output]) a.

Record AgentCommandRuntime := mkRuntime {
  active_commands : gmap Z ActiveCommand;
  recent_commands : RecentCommandCache;
  command_ledger : option CommandLedger;
  runtime_config_cache : option RuntimeConfigCache;
  accepted_runtime_config_version : option Z;
  requires_authoritative_runtime_config_sync : bool;
  pending_reconcile_resources : Resources;
}.

Definition runtime_default : AgentCommandRuntime := mkRuntime ∅ recent_default None None None true ∅.
Definition with_persistence (ledger : CommandLedger) (cache : RuntimeConfigCache) (version : option Z) : AgentCommandRuntime :=
  mkRuntime ∅ recent_default (Some ledger) (Some cache) version true ∅.

(** What a spawned task runs. *)
Inductive TaskWork :=
| SyncWork (config : AgentConfig) (runtime_config : AgentRuntimeConfig) (desired_version : Z) (reason : str)
| CommandWork (request : JobRequest).

Record Task := mkTask {
  task_operation_type : string;
  task_max_timeout_secs : Z;
  task_work : TaskWork;
}.

Inductive FramePayload :=
| AckPayload (ack : JobAck)
| CancelAckPayload (ack : JobCancelAck)
| OutputPayload (output : SequencedCommandOutput)
| ResumePayload (resume : CommandResume)
| ReloadPayload (request : AgentRuntimeConfigReloadRequest)
| OtherPayload (bytes : list Z).

Record SentFrame := mkSent {
  sent_kind : MessageKind;
  sent_stream_id : Z;
  sent_seq : Z;
  sent_payload : FramePayload;
}.

Record World := mkWorld {
  w_config : AgentConfig;
  w_runtime : AgentCommandRuntime;
  w_ledger : Disk;
  w_cache : Disk;
  w_tasks : gmap Z Task;          (* spawned tasks that have not reported their end *)
  w_spawned : list Z;             (* the jobs tasks were ever spawned for *)
  w_up : bool;                    (* the process is past its start *)
  w_session : bool;               (* a gateway session is open *)
  w_seq : Z;
  w_sent : list SentFrame;        (* frames the stream took *)
  w_send_faults : list bool;      (* which sends to come fail *)
}.

Definition set_runtime (r : AgentCommandRuntime) (w : World) : World :=
  mkWorld (w_config w) r (w_ledger w) (w_cache w) (w_tasks w) (w_spawned w) (w_up w) (w_session w) (w_seq w) (w_sent w) (w_send_faults w).
Definition set_config (c : AgentConfig) (w : World) : World :=
  mkWorld c (w_runtime w) (w_ledger w) (w_cache w) (w_tasks w) (w_spawned w) (w_up w) (w_session w) (w_seq w) (w_sent w) (w_send_faults w).
Definition set_disks (l c : Disk) (w : World) : World :=
  mkWorld (w_config w) (w_runtime w) l c (w_tasks w) (w_spawned w) (w_up w) (w_session w) (w_seq w) (w_sent w) (w_send_faults w).
Definition set_tasks (tasks : gmap Z Task) (spawned : list Z) (w : World) : World :=
  mkWorld (w_config w) (w_runtime w) (w_ledger w) (w_cache w) tasks spawned (w_up w) (w_session w) (w_seq w) (w_sent w) (w_send_faults w).
Definition set_session (up open : bool) (w : World) : World :=
  mkWorld (w_config w) (w_runtime w) (w_ledger w) (w_cache w) (w_tasks w) (w_spawned w) up open (w_seq w) (w_sent w) (w_send_faults w).
Definition set_seq (n : Z) (w : World) : World :=
  mkWorld (w_config w) (w_runtime w) (w_ledger w) (w_cache w) (w_tasks w) (w_spawned w) (w_up w) (w_session w) n (w_sent w) (w_send_faults w).
Definition set_sent (sent : list SentFrame) (faults : list bool) (w : World) : World :=
  mkWorld (w_config w) (w_runtime w) (w_ledger w) (w_cache w) (w_tasks w) (w_spawned w) (w_up w) (w_session w) (w_seq w) sent faults.

Definition with_active (m : gmap Z ActiveCommand) (r : AgentCommandRuntime) : AgentCommandRuntime :=
  mkRuntime m (recent_commands r) (command_ledger r) (runtime_config_cache r) (accepted_runtime_config_version r)
    (requires_authoritative_runtime_config_sync r) (pending_reconcile_resources r).
Definition with_recent (c : RecentCommandCache) (r : AgentCommandRuntime) : AgentCommandRuntime :=
  mkRuntime (active_commands r) c (command_ledger r) (runtime_config_cache r) (accepted_runtime_config_version r)
    (requires_authoritative_runtime_config_sync r) (pending_reconcile_resources r).
Definition with_accepted (v : option Z) (r : AgentCommandRuntime) : AgentCommandRuntime :=
  mkRuntime (active_commands r) (recent_commands r) (command_ledger r) (runtime_config_cache r) v
    (requires_authoritative_runtime_config_sync r) (pending_reconcile_resources r).
Definition with_reconcile (required : bool) (pending : Resources) (r : AgentCommandRuntime) : AgentCommandRuntime :=
  mkRuntime (active_commands r) (recent_commands r) (command_ledger r) (runtime_config_cache r)
    (accepted_runtime_config_version r) required pending.

Definition w_active (w : World) : gmap Z ActiveCommand := active_commands (w_runtime w).
Definition on_runtime (f : AgentCommandRuntime -> AgentCommandRuntime) : Act World unit :=
  act_modify (fun w => set_runtime (f (w_runtime w)) w).
Definition on_active (f : gmap Z ActiveCommand -> gmap Z ActiveCommand) : Act World unit :=
  on_runtime (fun r => with_active (f (active_commands r)) r).

(** Disk operations inside the runtime. *)
Definition on_ledger {A} (m : Act Disk A) : Act World A :=
  fun w => let '(r, d) := m (w_ledger w) in (r, set_disks d (w_cache w) w).
Definition on_cache {A} (m : Act Disk A) : Act World A :=
  fun w => let '(r, d) := m (w_cache w) in (r, set_disks (w_ledger w) d w).

(** [match m.await { .. }]: the failure as a value. *)
Definition try_act {S A} (m : Act S A) : Act S (result Error A) := fun s => let '(r, s') := m s in (Ok r, s').
Definition of_result {S A} (r : result Error A) : Act S A := fun s => (r, s).

(** * Sending *)

Definition send_json_frame (kind : MessageKind) (stream_id : Z) (payload : FramePayload) : Act World unit :=
  fun w =>
    if hd false (w_send_faults w) then (Err (error_msg (lit "stream")), set_sent (w_sent w) (tl (w_send_faults w)) w)
    else (Ok tt, set_sent (w_sent w ++ [mkSent kind stream_id (w_seq w) payload]) (tl (w_send_faults w)) w).

(** [send_json_frame(..).await?; *seq += 1]. *)
Definition send_counted (kind : MessageKind) (stream_id : Z) (payload : FramePayload) : Act World unit :=
  send_json_frame kind stream_id payload;;
  act_modify (fun w => set_seq (w_seq w + 1) w).

Definition send_ack (stream_id job_id : Z) (accepted : bool) (message : string) : Act World unit :=
  send_counted CommandAck stream_id (AckPayload (mkAck job_id accepted (lit message))).

Definition send_sequenced_command_payload (stream_id : Z) (output : SequencedCommandOutput) : Act World unit :=
  send_counted Frame.CommandOutput stream_id (OutputPayload output).
Definition send_sequenced_command_output (stream_id output_seq : Z) (output : CommandOutput) : Act World unit :=
  send_sequenced_command_payload stream_id (mkSequenced output_seq output).
Definition send_sequenced_command_outputs (stream_id : Z) (outputs : list SequencedCommandOutput) : Act World unit :=
  act_each (send_sequenced_command_payload stream_id) outputs.
Definition send_command_outputs_starting_at (stream_id start_output_seq : Z) (outputs : list CommandOutput) : Act World unit :=
  send_sequenced_command_outputs stream_id (sequenced_outputs_starting_at start_output_seq outputs).
Definition send_command_outputs (stream_id : Z) (outputs : list CommandOutput) : Act World unit :=
  send_command_outputs_starting_at stream_id 0 outputs.

Definition send_unsupported_command_version (stream_id job_id : Z) (output : CommandOutput) : Act World unit :=
  send_ack stream_id job_id true "unsupported_command_version";;
  send_sequenced_command_output stream_id 0 output.

(** The front of the queue is dropped only after it was sent. *)
Fixpoint flush_outputs (job_id stream_id : Z) (pending : list SequencedCommandOutput) : Act World unit :=
  match pending with
  | [] => mret tt
  | output :: rest =>
      send_counted Frame.CommandOutput stream_id (OutputPayload output);;
      on_active (alter (with_pending rest) job_id);;
      flush_outputs job_id stream_id rest
  end.

Definition flush_pending_command_outputs (job_id : Z) : Act World unit :=
  w ← act_get;
  match w_active w !! job_id with
  | Some a => flush_outputs job_id (active_stream_id a) (pending_outputs a)
  | None => mret tt
  end.

Definition flushed (a : ActiveCommand) : bool := finished a && is_empty (pending_outputs a).
Definition remove_finished_flushed_commands : Act World unit :=
  on_active (filter (fun '(_, a) => flushed a = false)).

Definition active_keys (w : World) : list Z := key_order (map fst (map_to_list (w_active w))).

Definition flush_all_pending_command_outputs : Act World unit :=
  w ← act_get;
  act_each flush_pending_command_outputs (active_keys w);;
  remove_finished_flushed_commands.
End Runtime.
