(* ===== verification/AgentTunnelSync.v ===== *)
(** What a synchronisation of the runtime configuration does to the host
    (crates/agent/src/runtime/runtime.rs): which tunnels it removes, which it
    reconciles, whether it asks the port-forwarding consumer, and its report.

    The executors of single tunnels and the consumer are inputs: each call has an
    answer, and each look at the cancel token finds it set or not.  The calls made
    are part of the result.  Counts stay below 2^64. *)

From stdpp Require Import base list.
From Stdlib Require Import SpecFloat.
From S2P Require Import Prelude RustStd Json F64 Net PortForwarding NftRender NftReconcile TunnelModels ConfigModels ConfigValidation JobCommands CommandLedger AgentCommands.

Open Scope Z_scope.

(** * Equality of plans *)

#[export] Instance spec_float_eq_dec : EqDecision spec_float.
Proof. solve_decision. Defined.
#[export] Instance ospf_control_mode_eq_dec : EqDecision OspfControlMode.
Proof. solve_decision. Defined.
#[export] Instance ospf_cost_policy_eq_dec : EqDecision OspfCostPolicy.
Proof. solve_decision. Defined.
#[export] Instance tunnel_ospf_config_eq_dec : EqDecision TunnelOspfConfig.
Proof. solve_decision. Defined.
#[export] Instance tunnel_adapter_eq_dec : EqDecision RuntimeTunnelAdapterCommands.
Proof. solve_decision. Defined.
#[export] Instance endpoint_credentials_eq_dec : EqDecision TunnelEndpointBuiltinCredentials.
Proof. solve_decision. Defined.
#[export] Instance tunnel_address_pair_eq_dec : EqDecision TunnelAddressPair.
Proof. solve_decision. Defined.
#[export] Instance tunnel_endpoint_extra_eq_dec : EqDecision TunnelEndpointAdditionalAddresses.
Proof. solve_decision. Defined.
#[export] Instance tunnel_extras_eq_dec : EqDecision TunnelAdditionalAddresses.
Proof. solve_decision. Defined.
#[export] Instance runtime_tunnel_control_eq_dec : EqDecision RuntimeTunnelControl.
Proof. solve_decision. Defined.
#[export] Instance tunnel_plan_eq_dec : EqDecision TunnelPlan.
Proof. solve_decision. Defined.
#[export] Instance telemetry_plan_eq_dec : EqDecision AgentRuntimeStatusTelemetryPlan.
Proof. solve_decision. Defined.

(** [PartialEq] of a plan: floats by [==], everything else structurally. *)
Definition policy_eqb (a b : OspfCostPolicy) : bool :=
  SFeqb (latency_weight a) (latency_weight b) && SFeqb (loss_weight a) (loss_weight b)
  && SFeqb (bandwidth_weight a) (bandwidth_weight b) && SFeqb (preference_bias a) (preference_bias b)
  && (min_cost a =? min_cost b) && (max_cost a =? max_cost b).

Definition option_eqb {A} (eqb : A -> A -> bool) (a b : option A) : bool :=
  match a, b with Some x, Some y => eqb x y | None, None => true | _, _ => false end.

Definition ospf_eqb (a b : TunnelOspfConfig) : bool :=
  bool_decide (ospf_mode a = ospf_mode b) && SFeqb (planned_latency_ms a) (planned_latency_ms b)
  && SFeqb (planned_packet_loss_ratio a) (planned_packet_loss_ratio b) && SFeqb (ospf_preference a) (ospf_preference b)
  && SFeqb (left_cost_offset a) (left_cost_offset b) && SFeqb (right_cost_offset a) (right_cost_offset b)
  && SFeqb (left_cost_multiplier a) (left_cost_multiplier b) && SFeqb (right_cost_multiplier a) (right_cost_multiplier b)
  && (cost_floor a =? cost_floor b) && policy_eqb (ospf_policy a) (ospf_policy b) && (min_cost_delta a =? min_cost_delta b)
  && (healthy_windows a =? healthy_windows b)
  && bool_decide (ospf_left_adapter_definition_id a = ospf_left_adapter_definition_id b)
  && bool_decide (ospf_right_adapter_definition_id a = ospf_right_adapter_definition_id b).

Definition without_ospf (p : TunnelPlan) : TunnelPlan :=
  mkPlan (plan_name p) (plan_interface_name p) (plan_kind p) (plan_runtime_control p) (plan_runtime_topology p)
    (plan_left_client_id p) (plan_right_client_id p) (plan_left_remote_underlay p) (plan_left_local_underlay p)
    (plan_right_remote_underlay p) (plan_right_local_underlay p) (plan_left_tunnel_address p) (plan_right_tunnel_address p)
    (plan_tunnel_prefix_len p) (plan_ipv4_tunnel p) (plan_ipv6_tunnel p) (plan_additional_addresses p)
    (plan_manage_link_local p) (plan_latency_primary_family p) (plan_bandwidth_mbps p) (plan_left_mtu p) (plan_right_mtu p)
    None (plan_recommended_ospf_cost p) (plan_left_recommended_ospf_cost p) (plan_right_recommended_ospf_cost p)
    (plan_conflicts p).

Definition strip_name (adapter : RuntimeTunnelAdapterCommands) : RuntimeTunnelAdapterCommands :=
  mkTunnelAdapter (ta_definition_id adapter) [] (ta_definition_hash adapter) (ta_startup adapter) (ta_stop adapter)
    (ta_cleanup adapter) (ta_restart adapter) (ta_status adapter) (ta_traffic_limit_apply adapter).

Definition with_plan (p : TunnelPlan) (adapter : option RuntimeTunnelAdapterCommands) (t : AgentRuntimeStatusTelemetryPlan)
  : AgentRuntimeStatusTelemetryPlan :=
  mkTelemetryPlan (tp_plan_id t) (tp_topology_identity_hash t) (tp_runtime_evidence_identity_hash t) (tp_endpoint_side t) p
    (tp_builtin_credentials t) adapter (tp_latency_monitoring_enabled t).

(** What two snapshots are compared by, floats aside. *)
Definition snapshot_key (t : AgentRuntimeStatusTelemetryPlan) : AgentRuntimeStatusTelemetryPlan :=
  with_plan (without_ospf (tp_plan t)) (option_map strip_name (tp_runtime_adapter t)) t.

Definition runtime_tunnel_snapshots_match (l r : AgentRuntimeStatusTelemetryPlan) : bool :=
  bool_decide (snapshot_key l = snapshot_key r) && option_eqb ospf_eqb (plan_ospf (tp_plan l)) (plan_ospf (tp_plan r)).

Definition runtime_tunnel_snapshot_sets_match (l r : list AgentRuntimeStatusTelemetryPlan) : bool :=
  (vec_len l =? vec_len r) && forallb (fun old => existsb (runtime_tunnel_snapshots_match old) r) l.

(** * Identity of tunnels *)

Definition runtime_adapter_execution_matches (l r : option RuntimeTunnelAdapterCommands) : bool :=
  bool_decide (option_map strip_name l = option_map strip_name r).

Definition runtime_tunnel_underlay_identity_matches (l r : TunnelPlan) : bool :=
  if bool_decide (rc_manager (plan_runtime_control l) = AgentBuiltin)
     && match plan_kind l with Wireguard | Openvpn => true | _ => false end
  then true
  else str_eqb (plan_left_remote_underlay l) (plan_left_remote_underlay r)
       && bool_decide (plan_left_local_underlay l = plan_left_local_underlay r)
       && str_eqb (plan_right_remote_underlay l) (plan_right_remote_underlay r)
       && bool_decide (plan_right_local_underlay l = plan_right_local_underlay r).

Definition runtime_tunnel_control_identity_matches (l r : RuntimeTunnelControl) : bool :=
  match rc_manager l with
  | AgentBuiltin => bool_decide (rc_fou l = rc_fou r)
  | ExternalObserved => true
  | CustomAdapter =>
      bool_decide (rc_left_adapter_definition_id l = rc_left_adapter_definition_id r)
      && bool_decide (rc_right_adapter_definition_id l = rc_right_adapter_definition_id r)
      && bool_decide (rc_traffic_limit l = rc_traffic_limit r)
  end.

Definition runtime_tunnel_identity_matches (l r : AgentRuntimeStatusTelemetryPlan) : bool :=
  let lp := tp_plan l in
  let rp := tp_plan r in
  bool_decide (tp_endpoint_side l = tp_endpoint_side r) && bool_decide (tp_plan_id l = tp_plan_id r)
  && str_eqb (plan_interface_name lp) (plan_interface_name rp) && bool_decide (plan_kind lp = plan_kind rp)
  && bool_decide (rc_manager (plan_runtime_control lp) = rc_manager (plan_runtime_control rp))
  && str_eqb (plan_left_client_id lp) (plan_left_client_id rp) && str_eqb (plan_right_client_id lp) (plan_right_client_id rp)
  && runtime_tunnel_underlay_identity_matches lp rp
  && str_eqb (plan_left_tunnel_address lp) (plan_left_tunnel_address rp)
  && str_eqb (plan_right_tunnel_address lp) (plan_right_tunnel_address rp)
  && (plan_tunnel_prefix_len lp =? plan_tunnel_prefix_len rp)
  && bool_decide (plan_ipv4_tunnel lp = plan_ipv4_tunnel rp) && bool_decide (plan_ipv6_tunnel lp = plan_ipv6_tunnel rp)
  && runtime_adapter_execution_matches (tp_runtime_adapter l) (tp_runtime_adapter r)
  && runtime_tunnel_control_identity_matches (plan_runtime_control lp) (plan_runtime_control rp).

(** * Port forwarding *)

#[export] Instance port_forward_mapping_eq_dec : EqDecision PortForwardMapping.
Proof. solve_decision. Defined.
#[export] Instance port_forward_adapter_eq_dec : EqDecision PortForwardAdapterCommands.
Proof. solve_decision. Defined.
#[export] Instance failure_policy_eq_dec : EqDecision PortForwardFailurePolicy.
Proof. solve_decision. Defined.
#[export] Instance retry_policy_eq_dec : EqDecision PortForwardRetryPolicy.
Proof. solve_decision. Defined.
#[export] Instance port_forward_upstream_eq_dec : EqDecision PortForwardUpstream.
Proof. solve_decision. Defined.
#[export] Instance port_forward_pool_eq_dec : EqDecision PortForwardPool.
Proof. solve_decision. Defined.
#[export] Instance port_forward_rule_eq_dec : EqDecision PortForwardRule.
Proof. solve_decision. Defined.
#[export] Instance cleanup_rule_eq_dec : EqDecision PortForwardCleanupRule.
Proof. solve_decision. Defined.
#[export] Instance port_forwarding_config_eq_dec : EqDecision AgentPortForwardingConfig.
Proof. solve_decision. Defined.

(** [normalize]: without the hash of the document and the labels it covers. *)
Definition strip_adapter_label (a : PortForwardAdapterCommands) : PortForwardAdapterCommands :=
  {| definition_id := definition_id a; definition_name := []; definition_hash := definition_hash a;
     contract_version := contract_version a; adapter_apply := adapter_apply a; adapter_remove := adapter_remove a;
     adapter_status := adapter_status a |}.
Definition strip_rule_label (r : PortForwardRule) : PortForwardRule :=
  {| rule_id := rule_id r; revision := revision r; name := name r; protocol := protocol r; target_ip := target_ip r;
     mappings := mappings r; pool := pool r; masquerade := masquerade r; mode := mode r; address_family := address_family r;
     adapter := option_map strip_adapter_label (adapter r) |}.
Definition normalize_forwarding (c : AgentPortForwardingConfig) : AgentPortForwardingConfig :=
  {| schema_version := schema_version c; desired_hash := []; rules := map strip_rule_label (rules c);
     cleanup_rules := cleanup_rules c; native_cleanup_pending := native_cleanup_pending c |}.

Definition port_forwarding_snapshots_match (l r : AgentPortForwardingConfig) : bool :=
  bool_decide (normalize_forwarding l = normalize_forwarding r).

Definition runtime_config_reason_requires_port_forwarding_table_access (reason : str) : bool :=
  bool_decide (PortForwardingResource ∈ resources (runtime_config_reconcile_scope_from_reason reason)).

Definition port_forwarding_table_access_required (previous_rules_present desired_rules_present : bool) (reason : str)
    (custom_ownership_present : bool) : bool :=
  previous_rules_present || desired_rules_present
  || (negb custom_ownership_present && runtime_config_reason_requires_port_forwarding_table_access reason).

Definition port_forwarding_snapshot_requires_reconnect_sync (snapshot : PortForwardRuntimeSnapshot) : bool :=
  match snap_status snapshot with
  | Drifted => true
  | Failed => negb (bool_decide (snap_error_code snapshot = Some (lit "table_ownership_conflict")))
  | Absent | Applied | NftReconcile.Unsupported | StatusUnknown => false
  end.

Definition is_custom (rule : PortForwardRule) : bool := bool_decide (mode rule = PortForwarding.CustomAdapter).
Definition is_native (rule : PortForwardRule) : bool := negb (is_custom rule).

(** * Reports *)

Definition endpoint_side_name (side : TunnelEndpointSide) : string :=
  match side with SideLeft => "left" | SideRight => "right" end.

Definition manager_text (manager : RuntimeTunnelManager) : string :=
  match manager with
  | AgentBuiltin => "agent_builtin"
  | ExternalObserved => "external_observed"
  | CustomAdapter => "custom_adapter"
  end.

Definition optional_str (s : option str) : Value := match s with Some s => Str s | None => Null end.

(** [report[k]] and [report.get(k).cloned().unwrap_or(Null)]. *)
Definition field (report : Value) (k : string) : Value := default Null (json_get report (lit k)).
Definition report_status (report : Value) : option str := json_get report (lit "status") ≫= as_str.
Definition hook_failures_of (report : Value) : Z := default 0 (as_u64 (field report "hook_failures")).

Definition failed_commands (report : Value) : list Value :=
  List.filter (fun command => bool_decide (as_bool (field command "success") = Some false))
    (default [] (as_array (field report "commands"))).

Definition hook_results (report : Value) : list Value :=
  List.filter (fun command => match as_str (field command "label") with
                              | Some label => starts_with label (lit "runtime_hook_")
                              | None => false
                              end)
    (default [] (as_array (field report "commands"))).

Definition first_error (commands : list Value) : option str :=
  head (omap (fun command => as_str (field command "error")) commands).

Definition runtime_reconcile_summary (trigger : string) (plan_id : option str) (report : Value) (error : option str) : Value :=
  let failed := failed_commands report in
  let error := match error with Some e => Some e | None => first_error failed end in
  json_object
    [("trigger", Str (lit trigger)); ("plan_id", optional_str plan_id); ("plan", field report "plan");
     ("interface", field report "interface"); ("side", field report "side"); ("manager", field report "manager");
     ("status", field report "status"); ("reason", field report "reason");
     ("link_existed_before", field report "link_existed_before");
     ("existing_link_validation", field report "existing_link_validation"); ("error", optional_str error);
     ("failed_commands", Array failed); ("compensation", field report "compensation");
     ("hook_failures", json_int (hook_failures_of report)); ("hook_results", Array (hook_results report))]%string.

(** The report of a tunnel that has none of its own. *)
Definition bare_report (kind status : string) (t : AgentRuntimeStatusTelemetryPlan) : Value :=
  json_object
    [("type", Str (lit kind)); ("status", Str (lit status)); ("plan", Str (plan_name (tp_plan t)));
     ("interface", Str (plan_interface_name (tp_plan t))); ("side", Str (lit (endpoint_side_name (tp_endpoint_side t))));
     ("manager", Str (lit (manager_text (rc_manager (plan_runtime_control (tp_plan t))))))]%string.

(** * Calls *)

Inductive SyncCall :=
| ReconcileForwarding (desired : AgentPortForwardingConfig) (require_table_access force explicit : bool) (owned : list Z)
| RemoveTunnel (t : AgentRuntimeStatusTelemetryPlan)
| ReconcileTunnel (t : AgentRuntimeStatusTelemetryPlan) (previous : option TunnelPlan).

Record SyncInputs := mkSyncInputs {
  in_checks : list (option str);              (* the cancel token at each look: the reason, when set *)
  in_forwarding : result Error Value;         (* the snapshot of the consumer *)
  in_removals : list (result Error Value);
  in_reconciles : list (result Error Value);
}.

(** [cancel_token.check("runtime_config_sync")]. *)
Definition check_sync (canceled : option str) : result Error unit :=
  match canceled with
  | Some reason => Err (command_canceled "runtime_config_sync" reason)
  | None => Ok tt
  end.

Definition removal_summary (t : AgentRuntimeStatusTelemetryPlan) (answer : result Error Value) : Value :=
  match answer with
  | Ok report => runtime_reconcile_summary "runtime_config_sync_remove" (tp_plan_id t) report None
  | Err error =>
      runtime_reconcile_summary "runtime_config_sync_remove" (tp_plan_id t) (bare_report "runtime_tunnel_remove" "failed" t)
        (Some (error_to_string error))
  end.

(** The loop over the stale tunnels: its calls, its reports or the cancellation,
    and the looks at the token that are left. *)
Fixpoint remove_stale (stale : list AgentRuntimeStatusTelemetryPlan) (checks : list (option str))
    (answers : list (result Error Value)) : list SyncCall * result Error (list Value) * list (option str) :=
  match stale with
  | [] => ([], Ok [], checks)
  | t :: stale' =>
      match check_sync (hd None checks) with
      | Err error => ([], Err error, tl checks)
      | Ok _ =>
          let '(calls, reports, checks') := remove_stale stale' (tl checks) (tl answers) in
          (RemoveTunnel t :: calls, reports ← reports; Ok (removal_summary t (hd (Ok Null) answers) :: reports), checks')
      end
  end.

(** ** The reconciliation of the configured tunnels *)

Record Tally := mkTally {
  converged : Z;
  observed : Z;
  skipped : Z;
  degraded : Z;
  failed : Z;
  hook_failures : Z;
  summaries : list Value;
}.

Definition tally_default : Tally := mkTally 0 0 0 0 0 0 [].

Definition add_failed (summary : Value) (n : Tally) : Tally :=
  mkTally (converged n) (observed n) (skipped n) (degraded n) (failed n + 1) (hook_failures n) (summaries n ++ [summary]).
Definition add_unchanged (summary : Value) (n : Tally) : Tally :=
  mkTally (converged n + 1) (observed n) (skipped n) (degraded n) (failed n) (hook_failures n) (summaries n ++ [summary]).

(** The executor's report, counted by its status. *)
Definition add_report (summary report : Value) (n : Tally) : Tally :=
  let status := default (lit "unknown") (as_str (field report "status")) in
  let hooks := hook_failures n + hook_failures_of report in
  let all := summaries n ++ [summary] in
  if str_eqb status (lit "converged") then mkTally (converged n + 1) (observed n) (skipped n) (degraded n) (failed n) hooks all
  else if str_eqb status (lit "observed_only") then mkTally (converged n) (observed n + 1) (skipped n) (degraded n) (failed n) hooks all
  else if str_eqb status (lit "skipped") then mkTally (converged n) (observed n) (skipped n + 1) (degraded n) (failed n) hooks all
  else if str_eqb status (lit "failed") then mkTally (converged n) (observed n) (skipped n) (degraded n) (failed n + 1) hooks all
  else mkTally (converged n) (observed n) (skipped n) (degraded n + 1) (failed n) hooks all.

Section Reconcile.
Context (trigger : string) (previous unchanged : list AgentRuntimeStatusTelemetryPlan).

Definition is_unchanged (t : AgentRuntimeStatusTelemetryPlan) : bool :=
  existsb (fun old => runtime_tunnel_snapshots_match old t) unchanged.

Definition previous_plan (t : AgentRuntimeStatusTelemetryPlan) : option TunnelPlan :=
  tp_plan <$> List.find (fun old => runtime_tunnel_identity_matches old t) previous.

Definition failed_summary (t : AgentRuntimeStatusTelemetryPlan) (error : Error) : Value :=
  runtime_reconcile_summary trigger (tp_plan_id t) (bare_report "runtime_tunnel_reconcile" "failed" t) (Some (error_to_string error)).

Fixpoint reconcile_loop (plans : list AgentRuntimeStatusTelemetryPlan) (checks : list (option str))
    (answers : list (result Error Value)) (n : Tally) : list SyncCall * Tally :=
  match plans with
  | [] => ([], n)
  | t :: plans' =>
      if is_unchanged t then
        reconcile_loop plans' checks answers
          (add_unchanged (runtime_reconcile_summary trigger (tp_plan_id t) (bare_report "runtime_tunnel_reconcile" "unchanged" t) None) n)
      else
        match check_sync (hd None checks) with
        | Err error => ([], add_failed (failed_summary t error) n)
        | Ok _ =>
            let n' := match hd (Ok Null) answers with
                      | Ok report => add_report (runtime_reconcile_summary trigger (tp_plan_id t) report None) report n
                      | Err error => add_failed (failed_summary t error) n
                      end in
            let '(calls, n'') := reconcile_loop plans' (tl checks) (tl answers) n' in
            (ReconcileTunnel t (previous_plan t) :: calls, n'')
        end
  end.

Definition reconcile_status (total : Z) (n : Tally) : string :=
  if total =? 0 then "skipped" else if 0 <? failed n then "failed" else if 0 <? degraded n then "degraded" else "completed".

Definition reconcile_configured_runtime_tunnels_with_previous (config : AgentConfig) (checks : list (option str))
    (answers : list (result Error Value)) : list SyncCall * Value :=
  let plans := runtime_status_telemetry_plans (ac_network config) in
  let total := vec_len plans in
  let '(calls, n) := reconcile_loop plans checks answers tally_default in
  (calls, json_object
    [("type", Str (lit "configured_runtime_tunnel_reconcile")); ("trigger", Str (lit trigger));
     ("status", Str (lit (reconcile_status total n))); ("total", json_int total); ("converged", json_int (converged n));
     ("observed", json_int (observed n)); ("skipped", json_int (skipped n)); ("degraded", json_int (degraded n));
     ("failed", json_int (failed n)); ("hook_failures", json_int (hook_failures n)); ("tunnels", Array (summaries n))]%string).
End Reconcile.

(** * The steps of a synchronisation *)

(** The reports of the steps: the removed tunnels, the reconciliation and the port
    forwarding; or the cancellation that interrupted them. *)
Inductive SyncSteps :=
| StepsDone (removals : list Value) (reconcile port_forwarding : Value)
| StepsInterrupted (error : Error).

Definition forwarding_failed_report (error : Error) : Value :=
  json_object [("status", Str (lit "failed")); ("error", Str (error_to_string error))]%string.

Section Steps.
Context (config candidate : AgentConfig) (reason : str).

Let previous_tunnels := runtime_status_telemetry_plans (ac_network config).
Let desired_tunnels := runtime_status_telemetry_plans (ac_network candidate).
Let previous_forwarding := port_forwarding (ac_network config).
Let desired_forwarding := port_forwarding (ac_network candidate).

Definition tunnels_changed : bool := negb (runtime_tunnel_snapshot_sets_match previous_tunnels desired_tunnels).
Definition port_forwarding_changed : bool := negb (port_forwarding_snapshots_match previous_forwarding desired_forwarding).
Definition port_forwarding_reapply : bool := includes (runtime_config_reconcile_scope_from_reason reason) PortForwardingResource.
Definition tunnel_reapply : bool := includes (runtime_config_reconcile_scope_from_reason reason) RuntimeTunnels.

Definition require_table_access : bool :=
  port_forwarding_table_access_required (existsb is_native (rules previous_forwarding)) (existsb is_native (rules desired_forwarding))
    reason
    (negb (is_empty (cleanup_rules desired_forwarding))
     || existsb is_custom (rules previous_forwarding ++ rules desired_forwarding)).

Definition forwarding_call : SyncCall :=
  ReconcileForwarding desired_forwarding require_table_access port_forwarding_reapply
    (one_of reason ["port_forward_table_reapply"; "port_forward_bulk_reapply"])
    (map rule_id (List.filter is_native (rules previous_forwarding))).

Definition forwarding_step (answer : result Error Value) : list SyncCall * Value :=
  if port_forwarding_changed || port_forwarding_reapply
  then ([forwarding_call], match answer with Ok snapshot => snapshot | Err error => forwarding_failed_report error end)
  else ([], json_object [("status", Str (lit "unchanged"))]%string).

Definition stale_tunnels : list AgentRuntimeStatusTelemetryPlan :=
  List.filter (fun previous => negb (existsb (runtime_tunnel_identity_matches previous) desired_tunnels))
    (List.filter (fun _ => tunnels_changed) previous_tunnels).

Definition reconcile_step (checks : list (option str)) (answers : list (result Error Value)) : list SyncCall * Value :=
  if tunnels_changed || tunnel_reapply
  then reconcile_configured_runtime_tunnels_with_previous "runtime_config_sync" previous_tunnels
         (if tunnel_reapply then [] else previous_tunnels) candidate checks answers
  else ([], json_object [("status", Str (lit "unchanged")); ("total", json_int (vec_len desired_tunnels))]%string).

Definition sync_steps (inputs : SyncInputs) : list SyncCall * SyncSteps :=
  let '(calls1, port_forwarding) := forwarding_step (in_forwarding inputs) in
  let '(calls2, removals, checks) := remove_stale stale_tunnels (in_checks inputs) (in_removals inputs) in
  match (removals ← removals; check_sync (hd None checks);; Ok removals) with
  | Err error => (calls1 ++ calls2, StepsInterrupted error)
  | Ok removals =>
      let '(calls3, reconcile) := reconcile_step (tl checks) (in_reconciles inputs) in
      (calls1 ++ calls2 ++ calls3, StepsDone removals reconcile port_forwarding)
  end.
End Steps.

(** * The inspection at the start of a session *)

(** How the inspections of the managed tunnels end, in the order they end. *)
Inductive Inspection :=
| Inspected (drifted : bool)
| InspectionFailed (error : Error)
| InspectionPanicked.

Definition found_drift (i : Inspection) : bool := match i with Inspected drifted => drifted | _ => true end.

Definition configured_runtime_tunnels_require_reconnect_sync (config : AgentConfig) (ended : list Inspection) (timed_out : bool) : bool :=
  let managed := List.filter (fun t => negb (bool_decide (rc_manager (plan_runtime_control (tp_plan t)) = ExternalObserved)))
                   (runtime_status_telemetry_plans (ac_network config)) in
  if is_empty managed then false else existsb found_drift ended || timed_out.
