(* ===== verification/AgentHandlers.v ===== *)
(** The handlers of the agent's command runtime (crates/agent/src/runtime/runtime.rs)
    and its runs: command and cancel frames, outputs and ends of tasks, sessions,
    restarts and the ledger's cleanup, in any order. *)

From stdpp Require Import gmap.
From S2P Require Import Prelude RustStd Json Frame PortForwarding NftReconcile TunnelModels ConfigModels ConfigValidation JobCommands CommandLedger AgentCommands AgentTunnelSync.

Open Scope Z_scope.

Section Handlers.
Context `{AgentPlatform}.

(** * Completed commands *)

Definition remember_completed_replay_outputs (job_id : Z) (payload_hash : str) (outputs : list SequencedCommandOutput)
    (terminal : option SequencedCommandOutput) (truncated : bool) : Act World unit :=
  on_runtime (fun r => with_recent (remember job_id payload_hash outputs terminal truncated (recent_commands r)) r);;
  w ← act_get;
  match command_ledger (w_runtime w) with
  | Some ledger => on_ledger (ledger_record ledger job_id payload_hash (compact_ledger_terminal_output terminal) true)
  | None => mret tt
  end.

Definition remember_completed_command_outputs (job_id : Z) (payload_hash : str) (outputs : list CommandOutput) : Act World unit :=
  let replay_outputs := sequenced_outputs_starting_at 0 outputs in
  remember_completed_replay_outputs job_id payload_hash replay_outputs (terminal_replay_output_from replay_outputs) false.

(** * Command frames *)

(** A request whose command this agent cannot decode. *)
Definition refuse_shape (stream_id : Z) (u : UnsupportedJobRequest) : Act World unit :=
  let output := unsupported_command_shape_output u in
  remember_completed_command_outputs (un_job_id u) (un_payload_hash u) [output];;
  send_unsupported_command_version stream_id (un_job_id u) output.

(** A request with a version out of the range of its command. *)
Definition refuse_version (stream_id : Z) (request : JobRequest) (payload_hash : str) : Act World unit :=
  let job_id := req_job_id request in
  let output := unsupported_command_version_output job_id (req_command request) (req_command_version request) in
  remember_completed_command_outputs job_id payload_hash [output];;
  send_unsupported_command_version stream_id job_id output.

(** A request for a job under way. *)
Definition answer_active (stream_id job_id : Z) (payload_hash : str) (active : ActiveCommand) : Act World unit :=
  if str_eqb (active_payload_hash active) payload_hash then
    on_active (alter (with_stream stream_id) job_id);;
    send_ack stream_id job_id true "duplicate job already active";;
    flush_pending_command_outputs job_id;;
    on_active (fun m => match m !! job_id with
                        | Some a => if flushed a then delete job_id m else m
                        | None => m
                        end)
  else send_ack stream_id job_id false "duplicate job id is active with different payload".

(** The terminal output that was kept, or a statement that none was. *)
Definition send_terminal_or_unknown (stream_id job_id : Z) (terminal : option SequencedCommandOutput) : Act World unit :=
  match terminal with
  | Some output => send_sequenced_command_payload stream_id output
  | None => send_sequenced_command_output stream_id 0 (duplicate_replay_unknown_terminal_output job_id)
  end.

(** A request for a job in the replay cache. *)
Definition replay_recent (stream_id job_id : Z) (payload_hash : str) (completed : RecentCommandEntry) : Act World unit :=
  if str_eqb (re_payload_hash completed) payload_hash then
    send_ack stream_id job_id true "duplicate completed job replayed";;
    if re_truncated completed then send_terminal_or_unknown stream_id job_id (re_terminal_output completed)
    else send_sequenced_command_outputs stream_id (re_outputs completed)
  else send_ack stream_id job_id false "duplicate completed job id has different payload".

(** A request for a job in the ledger. *)
Definition replay_ledger (stream_id job_id : Z) (payload_hash : str) (completed : CommandLedgerEntry) : Act World unit :=
  if str_eqb (ce_payload_hash completed) payload_hash then
    send_ack stream_id job_id true "duplicate completed job replayed from ledger";;
    send_terminal_or_unknown stream_id job_id (ce_terminal_output completed)
  else send_ack stream_id job_id false "duplicate completed job id has different payload".

(** Why a configuration is not taken. *)
Definition sync_rejection (accepted : option Z) (config : AgentConfig) (command : JobCommand) : option string :=
  match command with
  | RuntimeConfigSync desired_version _ runtime_config =>
      if negb (rcfg_version runtime_config =? desired_version) then Some "runtime_config_version_mismatch"%string
      else if runtime_config_snapshot_is_stale accepted config desired_version runtime_config
      then Some "runtime_config_snapshot_stale"%string
      else None
  | _ => None
  end.

Definition exclusive_conflict (safety : JobCommandSafety) (active : gmap Z ActiveCommand) : bool :=
  if bool_decide (safety = Exclusive) then negb (bool_decide (active = ∅))
  else existsb (fun '(_, a) => bool_decide (active_safety a = Exclusive)) (map_to_list active).

Definition task_for (config : AgentConfig) (request : JobRequest) (max_timeout_secs : Z) : Task :=
  mkTask (job_command_type_label (req_command request)) max_timeout_secs
    match req_command request with
    | RuntimeConfigSync desired_version reason runtime_config => SyncWork config runtime_config desired_version reason
    | _ => CommandWork request
    end.

Definition new_active (stream_id : Z) (request : JobRequest) (payload_hash : str) : ActiveCommand :=
  mkActive payload_hash token_default (req_command_version request) (job_command_safety (req_command request)) stream_id
    [] None 0 false [] 0 false.

(** Reads of the configuration are answered at once; everything else is spawned. *)
Definition start_command (stream_id : Z) (request : JobRequest) (payload_hash : str) : Act World unit :=
  let job_id := req_job_id request in
  send_ack stream_id job_id true "accepted";;
  w ← act_get;
  let max_timeout_secs := Z.max 1 (Z.min (req_max_timeout_secs request) MAX_CONFIGURABLE_JOB_TIMEOUT_SECS) in
  match req_command request with
  | ConfigRead =>
      let outputs := command_result_outputs job_id "config_read" max_timeout_secs (read_redacted_config job_id (w_config w)) in
      remember_completed_command_outputs job_id payload_hash outputs;;
      send_command_outputs stream_id outputs
  | _ =>
      act_modify (fun w => set_tasks (<[ job_id := task_for (w_config w) request max_timeout_secs ]> (w_tasks w))
                             (w_spawned w ++ [job_id]) w);;
      on_active <[ job_id := new_active stream_id request payload_hash ]>
  end.

(** A request for a job the agent has not seen. *)
Definition admit_command (stream_id : Z) (request : JobRequest) (payload_hash : str) : Act World unit :=
  w ← act_get;
  match sync_rejection (accepted_runtime_config_version (w_runtime w)) (w_config w) (req_command request) with
  | Some message => send_ack stream_id (req_job_id request) false message
  | None =>
      if exclusive_conflict (job_command_safety (req_command request)) (w_active w)
      then send_ack stream_id (req_job_id request) false "exclusive_command_already_active"
      else start_command stream_id request payload_hash
  end.

Definition lookup_ledger (job_id : Z) : Act World (option CommandLedgerEntry) :=
  w ← act_get;
  match command_ledger (w_runtime w) with
  | Some ledger => on_ledger (ledger_lookup ledger job_id)
  | None => mret None
  end.

Definition handle_request (stream_id : Z) (request : JobRequest) : Act World unit :=
  let job_id := req_job_id request in
  let payload_hash := command_payload_hash (req_command request) in
  if negb (command_supports_requested_protocol (req_command request) (req_command_version request))
  then refuse_version stream_id request payload_hash
  else
    w ← act_get;
    match w_active w !! job_id with
    | Some active => answer_active stream_id job_id payload_hash active
    | None =>
        match entries (recent_commands (w_runtime w)) !! job_id with
        | Some completed => replay_recent stream_id job_id payload_hash completed
        | None =>
            completed ← lookup_ledger job_id;
            match completed with
            | Some completed => replay_ledger stream_id job_id payload_hash completed
            | None => admit_command stream_id request payload_hash
            end
        end
    end.

Definition protocol_error (e : ProtocolError) : Error := error_msg (lit "protocol error").

Definition handle_command_frame (frame : Frame) : Act World unit :=
  payload ← of_result (map_err protocol_error (decoded_payload decompress frame));
  decoded ← of_result (decode_job_request_payload payload);
  match decoded with
  | Unsupported u => refuse_shape (stream_id frame) u
  | Supported request => handle_request (stream_id frame) request
  end.

Definition handle_command_cancel_frame (request : JobCancelRequest) : Act World unit :=
  let job_id := cancel_job_id request in
  let reason := default (lit "canceled") (cancel_reason request) in
  w ← act_get;
  match w_active w !! job_id with
  | Some a =>
      on_active (alter (fun a => with_token (cancel reason (active_cancel_token a)) a) job_id);;
      send_counted CommandCancelAck 1
        (CancelAckPayload
          (if flushed a then mkCancelAck job_id true true reason
           else mkCancelAck job_id true false (reason ++ lit "; cancel requested, command worker still finalizing")))
  | None => send_counted CommandCancelAck 1 (CancelAckPayload (mkCancelAck job_id true false (lit "command_not_active")))
  end.

(** * Reports of tasks *)

Definition queue_active_command_output (output : CommandOutput) : Act World unit :=
  w ← act_get;
  match w_active w !! co_job_id output with
  | None => mret tt
  | Some _ =>
      on_active (alter (enqueue_active_command_output output) (co_job_id output));;
      flush_pending_command_outputs (co_job_id output);;
      remove_finished_flushed_commands
  end.

Record CommandExecutionResult := mkResult {
  res_job_id : Z;
  res_operation_type : string;
  res_max_timeout_secs : Z;
  res_result : result Error (list CommandOutput);
  res_config_update : option AgentConfig;
  res_runtime_config_update : option AgentRuntimeConfig;
  res_fully_applied : bool;
  res_scope : RuntimeConfigReconcileScope;
}.

(** The outputs of the end of a command join its queue. *)
Definition finish_active (result : CommandExecutionResult) (a : ActiveCommand) : ActiveCommand :=
  with_finished
    (foldl (fun a output => enqueue_active_command_output output a) a
       (command_result_outputs (res_job_id result) (res_operation_type result) (res_max_timeout_secs result) (res_result result))).

Definition finish_active_command (result : CommandExecutionResult) : Act World unit :=
  let job_id := res_job_id result in
  w ← act_get;
  match w_active w !! job_id with
  | None => mret tt
  | Some active =>
      let a := finish_active result active in
      on_active <[ job_id := a ]>;;
      remember_completed_replay_outputs job_id (active_payload_hash a) (replay_outputs a) (terminal_output a)
        (replay_truncated a || (MAX_REPLAY_BYTES <? sequenced_command_outputs_bytes (replay_outputs a)));;
      flush_pending_command_outputs job_id;;
      remove_finished_flushed_commands
  end.

(** ** Applying a configuration *)

Definition removal_ok (removal : Value) : bool :=
  match report_status removal with Some s => one_of s ["removed"; "observed_only"] | None => false end.
Definition report_failed (report : Value) : bool := bool_decide (report_status report = Some (lit "failed")).

Record RuntimeConfigSyncResult := mkSyncResult {
  sync_outputs : list CommandOutput;
  sync_applied_config : option AgentConfig;
  sync_accepted_runtime_config : option AgentRuntimeConfig;
  sync_fully_applied : bool;
}.

(** The desired document is accepted whatever became of the steps. *)
Definition apply_runtime_config_sync_owned (job_id : Z) (config : AgentConfig) (runtime_config : AgentRuntimeConfig)
    (desired_version : Z) (reason : str) (inputs : SyncInputs) : result Error RuntimeConfigSyncResult :=
  candidate ← runtime_config_candidate config runtime_config desired_version;
  match snd (sync_steps config candidate reason inputs) with
  | StepsInterrupted error => Err error
  | StepsDone removals reconcile port_forwarding =>
      let failed := existsb (fun removal => negb (removal_ok removal)) removals || report_failed reconcile
                    || report_failed port_forwarding in
      let hook_failures := hook_failures_of reconcile + foldr (fun report n => hook_failures_of report + n) 0 removals in
      let body := json_object
        [("type", Str (lit "runtime_config_sync")); ("status", Str (lit (if failed then "failed" else "applied")));
         ("job_id", Str (uuid_text job_id)); ("desired_version", json_int desired_version); ("reason", Str reason);
         ("client_id", Str (client_id candidate)); ("removed_tunnel_count", json_int (vec_len removals));
         ("removals", Array removals); ("reconcile", reconcile); ("port_forwarding", port_forwarding);
         ("accepted_scope", Str (lit "full")); ("hook_failures", json_int hook_failures);
         ("bootstrap_config_persisted", Bool false)]%string in
      Ok (mkSyncResult [status_output job_id (json_bytes body) (if negb failed && (hook_failures =? 0) then 0 else 1)]
            (Some candidate) (Some runtime_config) (negb failed))
  end.

(** What the task sees: the steps returned, the command was canceled
    meanwhile ([run_cancelable]), or the time ran out. *)
Inductive SyncOutcome :=
| SyncReturned (inputs : SyncInputs)
| SyncCanceled (reason : str)
| SyncTimedOut (text : str).

(** How a task ends.  [adoption] is the error, if any, of handing the desired
    state to the port-forwarding consumer after an incomplete synchronisation. *)
Inductive TaskOutcome :=
| TaskPanicked (text : str)
| SyncEnded (outcome : SyncOutcome) (adoption : option Error)
| CommandEnded (result : result Error (list CommandOutput)).

Definition adoption_error (result : result Error (list CommandOutput)) (error : Error) : Error :=
  error_msg
    match result with
    | Err execution_error =>
        error_alternate execution_error ++ lit "; forwarding desired-state adoption failed: " ++ error_alternate error
    | Ok _ => lit "forwarding desired-state adoption failed: " ++ error_alternate error
    end.

(** The body of the task of a synchronisation. *)
Definition sync_task_result (job_id : Z) (task : Task) (config : AgentConfig) (runtime_config : AgentRuntimeConfig)
    (desired_version : Z) (reason : str) (outcome : SyncOutcome) (adoption : option Error) : CommandExecutionResult :=
  let accepted_on_failure := match runtime_config_candidate config runtime_config desired_version with
                             | Ok candidate => Some candidate
                             | Err _ => None
                             end in
  let on_failure (error : Error) :=
    (Err error, accepted_on_failure, option_map (fun _ => runtime_config) accepted_on_failure, false) in
  let '(result, config_update, runtime_config_update, fully_applied) :=
    match outcome with
    | SyncReturned inputs =>
        match apply_runtime_config_sync_owned job_id config runtime_config desired_version reason inputs with
        | Ok sync => (Ok (sync_outputs sync), sync_applied_config sync, sync_accepted_runtime_config sync, sync_fully_applied sync)
        | Err error => on_failure error
        end
    | SyncCanceled reason => on_failure (command_canceled (task_operation_type task) reason)
    | SyncTimedOut text => on_failure (error_msg (lit "runtime config sync timed out: " ++ text))
    end in
  let result := match config_update, adoption with
                | Some _, Some error => if fully_applied then result else Err (adoption_error result error)
                | _, _ => result
                end in
  mkResult job_id (task_operation_type task) (task_max_timeout_secs task) result config_update runtime_config_update
    fully_applied (runtime_config_reconcile_scope_from_reason reason).

(** The result of a task; [supervise_command_task] reports one that panicked.
    [None]: a task of this kind does not end like this. *)
Definition task_result (job_id : Z) (task : Task) (outcome : TaskOutcome) : option CommandExecutionResult :=
  let plain result := mkResult job_id (task_operation_type task) (task_max_timeout_secs task) result None None false scope_default in
  match outcome, task_work task with
  | TaskPanicked text, _ => Some (plain (Err (error_msg (lit "command consumer failed: " ++ text))))
  | SyncEnded outcome adoption, SyncWork config runtime_config desired_version reason =>
      Some (sync_task_result job_id task config runtime_config desired_version reason outcome adoption)
  | CommandEnded result, CommandWork _ => Some (plain result)
  | _, _ => None
  end.

(** The version of a configuration counts as accepted once it is stored. *)
Definition accept_runtime_config (result : CommandExecutionResult) : Act World (CommandExecutionResult * bool) :=
  match res_runtime_config_update result with
  | None => mret (result, false)
  | Some runtime_config =>
      w ← act_get;
      stored ← match runtime_config_cache (w_runtime w) with
               | Some cache => try_act (on_cache (cache_store cache runtime_config))
               | None => mret (Ok tt)
               end;
      match stored with
      | Ok _ =>
          on_runtime (with_accepted (Some (rcfg_version runtime_config)));;
          mret (result, true)
      | Err error =>
          mret (mkResult (res_job_id result) (res_operation_type result) (res_max_timeout_secs result)
                  (Err (with_context (lit "failed to persist last accepted runtime config") error)) None None
                  (res_fully_applied result) (res_scope result), false)
      end
  end.

Definition settle_reconcile (result : CommandExecutionResult) (r : AgentCommandRuntime) : AgentCommandRuntime :=
  if authoritative (res_scope result) then with_reconcile false ∅ r
  else with_reconcile (requires_authoritative_runtime_config_sync r)
         (pending_reconcile_resources r ∖ resources (res_scope result)) r.

Definition handle_finished (result : CommandExecutionResult) : Act World unit :=
  accepted ← accept_runtime_config result;
  let '(result, persisted) := accepted in
  (if res_fully_applied result && persisted then on_runtime (settle_reconcile result) else mret tt);;
  match res_config_update result with
  | Some next_config => act_modify (set_config next_config)
  | None => mret tt
  end;;
  finish_active_command result.

(** * Sessions *)

Definition resume_command (job_id : Z) : Act World unit :=
  w ← act_get;
  match w_active w !! job_id with
  | None => mret tt
  | Some a =>
      let next := match pending_outputs a with pending :: _ => sq_seq pending | [] => next_output_seq a end in
      send_counted Frame.CommandResume (active_stream_id a)
        (ResumePayload (mkResume job_id (active_command_version a) (active_payload_hash a) next))
  end.

Definition resume_active_commands : Act World unit :=
  w ← act_get;
  act_each resume_command (active_keys w);;
  flush_all_pending_command_outputs.

(** In the order of the enumeration, as [BTreeSet] iterates. *)
Definition resource_list (s : Resources) : list RuntimeConfigReconcileResource :=
  List.filter (fun r => bool_decide (r ∈ s)) [RuntimeTunnels; PortForwardingResource].

Definition request_runtime_config_reload (required : bool) (pending : Resources) : Act World unit :=
  w ← act_get;
  match content_hash (from_agent_config 0 (w_config w)) with
  | None => act_fail (error_msg (lit "failed to hash current runtime config"))
  | Some current_content_hash =>
      send_counted ConfigUpdate 0
        (ReloadPayload (mkReload (client_id (w_config w)) current_content_hash
                          (lit "agent_reconnect_runtime_config_check") required (resource_list pending)))
  end.

(** What the inspections at the start of a session find. *)
Record Inspections := mkInspections {
  insp_forwarding : result Error PortForwardRuntimeSnapshot;
  insp_tunnels : list Inspection;
  insp_timed_out : bool;
}.

(** The start of a session past the handshake, up to its loop; [finals] are the
    terminal events to send. *)
Definition start_session (i : Inspections) (finals : list (list Z)) : Act World unit :=
  w ← act_get;
  snapshot ← of_result (insp_forwarding i);
  let resources :=
    pending_reconcile_resources (w_runtime w)
    ∪ (if port_forwarding_snapshot_requires_reconnect_sync snapshot then {[ PortForwardingResource ]} else ∅)
    ∪ (if configured_runtime_tunnels_require_reconnect_sync (w_config w) (insp_tunnels i) (insp_timed_out i)
       then {[ RuntimeTunnels ]} else ∅) in
  act_modify (set_seq 2);;
  request_runtime_config_reload (requires_authoritative_runtime_config_sync (w_runtime w)) resources;;
  act_each (fun final => send_counted TerminalStreamOutput 0 (OtherPayload final)) finals;;
  resume_active_commands.

(** * Starting the process *)

Definition startup_requires_authoritative_runtime_config_sync (loaded : option Z) : bool :=
  negb (bool_decide (is_Some loaded)).

(** The cached configuration, when it is readable and valid. *)
Definition load_accepted (config : AgentConfig) (loaded : result Error (option AgentRuntimeConfig)) : AgentConfig * option Z :=
  match loaded with
  | Ok (Some runtime_config) =>
      let candidate := apply_to_agent_config runtime_config config in
      match shape_ok candidate with
      | Ok _ => (candidate, Some (rcfg_version runtime_config))
      | Err _ => (config, None)
      end
  | _ => (config, None)
  end.

(** [open_at] of the cache; the directory is there. *)
Definition cache_open_at (root : str) : Act Disk RuntimeConfigCache :=
  if_fault (act_fail (mkError None [lit "failed to create runtime config cache " ++ root; os_error])) (mret (mkCache root)).

(** [run_agent] and [run_agent_with_ledger] up to the first connection; [failed]
    are the resources whose reconciliation at the start failed. *)
Definition start_agent (config : AgentConfig) (failed : Resources) : Act World unit :=
  ledger ← on_ledger (open_at (lit "command-ledger"));
  cache ← on_cache (cache_open_at (lit "runtime-config"));
  loaded ← try_act (on_cache (cache_load cache));
  let '(config, version) := load_accepted config loaded in
  let runtime := with_persistence ledger cache version in
  let pending := match version with Some _ => failed | None => ∅ end in
  act_modify (fun w =>
    set_session true false
      (set_config config
         (set_runtime (with_reconcile (startup_requires_authoritative_runtime_config_sync version) pending runtime) w))).

(** * Runs *)

Inductive AgentEvent :=
| CommandFrame (frame : Frame)
| CancelFrame (request : JobCancelRequest)
| TaskOutput (output : CommandOutput)
| TaskFinished (job_id : Z) (outcome : TaskOutcome)
| SendFrame (kind : MessageKind) (stream : Z) (bytes : list Z)
| Connect (inspections : Inspections) (finals : list (list Z))
| Disconnect
| CleanupTurn
| Pass (secs : Z)
| Restart (config : AgentConfig) (failed : Resources).

(** A handler that fails ends the session. *)
Definition in_session (m : Act World unit) (w : World) : World :=
  if w_session w then
    match m w with
    | (Ok _, w') => w'
    | (Err _, w') => set_session (w_up w') false w'
    end
  else w.

Definition pass_time (secs : Z) (d : Disk) : Disk :=
  mkDisk (files d) (disk_now d + Z.max 0 secs) (disk_faults d) (disk_ids d) (cleanup_ready d).

(** The process ends with its tasks; the new one starts from the disks. *)
Definition end_process (w : World) : World :=
  set_session false false (set_runtime runtime_default (set_tasks ∅ (w_spawned w) w)).

(** One turn of the event loop.  Reports are received while a command is active,
    from tasks that run. *)
Definition agent_step (w : World) (event : AgentEvent) : World :=
  match event with
  | CommandFrame frame => in_session (handle_command_frame frame) w
  | CancelFrame request => in_session (handle_command_cancel_frame request) w
  | TaskOutput output =>
      if bool_decide (is_Some (w_tasks w !! co_job_id output)) && negb (bool_decide (w_active w = ∅))
      then in_session (queue_active_command_output output) w else w
  | TaskFinished job_id outcome =>
      match task ← w_tasks w !! job_id; task_result job_id task outcome with
      | Some result =>
          if w_session w && negb (bool_decide (w_active w = ∅))
          then in_session (handle_finished result) (set_tasks (delete job_id (w_tasks w)) (w_spawned w) w)
          else w
      | None => w
      end
  | SendFrame kind stream bytes => in_session (send_counted kind stream (OtherPayload bytes)) w
  | Connect inspections finals =>
      if w_up w && negb (w_session w) then in_session (start_session inspections finals) (set_session true true w) else w
  | Disconnect => set_session (w_up w) false w
  | CleanupTurn =>
      match command_ledger (w_runtime w) with
      | Some ledger =>
          match on_ledger (cleanup_turn ledger) w with
          | (Ok _, w') => w'
          | (Err _, w') => end_process w'
          end
      | None => w
      end
  | Pass secs => set_disks (pass_time secs (w_ledger w)) (w_cache w) w
  | Restart config failed => snd (start_agent config failed (end_process w))
  end.

Definition agent_run (w : World) (events : list AgentEvent) : World := foldl agent_step w events.
End Handlers.
