(* ===== verification/AgentRunProofs.v ===== *)
(** The runs of the agent's command runtime.

    Every turn of the event loop is a sequence of a few kinds of changes of the
    state ([change], [spawn]); invariants are proved once per kind and hold of
    every run. *)

From stdpp Require Import gmap.
From S2P Require Import Prelude RustStd Json Frame PortForwarding TunnelModels ConfigModels ConfigValidation JobCommands JobCommandProofs CommandLedger CommandLedgerProofs AgentCommands AgentTunnelSync AgentHandlers AgentCommandProofs.

Open Scope Z_scope.

#[local] Arguments lit : simpl never.

(** * Changes *)

Definition set_active (m : gmap Z ActiveCommand) (w : World) : World := set_runtime (with_active m (w_runtime w)) w.

(** Frames were sent and files read; nothing else. *)
Definition idle (w w' : World) : Prop :=
  exists n s f d, files d = files (w_ledger w) /\
    w' = set_disks d (w_cache w) (set_sent s f (set_seq n w)).

(** Queues lost outputs at their front. *)
Definition drained (m m' : gmap Z ActiveCommand) : Prop :=
  forall job, match m !! job, m' !! job with
              | Some a, Some a' => exists sent rest, pending_outputs a = sent ++ rest /\ a' = with_pending rest a
              | None, None => True
              | _, _ => False
              end.

(** Ended commands whose outputs were sent were dropped. *)
Definition dropped (m m' : gmap Z ActiveCommand) : Prop :=
  forall job, m' !! job = m !! job \/ (m' !! job = None /\ exists a, m !! job = Some a /\ flushed a = true).

Section Changes.
Context `{AgentPlatform}.

(** What an ended task makes of the configuration, of the accepted version and of
    the configuration on disk. *)
Inductive settled (w : World) (task : Task) : AgentConfig -> option Z -> Disk -> Prop :=
| SettledUnchanged cache : cached_text (files cache) = cached_text (files (w_cache w)) ->
    settled w task (w_config w) (accepted_runtime_config_version (w_runtime w)) cache
| SettledSync config runtime_config version reason cache :
    task_work task = SyncWork config runtime_config version reason ->
    rcfg_version runtime_config = version ->
    (is_Some (runtime_config_cache (w_runtime w)) -> cached_text (files cache) = Some (config_text runtime_config)) ->
    settled w task (apply_to_agent_config runtime_config config) (Some version) cache.

Inductive change : World -> World -> Prop :=
| ChangeIdle w w' : idle w w' -> change w w'
| ChangeDrain w m' : drained (w_active w) m' -> change w (set_active m' w)
| ChangeDrop w m' : dropped (w_active w) m' -> change w (set_active m' w)
| ChangeStream w job stream : change w (set_active (alter (with_stream stream) job (w_active w)) w)
| ChangeToken w job token : change w (set_active (alter (with_token token) job (w_active w)) w)
| ChangeEnqueue w output :
    is_Some (w_tasks w !! co_job_id output) ->
    change w (set_active (alter (enqueue_active_command_output output) (co_job_id output) (w_active w)) w)
| ChangeRemember w job hash outputs terminal truncated :
    change w (set_runtime (with_recent (remember job hash outputs terminal truncated (recent_commands (w_runtime w))) (w_runtime w)) w)
| ChangeRecord w ledger job hash terminal truncated r d :
    ledger_record ledger job hash terminal truncated (w_ledger w) = (r, d) ->
    change w (set_disks d (w_cache w) w)
| ChangeSession w open : (open = true -> w_up w = true) -> change w (set_session (w_up w) open w).

(** A command ends: its task is gone and its last outputs are queued. *)
Inductive finish : Z -> World -> World -> Prop :=
| Finish w task result a config accepted required pending cache :
    w_tasks w !! res_job_id result = Some task -> w_active w !! res_job_id result = Some a ->
    settled w task config accepted cache -> w_up w = true ->
    finish (res_job_id result) w
      (mkWorld config
         (mkRuntime (<[ res_job_id result := finish_active result a ]> (w_active w)) (recent_commands (w_runtime w))
            (command_ledger (w_runtime w)) (runtime_config_cache (w_runtime w)) accepted required pending)
         (w_ledger w) cache (delete (res_job_id result) (w_tasks w)) (w_spawned w) (w_up w) (w_session w) (w_seq w)
         (w_sent w) (w_send_faults w)).

(** A task is spawned for a job that is neither active nor in the ledger. *)
Inductive spawn : World -> World -> Prop :=
| Spawn w stream request hash timeout :
    w_active w !! req_job_id request = None ->
    entry_of (files (w_ledger w)) (req_job_id request) = Some None ->
    sync_rejection (accepted_runtime_config_version (w_runtime w)) (w_config w) (req_command request) = None ->
    exclusive_conflict (job_command_safety (req_command request)) (w_active w) = false ->
    spawn w
      (set_active (<[ req_job_id request := new_active stream request hash ]> (w_active w))
         (set_tasks (<[ req_job_id request := task_for (w_config w) request timeout ]> (w_tasks w))
            (w_spawned w ++ [req_job_id request]) w)).

End Changes.

Abbreviation evolves := (rtc change).

(** * Kinds of actions *)

Lemma idle_refl w : idle w w.
Proof. exists (w_seq w), (w_sent w), (w_send_faults w), (w_ledger w). by destruct w. Qed.

Lemma idle_trans w1 w2 w3 : idle w1 w2 -> idle w2 w3 -> idle w1 w3.
Proof.
  intros (n & s & f & d & Hd & ->) (n' & s' & f' & d' & Hd' & ->). exists n', s', f', d'. split; [|done].
  by rewrite Hd'.
Qed.

Lemma drained_refl m : drained m m.
Proof. intros job. destruct (m !! job) as [a|]; [|done]. exists [], (pending_outputs a). split; [done|by destruct a]. Qed.

Lemma drained_trans m1 m2 m3 : drained m1 m2 -> drained m2 m3 -> drained m1 m3.
Proof.
  intros H1 H2 job. specialize (H1 job). specialize (H2 job).
  destruct (m1 !! job) as [a|], (m2 !! job) as [b|], (m3 !! job) as [c|]; try done.
  destruct H1 as (s1 & r1 & E1 & ->), H2 as (s2 & r2 & E2 & ->). cbn in E2.
  exists (s1 ++ s2), r2. split; [by rewrite E1, E2, app_assoc|done].
Qed.

Lemma set_active_active m w : w_active (set_active m w) = m.
Proof. done. Qed.

Lemma set_active_id w : set_active (w_active w) w = w.
Proof. by destruct w as [? [] ? ? ? ? ? ? ? ? ?]. Qed.

(** Actions that only send, and actions that send from queues. *)
Definition sends {A} (m : Act World A) : Prop := forall w, idle w (snd (m w)).
Definition drains {A} (m : Act World A) : Prop :=
  forall w, exists m', drained (w_active w) m' /\ idle (set_active m' w) (snd (m w)).

Lemma sends_ret {A} (a : A) : sends (mret a).
Proof. intros w. apply idle_refl. Qed.

Lemma sends_bind {A B} (m : Act World A) (k : A -> Act World B) : sends m -> (forall a, sends (k a)) -> sends (m ≫= k).
Proof.
  intros Hm Hk w. rewrite act_bind_eq. specialize (Hm w). destruct (m w) as [[a|e] w']; [|done].
  eapply idle_trans; [exact Hm|apply Hk].
Qed.

Lemma sends_get {A} (k : World -> Act World A) : (forall w, sends (k w)) -> sends (act_get ≫= k).
Proof. intros Hk w. rewrite act_bind_eq. cbn. apply Hk. Qed.

Lemma sends_each {A} (f : A -> Act World unit) l : (forall a, sends (f a)) -> sends (act_each f l).
Proof. intros Hf. induction l as [|a l IH]; cbn; [apply sends_ret|]. by apply sends_bind. Qed.

Lemma sends_counted kind stream payload : sends (send_counted kind stream payload).
Proof.
  intros w. unfold send_counted. rewrite act_bind_eq. unfold send_json_frame.
  destruct (hd false (w_send_faults w)).
  - exists (w_seq w), (w_sent w), (tl (w_send_faults w)), (w_ledger w). by destruct w.
  - exists (w_seq w + 1), (w_sent w ++ [mkSent kind stream (w_seq w) payload]), (tl (w_send_faults w)), (w_ledger w).
    by destruct w.
Qed.

Create HintDb agent_sends.
#[export] Hint Resolve sends_ret sends_bind sends_each sends_counted : agent_sends.

Lemma drains_bind {A B} (m : Act World A) (k : A -> Act World B) : drains m -> (forall a, drains (k a)) -> drains (m ≫= k).
Proof.
  intros Hm Hk w. rewrite act_bind_eq. destruct (Hm w) as (m1 & Hd1 & Hi1).
  destruct (m w) as [[a|e] w1]; cbn [snd] in *; [|by exists m1].
  destruct (Hk a w1) as (m2 & Hd2 & Hi2). destruct Hi1 as (n & s & f & d & Hd & ->). exists m2. split.
  - by eapply drained_trans.
  - eapply idle_trans; [|exact Hi2]. exists n, s, f, d. done.
Qed.

Lemma drains_sends {A} (m : Act World A) : sends m -> drains m.
Proof. intros Hm w. exists (w_active w). split; [apply drained_refl|]. rewrite set_active_id. apply Hm. Qed.

Lemma flush_outputs_drains job stream pending w a : w_active w !! job = Some a -> pending_outputs a = pending ->
  exists m', drained (w_active w) m' /\ idle (set_active m' w) (snd (flush_outputs job stream pending w)).
Proof.
  revert w a. induction pending as [|output rest IH]; intros w a Ha Hp; cbn [flush_outputs].
  { exists (w_active w). rewrite set_active_id. split; [apply drained_refl|apply idle_refl]. }
  rewrite act_bind_eq. pose proof (sends_counted Frame.CommandOutput stream (OutputPayload output) w) as Hs.
  destruct (send_counted _ _ _ w) as [[[]|e] w1]; cbn [snd] in Hs.
  2: { exists (w_active w). rewrite set_active_id. split; [apply drained_refl|done]. }
  destruct Hs as (n & s & f & d & Hd & ->). rewrite act_bind_eq. unfold on_active, on_runtime, act_modify.
  set (w1 := set_disks d (w_cache w) (set_sent s f (set_seq n w))).
  set (m1 := alter (with_pending rest) job (w_active w)).
  destruct (IH (set_active m1 w1) (with_pending rest a)) as (m2 & Hd2 & Hi2).
  { cbn. unfold m1. by rewrite lookup_alter_eq, Ha. }
  { done. }
  exists m2. split.
  - eapply drained_trans; [|exact Hd2]. cbn. intros k. unfold m1. destruct (decide (job = k)) as [<-|Hne].
    + rewrite lookup_alter_eq, Ha. cbn. exists [output], rest. by rewrite Hp.
    + rewrite lookup_alter_ne by done. apply (drained_refl (w_active w) k).
  - eapply idle_trans; [|exact Hi2]. exists n, s, f, d. done.
Qed.

Lemma flush_drains job : drains (flush_pending_command_outputs job).
Proof.
  intros w. unfold flush_pending_command_outputs. rewrite act_bind_eq. cbn [act_get].
  destruct (w_active w !! job) as [a|] eqn:Ha.
  - by eapply flush_outputs_drains.
  - apply (drains_sends (mret tt) (sends_ret tt) w).
Qed.

Lemma drains_each {A} (f : A -> Act World unit) l : (forall a, drains (f a)) -> drains (act_each f l).
Proof. intros Hf. induction l as [|a l IH]; cbn; [apply drains_sends, sends_ret|]. by apply drains_bind. Qed.

Section Runs.
Context `{AgentPlatformLaws}.

(** Actions that are sequences of changes. *)
Definition acts {A} (m : Act World A) : Prop := forall w, evolves w (snd (m w)).

Lemma acts_bind {A B} (m : Act World A) (k : A -> Act World B) : acts m -> (forall a, acts (k a)) -> acts (m ≫= k).
Proof.
  intros Hm Hk w. rewrite act_bind_eq. specialize (Hm w). destruct (m w) as [[a|e] w']; [|done].
  etrans; [exact Hm|apply Hk].
Qed.

Lemma acts_get {A} (k : World -> Act World A) : (forall w, evolves w (snd (k w w))) -> acts (act_get ≫= k).
Proof. intros Hk w. rewrite act_bind_eq. apply Hk. Qed.

Lemma acts_sends {A} (m : Act World A) : sends m -> acts m.
Proof. intros Hm w. apply rtc_once, ChangeIdle, Hm. Qed.

Lemma acts_drains {A} (m : Act World A) : drains m -> acts m.
Proof.
  intros Hm w. destruct (Hm w) as (m' & Hd & Hi). eapply rtc_l; [by apply (ChangeDrain w m')|].
  by apply rtc_once, ChangeIdle.
Qed.

Lemma remove_acts : acts remove_finished_flushed_commands.
Proof.
  intros w. apply rtc_once. unfold remove_finished_flushed_commands, on_active, on_runtime, act_modify.
  apply (ChangeDrop w (filter (fun '(_, a) => flushed a = false) (w_active w))). intros job.
  destruct (w_active w !! job) as [a|] eqn:Ha.
  - destruct (flushed a) eqn:Hf.
    + right. split; [|by exists a]. apply map_lookup_filter_None. right. intros a' Ha'. rewrite Ha in Ha'. injection Ha' as <-. by rewrite Hf.
    + left. by apply map_lookup_filter_Some.
  - left. apply map_lookup_filter_None. by left.
Qed.

Lemma flush_all_acts : acts flush_all_pending_command_outputs.
Proof.
  unfold flush_all_pending_command_outputs. apply acts_get. intros w.
  apply (acts_bind (act_each _ (active_keys w))); [|intros []; apply remove_acts].
  apply acts_drains, drains_each. intros job. apply flush_drains.
Qed.

Lemma remember_acts job hash outputs terminal truncated :
  acts (remember_completed_replay_outputs job hash outputs terminal truncated).
Proof.
  unfold remember_completed_replay_outputs. apply acts_bind.
  { intros w. apply rtc_once, (ChangeRemember w job hash outputs terminal truncated). }
  intros []. apply acts_get. intros w. destruct (command_ledger (w_runtime w)) as [ledger|]; [|apply rtc_refl].
  unfold on_ledger. destruct (ledger_record _ _ _ _ _ _) as [r d] eqn:E. apply rtc_once. by eapply ChangeRecord.
Qed.

Lemma ack_sends stream job accepted message : sends (send_ack stream job accepted message).
Proof. apply sends_counted. Qed.

Lemma outputs_sends stream outputs : sends (send_sequenced_command_outputs stream outputs).
Proof. apply sends_each. intros o. apply sends_counted. Qed.

Lemma unsupported_sends stream job output : sends (send_unsupported_command_version stream job output).
Proof. apply sends_bind; [apply ack_sends|]. intros []. apply sends_counted. Qed.

Lemma terminal_sends stream job terminal : sends (send_terminal_or_unknown stream job terminal).
Proof. destruct terminal; apply sends_counted. Qed.

Lemma replay_recent_sends stream job hash completed : sends (replay_recent stream job hash completed).
Proof.
  unfold replay_recent. destruct (str_eqb _ _); [|apply ack_sends]. apply sends_bind; [apply ack_sends|]. intros [].
  destruct (re_truncated completed); [apply terminal_sends|apply outputs_sends].
Qed.

Lemma replay_ledger_sends stream job hash completed : sends (replay_ledger stream job hash completed).
Proof.
  unfold replay_ledger. destruct (str_eqb _ _); [|apply ack_sends]. apply sends_bind; [apply ack_sends|]. intros [].
  apply terminal_sends.
Qed.

Lemma answer_active_acts stream job hash a : acts (answer_active stream job hash a).
Proof.
  unfold answer_active. destruct (str_eqb _ _); [|apply acts_sends, ack_sends].
  apply acts_bind; [intros w; apply rtc_once, (ChangeStream w job stream)|]. intros [].
  apply acts_bind; [apply acts_sends, ack_sends|]. intros [].
  apply acts_bind; [apply acts_drains, flush_drains|]. intros [] w. apply rtc_once.
  apply (ChangeDrop w). intros k. fold (w_active w). destruct (w_active w !! job) as [b|] eqn:Hb; [|by left].
  destruct (flushed b) eqn:Hf; [|by left]. destruct (decide (job = k)) as [<-|Hne].
  - right. rewrite lookup_delete_eq. split; [done|by exists b].
  - left. by rewrite lookup_delete_ne.
Qed.

Lemma remember_command_acts job hash outputs : acts (remember_completed_command_outputs job hash outputs).
Proof. unfold remember_completed_command_outputs. cbv zeta. apply remember_acts. Qed.

Lemma refuse_version_acts stream request hash : acts (refuse_version stream request hash).
Proof. unfold refuse_version. cbv zeta. apply acts_bind; [apply remember_command_acts|]. intros []. apply acts_sends, unsupported_sends. Qed.

Lemma refuse_shape_acts stream u : acts (refuse_shape stream u).
Proof. unfold refuse_shape. cbv zeta. apply acts_bind; [apply remember_command_acts|]. intros []. apply acts_sends, unsupported_sends. Qed.

(** Either a sequence of changes, or a task spawned right after frames were sent. *)
Definition evolves_or_spawns (w : World) (o : result Error unit * World) : Prop :=
  evolves w (snd o) \/ (fst o = Ok tt /\ exists w1, idle w w1 /\ spawn w1 (snd o)).

Lemma evolves_or_spawns_idle w w1 o : idle w w1 -> evolves_or_spawns w1 o -> evolves_or_spawns w o.
Proof.
  intros Hi [He|(Hr & w2 & Hi2 & Hs)]; [left|right].
  - eapply rtc_l; [by apply ChangeIdle|done].
  - split; [done|]. exists w2. split; [by eapply idle_trans|done].
Qed.

Lemma start_command_evolves stream request hash w :
  w_active w !! req_job_id request = None ->
  entry_of (files (w_ledger w)) (req_job_id request) = Some None ->
  sync_rejection (accepted_runtime_config_version (w_runtime w)) (w_config w) (req_command request) = None ->
  exclusive_conflict (job_command_safety (req_command request)) (w_active w) = false ->
  evolves_or_spawns w (start_command stream request hash w).
Proof.
  intros Ha He Hs Hx. unfold start_command. rewrite act_bind_eq.
  pose proof (ack_sends stream (req_job_id request) true "accepted" w) as Hi.
  destruct (send_ack _ _ _ _ w) as [[[]|e] w1]; cbn [snd] in Hi; [|left; by apply rtc_once, ChangeIdle].
  apply (evolves_or_spawns_idle w w1 _ Hi). destruct Hi as (n & s & f & d & Hd & ->). rewrite act_bind_eq. cbn [act_get].
  set (w1 := set_disks _ _ _).
  assert (Hspawn : forall timeout, evolves_or_spawns w1
    ((act_modify (fun w => set_tasks (<[ req_job_id request := task_for (w_config w) request timeout ]> (w_tasks w))
        (w_spawned w ++ [req_job_id request]) w);;
      on_active <[ req_job_id request := new_active stream request hash ]>) w1)).
  { intros timeout. right. split; [done|]. exists w1. split; [apply idle_refl|].
    apply (Spawn w1 stream request hash timeout); [done|cbn; by rewrite Hd|done|done]. }
  destruct (req_command request); try apply Hspawn.
  left. apply (acts_bind (remember_completed_command_outputs _ _ _)); [apply remember_command_acts|].
  intros []. apply acts_sends, outputs_sends.
Qed.

Lemma admit_evolves stream request hash w :
  w_active w !! req_job_id request = None -> entry_of (files (w_ledger w)) (req_job_id request) = Some None ->
  evolves_or_spawns w (admit_command stream request hash w).
Proof.
  intros Ha He. unfold admit_command. rewrite act_bind_eq. cbn [act_get].
  destruct (sync_rejection _ _ _) as [message|] eqn:Hs; [left; apply acts_sends, ack_sends|].
  destruct (exclusive_conflict _ _) eqn:Hx; [left; apply acts_sends, ack_sends|]. by apply start_command_evolves.
Qed.

Lemma lookup_idle job w : idle w (snd (lookup_ledger job w)).
Proof.
  unfold lookup_ledger. rewrite act_bind_eq. cbn [act_get]. destruct (command_ledger _) as [ledger|]; [|apply idle_refl].
  unfold on_ledger. pose proof (lookup_files ledger job (w_ledger w)) as Hf. destruct (ledger_lookup _ _ _) as [r d].
  exists (w_seq w), (w_sent w), (w_send_faults w), d. split; [done|]. by destruct w.
Qed.

Lemma lookup_none job w : is_Some (command_ledger (w_runtime w)) -> fst (lookup_ledger job w) = Ok None ->
  entry_of (files (w_ledger w)) job = Some None.
Proof.
  intros [ledger Hl]. unfold lookup_ledger. rewrite act_bind_eq. cbn [act_get]. rewrite Hl. unfold on_ledger.
  pose proof (lookup_entry_of ledger job (w_ledger w) None) as He. destruct (ledger_lookup _ _ _) as [r d]. exact He.
Qed.

Lemma idle_same w w' : idle w w' ->
  w_active w' = w_active w /\ files (w_ledger w') = files (w_ledger w) /\ w_spawned w' = w_spawned w /\ w_runtime w' = w_runtime w.
Proof. intros (n & s & f & d & Hd & ->). done. Qed.

Lemma handle_request_evolves stream request w : is_Some (command_ledger (w_runtime w)) ->
  evolves_or_spawns w (handle_request stream request w).
Proof.
  intros Hl. unfold handle_request.
  destruct (command_supports_requested_protocol _ _); cbn [negb]; [|left; apply refuse_version_acts].
  rewrite act_bind_eq. cbn [act_get].
  destruct (w_active w !! req_job_id request) as [a|] eqn:Ha; [left; apply answer_active_acts|].
  destruct (entries _ !! _) as [completed|]; [left; apply acts_sends, replay_recent_sends|].
  rewrite act_bind_eq. pose proof (lookup_idle (req_job_id request) w) as Hi.
  pose proof (lookup_none (req_job_id request) w Hl) as He.
  destruct (lookup_ledger _ w) as [[[completed|]|e] w1]; cbn [fst snd] in *.
  - apply (evolves_or_spawns_idle w w1 _ Hi). left. apply acts_sends, replay_ledger_sends.
  - apply (evolves_or_spawns_idle w w1 _ Hi). destruct (idle_same w w1 Hi) as (E1 & E2 & _ & _).
    apply admit_evolves; [by rewrite E1|]. rewrite E2. by apply He.
  - left. by apply rtc_once, ChangeIdle.
Qed.

Lemma handle_command_frame_evolves frame w : is_Some (command_ledger (w_runtime w)) ->
  evolves_or_spawns w (handle_command_frame frame w).
Proof.
  intros Hl. unfold handle_command_frame. rewrite act_bind_eq. unfold of_result.
  destruct (map_err _ _) as [payload|e]; [|left; apply rtc_refl]. rewrite act_bind_eq.
  destruct (decode_job_request_payload payload) as [[request|u]|e]; [| |left; apply rtc_refl].
  - by apply handle_request_evolves.
  - left. apply refuse_shape_acts.
Qed.

Lemma cancel_acts request : acts (handle_command_cancel_frame request).
Proof.
  unfold handle_command_cancel_frame. apply acts_get. intros w.
  destruct (w_active w !! cancel_job_id request) as [a|] eqn:Ha; [|apply acts_sends, sends_counted].
  rewrite act_bind_eq. unfold on_active, on_runtime, act_modify. fold (w_active w).
  set (reason := default _ _).
  assert (Hm : alter (fun a => with_token (cancel reason (active_cancel_token a)) a) (cancel_job_id request) (w_active w)
               = alter (with_token (cancel reason (active_cancel_token a))) (cancel_job_id request) (w_active w)).
  { apply map_eq. intros k. destruct (decide (cancel_job_id request = k)) as [<-|Hne].
    - by rewrite !lookup_alter_eq, Ha.
    - by rewrite !lookup_alter_ne. }
  rewrite Hm. eapply rtc_l; [apply ChangeToken|]. apply acts_sends, sends_counted.
Qed.

Lemma queue_acts output w : is_Some (w_tasks w !! co_job_id output) -> evolves w (snd (queue_active_command_output output w)).
Proof.
  intros Ht. unfold queue_active_command_output. rewrite act_bind_eq. cbn [act_get].
  destruct (w_active w !! _) as [a|]; [|apply rtc_refl]. rewrite act_bind_eq. unfold on_active at 1, on_runtime, act_modify.
  eapply rtc_l; [by apply ChangeEnqueue|]. apply (acts_bind (flush_pending_command_outputs _)).
  - apply acts_drains, flush_drains.
  - intros []. apply remove_acts.
Qed.

Lemma start_session_acts i finals : acts (start_session i finals).
Proof.
  unfold start_session. apply acts_get. intros w. apply (acts_bind (of_result _)); [intros w1; apply rtc_refl|]. intros snapshot.
  apply (acts_bind (act_modify (set_seq 2))).
  { intros w1. apply rtc_once, ChangeIdle. exists 2, (w_sent w1), (w_send_faults w1), (w_ledger w1). by destruct w1. }
  intros []. apply acts_bind.
  { unfold request_runtime_config_reload. apply acts_get. intros w1.
    destruct (content_hash _); [apply acts_sends, sends_counted|apply rtc_refl]. }
  intros []. apply acts_bind; [apply acts_sends, sends_each; intros f; apply sends_counted|]. intros [].
  unfold resume_active_commands. apply acts_get. intros w1.
  apply (acts_bind (act_each resume_command _)); [|intros []; apply flush_all_acts].
  apply acts_sends, sends_each. intros job w2. unfold resume_command. rewrite act_bind_eq. cbn [act_get].
  destruct (w_active w2 !! job); [apply sends_counted|apply idle_refl].
Qed.

(** ** Ended tasks *)

Lemma candidate_ok config runtime_config version candidate :
  runtime_config_candidate config runtime_config version = Ok candidate ->
  rcfg_version runtime_config = version /\ candidate = apply_to_agent_config runtime_config config.
Proof.
  unfold runtime_config_candidate. destruct (Z.eqb_spec (rcfg_version runtime_config) version) as [->|]; [|done]. cbn [negb].
  destruct (shape_ok _); [|done]. by intros [= <-].
Qed.

(** What a result says of the configuration. *)
Definition update_of (task : Task) (result : CommandExecutionResult) : Prop :=
  (res_config_update result = None /\ res_runtime_config_update result = None) \/
  exists config runtime_config version reason,
    task_work task = SyncWork config runtime_config version reason /\ rcfg_version runtime_config = version /\
    res_config_update result = Some (apply_to_agent_config runtime_config config) /\
    res_runtime_config_update result = Some runtime_config.

Lemma sync_task_update job task config runtime_config version reason outcome adoption :
  task_work task = SyncWork config runtime_config version reason ->
  update_of task (sync_task_result job task config runtime_config version reason outcome adoption).
Proof.
  intros Ht. unfold update_of, sync_task_result, apply_runtime_config_sync_owned.
  destruct (runtime_config_candidate config runtime_config version) as [candidate|e] eqn:Ec.
  - apply candidate_ok in Ec as [Hv ->]. right. exists config, runtime_config, version, reason.
    destruct outcome as [inputs|canceled|text]; cbn; [|done|done]. by destruct (snd (sync_steps _ _ _ _)).
  - left. by destruct outcome as [inputs|canceled|text].
Qed.

Lemma task_result_update job task outcome result : task_result job task outcome = Some result ->
  res_job_id result = job /\ update_of task result.
Proof.
  unfold task_result. destruct outcome as [text|o adoption|r], (task_work task) as [config rc version reason|request] eqn:Ht; try done.
  all: intros [= <-]; try (split; [done|by left]).
  split; [|by apply sync_task_update]. unfold sync_task_result.
  repeat case_match; done.
Qed.

(** The part of [handle_finished] in front of [finish_active_command]. *)
Lemma handle_finished_settles w task result : update_of task result ->
  exists config accepted required pending cache result', settled w task config accepted cache /\ res_job_id result' = res_job_id result /\
    handle_finished result w
    = finish_active_command result'
        (mkWorld config
           (mkRuntime (w_active w) (recent_commands (w_runtime w)) (command_ledger (w_runtime w))
              (runtime_config_cache (w_runtime w)) accepted required pending)
           (w_ledger w) cache (w_tasks w) (w_spawned w) (w_up w) (w_session w) (w_seq w) (w_sent w) (w_send_faults w)).
Proof.
  intros Hu. unfold handle_finished, accept_runtime_config. rewrite act_bind_eq.
  destruct Hu as [[Hc Hr]|(config & rc & version & reason & Ht & Hv & Hc & Hr)]; rewrite Hr.
  - exists (w_config w), (accepted_runtime_config_version (w_runtime w)), (requires_authoritative_runtime_config_sync (w_runtime w)),
      (pending_reconcile_resources (w_runtime w)), (w_cache w), result. split; [by constructor|]. split; [done|].
    cbn [mret act_ret]. rewrite act_bind_eq, andb_false_r. cbn [mret act_ret]. rewrite act_bind_eq, Hc. cbn [mret act_ret].
    by destruct w as [? [] ? ? ? ? ? ? ? ? ?].
  - rewrite act_bind_eq. cbn [act_get]. rewrite act_bind_eq.
    set (stored := match runtime_config_cache (w_runtime w) with Some _ => _ | None => _ end).
    assert (Hs : exists r cache, stored w = (Ok r, set_disks (w_ledger w) cache w) /\
      match r with
      | Ok _ => is_Some (runtime_config_cache (w_runtime w)) -> cached_text (files cache) = Some (config_text rc)
      | Err _ => cached_text (files cache) = cached_text (files (w_cache w))
      end).
    { unfold stored. destruct (runtime_config_cache (w_runtime w)) as [handle|].
      - unfold try_act, on_cache. pose proof (store_cached handle rc (w_cache w)) as Hst.
        destruct (cache_store handle rc (w_cache w)) as [r d]. exists r, d. split; [done|]. by destruct r.
      - exists (Ok tt), (w_cache w). split; [by destruct w|]. by intros [? ?]. }
    destruct Hs as (r & cache & -> & Hst). destruct r as [[]|e].
    + rewrite act_bind_eq. cbn [on_runtime act_modify mret act_ret]. rewrite act_bind_eq, andb_true_r.
      exists (apply_to_agent_config rc config), (Some version).
      destruct (res_fully_applied result); cbn [on_runtime act_modify mret act_ret]; rewrite act_bind_eq, Hc; cbn [act_modify].
      * destruct (authoritative (res_scope result)) eqn:Ea.
        -- exists false, ∅, cache, result. split; [by apply (SettledSync w task config rc version reason cache)|]. split; [done|].
           unfold settle_reconcile. rewrite Ea, Hv. done.
        -- eexists _, _, cache, result. split; [by apply (SettledSync w task config rc version reason cache)|]. split; [done|].
           unfold settle_reconcile. rewrite Ea, Hv. done.
      * eexists _, _, cache, result. split; [by apply (SettledSync w task config rc version reason cache)|]. split; [done|]. by rewrite Hv.
    + cbn [mret act_ret]. rewrite act_bind_eq, andb_false_r. cbn [mret act_ret]. rewrite act_bind_eq. cbn [mret act_ret].
      exists (w_config w), (accepted_runtime_config_version (w_runtime w)), (requires_authoritative_runtime_config_sync (w_runtime w)),
        (pending_reconcile_resources (w_runtime w)), cache,
        (mkResult (res_job_id result) (res_operation_type result) (res_max_timeout_secs result)
           (Err (with_context (lit "failed to persist last accepted runtime config") e)) None None
           (res_fully_applied result) (res_scope result)).
      split; [by constructor|]. split; [done|]. by destruct w as [? [] ? ? ? ? ? ? ? ? ?].
Qed.

Definition recorded (w : World) (job : Z) : Prop := entry_of (files (w_ledger w)) job <> Some None.

Lemma remember_eq job hash outputs terminal truncated w ledger : command_ledger (w_runtime w) = Some ledger ->
  remember_completed_replay_outputs job hash outputs terminal truncated w
  = let '(r, d) := ledger_record ledger job hash (compact_ledger_terminal_output terminal) true (w_ledger w) in
    (r, set_disks d (w_cache w) (set_runtime
          (with_recent (remember job hash outputs terminal truncated (recent_commands (w_runtime w))) (w_runtime w)) w)).
Proof.
  intros Hl. unfold remember_completed_replay_outputs. rewrite act_bind_eq. unfold on_runtime, act_modify. rewrite act_bind_eq.
  cbn [act_get set_runtime w_runtime with_recent command_ledger]. rewrite Hl. unfold on_ledger. cbn [w_ledger].
  by destruct (ledger_record _ _ _ _ _ _).
Qed.

(** A record that succeeds leaves an entry; it never changes what is active. *)
Lemma remember_records job hash outputs terminal truncated w : is_Some (command_ledger (w_runtime w)) ->
  let '(r, w') := remember_completed_replay_outputs job hash outputs terminal truncated w in
  w_active w' = w_active w /\ (r = Ok tt -> recorded w' job).
Proof.
  intros [ledger Hl]. rewrite (remember_eq _ _ _ _ _ _ _ Hl).
  pose proof (record_entry ledger job hash (compact_ledger_terminal_output terminal) true (w_ledger w)) as Hr.
  destruct (ledger_record _ _ _ _ _ _) as [r d]. split; [done|]. intros ->. unfold recorded. cbn. by rewrite (proj1 Hr).
Qed.

(** Sending does not touch the ledger. *)
Lemma drains_files {A} (m : Act World A) w : drains m -> files (w_ledger (snd (m w))) = files (w_ledger w).
Proof. intros Hd. destruct (Hd w) as (m' & _ & (n & s & f & d & Hf & ->)). exact Hf. Qed.

Lemma finish_evolves w task result a : w_up w = true -> is_Some (command_ledger (w_runtime w)) -> update_of task result ->
  w_tasks w !! res_job_id result = Some task -> w_active w !! res_job_id result = Some a ->
  let w' := snd (handle_finished result (set_tasks (delete (res_job_id result) (w_tasks w)) (w_spawned w) w)) in
  (exists w1, finish (res_job_id result) w w1 /\ evolves w1 w') /\
  (is_Some (w_active w' !! res_job_id result) \/ recorded w' (res_job_id result)).
Proof.
  intros Hup Hl Hu Ht Ha. cbv zeta.
  destruct (handle_finished_settles (set_tasks (delete (res_job_id result) (w_tasks w)) (w_spawned w) w) task result Hu)
    as (config & accepted & required & pending & cache & result' & Hset & Hid & ->).
  assert (Hset' : settled w task config accepted cache) by (destruct Hset; [by apply (SettledUnchanged w task)|by eapply SettledSync]).
  unfold finish_active_command. rewrite Hid. rewrite act_bind_eq. cbn [act_get w_active w_runtime active_commands].
  set (job := res_job_id result) in *. change (w_active (set_tasks _ _ w)) with (w_active w). rewrite Ha.
  rewrite act_bind_eq. unfold on_active, on_runtime, act_modify.
  set (b := finish_active result' a). set (w1 := set_runtime _ _).
  assert (H1 : finish job w w1).
  { pose proof (Finish w task result' a config accepted required pending cache) as Hc. rewrite Hid in Hc. by apply Hc. }
  assert (Hl1 : is_Some (command_ledger (w_runtime w1))) by done.
  assert (Hb : w_active w1 !! job = Some b) by apply lookup_insert_eq.
  split.
  - exists w1. split; [exact H1|]. apply (acts_bind (remember_completed_replay_outputs _ _ _ _ _)); [apply remember_acts|]. intros [].
    apply (acts_bind (flush_pending_command_outputs _)); [apply acts_drains, flush_drains|]. intros []. apply remove_acts.
  - rewrite act_bind_eq. match goal with |- context [remember_completed_replay_outputs ?j ?h ?o ?t ?u w1] =>
      pose proof (remember_records j h o t u w1 Hl1) as Hrec;
      destruct (remember_completed_replay_outputs j h o t u w1) as [[[]|e] w2] end; destruct Hrec as [Ea Hrec].
    + right. specialize (Hrec eq_refl). rewrite act_bind_eq.
      pose proof (drains_files _ w2 (flush_drains job)) as Hf.
      destruct (flush_pending_command_outputs job w2) as [[[]|e] w3]; cbn [snd] in *; unfold recorded in *; cbn; by rewrite Hf.
    + left. cbn [snd]. rewrite Ea, Hb. eauto.
Qed.
End Runs.

(** * The invariant *)

(** The numbers of outputs: from [k] on, and never past [i32::MAX]. *)
Definition numbers (k : Z) (n : nat) : list Z := map (fun i => Z.min i32_max (k + Z.of_nat i)) (List.seq 0%nat n).

#[local] Arguments numbers : simpl never.

Lemma numbers_S k n : numbers k (S n) = numbers k n ++ [Z.min i32_max (k + Z.of_nat n)].
Proof. unfold numbers. by rewrite seq_S, map_app. Qed.

Lemma numbers_length k n : length (numbers k n) = n.
Proof. unfold numbers. by rewrite length_map, length_seq. Qed.

Lemma numbers_drop k n m : drop m (numbers k n) = numbers (k + Z.of_nat m) (n - m).
Proof.
  revert k n. induction m as [|m IH]; intros k n.
  { by rewrite drop_0, Z.add_0_r, Nat.sub_0_r. }
  destruct n as [|n]; [done|]. unfold numbers. cbn [List.seq map drop Nat.sub].
  rewrite <- seq_shift, map_map. specialize (IH (k + 1) n). unfold numbers in IH.
  rewrite (map_ext _ (fun i => Z.min i32_max (k + 1 + Z.of_nat i))) by (intros i; f_equal; lia). rewrite IH.
  apply map_ext. intros i. f_equal. lia.
Qed.

(** Queued outputs are numbered without gaps up to the next number; what is kept
    for a replay is everything from 0 on, and ends with the queue. *)
Record queue_ok (a : ActiveCommand) : Prop := {
  queue_pending : exists k, 0 <= k /\ map sq_seq (pending_outputs a) = numbers k (length (pending_outputs a)) /\
    next_output_seq a = Z.min i32_max (k + vec_len (pending_outputs a));
  queue_replay : if replay_truncated a then replay_outputs a = [] else
    map sq_seq (replay_outputs a) = numbers 0 (length (replay_outputs a)) /\
    next_output_seq a = Z.min i32_max (vec_len (replay_outputs a)) /\
    replay_output_bytes a = sequenced_command_outputs_bytes (replay_outputs a) /\ replay_output_bytes a <= MAX_REPLAY_BYTES /\
    exists sent, replay_outputs a = sent ++ pending_outputs a;
}.

Lemma queue_drain a sent rest : queue_ok a -> pending_outputs a = sent ++ rest -> queue_ok (with_pending rest a).
Proof.
  intros [(k & Hk & Hp & Hn) Hr] E. split; cbn.
  - exists (k + Z.of_nat (length sent)). split; [lia|]. rewrite E in Hp, Hn. rewrite map_app, length_app in Hp. split.
    + apply (f_equal (drop (length (map sq_seq sent)))) in Hp. rewrite drop_app_length, numbers_drop, length_map in Hp.
      by rewrite Nat.add_comm, Nat.add_sub in Hp.
    + rewrite Hn. unfold vec_len. rewrite length_app. f_equal. lia.
  - destruct (replay_truncated a); [done|]. destruct Hr as (H1 & H2 & H3 & H4 & pre & H5).
    repeat (split; [done|]). exists (pre ++ sent). by rewrite H5, E, app_assoc.
Qed.

Lemma outputs_bytes_app l l' :
  sequenced_command_outputs_bytes (l ++ l') = sequenced_command_outputs_bytes l + sequenced_command_outputs_bytes l'.
Proof. unfold sequenced_command_outputs_bytes. induction l as [|o l IH]; cbn [app foldr]; [lia|]. rewrite IH. lia. Qed.

Lemma queue_enqueue `{AgentPlatform} output a : queue_ok a -> queue_ok (enqueue_active_command_output output a).
Proof.
  intros [(k & Hk & Hp & Hn) Hr]. unfold enqueue_active_command_output, capture_replay_output.
  set (o := mkSequenced (next_output_seq a) output).
  assert (Hpend : exists k, 0 <= k /\ map sq_seq (pending_outputs a ++ [o]) = numbers k (length (pending_outputs a ++ [o])) /\
    saturating_add i32_max (next_output_seq a) 1 = Z.min i32_max (k + vec_len (pending_outputs a ++ [o]))).
  { exists k. unfold vec_len. rewrite length_app, map_app, Nat.add_1_r, numbers_S, Hp. cbn [map sq_seq o]. rewrite Hn.
    split; [done|]. split; [done|]. unfold saturating_add, i32_max, vec_len. lia. }
  cbn [replay_truncated with_next_seq]. destruct (replay_truncated a) eqn:Ht; [split; [exact Hpend|exact Hr]|].
  destruct Hr as (H1 & H2 & H3 & H4 & pre & H5). cbn [replay_output_bytes with_next_seq].
  destruct (Z.ltb_spec MAX_REPLAY_BYTES (saturating_add u64_max (replay_output_bytes a) (vec_len (co_data (sq_output o))))) as [Hlt|Hge];
    [split; [exact Hpend|done]|]. split; [exact Hpend|]. cbn [replay_truncated with_pending with_replay].
  cbn [replay_outputs with_pending with_replay next_output_seq with_next_seq replay_output_bytes pending_outputs].
  cbn in Hge. unfold vec_len in *. rewrite map_app, length_app, Nat.add_1_r, numbers_S, H1. cbn [map sq_seq].
  split; [cbn [sq_seq o]; by rewrite H2|]. split; [rewrite H2; unfold saturating_add, i32_max; lia|].
  rewrite outputs_bytes_app, <- H3. unfold sequenced_command_outputs_bytes, vec_len. cbn [foldr sq_output o].
  split; [unfold saturating_add, u64_max, MAX_REPLAY_BYTES in *; lia|]. split; [done|].
  exists pre. by rewrite H5, app_assoc.
Qed.

Lemma queue_finish `{AgentPlatform} result a : queue_ok a -> queue_ok (finish_active result a).
Proof.
  intros Ha. unfold finish_active. set (outputs := command_result_outputs _ _ _ _). clearbody outputs.
  assert (Hf : queue_ok (foldl (fun a output => enqueue_active_command_output output a) a outputs)).
  { revert a Ha. induction outputs as [|o l IH]; intros a Ha; cbn; [done|]. by apply IH, queue_enqueue. }
  destruct Hf. by split.
Qed.

Lemma finish_fields `{AgentPlatform} result a :
  active_safety (finish_active result a) = active_safety a /\ finished (finish_active result a) = true.
Proof.
  split; [|done]. unfold finish_active. set (outputs := command_result_outputs _ _ _ _). clearbody outputs. cbn.
  revert a. induction outputs as [|o l IH]; intros a; cbn; [done|]. rewrite IH.
  unfold enqueue_active_command_output, capture_replay_output. by repeat case_match.
Qed.

Lemma enqueue_fields `{AgentPlatform} output a :
  active_safety (enqueue_active_command_output output a) = active_safety a /\
  finished (enqueue_active_command_output output a) = finished a.
Proof. unfold enqueue_active_command_output, capture_replay_output. by repeat case_match. Qed.

(** No version after [accepted] is older. *)
Definition version_le (accepted next : option Z) : Prop :=
  match accepted, next with
  | None, _ => True
  | Some v, Some v' => v <= v'
  | Some _, None => False
  end.

Record agent_ok (w : World) : Prop := {
  ok_recent : recent_ok (recent_commands (w_runtime w));
  ok_queues job a : w_active w !! job = Some a -> queue_ok a;
  (** A command runs exactly while it is active and not ended. *)
  ok_tasks job : is_Some (w_tasks w !! job) <-> exists a, w_active w !! job = Some a /\ finished a = false;
  (** An exclusive command is the only one. *)
  ok_exclusive job job' a b : w_active w !! job = Some a -> w_active w !! job' = Some b -> job <> job' ->
    active_safety a <> Exclusive;
  (** A synchronisation works on the current configuration and moves it forward. *)
  ok_sync job task config runtime_config version reason :
    w_tasks w !! job = Some task -> task_work task = SyncWork config runtime_config version reason ->
    config = w_config w /\ version_le (accepted_runtime_config_version (w_runtime w)) (Some version) /\
    exists a, w_active w !! job = Some a /\ active_safety a = Exclusive;
  ok_session : w_session w = true -> w_up w = true;
  ok_ledger : w_up w = true -> is_Some (command_ledger (w_runtime w));
}.

(** Changes of active commands one by one, that keep which there are. *)
Lemma agent_ok_map w m' : agent_ok w ->
  (forall job, match w_active w !! job, m' !! job with
               | Some a, Some a' => queue_ok a' /\ finished a' = finished a /\ active_safety a' = active_safety a
               | None, None => True
               | _, _ => False
               end) ->
  agent_ok (set_active m' w).
Proof.
  intros [Hr Hq Ht Hx Hs Hu Hl] Hm.
  assert (Hback : forall job a', m' !! job = Some a' -> exists a, w_active w !! job = Some a /\ queue_ok a' /\
                    finished a' = finished a /\ active_safety a' = active_safety a).
  { intros job a' E. specialize (Hm job). rewrite E in Hm. destruct (w_active w !! job) as [a|]; [|done]. by exists a. }
  assert (Hfwd : forall job a, w_active w !! job = Some a -> exists a', m' !! job = Some a' /\
                    finished a' = finished a /\ active_safety a' = active_safety a).
  { intros job a E. specialize (Hm job). rewrite E in Hm. destruct (m' !! job) as [a'|]; [|done]. exists a'. tauto. }
  split; cbn; try done.
  - intros job a' (a & _ & Ha & _)%Hback. done.
  - intros job. rewrite Ht. split.
    + intros (a & (a' & E & Hf & _)%Hfwd & Hfin). exists a'. by rewrite Hf.
    + intros (a' & (a & E & _ & Hf & _)%Hback & Hfin). exists a. by rewrite <- Hf.
  - intros job job' a' b' (a & Ea & _ & _ & ->)%Hback (b & Eb & _)%Hback. by eapply Hx.
  - intros job task config rc version reason E1 E2. destruct (Hs _ _ _ _ _ _ E1 E2) as (H1 & H2 & a & (a' & Ea & _ & Hsf)%Hfwd & Hex).
    split; [done|]. split; [done|]. exists a'. by rewrite Hsf.
Qed.

Lemma agent_ok_idle w w' : agent_ok w -> idle w w' -> agent_ok w'.
Proof. intros [Hr Hq Ht Hx Hs Hu Hl] (n & s & f & d & _ & ->). by split. Qed.

Lemma agent_ok_alter w f job : agent_ok w ->
  (forall a, queue_ok a -> queue_ok (f a) /\ finished (f a) = finished a /\ active_safety (f a) = active_safety a) ->
  agent_ok (set_active (alter f job (w_active w)) w).
Proof.
  intros Hok Hf. apply agent_ok_map; [done|]. intros k. destruct (decide (job = k)) as [<-|Hne].
  - rewrite lookup_alter_eq. destruct (w_active w !! job) as [a|] eqn:E; cbn; [|done]. apply Hf, (ok_queues w Hok job a E).
  - rewrite lookup_alter_ne by done. destruct (w_active w !! k) as [a|] eqn:E; [|done]. split; [|done].
    apply (ok_queues w Hok k a E).
Qed.

Lemma agent_ok_drop w m' : agent_ok w -> dropped (w_active w) m' -> agent_ok (set_active m' w).
Proof.
  intros [Hr Hq Ht Hx Hs Hu Hl] Hd.
  assert (Hback : forall job a, m' !! job = Some a -> w_active w !! job = Some a).
  { intros job a E. destruct (Hd job) as [E'|[E' _]]; congruence. }
  assert (Hfwd : forall job a, w_active w !! job = Some a -> finished a = false -> m' !! job = Some a).
  { intros job a E Hf. destruct (Hd job) as [E'|(_ & b & Eb & Hfl)]; [congruence|].
    assert (a = b) as -> by congruence. unfold flushed in Hfl. rewrite Hf in Hfl. done. }
  split; cbn; try done.
  - intros job a E%Hback. by eapply Hq.
  - intros job. rewrite Ht. split; intros (a & E & Hf); exists a; (split; [|done]); [by apply Hfwd|by apply Hback].
  - intros job job' a b Ea%Hback Eb%Hback. by eapply Hx.
  - intros job task config rc version reason E1 E2. destruct (Hs _ _ _ _ _ _ E1 E2) as (H1 & H2 & a & Ea & Hex).
    split; [done|]. split; [done|]. exists a. split; [|done]. apply Hfwd; [done|].
    destruct (proj1 (Ht job)) as (a' & Ea' & Hf'); [eauto|]. congruence.
Qed.

(** While a synchronisation runs it is the only task. *)
Lemma sync_alone w job job' task task' config rc version reason : agent_ok w ->
  w_tasks w !! job = Some task -> task_work task = SyncWork config rc version reason -> w_tasks w !! job' = Some task' ->
  job' = job.
Proof.
  intros Hok E1 E2 E3. destruct (ok_sync w Hok _ _ _ _ _ _ E1 E2) as (_ & _ & a & Ea & Hex).
  destruct (proj1 (ok_tasks w Hok job')) as (b & Eb & _); [eauto|].
  destruct (decide (job' = job)) as [|Hne]; [done|]. by destruct (ok_exclusive w Hok job job' a b Ea Eb (not_eq_sym Hne)).
Qed.

Section Invariant.
Context `{AgentPlatformLaws}.

Lemma agent_ok_finish job0 w w' : agent_ok w -> finish job0 w w' -> agent_ok w'.
Proof.
  intros Hok Hf. destruct Hf as [w task result a config accepted required pending cache Et Ea Hset Hup]. destruct (finish_fields result a) as [Hsafe Hfin]. set (job := res_job_id result) in *.
  set (b := finish_active result a) in *. split; cbn.
  - apply Hok.
  - intros k c [[Ek <-]|[_ E]]%lookup_insert_Some; [by apply queue_finish, (ok_queues w Hok job)|by apply (ok_queues w Hok k)].
  - intros k. destruct (decide (job = k)) as [<-|Hne].
    + rewrite lookup_delete_eq, lookup_insert_eq. split; [by intros [? ?]|]. intros (c & [= <-] & Hc). congruence.
    + rewrite lookup_delete_ne, lookup_insert_ne by done. apply (ok_tasks w Hok).
  - assert (Hback : forall k c, <[job:=b]> (w_active w) !! k = Some c -> exists c', w_active w !! k = Some c' /\ active_safety c = active_safety c').
    { intros k c [[<- <-]|[_ E]]%lookup_insert_Some; [by exists a|by exists c]. }
    intros k k' c c' (d & Ed & ->)%Hback (d' & Ed' & _)%Hback Hne. by apply (ok_exclusive w Hok k k' d d').
  - intros k task' config' rc version reason [Hne Ek]%lookup_delete_Some Hw.
    destruct (ok_sync w Hok _ _ _ _ _ _ Ek Hw) as (H1 & H2 & c & Ec & Hex).
    destruct Hset as [cache _|config0 rc0 version0 reason0 cache Ht0 Hv0 _].
    + split; [done|]. split; [done|]. exists c. by rewrite lookup_insert_ne.
    + exfalso. apply Hne. eapply (sync_alone w k job); eassumption.
  - apply (ok_session w Hok).
  - apply (ok_ledger w Hok).
Qed.

Lemma agent_ok_change w w' : agent_ok w -> change w w' -> agent_ok w'.
Proof.
  intros Hok Hc. destruct Hc as [w w' Hi|w m' Hd|w m' Hd|w job stream|w job token|w output Ht|w job hash outputs terminal truncated
    |w ledger job hash terminal truncated r d Hr|w open Ho].
  - by eapply agent_ok_idle.
  - apply agent_ok_map; [done|]. intros job. specialize (Hd job).
    destruct (w_active w !! job) as [a|] eqn:E, (m' !! job) as [a'|]; try done.
    destruct Hd as (sent & rest & Hp & ->). split; [|done]. eapply queue_drain; [by apply (ok_queues w Hok job)|done].
  - by apply agent_ok_drop.
  - apply agent_ok_alter; [done|]. intros a []. by split.
  - apply agent_ok_alter; [done|]. intros a []. by split.
  - apply agent_ok_alter; [done|]. intros a Ha. split; [by apply queue_enqueue|]. destruct (enqueue_fields output a). done.
  - destruct Hok as [Hr Hq Ht Hx Hs Hu Hl]. split; cbn; try done.
    destruct (remember_within_limits (recent_commands (w_runtime w)) job hash outputs terminal truncated Hr) as [Hk _]. done.
  - destruct Hok as [Hr' Hq Ht Hx Hs Hu Hl]. by split.
  - destruct Hok as [Hr' Hq Ht Hx Hs Hu Hl]. by split.
Qed.

Lemma no_conflict safety (m : gmap Z ActiveCommand) : exclusive_conflict safety m = false ->
  (safety = Exclusive -> m = ∅) /\ forall job a, m !! job = Some a -> active_safety a <> Exclusive.
Proof.
  unfold exclusive_conflict. case_bool_decide as Hs.
  - intros Hm%negb_false_iff%bool_decide_eq_true. subst m. split; [done|]. intros job a. by rewrite lookup_empty.
  - intros Hx. split; [done|]. intros job a E Hex. apply Bool.not_true_iff_false in Hx. apply Hx. apply existsb_exists.
    exists (job, a). split; [|by apply bool_decide_eq_true]. by apply list_elem_of_In, elem_of_map_to_list.
Qed.

Lemma not_stale accepted config version reason rc :
  sync_rejection accepted config (RuntimeConfigSync version reason rc) = None -> version_le accepted (Some version).
Proof.
  cbn. destruct (_ =? _); [|done]. cbn [negb]. unfold runtime_config_snapshot_is_stale. destruct accepted as [v|]; [|done]. cbn.
  destruct (Z.ltb_spec version v); [done|lia].
Qed.

Lemma agent_ok_spawn w w' : agent_ok w -> spawn w w' -> agent_ok w'.
Proof.
  intros Hok Hsp. destruct Hsp as [w0 stream request hash timeout Ha He Hs Hx]. destruct (no_conflict _ _ Hx) as [Hempty Hplain].
  set (job := req_job_id request) in *. split; cbn.
  - apply Hok.
  - intros k a [[_ <-]|[_ E]]%lookup_insert_Some; [|by apply (ok_queues w0 Hok k)]. split; cbn; [by exists 0|].
    repeat split; [unfold MAX_REPLAY_BYTES; lia|by exists []].
  - intros k. destruct (decide (job = k)) as [<-|Hne].
    + rewrite !lookup_insert_eq. split; [by eexists|by eexists].
    + rewrite !lookup_insert_ne by done. apply (ok_tasks w0 Hok).
  - intros k k' a b Ea Eb Hne Hex.
    assert (Hcase : forall k a, <[job:=new_active stream request hash]> (w_active w0) !! k = Some a ->
              active_safety a = Exclusive -> k = job /\ w_active w0 = ∅).
    { intros i c [[<- <-]|[_ E]]%lookup_insert_Some Hc; [split; [done|by apply Hempty]|]. by destruct (Hplain i c E). }
    destruct (Hcase k a Ea Hex) as [-> Hm].
    apply lookup_insert_Some in Eb as [[-> _]|[_ Eb]]; [done|]. by rewrite Hm, lookup_empty in Eb.
  - intros k task config rc version reason [[<- <-]|[Hne Ek]]%lookup_insert_Some Hw.
    + unfold task_for in Hw. cbn in Hw. destruct (req_command request) eqn:Hc; try discriminate Hw.
      injection Hw as -> -> -> ->. split; [done|]. split; [by eapply not_stale|].
      eexists. split; [apply lookup_insert_eq|]. cbn. by rewrite Hc.
    + destruct (ok_sync w0 Hok _ _ _ _ _ _ Ek Hw) as (H1 & H2 & c & Ec & Hex). split; [done|]. split; [done|].
      exists c. by rewrite lookup_insert_ne.
  - apply (ok_session w0 Hok).
  - apply (ok_ledger w0 Hok).
Qed.

(** ** Restarts *)

Lemma end_process_ok w : agent_ok (end_process w).
Proof.
  split; cbn; try done.
  - split; [|unfold vec_len; cbn; lia]. split; cbn; try done; [apply NoDup_nil_2|].
    intros id. rewrite lookup_empty. split; [set_solver|by intros [? ?]].
  - intros job. rewrite lookup_empty. split; [by intros [? ?]|]. unfold w_active. cbn. intros (a & E & _). by rewrite lookup_empty in E.
Qed.

Lemma on_ledger_keeps {A} (m : Act Disk A) w : exists d, snd (on_ledger m w) = set_disks d (w_cache w) w.
Proof. unfold on_ledger. destruct (m (w_ledger w)) as [r d]. by exists d. Qed.

Lemma on_cache_keeps {A} (m : Act Disk A) w : exists d, snd (on_cache m w) = set_disks (w_ledger w) d w.
Proof. unfold on_cache. destruct (m (w_cache w)) as [r d]. by exists d. Qed.

Lemma agent_ok_disks w l c : agent_ok w -> agent_ok (set_disks l c w).
Proof. intros [Hr Hq Ht Hx Hs Hu Hl]. by split. Qed.
End Invariant.

(** * Steps *)

(** The events in which the agent may lose what it remembers. *)
Definition forgetful (event : AgentEvent) : bool :=
  match event with Restart _ _ | CleanupTurn => true | _ => false end.

Section Steps.
Context `{AgentPlatformLaws}.

Lemma in_session_evolves m w : evolves w (snd (m w)) -> evolves w (in_session m w).
Proof.
  intros Hm. unfold in_session. destruct (w_session w); [|apply rtc_refl]. destruct (m w) as [[[]|e] w']; [done|].
  eapply rtc_r; [exact Hm|]. by apply ChangeSession.
Qed.

(** What every other turn comes to: changes, one spawned task, or one ended task
    that is then active or recorded. *)
Inductive turn (w : World) (event : AgentEvent) (w' : World) : Prop :=
| TurnEvolves : evolves w w' -> turn w event w'
| TurnSpawns w1 : idle w w1 -> spawn w1 w' -> turn w event w'
| TurnFinishes job outcome w1 :
    event = TaskFinished job outcome -> finish job w w1 -> evolves w1 w' ->
    is_Some (w_active w' !! job) \/ recorded w' job -> turn w event w'.

Lemma agent_step_turns w event : agent_ok w -> forgetful event = false -> turn w event (agent_step w event).
Proof.
  intros Hok He. destruct event as [frame|request|output|job outcome|kind stream bytes|inspections finals| | |secs|config failed];
    try discriminate He; cbn [agent_step].
  - unfold in_session. destruct (w_session w) eqn:Hs; [|apply TurnEvolves, rtc_refl].
    destruct (handle_command_frame_evolves frame w (ok_ledger w Hok (ok_session w Hok Hs))) as [Hev|(Hr & w1 & Hi & Hsp)].
    + apply TurnEvolves. pose proof (in_session_evolves (handle_command_frame frame) w Hev) as Hin. unfold in_session in Hin.
      by rewrite Hs in Hin.
    + apply (TurnSpawns _ _ _ w1); [done|]. destruct (handle_command_frame frame w) as [r w']. cbn in Hr. by rewrite Hr.
  - apply TurnEvolves, in_session_evolves, cancel_acts.
  - apply TurnEvolves. case_bool_decide; cbn [andb]; [|apply rtc_refl]. destruct (negb _); [|apply rtc_refl].
    by apply in_session_evolves, queue_acts.
  - destruct (w_tasks w !! job) as [task|] eqn:Et; cbn [mbind option_bind]; [|apply TurnEvolves, rtc_refl].
    destruct (task_result job task outcome) as [result|] eqn:Er; [|apply TurnEvolves, rtc_refl].
    destruct (w_session w) eqn:Hs; cbn [andb]; [|apply TurnEvolves, rtc_refl]. destruct (negb _); [|apply TurnEvolves, rtc_refl].
    apply task_result_update in Er as [Hid Hu]. rewrite <- Hid in *.
    destruct (proj1 (ok_tasks w Hok (res_job_id result))) as (a & Ea & _); [eauto|].
    destruct (finish_evolves w task result a (ok_session w Hok Hs) (ok_ledger w Hok (ok_session w Hok Hs)) Hu Et Ea) as [(w1 & Hf & Hev) Hkept].
    unfold in_session. cbn [w_session set_tasks]. rewrite Hs.
    destruct (handle_finished result _) as [[[]|e] w']; apply (TurnFinishes _ _ _ (res_job_id result) outcome w1); try done.
    eapply rtc_r; [exact Hev|]. by apply ChangeSession.
  - apply TurnEvolves, in_session_evolves, acts_sends, sends_counted.
  - apply TurnEvolves. destruct (w_up w) eqn:Hu; cbn [andb]; [|apply rtc_refl]. destruct (negb (w_session w)); [|apply rtc_refl].
    eapply rtc_l; [apply (ChangeSession w true); by intros _|]. rewrite Hu. apply in_session_evolves, start_session_acts.
  - apply TurnEvolves, rtc_once. by apply ChangeSession.
  - apply TurnEvolves, rtc_once, ChangeIdle. exists (w_seq w), (w_sent w), (w_send_faults w), (pass_time secs (w_ledger w)).
    split; [done|]. by destruct w.
Qed.

Lemma agent_ok_evolves w w' : evolves w w' -> agent_ok w -> agent_ok w'.
Proof. induction 1 as [|w w1 w' Hc _ IH]; [done|]. intros Hok. by eapply IH, agent_ok_change. Qed.

Lemma start_agent_ok config failed w : agent_ok (snd (start_agent config failed (end_process w))).
Proof.
  pose proof (end_process_ok w) as Hok. set (w0 := end_process w) in *.
  unfold start_agent. rewrite act_bind_eq. destruct (on_ledger_keeps (open_at (lit "command-ledger")) w0) as [l1 E1].
  destruct (on_ledger _ w0) as [[ledger|e] w1]; cbn [snd] in E1; subst w1; [|by apply agent_ok_disks].
  rewrite act_bind_eq. set (w1 := set_disks _ _ w0).
  destruct (on_cache_keeps (cache_open_at (lit "runtime-config")) w1) as [c1 E2].
  destruct (on_cache _ w1) as [[cache|e] w2]; cbn [snd] in E2; subst w2; [|by apply agent_ok_disks, agent_ok_disks].
  rewrite act_bind_eq. unfold try_act. destruct (on_cache_keeps (cache_load cache) (set_disks (w_ledger w1) c1 w1)) as [c2 E3].
  destruct (on_cache (cache_load cache) _) as [r w3]; cbn [snd] in E3; subst w3.
  destruct (load_accepted config r) as [config' version].
  split; cbn; try done.
  - apply (ok_recent w0 Hok).
  - intros job. rewrite lookup_empty. split; [by intros [? ?]|]. unfold w_active. cbn. intros (a & E & _). by rewrite lookup_empty in E.
Qed.

Lemma agent_ok_step w event : agent_ok w -> agent_ok (agent_step w event).
Proof.
  intros Hok. destruct (forgetful event) eqn:Hf.
  - destruct event as [| | | | | | | | |config failed]; try discriminate Hf; cbn [agent_step]; [|apply start_agent_ok].
    destruct (command_ledger (w_runtime w)) as [ledger|]; [|done].
    destruct (on_ledger_keeps (cleanup_turn ledger) w) as [d E].
    destruct (on_ledger _ w) as [[[]|e] w']; cbn [snd] in E; subst w'; [by apply agent_ok_disks|apply end_process_ok].
  - destruct (agent_step_turns w event Hok Hf) as [Hev|w1 Hi Hs|job outcome w1 _ Hfin Hev _].
    + by eapply agent_ok_evolves.
    + eapply agent_ok_spawn; [|exact Hs]. by eapply agent_ok_idle.
    + eapply agent_ok_evolves; [exact Hev|]. by eapply agent_ok_finish.
Qed.

Lemma agent_ok_run w events : agent_ok w -> agent_ok (agent_run w events).
Proof. unfold agent_run. revert w. induction events as [|e l IH]; intros w Hok; cbn; [done|]. by apply IH, agent_ok_step. Qed.
End Steps.
