(* ===== verification/AgentTheorems.v ===== *)
(** The properties of the agent's command runtime, over every run of it: from any
    disks, any sequence of frames, reports of tasks, lost connections, failing
    sends and disk operations, cleanups and restarts. *)

From stdpp Require Import gmap.
From S2P Require Import Prelude RustStd Json Frame PortForwarding NftReconcile TunnelModels ConfigModels ConfigValidation JobCommands JobCommandProofs CommandLedger CommandLedgerProofs AgentCommands AgentTunnelSync AgentHandlers AgentCommandProofs AgentRunProofs.

Open Scope Z_scope.

#[local] Arguments lit : simpl never.

(** * What turns keep *)

Section Keeps.
Context `{AgentPlatformLaws}.

Lemma change_keeps w w' : change w w' ->
  w_spawned w' = w_spawned w /\ w_tasks w' = w_tasks w /\ w_config w' = w_config w /\ w_cache w' = w_cache w /\ w_up w' = w_up w /\
  accepted_runtime_config_version (w_runtime w') = accepted_runtime_config_version (w_runtime w) /\
  runtime_config_cache (w_runtime w') = runtime_config_cache (w_runtime w).
Proof. destruct 1 as [w w' (n & s & f & d & _ & ->)| | | | | | | |]; done. Qed.

Lemma evolves_keeps w w' : evolves w w' ->
  w_spawned w' = w_spawned w /\ w_tasks w' = w_tasks w /\ w_config w' = w_config w /\ w_cache w' = w_cache w /\ w_up w' = w_up w /\
  accepted_runtime_config_version (w_runtime w') = accepted_runtime_config_version (w_runtime w) /\
  runtime_config_cache (w_runtime w') = runtime_config_cache (w_runtime w).
Proof.
  induction 1 as [|w w1 w' Hc _ IH]; [done|]. destruct (change_keeps w w1 Hc) as (E1 & E2 & E3 & E4 & E5 & E6 & E7).
  rewrite E1, E2, E3, E4, E5, E6, E7 in IH. exact IH.
Qed.

Lemma idle_evolves w w' : idle w w' -> evolves w w'.
Proof. intros Hi. by apply rtc_once, ChangeIdle. Qed.

Lemma change_recorded job w w' : change w w' -> recorded w job -> recorded w' job.
Proof.
  destruct 1 as [w w' (n & s & f & d & Hd & ->)| | | | | | |w ledger j hash terminal truncated r d Hr|]; try done; unfold recorded; cbn.
  - by rewrite Hd.
  - pose proof (record_entry ledger j hash terminal truncated (w_ledger w)) as He. rewrite Hr in He. destruct He as [Hj Ho].
    destruct (decide (job = j)) as [->|Hne]; [|by rewrite Ho]. rewrite Hj. by destruct r.
Qed.

Lemma evolves_recorded job w w' : evolves w w' -> recorded w job -> recorded w' job.
Proof. induction 1 as [|w w1 w' Hc _ IH]; [done|]. intros Hr. by eapply IH, change_recorded. Qed.

Lemma turn_recorded job w event w' : turn w event w' -> recorded w job -> recorded w' job.
Proof.
  intros [Hev|w1 Hi Hs|j outcome w1 _ Hf Hev _] Hr.
  - by eapply evolves_recorded.
  - apply (evolves_recorded job w w1 (idle_evolves _ _ Hi)) in Hr. destruct Hs. exact Hr.
  - eapply evolves_recorded; [exact Hev|]. destruct Hf. exact Hr.
Qed.

(** Only the end of its task ends the task of a job. *)
Lemma turn_task job w event w' : turn w event w' -> is_Some (w_tasks w !! job) ->
  is_Some (w_tasks w' !! job) \/ is_Some (w_active w' !! job) \/ recorded w' job.
Proof.
  intros [Hev|w1 Hi Hs|j outcome w1 _ Hf Hev Hkept] Ht.
  - left. destruct (evolves_keeps _ _ Hev) as (_ & -> & _). done.
  - left. destruct (evolves_keeps _ _ (idle_evolves _ _ Hi)) as (_ & E & _). rewrite <- E in Ht. destruct Hs. cbn.
    rewrite lookup_insert_is_Some'. by right.
  - destruct (decide (job = j)) as [->|Hne]; [by right|]. left. destruct (evolves_keeps _ _ Hev) as (_ & -> & _).
    destruct Hf. cbn. by rewrite lookup_delete_ne.
Qed.

Lemma turn_spawned w event w' : turn w event w' ->
  w_spawned w' = w_spawned w \/
  exists job, w_spawned w' = w_spawned w ++ [job] /\ w_active w !! job = None /\ is_Some (w_active w' !! job) /\
    entry_of (files (w_ledger w)) job = Some None.
Proof.
  intros [Hev|w1 Hi Hs|j outcome w1 _ Hf Hev _].
  - left. by destruct (evolves_keeps _ _ Hev) as (-> & _).
  - right. destruct (idle_same _ _ Hi) as (E1 & E2 & E3 & _). destruct Hs as [w1 stream request hash timeout Ha He _ _].
    exists (req_job_id request). rewrite <- E1, <- E2, <- E3. split; [done|]. split; [done|]. split; [|done].
    cbn. rewrite lookup_insert_eq. eauto.
  - left. destruct (evolves_keeps _ _ Hev) as (-> & _). by destruct Hf.
Qed.

(** Restarts and cleanups start nothing. *)
Lemma start_agent_keeps config failed w : w_spawned (snd (start_agent config failed w)) = w_spawned w.
Proof.
  unfold start_agent. rewrite act_bind_eq. destruct (on_ledger_keeps (open_at (lit "command-ledger")) w) as [l1 E1].
  destruct (on_ledger _ w) as [[ledger|e] w1]; cbn [snd] in E1; subst w1; [|done].
  rewrite act_bind_eq. destruct (on_cache_keeps (cache_open_at (lit "runtime-config")) (set_disks l1 (w_cache w) w)) as [c1 E2].
  destruct (on_cache _ _) as [[cache|e] w2]; cbn [snd] in E2; subst w2; [|done].
  rewrite act_bind_eq. unfold try_act. match goal with |- context [on_cache (cache_load cache) ?x] =>
    destruct (on_cache_keeps (cache_load cache) x) as [c2 E3]; destruct (on_cache (cache_load cache) x) as [r w3] end.
  cbn [snd] in E3. subst w3. by destruct (load_accepted config r).
Qed.

Lemma forgetful_spawned w event : forgetful event = true -> w_spawned (agent_step w event) = w_spawned w.
Proof.
  destruct event as [| | | | | | | | |config failed]; try discriminate; intros _; cbn [agent_step].
  - destruct (command_ledger (w_runtime w)) as [ledger|]; [|done]. destruct (on_ledger_keeps (cleanup_turn ledger) w) as [d E].
    by destruct (on_ledger _ w) as [[[]|e] w']; cbn [snd] in E; subst w'.
  - by rewrite start_agent_keeps.
Qed.
End Keeps.

(** * Jobs are started once *)

Section Once.
Context `{AgentPlatform}.

(** The agent knows of the job: it is under way, or the ledger has a file for it. *)
Definition covered (w : World) (job : Z) : bool :=
  bool_decide (is_Some (w_active w !! job)) ||
  match entry_of (files (w_ledger w)) job with Some None => false | _ => true end.

(** How often in a run the agent comes not to know of the job any more. *)
Fixpoint losses (w : World) (events : list AgentEvent) (job : Z) : nat :=
  match events with
  | [] => 0
  | event :: events' =>
      (if covered w job && negb (covered (agent_step w event) job) then 1 else 0) + losses (agent_step w event) events' job
  end%nat.

(** The job has ended and the ledger could not be written. *)
Definition unrecorded_end (w : World) (job : Z) : Prop :=
  exists a, w_active w !! job = Some a /\ finished a = true /\ entry_of (files (w_ledger w)) job = Some None.
End Once.

Section OnceProofs.
Context `{AgentPlatformLaws}.

Lemma covered_spec w job : covered w job = true <-> is_Some (w_active w !! job) \/ recorded w job.
Proof.
  unfold covered, recorded. rewrite orb_true_iff, bool_decide_eq_true.
  destruct (entry_of _ job) as [[e|]|]; intuition congruence.
Qed.

Lemma covered_false w job : covered w job = false <-> w_active w !! job = None /\ entry_of (files (w_ledger w)) job = Some None.
Proof.
  unfold covered. rewrite orb_false_iff, bool_decide_eq_false, eq_None_not_Some.
  destruct (entry_of _ job) as [[e|]|]; intuition congruence.
Qed.

Lemma step_spawned w event job : agent_ok w ->
  let w' := agent_step w event in
  w_spawned w' = w_spawned w \/ w_spawned w' = w_spawned w ++ [job] /\ covered w job = false /\ covered w' job = true \/
  exists other, other <> job /\ w_spawned w' = w_spawned w ++ [other].
Proof.
  intros Hok. cbv zeta. destruct (forgetful event) eqn:Hf; [left; by apply forgetful_spawned|].
  destruct (turn_spawned _ _ _ (agent_step_turns w event Hok Hf)) as [E|(j & E & Ha & Ha' & He)]; [by left|right].
  destruct (decide (j = job)) as [->|Hne]; [left|right; by exists j].
  split; [done|]. split; [by apply covered_false|]. apply covered_spec. by left.
Qed.

Lemma spawns_bounded w events job : agent_ok w ->
  (count_occ Z.eq_dec (w_spawned (agent_run w events)) job
   <= count_occ Z.eq_dec (w_spawned w) job + (if covered w job then 0 else 1) + losses w events job)%nat.
Proof.
  revert w. induction events as [|event events IH]; intros w Hok; [cbn; lia|].
  specialize (IH (agent_step w event) (agent_ok_step w event Hok)).
  change (agent_run w (event :: events)) with (agent_run (agent_step w event) events). cbn [losses].
  destruct (step_spawned w event job Hok) as [E|[(E & Hc & Hc')|(other & Hne & E)]]; rewrite E in IH.
  - destruct (covered w job), (covered (agent_step w event) job); cbn [andb negb]; lia.
  - rewrite Hc, Hc' in *. rewrite count_occ_app in IH. cbn [count_occ] in IH. destruct (Z.eq_dec job job); [|done]. cbn [andb]. lia.
  - rewrite count_occ_app in IH. cbn [count_occ] in IH. destruct (Z.eq_dec other job); [done|].
    destruct (covered w job), (covered (agent_step w event) job); cbn [andb negb]; lia.
Qed.

Lemma loses_unrecorded w event job : agent_ok w -> forgetful event = false ->
  covered w job = true -> covered (agent_step w event) job = false -> unrecorded_end w job.
Proof.
  intros Hok Hf Hc Hc'. pose proof (agent_step_turns w event Hok Hf) as Ht. pose proof (agent_ok_step w event Hok) as Hok'.
  set (w' := agent_step w event) in *. apply covered_false in Hc' as [Ha' He'].
  assert (Hnr : ~ recorded w job) by (intros Hr; by apply (turn_recorded job _ _ _ Ht Hr)).
  apply covered_spec in Hc as [[a Ha]|?]; [|done]. exists a. split; [done|]. split.
  - destruct (finished a) eqn:Hfin; [done|]. exfalso.
    destruct (turn_task job _ _ _ Ht) as [Htask|[Hact|Hrec]]; [apply (ok_tasks w Hok); eauto| | |done].
    + apply (ok_tasks w' Hok') in Htask as (b & Eb & _). congruence.
    + destruct Hact. congruence.
  - unfold recorded in Hnr. destruct (entry_of (files (w_ledger w)) job) as [[e|]|]; by (done || destruct Hnr).
Qed.

(** C3: A job is started at most once from when the agent does not know of it, and once
    more for every time the agent loses it: a job is lost only at a restart or a
    cleanup of the ledger, or when it had ended and the ledger could not be
    written.  As long as the agent knows of it a job is not started again, however
    often it is requested. *)
Theorem job_started_once w0 before events job (w := agent_run (end_process w0) before) :
  (count_occ Z.eq_dec (w_spawned (agent_run w events)) job
   <= count_occ Z.eq_dec (w_spawned w) job + (if covered w job then 0 else 1) + losses w events job)%nat /\
  forall event, covered w job = true -> covered (agent_step w event) job = false ->
    forgetful event = true \/ unrecorded_end w job.
Proof.
  assert (Hok : agent_ok w) by apply agent_ok_run, end_process_ok. split; [by apply spawns_bounded|].
  intros event Hc Hc'. destruct (forgetful event) eqn:Hf; [by left|right]. by eapply loses_unrecorded.
Qed.

(** C7: An exclusive command runs alone: of two active commands neither is exclusive;
    and a task runs exactly for the commands that are active and have not ended. *)
Theorem exclusive_runs_alone w0 events job (w := agent_run (end_process w0) events) :
  (forall other a b, w_active w !! job = Some a -> w_active w !! other = Some b -> job <> other ->
     active_safety a <> Exclusive /\ active_safety b <> Exclusive) /\
  (is_Some (w_tasks w !! job) <-> exists a, w_active w !! job = Some a /\ finished a = false).
Proof.
  assert (Hok : agent_ok w) by apply agent_ok_run, end_process_ok. split; [|apply (ok_tasks w Hok)].
  intros other a b Ea Eb Hne. split; [by eapply (ok_exclusive w Hok job other)|].
  eapply (ok_exclusive w Hok other job); [done..|by apply not_eq_sym].
Qed.

(** The replay cache holds at most 512 commands and 8 MiB of outputs in every run,
    each command once and with at most 1 MiB; its byte count is exact. *)
Theorem replay_cache_bounded w0 events (c := recent_commands (w_runtime (agent_run (end_process w0) events))) :
  vec_len (order c) <= 512 /\ NoDup (order c) /\ (forall id, id ∈ order c <-> is_Some (entries c !! id)) /\
  current_output_bytes c = total_output_bytes (entries c) (order c) /\ current_output_bytes c <= 8 * 1024 * 1024 /\
  forall id e, entries c !! id = Some e -> re_output_bytes e = sequenced_command_outputs_bytes (re_outputs e) /\ re_output_bytes e <= 1024 * 1024.
Proof.
  destruct (ok_recent _ (agent_ok_run _ events (end_process_ok w0))) as (Hwf & Hn & Hb). fold c in Hwf, Hn, Hb.
  pose proof (recent_limits c Hwf) as El. rewrite El in Hn, Hb. cbn in Hn, Hb.
  split; [done|]. split; [apply Hwf|]. split; [apply Hwf|]. split; [apply Hwf|]. split; [done|].
  intros id e He. destruct (recent_entries c Hwf id e He) as (E & Hle & _). split; [done|exact Hle].
Qed.
End OnceProofs.

(** * Accepted configurations *)

Section Accepted.
Context `{AgentPlatformLaws}.

Definition is_restart (event : AgentEvent) : bool := match event with Restart _ _ => true | _ => false end.

Definition accepted_version (w : World) : option Z := accepted_runtime_config_version (w_runtime w).

Lemma version_le_refl v : version_le v v.
Proof. destruct v; cbn; [lia|done]. Qed.

Lemma version_le_trans a b c : version_le a b -> version_le b c -> version_le a c.
Proof. destruct a, b, c; cbn; try done. lia. Qed.

Lemma turn_accepted w event w' : agent_ok w -> turn w event w' ->
  version_le (accepted_version w) (accepted_version w') /\ w_up w' = w_up w.
Proof.
  unfold accepted_version. intros Hok [Hev|w1 Hi Hs|j outcome w1 _ Hf Hev _].
  - destruct (evolves_keeps _ _ Hev) as (_ & _ & _ & _ & -> & -> & _). split; [apply version_le_refl|done].
  - destruct (evolves_keeps _ _ (idle_evolves _ _ Hi)) as (_ & _ & _ & _ & <- & <- & _). destruct Hs. split; [apply version_le_refl|done].
  - destruct (evolves_keeps _ _ Hev) as (_ & _ & _ & _ & -> & -> & _).
    destruct Hf as [w task result a config accepted required pending cache Ht Ha Hset Hup]. cbn. split; [|done].
    destruct Hset as [|config rc version reason cache Hw Hv _]; [apply version_le_refl|].
    by destruct (ok_sync w Hok _ _ _ _ _ _ Ht Hw) as (_ & Hle & _).
Qed.

Lemma step_accepted w event : agent_ok w -> is_restart event = false -> w_up (agent_step w event) = true ->
  version_le (accepted_version w) (accepted_version (agent_step w event)) /\ w_up w = true.
Proof.
  intros Hok Hr Hup. destruct (forgetful event) eqn:Hf.
  - destruct event; try discriminate Hf; try discriminate Hr. cbn [agent_step] in *.
    destruct (command_ledger (w_runtime w)) as [ledger|]; [|split; [apply version_le_refl|done]].
    destruct (on_ledger_keeps (cleanup_turn ledger) w) as [d E].
    destruct (on_ledger _ w) as [[[]|e] w']; cbn [snd] in E; subst w'; [|discriminate Hup]. split; [apply version_le_refl|done].
  - destruct (turn_accepted _ _ _ Hok (agent_step_turns w event Hok Hf)) as [Hle E]. by rewrite E in Hup.
Qed.

Lemma run_accepted w events : agent_ok w -> forallb (fun event => negb (is_restart event)) events = true ->
  w_up (agent_run w events) = true -> version_le (accepted_version w) (accepted_version (agent_run w events)) /\ w_up w = true.
Proof.
  revert w. induction events as [|event events IH]; intros w Hok Hr Hup; [split; [apply version_le_refl|done]|].
  cbn in Hr. apply andb_true_iff in Hr as [Hr1 Hr2]. apply negb_true_iff in Hr1.
  destruct (IH (agent_step w event) (agent_ok_step w event Hok) Hr2 Hup) as [Hle Hup1].
  destruct (step_accepted w event Hok Hr1 Hup1) as [Hle1 Hup0]. split; [by eapply version_le_trans|done].
Qed.

(** While the process lives, the version of the accepted configuration never goes
    back, however synchronisations of other versions are requested, run, fail, are
    repeated or time out. *)
Theorem accepted_version_never_decreases w0 before events (w := agent_run (end_process w0) before) (w' := agent_run w events) :
  forallb (fun event => negb (is_restart event)) events = true -> w_up w' = true ->
  version_le (accepted_runtime_config_version (w_runtime w)) (accepted_runtime_config_version (w_runtime w')).
Proof. intros Hr Hup. apply run_accepted; [apply agent_ok_run, end_process_ok|done..]. Qed.

(** The accepted configuration is the one in force and the one on disk. *)
Definition cached (m : Directory) : option AgentRuntimeConfig := cached_text m ≫= config_parse.

Record cache_ok (w : World) : Prop := {
  cache_there : w_up w = true -> is_Some (runtime_config_cache (w_runtime w));
  cache_accepted v : accepted_version w = Some v ->
    exists rc, rcfg_version rc = v /\ w_config w = apply_to_agent_config rc (w_config w) /\
      (config_parse (config_text rc) = Some rc -> cached (files (w_cache w)) = Some rc);
}.

Lemma apply_twice rc config : apply_to_agent_config rc (apply_to_agent_config rc config) = apply_to_agent_config rc config.
Proof. by destruct rc, config. Qed.

Lemma cache_ok_same w w' : cache_ok w -> w_config w' = w_config w -> w_cache w' = w_cache w -> w_up w' = w_up w ->
  accepted_runtime_config_version (w_runtime w') = accepted_runtime_config_version (w_runtime w) ->
  runtime_config_cache (w_runtime w') = runtime_config_cache (w_runtime w) -> cache_ok w'.
Proof.
  intros [Ht Ha] E1 E2 E3 E4 E5. split; [by rewrite E3, E5|]. unfold accepted_version in *. rewrite E1, E2, E4. exact Ha.
Qed.

Lemma cache_ok_turn w event w' : turn w event w' -> cache_ok w -> cache_ok w'.
Proof.
  intros [Hev|w1 Hi Hs|j outcome w1 _ Hf Hev _] Hok.
  - destruct (evolves_keeps _ _ Hev) as (_ & _ & E1 & E2 & E3 & E4 & E5). by eapply cache_ok_same.
  - destruct (evolves_keeps _ _ (idle_evolves _ _ Hi)) as (_ & _ & E1 & E2 & E3 & E4 & E5).
    assert (Hok1 : cache_ok w1) by by eapply cache_ok_same. destruct Hs. by eapply cache_ok_same.
  - destruct (evolves_keeps _ _ Hev) as (_ & _ & E1 & E2 & E3 & E4 & E5). eapply cache_ok_same; [|done..]. clear Hev E1 E2 E3 E4 E5.
    destruct Hf as [w task result a config accepted required pending cache Ht Ha Hset Hup]. destruct Hok as [Hc Hacc].
    split; [exact Hc|]. unfold accepted_version in *. cbn. destruct Hset as [cache E|config rc version reason cache Hw Hv Hst].
    + unfold cached. rewrite E. exact Hacc.
    + intros v [= <-]. exists rc. split; [done|]. split; [by rewrite apply_twice|]. intros Hp. unfold cached.
      by rewrite Hst by auto.
Qed.

Lemma load_files cache d : files (snd (cache_load cache d)) = files d.
Proof.
  unfold cache_load, read_file, if_fault, act_get, mbind, act_bind, mret, act_ret, act_fail. cbn.
  destruct (files d !! _); [|done]. destruct (hd false _); cbn; [done|]. by repeat (case_match; cbn).
Qed.

Lemma load_is_cached cache d rc : fst (cache_load cache d) = Ok (Some rc) -> cached (files d) = Some rc.
Proof.
  unfold cache_load, read_file, if_fault, act_get, mbind, act_bind, mret, act_ret, act_fail, cached, cached_text. cbn.
  destruct (files d !! _) as [file|]; [|done]. destruct (hd false _); cbn; [done|].
  destruct (cache_record_parse (file_bytes file)) as [r|]; cbn; [|done].
  destruct (_ =? _); cbn; [|done]. destruct (str_eqb _ _); cbn; [|done].
  destruct (config_parse _); cbn; [|done]. by intros [= ->].
Qed.

(** A start that fails leaves the process down; one that succeeds has loaded the
    configuration on disk. *)
Lemma start_agent_loads config failed w (w' := snd (start_agent config failed (end_process w))) :
  (w_up w' = false /\ accepted_version w' = None) \/
  exists cache d, files d = files (w_cache w) /\ (disk_faults (w_cache w) = [] -> disk_faults d = []) /\
    files (w_cache w') = files (w_cache w) /\ is_Some (runtime_config_cache (w_runtime w')) /\
    (w_config w', accepted_version w') = load_accepted config (fst (cache_load cache d)).
Proof.
  unfold w', start_agent. rewrite act_bind_eq. destruct (on_ledger_keeps (open_at (lit "command-ledger")) (end_process w)) as [l1 E1].
  destruct (on_ledger _ _) as [[ledger|e] w1]; cbn [snd] in E1; subst w1; [|by left].
  rewrite act_bind_eq. unfold on_cache, cache_open_at, if_fault. cbn [w_cache set_disks end_process set_session set_runtime set_tasks].
  destruct (hd false (disk_faults (w_cache w))); cbn [act_fail mret act_ret]; [by left|right].
  rewrite act_bind_eq. unfold try_act. cbn [w_cache set_disks].
  pose proof (load_files (mkCache (lit "runtime-config")) (drop_fault (w_cache w))) as Hf.
  exists (mkCache (lit "runtime-config")), (drop_fault (w_cache w)).
  destruct (cache_load _ _) as [r d]. cbn [snd fst] in *.
  destruct (load_accepted config r) as [config' version]. cbn. split; [done|]. split; [by intros ->|]. split; [done|]. split; [eauto|done].
Qed.

Lemma load_accepted_some config r config' v : load_accepted config r = (config', Some v) ->
  exists rc, r = Ok (Some rc) /\ rcfg_version rc = v /\ config' = apply_to_agent_config rc config.
Proof.
  unfold load_accepted. destruct r as [[rc|]|e]; [|done|done]. destruct (shape_ok _); [|done]. intros [= <- <-]. by exists rc.
Qed.

Lemma cache_ok_step w event : agent_ok w -> cache_ok w -> cache_ok (agent_step w event).
Proof.
  intros Hok Hc. destruct (forgetful event) eqn:Hf; [|by eapply cache_ok_turn, Hc; apply agent_step_turns].
  destruct event as [| | | | | | | | |config failed]; try discriminate Hf; cbn [agent_step].
  - destruct (command_ledger (w_runtime w)) as [ledger|]; [|done]. destruct (on_ledger_keeps (cleanup_turn ledger) w) as [d E].
    destruct (on_ledger _ w) as [[[]|e] w']; cbn [snd] in E; subst w'; [by eapply cache_ok_same|]. by split.
  - destruct (start_agent_loads config failed w) as [[Hup Ha]|(cache & d & Hd & _ & Hfiles & Hsome & Hload)].
    + split; [by rewrite Hup|]. intros v. by rewrite Ha.
    + split; [done|]. intros v Hv. rewrite Hv in Hload. symmetry in Hload.
      destruct (load_accepted_some _ _ _ _ Hload) as (rc & Hr & Hver & Hconf). exists rc. split; [done|].
      split; [by rewrite Hconf, apply_twice|]. intros _. rewrite Hfiles, <- Hd. by eapply load_is_cached.
Qed.

Lemma cache_ok_run w events : agent_ok w -> cache_ok w -> cache_ok (agent_run w events).
Proof.
  revert w. induction events as [|event events IH]; intros w Hok Hc; [done|].
  change (agent_run w (event :: events)) with (agent_run (agent_step w event) events).
  apply IH; [by apply agent_ok_step|by apply cache_ok_step].
Qed.

Lemma load_from_cached cache d rc : disk_faults d = [] -> cached (files d) = Some rc -> fst (cache_load cache d) = Ok (Some rc).
Proof.
  intros Hq. unfold cache_load, read_file, if_fault, act_get, mbind, act_bind, mret, act_ret, act_fail, cached, cached_text. cbn.
  destruct (files d !! _) as [file|]; [|done]. rewrite Hq. cbn.
  destruct (cache_record_parse (file_bytes file)) as [r|]; cbn; [|done].
  destruct (_ =? _); cbn; [|done]. destruct (str_eqb _ _); cbn; [|done].
  destruct (config_parse _); cbn; [|done]. by intros [= ->].
Qed.

(** C10: An accepted configuration is in force and survives a restart: a process that
    starts, can read its cache and finds the configuration valid over its own
    file runs it, and asks for no authoritative synchronisation. *)
Theorem accepted_config_survives_restart w0 events v (w := agent_run (end_process w0) events) :
  accepted_runtime_config_version (w_runtime w) = Some v ->
  exists rc, rcfg_version rc = v /\ w_config w = apply_to_agent_config rc (w_config w) /\
    forall config failed (w' := agent_step w (Restart config failed)),
      config_parse (config_text rc) = Some rc -> disk_faults (w_cache w) = [] ->
      shape_ok (apply_to_agent_config rc config) = Ok tt -> w_up w' = true ->
      w_config w' = apply_to_agent_config rc config /\ accepted_runtime_config_version (w_runtime w') = Some v.
Proof.
  intros Hv. assert (Hc : cache_ok w) by (apply cache_ok_run; [apply end_process_ok|by split]).
  destruct (cache_accepted w Hc v Hv) as (rc & Hver & Hconf & Hdisk). exists rc. split; [done|]. split; [done|].
  intros config failed w' Hp Hq Hs Hup.
  destruct (start_agent_loads config failed w) as [[Hdown _]|(cache & d & Hd & Hqd & _ & _ & Hload)];
    [unfold w' in Hup; cbn [agent_step] in Hup; congruence|].
  rewrite (load_from_cached cache d rc) in Hload; [|by apply Hqd|rewrite Hd; by apply Hdisk].
  unfold load_accepted in Hload. rewrite Hs in Hload. injection Hload as E1 E2. unfold accepted_version in E2.
  unfold w'. cbn [agent_step]. by rewrite E1, E2, Hver.
Qed.
End Accepted.

(** * Outputs in order *)

Section Outputs.
Context `{AgentPlatformLaws}.

(** Output frames of a stream from a sequence number on. *)
Definition output_frames (stream seq : Z) (outputs : list SequencedCommandOutput) : list SentFrame :=
  imap (fun i output => mkSent Frame.CommandOutput stream (seq + Z.of_nat i) (OutputPayload output)) outputs.

Lemma flush_outputs_exact job stream pending w a : w_active w !! job = Some a -> pending_outputs a = pending ->
  exists sent rest, pending = sent ++ rest /\
    let '(r, w') := flush_outputs job stream pending w in
    w_active w' = <[ job := with_pending rest a ]> (w_active w) /\
    w_sent w' = w_sent w ++ output_frames stream (w_seq w) sent /\ w_seq w' = w_seq w + vec_len sent /\
    (r = Ok tt <-> rest = []).
Proof.
  revert w a. induction pending as [|output rest IH]; intros w a Ha Hp; cbn [flush_outputs].
  { exists [], []. cbn. rewrite app_nil_r. split; [done|]. split; [|unfold vec_len; cbn; split; [done|split; [lia|done]]].
    rewrite insert_id; [done|]. rewrite Ha. f_equal. rewrite <- Hp. by destruct a. }
  rewrite act_bind_eq. unfold send_counted at 1. rewrite act_bind_eq. unfold send_json_frame.
  destruct (hd false (w_send_faults w)).
  { exists [], (output :: rest). cbn. rewrite app_nil_r. split; [done|]. split; [|unfold vec_len; cbn; split; [done|split; [lia|done]]].
    rewrite insert_id; [done|]. rewrite Ha. f_equal. rewrite <- Hp. by destruct a. }
  cbn [act_modify]. rewrite act_bind_eq. unfold on_active, on_runtime, act_modify.
  match goal with |- context [flush_outputs job stream rest ?x] => set (w1 := x) end.
  assert (E1 : w_active w1 = alter (with_pending rest) job (w_active w)) by done.
  destruct (IH w1 (with_pending rest a)) as (sent & left & E & Hrest); [by rewrite E1, lookup_alter_eq, Ha|done|].
  exists (output :: sent), left. split; [by rewrite E|].
  destruct (flush_outputs job stream rest w1) as [r w']. destruct Hrest as (H1 & H2 & H3 & H4).
  split; [|split; [|split; [|done]]].
  - rewrite H1, E1. apply map_eq. intros k. destruct (decide (job = k)) as [<-|Hne].
    + by rewrite !lookup_insert_eq.
    + by rewrite !lookup_insert_ne, lookup_alter_ne by done.
  - rewrite H2. cbn [w_sent set_seq set_sent set_runtime w1 w_seq]. rewrite <- app_assoc. f_equal. unfold output_frames.
    rewrite imap_cons, Z.add_0_r. cbn [app]. f_equal. apply imap_ext. intros i x _. unfold compose. by rewrite Nat2Z.inj_succ, <- Z.add_1_l, Z.add_assoc.
  - rewrite H3. cbn [w_seq set_seq set_sent set_runtime w1]. unfold vec_len. cbn [length]. lia.
Qed.

(** Outputs leave in order: in every run the queued outputs of a command carry
    consecutive numbers (up to [i32::MAX], where they stay), and a flush sends a
    front part of the queue, in order and under consecutive frame numbers, keeps
    exactly the rest queued, and succeeds just when nothing is left. *)
Theorem outputs_sent_in_order w0 events job a (w := agent_run (end_process w0) events) :
  w_active w !! job = Some a ->
  (exists k, 0 <= k /\ map sq_seq (pending_outputs a) = numbers k (length (pending_outputs a)) /\
     next_output_seq a = Z.min i32_max (k + vec_len (pending_outputs a))) /\
  exists sent rest, pending_outputs a = sent ++ rest /\
    let '(r, w') := flush_pending_command_outputs job w in
    w_active w' = <[ job := with_pending rest a ]> (w_active w) /\
    w_sent w' = w_sent w ++ output_frames (active_stream_id a) (w_seq w) sent /\ (r = Ok tt <-> rest = []).
Proof.
  intros Ha. assert (Hok : agent_ok w) by apply agent_ok_run, end_process_ok.
  split; [apply (queue_pending a (ok_queues w Hok job a Ha))|].
  destruct (flush_outputs_exact job (active_stream_id a) (pending_outputs a) w a Ha eq_refl) as (sent & rest & E & Hf).
  exists sent, rest. split; [done|]. unfold flush_pending_command_outputs. rewrite act_bind_eq. cbn [act_get]. rewrite Ha.
  destruct (flush_outputs _ _ _ w) as [r w']. tauto.
Qed.
End Outputs.

(** * A platform *)

(** The laws can hold: requests and records as lists of their fields. *)
Definition runtime_config_ex : AgentRuntimeConfig :=
  mkRuntimeConfig 7 backup_default update_default execution_default telemetry_default network_default 30.
Definition command_ex (code : Z) : JobCommand :=
  match code with
  | 0 => UserSessions
  | 1 => RuntimeConfigSync 7 (lit "config_saved") runtime_config_ex
  | _ => AgentRestart
  end.

Definition agent_platform_ex : AgentPlatform :=
  {| agent_platform := platform_ex; command_json := fun _ => [];
     wire_parse := fun bytes => match bytes with
                                | [job; code] =>
                                    Some (mkWire job (job_command_dispatch_protocol_version (command_ex code)) (json_int code) 60)
                                | _ => None
                                end;
     command_of_value := fun v => match v with Num (PosInt code) => Ok (command_ex code) | _ => Err (lit "command") end;
     config_value := fun _ => Object []; config_text := fun _ => lit "text"; config_parse := fun _ => Some runtime_config_ex;
     cache_record_json := fun r => cr_schema_version r :: vec_len (cr_content_hash r) :: cr_content_hash r ++ cr_config_json r;
     cache_record_parse := fun bytes =>
       match bytes with
       | v :: n :: rest => Some (mkCacheRecord v (take (Z.to_nat n) rest) (drop (Z.to_nat n) rest))
       | _ => None
       end;
     decompress := fun _ => Err (lit "lz4");
     hex_decode := fun s => if str_len s =? 64 then Some (repeat 17 32) else None; base64_decode := fun _ => None;
     x25519_public := fun key => key; rules_json := fun _ => []; key_order := fun l => l |}.

Lemma agent_platform_ex_laws : AgentPlatformLaws agent_platform_ex.
Proof.
  split; [exact platform_ex_laws| |done].
  intros [v h j]. cbn -[Z.of_nat]. unfold vec_len. by rewrite Nat2Z.id, take_app_length, drop_app_length.
Qed.

Definition request_ex (job code : Z) : AgentEvent := CommandFrame (frame_new Command 3 0 [job; code]).
Definition world_ex : World :=
  mkWorld agent_config_default runtime_default (mkDisk ∅ 100 [] [1; 2; 3; 4; 5; 6] false) (mkDisk ∅ 100 [] [1; 2; 3; 4; 5; 6] false)
    ∅ [] false false 0 [] [].
Definition started_ex : list AgentEvent := [Restart agent_config_default ∅; Connect (mkInspections (Ok (snapshot_of StatusUnknown None)) [] false) []].

#[local] Abbreviation run_ex := (agent_run (H := agent_platform_ex) (end_process world_ex)).
#[local] Abbreviation done_ex := (CommandEnded (Ok [mkCommandOutput 1 Stdout [104] (Some 0) true])).
#[local] Abbreviation sync_done_ex := (SyncEnded (SyncReturned (mkSyncInputs [] (Ok Null) [] [])) None).

(** Requested while it runs and after it has ended, the job is started once. *)
Lemma job_started_once_witness :
  (count_occ Z.eq_dec
     (w_spawned (agent_run (H := agent_platform_ex) (run_ex started_ex)
        [request_ex 1 0; request_ex 1 0; TaskFinished 1 done_ex; request_ex 1 0])) 1%Z <= 1)%nat.
Proof.
  refine (Nat.le_trans _ _ _ (proj1 (job_started_once (H := agent_platform_ex_laws) world_ex started_ex
    [request_ex 1 0; request_ex 1 0; TaskFinished 1 done_ex; request_ex 1 0] 1)) _).
  vm_compute. reflexivity.
Defined.

(** Two commands that may run side by side do; neither is exclusive. *)
Lemma exclusive_runs_alone_witness :
  exists a b, w_active (run_ex (started_ex ++ [request_ex 1 0; request_ex 3 2; request_ex 2 0])) !! 1%Z = Some a /\
    w_active (run_ex (started_ex ++ [request_ex 1 0; request_ex 3 2; request_ex 2 0])) !! 2%Z = Some b /\
    active_safety a <> Exclusive /\ active_safety b <> Exclusive.
Proof.
  pose (w := run_ex (started_ex ++ [request_ex 1 0; request_ex 3 2; request_ex 2 0])).
  destruct (w_active w !! 1%Z) as [a|] eqn:Ea; [|vm_compute in Ea; discriminate Ea].
  destruct (w_active w !! 2%Z) as [b|] eqn:Eb; [|vm_compute in Eb; discriminate Eb].
  exists a, b. split; [exact Ea|]. split; [exact Eb|].
  exact (proj1 (exclusive_runs_alone (H := agent_platform_ex_laws) world_ex _ 1) 2 a b Ea Eb ltac:(discriminate)).
Defined.

Lemma replay_cache_bounded_witness :
  vec_len (order (recent_commands (w_runtime (run_ex (started_ex ++ [request_ex 1 0; TaskFinished 1 done_ex]))))) <= 512.
Proof.
  exact (proj1 (replay_cache_bounded (H := agent_platform_ex_laws) world_ex (started_ex ++ [request_ex 1 0; TaskFinished 1 done_ex]))).
Defined.

Lemma accepted_version_never_decreases_witness :
  version_le (Some 7)
    (accepted_runtime_config_version (w_runtime (agent_run (H := agent_platform_ex)
       (run_ex (started_ex ++ [request_ex 1 1; TaskFinished 1 sync_done_ex])) [request_ex 2 1; TaskFinished 2 sync_done_ex]))).
Proof.
  apply (accepted_version_never_decreases (H := agent_platform_ex_laws) world_ex
           (started_ex ++ [request_ex 1 1; TaskFinished 1 sync_done_ex]) [request_ex 2 1; TaskFinished 2 sync_done_ex]);
    vm_compute; reflexivity.
Defined.

Lemma accepted_config_survives_restart_witness :
  exists rc, rcfg_version rc = 7 /\
    w_config (run_ex (started_ex ++ [request_ex 1 1; TaskFinished 1 sync_done_ex]))
    = apply_to_agent_config rc (w_config (run_ex (started_ex ++ [request_ex 1 1; TaskFinished 1 sync_done_ex]))).
Proof.
  destruct (accepted_config_survives_restart (H := agent_platform_ex_laws) world_ex
              (started_ex ++ [request_ex 1 1; TaskFinished 1 sync_done_ex]) 7) as (rc & Hv & Hc & _); [vm_compute; reflexivity|].
  exists rc. split; [exact Hv|exact Hc].
Defined.

(** The send of the first output fails; it stays queued. *)
Definition lossy_ex : World := set_sent [] [false; false; true] world_ex.
Definition reported_ex : list AgentEvent :=
  started_ex ++ [request_ex 1 0; TaskOutput (mkCommandOutput 1 Stdout [104] None false)].

Lemma outputs_sent_in_order_witness :
  exists a, w_active (agent_run (H := agent_platform_ex) (end_process lossy_ex) reported_ex) !! 1%Z = Some a /\
    length (pending_outputs a) = 1%nat /\
    exists k, 0 <= k /\ map sq_seq (pending_outputs a) = numbers k (length (pending_outputs a)) /\
      next_output_seq a = Z.min i32_max (k + vec_len (pending_outputs a)).
Proof.
  destruct (w_active (agent_run (H := agent_platform_ex) (end_process lossy_ex) reported_ex) !! 1%Z) as [a|] eqn:Ea;
    [|vm_compute in Ea; discriminate Ea].
  exists a. split; [reflexivity|]. split; [vm_compute in Ea; injection Ea as <-; reflexivity|].
  exact (proj1 (outputs_sent_in_order (H := agent_platform_ex_laws) lossy_ex reported_ex 1 a Ea)).
Defined.
