(* ===== verification/AgentTunnelSyncProofs.v ===== *)
(** What a synchronisation of the runtime configuration promises: one that is
    reported as applied brought every desired tunnel about and removed every
    other one. *)

From stdpp Require Import base list.
From Stdlib Require Import SpecFloat.
From S2P Require Import Prelude RustStd Json F64 Net PortForwarding NftRender NftReconcile TunnelModels ConfigModels ConfigValidation ConfigProofs JobCommands CommandLedger CommandLedgerProofs AgentCommands AgentTunnelSync AgentHandlers AgentCommandProofs AgentRunProofs AgentTheorems.

Open Scope Z_scope.

#[local] Arguments lit : simpl never.

(** * Matching snapshots *)

Definition is_zero (x : spec_float) : bool := match x with S754_zero _ => true | _ => false end.

Lemma SFeqb_cases x y : SFeqb x y = true -> is_zero x = true /\ is_zero y = true \/ x = y /\ is_zero x = false.
Proof.
  unfold SFeqb, SFcompare. destruct x as [s|s| |s m e], y as [s'|s'| |s' m' e']; cbn; try done; try (destruct s; done); try (destruct s'; done).
  - by left.
  - destruct s, s'; try done; by right.
  - destruct s, s'; try done; destruct (Z.compare_spec e e'); try done; subst;
      destruct (Pos.compare_cont Eq m m') eqn:E; cbn; try done; apply Pos.compare_eq in E; subst; by right.
Qed.

Lemma SFeqb_sym x y : SFeqb x y = true -> SFeqb y x = true.
Proof.
  intros H. destruct (SFeqb_cases x y H) as [[Hx Hy]|[-> _]]; [|done]. destruct x, y; try discriminate Hx; try discriminate Hy. done.
Qed.

Lemma SFeqb_trans x y z : SFeqb x y = true -> SFeqb y z = true -> SFeqb x z = true.
Proof.
  intros H1 H2. destruct (SFeqb_cases x y H1) as [[Hx Hy]|[-> _]]; [|done].
  destruct (SFeqb_cases y z H2) as [[_ Hz]|[<- Hy']]; [|congruence]. destruct x, z; try discriminate Hx; try discriminate Hz. done.
Qed.

(** Tests that are symmetric and transitive. *)
Class PartialEqb {A} (eqb : A -> A -> bool) : Prop := {
  eqb_sym x y : eqb x y = true -> eqb y x = true;
  eqb_trans x y z : eqb x y = true -> eqb y z = true -> eqb x z = true;
}.

#[export] Instance SFeqb_partial : PartialEqb SFeqb.
Proof. split; [exact SFeqb_sym|exact SFeqb_trans]. Qed.
#[export] Instance Zeqb_partial : PartialEqb Z.eqb.
Proof. split; [intros x y|intros x y z]; rewrite !Z.eqb_eq; congruence. Qed.
#[export] Instance decide_partial {A B} `{EqDecision B} (f : A -> B) : PartialEqb (fun x y => bool_decide (f x = f y)).
Proof. split; [intros x y|intros x y z]; rewrite !bool_decide_eq_true; congruence. Qed.
#[export] Instance pullback_partial {A B} (eqb : B -> B -> bool) (f : A -> B) : PartialEqb eqb -> PartialEqb (fun x y => eqb (f x) (f y)).
Proof. intros He. split; [intros x y; apply eqb_sym|intros x y z; apply eqb_trans]. Qed.
#[export] Instance andb_partial {A} (p q : A -> A -> bool) : PartialEqb p -> PartialEqb q -> PartialEqb (fun x y => p x y && q x y).
Proof.
  intros Hp Hq. split; [intros x y|intros x y z]; rewrite !andb_true_iff; intros [] *; [split; by apply eqb_sym|].
  intros []. split; by eapply eqb_trans.
Qed.
#[export] Instance option_partial {A} (eqb : A -> A -> bool) : PartialEqb eqb -> PartialEqb (option_eqb eqb).
Proof.
  intros He. split; [intros [x|] [y|]|intros [x|] [y|] [z|]]; cbn; try done; [apply eqb_sym|apply eqb_trans].
Qed.

#[export] Instance policy_partial : PartialEqb policy_eqb.
Proof. unfold policy_eqb. apply _. Qed.
#[export] Instance ospf_partial : PartialEqb ospf_eqb.
Proof. unfold ospf_eqb. apply _. Qed.
#[export] Instance snapshots_partial : PartialEqb runtime_tunnel_snapshots_match.
Proof. unfold runtime_tunnel_snapshots_match. apply _. Qed.

(** No two snapshots of a list match. *)
Definition distinct_snapshots (l : list AgentRuntimeStatusTelemetryPlan) : Prop :=
  ForallOrdPairs (fun a b => runtime_tunnel_snapshots_match a b = false) l.

(** Of a list without matching snapshots, one-sided containment and equal length
    are enough. *)
Lemma sets_match_all l r : distinct_snapshots l -> runtime_tunnel_snapshot_sets_match l r = true ->
  forall new, In new r -> exists old, In old l /\ runtime_tunnel_snapshots_match old new = true.
Proof.
  unfold runtime_tunnel_snapshot_sets_match. rewrite andb_true_iff, Z.eqb_eq, forallb_forall. intros Hd [Hlen Hall].
  assert (Hn : length l = length r) by (unfold vec_len in Hlen; lia). clear Hlen. revert r Hn Hall.
  induction Hd as [|old l Hold _ IH]; intros r Hn Hall new Hnew; [destruct r; [destruct Hnew|discriminate Hn]|].
  destruct (proj1 (existsb_exists _ _) (Hall old (or_introl eq_refl))) as (new0 & Hin0 & Hm0).
  destruct (in_split new0 r Hin0) as (r1 & r2 & ->).
  apply in_app_or in Hnew. cbn in Hnew.
  assert (Hnew' : new = new0 \/ In new (r1 ++ r2)) by (rewrite in_app_iff; naive_solver). clear Hnew.
  destruct Hnew' as [->|Hnew]; [exists old; split; [by left|done]|].
  destruct (IH (r1 ++ r2)) with (new := new) as (o & Ho & Hm); [| |done|exists o; split; [by right|done]].
  - cbn in Hn. rewrite length_app in *. cbn in Hn. lia.
  - intros o Ho. destruct (proj1 (existsb_exists _ _) (Hall o (or_intror Ho))) as (new1 & Hin1 & Hm1).
    apply existsb_exists. exists new1. split; [|done]. rewrite in_app_iff in *. destruct Hin1 as [|[<-|]]; [by left| |by right].
    exfalso. rewrite Forall_forall in Hold. specialize (Hold o). rewrite list_elem_of_In in Hold. specialize (Hold Ho).
    assert (runtime_tunnel_snapshots_match old o = true) by (eapply eqb_trans; [exact Hm0|by apply eqb_sym]). congruence.
Qed.

Lemma control_identity_refl c : runtime_tunnel_control_identity_matches c c = true.
Proof. unfold runtime_tunnel_control_identity_matches. destruct (rc_manager c); by rewrite ?bool_decide_true. Qed.

(** Matching snapshots are of the same tunnel. *)
Lemma match_identity l r : runtime_tunnel_snapshots_match l r = true -> runtime_tunnel_identity_matches l r = true.
Proof.
  unfold runtime_tunnel_snapshots_match. rewrite andb_true_iff, bool_decide_eq_true. intros [E _].
  destruct l as [li lt le ls lp lb la ll], r as [ri rt re rs rp rb ra rl]. destruct lp, rp. injection E as. subst.
  unfold runtime_tunnel_identity_matches, runtime_adapter_execution_matches, runtime_tunnel_underlay_identity_matches. cbn.
  destruct (bool_decide (rc_manager _ = AgentBuiltin) && _); repeat (apply andb_true_intro; split);
    by (reflexivity || apply str_eqb_refl || apply bool_decide_eq_true || apply Z.eqb_refl || apply control_identity_refl).
Qed.

(** * Calls and answers *)

Abbreviation Tunnel := AgentRuntimeStatusTelemetryPlan.

(** The first [n] calls were answered, with reports that pass the test. *)
Definition answered (ok : Value -> bool) (n : nat) (answers : list (result Error Value)) : Prop :=
  forall i, (i < n)%nat -> exists report, nth i answers (Ok Null) = Ok report /\ ok report = true.

Lemma answered_cons ok n answers report : hd (Ok Null) answers = Ok report -> ok report = true ->
  answered ok n (tl answers) -> answered ok (S n) answers.
Proof.
  intros Hh Ho Ha [|i] Hi; [exists report; by destruct answers|]. destruct (Ha i) as (r & Hr & Hok); [lia|]. exists r.
  split; [|done]. rewrite <- Hr. destruct answers; [by destruct i|done].
Qed.

Definition not_failed (report : Value) : bool := negb (report_failed report).

Lemma summary_status trigger id report error : report_status (runtime_reconcile_summary trigger id report error) = report_status report.
Proof.
  unfold report_status, runtime_reconcile_summary, field. cbv zeta. cbn -[json_get lit failed_commands hook_results].
  change (json_get (json_object _) (lit "status")) with (Some (default Null (json_get report (lit "status")))).
  by destruct (json_get report (lit "status")).
Qed.

Lemma removal_ok_answer t answer : removal_ok (removal_summary t answer) = true ->
  exists report, answer = Ok report /\ removal_ok report = true.
Proof.
  unfold removal_ok. destruct answer as [report|error]; cbn [removal_summary]; rewrite summary_status; [by exists report|].
  by vm_compute.
Qed.

(** The removals ran to their end: every stale tunnel was removed, in order. *)
Lemma remove_stale_done stale checks answers calls reports checks' :
  remove_stale stale checks answers = (calls, Ok reports, checks') ->
  calls = map RemoveTunnel stale /\
  (existsb (fun removal => negb (removal_ok removal)) reports = false -> answered removal_ok (length stale) answers).
Proof.
  revert checks answers calls reports checks'. induction stale as [|t stale IH]; intros checks answers calls reports checks'; cbn.
  - intros [= <- <- <-]. split; [done|]. intros _ i Hi. lia.
  - destruct (check_sync (hd None checks)); [|done].
    destruct (remove_stale stale (tl checks) (tl answers)) as [[calls1 [reports1|e]] checks1] eqn:E; cbn; [|done].
    intros [= <- <- <-]. destruct (IH _ _ _ _ _ E) as [-> Ha]. split; [done|]. cbn. intros [Hh Ht]%orb_false_iff.
    apply negb_false_iff, removal_ok_answer in Hh as (report & Hh & Hok). by eapply answered_cons, Ha.
Qed.


Lemma field_status report : as_str (field report "status") = report_status report.
Proof. unfold field, report_status. by destruct (json_get report (lit "status")). Qed.

Lemma add_report_failed summary report n :
  failed (add_report summary report n) = failed n + (if report_failed report then 1 else 0).
Proof.
  unfold add_report, report_failed. rewrite field_status. unfold str_eqb.
  destruct (report_status report) as [s|]; [|rewrite !bool_decide_false by done; cbn; lia]. cbn [default from_option id].
  destruct (decide (s = lit "failed")) as [->|Hne]; [rewrite (bool_decide_true (Some _ = _)) by done; repeat case_bool_decide; cbn; (lia || done)|].
  rewrite (bool_decide_false (Some s = _)) by congruence. repeat case_bool_decide; cbn; lia || done.
Qed.

(** The tunnels the loop reconciles. *)
Definition touched (unchanged plans : list Tunnel) : list Tunnel :=
  List.filter (fun t => negb (is_unchanged unchanged t)) plans.

(** A loop that counts no failure was not canceled and every executor succeeded. *)
Lemma reconcile_loop_counts trigger previous unchanged plans checks answers n :
  let '(calls, n') := reconcile_loop trigger previous unchanged plans checks answers n in
  failed n <= failed n' /\
  (failed n' = failed n ->
     calls = map (fun t => ReconcileTunnel t (previous_plan previous t)) (touched unchanged plans) /\
     answered not_failed (length (touched unchanged plans)) answers).
Proof.
  revert checks answers n. induction plans as [|t plans IH]; intros checks answers n; cbn [reconcile_loop touched List.filter].
  { split; [lia|]. intros _. split; [done|]. intros i Hi. cbn in Hi. lia. }
  destruct (is_unchanged unchanged t); cbn [negb]; [apply (IH checks answers (add_unchanged _ n))|].
  destruct (check_sync (hd None checks)); [|cbn; split; [lia|intros H; exfalso; lia]].
  set (n1 := match hd (Ok Null) answers with Ok report => add_report _ report n | Err error => _ end).
  specialize (IH (tl checks) (tl answers) n1). destruct (reconcile_loop _ _ _ plans _ _ n1) as [calls n2].
  destruct IH as [Hle IH]. assert (Hn1 : failed n <= failed n1 /\ (failed n1 = failed n -> exists report, hd (Ok Null) answers = Ok report /\ not_failed report = true)).
  { unfold n1. destruct (hd (Ok Null) answers) as [report|e]; [|cbn; split; [lia|intros H; exfalso; lia]].
    rewrite add_report_failed. unfold not_failed. destruct (report_failed report) eqn:E; split; [lia|lia|lia|].
    intros _. exists report. by rewrite E. }
  destruct Hn1 as [Hle1 Hn1]. split; [lia|]. intros E. destruct IH as [-> Ha]; [lia|]. destruct Hn1 as (report & Hh & Hok); [lia|].
  split; [done|]. cbn [length]. by eapply answered_cons.
Qed.

Lemma reconcile_done trigger previous unchanged config checks answers :
  let '(calls, report) := reconcile_configured_runtime_tunnels_with_previous trigger previous unchanged config checks answers in
  let plans := runtime_status_telemetry_plans (ac_network config) in
  report_failed report = false ->
  calls = map (fun t => ReconcileTunnel t (previous_plan previous t)) (touched unchanged plans) /\
  answered not_failed (length (touched unchanged plans)) answers.
Proof.
  unfold reconcile_configured_runtime_tunnels_with_previous. set (plans := runtime_status_telemetry_plans (ac_network config)).
  pose proof (reconcile_loop_counts trigger previous unchanged plans checks answers tally_default) as Hc.
  destruct (reconcile_loop _ _ _ plans _ _ _) as [calls n] eqn:El. destruct Hc as [Hle Hc]. cbn in Hle, Hc. cbv zeta.
  unfold report_failed, report_status.
  change (json_get (json_object _) (lit "status")) with (Some (Str (lit (reconcile_status (vec_len plans) n)))).
  cbn [mbind option_bind as_str]. rewrite bool_decide_eq_false. intros Hs. apply Hc.
  unfold reconcile_status in Hs. destruct (Z.eqb_spec (vec_len plans) 0) as [E|E].
  - destruct plans; [|unfold vec_len in E; cbn in E; lia]. by injection El as <- <-.
  - destruct (Z.ltb_spec 0 (failed n)); [done|lia].
Qed.

Definition is_remove (call : SyncCall) : bool := match call with RemoveTunnel _ => true | _ => false end.
Definition is_reconcile (call : SyncCall) : bool := match call with ReconcileTunnel _ _ => true | _ => false end.
Definition count_calls (kind : SyncCall -> bool) (calls : list SyncCall) : nat := length (List.filter kind calls).

Lemma count_app kind l l' : count_calls kind (l ++ l') = (count_calls kind l + count_calls kind l')%nat.
Proof. unfold count_calls. by rewrite List.filter_app, length_app. Qed.

Lemma count_map {A} kind (f : A -> SyncCall) l (b : bool) : (forall a, kind (f a) = b) ->
  count_calls kind (map f l) = if b then length l else 0%nat.
Proof. intros Hk. unfold count_calls. induction l as [|a l IH]; cbn; [by destruct b|]. rewrite Hk. destruct b; cbn; by rewrite IH. Qed.

Section Applied.
Context `{AgentPlatform} (config candidate : AgentConfig) (reason : str) (inputs : SyncInputs).
Let previous := runtime_status_telemetry_plans (ac_network config).
Let desired := runtime_status_telemetry_plans (ac_network candidate).

(** The calls of steps whose reports say that nothing failed. *)
Lemma steps_done_calls calls removals reconcile forwarding :
  sync_steps config candidate reason inputs = (calls, StepsDone removals reconcile forwarding) ->
  existsb (fun removal => negb (removal_ok removal)) removals = false -> report_failed reconcile = false ->
  exists fw, forwarding_step config candidate reason (in_forwarding inputs) = (fw, forwarding) /\
    let stale := stale_tunnels config candidate in
    let again := if tunnels_changed config candidate || tunnel_reapply reason
                 then touched (if tunnel_reapply reason then [] else previous) desired else [] in
    calls = fw ++ map RemoveTunnel stale ++ map (fun t => ReconcileTunnel t (previous_plan previous t)) again /\
    answered removal_ok (length stale) (in_removals inputs) /\ answered not_failed (length again) (in_reconciles inputs).
Proof.
  unfold sync_steps. destruct (forwarding_step _ _ _ _) as [fw fwd].
  destruct (remove_stale _ _ _) as [[calls2 [reports|e]] checks] eqn:Er; cbn [mbind result_bind]; [|done].
  destruct (check_sync (hd None checks)); cbn [mbind result_bind]; [|done].
  destruct (reconcile_step _ _ _ _ _) as [calls3 report] eqn:Ec. intros [= <- <- <- <-] Hr Hf. exists fw. split; [done|].
  destruct (remove_stale_done _ _ _ _ _ _ Er) as [-> Ha]. specialize (Ha Hr). unfold reconcile_step in Ec.
  destruct (tunnels_changed config candidate || tunnel_reapply reason).
  - pose proof (reconcile_done "runtime_config_sync" previous (if tunnel_reapply reason then [] else previous) candidate (tl checks)
                  (in_reconciles inputs)) as Hc. fold previous in Ec. rewrite Ec in Hc. by destruct (Hc Hf) as [-> Ha2].
  - injection Ec as <- <-. split; [done|]. split; [done|]. intros i Hi. cbn in Hi. lia.
Qed.

Lemma forwarding_only fw forwarding : forwarding_step config candidate reason (in_forwarding inputs) = (fw, forwarding) ->
  report_failed forwarding = false ->
  if port_forwarding_changed config candidate || port_forwarding_reapply reason
  then fw = [forwarding_call config candidate reason] /\ exists snapshot, in_forwarding inputs = Ok snapshot /\ not_failed snapshot = true
  else fw = [].
Proof.
  unfold forwarding_step. destruct (_ || _); [|by intros [= <- <-]]. intros [= <- <-] Hf. split; [done|].
  destruct (in_forwarding inputs) as [snapshot|e]; [|by vm_compute in Hf]. exists snapshot. unfold not_failed. by rewrite Hf.
Qed.

Lemma stale_spec t : In t previous ->
  In t (stale_tunnels config candidate) <-> forall new, In new desired -> runtime_tunnel_identity_matches t new = false.
Proof.
  intros Ht. unfold stale_tunnels. fold previous desired. rewrite filter_In, negb_true_iff.
  assert (Hno : existsb (runtime_tunnel_identity_matches t) desired = false <->
                forall new, In new desired -> runtime_tunnel_identity_matches t new = false).
  { rewrite <- not_true_iff_false, existsb_exists. split.
    - intros Hn new Hin. apply not_true_iff_false. intros Hm. apply Hn. by exists new.
    - intros Hn (new & Hin & Hm). rewrite Hn in Hm; done. }
  rewrite Hno, filter_In. split; [tauto|]. intros Hn. split; [|done]. split; [done|].
  unfold tunnels_changed. fold previous desired. apply negb_true_iff, not_true_iff_false. unfold runtime_tunnel_snapshot_sets_match.
  rewrite andb_true_iff, forallb_forall. intros [_ Hall].
  destruct (proj1 (existsb_exists _ _) (Hall t Ht)) as (new & Hin & Hm). apply match_identity in Hm. by rewrite Hn in Hm.
Qed.
End Applied.

(** C6: A synchronisation that reports its configuration as fully applied did all of
    it: every desired tunnel was reconciled, or matches a tunnel that was there and
    no reconciliation was asked for; a tunnel that was there was removed exactly
    when no desired tunnel is it; changed port forwarding was reconciled; and every
    one of these calls was answered, no answer being an error or a status "failed".
    The tunnels that were there are taken to be pairwise different: no tunnel is
    listed twice in the configuration in force. *)
Theorem applied_sync_converged `{AgentPlatform} job config rc version reason inputs sync
    (candidate := apply_to_agent_config rc config) (previous := runtime_status_telemetry_plans (ac_network config))
    (desired := runtime_status_telemetry_plans (ac_network candidate)) (calls := fst (sync_steps config candidate reason inputs)) :
  apply_runtime_config_sync_owned job config rc version reason inputs = Ok sync -> sync_fully_applied sync = true ->
  distinct_snapshots previous ->
  (forall t, In t desired ->
     In (ReconcileTunnel t (previous_plan previous t)) calls \/
     tunnel_reapply reason = false /\ exists old, In old previous /\ runtime_tunnel_snapshots_match old t = true) /\
  (forall t, In t previous ->
     In (RemoveTunnel t) calls <-> forall new, In new desired -> runtime_tunnel_identity_matches t new = false) /\
  answered removal_ok (count_calls is_remove calls) (in_removals inputs) /\
  answered not_failed (count_calls is_reconcile calls) (in_reconciles inputs) /\
  (port_forwarding_changed config candidate || port_forwarding_reapply reason = true ->
     In (forwarding_call config candidate reason) calls /\
     exists snapshot, in_forwarding inputs = Ok snapshot /\ not_failed snapshot = true).
Proof.
  unfold apply_runtime_config_sync_owned. intros Happ Hfull Hd.
  destruct (runtime_config_candidate config rc version) as [c|e] eqn:Ec; cbn [mbind result_bind] in Happ; [|done].
  apply candidate_ok in Ec as [_ ->]. fold candidate in Happ. destruct (sync_steps _ _ _ _) as [calls' steps] eqn:Es. cbn [fst] in calls.
  destruct steps as [removals reconcile forwarding|error]; cbn [snd] in Happ; [|done]. injection Happ as <-. cbn in Hfull.
  apply negb_true_iff, orb_false_iff in Hfull as [[Hr Hf]%orb_false_iff Hfw].
  destruct (steps_done_calls _ _ _ _ _ _ _ _ Es Hr Hf) as (fw & Hfs & Hcalls & Ha1 & Ha2).
  pose proof (forwarding_only _ _ _ _ _ _ Hfs Hfw) as Hfwd. clear Hfs.
  fold previous desired in Hcalls, Ha2.
  set (again := if tunnels_changed config candidate || tunnel_reapply reason
                then touched (if tunnel_reapply reason then [] else previous) desired else []) in *.
  assert (Hnofw : forall kind, kind = is_remove \/ kind = is_reconcile -> count_calls kind fw = 0%nat).
  { intros kind Hk. destruct (port_forwarding_changed _ _ || _); [destruct Hfwd as [-> _]|subst fw]; by destruct Hk as [->| ->]. }
  assert (Hmem : forall call, In call calls <-> In call fw \/ In call (map RemoveTunnel (stale_tunnels config candidate)) \/
                   In call (map (fun t => ReconcileTunnel t (previous_plan previous t)) again))
    by (intros call; unfold calls; rewrite Hcalls, !in_app_iff; done).
  split; [|split; [|split; [|split]]].
  - intros t Ht. rewrite Hmem, (in_map_iff (fun t => ReconcileTunnel t (previous_plan previous t))).
    destruct (existsb (fun old => runtime_tunnel_snapshots_match old t) (if tunnel_reapply reason then [] else previous)) eqn:Eu.
    + right. destruct (tunnel_reapply reason); [done|]. split; [done|]. apply existsb_exists in Eu. exact Eu.
    + destruct (tunnels_changed config candidate || tunnel_reapply reason) eqn:Eb.
      * left. right. right. exists t. split; [done|]. apply filter_In. split; [done|]. unfold is_unchanged. by rewrite Eu.
      * right. apply orb_false_iff in Eb as [Eb Er]. split; [done|]. unfold tunnels_changed in Eb. apply negb_false_iff in Eb.
        by apply (sets_match_all previous desired).
  - intros t Ht. etrans; [|exact (stale_spec config candidate t Ht)]. rewrite Hmem, !in_map_iff. split.
    + intros [Hin|[(x & [= ->] & Hx)|(x & Hx & _)]]; [|done|done]. exfalso.
      destruct (port_forwarding_changed _ _ || _); [destruct Hfwd as [-> _]; destruct Hin as [Hin|[]]; done|by subst fw].
    + intros Hs. right. left. by exists t.
  - unfold calls. rewrite Hcalls, !count_app, Hnofw, (count_map _ _ _ true), (count_map _ _ _ false) by auto. by rewrite Nat.add_0_r.
  - unfold calls. rewrite Hcalls, !count_app, Hnofw, (count_map _ _ _ false), (count_map _ _ _ true) by auto. done.
  - intros Eb. rewrite Eb in Hfwd. destruct Hfwd as [-> Hsnap]. split; [|done]. rewrite Hmem. left. by left.
Qed.

(** * Examples *)

(** Two tunnels that differ in the id of their plan. *)
Definition tunnel_ex (id : string) : Tunnel :=
  mkTelemetryPlan (Some (lit id)) (tp_topology_identity_hash telemetry_plan_ex) [] SideLeft (tp_plan telemetry_plan_ex) None None true.
Definition tunnels_config_ex (version : Z) (tunnels : list Tunnel) : AgentRuntimeConfig :=
  mkRuntimeConfig version backup_default update_default execution_default telemetry_default (with_plans tunnels network_default) 30.
Definition running_ex (tunnels : list Tunnel) : AgentConfig :=
  apply_to_agent_config (tunnels_config_ex 7 tunnels) agent_config_default.
Definition report_ex (status : string) : result Error Value := Ok (json_object [("status", Str (lit status))]%string).

(** One tunnel stays, one goes, one is new. *)
Lemma applied_sync_converged_witness :
  In (RemoveTunnel (tunnel_ex "b"))
    (fst (sync_steps (running_ex [tunnel_ex "a"; tunnel_ex "b"])
            (apply_to_agent_config (tunnels_config_ex 8 [tunnel_ex "a"; tunnel_ex "c"]) (running_ex [tunnel_ex "a"; tunnel_ex "b"]))
            (lit "config_saved") (mkSyncInputs [] (Ok Null) [report_ex "removed"] [report_ex "converged"]))).
Proof.
  destruct (apply_runtime_config_sync_owned (H := agent_platform_ex) 1 (running_ex [tunnel_ex "a"; tunnel_ex "b"])
              (tunnels_config_ex 8 [tunnel_ex "a"; tunnel_ex "c"]) 8 (lit "config_saved")
              (mkSyncInputs [] (Ok Null) [report_ex "removed"] [report_ex "converged"])) as [sync|e] eqn:E;
    [|vm_compute in E; discriminate E].
  assert (Hfull : sync_fully_applied sync = true) by (vm_compute in E; injection E as <-; reflexivity).
  assert (Hd : distinct_snapshots [tunnel_ex "a"; tunnel_ex "b"]) by (repeat constructor; vm_compute; reflexivity).
  destruct (applied_sync_converged 1 (running_ex [tunnel_ex "a"; tunnel_ex "b"]) (tunnels_config_ex 8 [tunnel_ex "a"; tunnel_ex "c"]) 8
              (lit "config_saved") (mkSyncInputs [] (Ok Null) [report_ex "removed"] [report_ex "converged"]) sync E Hfull Hd)
    as (_ & Hremoved & _).
  refine (proj2 (Hremoved (tunnel_ex "b") (or_intror (or_introl eq_refl))) _).
  intros new [<-|[<-|[]]]; vm_compute; reflexivity.
Defined.

(** A tunnel listed twice hides a change: the running tunnels are compared with the
    desired ones by their number and by one-sided containment, and nothing refuses
    a tunnel listed twice; a synchronisation that replaces the second copy by a new
    tunnel makes no call at all and reports the configuration as fully applied. *)
Theorem duplicated_tunnel_hides_change (platform := agent_platform_ex)
    (config := running_ex [tunnel_ex "a"; tunnel_ex "a"]) (rc := tunnels_config_ex 8 [tunnel_ex "a"; tunnel_ex "b"])
    (inputs := mkSyncInputs [] (Ok Null) [] []) :
  shape_ok config = Ok tt /\
  fst (sync_steps config (apply_to_agent_config rc config) (lit "config_saved") inputs) = [] /\
  existsb (fun old => runtime_tunnel_identity_matches old (tunnel_ex "b")) (runtime_status_telemetry_plans (ac_network config)) = false /\
  match apply_runtime_config_sync_owned 1 config rc 8 (lit "config_saved") inputs with
  | Ok sync => sync_fully_applied sync = true
  | Err _ => False
  end.
Proof. do 3 (split; [vm_compute; reflexivity|]). vm_compute. reflexivity. Qed.
