(* ===== verification/ForwardAdapters.v ===== *)
(** Port forwarding by custom adapters: port_forwarding_adapters.rs of
    crates/agent/src/network, and the consumer of port_forwarding.rs that composes it
    with the native rules.

    An adapter is a set of commands that an operator defines.  The agent saves the last
    owner of a rule before it runs Apply, so that a rule whose work was interrupted can
    be removed, and tells the server which rules are gone.

    An operation is a program on the [Forwarding] state: the consumer in memory, the
    inventory file on disk, the answers the environment will give to the effects in
    their order, and the log of what was run.  The process is killed when the answers
    end, so a list of answers that ends early is a kill at that effect. *)

From stdpp Require Import sorting.
From S2P Require Import Prelude RustStd Json Auth Net TunnelModels PortForwarding NftRender NftReconcile CommandLedger AgentCommands.

Open Scope Z_scope.

(** * Equality of rules *)

#[export] Instance mapping_eq_dec : EqDecision PortForwardMapping.
Proof. solve_decision. Defined.
#[export] Instance adapter_commands_eq_dec : EqDecision PortForwardAdapterCommands.
Proof. solve_decision. Defined.
#[export] Instance failure_policy_eq_dec : EqDecision PortForwardFailurePolicy.
Proof. solve_decision. Defined.
#[export] Instance retry_policy_eq_dec : EqDecision PortForwardRetryPolicy.
Proof. solve_decision. Defined.
#[export] Instance upstream_eq_dec : EqDecision PortForwardUpstream.
Proof. solve_decision. Defined.
#[export] Instance pool_eq_dec : EqDecision PortForwardPool.
Proof. solve_decision. Defined.
#[export] Instance rule_eq_dec : EqDecision PortForwardRule.
Proof. solve_decision. Defined.

(** * Data *)

Record OwnedRule := mkOwned { owned_client_id : str; owned_rule : PortForwardRule }.

#[export] Instance owned_rule_eq_dec : EqDecision OwnedRule.
Proof. solve_decision. Defined.

Record InventoryRecord := mkRecord {
  owned : gmap Z OwnedRule;
  removed : gmap Z Z;
  failures : gmap Z PortForwardRuleRuntimeStat;
}.
Definition record_default : InventoryRecord := mkRecord ∅ ∅ ∅.

Record AdapterInventory := mkInventory {
  inv_client_id : str;
  inv_root : option str;
  inv_loaded : bool;
  inv_record : InventoryRecord;
  cleanup_requests : gmap Z Z;
}.
Definition inventory_new (client_id : str) : AdapterInventory := mkInventory client_id None false record_default ∅.

Definition set_record (record : InventoryRecord) (inv : AdapterInventory) : AdapterInventory :=
  mkInventory (inv_client_id inv) (inv_root inv) (inv_loaded inv) record (cleanup_requests inv).
Definition set_requests (requests : gmap Z Z) (inv : AdapterInventory) : AdapterInventory :=
  mkInventory (inv_client_id inv) (inv_root inv) (inv_loaded inv) (inv_record inv) requests.

Inductive AdapterState := AdapterApplied | AdapterAbsent | AdapterDrifted.

#[export] Instance adapter_state_eq_dec : EqDecision AdapterState.
Proof. solve_decision. Defined.

Definition adapter_state_text (state : AdapterState) : string :=
  match state with AdapterApplied => "Applied" | AdapterAbsent => "Absent" | AdapterDrifted => "Drifted" end.

Record AdapterObservation := mkObservation {
  obs_adapter_state : AdapterState;
  obs_message : option str;
  obs_config_hash : option str;
  obs_upstreams : list PortForwardUpstreamObservation;
}.

Definition description (status : AdapterObservation) : str :=
  lit (adapter_state_text (obs_adapter_state status))
  ++ match obs_message status with Some m => lit ": " ++ m | None => [] end.

Record PortForwardAdapterRequest := mkAdapterRequest {
  req_contract_version : Z;
  req_client_id : str;
  req_config_hash : str;
  req_rule : PortForwardRule;
}.

Inductive Phase := PhaseApply | PhaseRemove | PhaseStatus.
Definition phase_text (phase : Phase) : string :=
  match phase with PhaseApply => "apply" | PhaseRemove => "remove" | PhaseStatus => "status" end.

(** The entries and the values of a [BTreeMap] in its order; the order of uuids is that of their values. *)
Definition key_le {A} (a b : Z * A) : Prop := a.1 <= b.1.
#[export] Instance key_le_dec {A} : RelDecision (@key_le A).
Proof. unfold key_le. solve_decision. Defined.
Definition entries {A} (m : gmap Z A) : list (Z * A) := merge_sort key_le (map_to_list m).
Definition values {A} (m : gmap Z A) : list A := map snd (entries m).

(** * The environment *)

(** [run_child_with_bounded_output_cancelable]: an error, or how the child ended. *)
Inductive ChildReply :=
| ChildError (error : Error)
| Completed (exit_code : option Z) (stdout stderr : list Z) (stdout_truncated stderr_truncated : bool)
| TimedOut
| ChildCanceled (reason : str).

(** A replaced file may be in place although the directory could not be synchronised. *)
Inductive WriteReply := Written | NotWritten (error : Error) | WrittenUnsynced (error : Error).

(** What the environment answers to an effect, of whichever kind it is. *)
Record Answer := mkAnswer {
  a_canceled : option str;
  a_host : Host;
  a_child : ChildReply;
  a_read_error : option Error;
  a_write : WriteReply;
  a_nft : NftReplies;
}.

(** What was run, newest first: commands of adapters with the rule they were run for,
    reconciliations of native rules that gave a snapshot, and starts of the process. *)
Inductive Event :=
| Started (phase : Phase) (entry : OwnedRule) (argv : list str)
| Finished (phase : Phase) (entry : OwnedRule) (outcome : result Error (list Z))
| NativeRun (config : AgentPortForwardingConfig) (status : PortForwardRuntimeStatus)
| NewProcess.

Record Consumer := mkConsumer {
  c_native : PortForwardingConsumer;
  c_inventory : AdapterInventory;
  c_active_config : option AgentPortForwardingConfig;
  c_published : PortForwardRuntimeSnapshot;
}.

Record Forwarding := mkForwarding {
  f_consumer : Consumer;
  f_disk : option (list Z);
  f_answers : list Answer;
  f_log : list Event;
}.

(** ** Programs *)

Inductive outcome (A : Type) := Done (a : A) | Raised (e : Error) | Killed.
Arguments Done {A} _.
Arguments Raised {A} _.
Arguments Killed {A}.

Definition Prog (A : Type) : Type := Forwarding -> outcome A * Forwarding.

#[export] Instance prog_ret : MRet Prog := fun A a f => (Done a, f).
#[export] Instance prog_bind : MBind Prog :=
  fun A B k m f =>
    match m f with
    | (Done a, f') => k a f'
    | (Raised e, f') => (Raised e, f')
    | (Killed, f') => (Killed, f')
    end.

Definition raise {A} (e : Error) : Prog A := fun f => (Raised e, f).
Definition from_result {A} (r : result Error A) : Prog A := match r with Ok a => mret a | Err e => raise e end.
Definition prog_ensure (c : bool) (text : str) : Prog unit := if c then mret tt else raise (error_msg text).

(** The result of a block as a value. *)
Definition attempt {A} (m : Prog A) : Prog (result Error A) :=
  fun f =>
    match m f with
    | (Done a, f') => (Done (Ok a), f')
    | (Raised e, f') => (Done (Err e), f')
    | (Killed, f') => (Killed, f')
    end.

Definition consumer : Prog Consumer := fun f => (Done (f_consumer f), f).
Definition put_consumer (c : Consumer) : Prog unit :=
  fun f => (Done tt, mkForwarding c (f_disk f) (f_answers f) (f_log f)).
Definition inventory : Prog AdapterInventory := c ← consumer; mret (c_inventory c).
Definition put_inventory (inv : AdapterInventory) : Prog unit :=
  c ← consumer; put_consumer (mkConsumer (c_native c) inv (c_active_config c) (c_published c)).
Definition put_native (native : PortForwardingConsumer) : Prog unit :=
  c ← consumer; put_consumer (mkConsumer native (c_inventory c) (c_active_config c) (c_published c)).
Definition put_active (config : AgentPortForwardingConfig) : Prog unit :=
  c ← consumer; put_consumer (mkConsumer (c_native c) (c_inventory c) (Some config) (c_published c)).
Definition publish (snapshot : PortForwardRuntimeSnapshot) : Prog unit :=
  c ← consumer; put_consumer (mkConsumer (c_native c) (c_inventory c) (c_active_config c) snapshot).

Definition put_disk (bytes : list Z) : Prog unit :=
  fun f => (Done tt, mkForwarding (f_consumer f) (Some bytes) (f_answers f) (f_log f)).
Definition read_disk : Prog (option (list Z)) := fun f => (Done (f_disk f), f).
Definition log (event : Event) : Prog unit :=
  fun f => (Done tt, mkForwarding (f_consumer f) (f_disk f) (f_answers f) (event :: f_log f)).

(** The next answer. *)
Definition ask : Prog Answer :=
  fun f =>
    match f_answers f with
    | [] => (Killed, f)
    | a :: answers => (Done a, mkForwarding (f_consumer f) (f_disk f) answers (f_log f))
    end.

(** The token of the work at hand, which may be canceled at any time, one that nobody cancels, or one
    canceled by the agent itself. *)
Inductive Token := LiveToken | DefaultToken | CanceledToken (reason : str).

Definition is_canceled (token : Token) : Prog (option str) :=
  match token with
  | LiveToken => a ← ask; mret (a_canceled a)
  | DefaultToken => mret None
  | CanceledToken reason => mret (Some reason)
  end.

Definition token_check (operation_type : string) (token : Token) : Prog unit :=
  canceled ← is_canceled token;
  match canceled with
  | Some reason => raise (command_canceled operation_type reason)
  | None => mret tt
  end.

(** * Adapter commands *)

(** [s.replace(pat, with)]: the char where [pat] was found is replaced, the rest of it skipped. *)
Fixpoint replace_from (pat replacement : str) (skip : nat) (s : str) : str :=
  match s with
  | [] => []
  | c :: rest =>
      match skip with
      | S k => replace_from pat replacement k rest
      | O => if starts_with s pat then replacement ++ replace_from pat replacement (length pat - 1) rest
             else c :: replace_from pat replacement O rest
      end
  end.
Definition replace_str (pat replacement s : str) : str := replace_from pat replacement O s.

(** The crates and the parts of the agent the adapters are run with. *)
Class AdapterOps := {
  record_json : InventoryRecord -> list Z;
  record_parse : list Z -> result Error InventoryRecord;
  observation_parse : list Z -> result Error AdapterObservation;
  request_json : PortForwardAdapterRequest -> str;
  client_rule_json : str -> PortForwardRule -> list Z;
  utf8_lossy : list Z -> str;
  agent_state_dir : result Error str;
  forward_sha256 : list Z -> list Z;
  forward_hex : list Z -> str;
  forward_rules_json : list PortForwardRule -> list Z;
  forward_value_json : Value -> list Z;
  forward_uuid_text : Z -> str;
  forward_uuid_parse : str -> option Z;
  validation_error_text : PortForwardValidationError -> str;
  native_error_text : ReconcileError -> str;
}.

(** What is relied on: an inventory file reads back as the record it was written from. *)
Class AdapterLaws (O : AdapterOps) : Prop := {
  record_roundtrip r : record_parse (record_json r) = Ok r;
}.

Section Adapters.
Context `{AdapterOps}.

Definition without_adapter (rule : PortForwardRule) : PortForwardRule :=
  Build_PortForwardRule (rule_id rule) (revision rule) (name rule) (protocol rule) (target_ip rule) (mappings rule)
    (pool rule) (masquerade rule) (mode rule) (address_family rule) None.

Definition request_new (client_id : str) (rule : PortForwardRule) : PortForwardAdapterRequest :=
  let rule := without_adapter rule in
  mkAdapterRequest PORT_FORWARD_ADAPTER_CONTRACT_VERSION client_id
    (payload_hash forward_sha256 forward_hex (client_rule_json client_id rule)) rule.

Definition adapter_render (command : RuntimeTunnelCommand) (entry : OwnedRule) : result Error (list str) :=
  if match cmd_argv command with program :: _ => is_empty (trim program) | [] => true end
  then Err (error_msg (lit "adapter command requires an executable"))
  else
    let forwarding_type := if pool (owned_rule entry) then lit "upstream_pool" else lit "port_mapping" in
    let request := request_json (request_new (owned_client_id entry) (owned_rule entry)) in
    Ok (map (fun arg => replace_str (lit "{rule_config_json}") request
                          (replace_str (lit "{forwarding_type}") forwarding_type arg)) (cmd_argv command)).

(** [{:?}] of an exit code. *)
Definition exit_code_text (exit_code : option Z) : str :=
  match exit_code with Some n => lit "Some(" ++ to_string n ++ lit ")" | None => lit "None" end.

Definition child_result (phase : Phase) (reply : ChildReply) : result Error (list Z) :=
  let text before after := error_msg (lit before ++ lit (phase_text phase) ++ after) in
  match reply with
  | ChildError e => Err (with_context (lit "failed to execute adapter " ++ lit (phase_text phase)) e)
  | TimedOut => Err (text "adapter "%string (lit " timed out"))
  | ChildCanceled reason => Err (text "adapter "%string (lit " canceled: " ++ reason))
  | Completed exit_code stdout stderr stdout_truncated stderr_truncated =>
      if stdout_truncated || stderr_truncated
      then Err (text "adapter "%string (lit " exceeded its configured output budget"))
      else if bool_decide (exit_code = Some 0) then Ok stdout
      else Err (text "adapter "%string (lit " exited " ++ exit_code_text exit_code ++ lit ": "
                  ++ trim (utf8_lossy stdout) ++ lit " " ++ trim (utf8_lossy stderr)))
  end.

Definition run_adapter (command : RuntimeTunnelCommand) (entry : OwnedRule) (phase : Phase) : Prog (list Z) :=
  argv ← from_result (adapter_render command entry);
  log (Started phase entry argv);;
  a ← ask;
  log (Finished phase entry (child_result phase (a_child a)));;
  from_result (child_result phase (a_child a)).

(** The checks on the upstreams an adapter reports, with those seen so far. *)
Fixpoint check_upstreams (rule : PortForwardRule) (seen : list (Z * Z)) (observations : list PortForwardUpstreamObservation) :
  result Error unit :=
  match observations with
  | [] => Ok tt
  | o :: observations =>
      let known row := (up_id row =? obs_upstream_id o) && (start (up_ports row) <=? obs_port o)
                       && (obs_port o <=? end_ (up_ports row)) in
      reject_if (negb (match pool rule with Some pool => existsb known (pool_upstreams pool) | None => false end))
        (error_msg (lit "adapter observation references an unknown upstream endpoint"));;
      reject_if (bool_decide ((obs_upstream_id o, obs_port o) ∈ seen))
        (error_msg (lit "adapter observation repeats an endpoint"));;
      reject_if (match obs_reason o with Some reason => 1024 <? str_len reason | None => false end)
        (error_msg (lit "adapter observation reason exceeds 1024 bytes"));;
      check_upstreams rule ((obs_upstream_id o, obs_port o) :: seen) observations
  end.

(** What an observation counts for: an adapter is applied only when it acknowledges the hash of the request. *)
Definition judge_observation (entry : OwnedRule) (status : AdapterObservation) : result Error AdapterObservation :=
  match obs_adapter_state status with
  | AdapterApplied =>
      let expected := request_new (owned_client_id entry) (owned_rule entry) in
      if bool_decide (obs_config_hash status = Some (req_config_hash expected))
      then check_upstreams (owned_rule entry) [] (obs_upstreams status);; Ok status
      else Ok (mkObservation AdapterDrifted
                 (Some (lit "adapter has not acknowledged the requested configuration hash")) (obs_config_hash status) [])
  | _ => Ok (mkObservation (obs_adapter_state status) (obs_message status) (obs_config_hash status) [])
  end.

Definition parse_observation (bytes : list Z) : result Error AdapterObservation :=
  map_err (with_context (lit "adapter status must return JSON state applied, absent, or drifted")) (observation_parse bytes).

Definition observe (entry : OwnedRule) : Prog AdapterObservation :=
  commands ← from_result (ok_or (adapter (owned_rule entry)) (error_msg (lit "custom rule has no adapter")));
  bytes ← run_adapter (adapter_status commands) entry PhaseStatus;
  from_result (status ← parse_observation bytes; judge_observation entry status).

(** * Reports *)

Definition with_error (stat : PortForwardRuleRuntimeStat) (code message : str) : PortForwardRuleRuntimeStat :=
  Build_PortForwardRuleRuntimeStat (stat_rule_id stat) (stat_revision stat) (stat_nat_matches stat) (stat_mode stat)
    (stat_status stat) (stat_observed_unix stat) (Some code) (Some (firstn 1024 message)) (stat_upstream_observations stat).

Definition error_stat (rule : PortForwardRule) (code : string) (message : str) : Prog PortForwardRuleRuntimeStat :=
  a ← ask; mret (with_error (runtime_stat (a_host a) rule Failed) (lit code) message).

Definition with_revision (rule : PortForwardRule) (revision : Z) : PortForwardRule :=
  Build_PortForwardRule (rule_id rule) revision (name rule) (protocol rule) (target_ip rule) (mappings rule)
    (pool rule) (masquerade rule) (mode rule) (address_family rule) (adapter rule).

Definition cleanup_error_stat (config : AgentPortForwardingConfig) (saved : PortForwardRule) (code : string)
    (message : str) : Prog PortForwardRuleRuntimeStat :=
  let rule := default saved (List.find (fun rule => rule_id rule =? rule_id saved) (rules config)) in
  let rule :=
    match List.find (fun request => cleanup_rule_id request =? rule_id rule) (cleanup_rules config) with
    | Some request => with_revision rule (cleanup_revision request)
    | None => rule
    end in
  error_stat rule code message.

Definition same_adapter (left right : PortForwardRule) : bool :=
  let key (commands : PortForwardAdapterCommands) := (definition_id commands, definition_hash commands) in
  bool_decide (option_map key (adapter left) = option_map key (adapter right)).

Definition without_definition_name (rule : PortForwardRule) : PortForwardRule :=
  Build_PortForwardRule (rule_id rule) (revision rule) (name rule) (protocol rule) (target_ip rule) (mappings rule)
    (pool rule) (masquerade rule) (mode rule) (address_family rule)
    (option_map (fun a => Build_PortForwardAdapterCommands (definition_id a) [] (definition_hash a)
       (contract_version a) (adapter_apply a) (adapter_remove a) (adapter_status a)) (adapter rule)).

Definition rule_execution_matches (left right : PortForwardRule) : bool :=
  bool_decide (without_definition_name left = without_definition_name right).

Definition is_custom (rule : PortForwardRule) : bool := bool_decide (mode rule = CustomAdapter).

(** The configuration still wants the saved rule from the same adapter. *)
Definition still_desired (config : AgentPortForwardingConfig) (entry : OwnedRule) : bool :=
  existsb (fun rule => (rule_id rule =? rule_id (owned_rule entry)) && is_custom rule
                       && same_adapter rule (owned_rule entry)) (rules config).

(** * The inventory *)

Definition inventory_load : Prog unit :=
  inv ← inventory;
  if inv_loaded inv then mret tt
  else
    root ← match inv_root inv with
           | Some root => mret root
           | None => from_result (dir ← agent_state_dir; Ok (dir ++ lit "/port-forwarding"))
           end;
    a ← ask;
    disk ← read_disk;
    record ←
      match a_read_error a, disk with
      | Some error, _ => raise (with_context (lit "cannot read port-forward adapter ownership inventory") error)
      | None, Some bytes =>
          from_result (map_err (with_context (lit "invalid port-forward adapter ownership inventory")) (record_parse bytes))
      | None, None => mret record_default
      end;
    put_inventory (mkInventory (inv_client_id inv) (Some root) true record (cleanup_requests inv)).

Definition store (record : InventoryRecord) : Prog unit :=
  inv ← inventory;
  match inv_root inv with
  | None => raise (error_msg (lit "adapter inventory is not loaded"))
  | Some _ =>
      a ← ask;
      match a_write a with
      | NotWritten error => raise error
      | WrittenUnsynced error => put_disk (record_json record);; raise error
      | Written => put_disk (record_json record);; put_inventory (set_record record inv)
      end
  end.

Definition synchronize_cleanup_requests (rules : list PortForwardCleanupRule) : Prog unit :=
  inv ← inventory;
  let requests := foldl (fun m rule => <[cleanup_rule_id rule := cleanup_revision rule]> m) ∅ rules in
  put_inventory (set_requests requests inv);;
  let record := inv_record inv in
  let receipts := filter (fun '(id, _) => owned record !! id = None /\ failures record !! id = None) requests in
  if bool_decide (receipts = removed record) then mret tt
  else store (mkRecord (owned record) receipts (failures record)).

Definition removed_rules (inv : AdapterInventory) : list PortForwardCleanupRule :=
  map (fun '(id, revision) => {| cleanup_rule_id := id; cleanup_revision := revision |}) (entries (removed (inv_record inv))).

Definition retains_owner (inv : AdapterInventory) (id : Z) : bool := bool_decide (is_Some (owned (inv_record inv) !! id)).

Definition owns_desired (inv : AdapterInventory) (rule : PortForwardRule) : bool :=
  match owned (inv_record inv) !! rule_id rule with
  | Some entry => rule_execution_matches (owned_rule entry) rule
  | None => false
  end.

Definition inventory_remove (entry : OwnedRule) : Prog unit :=
  commands ← from_result (ok_or (adapter (owned_rule entry)) (error_msg (lit "saved custom owner has no adapter")));
  run_adapter (adapter_remove commands) entry PhaseRemove;;
  status ← observe entry;
  prog_ensure (bool_decide (obs_adapter_state status = AdapterAbsent))
    (lit "adapter removal verification: " ++ description status);;
  inv ← inventory;
  let record := inv_record inv in
  let id := rule_id (owned_rule entry) in
  let receipts :=
    match cleanup_requests inv !! id with
    | Some revision => <[id := revision]> (removed record)
    | None => removed record
    end in
  store (mkRecord (delete id (owned record)) receipts (delete id (failures record))).

(** The loop over the stale owners: a failed removal is recorded, and the saved commands are dropped. *)
Fixpoint remove_stale (config : AgentPortForwardingConfig) (token : Token) (stale : list OwnedRule) :
  Prog (list Z * list PortForwardRuleRuntimeStat) :=
  match stale with
  | [] => mret ([], [])
  | entry :: stale =>
      canceled ← is_canceled token;
      result ← match canceled with
               | Some _ => mret (Err (error_msg (lit "adapter cleanup canceled before removal")))
               | None => attempt (inventory_remove entry)
               end;
      let id := rule_id (owned_rule entry) in
      match result with
      | Ok _ => '(removed, failed) ← remove_stale config token stale; mret (id :: removed, failed)
      | Err error =>
          report ← cleanup_error_stat config (owned_rule entry) "adapter_remove_failed" (error_to_string error);
          inv ← inventory;
          let record := inv_record inv in
          store (mkRecord (delete id (owned record)) (delete id (removed record)) (<[id := report]> (failures record)));;
          '(removed, failed) ← remove_stale config token stale; mret (removed, report :: failed)
      end
  end.

Definition remove_replaced (config : AgentPortForwardingConfig) (token : Token) :
  Prog (list Z * list PortForwardRuleRuntimeStat) :=
  inv ← inventory;
  remove_stale config token (List.filter (fun entry => negb (still_desired config entry)) (values (owned (inv_record inv)))).

(** The loop over the custom rules of an accepted configuration. *)
Fixpoint adopt_rules (inv : AdapterInventory) (rules : list PortForwardRule) (record : InventoryRecord) :
  Prog InventoryRecord :=
  match rules with
  | [] => mret record
  | rule :: rules =>
      failures ←
        (if owns_desired inv rule then mret (failures record)
         else match failures record !! rule_id rule with
              | Some _ => mret (failures record)
              | None =>
                  report ← error_stat rule "adapter_apply_incomplete"
                             (lit "newest desired adapter accepted without completed Apply");
                  mret (<[rule_id rule := report]> (failures record))
              end);
      adopt_rules inv rules
        (mkRecord (<[rule_id rule := mkOwned (inv_client_id inv) rule]> (owned record))
           (delete (rule_id rule) (removed record)) failures)
  end.

Definition inventory_adopt_desired (config : AgentPortForwardingConfig) : Prog unit :=
  inventory_load;;
  synchronize_cleanup_requests (cleanup_rules config);;
  remove_replaced config (CanceledToken (lit "desired state accepted after interrupted forwarding work"));;
  inv ← inventory;
  record ← adopt_rules inv (List.filter is_custom (rules config)) (inv_record inv);
  store record.

Definition with_observations (stat : PortForwardRuleRuntimeStat) (observations : list PortForwardUpstreamObservation) :
  PortForwardRuleRuntimeStat :=
  Build_PortForwardRuleRuntimeStat (stat_rule_id stat) (stat_revision stat) (stat_nat_matches stat) (stat_mode stat)
    (stat_status stat) (stat_observed_unix stat) (stat_error_code stat) (stat_error_message stat) observations.

(** The block of [apply_with_cleanup_report] whose errors are reported. *)
Definition apply_block (rule : PortForwardRule) (preserve_cleanup_failure : bool) :
  Prog (list PortForwardUpstreamObservation) :=
  inv ← inventory;
  let entry := mkOwned (inv_client_id inv) rule in
  let record := inv_record inv in
  commands ← from_result (ok_or (adapter rule) (error_msg (lit "custom rule has no adapter")));
  store (mkRecord (<[rule_id rule := entry]> (owned record)) (delete (rule_id rule) (removed record)) (failures record));;
  run_adapter (adapter_apply commands) entry PhaseApply;;
  status ← observe entry;
  prog_ensure (bool_decide (obs_adapter_state status = AdapterApplied))
    (lit "adapter apply verification: " ++ description status);;
  inv ← inventory;
  let record := inv_record inv in
  (if negb preserve_cleanup_failure && bool_decide (is_Some (failures record !! rule_id rule))
   then store (mkRecord (owned record) (removed record) (delete (rule_id rule) (failures record)))
   else mret tt);;
  mret (obs_upstreams status).

Definition apply_with_cleanup_report (rule : PortForwardRule) (preserve_cleanup_failure : bool) :
  Prog PortForwardRuleRuntimeStat :=
  result ← attempt (apply_block rule preserve_cleanup_failure);
  match result with
  | Ok observations => a ← ask; mret (with_observations (runtime_stat (a_host a) rule Applied) observations)
  | Err error =>
      inv ← inventory;
      let record := inv_record inv in
      match failures record !! rule_id rule with
      | None => error_stat rule "adapter_apply_failed" (error_to_string error)
      | Some cleanup =>
          let message := default (lit "previous cleanup failed") (stat_error_message cleanup)
                         ++ lit "; newest adapter apply failed: " ++ error_to_string error in
          report ← error_stat rule "adapter_cleanup_and_apply_failed" message;
          stored ← attempt (store (mkRecord (owned record) (removed record) (<[rule_id rule := report]> (failures record))));
          match stored with
          | Ok _ => mret report
          | Err persist_error =>
              error_stat rule "adapter_inventory_failed"
                (message ++ lit "; failed to save diagnostics: " ++ error_to_string persist_error)
          end
      end
  end.

Definition inventory_apply (rule : PortForwardRule) : Prog PortForwardRuleRuntimeStat :=
  apply_with_cleanup_report rule false.

Definition with_message (stat : PortForwardRuleRuntimeStat) (message : option str) : PortForwardRuleRuntimeStat :=
  Build_PortForwardRuleRuntimeStat (stat_rule_id stat) (stat_revision stat) (stat_nat_matches stat) (stat_mode stat)
    (stat_status stat) (stat_observed_unix stat) (stat_error_code stat) message (stat_upstream_observations stat).

(** The report on one rule from what its adapter says. *)
Definition inspect_rule (client_id : str) (rule : PortForwardRule) : Prog PortForwardRuleRuntimeStat :=
  result ← attempt (observe (mkOwned client_id rule));
  match result with
  | Ok status =>
      a ← ask;
      mret (match obs_adapter_state status with
            | AdapterApplied => with_observations (runtime_stat (a_host a) rule Applied) (obs_upstreams status)
            | _ => with_message (runtime_stat (a_host a) rule Drifted) (obs_message status)
            end)
  | Err error => error_stat rule "adapter_status_failed" (error_to_string error)
  end.

(** The loop over the custom rules: it stops when the work is canceled, and skips a rule owned by another adapter. *)
Fixpoint inspect_rules (token : Token) (rules : list PortForwardRule) : Prog (list PortForwardRuleRuntimeStat) :=
  match rules with
  | [] => mret []
  | rule :: rules =>
      canceled ← is_canceled token;
      match canceled with
      | Some _ => mret []
      | None =>
          inv ← inventory;
          if match owned (inv_record inv) !! rule_id rule with
             | Some entry => negb (same_adapter rule (owned_rule entry))
             | None => false
             end
          then inspect_rules token rules
          else
            stat ← inspect_rule (inv_client_id inv) rule;
            stats ← inspect_rules token rules;
            mret (stat :: stats)
      end
  end.

Definition inventory_inspect (config : AgentPortForwardingConfig) (token : Token) : Prog (list PortForwardRuleRuntimeStat) :=
  inspect_rules token (List.filter is_custom (rules config)).

(** A recorded failure under the revision and mode the configuration has for its rule. *)
Definition current_report (config : AgentPortForwardingConfig) (report : PortForwardRuleRuntimeStat) :
  PortForwardRuleRuntimeStat :=
  let revised revision mode :=
    Build_PortForwardRuleRuntimeStat (stat_rule_id report) revision (stat_nat_matches report) mode
      (stat_status report) (stat_observed_unix report) (stat_error_code report) (stat_error_message report)
      (stat_upstream_observations report) in
  match List.find (fun rule => rule_id rule =? stat_rule_id report) (rules config) with
  | Some rule => revised (revision rule) (mode rule)
  | None =>
      match List.find (fun request => cleanup_rule_id request =? stat_rule_id report) (cleanup_rules config) with
      | Some request => revised (cleanup_revision request) (stat_mode report)
      | None => report
      end
  end.

(** The loop over the owners that still require removal. *)
Fixpoint pending_reports (config : AgentPortForwardingConfig) (stale : list OwnedRule)
    (reports : gmap Z PortForwardRuleRuntimeStat) : Prog (gmap Z PortForwardRuleRuntimeStat) :=
  match stale with
  | [] => mret reports
  | entry :: stale =>
      match reports !! rule_id (owned_rule entry) with
      | Some _ => pending_reports config stale reports
      | None =>
          report ← cleanup_error_stat config (owned_rule entry) "adapter_cleanup_pending"
                     (lit "saved adapter ownership still requires removal");
          pending_reports config stale (<[rule_id (owned_rule entry) := report]> reports)
      end
  end.

Definition cleanup_failures (config : AgentPortForwardingConfig) : Prog (list PortForwardRuleRuntimeStat) :=
  inv ← inventory;
  let record := inv_record inv in
  reports ← pending_reports config
              (List.filter (fun entry => negb (still_desired config entry)) (values (owned record)))
              (current_report config <$> failures record);
  mret (values reports).

Definition confirm_native_repairs (snapshot : PortForwardRuntimeSnapshot) (repair_ids failed_in_transition : gset Z) :
  Prog unit :=
  match snap_status snapshot with
  | Applied =>
      inv ← inventory;
      let record := inv_record inv in
      let kept := filter (fun '(id, _) => id ∉ repair_ids \/ id ∈ failed_in_transition) (failures record) in
      if bool_decide (size kept = size (failures record)) then mret tt
      else store (mkRecord (owned record) (removed record) kept)
  | _ => mret tt
  end.

(** * The consumer *)

Abbreviation native_of := (native_config forward_sha256 forward_hex forward_rules_json).

Definition check_config (config : AgentPortForwardingConfig) : Prog unit :=
  from_result (map_err (fun e => error_msg (lit "invalid port-forwarding desired state: " ++ validation_error_text e))
                 (validate_port_forwarding_config forward_sha256 forward_hex forward_rules_json config)).

Definition adopt_desired (config : AgentPortForwardingConfig) : Prog unit :=
  check_config config;; inventory_adopt_desired config;; put_active config.

(** The native part of a reconciliation; its error becomes a failed snapshot. *)
Definition reconcile_native_part (config native : AgentPortForwardingConfig) (require_table_access : bool) :
  Prog PortForwardRuntimeSnapshot :=
  c ← consumer;
  if custom_ownership_context config && negb require_table_access && negb (has_native_ownership (c_native c) native)
  then mret (snapshot_of Absent None)
  else
    a ← ask;
    let '(result, native_consumer, _) :=
      reconcile_native forward_uuid_text forward_uuid_parse forward_sha256 forward_hex forward_rules_json
        forward_value_json (a_host a) native require_table_access (a_nft a) (c_native c) in
    put_native native_consumer;;
    match result with
    | Ok snapshot => log (NativeRun native (snap_status snapshot));; mret snapshot
    | Err error =>
        a ← ask;
        mret (failed_snapshot (a_host a) native (con_capability native_consumer) (lit "native_reconcile_failed")
                (native_error_text error))
    end.

(** The loop over the custom rules: the rules left as they are, and the reports of those applied. *)
Fixpoint apply_custom (force_reapply clear_cleanup_failures : bool) (cleanup_failed : gset Z)
    (rules : list PortForwardRule) : Prog (list PortForwardRule * list PortForwardRuleRuntimeStat) :=
  match rules with
  | [] => mret ([], [])
  | rule :: rules =>
      token_check "port_forwarding" LiveToken;;
      inv ← inventory;
      if negb force_reapply && owns_desired inv rule
      then '(unchanged, stats) ← apply_custom force_reapply clear_cleanup_failures cleanup_failed rules;
           mret (rule :: unchanged, stats)
      else
        stat ← (if bool_decide (rule_id rule ∈ cleanup_failed) || (negb clear_cleanup_failures && owns_desired inv rule)
                then apply_with_cleanup_report rule true
                else inventory_apply rule);
        '(unchanged, stats) ← apply_custom force_reapply clear_cleanup_failures cleanup_failed rules;
        mret (unchanged, stat :: stats)
  end.

Definition with_config_rules (config : AgentPortForwardingConfig) (rules : list PortForwardRule) :
  AgentPortForwardingConfig :=
  Build_AgentPortForwardingConfig (schema_version config) (desired_hash config) rules (cleanup_rules config)
    (native_cleanup_pending config).

Definition with_removed (s : PortForwardRuntimeSnapshot) (removed : list PortForwardCleanupRule) :
  PortForwardRuntimeSnapshot :=
  Build_PortForwardRuntimeSnapshot (snap_status s) (snap_owned_table_present s) (snap_desired_hash s)
    (snap_observed_hash s) (snap_native_desired_hash s) removed (snap_nft_version s)
    (snap_ipv4_forwarding_enabled s) (snap_ipv6_forwarding_enabled s) (snap_rules s) (snap_error_code s)
    (snap_error_message s) (snap_observed_unix s).

(** The end of a reconciliation and of an inspection: the snapshot of the native rules completed with the
    removal receipts and the reports on the custom rules. *)
Definition complete_snapshot (config native : AgentPortForwardingConfig) (snapshot : PortForwardRuntimeSnapshot)
    (custom_stats : list PortForwardRuleRuntimeStat) : Prog PortForwardRuntimeSnapshot :=
  inv ← inventory;
  let snapshot := with_removed snapshot (removed_rules inv) in
  reports ← cleanup_failures config;
  a ← ask;
  mret (merge_snapshot (a_host a) config native snapshot (custom_stats ++ reports)).

Definition reconcile (config : AgentPortForwardingConfig) (require_table_access force_reapply clear_cleanup_failures : bool) :
  Prog PortForwardRuntimeSnapshot :=
  check_config config;;
  let require_table_access := require_table_access || native_cleanup_pending config in
  canceled ← is_canceled LiveToken;
  match canceled with
  | Some _ => adopt_desired config;; token_check "port_forwarding" LiveToken
  | None => mret tt
  end;;
  inventory_load;;
  c ← consumer;
  let native_repair_ids := native_repair_candidates (c_active_config c) config clear_cleanup_failures in
  put_active config;;
  synchronize_cleanup_requests (cleanup_rules config);;
  '(_, failed_removals) ← remove_replaced config LiveToken;
  token_check "port_forwarding" LiveToken;;
  let cleanup_failed : gset Z := list_to_set (map stat_rule_id failed_removals) in
  let native := native_of config in
  snapshot ← reconcile_native_part config native require_table_access;
  confirm_native_repairs snapshot native_repair_ids cleanup_failed;;
  '(unchanged, applied) ← apply_custom force_reapply clear_cleanup_failures cleanup_failed
                            (List.filter is_custom (rules config));
  inspected ← inventory_inspect (with_config_rules config unchanged) LiveToken;
  a ← ask;
  complete_snapshot config native (attach_native_stats (a_host a) native snapshot)
    (failed_removals ++ applied ++ inspected).

(** The published reports are recent enough to be reused. *)
Definition reports_fresh (config : AgentPortForwardingConfig) (custom_interval_secs now : Z)
    (previous : PortForwardRuntimeSnapshot) : bool :=
  bool_decide (snap_desired_hash previous = wire_hash config)
  && forallb (fun rule =>
       match List.find (fun stat => (stat_rule_id stat =? rule_id rule) && (stat_revision stat =? revision rule))
               (snap_rules previous) ≫= stat_observed_unix with
       | Some observed => saturating_sub now observed <? custom_interval_secs
       | None => false
       end) (List.filter is_custom (rules config)).

Definition reused_reports (config : AgentPortForwardingConfig) (previous : PortForwardRuntimeSnapshot) :
  list PortForwardRuleRuntimeStat :=
  List.filter (fun stat => bool_decide (stat_mode stat = CustomAdapter)
    && existsb (fun rule => (rule_id rule =? stat_rule_id stat) && is_custom rule) (rules config)) (snap_rules previous).

(** The clock is read once for the ages of the published reports. *)
Definition consumer_inspect (config : AgentPortForwardingConfig) (custom_interval_secs : Z) (token : Token) :
  Prog PortForwardRuntimeSnapshot :=
  loaded ← attempt inventory_load;
  c ← consumer;
  match loaded with
  | Err error =>
      a ← ask;
      mret (failed_snapshot (a_host a) config (con_capability (c_native c)) (lit "adapter_inventory_failed")
              (error_to_string error))
  | Ok _ =>
      let retained := List.filter (fun rule => negb (retains_owner (c_inventory c) (rule_id rule)))
                        (rules (native_of config)) in
      let native := Build_AgentPortForwardingConfig (schema_version (native_of config))
                      (native_hash forward_sha256 forward_hex forward_rules_json retained) retained
                      (cleanup_rules (native_of config)) (native_cleanup_pending (native_of config)) in
      snapshot ←
        (if native_cleanup_pending config || has_native_ownership (c_native c) native
            || negb (custom_ownership_context config)
         then
           a ← ask;
           let '(snapshot, native_consumer) :=
             inspect_native forward_uuid_parse forward_sha256 forward_hex forward_value_json (a_host a) native
               (reply_nft_found (a_nft a)) (reply_before (a_nft a)) (c_native c) in
           put_native native_consumer;; mret snapshot
         else mret (snapshot_of Absent None));
      a ← ask;
      let snapshot := attach_native_stats (a_host a) native snapshot in
      a ← ask;
      custom_stats ←
        (if reports_fresh config custom_interval_secs (unix_now (a_host a)) (c_published c)
         then mret (reused_reports config (c_published c))
         else inventory_inspect config token);
      complete_snapshot config native snapshot custom_stats
  end.

(** ** The work queue *)

Inductive PortForwardingWork :=
| WorkProbe
| WorkReconcile (config : AgentPortForwardingConfig) (require_table_access force_reapply clear_cleanup_failures : bool)
    (previous_native_ids : list Z)
| WorkInspect (config : AgentPortForwardingConfig)
| WorkAdoptDesired (config : AgentPortForwardingConfig)
| WorkObserve (config : AgentPortForwardingConfig) (custom_interval_secs : Z).

(** The answer to the work's sender; an observation has none. *)
Inductive Reply :=
| ReplyCapability (capability : PortForwardCapability)
| ReplyReconciled (result : result Error PortForwardRuntimeSnapshot)
| ReplyInspected (snapshot : PortForwardRuntimeSnapshot)
| ReplyAdopted (result : result Error unit)
| NoReply.

Definition process (work : PortForwardingWork) : Prog Reply :=
  match work with
  | WorkProbe =>
      a ← ask; c ← consumer;
      let native_consumer := probe (c_native c) (a_nft a) in
      put_native native_consumer;; mret (ReplyCapability (con_capability native_consumer))
  | WorkReconcile config require_table_access force_reapply clear_cleanup_failures previous_native_ids =>
      c ← consumer;
      put_native (with_owners (c_native c) (con_native_owners (c_native c) ∪ list_to_set previous_native_ids));;
      result ← attempt (reconcile config require_table_access force_reapply clear_cleanup_failures);
      match result with Ok snapshot => publish snapshot | Err _ => mret tt end;;
      mret (ReplyReconciled result)
  | WorkInspect config =>
      c ← consumer;
      snapshot ← consumer_inspect (default config (c_active_config c)) 0 DefaultToken;
      publish snapshot;; mret (ReplyInspected snapshot)
  | WorkAdoptDesired config => result ← attempt (adopt_desired config); mret (ReplyAdopted result)
  | WorkObserve config custom_interval_secs =>
      c ← consumer;
      canceled ← is_canceled LiveToken;
      match canceled with
      | Some _ => mret tt
      | None =>
          snapshot ← consumer_inspect (default config (c_active_config c)) custom_interval_secs LiveToken;
          canceled ← is_canceled LiveToken;
          match canceled with Some _ => mret tt | None => publish snapshot end
      end;;
      mret NoReply
  end.

(** [PortForwardingConsumer::channel]. *)
Definition capability_default : PortForwardCapability := {|
  cap_status := Unknown; cap_nft_version := None; cap_reason := None;
  cap_schema_version := PORT_FORWARDING_SCHEMA_VERSION; cap_supported_modes := [] |}.
Definition consumer_new (client_id : str) : Consumer :=
  mkConsumer (Build_PortForwardingConsumer capability_default None 0 false ∅) (inventory_new client_id) None
    (snapshot_of StatusUnknown None).

(** * Runs *)

(** What happens to an agent's forwarding: work with the answers it gets, events of the nft monitor, and
    starts of a new process.  A process that is killed is followed by a new one. *)
Inductive Happening :=
| Work (work : PortForwardingWork) (answers : list Answer)
| TableChanged
| MonitorStopped
| ProcessStart.

Definition restart (client_id : str) (f : Forwarding) : Forwarding :=
  mkForwarding (consumer_new client_id) (f_disk f) [] (NewProcess :: f_log f).

Definition on_native (g : PortForwardingConsumer -> PortForwardingConsumer) (f : Forwarding) : Forwarding :=
  let c := f_consumer f in
  mkForwarding (mkConsumer (g (c_native c)) (c_inventory c) (c_active_config c) (c_published c)) (f_disk f)
    (f_answers f) (f_log f).

Definition happen (client_id : str) (f : Forwarding) (h : Happening) : Forwarding :=
  match h with
  | Work work answers =>
      match process work (mkForwarding (f_consumer f) (f_disk f) answers (f_log f)) with
      | (Killed, f') => restart client_id f'
      | (_, f') => f'
      end
  | TableChanged => on_native table_event f
  | MonitorStopped => on_native monitor_stopped f
  | ProcessStart => restart client_id f
  end.

Definition forwarding_start (client_id : str) : Forwarding := mkForwarding (consumer_new client_id) None [] [].
Definition forwarding_run (client_id : str) (happenings : list Happening) : Forwarding :=
  foldl (happen client_id) (forwarding_start client_id) happenings.
End Adapters.
