(* ===== verification/ForwardAdapterProofs.v ===== *)
(** Ownership of forwarding rules by custom adapters: what was started is accounted for
    on disk at every moment, and a removal receipt says that a rule is gone. *)

From stdpp Require Import sorting.
From S2P Require Import Prelude RustStd Json Auth Net TunnelModels PortForwarding NftRender NftReconcile CommandLedger AgentCommands ForwardAdapters.

Open Scope Z_scope.

Section Ownership.
Context `{O : AdapterOps} `{!AdapterLaws O}.

(** * What the log says of a rule *)

Definition says_absent (bytes : list Z) : bool :=
  match parse_observation bytes with
  | Ok status => bool_decide (obs_adapter_state status = AdapterAbsent)
  | Err _ => false
  end.

(** The newest events are a successful Remove for the rule and a Status that reports it absent. *)
Definition verified_absent (id : Z) (events : list Event) : bool :=
  match events with
  | Finished PhaseStatus e (Ok bytes) :: Started PhaseStatus _ _ :: Finished PhaseRemove e' (Ok _) :: _ =>
      (rule_id (owned_rule e) =? id) && bool_decide (e' = e) && says_absent bytes
  | _ => false
  end.

(** A native rule of that id is in force. *)
Definition taken_over (id : Z) (event : Event) : bool :=
  match event with
  | NativeRun config Applied => existsb (fun rule => rule_id rule =? id) (rules config)
  | _ => false
  end.

(** Apply was started for the rule, and since then neither was its removal verified nor has a native rule
    taken its place. *)
Fixpoint outstanding (id : Z) (events : list Event) : bool :=
  match events with
  | [] => false
  | event :: older =>
      match event with
      | Started PhaseApply e _ => (rule_id (owned_rule e) =? id) || outstanding id older
      | _ => negb (verified_absent id events) && negb (taken_over id event) && outstanding id older
      end
  end.

Definition starts_apply (event : Event) : bool :=
  match event with Started PhaseApply _ _ => true | _ => false end.

Lemma outstanding_older id event older :
  starts_apply event = false -> outstanding id (event :: older) = true -> outstanding id older = true.
Proof.
  intros Hs Ho. destruct event as [[]| | |]; cbn [outstanding starts_apply] in *; try done;
    by apply andb_true_iff in Ho as [_ Ho].
Qed.

(** * Records *)

(** What is known of the owners the configurations put in charge; a Remove is run for such owners only. *)
Context (P : OwnedRule -> Prop).

Definition event_ok (event : Event) : Prop := match event with Finished PhaseRemove e _ => P e | _ => True end.

Record record_ok (r : InventoryRecord) (events : list Event) : Prop := {
  owners_known : forall id e, owned r !! id = Some e -> P e;
  removals_known : Forall event_ok events;
  keyed : forall id e, owned r !! id = Some e -> rule_id (owned_rule e) = id;
  receipts_apart : forall id, is_Some (removed r !! id) -> owned r !! id = None /\ failures r !! id = None;
  accounted : forall id, outstanding id events = true -> is_Some (owned r !! id) \/ is_Some (failures r !! id);
}.

Lemma record_ok_older r events events' :
  (forall id, outstanding id events' = true -> outstanding id events = true) -> Forall event_ok events' ->
  record_ok r events -> record_ok r events'.
Proof. intros Hm He [Hp Hl Hk Hr Ha]. split; auto. Qed.

Lemma record_ok_event r event events :
  starts_apply event = false -> event_ok event -> record_ok r events -> record_ok r (event :: events).
Proof.
  intros Hs He Hr. eapply record_ok_older; [|constructor; [done|by apply (removals_known r)]|done].
  intros id. by apply outstanding_older.
Qed.

(** An Apply may be started for an owner. *)
Lemma record_ok_apply r e argv events :
  owned r !! rule_id (owned_rule e) = Some e -> record_ok r events -> record_ok r (Started PhaseApply e argv :: events).
Proof.
  intros He [Hp Hl Hk Hr Ha]. split; [done|by constructor|done..|]. intros id. cbn [outstanding]. rewrite orb_true_iff, Z.eqb_eq.
  intros [<-|Ho]; [left; by eexists|auto].
Qed.

(** The owner whose Apply is running, if that is what the process does. *)
Definition running (r : InventoryRecord) (events : list Event) : Prop :=
  match events with
  | Started PhaseApply e _ :: _ => owned r !! rule_id (owned_rule e) = Some e
  | _ => True
  end.
Definition quiet (events : list Event) : Prop :=
  match events with event :: _ => starts_apply event = false | [] => True end.

Lemma quiet_running r events : quiet events -> running r events.
Proof. by destruct events as [|[[]| | |] ?]. Qed.

Definition disk_ok (disk : option (list Z)) (events : list Event) : Prop :=
  match disk with
  | Some bytes => exists r, record_parse bytes = Ok r /\ record_ok r events /\ running r events
  | None => quiet events /\ Forall event_ok events /\ forall id, outstanding id events = false
  end.

Lemma disk_ok_event disk event events :
  starts_apply event = false -> event_ok event -> disk_ok disk events -> disk_ok disk (event :: events).
Proof.
  intros Hs He. destruct disk as [bytes|]; cbn [disk_ok].
  - intros (r & Hp & Hr & _). exists r. split; [done|]. split; [by apply record_ok_event|].
    by apply quiet_running.
  - intros (_ & Hl & Hd). split; [done|]. split; [by constructor|]. intros id. apply not_true_iff_false. intros Ho%outstanding_older; [|done].
    by rewrite Hd in Ho.
Qed.

(** * States *)

Definition inv_of (f : Forwarding) : AdapterInventory := c_inventory (f_consumer f).
Definition mem (f : Forwarding) : InventoryRecord := inv_record (inv_of f).

(** Before the inventory is loaded nothing is known of the memory. *)
Definition sound (f : Forwarding) : Prop :=
  disk_ok (f_disk f) (f_log f) /\ quiet (f_log f) /\ (inv_loaded (inv_of f) = true -> record_ok (mem f) (f_log f)).

(** The inventory is loaded, and its owners satisfy [X]. *)
Definition good (X : gmap Z OwnedRule -> Prop) (f : Forwarding) : Prop :=
  sound f /\ inv_loaded (inv_of f) = true /\ X (owned (mem f)).

(** What holds when the program returns, when it raises an error, and on disk when it is killed. *)
Definition wp {A} (m : Prog A) (Q : A -> Forwarding -> Prop) (E : Forwarding -> Prop) (f : Forwarding) : Prop :=
  match m f with
  | (Done a, f') => Q a f'
  | (Raised _, f') => E f'
  | (Killed, f') => disk_ok (f_disk f') (f_log f')
  end.

Lemma wp_ret {A} (a : A) (Q : A -> Forwarding -> Prop) (E : Forwarding -> Prop) f : Q a f -> wp (mret a) Q E f.
Proof. done. Qed.

Lemma wp_bind {A B} (m : Prog A) (k : A -> Prog B) Q E f :
  wp m (fun a => wp (k a) Q E) E f -> wp (m ≫= k) Q E f.
Proof. unfold wp, mbind, prog_bind. by destruct (m f) as [[] f']. Qed.

Lemma wp_mono {A} (m : Prog A) (Q Q' : A -> Forwarding -> Prop) (E E' : Forwarding -> Prop) f :
  wp m Q E f -> (forall a f', Q a f' -> Q' a f') -> (forall f', E f' -> E' f') -> wp m Q' E' f.
Proof. unfold wp. destruct (m f) as [[] f']; auto. Qed.

Lemma wp_attempt {A} (m : Prog A) Q E f :
  wp m (fun a => Q (Ok a)) (fun f' => forall e, Q (Err e) f') f -> wp (attempt m) Q E f.
Proof. unfold wp, attempt. destruct (m f) as [[] f']; auto. Qed.

Lemma wp_raise {A} e (Q : A -> Forwarding -> Prop) (E : Forwarding -> Prop) f : E f -> wp (raise e) Q E f.
Proof. done. Qed.

Lemma wp_from_result {A} (r : result Error A) (Q : A -> Forwarding -> Prop) (E : Forwarding -> Prop) f :
  (forall a, r = Ok a -> Q a f) -> E f -> wp (from_result r) Q E f.
Proof. intros HQ HE. destruct r; [by apply HQ|done]. Qed.

Lemma wp_ensure c text (Q : unit -> Forwarding -> Prop) (E : Forwarding -> Prop) f :
  (c = true -> Q tt f) -> E f -> wp (prog_ensure c text) Q E f.
Proof. intros HQ HE. destruct c; [by apply HQ|done]. Qed.

(** The states an effect that only reads leads to. *)
Definition same (f f' : Forwarding) : Prop :=
  inv_of f' = inv_of f /\ f_disk f' = f_disk f /\ f_log f' = f_log f.

Lemma good_same X f f' : same f f' -> good X f -> good X f'.
Proof. intros (Hi & Hd & Hl). unfold good, sound, mem. by rewrite Hi, Hd, Hl. Qed.
Lemma sound_same f f' : same f f' -> sound f -> sound f'.
Proof. intros (Hi & Hd & Hl). unfold sound, mem. by rewrite Hi, Hd, Hl. Qed.

Lemma wp_ask (Q : Answer -> Forwarding -> Prop) E f :
  disk_ok (f_disk f) (f_log f) -> (forall a f', same f f' -> Q a f') -> wp ask Q E f.
Proof. intros Hd HQ. unfold wp, ask. destruct (f_answers f) as [|a answers]; [done|]. by apply HQ. Qed.

Lemma wp_is_canceled token (Q : option str -> Forwarding -> Prop) E f :
  disk_ok (f_disk f) (f_log f) -> (forall a f', same f f' -> Q a f') -> wp (is_canceled token) Q E f.
Proof.
  intros Hd HQ. destruct token; [|by apply HQ..]. unfold is_canceled. apply wp_bind, wp_ask; [done|].
  intros a f' Hs. by apply wp_ret, HQ.
Qed.

Lemma wp_error_stat rule code message (Q : PortForwardRuleRuntimeStat -> Forwarding -> Prop) E f :
  disk_ok (f_disk f) (f_log f) -> (forall a f', same f f' -> Q a f') -> wp (error_stat rule code message) Q E f.
Proof. intros Hd HQ. unfold error_stat. apply wp_bind, wp_ask; [done|]. intros a f' Hs. by apply wp_ret, HQ. Qed.

Lemma wp_cleanup_stat config saved code message (Q : PortForwardRuleRuntimeStat -> Forwarding -> Prop) E f :
  disk_ok (f_disk f) (f_log f) -> (forall a f', same f f' -> Q a f') ->
  wp (cleanup_error_stat config saved code message) Q E f.
Proof. intros. by apply wp_error_stat. Qed.

Lemma wp_inventory (Q : AdapterInventory -> Forwarding -> Prop) E f : Q (inv_of f) f -> wp inventory Q E f.
Proof. done. Qed.
Lemma wp_consumer (Q : Consumer -> Forwarding -> Prop) E f : Q (f_consumer f) f -> wp consumer Q E f.
Proof. done. Qed.

(** * Commands *)

Lemma good_disk X f : good X f -> disk_ok (f_disk f) (f_log f).
Proof. by intros [[Hd _] _]. Qed.
Lemma sound_disk f : sound f -> disk_ok (f_disk f) (f_log f).
Proof. by intros [Hd _]. Qed.
#[local] Hint Resolve good_disk sound_disk good_same sound_same : core.

Lemma wp_log event (Q : unit -> Forwarding -> Prop) E f :
  (forall f', inv_of f' = inv_of f -> f_disk f' = f_disk f -> f_log f' = event :: f_log f -> Q tt f') -> wp (log event) Q E f.
Proof. intros HQ. by apply HQ. Qed.

Lemma good_event X event f f' :
  starts_apply event = false -> event_ok event -> inv_of f' = inv_of f -> f_disk f' = f_disk f -> f_log f' = event :: f_log f ->
  good X f -> good X f'.
Proof.
  intros Hs He Hi Hd Hl ((Hdk & _ & Hm) & Hld & HX). unfold good, sound, mem. rewrite Hi, Hd, Hl.
  split; [|done]. split; [by apply disk_ok_event|]. split; [done|]. intros Hi'. by apply record_ok_event, Hm.
Qed.

(** Running Remove or Status keeps the state good and leaves its two events. *)
Lemma wp_run X command entry phase f :
  match phase with PhaseApply => False | PhaseRemove => P entry | PhaseStatus => True end -> good X f ->
  wp (run_adapter command entry phase)
    (fun bytes f' => good X f' /\ inv_of f' = inv_of f
       /\ exists argv, f_log f' = Finished phase entry (Ok bytes) :: Started phase entry argv :: f_log f)
    (good X) f.
Proof.
  intros Hphase Hg. unfold run_adapter. apply wp_bind, wp_from_result; [|done]. intros argv _.
  assert (starts_apply (Started phase entry argv) = false) as Hs by by destruct phase.
  assert (forall result, event_ok (Finished phase entry result)) as He by (intros; by destruct phase).
  apply wp_bind, wp_log. intros f1 Hi1 Hd1 Hl1. assert (good X f1) as Hg1 by by eapply good_event.
  apply wp_bind, wp_ask; [by eauto|]. intros a f2 Hs2. assert (good X f2) as Hg2 by by eauto.
  apply wp_bind, wp_log. intros f3 Hi3 Hd3 Hl3.
  assert (good X f3) as Hg3 by by eapply (good_event X (Finished phase entry _)).
  apply wp_from_result; [|done]. intros bytes Hb. split; [done|]. destruct Hs2 as (Hi2 & _ & Hl2).
  split; [congruence|]. exists argv. by rewrite Hl3, Hb, Hl2, Hl1.
Qed.

Lemma judged_absent entry status status' :
  judge_observation entry status = Ok status' -> obs_adapter_state status' = AdapterAbsent ->
  obs_adapter_state status = AdapterAbsent.
Proof.
  unfold judge_observation. intros Hj Ha. destruct (obs_adapter_state status) eqn:E; [|done|by simplify_eq/=].
  case_bool_decide; [|by simplify_eq/=]. inv_bind. congruence.
Qed.

Lemma wp_observe X entry f :
  good X f ->
  wp (observe entry)
    (fun status f' => good X f' /\ inv_of f' = inv_of f
       /\ (obs_adapter_state status = AdapterAbsent ->
           exists bytes argv, f_log f' = Finished PhaseStatus entry (Ok bytes) :: Started PhaseStatus entry argv :: f_log f
             /\ says_absent bytes = true))
    (good X) f.
Proof.
  intros Hg. unfold observe. apply wp_bind, wp_from_result; [|done]. intros commands _.
  apply wp_bind. eapply wp_mono; [by apply (wp_run X)| |done]. cbn. intros bytes f' (Hg' & Hi & argv & Hl).
  apply wp_from_result; [|done]. intros status Hst. split; [done|]. split; [done|]. intros Ha.
  exists bytes, argv. split; [done|]. unfold says_absent. destruct (parse_observation bytes) as [o|]; [|done].
  cbn in Hst. apply bool_decide_eq_true. by eapply judged_absent.
Qed.

(** * Stores *)

Lemma wp_put_disk bytes (Q : unit -> Forwarding -> Prop) E f :
  (forall f', inv_of f' = inv_of f -> f_disk f' = Some bytes -> f_log f' = f_log f -> Q tt f') -> wp (put_disk bytes) Q E f.
Proof. intros HQ. by apply HQ. Qed.

Lemma wp_put_inventory inv (Q : unit -> Forwarding -> Prop) E f :
  (forall f', inv_of f' = inv -> f_disk f' = f_disk f -> f_log f' = f_log f -> Q tt f') -> wp (put_inventory inv) Q E f.
Proof. intros HQ. by apply HQ. Qed.

(** The other fields of the consumer. *)
Lemma wp_put_native native (Q : unit -> Forwarding -> Prop) E f : (forall f', same f f' -> Q tt f') -> wp (put_native native) Q E f.
Proof. intros HQ. by apply HQ. Qed.
Lemma wp_put_active config (Q : unit -> Forwarding -> Prop) E f : (forall f', same f f' -> Q tt f') -> wp (put_active config) Q E f.
Proof. intros HQ. by apply HQ. Qed.
Lemma wp_publish snapshot (Q : unit -> Forwarding -> Prop) E f : (forall f', same f f' -> Q tt f') -> wp (publish snapshot) Q E f.
Proof. intros HQ. by apply HQ. Qed.

Lemma wp_store (X Y : gmap Z OwnedRule -> Prop) r f :
  good X f -> record_ok r (f_log f) -> Y (owned r) ->
  wp (store r)
    (fun _ f' => good Y f' /\ inv_of f' = set_record r (inv_of f) /\ f_log f' = f_log f
       /\ f_disk f' = Some (record_json r))
    (good X) f.
Proof.
  intros Hg Hr HY. pose proof Hg as ((Hd & Hq & Hm) & Hld & HX).
  assert (disk_ok (Some (record_json r)) (f_log f)) as Hd'.
  { exists r. rewrite record_roundtrip. split; [done|]. split; [done|]. by apply quiet_running. }
  unfold store. apply wp_bind, wp_inventory. destruct (inv_root (inv_of f)); [|by apply wp_raise].
  apply wp_bind, wp_ask; [done|]. intros a f1 Hs1. pose proof Hs1 as (Hi1 & Hd1 & Hl1).
  destruct (a_write a); [|by apply wp_raise; eauto|].
  - apply wp_bind, wp_put_disk. intros f2 Hi2 Hd2 Hl2. apply wp_put_inventory. intros f3 Hi3 Hd3 Hl3.
    unfold good, sound, mem. rewrite Hi3, Hd3, Hl3, Hd2, Hl2, Hl1. auto 10.
  - apply wp_bind, wp_put_disk. intros f2 Hi2 Hd2 Hl2. apply wp_raise.
    unfold good, sound, mem. rewrite Hd2, Hl2, Hi2, Hi1, Hl1. auto.
Qed.

Lemma good_weaken (X Y : gmap Z OwnedRule -> Prop) f : (forall o, X o -> Y o) -> good X f -> good Y f.
Proof. intros HXY (Hs & Hl & HX). split; [done|]. split; auto. Qed.

Lemma good_record X f : good X f -> record_ok (mem f) (f_log f).
Proof. intros ((_ & _ & Hm) & Hl & _). auto. Qed.

Abbreviation any_owners := (fun _ : gmap Z OwnedRule => True).

Lemma wp_load f : sound f -> wp inventory_load (fun _ => good any_owners) sound f.
Proof.
  intros Hs. pose proof Hs as (Hd & Hq & Hm). unfold inventory_load. apply wp_bind, wp_inventory.
  destruct (inv_loaded (inv_of f)) eqn:El; [apply wp_ret; split; auto|].
  apply wp_bind. eapply (wp_mono _ (fun _ f' => f' = f) _ (fun f' => f' = f)); [|intros root f' ->|by intros f' ->].
  { destruct (inv_root (inv_of f)); [done|]. by apply wp_from_result. }
  apply wp_bind, wp_ask; [done|]. intros a f1 Hs1. pose proof Hs1 as (Hi1 & Hd1 & Hl1). apply wp_bind.
  unfold wp at 1, read_disk. rewrite Hd1. apply wp_bind.
  assert (forall r f2, f2 = f1 -> record_ok r (f_log f) ->
    wp (put_inventory (mkInventory (inv_client_id (inv_of f)) (Some root) true r (cleanup_requests (inv_of f))))
      (fun _ => good any_owners) sound f2) as Hput.
  { intros r f2 -> Hr. apply wp_put_inventory. intros f3 Hi3 Hd3 Hl3. unfold good, sound, mem.
    rewrite Hi3, Hd3, Hl3, Hd1, Hl1. auto. }
  destruct (a_read_error a); [by apply wp_raise; eauto|]. destruct (f_disk f) as [bytes|] eqn:Ed.
  - destruct Hd as (r & Hp & Hr & _). rewrite Hp. by apply Hput.
  - apply wp_ret, Hput; [done|]. destruct Hd as (_ & Hl & Hd).
    split; cbn; [intros id e; by rewrite lookup_empty|done|intros id e; by rewrite lookup_empty| |intros id; by rewrite Hd].
    intros id. rewrite lookup_empty. by intros [].
Qed.

Lemma wp_synchronize X requested f :
  good X f -> wp (synchronize_cleanup_requests requested) (fun _ => good X) (good X) f.
Proof.
  intros Hg. unfold synchronize_cleanup_requests. apply wp_bind, wp_inventory. cbv zeta.
  apply wp_bind, wp_put_inventory. intros f1 Hi1 Hd1 Hl1.
  assert (good X f1) as Hg1.
  { destruct Hg as ((Hd & Hq & Hm) & Hl & HX). unfold good, sound, mem in *. rewrite Hi1, Hd1, Hl1. auto. }
  case_bool_decide; [done|]. destruct (good_record X f Hg) as [Hp Hev Hk Hr Ha].
  eapply wp_mono; [eapply (wp_store X X); [done| |by destruct Hg as (_ & _ & HX)]|by intros ? ? []|done].
  rewrite Hl1. split; cbn; [done..| |done]. intros id [revision Hx]. by apply map_lookup_filter_Some in Hx as [_ Hx].
Qed.

(** * Removal *)

Lemma verified_settles id entry bytes bytes' argv argv' events :
  rule_id (owned_rule entry) = id -> says_absent bytes = true ->
  outstanding id (Finished PhaseStatus entry (Ok bytes) :: Started PhaseStatus entry argv
    :: Finished PhaseRemove entry (Ok bytes') :: Started PhaseRemove entry argv' :: events) = false.
Proof.
  intros <- Ha. cbn [outstanding verified_absent]. by rewrite Z.eqb_refl, bool_decide_true, Ha.
Qed.

Lemma record_ok_removed r id revision events :
  record_ok r events -> outstanding id events = false ->
  record_ok (mkRecord (delete id (owned r))
    (match revision with Some revision => <[id := revision]> (removed r) | None => removed r end)
    (delete id (failures r))) events.
Proof.
  intros [Hp Hl Hk Hr Ha] Ho. split; cbn; [|done|..].
  - intros id' e [_ He]%lookup_delete_Some. by apply (Hp id').
  - intros id' e [_ He]%lookup_delete_Some. auto.
  - intros id' Hx. destruct (decide (id = id')) as [<-|Hne]; [by rewrite !lookup_delete_eq|].
    rewrite !lookup_delete_ne by done. apply Hr. destruct revision; [|done]. by rewrite lookup_insert_ne in Hx.
  - intros id' Ho'. assert (id <> id') by congruence. rewrite !lookup_delete_ne by done. auto.
Qed.

Definition keyed_owners (o : gmap Z OwnedRule) : Prop := forall id e, o !! id = Some e -> rule_id (owned_rule e) = id.

Lemma wp_remove (X Y : gmap Z OwnedRule -> Prop) entry f :
  P entry -> good X f -> (forall o, keyed_owners o -> X o -> Y (delete (rule_id (owned_rule entry)) o)) ->
  wp (inventory_remove entry) (fun _ => good Y) (good X) f.
Proof.
  intros HP Hg HY. unfold inventory_remove. apply wp_bind, wp_from_result; [|done]. intros commands _.
  apply wp_bind. eapply wp_mono; [by apply (wp_run X)| |done]. cbn. intros bytes f1 (Hg1 & Hi1 & argv & Hl1).
  apply wp_bind. eapply wp_mono; [by apply (wp_observe X)| |done]. cbn. intros status f2 (Hg2 & Hi2 & Habs).
  apply wp_bind, wp_ensure; [|done]. intros Hst%bool_decide_eq_true. destruct (Habs Hst) as (bytes2 & argv2 & Hl2 & Ha).
  apply wp_bind, wp_inventory. cbv zeta. pose proof (good_record X f2 Hg2) as Hr.
  eapply wp_mono; [eapply (wp_store X Y); [done| |]|by intros ? ? []|done].
  - apply record_ok_removed; [done|]. rewrite Hl2, Hl1. by apply verified_settles.
  - cbn. destruct Hg2 as (_ & _ & HX). apply HY; [exact (keyed _ _ Hr)|done].
Qed.

(** A failed removal leaves a failure in place of the owner. *)
Lemma record_ok_failed r id report events :
  record_ok r events ->
  record_ok (mkRecord (delete id (owned r)) (delete id (removed r)) (<[id := report]> (failures r))) events.
Proof.
  intros [Hp Hl Hk Hr Ha]. split; cbn; [|done|..].
  - intros id' e [_ He]%lookup_delete_Some. by apply (Hp id').
  - intros id' e [_ He]%lookup_delete_Some. auto.
  - intros id' [x [Hne Hx]%lookup_delete_Some]. rewrite lookup_delete_ne, lookup_insert_ne by done. apply Hr. by eexists.
  - intros id' Ho. destruct (decide (id = id')) as [<-|Hne]; [right; by rewrite lookup_insert_eq|].
    rewrite lookup_delete_ne, lookup_insert_ne by done. auto.
Qed.

(** Every owner is desired, or still to be removed. *)
Definition leftover (config : AgentPortForwardingConfig) (stale : list OwnedRule) (o : gmap Z OwnedRule) : Prop :=
  forall id e, o !! id = Some e -> still_desired config e = true \/ e ∈ stale.

Lemma leftover_delete config entry stale o :
  keyed_owners o -> leftover config (entry :: stale) o -> leftover config stale (delete (rule_id (owned_rule entry)) o).
Proof.
  intros Hk Hl id e [Hne He]%lookup_delete_Some. destruct (Hl id e He) as [|Hin]; [by left|].
  apply elem_of_cons in Hin as [->|]; [|by right]. by apply Hk in He.
Qed.

Lemma wp_remove_stale config token stale f :
  Forall P stale -> good (leftover config stale) f ->
  wp (remove_stale config token stale) (fun _ => good (leftover config [])) (good any_owners) f.
Proof.
  intros HP. revert f. induction HP as [|entry stale HPe _ IH]; intros f Hg; cbn [remove_stale]; [done|].
  assert (forall f', good (leftover config (entry :: stale)) f' -> good any_owners f') as Hany by
    (intros f'; by apply good_weaken).
  apply wp_bind, wp_is_canceled; [by eauto|]. intros canceled f1 Hs1. assert (good (leftover config (entry :: stale)) f1) as Hg1 by eauto.
  apply wp_bind. eapply (wp_mono _ (fun result f' =>
    match result with Ok _ => good (leftover config stale) f' | Err _ => good (leftover config (entry :: stale)) f' end)
    _ (good (leftover config (entry :: stale)))); [| |done].
  { destruct canceled; [done|]. apply wp_attempt.
    eapply wp_mono; [apply (wp_remove _ (leftover config stale) entry f1 HPe Hg1); intros o; apply leftover_delete|done|done]. }
  intros [u|error] f2 Hg2.
  - apply wp_bind. eapply wp_mono; [by apply IH| |done]. by intros [removed failed] f3 Hg3.
  - apply wp_bind, wp_cleanup_stat; [by eauto|]. intros report f3 Hs3.
    assert (good (leftover config (entry :: stale)) f3) as Hg3 by eauto. apply wp_bind, wp_inventory. cbv zeta.
    pose proof (good_record _ _ Hg3) as Hr. apply wp_bind.
    eapply wp_mono; [eapply (wp_store _ (leftover config stale)); [exact Hg3|by apply record_ok_failed|]| |exact Hany].
    + cbn. apply leftover_delete; [exact (keyed _ _ Hr)|]. by destruct Hg3 as (_ & _ & HX).
    + intros u f4 [Hg4 _]. apply wp_bind. eapply wp_mono; [by apply IH| |done]. by intros [removed failed] f5 Hg5.
Qed.

Lemma elem_of_values {A} (m : gmap Z A) a : a ∈ values m <-> exists id, m !! id = Some a.
Proof.
  unfold values, entries. rewrite list_elem_of_fmap. split.
  - intros ([id a'] & -> & Hin). rewrite merge_sort_Permutation in Hin. apply elem_of_map_to_list in Hin. by exists id.
  - intros [id Hin]. exists (id, a). split; [done|]. rewrite merge_sort_Permutation. by apply elem_of_map_to_list.
Qed.

Lemma wp_remove_replaced config token f :
  good any_owners f -> wp (remove_replaced config token) (fun _ => good (leftover config [])) (good any_owners) f.
Proof.
  intros Hg. assert (Hr := good_record _ _ Hg). destruct Hg as (Hs & Hl & _).
  unfold remove_replaced. apply wp_bind, wp_inventory. apply wp_remove_stale.
  { apply Forall_forall. intros e [Hin _]%list_elem_of_In%filter_In. apply list_elem_of_In, elem_of_values in Hin as [id He].
    by apply (owners_known _ _ Hr id). }
  split; [done|]. split; [done|]. intros id e He. destruct (still_desired config e) eqn:E; [by left|right].
  apply list_elem_of_In, filter_In. split; [apply list_elem_of_In, elem_of_values; by exists id|by rewrite E].
Qed.

(** * Adoption *)

Lemma record_ok_owner r rule client failures' events :
  P (mkOwned client rule) -> record_ok r events -> (forall id, id <> rule_id rule -> failures' !! id = failures r !! id) ->
  record_ok (mkRecord (<[rule_id rule := mkOwned client rule]> (owned r)) (delete (rule_id rule) (removed r)) failures') events.
Proof.
  intros HP [Hp Hl Hk Hr Ha] Hf. split; cbn; [|done|..].
  - intros id e [[<- <-]|[_ He]]%lookup_insert_Some; [done|by apply (Hp id)].
  - intros id e [[<- <-]|[_ He]]%lookup_insert_Some; [done|auto].
  - intros id [x [Hne Hx]%lookup_delete_Some]. rewrite lookup_insert_ne, Hf by done. apply Hr. by eexists.
  - intros id Ho. destruct (decide (rule_id rule = id)) as [<-|Hne]; [left; by rewrite lookup_insert_eq|].
    rewrite lookup_insert_ne, Hf by done. auto.
Qed.

Lemma wp_adopt_rules inv rules r f E :
  Forall (fun rule => P (mkOwned (inv_client_id inv) rule)) rules -> disk_ok (f_disk f) (f_log f) -> record_ok r (f_log f) ->
  wp (adopt_rules inv rules r) (fun r' f' => same f f' /\ record_ok r' (f_log f')) E f.
Proof.
  intros HP. revert r f. induction HP as [|rule rules HPr _ IH]; intros r f Hd Hr; cbn [adopt_rules]; [done|].
  apply wp_bind.
  eapply (wp_mono _ (fun failures' f' => same f f' /\ forall id, id <> rule_id rule -> failures' !! id = failures r !! id) _ E);
    [| |done].
  - destruct (owns_desired inv rule); [by apply wp_ret|]. destruct (failures r !! rule_id rule); [by apply wp_ret|].
    apply wp_bind, wp_error_stat; [done|]. intros report f' Hs. apply wp_ret. split; [done|].
    intros id Hne. by rewrite lookup_insert_ne.
  - intros failures' f1 [(Hi1 & Hd1 & Hl1) Hf].
    eapply wp_mono; [apply IH; [by rewrite Hd1, Hl1|rewrite Hl1; by apply record_ok_owner]| |done].
    intros r' f2 [(Hi2 & Hd2 & Hl2) Hr']. split; [|done]. unfold same. by rewrite Hi2, Hd2, Hl2.
Qed.

(** The custom rules of the configuration may be put in charge. *)
Definition config_ok (config : AgentPortForwardingConfig) : Prop :=
  forall client, Forall (fun rule => P (mkOwned client rule)) (List.filter is_custom (rules config)).

Lemma wp_inventory_adopt config f :
  config_ok config -> sound f -> wp (inventory_adopt_desired config) (fun _ => good any_owners) sound f.
Proof.
  intros HP Hs. unfold inventory_adopt_desired. assert (forall X f', good X f' -> sound f') as Hgs by by intros ? ? [].
  apply wp_bind. eapply wp_mono; [by apply wp_load| |done]. intros ? f1 Hg1; cbn beta in Hg1.
  apply wp_bind. eapply wp_mono; [by apply (wp_synchronize any_owners)| |by apply Hgs]. intros ? f2 Hg2; cbn beta in Hg2.
  apply wp_bind. eapply wp_mono; [by apply wp_remove_replaced| |by apply Hgs]. intros ? f3 Hg3; cbn beta in Hg3.
  apply wp_bind, wp_inventory. apply wp_bind. eapply wp_mono; [apply wp_adopt_rules; [apply HP|by eauto|by eapply good_record]| |done].
  intros r f4 [Hs4 Hr]. eapply wp_mono; [eapply (wp_store _ any_owners); [by eauto|done|done]|by intros ? ? []|by apply Hgs].
Qed.

(** * Application *)

(** The state when Apply runs: its owner is saved. *)
Lemma wp_run_apply X command entry f :
  good X f -> f_disk f = Some (record_json (mem f)) -> owned (mem f) !! rule_id (owned_rule entry) = Some entry ->
  wp (run_adapter command entry PhaseApply) (fun _ f' => good X f' /\ inv_of f' = inv_of f) (good X) f.
Proof.
  intros Hg Hdisk Hown. unfold run_adapter. apply wp_bind, wp_from_result; [|done]. intros argv _.
  pose proof (good_record X f Hg) as Hr. apply wp_bind, wp_log. intros f1 Hi1 Hd1 Hl1.
  assert (record_ok (mem f) (Started PhaseApply entry argv :: f_log f)) as Hr' by by apply record_ok_apply.
  apply wp_bind, wp_ask.
  { rewrite Hd1, Hdisk, Hl1. exists (mem f). by rewrite record_roundtrip. }
  intros a f2 (Hi2 & Hd2 & Hl2). apply wp_bind, wp_log. intros f3 Hi3 Hd3 Hl3.
  assert (good X f3) as Hg3.
  { destruct Hg as (_ & Hld & HX). unfold good, sound, mem. rewrite Hi3, Hd3, Hl3, Hi2, Hd2, Hl2, Hi1, Hd1, Hl1, Hdisk.
    assert (record_ok (mem f) (Finished PhaseApply entry (child_result PhaseApply (a_child a))
      :: Started PhaseApply entry argv :: f_log f)) as Hr3 by by apply record_ok_event.
    split; [|done]. split; [|done]. exists (mem f). by rewrite record_roundtrip. }
  apply wp_from_result; [|done]. intros ? _. split; [done|congruence].
Qed.

Lemma record_ok_failures r failures' events :
  record_ok r events -> (forall id, is_Some (failures' !! id) -> is_Some (failures r !! id)) ->
  (forall id, outstanding id events = true -> is_Some (failures r !! id) -> is_Some (owned r !! id) \/ is_Some (failures' !! id)) ->
  record_ok (mkRecord (owned r) (removed r) failures') events.
Proof.
  intros [Hp Hl Hk Hr Ha] Hsub Hkeep. split; cbn; [done..| |].
  - intros id Hx. destruct (Hr id Hx) as [Ho Hf]. split; [done|]. apply eq_None_not_Some. intros Hf'%Hsub.
    rewrite Hf in Hf'. by destruct Hf'.
  - intros id Ho. destruct (Ha id Ho) as [?|Hf]; [by left|auto].
Qed.

(** The owners a rule of the configuration may be added to. *)
Definition admits (X : gmap Z OwnedRule -> Prop) (rule : PortForwardRule) : Prop :=
  forall o client, X o -> X (<[rule_id rule := mkOwned client rule]> o).

Lemma wp_apply_block X rule preserve f :
  (forall client, P (mkOwned client rule)) -> admits X rule -> good X f -> wp (apply_block rule preserve) (fun _ => good X) (good X) f.
Proof.
  intros HP HX Hg. unfold apply_block. apply wp_bind, wp_inventory. cbv zeta. apply wp_bind, wp_from_result; [|done].
  intros commands _. apply wp_bind.
  eapply wp_mono; [eapply (wp_store X X); [done|by apply record_ok_owner; [|by eapply good_record|]|]| |done].
  { cbn. apply HX. by destruct Hg as (_ & _ & ?). }
  intros ? f1 (Hg1 & Hi1 & _ & Hd1).
  assert (owned (mem f1) !! rule_id rule = Some (mkOwned (inv_client_id (inv_of f)) rule)) as Hown.
  { unfold mem. rewrite Hi1. cbn. by rewrite lookup_insert_eq. }
  apply wp_bind. eapply wp_mono; [apply (wp_run_apply X); [done| |done]| |done].
  { rewrite Hd1. unfold mem. by rewrite Hi1. }
  intros ? f2 [Hg2 Hi2]. apply wp_bind. eapply wp_mono; [by apply (wp_observe X)| |done]. intros status f3 (Hg3 & Hi3 & _).
  apply wp_bind, wp_ensure; [|done]. intros _. apply wp_bind, wp_inventory. cbv zeta. apply wp_bind.
  destruct (negb preserve && _); [|done].
  eapply wp_mono; [eapply (wp_store X X); [done| |by destruct Hg3 as (_ & _ & ?)]|by intros ? ? []|done].
  apply record_ok_failures; [by eapply good_record|by intros id [x [_ Hx]%lookup_delete_Some]; eexists|].
  intros id _ Hf. destruct (decide (rule_id rule = id)) as [<-|Hne]; [left|right; by rewrite lookup_delete_ne].
  change (inv_record (inv_of f3)) with (mem f3). unfold mem in *. rewrite Hi3, Hi2, Hown. by eexists.
Qed.

Lemma wp_apply X rule preserve f :
  (forall client, P (mkOwned client rule)) -> admits X rule -> good X f -> wp (apply_with_cleanup_report rule preserve) (fun _ => good X) (good X) f.
Proof.
  intros HP HX Hg. unfold apply_with_cleanup_report. apply wp_bind, wp_attempt.
  eapply (wp_mono _ (fun _ => good X) _ (good X)); [by apply wp_apply_block| |].
  - intros observations f1 Hg1. apply wp_bind, wp_ask; [by eauto|]. intros a f2 Hs2. apply wp_ret. by eauto.
  - intros f1 Hg1 error. apply wp_bind, wp_inventory. cbv zeta.
    destruct (failures (inv_record (inv_of f1)) !! rule_id rule) as [cleanup|] eqn:Ef;
      [|apply wp_error_stat; [by eauto|]; intros; by eauto].
    apply wp_bind, wp_error_stat; [by eauto|]. intros report f2 Hs2. assert (good X f2) as Hg2 by eauto.
    apply wp_bind, wp_attempt. destruct Hs2 as (Hi2 & Hd2 & Hl2).
    eapply (wp_mono _ (fun _ => good X) _ (good X)); [|by intros|].
    + eapply wp_mono; [eapply (wp_store X X); [done| |by destruct Hg1 as (_ & _ & ?)]|by intros ? ? []|done].
      rewrite Hl2. apply record_ok_failures; [by eapply good_record| |].
      * intros id Hx. destruct (decide (rule_id rule = id)) as [<-|Hne]; [by eexists|by rewrite lookup_insert_ne in Hx].
      * intros id _ Hx. right. destruct (decide (rule_id rule = id)) as [<-|Hne]; [by rewrite lookup_insert_eq|].
        by rewrite lookup_insert_ne.
    + intros f3 Hg3 e. apply wp_error_stat; [by eauto|]. intros; by eauto.
Qed.

(** * Reports *)

Lemma wp_inspect_rules X token rules f :
  good X f -> wp (inspect_rules token rules) (fun _ => good X) (good X) f.
Proof.
  revert f. induction rules as [|rule rules IH]; intros f Hg; cbn [inspect_rules]; [done|].
  apply wp_bind, wp_is_canceled; [by eauto|]. intros [reason|] f1 Hs1; [apply wp_ret; by eauto|].
  assert (good X f1) as Hg1 by eauto. apply wp_bind, wp_inventory.
  destruct (match owned _ !! _ with Some _ => _ | None => _ end); [by apply IH|].
  apply wp_bind. eapply (wp_mono _ (fun _ => good X) _ (good X)); [| |done].
  - unfold inspect_rule. apply wp_bind, wp_attempt. eapply wp_mono; [by apply (wp_observe X)| |].
    + intros status f2 (Hg2 & _). apply wp_bind, wp_ask; [by eauto|]. intros a f3 Hs3. apply wp_ret. by eauto.
    + intros f2 Hg2 e. apply wp_error_stat; [by eauto|]. intros; by eauto.
  - intros stat f2 Hg2. apply wp_bind. eapply wp_mono; [by apply IH| |done]. intros stats f3 Hg3. by apply wp_ret.
Qed.

Lemma wp_pending_reports config stale reports f E :
  disk_ok (f_disk f) (f_log f) -> wp (pending_reports config stale reports) (fun _ => same f) E f.
Proof.
  revert reports f. induction stale as [|entry stale IH]; intros reports f Hd; cbn [pending_reports]; [done|].
  destruct (reports !! _); [by apply IH|]. apply wp_bind, wp_cleanup_stat; [done|]. intros report f1 (Hi1 & Hd1 & Hl1).
  eapply wp_mono; [apply IH; by rewrite Hd1, Hl1| |done]. intros r f2 (Hi2 & Hd2 & Hl2). unfold same.
  by rewrite Hi2, Hd2, Hl2.
Qed.

(** The receipts of a finished snapshot are those of the inventory. *)
Definition reports_inventory (X : gmap Z OwnedRule -> Prop) (s : PortForwardRuntimeSnapshot) (f : Forwarding) : Prop :=
  good X f /\ snap_removed_rules s = removed_rules (inv_of f).

Lemma wp_complete X config native snapshot stats f :
  good X f -> wp (complete_snapshot config native snapshot stats) (reports_inventory X) (good X) f.
Proof.
  intros Hg. unfold complete_snapshot. apply wp_bind, wp_inventory. cbv zeta. apply wp_bind.
  eapply (wp_mono _ (fun _ => same f) _ (good X)); [| |done].
  - unfold cleanup_failures. apply wp_bind, wp_inventory. apply wp_bind.
    eapply wp_mono; [apply wp_pending_reports; by eauto| |done]. intros reports f1 Hs1. by apply wp_ret.
  - intros reports f1 Hs1. apply wp_bind, wp_ask; [by eauto|]. intros a f2 Hs2. apply wp_ret. split; [by eauto|].
    cbn. by rewrite (proj1 Hs2), (proj1 Hs1).
Qed.

(** * The consumer *)

Abbreviation native_of := (native_config forward_sha256 forward_hex forward_rules_json).

Lemma wp_native_part X config require f :
  good X f ->
  wp (reconcile_native_part config (native_of config) require)
    (fun s f' => good X f' /\ (snap_status s = Applied ->
       forall rule, rule ∈ rules (native_of config) -> outstanding (rule_id rule) (f_log f') = false))
    (good X) f.
Proof.
  intros Hg. unfold reconcile_native_part. apply wp_bind, wp_consumer. destruct (_ && _ && _); [by apply wp_ret|].
  apply wp_bind, wp_ask; [by eauto|]. intros a f1 Hs1.
  destruct (reconcile_native _ _ _ _ _ _ _ _ _ _ _) as [[[snapshot|error] native] scripts];
    apply wp_bind, wp_put_native; intros f2 Hs2; assert (good X f2) as Hg2 by eauto.
  - apply wp_bind, wp_log. intros f3 Hi3 Hd3 Hl3.
    assert (good X f3) as Hg3 by by eapply (good_event X (NativeRun _ _)). apply wp_ret. split; [done|].
    intros Ha rule Hin. rewrite Hl3, Ha. cbn [outstanding verified_absent taken_over negb andb].
    replace (existsb _ _) with true; [done|]. symmetry. apply existsb_exists. exists rule.
    split; [by apply list_elem_of_In|apply Z.eqb_refl].
  - apply wp_bind, wp_ask; [by eauto|]. intros a' f3 Hs3. apply wp_ret. split; [by eauto|done].
Qed.

Lemma wp_confirm X snapshot repair_ids failed f :
  good X f -> (snap_status snapshot = Applied -> forall id, id ∈ repair_ids -> outstanding id (f_log f) = false) ->
  wp (confirm_native_repairs snapshot repair_ids failed) (fun _ => good X) (good X) f.
Proof.
  intros Hg Hids. unfold confirm_native_repairs. destruct (snap_status snapshot); try done. specialize (Hids eq_refl).
  apply wp_bind, wp_inventory. cbv zeta. case_bool_decide; [done|].
  eapply wp_mono; [eapply (wp_store X X); [done| |by destruct Hg as (_ & _ & ?)]|by intros ? ? []|done].
  apply record_ok_failures; [by eapply good_record| |].
  - intros id [x Hx]. apply map_lookup_filter_Some in Hx as [Hx _]. by eexists.
  - intros id Ho [x Hx]. right. exists x. apply map_lookup_filter_Some. split; [done|]. left. intros Hin.
    by rewrite Hids in Ho.
Qed.

Lemma wp_token_check X text token f :
  good X f -> wp (token_check text token) (fun _ => good X) (good X) f.
Proof.
  intros Hg. unfold token_check. apply wp_bind, wp_is_canceled; [by eauto|]. intros [reason|] f1 Hs1.
  - apply wp_raise. by eauto.
  - apply wp_ret. by eauto.
Qed.

Lemma wp_apply_custom X force clear failed rules f :
  Forall (fun rule => admits X rule /\ forall client, P (mkOwned client rule)) rules -> good X f -> wp (apply_custom force clear failed rules) (fun _ => good X) (good X) f.
Proof.
  intros Hrules. revert f. induction Hrules as [|rule rules [Hrule HPr] _ IH]; intros f Hg; cbn [apply_custom]; [done|].
  apply wp_bind. eapply wp_mono; [by apply (wp_token_check X)| |done]. intros ? f1 Hg1; cbn beta in Hg1.
  apply wp_bind, wp_inventory. destruct (negb force && _).
  - apply wp_bind. eapply wp_mono; [by apply IH| |done]. by intros [] f2 Hg2.
  - apply wp_bind. eapply (wp_mono _ (fun _ => good X) _ (good X)); [| |done].
    + destruct (bool_decide _ || _); by apply wp_apply.
    + intros stat f2 Hg2. apply wp_bind. eapply wp_mono; [by apply IH| |done]. by intros [] f3 Hg3.
Qed.

(** Every owner is desired by the configuration. *)
Lemma desired_admits config rule :
  rule ∈ rules config -> is_custom rule = true -> admits (leftover config []) rule.
Proof.
  intros Hin Hc o client Ho id e [[<- <-]|[_ He]]%lookup_insert_Some; [left|by eapply Ho].
  apply existsb_exists. exists rule. split; [by apply list_elem_of_In|]. cbn. rewrite Z.eqb_refl, Hc.
  by apply bool_decide_eq_true.
Qed.

Lemma repair_ids_native previous config clear id :
  id ∈ native_repair_candidates previous config clear -> exists rule, rule ∈ rules (native_of config) /\ rule_id rule = id.
Proof.
  unfold native_repair_candidates. rewrite elem_of_list_to_set, list_elem_of_In, in_map_iff.
  intros (rule & Hid & [Hin [Hn _]%andb_true_iff]%filter_In). exists rule. split; [|done].
  cbn. apply list_elem_of_In, filter_In. by split.
Qed.

Lemma good_sound X f : good X f -> sound f.
Proof. by intros []. Qed.
#[local] Hint Resolve good_sound : core.

Lemma wp_check_config config (E : Forwarding -> Prop) f : E f -> wp (check_config config) (fun _ => E) E f.
Proof. intros HE. by apply wp_from_result. Qed.

Lemma wp_adopt config f : config_ok config -> sound f -> wp (adopt_desired config) (fun _ => good any_owners) sound f.
Proof.
  intros HP Hs. unfold adopt_desired. apply wp_bind. eapply wp_mono; [by apply (wp_check_config _ sound)| |done].
  intros ? f1 Hs1; cbn beta in Hs1. apply wp_bind. eapply wp_mono; [by apply wp_inventory_adopt| |done].
  intros ? f2 Hg2; cbn beta in Hg2. apply wp_put_active. intros f3 Hs3. by eauto.
Qed.

Lemma wp_reconcile config require force clear f :
  config_ok config -> sound f ->
  wp (reconcile config require force clear) (reports_inventory (leftover config [])) sound f.
Proof.
  intros HP Hs. unfold reconcile. apply wp_bind. eapply wp_mono; [by apply (wp_check_config _ sound)| |done].
  intros ? f1 Hs1; cbn beta zeta in *. apply wp_bind, wp_is_canceled; [by eauto|]. intros canceled f2 Hs2.
  assert (sound f2) as Hg2 by eauto. apply wp_bind. eapply (wp_mono _ (fun _ => sound) _ sound); [| |done].
  { destruct canceled; [|by apply wp_ret]. apply wp_bind. eapply wp_mono; [by apply wp_adopt| |done].
    intros ? f3 Hg3; cbn beta in Hg3. eapply wp_mono; [by apply (wp_token_check any_owners)|intros ? ? Hx; cbn beta in Hx; by eauto|by eauto]. }
  intros ? f3 Hs3; cbn beta in Hs3. apply wp_bind. eapply wp_mono; [by apply wp_load| |done].
  intros ? f4 Hg4; cbn beta in Hg4. apply wp_bind, wp_consumer. cbv zeta. apply wp_bind, wp_put_active. intros f5 Hs5.
  apply wp_bind. eapply wp_mono; [apply (wp_synchronize any_owners); by eauto| |by eauto].
  intros ? f6 Hg6; cbn beta in Hg6. apply wp_bind. eapply wp_mono; [by apply wp_remove_replaced| |by eauto].
  intros [gone failed_removals] f7 Hg7; cbn beta in Hg7.
  apply wp_bind. eapply wp_mono; [by apply (wp_token_check (leftover config []))| |by eauto].
  intros ? f8 Hg8; cbn beta in Hg8. apply wp_bind. eapply wp_mono; [by apply (wp_native_part (leftover config []))| |by eauto].
  intros snapshot f9 [Hg9 Hnat]; cbn beta in Hnat. apply wp_bind.
  eapply wp_mono; [apply (wp_confirm (leftover config [])); [done|]| |by eauto].
  { intros Ha id (rule & Hin & <-)%repair_ids_native. by apply Hnat. }
  intros ? f10 Hg10; cbn beta in Hg10. apply wp_bind.
  eapply wp_mono; [apply (wp_apply_custom (leftover config [])); [|done]| |by eauto].
  { apply Forall_forall. intros rule Hrule. split.
    - apply list_elem_of_In, filter_In in Hrule as [Hin Hc]. apply desired_admits; [by apply list_elem_of_In|done].
    - intros client. pose proof (HP client) as HPc. rewrite Forall_forall in HPc. by apply HPc. }
  intros [unchanged applied] f11 Hg11; cbn beta in Hg11. apply wp_bind.
  eapply wp_mono; [by apply (wp_inspect_rules (leftover config []))| |by eauto].
  intros inspected f12 Hg12; cbn beta in Hg12. apply wp_bind, wp_ask; [by eauto|]. intros answer f13 Hs13.
  eapply wp_mono; [apply (wp_complete (leftover config [])); by eauto|done|by eauto].
Qed.

(** The rules a snapshot reports as removed are not outstanding. *)
Definition receipts_hold (s : PortForwardRuntimeSnapshot) (f : Forwarding) : Prop :=
  Forall (fun c => outstanding (cleanup_rule_id c) (f_log f) = false) (snap_removed_rules s).

Lemma receipts_of_inventory X s f : reports_inventory X s f -> receipts_hold s f.
Proof.
  intros [Hg Hs]. unfold receipts_hold. rewrite Hs. apply Forall_forall. intros c Hc.
  unfold removed_rules in Hc. apply list_elem_of_fmap in Hc as ([id revision] & -> & Hin). cbn.
  unfold entries in Hin. rewrite merge_sort_Permutation in Hin. apply elem_of_map_to_list in Hin.
  destruct (good_record X f Hg) as [_ _ _ Hr Ha]. destruct (Hr id) as [Ho Hf]; [by eexists|].
  apply not_true_iff_false. intros [[]|[]]%Ha; congruence.
Qed.

Lemma wp_consumer_inspect config interval token f :
  sound f -> wp (consumer_inspect config interval token) (fun s f' => sound f' /\ receipts_hold s f') sound f.
Proof.
  intros Hs. unfold consumer_inspect. apply wp_bind, wp_attempt.
  eapply (wp_mono _ (fun _ => good any_owners) _ sound); [by apply wp_load| |].
  - intros ? f1 Hg1; cbn beta in Hg1. apply wp_bind, wp_consumer. cbv zeta. apply wp_bind.
    eapply (wp_mono _ (fun _ => good any_owners) _ sound); [| |done].
    { destruct (_ || _ || _); [|by apply wp_ret]. apply wp_bind, wp_ask; [by eauto|]. intros a1 f2 Hs2.
      destruct (inspect_native _ _ _ _ _ _ _ _ _) as [snapshot native]. apply wp_bind, wp_put_native. intros f3 Hs3.
      apply wp_ret. by eauto. }
    intros snapshot f2 Hg2; cbn beta in Hg2. apply wp_bind, wp_ask; [by eauto|]. intros a1 f3 Hs3.
    apply wp_bind, wp_ask; [by eauto|]. intros a2 f4 Hs4. assert (good any_owners f4) as Hg4 by eauto. apply wp_bind.
    eapply (wp_mono _ (fun _ => good any_owners) _ sound); [| |done].
    { destruct (reports_fresh _ _ _ _); [by apply wp_ret|].
      eapply wp_mono; [by apply (wp_inspect_rules any_owners)|done|by eauto]. }
    intros stats f5 Hg5; cbn beta in Hg5. eapply wp_mono; [by apply (wp_complete any_owners)| |by eauto].
    intros s f6 Hr. split; [destruct Hr; by eauto|by eapply receipts_of_inventory].
  - intros f1 Hs1 e. apply wp_bind, wp_consumer. apply wp_bind, wp_ask; [by eauto|]. intros a1 f2 Hs2.
    apply wp_ret. split; [by eauto|]. apply Forall_nil_2.
Qed.

(** What a reply says is so. *)
Definition reply_holds (work : PortForwardingWork) (reply : Reply) (f : Forwarding) : Prop :=
  match reply with
  | ReplyReconciled (Ok s) =>
      receipts_hold s f
      /\ match work with
         | WorkReconcile config _ _ _ _ => keyed_owners (owned (mem f)) /\ leftover config [] (owned (mem f))
         | _ => True
         end
  | ReplyInspected s => receipts_hold s f
  | _ => True
  end.

Lemma receipts_same s f f' : same f f' -> receipts_hold s f -> receipts_hold s f'.
Proof. intros (_ & _ & Hl). unfold receipts_hold. by rewrite Hl. Qed.

Definition work_ok (work : PortForwardingWork) : Prop :=
  match work with
  | WorkReconcile config _ _ _ _ | WorkAdoptDesired config => config_ok config
  | _ => True
  end.

Lemma wp_process work f :
  work_ok work -> sound f -> wp (process work) (fun reply f' => sound f' /\ reply_holds work reply f') sound f.
Proof.
  intros HP Hs. destruct work as [|config require force clear ids|config|config|config interval]; cbn [process work_ok] in *.
  - apply wp_bind, wp_ask; [by eauto|]. intros a1 f1 Hs1. apply wp_bind, wp_consumer.
    apply wp_bind, wp_put_native. intros f2 Hs2. apply wp_ret. split; [by eauto|done].
  - apply wp_bind, wp_consumer. apply wp_bind, wp_put_native. intros f1 Hs1. apply wp_bind, wp_attempt.
    eapply wp_mono; [apply wp_reconcile; [done|by eauto]| |].
    + intros s f2 Hr. apply wp_bind, wp_publish. intros f3 Hs3. apply wp_ret. pose proof Hr as [Hg _].
      split; [by eauto|]. split; [eapply receipts_same; [done|]; by eapply receipts_of_inventory|].
      destruct Hs3 as (Hi3 & _). unfold mem. rewrite Hi3. pose proof (keyed _ _ (good_record _ _ Hg)) as Hk.
      by destruct Hg as (_ & _ & ?).
    + intros f2 Hs2 e. apply wp_bind, wp_ret, wp_ret. by split.
  - apply wp_bind, wp_consumer. apply wp_bind. eapply wp_mono; [by apply wp_consumer_inspect| |done].
    intros s f1 [Hs1 Hr]. apply wp_bind, wp_publish. intros f2 Hs2. apply wp_ret.
    split; [by eauto|by eapply receipts_same].
  - apply wp_bind, wp_attempt. eapply wp_mono; [by apply wp_adopt| |]; [intros ? f1 Hg1; cbn beta in Hg1|intros f1 Hs1 e];
      apply wp_ret; split; by eauto.
  - apply wp_bind, wp_consumer. apply wp_bind, wp_is_canceled; [by eauto|]. intros canceled f1 Hs1. apply wp_bind.
    eapply (wp_mono _ (fun _ => sound) _ sound); [|intros ? f2 Hs2; by apply wp_ret|done].
    destruct canceled; [apply wp_ret; by eauto|]. apply wp_bind.
    eapply wp_mono; [apply wp_consumer_inspect; by eauto| |done]. intros s f2 [Hs2 _].
    apply wp_bind, wp_is_canceled; [by eauto|]. intros [] f3 Hs3; [apply wp_ret; by eauto|].
    apply wp_publish. by eauto.
Qed.

(** * Runs *)

Lemma restart_sound client_id f : disk_ok (f_disk f) (f_log f) -> sound (restart client_id f).
Proof. intros Hd. split; [by apply disk_ok_event|done]. Qed.

Definition happening_ok (h : Happening) : Prop := match h with Work work _ => work_ok work | _ => True end.

Lemma happen_sound client_id f h : happening_ok h -> sound f -> sound (happen client_id f h).
Proof.
  intros HP Hs. destruct h as [work answers| | |]; cbn [happen]; [|done..|by apply restart_sound, sound_disk].
  assert (sound (mkForwarding (f_consumer f) (f_disk f) answers (f_log f))) as Hs' by done.
  pose proof (wp_process work _ HP Hs') as Hwp. unfold wp in Hwp. destruct (process _ _) as [[reply|e|] f'].
  - by destruct Hwp.
  - done.
  - by apply restart_sound.
Qed.

Lemma run_sound client_id happenings : Forall happening_ok happenings -> sound (forwarding_run client_id happenings).
Proof.
  intros HP. unfold forwarding_run. assert (sound (forwarding_start client_id)) as Hs by done. revert Hs.
  generalize (forwarding_start client_id). induction HP as [|h happenings HPh _ IH]; intros f Hs; [done|].
  cbn [foldl]. by apply IH, happen_sound.
Qed.

(** The state a work starts in. *)
Definition given (answers : list Answer) (f : Forwarding) : Forwarding :=
  mkForwarding (f_consumer f) (f_disk f) answers (f_log f).

Lemma process_wp client_id happenings work answers :
  Forall happening_ok happenings -> work_ok work ->
  wp (process work) (fun reply f' => sound f' /\ reply_holds work reply f') sound
    (given answers (forwarding_run client_id happenings)).
Proof. intros Hh Hw. apply wp_process; [done|]. pose proof (run_sound client_id happenings Hh) as Hs. by destruct Hs. Qed.

End Ownership.

Section Receipts.
Context `{O : AdapterOps} `{!AdapterLaws O}.

(** Without an assumption on the owners. *)
Lemma any_work work : work_ok (fun _ => True) work.
Proof. destruct work; cbn; try done; intros client; by apply Forall_true. Qed.

Lemma any_process_wp client_id happenings work answers :
  wp (fun _ => True) (process work) (fun reply f' => sound (fun _ => True) f' /\ reply_holds work reply f') (sound (fun _ => True))
    (given answers (forwarding_run client_id happenings)).
Proof.
  apply process_wp; [|apply any_work]. apply Forall_forall. intros [] _; [apply any_work|done..].
Qed.

Definition reply_snapshot (reply : Reply) : option PortForwardRuntimeSnapshot :=
  match reply with
  | ReplyReconciled (Ok s) | ReplyInspected s => Some s
  | _ => None
  end.

(** ** One adapter *)

(** The definition a rule's adapter commands come from. *)
Definition adapter_key (rule : PortForwardRule) : option (Z * str) :=
  (fun commands => (definition_id commands, definition_hash commands)) <$> adapter rule.

Definition run_by (key : Z * str) (id : Z) (e : OwnedRule) : bool :=
  (rule_id (owned_rule e) =? id) && bool_decide (adapter_key (owned_rule e) = Some key).

(** The adapter [key] started Apply for the rule, and since then it did not both succeed in a Remove for the rule
    and report it absent in the Status run next, nor has a native rule taken the rule's place. *)
Fixpoint outstanding_by (key : Z * str) (id : Z) (events : list Event) : bool :=
  match events with
  | [] => false
  | Started PhaseApply e _ :: older => run_by key id e || outstanding_by key id older
  | event :: older =>
      negb match events with
           | Finished PhaseStatus e (Ok bytes) :: Started PhaseStatus _ _ :: Finished PhaseRemove e' (Ok _) :: _ =>
               run_by key id e && run_by key id e' && says_absent bytes
           | _ => false
           end
      && negb (taken_over id event) && outstanding_by key id older
  end.

(** Every Remove for the rule was run by the adapter. *)
Definition removed_by (key : Z * str) (id : Z) (e : OwnedRule) : Prop :=
  rule_id (owned_rule e) = id -> adapter_key (owned_rule e) = Some key.

Lemma run_by_iff key id e : removed_by key id e -> run_by key id e = (rule_id (owned_rule e) =? id).
Proof.
  unfold removed_by, run_by. intros H. destruct (Z.eqb_spec (rule_id (owned_rule e)) id); [|done].
  by rewrite bool_decide_true by auto.
Qed.

Lemma outstanding_one_adapter key id events :
  Forall (event_ok (removed_by key id)) events -> outstanding id events = false -> outstanding_by key id events = false.
Proof.
  intros Hev. rewrite <- !not_true_iff_false. intros Hno Hby. apply Hno. clear Hno. revert Hby.
  induction Hev as [|event older He Hold IH]; [done|].
  assert (Hrest : forall v v' : bool, (v = true -> v' = true) ->
    negb v' && negb (taken_over id event) && outstanding_by key id older = true ->
    negb v && negb (taken_over id event) && outstanding id older = true).
  { intros v v' Hv. rewrite !andb_true_iff, !negb_true_iff. intros ((Hv' & Ht) & Ho). split; [split|]; [|done|auto].
    destruct v; [by rewrite Hv in Hv'|done]. }
  destruct event as [phase e argv|phase e result|config status|]; [destruct phase| | |]; cbn [outstanding outstanding_by];
    try (apply (Hrest false false); done); [|].
  - rewrite !orb_true_iff. intros [Hr|Ho]; [left|right; auto]. unfold run_by in Hr. by apply andb_true_iff in Hr as [? _].
  - apply Hrest. unfold verified_absent. destruct phase; try done. destruct result as [bytes|]; [|done].
    destruct older as [|[[]| | |] [|[|[] e' [b'|]| |] older']]; try done.
    rewrite !andb_true_iff, bool_decide_eq_true. intros ((Hid & ->) & Ha).
    apply Forall_cons in Hold as [_ [Hp _]%Forall_cons]. cbn [event_ok] in Hp.
    by rewrite !(run_by_iff _ _ _ Hp), Hid.
Qed.

(** The custom rules of that id in the configurations handed to the agent have this adapter. *)
Definition uses_adapter (key : Z * str) (id : Z) (work : PortForwardingWork) : Prop :=
  match work with
  | WorkReconcile config _ _ _ _ | WorkAdoptDesired config =>
      forall rule, rule ∈ rules config -> is_custom rule = true -> rule_id rule = id -> adapter_key rule = Some key
  | _ => True
  end.

Lemma uses_adapter_ok key id work : uses_adapter key id work -> work_ok (removed_by key id) work.
Proof.
  destruct work; try done; cbn [uses_adapter work_ok]; intros Hu client; apply Forall_forall;
    intros rule [Hin Hc]%list_elem_of_In%filter_In Hid; cbn in Hid |- *;
    apply Hu; [by apply list_elem_of_In|done|done|by apply list_elem_of_In|done|done].
Qed.

(** C30: a removal receipt says that a rule is gone: over every run of works, failing commands and writes,
    cancellations and kills, when a reply lists a rule as removed, then since Apply was last started for
    that rule either the Remove of an adapter in charge of it succeeded and the Status the same adapter ran next
    reported it absent, or a native rule of the same id was put in force.  When all the configurations handed to
    the agent give the rule one adapter, this is the adapter whose Apply was started; an adapter that was
    replaced may be left out ([adopted_adapter_receipted]). *)
Theorem receipts_prove_absence client_id happenings work answers reply f' s c :
  process work (given answers (forwarding_run client_id happenings)) = (Done reply, f') ->
  reply_snapshot reply = Some s -> c ∈ snap_removed_rules s ->
  outstanding (cleanup_rule_id c) (f_log f') = false
  /\ (forall key, Forall (fun h => match h with Work w _ => uses_adapter key (cleanup_rule_id c) w | _ => True end) happenings ->
        uses_adapter key (cleanup_rule_id c) work -> outstanding_by key (cleanup_rule_id c) (f_log f') = false).
Proof.
  intros Hp Hs Hc. assert (Hout : outstanding (cleanup_rule_id c) (f_log f') = false).
  { pose proof (any_process_wp client_id happenings work answers) as Hwp. unfold wp in Hwp. rewrite Hp in Hwp.
    destruct Hwp as [_ Hr]. assert (receipts_hold s f') as Hh by (destruct reply as [|[]| | |]; simplify_eq/=; [by destruct Hr|done]).
    by eapply Forall_forall in Hh. }
  split; [done|]. intros key Hh Hw. apply outstanding_one_adapter; [|done].
  pose proof (process_wp (removed_by key (cleanup_rule_id c)) client_id happenings work answers) as Hwp.
  unfold wp in Hwp. rewrite Hp in Hwp. destruct Hwp as [[Hd _] _]; [|by apply uses_adapter_ok|].
  - eapply Forall_impl; [exact Hh|]. intros [w a| | |] Hu; [by apply uses_adapter_ok|done..].
  - unfold disk_ok in Hd. destruct (f_disk f'); [destruct Hd as (r & _ & [_ Hl _ _ _] & _); done|by destruct Hd as (_ & ? & _)].
Qed.

(** C31: an interrupted application stays removable: over every run, and wherever the process is killed, a rule
    for which Apply was started and that is not known to be gone is in the inventory on disk, as an owner or
    as a failed cleanup; and while its Apply runs the inventory on disk holds exactly that owner. *)
Theorem started_rules_recoverable client_id happenings work answers o f' :
  process work (given answers (forwarding_run client_id happenings)) = (o, f') ->
  (forall id, outstanding id (f_log f') = true ->
     exists bytes r, f_disk f' = Some bytes /\ record_parse bytes = Ok r
       /\ (is_Some (owned r !! id) \/ is_Some (failures r !! id)))
  /\ (forall e argv older, f_log f' = Started PhaseApply e argv :: older ->
       exists bytes r, f_disk f' = Some bytes /\ record_parse bytes = Ok r /\ owned r !! rule_id (owned_rule e) = Some e).
Proof.
  intros Hp. assert (disk_ok (fun _ => True) (f_disk f') (f_log f')) as Hd.
  { pose proof (any_process_wp client_id happenings work answers) as Hwp. unfold wp in Hwp. rewrite Hp in Hwp.
    destruct o; [destruct Hwp as [Hwp _]| |done]; by eapply sound_disk. }
  destruct (f_disk f') as [bytes|]; cbn [disk_ok] in Hd.
  - destruct Hd as (r & Hparse & Hr & Hrun). split.
    + intros id Ho. exists bytes, r. split; [done|]. split; [done|]. by apply (accounted _ _ _ Hr).
    + intros e argv older Hl. rewrite Hl in Hrun. by exists bytes, r.
  - destruct Hd as (Hq & _ & Hd). split; [intros id Ho; by rewrite Hd in Ho|]. intros e argv older Hl. by rewrite Hl in Hq.
Qed.

(** after a reconciliation no obsolete command is kept: every owner left in the inventory belongs to a custom
    rule of the configuration, of the same id and from the same adapter definition, whatever failed on the way. *)
Theorem reconciled_owners_desired client_id happenings config require force clear ids answers s f' id e :
  process (WorkReconcile config require force clear ids) (given answers (forwarding_run client_id happenings))
    = (Done (ReplyReconciled (Ok s)), f') ->
  owned (inv_record (c_inventory (f_consumer f'))) !! id = Some e ->
  exists rule, rule ∈ rules config /\ rule_id rule = id /\ mode rule = CustomAdapter
    /\ same_adapter rule (owned_rule e) = true.
Proof.
  intros Hp He. pose proof (any_process_wp client_id happenings (WorkReconcile config require force clear ids) answers) as Hwp.
  unfold wp in Hwp. rewrite Hp in Hwp. destruct Hwp as [_ [_ [Hk Hl]]].
  destruct (Hl id e He) as [Hd|Hin]; [|by apply elem_of_nil in Hin].
  apply existsb_exists in Hd as (rule & Hin & [[Hid%Z.eqb_eq Hc%bool_decide_eq_true]%andb_true_iff Ha]%andb_true_iff).
  exists rule. split; [by apply list_elem_of_In|]. split; [|done]. rewrite Hid. by apply Hk.
Qed.
End Receipts.

(** * A sample agent *)

(** The inventory file as the number of its record. *)
#[local] Instance upstream_state_eq_dec : EqDecision PortForwardUpstreamState.
Proof. solve_decision. Defined.
#[local] Instance observation_eq_dec : EqDecision PortForwardUpstreamObservation.
Proof. solve_decision. Defined.
#[local] Instance stat_eq_dec : EqDecision PortForwardRuleRuntimeStat.
Proof. solve_decision. Defined.
#[local] Instance inventory_record_eq_dec : EqDecision InventoryRecord.
Proof. solve_decision. Defined.

#[local] Instance mode_countable : Countable PortForwardMode.
Proof.
  refine (inj_countable' (fun v => match v with Dnat => 0 | Redirect => 1 | CustomAdapter => 2 end)
    (fun n => match n with 0 => Dnat | 1 => Redirect | _ => CustomAdapter end) _); by intros [].
Defined.
#[local] Instance family_countable : Countable PortForwardAddressFamily.
Proof.
  refine (inj_countable' (fun v => match v with Ipv4 => 0 | Ipv6 => 1 | BothFamilies => 2 end)
    (fun n => match n with 0 => Ipv4 | 1 => Ipv6 | _ => BothFamilies end) _); by intros [].
Defined.
#[local] Instance protocol_countable : Countable PortForwardProtocol.
Proof.
  refine (inj_countable' (fun v => match v with Tcp => 0 | Udp => 1 | BothTransports => 2 end)
    (fun n => match n with 0 => Tcp | 1 => Udp | _ => BothTransports end) _); by intros [].
Defined.
#[local] Instance strategy_countable : Countable PortForwardPoolStrategy.
Proof.
  refine (inj_countable' (fun v => match v with RoundRobin => 0 | Random => 1 | SourceIpHash => 2 | LeastConnections => 3 | ConsistentSourceIpHash => 4 end)
    (fun n => match n with 0 => RoundRobin | 1 => Random | 2 => SourceIpHash | 3 => LeastConnections | _ => ConsistentSourceIpHash end) _); by intros [].
Defined.
#[local] Instance role_countable : Countable PortForwardUpstreamRole.
Proof.
  refine (inj_countable' (fun v => match v with Primary => 0 | Backup => 1 end)
    (fun n => match n with 0 => Primary | _ => Backup end) _); by intros [].
Defined.
#[local] Instance upstream_state_countable : Countable PortForwardUpstreamState.
Proof.
  refine (inj_countable' (fun v => match v with Eligible => 0 | Excluded => 1 | StateUnknown => 2 end)
    (fun n => match n with 0 => Eligible | 1 => Excluded | _ => StateUnknown end) _); by intros [].
Defined.
#[local] Instance runtime_status_countable : Countable PortForwardRuntimeStatus.
Proof.
  refine (inj_countable' (fun v => match v with Absent => 0 | Applied => 1 | Drifted => 2 | NftReconcile.Unsupported => 3 | Failed => 4 | StatusUnknown => 5 end)
    (fun n => match n with 0 => Absent | 1 => Applied | 2 => Drifted | 3 => NftReconcile.Unsupported | 4 => Failed | _ => StatusUnknown end) _); by intros [].
Defined.
#[local] Instance ip_countable : Countable IpAddr.
Proof.
  refine (inj_countable' (fun a => match a with IpV4 v => (0, v) | IpV6 v => (1, v) end)
    (fun '(k, v) => if k =? 0 then IpV4 v else IpV6 v) _); by intros [].
Defined.
#[local] Instance failure_policy_countable : Countable PortForwardFailurePolicy.
Proof.
  refine (inj_countable' (fun a => match a with FailureOff => None | Temporary x y z => Some (x, y, z) end)
    (fun o => match o with None => FailureOff | Some (x, y, z) => Temporary x y z end) _); by intros [].
Defined.
#[local] Instance retry_policy_countable : Countable PortForwardRetryPolicy.
Proof.
  refine (inj_countable' (fun a => match a with RetryOff => None | ConnectFailure x y => Some (x, y) end)
    (fun o => match o with None => RetryOff | Some (x, y) => ConnectFailure x y end) _); by intros [].
Defined.
#[local] Instance command_countable : Countable RuntimeTunnelCommand.
Proof.
  refine (inj_countable' (fun r => (cmd_argv r, cmd_max_timeout_secs r, cmd_max_output_bytes r))
    (fun '(x0, x1, x2) => mkCommand x0 x1 x2) _); by intros [].
Defined.
#[local] Instance range_countable : Countable PortRange.
Proof.
  refine (inj_countable' (fun r => (start r, end_ r))
    (fun '(x0, x1) => Build_PortRange x0 x1) _); by intros [].
Defined.
#[local] Instance mapping_countable : Countable PortForwardMapping.
Proof.
  refine (inj_countable' (fun r => (incoming r, target r))
    (fun '(x0, x1) => Build_PortForwardMapping x0 x1) _); by intros [].
Defined.
#[local] Instance adapter_commands_countable : Countable PortForwardAdapterCommands.
Proof.
  refine (inj_countable' (fun r => (definition_id r, definition_name r, definition_hash r, contract_version r, adapter_apply r, adapter_remove r, adapter_status r))
    (fun '(x0, x1, x2, x3, x4, x5, x6) => Build_PortForwardAdapterCommands x0 x1 x2 x3 x4 x5 x6) _); by intros [].
Defined.
#[local] Instance upstream_countable : Countable PortForwardUpstream.
Proof.
  refine (inj_countable' (fun r => (up_id r, up_target_ip r, up_target_hostname r, up_ports r, up_weight r, up_role r, up_enabled r, up_failure_policy r))
    (fun '(x0, x1, x2, x3, x4, x5, x6, x7) => Build_PortForwardUpstream x0 x1 x2 x3 x4 x5 x6 x7) _); by intros [].
Defined.
#[local] Instance pool_countable : Countable PortForwardPool.
Proof.
  refine (inj_countable' (fun r => (pool_incoming r, pool_strategy r, pool_upstreams r, pool_connect_timeout_secs r, pool_retry_policy r))
    (fun '(x0, x1, x2, x3, x4) => Build_PortForwardPool x0 x1 x2 x3 x4) _); by intros [].
Defined.
#[local] Instance rule_countable : Countable PortForwardRule.
Proof.
  refine (inj_countable' (fun r => (rule_id r, revision r, name r, protocol r, target_ip r, mappings r, pool r, masquerade r, mode r, address_family r, adapter r))
    (fun '(x0, x1, x2, x3, x4, x5, x6, x7, x8, x9, x10) => Build_PortForwardRule x0 x1 x2 x3 x4 x5 x6 x7 x8 x9 x10) _); by intros [].
Defined.
#[local] Instance owned_rule_countable : Countable OwnedRule.
Proof.
  refine (inj_countable' (fun r => (owned_client_id r, owned_rule r))
    (fun '(x0, x1) => mkOwned x0 x1) _); by intros [].
Defined.
#[local] Instance observation_countable : Countable PortForwardUpstreamObservation.
Proof.
  refine (inj_countable' (fun r => (obs_upstream_id r, obs_port r, obs_state r, obs_reason r, obs_retry_after_unix r))
    (fun '(x0, x1, x2, x3, x4) => Build_PortForwardUpstreamObservation x0 x1 x2 x3 x4) _); by intros [].
Defined.
#[local] Instance stat_countable : Countable PortForwardRuleRuntimeStat.
Proof.
  refine (inj_countable' (fun r => (stat_rule_id r, stat_revision r, stat_nat_matches r, stat_mode r, stat_status r, stat_observed_unix r, stat_error_code r, stat_error_message r, stat_upstream_observations r))
    (fun '(x0, x1, x2, x3, x4, x5, x6, x7, x8) => Build_PortForwardRuleRuntimeStat x0 x1 x2 x3 x4 x5 x6 x7 x8) _); by intros [].
Defined.
#[local] Instance inventory_record_countable : Countable InventoryRecord.
Proof.
  refine (inj_countable' (fun r => (owned r, removed r, failures r))
    (fun '(x0, x1, x2) => mkRecord x0 x1 x2) _); by intros [].
Defined.

Definition sample_hash : str := repeat 48 64.

#[local] Instance sample_ops : AdapterOps := {|
  record_json r := [Z.pos (encode r)];
  record_parse bytes :=
    match bytes with
    | [Z.pos p] => match decode p with Some r => Ok r | None => Err (error_msg (lit "invalid record")) end
    | _ => Err (error_msg (lit "invalid record"))
    end;
  observation_parse bytes :=
    match bytes with
    | [0] => Ok (mkObservation AdapterAbsent None None [])
    | [1] => Ok (mkObservation AdapterApplied None (Some sample_hash) [])
    | _ => Err (error_msg (lit "expected value"))
    end;
  request_json _ := lit "{}"; client_rule_json _ _ := []; utf8_lossy bytes := bytes;
  agent_state_dir := Ok (lit "/var/lib/vpsman");
  forward_sha256 _ := []; forward_hex _ := sample_hash; forward_rules_json _ := []; forward_value_json _ := [];
  forward_uuid_text _ := []; forward_uuid_parse _ := None;
  validation_error_text _ := lit "invalid"; native_error_text _ := lit "nft failed" |}.

#[local] Instance sample_laws : AdapterLaws sample_ops.
Proof. split. intros r. cbn. by rewrite decode_encode. Qed.

Definition sample_command (phase : string) : RuntimeTunnelCommand :=
  mkCommand [lit "/usr/bin/adapter"; lit phase; lit "{rule_config_json}"] 30 4096.
Definition sample_adapter (definition : Z) : PortForwardAdapterCommands :=
  Build_PortForwardAdapterCommands definition (lit "proxy") sample_hash 2 (sample_command "apply")
    (sample_command "remove") (sample_command "status").
Definition sample_rule (definition revision : Z) : PortForwardRule :=
  Build_PortForwardRule 1 revision (lit "web") Tcp None
    [Build_PortForwardMapping (Build_PortRange 80 80) (Build_PortRange 8080 8080)] None false CustomAdapter None
    (Some (sample_adapter definition)).
Definition sample_config (rules : list PortForwardRule) (cleanup : list PortForwardCleanupRule) :
  AgentPortForwardingConfig := Build_AgentPortForwardingConfig 3 (if is_empty rules then [] else sample_hash) rules cleanup false.

Definition sample_nft : NftReplies := {|
  reply_probe := capability_default; reply_monitor_started := false; reply_nft_found := false;
  reply_before := Ok None; reply_check := Ok tt; reply_apply := Ok tt; reply_after := Ok None |}.

(** An answer to an effect that is not a command, and to a command with its output. *)
Definition plain : Answer :=
  mkAnswer None {| unix_now := 5; ipv4_forwarding := None; ipv6_forwarding := None |} (Completed (Some 0) [] [] false false)
    None Written sample_nft.
Definition output (bytes : list Z) : Answer :=
  mkAnswer None (a_host plain) (Completed (Some 0) bytes [] false false) None Written sample_nft.
Definition exits (code : Z) : Answer :=
  mkAnswer None (a_host plain) (Completed (Some code) [] [] false false) None Written sample_nft.
Definition canceled_now : Answer :=
  mkAnswer (Some (lit "superseded")) (a_host plain) (a_child plain) None Written sample_nft.

Definition reconcile_work (config : AgentPortForwardingConfig) : PortForwardingWork :=
  WorkReconcile config false false true [].

(** The rule is applied; then it is removed at the server's request. *)
Definition rule_applied : Happening :=
  Work (reconcile_work (sample_config [sample_rule 7 1] [])) (repeat plain 6 ++ [output [1]] ++ repeat plain 3).
Definition removal_work : PortForwardingWork := reconcile_work (sample_config [] [Build_PortForwardCleanupRule 1 2]).
Definition removal_answers : list Answer := [plain; plain; plain; output [0]; plain; plain; plain; plain].

Definition removed_ids (result : outcome Reply * Forwarding) : list Z :=
  match result with
  | (Done reply, _) =>
      match reply_snapshot reply with Some s => map cleanup_rule_id (snap_removed_rules s) | None => [] end
  | _ => []
  end.
Definition reported_status (result : outcome Reply * Forwarding) : option PortForwardRuntimeStatus :=
  match result with (Done reply, _) => option_map snap_status (reply_snapshot reply) | _ => None end.

(** The rule is reported as removed. *)
Definition removal_ex : outcome Reply * Forwarding :=
  process removal_work (given removal_answers (forwarding_run (lit "edge") [rule_applied])).

Lemma receipts_prove_absence_witness :
  exists reply s c, fst removal_ex = Done reply /\ reply_snapshot reply = Some s /\ c ∈ snap_removed_rules s
    /\ outstanding_by (7, sample_hash) (cleanup_rule_id c) (f_log (snd removal_ex)) = false.
Proof.
  assert (exists reply s c, fst removal_ex = Done reply /\ reply_snapshot reply = Some s /\ c ∈ snap_removed_rules s)
    as (reply & s & c & Hp & Hs & Hc).
  { do 3 eexists. split; [vm_compute; reflexivity|]. split; [reflexivity|]. apply elem_of_cons. left. reflexivity. }
  exists reply, s, c. split; [exact Hp|]. split; [exact Hs|]. split; [exact Hc|].
  assert (Hx : removal_ex = (Done reply, snd removal_ex)) by (rewrite <- Hp; apply surjective_pairing).
  refine (proj2 (receipts_prove_absence (lit "edge") [rule_applied] removal_work removal_answers reply (snd removal_ex) s c Hx Hs Hc)
    (7, sample_hash) _ _).
  - constructor; [|constructor]. intros rule Hin _ _. apply elem_of_cons in Hin as [->|Hin]; [reflexivity|].
    destruct (not_elem_of_nil _ Hin).
  - intros rule Hin. destruct (not_elem_of_nil _ Hin).
Defined.

(** The process is killed while Apply runs. *)
Definition first_work : PortForwardingWork := reconcile_work (sample_config [sample_rule 7 1] []).
Definition killed_ex : outcome Reply * Forwarding :=
  process first_work (given (repeat plain 5) (forwarding_run (lit "edge") [])).

Lemma started_rules_recoverable_witness :
  fst killed_ex = Killed
  /\ exists e argv bytes r, f_log (snd killed_ex) = [Started PhaseApply e argv]
    /\ f_disk (snd killed_ex) = Some bytes /\ record_parse bytes = Ok r /\ owned r !! rule_id (owned_rule e) = Some e.
Proof.
  split; [vm_compute; reflexivity|].
  assert (exists e argv, f_log (snd killed_ex) = [Started PhaseApply e argv]) as (e & argv & Hl)
    by (do 2 eexists; vm_compute; reflexivity).
  destruct (proj2 (started_rules_recoverable (lit "edge") [] first_work (repeat plain 5) (fst killed_ex) (snd killed_ex)
    (surjective_pairing _)) e argv [] Hl) as (bytes & r & H1 & H2 & H3).
  exists e, argv, bytes, r. exact (conj Hl (conj H1 (conj H2 H3))).
Defined.

(** The owner left after the first reconciliation. *)
Definition first_answers : list Answer := repeat plain 6 ++ [output [1]] ++ repeat plain 3.
Definition reconciled_ex : outcome Reply * Forwarding := process first_work (given first_answers (forwarding_run (lit "edge") [])).

Lemma reconciled_owners_desired_witness :
  exists s e rule, fst reconciled_ex = Done (ReplyReconciled (Ok s))
    /\ owned (inv_record (c_inventory (f_consumer (snd reconciled_ex)))) !! 1 = Some e
    /\ rule ∈ [sample_rule 7 1] /\ same_adapter rule (owned_rule e) = true.
Proof.
  assert (exists s e, fst reconciled_ex = Done (ReplyReconciled (Ok s))
    /\ owned (inv_record (c_inventory (f_consumer (snd reconciled_ex)))) !! 1 = Some e) as (s & e & Hp & He)
    by (do 2 eexists; split; vm_compute; reflexivity).
  assert (reconciled_ex = (Done (ReplyReconciled (Ok s)), snd reconciled_ex)) as Hx by (rewrite <- Hp; apply surjective_pairing).
  destruct (reconciled_owners_desired (lit "edge") [] (sample_config [sample_rule 7 1] []) false false true [] first_answers
    s (snd reconciled_ex) 1 e Hx He) as (rule & Hin & _ & _ & Ha).
  exists s, e, rule. exact (conj Hp (conj He (conj Hin Ha))).
Defined.

(** * Exceptions *)

(** A work that is canceled while the unchanged rules are inspected reports them as applied, although no
    adapter was asked. *)
Example canceled_inspection_reports_applied :
  let result := process (reconcile_work (sample_config [sample_rule 7 1] []))
    (given [plain; plain; plain; canceled_now; plain; plain] (forwarding_run (lit "edge") [rule_applied])) in
  (reported_status (fst result, snd result), length (f_log (snd result)))
  = (Some Applied, length (f_log (forwarding_run (lit "edge") [rule_applied]))).
Proof. vm_compute. reflexivity. Qed.

(** The Remove of a replaced adapter fails; once the adapter that replaced it is removed, the rule is reported
    as removed, and the failure is forgotten. *)
Example residue_of_replaced_adapter_receipted :
  let replaced :=
    Work (reconcile_work (sample_config [sample_rule 8 2] []))
      ([plain; plain; exits 1] ++ repeat plain 6 ++ [output [1]] ++ repeat plain 3) in
  let run := forwarding_run (lit "edge") [rule_applied; replaced] in
  let result := process removal_work (given removal_answers run) in
  dom (failures (inv_record (c_inventory (f_consumer run)))) = {[1]}
  /\ removed_ids result = [1] /\ reported_status result = Some Absent.
Proof. split; [|split]; vm_compute; reflexivity. Qed.

(** An adapter is put in charge without an Apply while another's work is left; the removal asks the new one
    only, and the rule is reported as removed. *)
Example adopted_adapter_receipted :
  let adopted := Work (WorkAdoptDesired (sample_config [sample_rule 8 2] [])) (repeat plain 8) in
  let result := process removal_work (given removal_answers (forwarding_run (lit "edge") [rule_applied; adopted])) in
  removed_ids result = [1] /\ outstanding 1 (f_log (snd result)) = false
  /\ outstanding_by (7, sample_hash) 1 (f_log (snd result)) = true.
Proof. split; [|split]; vm_compute; reflexivity. Qed.
