(* ===== verification/AlertEvents.v ===== *)
(** Alert-event schedules: crates/common/src/selection/alert_event_expression.rs
    (which lifecycle edges a schedule expression may fire on),
    alert_event_argv.rs (the argv template it runs) and
    alert_policy_evidence.rs (the identity of a state observation).

    Parameters of the sections: the regex compiler and matcher and the
    timestamp parser of the expressions, the float printer and the serialiser
    of serde_json, SHA-256 and the hex encoder. *)

From S2P Require Import Prelude RustStd F64 Json Auth Expression ExpressionParser.

Open Scope Z_scope.

Abbreviation outcome := (result str) (only parsing).

(** * Schedule expressions *)

Definition ALERT_EVENT_IMMUTABLE_FIELDS : list str := map lit [
  "event.id"; "event.kind"; "event.occurred_at"; "event.recorded_at"; "alert.id";
  "alert.public_id"; "alert.episode_id"; "alert.record_kind"; "alert.category";
  "alert.severity"; "alert.lifecycle_state"; "alert.trigger_generation";
  "alert.source_status"; "alert.resolution_reason"; "alert.title"; "alert.detail";
  "alert.client_id"; "alert.target_kind"; "alert.target_id"; "policy.id"; "policy.name";
  "policy_rule.id"; "policy_rule.name"; "policy_rule.rule_version"; "policy_rule.rule_kind";
  "policy_rule.evidence_source"; "policy_rule.system_seed_key";
  "policy_rule.trigger_meta_condition.kind";
  "policy_rule.trigger_meta_condition.window_seconds";
  "policy_rule.resolve_meta_condition.kind";
  "policy_rule.resolve_meta_condition.window_seconds"]%string.

Definition ALERT_EVENT_CATEGORIES : list string :=
  ["agent_status"; "network"; "backup"; "agent_update"; "job"; "capability_degraded";
   "traffic"; "resource"]%string.

Definition ALERT_EVENT_SEVERITIES : list string := ["info"; "warning"; "critical"]%string.

(** [event.strip_prefix(prefix).is_some_and(|value| values.contains(&value))]. *)
Definition suffix_in (prefix : string) (values : list string) (event : str) : bool :=
  match strip_prefix (lit prefix) event with
  | Some value => one_of value values
  | None => false
  end.

Definition is_lifecycle_anchor (event : str) : bool :=
  one_of event ["alert.triggered"; "alert.resolved"]%string.

Fixpoint contains_unsupported_alert_predicate (expression : Expression) : bool :=
  match expression with
  | Pred (Bare _) | Pred Untagged => true
  | Pred (Event event) =>
      let event := to_ascii_lowercase event in
      negb (is_lifecycle_anchor event
            || suffix_in "alert.category:" ALERT_EVENT_CATEGORIES event
            || suffix_in "alert.severity:" ALERT_EVENT_SEVERITIES event)
  | Pred (Comparison field _ _) | Pred (Membership field _ _) =>
      negb (existsb (eq_ignore_ascii_case field) ALERT_EVENT_IMMUTABLE_FIELDS)
  | Not inner => contains_unsupported_alert_predicate inner
  | And l r | Or l r =>
      contains_unsupported_alert_predicate l || contains_unsupported_alert_predicate r
  end.

Fixpoint every_or_branch_has_lifecycle_anchor (expression : Expression) : bool :=
  match expression with
  | Pred (Event event) => is_lifecycle_anchor event
  | Pred _ | Not _ => false
  | And l r => every_or_branch_has_lifecycle_anchor l || every_or_branch_has_lifecycle_anchor r
  | Or l r => every_or_branch_has_lifecycle_anchor l && every_or_branch_has_lifecycle_anchor r
  end.

Definition validate_alert_event_expression (expression : Expression) : outcome unit :=
  if contains_unsupported_alert_predicate expression
  then Err (lit "event_expression_not_alert_only")
  else if negb (every_or_branch_has_lifecycle_anchor expression)
  then Err (lit "event_expression_missing_lifecycle_anchor")
  else Ok tt.

(** The nested [visit] of the anchor kinds, on the pair of flags. *)
Fixpoint visit_anchors (expression : Expression) (kinds : bool * bool) : bool * bool :=
  match expression with
  | Pred (Event event) =>
      if str_eqb event (lit "alert.triggered") then (true, snd kinds)
      else if str_eqb event (lit "alert.resolved") then (fst kinds, true)
      else kinds
  | Not _ | Pred _ => kinds
  | And l r | Or l r => visit_anchors r (visit_anchors l kinds)
  end.

Definition alert_event_expression_anchor_kinds (expression : Expression) : bool * bool :=
  visit_anchors expression (false, false).

(** [None] only when the parser runs out of fuel, which it never does
    ([ParserProofs]). *)
Definition parse_and_validate_alert_event_expression (regex_new : str -> outcome unit) (input : str) :
  option (outcome Expression) :=
  match parse_expression regex_new input with
  | None => None
  | Some (Err e) => Some (Err e)
  | Some (Ok None) => Some (Err (lit "event expression is empty"))
  | Some (Ok (Some expression)) =>
      Some (validate_alert_event_expression expression;; Ok expression)
  end.

(** * Argv templates *)

Definition ALERT_EVENT_ARGV_MAX_ELEMENTS : Z := 128.
Definition ALERT_EVENT_ARGV_MAX_ELEMENT_BYTES : Z := 16 * 1024.
Definition ALERT_EVENT_ARGV_MAX_BYTES : Z := 64 * 1024.
Definition ALERT_EVENT_NOOP_ARGV : list str := [lit "/bin/true"].
Definition ALERT_EVENT_ARGV_CONTROL_TOKENS : list str :=
  map lit ["[if"; "[elseif"; "[else"; "[for"; "[end"; "[endif"; "[endfor"]%string.
Definition ALERT_EVENT_ARGV_HELPER_TOKENS : list str :=
  map lit [".filter"; ".where"; ".count"; ".map"]%string.
Definition ALERT_EVENT_ARGV_SCALAR_PATHS : list string := [
  "event.id"; "event.kind"; "event.occurred_at"; "event.recorded_at"; "alert.id";
  "alert.public_id"; "alert.episode_id"; "alert.title"; "alert.detail"; "alert.category";
  "alert.severity"; "alert.record_kind"; "alert.lifecycle_state"; "alert.trigger_generation";
  "alert.source_status"; "alert.resolution_reason"; "alert.target_kind"; "alert.target_id";
  "policy.id"; "policy.name"; "policy_rule.id"; "policy_rule.name"; "policy_rule.rule_version";
  "policy_rule.rule_kind"; "policy_rule.evidence_source";
  "policy_rule.trigger_meta_condition.kind";
  "policy_rule.trigger_meta_condition.window_seconds";
  "policy_rule.resolve_meta_condition.kind";
  "policy_rule.resolve_meta_condition.window_seconds"; "schedule.id"; "schedule.name";
  "schedule.definition_revision"; "schedule.fixed_target_count";
  "schedule.matched_subject_count"]%string.

Inductive TemplatePart :=
| Literal (value : str)
| Placeholder (path : str).

Definition effective_template (template : option (list str)) : list str :=
  match template with
  | None => ALERT_EVENT_NOOP_ARGV
  | Some argv => argv
  end.

Definition contains_control_or_helper_syntax (value : str) : bool :=
  let lower := to_ascii_lowercase value in
  existsb (contains_str lower)
    (ALERT_EVENT_ARGV_CONTROL_TOKENS ++ ALERT_EVENT_ARGV_HELPER_TOKENS).

Definition contains_template_syntax (value : str) : bool :=
  contains_char 123 value || contains_char 125 value || contains_control_or_helper_syntax value.

(** [format!("{{{path}}}")]. *)
Definition braced (path : str) : str := [123] ++ path ++ [125].

Definition CLOSING_BRACE : str := lit "unexpected scalar placeholder closing brace".

(** The visitor is a closure over a variable of the caller: it is given and
    returns its value.  Every turn consumes an opening brace, so the length of
    the template bounds the turns; the error of the last line is not reached
    ([AlertEventProofs.visit_template_parts_eq]). *)
Section Visit.
Context {S : Type} (visit : S -> TemplatePart -> outcome S).

Fixpoint visit_loop (fuel : nat) (state : S) (remaining : str) : outcome S :=
  match fuel with
  | O => Err (lit "")
  | Datatypes.S fuel' =>
      match split_once 123 remaining with
      | None =>
          if contains_char 125 remaining then Err CLOSING_BRACE
          else visit state (Literal remaining)
      | Some (literal, after_open) =>
          if contains_char 125 literal then Err CLOSING_BRACE
          else
            state ← visit state (Literal literal);
            match split_once 125 after_open with
            | None => Err (lit "unclosed scalar placeholder")
            | Some (path, rest) =>
                if contains_char 123 path then Err (lit "nested scalar placeholder")
                else if negb (one_of path ALERT_EVENT_ARGV_SCALAR_PATHS)
                then Err (lit "unsupported event argv scalar path " ++ braced path)
                else
                  state ← visit state (Placeholder path);
                  visit_loop fuel' state rest
            end
      end
  end.

Definition visit_template_parts (state : S) (template : str) : outcome S :=
  visit_loop (Datatypes.S (length template)) state template.
End Visit.

Definition visit_placeholders {S} (visit : S -> str -> outcome S) (state : S) (template : str) :
  outcome S :=
  visit_template_parts (fun state part =>
    match part with
    | Literal _ => Ok state
    | Placeholder path => visit state path
    end) state template.

Definition CONTROL_SYNTAX : str := lit "event_argv_template_control_syntax_unsupported".

Definition validate_direct_scalar_template (template : str) : outcome unit :=
  if contains_control_or_helper_syntax template then Err CONTROL_SYNTAX
  else visit_placeholders (fun _ _ => Ok tt) tt template.

(** The loop over the elements of an argv; [empty] is its message for an empty
    element. *)
Fixpoint check_elements (empty : str) (index : Z) (argv : list str) : outcome unit :=
  match argv with
  | [] => Ok tt
  | value :: argv' =>
      if is_empty value then Err (empty ++ to_string index)
      else if contains_char 0 value then Err (lit "event_argv_contains_nul_at_" ++ to_string index)
      else if ALERT_EVENT_ARGV_MAX_ELEMENT_BYTES <? str_len value
      then Err (lit "event_argv_element_too_large_at_" ++ to_string index)
      else check_elements empty (index + 1) argv'
  end.

(** The sum of the lengths of an argv. *)
Definition argv_bytes (argv : list str) : Z := foldr (fun value acc => str_len value + acc) 0 argv.

(** The loop over the elements from the second on. *)
Fixpoint validate_tail (index : Z) (argv : list str) : outcome unit :=
  match argv with
  | [] => Ok tt
  | element :: argv' =>
      map_err (fun error => lit "event_argv_template_invalid_at_" ++ to_string index ++ lit ": " ++ error)
        (validate_direct_scalar_template element);;
      validate_tail (index + 1) argv'
  end.

Definition validate_alert_event_argv_template (template : option (list str)) : outcome unit :=
  match effective_template template with
  | [] => Err (lit "event_argv_empty")
  | argv0 :: tail as argv =>
      if ALERT_EVENT_ARGV_MAX_ELEMENTS <? vec_len argv then Err (lit "event_argv_too_many_elements")
      else if ALERT_EVENT_ARGV_MAX_BYTES <? argv_bytes argv
      then Err (lit "event_argv_template_too_large")
      else
        check_elements (lit "event_argv_element_empty_at_") 0 argv;;
        if is_empty (trim argv0) then Err (lit "event_argv0_empty")
        else if contains_template_syntax argv0 then Err (lit "event_argv0_must_be_literal")
        else validate_tail 1 tail
  end.

Definition alert_event_argv_template_uses_path (template : option (list str)) (expected_path : str) :
  outcome bool :=
  validate_alert_event_argv_template template;;
  try_fold (fun found element =>
      visit_placeholders (fun found path => Ok (found || str_eqb path expected_path)) found element)
    false (effective_template template).

Definition validate_rendered_argv (argv : list str) : outcome unit :=
  match argv with
  | [] => Err (lit "event_argv_empty_after_render")
  | argv0 :: _ =>
      if is_empty (trim argv0) then Err (lit "event_argv0_empty_after_render")
      else if ALERT_EVENT_ARGV_MAX_ELEMENTS <? vec_len argv
      then Err (lit "event_argv_too_many_elements")
      else if ALERT_EVENT_ARGV_MAX_BYTES <? argv_bytes argv then Err (lit "event_argv_too_large")
      else check_elements (lit "event_argv_element_empty_after_render_at_") 0 argv
  end.

(** The variant of [JobCommand] the rendering builds. *)
Inductive JobCommand := Shell (argv : list str) (pty : bool).

Section Rendering.
Context (float_to_string : f64 -> str).
Context (sha256 : list Z -> list Z) (hex_encode : list Z -> str).
Context (encode_command : JobCommand -> outcome (list Z)).
Context (encode_strings : list str -> outcome (list Z)).

(** [Number]'s [to_string]. *)
Definition number_to_string (n : Number) : str :=
  match n with
  | PosInt n | NegInt n => to_string n
  | Float f => float_to_string f
  end.

(** The walk down the object for a path. *)
Definition resolve_path (context : Value) (path : str) : outcome Value :=
  try_fold (fun value segment =>
      ok_or (json_get value segment)
        (lit "event argv scalar path " ++ braced path ++ lit " is missing"))
    context (split 46 path).

Definition scalar_text (path : str) (value : Value) : outcome str :=
  match value with
  | Str s => Ok s
  | Bool b => Ok (lit (if b then "true" else "false"))
  | Num n => Ok (number_to_string n)
  | Null => Err (lit "event argv scalar path " ++ braced path ++ lit " resolved to null")
  | Array _ | Object _ =>
      Err (lit "event argv scalar path " ++ braced path ++ lit " did not resolve to a scalar")
  end.

Definition render_part (context : Value) (rendered : str) (part : TemplatePart) : outcome str :=
  match part with
  | Literal value => Ok (rendered ++ value)
  | Placeholder path =>
      value ← resolve_path context path;
      text ← scalar_text path value;
      Ok (rendered ++ text)
  end.

Definition render_direct_scalar_template (template : str) (context : Value) : outcome str :=
  if contains_control_or_helper_syntax template then Err CONTROL_SYNTAX
  else visit_template_parts (render_part context) [] template.

Definition render_alert_event_argv_template (template : option (list str)) (context : Value) :
  outcome (list str) :=
  validate_alert_event_argv_template template;;
  argv ← try_map (fun element => render_direct_scalar_template element context)
           (effective_template template);
  validate_rendered_argv argv;;
  Ok argv.

Definition render_alert_event_job_command (template : option (list str)) (context : Value) :
  outcome (JobCommand * str) :=
  argv ← render_alert_event_argv_template template context;
  let operation := Shell argv false in
  bytes ← encode_command operation;
  Ok (operation, payload_hash sha256 hex_encode bytes).

Definition alert_event_argv_template_hash (template : option (list str)) : outcome str :=
  validate_alert_event_argv_template template;;
  bytes ← encode_strings (effective_template template);
  Ok (payload_hash sha256 hex_encode bytes).

End Rendering.

(** * The identity of a state observation *)

(** [value.pointer("/a/b")] of an object. *)
Definition pointer2 (v : Value) (a b : string) : option Value :=
  match json_get v (lit a) with
  | Some inner => json_get inner (lit b)
  | None => None
  end.

Definition or_null (v : option Value) : Value := default Null v.

Definition state_source_identity (source_kind : str) (payload : Value) : Value :=
  let get k := or_null (json_get payload (lit k)) in
  if one_of source_kind ["agent.status"; "agent.access"]%string then
    json_object [("status", get "status")]%string
  else if one_of source_kind ["tunnel.adapter"]%string then
    json_object [("adapter_success", or_null (pointer2 payload "adapter" "success"));
                 ("interface", get "interface"); ("reason", get "reason")]%string
  else if one_of source_kind ["tunnel.traffic"]%string then
    json_object [("traffic_status", or_null (pointer2 payload "traffic" "status"));
                 ("interface", get "interface"); ("reason", get "reason")]%string
  else json_object [("status", get "status"); ("source_status", get "source_status")]%string.

Section Evidence.
Context (sha256 : list Z -> list Z) (hex_encode : list Z -> str).
Context (json_to_string : Value -> str).

Definition identity_hash (source_kind : str) (payload : Value) : str :=
  payload_hash sha256 hex_encode
    (as_bytes (json_to_string (state_source_identity source_kind payload))).

Definition alert_policy_state_source_event_id (source_kind natural_key : str)
    (observed_at_unix_nanos : Z) (payload : Value) : str :=
  natural_key ++ [58] ++ to_string observed_at_unix_nanos ++ [58] ++
  identity_hash source_kind payload.

Definition alert_policy_state_source_revision_event_id (source_kind natural_key revision_token : str)
    (payload : Value) : str :=
  natural_key ++ [58] ++ payload_hash sha256 hex_encode (as_bytes revision_token) ++ [58] ++
  identity_hash source_kind payload.

End Evidence.
