(* ===== verification/AlertEventProofs.v ===== *)
(** Theorems on alert-event schedules ([AlertEvents]): a validated expression
    only fires on a lifecycle edge it names, a rendered argv is its template
    with scalar values in place of the placeholders and nothing else, and an
    event id determines what it was built from. *)

From S2P Require Import Prelude RustStd F64 Json Auth Expression ExpressionParser ExpressionProofs AlertEvents.

Open Scope Z_scope.

#[local] Arguments lit : simpl never.
#[local] Arguments one_of : simpl never.
#[local] Arguments visit_template_parts : simpl never.
#[local] Arguments braced : simpl never.

(** * Reference definitions *)

Definition no_brace (s : str) : Prop := 123 ∉ s /\ 125 ∉ s.

(** The grammar of an argv element: brace-free text around allowed paths. *)
Inductive Parts : str -> list TemplatePart -> Prop :=
| parts_last text : no_brace text -> Parts text [Literal text]
| parts_next text path rest parts :
    no_brace text -> one_of path ALERT_EVENT_ARGV_SCALAR_PATHS = true -> Parts rest parts ->
    Parts (text ++ braced path ++ rest) (Literal text :: Placeholder path :: parts).

Section Texts.
Context (float_to_string : f64 -> str).

(** The text a part stands for. *)
Definition part_text (context : Value) (part : TemplatePart) : result str str :=
  match part with
  | Literal value => Ok value
  | Placeholder path => value ← resolve_path context path; scalar_text float_to_string path value
  end.
End Texts.

Definition part_uses (expected : str) (part : TemplatePart) : bool :=
  match part with Literal _ => false | Placeholder path => str_eqb path expected end.

(** * Schedule expressions *)

Lemma visit_anchors_le e kinds :
  (fst kinds = true -> fst (visit_anchors e kinds) = true) /\
  (snd kinds = true -> snd (visit_anchors e kinds) = true).
Proof.
  revert kinds. induction e as [p|e IH|l IHl r IHr|l IHl r IHr]; intros kinds; cbn; [|done|..].
  - destruct p; try done. repeat case_match; done.
  - destruct (IHl kinds), (IHr (visit_anchors l kinds)); auto.
  - destruct (IHl kinds), (IHr (visit_anchors l kinds)); auto.
Qed.

(** The edge an anchored expression that holds must name. *)
Definition edge_named (v : Predicate -> bool) (kinds : bool * bool) : Prop :=
  (fst kinds = true /\ v (Event (lit "alert.triggered")) = true) \/
  (snd kinds = true /\ v (Event (lit "alert.resolved")) = true).

Lemma edge_named_le v e kinds : edge_named v kinds -> edge_named v (visit_anchors e kinds).
Proof. destruct (visit_anchors_le e kinds). unfold edge_named. naive_solver. Qed.

Lemma anchored_edge v e kinds :
  every_or_branch_has_lifecycle_anchor e = true -> eval v e = true ->
  edge_named v (visit_anchors e kinds).
Proof.
  revert kinds. induction e as [p|e IH|l IHl r IHr|l IHl r IHr]; intros kinds Ha Hv; cbn in *; try done.
  - destruct p as [|? ? ?|? ? ?|name|]; try done. unfold is_lifecycle_anchor, one_of in Ha. cbn in Ha. rewrite orb_false_r in Ha.
    destruct (str_eqb name (lit "alert.triggered")) eqn:Et.
    + apply str_eqb_eq in Et as ->. by left.
    + cbn in Ha. rewrite Ha. apply str_eqb_eq in Ha as ->. by right.
  - bools. apply orb_prop in Ha as [Ha|Ha]; [apply edge_named_le|]; auto.
  - bools. apply orb_prop in Hv as [Hv|Hv]; [apply edge_named_le|]; auto.
Qed.


(** * Argv templates *)

Lemma split_once_length c s l r : split_once c s = Some (l, r) -> (length r < length s)%nat.
Proof. intros [-> _]%split_once_spec. rewrite length_app. cbn. lia. Qed.

Section Visits.
Context {S : Type} (visit : S -> TemplatePart -> result str S).

(** Any fuel above the length of the text gives the same answer. *)
Lemma visit_loop_fuel fuel fuel' s t :
  (length t < fuel)%nat -> (length t < fuel')%nat ->
  visit_loop visit fuel s t = visit_loop visit fuel' s t.
Proof.
  revert fuel' s t. induction fuel as [|fuel IH]; intros [|fuel'] s t H1 H2; try lia. cbn.
  destruct (split_once 123 t) as [[l r]|] eqn:E1; [|done]. apply split_once_length in E1.
  destruct (contains_char 125 l); [done|]. destruct (visit s (Literal l)); cbn; [|done].
  destruct (split_once 125 r) as [[path rest]|] eqn:E2; [|done]. apply split_once_length in E2.
  repeat case_match; try done. destruct (visit _ (Placeholder path)); cbn; [|done]. apply IH; lia.
Qed.

(** The loop as the source writes it: the fuel is never exhausted. *)
Lemma visit_template_parts_eq s t :
  visit_template_parts visit s t =
  match split_once 123 t with
  | None => if contains_char 125 t then Err CLOSING_BRACE else visit s (Literal t)
  | Some (l, r) =>
      if contains_char 125 l then Err CLOSING_BRACE
      else
        s ← visit s (Literal l);
        match split_once 125 r with
        | None => Err (lit "unclosed scalar placeholder")
        | Some (path, rest) =>
            if contains_char 123 path then Err (lit "nested scalar placeholder")
            else if negb (one_of path ALERT_EVENT_ARGV_SCALAR_PATHS)
            then Err (lit "unsupported event argv scalar path " ++ braced path)
            else s ← visit s (Placeholder path); visit_template_parts visit s rest
        end
  end.
Proof.
  unfold visit_template_parts at 1. cbn [visit_loop].
  destruct (split_once 123 t) as [[l r]|] eqn:E1; [|done]. apply split_once_length in E1.
  destruct (contains_char 125 l); [done|]. destruct (visit s (Literal l)) as [s1|]; [|done].
  cbn [mbind result_bind].
  destruct (split_once 125 r) as [[path rest]|] eqn:E2; [|done]. apply split_once_length in E2.
  destruct (contains_char 123 path); [done|]. destruct (negb _); [done|].
  destruct (visit s1 (Placeholder path)) as [s2|]; [|done]. apply visit_loop_fuel; lia.
Qed.

Lemma scalar_path_no_brace path : one_of path ALERT_EVENT_ARGV_SCALAR_PATHS = true -> no_brace path.
Proof.
  intros H. apply one_of_spec in H as (x & Hx & ->). unfold no_brace.
  revert x Hx. apply List.Forall_forall.
  repeat (apply Forall_cons_2 || apply Forall_nil_2; [apply (bool_decide_unpack _); vm_compute; exact I|]).
  apply Forall_nil_2.
Qed.

(** On a text of the grammar the visitor is given its parts, in order. *)
Lemma visit_parts t parts :
  Parts t parts -> forall s, visit_template_parts visit s t = try_fold visit s parts.
Proof.
  induction 1 as [text [H1 H2]|text path rest parts [H1 H2] Hp _ IH]; intros s;
    rewrite visit_template_parts_eq.
  - rewrite (proj2 (split_once_None 123 text) H1), (contains_char_false _ _ H2). cbn.
    by destruct (visit s _).
  - destruct (scalar_path_no_brace _ Hp) as [P1 P2].
    rewrite (proj2 (split_once_spec 123 _ text (path ++ 125 :: rest))).
    2:{ split; [|done]. unfold braced. cbn. by rewrite <- app_assoc. }
    rewrite (contains_char_false _ _ H2). cbn. destruct (visit s (Literal text)); cbn; [|done].
    rewrite (proj2 (split_once_spec 125 _ path rest)) by done.
    rewrite (contains_char_false _ _ P1), Hp. cbn. destruct (visit _ (Placeholder path)); cbn; auto.
Qed.

(** Only texts of the grammar are visited to the end. *)
Lemma visit_ok_parts s t s' : visit_template_parts visit s t = Ok s' -> exists parts, Parts t parts.
Proof.
  remember (length t) as n eqn:Hn. revert s t Hn. induction n as [n IH] using lt_wf_ind.
  intros s t -> H. rewrite visit_template_parts_eq in H.
  destruct (split_once 123 t) as [[l r]|] eqn:E1.
  - pose proof (split_once_length _ _ _ _ E1) as L1. apply split_once_spec in E1 as [-> H1].
    destruct (contains_char 125 l) eqn:H2; [done|]. inv_bind.
    destruct (split_once 125 r) as [[path rest]|] eqn:E2; [|done].
    pose proof (split_once_length _ _ _ _ E2) as L2. apply split_once_spec in E2 as [-> _].
    destruct (contains_char 123 path); [done|].
    destruct (one_of path _) eqn:Hp; [|done]. cbn in H. inv_bind.
    edestruct IH as [parts Hparts]; [|done|exact H|]; [lia|].
    exists (Literal l :: Placeholder path :: parts).
    replace (l ++ 123 :: path ++ 125 :: rest) with (l ++ braced path ++ rest)
      by (unfold braced; cbn; by rewrite <- app_assoc).
    constructor; try done. split; [done|]. intros Hin%contains_char_spec. congruence.
  - apply split_once_None in E1. destruct (contains_char 125 t) eqn:H2; [done|].
    exists [Literal t]. constructor. split; [done|]. intros Hin%contains_char_spec. congruence.
Qed.

End Visits.

(** Rendering a list of parts appends their texts. *)
Lemma render_parts fs context parts rendered :
  try_fold (render_part fs context) rendered parts =
  (texts ← try_map (part_text fs context) parts; Ok (rendered ++ concat texts)).
Proof.
  revert rendered. induction parts as [|part parts IH]; intros rendered; cbn.
  - by rewrite app_nil_r.
  - destruct part as [value|path]; cbn.
    + rewrite IH. destruct (try_map _ parts); cbn; [by rewrite app_assoc|done].
    + destruct (resolve_path context path); cbn; [|done].
      destruct (scalar_text fs path _); cbn; [|done].
      rewrite IH. destruct (try_map _ parts); cbn; [by rewrite app_assoc|done].
Qed.

(** What a rendered element is. *)
Lemma render_element fs context element arg :
  render_direct_scalar_template fs element context = Ok arg ->
  exists parts texts, Parts element parts /\ try_map (part_text fs context) parts = Ok texts /\
                      arg = concat texts.
Proof.
  unfold render_direct_scalar_template. destruct (contains_control_or_helper_syntax element); [done|].
  intros H. destruct (visit_ok_parts _ _ _ _ H) as [parts Hp].
  rewrite (visit_parts _ _ _ Hp), render_parts in H. inv_bind. subst. eauto.
Qed.

Lemma check_elements_spec empty index argv :
  check_elements empty index argv = Ok tt ->
  Forall (fun arg => arg <> [] /\ 0 ∉ arg /\ str_len arg <= ALERT_EVENT_ARGV_MAX_ELEMENT_BYTES) argv.
Proof.
  revert index. induction argv as [|value argv IH]; intros index H; cbn in H; [constructor|].
  destruct (is_empty value) eqn:E1; [done|]. destruct (contains_char 0 value) eqn:E2; [done|].
  destruct (_ <? _) eqn:E3; [done|]. bools. constructor; [|eauto].
  split_and!; [by destruct value| |done]. intros Hin%contains_char_spec. congruence.
Qed.

Lemma validate_rendered_spec argv :
  validate_rendered_argv argv = Ok tt ->
  Forall (fun arg => arg <> [] /\ 0 ∉ arg /\ str_len arg <= ALERT_EVENT_ARGV_MAX_ELEMENT_BYTES) argv /\
  0 < vec_len argv <= ALERT_EVENT_ARGV_MAX_ELEMENTS /\ argv_bytes argv <= ALERT_EVENT_ARGV_MAX_BYTES.
Proof.
  unfold validate_rendered_argv. destruct argv as [|argv0 argv]; [done|].
  destruct (is_empty (trim argv0)); [done|]. destruct (_ <? vec_len _) eqn:E1; [done|].
  destruct (_ <? argv_bytes _) eqn:E2; [done|]. bools. intros H%check_elements_spec.
  done.
Qed.

(** The program of a validated template is a literal. *)
Lemma validated_program template :
  validate_alert_event_argv_template template = Ok tt ->
  exists argv0 tail, effective_template template = argv0 :: tail /\ no_brace argv0 /\
    Forall (fun element => exists parts, Parts element parts) tail.
Proof.
  unfold validate_alert_event_argv_template.
  destruct (effective_template template) as [|argv0 tail]; [done|].
  intros H. repeat (destruct (_ <? _) in H; [done|]). inv_bind.
  destruct (is_empty (trim argv0)); [done|].
  unfold contains_template_syntax in H.
  destruct (contains_char 123 argv0) eqn:E1; [done|]. destruct (contains_char 125 argv0) eqn:E2; [done|].
  destruct (contains_control_or_helper_syntax argv0); [done|]. cbn in H.
  exists argv0, tail. split; [done|]. split.
  { split; intros Hin%contains_char_spec; congruence. }
  clear -H. revert H. generalize 1. induction tail as [|element tail IH]; intros i H; [constructor|].
  cbn in H. inv_bind. constructor; [|eauto].
  unfold validate_direct_scalar_template in M. destruct (contains_control_or_helper_syntax element); [done|].
  by eapply visit_ok_parts.
Qed.

Lemma validated_parts template :
  validate_alert_event_argv_template template = Ok tt ->
  Forall (fun element => exists parts, Parts element parts) (effective_template template).
Proof.
  intros (argv0 & tail & -> & Hn & Ht)%validated_program. constructor; [|done].
  exists [Literal argv0]. by constructor.
Qed.

(** The flag of [alert_event_argv_template_uses_path] over the parts of an element. *)
Lemma visit_uses expected element parts found :
  Parts element parts ->
  visit_placeholders (fun found path => Ok (found || str_eqb path expected)) found element =
  Ok (found || existsb (part_uses expected) parts).
Proof.
  intros Hp. unfold visit_placeholders. rewrite (visit_parts _ _ _ Hp). clear Hp.
  revert found. induction parts as [|[value|path] parts IH]; intros found; cbn; [by rewrite orb_false_r|done|].
  rewrite IH. by rewrite orb_assoc.
Qed.

Lemma uses_false expected elements found :
  Forall (fun element => exists parts, Parts element parts) elements ->
  try_fold (fun found element =>
      visit_placeholders (fun found path => Ok (found || str_eqb path expected)) found element)
    found elements = Ok false ->
  Forall (fun element => forall parts, Parts element parts ->
                         Forall (fun part => part_uses expected part = false) parts) elements.
Proof.
  assert (G : forall elements found, Forall (fun element => exists parts, Parts element parts) elements ->
    try_fold (fun found element =>
      visit_placeholders (fun found path => Ok (found || str_eqb path expected)) found element)
      found elements = Ok false -> found = false).
  { clear. induction elements as [|element elements IH]; intros found H; cbn; [by intros [= ->]|].
    inversion_clear H as [|? ? [parts Hp] Hr]. rewrite (visit_uses _ _ _ _ Hp). cbn.
    intros E%IH; [|done]. by apply orb_false_elim in E as [? _]. }
  revert found. induction elements as [|element elements IH]; intros found H Hf; [constructor|].
  inversion_clear H as [|? ? He Hr]. cbn in Hf. constructor.
  - intros parts Hp. rewrite (visit_uses _ _ _ _ Hp) in Hf. cbn in Hf. apply G in Hf; [|done].
    apply orb_false_elim in Hf as [_ Hf]. apply Forall_forall. intros part Hin%list_elem_of_In.
    by apply (existsb_false _ _ _ Hf).
  - destruct He as [parts Hp]. rewrite (visit_uses _ _ _ _ Hp) in Hf. eauto.
Qed.

Lemma try_map_ext {E A B} (f g : A -> result E B) l :
  Forall (fun a => f a = g a) l -> try_map f l = try_map g l.
Proof. induction 1 as [|a l H _ IH]; cbn; [done|]. by rewrite H, IH. Qed.

(** ** Event ids *)

Lemma print_digits_text n : 0 <= n -> exists d, to_string n = d /\ Forall (fun c => 48 <= c <= 57) d.
Proof.
  intros H. destruct (to_string_spec n H) as (Ha & _). exists (to_string n). split; [done|].
  clear H. induction (to_string n) as [|c s IH]; constructor.
  - by apply (all_digits_head _ s).
  - apply IH. cbn in Ha. by bools.
Qed.

Lemma to_string_no_colon n : 58 ∉ to_string n.
Proof.
  assert (D : forall k, 0 <= k -> 58 ∉ to_string k).
  { intros k Hk Hin. destruct (print_digits_text k Hk) as (d & Ed & Hd). rewrite Ed in Hin.
    rewrite Forall_forall in Hd. specialize (Hd _ Hin). lia. }
  destruct (Z.ltb_spec n 0); [|auto]. rewrite to_string_neg by done.
  apply not_elem_of_cons. split; [done|]. apply D. lia.
Qed.

(** Cutting at the last separator. *)
Lemma last_sep_inj (c : Z) a a' b b' :
  c ∉ b -> c ∉ b' -> a ++ [c] ++ b = a' ++ [c] ++ b' -> a = a' /\ b = b'.
Proof.
  intros Hb Hb' E. apply (f_equal (@rev Z)) in E. rewrite !rev_app_distr in E. cbn in E.
  rewrite <- !app_assoc in E. cbn in E.
  assert (S1 : split_once c (rev b ++ c :: rev a) = Some (rev b, rev a)).
  { apply split_once_spec. by rewrite list_elem_of_In, <- in_rev, <- list_elem_of_In. }
  rewrite E in S1. assert (S2 : split_once c (rev b' ++ c :: rev a') = Some (rev b', rev a')).
  { apply split_once_spec. by rewrite list_elem_of_In, <- in_rev, <- list_elem_of_In. }
  rewrite S1 in S2. injection S2 as E1 E2. apply (f_equal (@rev Z)) in E1, E2.
  by rewrite !rev_involutive in E1, E2.
Qed.

(** * Theorems *)

(** An alert schedule never fires on anything but a lifecycle edge its
    author named.  When a text is accepted as a schedule expression and the
    expression holds of an event, the event carries [alert.triggered] or
    [alert.resolved], and that kind is among those the expression reports as its
    anchors (the ones its argv template has been checked for). *)
Theorem schedule_fires_on_named_edge regex_new regex_is_match parse_rfc3339 float_to_string context input e :
  parse_and_validate_alert_event_expression regex_new input = Some (Ok e) ->
  expression_matches regex_is_match parse_rfc3339 float_to_string context e = true ->
  let kinds := alert_event_expression_anchor_kinds e in
  (fst kinds = true /\ lit "alert.triggered" ∈ ctx_event_predicates context) \/
  (snd kinds = true /\ lit "alert.resolved" ∈ ctx_event_predicates context).
Proof.
  unfold parse_and_validate_alert_event_expression, validate_alert_event_expression.
  intros Hp Hm. destruct (parse_expression _ _) as [[[e'|]|]|]; try done.
  destruct (contains_unsupported_alert_predicate e'); [done|].
  destruct (every_or_branch_has_lifecycle_anchor e') eqn:Ha; [|done]. cbn in Hp. simplify_eq.
  rewrite matches_eval in Hm.
  destruct (anchored_edge _ _ (false, false) Ha Hm) as [[Hk Hc]|[Hk Hc]];
    [left|right]; split; try done; cbn in Hc; by apply bool_decide_eq_true in Hc.
Qed.

(** C23: rendering an alert-event argv never changes its shape.  A rendered argv
    has the program its template names, unchanged, and one argument per element:
    the brace-free text of the element with the scalar value of the context in
    place of each allowed [{path}], whatever characters those values hold.  No
    argument is empty or holds a NUL, and number, size and total are within the
    limits. *)
Theorem rendered_argv_exact float_to_string template context argv :
  render_alert_event_argv_template float_to_string template context = Ok argv ->
  head argv = head (effective_template template) /\
  Forall2 (fun element arg => exists parts texts, Parts element parts /\
             try_map (part_text float_to_string context) parts = Ok texts /\ arg = concat texts)
          (effective_template template) argv /\
  Forall (fun arg => arg <> [] /\ 0 ∉ arg /\ str_len arg <= ALERT_EVENT_ARGV_MAX_ELEMENT_BYTES) argv /\
  0 < vec_len argv <= ALERT_EVENT_ARGV_MAX_ELEMENTS /\ argv_bytes argv <= ALERT_EVENT_ARGV_MAX_BYTES.
Proof.
  unfold render_alert_event_argv_template. intros H. inv_bind. destruct a, a1. subst.
  apply try_map_ok in E0. apply validate_rendered_spec in E1.
  split; [|split; [|done]].
  - apply validated_program in E as (argv0 & tail & Ee & Hn & _). rewrite Ee in *.
    inversion_clear E0 as [|? arg ? ? He _]. cbn. f_equal.
    unfold render_direct_scalar_template in He.
    destruct (contains_control_or_helper_syntax argv0); [done|].
    rewrite (visit_parts _ argv0 [Literal argv0]) in He by by constructor. cbn in He. congruence.
  - eapply Forall2_impl; [exact E0|]. intros element arg. apply render_element.
Qed.

(** A template that does not use a path does not depend on it.  When
    [alert_event_argv_template_uses_path] answers that a template does not use a
    path, two contexts that agree on every other allowed path render it alike,
    in success and in error: a template without the resolution reason can be run
    on an edge that has none. *)
Theorem unused_path_irrelevant float_to_string template path context context' :
  alert_event_argv_template_uses_path template path = Ok false ->
  (forall q, one_of q ALERT_EVENT_ARGV_SCALAR_PATHS = true -> q <> path ->
             resolve_path context q = resolve_path context' q) ->
  render_alert_event_argv_template float_to_string template context =
  render_alert_event_argv_template float_to_string template context'.
Proof.
  unfold alert_event_argv_template_uses_path, render_alert_event_argv_template. intros Hu Hagree.
  destruct (validate_alert_event_argv_template template) as [[]|] eqn:Ev; [|done]. cbn in *.
  apply validated_parts in Ev. pose proof (uses_false _ _ _ Ev Hu) as Hn.
  erewrite try_map_ext; [done|]. apply Forall_forall. intros element Hin.
  rewrite Forall_forall in Ev, Hn. destruct (Ev _ Hin) as [parts Hp]. specialize (Hn _ Hin _ Hp).
  unfold render_direct_scalar_template. destruct (contains_control_or_helper_syntax element); [done|].
  rewrite !(visit_parts _ _ _ Hp), !render_parts. f_equal. apply try_map_ext.
  clear -Hp Hn Hagree. induction Hp as [text|text q rest parts H1 Hq Hp IH]; cbn in *.
  { by constructor. }
  inversion_clear Hn as [|? ? _ Hn']. inversion_clear Hn' as [|? ? Hq' Hn''].
  constructor; [done|]. constructor; [|auto]. cbn. rewrite Hagree; [done..|].
  cbn in Hq'. by apply str_eqb_neq.
Qed.

(** The id of a state observation names it.  Two observations get the same
    id exactly when they agree on the natural key (which may hold colons), on
    the time and on the hash of the fields the source exposes to policies. *)
Theorem event_id_determines sha256 hex_encode json_to_string
    source source' key key' observed observed' payload payload' :
  (forall bytes, 58 ∉ hex_encode bytes) ->
  alert_policy_state_source_event_id sha256 hex_encode json_to_string source key observed payload =
  alert_policy_state_source_event_id sha256 hex_encode json_to_string source' key' observed' payload' <->
  key = key' /\ observed = observed' /\
  identity_hash sha256 hex_encode json_to_string source payload =
  identity_hash sha256 hex_encode json_to_string source' payload'.
Proof.
  intros Hhex. unfold alert_policy_state_source_event_id. split; [|by intros (-> & -> & ->)].
  rewrite !app_assoc. rewrite <- !(app_assoc _ [58] (identity_hash _ _ _ _ _)).
  intros [E ->]%last_sep_inj; [|apply Hhex..].
  rewrite <- !app_assoc in E. apply last_sep_inj in E as [-> E]; [|apply to_string_no_colon..].
  by apply to_string_inj in E as ->.
Qed.

(** * Witnesses *)

Definition sample_expression : Expression :=
  And (Pred (Event (lit "alert.triggered"))) (Pred (Event (lit "alert.category:traffic"))).

Definition sample_context : ExpressionContext :=
  with_event_predicate (with_event_predicate context_default (lit "alert.triggered"))
    (lit "alert.category:traffic").

Lemma schedule_fires_on_named_edge_witness :
  parse_and_validate_alert_event_expression (fun _ => Ok tt)
    (lit "alert.triggered && alert.category:traffic") = Some (Ok sample_expression) /\
  lit "alert.triggered" ∈ ctx_event_predicates sample_context.
Proof.
  assert (H : parse_and_validate_alert_event_expression (fun _ => Ok tt)
    (lit "alert.triggered && alert.category:traffic") = Some (Ok sample_expression))
    by (vm_compute; reflexivity).
  split; [exact H|].
  pose proof (schedule_fires_on_named_edge (fun _ => Ok tt) (fun _ _ => false) (fun _ => None)
    (fun _ => []) sample_context _ _ H ltac:(vm_compute; reflexivity)) as [[_ Hc]|[Hk _]]; [exact Hc|].
  vm_compute in Hk. discriminate.
Defined.

Definition sample_template : option (list str) :=
  Some [lit "/usr/bin/printf"; lit "{alert.title} ({alert.target_kind})"].

Definition sample_event (title : str) (reason : Value) : Value :=
  json_object [("alert", json_object [("title", Str title); ("target_kind", Str (lit "job"));
                                      ("resolution_reason", reason)])]%string.

Lemma rendered_argv_exact_witness :
  exists argv, render_alert_event_argv_template (fun _ => []) sample_template
                 (sample_event (lit "{alert.id} ; x") Null) = Ok argv /\
  head argv = Some (lit "/usr/bin/printf") /\ argv_bytes argv <= ALERT_EVENT_ARGV_MAX_BYTES.
Proof.
  eexists. split; [vm_compute; reflexivity|].
  pose proof (rendered_argv_exact (fun _ => []) sample_template (sample_event (lit "{alert.id} ; x") Null)
    _ ltac:(vm_compute; reflexivity)) as (H1 & _ & _ & _ & H2).
  split; [exact H1|exact H2].
Defined.

Lemma unused_path_irrelevant_witness :
  render_alert_event_argv_template (fun _ => []) sample_template (sample_event (lit "t") Null) =
  render_alert_event_argv_template (fun _ => []) sample_template (sample_event (lit "t") (Bool true)).
Proof.
  apply (unused_path_irrelevant (fun _ => []) sample_template (lit "alert.resolution_reason"));
    [vm_compute; reflexivity|].
  intros q Hq Hne. apply one_of_spec in Hq as (x & Hx & ->).
  repeat (destruct Hx as [<-|Hx]; [first [reflexivity | by destruct Hne]|]). destruct Hx.
Defined.

Lemma event_id_determines_witness :
  alert_policy_state_source_event_id id (map (fun _ => 48)) (fun _ => []) (lit "agent.status")
    (lit "a:1") (-5) Null <>
  alert_policy_state_source_event_id id (map (fun _ => 48)) (fun _ => []) (lit "agent.status")
    (lit "a") 1 Null.
Proof.
  intros E. apply event_id_determines in E as (E & _); [discriminate E|].
  intros bytes. induction bytes as [|b bytes IH]; cbn; [apply not_elem_of_nil|].
  apply not_elem_of_cons. split; [discriminate|exact IH].
Defined.
