(* ===== verification/Totp.v ===== *)
(** Operator credentials: crates/api/src/auth/auth_totp.rs and
    crates/api/src/auth/security.rs, with the roles and scopes of
    crates/server-core/src/lib.rs.

    Parameters: HMAC-SHA1, Argon2, ChaCha20-Poly1305 and the hex codec.  Random
    bytes are arguments of the operations that draw them. *)

From stdpp Require Import sorting.
From S2P Require Import Prelude RustStd Auth Expression.

Open Scope Z_scope.

Abbreviation outcome := (result str) (only parsing).

(** * One-time codes *)

Definition TOTP_DIGITS : Z := 6.
Definition TOTP_PERIOD_SECS : Z := 30.
Definition TOTP_SECRET_BYTES : nat := 20.
Definition TOTP_AEAD_AAD : list Z := as_bytes (lit "vpsman-operator-totp-v1").

Record EncryptedTotpSecret := mkEncrypted {
  ciphertext_hex : str;
  totp_nonce_hex : str;
  salt_hex : str;
}.

#[export] Instance encrypted_totp_secret_eq_dec : EqDecision EncryptedTotpSecret.
Proof. solve_decision. Defined.

(** [code.trim().replace(' ', "")], six digits. *)
Definition normalize_totp_code (code : str) : option str :=
  let code := List.filter (fun c => negb (c =? 32)) (trim code) in
  if (str_len code =? TOTP_DIGITS) && forallb is_ascii_digit (as_bytes code) then Some code else None.

(** [format!("{v:0width$}")] of a non-negative number. *)
Definition pad_zero (width : Z) (v : Z) : str :=
  let t := to_string v in repeat 48 (Z.to_nat (width - vec_len t)) ++ t.

(** [digest[i]]; the digest has 20 bytes. *)
Definition byte_at (digest : list Z) (i : Z) : Z := nth (Z.to_nat i) digest 0.

Section Codes.
Context (hmac_sha1 : list Z -> list Z -> list Z).

Definition totp_code_for_step (secret : list Z) (step : Z) : str :=
  let digest := hmac_sha1 secret (be_bytes 8 step) in
  let offset := Z.land (byte_at digest 19) 0x0f in
  let binary := Z.lor (Z.lor (Z.lor (Z.shiftl (Z.land (byte_at digest offset) 0x7f) 24)
                                    (Z.shiftl (byte_at digest (offset + 1)) 16))
                             (Z.shiftl (byte_at digest (offset + 2)) 8))
                      (byte_at digest (offset + 3)) in
  let divisor := 10 ^ TOTP_DIGITS in
  pad_zero TOTP_DIGITS (binary mod divisor).

Definition matching_totp_step (secret : list Z) (code : str) (now_unix : Z) : option Z :=
  match normalize_totp_code code with
  | None => None
  | Some code =>
      let current_step := now_unix / TOTP_PERIOD_SECS in
      find (fun step => constant_time_eq (as_bytes (totp_code_for_step secret step)) (as_bytes code))
        [saturating_add u64_max current_step 1; current_step; saturating_sub current_step 1]
  end.
End Codes.

(** ** Provisioning *)

Definition BASE32_ALPHABET : list Z := lit "ABCDEFGHIJKLMNOPQRSTUVWXYZ234567".

Definition base32_char (index : Z) : char := nth (Z.to_nat index) BASE32_ALPHABET 0.

(** The [while bits >= 5] loop; [bits] is at most 12. *)
Fixpoint base32_drain (fuel : nat) (buffer bits : Z) (output : str) : Z * str :=
  match fuel with
  | O => (bits, output)
  | S fuel' =>
      if 5 <=? bits then
        let index := Z.land (Z.shiftr buffer (bits - 5)) 0x1f in
        base32_drain fuel' buffer (bits - 5) (output ++ [base32_char index])
      else (bits, output)
  end.

(** One byte; [buffer] is a [u16]. *)
Definition base32_step (state : Z * Z * str) (byte : Z) : Z * Z * str :=
  let '(buffer, bits, output) := state in
  let buffer := Z.lor (Z.shiftl buffer 8 mod 2 ^ 16) byte in
  let bits := bits + 8 in
  let '(bits, output) := base32_drain (Z.to_nat bits) buffer bits output in
  (buffer, bits, output).

Definition base32_no_padding (bytes : list Z) : str :=
  let '(buffer, bits, output) := foldl base32_step (0, 0, []) bytes in
  if 0 <? bits then
    let index := Z.land (Z.shiftl buffer (5 - bits) mod 2 ^ 16) 0x1f in
    output ++ [base32_char index]
  else output.

(** [{byte:02X}]. *)
Definition hex_upper (byte : Z) : str :=
  let digit d := if d <? 10 then 48 + d else 55 + d in [digit (byte / 16); digit (byte mod 16)].

Definition is_unreserved (byte : Z) : bool :=
  is_ascii_alphabetic byte || is_ascii_digit byte
  || (byte =? 45) || (byte =? 46) || (byte =? 95) || (byte =? 126).

Definition percent_encode (input : str) : str :=
  flat_map (fun byte => if is_unreserved byte then [byte] else [37] ++ hex_upper byte) (as_bytes input).

Definition otpauth_uri (username secret_base32 : str) : str :=
  lit "otpauth://totp/vpsman:" ++ percent_encode username ++ lit "?secret=" ++ secret_base32
  ++ lit "&issuer=vpsman&algorithm=SHA1&digits=" ++ to_string TOTP_DIGITS ++ lit "&period="
  ++ to_string TOTP_PERIOD_SECS.

(** * Secrets and passwords at rest *)

Definition ARGON2_MEMORY_KIB : Z := 19456.
Definition ARGON2_TIME_COST : Z := 2.
Definition ARGON2_PARALLELISM : Z := 1.

Section Secrets.
Context (hex_encode : list Z -> str) (hex_decode : str -> option (list Z)).
Context (argon2_digest : list Z -> list Z -> outcome (list Z)).
(** key, nonce, additional data, message *)
Context (aead_encrypt aead_decrypt : list Z -> list Z -> list Z -> list Z -> option (list Z)).

Definition encrypt_totp_secret (salt nonce : list Z) (password : str) (secret : list Z) :
  outcome EncryptedTotpSecret :=
  guard_err ((16 <=? vec_len secret) && (vec_len secret <=? 64)) (lit "TOTP secret length out of range");;
  key ← argon2_digest (as_bytes password) salt;
  ciphertext ← ok_or (aead_encrypt key nonce TOTP_AEAD_AAD secret) (lit "failed to encrypt TOTP secret");
  Ok (mkEncrypted (hex_encode ciphertext) (hex_encode nonce) (hex_encode salt)).

Definition encrypt_new_totp_secret (secret salt nonce : list Z) (password : str) :
  outcome (list Z * EncryptedTotpSecret) :=
  encrypted ← encrypt_totp_secret salt nonce password secret;
  Ok (secret, encrypted).

Definition decrypt_totp_secret (password : str) (encrypted : EncryptedTotpSecret) : outcome (list Z) :=
  ciphertext ← ok_or (hex_decode (ciphertext_hex encrypted)) (lit "invalid TOTP ciphertext");
  nonce ← ok_or (hex_decode (totp_nonce_hex encrypted)) (lit "invalid TOTP nonce");
  salt ← ok_or (hex_decode (salt_hex encrypted)) (lit "invalid TOTP salt");
  guard_err (vec_len nonce =? 12) (lit "invalid TOTP nonce length");;
  guard_err (vec_len salt =? 16) (lit "invalid TOTP salt length");;
  key ← argon2_digest (as_bytes password) salt;
  ok_or (aead_decrypt key nonce TOTP_AEAD_AAD ciphertext) (lit "invalid TOTP password or ciphertext").

Definition hash_operator_password (salt : list Z) (password : str) : outcome str :=
  digest ← argon2_digest (as_bytes password) salt;
  Ok (lit "argon2id$v=19$m=" ++ to_string ARGON2_MEMORY_KIB ++ lit ",t=" ++ to_string ARGON2_TIME_COST
      ++ lit ",p=" ++ to_string ARGON2_PARALLELISM ++ lit "$" ++ hex_encode salt ++ lit "$"
      ++ hex_encode digest).

Definition verify_operator_password (password encoded : str) : outcome bool :=
  match split 36 encoded with
  | [p0; p1; _; p3; p4] =>
      if negb (str_eqb p0 (lit "argon2id")) || negb (str_eqb p1 (lit "v=19")) then Ok false
      else
        salt ← ok_or (hex_decode p3) (lit "invalid operator password salt");
        expected ← ok_or (hex_decode p4) (lit "invalid operator password hash");
        digest ← argon2_digest (as_bytes password) salt;
        Ok (constant_time_eq digest expected)
  | _ => Ok false
  end.
End Secrets.

(** * Roles and scopes *)

Definition operator_role_rank (role : str) : option Z :=
  let role := trim role in
  if str_eqb role (lit "viewer") then Some 0
  else if str_eqb role (lit "operator") then Some 1
  else if str_eqb role (lit "admin") then Some 2
  else None.

Definition role_allows (actual required : str) : bool :=
  match operator_role_rank actual, operator_role_rank required with
  | Some actual, Some required => required <=? actual
  | _, _ => false
  end.

Definition operator_has_scope (scopes : list str) (required : str) : bool :=
  existsb (fun scope => str_eqb scope (lit "*") || str_eqb scope required) scopes.

Definition default_operator_scopes (role : str) : list str :=
  let role := trim role in
  if str_eqb role (lit "admin") then [lit "*"]
  else if str_eqb role (lit "operator") then
    map lit ["fleet:read"; "jobs:read"; "backups:read"; "terminal:read"; "integrations:read";
             "templates:read"; "schedules:read"; "config:read"; "network:read"; "audit:read";
             "jobs:write"; "inventory:write"; "schedules:write"; "backups:write"; "network:write";
             "config:write"; "integrations:write"; "templates:write"; "history:write";
             "sharing:read"; "sharing:write"]%string
  else if str_eqb role (lit "viewer") then [lit "fleet:read"]
  else [].

Definition operator_is_active_authorized (status role : str) (scopes : list str) (required_role : str)
    (required_scopes : list str) : bool :=
  if negb (str_eqb (trim status) (lit "active")) || negb (role_allows role required_role) then false
  else
    let effective_scopes := if is_empty scopes then default_operator_scopes role else scopes in
    forallb (operator_has_scope effective_scopes) required_scopes.

Definition is_scope_byte (byte : Z) : bool :=
  is_ascii_alphabetic byte || is_ascii_digit byte
  || (byte =? 58) || (byte =? 45) || (byte =? 95) || (byte =? 46) || (byte =? 42).

Definition validate_operator_scope (role scope : str) : outcome unit :=
  if (64 <? str_len scope) || negb (forallb is_scope_byte (as_bytes scope))
  then Err (lit "invalid_operator_scope")
  else if str_eqb scope (lit "*") && negb (str_eqb (trim role) (lit "admin"))
  then Err (lit "wildcard_scope_requires_admin")
  else Ok tt.

(** [Vec::dedup] of equal neighbours. *)
Fixpoint dedup (l : list str) : list str :=
  match l with
  | a :: ((b :: _) as l') => if str_eqb a b then dedup l' else a :: dedup l'
  | _ => l
  end.

Definition normalize_operator_scopes (role : str) (scopes : list str) : outcome (list str) :=
  let scopes := List.filter (fun scope => negb (is_empty scope)) (map trim scopes) in
  let scopes := if is_empty scopes then default_operator_scopes role else scopes in
  if 32 <? vec_len scopes then Err (lit "too_many_operator_scopes")
  else
    try_fold (fun _ scope => validate_operator_scope role scope) tt scopes;;
    Ok (dedup (merge_sort str_le scopes)).

Definition validate_operator_credentials (username password : str) : outcome unit :=
  if is_empty (trim username) then Err (lit "username_required")
  else if str_len password <? 12 then Err (lit "password_too_short")
  else Ok tt.

Definition validate_operator_role (role : str) : outcome unit :=
  match operator_role_rank (trim role) with
  | Some _ => Ok tt
  | None => Err (lit "invalid_operator_role")
  end.

Definition admin_risk_acknowledgement_required (current_role : str) (requested_role : option str)
    (admin_risk_acknowledged : bool) : bool :=
  negb admin_risk_acknowledged
  && (str_eqb (trim current_role) (lit "admin")
      || match requested_role with Some role => str_eqb (trim role) (lit "admin") | None => false end).

Definition SCOPE_CONFIG_READ : str := lit "config:read".

(** A selector that reads VPS rules needs the configuration scope. *)
Definition require_vps_rule_selector_scope (scopes : list str) (expression : Expression) : outcome unit :=
  if expression_references_vps_rules expression && negb (operator_has_scope scopes SCOPE_CONFIG_READ)
  then Err (lit "operator_scope_insufficient")
  else Ok tt.
