(* ===== verification/TotpProofs.v ===== *)
(** Theorems on operator credentials ([Totp]): the base-32 text of a secret, the
    window of one-time codes, and the round trips of stored secrets and
    passwords. *)

From stdpp Require Import sorting.
From Stdlib Require Import ZifyBool.
From S2P Require Import Prelude RustStd Auth Expression Totp.

Open Scope Z_scope.

#[local] Arguments lit : simpl never.
#[local] Arguments to_string : simpl never.

(** * Reference definitions *)

(** The value of digits of a base, most significant first. *)
Definition digits_value (base : Z) (digits : list Z) : Z := foldl (fun acc d => acc * base + d) 0 digits.

(** RFC 4648 decoding of unpadded base 32: the value of the digits without the
    bits that fill up the last one. *)
Definition base32_index (c : char) : Z := if c <? 65 then c - 24 else c - 65.

Definition base32_decode (s : str) : list Z :=
  let bits := 5 * Z.of_nat (length s) in
  be_bytes (Z.to_nat (bits / 8)) (digits_value 32 (map base32_index s) / 2 ^ (bits mod 8)).

(** The steps a code may belong to. *)
Definition totp_window (now_unix : Z) : list Z :=
  let current_step := now_unix / TOTP_PERIOD_SECS in
  [saturating_add u64_max current_step 1; current_step; saturating_sub current_step 1].

(** * Base 32 *)

Lemma digits_value_snoc base digits d :
  digits_value base (digits ++ [d]) = digits_value base digits * base + d.
Proof. unfold digits_value. by rewrite foldl_app. Qed.

(** [output] spells the bits of [value] above the [bits] lowest ones. *)
Definition spells (output : str) (value bits : Z) (digits : list Z) : Prop :=
  output = map base32_char digits /\ Forall (fun d => 0 <= d < 32) digits /\
  digits_value 32 digits = value / 2 ^ bits.

Lemma land_31 x : Z.land x 0x1f = x mod 32.
Proof. change 0x1f with (Z.ones 5). rewrite Z.land_ones by lia. done. Qed.

(** Five bits of a buffer that agrees with the value on its low bits. *)
Lemma buffer_digit buffer value bits :
  5 <= bits -> buffer mod 2 ^ bits = value mod 2 ^ bits ->
  Z.land (Z.shiftr buffer (bits - 5)) 0x1f = value / 2 ^ (bits - 5) mod 32.
Proof.
  intros Hb E. rewrite land_31, Z.shiftr_div_pow2 by lia.
  assert (G : forall x, x / 2 ^ (bits - 5) mod 32 = x mod 2 ^ bits / 2 ^ (bits - 5)).
  { intros x. replace (2 ^ bits) with (2 ^ (bits - 5) * 32).
    2:{ change 32 with (2 ^ 5). rewrite <- Z.pow_add_r by lia. f_equal. lia. }
    rewrite Z.rem_mul_r by (apply Z.pow_nonzero || lia; lia).
    rewrite Z.add_comm, Z.mul_comm, Z.div_add_l by (apply Z.pow_nonzero; lia).
    rewrite (Z.div_small (x mod _)); [lia|]. apply Z.mod_pos_bound. apply Z.pow_pos_nonneg; lia. }
  by rewrite !G, E.
Qed.

Lemma mod_mod_pow x a b : 0 <= a <= b -> x mod 2 ^ b mod 2 ^ a = x mod 2 ^ a.
Proof.
  intros H. replace (2 ^ b) with (2 ^ a * 2 ^ (b - a)) by (rewrite <- Z.pow_add_r by lia; f_equal; lia).
  rewrite Z.rem_mul_r by (apply Z.pow_nonzero || apply Z.pow_pos_nonneg; lia).
  rewrite (Z.mul_comm (2 ^ a) (_ mod _)), Z.mod_add by (apply Z.pow_nonzero; lia).
  apply Z.mod_mod. apply Z.pow_nonzero; lia.
Qed.

Lemma drain_spec fuel buffer value bits output digits :
  (Z.to_nat bits <= fuel)%nat -> 0 <= bits -> buffer mod 2 ^ bits = value mod 2 ^ bits ->
  spells output value bits digits ->
  exists bits' digits', base32_drain fuel buffer bits output = (bits', map base32_char digits') /\
    0 <= bits' < 5 /\ bits' <= bits /\ spells (map base32_char digits') value bits' digits' /\
    5 * Z.of_nat (length digits') + bits' = 5 * Z.of_nat (length digits) + bits.
Proof.
  revert bits output digits. induction fuel as [|fuel IH]; intros bits output digits Hf Hb E (-> & Hd & Hv).
  { exists bits, digits. cbn. split; [done|]. repeat split; lia || done. }
  cbn [base32_drain]. destruct (Z.leb_spec 5 bits) as [H5|H5].
  2:{ exists bits, digits. split; [done|]. repeat split; lia || done. }
  rewrite (buffer_digit _ _ _ H5 E).
  destruct (IH (bits - 5) (map base32_char digits ++ [base32_char (value / 2 ^ (bits - 5) mod 32)])
              (digits ++ [value / 2 ^ (bits - 5) mod 32])) as (bits' & digits' & E' & ? & ? & ? & Hl).
  - lia.
  - lia.
  - rewrite <- (mod_mod_pow buffer (bits - 5) bits), E, mod_mod_pow by lia. done.
  - split; [by rewrite map_app|]. split.
    + apply Forall_app. split; [done|]. constructor; [|done]. apply Z.mod_pos_bound. lia.
    + rewrite digits_value_snoc, Hv.
      replace (2 ^ bits) with (2 ^ (bits - 5) * 32).
      2:{ change 32 with (2 ^ 5). rewrite <- Z.pow_add_r by lia. f_equal. lia. }
      rewrite <- Z.div_div by (apply Z.pow_pos_nonneg || apply Z.pow_nonzero || lia; lia).
      rewrite Z.mul_comm. symmetry. apply Z.div_mod. lia.
  - exists bits', digits'. rewrite E'. rewrite length_app in Hl. cbn in Hl. repeat split; lia || done || apply H1.
Qed.

(** A byte fills the eight zero bits of a shifted number. *)
Lemma lor_low x byte : 0 <= byte < 256 -> Z.lor (x * 256) byte = x * 256 + byte.
Proof.
  intros H. enough (Z.land (x * 256) byte = 0) by (pose proof (Z.add_lor_land (x * 256) byte); lia).
  apply Z.bits_inj'. intros n Hn. rewrite Z.land_spec, Z.bits_0. change 256 with (2 ^ 8).
  rewrite Z.mul_pow2_bits by lia. destruct (Z.ltb_spec n 8); [by rewrite Z.testbit_neg_r by lia|].
  rewrite (Z.bits_above_log2 byte n), andb_false_r; [done|lia|].
  destruct (Z.eq_dec byte 0) as [->|]; [cbn; lia|].
  apply (Z.lt_le_trans _ 8); [apply Z.log2_lt_pow2; lia|lia].
Qed.

(** One byte enters the buffer below the bits still pending. *)
Lemma shifted_buffer buffer value bits byte :
  0 <= bits <= 4 -> 0 <= byte < 256 -> buffer mod 2 ^ bits = value mod 2 ^ bits ->
  Z.lor (Z.shiftl buffer 8 mod 2 ^ 16) byte mod 2 ^ (bits + 8) = (value * 256 + byte) mod 2 ^ (bits + 8).
Proof.
  intros Hb Hy E. rewrite Z.shiftl_mul_pow2 by lia. change (2 ^ 8) with 256.
  change (2 ^ 16) with (256 * 256). rewrite Zmult_mod_distr_r.
  rewrite (lor_low _ _ Hy).
  replace (2 ^ (bits + 8)) with (2 ^ bits * 256) by (rewrite Z.pow_add_r by lia; done).
  assert (Hp : 0 < 2 ^ bits) by (apply Z.pow_pos_nonneg; lia).
  assert (G : forall x, (x * 256 + byte) mod (2 ^ bits * 256) = x mod 2 ^ bits * 256 + byte).
  { intros x. rewrite (Z.mul_comm (2 ^ bits)), Z.rem_mul_r by lia.
    rewrite Z.div_add_l by lia. rewrite (Z.div_small byte) by lia.
    rewrite (Z.add_comm (x * 256)), Z.mod_add, (Z.mod_small byte) by lia. rewrite Z.add_0_r. lia. }
  rewrite !G. f_equal. f_equal. rewrite <- E.
  change 256 with (2 ^ 8). rewrite mod_mod_pow by lia. done.
Qed.

(** What the state of the loop holds after some bytes. *)
Definition base32_state (bytes : list Z) (state : Z * Z * str) : Prop :=
  let '(buffer, bits, output) := state in
  0 <= bits < 5 /\ buffer mod 2 ^ bits = be_val bytes mod 2 ^ bits /\
  exists digits, spells output (be_val bytes) bits digits /\
                 5 * Z.of_nat (length digits) + bits = 8 * Z.of_nat (length bytes).

Lemma be_val_snoc bytes byte : be_val (bytes ++ [byte]) = be_val bytes * 256 + byte.
Proof. unfold be_val. by rewrite foldl_app. Qed.

Lemma base32_step_spec bytes byte state :
  is_byte byte -> base32_state bytes state -> base32_state (bytes ++ [byte]) (base32_step state byte).
Proof.
  destruct state as [[buffer bits] output]. intros Hy (Hb & E & digits & (-> & Hd & Hv) & Hl).
  unfold base32_step. set (buffer' := Z.lor _ byte).
  assert (E' : buffer' mod 2 ^ (bits + 8) = be_val (bytes ++ [byte]) mod 2 ^ (bits + 8)).
  { rewrite be_val_snoc. apply shifted_buffer; [lia|done|done]. }
  destruct (drain_spec (Z.to_nat (bits + 8)) buffer' (be_val (bytes ++ [byte])) (bits + 8)
              (map base32_char digits) digits) as (bits' & digits' & Ed & Hb' & Hle & Hs & Hl').
  - lia.
  - lia.
  - done.
  - split; [done|]. split; [done|]. rewrite Hv, be_val_snoc.
    replace (2 ^ (bits + 8)) with (256 * 2 ^ bits) by (rewrite Z.pow_add_r by lia; change (2 ^ 8) with 256; lia).
    rewrite <- Z.div_div, Z.div_add_l, (Z.div_small byte), Z.add_0_r by (done || lia || apply Z.pow_pos_nonneg; lia).
    done.
  - rewrite Ed. split; [lia|]. split.
    + rewrite <- (mod_mod_pow buffer' bits' (bits + 8)), E', mod_mod_pow by lia. done.
    + exists digits'. split; [done|]. rewrite length_app. cbn. lia.
Qed.

Lemma base32_fold bytes :
  Forall is_byte bytes -> base32_state bytes (foldl base32_step (0, 0, []) bytes).
Proof.
  induction bytes as [|byte bytes IH] using rev_ind; intros H.
  { split; [lia|]. split; [done|]. exists []. repeat split; by constructor || done. }
  rewrite foldl_app. apply Forall_app in H as [H1 H2]. cbn. inversion_clear H2.
  apply base32_step_spec; auto.
Qed.

Lemma base32_last buffer value bits :
  0 < bits < 5 -> buffer mod 2 ^ bits = value mod 2 ^ bits ->
  Z.land (Z.shiftl buffer (5 - bits) mod 2 ^ 16) 0x1f = value mod 2 ^ bits * 2 ^ (5 - bits).
Proof.
  intros Hb E. rewrite land_31, Z.shiftl_mul_pow2 by lia. change 32 with (2 ^ 5).
  rewrite mod_mod_pow by lia. rewrite <- E.
  replace (2 ^ 5) with (2 ^ bits * 2 ^ (5 - bits)) by (rewrite <- Z.pow_add_r by lia; f_equal; lia).
  apply Zmult_mod_distr_r.
Qed.

Lemma base32_digits bytes :
  Forall is_byte bytes ->
  exists digits pad, base32_no_padding bytes = map base32_char digits /\
    Forall (fun d => 0 <= d < 32) digits /\ 0 <= pad < 5 /\
    5 * Z.of_nat (length digits) = 8 * Z.of_nat (length bytes) + pad /\
    digits_value 32 digits = be_val bytes * 2 ^ pad.
Proof.
  intros H%base32_fold. unfold base32_no_padding.
  destruct (foldl base32_step (0, 0, []) bytes) as [[buffer bits] output].
  destruct H as (Hb & E & digits & (-> & Hd & Hv) & Hl).
  destruct (Z.ltb_spec 0 bits) as [H0|H0].
  - rewrite (base32_last buffer (be_val bytes) bits) by (lia || done).
    exists (digits ++ [be_val bytes mod 2 ^ bits * 2 ^ (5 - bits)]), (5 - bits).
    assert (Hp : 0 < 2 ^ bits) by (apply Z.pow_pos_nonneg; lia).
    assert (Hq : 0 < 2 ^ (5 - bits)) by (apply Z.pow_pos_nonneg; lia).
    assert (Hm : 2 ^ bits * 2 ^ (5 - bits) = 32).
    { rewrite <- Z.pow_add_r by lia. replace (bits + (5 - bits)) with 5 by lia. done. }
    pose proof (Z.mod_pos_bound (be_val bytes) (2 ^ bits) Hp).
    split; [by rewrite map_app|]. split.
    { apply Forall_app. split; [done|]. constructor; [nia|done]. }
    split; [lia|]. split; [rewrite length_app; cbn; lia|].
    rewrite digits_value_snoc, Hv.
    rewrite (Z.div_mod (be_val bytes) (2 ^ bits)) at 3 by lia. rewrite <- Hm. ring.
  - assert (bits = 0) as -> by lia. exists digits, 0. split; [done|]. split; [done|]. split; [lia|].
    split; [lia|]. rewrite Hv. change (2 ^ 0) with 1. by rewrite Z.div_1_r, Z.mul_1_r.
Qed.

Lemma base32_index_char d : 0 <= d < 32 -> base32_index (base32_char d) = d.
Proof.
  intros H. assert (A : forallb (fun d => base32_index (base32_char d) =? d) (map Z.of_nat (seq 0 32)) = true)
    by (vm_compute; reflexivity).
  rewrite forallb_forall in A. apply Z.eqb_eq, A. apply in_map_iff. exists (Z.to_nat d).
  split; [lia|]. apply in_seq. lia.
Qed.

Lemma base32_index_map digits :
  Forall (fun d => 0 <= d < 32) digits -> map base32_index (map base32_char digits) = digits.
Proof. induction 1 as [|d digits H _ IH]; cbn; [done|]. by rewrite base32_index_char, IH. Qed.

(** * One-time codes *)

Lemma normalize_totp_digits code :
  Forall (fun c => 48 <= c <= 57) code -> length code = 6%nat -> normalize_totp_code code = Some code.
Proof.
  intros Hd Hl. unfold normalize_totp_code.
  rewrite trim_no_ws.
  2:{ eapply Forall_impl; [exact Hd|]. intros c Hc. cbn in Hc. unfold is_whitespace, in_range. lia. }
  assert (F : List.filter (fun c => negb (c =? 32)) code = code).
  { clear Hl. induction Hd as [|c code Hc _ IH]; cbn; [done|].
    rewrite (proj2 (Z.eqb_neq c 32)) by lia. cbn. by rewrite IH. }
  rewrite F. unfold str_len.
  rewrite as_bytes_ascii by (eapply Forall_impl; [exact Hd|]; intros c Hc; cbn in Hc; lia).
  rewrite Hl. cbn [Z.of_nat]. change (Z.of_nat 6 =? TOTP_DIGITS) with true. cbn [andb].
  replace (forallb is_ascii_digit code) with true; [done|]. symmetry. apply forallb_forall. intros c Hc.
  rewrite Forall_forall in Hd. specialize (Hd c (proj2 (list_elem_of_In _ _) Hc)).
  unfold is_ascii_digit, in_range. apply andb_true_intro. rewrite !Z.leb_le. lia.
Qed.

Lemma pad_zero_digits width v :
  0 <= v < 10 ^ width -> 0 < width ->
  Forall (fun c => 48 <= c <= 57) (pad_zero width v) /\ length (pad_zero width v) = Z.to_nat width.
Proof.
  intros Hv Hw. destruct (to_string_spec v) as (Ha & Hne & Hval & Hh & H1); [lia|].
  unfold pad_zero. rewrite length_app, repeat_length. split.
  - apply Forall_app. split; [apply List.Forall_forall; intros c Hc; apply repeat_spec in Hc; lia|].
    apply Forall_forall. intros c Hc%list_elem_of_In. unfold all_digits in Ha. rewrite forallb_forall in Ha.
    specialize (Ha c Hc). unfold is_ascii_digit, in_range in Ha. bools. lia.
  - enough (Z.of_nat (length (to_string v)) <= width) by (unfold vec_len; lia).
    destruct (Z.ltb_spec v 10) as [Hlt|Hge]; [rewrite H1 by done; lia|].
    destruct (Z.leb_spec (Z.of_nat (length (to_string v))) width) as [|Hlong]; [done|]. exfalso.
    destruct (to_string v) as [|c t] eqn:Et; [done|].
    pose proof (all_digits_head c t Ha) as Hc. specialize (Hh Hge). cbn in Hh.
    assert (digits_val (c :: t) >= 10 ^ Z.of_nat (length t)) as Hbig.
    { unfold digits_val. cbn [digits_val_go]. rewrite digits_val_go_acc.
      assert (0 <= digits_val_go 0 t) by (apply digits_val_nonneg; cbn in Ha; by bools).
      assert (0 < 10 ^ Z.of_nat (length t)) by (apply Z.pow_pos_nonneg; lia).
      change (digits_val_go 0 t) with (digits_val t) in *.
      unfold digit_val. assert (c <> 48) by congruence. unfold vec_len. nia. }
    rewrite Hval in Hbig. cbn [length] in Hlong.
    assert (10 ^ width <= 10 ^ Z.of_nat (length t)) by (apply Z.pow_le_mono_r; lia). lia.
Qed.

Section Codes.
Context (hmac_sha1 : list Z -> list Z -> list Z).

(** Every code the server computes is six digits, so it is its own normal form. *)
Lemma totp_code_normal secret step :
  normalize_totp_code (totp_code_for_step hmac_sha1 secret step) =
  Some (totp_code_for_step hmac_sha1 secret step).
Proof.
  unfold totp_code_for_step. set (binary := Z.lor _ _).
  destruct (pad_zero_digits TOTP_DIGITS (binary mod 10 ^ TOTP_DIGITS)) as [H1 H2];
    [apply Z.mod_pos_bound; done|done|].
  apply normalize_totp_digits; done.
Qed.

End Codes.

Lemma as_bytes_digits code : forallb is_ascii_digit (as_bytes code) = true -> as_bytes code = code.
Proof.
  induction code as [|c code IH]; [done|]. change (as_bytes (c :: code)) with (utf8_char c ++ as_bytes code).
  rewrite forallb_app. intros H. apply andb_prop in H as [H1 H2]. rewrite (IH H2).
  unfold utf8_char in *. destruct (c <? 128) eqn:E; [done|]. bools. exfalso.
  repeat case_match; cbn in H1; apply andb_prop in H1 as [H1 _]; unfold is_ascii_digit, in_range in H1; bools;
    Z.div_mod_to_equations; lia.
Qed.

(** A normalised code is its bytes. *)
Lemma normalized_bytes code c : normalize_totp_code code = Some c -> as_bytes c = c.
Proof.
  unfold normalize_totp_code. destruct (_ && _) eqn:E; [|done]. intros [= <-]. bools. by apply as_bytes_digits.
Qed.

(** * Theorems *)

(** The secret shown to the operator is the secret.  The base-32 text, built
    five bits at a time in a 16-bit buffer, decodes by RFC 4648 to the bytes it
    was made from, whatever their number. *)
Theorem base32_roundtrip bytes :
  Forall is_byte bytes -> base32_decode (base32_no_padding bytes) = bytes.
Proof.
  intros H. destruct (base32_digits bytes H) as (digits & pad & -> & Hd & Hp & Hl & Hv).
  unfold base32_decode. rewrite length_map, Hl, (base32_index_map _ Hd), Hv.
  replace ((8 * Z.of_nat (length bytes) + pad) / 8) with (Z.of_nat (length bytes))
    by (Z.div_mod_to_equations; lia).
  replace ((8 * Z.of_nat (length bytes) + pad) mod 8) with pad by (Z.div_mod_to_equations; lia).
  rewrite Nat2Z.id, Z.div_mul by (apply Z.pow_nonzero; lia). by apply be_bytes_be_val.
Qed.

(** A one-time code is good for its own half minute and its neighbours, and
    for no other.  The step a code is matched with lies in the window around the
    clock and the code, normalised, is the one computed for it; and the code of
    every step of the window is accepted. *)
Theorem totp_window_exact hmac_sha1 secret now_unix :
  (forall code step, matching_totp_step hmac_sha1 secret code now_unix = Some step ->
     In step (totp_window now_unix) /\
     normalize_totp_code code = Some (totp_code_for_step hmac_sha1 secret step)) /\
  (forall step, In step (totp_window now_unix) ->
     is_Some (matching_totp_step hmac_sha1 secret (totp_code_for_step hmac_sha1 secret step) now_unix)).
Proof.
  unfold matching_totp_step. fold (totp_window now_unix). split.
  - intros code step. destruct (normalize_totp_code code) as [c|] eqn:En; [|done].
    intros [Hin Heq]%find_some. split; [done|]. f_equal. apply constant_time_eq_spec in Heq.
    rewrite (normalized_bytes _ _ En) in Heq.
    rewrite (normalized_bytes _ _ (totp_code_normal hmac_sha1 secret step)) in Heq. done.
  - intros step Hin. rewrite totp_code_normal.
    destruct (find _ _) eqn:Ef; [by eexists|]. eapply find_none in Ef; [|exact Hin]. cbn in Ef.
    rewrite (proj2 (constant_time_eq_spec _ _)) in Ef; done.
Qed.

(** A stored one-time secret comes back with the password it was stored
    under: whatever salt and nonce were drawn, decrypting with the same password
    gives the secret. *)
Theorem totp_secret_roundtrip hex_encode hex_decode argon2_digest aead_encrypt aead_decrypt
    salt nonce password secret encrypted :
  (forall bytes, hex_decode (hex_encode bytes) = Some bytes) ->
  (forall key nonce aad message ciphertext, aead_encrypt key nonce aad message = Some ciphertext ->
     aead_decrypt key nonce aad ciphertext = Some message) ->
  length salt = 16%nat -> length nonce = 12%nat ->
  encrypt_totp_secret hex_encode argon2_digest aead_encrypt salt nonce password secret = Ok encrypted ->
  decrypt_totp_secret hex_decode argon2_digest aead_decrypt password encrypted = Ok secret.
Proof.
  intros Hhex Haead Hs Hn. unfold encrypt_totp_secret, decrypt_totp_secret. intros H. inv_bind. subst.
  cbn [ciphertext_hex totp_nonce_hex salt_hex]. rewrite !Hhex. cbn [ok_or mbind result_bind].
  unfold vec_len. rewrite Hs, Hn. cbn. rewrite E0. cbn. by rewrite (Haead _ _ _ _ _ O).
Qed.

(** The password an operator is stored with is the one that verifies: a
    password is accepted against the stored text exactly when Argon2 under the
    stored salt gives the stored digest. *)
Theorem password_verifies_iff hex_encode hex_decode argon2_digest salt password stored password' digest' :
  (forall bytes, hex_decode (hex_encode bytes) = Some bytes) ->
  (forall bytes, 36 ∉ hex_encode bytes) ->
  hash_operator_password hex_encode argon2_digest salt password = Ok stored ->
  argon2_digest (as_bytes password') salt = Ok digest' ->
  exists digest, argon2_digest (as_bytes password) salt = Ok digest /\
  verify_operator_password hex_decode argon2_digest password' stored = Ok (bool_decide (digest' = digest)).
Proof.
  intros Hhex Hno Hs Hd. unfold hash_operator_password in Hs.
  destruct (argon2_digest (as_bytes password) salt) as [a|] eqn:E; [|done]. cbn [mbind result_bind] in Hs.
  apply Ok_inj in Hs as <-. exists a. split; [done|]. unfold verify_operator_password.
  assert (E36 : forall x y, split 36 (x ++ lit "$" ++ y) = split 36 x ++ split 36 y)
    by (intros; apply split_concat).
  rewrite (app_assoc (lit "argon2id$v=19$m=")), !app_assoc, <- (app_assoc _ (lit "$") (hex_encode a)), E36.
  rewrite <- (app_assoc _ (lit "$") (hex_encode salt)), E36.
  rewrite !(split_no_sep 36 (hex_encode _)) by apply Hno.
  match goal with |- context [split 36 ?x] => replace (split 36 x) with
    [lit "argon2id"; lit "v=19"; lit "m=19456,t=2,p=1"] by (vm_compute; reflexivity) end.
  cbn [app]. rewrite !str_eqb_refl. cbn [negb orb]. rewrite !Hhex. cbn [ok_or mbind result_bind].
  rewrite Hd. cbn. f_equal. case_bool_decide as Hb; [by apply constant_time_eq_spec|].
  apply not_true_iff_false. by rewrite constant_time_eq_spec.
Qed.

(** * Witnesses *)

Lemma base32_roundtrip_witness :
  base32_decode (base32_no_padding (as_bytes (lit "foobar"))) = as_bytes (lit "foobar").
Proof. apply base32_roundtrip. vm_compute. repeat constructor; discriminate. Defined.

(** The text RFC 4648 gives for it. *)
Example base32_foobar : base32_no_padding (as_bytes (lit "foobar")) = lit "MZXW6YTBOI".
Proof. vm_compute. reflexivity. Qed.

(** A codec whose text holds no dollar sign. *)
Definition odd_encode (bytes : list Z) : str := map (fun b => 2 * b + 1) bytes.
Definition odd_decode (s : str) : option (list Z) := Some (map (fun c => c / 2) s).

Lemma odd_codec bytes : odd_decode (odd_encode bytes) = Some bytes.
Proof.
  unfold odd_decode, odd_encode. f_equal. rewrite map_map. rewrite <- (map_id bytes) at 2.
  apply map_ext. intros b. Z.div_mod_to_equations. lia.
Qed.

Lemma odd_no_dollar bytes : 36 ∉ odd_encode bytes.
Proof. intros (b & E & _)%list_elem_of_fmap. lia. Qed.

Lemma totp_secret_roundtrip_witness :
  exists encrypted,
  encrypt_totp_secret odd_encode (fun p s => Ok (p ++ s)) (fun _ _ _ m => Some m)
    (repeat 7 16) (repeat 9 12) (lit "password") (repeat 1 20) = Ok encrypted /\
  decrypt_totp_secret odd_decode (fun p s => Ok (p ++ s)) (fun _ _ _ m => Some m)
    (lit "password") encrypted = Ok (repeat 1 20).
Proof.
  eexists. split; [vm_compute; reflexivity|].
  apply (totp_secret_roundtrip odd_encode odd_decode (fun p s => Ok (p ++ s)) (fun _ _ _ m => Some m)
    (fun _ _ _ m => Some m) (repeat 7 16) (repeat 9 12)); [apply odd_codec| |done|done|vm_compute; reflexivity].
  intros key nonce aad message ciphertext [= <-]. reflexivity.
Defined.

Lemma password_verifies_iff_witness :
  exists stored, hash_operator_password odd_encode (fun p s => Ok (p ++ s)) (repeat 7 16)
    (lit "correct horse") = Ok stored /\
  verify_operator_password odd_decode (fun p s => Ok (p ++ s)) (lit "wrong horse") stored = Ok false.
Proof.
  destruct (hash_operator_password odd_encode (fun p s => Ok (p ++ s)) (repeat 7 16)
    (lit "correct horse")) as [stored|] eqn:E; [|discriminate E].
  exists stored. split; [reflexivity|].
  destruct (password_verifies_iff odd_encode odd_decode (fun p s => Ok (p ++ s)) (repeat 7 16)
    (lit "correct horse") stored (lit "wrong horse") _ odd_codec odd_no_dollar E eq_refl)
    as (digest & [= <-] & ->).
  vm_compute. reflexivity.
Defined.
