(* ===== verification/OperatorAuth.v ===== *)
(** Operator sign-in: crates/api/src/repository/access/repository_auth.rs (login
    with throttling, sessions and their refresh) and
    repository_operator_totp.rs (set up, confirm and disable one-time codes).

    The code is a sequence of database transactions with pure work in between.
    A transaction is a function on [AuthDb], the tables it reads and writes;
    [login_operator_with_throttle] is a program over them, so that several
    logins can be interleaved transaction by transaction.  PostgreSQL runs each
    of these transactions as if alone, on the rows it locks.  Times are in
    microseconds for the database clock and in seconds for the server's.

    Parameters: the cryptography of [Totp].  What is drawn at random (tokens,
    ids, salts) is an argument. *)

From S2P Require Import Prelude RustStd Auth Totp.

Open Scope Z_scope.

Abbreviation outcome := (result str) (only parsing).

(** * Tables *)

(** The columns of [operators] the code uses; the preferences and the display
    timestamps are left out. *)
Record OperatorRecord := mkOperator {
  operator_id : Z;
  username : str;
  password_hash : str;
  operator_status : str;
  role : str;
  scopes : list str;
  totp_enabled : bool;
  totp_secret_ciphertext_hex : option str;
  totp_secret_nonce_hex : option str;
  totp_secret_salt_hex : option str;
  totp_last_accepted_step : option Z;
  session_refresh_ttl_secs : Z;
}.

Record OperatorView := mkOperatorView {
  view_id : Z;
  view_username : str;
  view_status : str;
  view_role : str;
  view_scopes : list str;
  view_totp_enabled : bool;
  view_session_refresh_ttl_secs : Z;
}.

Definition view (o : OperatorRecord) : OperatorView :=
  mkOperatorView (operator_id o) (username o) (operator_status o) (role o)
    (if is_empty (scopes o) then default_operator_scopes (role o) else scopes o)
    (totp_enabled o) (session_refresh_ttl_secs o).

(** [operator_view_from_row]: the stored scopes, without a default. *)
Definition operator_view_from_row (o : OperatorRecord) : OperatorView :=
  mkOperatorView (operator_id o) (username o) (operator_status o) (role o) (scopes o)
    (totp_enabled o) (session_refresh_ttl_secs o).

Definition encrypted_totp_secret (o : OperatorRecord) : option EncryptedTotpSecret :=
  match totp_secret_ciphertext_hex o, totp_secret_nonce_hex o, totp_secret_salt_hex o with
  | Some ciphertext, Some nonce, Some salt => Some (mkEncrypted ciphertext nonce salt)
  | _, _, _ => None
  end.

(** [UPDATE operators SET totp_* = ..]. *)
Definition set_totp (o : OperatorRecord) (enabled : bool) (secret : option EncryptedTotpSecret)
    (last_step : option Z) : OperatorRecord :=
  mkOperator (operator_id o) (username o) (password_hash o) (operator_status o) (role o) (scopes o)
    enabled (option_map ciphertext_hex secret) (option_map totp_nonce_hex secret)
    (option_map salt_hex secret) last_step (session_refresh_ttl_secs o).

Definition set_last_step (o : OperatorRecord) (enabled : bool) (last_step : option Z) : OperatorRecord :=
  mkOperator (operator_id o) (username o) (password_hash o) (operator_status o) (role o) (scopes o)
    enabled (totp_secret_ciphertext_hex o) (totp_secret_nonce_hex o) (totp_secret_salt_hex o)
    last_step (session_refresh_ttl_secs o).

Definition set_password (o : OperatorRecord) (hash : str) : OperatorRecord :=
  mkOperator (operator_id o) (username o) hash (operator_status o) (role o) (scopes o)
    (totp_enabled o) (totp_secret_ciphertext_hex o) (totp_secret_nonce_hex o) (totp_secret_salt_hex o)
    (totp_last_accepted_step o) (session_refresh_ttl_secs o).

(** A row of [operator_auth_throttle]. *)
Record ThrottleRow := mkThrottle {
  failed_attempts : Z;
  window_started_at : Z;
  locked_until : option Z;
}.

(** A row of [operator_sessions]. *)
Record SessionRow := mkSession {
  row_session_id : Z;
  row_operator_id : Z;
  access_token_hash : str;
  refresh_token_hash : str;
  expires_at : Z;
  refresh_expires_at : Z;
  revoked : bool;
}.

(** An entry of the audit log, with the fields of its metadata that vary. *)
Record AuthEvent := mkEvent {
  event_operator : option Z;
  event_attempted_username : str;
  event_success : bool;
  event_reason : option str;
  event_remote_ip : str;
  event_session : option Z;
  event_cleared_previous_failures : bool;
}.

(** An entry of the audit log about the management of an account. *)
Record AuditEntry := mkAudit { audit_actor : Z; audit_action : str; audit_target : Z }.

Record AuthDb := mkDb {
  operators : gmap Z OperatorRecord;
  throttle : gmap (str * str) ThrottleRow;
  sessions : list SessionRow;
  events : list AuthEvent;
  lockouts : list (str * str * Z);
  audits : list AuditEntry;
}.

Definition with_operators (d : AuthDb) (ops : gmap Z OperatorRecord) : AuthDb :=
  mkDb ops (throttle d) (sessions d) (events d) (lockouts d) (audits d).
Definition with_throttle (d : AuthDb) (t : gmap (str * str) ThrottleRow) : AuthDb :=
  mkDb (operators d) t (sessions d) (events d) (lockouts d) (audits d).
Definition with_sessions (d : AuthDb) (s : list SessionRow) : AuthDb :=
  mkDb (operators d) (throttle d) s (events d) (lockouts d) (audits d).
Definition with_event (d : AuthDb) (e : AuthEvent) : AuthDb :=
  mkDb (operators d) (throttle d) (sessions d) (events d ++ [e]) (lockouts d) (audits d).
Definition with_lockouts (d : AuthDb) (l : list (str * str * Z)) : AuthDb :=
  mkDb (operators d) (throttle d) (sessions d) (events d) (lockouts d ++ l) (audits d).
Definition with_audit (d : AuthDb) (actor : Z) (action : string) (target : Z) : AuthDb :=
  mkDb (operators d) (throttle d) (sessions d) (events d) (lockouts d)
    (audits d ++ [mkAudit actor (lit action) target]).

(** The two clocks at the moment of a transaction. *)
Record Now := mkNow { db_now : Z; unix_now : Z }.

Definition micros (secs : Z) : Z := secs * 1000000.

(** * Throttling *)

Record OperatorAuthThrottleConfig := mkThrottleConfig {
  username_failed_attempt_limit : Z;
  ip_failed_attempt_limit : Z;
  failed_attempt_window_secs : Z;
  lockout_secs : Z;
}.

Definition throttle_config_default : OperatorAuthThrottleConfig :=
  mkThrottleConfig 8 8 (15 * 60) (15 * 60).

Definition USERNAME : str := lit "username".
Definition IP : str := lit "ip".

Definition normalize_auth_throttle_username (name : str) : str :=
  let normalized := to_ascii_lowercase (trim name) in
  if is_empty normalized then lit "<empty>" else normalized.

Definition normalize_auth_throttle_ip (remote_ip : str) : str :=
  let normalized := trim remote_ip in
  if is_empty normalized then lit "<unknown>" else normalized.

(** [locked_until IS NOT NULL AND locked_until > now()]. *)
Definition row_locked (now : Z) (row : ThrottleRow) : bool :=
  match locked_until row with Some until => now <? until | None => false end.

Definition key_locked (d : AuthDb) (now : Z) (key : str * str) : bool :=
  match throttle d !! key with Some row => row_locked now row | None => false end.

Definition operator_auth_throttle_locked (username_key ip_key : str) (now : Now) (d : AuthDb) : bool :=
  key_locked d (db_now now) (USERNAME, username_key) || key_locked d (db_now now) (IP, ip_key).

Definition record_postgres_throttle_failure (key : str * str) (attempt_limit window_secs lockout : Z)
    (now : Z) (d : AuthDb) : option (str * str * Z) * AuthDb :=
  let '(new_count, window_expired, was_locked) :=
    match throttle d !! key with
    | Some row =>
        let window_expired := window_started_at row + micros window_secs <=? now in
        (if window_expired then 1 else saturating_add i64_max (failed_attempts row) 1,
         window_expired, row_locked now row)
    | None => (1, true, false)
    end in
  let lockout_created := negb was_locked && (attempt_limit <=? new_count) in
  let row :=
    match throttle d !! key with
    | Some row =>
        mkThrottle new_count (if window_expired then now else window_started_at row)
          (if attempt_limit <=? new_count then Some (now + micros lockout)
           else if window_expired then None else locked_until row)
    | None =>
        mkThrottle new_count now (if attempt_limit <=? new_count then Some (now + micros lockout) else None)
    end in
  (if lockout_created then Some (fst key, snd key, new_count) else None,
   with_throttle d (<[ key := row ]> (throttle d))).

Definition record_operator_auth_failure (username_key ip_key : str) (config : OperatorAuthThrottleConfig)
    (now : Now) (d : AuthDb) : AuthDb :=
  let '(l1, d) := record_postgres_throttle_failure (USERNAME, username_key)
    (username_failed_attempt_limit config) (failed_attempt_window_secs config) (lockout_secs config)
    (db_now now) d in
  let '(l2, d) := record_postgres_throttle_failure (IP, ip_key)
    (ip_failed_attempt_limit config) (failed_attempt_window_secs config) (lockout_secs config)
    (db_now now) d in
  with_lockouts d (option_list l1 ++ option_list l2).

Definition operator_auth_previous_failures (username_key : str) (config : OperatorAuthThrottleConfig)
    (now : Now) (d : AuthDb) : bool :=
  match throttle d !! (USERNAME, username_key) with
  | Some row =>
      (0 <? failed_attempts row)
      && ((db_now now <? window_started_at row + micros (failed_attempt_window_secs config))
          || row_locked (db_now now) row)
  | None => false
  end.

Definition clear_operator_auth_success (username_key : str) (d : AuthDb) : AuthDb :=
  with_throttle d (delete (USERNAME, username_key) (throttle d)).

(** * Events and sessions *)

(** [PreparedOperatorAuthEvent::new]: only a success names the operator. *)
Definition auth_event (operator : option OperatorRecord) (attempted_username : str) (success : bool)
    (reason : option str) (remote_ip : str) (session : option Z) (cleared : bool) : AuthEvent :=
  let name := trim attempted_username in
  mkEvent (if success then option_map operator_id operator else None)
    (if is_empty name then lit "<empty>" else name) success reason remote_ip
    (if success then session else None) cleared.

Record Tokens := mkTokens { access_token : str; refresh_token : str; session_id : Z }.

Record AuthResponse := mkResponse {
  response_tokens : Tokens;
  response_refresh_expires_in_secs : Z;
  response_operator : OperatorView;
}.

Definition ACCESS_TOKEN_TTL_SECS : Z := 24 * 60 * 60.
Definition MIN_REFRESH_TOKEN_TTL_SECS : Z := 24 * 60 * 60.
Definition MAX_REFRESH_TOKEN_TTL_SECS : Z := 10 * 365 * 24 * 60 * 60.

Definition clamp (lo hi v : Z) : Z := Z.max lo (Z.min hi v).

Section Sessions.
Context (sha256 : list Z -> list Z) (hex_encode : list Z -> str).

Definition token_hash (token : str) : str := payload_hash sha256 hex_encode (as_bytes token).

(** [PreparedOperatorSession::new] and its insertion. *)
Definition new_session (tokens : Tokens) (operator : Z) (refresh_ttl_secs : Z) (now : Now) : SessionRow :=
  mkSession (session_id tokens) operator (token_hash (access_token tokens))
    (token_hash (refresh_token tokens))
    (micros (saturating_add u64_max (unix_now now) ACCESS_TOKEN_TTL_SECS))
    (micros (saturating_add u64_max (unix_now now)
       (clamp MIN_REFRESH_TOKEN_TTL_SECS MAX_REFRESH_TOKEN_TTL_SECS refresh_ttl_secs)))
    false.

Definition auth_response (tokens : Tokens) (operator : OperatorRecord) : AuthResponse :=
  mkResponse tokens (session_refresh_ttl_secs operator) (operator_view_from_row operator).

(** What a successful login carries into its transaction. *)
Record SuccessContext := mkSuccess {
  success_username_key : str;
  success_attempted_username : str;
  success_remote_ip : str;
  success_cleared_previous_failures : bool;
}.

Definition ACTIVE : str := lit "active".

(** The row of [$1] with the password the login verified. *)
Definition unchanged_operator (verified : OperatorRecord) (d : AuthDb) : option OperatorRecord :=
  match operators d !! operator_id verified with
  | Some row =>
      if str_eqb (operator_status row) ACTIVE && str_eqb (password_hash row) (password_hash verified)
      then Some row else None
  | None => None
  end.

(** The end of both transactions: throttle, session and event. *)
Definition open_session (row : OperatorRecord) (refresh_ttl_secs : Z) (ctx : SuccessContext)
    (tokens : Tokens) (now : Now) (d : AuthDb) : AuthDb :=
  let d := clear_operator_auth_success (success_username_key ctx) d in
  let d := with_sessions d (sessions d ++ [new_session tokens (operator_id row) refresh_ttl_secs now]) in
  with_event d (auth_event (Some row) (success_attempted_username ctx) true None (success_remote_ip ctx)
    (Some (session_id tokens)) (success_cleared_previous_failures ctx)).

Definition issue_password_login_session (verified : OperatorRecord) (ctx : SuccessContext)
    (tokens : Tokens) (now : Now) (d : AuthDb) : option AuthResponse * AuthDb :=
  match unchanged_operator verified d with
  | Some row =>
      if totp_enabled row then (None, d)
      else (Some (auth_response tokens row),
            open_session row (session_refresh_ttl_secs row) ctx tokens now d)
  | None => (None, d)
  end.

(** [totp_last_accepted_step IS NULL OR totp_last_accepted_step < $2]. *)
Definition step_is_new (last_step : option Z) (step : Z) : bool :=
  match last_step with Some last => last <? step | None => true end.

Definition issue_totp_login_session (verified : OperatorRecord) (matched_step : Z) (ctx : SuccessContext)
    (tokens : Tokens) (now : Now) (d : AuthDb) : outcome (option AuthResponse) * AuthDb :=
  match encrypted_totp_secret verified with
  | None => (Err (lit "enabled TOTP operator is missing secret material"), d)
  | Some encrypted =>
      match unchanged_operator verified d with
      | Some row =>
          if totp_enabled row && bool_decide (encrypted_totp_secret row = Some encrypted)
             && step_is_new (totp_last_accepted_step row) matched_step
          then
            let row' := set_last_step row (totp_enabled row) (Some matched_step) in
            let d := with_operators d (<[ operator_id verified := row' ]> (operators d)) in
            (Ok (Some (auth_response tokens row')),
             open_session row' (session_refresh_ttl_secs verified) ctx tokens now d)
          else (Ok None, d)
      | None => (Ok None, d)
      end
  end.

(** [refresh_operator_session]: the old session is revoked and replaced. *)
Definition refreshable (hash : str) (now : Z) (s : SessionRow) : bool :=
  str_eqb (refresh_token_hash s) hash && (now <? refresh_expires_at s) && negb (revoked s).

Definition revoke (s : SessionRow) : SessionRow :=
  mkSession (row_session_id s) (row_operator_id s) (access_token_hash s) (refresh_token_hash s)
    (expires_at s) (refresh_expires_at s) true.

Definition active_operator (d : AuthDb) (id : Z) : option OperatorRecord :=
  match operators d !! id with
  | Some row => if str_eqb (operator_status row) ACTIVE then Some row else None
  | None => None
  end.

Definition refresh_operator_session (token : str) (tokens : Tokens) (now : Now) (d : AuthDb) :
  option AuthResponse * AuthDb :=
  let hash := token_hash token in
  let selected :=
    List.find (fun s => refreshable hash (db_now now) s
                        && bool_decide (is_Some (active_operator d (row_operator_id s)))) (sessions d) in
  match selected with
  | None => (None, d)
  | Some s =>
      match active_operator d (row_operator_id s) with
      | None => (None, d)
      | Some operator =>
          let revoked_rows := map (fun r =>
            if refreshable hash (db_now now) r && (row_operator_id r =? operator_id operator)
            then revoke r else r) (sessions d) in
          let affected := existsb (fun r =>
            refreshable hash (db_now now) r && (row_operator_id r =? operator_id operator)) (sessions d) in
          if negb affected then (None, d)
          else
            (Some (auth_response tokens operator),
             with_sessions d (revoked_rows ++
               [new_session tokens (operator_id operator) (session_refresh_ttl_secs operator) now]))
      end
  end.

(** The session and operator an access token stands for. *)
Definition authenticate_access_token (token : str) (now : Now) (d : AuthDb) : option (Z * OperatorView) :=
  match List.find (fun s => str_eqb (access_token_hash s) (token_hash token)
                            && (db_now now <? expires_at s) && negb (revoked s)
                            && bool_decide (is_Some (active_operator d (row_operator_id s))))
          (sessions d) with
  | Some s => option_map (fun o => (row_session_id s, operator_view_from_row o)) (active_operator d (row_operator_id s))
  | None => None
  end.

End Sessions.

(** * Login *)

Record LoginRequest := mkLogin {
  login_username : str;
  login_password : str;
  login_totp_code : option str;
}.

Inductive OperatorLoginAttempt :=
| Authenticated (response : AuthResponse)
| InvalidCredentials
| Throttled.

Inductive OperatorLoginFailureReason :=
| UnknownUser | Disabled | Deleted | BadPassword | MissingTotp | MissingTotpSecret
| TotpDecryptFailed | BadTotp | OperatorStateChanged | TotpManagement.

Definition reason_str (reason : OperatorLoginFailureReason) : str :=
  lit match reason with
      | UnknownUser => "unknown_user"
      | Disabled => "operator_disabled"
      | Deleted => "operator_deleted"
      | BadPassword => "bad_password"
      | MissingTotp => "missing_totp"
      | MissingTotpSecret => "missing_totp_secret"
      | TotpDecryptFailed => "totp_decrypt_failed"
      | BadTotp => "bad_totp"
      | OperatorStateChanged => "operator_state_changed"
      | TotpManagement => "totp_management_invalid_credentials"
      end.

(** The transactions of a login, and reading the server's clock. *)
Inductive Tx : Type -> Type :=
| ThrottleLocked (username_key ip_key : str) : Tx bool
| OperatorByUsername (name : str) : Tx (option OperatorRecord)
| RecordEvent (event : AuthEvent) : Tx unit
| RecordFailure (username_key ip_key : str) (config : OperatorAuthThrottleConfig) : Tx unit
| PreviousFailures (username_key : str) (config : OperatorAuthThrottleConfig) : Tx bool
| IssuePassword (verified : OperatorRecord) (ctx : SuccessContext) (tokens : Tokens) :
    Tx (option AuthResponse)
| IssueTotp (verified : OperatorRecord) (step : Z) (ctx : SuccessContext) (tokens : Tokens) :
    Tx (outcome (option AuthResponse))
| UnixNow : Tx Z.

Inductive prog (A : Type) : Type :=
| Ret (a : A)
| Call {X : Type} (tx : Tx X) (k : X -> prog A).
Arguments Ret {A}.
Arguments Call {A X}.

(** [WHERE username = $1]; usernames are unique. *)
Definition operator_by_username (name : str) (d : AuthDb) : option OperatorRecord :=
  List.find (fun o => str_eqb (username o) (trim name)) (map snd (map_to_list (operators d))).

Section Login.
Context (sha256 : list Z -> list Z) (hex_encode : list Z -> str) (hex_decode : str -> option (list Z)).
Context (argon2_digest : list Z -> list Z -> outcome (list Z)).
Context (aead_decrypt : list Z -> list Z -> list Z -> list Z -> option (list Z)).
Context (hmac_sha1 : list Z -> list Z -> list Z).

Definition exec {X} (tx : Tx X) (now : Now) (d : AuthDb) : X * AuthDb :=
  match tx in Tx X return X * AuthDb with
  | ThrottleLocked username_key ip_key =>
      (operator_auth_throttle_locked username_key ip_key now d, d)
  | OperatorByUsername name => (operator_by_username name d, d)
  | RecordEvent event => (tt, with_event d event)
  | RecordFailure username_key ip_key config =>
      (tt, record_operator_auth_failure username_key ip_key config now d)
  | PreviousFailures username_key config =>
      (operator_auth_previous_failures username_key config now d, d)
  | IssuePassword verified ctx tokens =>
      issue_password_login_session sha256 hex_encode verified ctx tokens now d
  | IssueTotp verified step ctx tokens =>
      issue_totp_login_session sha256 hex_encode verified step ctx tokens now d
  | UnixNow => (unix_now now, d)
  end.

Section Attempt.
Context (config : OperatorAuthThrottleConfig) (request : LoginRequest) (remote_ip : str) (tokens : Tokens).

Definition username_key : str := normalize_auth_throttle_username (login_username request).
Definition ip_key : str := normalize_auth_throttle_ip remote_ip.

(** Record the failure and answer [InvalidCredentials]. *)
Definition fail_login (operator : option OperatorRecord) (reason : OperatorLoginFailureReason) :
  prog (outcome OperatorLoginAttempt) :=
  Call (RecordEvent (auth_event operator (trim (login_username request)) false
          (Some (reason_str reason)) ip_key None false)) (fun _ =>
  Call (RecordFailure username_key ip_key config) (fun _ =>
  Ret (Ok InvalidCredentials))).

Definition finish_login (operator : OperatorRecord) (matched_totp_step : option Z) :
  prog (outcome OperatorLoginAttempt) :=
  Call (PreviousFailures username_key config) (fun previous_failures =>
  let ctx := mkSuccess username_key (trim (login_username request)) ip_key previous_failures in
  match matched_totp_step with
  | Some step =>
      Call (IssueTotp operator step ctx tokens) (fun issued =>
      match issued with
      | Err e => Ret (Err e)
      | Ok (Some response) => Ret (Ok (Authenticated response))
      | Ok None => fail_login (Some operator) BadTotp
      end)
  | None =>
      Call (IssuePassword operator ctx tokens) (fun issued =>
      match issued with
      | Some response => Ret (Ok (Authenticated response))
      | None => fail_login (Some operator) OperatorStateChanged
      end)
  end).

Definition check_totp (operator : OperatorRecord) : prog (outcome OperatorLoginAttempt) :=
  match login_totp_code request with
  | None => fail_login (Some operator) MissingTotp
  | Some code =>
      match encrypted_totp_secret operator with
      | None => fail_login (Some operator) MissingTotpSecret
      | Some encrypted =>
          match decrypt_totp_secret hex_decode argon2_digest aead_decrypt (login_password request) encrypted with
          | Err _ => fail_login (Some operator) TotpDecryptFailed
          | Ok secret =>
              Call UnixNow (fun now =>
              match matching_totp_step hmac_sha1 secret code now with
              | Some step =>
                  if step_is_new (totp_last_accepted_step operator) step
                  then finish_login operator (Some step)
                  else fail_login (Some operator) BadTotp
              | None => fail_login (Some operator) BadTotp
              end)
          end
      end
  end.

Definition login_operator_with_throttle : prog (outcome OperatorLoginAttempt) :=
  Call (ThrottleLocked username_key ip_key) (fun locked =>
  if locked : bool then Ret (Ok Throttled)
  else
    Call (OperatorByUsername (login_username request)) (fun found =>
    match found with
    | None => fail_login None UnknownUser
    | Some operator =>
        if negb (str_eqb (operator_status operator) ACTIVE) then
          fail_login (Some operator)
            (if str_eqb (operator_status operator) (lit "deleted") then Deleted else Disabled)
        else
          match verify_operator_password hex_decode argon2_digest (login_password request)
                  (password_hash operator) with
          | Err e => Ret (Err e)
          | Ok false => fail_login (Some operator) BadPassword
          | Ok true =>
              if totp_enabled operator then check_totp operator else finish_login operator None
          end
    end)).

End Attempt.

(** A program without anything in between. *)
Fixpoint run {A} (now : Now) (p : prog A) (d : AuthDb) : A * AuthDb :=
  match p with
  | Ret a => (a, d)
  | Call tx k => let '(x, d) := exec tx now d in run now (k x) d
  end.

(** * Managing one-time codes *)

Inductive TotpSetupOutcome :=
| SetupOperatorMissing | SetupAlreadyEnabled | SetupInvalidPassword
| SetupCreated (secret : list Z).

Inductive TotpUpdateOutcome :=
| UpdateOperatorMissing | UpdateNotConfigured | UpdateAlreadyEnabled | UpdateInvalidCredentials
| Updated (operator : OperatorView).

Definition existing_pending_totp_secret (operator : OperatorRecord) (password : str) :
  outcome (option (list Z)) :=
  guard_err (bool_decide (totp_last_accepted_step operator = None))
    (lit "disabled operator has inconsistent TOTP replay state");;
  match totp_secret_ciphertext_hex operator, totp_secret_nonce_hex operator,
        totp_secret_salt_hex operator with
  | None, None, None => Ok None
  | Some ciphertext, Some nonce, Some salt =>
      secret ← map_err (fun _ => lit "stored pending TOTP secret is corrupt")
                 (decrypt_totp_secret hex_decode argon2_digest aead_decrypt password
                    (mkEncrypted ciphertext nonce salt));
      guard_err ((16 <=? vec_len secret) && (vec_len secret <=? 64))
        (lit "stored pending TOTP secret length is invalid");;
      Ok (Some secret)
  | _, _, _ => Err (lit "stored pending TOTP secret material is incomplete")
  end.

(** [drawn] is the secret and its encryption that [encrypt_new_totp_secret] made. *)
Definition setup_operator_totp (actor : Z) (password : str)
    (drawn : outcome (list Z * EncryptedTotpSecret)) (d : AuthDb) : outcome TotpSetupOutcome * AuthDb :=
  match operators d !! actor with
  | None => (Ok SetupOperatorMissing, d)
  | Some operator =>
      if totp_enabled operator then (Ok SetupAlreadyEnabled, d)
      else
        match verify_operator_password hex_decode argon2_digest password (password_hash operator) with
        | Err e => (Err e, d)
        | Ok false => (Ok SetupInvalidPassword, d)
        | Ok true =>
            match existing_pending_totp_secret operator password with
            | Err e => (Err e, d)
            | Ok (Some secret) => (Ok (SetupCreated secret), d)
            | Ok None =>
                match drawn with
                | Err e => (Err e, d)
                | Ok (secret, encrypted) =>
                    (Ok (SetupCreated secret),
                     with_audit (with_operators d (<[ actor := set_totp operator false (Some encrypted) None ]>
                                                     (operators d)))
                       actor "operator_totp.setup" actor)
                end
            end
        end
  end.

Definition matching_operator_totp_step (operator : OperatorRecord) (password code : str) (now : Now) :
  outcome (option Z) :=
  verified ← verify_operator_password hex_decode argon2_digest password (password_hash operator);
  if negb verified then Ok None
  else
    match encrypted_totp_secret operator with
    | None => Ok None
    | Some encrypted =>
        match decrypt_totp_secret hex_decode argon2_digest aead_decrypt password encrypted with
        | Err _ => Ok None
        | Ok secret => Ok (matching_totp_step hmac_sha1 secret code (unix_now now))
        end
    end.

Definition update_operator_totp (actor : Z) (password code : str) (enable : bool) (now : Now) (d : AuthDb) :
  outcome TotpUpdateOutcome * AuthDb :=
  match operators d !! actor with
  | None => (Ok UpdateOperatorMissing, d)
  | Some operator =>
      match encrypted_totp_secret operator with
      | None => (Ok UpdateNotConfigured, d)
      | Some _ =>
          if enable && totp_enabled operator then (Ok UpdateAlreadyEnabled, d)
          else
            match matching_operator_totp_step operator password code now with
            | Err e => (Err e, d)
            | Ok None => (Ok UpdateInvalidCredentials, d)
            | Ok (Some matched_step) =>
                if negb (step_is_new (totp_last_accepted_step operator) matched_step)
                then (Ok UpdateInvalidCredentials, d)
                else
                  let operator' :=
                    if enable then set_last_step operator true (Some matched_step)
                    else set_totp operator false None None in
                  (Ok (Updated (view operator')),
                   with_audit (with_operators d (<[ actor := operator' ]> (operators d)))
                     actor (if enable then "operator_totp.enabled" else "operator_totp.disabled") actor)
            end
      end
  end.

(** [reset_operator_password]: a new password hash, no one-time code, every
    session of the operator revoked. *)
Definition reset_operator_password (actor target : Z) (new_hash : str) (admin_risk_acknowledged : bool)
    (d : AuthDb) : outcome (option OperatorView) * AuthDb :=
  match operators d !! target with
  | None => (Ok None, d)
  | Some operator =>
      if str_eqb (operator_status operator) (lit "deleted") then (Ok None, d)
      else if admin_risk_acknowledgement_required (role operator) None admin_risk_acknowledged
      then (Err (lit "admin_risk_acknowledgement_required"), d)
      else
        let operator' := set_totp (set_password operator new_hash) false None None in
        (Ok (Some (operator_view_from_row operator')),
         with_audit
           (with_sessions (with_operators d (<[ target := operator' ]> (operators d)))
              (map (fun s => if row_operator_id s =? target then revoke s else s) (sessions d)))
           actor "operator.password_reset" target)
  end.

End Login.
