(* ===== verification/OperatorAuthProofs.v ===== *)
(** Theorems on operator sign-in ([OperatorAuth]): over every interleaving of
    logins, refreshes and changes of the account, a one-time code is accepted
    once and a refresh token exchanged once; over any sequence of logins, the
    throttle bounds the guesses. *)

From S2P Require Import Prelude RustStd Auth Totp OperatorAuth.

Open Scope Z_scope.

#[local] Arguments lit : simpl never.

(** * Throttle rows *)

(** The row a failure leaves. *)
Definition failed_row (row : option ThrottleRow) (limit window lockout now : Z) : ThrottleRow :=
  match row with
  | Some row =>
      let expired := window_started_at row + micros window <=? now in
      let count := if expired then 1 else saturating_add i64_max (failed_attempts row) 1 in
      mkThrottle count (if expired then now else window_started_at row)
        (if limit <=? count then Some (now + micros lockout)
         else if expired then None else locked_until row)
  | None => mkThrottle 1 now (if limit <=? 1 then Some (now + micros lockout) else None)
  end.

Lemma record_throttle_failure key limit window lockout now d :
  snd (record_postgres_throttle_failure key limit window lockout now d) =
  with_throttle d (<[ key := failed_row (throttle d !! key) limit window lockout now ]> (throttle d)).
Proof. unfold record_postgres_throttle_failure. by destruct (throttle d !! key). Qed.

(** A recorded failure touches nothing but the two rows (and the audit log). *)
Lemma record_failure_db username_key ip_key config now d :
  let d' := record_operator_auth_failure username_key ip_key config now d in
  operators d' = operators d /\ sessions d' = sessions d /\
  throttle d' =
    <[ (IP, ip_key) := failed_row (throttle d !! (IP, ip_key)) (ip_failed_attempt_limit config)
         (failed_attempt_window_secs config) (lockout_secs config) (db_now now) ]>
    (<[ (USERNAME, username_key) := failed_row (throttle d !! (USERNAME, username_key))
          (username_failed_attempt_limit config) (failed_attempt_window_secs config)
          (lockout_secs config) (db_now now) ]> (throttle d)).
Proof.
  unfold record_operator_auth_failure.
  pose proof (record_throttle_failure (USERNAME, username_key) (username_failed_attempt_limit config)
    (failed_attempt_window_secs config) (lockout_secs config) (db_now now) d) as E1.
  destruct (record_postgres_throttle_failure _ _ _ _ _ d) as [l1 d1]. cbn [snd] in E1. subst d1.
  set (d1 := with_throttle d _).
  pose proof (record_throttle_failure (IP, ip_key) (ip_failed_attempt_limit config)
    (failed_attempt_window_secs config) (lockout_secs config) (db_now now) d1) as E2.
  destruct (record_postgres_throttle_failure _ _ _ _ _ d1) as [l2 d2]. cbn [snd] in E2. subst d2.
  split_and!; [done|done|]. cbn. rewrite (lookup_insert_ne _ _ (IP, ip_key)) by done. done.
Qed.

(** * The system *)

Section System.
Context (sha256 : list Z -> list Z) (hex_encode : list Z -> str) (hex_decode : str -> option (list Z)).
Context (argon2_digest : list Z -> list Z -> result str (list Z)).
Context (aead_decrypt : list Z -> list Z -> list Z -> list Z -> option (list Z)).
Context (hmac_sha1 : list Z -> list Z -> list Z).

Abbreviation login := (login_operator_with_throttle hex_decode argon2_digest aead_decrypt hmac_sha1).

(** The database, the logins under way, and the history: the codes accepted so
    far (operator, secret, step), the secrets ever stored and the refresh tokens
    exchanged. *)
Record System := mkSystem {
  sys_db : AuthDb;
  pool : list (prog (result str OperatorLoginAttempt));
  accepted : list (Z * EncryptedTotpSecret * Z);
  drawn : list EncryptedTotpSecret;
  exchanged : list str;
}.

(** The code a transaction of a login accepted. *)
Definition accepted_by {X} (tx : Tx X) : X -> list (Z * EncryptedTotpSecret * Z) :=
  match tx in Tx X return X -> list (Z * EncryptedTotpSecret * Z) with
  | IssueTotp verified step _ _ => fun x =>
      match x, encrypted_totp_secret verified with
      | Ok (Some _), Some encrypted => [(operator_id verified, encrypted, step)]
      | _, _ => []
      end
  | _ => fun _ => []
  end.

(** [operator_sessions] has a unique index on the refresh token's hash: a
    transaction that would break it fails. *)
Definition unique_refresh (d : AuthDb) : Prop := NoDup (map refresh_token_hash (sessions d)).

(** A change of an account by another operation: the one-time secret and its
    last step stay as they are, or all of it is cleared. *)
Definition account_change (o o' : OperatorRecord) : Prop :=
  (encrypted_totp_secret o' = encrypted_totp_secret o /\
   totp_last_accepted_step o' = totp_last_accepted_step o) \/
  encrypted_totp_secret o' = None.

Inductive step : System -> System -> Prop :=
| step_arrive s config request remote_ip tokens :
    step s (mkSystem (sys_db s) (pool s ++ [login config request remote_ip tokens])
              (accepted s) (drawn s) (exchanged s))
| step_run s (X : Type) (tx : Tx X) k l r now x d' :
    pool s = l ++ Call tx k :: r ->
    exec sha256 hex_encode tx now (sys_db s) = (x, d') -> unique_refresh d' ->
    step s (mkSystem d' (l ++ k x :: r) (accepted s ++ accepted_by tx x) (drawn s) (exchanged s))
| step_drop s l p r :
    pool s = l ++ p :: r ->
    step s (mkSystem (sys_db s) (l ++ r) (accepted s) (drawn s) (exchanged s))
| step_setup s actor password secret encrypted answer d' :
    encrypted ∉ drawn s ->
    setup_operator_totp hex_decode argon2_digest aead_decrypt actor password (Ok (secret, encrypted))
      (sys_db s) = (answer, d') ->
    step s (mkSystem d' (pool s) (accepted s) (encrypted :: drawn s) (exchanged s))
| step_update s actor password code enable now answer d' o encrypted k :
    update_operator_totp hex_decode argon2_digest aead_decrypt hmac_sha1 actor password code enable now
      (sys_db s) = (Ok (Updated answer), d') ->
    operators (sys_db s) !! actor = Some o -> encrypted_totp_secret o = Some encrypted ->
    matching_operator_totp_step hex_decode argon2_digest aead_decrypt hmac_sha1 o password code now
      = Ok (Some k) ->
    step s (mkSystem d' (pool s) (accepted s ++ [(actor, encrypted, k)]) (drawn s) (exchanged s))
| step_reset s actor target new_hash acknowledged answer d' :
    reset_operator_password actor target new_hash acknowledged (sys_db s) = (answer, d') ->
    step s (mkSystem d' (pool s) (accepted s) (drawn s) (exchanged s))
| step_account s target o o' :
    operators (sys_db s) !! target = Some o -> account_change o o' ->
    step s (mkSystem (with_operators (sys_db s) (<[ target := o' ]> (operators (sys_db s))))
              (pool s) (accepted s) (drawn s) (exchanged s))
| step_refresh s token tokens now answer d' :
    refresh_operator_session sha256 hex_encode token tokens now (sys_db s) = (answer, d') ->
    unique_refresh d' ->
    step s (mkSystem d' (pool s) (accepted s) (drawn s)
              (exchanged s ++ if answer then [token_hash sha256 hex_encode token] else [])).

Inductive steps : System -> System -> Prop :=
| steps_refl s : steps s s
| steps_step s t u : steps s t -> step t u -> steps s u.

(** Where a history starts: nothing accepted or exchanged yet, and the secrets
    of the accounts among those already stored. *)
Definition start (s : System) : Prop :=
  accepted s = [] /\ exchanged s = [] /\ unique_refresh (sys_db s) /\
  forall id o encrypted, operators (sys_db s) !! id = Some o ->
    encrypted_totp_secret o = Some encrypted -> encrypted ∈ drawn s.

(** * One-time codes *)

Record codes_ok (s : System) : Prop := {
  codes_once : NoDup (accepted s);
  codes_spent : forall id encrypted k o, (id, encrypted, k) ∈ accepted s ->
    operators (sys_db s) !! id = Some o -> encrypted_totp_secret o = Some encrypted ->
    exists last, totp_last_accepted_step o = Some last /\ k <= last;
  codes_drawn : forall id encrypted k, (id, encrypted, k) ∈ accepted s -> encrypted ∈ drawn s;
  secrets_drawn : forall id o encrypted, operators (sys_db s) !! id = Some o ->
    encrypted_totp_secret o = Some encrypted -> encrypted ∈ drawn s;
}.

(** A change of the accounts that accepts nothing. *)
Lemma codes_ok_change s d' drawn' pool' exchanged' :
  codes_ok s -> (forall e, e ∈ drawn s -> e ∈ drawn') ->
  (forall id o', operators d' !! id = Some o' ->
     (exists o, operators (sys_db s) !! id = Some o /\ account_change o o') \/
     (exists e, encrypted_totp_secret o' = Some e /\ e ∉ drawn s /\ e ∈ drawn')) ->
  codes_ok (mkSystem d' pool' (accepted s) drawn' exchanged').
Proof.
  intros [H1 H2 H3 H4] Hd Hc. split; cbn; [done|..].
  - intros id encrypted k o' Hin Ho He.
    destruct (Hc id o' Ho) as [(o & Hlo & [[E1 E2]|E])|(e & E1 & E2 & _)]; [| |].
    + rewrite E2. apply (H2 id encrypted k o); [done|done|congruence].
    + congruence.
    + apply H3 in Hin. congruence.
  - eauto.
  - intros id o' encrypted Ho He.
    destruct (Hc id o' Ho) as [(o & Hlo & [[E1 E2]|E])|(e & E1 & E2 & E3)]; [| |].
    + apply Hd. apply (H4 id o); congruence.
    + congruence.
    + congruence.
Qed.

(** Accepting the code of a newer step. *)
Lemma codes_ok_accept s d' pool' exchanged' id o o' encrypted k :
  codes_ok s -> operators (sys_db s) !! id = Some o -> encrypted_totp_secret o = Some encrypted ->
  step_is_new (totp_last_accepted_step o) k = true ->
  operators d' = <[ id := o' ]> (operators (sys_db s)) ->
  (encrypted_totp_secret o' = None \/
   (encrypted_totp_secret o' = Some encrypted /\ totp_last_accepted_step o' = Some k)) ->
  codes_ok (mkSystem d' pool' (accepted s ++ [(id, encrypted, k)]) (drawn s) exchanged').
Proof.
  intros [H1 H2 H3 H4] Ho He Hn Hd Ho'.
  assert (Hlast : forall k', (id, encrypted, k') ∈ accepted s -> k' < k).
  { intros k' Hin. destruct (H2 id encrypted k' o Hin Ho He) as (last & El & Hle).
    rewrite El in Hn. cbn in Hn. bools. lia. }
  split; cbn.
  - apply NoDup_app. split_and!; [done| |apply NoDup_singleton].
    intros x Hx ->%list_elem_of_singleton. apply Hlast in Hx. lia.
  - intros id1 e1 k1 o1 Hin. rewrite Hd. destruct (decide (id1 = id)) as [->|Hne].
    + rewrite lookup_insert_eq. intros [= <-] He1. destruct Ho' as [E|[E1 E2]]; [congruence|].
      exists k. split; [done|]. assert (e1 = encrypted) as -> by congruence.
      apply elem_of_app in Hin as [Hin|Hin]; [apply Hlast in Hin; lia|].
      apply list_elem_of_singleton in Hin. simplify_eq. lia.
    + rewrite lookup_insert_ne by done. intros Ho1 He1.
      apply elem_of_app in Hin as [Hin|Hin]; [eauto|]. apply list_elem_of_singleton in Hin. congruence.
  - intros id1 e1 k1 Hin. apply elem_of_app in Hin as [Hin|Hin]; [eauto|].
    apply list_elem_of_singleton in Hin. simplify_eq. eauto.
  - intros id1 o1 e1. rewrite Hd. destruct (decide (id1 = id)) as [->|Hne].
    + rewrite lookup_insert_eq. intros [= <-] He1. destruct Ho' as [E|[E1 E2]]; [congruence|].
      assert (e1 = encrypted) as -> by congruence. eauto.
    + rewrite lookup_insert_ne by done. eauto.
Qed.

(** The accounts after a transaction of a login. *)
Lemma exec_operators X (tx : Tx X) now d x d' :
  exec sha256 hex_encode tx now d = (x, d') ->
  (operators d' = operators d /\ accepted_by tx x = []) \/
  exists verified row encrypted k, accepted_by tx x = [(operator_id verified, encrypted, k)] /\
    operators d !! operator_id verified = Some row /\ encrypted_totp_secret row = Some encrypted /\
    step_is_new (totp_last_accepted_step row) k = true /\
    operators d' = <[ operator_id verified := set_last_step row (totp_enabled row) (Some k) ]> (operators d).
Proof.
  destruct tx as [u i|n|e|u i c|u c|v ctx t|v k ctx t|]; cbn.
  - intros [= <- <-]. by left.
  - intros [= <- <-]. by left.
  - intros [= <- <-]. by left.
  - intros [= <- <-]. left. split; [|done]. apply record_failure_db.
  - intros [= <- <-]. by left.
  - unfold issue_password_login_session. destruct (unchanged_operator v d) as [row|]; [|intros [= <- <-]; by left].
    destruct (totp_enabled row); intros [= <- <-]; by left.
  - unfold issue_totp_login_session, unchanged_operator.
    destruct (encrypted_totp_secret v) as [enc|] eqn:Ee; [|intros [= <- <-]; by left].
    destruct (operators d !! operator_id v) as [row|] eqn:Er; [|intros [= <- <-]; by left].
    destruct (str_eqb _ ACTIVE && _); [|intros [= <- <-]; by left].
    destruct (totp_enabled row && _ && _) eqn:Ec; [|intros [= <- <-]; by left].
    intros [= <- <-]. right. bools. exists v, row, enc, k. split_and!; done.
  - intros [= <- <-]. by left.
Qed.

Lemma codes_ok_run s X (tx : Tx X) now x d' pool' exchanged' :
  codes_ok s -> exec sha256 hex_encode tx now (sys_db s) = (x, d') ->
  codes_ok (mkSystem d' pool' (accepted s ++ accepted_by tx x) (drawn s) exchanged').
Proof.
  intros Hs [[E ->]|(v & row & enc & k & -> & Hrow & He & Hn & E)]%exec_operators.
  - rewrite app_nil_r. apply codes_ok_change; [done|done|]. intros id o'. rewrite E. intros Ho.
    left. exists o'. split; [done|]. by left.
  - eapply codes_ok_accept; eauto.
Qed.

Lemma set_totp_secret o enabled secret last :
  encrypted_totp_secret (set_totp o enabled secret last) = secret.
Proof. by destruct secret as [[? ? ?]|]. Qed.

Lemma codes_ok_insert s target o o' pool' exchanged' d' :
  codes_ok s -> operators (sys_db s) !! target = Some o -> account_change o o' ->
  operators d' = <[ target := o' ]> (operators (sys_db s)) ->
  codes_ok (mkSystem d' pool' (accepted s) (drawn s) exchanged').
Proof.
  intros Hs Ho Hc Hd. apply codes_ok_change; [done|done|]. intros id o1. rewrite Hd.
  destruct (decide (id = target)) as [->|Hne].
  - rewrite lookup_insert_eq. intros [= <-]. left. eauto.
  - rewrite lookup_insert_ne by done. intros Ho1. left. exists o1. split; [done|]. by left.
Qed.

Lemma codes_ok_same s d' pool' exchanged' drawn' :
  codes_ok s -> operators d' = operators (sys_db s) -> (forall e, e ∈ drawn s -> e ∈ drawn') ->
  codes_ok (mkSystem d' pool' (accepted s) drawn' exchanged').
Proof.
  intros Hs E Hd. apply codes_ok_change; [done|done|]. intros id o'. rewrite E. intros Ho. left.
  exists o'. split; [done|]. by left.
Qed.

Lemma setup_operators actor password secret encrypted d answer d' :
  setup_operator_totp hex_decode argon2_digest aead_decrypt actor password (Ok (secret, encrypted)) d
    = (answer, d') ->
  operators d' = operators d \/
  exists o, operators d !! actor = Some o /\
            operators d' = <[ actor := set_totp o false (Some encrypted) None ]> (operators d).
Proof.
  unfold setup_operator_totp. destruct (operators d !! actor) as [o|]; [|intros [= _ <-]; by left].
  destruct (totp_enabled o); [intros [= _ <-]; by left|].
  destruct (verify_operator_password _ _ _ _) as [[]|]; [|intros [= _ <-]; by left..].
  destruct (existing_pending_totp_secret _ _ _ _ _) as [[|]|]; [intros [= _ <-]; by left| |intros [= _ <-]; by left].
  intros [= _ <-]. right. eauto.
Qed.

Lemma update_operators actor password code enable now d answer d' o encrypted k :
  update_operator_totp hex_decode argon2_digest aead_decrypt hmac_sha1 actor password code enable now d
    = (Ok (Updated answer), d') ->
  operators d !! actor = Some o -> encrypted_totp_secret o = Some encrypted ->
  matching_operator_totp_step hex_decode argon2_digest aead_decrypt hmac_sha1 o password code now = Ok (Some k) ->
  step_is_new (totp_last_accepted_step o) k = true /\
  exists o', operators d' = <[ actor := o' ]> (operators d) /\
    (encrypted_totp_secret o' = None \/
     (encrypted_totp_secret o' = Some encrypted /\ totp_last_accepted_step o' = Some k)).
Proof.
  unfold update_operator_totp. intros H Ho He Hk. rewrite Ho, He, Hk in H.
  destruct (enable && totp_enabled o); [done|].
  destruct (step_is_new (totp_last_accepted_step o) k); [|done]. split; [done|]. cbn in H.
  injection H as _ <-. eexists. split; [done|]. destruct enable; [right|left]; done.
Qed.

Lemma reset_operators actor target new_hash acknowledged d answer d' :
  reset_operator_password actor target new_hash acknowledged d = (answer, d') ->
  operators d' = operators d \/
  exists o o', operators d !! target = Some o /\ encrypted_totp_secret o' = None /\
               operators d' = <[ target := o' ]> (operators d).
Proof.
  unfold reset_operator_password. destruct (operators d !! target) as [o|]; [|intros [= _ <-]; by left].
  destruct (str_eqb _ _); [intros [= _ <-]; by left|].
  destruct (admin_risk_acknowledgement_required _ _ _); [intros [= _ <-]; by left|].
  intros [= _ <-]. right. exists o. eexists. split; [done|]. split; [|done]. done.
Qed.

Lemma refresh_operators token tokens now d answer d' :
  refresh_operator_session sha256 hex_encode token tokens now d = (answer, d') ->
  operators d' = operators d.
Proof. unfold refresh_operator_session. intros H. by repeat case_match; simplify_eq. Qed.

Lemma codes_ok_step s t : codes_ok s -> step s t -> codes_ok t.
Proof.
  intros Hs Hst. destruct Hst as [s config request ip tokens|s X tx k l r now x d' Hp He Hu|s l p r Hp
    |s actor password secret enc answer d' Hf He|s actor password code enable now answer d' o enc k He Ho Hs' Hk
    |s actor target hash ack answer d' He|s target o o' Ho Hc|s token tokens now answer d' He Hu].
  - by apply codes_ok_same.
  - by eapply codes_ok_run.
  - by apply codes_ok_same.
  - apply setup_operators in He as [E|(o & Ho & E)].
    + apply codes_ok_same; [done|done|]. intros e He. by right.
    + apply codes_ok_change; [done|intros e He; by right|]. intros id o1. rewrite E.
      destruct (decide (id = actor)) as [->|Hne].
      * rewrite lookup_insert_eq. intros [= <-]. right. exists enc. rewrite set_totp_secret.
        split_and!; [done|done|by left].
      * rewrite lookup_insert_ne by done. intros Ho1. left. exists o1. split; [done|]. by left.
  - destruct (update_operators _ _ _ _ _ _ _ _ _ _ _ He Ho Hs' Hk) as (Hn & o' & E & Hcase).
    by eapply codes_ok_accept.
  - apply reset_operators in He as [E|(o & o' & Ho & Hn & E)].
    + by apply codes_ok_same.
    + eapply codes_ok_insert; eauto. by right.
  - by eapply codes_ok_insert.
  - apply codes_ok_same; [done| |done]. by eapply refresh_operators.
Qed.

Lemma steps_codes_ok s t : codes_ok s -> steps s t -> codes_ok t.
Proof. intros Hs H. induction H; [done|]. eauto using codes_ok_step. Qed.

(** * Refresh tokens *)

Record tokens_ok (s : System) : Prop := {
  tokens_unique : unique_refresh (sys_db s);
  tokens_once : NoDup (exchanged s);
  tokens_revoked : forall hash, hash ∈ exchanged s ->
    exists row, row ∈ sessions (sys_db s) /\ refresh_token_hash row = hash /\ revoked row = true;
}.

(** Sessions are only added and revoked. *)
Definition sessions_grow (d d' : AuthDb) : Prop :=
  forall row, row ∈ sessions d -> revoked row = true ->
    exists row', row' ∈ sessions d' /\ refresh_token_hash row' = refresh_token_hash row /\ revoked row' = true.

Lemma tokens_ok_grow s d' pool' accepted' drawn' :
  tokens_ok s -> unique_refresh d' -> sessions_grow (sys_db s) d' ->
  tokens_ok (mkSystem d' pool' accepted' drawn' (exchanged s)).
Proof.
  intros [H1 H2 H3] Hu Hg. split; cbn; [done|done|]. intros hash (row & Hin & <- & Hr)%H3.
  destruct (Hg row Hin Hr) as (row' & ? & <- & ?). eauto.
Qed.

Lemma sessions_grow_same d d' : sessions d' = sessions d -> sessions_grow d d'.
Proof. intros E row Hin Hr. rewrite E. eauto. Qed.

Lemma sessions_grow_app d d' new : sessions d' = sessions d ++ new -> sessions_grow d d'.
Proof. intros E row Hin Hr. exists row. rewrite E. split_and!; try done. apply elem_of_app. by left. Qed.

Lemma sessions_grow_revoke d d' (f : SessionRow -> bool) new :
  sessions d' = map (fun r => if f r then revoke r else r) (sessions d) ++ new -> sessions_grow d d'.
Proof.
  intros E row Hin Hr. exists (if f row then revoke row else row). rewrite E. split_and!.
  - apply elem_of_app. left. apply list_elem_of_fmap. by exists row.
  - by destruct (f row).
  - by destruct (f row).
Qed.

Lemma exec_sessions X (tx : Tx X) now d x d' :
  exec sha256 hex_encode tx now d = (x, d') -> exists new, sessions d' = sessions d ++ new.
Proof.
  assert (N : forall d1, sessions d1 = sessions d -> exists new, sessions d1 = sessions d ++ new).
  { intros d1 E. exists []. by rewrite app_nil_r. }
  destruct tx as [u i|n|e|u i c|u c|v ctx t|v k ctx t|]; cbn.
  1-3, 5, 8: intros [= <- <-]; by apply N.
  - intros [= <- <-]. apply N. apply record_failure_db.
  - unfold issue_password_login_session. destruct (unchanged_operator v d) as [row|]; [|intros [= <- <-]; by apply N].
    destruct (totp_enabled row); intros [= <- <-]; [by apply N|by eexists].
  - unfold issue_totp_login_session. destruct (encrypted_totp_secret v); [|intros [= <- <-]; by apply N].
    destruct (unchanged_operator v d) as [row|]; [|intros [= <- <-]; by apply N].
    destruct (totp_enabled row && _ && _); intros [= <- <-]; [by eexists|by apply N].
Qed.

Lemma other_sessions_setup actor password drawn0 d answer d' :
  setup_operator_totp hex_decode argon2_digest aead_decrypt actor password drawn0 d = (answer, d') ->
  sessions d' = sessions d.
Proof. unfold setup_operator_totp. intros H. by repeat case_match; simplify_eq. Qed.

Lemma other_sessions_update actor password code enable now d answer d' :
  update_operator_totp hex_decode argon2_digest aead_decrypt hmac_sha1 actor password code enable now d
    = (answer, d') -> sessions d' = sessions d.
Proof. unfold update_operator_totp. intros H. by repeat case_match; simplify_eq. Qed.

(** A refresh exchanges a session that is not revoked. *)
Lemma refresh_sessions token tokens now d answer d' :
  refresh_operator_session sha256 hex_encode token tokens now d = (answer, d') ->
  match answer with
  | None => d' = d
  | Some _ =>
      exists row f new, row ∈ sessions d /\ refresh_token_hash row = token_hash sha256 hex_encode token /\
        revoked row = false /\ f row = true /\
        sessions d' = map (fun r => if f r then revoke r else r) (sessions d) ++ new
  end.
Proof.
  unfold refresh_operator_session. set (hash := token_hash _ _ token).
  destruct (List.find _ (sessions d)) as [row|] eqn:Ef; [|by intros [= <- <-]].
  apply find_some in Ef as [Hin Hf]. bools.
  destruct (active_operator d (row_operator_id row)) as [o|] eqn:Ea; [|by intros [= <- <-]].
  destruct (existsb _ (sessions d)) eqn:Ee; intros [= <- <-]; [|done].
  apply existsb_exists in Ee as (row' & Hin' & He').
  exists row', (fun r => refreshable hash (db_now now) r && (row_operator_id r =? operator_id o)). eexists.
  split; [by apply list_elem_of_In|]. assert (He := He'). unfold refreshable in He. apply andb_prop in He as [He _]. bools.
  split; [by apply str_eqb_eq|]. split; [done|]. split; [|reflexivity].
  apply andb_true_intro. split; [done|]. by apply Z.eqb_eq.
Qed.

Lemma tokens_ok_refresh s token tokens now answer d' pool' accepted' drawn' :
  tokens_ok s -> unique_refresh d' ->
  refresh_operator_session sha256 hex_encode token tokens now (sys_db s) = (answer, d') ->
  tokens_ok (mkSystem d' pool' accepted' drawn'
               (exchanged s ++ if answer then [token_hash sha256 hex_encode token] else [])).
Proof.
  intros Hs Hu He%refresh_sessions. destruct answer as [response|].
  2:{ rewrite app_nil_r. apply tokens_ok_grow; [done|done|]. by apply sessions_grow_same; subst. }
  destruct He as (row & f & new & Hin & Hh & Hr & Hf & Hd).
  destruct Hs as [H1 H2 H3]. split; cbn; [done|..].
  - apply NoDup_app. split_and!; [done| |apply NoDup_singleton].
    intros hash Hx ->%list_elem_of_singleton. apply H3 in Hx as (row' & Hin' & Hh' & Hr').
    assert (row = row') as ->; [|congruence].
    apply list_elem_of_lookup in Hin as [i Hi], Hin' as [j Hj].
    assert (i = j) as ->; [|congruence].
    apply (NoDup_lookup _ _ _ (refresh_token_hash row) H1).
    + rewrite list_lookup_fmap, Hi. done.
    + rewrite list_lookup_fmap, Hj. cbn. congruence.
  - intros hash [Hx|Hx]%elem_of_app.
    + apply H3 in Hx as (row' & Hin' & Hh' & Hr').
      destruct (sessions_grow_revoke _ _ _ _ Hd row' Hin' Hr') as (row'' & ? & E & ?).
      exists row''. split_and!; congruence || done.
    + apply list_elem_of_singleton in Hx as ->. exists (revoke row). rewrite Hd. split; [|done].
      apply elem_of_app. left. apply list_elem_of_fmap. exists row. by rewrite Hf.
Qed.

Lemma unique_same d d' : unique_refresh d -> sessions d' = sessions d -> unique_refresh d'.
Proof. unfold unique_refresh. by intros H ->. Qed.

Lemma reset_sessions actor target new_hash acknowledged d answer d' :
  reset_operator_password actor target new_hash acknowledged d = (answer, d') ->
  exists f : SessionRow -> bool, sessions d' = map (fun r => if f r then revoke r else r) (sessions d).
Proof.
  assert (N : exists f : SessionRow -> bool, sessions d = map (fun r => if f r then revoke r else r) (sessions d)).
  { exists (fun _ => false). by rewrite map_id. }
  unfold reset_operator_password. destruct (operators d !! target); [|by intros [= _ <-]].
  destruct (str_eqb _ _); [by intros [= _ <-]|].
  destruct (admin_risk_acknowledgement_required _ _ _); [by intros [= _ <-]|].
  intros [= _ <-]. by eexists.
Qed.

Lemma tokens_ok_step s t : tokens_ok s -> step s t -> tokens_ok t.
Proof.
  intros Hs Hst. pose proof (tokens_unique s Hs) as Hun.
  destruct Hst as [s config request ip tokens|s X tx k l r now x d' Hp He Hu|s l p r Hp
    |s actor password secret enc answer d' Hf He|s actor password code enable now answer d' o enc k He Ho Hs' Hk
    |s actor target hash ack answer d' He|s target o o' Ho Hc|s token tokens now answer d' He Hu].
  - apply tokens_ok_grow; [done|done|]. by apply sessions_grow_same.
  - apply exec_sessions in He as [new He]. apply tokens_ok_grow; [done|done|]. by eapply sessions_grow_app.
  - apply tokens_ok_grow; [done|done|]. by apply sessions_grow_same.
  - apply other_sessions_setup in He. apply tokens_ok_grow; [done|by eapply unique_same|].
    by apply sessions_grow_same.
  - apply other_sessions_update in He. apply tokens_ok_grow; [done|by eapply unique_same|].
    by apply sessions_grow_same.
  - apply reset_sessions in He as [f He]. apply tokens_ok_grow; [done| |].
    + unfold unique_refresh in *. rewrite He, map_map. erewrite map_ext; [exact Hun|].
      intros r. cbn. by destruct (f r).
    + apply (sessions_grow_revoke _ _ f []). by rewrite app_nil_r.
  - apply tokens_ok_grow; [done|by eapply unique_same|]. by apply sessions_grow_same.
  - by eapply tokens_ok_refresh.
Qed.

Lemma steps_tokens_ok s t : tokens_ok s -> steps s t -> tokens_ok t.
Proof. intros Hs H. induction H; [done|]. eauto using tokens_ok_step. Qed.

(** * Guessing *)

(** Logins one after the other. *)
Record Attempt := mkAttempt {
  at_now : Now;
  at_request : LoginRequest;
  at_remote_ip : str;
  at_tokens : Tokens;
}.

Definition attempt_answer (config : OperatorAuthThrottleConfig) (a : Attempt) (d : AuthDb) :
  result str OperatorLoginAttempt * AuthDb :=
  run sha256 hex_encode (at_now a) (login config (at_request a) (at_remote_ip a) (at_tokens a)) d.

Fixpoint run_attempts (config : OperatorAuthThrottleConfig) (attempts : list Attempt) (d : AuthDb) :
  list (Attempt * result str OperatorLoginAttempt) :=
  match attempts with
  | [] => []
  | a :: attempts' =>
      let '(answer, d) := attempt_answer config a d in (a, answer) :: run_attempts config attempts' d
  end.

(** The attempt is made on this user name, or from this address. *)
Definition concerns (key : str * str) (a : Attempt) : bool :=
  bool_decide (key = (USERNAME, username_key (at_request a))) ||
  bool_decide (key = (IP, ip_key (at_remote_ip a))).

Definition limit_of (config : OperatorAuthThrottleConfig) (key : str * str) : Z :=
  if str_eqb (fst key) USERNAME then username_failed_attempt_limit config else ip_failed_attempt_limit config.

Definition wrong_guess (key : str * str) (entry : Attempt * result str OperatorLoginAttempt) : bool :=
  concerns key (fst entry) && match snd entry with Ok InvalidCredentials => true | _ => false end.

Definition guessed_right (key : str * str) (entry : Attempt * result str OperatorLoginAttempt) : bool :=
  concerns key (fst entry) && match snd entry with Ok (Authenticated _) => true | _ => false end.

Definition guesses (key : str * str) (log : list (Attempt * result str OperatorLoginAttempt)) : Z :=
  vec_len (List.filter (wrong_guess key) log).

(** The rows after a failure. *)
Definition rows_after_failure (config : OperatorAuthThrottleConfig) (u i : str) (now : Z)
    (t : gmap (str * str) ThrottleRow) : gmap (str * str) ThrottleRow :=
  <[ (IP, i) := failed_row (t !! (IP, i)) (ip_failed_attempt_limit config)
       (failed_attempt_window_secs config) (lockout_secs config) now ]>
  (<[ (USERNAME, u) := failed_row (t !! (USERNAME, u)) (username_failed_attempt_limit config)
        (failed_attempt_window_secs config) (lockout_secs config) now ]> t).

(** What an answer says of the rows. *)
Definition answer_effect (config : OperatorAuthThrottleConfig) (a : Attempt) (d : AuthDb)
    (answer : result str OperatorLoginAttempt) (d' : AuthDb) : Prop :=
  let u := username_key (at_request a) in
  let i := ip_key (at_remote_ip a) in
  match answer with
  | Ok Throttled => throttle d' = throttle d
  | Err _ => throttle d' = throttle d
  | Ok InvalidCredentials =>
      operator_auth_throttle_locked u i (at_now a) d = false /\
      throttle d' = rows_after_failure config u i (db_now (at_now a)) (throttle d)
  | Ok (Authenticated _) => throttle d' = delete (USERNAME, u) (throttle d)
  end.

Lemma fail_login_effect config a operator reason d d0 answer d' :
  operator_auth_throttle_locked (username_key (at_request a)) (ip_key (at_remote_ip a)) (at_now a) d0 = false ->
  throttle d = throttle d0 ->
  run sha256 hex_encode (at_now a) (fail_login config (at_request a) (at_remote_ip a) operator reason) d
    = (answer, d') -> answer_effect config a d0 answer d'.
Proof.
  intros Hl Ht. cbn. intros [= <- <-]. split; [done|].
  destruct (record_failure_db (username_key (at_request a)) (ip_key (at_remote_ip a)) config (at_now a)
    (with_event d (auth_event operator (trim (login_username (at_request a))) false
       (Some (reason_str reason)) (ip_key (at_remote_ip a)) None false))) as (_ & _ & ->).
  cbn. by rewrite Ht.
Qed.

Lemma issue_password_effect v ctx t now d x d' :
  issue_password_login_session sha256 hex_encode v ctx t now d = (x, d') ->
  match x with
  | Some _ => throttle d' = delete (USERNAME, success_username_key ctx) (throttle d)
  | None => d' = d
  end.
Proof.
  unfold issue_password_login_session. destruct (unchanged_operator v d) as [row|]; [|by intros [= <- <-]].
  destruct (totp_enabled row); by intros [= <- <-].
Qed.

Lemma issue_totp_effect v k ctx t now d x d' :
  issue_totp_login_session sha256 hex_encode v k ctx t now d = (x, d') ->
  match x with
  | Ok (Some _) => throttle d' = delete (USERNAME, success_username_key ctx) (throttle d)
  | _ => d' = d
  end.
Proof.
  unfold issue_totp_login_session. destruct (encrypted_totp_secret v); [|by intros [= <- <-]].
  destruct (unchanged_operator v d) as [row|]; [|by intros [= <- <-]].
  destruct (totp_enabled row && _ && _); by intros [= <- <-].
Qed.

Lemma finish_login_effect config a operator matched d answer d' :
  operator_auth_throttle_locked (username_key (at_request a)) (ip_key (at_remote_ip a)) (at_now a) d = false ->
  run sha256 hex_encode (at_now a)
    (finish_login config (at_request a) (at_remote_ip a) (at_tokens a) operator matched) d = (answer, d') ->
  answer_effect config a d answer d'.
Proof.
  intros Hl. unfold finish_login. cbn [run exec]. destruct matched as [k|]; cbn [run exec].
  - destruct (issue_totp_login_session _ _ _ _ _ _ _ _) as [x d1] eqn:E. apply issue_totp_effect in E.
    destruct x as [[response|]|e]; cbn [run].
    + intros [= <- <-]. exact E.
    + subst d1. by apply fail_login_effect.
    + intros [= <- <-]. by subst.
  - destruct (issue_password_login_session _ _ _ _ _ _ _) as [x d1] eqn:E. apply issue_password_effect in E.
    destruct x as [response|]; cbn [run].
    + intros [= <- <-]. exact E.
    + subst d1. by apply fail_login_effect.
Qed.

Lemma attempt_effect config a d answer d' :
  attempt_answer config a d = (answer, d') -> answer_effect config a d answer d'.
Proof.
  unfold attempt_answer, login_operator_with_throttle. cbn [run exec].
  destruct (operator_auth_throttle_locked _ _ _ d) eqn:Hl; [by intros [= <- <-]|].
  cbn [run exec]. destruct (operator_by_username _ d) as [operator|]; [|by apply fail_login_effect].
  destruct (negb _); [by apply fail_login_effect|].
  destruct (verify_operator_password _ _ _ _) as [[]|]; cbn [run]; [|by apply fail_login_effect|by intros [= <- <-]].
  destruct (totp_enabled operator); [|by apply finish_login_effect].
  unfold check_totp. destruct (login_totp_code _); [|by apply fail_login_effect].
  destruct (encrypted_totp_secret operator); [|by apply fail_login_effect].
  destruct (decrypt_totp_secret _ _ _ _ _); [|by apply fail_login_effect]. cbn [run exec].
  destruct (matching_totp_step _ _ _ _); [|by apply fail_login_effect].
  destruct (step_is_new _ _); [by apply finish_login_effect|by apply fail_login_effect].
Qed.

(** The row of a key after [c] wrong guesses since [t0]. *)
Definition row_counts (config : OperatorAuthThrottleConfig) (limit t0 c : Z) (row : option ThrottleRow) : Prop :=
  0 <= c <= limit /\
  match row with
  | None => c = 0
  | Some row =>
      0 < c /\ failed_attempts row = c /\ t0 <= window_started_at row /\
      (limit <= c -> exists until, locked_until row = Some until /\ t0 + micros (lockout_secs config) <= until)
  end.

Lemma failed_row_counts config limit t0 c row now :
  row_counts config limit t0 c row -> c < limit <= i64_max ->
  t0 <= now < t0 + micros (failed_attempt_window_secs config) ->
  row_counts config limit t0 (c + 1)
    (Some (failed_row row limit (failed_attempt_window_secs config) (lockout_secs config) now)).
Proof.
  intros [Hc Hr] Hl Hn. split; [lia|]. unfold failed_row. destruct row as [row|].
  - destruct Hr as (H1 & H2 & H3 & H4).
    destruct (Z.leb_spec (window_started_at row + micros (failed_attempt_window_secs config)) now); [lia|].
    unfold saturating_add. rewrite H2, Z.min_r by lia. cbn. split_and!; [lia|done|done|].
    intros Hle. destruct (Z.leb_spec limit (c + 1)); [|lia]. eexists. split; [done|]. lia.
  - subst c. cbn. split_and!; [lia|done|lia|]. intros Hle.
    destruct (Z.leb_spec limit 1); [|lia]. eexists. split; [done|]. lia.
Qed.

(** A key that is not locked has guesses left. *)
Lemma unlocked_counts config limit t0 c d key now :
  row_counts config limit t0 c (throttle d !! key) -> 1 <= limit -> key_locked d now key = false ->
  now < t0 + micros (lockout_secs config) -> c < limit.
Proof.
  intros [Hc Hr] Hl Hk Hn. destruct (Z.ltb_spec c limit); [done|]. exfalso. unfold key_locked in Hk.
  destruct (throttle d !! key) as [row|]; [|lia].
  destruct Hr as (_ & _ & _ & Hu). destruct (Hu ltac:(lia)) as (until & E & Hle).
  unfold row_locked in Hk. rewrite E in Hk. bools. lia.
Qed.

Lemma key_kinds : (USERNAME : str) <> IP.
Proof. discriminate. Qed.

(** Another key's rows. *)
Lemma rows_after_failure_ne config u i now t key :
  key <> (USERNAME, u) -> key <> (IP, i) -> rows_after_failure config u i now t !! key = t !! key.
Proof. intros H1 H2. unfold rows_after_failure. rewrite !lookup_insert_ne by congruence. done. Qed.

Lemma rows_after_failure_eq config u i now t key :
  key = (USERNAME, u) \/ key = (IP, i) ->
  rows_after_failure config u i now t !! key =
  Some (failed_row (t !! key) (limit_of config key) (failed_attempt_window_secs config)
          (lockout_secs config) now).
Proof.
  intros [->| ->]; unfold rows_after_failure, limit_of; cbn [fst].
  - rewrite lookup_insert_ne by (intros [= E _]; by apply key_kinds). by rewrite lookup_insert_eq, str_eqb_refl.
  - rewrite lookup_insert_eq. by rewrite (proj2 (str_eqb_neq IP USERNAME)) by (intros E; by apply key_kinds).
Qed.

(** One attempt moves the count by its own guess. *)
Lemma attempt_counts config key t0 c a d answer d' :
  attempt_answer config a d = (answer, d') ->
  row_counts config (limit_of config key) t0 c (throttle d !! key) ->
  1 <= limit_of config key <= i64_max ->
  t0 <= db_now (at_now a) < t0 + micros (failed_attempt_window_secs config) ->
  db_now (at_now a) < t0 + micros (lockout_secs config) ->
  (fst key = USERNAME -> guessed_right key (a, answer) = false) ->
  row_counts config (limit_of config key) t0 (c + if wrong_guess key (a, answer) then 1 else 0)
    (throttle d' !! key).
Proof.
  intros He%attempt_effect Hr Hl Hw Hk Hs. unfold wrong_guess, guessed_right, answer_effect in *. cbn [fst snd] in *.
  destruct answer as [[response| |]|e]; rewrite ?andb_false_r, ?andb_true_r in *.
  - rewrite Z.add_0_r, He. rewrite lookup_delete_ne; [done|]. intros <-. cbn in Hs.
    specialize (Hs eq_refl). unfold concerns in Hs. apply orb_false_elim in Hs as [Hs _]. by bools.
  - destruct He as [Hlock He]. rewrite He. unfold operator_auth_throttle_locked in Hlock.
    apply orb_false_elim in Hlock as [L1 L2]. unfold concerns.
    destruct (decide (key = (USERNAME, username_key (at_request a)) \/ key = (IP, ip_key (at_remote_ip a))))
      as [Hkey|Hkey].
    + rewrite (rows_after_failure_eq _ _ _ _ _ _ Hkey).
      assert (L : key_locked d (db_now (at_now a)) key = false) by (destruct Hkey as [->| ->]; done).
      replace (_ || _) with true by (destruct Hkey as [->| ->]; rewrite (bool_decide_eq_true_2 _ eq_refl);
        by rewrite ?orb_true_r).
      apply failed_row_counts; [done| |done]. split; [|lia].
      eapply (unlocked_counts config _ t0 c d key (db_now (at_now a))); [done|lia|done|done].
    + rewrite rows_after_failure_ne by tauto. rewrite !bool_decide_eq_false_2 by tauto. cbn.
      by rewrite Z.add_0_r.
  - by rewrite Z.add_0_r, He.
  - by rewrite Z.add_0_r, He.
Qed.

Lemma guesses_cons key entry log :
  guesses key (entry :: log) = (if wrong_guess key entry then 1 else 0) + guesses key log.
Proof. unfold guesses, vec_len. cbn. destruct (wrong_guess key entry); cbn; lia. Qed.

Lemma attempts_count config key t0 attempts c d :
  row_counts config (limit_of config key) t0 c (throttle d !! key) ->
  1 <= limit_of config key <= i64_max ->
  Forall (fun a => t0 <= db_now (at_now a) < t0 + micros (failed_attempt_window_secs config) /\
                   db_now (at_now a) < t0 + micros (lockout_secs config)) attempts ->
  (fst key = USERNAME -> Forall (fun entry => guessed_right key entry = false) (run_attempts config attempts d)) ->
  c + guesses key (run_attempts config attempts d) <= limit_of config key.
Proof.
  revert c d. induction attempts as [|a attempts IH]; intros c d Hr Hl Ht Hs; cbn [run_attempts] in *.
  { destruct Hr. unfold guesses, vec_len. cbn. lia. }
  destruct (attempt_answer config a d) as [answer d'] eqn:Ea. inversion_clear Ht as [|? ? Ha Ht'].
  rewrite guesses_cons, Z.add_assoc. apply IH; [|done|done|].
  - eapply attempt_counts; [exact Ea|done|done|apply Ha|apply Ha|].
    intros Hu. specialize (Hs Hu). by inversion Hs.
  - intros Hu. specialize (Hs Hu). by inversion Hs.
Qed.

(** ** Successful logins *)

(** What a login must have shown for an account. *)
Definition credentials_shown (a : Attempt) (o : OperatorRecord) : Prop :=
  operator_status o = ACTIVE /\
  verify_operator_password hex_decode argon2_digest (login_password (at_request a)) (password_hash o) = Ok true /\
  (totp_enabled o = true -> exists code encrypted secret k,
     login_totp_code (at_request a) = Some code /\ encrypted_totp_secret o = Some encrypted /\
     decrypt_totp_secret hex_decode argon2_digest aead_decrypt (login_password (at_request a)) encrypted = Ok secret /\
     matching_totp_step hmac_sha1 secret code (unix_now (at_now a)) = Some k /\
     step_is_new (totp_last_accepted_step o) k = true).

Lemma fail_login_never config a operator reason d response d' :
  run sha256 hex_encode (at_now a) (fail_login config (at_request a) (at_remote_ip a) operator reason) d
    <> (Ok (Authenticated response), d').
Proof. cbn. congruence. Qed.

Lemma finish_login_session config a operator matched d response d' :
  run sha256 hex_encode (at_now a)
    (finish_login config (at_request a) (at_remote_ip a) (at_tokens a) operator matched) d
    = (Ok (Authenticated response), d') ->
  exists row ttl, operators d !! operator_id operator = Some row /\
    sessions d' = sessions d ++ [new_session sha256 hex_encode (at_tokens a) (operator_id row) ttl (at_now a)].
Proof.
  unfold finish_login. cbn [run exec]. destruct matched as [k|]; cbn [run exec].
  - unfold issue_totp_login_session, unchanged_operator.
    destruct (encrypted_totp_secret operator); [|by cbn].
    destruct (operators d !! operator_id operator) as [row|]; [|by intros ?%fail_login_never].
    destruct (str_eqb _ ACTIVE && _); [|by intros ?%fail_login_never].
    destruct (totp_enabled row && _ && _); [|by intros ?%fail_login_never].
    cbn [run]. intros [= _ <-]. eauto.
  - unfold issue_password_login_session, unchanged_operator.
    destruct (operators d !! operator_id operator) as [row|]; [|by intros ?%fail_login_never].
    destruct (str_eqb _ ACTIVE && _); [|by intros ?%fail_login_never].
    destruct (totp_enabled row); [by intros ?%fail_login_never|].
    cbn [run]. intros [= _ <-]. eauto.
Qed.

Lemma login_session config a d response d' :
  attempt_answer config a d = (Ok (Authenticated response), d') ->
  operator_auth_throttle_locked (username_key (at_request a)) (ip_key (at_remote_ip a)) (at_now a) d = false /\
  exists o row ttl, operator_by_username (login_username (at_request a)) d = Some o /\ credentials_shown a o /\
    operators d !! operator_id o = Some row /\
    sessions d' = sessions d ++ [new_session sha256 hex_encode (at_tokens a) (operator_id row) ttl (at_now a)].
Proof.
  unfold attempt_answer, login_operator_with_throttle. cbn [run exec].
  destruct (operator_auth_throttle_locked _ _ _ d); [done|]. cbn [run exec].
  destruct (operator_by_username _ d) as [o|]; [|by intros ?%fail_login_never].
  destruct (str_eqb (operator_status o) ACTIVE) eqn:Es; [|by intros ?%fail_login_never]. apply str_eqb_eq in Es.
  cbn [negb]. destruct (verify_operator_password _ _ _ _) as [[]|] eqn:Ev; [|by intros ?%fail_login_never|done].
  intros H. split; [done|]. exists o. destruct (totp_enabled o) eqn:Et.
  - unfold check_totp in H. destruct (login_totp_code _) as [code|] eqn:Ec; [|by apply fail_login_never in H].
    destruct (encrypted_totp_secret o) as [enc|] eqn:Ee; [|by apply fail_login_never in H].
    destruct (decrypt_totp_secret _ _ _ _ _) as [secret|] eqn:Ed; [|by apply fail_login_never in H].
    cbn [run exec] in H. destruct (matching_totp_step _ _ _ _) as [k|] eqn:Em; [|by apply fail_login_never in H].
    destruct (step_is_new _ _) eqn:En; [|by apply fail_login_never in H].
    apply finish_login_session in H as (row & ttl & Hrow & Hs). exists row, ttl. split_and!; try done.
    split_and!; [done|done|]. intros _. exists code, enc, secret, k. done.
  - apply finish_login_session in H as (row & ttl & Hrow & Hs). exists row, ttl. split_and!; try done.
    split_and!; [done|done|]. congruence.
Qed.

End System.

(** * Theorems *)

(** A session is only opened for someone who showed the credentials.  A login
    that is answered with a session was not throttled, named an active operator,
    gave the password that verifies against the stored hash and, where one-time
    codes are on, a code of the window whose step is newer than the last; and it
    added exactly one session, of that operator. *)
Theorem session_needs_credentials sha256 hex_encode hex_decode argon2_digest aead_decrypt hmac_sha1
    config a d response d' :
  attempt_answer sha256 hex_encode hex_decode argon2_digest aead_decrypt hmac_sha1 config a d
    = (Ok (Authenticated response), d') ->
  operator_auth_throttle_locked (username_key (at_request a)) (ip_key (at_remote_ip a)) (at_now a) d = false /\
  exists o row ttl, operator_by_username (login_username (at_request a)) d = Some o /\
    credentials_shown hex_decode argon2_digest aead_decrypt hmac_sha1 a o /\
    operators d !! operator_id o = Some row /\
    sessions d' = sessions d ++ [new_session sha256 hex_encode (at_tokens a) (operator_id row) ttl (at_now a)].
Proof. apply login_session. Qed.

(** C4: a one-time code opens one door, once.  Over every interleaving of
    logins, confirmations and removals of one-time codes, password resets,
    refreshes and other changes of the accounts, no step of a stored secret is
    ever accepted twice, though every login reads the account, checks the code
    and opens its session in separate transactions.  New secrets are assumed not
    to repeat an old one. *)
Theorem totp_step_accepted_once sha256 hex_encode hex_decode argon2_digest aead_decrypt hmac_sha1 s t :
  start s -> steps sha256 hex_encode hex_decode argon2_digest aead_decrypt hmac_sha1 s t ->
  NoDup (accepted t).
Proof.
  intros (Ha & _ & _ & Hd) Hst. eapply codes_once, steps_codes_ok; [|exact Hst].
  split; rewrite ?Ha; [apply NoDup_nil_2|by intros * []%not_elem_of_nil..|exact Hd].
Qed.

(** C26: a refresh token is exchanged at most once: over every interleaving the
    tokens that were answered with a new session are all different. *)
Theorem refresh_token_single_use sha256 hex_encode hex_decode argon2_digest aead_decrypt hmac_sha1 s t :
  start s -> steps sha256 hex_encode hex_decode argon2_digest aead_decrypt hmac_sha1 s t ->
  NoDup (exchanged t).
Proof.
  intros (_ & He & Hu & _) Hst. eapply tokens_once, steps_tokens_ok; [|exact Hst].
  split; rewrite ?He; [done|apply NoDup_nil_2|by intros * []%not_elem_of_nil].
Qed.

(** C16: the throttle bounds guessing.  In any sequence of logins within one
    window (and lockout) from a clean slate, at most as many wrong answers as
    the limit are given for one user name or from one address; every further
    attempt is refused before its credentials are looked at.  A successful login
    clears the count of its user name, so for names it is assumed that there was
    none. *)
Theorem throttle_bounds_guesses sha256 hex_encode hex_decode argon2_digest aead_decrypt hmac_sha1
    config key t0 attempts d :
  let log := run_attempts sha256 hex_encode hex_decode argon2_digest aead_decrypt hmac_sha1 config attempts d in
  1 <= limit_of config key <= i64_max -> throttle d !! key = None ->
  Forall (fun a => t0 <= db_now (at_now a) < t0 + micros (failed_attempt_window_secs config) /\
                   db_now (at_now a) < t0 + micros (lockout_secs config)) attempts ->
  (fst key = USERNAME -> Forall (fun entry => guessed_right key entry = false) log) ->
  guesses key log <= limit_of config key.
Proof.
  intros log Hl Hn Ht Hs. rewrite <- (Z.add_0_l (guesses key log)).
  apply attempts_count with (t0 := t0); try done. rewrite Hn. split; [lia|done].
Qed.

(** * Witnesses *)

(** Stand-ins for the cryptography: a password's digest is the password itself
    behind the salt, the cipher is the identity, every digest is zero. *)
Definition w_hex (bytes : list Z) : str := map (fun b => 2 * b + 1) bytes.
Definition w_unhex (s : str) : option (list Z) := Some (map (fun c => c / 2) s).
Definition w_argon (password salt : list Z) : result str (list Z) := Ok (password ++ salt).
Definition w_aead (_ _ _ message : list Z) : option (list Z) := Some message.
Definition w_hmac (_ _ : list Z) : list Z := repeat 0 20.

Definition w_secret : EncryptedTotpSecret :=
  mkEncrypted (w_hex (repeat 1 20)) (w_hex (repeat 2 12)) (w_hex (repeat 3 16)).

Definition w_stored : str :=
  match hash_operator_password w_hex w_argon (repeat 7 16) (lit "correct horse") with Ok h => h | Err _ => [] end.

Definition w_operator : OperatorRecord :=
  set_totp (mkOperator 1 (lit "root") w_stored ACTIVE (lit "admin") [] false None None None None 86400)
    false (Some w_secret) None.

Definition w_session : SessionRow :=
  mkSession 9 1 (w_hex [1]) (token_hash id w_hex (lit "old")) 2000000000 2000000000 false.

Definition w_db : AuthDb := mkDb {[ 1 := w_operator ]} ∅ [w_session] [] [] [].

Definition w_system : System := mkSystem w_db [] [] [w_secret] [].

Definition w_tokens : Tokens := mkTokens (lit "a") (lit "r") 10.

Lemma w_start : start w_system.
Proof.
  split_and!; [reflexivity|reflexivity|repeat constructor; intros []%not_elem_of_nil|].
  intros id o e. destruct (decide (id = 1)) as [->|Hne].
  - intros Ho. vm_compute in Ho. injection Ho as <-. intros He. vm_compute in He. injection He as <-. by left.
  - cbn. rewrite lookup_singleton_ne by done. discriminate.
Defined.

Lemma totp_step_accepted_once_witness :
  exists t, steps id w_hex w_unhex w_argon w_aead w_hmac w_system t /\ length (accepted t) = 1%nat /\
            NoDup (accepted t).
Proof.
  assert (S : exists d', steps id w_hex w_unhex w_argon w_aead w_hmac w_system
    (mkSystem d' [] [(1, w_secret, 2)] [w_secret] [])).
  { eexists. eapply steps_step; [apply steps_refl|].
    eapply (step_update id w_hex w_unhex w_argon w_aead w_hmac w_system 1 (lit "correct horse") (lit "000 000")
      true (mkNow 0 45) _ _ w_operator w_secret 2); vm_compute; reflexivity. }
  destruct S as [d' S]. exists (mkSystem d' [] [(1, w_secret, 2)] [w_secret] []). split; [exact S|].
  split; [reflexivity|]. exact (totp_step_accepted_once _ _ _ _ _ _ _ _ w_start S).
Defined.

Lemma refresh_token_single_use_witness :
  exists t, steps id w_hex w_unhex w_argon w_aead w_hmac w_system t /\ length (exchanged t) = 1%nat /\
            NoDup (exchanged t).
Proof.
  assert (S : exists d', steps id w_hex w_unhex w_argon w_aead w_hmac w_system
    (mkSystem d' [] [] [w_secret] [token_hash id w_hex (lit "old")])).
  { destruct (refresh_operator_session id w_hex (lit "old") w_tokens (mkNow 5 5) w_db) as [answer d'] eqn:E.
    exists d'. eapply steps_step; [apply steps_refl|].
    pose proof (step_refresh id w_hex w_unhex w_argon w_aead w_hmac w_system (lit "old") w_tokens (mkNow 5 5)
      answer d' E) as R.
    vm_compute in E. injection E as <- <-. apply R. unfold unique_refresh. cbn [sessions map].
    apply (bool_decide_unpack _). vm_compute. exact I. }
  destruct S as [d' S]. eexists. split; [exact S|]. split; [reflexivity|].
  exact (refresh_token_single_use _ _ _ _ _ _ _ _ w_start S).
Defined.

Definition w_attempt (password : string) (now : Z) : Attempt :=
  mkAttempt (mkNow now 45) (mkLogin (lit "root") (lit password) None) (lit "10.0.0.1") w_tokens.

Definition w_config : OperatorAuthThrottleConfig := mkThrottleConfig 2 8 900 900.

Lemma throttle_bounds_guesses_witness :
  guesses (USERNAME, lit "root")
    (run_attempts id w_hex w_unhex w_argon w_aead w_hmac w_config
       (map (w_attempt "wrong horse") [1; 2; 3; 4]) w_db) <= 2.
Proof.
  apply (throttle_bounds_guesses id w_hex w_unhex w_argon w_aead w_hmac w_config (USERNAME, lit "root") 0).
  - vm_compute. split; discriminate.
  - reflexivity.
  - repeat constructor; vm_compute; discriminate || reflexivity.
  - intros _.
    assert (B : forallb (fun entry => negb (guessed_right (USERNAME, lit "root") entry))
      (run_attempts id w_hex w_unhex w_argon w_aead w_hmac w_config
         (map (w_attempt "wrong horse") [1; 2; 3; 4]) w_db) = true) by (vm_compute; reflexivity).
    rewrite forallb_forall in B. apply List.Forall_forall. intros entry Hin. apply negb_true_iff, B, Hin.
Defined.

(** The bound is reached, then the lock answers. *)
Example throttle_locks_after_limit :
  map snd (run_attempts id w_hex w_unhex w_argon w_aead w_hmac w_config
    (map (w_attempt "wrong horse") [1; 2; 3]) w_db)
  = [Ok InvalidCredentials; Ok InvalidCredentials; Ok Throttled].
Proof. vm_compute. reflexivity. Qed.

Lemma session_needs_credentials_witness :
  exists response d', attempt_answer id w_hex w_unhex w_argon w_aead w_hmac w_config
    (w_attempt "correct horse" 1) w_db = (Ok (Authenticated response), d') /\
  exists o, operator_by_username (lit "root") w_db = Some o /\ operator_status o = ACTIVE.
Proof.
  destruct (attempt_answer id w_hex w_unhex w_argon w_aead w_hmac w_config
    (w_attempt "correct horse" 1) w_db) as [answer d'] eqn:E.
  assert (A : exists response, answer = Ok (Authenticated response)).
  { change answer with (fst (answer, d')). rewrite <- E. eexists. vm_compute. reflexivity. }
  destruct A as [response ->]. exists response, d'. split; [reflexivity|].
  destruct (session_needs_credentials _ _ _ _ _ _ _ _ _ _ _ E) as (_ & o & _ & _ & Ho & (Hs & _) & _).
  exists o. split; [exact Ho|exact Hs].
Defined.
