(* ===== verification/GatewayFence.v ===== *)
(** Dispatch fences and agent sessions of the gateway:
    crates/gateway/src/runtime/state.rs, the fence handlers and command dispatch
    of crates/gateway/src/transport/control.rs and the session registry of
    crates/gateway/src/main.rs.

    Before the API suspends or deletes a client it installs a fence at the
    gateway, so that no command is enqueued while the database transaction is
    open.  Every handler runs under the client's lifecycle lock (fence handlers
    as writers, a dispatch as a reader up to the enqueue), so each is one atomic
    transition here.  An [Instant] is a number of nanoseconds; a [Uuid] is its
    128-bit value, whose order is the one the code sorts job ids by; a fresh
    [Uuid::new_v4()] and the outcome of the session's [try_send] are inputs of
    the transition.  A handler reads the clock at [now]; where its code reads the
    clock a second time, that reading is the argument [later], and no theorem
    assumes how the two are ordered. *)

From stdpp Require Import sorting.
From S2P Require Import Prelude RustStd.

Open Scope Z_scope.

(** * Data *)

Abbreviation Uuid := Z (only parsing).
Abbreviation Instant := Z (only parsing).

(** [Duration::from_secs]. *)
Definition secs (n : Z) : Z := n * 1000000000.

Inductive FencePurpose := Suspension | Deletion.

#[export] Instance fence_purpose_eq_dec : EqDecision FencePurpose.
Proof. solve_decision. Defined.

Record FenceOwner := mkOwner {
  owner_token : Uuid;
  owner_epoch : Uuid;
  owner_generation : Z;
}.

#[export] Instance fence_owner_eq_dec : EqDecision FenceOwner.
Proof. solve_decision. Defined.

(** [GatewayClientDispatchFenceFallback]. *)
Record FenceFallback := mkFallback {
  fb_token : Uuid;
  fb_epoch : Uuid;
  fb_generation : Z;
  fb_purpose : FencePurpose;
  fb_requires_durable_recheck : bool;
}.

(** [GatewayClientDispatchFenceState]. *)
Inductive FenceState :=
| Prepared (expires_at : Instant) (fallback : option FenceFallback)
| Persistent
| DurableRecheck (fallback : option FenceFallback).

(** [GatewayClientDispatchFence]. *)
Record DispatchFence := mkFence {
  f_token : Uuid;
  f_epoch : Uuid;
  f_generation : Z;
  f_purpose : FencePurpose;
  f_state : FenceState;
}.

(** [GatewayClientDispatchFenceGeneration]. *)
Record FenceGeneration := mkGeneration {
  latest_generation : Z;
  latest_token : option Uuid;
  latest_purpose : option FencePurpose;
  latest_supersedes : bool;
  retired_generation : Z;
}.
Definition generation_default : FenceGeneration := mkGeneration 0 None None false 0.

(** [GatewayCommandEnqueueMarker]. *)
Record EnqueueMarker := mkMarker { marker_generation : Uuid; marker_expires_at : Instant }.

#[export] Instance enqueue_marker_eq_dec : EqDecision EnqueueMarker.
Proof. solve_decision. Defined.

(** [GatewaySession]; its channels belong to the connection of that session id. *)
Record GatewaySession := mkSession { session_id : Uuid; process_incarnation_id : Uuid }.

(** [GatewaySessionCloseRequest]. *)
Inductive CloseRequest := Graceful (reason : str) | Immediate (reason : str).

(** A value sent to the close channel of a session's connection. *)
Abbreviation CloseSignal := (Uuid * CloseRequest)%type (only parsing).

(** The part of [GatewayState] the fence handlers, the dispatch and the session
    registry use. *)
Record GatewayState := mkState {
  sessions : gmap str GatewaySession;
  fence_epoch : Uuid;
  generations : gmap str FenceGeneration;
  fences : gmap str DispatchFence;
  command_enqueues : gmap str (gmap Uuid EnqueueMarker);
  disconnected_at : gmap str Instant;
  reconnect_grace_secs : Z;
  dispatch_ack_secs : Z;
}.

Definition set_fences (s : GatewayState) (m : gmap str DispatchFence) : GatewayState :=
  mkState (sessions s) (fence_epoch s) (generations s) m (command_enqueues s)
    (disconnected_at s) (reconnect_grace_secs s) (dispatch_ack_secs s).
Definition set_generations (s : GatewayState) (m : gmap str FenceGeneration) : GatewayState :=
  mkState (sessions s) (fence_epoch s) m (fences s) (command_enqueues s)
    (disconnected_at s) (reconnect_grace_secs s) (dispatch_ack_secs s).
Definition set_enqueues (s : GatewayState) (m : gmap str (gmap Uuid EnqueueMarker)) : GatewayState :=
  mkState (sessions s) (fence_epoch s) (generations s) (fences s) m
    (disconnected_at s) (reconnect_grace_secs s) (dispatch_ack_secs s).

Definition set_sessions (s : GatewayState) (m : gmap str GatewaySession) : GatewayState :=
  mkState m (fence_epoch s) (generations s) (fences s) (command_enqueues s)
    (disconnected_at s) (reconnect_grace_secs s) (dispatch_ack_secs s).
Definition set_disconnected (s : GatewayState) (m : gmap str Instant) : GatewayState :=
  mkState (sessions s) (fence_epoch s) (generations s) (fences s) (command_enqueues s)
    m (reconnect_grace_secs s) (dispatch_ack_secs s).

Definition set_runtime_timing (s : GatewayState) (grace ack : Z) : GatewayState :=
  mkState (sessions s) (fence_epoch s) (generations s) (fences s) (command_enqueues s)
    (disconnected_at s) (Z.max grace 1) (Z.max ack 1).

Definition generation_of (s : GatewayState) (client : str) : FenceGeneration :=
  default generation_default (generations s !! client).

(** * Fences *)

Definition active_at (f : DispatchFence) (now : Instant) : bool :=
  match f_state f with
  | Prepared expires_at _ => now <? expires_at
  | Persistent | DurableRecheck _ => true
  end.

Definition lease_expired_at (f : DispatchFence) (now : Instant) : bool :=
  match f_state f with Prepared expires_at _ => expires_at <=? now | _ => false end.

Definition requires_durable_recheck (f : DispatchFence) : bool :=
  match f_state f with DurableRecheck _ => true | _ => false end.

Definition is_prepared (f : DispatchFence) : bool :=
  match f_state f with Prepared _ _ => true | _ => false end.

Definition is_persistent (f : DispatchFence) : bool :=
  match f_state f with Persistent => true | _ => false end.

Definition fence_fallback (f : DispatchFence) : option FenceFallback :=
  match f_state f with
  | Prepared _ fallback | DurableRecheck fallback => fallback
  | Persistent => None
  end.

Definition fence_owner (f : DispatchFence) : FenceOwner :=
  mkOwner (f_token f) (f_epoch f) (f_generation f).

Definition set_state (f : DispatchFence) (st : FenceState) : DispatchFence :=
  mkFence (f_token f) (f_epoch f) (f_generation f) (f_purpose f) st.

(** An expired lease becomes a durable-recheck barrier that keeps its fallback. *)
Definition normalize_expired_dispatch_fence (m : gmap str DispatchFence) (client : str)
    (now : Instant) : gmap str DispatchFence :=
  match m !! client with
  | None => m
  | Some fence =>
      if lease_expired_at fence now
      then <[ client := set_state fence (DurableRecheck (fence_fallback fence)) ]> m
      else m
  end.

Definition retire_client_dispatch_fence_generation (s : GatewayState) (client : str)
    (epoch : Uuid) (generation : Z) : GatewayState :=
  if negb (epoch =? fence_epoch s) then s
  else
    let g := generation_of s client in
    set_generations s
      (<[ client := mkGeneration (latest_generation g) (latest_token g) (latest_purpose g)
                      (latest_supersedes g) (Z.max (retired_generation g) generation) ]>
         (generations s)).

(** * Enqueue markers *)

Definition retain_markers (now : Instant) (m : gmap Uuid EnqueueMarker) : gmap Uuid EnqueueMarker :=
  filter (fun '(_, marker) => (now <? marker_expires_at marker) = true) m.

Definition marker_count (m : gmap str (gmap Uuid EnqueueMarker)) : Z :=
  map_fold (fun _ markers n => n + Z.of_nat (size markers)) 0 m.

Definition prune_expired_command_enqueues (s : GatewayState) (now : Instant) : Z * GatewayState :=
  let kept :=
    omap (fun markers => let m := retain_markers now markers in
                         if decide (m = ∅) then None else Some m) (command_enqueues s) in
  (saturating_sub (marker_count (command_enqueues s)) (marker_count kept), set_enqueues s kept).

(** The job ids with a live marker, sorted; expired markers are dropped. *)
Definition protected_enqueued_job_ids (s : GatewayState) (client : str) (now : Instant) :
  list Uuid * GatewayState :=
  match command_enqueues s !! client with
  | None => ([], s)
  | Some markers =>
      let kept := retain_markers now markers in
      let job_ids := map fst (map_to_list kept) in
      (merge_sort Z.le job_ids,
       set_enqueues s (if is_empty job_ids then delete client (command_enqueues s)
                       else <[ client := kept ]> (command_enqueues s)))
  end.

(** * Requests and results *)

Record FenceAcquire := mkAcquire {
  acq_client : str;
  acq_token : Uuid;
  acq_purpose : FencePurpose;
  acq_supersede : bool;
}.

Record FencePrepare := mkPrepare {
  prep_client : str;
  prep_token : Uuid;
  prep_epoch : Uuid;
  prep_generation : Z;
  prep_renewal : bool;
  prep_lease_secs : Z;
  prep_purpose : FencePurpose;
}.

Record FencePromote := mkPromote {
  prom_client : str;
  prom_token : Uuid;
  prom_epoch : Uuid;
  prom_generation : Z;
  prom_purpose : FencePurpose;
}.

Record FenceClear := mkClear {
  clr_client : str;
  clr_token : Uuid;
  clr_epoch : Uuid;
  clr_generation : Z;
  clr_restore_fallback : bool;
  clr_reason : str;
}.

Record FenceResult := mkResult {
  r_client : str;
  r_accepted : bool;
  r_fenced : bool;
  r_ownership_continuous : bool;
  r_message : str;
  r_enqueued_job_ids : list Uuid;
}.

(** * Acquiring a generation *)

(** Whether a fence of another token gives way to the acquiring purpose. *)
Definition acquire_replaceable (existing : DispatchFence) (a : FenceAcquire) : bool :=
  (acq_supersede a && bool_decide (f_purpose existing = Suspension) && is_prepared existing)
  || requires_durable_recheck existing
  || (is_persistent existing
      && (bool_decide (f_purpose existing = Suspension)
          || (bool_decide (f_purpose existing = Deletion) && bool_decide (acq_purpose a = Deletion)))).

(** The second half of the handler: the generation of the token. *)
Definition acquire_generation (s : GatewayState) (a : FenceAcquire) :
  result str FenceOwner * GatewayState :=
  let g := generation_of s (acq_client a) in
  let save g' := set_generations s (<[ acq_client a := g' ]> (generations s)) in
  if bool_decide (latest_token g = Some (acq_token a)) then
    if negb (bool_decide (latest_purpose g = Some (acq_purpose a))) then
      (Err (lit "dispatch_fence_token_purpose_conflict"), save g)
    else if negb (eqb (latest_supersedes g) (acq_supersede a)) then
      (Err (lit "dispatch_fence_token_transition_conflict"), save g)
    else (Ok (mkOwner (acq_token a) (fence_epoch s) (latest_generation g)), save g)
  else
    match checked_add u64_max (latest_generation g) 1 with
    | None => (Err (lit "client dispatch-fence generation exhausted"), save g)
    | Some next =>
        (Ok (mkOwner (acq_token a) (fence_epoch s) next),
         save (mkGeneration next (Some (acq_token a)) (Some (acq_purpose a)) (acq_supersede a)
                 (retired_generation g)))
    end.

Definition acquire_gateway_client_dispatch_fence (s : GatewayState) (now : Instant)
    (a : FenceAcquire) : result str FenceOwner * GatewayState :=
  if acq_supersede a && negb (bool_decide (acq_purpose a = Suspension)) then
    (Err (lit "dispatch_fence_prepared_suspension_supersession_purpose_invalid"), s)
  else
    let s := set_fences s (normalize_expired_dispatch_fence (fences s) (acq_client a) now) in
    match fences s !! acq_client a with
    | Some existing =>
        if f_token existing =? acq_token a then
          if negb (bool_decide (f_purpose existing = acq_purpose a)) then
            (Err (lit "dispatch_fence_token_purpose_conflict"), s)
          else (Ok (fence_owner existing), s)
        else if negb (acquire_replaceable existing a) then (Err (lit "dispatch_fence_conflict"), s)
        else acquire_generation s a
    | None => acquire_generation s a
    end.

(** * Preparing *)

Definition lease_end (now lease_secs : Z) : Instant := now + secs (Z.max 1 (Z.min 300 lease_secs)).

Definition same_owner (f : DispatchFence) (p : FencePrepare) : bool :=
  (f_token f =? prep_token p) && (f_epoch f =? prep_epoch p)
  && (f_generation f =? prep_generation p) && bool_decide (f_purpose f = prep_purpose p).

Definition prepare_reject (p : FencePrepare) (fenced : bool) (message : string) : FenceResult :=
  mkResult (prep_client p) false fenced false (lit message) [].

(** The generation record names this request as the latest unretired owner. *)
Definition initial_authorized (g : FenceGeneration) (p : FencePrepare) : bool :=
  (latest_generation g =? prep_generation p)
  && bool_decide (latest_token g = Some (prep_token p))
  && (retired_generation g <? prep_generation p).

Definition authorized_unsuspend_transition (g : FenceGeneration) (p : FencePrepare) : bool :=
  (latest_generation g =? prep_generation p)
  && bool_decide (latest_token g = Some (prep_token p))
  && bool_decide (latest_purpose g = Some (prep_purpose p)) && latest_supersedes g.

Definition fallback_of_prepare (f : DispatchFence) (p : FencePrepare) : bool :=
  match fence_fallback f with
  | Some replaced =>
      (fb_token replaced =? prep_token p) && (fb_epoch replaced =? prep_epoch p)
      && (fb_generation replaced =? prep_generation p)
      && bool_decide (fb_purpose replaced = prep_purpose p)
  | None => false
  end.

Definition prepared_fence (p : FencePrepare) (now : Instant) (fallback : option FenceFallback) :
  DispatchFence :=
  mkFence (prep_token p) (prep_epoch p) (prep_generation p) (prep_purpose p)
    (Prepared (lease_end now (prep_lease_secs p)) fallback).

(** The branch of an existing fence of the same owner: a renewal. *)
Definition prepare_same_owner (s : GatewayState) (now : Instant) (p : FencePrepare)
    (g : FenceGeneration) (existing : DispatchFence) : FenceResult * GatewayState :=
  if prep_generation p <=? retired_generation g then
    (prepare_reject p true "dispatch_fence_generation_retired", s)
  else
    let s :=
      if is_prepared existing then
        set_fences s (<[ prep_client p :=
          set_state existing (Prepared (lease_end now (prep_lease_secs p)) (fence_fallback existing)) ]>
          (fences s))
      else s in
    let '(ids, s) := protected_enqueued_job_ids s (prep_client p) now in
    let recheck := requires_durable_recheck existing in
    (mkResult (prep_client p) true true (negb recheck)
       (lit (if recheck then "dispatch_fence_requires_durable_recheck"
             else "dispatch_fence_already_owned")) ids, s).

(** The branch of an existing fence of another owner. *)
Definition prepare_other_owner (s : GatewayState) (now : Instant) (p : FencePrepare)
    (g : FenceGeneration) (existing : DispatchFence) : FenceResult * GatewayState :=
  let unsuspend := authorized_unsuspend_transition g p in
  let replaces_prepared_suspension :=
    unsuspend && bool_decide (f_purpose existing = Suspension)
    && bool_decide (prep_purpose p = Suspension) && is_prepared existing
    && (f_generation existing <? prep_generation p) in
  let replaces_recoverable_fence :=
    requires_durable_recheck existing
    || (is_persistent existing
        && (bool_decide (f_purpose existing = Suspension)
            || (bool_decide (f_purpose existing = Deletion)
                && bool_decide (prep_purpose p = Deletion)))) in
  if prep_renewal p then
    (prepare_reject p true
       (if fallback_of_prepare existing p then "dispatch_fence_owner_is_fallback"
        else "dispatch_fence_conflict"), s)
  else if negb (initial_authorized g p) then
    (prepare_reject p true "dispatch_fence_generation_stale", s)
  else if replaces_prepared_suspension || replaces_recoverable_fence then
    let fallback :=
      mkFallback (f_token existing) (f_epoch existing) (f_generation existing) (f_purpose existing)
        (unsuspend || requires_durable_recheck existing) in
    let s := set_fences s (<[ prep_client p := prepared_fence p now (Some fallback) ]> (fences s)) in
    let s := retire_client_dispatch_fence_generation s (prep_client p) (prep_epoch p)
               (f_generation existing) in
    let '(ids, s) := protected_enqueued_job_ids s (prep_client p) now in
    (mkResult (prep_client p) true true false
       (lit (if replaces_prepared_suspension then "dispatch_fence_superseded_prepared_suspension"
             else "dispatch_fence_replaced_recoverable_owner")) ids, s)
  else (prepare_reject p true "dispatch_fence_conflict", s).

Definition prepare_gateway_client_dispatch_fence (s : GatewayState) (now later : Instant)
    (p : FencePrepare) : FenceResult * GatewayState :=
  if negb (prep_epoch p =? fence_epoch s) then
    (prepare_reject p false "dispatch_fence_gateway_epoch_stale", s)
  else
    let g := generation_of s (prep_client p) in
    let s := set_fences s (normalize_expired_dispatch_fence (fences s) (prep_client p) now) in
    match fences s !! prep_client p with
    | Some existing =>
        if same_owner existing p then prepare_same_owner s now p g existing
        else prepare_other_owner s now p g existing
    | None =>
        if prep_renewal p || negb (initial_authorized g p) then
          (prepare_reject p false "dispatch_fence_generation_stale", s)
        else
          let s := set_fences s (<[ prep_client p := prepared_fence p now None ]> (fences s)) in
          let '(ids, s) := protected_enqueued_job_ids s (prep_client p) later in
          (mkResult (prep_client p) true true false (lit "dispatch_fence_prepared") ids, s)
    end.

(** * Promoting *)

Definition promote_exact (f : DispatchFence) (p : FencePromote) : bool :=
  (f_token f =? prom_token p) && (f_epoch f =? prom_epoch p)
  && (f_generation f =? prom_generation p) && bool_decide (f_purpose f = prom_purpose p).

Definition fallback_of_promote (f : DispatchFence) (p : FencePromote) : bool :=
  match fence_fallback f with
  | Some replaced =>
      (fb_token replaced =? prom_token p) && (fb_epoch replaced =? prom_epoch p)
      && (fb_generation replaced =? prom_generation p)
      && bool_decide (fb_purpose replaced = prom_purpose p)
  | None => false
  end.

Definition fenced_at (m : gmap str DispatchFence) (client : str) (now : Instant) : bool :=
  match m !! client with Some f => active_at f now | None => false end.

Definition promote_gateway_client_dispatch_fence (s : GatewayState) (now : Instant)
    (p : FencePromote) : FenceResult * GatewayState :=
  let client := prom_client p in
  if negb (prom_epoch p =? fence_epoch s) then
    (mkResult client false (fenced_at (fences s) client now) false
       (lit "dispatch_fence_gateway_epoch_stale") [], s)
  else if prom_generation p <=? retired_generation (generation_of s client) then
    (mkResult client false (fenced_at (fences s) client now) false
       (lit "dispatch_fence_generation_retired") [], s)
  else
    match fences s !! client with
    | Some fence =>
        if promote_exact fence p then
          let continuous := active_at fence now && negb (requires_durable_recheck fence) in
          let s := set_fences s (<[ client := set_state fence Persistent ]> (fences s)) in
          let '(ids, s) := protected_enqueued_job_ids s client now in
          (mkResult client true true continuous (lit "dispatch_fence_promoted") ids, s)
        else
          let m := normalize_expired_dispatch_fence (fences s) client now in
          let s := set_fences s m in
          (mkResult client false (fenced_at m client now) false
             (lit (if match m !! client with Some f => fallback_of_promote f p | None => false end
                   then "dispatch_fence_owner_is_fallback"
                   else "dispatch_fence_owner_superseded_or_missing")) [], s)
    | None =>
        (mkResult client false false false (lit "dispatch_fence_owner_superseded_or_missing") [], s)
    end.

(** * Clearing *)

Definition clear_exact (f : DispatchFence) (c : FenceClear) : bool :=
  (f_token f =? clr_token c) && (f_epoch f =? clr_epoch c) && (f_generation f =? clr_generation c).

Definition fallback_of_clear (f : DispatchFence) (c : FenceClear) : bool :=
  match fence_fallback f with
  | Some replaced =>
      (fb_token replaced =? clr_token c) && (fb_epoch replaced =? clr_epoch c)
      && (fb_generation replaced =? clr_generation c)
  | None => false
  end.

(** The fence an unknown outcome of the cleared transition restores. *)
Definition restored_fence (replaced : FenceFallback) : DispatchFence :=
  mkFence (fb_token replaced) (fb_epoch replaced) (fb_generation replaced) (fb_purpose replaced)
    (if fb_requires_durable_recheck replaced then DurableRecheck None else Persistent).

Definition cleared_fences (m : gmap str DispatchFence) (c : FenceClear) (current : DispatchFence) :
  gmap str DispatchFence :=
  match (if clr_restore_fallback c then fence_fallback current else None) with
  | Some replaced => <[ clr_client c := restored_fence replaced ]> m
  | None => delete (clr_client c) m
  end.

Definition clear_gateway_client_dispatch_fence (s : GatewayState) (now : Instant)
    (c : FenceClear) : FenceResult * GatewayState :=
  let client := clr_client c in
  if negb (clr_epoch c =? fence_epoch s) then
    (mkResult client false (fenced_at (fences s) client now) false
       (lit "dispatch_fence_gateway_epoch_stale") [], s)
  else
    let retired_before := retired_generation (generation_of s client) in
    let current := fences s !! client in
    let on f := match current with Some fence => f fence | None => false end in
    let directly_owned := on (fun fence => clear_exact fence c) in
    let owned_as_fallback := negb directly_owned && on (fun fence => fallback_of_clear fence c) in
    let restored := directly_owned && clr_restore_fallback c
                    && on (fun fence => bool_decide (is_Some (fence_fallback fence))) in
    let retired_owner_visible :=
      (clr_generation c <=? retired_before) && (directly_owned || owned_as_fallback) in
    let m := match current with
             | Some fence => if directly_owned && negb retired_owner_visible
                             then cleared_fences (fences s) c fence else fences s
             | None => fences s
             end in
    let fenced := fenced_at m client now in
    let accepted :=
      negb retired_owner_visible && (directly_owned || (negb fenced && negb owned_as_fallback)) in
    let s := set_fences s m in
    let s := if negb retired_owner_visible && negb owned_as_fallback
             then retire_client_dispatch_fence_generation s client (clr_epoch c) (clr_generation c)
             else s in
    (mkResult client accepted fenced false
       (if retired_owner_visible then lit "dispatch_fence_generation_retired"
        else if restored then lit "dispatch_fence_restored:" ++ clr_reason c
        else if directly_owned then lit "dispatch_fence_cleared:" ++ clr_reason c
        else if owned_as_fallback then lit "dispatch_fence_clear_owner_is_fallback"
        else if fenced then lit "dispatch_fence_clear_token_mismatch"
        else lit "dispatch_fence_already_clear") [], s).

(** * Dispatching a command *)

Record CommandDispatch := mkDispatch {
  disp_client : str;
  disp_job_id : Uuid;
  disp_max_timeout_secs : Z;
  disp_expected_incarnation : Uuid;
  disp_expected_epoch : option Uuid;
  disp_lifecycle_recheck : option FenceOwner;
}.

(** Where one iteration of the dispatch loop ends. *)
Inductive DispatchStep :=
| EpochRecheckRequired (epoch : Uuid)
| FenceExpiredRetry
| LifecycleRecheckRequired (owner : FenceOwner)
| Suspended
| LifecycleRecheckStale
| IncarnationMismatch (actual : Uuid)
| NotOnlineRetry
| NotOnline
| Enqueued (inserted : EnqueueMarker) (prior : option EnqueueMarker).

Definition marker_lifetime (s : GatewayState) (max_timeout_secs : Z) : Z :=
  Z.max 60 (Z.min 10800
    (saturating_add u64_max (saturating_add u64_max max_timeout_secs (dispatch_ack_secs s)) 60)).

(** Read once, before the loop: until when the dispatch waits for a client that
    has just disconnected. *)
Definition dispatch_grace_deadline (s : GatewayState) (client : str) : option Instant :=
  option_map (fun disconnected => disconnected + secs (reconnect_grace_secs s))
    (disconnected_at s !! client).

(** The end of the critical section: the marker is recorded before the send.
    Without a session the loop sleeps and goes round until the deadline. *)
Definition dispatch_enqueue (s : GatewayState) (deadline : option Instant) (later : Instant)
    (fresh : Uuid) (d : CommandDispatch) : DispatchStep * GatewayState :=
  match sessions s !! disp_client d with
  | None =>
      (match deadline with
       | Some at_ => if later <? at_ then NotOnlineRetry else NotOnline
       | None => NotOnline
       end, s)
  | Some session =>
      if negb (process_incarnation_id session =? disp_expected_incarnation d) then
        (IncarnationMismatch (process_incarnation_id session), s)
      else
        let marker := mkMarker fresh (later + secs (marker_lifetime s (disp_max_timeout_secs d))) in
        let markers := default ∅ (command_enqueues s !! disp_client d) in
        (Enqueued marker (markers !! disp_job_id d),
         set_enqueues s
           (<[ disp_client d := <[ disp_job_id d := marker ]> markers ]> (command_enqueues s)))
  end.

(** One iteration of [dispatch_gateway_command] under the lifecycle lock. *)
Definition dispatch_gateway_command (s : GatewayState) (deadline : option Instant)
    (now later : Instant) (fresh : Uuid) (d : CommandDispatch) : DispatchStep * GatewayState :=
  if negb (bool_decide (disp_expected_epoch d = Some (fence_epoch s))) then
    (EpochRecheckRequired (fence_epoch s), s)
  else
    match fences s !! disp_client d with
    | Some fence =>
        if negb (active_at fence now) then
          (FenceExpiredRetry,
           set_fences s (normalize_expired_dispatch_fence (fences s) (disp_client d) later))
        else if requires_durable_recheck fence then
          if bool_decide (disp_lifecycle_recheck d = Some (fence_owner fence))
          then dispatch_enqueue s deadline later fresh d
          else (LifecycleRecheckRequired (fence_owner fence), s)
        else (Suspended, s)
    | None =>
        match disp_lifecycle_recheck d with
        | Some _ => (LifecycleRecheckStale, s)
        | None => dispatch_enqueue s deadline later fresh d
        end
    end.

(** After a failed [try_send]: a marker of a later dispatch survives. *)
Definition rollback_failed_command_enqueue (s : GatewayState) (client : str) (job : Uuid)
    (inserted : EnqueueMarker) (prior : option EnqueueMarker) : GatewayState :=
  if negb (bool_decide ((command_enqueues s !! client) ≫= (fun m => m !! job) = Some inserted)) then s
  else
    match prior with
    | Some prior =>
        set_enqueues s
          (<[ client := <[ job := prior ]> (default ∅ (command_enqueues s !! client)) ]>
             (command_enqueues s))
    | None =>
        let markers := delete job (default ∅ (command_enqueues s !! client)) in
        set_enqueues s (if decide (markers = ∅) then delete client (command_enqueues s)
                        else <[ client := markers ]> (command_enqueues s))
    end.

(** * Terminal control and disconnects *)

Record TerminalControl := mkTerminalControl {
  term_client : str;
  term_constructive : bool;   (* the action is [Input] or [Resize] *)
  term_expected_incarnation : Uuid;
}.

(** Where the handler ends: refused by a deletion fence, no session, another
    process, or handed to the session's queue. *)
Inductive TerminalStep :=
| TerminalFenced
| TerminalNotOnline
| TerminalIncarnationMismatch (actual : Uuid)
| TerminalSent.

(** The fence check of a constructive terminal action ([true]: refused). *)
Definition terminal_control_fenced (s : GatewayState) (now : Instant) (client : str) :
  bool * GatewayState :=
  let m := normalize_expired_dispatch_fence (fences s) client now in
  (match m !! client with
   | Some fence => bool_decide (f_purpose fence = Deletion) && active_at fence now
   | None => false
   end, set_fences s m).

Definition dispatch_terminal_control (s : GatewayState) (now : Instant) (c : TerminalControl) :
  TerminalStep * GatewayState :=
  let '(deletion_fenced, s) :=
    if term_constructive c then terminal_control_fenced s now (term_client c) else (false, s) in
  if deletion_fenced then (TerminalFenced, s)
  else
    match sessions s !! term_client c with
    | None => (TerminalNotOnline, s)
    | Some session =>
        if negb (process_incarnation_id session =? term_expected_incarnation c)
        then (TerminalIncarnationMismatch (process_incarnation_id session), s)
        else (TerminalSent, s)
    end.

Record SessionDisconnect := mkDisconnect {
  dis_client : str;
  dis_reason : str;
  dis_required_owner : option FenceOwner;
}.

Record DisconnectResult := mkDisconnectResult {
  dr_client : str;
  dr_accepted : bool;
  dr_disconnected : bool;
  dr_message : str;
}.

(** A lifecycle finaliser disconnects only while its committed deletion fence
    still owns the client. *)
Definition disconnect_still_owned (s : GatewayState) (client : str) (required : FenceOwner) : bool :=
  let retired := negb (owner_epoch required =? fence_epoch s)
    || match generations s !! client with
       | Some g => owner_generation required <=? retired_generation g
       | None => false
       end in
  match fences s !! client with
  | Some fence =>
      negb retired && bool_decide (fence_owner fence = required)
      && bool_decide (f_purpose fence = Deletion) && is_persistent fence
  | None => false
  end.

Definition disconnect_gateway_session (s : GatewayState) (d : SessionDisconnect) :
  DisconnectResult * option CloseSignal * GatewayState :=
  let answer := mkDisconnectResult (dis_client d) true in
  if negb match dis_required_owner d with
          | None => true
          | Some required => disconnect_still_owned s (dis_client d) required
          end then (answer false (lit "dispatch_fence_owner_superseded"), None, s)
  else
    match sessions s !! dis_client d with
    | None => (answer false (lit "agent_not_online"), None, s)
    | Some session =>
        (answer true (lit "disconnect_requested"),
         Some (session_id session, Graceful (dis_reason d)),
         set_sessions s (delete (dis_client d) (sessions s)))
    end.

(** * The session registry *)

(** Taken before the API is asked about a hello. *)
Definition snapshot_client_dispatch_fence (s : GatewayState) (client : str) : option DispatchFence :=
  fences s !! client.

(** Whether the observed fence is the current one's owner, past its lease. *)
Definition observed_exact_stable_owner (observed : option DispatchFence) (fence : DispatchFence) : bool :=
  match observed with
  | Some o => bool_decide (fence_owner o = fence_owner fence) && negb (is_prepared o)
  | None => false
  end.

Definition accepted_hello_owns_current_fence (observed : option DispatchFence)
    (fence : DispatchFence) : bool :=
  match f_purpose fence with
  | Suspension => observed_exact_stable_owner observed fence
  | Deletion => observed_exact_stable_owner observed fence && requires_durable_recheck fence
  end.

(** The session takes the client's place; the one it replaces is closed. *)
Definition insert_session (s : GatewayState) (client : str) (session : GatewaySession) :
  option CloseSignal * GatewayState :=
  (option_map (fun previous => (session_id previous, Graceful (lit "replaced_by_new_session")))
     (sessions s !! client),
   set_sessions s (<[ client := session ]> (sessions s))).

Definition register_session_after_accepted_hello (s : GatewayState) (now : Instant) (client : str)
    (session : GatewaySession) (observed : option DispatchFence) :
  bool * option CloseSignal * GatewayState :=
  let s := set_fences s (normalize_expired_dispatch_fence (fences s) client now) in
  match fences s !! client with
  | Some fence =>
      if negb (accepted_hello_owns_current_fence observed fence) then
        (false, Some (session_id session, Graceful (lit "client_lifecycle_fenced")), s)
      else
        let s := set_fences s (delete client (fences s)) in
        let s := retire_client_dispatch_fence_generation s client (f_epoch fence) (f_generation fence) in
        let '(closed, s) := insert_session s client session in (true, closed, s)
  | None => let '(closed, s) := insert_session s client session in (true, closed, s)
  end.

(** [session] is the client's current one. *)
Definition session_current (s : GatewayState) (client : str) (session : Uuid) : bool :=
  match sessions s !! client with Some current => session_id current =? session | None => false end.

Definition close_agent_session_now (s : GatewayState) (client reason : str) :
  bool * option CloseSignal * GatewayState :=
  match sessions s !! client with
  | None => (false, None, s)
  | Some session =>
      (true, Some (session_id session, Graceful reason), set_sessions s (delete client (sessions s)))
  end.

Definition invalidate_agent_session_if_current (s : GatewayState) (client : str) (session : Uuid)
    (reason : str) : bool * option CloseSignal * GatewayState :=
  if negb (session_current s client session) then (false, None, s)
  else (true, Some (session, Immediate reason), set_sessions s (delete client (sessions s))).

Definition unregister_session_if_current (s : GatewayState) (client : str) (session : Uuid) :
  bool * GatewayState :=
  if session_current s client session then (true, set_sessions s (delete client (sessions s)))
  else (false, s).

(** A suspension past its lease: what committed telemetry may consume. *)
Definition stable_suspension (fence : DispatchFence) : bool :=
  bool_decide (f_purpose fence = Suspension) && negb (is_prepared fence).

(** Taken before telemetry is posted. *)
Definition snapshot_stable_suspension_route_owner (s : GatewayState) (client : str) :
  option FenceOwner :=
  match fences s !! client with
  | Some fence => if stable_suspension fence then Some (fence_owner fence) else None
  | None => None
  end.

Definition refresh_client_route_after_committed_telemetry (s : GatewayState) (client : str)
    (session : Uuid) (observed_owner : option FenceOwner) : bool * GatewayState :=
  if negb (session_current s client session) then (false, s)
  else
    match observed_owner, fences s !! client with
    | Some observed, Some fence =>
        if stable_suspension fence && bool_decide (fence_owner fence = observed) then
          (true, retire_client_dispatch_fence_generation (set_fences s (delete client (fences s)))
                   client (f_epoch fence) (f_generation fence))
        else (true, s)
    | _, _ => (true, s)
    end.

(** * Batches *)

Definition GATEWAY_CLIENT_DISPATCH_FENCE_BATCH_MAX_ITEMS : Z := 1000.

Definition batch_id_step (seen : gset str) (id : str) : result str (gset str) :=
  if bool_decide (id ∈ seen) then Err (lit "dispatch_fence_batch_duplicate_client_id:" ++ id)
  else Ok ({[ id ]} ∪ seen).

Definition validate_dispatch_fence_batch (client_ids : list str) : result str unit :=
  if negb (in_range 1 GATEWAY_CLIENT_DISPATCH_FENCE_BATCH_MAX_ITEMS (vec_len client_ids)) then
    Err (lit "dispatch_fence_batch_size_out_of_range:expected=1..=1000:actual="
         ++ to_string (vec_len client_ids))
  else try_fold batch_id_step ∅ client_ids;; Ok tt.

(** The items of a batch run one after the other, each with its own clock readings. *)
Fixpoint batch_each {A R : Type} (handler : GatewayState -> A -> R * GatewayState) (s : GatewayState)
    (items : list A) : list R * GatewayState :=
  match items with
  | [] => ([], s)
  | item :: items' =>
      let '(r, s) := handler s item in
      let '(rs, s) := batch_each handler s items' in (r :: rs, s)
  end.

Definition prepare_gateway_client_dispatch_fence_batch (s : GatewayState)
    (items : list (Instant * Instant * FencePrepare)) : result str (list FenceResult) * GatewayState :=
  match validate_dispatch_fence_batch (map (fun item => prep_client (snd item)) items) with
  | Err e => (Err e, s)
  | Ok _ =>
      let '(rs, s) :=
        batch_each (fun s '(now, later, p) => prepare_gateway_client_dispatch_fence s now later p)
          s items in
      (Ok rs, s)
  end.

Definition promote_gateway_client_dispatch_fence_batch (s : GatewayState)
    (items : list (Instant * FencePromote)) : result str (list FenceResult) * GatewayState :=
  match validate_dispatch_fence_batch (map (fun item => prom_client (snd item)) items) with
  | Err e => (Err e, s)
  | Ok _ =>
      let '(rs, s) :=
        batch_each (fun s '(now, p) => promote_gateway_client_dispatch_fence s now p) s items in
      (Ok rs, s)
  end.

Definition clear_gateway_client_dispatch_fence_batch (s : GatewayState)
    (items : list (Instant * FenceClear)) : result str (list FenceResult) * GatewayState :=
  match validate_dispatch_fence_batch (map (fun item => clr_client (snd item)) items) with
  | Err e => (Err e, s)
  | Ok _ =>
      let '(rs, s) :=
        batch_each (fun s '(now, c) => clear_gateway_client_dispatch_fence s now c) s items in
      (Ok rs, s)
  end.

Definition GATEWAY_CONTROL_BATCH_MAX_ITEMS : Z := 1000.

Definition control_id_step (error_prefix : str) (seen : gset str) (id : str) : result str (gset str) :=
  if is_empty id then Err (error_prefix ++ lit "_empty_request_id")
  else if bool_decide (id ∈ seen) then Err (error_prefix ++ lit "_duplicate_request_id:" ++ id)
  else Ok ({[ id ]} ∪ seen).

Definition validate_gateway_control_batch (request_ids : list str) (error_prefix : str) :
  result str unit :=
  if negb (in_range 1 GATEWAY_CONTROL_BATCH_MAX_ITEMS (vec_len request_ids)) then
    Err (error_prefix ++ lit "_size_out_of_range:expected=1..=1000:actual="
         ++ to_string (vec_len request_ids))
  else try_fold (control_id_step error_prefix) ∅ request_ids;; Ok tt.

(** The results of the batch and the close requests it sent. *)
Definition disconnect_gateway_sessions (s : GatewayState) (items : list SessionDisconnect) :
  result str (list (DisconnectResult * option CloseSignal)) * GatewayState :=
  match validate_gateway_control_batch (map dis_client items) (lit "session_disconnect_batch") with
  | Err e => (Err e, s)
  | Ok _ => let '(rs, s) := batch_each disconnect_gateway_session s items in (Ok rs, s)
  end.

(** * Interleavings *)

(** Everything the gateway does to this state, one atomic transition each.  What
    a connection observed before it asked the API, and the deadline a dispatch
    read before its loop, are arguments: any earlier state may have shown them. *)
Inductive Op :=
| OpAcquire (a : FenceAcquire)
| OpPrepare (later : Instant) (p : FencePrepare)
| OpPromote (p : FencePromote)
| OpClear (c : FenceClear)
| OpDispatch (deadline : option Instant) (later : Instant) (fresh : Uuid) (d : CommandDispatch)
| OpRollback (client : str) (job : Uuid) (inserted : EnqueueMarker) (prior : option EnqueueMarker)
| OpTerminal (c : TerminalControl)
| OpDisconnect (d : SessionDisconnect)
| OpRegister (client : str) (session : GatewaySession) (observed : option DispatchFence)
| OpReconnected (client : str)
| OpUnregister (client : str) (session : Uuid)
| OpDisconnected (client : str)
| OpCloseNow (client reason : str)
| OpInvalidate (client : str) (session : Uuid) (reason : str)
| OpTelemetryCommitted (client : str) (session : Uuid) (observed_owner : option FenceOwner)
| OpPrune
| OpTiming (grace ack : Z).

Inductive Event :=
| EvAcquired (r : result str FenceOwner)
| EvFence (r : FenceResult)
| EvDispatched (d : CommandDispatch) (r : DispatchStep)
| EvSession (changed : bool) (closed : option CloseSignal)
| EvOther.

Definition step (s : GatewayState) (now : Instant) (op : Op) : Event * GatewayState :=
  match op with
  | OpAcquire a => let '(r, s) := acquire_gateway_client_dispatch_fence s now a in (EvAcquired r, s)
  | OpPrepare later p =>
      let '(r, s) := prepare_gateway_client_dispatch_fence s now later p in (EvFence r, s)
  | OpPromote p => let '(r, s) := promote_gateway_client_dispatch_fence s now p in (EvFence r, s)
  | OpClear c => let '(r, s) := clear_gateway_client_dispatch_fence s now c in (EvFence r, s)
  | OpDispatch deadline later fresh d =>
      let '(r, s) := dispatch_gateway_command s deadline now later fresh d in (EvDispatched d r, s)
  | OpRollback client job inserted prior =>
      (EvOther, rollback_failed_command_enqueue s client job inserted prior)
  | OpTerminal c => let '(_, s) := dispatch_terminal_control s now c in (EvOther, s)
  | OpDisconnect d =>
      let '(r, closed, s) := disconnect_gateway_session s d in (EvSession (dr_disconnected r) closed, s)
  | OpRegister client session observed =>
      let '(r, closed, s) := register_session_after_accepted_hello s now client session observed in
      (EvSession r closed, s)
  | OpReconnected client => (EvOther, set_disconnected s (delete client (disconnected_at s)))
  | OpUnregister client session =>
      let '(r, s) := unregister_session_if_current s client session in (EvSession r None, s)
  | OpDisconnected client => (EvOther, set_disconnected s (<[ client := now ]> (disconnected_at s)))
  | OpCloseNow client reason =>
      let '(r, closed, s) := close_agent_session_now s client reason in (EvSession r closed, s)
  | OpInvalidate client session reason =>
      let '(r, closed, s) := invalidate_agent_session_if_current s client session reason in
      (EvSession r closed, s)
  | OpTelemetryCommitted client session observed_owner =>
      let '(r, s) := refresh_client_route_after_committed_telemetry s client session observed_owner in
      (EvSession r None, s)
  | OpPrune => let '(_, s) := prune_expired_command_enqueues s now in (EvOther, s)
  | OpTiming grace ack => (EvOther, set_runtime_timing s grace ack)
  end.

Fixpoint run (s : GatewayState) (ops : list (Instant * Op)) : list Event * GatewayState :=
  match ops with
  | [] => ([], s)
  | (now, op) :: ops' =>
      let '(ev, s) := step s now op in
      let '(evs, s) := run s ops' in (ev :: evs, s)
  end.

(** A gateway process after start. *)
Definition initial (epoch : Uuid) : GatewayState := mkState ∅ epoch ∅ ∅ ∅ ∅ 60 30.
