(* ===== verification/GatewayFenceProofs.v ===== *)
(** Theorems on the dispatch fences ([GatewayFence]): what holds in every
    interleaving of fence handlers, command dispatches, agent sessions coming
    and going, disconnects and maintenance. *)

From stdpp Require Import sorting.
From S2P Require Import Prelude RustStd GatewayFence.

Open Scope Z_scope.

#[local] Arguments lit : simpl never.

(** * Reference definitions *)

Definition enqueues (client : str) (ev : Event) : bool :=
  match ev with
  | EvDispatched d (Enqueued _ _) => bool_decide (disp_client d = client)
  | _ => false
  end.

(** A promotion of this owner, whatever its outcome. *)
Definition promotes (client : str) (token : Z) (generation : Z) (op : Op) : bool :=
  match op with
  | OpPromote p =>
      bool_decide (prom_client p = client) && (prom_token p =? token)
      && (prom_generation p =? generation)
  | _ => false
  end.

(** The gateway confirms to this owner that its fence was never lost. *)
Definition confirms (s : GatewayState) (now : Z) (client : str) (token generation : Z) (op : Op) :
  bool :=
  match op with
  | OpPrepare later p =>
      bool_decide (prep_client p = client) && (prep_token p =? token)
      && (prep_generation p =? generation)
      && r_ownership_continuous (fst (prepare_gateway_client_dispatch_fence s now later p))
  | OpPromote p =>
      bool_decide (prom_client p = client) && (prom_token p =? token)
      && (prom_generation p =? generation)
      && r_ownership_continuous (fst (promote_gateway_client_dispatch_fence s now p))
  | _ => false
  end.

Definition retired_of (s : GatewayState) (client : str) : Z :=
  retired_generation (generation_of s client).

(** The owner holds a lease of this gateway process. *)
Definition live (client : str) (token generation : Z) (s : GatewayState) : Prop :=
  exists f, fences s !! client = Some f /\ is_prepared f = true /\
            f_epoch f = fence_epoch s /\ f_token f = token /\ f_generation f = generation.

(** The owner can no longer be confirmed. *)
Definition lost (client : str) (token generation : Z) (s : GatewayState) : Prop :=
  generation <= retired_of s client \/
  exists f, fences s !! client = Some f /\ requires_durable_recheck f = true /\
            f_epoch f = fence_epoch s /\ f_token f = token /\ f_generation f = generation.

(** * The fence of one client as an automaton *)

(** What the handlers see of one client. *)
Definition view : Type := option DispatchFence * FenceGeneration.
Definition view_of (s : GatewayState) (client : str) : view :=
  (fences s !! client, generation_of s client).

Definition retire (g : FenceGeneration) (n : Z) : FenceGeneration :=
  mkGeneration (latest_generation g) (latest_token g) (latest_purpose g) (latest_supersedes g)
    (Z.max (retired_generation g) n).

(** The operation speaks for the owner [token], [generation] of [client]. *)
Definition acts_as (client : str) (token generation : Z) (op : Op) : bool :=
  match op with
  | OpPrepare _ p =>
      bool_decide (prep_client p = client) && (prep_token p =? token)
      && (prep_generation p =? generation)
  | OpPromote p => promotes client token generation op
  | OpClear c =>
      bool_decide (clr_client c = client) && (clr_token c =? token) && (clr_generation c =? generation)
  | _ => false
  end.

(** A clear of the owner [token], [generation] of [client]. *)
Definition clears_as (client : str) (token generation : Z) (op : Op) : bool :=
  match op with OpClear _ => acts_as client token generation op | _ => false end.

(** A hello or telemetry that the API accepted after the connection had observed
    the owner of [f]. *)
Definition session_supersedes (client : str) (f : DispatchFence) (op : Op) : bool :=
  match op with
  | OpRegister c _ observed => bool_decide (c = client) && observed_exact_stable_owner observed f
  | OpTelemetryCommitted c _ (Some o) => bool_decide (c = client) && bool_decide (fence_owner f = o)
  | _ => false
  end.

(** The generation record names [token] as the latest, unretired owner. *)
Definition authorized (g : FenceGeneration) (token generation : Z) : Prop :=
  latest_generation g = generation /\ latest_token g = Some token /\ retired_generation g < generation.

(** A fence another owner may replace: a recheck barrier, a committed one that
    a deletion never yields to a suspension, or a suspension lease that an
    exact unsuspend of a later generation supersedes. *)
Definition gives_way (f : DispatchFence) (purpose : FencePurpose) (generation : Z) : Prop :=
  requires_durable_recheck f = true \/
  (is_persistent f = true /\ (f_purpose f = Suspension \/ purpose = Deletion)) \/
  (is_prepared f = true /\ f_purpose f = Suspension /\ purpose = Suspension /\
   f_generation f < generation).

(** The clock readings of a transition. *)
Definition readings (now : Z) (op : Op) : list Z :=
  match op with OpPrepare later _ | OpDispatch _ later _ _ => [now; later] | _ => [now] end.

Inductive expires (ts : list Z) : view -> view -> Prop :=
| expires_not v : expires ts v v
| expires_lease t f g :
    t ∈ ts -> lease_expired_at f t = true ->
    expires ts (Some f, g) (Some (set_state f (DurableRecheck (fence_fallback f))), g).

Inductive act (epoch : Z) (client : str) (op : Op) : view -> view -> Prop :=
| act_none v : act epoch client op v v
| act_issue f g token purpose supersedes :
    latest_generation g + 1 <= u64_max -> latest_token g <> Some token ->
    act epoch client op (f, g)
      (f, mkGeneration (latest_generation g + 1) (Some token) (Some purpose) supersedes
            (retired_generation g))
| act_renew f g until :
    is_prepared f = true -> retired_generation g < f_generation f ->
    acts_as client (f_token f) (f_generation f) op = true ->
    act epoch client op (Some f, g) (Some (set_state f (Prepared until (fence_fallback f))), g)
| act_install g token generation purpose until :
    authorized g token generation ->
    act epoch client op (None, g)
      (Some (mkFence token epoch generation purpose (Prepared until None)), g)
| act_replace f g token generation purpose until recheck :
    authorized g token generation -> gives_way f purpose generation ->
    act epoch client op (Some f, g)
      (Some (mkFence token epoch generation purpose
               (Prepared until (Some (mkFallback (f_token f) (f_epoch f) (f_generation f)
                                        (f_purpose f) recheck)))),
       retire g (f_generation f))
| act_promote f g :
    promotes client (f_token f) (f_generation f) op = true ->
    retired_generation g < f_generation f ->
    act epoch client op (Some f, g) (Some (set_state f Persistent), g)
| act_clear f g f' :
    clears_as client (f_token f) (f_generation f) op = true ->
    f' = None \/ (exists fb, fence_fallback f = Some fb /\ f' = Some (restored_fence fb)) ->
    act epoch client op (Some f, g) (f', retire g (f_generation f))
| act_supersede f g :
    session_supersedes client f op = true ->
    f_purpose f = Suspension \/ requires_durable_recheck f = true ->
    act epoch client op (Some f, g)
      (None, if f_epoch f =? epoch then retire g (f_generation f) else g)
| act_retire f g n : act epoch client op (f, g) (f, retire g n).

(** One transition of the gateway as one client sees it. *)
Definition moves (ts : list Z) (epoch : Z) (client : str) (op : Op) (v v' : view) : Prop :=
  exists v1, expires ts v v1 /\ act epoch client op v1 v'.

(** The operation is a clear by the owner of the client's present fence, or a
    hello or telemetry accepted for that very owner. *)
Definition released (client : str) (s : GatewayState) (op : Op) : bool :=
  match fences s !! client with
  | Some f => clears_as client (f_token f) (f_generation f) op || session_supersedes client f op
  | None => false
  end.

(** No step of the run releases the fence the client has at that step. *)
Fixpoint never_released (client : str) (s : GatewayState) (ops : list (Z * Op)) : Prop :=
  match ops with
  | [] => True
  | (now, op) :: ops' =>
      released client s op = false /\ never_released client (snd (step s now op)) ops'
  end.

(** A dispatch that proved a durable recheck. *)
Definition carries_recheck (ev : Event) : bool :=
  match ev with EvDispatched d _ => bool_decide (is_Some (disp_lifecycle_recheck d)) | _ => false end.

(** The job has an unexpired enqueue marker. *)
Definition job_in_flight (s : GatewayState) (client : str) (now : Z) (job : Z) : Prop :=
  exists (markers : gmap Z EnqueueMarker) (marker : EnqueueMarker),
    command_enqueues s !! client = Some markers /\ markers !! job = Some marker /\
    now < marker_expires_at marker.

(** An owner this gateway issued: no later than the latest one, and the latest
    one itself only under its token. *)
Definition issued (g : FenceGeneration) (epoch : Z) (o : FenceOwner) : Prop :=
  owner_epoch o = epoch /\ 1 <= owner_generation o <= latest_generation g /\
    (owner_generation o = latest_generation g -> latest_token g = Some (owner_token o)).

Definition fallback_owner (fb : FenceFallback) : FenceOwner :=
  mkOwner (fb_token fb) (fb_epoch fb) (fb_generation fb).

Definition view_ok (epoch : Z) (v : view) : Prop :=
  0 <= latest_generation (snd v) <= u64_max /\ 0 <= retired_generation (snd v) /\
    forall f, fst v = Some f ->
    issued (snd v) epoch (fence_owner f) /\
    forall fb, fence_fallback f = Some fb -> issued (snd v) epoch (fallback_owner fb).

(** The owner is past its lease: retired, or holding a fence that is no lease. *)
Definition past_lease (o : FenceOwner) (v : view) : Prop :=
  owner_generation o <= retired_generation (snd v) \/
  exists f, fst v = Some f /\ fence_owner f = o /\ is_prepared f = false.

(** What the accepting ends of the handler have in common. *)
Definition reports (s : GatewayState) (now later : Z) (p : FencePrepare) (r : FenceResult)
    (s' : GatewayState) : Prop :=
  (exists f, fences s' !! prep_client p = Some f /\
     fence_owner f = mkOwner (prep_token p) (fence_epoch s) (prep_generation p) /\
     f_purpose f = prep_purpose p) /\
  Sorted Z.le (r_enqueued_job_ids r) /\ NoDup (r_enqueued_job_ids r) /\
  exists t, (t = now \/ t = later) /\
    forall job, job ∈ r_enqueued_job_ids r <-> job_in_flight s (prep_client p) t job.

(** ** A concrete gateway *)

(** One client, online; a command is in flight when a deletion lease is taken. *)
Definition ex_client : str := lit "edge-1".
Definition ex_dispatch (job : Z) (recheck : option FenceOwner) : Op :=
  OpDispatch None 4 job (mkDispatch ex_client job 30 11 (Some 5) recheck).
Definition ex_prepare (purpose : FencePurpose) (token generation : Z) (renewal : bool) : FencePrepare :=
  mkPrepare ex_client token 5 generation renewal 60 purpose.
Definition ex_online : GatewayState :=
  snd (run (initial 5)
    [(0, OpRegister ex_client (mkSession 31 11) None);
     (0, ex_dispatch 77 None);
     (0, OpAcquire (mkAcquire ex_client 901 Deletion false))]).
Definition ex_leased : GatewayState :=
  snd (step ex_online 1 (OpPrepare 9 (ex_prepare Deletion 901 1 false))).
Definition ex_lease : DispatchFence := mkFence 901 5 1 Deletion (Prepared 60000000001 None).
(** Another owner's attempts, a dispatch, a disconnect and maintenance. *)
Definition ex_interference : list (Z * Op) :=
  [(2, OpAcquire (mkAcquire ex_client 902 Suspension true));
   (3, OpPrepare 9 (ex_prepare Suspension 902 2 false));
   (4, ex_dispatch 78 None);
   (5, ex_dispatch 79 (Some (mkOwner 901 5 1)));
   (6, OpTerminal (mkTerminalControl ex_client true 11));
   (7, OpRegister ex_client (mkSession 32 11) (Some (mkFence 900 5 0 Deletion Persistent)));
   (7, OpTelemetryCommitted ex_client 31 (Some (mkOwner 902 5 2)));
   (7, OpDisconnect (mkDisconnect ex_client (lit "maintenance") None));
   (8, OpUnregister ex_client 31);
   (8, OpPrune)].
Definition ex_clear : Op := OpClear (mkClear ex_client 901 5 1 false []).

(** A committed suspension; then the lease of the unsuspend that replaces it. *)
Definition ex_suspend : list (Z * Op) :=
  [(0, OpRegister ex_client (mkSession 31 11) None);
   (1, OpAcquire (mkAcquire ex_client 901 Suspension false));
   (2, OpPrepare 2 (ex_prepare Suspension 901 1 false));
   (3, OpPromote (mkPromote ex_client 901 5 1 Suspension))].
Definition ex_unsuspend : list (Z * Op) :=
  [(4, OpAcquire (mkAcquire ex_client 902 Suspension true));
   (5, OpPrepare 5 (ex_prepare Suspension 902 2 false))].
Definition ex_suspended : GatewayState := snd (run (initial 5) ex_suspend).
Definition ex_unsuspending : GatewayState := snd (run ex_suspended ex_unsuspend).

(** * Frame lemmas *)

(** What a handler may change for a client: nothing, an expired lease into a
    recheck barrier, and so on. *)
Lemma normalize_other m client now c :
  c <> client -> normalize_expired_dispatch_fence m client now !! c = m !! c.
Proof.
  intros H. unfold normalize_expired_dispatch_fence. destruct (m !! client); [|done].
  case_match; [|done]. by rewrite lookup_insert_ne.
Qed.

Lemma normalize_same m client now :
  normalize_expired_dispatch_fence m client now !! client
  = option_map (fun f => if lease_expired_at f now
                         then set_state f (DurableRecheck (fence_fallback f)) else f) (m !! client).
Proof.
  unfold normalize_expired_dispatch_fence. destruct (m !! client) as [f|] eqn:E; cbn; [|done].
  destruct (lease_expired_at f now); [by rewrite lookup_insert_eq|done].
Qed.

Lemma protected_frame s client now ids s' :
  protected_enqueued_job_ids s client now = (ids, s') ->
  fences s' = fences s /\ generations s' = generations s /\ fence_epoch s' = fence_epoch s.
Proof.
  unfold protected_enqueued_job_ids. destruct (command_enqueues s !! client); intros [= <- <-]; done.
Qed.

Lemma retire_same s client generation :
  retired_of (retire_client_dispatch_fence_generation s client (fence_epoch s) generation) client
  = Z.max (retired_of s client) generation.
Proof.
  unfold retire_client_dispatch_fence_generation, retired_of, generation_of.
  rewrite Z.eqb_refl. cbn. by rewrite lookup_insert_eq.
Qed.

Lemma retire_other s client epoch generation c :
  c <> client ->
  generation_of (retire_client_dispatch_fence_generation s client epoch generation) c = generation_of s c.
Proof.
  intros H. unfold retire_client_dispatch_fence_generation, generation_of.
  destruct (negb (epoch =? fence_epoch s)); [done|]. cbn. by rewrite lookup_insert_ne.
Qed.

Lemma retire_fences s client epoch generation :
  fences (retire_client_dispatch_fence_generation s client epoch generation) = fences s.
Proof. unfold retire_client_dispatch_fence_generation. by destruct (negb _). Qed.

Lemma retire_enqueues s client epoch generation :
  command_enqueues (retire_client_dispatch_fence_generation s client epoch generation)
  = command_enqueues s.
Proof. unfold retire_client_dispatch_fence_generation. by destruct (negb _). Qed.

Lemma view_normalize ts s client now c :
  now ∈ ts ->
  expires ts (view_of s c)
    (view_of (set_fences s (normalize_expired_dispatch_fence (fences s) client now)) c).
Proof.
  intros Hin. unfold view_of. cbn. change (generation_of (set_fences s _) c) with (generation_of s c).
  destruct (decide (c = client)) as [->|Hne].
  - rewrite normalize_same. destruct (fences s !! client) as [f|]; cbn; [|constructor].
    destruct (lease_expired_at f now) eqn:E; [by apply (expires_lease _ now)|constructor].
  - rewrite normalize_other by done. constructor.
Qed.

Lemma view_protected s client now ids s' c :
  protected_enqueued_job_ids s client now = (ids, s') ->
  view_of s' c = view_of s c /\ fence_epoch s' = fence_epoch s.
Proof.
  intros H. apply protected_frame in H as (Hf & Hg & He).
  unfold view_of, generation_of. by rewrite Hf, Hg.
Qed.

Lemma view_insert s client f c :
  view_of (set_fences s (<[client := f]> (fences s))) c
  = (if decide (c = client) then Some f else fences s !! c, generation_of s c).
Proof.
  unfold view_of. cbn. change (generation_of (set_fences s _) c) with (generation_of s c).
  case_decide as Hd; [subst; by rewrite lookup_insert_eq|by rewrite lookup_insert_ne].
Qed.

Lemma view_retire s client generation c :
  view_of (retire_client_dispatch_fence_generation s client (fence_epoch s) generation) c
  = (fences s !! c, if decide (c = client) then retire (generation_of s c) generation
                    else generation_of s c).
Proof.
  unfold view_of. rewrite retire_fences. f_equal. case_decide as Hd.
  - subst. unfold retire_client_dispatch_fence_generation, generation_of, retire.
    rewrite Z.eqb_refl. cbn. by rewrite lookup_insert_eq.
  - by apply retire_other.
Qed.

Lemma moves_stay ts epoch client op v : moves ts epoch client op v v.
Proof. exists v. split; constructor. Qed.

Lemma moves_expire ts epoch client op v v' : expires ts v v' -> moves ts epoch client op v v'.
Proof. intros H. exists v'. split; [done|constructor]. Qed.

Lemma bool_decide_and_3 (client c : str) a b x y :
  bool_decide (client = c) && (a =? x) && (b =? y) = true <-> client = c /\ a = x /\ b = y.
Proof. rewrite !andb_true_iff, bool_decide_eq_true, !Z.eqb_eq. tauto. Qed.

Lemma acquire_moves s now a r s' c :
  acquire_gateway_client_dispatch_fence s now a = (r, s') ->
  moves [now] (fence_epoch s) c (OpAcquire a) (view_of s c) (view_of s' c) /\
  fence_epoch s' = fence_epoch s.
Proof.
  unfold acquire_gateway_client_dispatch_fence. intros H.
  destruct (acq_supersede a && _); [simplify_eq; split; [apply moves_stay|done]|].
  pose proof (view_normalize [now] s (acq_client a) now c ltac:(by left)) as Hn.
  set (s1 := set_fences s _) in *.
  assert (Hgen : forall r s', acquire_generation s1 a = (r, s') ->
    moves [now] (fence_epoch s) c (OpAcquire a) (view_of s c) (view_of s' c) /\
    fence_epoch s' = fence_epoch s).
  { clear r s' H. intros r s' H. unfold acquire_generation in H.
    assert (Hsave : forall g, fence_epoch (set_generations s1 (<[acq_client a := g]> (generations s1)))
      = fence_epoch s) by done.
    assert (Hv : forall g, view_of (set_generations s1 (<[acq_client a := g]> (generations s1))) c
      = (fences s1 !! c, if decide (c = acq_client a) then g else generation_of s1 c)).
    { intros g. unfold view_of, generation_of. cbn. f_equal.
      destruct (decide (c = acq_client a)) as [->|Hd];
        [by rewrite lookup_insert_eq|by rewrite lookup_insert_ne]. }
    assert (Hstay : view_of (set_generations s1 (<[acq_client a := generation_of s1 (acq_client a)]>
      (generations s1))) c = view_of s1 c).
    { rewrite Hv. unfold view_of. case_decide; by subst. }
    destruct (bool_decide (latest_token _ = _)) eqn:Et.
    - assert (s' = set_generations s1 (<[acq_client a := generation_of s1 (acq_client a)]>
        (generations s1))) as -> by (repeat case_match; by simplify_eq).
      rewrite Hstay. split; [by apply moves_expire|done].
    - bools. destruct (checked_add u64_max _ 1) as [next|] eqn:Ec; injection H as <- <-.
      + split; [|done]. exists (view_of s1 c). split; [done|]. rewrite Hv. unfold view_of.
        unfold checked_add in Ec. destruct (_ <=? u64_max) eqn:El in Ec; [|done]. injection Ec as <-. bools.
        destruct (decide (c = acq_client a)) as [->|Hd]; [|constructor]. by apply act_issue.
      + split; [|done]. apply moves_expire. rewrite <- Hstay in Hn. exact Hn. }
  destruct (fences s1 !! acq_client a) as [f|]; [|by apply (Hgen r)].
  repeat case_match; simplify_eq; try (split; [by apply moves_expire|done]).
  by apply (Hgen r).
Qed.

Lemma authorized_spec g p : initial_authorized g p = true -> authorized g (prep_token p) (prep_generation p).
Proof. unfold initial_authorized, authorized. intros H. bools. done. Qed.

Lemma same_owner_spec f p :
  same_owner f p = true ->
  f_token f = prep_token p /\ f_epoch f = prep_epoch p /\ f_generation f = prep_generation p /\
  f_purpose f = prep_purpose p.
Proof. unfold same_owner. intros H. bools. done. Qed.

Lemma prepare_same_moves ts s1 now later p f r s' c v :
  fences s1 !! prep_client p = Some f -> same_owner f p = true ->
  prepare_same_owner s1 now p (generation_of s1 (prep_client p)) f = (r, s') ->
  expires ts v (view_of s1 c) ->
  moves ts (fence_epoch s1) c (OpPrepare later p) v (view_of s' c) /\ fence_epoch s' = fence_epoch s1.
Proof.
  intros Hf Ho H Hv. unfold prepare_same_owner in H.
  destruct (_ <=? _) eqn:Er; [simplify_eq; split; [by apply moves_expire|done]|]. bools.
  destruct (protected_enqueued_job_ids _ _ _) as [ids s2] eqn:Ep. injection H as <- <-.
  apply (view_protected _ _ _ _ _ c) in Ep as [-> ->].
  destruct (is_prepared f) eqn:Hp; [|split; [by apply moves_expire|done]].
  split; [|done]. exists (view_of s1 c). split; [done|]. rewrite view_insert. unfold view_of.
  destruct (decide (c = prep_client p)) as [->|]; [|constructor]. rewrite Hf.
  apply same_owner_spec in Ho as (Ht & _ & Hg & _).
  apply act_renew; [done|by rewrite Hg|]. cbn. apply bool_decide_and_3. done.
Qed.

Lemma prepare_other_moves ts s1 now later p f r s' c v :
  prep_epoch p = fence_epoch s1 ->
  fences s1 !! prep_client p = Some f ->
  prepare_other_owner s1 now p (generation_of s1 (prep_client p)) f = (r, s') ->
  expires ts v (view_of s1 c) ->
  moves ts (fence_epoch s1) c (OpPrepare later p) v (view_of s' c) /\ fence_epoch s' = fence_epoch s1.
Proof.
  intros Hep Hf H Hv. unfold prepare_other_owner in H.
  destruct (prep_renewal p); [simplify_eq; split; [by apply moves_expire|done]|].
  destruct (initial_authorized _ p) eqn:Ha; cbn [negb] in H;
    [|simplify_eq; split; [by apply moves_expire|done]].
  match type of H with context [if ?b then _ else _] => destruct b eqn:Hw end;
    [|simplify_eq; split; [by apply moves_expire|done]].
  destruct (protected_enqueued_job_ids _ _ _) as [ids s2] eqn:Ep. injection H as <- <-.
  apply (view_protected _ _ _ _ _ c) in Ep as [-> ->]. rewrite Hep.
  change (fence_epoch s1) with (fence_epoch (set_fences s1 (<[prep_client p :=
    prepared_fence p now (Some (mkFallback (f_token f) (f_epoch f) (f_generation f) (f_purpose f)
      (authorized_unsuspend_transition (generation_of s1 (prep_client p)) p
       || requires_durable_recheck f)))]> (fences s1)))) at 2 3.
  rewrite view_retire. split; [|unfold retire_client_dispatch_fence_generation; by rewrite Z.eqb_refl].
  exists (view_of s1 c). split; [done|]. unfold view_of. cbn [fences set_fences].
  change (generation_of (set_fences s1 _) c) with (generation_of s1 c).
  destruct (decide (c = prep_client p)) as [->|]; [|rewrite lookup_insert_ne by done; constructor].
  rewrite lookup_insert_eq, Hf. unfold prepared_fence. rewrite Hep.
  apply act_replace; [by apply authorized_spec|].
  apply orb_prop in Hw as [Hw|Hw].
  - bools. right; right. done.
  - apply orb_prop in Hw as [Hw|Hw]; [by left|]. bools. right; left. split; [done|].
    match goal with H : _ || _ = true |- _ => apply orb_prop in H; destruct H end; bools; tauto.
Qed.

Lemma prepare_moves s now later p r s' c :
  prepare_gateway_client_dispatch_fence s now later p = (r, s') ->
  moves [now; later] (fence_epoch s) c (OpPrepare later p) (view_of s c) (view_of s' c) /\
  fence_epoch s' = fence_epoch s.
Proof.
  unfold prepare_gateway_client_dispatch_fence. intros H.
  destruct (prep_epoch p =? fence_epoch s) eqn:He; cbn [negb] in H;
    [|simplify_eq; split; [apply moves_stay|done]]. bools.
  pose proof (view_normalize [now; later] s (prep_client p) now c ltac:(by left)) as Hn.
  change (generation_of s (prep_client p)) with (generation_of (set_fences s
    (normalize_expired_dispatch_fence (fences s) (prep_client p) now)) (prep_client p)) in H.
  set (s1 := set_fences s _) in *.
  destruct (fences s1 !! prep_client p) as [f|] eqn:Ef.
  - destruct (same_owner f p) eqn:Ho.
    + by apply (prepare_same_moves [now; later] s1 now later p f r s' c).
    + by apply (prepare_other_moves [now; later] s1 now later p f r s' c).
  - match type of H with context [if ?b then _ else _] => destruct b eqn:Ha end;
      [simplify_eq; split; [by apply moves_expire|done]|].
    destruct (protected_enqueued_job_ids _ _ _) as [ids s2] eqn:Ep. injection H as <- <-.
    apply (view_protected _ _ _ _ _ c) in Ep as [-> ->]. split; [|done].
    exists (view_of s1 c). split; [done|]. rewrite view_insert. unfold view_of.
    destruct (decide (c = prep_client p)) as [->|]; [|constructor]. rewrite Ef.
    apply orb_false_elim in Ha as [_ Ha]. apply negb_false_iff, authorized_spec in Ha.
    unfold prepared_fence. rewrite He. by apply act_install.
Qed.

Lemma promote_moves s now p r s' c :
  promote_gateway_client_dispatch_fence s now p = (r, s') ->
  moves [now] (fence_epoch s) c (OpPromote p) (view_of s c) (view_of s' c) /\
  fence_epoch s' = fence_epoch s.
Proof.
  unfold promote_gateway_client_dispatch_fence. intros H.
  destruct (prom_epoch p =? fence_epoch s); cbn [negb] in H; [|simplify_eq; split; [apply moves_stay|done]].
  destruct (_ <=? _) eqn:Er; [simplify_eq; split; [apply moves_stay|done]|]. bools.
  destruct (fences s !! prom_client p) as [f|] eqn:Ef; [|simplify_eq; split; [apply moves_stay|done]].
  destruct (promote_exact f p) eqn:Hx.
  - destruct (protected_enqueued_job_ids _ _ _) as [ids s2] eqn:Ep. injection H as <- <-.
    apply (view_protected _ _ _ _ _ c) in Ep as [-> ->]. split; [|done].
    exists (view_of s c). split; [constructor|]. rewrite view_insert. unfold view_of.
    destruct (decide (c = prom_client p)) as [->|]; [|constructor]. rewrite Ef.
    unfold promote_exact in Hx. bools. apply act_promote; [|congruence].
    cbn. apply bool_decide_and_3. done.
  - injection H as <- <-. split; [|done]. apply moves_expire, view_normalize. set_solver.
Qed.

Lemma clear_moves s now q r s' c :
  clear_gateway_client_dispatch_fence s now q = (r, s') ->
  moves [now] (fence_epoch s) c (OpClear q) (view_of s c) (view_of s' c) /\
  fence_epoch s' = fence_epoch s.
Proof.
  unfold clear_gateway_client_dispatch_fence. intros H.
  destruct (clr_epoch q =? fence_epoch s) eqn:He; cbn [negb] in H;
    [|simplify_eq; split; [apply moves_stay|done]]. bools.
  injection H as _ <-. rewrite He.
  match goal with |- context [set_fences s ?x] => set (m := x) end.
  change (fence_epoch s) with (fence_epoch (set_fences s m)) at 2.
  split.
  2: { case_match; [|done]. unfold retire_client_dispatch_fence_generation. by rewrite Z.eqb_refl. }
  exists (view_of s c). split; [constructor|].
  assert (Hother : c <> clr_client q -> m !! c = fences s !! c).
  { intros Hne. unfold m. destruct (fences s !! clr_client q) as [f|]; [|done].
    case_match; [|done]. unfold cleared_fences.
    destruct (if clr_restore_fallback q then fence_fallback f else None);
      [by rewrite lookup_insert_ne|by rewrite lookup_delete_ne]. }
  destruct (decide (c = clr_client q)) as [->|Hne].
  2: { match goal with |- context [if ?b then _ else _] => destruct b end;
       [rewrite view_retire, decide_False by done|]; unfold view_of; cbn [fences set_fences];
       rewrite Hother by done; constructor. }
  destruct (fences s !! clr_client q) as [f|] eqn:Ef.
  - destruct (clear_exact f q) eqn:Hx; cbn [negb andb orb] in *.
    + rewrite andb_true_r in *. destruct (clr_generation q <=? _) eqn:Er; cbn [negb andb] in *.
      { unfold view_of. cbn [fences set_fences]. unfold m. rewrite Ef. constructor. }
      rewrite view_retire, decide_True by done. cbn [fences set_fences].
      change (generation_of (set_fences s m) _) with (generation_of s (clr_client q)).
      unfold clear_exact in Hx. bools. unfold view_of. rewrite Ef.
      replace (clr_generation q) with (f_generation f).
      apply act_clear; [cbn; apply bool_decide_and_3; done|].
      unfold m, cleared_fences. destruct (clr_restore_fallback q), (fence_fallback f) as [fb|] eqn:Efb;
        rewrite ?lookup_insert_eq, ?lookup_delete_eq; [right; by exists fb|by left|by left|by left].
    + assert (m = fences s) as Hm by done.
      match goal with |- context [if ?b then _ else _] => destruct b end;
        [rewrite view_retire, decide_True by done|]; unfold view_of; cbn [fences set_fences];
        rewrite Hm, Ef; [apply act_retire|constructor].
  - assert (m = fences s) as Hm by done.
    match goal with |- context [if ?b then _ else _] => destruct b end;
      [rewrite view_retire, decide_True by done|]; unfold view_of; cbn [fences set_fences];
      rewrite Hm, Ef; [apply act_retire|constructor].
Qed.

Lemma dispatch_enqueue_view s deadline later fresh d r s' c :
  dispatch_enqueue s deadline later fresh d = (r, s') ->
  view_of s' c = view_of s c /\ fence_epoch s' = fence_epoch s.
Proof. unfold dispatch_enqueue. intros H. repeat case_match; simplify_eq; done. Qed.

Lemma dispatch_moves s deadline now later fresh d r s' c :
  dispatch_gateway_command s deadline now later fresh d = (r, s') ->
  moves [now; later] (fence_epoch s) c (OpDispatch deadline later fresh d) (view_of s c) (view_of s' c) /\
  fence_epoch s' = fence_epoch s.
Proof.
  unfold dispatch_gateway_command. intros H.
  assert (Hq : forall r s', dispatch_enqueue s deadline later fresh d = (r, s') ->
    moves [now; later] (fence_epoch s) c (OpDispatch deadline later fresh d) (view_of s c) (view_of s' c) /\
    fence_epoch s' = fence_epoch s).
  { clear r s' H. intros r s' H. destruct (dispatch_enqueue_view _ _ _ _ _ _ _ c H) as [-> ->].
    split; [apply moves_stay|done]. }
  repeat match type of H with
  | (if ?b then _ else _) = _ => destruct b
  | (match ?x with _ => _ end) = _ => destruct x
  end; try (by apply (Hq r)); injection H as <- <-; (split; [|done]); try apply moves_stay.
  apply moves_expire, view_normalize. set_solver.
Qed.

Lemma terminal_moves s now q r s' c :
  dispatch_terminal_control s now q = (r, s') ->
  moves [now] (fence_epoch s) c (OpTerminal q) (view_of s c) (view_of s' c) /\
  fence_epoch s' = fence_epoch s.
Proof.
  unfold dispatch_terminal_control, terminal_control_fenced. intros H.
  destruct (term_constructive q).
  - match type of H with context [set_fences s ?x] => set (s1 := set_fences s x) in * end.
    assert (s' = s1) as -> by (repeat case_match; by simplify_eq).
    split; [|done]. apply moves_expire, view_normalize. set_solver.
  - assert (s' = s) as -> by (repeat case_match; by simplify_eq). split; [apply moves_stay|done].
Qed.

(** A fence removed by an accepted hello or telemetry, and its retirement. *)
Lemma view_supersede s client f c :
  fences s !! client = Some f ->
  view_of (retire_client_dispatch_fence_generation (set_fences s (delete client (fences s))) client
             (f_epoch f) (f_generation f)) c
  = (if decide (c = client) then None else fences s !! c,
     if decide (c = client) then
       (if f_epoch f =? fence_epoch s then retire (generation_of s c) (f_generation f)
        else generation_of s c)
     else generation_of s c).
Proof.
  intros Hf. unfold view_of. rewrite retire_fences. cbn [fences set_fences].
  destruct (decide (c = client)) as [->|Hne].
  - rewrite lookup_delete_eq. f_equal. unfold retire_client_dispatch_fence_generation, generation_of.
    cbn. destruct (f_epoch f =? fence_epoch s); cbn; [by rewrite lookup_insert_eq|done].
  - rewrite lookup_delete_ne, retire_other by done. done.
Qed.

Lemma retire_epoch s client epoch generation :
  fence_epoch (retire_client_dispatch_fence_generation s client epoch generation) = fence_epoch s.
Proof. unfold retire_client_dispatch_fence_generation. by destruct (negb _). Qed.

Lemma insert_session_view s client session closed s' c :
  insert_session s client session = (closed, s') ->
  view_of s' c = view_of s c /\ fence_epoch s' = fence_epoch s.
Proof. unfold insert_session. intros [= <- <-]. done. Qed.

Lemma register_moves s now client session observed r closed s' c :
  register_session_after_accepted_hello s now client session observed = (r, closed, s') ->
  moves [now] (fence_epoch s) c (OpRegister client session observed) (view_of s c) (view_of s' c) /\
  fence_epoch s' = fence_epoch s.
Proof.
  unfold register_session_after_accepted_hello. intros H.
  pose proof (view_normalize [now] s client now c ltac:(by left)) as Hn.
  set (s1 := set_fences s _) in *. assert (He1 : fence_epoch s1 = fence_epoch s) by done.
  clearbody s1. rewrite <- He1. destruct (fences s1 !! client) as [f|] eqn:Ef.
  - destruct (accepted_hello_owns_current_fence observed f) eqn:Ho; cbn [negb] in H.
    2: { simplify_eq. split; [by apply moves_expire|done]. }
    destruct (insert_session _ _ _) as [cl s2] eqn:Ei. injection H as <- <- <-.
    apply (insert_session_view _ _ _ _ _ c) in Ei as [-> ->]. rewrite retire_epoch. split; [|done].
    exists (view_of s1 c). split; [done|]. rewrite view_supersede by done. unfold view_of.
    destruct (decide (c = client)) as [->|]; [|constructor]. rewrite Ef.
    unfold accepted_hello_owns_current_fence in Ho.
    apply act_supersede; cbn; destruct (f_purpose f); bools; try tauto;
      rewrite bool_decide_true by done; done.
  - destruct (insert_session _ _ _) as [cl s2] eqn:Ei. injection H as <- <- <-.
    apply (insert_session_view _ _ _ _ _ c) in Ei as [-> ->]. split; [by apply moves_expire|done].
Qed.

Lemma refresh_moves ts s client session observed r s' c :
  refresh_client_route_after_committed_telemetry s client session observed = (r, s') ->
  moves ts (fence_epoch s) c (OpTelemetryCommitted client session observed) (view_of s c)
    (view_of s' c) /\
  fence_epoch s' = fence_epoch s.
Proof.
  unfold refresh_client_route_after_committed_telemetry. intros H.
  destruct (session_current s client session); cbn [negb] in H;
    [|simplify_eq; split; [apply moves_stay|done]].
  destruct observed as [o|]; [|simplify_eq; split; [apply moves_stay|done]].
  destruct (fences s !! client) as [f|] eqn:Ef; [|simplify_eq; split; [apply moves_stay|done]].
  destruct (stable_suspension f && _) eqn:Hs; [|simplify_eq; split; [apply moves_stay|done]].
  injection H as <- <-. rewrite retire_epoch. split; [|done]. exists (view_of s c). split; [constructor|].
  rewrite view_supersede by done. unfold view_of.
  destruct (decide (c = client)) as [->|]; [|constructor]. rewrite Ef.
  unfold stable_suspension in Hs. bools.
  apply act_supersede; [cbn; by rewrite !bool_decide_true|by left].
Qed.

(** The refinement: every transition of the gateway moves every client by its automaton. *)
Lemma step_moves s now op ev s' c :
  step s now op = (ev, s') ->
  moves (readings now op) (fence_epoch s) c op (view_of s c) (view_of s' c) /\ fence_epoch s' = fence_epoch s.
Proof.
  intros H. destruct op; cbn in H.
  - destruct (acquire_gateway_client_dispatch_fence s now a) as [r s1] eqn:E. simplify_eq.
    by apply (acquire_moves _ _ _ r).
  - destruct (prepare_gateway_client_dispatch_fence s now later p) as [r s1] eqn:E. simplify_eq.
    by apply (prepare_moves _ _ _ _ r).
  - destruct (promote_gateway_client_dispatch_fence s now p) as [r s1] eqn:E. simplify_eq.
    by apply (promote_moves _ _ _ r).
  - destruct (clear_gateway_client_dispatch_fence s now c0) as [r s1] eqn:E. simplify_eq.
    by apply (clear_moves _ _ _ r).
  - destruct (dispatch_gateway_command s deadline now later fresh d) as [r s1] eqn:E. simplify_eq.
    by apply (dispatch_moves _ _ _ _ _ _ r).
  - simplify_eq. unfold rollback_failed_command_enqueue.
    repeat case_match; (split; [apply moves_stay|done]).
  - destruct (dispatch_terminal_control s now c0) as [r s1] eqn:E. simplify_eq.
    by apply (terminal_moves _ _ _ r).
  - unfold disconnect_gateway_session in H.
    repeat case_match; simplify_eq; (split; [apply moves_stay|done]).
  - destruct (register_session_after_accepted_hello s now client session observed) as [[r cl] s1] eqn:E.
    simplify_eq. by apply (register_moves _ _ _ _ _ r cl).
  - simplify_eq. split; [apply moves_stay|done].
  - unfold unregister_session_if_current in H.
    repeat case_match; simplify_eq; (split; [apply moves_stay|done]).
  - simplify_eq. split; [apply moves_stay|done].
  - unfold close_agent_session_now in H.
    repeat case_match; simplify_eq; (split; [apply moves_stay|done]).
  - unfold invalidate_agent_session_if_current in H.
    repeat case_match; simplify_eq; (split; [apply moves_stay|done]).
  - destruct (refresh_client_route_after_committed_telemetry s client session observed_owner)
      as [r s1] eqn:E. simplify_eq. by apply (refresh_moves _ _ _ _ _ r).
  - simplify_eq. split; [apply moves_stay|done].
  - simplify_eq. split; [apply moves_stay|done].
Qed.

(** * Retirement *)

Lemma moves_retired ts epoch c op f g f' g' :
  moves ts epoch c op (f, g) (f', g') -> retired_generation g <= retired_generation g'.
Proof.
  intros ([f1 g1] & He & Ha). assert (g1 = g) as -> by (inversion He; done).
  inversion Ha; subst; cbn; repeat case_match; cbn; lia.
Qed.

Lemma step_retired s now op ev s' c : step s now op = (ev, s') -> retired_of s c <= retired_of s' c.
Proof.
  intros H. destruct (step_moves _ _ _ _ _ c H) as [Hm _]. by apply moves_retired in Hm.
Qed.

Lemma run_retired s ops evs s' c : run s ops = (evs, s') -> retired_of s c <= retired_of s' c.
Proof.
  revert s evs. induction ops as [|[now op] ops IH]; intros s evs H; cbn in H; [simplify_eq; lia|].
  destruct (step s now op) as [ev s1] eqn:E. destruct (run s1 ops) as [evs' s2] eqn:Er. simplify_eq.
  apply IH in Er. apply (step_retired _ _ _ _ _ c) in E. lia.
Qed.

Lemma retired_prepare_refused s now later p :
  prep_generation p <= retired_of s (prep_client p) ->
  r_accepted (fst (prepare_gateway_client_dispatch_fence s now later p)) = false.
Proof.
  unfold retired_of. intros H. unfold prepare_gateway_client_dispatch_fence.
  assert (Ha : initial_authorized (generation_of s (prep_client p)) p = false).
  { unfold initial_authorized. rewrite (proj2 (Z.ltb_ge _ (prep_generation p))) by done.
    apply andb_false_r. }
  destruct (negb _); [done|]. destruct (fences _ !! prep_client p) as [f|].
  - destruct (same_owner f p).
    + unfold prepare_same_owner. by rewrite (proj2 (Z.leb_le _ _) H).
    + unfold prepare_other_owner. rewrite Ha. by destruct (prep_renewal p).
  - rewrite Ha, orb_true_r. done.
Qed.

Lemma retired_promote_refused s now p :
  prom_generation p <= retired_of s (prom_client p) ->
  r_accepted (fst (promote_gateway_client_dispatch_fence s now p)) = false /\
  r_ownership_continuous (fst (promote_gateway_client_dispatch_fence s now p)) = false.
Proof.
  unfold retired_of. intros H. unfold promote_gateway_client_dispatch_fence.
  destruct (negb _); [done|]. by rewrite (proj2 (Z.leb_le _ _) H).
Qed.

(** A retired owner stays retired: once a generation of a client is retired (it was cleared, or
    another owner replaced its fence), no interleaving of requests makes the gateway accept a
    prepare, renewal or promotion of that or an older generation again, so a late finaliser cannot
    invert a newer transition. *)
Theorem retired_generation_never_accepted s ops evs s' client now later :
  run s ops = (evs, s') ->
  (forall p, prep_client p = client -> prep_generation p <= retired_of s client ->
     r_accepted (fst (prepare_gateway_client_dispatch_fence s' now later p)) = false) /\
  (forall p, prom_client p = client -> prom_generation p <= retired_of s client ->
     r_accepted (fst (promote_gateway_client_dispatch_fence s' now p)) = false).
Proof.
  intros Hr. apply (run_retired _ _ _ _ client) in Hr. split; intros p <- Hp.
  - apply retired_prepare_refused. lia.
  - apply retired_promote_refused. lia.
Qed.

(** * Continuous ownership *)

Lemma prepare_continuous s now later p :
  r_ownership_continuous (fst (prepare_gateway_client_dispatch_fence s now later p)) = true ->
  retired_of s (prep_client p) < prep_generation p /\
  exists f, fences s !! prep_client p = Some f /\ requires_durable_recheck f = false /\
            f_token f = prep_token p /\ f_generation f = prep_generation p.
Proof.
  unfold prepare_gateway_client_dispatch_fence. destruct (negb _); [done|].
  cbn [fences set_fences]. rewrite normalize_same.
  destruct (fences s !! prep_client p) as [f|] eqn:Ef; cbn [option_map].
  - set (f1 := if lease_expired_at f now then _ else f).
    destruct (same_owner f1 p) eqn:Ho.
    + unfold prepare_same_owner. destruct (_ <=? _) eqn:Er; [done|].
      destruct (protected_enqueued_job_ids _ _ _) as [ids s2]. cbn.
      intros Hd. apply negb_true_iff in Hd. bools. split; [done|]. exists f.
      apply same_owner_spec in Ho as (Ht & _ & Hg & _). unfold f1 in *.
      destruct (lease_expired_at f now); [by cbn in Hd|done].
    + unfold prepare_other_owner. repeat case_match; done.
  - repeat case_match; done.
Qed.

Lemma promote_continuous s now p :
  r_ownership_continuous (fst (promote_gateway_client_dispatch_fence s now p)) = true ->
  retired_of s (prom_client p) < prom_generation p /\
  exists f, fences s !! prom_client p = Some f /\ requires_durable_recheck f = false /\
            f_token f = prom_token p /\ f_generation f = prom_generation p.
Proof.
  unfold promote_gateway_client_dispatch_fence. destruct (negb _); [done|].
  destruct (_ <=? _) eqn:Er; [done|]. bools.
  destruct (fences s !! prom_client p) as [f|] eqn:Ef; [|done].
  destruct (promote_exact f p) eqn:Hx; [|done].
  destruct (protected_enqueued_job_ids _ _ _) as [ids s2]. cbn. intros H. bools.
  split; [done|]. exists f. unfold promote_exact in Hx. bools. done.
Qed.

(** A lost owner is never confirmed. *)
Lemma lost_not_confirmed client token generation s now op :
  lost client token generation s -> confirms s now client token generation op = false.
Proof.
  intros Hl. destruct (confirms s now client token generation op) eqn:Hc; [exfalso|done].
  destruct op; cbn in Hc; try done;
    apply andb_prop in Hc as [Ho Hc]; apply bool_decide_and_3 in Ho as (<- & <- & <-);
    (apply prepare_continuous in Hc || apply promote_continuous in Hc);
    destruct Hc as (Hr & f & Hf & Hd & _);
    (destruct Hl as [Hl|(f' & Hf' & Hd' & _)]; [lia|congruence]).
Qed.

Lemma lost_step client token generation s now op ev s' :
  step s now op = (ev, s') -> promotes client token generation op = false ->
  lost client token generation s -> lost client token generation s'.
Proof.
  intros Hs Hp [Hr|(f & Hf & Hd & Hep & Ht & Hg)].
  - left. apply (step_retired _ _ _ _ _ client) in Hs. lia.
  - destruct (step_moves _ _ _ _ _ client Hs) as [([f1 g1] & He & Ha) He'].
    unfold view_of in He. rewrite Hf in He.
    assert (f1 = Some f /\ g1 = generation_of s client) as [-> ->].
    { inversion He as [|? ? ? Hin Hx]; subst; [done|]. unfold lease_expired_at, requires_durable_recheck in *.
      by destruct (f_state f). }
    unfold lost, retired_of. unfold view_of in Ha. rewrite He'.
    remember (fences s' !! client) as f'. remember (generation_of s' client) as g'.
    inversion Ha; subst; rewrite ?Hep, ?Z.eqb_refl; cbn;
      try (right; by exists f);
      try (left; lia).
    + unfold is_prepared, requires_durable_recheck in *. by destruct (f_state f).
    + congruence.
Qed.

(** No dispatch passes a lease. *)
Lemma prepared_no_enqueue s now op ev s' client f :
  step s now op = (ev, s') -> fences s !! client = Some f -> is_prepared f = true ->
  enqueues client ev = false.
Proof.
  intros Hs Hf Hprep.
  destruct op; cbn in Hs; try (destruct (_ : _ * _); by simplify_eq); try (repeat case_match; by simplify_eq).
  destruct (dispatch_gateway_command s deadline now later fresh d) as [r s1] eqn:E. simplify_eq. cbn.
  destruct r; try done. apply bool_decide_eq_false. intros <-.
  unfold dispatch_gateway_command in E. rewrite Hf in E.
  unfold requires_durable_recheck, is_prepared in *. destruct (f_state f); try done.
  repeat case_match; simplify_eq.
Qed.

Lemma live_step client token generation s now op ev s' :
  step s now op = (ev, s') -> promotes client token generation op = false ->
  live client token generation s ->
  enqueues client ev = false /\ (live client token generation s' \/ lost client token generation s').
Proof.
  intros Hs Hp (f & Hf & Hprep & Hep & Ht & Hg). split; [by eapply prepared_no_enqueue|].
  destruct (step_moves _ _ _ _ _ client Hs) as [([f1 g1] & He & Ha) He'].
    unfold view_of in He. rewrite Hf in He. unfold live, lost, retired_of. unfold view_of in Ha.
    rewrite He'.
    remember (fences s' !! client) as f'. remember (generation_of s' client) as g'.
    inversion He as [|t0 f0 g0 Hin Hx]; subst f1 g1.
    + inversion Ha; subst; rewrite ?Hep, ?Z.eqb_refl; cbn;
        try (left; eexists; split; [reflexivity|]; done);
        try (right; left; lia). congruence.
    + subst f0 g0. inversion Ha; subst; cbn [f_epoch set_state]; rewrite ?Hep, ?Z.eqb_refl; cbn;
        try (right; right; eexists; split; [reflexivity|]; done);
        try (right; left; lia); cbn in *; try done. congruence.
Qed.

Lemma run_lost client token generation s ops evs s' :
  run s ops = (evs, s') ->
  (forall now op, In (now, op) ops -> promotes client token generation op = false) ->
  lost client token generation s -> lost client token generation s'.
Proof.
  revert s evs. induction ops as [|[now op] ops IH]; intros s evs H Hp Hl; cbn in H; [by simplify_eq|].
  destruct (step s now op) as [ev s1] eqn:E. destruct (run s1 ops) as [evs' s2] eqn:Er. simplify_eq.
  apply (IH s1 evs' Er); [intros n o Hin; apply (Hp n); by right|].
  eapply lost_step; [exact E|apply (Hp now); by left|done].
Qed.

Lemma run_live client token generation s ops evs s' :
  run s ops = (evs, s') ->
  (forall now op, In (now, op) ops -> promotes client token generation op = false) ->
  live client token generation s ->
  Forall (fun ev => enqueues client ev = false) evs \/ lost client token generation s'.
Proof.
  revert s evs. induction ops as [|[now op] ops IH]; intros s evs H Hp Hl; cbn in H.
  { simplify_eq. left. constructor. }
  destruct (step s now op) as [ev s1] eqn:E. destruct (run s1 ops) as [evs' s2] eqn:Er. simplify_eq.
  assert (Hop : promotes client token generation op = false) by (apply (Hp now); by left).
  assert (Hps : forall n o, In (n, o) ops -> promotes client token generation o = false)
    by (intros n o Hin; apply (Hp n); by right).
  destruct (live_step _ _ _ _ _ _ _ _ E Hop Hl) as [He [Hl1|Hl1]].
  - destruct (IH s1 evs' Er Hps Hl1); [left; by constructor|by right].
  - right. by eapply run_lost.
Qed.

(** C1: a confirmed lease excludes dispatches: from the moment an owner holds a prepared fence on a
    client, if after any interleaving of requests, expiries and maintenance (before it promotes)
    the gateway answers its renewal or promotion with [ownership_continuous], then no command was
    enqueued for the client in between, not even one with a durable recheck. *)
Theorem continuous_ownership_excludes_dispatch s ops evs s' now op client token generation :
  live client token generation s ->
  run s ops = (evs, s') ->
  (forall n o, In (n, o) ops -> promotes client token generation o = false) ->
  confirms s' now client token generation op = true ->
  Forall (fun ev => enqueues client ev = false) evs.
Proof.
  intros Hl Hr Hp Hc. destruct (run_live _ _ _ _ _ _ _ Hr Hp Hl) as [?|Hlost]; [done|].
  rewrite lost_not_confirmed in Hc by done. done.
Qed.


(** * Fences hold *)

Lemma session_supersedes_owner client f f' op :
  fence_owner f = fence_owner f' -> session_supersedes client f op = session_supersedes client f' op.
Proof. intros H. unfold session_supersedes, observed_exact_stable_owner. by rewrite H. Qed.

Lemma fenced_step client s now op ev s' f :
  step s now op = (ev, s') -> released client s op = false -> fences s !! client = Some f ->
  is_Some (fences s' !! client) /\ (enqueues client ev = true -> carries_recheck ev = true).
Proof.
  intros Hs Hc Hf. unfold released in Hc. rewrite Hf in Hc. apply orb_false_elim in Hc as [Hc Hss]. split.
  - destruct (step_moves _ _ _ _ _ client Hs) as [([f1 g1] & He & Ha) _].
    unfold view_of in He, Ha. rewrite Hf in He.
    assert (exists f2, f1 = Some f2 /\ fence_owner f2 = fence_owner f)
      as (f2 & -> & Ho) by (inversion He; subst; by eexists).
    rewrite <- (session_supersedes_owner client f2 f) in Hss by done. injection Ho as Ht2 _ Hg2.
    remember (fences s' !! client) as f'. remember (generation_of s' client) as g'.
    inversion Ha; subst; try (by eexists); congruence.
  - intros Hq. destruct op; cbn in Hs; try (destruct (_ : _ * _); by simplify_eq);
      try (repeat case_match; by simplify_eq).
    destruct (dispatch_gateway_command s deadline now later fresh d) as [r s1] eqn:E. simplify_eq.
    cbn in Hq. destruct r; try done. apply bool_decide_eq_true in Hq as <-.
    unfold dispatch_gateway_command in E. rewrite Hf in E. cbn. apply bool_decide_eq_true.
    repeat case_match; simplify_eq. bools. by eexists.
Qed.

(** C9: a fence holds until it is released: once a client is fenced, in every interleaving in which
    neither the owner of the fence of the moment clears it nor a session accepted for that very owner
    supersedes it - leases may expire, owners may be replaced - the client stays fenced, and every command enqueued for it carried a durable
    lifecycle recheck. *)
Theorem fence_holds s ops evs s' client :
  is_Some (fences s !! client) -> run s ops = (evs, s') -> never_released client s ops ->
  is_Some (fences s' !! client) /\
  Forall (fun ev => enqueues client ev = true -> carries_recheck ev = true) evs.
Proof.
  revert s evs. induction ops as [|[now op] ops IH]; intros s evs [f Hf] H Hn; cbn in H, Hn.
  { simplify_eq. split; [by eexists|constructor]. }
  destruct (step s now op) as [ev s1] eqn:E. destruct (run s1 ops) as [evs' s2] eqn:Er. simplify_eq.
  destruct Hn as [Hc Hn]. destruct (fenced_step _ _ _ _ _ _ _ E Hc Hf) as [Hf1 He].
  destruct (IH s1 evs' Hf1 Er Hn) as [Hf' Hes]. split; [done|by constructor].
Qed.

(** * A deletion lease *)

Lemma deletion_lease_step s now op ev s' client f until fallback :
  step s now op = (ev, s') -> fences s !! client = Some f ->
  f_state f = Prepared until fallback -> f_purpose f = Deletion -> Forall (fun t => t < until) (readings now op) ->
  acts_as client (f_token f) (f_generation f) op = false ->
  fences s' !! client = Some f.
Proof.
  intros Hs Hf Hst Hp Hnow Hact. destruct (step_moves _ _ _ _ _ client Hs) as [([f1 g1] & He & Ha) _].
  unfold view_of in He, Ha. rewrite Hf in He.
  assert (f1 = Some f) as ->.
  { inversion He as [|? ? ? Hin Hx]; subst; [done|]. unfold lease_expired_at in Hx. rewrite Hst in Hx. bools.
    rewrite Forall_forall in Hnow. specialize (Hnow _ Hin). lia. }
  remember (fences s' !! client) as f'. remember (generation_of s' client) as g'.
  inversion Ha as [| | | |? ? ? ? ? ? ? ? Hw| ? ? Hpr|? ? ? Hcl|? ? ? Hsu|]; subst; try done; try congruence.
  - exfalso. unfold gives_way, requires_durable_recheck, is_persistent in Hw. rewrite Hst, Hp in Hw.
    naive_solver.
  - exfalso. destruct op; try done. cbn in Hact, Hpr. congruence.
  - exfalso. destruct op; try done. cbn in Hact, Hcl. congruence.
  - exfalso. unfold requires_durable_recheck in Hsu. rewrite Hst, Hp in Hsu. naive_solver.
Qed.

(** A deletion lease is exclusive: while it has not expired, nothing but a request of its own
    owner changes it - neither acquisitions, nor prepares, promotions and clears of other owners,
    nor dispatches, disconnects or maintenance - and no command is enqueued for the client. *)
Theorem deletion_lease_exclusive s ops evs s' client f until fallback :
  fences s !! client = Some f -> f_state f = Prepared until fallback -> f_purpose f = Deletion ->
  run s ops = (evs, s') ->
  Forall (fun '(now, op) => Forall (fun t => t < until) (readings now op) /\
    acts_as client (f_token f) (f_generation f) op = false) ops ->
  fences s' !! client = Some f /\ Forall (fun ev => enqueues client ev = false) evs.
Proof.
  intros Hf Hst Hp. revert s evs Hf. induction ops as [|[now op] ops IH]; intros s evs Hf H Ho; cbn in H.
  { simplify_eq. split; [done|constructor]. }
  destruct (step s now op) as [ev s1] eqn:E. destruct (run s1 ops) as [evs' s2] eqn:Er. simplify_eq.
  apply Forall_cons in Ho as [[Hnow Hact] Hops].
  destruct (IH s1 evs' (deletion_lease_step _ _ _ _ _ _ _ _ _ E Hf Hst Hp Hnow Hact) Er Hops) as [Hf' Hes].
  split; [done|]. constructor; [|done]. eapply prepared_no_enqueue; [exact E|exact Hf|].
  unfold is_prepared. by rewrite Hst.
Qed.

(** * Well-formed ownership *)

Lemma issued_retire g n epoch o : issued (retire g n) epoch o <-> issued g epoch o.
Proof. done. Qed.

Lemma authorized_issued g token generation epoch purpose st :
  0 <= retired_generation g -> authorized g token generation ->
  issued g epoch (fence_owner (mkFence token epoch generation purpose st)).
Proof. intros Hr (<- & Ht & Hg). unfold issued. cbn. repeat split; try lia. done. Qed.

Lemma issued_next g epoch o token purpose supersedes :
  issued g epoch o ->
  issued (mkGeneration (latest_generation g + 1) (Some token) purpose supersedes (retired_generation g))
    epoch o.
Proof. intros (He & Hr & _). unfold issued. cbn. repeat split; lia. Qed.

Lemma moves_ok ts epoch c op v v' : moves ts epoch c op v v' -> view_ok epoch v -> view_ok epoch v'.
Proof.
  intros (v1 & He & Ha) Hv.
  assert (view_ok epoch v1) as Hv1.
  { inversion He as [|? f g]; subst; [done|]. destruct Hv as (Hl & Hr & Hf). cbn in *.
    split; [done|]. split; [done|]. cbn. intros ? [= <-]. by apply (Hf f). }
  clear He Hv. destruct Hv1 as (Hl & Hr & Hf). unfold view_ok.
  inversion Ha; subst; cbn in *; (split; [repeat case_match; cbn; lia|]);
    (split; [repeat case_match; cbn; lia|]); try done.
  - intros f0 Hf0. destruct (Hf f0 Hf0) as [Ho Hfb]. split; [by apply issued_next|].
    intros fb Hq. by apply issued_next, Hfb.
  - intros ? [= <-]. by apply (Hf f).
  - intros ? [= <-]. split; [apply authorized_issued; done|done].
  - intros ? [= <-]. split; [by apply issued_retire, authorized_issued|]. cbn. intros ? [= <-].
    destruct (Hf f eq_refl) as [Ho _]. exact Ho.
  - intros ? [= <-]. split; [by apply (Hf f)|done].
  - match goal with H : _ \/ _ |- _ => destruct H as [->|(fb & Hfb & ->)] end; [done|].
    intros ? [= <-]. destruct (Hf f eq_refl) as [_ Hq]. split; [by apply (Hq fb)|].
    unfold restored_fence, fence_fallback. cbn. by destruct (fb_requires_durable_recheck fb).
Qed.

Lemma run_ok s ops evs s' :
  run s ops = (evs, s') -> (forall c, view_ok (fence_epoch s) (view_of s c)) ->
  fence_epoch s' = fence_epoch s /\ forall c, view_ok (fence_epoch s) (view_of s' c).
Proof.
  revert s evs. induction ops as [|[now op] ops IH]; intros s evs H Hok; cbn in H; [by simplify_eq|].
  destruct (step s now op) as [ev s1] eqn:E. destruct (run s1 ops) as [evs' s2] eqn:Er. simplify_eq.
  assert (He : fence_epoch s1 = fence_epoch s) by apply (step_moves _ _ _ _ _ [] E).
  destruct (IH s1 evs' Er) as [He' Hok']; [|rewrite He in *; done].
  intros c. rewrite He. destruct (step_moves _ _ _ _ _ c E) as [Hm _]. by eapply moves_ok.
Qed.

Lemma initial_view_ok epoch c : view_ok epoch (view_of (initial epoch) c).
Proof.
  unfold view_ok, view_of, generation_of. cbn. rewrite !lookup_empty. cbn.
  split; [unfold u64_max; lia|]. done.
Qed.

(** Ownership is well formed in every state a gateway process reaches: the fence of a client and
    the fallback it would restore both belong to this process's epoch and to a generation the
    process issued, the latest generation belongs only to the token it was issued to, and the
    generation counter stays in 64 bits. *)
Theorem reachable_fences_issued epoch ops evs s' client :
  run (initial epoch) ops = (evs, s') ->
  fence_epoch s' = epoch /\ view_ok epoch (view_of s' client).
Proof.
  intros H. destruct (run_ok _ _ _ _ H) as [He Hok]; [|by split; [|apply Hok]].
  apply initial_view_ok.
Qed.

(** * Sessions and leases *)

Lemma moves_past_lease ts epoch c op o v v' :
  owner_epoch o = epoch -> moves ts epoch c op v v' -> past_lease o v -> past_lease o v'.
Proof.
  intros Hep (v1 & He & Ha) Hv.
  assert (past_lease o v1) as Hv1.
  { inversion He as [|t f g Hin Hx]; subst; [done|]. destruct Hv as [Hr|(? & [= <-] & Ho & Hp)]; [by left|].
    right. eexists. split; [reflexivity|]. by split. }
  clear He Hv. destruct Hv1 as [Hr|(f & Hf & Ho & Hp)].
  { left. inversion Ha; subst; cbn in *; repeat case_match; cbn; lia. }
  unfold past_lease. inversion Ha; subst; cbn in *; simplify_eq; rewrite ?Z.eqb_refl;
    try (right; by eexists); try (left; cbn; lia); congruence.
Qed.

Lemma run_past_lease s ops evs s' client o :
  run s ops = (evs, s') -> owner_epoch o = fence_epoch s ->
  past_lease o (view_of s client) -> past_lease o (view_of s' client).
Proof.
  revert s evs. induction ops as [|[now op] ops IH]; intros s evs H Hep Hl; cbn in H; [by simplify_eq|].
  destruct (step s now op) as [ev s1] eqn:E. destruct (run s1 ops) as [evs' s2] eqn:Er. simplify_eq.
  destruct (step_moves _ _ _ _ _ client E) as [Hm He].
  apply (IH s1 evs' Er); [congruence|]. by eapply moves_past_lease.
Qed.

(** A fence observed past its lease is not the owner of a lease that can still be renewed. *)
Lemma observed_not_lease s ops evs s' client f :
  (forall c, view_ok (fence_epoch s) (view_of s c)) -> run s ops = (evs, s') ->
  fences s' !! client = Some f -> is_prepared f = true -> retired_of s' client < f_generation f ->
  observed_exact_stable_owner (snapshot_client_dispatch_fence s client) f = false.
Proof.
  intros Hok Hr Hf Hp Hret. unfold observed_exact_stable_owner, snapshot_client_dispatch_fence.
  destruct (fences s !! client) as [o|] eqn:Eo; [|done].
  apply not_true_is_false. intros Hb. apply andb_prop in Hb as [Ho Hst]. bools.
  destruct (Hok client) as (_ & _ & Hfs). destruct (Hfs o Eo) as [(Hep & _) _].
  destruct (run_past_lease _ _ _ _ client (fence_owner o) Hr Hep) as [Hl|(f' & Hf' & Ho' & Hp')].
  - right. by exists o.
  - rewrite Ho in Hl. unfold view_of, retired_of in *. cbn in *. lia.
  - unfold view_of in Hf'. cbn in Hf'. congruence.
Qed.

(** A connection cannot open a client that is being suspended or deleted: when a lease that its
    owner can still renew or promote is in place, a hello or telemetry that the API accepted on
    what the connection had observed at any earlier moment neither removes the lease nor, for a
    hello, registers the session; the session is told to close. *)
Theorem accepted_session_keeps_leases epoch ops0 evs0 s0 ops evs s now client f until fallback session :
  run (initial epoch) ops0 = (evs0, s0) -> run s0 ops = (evs, s) ->
  fences s !! client = Some f -> f_state f = Prepared until fallback -> now < until ->
  retired_of s client < f_generation f ->
  (exists s', register_session_after_accepted_hello s now client session
                (snapshot_client_dispatch_fence s0 client)
              = (false, Some (session_id session, Graceful (lit "client_lifecycle_fenced")), s') /\
     fences s' !! client = Some f /\ sessions s' = sessions s) /\
  forall s', snd (refresh_client_route_after_committed_telemetry s client (session_id session)
                    (snapshot_stable_suspension_route_owner s0 client)) = s' ->
    fences s' !! client = Some f.
Proof.
  intros H0 Hr Hf Hst Hnow Hret.
  destruct (run_ok _ _ _ _ H0 (initial_view_ok epoch)) as [He0 Hok]. cbn in He0, Hok.
  assert (Hp : is_prepared f = true) by (unfold is_prepared; by rewrite Hst).
  rewrite <- He0 in Hok. pose proof (observed_not_lease _ _ _ _ _ _ Hok Hr Hf Hp Hret) as Hobs.
  assert (Hx : lease_expired_at f now = false)
    by (unfold lease_expired_at; rewrite Hst; by apply Z.leb_gt).
  split.
  - unfold register_session_after_accepted_hello, accepted_hello_owns_current_fence.
    cbn [fences set_fences]. rewrite normalize_same, Hf. cbn [option_map]. rewrite Hx, Hobs.
    assert (Hn : fences (set_fences s (normalize_expired_dispatch_fence (fences s) client now)) !! client
                 = Some f) by (cbn [fences set_fences]; by rewrite normalize_same, Hf; cbn; rewrite Hx).
    destruct (f_purpose f); eexists; (split; [reflexivity|]); by split.
  - intros s' <-. unfold refresh_client_route_after_committed_telemetry, stable_suspension.
    rewrite Hf, Hp, andb_false_r. by repeat case_match.
Qed.

(** * What an accepted prepare reports *)

Lemma protected_spec s client now ids s' :
  protected_enqueued_job_ids s client now = (ids, s') ->
  Sorted Z.le ids /\ NoDup ids /\ forall job, job ∈ ids <-> job_in_flight s client now job.
Proof.
  unfold protected_enqueued_job_ids, job_in_flight. intros H.
  destruct (command_enqueues s !! client) as [markers|]; injection H as <- _.
  2: { split; [constructor|]. split; [constructor|]. intros job. split; [by intros ?%elem_of_nil|].
       intros (? & ? & ? & _). done. }
  split; [apply (Sorted_merge_sort Z.le)|]. rewrite (merge_sort_Permutation Z.le).
  split; [apply NoDup_fst_map_to_list|]. intros job.
  rewrite (merge_sort_Permutation Z.le), list_elem_of_fmap. split.
  - intros ([j marker] & -> & Hin). apply elem_of_map_to_list, map_lookup_filter_Some in Hin as [Hin Hnow].
    bools. by exists markers, marker.
  - intros (? & marker & [= <-] & Hm & Hnow). exists (job, marker). split; [done|].
    apply elem_of_map_to_list, map_lookup_filter_Some. split; [done|]. by apply Z.ltb_lt.
Qed.

Lemma reports_intro s s1 now later t p f ids s' continuous message :
  protected_enqueued_job_ids s1 (prep_client p) t = (ids, s') -> t = now \/ t = later ->
  command_enqueues s1 = command_enqueues s -> fences s1 !! prep_client p = Some f ->
  fence_owner f = mkOwner (prep_token p) (fence_epoch s) (prep_generation p) ->
  f_purpose f = prep_purpose p ->
  reports s now later p (mkResult (prep_client p) true true continuous message ids) s'.
Proof.
  intros Hp Ht Hq Hf Ho Hpu. pose proof (protected_frame _ _ _ _ _ Hp) as (Hf' & _).
  apply protected_spec in Hp. unfold job_in_flight in Hp. rewrite Hq in Hp.
  destruct Hp as (Hs & Hn & Hj).
  split; [exists f; by rewrite Hf'|]. split; [done|]. split; [done|]. by exists t.
Qed.

Lemma prepare_reports s now later p r s' :
  prepare_gateway_client_dispatch_fence s now later p = (r, s') -> r_accepted r = true -> reports s now later p r s'.
Proof.
  unfold prepare_gateway_client_dispatch_fence. intros H Hacc.
  destruct (prep_epoch p =? fence_epoch s) eqn:He; cbn [negb] in H; [|by simplify_eq]. bools.
  set (s1 := set_fences s _) in *. assert (Hq : command_enqueues s1 = command_enqueues s) by done.
  assert (He1 : fence_epoch s1 = fence_epoch s) by done.
  clearbody s1. destruct (fences s1 !! prep_client p) as [f|] eqn:Ef.
  - destruct (same_owner f p) eqn:Ho.
    + apply same_owner_spec in Ho as (Ht & Hep & Hg & Hpu). unfold prepare_same_owner in H.
      destruct (_ <=? _); [by simplify_eq|].
      destruct (protected_enqueued_job_ids _ _ _) as [ids s2] eqn:Ep. injection H as <- <-.
      destruct (is_prepared f).
      * eapply reports_intro; [exact Ep|tauto|done|apply lookup_insert_eq|
        unfold fence_owner; cbn; congruence|done].
      * eapply reports_intro; [exact Ep|tauto|done|exact Ef|unfold fence_owner; congruence|done].
    + unfold prepare_other_owner in H. destruct (prep_renewal p); [by simplify_eq|].
      destruct (negb (initial_authorized _ p)); [by simplify_eq|].
      match type of H with context [if ?b then _ else _] => destruct b end; [|by simplify_eq].
      destruct (protected_enqueued_job_ids _ _ _) as [ids s2] eqn:Ep. injection H as <- <-.
      eapply reports_intro; [exact Ep|tauto|by rewrite retire_enqueues|
        rewrite retire_fences; apply lookup_insert_eq|
        unfold fence_owner; cbn; congruence|done].
  - match type of H with context [if ?b then _ else _] => destruct b end; [by simplify_eq|].
    destruct (protected_enqueued_job_ids _ _ _) as [ids s2] eqn:Ep. injection H as <- <-.
    eapply reports_intro; [exact Ep|tauto|done|apply lookup_insert_eq|
        unfold fence_owner; cbn; congruence|done].
Qed.

(** An accepted prepare installs or keeps the caller's fence and reports exactly the commands in
    flight: afterwards the client's fence belongs to the caller, and the reported job ids are, sorted
    and without repetition, those whose enqueue marker had not expired at one of the handler's two
    clock readings. *)
Theorem accepted_prepare_reports_in_flight s now later p r s' :
  prepare_gateway_client_dispatch_fence s now later p = (r, s') -> r_accepted r = true ->
  (exists f, fences s' !! prep_client p = Some f /\
     fence_owner f = mkOwner (prep_token p) (fence_epoch s) (prep_generation p) /\
     f_purpose f = prep_purpose p) /\
  Sorted Z.le (r_enqueued_job_ids r) /\ NoDup (r_enqueued_job_ids r) /\
  exists t, (t = now \/ t = later) /\
    forall job, job ∈ r_enqueued_job_ids r <-> job_in_flight s (prep_client p) t job.
Proof. apply prepare_reports. Qed.


(** * Witnesses *)

Lemma retired_generation_never_accepted_witness :
  retired_of (snd (step ex_leased 2 ex_clear)) ex_client = 1 /\
  r_accepted (fst (prepare_gateway_client_dispatch_fence
    (snd (run (snd (step ex_leased 2 ex_clear)) ex_interference)) 9 9
    (ex_prepare Deletion 901 1 false))) = false.
Proof.
  split; [vm_compute; reflexivity|].
  refine (proj1 (retired_generation_never_accepted (snd (step ex_leased 2 ex_clear)) ex_interference
           (fst (run (snd (step ex_leased 2 ex_clear)) ex_interference))
           (snd (run (snd (step ex_leased 2 ex_clear)) ex_interference)) ex_client 9 9 _)
           (ex_prepare Deletion 901 1 false) _ _);
    [apply surjective_pairing|reflexivity|vm_compute; discriminate].
Defined.

Lemma continuous_ownership_excludes_dispatch_witness :
  confirms (snd (run ex_leased ex_interference)) 9 ex_client 901 1
    (OpPrepare 9 (ex_prepare Deletion 901 1 true)) = true /\
  Forall (fun ev => enqueues ex_client ev = false) (fst (run ex_leased ex_interference)).
Proof.
  split; [vm_compute; reflexivity|].
  apply (continuous_ownership_excludes_dispatch ex_leased ex_interference _
           (snd (run ex_leased ex_interference)) 9 (OpPrepare 9 (ex_prepare Deletion 901 1 true))
           ex_client 901 1).
  - exists ex_lease. repeat split; vm_compute; reflexivity.
  - apply surjective_pairing.
  - intros n o Hin. cbn in Hin. repeat (destruct Hin as [[= <- <-]|Hin]; [reflexivity|]). destruct Hin.
  - vm_compute; reflexivity.
Defined.

Lemma fence_holds_witness :
  is_Some (fences (snd (run ex_leased ex_interference)) !! ex_client) /\
  Forall (fun ev => enqueues ex_client ev = true -> carries_recheck ev = true)
    (fst (run ex_leased ex_interference)).
Proof.
  apply (fence_holds ex_leased ex_interference); [|apply surjective_pairing|].
  - exists ex_lease. vm_compute; reflexivity.
  - repeat split; vm_compute; reflexivity.
Defined.

Lemma deletion_lease_exclusive_witness :
  fences (snd (run ex_leased ex_interference)) !! ex_client = Some ex_lease /\
  Forall (fun ev => enqueues ex_client ev = false) (fst (run ex_leased ex_interference)).
Proof.
  apply (deletion_lease_exclusive ex_leased ex_interference _ _ ex_client ex_lease 60000000001 None);
    [vm_compute; reflexivity|reflexivity|reflexivity|apply surjective_pairing|].
  repeat constructor.
Defined.

Lemma reachable_fences_issued_witness :
  fence_epoch (snd (run (initial 5) ex_interference)) = 5 /\
  view_ok 5 (view_of (snd (run (initial 5) ex_interference)) ex_client).
Proof.
  apply (reachable_fences_issued 5 ex_interference (fst (run (initial 5) ex_interference))).
  apply surjective_pairing.
Defined.

Lemma accepted_prepare_reports_in_flight_witness :
  r_enqueued_job_ids (fst (prepare_gateway_client_dispatch_fence ex_online 1 1
    (ex_prepare Deletion 901 1 false))) = [77] /\
  exists t, (t = 1 \/ t = 1) /\ forall job,
    job ∈ r_enqueued_job_ids (fst (prepare_gateway_client_dispatch_fence ex_online 1 1
      (ex_prepare Deletion 901 1 false))) <-> job_in_flight ex_online ex_client t job.
Proof.
  split; [vm_compute; reflexivity|].
  refine (proj2 (proj2 (proj2 (accepted_prepare_reports_in_flight ex_online 1 1
           (ex_prepare Deletion 901 1 false)
           (fst (prepare_gateway_client_dispatch_fence ex_online 1 1 (ex_prepare Deletion 901 1 false)))
           (snd (prepare_gateway_client_dispatch_fence ex_online 1 1 (ex_prepare Deletion 901 1 false)))
           _ _))));
    [apply surjective_pairing|vm_compute; reflexivity].
Defined.

Lemma accepted_session_keeps_leases_witness :
  snapshot_client_dispatch_fence ex_suspended ex_client
    = Some (mkFence 901 5 1 Suspension Persistent) /\
  fst (fst (register_session_after_accepted_hello ex_unsuspending 6 ex_client (mkSession 32 11)
    (snapshot_client_dispatch_fence ex_suspended ex_client))) = false.
Proof.
  split; [vm_compute; reflexivity|].
  destruct (accepted_session_keeps_leases 5 ex_suspend (fst (run (initial 5) ex_suspend)) ex_suspended
    ex_unsuspend (fst (run ex_suspended ex_unsuspend)) ex_unsuspending 6 ex_client
    (mkFence 902 5 2 Suspension (Prepared 60000000005 (Some (mkFallback 901 5 1 Suspension true))))
    60000000005 (Some (mkFallback 901 5 1 Suspension true)) (mkSession 32 11)) as [(s' & H & _) _].
  - apply surjective_pairing.
  - apply surjective_pairing.
  - vm_compute; reflexivity.
  - reflexivity.
  - reflexivity.
  - vm_compute; reflexivity.
  - rewrite H. reflexivity.
Defined.
