(* ===== verification/GatewaySessions.v ===== *)
(** Agent connections of the gateway: crates/gateway/src/main.rs (the connection
    loop, the frames of an agent, hello, the end of a connection) and the pending
    commands of crates/gateway/src/runtime/state.rs, on top of the session registry
    and the fences of [GatewayFence].

    A connection owns a command queue, a close channel and the maps of requests
    that wait for the agent's answer.  A request names its response channel by a
    number the gateway gives out once; answering is a pair in [cn_replies].  The
    loop's arms, a hello in its three parts (before the API is asked, when it has
    answered, the reply) and the two parts of the connection's end are the
    transitions; any arm whose guard holds may run, of which the loop's fixed
    priority is one choice.  What the API client and the stream answer is an input
    ([Io]); a frame arrives decoded, or with the error of its decoding. *)

From stdpp Require Import gmap.
From S2P Require Import Prelude RustStd Frame JobCommands CommandLedger AgentCommands GatewayFence.

Open Scope Z_scope.

(** * Pending commands *)

Definition MAX_RETAINED_COMMAND_OUTPUTS : Z := 256.
Definition MAX_RETAINED_COMMAND_OUTPUT_BYTES : Z := 1024 * 1024.
Definition SESSION_COMMAND_QUEUE_CAPACITY : Z := 1024.

(** [GatewayCommandDispatchResult]. *)
Record DispatchResult := mkDispatchResult {
  dres_client_id : str;
  dres_job_id : Z;
  dres_command_version : Z;
  dres_accepted : bool;
  dres_message : str;
  dres_outputs : list CommandLedger.CommandOutput;
}.

(** [GatewayCommandCancelResult]. *)
Record CancelResult := mkCancelResult {
  cres_client_id : str;
  cres_job_id : Z;
  cres_acked : bool;
  cres_accepted : bool;
  cres_applied : bool;
  cres_message : str;
}.

Record PendingCommand := mkPendingCommand {
  pc_client_id : str;
  pc_job_id : Z;
  pc_command_version : Z;
  pc_payload_hash : str;
  pc_ack : option JobAck;
  pc_outputs : list CommandLedger.CommandOutput;
  pc_response : option Z;
}.

Definition retained_output_bytes (outputs : list CommandLedger.CommandOutput) : Z :=
  foldr (fun output n => saturating_add u64_max (vec_len (co_data output)) 64 + n) 0 outputs.

Definition over_retention (outputs : list CommandLedger.CommandOutput) : bool :=
  (MAX_RETAINED_COMMAND_OUTPUTS <? vec_len outputs)
  || (MAX_RETAINED_COMMAND_OUTPUT_BYTES <? retained_output_bytes outputs).

(** The loop that removes the oldest outputs; how many it removed. *)
Fixpoint drop_retained (outputs : list CommandLedger.CommandOutput) :
  list CommandLedger.CommandOutput * Z :=
  match outputs with
  | [] => ([], 0)
  | _ :: rest =>
      if over_retention outputs then
        let '(kept, dropped) := drop_retained rest in (kept, saturating_add u64_max dropped 1)
      else (outputs, 0)
  end.

Definition with_outputs (outputs : list CommandLedger.CommandOutput) (p : PendingCommand) : PendingCommand :=
  mkPendingCommand (pc_client_id p) (pc_job_id p) (pc_command_version p) (pc_payload_hash p) (pc_ack p)
    outputs (pc_response p).

Definition retain_output_if_response_waiting (p : PendingCommand) (output : CommandLedger.CommandOutput) :
  Z * PendingCommand :=
  match pc_response p with
  | None => (0, p)
  | Some _ =>
      let '(kept, dropped) := drop_retained (pc_outputs p ++ [output]) in (dropped, with_outputs kept p)
  end.

(** The answer sent, if anyone still waits; the pending command keeps neither
    acknowledgement, nor outputs it sent, nor the response channel. *)
Definition finish_pending_command_response (p : PendingCommand) (ack_override : option JobAck)
    (outputs_override : list CommandLedger.CommandOutput) : option (Z * DispatchResult) * PendingCommand :=
  let ack :=
    default (mkAck (pc_job_id p) false (lit "command completed without ack"))
      (match ack_override with Some ack => Some ack | None => pc_ack p end) in
  let outputs := if is_empty outputs_override then pc_outputs p else outputs_override in
  let kept := if is_empty outputs_override then [] else pc_outputs p in
  (option_map (fun response =>
     (response, mkDispatchResult (pc_client_id p) (pc_job_id p) (pc_command_version p)
                  (ack_accepted ack) (ack_message ack) outputs)) (pc_response p),
   mkPendingCommand (pc_client_id p) (pc_job_id p) (pc_command_version p) (pc_payload_hash p)
     None kept None).

Definition cancel_ack_result (client_id : str) (ack : JobCancelAck) : CancelResult :=
  mkCancelResult client_id (cack_job_id ack) true (cack_accepted ack) (cack_applied ack) (cack_message ack).

(** * Terminal control *)

Inductive TerminalControlAction :=
| TerminalInput (data_base64 : str)
| TerminalResize (cols rows : Z)
| TerminalClose (reason : option str).

Definition terminal_action_kind (action : TerminalControlAction) : str :=
  match action with
  | TerminalInput _ => lit "input"
  | TerminalResize _ _ => lit "resize"
  | TerminalClose _ => lit "close"
  end.

Record TerminalControlRequest := mkTerminalRequest {
  tr_request_id : Z;
  tr_session_id : Z;
  tr_action : TerminalControlAction;
}.

Record TerminalControlAck := mkTerminalAck {
  ta_request_id : Z;
  ta_session_id : Z;
  ta_action : str;
  ta_accepted : bool;
  ta_status : str;
  ta_message : str;
  ta_input_seq : option Z;
  ta_written_bytes : option Z;
  ta_cols : option Z;
  ta_rows : option Z;
}.

(** The refusals the gateway itself answers. *)
Definition terminal_rejected (request : TerminalControlRequest) (message : string) : TerminalControlAck :=
  mkTerminalAck (tr_request_id request) (tr_session_id request) (terminal_action_kind (tr_action request))
    false (lit "rejected") (lit message) None None None None.

(** The agent's acknowledgement, or a refusal when it speaks of another
    terminal or action. *)
Definition terminal_ack_reply (request : TerminalControlRequest) (ack : TerminalControlAck) :
  TerminalControlAck :=
  if (ta_session_id ack =? tr_session_id request)
     && str_eqb (ta_action ack) (terminal_action_kind (tr_action request))
  then ack else terminal_rejected request "terminal_control_ack_binding_mismatch".

(** * Connections *)

(** [GatewaySessionMessage]; the last argument is the response channel. *)
Inductive SessionMessage :=
| MsgCommand (request : JobRequest) (payload_hash : str) (response : Z)
| MsgCancel (request : JobCancelRequest) (response : Z)
| MsgTerminal (request : TerminalControlRequest) (response : Z).

Inductive Reply :=
| ReplyCommand (r : DispatchResult)
| ReplyCancel (r : CancelResult)
| ReplyTerminal (r : TerminalControlAck).

(** The payloads the gateway writes to the agent. *)
Inductive GatewayPayload :=
| PCommand (request : JobRequest)
| PCancel (request : JobCancelRequest)
| PTerminal (request : TerminalControlRequest)
| PDisconnect (reason : str)
| PServerHello (server_id server_version : str) (server_build_number : Z) (accepted : bool)
    (message : str) (telemetry_interval_secs : Z)
| PUpdateResult (job_id : Z) (approved : bool) (message : str).

Record GatewayFrame := mkGatewayFrame {
  gf_kind : MessageKind;
  gf_stream_id : Z;
  gf_seq : Z;
  gf_payload : GatewayPayload;
}.

(** [GatewayCommandOutputIngest]. *)
Record CommandOutputIngest := mkOutputIngest {
  oi_gateway_id : str;
  oi_gateway_session_id : Z;
  oi_process_incarnation_id : Z;
  oi_spooled_replay : bool;
  oi_client_id : str;
  oi_job_id : Z;
  oi_payload_hash : str;
  oi_seq : Z;
  oi_received_unix : option Z;
  oi_output : CommandLedger.CommandOutput;
}.

(** What a connection hands to the API client. *)
Inductive Post :=
| PostOutput (target : str) (ingest : CommandOutputIngest)
| PostTelemetry (target : str) (session incarnation seq : Z) (observed_owner : option FenceOwner)
| PostReload (target : str) (session incarnation : Z) (request : AgentRuntimeConfigReloadRequest)
| PostTerminalOutput (target : str) (session incarnation : Z) (output : list Z)
| PostSessionEnded (target : str) (session : Z) (reason : option str).

(** The fields of [AgentHello] the gateway itself reads. *)
Record AgentHello := mkHello { hello_client_id : str; hello_incarnation : Z }.

(** Where the handling of a hello stands while it waits for the API. *)
Inductive HelloPhase :=
| HelloAsked (seq : Z) (hello : AgentHello) (observed : option DispatchFence)
| HelloRegistered (seq : Z) (client : str).

(** The local variables of [handle_agent] and the channels it reads, with what
    it wrote, answered and posted so far. *)
Record Connection := mkConnection {
  cn_session_id : Z;
  cn_noise_public_key : option str;
  cn_client_id : option str;
  cn_incarnation : option Z;
  cn_hello : option HelloPhase;
  cn_queue : list SessionMessage;
  cn_close : option CloseRequest;
  cn_close_changed : bool;
  cn_outbound_seq : Z;
  cn_pending : gmap Z PendingCommand;
  cn_cancels : gmap Z Z;
  cn_terminals : gmap Z (TerminalControlRequest * Z);
  cn_disconnect_reason : option str;
  cn_ended : option str;
  cn_finalized : bool;
  cn_offline_due : bool;
  cn_sent : list GatewayFrame;
  cn_replies : list (Z * Reply);
  cn_posts : list Post;
  cn_truncated : Z;
}.

Definition new_connection (session : Z) (noise_public_key : option str) : Connection :=
  mkConnection session noise_public_key None None None [] None false 2 ∅ ∅ ∅ None None false false [] [] [] 0.

Definition set_identity (client : str) (incarnation : Z) (c : Connection) : Connection :=
  mkConnection (cn_session_id c) (cn_noise_public_key c) (Some client) (Some incarnation) (cn_hello c)
    (cn_queue c) (cn_close c) (cn_close_changed c) (cn_outbound_seq c) (cn_pending c) (cn_cancels c)
    (cn_terminals c) (cn_disconnect_reason c) (cn_ended c) (cn_finalized c) (cn_offline_due c) (cn_sent c)
    (cn_replies c) (cn_posts c) (cn_truncated c).
Definition set_hello (h : option HelloPhase) (c : Connection) : Connection :=
  mkConnection (cn_session_id c) (cn_noise_public_key c) (cn_client_id c) (cn_incarnation c) h
    (cn_queue c) (cn_close c) (cn_close_changed c) (cn_outbound_seq c) (cn_pending c) (cn_cancels c)
    (cn_terminals c) (cn_disconnect_reason c) (cn_ended c) (cn_finalized c) (cn_offline_due c) (cn_sent c)
    (cn_replies c) (cn_posts c) (cn_truncated c).
Definition set_queue (queue : list SessionMessage) (c : Connection) : Connection :=
  mkConnection (cn_session_id c) (cn_noise_public_key c) (cn_client_id c) (cn_incarnation c) (cn_hello c)
    queue (cn_close c) (cn_close_changed c) (cn_outbound_seq c) (cn_pending c) (cn_cancels c)
    (cn_terminals c) (cn_disconnect_reason c) (cn_ended c) (cn_finalized c) (cn_offline_due c) (cn_sent c)
    (cn_replies c) (cn_posts c) (cn_truncated c).
Definition set_close (close : option CloseRequest) (changed : bool) (c : Connection) : Connection :=
  mkConnection (cn_session_id c) (cn_noise_public_key c) (cn_client_id c) (cn_incarnation c) (cn_hello c)
    (cn_queue c) close changed (cn_outbound_seq c) (cn_pending c) (cn_cancels c)
    (cn_terminals c) (cn_disconnect_reason c) (cn_ended c) (cn_finalized c) (cn_offline_due c) (cn_sent c)
    (cn_replies c) (cn_posts c) (cn_truncated c).
Definition set_pending (pending : gmap Z PendingCommand) (c : Connection) : Connection :=
  mkConnection (cn_session_id c) (cn_noise_public_key c) (cn_client_id c) (cn_incarnation c) (cn_hello c)
    (cn_queue c) (cn_close c) (cn_close_changed c) (cn_outbound_seq c) pending (cn_cancels c)
    (cn_terminals c) (cn_disconnect_reason c) (cn_ended c) (cn_finalized c) (cn_offline_due c) (cn_sent c)
    (cn_replies c) (cn_posts c) (cn_truncated c).
Definition set_cancels (cancels : gmap Z Z) (c : Connection) : Connection :=
  mkConnection (cn_session_id c) (cn_noise_public_key c) (cn_client_id c) (cn_incarnation c) (cn_hello c)
    (cn_queue c) (cn_close c) (cn_close_changed c) (cn_outbound_seq c) (cn_pending c) cancels
    (cn_terminals c) (cn_disconnect_reason c) (cn_ended c) (cn_finalized c) (cn_offline_due c) (cn_sent c)
    (cn_replies c) (cn_posts c) (cn_truncated c).
Definition set_terminals (terminals : gmap Z (TerminalControlRequest * Z)) (c : Connection) : Connection :=
  mkConnection (cn_session_id c) (cn_noise_public_key c) (cn_client_id c) (cn_incarnation c) (cn_hello c)
    (cn_queue c) (cn_close c) (cn_close_changed c) (cn_outbound_seq c) (cn_pending c) (cn_cancels c)
    terminals (cn_disconnect_reason c) (cn_ended c) (cn_finalized c) (cn_offline_due c) (cn_sent c)
    (cn_replies c) (cn_posts c) (cn_truncated c).
Definition set_disconnect_reason (reason : option str) (c : Connection) : Connection :=
  mkConnection (cn_session_id c) (cn_noise_public_key c) (cn_client_id c) (cn_incarnation c) (cn_hello c)
    (cn_queue c) (cn_close c) (cn_close_changed c) (cn_outbound_seq c) (cn_pending c) (cn_cancels c)
    (cn_terminals c) reason (cn_ended c) (cn_finalized c) (cn_offline_due c) (cn_sent c)
    (cn_replies c) (cn_posts c) (cn_truncated c).
Definition set_finalized (finalized offline_due : bool) (c : Connection) : Connection :=
  mkConnection (cn_session_id c) (cn_noise_public_key c) (cn_client_id c) (cn_incarnation c) (cn_hello c)
    (cn_queue c) (cn_close c) (cn_close_changed c) (cn_outbound_seq c) (cn_pending c) (cn_cancels c)
    (cn_terminals c) (cn_disconnect_reason c) (cn_ended c) finalized offline_due (cn_sent c)
    (cn_replies c) (cn_posts c) (cn_truncated c).
Definition add_sent (frame : GatewayFrame) (next : Z) (c : Connection) : Connection :=
  mkConnection (cn_session_id c) (cn_noise_public_key c) (cn_client_id c) (cn_incarnation c) (cn_hello c)
    (cn_queue c) (cn_close c) (cn_close_changed c) next (cn_pending c) (cn_cancels c)
    (cn_terminals c) (cn_disconnect_reason c) (cn_ended c) (cn_finalized c) (cn_offline_due c)
    (cn_sent c ++ [frame]) (cn_replies c) (cn_posts c) (cn_truncated c).
Definition add_reply (response : Z) (reply : Reply) (c : Connection) : Connection :=
  mkConnection (cn_session_id c) (cn_noise_public_key c) (cn_client_id c) (cn_incarnation c) (cn_hello c)
    (cn_queue c) (cn_close c) (cn_close_changed c) (cn_outbound_seq c) (cn_pending c) (cn_cancels c)
    (cn_terminals c) (cn_disconnect_reason c) (cn_ended c) (cn_finalized c) (cn_offline_due c) (cn_sent c)
    (cn_replies c ++ [(response, reply)]) (cn_posts c) (cn_truncated c).
Definition add_post (post : Post) (c : Connection) : Connection :=
  mkConnection (cn_session_id c) (cn_noise_public_key c) (cn_client_id c) (cn_incarnation c) (cn_hello c)
    (cn_queue c) (cn_close c) (cn_close_changed c) (cn_outbound_seq c) (cn_pending c) (cn_cancels c)
    (cn_terminals c) (cn_disconnect_reason c) (cn_ended c) (cn_finalized c) (cn_offline_due c) (cn_sent c)
    (cn_replies c) (cn_posts c ++ [post]) (cn_truncated c).
Definition add_truncated (n : Z) (c : Connection) : Connection :=
  mkConnection (cn_session_id c) (cn_noise_public_key c) (cn_client_id c) (cn_incarnation c) (cn_hello c)
    (cn_queue c) (cn_close c) (cn_close_changed c) (cn_outbound_seq c) (cn_pending c) (cn_cancels c)
    (cn_terminals c) (cn_disconnect_reason c) (cn_ended c) (cn_finalized c) (cn_offline_due c) (cn_sent c)
    (cn_replies c) (cn_posts c) (cn_truncated c + n).

(** The function returns: its local variables and the receivers it owned go. *)
Definition end_connection (error : str) (c : Connection) : Connection :=
  mkConnection (cn_session_id c) (cn_noise_public_key c) (cn_client_id c) (cn_incarnation c) None
    [] (cn_close c) (cn_close_changed c) (cn_outbound_seq c) ∅ ∅ ∅
    (cn_disconnect_reason c) (Some error) (cn_finalized c) (cn_offline_due c) (cn_sent c)
    (cn_replies c) (cn_posts c) (cn_truncated c).

(** * Input and output *)

(** What the surroundings answer during one transition: the errors of a write to
    the stream and of a post, the wall clock, and the API's verdict on an update. *)
Record Io := mkIo {
  io_write : option str;
  io_post : option str;
  io_unix : Z;
  io_verify : result str (bool * str);
}.

(** The process's configuration and build. *)
Class GatewayEnv := {
  gateway_id : str;
  release_version : str;
  server_build_number : Z;
}.

(** A frame of the connection's own numbering. *)
Definition write_numbered (io : Io) (kind : MessageKind) (stream : Z) (payload : GatewayPayload)
    (c : Connection) : result str unit * Connection :=
  match io_write io with
  | Some e => (Err e, c)
  | None => (Ok tt, add_sent (mkGatewayFrame kind stream (cn_outbound_seq c) payload) (cn_outbound_seq c + 1) c)
  end.

Definition post (io : Io) (p : Post) (c : Connection) : result str unit * Connection :=
  match io_post io with Some e => (Err e, c) | None => (Ok tt, add_post p c) end.

(** ** Frames of the agent *)

Inductive AgentFrame :=
| FrTelemetry (seq : Z) (client : str)
| FrAck (ack : JobAck)
| FrCancelAck (ack : JobCancelAck)
| FrTerminalAck (ack : TerminalControlAck)
| FrResume (resume : AgentCommands.CommandResume)
| FrUpdateVerification (job_id : Z)
| FrReload (request : AgentRuntimeConfigReloadRequest)
| FrOutput (sequenced : SequencedCommandOutput)
| FrTerminalOutput (output : list Z)
| FrIgnored
| FrUndecodable (error : str).

Definition validate_telemetry_session_client_id (authenticated : option str) (telemetry : str) :
  result str unit :=
  match authenticated with
  | None => Err (lit "telemetry_before_hello")
  | Some client => if negb (str_eqb telemetry client) then Err (lit "telemetry_client_id_mismatch") else Ok tt
  end.

Definition handle_ack (ack : JobAck) (c : Connection) : Connection :=
  match cn_pending c !! ack_job_id ack with
  | None => c
  | Some p =>
      let '(answer, p') := finish_pending_command_response p (Some ack) [] in
      let c := match answer with
               | Some (response, r) => add_reply response (ReplyCommand r) c
               | None => c
               end in
      set_pending (if ack_accepted ack then <[ ack_job_id ack := p' ]> (cn_pending c)
                   else delete (pc_job_id p) (<[ ack_job_id ack := p' ]> (cn_pending c))) c
  end.

Definition handle_cancel_ack (ack : JobCancelAck) (c : Connection) : Connection :=
  match cn_cancels c !! cack_job_id ack with
  | None => c
  | Some response =>
      add_reply response (ReplyCancel (cancel_ack_result (default [] (cn_client_id c)) ack))
        (set_cancels (delete (cack_job_id ack) (cn_cancels c)) c)
  end.

Definition handle_terminal_ack (ack : TerminalControlAck) (c : Connection) : Connection :=
  match cn_terminals c !! ta_request_id ack with
  | None => c
  | Some (request, response) =>
      add_reply response (ReplyTerminal (terminal_ack_reply request ack))
        (set_terminals (delete (ta_request_id ack) (cn_terminals c)) c)
  end.

(** A command the agent still runs: the gateway adopts its outputs; nobody waits
    for its acknowledgement unless a caller of this connection does. *)
Definition resumed_command (client : str) (resume : AgentCommands.CommandResume) (old : option PendingCommand) :
  PendingCommand :=
  match old with
  | Some p =>
      mkPendingCommand client (pc_job_id p) (resume_command_version resume) (resume_payload_hash resume)
        (pc_ack p) (pc_outputs p) (pc_response p)
  | None =>
      mkPendingCommand client (resume_job_id resume) (resume_command_version resume)
        (resume_payload_hash resume) (Some (mkAck (resume_job_id resume) true (lit "resumed"))) [] None
  end.

Definition handle_resume (resume : AgentCommands.CommandResume) (c : Connection) : Connection :=
  match cn_client_id c with
  | None => c
  | Some client =>
      set_pending (<[ resume_job_id resume :=
        resumed_command client resume (cn_pending c !! resume_job_id resume) ]> (cn_pending c)) c
  end.

Section Handlers.
Context `{GatewayEnv}.

Definition output_ingest (io : Io) (session incarnation : Z) (p : PendingCommand)
    (sequenced : SequencedCommandOutput) : CommandOutputIngest :=
  mkOutputIngest gateway_id session incarnation false (pc_client_id p) (co_job_id (sq_output sequenced))
    (pc_payload_hash p) (sq_seq sequenced) (Some (io_unix io)) (sq_output sequenced).

(** An output is posted, then kept for the waiting caller; the last one ends the
    pending command. *)
Definition handle_output (io : Io) (sequenced : SequencedCommandOutput) (c : Connection) :
  result str unit * Connection :=
  let output := sq_output sequenced in
  match cn_pending c !! co_job_id output with
  | None => (Ok tt, c)
  | Some p =>
      match cn_incarnation c with
      | None => (Err (lit "command_output_before_hello"), c)
      | Some incarnation =>
          let '(r, c) :=
            post io (PostOutput (pc_client_id p)
                       (output_ingest io (cn_session_id c) incarnation p sequenced)) c in
          match r with
          | Err e => (Err e, c)
          | Ok _ =>
              let '(truncated, p') := retain_output_if_response_waiting p output in
              let c := add_truncated truncated c in
              let pending := <[ co_job_id output := p' ]> (cn_pending c) in
              (Ok tt, set_pending (if co_done output then delete (pc_job_id p) pending else pending) c)
          end
      end
  end.

(** The arms of [handle_agent_frame] but the hello, which [hello_asked] starts. *)
Definition handle_agent_frame (s : GatewayState) (io : Io) (frame : AgentFrame) (c : Connection) :
  result str unit * Connection :=
  match frame with
  | FrTelemetry seq client =>
      match validate_telemetry_session_client_id (cn_client_id c) client, cn_incarnation c with
      | Err e, _ => (Err e, c)
      | Ok _, None => (Err (lit "telemetry_before_hello"), c)
      | Ok _, Some incarnation =>
          post io (PostTelemetry client (cn_session_id c) incarnation seq
                     (snapshot_stable_suspension_route_owner s client)) c
      end
  | FrAck ack => (Ok tt, handle_ack ack c)
  | FrCancelAck ack => (Ok tt, handle_cancel_ack ack c)
  | FrTerminalAck ack => (Ok tt, handle_terminal_ack ack c)
  | FrResume resume => (Ok tt, handle_resume resume c)
  | FrUpdateVerification job =>
      match cn_client_id c, cn_incarnation c with
      | None, _ => (Ok tt, c)
      | Some _, None => (Err (lit "agent_update_verification_before_hello"), c)
      | Some _, Some _ =>
          let '(approved, message) :=
            match io_verify io with
            | Ok verdict => verdict
            | Err e => (false, lit "agent_update_verification_failed:" ++ e)
            end in
          write_numbered io AgentUpdateVerificationResult 2 (PUpdateResult job approved message) c
      end
  | FrReload request =>
      match validate_telemetry_session_client_id (cn_client_id c) (reload_client_id request), cn_incarnation c with
      | Err e, _ => (Err e, c)
      | Ok _, None => (Err (lit "runtime_config_reload_before_hello"), c)
      | Ok _, Some incarnation =>
          post io (PostReload (reload_client_id request) (cn_session_id c) incarnation request) c
      end
  | FrOutput sequenced => handle_output io sequenced c
  | FrTerminalOutput output =>
      match cn_client_id c, cn_incarnation c with
      | None, _ => (Ok tt, c)
      | Some _, None => (Err (lit "terminal_output_before_hello"), c)
      | Some client, Some incarnation =>
          post io (PostTerminalOutput client (cn_session_id c) incarnation output) c
      end
  | FrIgnored => (Ok tt, c)
  | FrUndecodable e => (Err e, c)
  end.

(** ** The other arms of the loop *)

Definition close_changed (io : Io) (c : Connection) : result str unit * Connection :=
  match default (Graceful (lit "gateway_requested_disconnect")) (cn_close c) with
  | Immediate reason => (Err (lit "agent_session_invalidated:" ++ reason), set_close (cn_close c) false c)
  | Graceful reason =>
      let '(r, c) := write_numbered io AgentSessionDisconnect 0 (PDisconnect reason)
                       (set_close (cn_close c) false c) in
      match r with
      | Err e => (Err e, c)
      | Ok _ => (Ok tt, set_disconnect_reason (Some reason) c)
      end
  end.

Definition close_deadline (c : Connection) : result str unit * Connection :=
  (Err (lit "agent_session_closed_by_gateway:"
        ++ default (lit "gateway_requested_disconnect") (cn_disconnect_reason c)),
   set_disconnect_reason None c).

Definition new_pending (client : str) (request : JobRequest) (payload_hash : str) (response : Z) :
  PendingCommand :=
  mkPendingCommand client (req_job_id request) (req_command_version request) payload_hash None []
    (Some response).

Definition forward_message (io : Io) (message : SessionMessage) (c : Connection) :
  result str unit * Connection :=
  match message with
  | MsgCommand request payload_hash response =>
      let '(r, c) := write_numbered io Command 1 (PCommand request) c in
      match r with
      | Err e => (Err e, c)
      | Ok _ =>
          (Ok tt, set_pending (<[ req_job_id request :=
             new_pending (default [] (cn_client_id c)) request payload_hash response ]> (cn_pending c)) c)
      end
  | MsgCancel request response =>
      let '(r, c) := write_numbered io CommandCancel 1 (PCancel request) c in
      match r with
      | Err e => (Err e, c)
      | Ok _ => (Ok tt, set_cancels (<[ cancel_job_id request := response ]> (cn_cancels c)) c)
      end
  | MsgTerminal request response =>
      if bool_decide (is_Some (cn_terminals c !! tr_request_id request)) then
        (Ok tt, add_reply response
           (ReplyTerminal (terminal_rejected request "terminal_control_request_id_pending")) c)
      else
        let '(r, c) := write_numbered io Frame.TerminalControl 3 (PTerminal request) c in
        match r with
        | Err e => (Err e, c)
        | Ok _ => (Ok tt, set_terminals (<[ tr_request_id request := (request, response) ]> (cn_terminals c)) c)
        end
  end.

Inductive LoopArm :=
| ArmClose
| ArmDeadline
| ArmFrame (frame : AgentFrame)
| ArmReadError (error : str)
| ArmMessage.

(** At the head of the loop: terminal requests whose caller has gone. *)
Definition forget_gone (gone : gset Z) (c : Connection) : Connection :=
  set_terminals (filter (fun '(_, (_, response)) => response ∉ gone) (cn_terminals c)) c.

(** One turn of the loop by an arm whose guard holds ([None]: it does not). *)
Definition loop_arm (s : GatewayState) (io : Io) (arm : LoopArm) (c : Connection) :
  option (result str unit * Connection) :=
  let serving := bool_decide (is_Some (cn_client_id c)) && bool_decide (cn_disconnect_reason c = None) in
  match arm with
  | ArmClose => if serving && cn_close_changed c then Some (close_changed io c) else None
  | ArmDeadline => if bool_decide (is_Some (cn_disconnect_reason c)) then Some (close_deadline c) else None
  | ArmFrame frame => Some (handle_agent_frame s io frame c)
  | ArmReadError e => Some (Err e, c)
  | ArmMessage =>
      match cn_queue c with
      | message :: queue => if serving then Some (forward_message io message (set_queue queue c)) else None
      | [] => None
      end
  end.

Definition settle (r : result str unit * Connection) : Connection :=
  match fst r with Ok _ => snd r | Err e => end_connection e (snd r) end.

(** The connection is at the head of its loop. *)
Definition looping (c : Connection) : bool :=
  match cn_ended c, cn_hello c with None, None => true | _, _ => false end.

Definition loop_turn (s : GatewayState) (gone : gset Z) (io : Io) (arm : LoopArm) (c : Connection) :
  Connection :=
  if looping c then
    match loop_arm s io arm (forget_gone gone c) with Some r => settle r | None => c end
  else c.

(** ** Hello *)

(** Identity check and snapshot; [identity] is the API's answer. *)
Definition hello_asked (s : GatewayState) (seq : Z) (hello : AgentHello)
    (identity : result str (bool * str)) (c : Connection) : Connection :=
  match cn_noise_public_key c with
  | None => end_connection (lit "enrolled IK session did not expose client static key") c
  | Some _ =>
      match identity with
      | Err e => end_connection e c
      | Ok (false, message) =>
          end_connection (lit "agent identity rejected for " ++ hello_client_id hello ++ lit ": " ++ message) c
      | Ok (true, _) =>
          set_hello (Some (HelloAsked seq hello
            (snapshot_client_dispatch_fence s (hello_client_id hello)))) c
      end
  end.

(** The API has answered: the session is registered, unless a fence stands. *)
Definition hello_answered (s : GatewayState) (now : Instant) (answer : result str (bool * str))
    (c : Connection) : Connection * option CloseSignal * GatewayState :=
  match cn_hello c with
  | Some (HelloAsked seq hello observed) =>
      match answer with
      | Err e => (end_connection e c, None, s)
      | Ok (false, message) =>
          (end_connection (lit "agent session rejected for " ++ hello_client_id hello ++ lit ": " ++ message) c,
           None, s)
      | Ok (true, _) =>
          let c := set_identity (hello_client_id hello) (hello_incarnation hello) c in
          let '(registered, closed, s) :=
            register_session_after_accepted_hello s now (hello_client_id hello)
              (mkSession (cn_session_id c) (hello_incarnation hello)) observed in
          if registered then (set_hello (Some (HelloRegistered seq (hello_client_id hello))) c, closed, s)
          else (end_connection (lit "agent lifecycle change is in progress for " ++ hello_client_id hello) c,
                closed, s)
      end
  | _ => (c, None, s)
  end.

(** The client is no longer counted as disconnected; the reply repeats the
    hello's sequence number. *)
Definition hello_replied (s : GatewayState) (io : Io) (c : Connection) : Connection * GatewayState :=
  match cn_hello c with
  | Some (HelloRegistered seq client) =>
      (match io_write io with
       | Some e => end_connection e c
       | None =>
           add_sent (mkGatewayFrame ServerHello 0 seq
             (PServerHello gateway_id release_version server_build_number true (lit "accepted") 15))
             (cn_outbound_seq c) (set_hello None c)
       end, set_disconnected s (delete client (disconnected_at s)))
  | _ => (c, s)
  end.

(** ** The end of a connection *)

(** [String::truncate]: [None] is the panic on a position inside a character. *)
Fixpoint take_bytes (n : Z) (s : str) : option str :=
  if n =? 0 then Some []
  else match s with
       | [] => None
       | c :: rest =>
           let w := vec_len (utf8_char c) in
           if n <? w then None else option_map (cons c) (take_bytes (n - w) rest)
       end.
Definition string_truncate (n : Z) (s : str) : option str :=
  if n <=? str_len s then take_bytes n s else Some s.

Definition session_end_reason (error : str) : option str := string_truncate 512 error.

(** [finalize] up to the registry; [cn_offline_due] marks the write of
    [disconnected_at] that follows. *)
Definition finalize (s : GatewayState) (reason : option str) (c : Connection) : Connection * GatewayState :=
  if cn_finalized c then (c, s)
  else
    match cn_client_id c with
    | None => (set_finalized true false c, s)
    | Some client =>
        let '(removed, s) := unregister_session_if_current s client (cn_session_id c) in
        (add_post (PostSessionEnded client (cn_session_id c) reason) (set_finalized true removed c), s)
    end.

Definition finalize_offline (s : GatewayState) (now : Instant) (c : Connection) : Connection * GatewayState :=
  match cn_offline_due c, cn_client_id c with
  | true, Some client =>
      (set_finalized (cn_finalized c) false c,
       set_disconnected s (<[ client := now ]> (disconnected_at s)))
  | _, _ => (c, s)
  end.

End Handlers.

(** * The gateway *)

Record Gateway := mkGateway {
  gw_state : GatewayState;
  gw_connections : gmap Z Connection;
  gw_next_channel : Z;
  gw_channels : gmap Z SessionMessage;   (* the requests queued so far, by their channel *)
  gw_gone : gset Z;                      (* channels whose caller stopped waiting *)
}.

Definition initial_gateway (epoch : Z) : Gateway := mkGateway (initial epoch) ∅ 0 ∅ ∅.

Definition set_connection (session : Z) (c : Connection) (g : Gateway) : Gateway :=
  mkGateway (gw_state g) (<[ session := c ]> (gw_connections g)) (gw_next_channel g) (gw_channels g) (gw_gone g).
Definition set_gateway_state (s : GatewayState) (g : Gateway) : Gateway :=
  mkGateway s (gw_connections g) (gw_next_channel g) (gw_channels g) (gw_gone g).

(** [close_tx.send]: without a receiver the value is lost. *)
Definition deliver_close (closed : option CloseSignal) (g : Gateway) : Gateway :=
  match closed with
  | None => g
  | Some (session, request) =>
      match gw_connections g !! session with
      | Some c =>
          match cn_ended c with
          | None => set_connection session (set_close (Some request) true c) g
          | Some _ => g
          end
      | None => g
      end
  end.

Inductive SendOutcome := Sent (channel : Z) | SendFull | SendClosed.

(** A new response channel and [try_send] to the queue of a connection. *)
Definition try_send (session : Z) (message : Z -> SessionMessage) (g : Gateway) : SendOutcome * Gateway :=
  let channel := gw_next_channel g in
  let g := mkGateway (gw_state g) (gw_connections g) (channel + 1) (gw_channels g) (gw_gone g) in
  match gw_connections g !! session with
  | None => (SendClosed, g)
  | Some c =>
      match cn_ended c with
      | Some _ => (SendClosed, g)
      | None =>
          if SESSION_COMMAND_QUEUE_CAPACITY <=? vec_len (cn_queue c) then (SendFull, g)
          else
            (Sent channel,
             mkGateway (gw_state g)
               (<[ session := set_queue (cn_queue c ++ [message channel]) c ]> (gw_connections g))
               (gw_next_channel g) (<[ channel := message channel ]> (gw_channels g)) (gw_gone g))
      end
  end.

Definition send_error (client : str) (outcome : SendOutcome) : option str :=
  match outcome with
  | Sent _ => None
  | SendFull => Some (lit "agent_session_command_queue_full:" ++ client)
  | SendClosed => Some (lit "agent_session_closed:" ++ client)
  end.

(** [GatewayCommandDispatch]. *)
Record GatewayCommandDispatch := mkGatewayDispatch {
  gd_client_id : str;
  gd_request : JobRequest;
  gd_payload_hash : str;
  gd_expected_incarnation : Z;
  gd_expected_epoch : option Z;
  gd_lifecycle_recheck : option FenceOwner;
}.

Definition dispatch_of (d : GatewayCommandDispatch) : CommandDispatch :=
  mkDispatch (gd_client_id d) (req_job_id (gd_request d)) (req_max_timeout_secs (gd_request d))
    (gd_expected_incarnation d) (gd_expected_epoch d) (gd_lifecycle_recheck d).

(** One turn of the dispatch loop with its send.  After a failed send the marker
    is still there: [OpRollback] is the transition that follows. *)
Definition dispatch_command (now later : Instant) (deadline : option Instant) (fresh : Z)
    (d : GatewayCommandDispatch) (g : Gateway) : DispatchStep * option SendOutcome * Gateway :=
  let '(r, s) := dispatch_gateway_command (gw_state g) deadline now later fresh (dispatch_of d) in
  let session := sessions (gw_state g) !! gd_client_id d in
  let g := set_gateway_state s g in
  match r, session with
  | Enqueued _ _, Some session =>
      let '(outcome, g) :=
        try_send (session_id session) (MsgCommand (gd_request d) (gd_payload_hash d)) g in
      (r, Some outcome, g)
  | _, _ => (r, None, g)
  end.

(** [cancel_gateway_command] up to the wait: the answer of an absent agent, or the send. *)
Definition cancel_gateway_command (client : str) (request : JobCancelRequest) (g : Gateway) :
  CancelResult + SendOutcome * Gateway :=
  match sessions (gw_state g) !! client with
  | None =>
      inl (mkCancelResult client (cancel_job_id request) false false false (lit "agent_not_online"))
  | Some session => inr (try_send (session_id session) (MsgCancel request) g)
  end.

Definition is_constructive (action : TerminalControlAction) : bool :=
  match action with TerminalInput _ | TerminalResize _ _ => true | TerminalClose _ => false end.

Definition terminal_control (now : Instant) (client : str) (expected_incarnation : Z)
    (request : TerminalControlRequest) (g : Gateway) : TerminalStep * option SendOutcome * Gateway :=
  let '(r, s) := dispatch_terminal_control (gw_state g) now
    (mkTerminalControl client (is_constructive (tr_action request)) expected_incarnation) in
  let g := set_gateway_state s g in
  match r, sessions s !! client with
  | TerminalSent, Some session =>
      let '(outcome, g) := try_send (session_id session) (MsgTerminal request) g in (r, Some outcome, g)
  | _, _ => (r, None, g)
  end.

(** ** Transitions *)

(** The transitions of [GatewayFence] that no connection and no send is part of. *)
Definition control_op (op : Op) : bool :=
  match op with
  | OpDispatch _ _ _ _ | OpTerminal _ | OpRegister _ _ _ | OpReconnected _ | OpUnregister _ _
  | OpDisconnected _ => false
  | _ => true
  end.

Inductive GatewayEvent :=
| GwControl (now : Instant) (op : Op)
| GwDispatch (now later : Instant) (deadline : option Instant) (fresh : Z) (d : GatewayCommandDispatch)
| GwCancel (client : str) (request : JobCancelRequest)
| GwTerminal (now : Instant) (client : str) (expected_incarnation : Z) (request : TerminalControlRequest)
| GwCallerGone (channel : Z)
| GwAccept (session : Z) (noise_public_key : option str)
| GwHello (session seq : Z) (hello : AgentHello) (identity : result str (bool * str))
| GwHelloAnswer (session : Z) (now : Instant) (answer : result str (bool * str))
| GwHelloReply (session : Z) (io : Io)
| GwTurn (session : Z) (io : Io) (arm : LoopArm)
| GwFinalize (session : Z)
| GwShutdown (session : Z)
| GwOffline (session : Z) (now : Instant).

Section Steps.
Context `{GatewayEnv}.

(** Apply a connection's own transition. *)
Definition on_connection (session : Z) (f : Connection -> Gateway -> Connection * GatewayState)
    (g : Gateway) : Gateway :=
  match gw_connections g !! session with
  | None => g
  | Some c => let '(c, s) := f c g in set_connection session c (set_gateway_state s g)
  end.

Definition gateway_step (g : Gateway) (event : GatewayEvent) : Gateway :=
  match event with
  | GwControl now op =>
      if control_op op then
        let '(ev, s) := step (gw_state g) now op in
        deliver_close (match ev with EvSession _ closed => closed | _ => None end) (set_gateway_state s g)
      else g
  | GwDispatch now later deadline fresh d => snd (dispatch_command now later deadline fresh d g)
  | GwCancel client request =>
      match cancel_gateway_command client request g with inl _ => g | inr (_, g) => g end
  | GwTerminal now client incarnation request => snd (terminal_control now client incarnation request g)
  | GwCallerGone channel =>
      mkGateway (gw_state g) (gw_connections g) (gw_next_channel g) (gw_channels g) ({[ channel ]} ∪ gw_gone g)
  | GwAccept session key =>
      match gw_connections g !! session with
      | None => set_connection session (new_connection session key) g
      | Some _ => g   (* session ids are fresh *)
      end
  | GwHello session seq hello identity =>
      on_connection session (fun c g =>
        (if looping c then hello_asked (gw_state g) seq hello identity (forget_gone (gw_gone g) c) else c,
         gw_state g)) g
  | GwHelloAnswer session now answer =>
      match gw_connections g !! session with
      | None => g
      | Some c =>
          let '(c, closed, s) := hello_answered (gw_state g) now answer c in
          deliver_close closed (set_connection session c (set_gateway_state s g))
      end
  | GwHelloReply session io => on_connection session (fun c g => hello_replied (gw_state g) io c) g
  | GwTurn session io arm =>
      on_connection session (fun c g => (loop_turn (gw_state g) (gw_gone g) io arm c, gw_state g)) g
  | GwFinalize session =>
      on_connection session (fun c g =>
        match cn_ended c ≫= session_end_reason with
        | Some reason => finalize (gw_state g) (Some reason) c
        | None => (c, gw_state g)
        end) g
  | GwShutdown session =>
      on_connection session (fun c g =>
        match cn_ended c with
        | None => finalize (gw_state g) (Some (lit "gateway_shutdown"))
                    (end_connection (lit "gateway_shutdown") c)
        | Some _ => (c, gw_state g)
        end) g
  | GwOffline session now => on_connection session (fun c g => finalize_offline (gw_state g) now c) g
  end.

Definition gateway_run (g : Gateway) (events : list GatewayEvent) : Gateway := foldl gateway_step g events.

End Steps.
