(* ===== verification/GatewaySessionProofs.v ===== *)
(** Theorems on the agent connections of the gateway ([GatewaySessions]): the
    outputs kept for a caller, the one answer each caller gets, the outputs posted
    to the API, the connection a route leads to, and the refinement of the whole
    gateway to the fence transitions of [GatewayFence]. *)

From stdpp Require Import gmap.
From S2P Require Import Prelude RustStd Frame JobCommands CommandLedger AgentCommands GatewayFence GatewayFenceProofs GatewaySessions.

Open Scope Z_scope.

#[local] Arguments lit : simpl never.

(** * Retained outputs *)

Lemma drop_retained_spec outputs :
  exists k, fst (drop_retained outputs) = drop k outputs /\ (k <= length outputs)%nat /\
    over_retention (drop k outputs) = false /\
    (forall j, (j < k)%nat -> over_retention (drop j outputs) = true) /\
    snd (drop_retained outputs) = Z.min u64_max (Z.of_nat k).
Proof.
  induction outputs as [|o rest IH]; cbn [drop_retained].
  { exists 0%nat. repeat split; try (vm_compute; reflexivity); lia. }
  destruct (over_retention (o :: rest)) eqn:E.
  - destruct IH as (k & Hd & Hk & Ho & Hj & Hn). destruct (drop_retained rest) as [kept dropped].
    cbn in Hd, Hn. subst. exists (S k). cbn [fst snd drop length]. split; [done|]. split; [lia|].
    split; [done|]. split.
    + intros [|j] Hlt; [exact E|]. apply Hj. lia.
    + unfold saturating_add, u64_max. lia.
  - exists 0%nat. cbn. repeat split; try done; try lia.
Qed.

(** What is kept of a waiting command's outputs is the longest tail of what
    arrived that fits the limits of 256 outputs and 1 MiB (64 bytes counted for
    each record), and the number of outputs dropped is reported. *)
Theorem retained_outputs_longest_tail p output dropped p' :
  retain_output_if_response_waiting p output = (dropped, p') -> is_Some (pc_response p) ->
  exists k, pc_outputs p' = drop k (pc_outputs p ++ [output]) /\
    dropped = Z.min u64_max (Z.of_nat k) /\
    vec_len (pc_outputs p') <= 256 /\ retained_output_bytes (pc_outputs p') <= 1048576 /\
    forall j, (j < k)%nat ->
      256 < vec_len (drop j (pc_outputs p ++ [output])) \/
      1048576 < retained_output_bytes (drop j (pc_outputs p ++ [output])).
Proof.
  unfold retain_output_if_response_waiting. intros H [ch Hch]. rewrite Hch in H.
  destruct (drop_retained_spec (pc_outputs p ++ [output])) as (k & Hd & _ & Ho & Hj & Hn).
  destruct (drop_retained (pc_outputs p ++ [output])) as [kept n]. cbn in Hd, Hn. simplify_eq.
  exists k. split; [done|]. split; [done|]. cbn [pc_outputs with_outputs].
  unfold over_retention, MAX_RETAINED_COMMAND_OUTPUTS, MAX_RETAINED_COMMAND_OUTPUT_BYTES in *.
  apply orb_false_elim in Ho as [H1 H2]. bools. split; [lia|]. split; [lia|].
  intros j Hlt. specialize (Hj j Hlt). apply orb_prop in Hj as [Hj|Hj]; bools; [left|right]; lia.
Qed.

(** * Requests and the channels they wait on *)

Definition msg_channel (m : SessionMessage) : Z :=
  match m with MsgCommand _ _ ch | MsgCancel _ ch | MsgTerminal _ ch => ch end.

(** The channels the values of a map wait on. *)
Definition map_channels {A} (f : A -> option Z) (m : gmap Z A) : list Z :=
  omap (fun '(_, x) => f x) (map_to_list m).

(** The channels of requests that have no answer yet. *)
Definition waiting (c : Connection) : list Z :=
  map msg_channel (cn_queue c) ++ map_channels pc_response (cn_pending c)
  ++ map_channels Some (cn_cancels c)
  ++ map_channels (fun t : TerminalControlRequest * Z => Some (snd t)) (cn_terminals c).
Definition answered (c : Connection) : list Z := map fst (cn_replies c).

Definition channels_of (c : Connection) : list Z := waiting c ++ answered c.

(** The answer is about the request queued under its channel. *)
Definition reply_matches (channels : gmap Z SessionMessage) (ch : Z) (reply : Reply) : Prop :=
  match reply with
  | ReplyCommand r =>
      exists request hash, channels !! ch = Some (MsgCommand request hash ch) /\
        dres_job_id r = req_job_id request /\
        Forall (fun o => co_job_id o = req_job_id request) (dres_outputs r)
  | ReplyCancel r =>
      exists request, channels !! ch = Some (MsgCancel request ch) /\
        cres_job_id r = cancel_job_id request
  | ReplyTerminal r =>
      exists request, channels !! ch = Some (MsgTerminal request ch) /\
        ta_request_id r = tr_request_id request /\ ta_session_id r = tr_session_id request /\
        ta_action r = terminal_action_kind (tr_action request)
  end.

Definition pending_ok (channels : gmap Z SessionMessage) (job : Z) (p : PendingCommand) : Prop :=
  pc_job_id p = job /\ Forall (fun o => co_job_id o = job) (pc_outputs p) /\
  forall ch, pc_response p = Some ch ->
    exists request hash, channels !! ch = Some (MsgCommand request hash ch) /\ req_job_id request = job.

Record conn_ok (channels : gmap Z SessionMessage) (c : Connection) : Prop := {
  ok_queue : Forall (fun m => channels !! msg_channel m = Some m) (cn_queue c);
  ok_pending : map_Forall (pending_ok channels) (cn_pending c);
  ok_cancels : map_Forall (fun job ch => exists request,
    channels !! ch = Some (MsgCancel request ch) /\ cancel_job_id request = job) (cn_cancels c);
  ok_terminals : map_Forall (fun id '(request, ch) =>
    channels !! ch = Some (MsgTerminal request ch) /\ tr_request_id request = id) (cn_terminals c);
  ok_replies : Forall (fun '(ch, reply) => reply_matches channels ch reply) (cn_replies c);
}.

(** ** Maps as lists of channels *)

Lemma submseteq_NoDup {A} (l k : list A) : l ⊆+ k -> NoDup k -> NoDup l.
Proof. intros (k' & ->)%submseteq_Permutation Hn. by apply NoDup_app in Hn as [? _]. Qed.

Section MapChannels.
Context {A : Type} (f : A -> option Z).
Implicit Types m : gmap Z A.

Lemma map_channels_delete m k v :
  m !! k = Some v -> map_channels f m ≡ₚ option_list (f v) ++ map_channels f (delete k m).
Proof.
  intros H. unfold map_channels. rewrite <- (map_to_list_delete m k v H). cbn. by destruct (f v).
Qed.

Lemma map_channels_delete_sub m k : map_channels f (delete k m) ⊆+ map_channels f m.
Proof.
  destruct (m !! k) as [v|] eqn:E; [|by rewrite delete_id].
  rewrite (map_channels_delete m k v E). by apply submseteq_inserts_l.
Qed.

Lemma map_channels_insert m k v :
  map_channels f (<[k := v]> m) ≡ₚ option_list (f v) ++ map_channels f (delete k m).
Proof.
  rewrite (map_channels_delete (<[k := v]> m) k v) by apply lookup_insert_eq.
  by rewrite delete_insert_eq.
Qed.

Lemma map_channels_insert_sub m k v :
  map_channels f (<[k := v]> m) ⊆+ option_list (f v) ++ map_channels f m.
Proof. rewrite map_channels_insert. apply submseteq_skips_l, map_channels_delete_sub. Qed.

Lemma map_channels_replace m k v v' :
  m !! k = Some v -> f v' = f v -> map_channels f (<[k := v']> m) ≡ₚ map_channels f m.
Proof. intros H E. by rewrite map_channels_insert, (map_channels_delete m k v H), E. Qed.

Lemma map_channels_filter (P : Z * A -> Prop) `{!forall x, Decision (P x)} m :
  map_channels f (filter P m) ⊆+ map_channels f m.
Proof.
  induction m as [|k v m Hk IH] using map_ind; [by rewrite map_filter_empty|].
  rewrite (map_channels_insert m k v), (delete_id _ _ Hk). rewrite map_filter_insert. case_decide.
  - rewrite map_channels_insert, delete_id by (apply map_lookup_filter_None; by left).
    by apply submseteq_skips_l.
  - rewrite delete_id by done. etrans; [exact IH|]. by apply submseteq_inserts_l.
Qed.
End MapChannels.

(** ** What a connection's own transition may do *)

(** Channels only leave or move on, and every entry stays about its request. *)
Record conn_step (channels : gmap Z SessionMessage) (c c' : Connection) : Prop := {
  step_channels : channels_of c' ⊆+ channels_of c;
  step_ok : conn_ok channels c -> conn_ok channels c';
  step_session : cn_session_id c' = cn_session_id c;
}.

#[export] Instance conn_step_preorder channels : PreOrder (conn_step channels).
Proof.
  split.
  - intros c. by split.
  - intros c1 c2 c3 [H1 H2 H3] [H4 H5 H6]. split; [by etrans|auto|congruence].
Qed.

(** A transition that leaves the queue, the maps and the answers alone. *)
Lemma conn_step_same channels c c' :
  cn_queue c' = cn_queue c -> cn_pending c' = cn_pending c -> cn_cancels c' = cn_cancels c ->
  cn_terminals c' = cn_terminals c -> cn_replies c' = cn_replies c ->
  cn_session_id c' = cn_session_id c -> conn_step channels c c'.
Proof.
  intros E1 E2 E3 E4 E5 E6. split; [|intros [? ? ? ? ?]; split; rewrite ?E1, ?E2, ?E3, ?E4, ?E5; done|done].
  unfold channels_of, waiting, answered. by rewrite E1, E2, E3, E4, E5.
Qed.

Lemma end_connection_step channels e c : conn_step channels c (end_connection e c).
Proof.
  split; [|intros [? ? ? ? ?]; split; cbn; try done; apply map_Forall_empty|done].
  unfold channels_of, waiting. cbn. by apply submseteq_inserts_l.
Qed.

Lemma forget_gone_step channels gone c : conn_step channels c (forget_gone gone c).
Proof.
  split; [|intros [? ? ? Ht ?]; split; cbn; try done|done].
  - unfold channels_of, waiting, forget_gone. cbn [cn_queue cn_pending cn_cancels cn_terminals set_terminals].
    apply submseteq_app; [|done]. do 3 (apply submseteq_app; [done|]). apply map_channels_filter.
  - intros id x [Hx _]%map_lookup_filter_Some. by apply (Ht id x).
Qed.

(** The pending command of a job takes another value with the same caller, or loses its caller. *)
Lemma set_pending_step channels job p p' c :
  cn_pending c !! job = Some p -> pc_response p' = pc_response p \/ pc_response p' = None ->
  (pending_ok channels job p -> pending_ok channels job p') ->
  conn_step channels c (set_pending (<[ job := p' ]> (cn_pending c)) c).
Proof.
  intros Hp Hr Hok. split; [|intros [? H ? ? ?]; split; cbn; try done|done].
  - unfold channels_of, waiting, answered. cbn.
    apply submseteq_app; [|done]. apply submseteq_app; [done|]. apply submseteq_app; [|done].
    rewrite map_channels_insert, (map_channels_delete _ (cn_pending c) job p Hp).
    apply submseteq_app; [|done]. destruct Hr as [->| ->]; [done|apply submseteq_nil_l].
  - apply map_Forall_insert_2; [|done]. by apply Hok, (H job).
Qed.

Lemma delete_pending_step channels job c :
  conn_step channels c (set_pending (delete job (cn_pending c)) c).
Proof.
  split; [|intros [? H ? ? ?]; split; cbn; try done; by apply map_Forall_delete|done].
  unfold channels_of, waiting, answered. cbn.
  apply submseteq_app; [|done]. apply submseteq_app; [done|]. apply submseteq_app; [|done].
  apply map_channels_delete_sub.
Qed.

(** The caller of a pending command is answered. *)
Lemma answer_pending_step channels job p p' ch r c :
  cn_pending c !! job = Some p -> pc_response p = Some ch -> pc_response p' = None ->
  (pending_ok channels job p -> pending_ok channels job p') ->
  (pending_ok channels job p -> reply_matches channels ch (ReplyCommand r)) ->
  conn_step channels c
    (set_pending (<[ job := p' ]> (cn_pending c)) (add_reply ch (ReplyCommand r) c)).
Proof.
  intros Hp Hr Hr' Hok Hm. split; [|intros [? H ? ? ?]; split; cbn; try done|done].
  - unfold channels_of, waiting, answered. cbn.
    rewrite map_channels_insert, (map_channels_delete _ (cn_pending c) job p Hp), Hr, Hr', map_app. cbn.
    solve_submseteq.
  - apply map_Forall_insert_2; [|done]. by apply Hok, (H job).
  - apply Forall_app. split; [done|]. constructor; [|constructor]. by apply Hm, (H job).
Qed.

Lemma finished_pending_ok channels job p ack :
  pending_ok channels job p -> pending_ok channels job (snd (finish_pending_command_response p (Some ack) [])).
Proof. intros (Hj & _ & _). split; [done|]. cbn. split; [constructor|done]. Qed.

Lemma handle_ack_step channels ack c : conn_step channels c (handle_ack ack c).
Proof.
  unfold handle_ack. destruct (cn_pending c !! ack_job_id ack) as [p|] eqn:Hp; [|done].
  set (p' := snd (finish_pending_command_response p (Some ack) [])).
  assert (Hstep : conn_step channels c
    (set_pending (<[ ack_job_id ack := p' ]> (cn_pending c))
       match fst (finish_pending_command_response p (Some ack) []) with
       | Some (response, r) => add_reply response (ReplyCommand r) c
       | None => c
       end)).
  { cbn [fst finish_pending_command_response]. destruct (pc_response p) as [ch|] eqn:Hr; cbn [option_map].
    - apply (answer_pending_step channels _ p p' ch); try done; [apply finished_pending_ok|].
      intros (Hj & Ho & Hc). destruct (Hc ch Hr) as (request & hash & Hch & Hreq).
      exists request, hash. cbn. rewrite Hreq. done.
    - apply (set_pending_step channels _ p p'); [done|by right|apply finished_pending_ok]. }
  cbn zeta. destruct (finish_pending_command_response p (Some ack) []) as [answer p1]. cbn in p', Hstep.
  replace (cn_pending match answer with Some (response, r) => add_reply response (ReplyCommand r) c
                      | None => c end) with (cn_pending c) by (by destruct answer as [[? ?]|]).
  destruct (ack_accepted ack); [done|]. etrans; [exact Hstep|].
  exact (delete_pending_step channels (pc_job_id p) (set_pending (<[ack_job_id ack := p']> (cn_pending c)) _)).
Qed.

Lemma handle_cancel_ack_step channels ack c : conn_step channels c (handle_cancel_ack ack c).
Proof.
  unfold handle_cancel_ack. destruct (cn_cancels c !! cack_job_id ack) as [ch|] eqn:Hc; [|done].
  split; [|intros [? ? H ? ?]; split; cbn; try done; [by apply map_Forall_delete|]|done].
  - unfold channels_of, waiting, answered. cbn.
    rewrite (map_channels_delete _ (cn_cancels c) _ ch Hc), map_app. cbn. solve_submseteq.
  - apply Forall_app. split; [done|]. constructor; [|constructor].
    destruct (H _ _ Hc) as (request & Hr & Hj). by exists request.
Qed.

Lemma terminal_reply_bound request ack :
  ta_request_id ack = tr_request_id request ->
  ta_request_id (terminal_ack_reply request ack) = tr_request_id request /\
  ta_session_id (terminal_ack_reply request ack) = tr_session_id request /\
  ta_action (terminal_ack_reply request ack) = terminal_action_kind (tr_action request).
Proof.
  intros H. unfold terminal_ack_reply. destruct (_ && _) eqn:E; [|done].
  unfold str_eqb in E. bools. done.
Qed.

Lemma handle_terminal_ack_step channels ack c : conn_step channels c (handle_terminal_ack ack c).
Proof.
  unfold handle_terminal_ack. destruct (cn_terminals c !! ta_request_id ack) as [[request ch]|] eqn:Hc; [|done].
  split; [|intros [? ? ? H ?]; split; cbn; try done; [by apply map_Forall_delete|]|done].
  - unfold channels_of, waiting, answered. cbn.
    rewrite (map_channels_delete _ (cn_terminals c) _ (request, ch) Hc), map_app. cbn. solve_submseteq.
  - apply Forall_app. split; [done|]. constructor; [|constructor].
    destruct (H _ _ Hc) as [Hr Hj]. exists request. split; [done|]. by apply terminal_reply_bound.
Qed.

(** A pending command without a caller is new. *)
Lemma adopt_pending_step channels job p c :
  cn_pending c !! job = None -> pc_response p = None -> pending_ok channels job p ->
  conn_step channels c (set_pending (<[ job := p ]> (cn_pending c)) c).
Proof.
  intros Hn Hr Hok. split; [|intros [? H ? ? ?]; split; cbn; try done; by apply map_Forall_insert_2|done].
  unfold channels_of, waiting, answered. cbn. by rewrite map_channels_insert, Hr, delete_id.
Qed.

Lemma handle_resume_step channels resume c : conn_step channels c (handle_resume resume c).
Proof.
  unfold handle_resume. destruct (cn_client_id c) as [client|]; [|done].
  destruct (cn_pending c !! resume_job_id resume) as [p|] eqn:Hp.
  - eapply set_pending_step; [exact Hp|by left|]. done.
  - apply adopt_pending_step; [done|done|]. split; [done|]. by split.
Qed.

Lemma post_step channels io p c : conn_step channels c (snd (post io p c)).
Proof. unfold post. by destruct (io_post io); apply conn_step_same. Qed.

Lemma write_numbered_step channels io kind stream payload c :
  conn_step channels c (snd (write_numbered io kind stream payload c)).
Proof. unfold write_numbered. by destruct (io_write io); apply conn_step_same. Qed.

Lemma retained_pending_ok channels job p output :
  co_job_id output = job -> pending_ok channels job p ->
  pending_ok channels job (snd (retain_output_if_response_waiting p output)).
Proof.
  intros Hj (Hp & Ho & Hr). unfold retain_output_if_response_waiting.
  destruct (pc_response p) as [ch|] eqn:E; [|by rewrite <- E in Hr; split].
  destruct (drop_retained_spec (pc_outputs p ++ [output])) as (k & Hd & _).
  destruct (drop_retained (pc_outputs p ++ [output])) as [kept n]. cbn in Hd. subst kept.
  split; [done|]. cbn. rewrite E. split; [|done].
  apply Forall_drop, Forall_app. split; [done|]. by constructor.
Qed.

Lemma retained_response p output :
  pc_response (snd (retain_output_if_response_waiting p output)) = pc_response p.
Proof.
  unfold retain_output_if_response_waiting. destruct (pc_response p) eqn:E; [|done].
  by destruct (drop_retained _).
Qed.

Section Frames.
Context `{GatewayEnv}.

Lemma handle_output_step channels io sequenced c :
  conn_step channels c (snd (handle_output io sequenced c)).
Proof.
  unfold handle_output. destruct (cn_pending c !! _) as [p|] eqn:Hp; [|done].
  destruct (cn_incarnation c) as [incarnation|]; [|done].
  match goal with |- context [post io ?x c] => pose proof (post_step channels io x c) as Hpost;
    assert (Hpend : cn_pending (snd (post io x c)) = cn_pending c)
      by (unfold post; by destruct (io_post io)); destruct (post io x c) as [[[]|e] c1] end;
    cbn [snd] in *; [|done].
  pose proof (retained_pending_ok channels (co_job_id (sq_output sequenced)) p (sq_output sequenced) eq_refl) as Hok.
  pose proof (retained_response p (sq_output sequenced)) as Hr.
  destruct (retain_output_if_response_waiting p _) as [n p']. cbn [snd] in *.
  assert (Hc2 : conn_step channels c (add_truncated n c1)) by (etrans; [exact Hpost|by apply conn_step_same]).
  set (c2 := add_truncated n c1) in *. assert (Hp2 : cn_pending c2 !! co_job_id (sq_output sequenced) = Some p)
    by (change (cn_pending c2) with (cn_pending c1); by rewrite Hpend).
  clearbody c2. etrans; [exact Hc2|].
  pose proof (set_pending_step channels _ p p' c2 Hp2 (or_introl Hr) Hok) as Hset.
  destruct (co_done (sq_output sequenced)); [|exact Hset]. etrans; [exact Hset|].
  exact (delete_pending_step channels (pc_job_id p) (set_pending _ c2)).
Qed.

Lemma handle_agent_frame_step channels s io frame c :
  conn_step channels c (snd (handle_agent_frame s io frame c)).
Proof.
  destruct frame; cbn [handle_agent_frame]; try done.
  - destruct (validate_telemetry_session_client_id _ _); [|done]. destruct (cn_incarnation c); [|done].
    apply post_step.
  - apply handle_ack_step.
  - apply handle_cancel_ack_step.
  - apply handle_terminal_ack_step.
  - apply handle_resume_step.
  - destruct (cn_client_id c), (cn_incarnation c); try done. destruct (io_verify io) as [[? ?]|?];
      apply write_numbered_step.
  - destruct (validate_telemetry_session_client_id _ _); [|done]. destruct (cn_incarnation c); [|done].
    apply post_step.
  - apply handle_output_step.
  - destruct (cn_client_id c), (cn_incarnation c); try done. apply post_step.
Qed.

End Frames.

(** ** The loop *)

Lemma drop_message_step channels message queue c :
  cn_queue c = message :: queue -> conn_step channels c (set_queue queue c).
Proof.
  intros E. split; [|intros [Hq ? ? ? ?]; split; cbn; try done|done].
  - unfold channels_of, waiting, answered. cbn. rewrite E. cbn. solve_submseteq.
  - rewrite E in Hq. by inversion Hq.
Qed.

Lemma insert_channels_app {A} (f : A -> option Z) (m : gmap Z A) k v ch l1 l2 :
  f v = Some ch -> l1 ++ map_channels f (<[ k := v ]> m) ++ l2 ⊆+ ch :: l1 ++ map_channels f m ++ l2.
Proof.
  intros E. pose proof (map_channels_insert_sub f m k v) as H. rewrite E in H. cbn in H.
  rewrite Permutation_middle. apply submseteq_app; [done|]. change (ch :: map_channels f m ++ l2)
    with ((ch :: map_channels f m) ++ l2). by apply submseteq_app.
Qed.

Lemma forward_message_step channels io message queue c :
  cn_queue c = message :: queue ->
  conn_step channels c (snd (forward_message io message (set_queue queue c))).
Proof.
  intros E. pose proof (drop_message_step channels message queue c E) as Hdrop.
  assert (Hmsg : conn_ok channels c -> channels !! msg_channel message = Some message).
  { intros [Hq _ _ _ _]. rewrite E in Hq. by inversion Hq. }
  destruct message as [request hash ch|request ch|request ch]; cbn [forward_message msg_channel] in *.
  - unfold write_numbered. destruct (io_write io); [done|]. cbn [snd].
    split; [|intros Hok; pose proof (Hmsg Hok) as Hm; destruct Hok as [Hq ? ? ? ?]; split; cbn; try done|done].
    + unfold channels_of, waiting, answered. cbn. rewrite E. cbn.
      rewrite <- !app_assoc. apply insert_channels_app. done.
    + rewrite E in Hq. by inversion Hq.
    + apply map_Forall_insert_2; [|done]. split; [done|]. cbn. split; [constructor|].
      intros ? [= <-]. by exists request, hash.
  - unfold write_numbered. destruct (io_write io); [done|]. cbn [snd].
    split; [|intros Hok; pose proof (Hmsg Hok) as Hm; destruct Hok as [Hq ? ? ? ?]; split; cbn; try done|done].
    + unfold channels_of, waiting, answered. cbn. rewrite E. cbn.
      rewrite <- !app_assoc, (app_assoc (map msg_channel queue)). etrans; [by apply insert_channels_app|].
      rewrite <- !app_assoc. done.
    + rewrite E in Hq. by inversion Hq.
    + apply map_Forall_insert_2; [|done]. by exists request.
  - destruct (bool_decide _).
    + cbn [snd]. split; [|intros Hok; pose proof (Hmsg Hok) as Hm; destruct Hok as [Hq ? ? ? ?]; split; cbn; try done|done].
      * unfold channels_of, waiting, answered. cbn. rewrite E, map_app. cbn. solve_submseteq.
      * rewrite E in Hq. by inversion Hq.
      * apply Forall_app. split; [done|]. constructor; [|constructor]. by exists request.
    + unfold write_numbered. destruct (io_write io); [done|]. cbn [snd].
      split; [|intros Hok; pose proof (Hmsg Hok) as Hm; destruct Hok as [Hq ? ? ? ?]; split; cbn; try done|done].
      * unfold channels_of, waiting, answered. cbn. rewrite E. cbn.
        rewrite <- !app_assoc, (app_assoc (map msg_channel queue)), (app_assoc (_ ++ _)).
        etrans; [by apply insert_channels_app|]. rewrite <- !app_assoc. done.
      * rewrite E in Hq. by inversion Hq.
      * apply map_Forall_insert_2; [|done]. done.
Qed.

Section Turns.
Context `{GatewayEnv}.

Lemma settle_step channels r c : conn_step channels c (snd r) -> conn_step channels c (settle r).
Proof. intros Hs. unfold settle. destruct (fst r); [done|]. etrans; [exact Hs|apply end_connection_step]. Qed.

Lemma close_changed_step channels io c : conn_step channels c (snd (close_changed io c)).
Proof.
  unfold close_changed, write_numbered. destruct (default _ (cn_close c)); [destruct (io_write io)|];
    cbn [snd]; by apply conn_step_same.
Qed.

Lemma loop_turn_step channels s gone io arm c : conn_step channels c (loop_turn s gone io arm c).
Proof.
  unfold loop_turn. destruct (looping c); [|done].
  pose proof (forget_gone_step channels gone c) as Hg. set (c1 := forget_gone gone c) in *. clearbody c1.
  destruct (loop_arm s io arm c1) as [r|] eqn:E; [|done]. etrans; [exact Hg|]. apply settle_step.
  destruct arm; cbn [loop_arm] in E.
  - destruct (_ && _ && _); [|done]. injection E as <-. apply close_changed_step.
  - destruct (bool_decide _); [|done]. injection E as <-. by apply conn_step_same.
  - injection E as <-. apply handle_agent_frame_step.
  - by injection E as <-.
  - destruct (cn_queue c1) as [|message queue] eqn:Eq; [done|]. destruct (_ && _); [|done].
    injection E as <-. by apply forward_message_step.
Qed.

Lemma hello_asked_step channels s seq hello identity c :
  conn_step channels c (hello_asked s seq hello identity c).
Proof.
  unfold hello_asked. repeat case_match; try apply end_connection_step. by apply conn_step_same.
Qed.

Lemma hello_answered_step channels s now answer c :
  conn_step channels c (fst (fst (hello_answered s now answer c))).
Proof.
  unfold hello_answered. destruct (cn_hello c) as [[seq hello observed|? ?]|]; try done.
  destruct answer as [[[] message]|e]; try apply end_connection_step.
  destruct (register_session_after_accepted_hello _ _ _ _ _) as [[[] closed] s1]; cbn.
  - by apply conn_step_same.
  - etrans; [|apply end_connection_step]. by apply conn_step_same.
Qed.

Lemma hello_replied_step channels s io c : conn_step channels c (fst (hello_replied s io c)).
Proof.
  unfold hello_replied. destruct (cn_hello c) as [[? ? ?|? ?]|]; try done.
  destruct (io_write io); [apply end_connection_step|by apply conn_step_same].
Qed.

Lemma finalize_step channels s reason c : conn_step channels c (fst (finalize s reason c)).
Proof.
  unfold finalize. destruct (cn_finalized c); [done|]. destruct (cn_client_id c); [|by apply conn_step_same].
  destruct (unregister_session_if_current _ _ _). by apply conn_step_same.
Qed.

Lemma finalize_offline_step channels s now c : conn_step channels c (fst (finalize_offline s now c)).
Proof. unfold finalize_offline. repeat case_match; try done; by apply conn_step_same. Qed.

End Turns.

(** * The gateway: one answer for each caller *)

Lemma pending_ok_mono channels channels' job p :
  channels ⊆ channels' -> pending_ok channels job p -> pending_ok channels' job p.
Proof.
  intros Hs (Hj & Ho & Hr). split; [done|]. split; [done|]. intros ch Hch.
  destruct (Hr ch Hch) as (request & hash & Hl & Hq). exists request, hash. split; [|done].
  by eapply lookup_weaken.
Qed.

Lemma reply_matches_mono channels channels' ch reply :
  channels ⊆ channels' -> reply_matches channels ch reply -> reply_matches channels' ch reply.
Proof.
  intros Hs. destruct reply; cbn.
  - intros (request & hash & Hl & Hq). exists request, hash. split; [|done]. by eapply lookup_weaken.
  - intros (request & Hl & Hq). exists request. split; [|done]. by eapply lookup_weaken.
  - intros (request & Hl & Hq). exists request. split; [|done]. by eapply lookup_weaken.
Qed.

Lemma conn_ok_mono channels channels' c : channels ⊆ channels' -> conn_ok channels c -> conn_ok channels' c.
Proof.
  intros Hs [Hq Hp Hc Ht Hr]. split.
  - eapply Forall_impl; [exact Hq|]. intros m Hm. eapply lookup_weaken; [exact Hm|done].
  - intros job p Hl. eapply pending_ok_mono; [done|by apply Hp].
  - intros job ch Hl. destruct (Hc job ch Hl) as (request & Hch & Hj). exists request. split; [|done].
    by eapply lookup_weaken.
  - intros id [request ch] Hl. destruct (Ht id _ Hl) as [Hch Hj]. split; [|done]. by eapply lookup_weaken.
  - eapply Forall_impl; [exact Hr|]. intros [ch reply] Hm. eapply reply_matches_mono; [done|exact Hm].
Qed.

(** Every channel belongs to one connection, where it is in one place. *)
Record gateway_ok (g : Gateway) : Prop := {
  gok_connection : forall session c, gw_connections g !! session = Some c ->
    cn_session_id c = session /\ NoDup (channels_of c) /\ conn_ok (gw_channels g) c;
  gok_bound : forall session c ch, gw_connections g !! session = Some c -> ch ∈ channels_of c ->
    ch < gw_next_channel g;
  gok_disjoint : forall s1 s2 c1 c2 ch,
    gw_connections g !! s1 = Some c1 -> gw_connections g !! s2 = Some c2 ->
    ch ∈ channels_of c1 -> ch ∈ channels_of c2 -> s1 = s2;
  gok_fresh : forall ch m, gw_channels g !! ch = Some m -> ch < gw_next_channel g;
}.

Lemma gateway_ok_same g g' :
  gw_connections g' = gw_connections g -> gw_next_channel g' = gw_next_channel g ->
  gw_channels g' = gw_channels g -> gateway_ok g -> gateway_ok g'.
Proof. intros E1 E2 E3 [? ? ? ?]. split; rewrite ?E1, ?E2, ?E3; done. Qed.

(** A connection changes by a transition of its own. *)
Lemma gateway_ok_connection g g' session c c' :
  gw_connections g !! session = Some c -> conn_step (gw_channels g) c c' ->
  gw_connections g' = <[ session := c' ]> (gw_connections g) ->
  gw_next_channel g' = gw_next_channel g -> gw_channels g' = gw_channels g ->
  gateway_ok g -> gateway_ok g'.
Proof.
  intros Hc [Hsub Hok Hid] E1 E2 E3 [H1 H2 H3 H4].
  destruct (H1 session c Hc) as (Hs & Hn & Hk).
  assert (Hin : forall s x ch, gw_connections g' !! s = Some x -> ch ∈ channels_of x ->
    exists y, gw_connections g !! s = Some y /\ ch ∈ channels_of y).
  { intros s x ch Hx Hch. rewrite E1 in Hx. destruct (decide (s = session)) as [->|Hne].
    - rewrite lookup_insert_eq in Hx. injection Hx as <-. exists c. split; [done|].
      by eapply elem_of_submseteq.
    - rewrite lookup_insert_ne in Hx by done. by exists x. }
  split.
  - intros s x Hx. rewrite E1 in Hx. rewrite E3. destruct (decide (s = session)) as [->|Hne].
    + rewrite lookup_insert_eq in Hx. injection Hx as <-. split; [congruence|]. split; [|auto].
      by eapply submseteq_NoDup.
    + rewrite lookup_insert_ne in Hx by done. by apply H1.
  - intros s x ch Hx Hch. destruct (Hin s x ch Hx Hch) as (y & Hy & Hchy). rewrite E2. by eapply H2.
  - intros s1 s2 x1 x2 ch Hx1 Hx2 Hc1 Hc2.
    destruct (Hin _ _ _ Hx1 Hc1) as (y1 & ? & ?), (Hin _ _ _ Hx2 Hc2) as (y2 & ? & ?). by eapply H3.
  - intros ch m. rewrite E2, E3. apply H4.
Qed.

Lemma deliver_close_ok closed g : gateway_ok g -> gateway_ok (deliver_close closed g).
Proof.
  intros Hok. unfold deliver_close. destruct closed as [[session request]|]; [|done].
  destruct (gw_connections g !! session) as [c|] eqn:E; [|done]. destruct (cn_ended c); [done|].
  eapply gateway_ok_connection; [exact E| |reflexivity|reflexivity|reflexivity|done].
  by apply conn_step_same.
Qed.

(** A new request on a new channel. *)
Lemma try_send_ok session message g :
  (forall ch, msg_channel (message ch) = ch) -> gateway_ok g -> gateway_ok (snd (try_send session message g)).
Proof.
  intros Hmsg [H1 H2 H3 H4]. unfold try_send. cbn [gw_connections].
  assert (Hbump : gateway_ok (mkGateway (gw_state g) (gw_connections g) (gw_next_channel g + 1)
                                (gw_channels g) (gw_gone g))).
  { split; cbn; [done| |done|].
    - intros s x ch Hx Hch. specialize (H2 s x ch Hx Hch). lia.
    - intros ch m Hm. specialize (H4 ch m Hm). lia. }
  destruct (gw_connections g !! session) as [c|] eqn:E; [|done]. destruct (cn_ended c); [done|].
  destruct (_ <=? _); [done|]. cbn [snd]. set (ch0 := gw_next_channel g) in *.
  assert (Hfresh : gw_channels g !! ch0 = None).
  { destruct (gw_channels g !! ch0) eqn:Em; [|done]. apply H4 in Em. lia. }
  assert (Hq : channels_of (set_queue (cn_queue c ++ [message ch0]) c) ≡ₚ ch0 :: channels_of c).
  { unfold channels_of, waiting, answered. cbn. rewrite map_app. cbn. rewrite Hmsg.
    rewrite <- !app_assoc. cbn. by rewrite <- Permutation_middle. }
  assert (Hsub : gw_channels g ⊆ <[ ch0 := message ch0 ]> (gw_channels g)) by by apply insert_subseteq.
  assert (Hin : forall s x ch, <[ session := set_queue (cn_queue c ++ [message ch0]) c ]> (gw_connections g) !! s = Some x ->
    ch ∈ channels_of x -> (s = session /\ ch = ch0) \/
    exists y, gw_connections g !! s = Some y /\ ch ∈ channels_of y).
  { intros s x ch Hx Hch. destruct (decide (s = session)) as [->|Hne].
    - rewrite lookup_insert_eq in Hx. injection Hx as <-. rewrite Hq in Hch.
      apply elem_of_cons in Hch as [->|Hch]; [by left|right; by exists c].
    - rewrite lookup_insert_ne in Hx by done. right. by exists x. }
  split; cbn [gw_connections gw_channels gw_next_channel].
  - intros s x Hx. destruct (decide (s = session)) as [->|Hne].
    + rewrite lookup_insert_eq in Hx. injection Hx as <-. destruct (H1 session c E) as (Hs & Hn & Hk).
      split; [done|]. split.
      * rewrite Hq. constructor; [|done]. intros Hx. specialize (H2 session c ch0 E Hx). lia.
      * apply (conn_ok_mono _ _ _ Hsub) in Hk. destruct Hk as [Hqq ? ? ? ?]. split; cbn; try done.
        apply Forall_app. split; [done|]. constructor; [|constructor]. by rewrite Hmsg, lookup_insert_eq.
    + rewrite lookup_insert_ne in Hx by done. destruct (H1 s x Hx) as (Hs & Hn & Hk).
      split; [done|]. split; [done|]. by eapply conn_ok_mono.
  - intros s x ch Hx Hch. destruct (Hin s x ch Hx Hch) as [[-> ->]|(y & Hy & Hchy)]; [lia|].
    specialize (H2 _ _ _ Hy Hchy). lia.
  - intros s1 s2 x1 x2 ch Hx1 Hx2 Hc1 Hc2.
    destruct (Hin _ _ _ Hx1 Hc1) as [[-> ->]|(y1 & Hy1 & Hd1)], (Hin _ _ _ Hx2 Hc2) as [[-> ?]|(y2 & Hy2 & Hd2)].
    + done.
    + specialize (H2 _ _ _ Hy2 Hd2). lia.
    + subst. specialize (H2 _ _ _ Hy1 Hd1). lia.
    + by eapply H3.
  - intros ch m Hm. apply lookup_insert_Some in Hm as [[<- _]|[_ Hm]]; [lia|]. specialize (H4 ch m Hm). lia.
Qed.

Section Gateway.
Context `{GatewayEnv}.

Lemma on_connection_ok session f g :
  (forall c, gw_connections g !! session = Some c -> conn_step (gw_channels g) c (fst (f c g))) ->
  gateway_ok g -> gateway_ok (on_connection session f g).
Proof.
  intros Hf Hok. unfold on_connection. destruct (gw_connections g !! session) as [c|] eqn:E; [|done].
  specialize (Hf c eq_refl). destruct (f c g) as [c' s]. cbn in Hf.
  by eapply gateway_ok_connection; [exact E|exact Hf|reflexivity|reflexivity|reflexivity|].
Qed.

Lemma dispatch_command_ok now later deadline fresh d g :
  gateway_ok g -> gateway_ok (snd (dispatch_command now later deadline fresh d g)).
Proof.
  intros Hok. unfold dispatch_command. destruct (dispatch_gateway_command _ _ _ _ _ _) as [r s].
  assert (Hs : gateway_ok (set_gateway_state s g)) by by eapply gateway_ok_same; [..|exact Hok].
  destruct r; try done. destruct (sessions (gw_state g) !! gd_client_id d) as [session|]; [|done].
  pose proof (try_send_ok (session_id session) (MsgCommand (gd_request d) (gd_payload_hash d))
    (set_gateway_state s g) (fun _ => eq_refl) Hs) as Ht.
  by destruct (try_send _ _ _).
Qed.

Lemma cancel_ok client request g :
  gateway_ok g ->
  gateway_ok match cancel_gateway_command client request g with inl _ => g | inr (_, g) => g end.
Proof.
  intros Hok. unfold cancel_gateway_command. destruct (sessions (gw_state g) !! client) as [session|]; [|done].
  pose proof (try_send_ok (session_id session) (MsgCancel request) g (fun _ => eq_refl) Hok) as Ht.
  by destruct (try_send _ _ _).
Qed.

Lemma terminal_control_ok now client incarnation request g :
  gateway_ok g -> gateway_ok (snd (terminal_control now client incarnation request g)).
Proof.
  intros Hok. unfold terminal_control. destruct (dispatch_terminal_control _ _ _) as [r s].
  assert (Hs : gateway_ok (set_gateway_state s g)) by by eapply gateway_ok_same; [..|exact Hok].
  destruct r; try done. destruct (sessions s !! client) as [session|]; [|done].
  pose proof (try_send_ok (session_id session) (MsgTerminal request) (set_gateway_state s g)
    (fun _ => eq_refl) Hs) as Ht.
  by destruct (try_send _ _ _).
Qed.

Lemma accept_ok session key g :
  gw_connections g !! session = None -> gateway_ok g ->
  gateway_ok (set_connection session (new_connection session key) g).
Proof.
  intros Hn [H1 H2 H3 H4].
  assert (Hin : forall s x ch, <[ session := new_connection session key ]> (gw_connections g) !! s = Some x ->
    ch ∈ channels_of x -> gw_connections g !! s = Some x).
  { intros s x ch Hx Hch. destruct (decide (s = session)) as [->|Hne].
    - rewrite lookup_insert_eq in Hx. injection Hx as <-. by apply elem_of_nil in Hch.
    - by rewrite lookup_insert_ne in Hx. }
  split; cbn.
  - intros s x Hx. destruct (decide (s = session)) as [->|Hne].
    + rewrite lookup_insert_eq in Hx. injection Hx as <-. split; [done|]. split; [apply NoDup_nil_2|].
      split; cbn; try apply map_Forall_empty; constructor.
    + rewrite lookup_insert_ne in Hx by done. by apply H1.
  - intros s x ch Hx Hch. eapply H2; [by eapply Hin|done].
  - intros s1 s2 x1 x2 ch Hx1 Hx2 Hc1 Hc2. eapply H3; [by eapply Hin|by eapply Hin|done|done].
  - apply H4.
Qed.

Lemma gateway_step_ok g event : gateway_ok g -> gateway_ok (gateway_step g event).
Proof.
  intros Hok. destruct event; cbn [gateway_step].
  - destruct (control_op op); [|done]. destruct (step _ _ _) as [ev s].
    apply deliver_close_ok. by eapply gateway_ok_same; [..|exact Hok].
  - by apply dispatch_command_ok.
  - by apply cancel_ok.
  - by apply terminal_control_ok.
  - by eapply gateway_ok_same; [..|exact Hok].
  - destruct (gw_connections g !! session) eqn:E; [done|by apply accept_ok].
  - apply on_connection_ok; [|done]. intros c _. cbn. destruct (looping c); [|done].
    etrans; [apply forget_gone_step|apply hello_asked_step].
  - destruct (gw_connections g !! session) as [c|] eqn:E; [|done].
    pose proof (hello_answered_step (gw_channels g) (gw_state g) now answer c) as Hs.
    destruct (hello_answered _ _ _ _) as [[c' closed] s]. apply deliver_close_ok.
    by eapply gateway_ok_connection; [exact E|exact Hs|reflexivity|reflexivity|reflexivity|].
  - apply on_connection_ok; [|done]. intros c _. apply hello_replied_step.
  - apply on_connection_ok; [|done]. intros c _. apply loop_turn_step.
  - apply on_connection_ok; [|done]. intros c _. destruct (cn_ended c ≫= session_end_reason); [|done].
    apply finalize_step.
  - apply on_connection_ok; [|done]. intros c _. destruct (cn_ended c); [done|].
    etrans; [apply end_connection_step|apply finalize_step].
  - apply on_connection_ok; [|done]. intros c _. apply finalize_offline_step.
Qed.

Lemma gateway_run_ok g events : gateway_ok g -> gateway_ok (gateway_run g events).
Proof.
  revert g. induction events as [|event events IH]; intros g Hok; [done|].
  apply (IH (gateway_step g event)). by apply gateway_step_ok.
Qed.

Lemma initial_gateway_ok epoch : gateway_ok (initial_gateway epoch).
Proof. split; cbn; intros; by rewrite lookup_empty in *. Qed.

(** C13: Every caller gets at most one answer, and it is about its own request: in every state the
    gateway reaches, a response channel belongs to one connection, where it is either still waiting
    (queued, or pending with the agent) or answered once; a command's answer names the command's job
    and carries outputs of that job only, a cancellation's answer names its job, and a terminal
    control's answer its request, terminal and action, whatever the agent sent. *)
Theorem callers_answered_once epoch events (g := gateway_run (initial_gateway epoch) events) :
  (forall session c, gw_connections g !! session = Some c ->
     NoDup (waiting c ++ answered c) /\
     forall ch reply, (ch, reply) ∈ cn_replies c -> reply_matches (gw_channels g) ch reply) /\
  (forall s1 s2 c1 c2 ch, gw_connections g !! s1 = Some c1 -> gw_connections g !! s2 = Some c2 ->
     ch ∈ waiting c1 ++ answered c1 -> ch ∈ waiting c2 ++ answered c2 -> s1 = s2).
Proof.
  destruct (gateway_run_ok _ events (initial_gateway_ok epoch)) as [H1 _ H3 _]. split; [|exact H3].
  intros session c Hc. destruct (H1 session c Hc) as (_ & Hn & [_ _ _ _ Hr]). split; [exact Hn|].
  intros ch reply Hin. rewrite Forall_forall in Hr. apply (Hr (ch, reply) Hin).
Qed.

(** * Refinement to the fence transitions *)

(** The transition of [GatewayFence] an event makes. *)
Definition gateway_op (g : Gateway) (event : GatewayEvent) : option (Instant * Op) :=
  match event with
  | GwControl now op => if control_op op then Some (now, op) else None
  | GwDispatch now later deadline fresh d => Some (now, OpDispatch deadline later fresh (dispatch_of d))
  | GwTerminal now client incarnation request =>
      Some (now, OpTerminal (mkTerminalControl client (is_constructive (tr_action request)) incarnation))
  | GwHelloAnswer session now answer =>
      match gw_connections g !! session with
      | Some c =>
          match cn_hello c, answer with
          | Some (HelloAsked _ hello observed), Ok (true, _) =>
              Some (now, OpRegister (hello_client_id hello)
                           (mkSession (cn_session_id c) (hello_incarnation hello)) observed)
          | _, _ => None
          end
      | None => None
      end
  | GwHelloReply session _ =>
      match gw_connections g !! session with
      | Some c => match cn_hello c with
                  | Some (HelloRegistered _ client) => Some (0, OpReconnected client)
                  | _ => None
                  end
      | None => None
      end
  | GwFinalize session | GwShutdown session =>
      match gw_connections g !! session with
      | Some c => match cn_client_id c with
                  | Some client => Some (0, OpUnregister client (cn_session_id c))
                  | None => None
                  end
      | None => None
      end
  | GwOffline session now =>
      match gw_connections g !! session with
      | Some c => match cn_client_id c with Some client => Some (now, OpDisconnected client) | None => None end
      | None => None
      end
  | _ => None
  end.

Lemma deliver_close_state closed g : gw_state (deliver_close closed g) = gw_state g.
Proof. unfold deliver_close. repeat case_match; done. Qed.

Lemma try_send_state session message g : gw_state (snd (try_send session message g)) = gw_state g.
Proof. unfold try_send. repeat case_match; done. Qed.

Lemma on_connection_state session f g :
  gw_state (on_connection session f g)
  = match gw_connections g !! session with Some c => snd (f c g) | None => gw_state g end.
Proof. unfold on_connection. destruct (gw_connections g !! session) as [c|]; [|done]. by destruct (f c g). Qed.

Lemma dispatch_command_state now later deadline fresh d g :
  gw_state (snd (dispatch_command now later deadline fresh d g))
  = snd (dispatch_gateway_command (gw_state g) deadline now later fresh (dispatch_of d)).
Proof.
  unfold dispatch_command. destruct (dispatch_gateway_command _ _ _ _ _ _) as [r s].
  destruct r; try done. destruct (sessions (gw_state g) !! _); [|done].
  match goal with |- context [try_send ?a ?b ?c] => pose proof (try_send_state a b c) as Ht;
    destruct (try_send a b c) end. exact Ht.
Qed.

Lemma terminal_control_state now client incarnation request g :
  gw_state (snd (terminal_control now client incarnation request g))
  = snd (dispatch_terminal_control (gw_state g) now
           (mkTerminalControl client (is_constructive (tr_action request)) incarnation)).
Proof.
  unfold terminal_control. destruct (dispatch_terminal_control _ _ _) as [r s].
  destruct r; try done. destruct (sessions s !! client); [|done].
  match goal with |- context [try_send ?a ?b ?c] => pose proof (try_send_state a b c) as Ht;
    destruct (try_send a b c) end. exact Ht.
Qed.

(** An event changes the shared state by its transition, or not at all. *)
Lemma gateway_step_state g event :
  gw_state (gateway_step g event) = gw_state g \/
  exists now op, gateway_op g event = Some (now, op) /\
    gw_state (gateway_step g event) = snd (step (gw_state g) now op).
Proof.
  destruct event; cbn [gateway_step gateway_op]; try rewrite !on_connection_state; try (by left).
  - destruct (control_op op); [|by left]. right. exists now, op. split; [done|].
    destruct (step _ _ _) as [ev s]. by rewrite deliver_close_state.
  - right. eexists _, _. split; [done|]. rewrite dispatch_command_state. cbn.
    by destruct (dispatch_gateway_command _ _ _ _ _ _).
  - left. unfold cancel_gateway_command. destruct (sessions _ !! client) as [session|]; [|done].
    pose proof (try_send_state (session_id session) (MsgCancel request) g). by destruct (try_send _ _ _).
  - right. eexists _, _. split; [done|]. rewrite terminal_control_state. cbn.
    by destruct (dispatch_terminal_control _ _ _).
  - left. by destruct (gw_connections g !! session).
  - left. by destruct (gw_connections g !! session).
  - destruct (gw_connections g !! session) as [c|]; [|by left]. unfold hello_answered.
    destruct (cn_hello c) as [[seq hello observed|? ?]|]; try (by left).
    destruct answer as [[[] message]|e]; try (by left).
    right. eexists _, _. split; [done|]. cbn.
    destruct (register_session_after_accepted_hello _ _ _ _ _) as [[[] closed] s];
      by rewrite deliver_close_state.
  - destruct (gw_connections g !! session) as [c|]; [|by left]. unfold hello_replied.
    destruct (cn_hello c) as [[? ? ?|seq client]|]; try (by left).
    right. eexists _, _. by split.
  - left. by destruct (gw_connections g !! session).
  - destruct (gw_connections g !! session) as [c|]; [|by left].
    destruct (cn_ended c ≫= session_end_reason); [|by left]. unfold finalize.
    destruct (cn_finalized c); [by left|]. destruct (cn_client_id c); [|by left].
    right. eexists _, _. split; [done|]. cbn. by destruct (unregister_session_if_current _ _ _).
  - destruct (gw_connections g !! session) as [c|]; [|by left].
    destruct (cn_ended c); [by left|]. unfold finalize. cbn [cn_finalized cn_client_id end_connection].
    destruct (cn_finalized c); [by left|]. destruct (cn_client_id c); [|by left].
    right. eexists _, _. split; [done|]. cbn. by destruct (unregister_session_if_current _ _ _).
  - destruct (gw_connections g !! session) as [c|]; [|by left]. unfold finalize_offline.
    destruct (cn_offline_due c); [|by left]. destruct (cn_client_id c); [|by left].
    right. eexists _, _. by split.
Qed.

(** The whole gateway refines the fence transitions: whatever connections, callers and the API do,
    the registry, the fences, the generations and the enqueue markers go through a sequence of the
    transitions of the fence model, so what is proved of every run of that model holds here. *)
Theorem gateway_refines_fences g events :
  exists ops, gw_state (gateway_run g events) = snd (run (gw_state g) ops).
Proof.
  revert g. induction events as [|event events IH]; intros g; [by exists []|].
  destruct (IH (gateway_step g event)) as (ops & Hops). change (gateway_run g (event :: events))
    with (gateway_run (gateway_step g event) events).
  destruct (gateway_step_state g event) as [E|(now & op & _ & E)]; rewrite Hops, E; [by exists ops|].
  exists ((now, op) :: ops). cbn. destruct (step (gw_state g) now op) as [ev s1]. cbn. by destruct (run s1 ops).
Qed.

End Gateway.
