(* ===== verification/GatewaySessionTheorems.v ===== *)
(** Theorems on the gateway as a whole ([GatewaySessions]): a leased client gets no
    command and no session, a route leads to a live connection, the outputs of a
    command reach the API in order, and what a long close reason does. *)

From stdpp Require Import gmap.
From S2P Require Import Prelude RustStd Frame JobCommands CommandLedger AgentCommands GatewayFence GatewayFenceProofs GatewaySessions GatewaySessionProofs.

Open Scope Z_scope.

#[local] Arguments lit : simpl never.

(** * A client under a deletion lease *)

(** The event neither speaks for the owner of the lease nor reads a clock past it. *)
Definition quiet (client : str) (f : DispatchFence) (until : Instant) (event : GatewayEvent) : Prop :=
  match event with
  | GwControl now op =>
      Forall (fun t => t < until) (readings now op) /\
      acts_as client (f_token f) (f_generation f) op = false
  | GwDispatch now later _ _ _ => now < until /\ later < until
  | GwTerminal now _ _ _ | GwHelloAnswer _ now _ => now < until
  | _ => True
  end.

(** A dispatch for the client is refused before anything is sent. *)
Definition refuses (client : str) (g : Gateway) (event : GatewayEvent) : Prop :=
  match event with
  | GwDispatch now later deadline fresh d =>
      gd_client_id d = client -> snd (fst (dispatch_command now later deadline fresh d g)) = None
  | _ => True
  end.

Section Lease.
Context `{GatewayEnv}.

Fixpoint all_refused (client : str) (g : Gateway) (events : list GatewayEvent) : Prop :=
  match events with
  | [] => True
  | event :: events' => refuses client g event /\ all_refused client (gateway_step g event) events'
  end.

Lemma dispatch_refused client g now later deadline fresh d f :
  fences (gw_state g) !! client = Some f -> is_prepared f = true -> gd_client_id d = client ->
  snd (fst (dispatch_command now later deadline fresh d g)) = None.
Proof.
  intros Hf Hp Hc. unfold dispatch_command.
  destruct (dispatch_gateway_command _ _ _ _ _ _) as [r s] eqn:E.
  assert (Hn : enqueues client (EvDispatched (dispatch_of d) r) = false).
  { apply (prepared_no_enqueue (gw_state g) now (OpDispatch deadline later fresh (dispatch_of d)) _ s client f);
      [|done|done]. cbn. by rewrite E. }
  destruct r; try done. cbn in Hn. bools. congruence.
Qed.

(** The transitions of a connection's end and of its hello's reply. *)
Lemma presence_fences s now op :
  match op with OpReconnected _ | OpUnregister _ _ | OpDisconnected _ => True | _ => False end ->
  fences (snd (step s now op)) = fences s.
Proof.
  destruct op; try done; intros _; cbn; try done. unfold unregister_session_if_current.
  by destruct (session_current _ _ _).
Qed.

Lemma leased_step client f until fallback g event :
  fences (gw_state g) !! client = Some f -> f_state f = Prepared until fallback -> f_purpose f = Deletion ->
  quiet client f until event -> fences (gw_state (gateway_step g event)) !! client = Some f.
Proof.
  intros Hf Hst Hp Hq. destruct (gateway_step_state g event) as [->|(now & op & Ho & ->)]; [done|].
  assert (Hlease : Forall (fun t => t < until) (readings now op) ->
    acts_as client (f_token f) (f_generation f) op = false -> fences (snd (step (gw_state g) now op)) !! client = Some f).
  { intros Hr Ha. destruct (step (gw_state g) now op) as [ev s] eqn:E.
    by eapply (deletion_lease_step _ _ _ _ _ _ _ _ _ E). }
  destruct event; cbn in Ho, Hq; simplify_eq; repeat (case_match; simplify_eq);
    try (by rewrite presence_fences); first [apply Hlease; tauto|apply Hlease; [cbn; rewrite !Forall_cons, Forall_nil; tauto|done]].
Qed.

(** ** Sessions *)

(** A transition adds a session only by registering it. *)
Lemma step_sessions s now op client x :
  match op with OpRegister c _ _ => c <> client | _ => True end ->
  sessions (snd (step s now op)) !! client = Some x -> sessions s !! client = Some x.
Proof.
  intros Ho. destruct op; cbn -[unregister_session_if_current].
  - unfold acquire_gateway_client_dispatch_fence, acquire_generation. repeat (case_match; simplify_eq); done.
  - unfold prepare_gateway_client_dispatch_fence, prepare_same_owner, prepare_other_owner,
      retire_client_dispatch_fence_generation, protected_enqueued_job_ids.
    repeat (case_match; simplify_eq); done.
  - unfold promote_gateway_client_dispatch_fence, protected_enqueued_job_ids.
    repeat (case_match; simplify_eq); done.
  - unfold clear_gateway_client_dispatch_fence, retire_client_dispatch_fence_generation.
    repeat (case_match; simplify_eq); done.
  - unfold dispatch_gateway_command, dispatch_enqueue. repeat (case_match; simplify_eq); done.
  - unfold rollback_failed_command_enqueue. repeat (case_match; simplify_eq); done.
  - unfold dispatch_terminal_control, terminal_control_fenced. repeat (case_match; simplify_eq); done.
  - unfold disconnect_gateway_session. repeat (case_match; simplify_eq); cbn; try done;
      by intros [_ ?]%lookup_delete_Some.
  - unfold register_session_after_accepted_hello, insert_session, retire_client_dispatch_fence_generation.
    repeat (case_match; simplify_eq); cbn; rewrite ?lookup_insert_ne by done; done.
  - done.
  - unfold unregister_session_if_current. destruct (session_current _ _ _); cbn; [|done].
    by intros [_ ?]%lookup_delete_Some.
  - done.
  - unfold close_agent_session_now. destruct (sessions s !! client0); cbn; [|done].
    by intros [_ ?]%lookup_delete_Some.
  - unfold invalidate_agent_session_if_current. destruct (session_current _ _ _); cbn; [|done].
    by intros [_ ?]%lookup_delete_Some.
  - unfold refresh_client_route_after_committed_telemetry, retire_client_dispatch_fence_generation.
    repeat (case_match; simplify_eq); done.
  - done.
  - done.
Qed.

Lemma leased_register_refused s now client session observed f until fallback :
  fences s !! client = Some f -> f_state f = Prepared until fallback -> f_purpose f = Deletion ->
  now < until ->
  sessions (snd (register_session_after_accepted_hello s now client session observed)) = sessions s.
Proof.
  intros Hf Hst Hp Hnow. unfold register_session_after_accepted_hello. cbn [fences set_fences].
  rewrite normalize_same, Hf. cbn [option_map]. unfold lease_expired_at. rewrite Hst, (proj2 (Z.leb_gt _ _) Hnow).
  unfold accepted_hello_owns_current_fence, requires_durable_recheck. by rewrite Hp, Hst, andb_false_r.
Qed.

Lemma leased_sessions client f until fallback g event x :
  fences (gw_state g) !! client = Some f -> f_state f = Prepared until fallback -> f_purpose f = Deletion ->
  quiet client f until event ->
  sessions (gw_state (gateway_step g event)) !! client = Some x -> sessions (gw_state g) !! client = Some x.
Proof.
  intros Hf Hst Hp Hq. destruct (gateway_step_state g event) as [->|(now & op & Ho & ->)]; [done|].
  assert (Hreg : (exists session observed, op = OpRegister client session observed) \/
    match op with OpRegister c _ _ => c <> client | _ => True end).
  { destruct op as [| | | | | | | |c session observed| | | | | | | |]; try (by right).
    destruct (decide (c = client)) as [->|]; [left; by exists session, observed|by right]. }
  destruct Hreg as [(session & observed & ->)|Hne]; [|by apply step_sessions].
  assert (Hnow : now < until).
  { destruct event; cbn in Ho, Hq; simplify_eq; repeat (case_match; simplify_eq); done. }
  cbn. pose proof (leased_register_refused _ now client session observed f until fallback Hf Hst Hp Hnow) as E.
  destruct (register_session_after_accepted_hello _ _ _ _ _) as [[r closed] s1]. cbn in E |- *. by rewrite E.
Qed.

(** C11: A client under a deletion lease is closed off: while the lease has not expired and its owner
    stays silent, whatever the API, other callers and any number of agent connections do, the lease
    stays, every dispatch for the client is refused before anything is sent to an agent, and no new
    session of the client is registered. *)
Theorem leased_client_closed_off g events client f until fallback :
  fences (gw_state g) !! client = Some f -> f_state f = Prepared until fallback -> f_purpose f = Deletion ->
  Forall (quiet client f until) events ->
  let g' := gateway_run g events in
  fences (gw_state g') !! client = Some f /\ all_refused client g events /\
  forall x, sessions (gw_state g') !! client = Some x -> sessions (gw_state g) !! client = Some x.
Proof.
  intros Hf Hst Hp Hq. cbn zeta. revert g Hf. induction Hq as [|event events He Hes IH]; intros g Hf; [done|].
  change (gateway_run g (event :: events)) with (gateway_run (gateway_step g event) events).
  destruct (IH (gateway_step g event) (leased_step _ _ _ _ _ _ Hf Hst Hp He)) as (Hf' & Hr & Hs).
  split; [done|]. split; [split; [|done]|].
  - destruct event; try done. cbn. intros Hc. eapply dispatch_refused; [exact Hf| |done].
    unfold is_prepared. by rewrite Hst.
  - intros x Hx. by eapply leased_sessions, Hs.
Qed.

End Lease.

(** * Routes lead to live connections *)

(** A transition that leaves the connection's identity and end alone, or ends it. *)
Record conn_same (c c' : Connection) : Prop := {
  same_client : cn_client_id c' = cn_client_id c;
  same_session : cn_session_id c' = cn_session_id c;
  same_finalized : cn_finalized c' = cn_finalized c;
  same_phase : (cn_hello c' = cn_hello c /\ cn_ended c' = cn_ended c) \/
    (cn_hello c' = None /\ is_Some (cn_ended c'));
}.

#[export] Instance conn_same_preorder : PreOrder conn_same.
Proof.
  split.
  - intros c. split; try done. by left.
  - intros c1 c2 c3 [A1 A2 A3 A4] [B1 B2 B3 B4]. split; [congruence..|].
    destruct B4 as [[B4 B5]|B4]; [|by right]. rewrite B4, B5. exact A4.
Qed.

Lemma conn_same_intro c c' :
  cn_client_id c' = cn_client_id c -> cn_session_id c' = cn_session_id c ->
  cn_finalized c' = cn_finalized c -> cn_hello c' = cn_hello c -> cn_ended c' = cn_ended c -> conn_same c c'.
Proof. intros. split; try done. by left. Qed.

Lemma end_connection_same e c : conn_same c (end_connection e c).
Proof. split; try done. right. split; [done|by eexists]. Qed.

Lemma post_same io p c : conn_same c (snd (post io p c)).
Proof. unfold post. by destruct (io_post io); apply conn_same_intro. Qed.

Lemma write_numbered_same io kind stream payload c : conn_same c (snd (write_numbered io kind stream payload c)).
Proof. unfold write_numbered. by destruct (io_write io); apply conn_same_intro. Qed.

Section Routes.
Context `{GatewayEnv}.

Lemma handle_output_same io sequenced c : conn_same c (snd (handle_output io sequenced c)).
Proof.
  unfold handle_output, post. repeat (case_match; simplify_eq); cbn [snd]; try done; by apply conn_same_intro.
Qed.

Lemma handle_agent_frame_same s io frame c : conn_same c (snd (handle_agent_frame s io frame c)).
Proof.
  destruct frame; cbn [handle_agent_frame]; try done.
  - repeat case_match; try done; apply post_same.
  - unfold handle_ack. repeat (case_match; simplify_eq); try done; by apply conn_same_intro.
  - unfold handle_cancel_ack. repeat case_match; try done; by apply conn_same_intro.
  - unfold handle_terminal_ack. repeat (case_match; simplify_eq); try done; by apply conn_same_intro.
  - unfold handle_resume. repeat case_match; try done; by apply conn_same_intro.
  - repeat case_match; try done; apply write_numbered_same.
  - repeat case_match; try done; apply post_same.
  - apply handle_output_same.
  - repeat case_match; try done; apply post_same.
Qed.

Lemma forward_message_same io message c : conn_same c (snd (forward_message io message c)).
Proof.
  unfold forward_message, write_numbered. destruct (io_write io);
    repeat (case_match; simplify_eq); cbn [snd]; try done; by apply conn_same_intro.
Qed.

Lemma close_changed_same io c : conn_same c (snd (close_changed io c)).
Proof.
  unfold close_changed, write_numbered. destruct (default _ (cn_close c)); [destruct (io_write io)|];
    cbn [snd]; by apply conn_same_intro.
Qed.

Lemma loop_turn_same s gone io arm c : conn_same c (loop_turn s gone io arm c).
Proof.
  unfold loop_turn. destruct (looping c); [|done].
  assert (Hg : conn_same c (forget_gone gone c)) by by apply conn_same_intro.
  set (c1 := forget_gone gone c) in *. clearbody c1.
  destruct (loop_arm s io arm c1) as [r|] eqn:E; [|done]. etrans; [exact Hg|].
  assert (Hr : conn_same c1 (snd r)).
  { destruct arm; cbn [loop_arm] in E.
    - destruct (_ && _ && _); [|done]. injection E as <-. apply close_changed_same.
    - destruct (bool_decide _); [|done]. injection E as <-. by apply conn_same_intro.
    - injection E as <-. apply handle_agent_frame_same.
    - by injection E as <-.
    - destruct (cn_queue c1) as [|message queue]; [done|]. destruct (_ && _); [|done].
      injection E as <-. etrans; [|apply forward_message_same]. by apply conn_same_intro. }
  unfold settle. destruct (fst r); [done|]. etrans; [exact Hr|apply end_connection_same].
Qed.

(** ** The invariant *)

Context (owner : Z -> str).

(** What a connection's identity rests on: the one client its key is enrolled for. *)
Record route_conn (session : Z) (c : Connection) : Prop := {
  rc_session : cn_session_id c = session;
  rc_client : forall client, cn_client_id c = Some client -> client = owner session;
  rc_hello : forall seq hello observed, cn_hello c = Some (HelloAsked seq hello observed) ->
    hello_client_id hello = owner session;
  rc_ended : is_Some (cn_ended c) -> cn_hello c = None;
  rc_finalized : cn_finalized c = true -> is_Some (cn_ended c);
}.

Record routes_ok (g : Gateway) : Prop := {
  ro_connections : map_Forall route_conn (gw_connections g);
  ro_routes : forall client x, sessions (gw_state g) !! client = Some x ->
    exists c, gw_connections g !! session_id x = Some c /\ cn_client_id c = Some client /\
              cn_finalized c = false;
}.

Lemma route_conn_same session c c' : conn_same c c' -> route_conn session c -> route_conn session c'.
Proof.
  intros [E1 E2 E3 E4] [H1 H2 H3 H4 H5]. split.
  - congruence.
  - intros client. rewrite E1. apply H2.
  - intros seq hello observed Hh. destruct E4 as [[E4 _]|[E4 _]]; [|congruence]. rewrite E4 in Hh. by eapply H3.
  - destruct E4 as [[E4 E5]|[E4 _]]; [rewrite E4, E5; exact H4|done].
  - rewrite E3. intros Hf. destruct E4 as [[_ E5]|[_ E5]]; [rewrite E5; by apply H5|done].
Qed.

(** A connection changes while its routes stay. *)
Lemma routes_ok_connection g session c c' s' :
  gw_connections g !! session = Some c -> route_conn session c' ->
  (cn_client_id c' = cn_client_id c \/ cn_client_id c = None \/ cn_client_id c' = Some (owner session)) ->
  (cn_finalized c' = cn_finalized c \/ forall client x, sessions s' !! client = Some x -> session_id x <> session) ->
  (forall client x, sessions s' !! client = Some x -> sessions (gw_state g) !! client = Some x) ->
  routes_ok g -> routes_ok (set_connection session c' (set_gateway_state s' g)).
Proof.
  intros Hc Hc' Hcl Hfin Hsub [H1 H2]. split; cbn.
  - by apply map_Forall_insert_2.
  - intros client x Hx. destruct (H2 client x (Hsub client x Hx)) as (y & Hy & Hyc & Hyf).
    destruct (decide (session_id x = session)) as [E|Hne].
    + rewrite E in Hy. rewrite E, lookup_insert_eq. simplify_eq. exists c'. split; [done|].
      pose proof (rc_client _ _ (H1 _ _ Hc) client Hyc) as Ho. split.
      * destruct Hcl as [Hcl|[Hcl|Hcl]]; [congruence|congruence|]. by rewrite Ho.
      * destruct Hfin as [Hfin|Hfin]; [congruence|]. by destruct (Hfin client x Hx).
    + rewrite lookup_insert_ne by done. by exists y.
Qed.

Lemma routes_ok_state g s' :
  (forall client x, sessions s' !! client = Some x -> sessions (gw_state g) !! client = Some x) ->
  routes_ok g -> routes_ok (set_gateway_state s' g).
Proof. intros Hs [H1 H2]. split; [done|]. intros client x Hx. by apply H2, Hs. Qed.

Lemma routes_ok_same g session c c' :
  gw_connections g !! session = Some c -> conn_same c c' -> routes_ok g -> routes_ok (set_connection session c' g).
Proof.
  intros Hc Hs Hok. replace g with (set_gateway_state (gw_state g) g) at 1 by by destruct g.
  eapply (routes_ok_connection g session c); try done.
  - eapply route_conn_same; [exact Hs|]. by apply Hok.
  - left. apply Hs.
  - left. apply Hs.
Qed.

Lemma deliver_close_routes closed g : routes_ok g -> routes_ok (deliver_close closed g).
Proof.
  intros Hok. unfold deliver_close. destruct closed as [[session request]|]; [|done].
  destruct (gw_connections g !! session) as [c|] eqn:E; [|done]. destruct (cn_ended c); [done|].
  eapply routes_ok_same; [exact E|by apply conn_same_intro|done].
Qed.

Lemma try_send_routes session message g : routes_ok g -> routes_ok (snd (try_send session message g)).
Proof.
  intros Hok. unfold try_send. cbn [gw_connections].
  assert (Hb : forall n chs, routes_ok (mkGateway (gw_state g) (gw_connections g) n chs (gw_gone g)))
    by (intros n chs; destruct Hok; by split).
  destruct (gw_connections g !! session) as [c|] eqn:E; [|apply Hb]. destruct (cn_ended c); [apply Hb|].
  destruct (_ <=? _); [apply Hb|]. cbn [snd].
  match goal with |- routes_ok (mkGateway _ (<[_ := ?c']> _) ?n ?chs _) =>
    apply (routes_ok_same (mkGateway (gw_state g) (gw_connections g) n chs (gw_gone g)) session c c' E) end;
    [by apply conn_same_intro|apply Hb].
Qed.

Lemma sends_routes session message g r g' :
  try_send session message g = (r, g') -> routes_ok g -> routes_ok g'.
Proof. intros E Hok. apply (try_send_routes session message) in Hok. by rewrite E in Hok. Qed.

Lemma accept_routes session key g :
  gw_connections g !! session = None -> routes_ok g ->
  routes_ok (set_connection session (new_connection session key) g).
Proof.
  intros Hn [H1 H2]. split; cbn.
  - apply map_Forall_insert_2; [|done]. by split.
  - intros client x Hx. destruct (H2 client x Hx) as (c & Hc & Hr). exists c. split; [|done].
    rewrite lookup_insert_ne; [done|]. congruence.
Qed.

(** A registration: the new route leads to the connection that said hello. *)
Lemma register_routes g session c now answer :
  gw_connections g !! session = Some c -> routes_ok g ->
  let '(c', closed, s') := hello_answered (gw_state g) now answer c in
  routes_ok (set_connection session c' (set_gateway_state s' g)).
Proof.
  intros Hc Hok. pose proof (ro_connections _ Hok _ _ Hc) as Hrc. unfold hello_answered.
  assert (Hend : forall e, routes_ok (set_connection session (end_connection e c) (set_gateway_state (gw_state g) g))).
  { intros e. replace (set_gateway_state (gw_state g) g) with g by by destruct g.
    eapply routes_ok_same; [exact Hc|apply end_connection_same|done]. }
  assert (Hstay : routes_ok (set_connection session c (set_gateway_state (gw_state g) g))).
  { replace (set_gateway_state (gw_state g) g) with g by by destruct g.
    eapply routes_ok_same; [exact Hc|reflexivity|done]. }
  destruct (cn_hello c) as [[seq hello observed|? ?]|] eqn:Eh; try done.
  destruct answer as [[[] message]|e]; try apply Hend.
  pose proof (rc_hello _ _ Hrc _ _ _ Eh) as Ho. set (client := hello_client_id hello) in *.
  assert (Hlive : cn_ended c = None /\ cn_finalized c = false).
  { destruct (cn_ended c) eqn:Ee; [rewrite (rc_ended _ _ Hrc) in Eh; [done|by rewrite Ee; eexists]|].
    split; [done|]. destruct (cn_finalized c) eqn:Ef; [|done].
    destruct (rc_finalized _ _ Hrc Ef). congruence. }
  destruct Hlive as [Hle Hlf]. set (x := mkSession _ _).
  assert (Hold : forall client' y, client' <> client ->
    sessions (snd (register_session_after_accepted_hello (gw_state g) now client x observed)) !! client' = Some y ->
    sessions (gw_state g) !! client' = Some y).
  { intros client' y Hne Hy. apply (step_sessions _ now (OpRegister client x observed) client' y); [by cbn|].
    cbn. by destruct (register_session_after_accepted_hello _ _ _ _ _) as [[? ?] ?]. }
  destruct (register_session_after_accepted_hello (gw_state g) now client x observed) as [[r closed] s'] eqn:Er.
  cbn [snd] in Hold. destruct r.
  - split; cbn.
    + apply map_Forall_insert_2; [|apply Hok]. destruct Hrc as [Hs _ _ _ _]. split; cbn; try done.
      * intros ? [= <-]. done.
      * rewrite Hle. by intros [? ?].
      * by rewrite Hlf.
    + intros client' y Hy. destruct (decide (client' = client)) as [->|Hne].
      * assert (y = x) as ->.
        { unfold register_session_after_accepted_hello, insert_session in Er.
          repeat (case_match; simplify_eq); cbn in Hy; rewrite lookup_insert_eq in Hy; congruence. }
        cbn. rewrite (rc_session _ _ Hrc), lookup_insert_eq. eexists. split; [done|]. done.
      * destruct (ro_routes _ Hok client' y (Hold _ _ Hne Hy)) as (z & Hz & Hzc & Hzf).
        rewrite lookup_insert_ne; [by exists z|]. intros ->. simplify_eq.
        apply Hne. rewrite (rc_client _ _ Hrc client' Hzc). done.
  - assert (Hsess : sessions s' = sessions (gw_state g)).
    { unfold register_session_after_accepted_hello, insert_session in Er. repeat (case_match; simplify_eq). done. }
    eapply (routes_ok_connection g session c); [done| | | | |done].
    + eapply route_conn_same; [apply end_connection_same|]. destruct Hrc as [Hs _ Hh He Hf]. split; cbn; try done.
      intros ? [= <-]. done.
    + right; right. cbn. by rewrite <- Ho.
    + by left.
    + intros client' y. by rewrite Hsess.
Qed.

Lemma finalize_routes g session c c0 reason :
  gw_connections g !! session = Some c0 -> conn_same c0 c -> is_Some (cn_ended c) -> routes_ok g ->
  let '(c', s') := finalize (gw_state g) reason c in routes_ok (set_connection session c' (set_gateway_state s' g)).
Proof.
  intros Hc Hsame Hend Hok. pose proof (ro_connections _ Hok _ _ Hc) as Hrc0.
  pose proof (route_conn_same _ _ _ Hsame Hrc0) as Hrc.
  assert (Hdone : route_conn session (set_finalized true true c)) by (destruct Hrc; by split).
  unfold finalize. destruct (cn_finalized c) eqn:Ef.
  - eapply (routes_ok_connection g session c0); try done; [left; apply Hsame|left; apply Hsame].
  - destruct (cn_client_id c) as [client|] eqn:Ec.
    + unfold unregister_session_if_current. rewrite (rc_session _ _ Hrc).
      assert (Hroute : forall client' x, sessions (gw_state g) !! client' = Some x -> session_id x = session ->
        client' = client).
      { intros client' x Hx <-. destruct (ro_routes _ Hok client' x Hx) as (y & Hy & Hyc & _). simplify_eq.
        rewrite <- (same_client _ _ Hsame) in Hyc. congruence. }
      destruct (session_current (gw_state g) client session) eqn:Ecur;
        (eapply (routes_ok_connection g session c0); [done|destruct Hdone; by split|left; cbn; by rewrite <- (same_client _ _ Hsame)|right|..|done]).
      * intros client' x Hx Hid. cbn in Hx. apply lookup_delete_Some in Hx as [Hne Hx].
        apply Hne. by rewrite (Hroute client' x Hx Hid).
      * cbn. by intros client' x [_ ?]%lookup_delete_Some.
      * intros client' x Hx Hid. rewrite (Hroute client' x Hx Hid) in Hx. unfold session_current in Ecur.
        rewrite Hx in Ecur. bools. congruence.
      * done.
    + eapply (routes_ok_connection g session c0); [done|destruct Hdone; by split|left; cbn; by rewrite <- (same_client _ _ Hsame)|right|done|done].
      intros client' x Hx Hid. destruct (ro_routes _ Hok client' x Hx) as (y & Hy & Hyc & _).
      rewrite Hid in Hy. simplify_eq. rewrite <- (same_client _ _ Hsame) in Hyc. congruence.
Qed.

(** A hello the API accepts names the client the connection's key is enrolled for. *)
Definition enrolled (event : GatewayEvent) : Prop :=
  match event with
  | GwHello session _ hello (Ok (true, _)) => hello_client_id hello = owner session
  | _ => True
  end.

Lemma on_connection_routes session f g :
  (forall c, gw_connections g !! session = Some c ->
     let '(c', s') := f c g in routes_ok (set_connection session c' (set_gateway_state s' g))) ->
  routes_ok g -> routes_ok (on_connection session f g).
Proof.
  intros Hf Hok. unfold on_connection. destruct (gw_connections g !! session) as [c|] eqn:E; [|done].
  specialize (Hf c eq_refl). by destruct (f c g).
Qed.

Lemma own_turn_routes g session c c' s' :
  gw_connections g !! session = Some c -> conn_same c c' -> sessions s' = sessions (gw_state g) ->
  routes_ok g -> routes_ok (set_connection session c' (set_gateway_state s' g)).
Proof.
  intros Hc Hsame Hs Hok. eapply (routes_ok_connection g session c); [done| | | | |done].
  - eapply route_conn_same; [exact Hsame|]. by apply Hok.
  - left. apply Hsame.
  - left. apply Hsame.
  - intros client x. by rewrite Hs.
Qed.

Lemma hello_asked_routes g session seq hello identity c c0 :
  gw_connections g !! session = Some c0 -> conn_same c0 c -> looping c = true ->
  enrolled (GwHello session seq hello identity) -> routes_ok g ->
  routes_ok (set_connection session (hello_asked (gw_state g) seq hello identity c)
               (set_gateway_state (gw_state g) g)).
Proof.
  intros Hc Hsame Hl He Hok.
  assert (Hend : forall e, routes_ok (set_connection session (end_connection e c) (set_gateway_state (gw_state g) g))).
  { intros e. eapply own_turn_routes; [exact Hc|etrans; [exact Hsame|apply end_connection_same]|done|done]. }
  unfold hello_asked. destruct (cn_noise_public_key c); [|apply Hend].
  destruct identity as [[[] message]|e]; try apply Hend. cbn in He.
  pose proof (route_conn_same _ _ _ Hsame (ro_connections _ Hok _ _ Hc)) as [H1 H2 H3 H4 H5].
  unfold looping in Hl. destruct (cn_ended c) eqn:Ee; [done|].
  eapply (routes_ok_connection g session c0); [done| |left; apply Hsame|left; apply Hsame|done|done].
  split; cbn; try done.
  - intros ? ? ? [= <- <- <-]. done.
  - rewrite Ee. by intros [? ?].
  - intros Hf. by apply H5 in Hf.
Qed.

Lemma gateway_step_routes g event : enrolled event -> routes_ok g -> routes_ok (gateway_step g event).
Proof.
  intros He Hok.
  assert (Hsame : forall session c c' s', gw_connections g !! session = Some c -> conn_same c c' ->
    sessions s' = sessions (gw_state g) -> routes_ok (set_connection session c' (set_gateway_state s' g)))
    by (intros; by eapply own_turn_routes).
  destruct event; cbn [gateway_step].
  - destruct (control_op op) eqn:Eop; [|done].
    pose proof (step_sessions (gw_state g) now op) as Hs. destruct (step _ _ _) as [ev s].
    apply deliver_close_routes, routes_ok_state; [|done]. intros client x Hx. apply Hs; [|done]. by destruct op.
  - unfold dispatch_command.
    pose proof (fun client x => step_sessions (gw_state g) now (OpDispatch deadline later fresh (dispatch_of d)) client x I) as Hs.
    cbn [step] in Hs. destruct (dispatch_gateway_command _ _ _ _ _ _) as [r s]. cbn [snd] in Hs.
    assert (Hg : routes_ok (set_gateway_state s g)) by by apply routes_ok_state.
    destruct r; try done. destruct (sessions (gw_state g) !! _); [|done].
    destruct (try_send _ _ _) as [? g'] eqn:Et. by eapply sends_routes in Et.
  - unfold cancel_gateway_command. destruct (sessions (gw_state g) !! client); [|done].
    destruct (try_send _ _ _) as [? g'] eqn:Et. by eapply sends_routes in Et.
  - unfold terminal_control.
    pose proof (fun client' x => step_sessions (gw_state g) now
      (OpTerminal (mkTerminalControl client (is_constructive (tr_action request)) expected_incarnation)) client' x I) as Hs.
    cbn [step] in Hs. destruct (dispatch_terminal_control _ _ _) as [r s]. cbn [snd] in Hs.
    assert (Hg : routes_ok (set_gateway_state s g)) by by apply routes_ok_state.
    destruct r; try done. destruct (sessions s !! client); [|done].
    destruct (try_send _ _ _) as [? g'] eqn:Et. by eapply sends_routes in Et.
  - destruct Hok. by split.
  - destruct (gw_connections g !! session) eqn:E; [done|by apply accept_routes].
  - apply on_connection_routes; [|done]. intros c Hc. destruct (looping c) eqn:El.
    + eapply hello_asked_routes; [exact Hc|by apply conn_same_intro|done|done|done].
    + by apply (Hsame session c).
  - destruct (gw_connections g !! session) as [c|] eqn:E; [|done].
    pose proof (register_routes g session c now answer E Hok) as Hr.
    destruct (hello_answered _ _ _ _) as [[c' closed] s]. by apply deliver_close_routes.
  - apply on_connection_routes; [|done]. intros c Hc. unfold hello_replied.
    destruct (cn_hello c) as [[? ? ?|seq client]|] eqn:Eh; try by apply (Hsame session c).
    destruct (io_write io); [by apply (Hsame session c); [|apply end_connection_same|]|].
    pose proof (ro_connections _ Hok _ _ Hc) as [H1 H2 H3 H4 H5].
    eapply (routes_ok_connection g session c); [done| |by left|by left|done|done]. by split.
  - apply on_connection_routes; [|done]. intros c Hc. apply (Hsame session c); [done|apply loop_turn_same|done].
  - apply on_connection_routes; [|done]. intros c Hc.
    destruct (cn_ended c ≫= session_end_reason) as [reason|] eqn:Er; [|by apply (Hsame session c)].
    apply finalize_routes with (c0 := c); try done. destruct (cn_ended c); [by eexists|done].
  - apply on_connection_routes; [|done]. intros c Hc. destruct (cn_ended c); [by apply (Hsame session c)|].
    apply finalize_routes with (c0 := c); [done|apply end_connection_same|by eexists|done].
  - apply on_connection_routes; [|done]. intros c Hc. unfold finalize_offline.
    destruct (cn_offline_due c), (cn_client_id c) eqn:Ec; try by apply (Hsame session c).
    apply (Hsame session c); [done|by apply conn_same_intro|done].
Qed.

(** C12: A route leads to a live connection: when the API accepts, for the key a connection presented,
    one client only, then in every state the gateway reaches a client's session is that of a
    connection which said hello as this client and whose end has not been processed; a connection
    that has ended and been finalised is never the target of a dispatch, cancellation, terminal
    control or close, however hellos, replacements, disconnects and ends interleave. *)
Theorem route_leads_to_live_connection epoch events (g := gateway_run (initial_gateway epoch) events) :
  Forall enrolled events ->
  forall client x, sessions (gw_state g) !! client = Some x ->
    exists c, gw_connections g !! session_id x = Some c /\ cn_session_id c = session_id x /\
      cn_client_id c = Some client /\ cn_finalized c = false.
Proof.
  intros He client x Hx.
  assert (Hrun : forall g0, routes_ok g0 -> routes_ok (gateway_run g0 events)).
  { clear g Hx. induction He as [|event events Hev _ IH]; intros g0 Hok; [done|].
    apply (IH (gateway_step g0 event)). by apply gateway_step_routes. }
  assert (Hok : routes_ok g).
  { apply Hrun. split; [apply map_Forall_empty|]. intros ? ? H0. cbn in H0. by rewrite lookup_empty in H0. }
  destruct (ro_routes _ Hok client x Hx) as (c & Hc & Hcl & Hf). exists c.
  split; [done|]. split; [apply (rc_session _ _ (ro_connections _ Hok _ _ Hc))|done].
Qed.

End Routes.

(** * Outputs reach the API in order *)

(** The outputs of a job among what a connection posted. *)
Definition output_posts (job : Z) (posts : list Post) : list (str * CommandOutputIngest) :=
  omap (fun p => match p with
                 | PostOutput target ingest => if oi_job_id ingest =? job then Some (target, ingest) else None
                 | _ => None
                 end) posts.

(** One frame read, with what the surroundings answer during its turn. *)
Definition read_turn : Type := GatewayState * gset Z * Io * AgentFrame.

(** The frame neither ends the pending command of [job] early nor renames it. *)
Definition keeps_command (job : Z) (frame : AgentFrame) : Prop :=
  match frame with
  | FrAck ack => ack_accepted ack = true \/ ack_job_id ack <> job
  | FrResume resume => resume_job_id resume <> job
  | _ => True
  end.

Section Outputs.
Context `{GatewayEnv}.

Definition read_frames (c : Connection) (turns : list read_turn) : Connection :=
  foldl (fun c '(s, gone, io, frame) => loop_turn s gone io (ArmFrame frame) c) c turns.

(** What the API must get: every output of the job up to and including the last one, in order of
    arrival, under the hash and client the command was sent with. *)
Fixpoint expected_posts (job session incarnation : Z) (client hash : str) (turns : list read_turn) :
  list (str * CommandOutputIngest) :=
  match turns with
  | [] => []
  | (_, _, io, frame) :: rest =>
      match frame with
      | FrOutput q =>
          if co_job_id (sq_output q) =? job then
            (client, mkOutputIngest gateway_id session incarnation false client job hash (sq_seq q)
                       (Some (io_unix io)) (sq_output q))
            :: (if co_done (sq_output q) then []
                else expected_posts job session incarnation client hash rest)
          else expected_posts job session incarnation client hash rest
      | _ => expected_posts job session incarnation client hash rest
      end
  end.

(** The connection expects outputs of [job], sent under [hash]. *)
Definition expects (job : Z) (client hash : str) (c : Connection) : Prop :=
  exists p, cn_pending c !! job = Some p /\ pc_client_id p = client /\ pc_payload_hash p = hash.

Lemma output_posts_app job l1 l2 : output_posts job (l1 ++ l2) = output_posts job l1 ++ output_posts job l2.
Proof. unfold output_posts. apply omap_app. Qed.

Lemma ended_reads c turns : is_Some (cn_ended c) -> read_frames c turns = c.
Proof.
  intros He. induction turns as [|[[[s gone] io] frame] turns IH]; [done|]. cbn.
  unfold loop_turn, looping. destruct (cn_ended c) eqn:E; [|by destruct He]. exact IH.
Qed.

Definition pending_job (c : Connection) : Prop := map_Forall (fun job p => pc_job_id p = job) (cn_pending c).

(** What stays the same over a frame that is not an output of the job. *)
Record frame_keeps (job : Z) (c c' : Connection) : Prop := {
  fk_expects : forall client hash, expects job client hash c -> expects job client hash c';
  fk_absent : cn_pending c !! job = None -> cn_pending c' !! job = None;
  fk_posts : output_posts job (cn_posts c') = output_posts job (cn_posts c);
  fk_jobs : pending_job c -> pending_job c';
  fk_incarnation : cn_incarnation c' = cn_incarnation c;
  fk_session : cn_session_id c' = cn_session_id c;
  fk_hello : cn_hello c' = cn_hello c;
}.

#[local] Instance frame_keeps_preorder job : PreOrder (frame_keeps job).
Proof.
  split; [by intros c; split|]. intros c1 c2 c3 [] []. split; try congruence; eauto.
Qed.

Lemma frame_keeps_intro job c c' :
  cn_pending c' = cn_pending c -> output_posts job (cn_posts c') = output_posts job (cn_posts c) ->
  cn_incarnation c' = cn_incarnation c -> cn_session_id c' = cn_session_id c -> cn_hello c' = cn_hello c ->
  frame_keeps job c c'.
Proof. intros E1 E2 E3 E4 E5. split; try done; unfold expects, pending_job; by rewrite E1. Qed.

(** A pending command of any job takes a value that keeps this job's client and hash. *)
Lemma frame_keeps_pending job other p p' c :
  cn_pending c !! other = Some p -> pc_job_id p' = pc_job_id p ->
  (other = job -> pc_client_id p' = pc_client_id p /\ pc_payload_hash p' = pc_payload_hash p) ->
  frame_keeps job c (set_pending (<[ other := p' ]> (cn_pending c)) c).
Proof.
  intros Hp Hj Hk. split; try done.
  - intros client hash (q & Hq & Hc & Hh). destruct (decide (other = job)) as [->|Hne].
    + simplify_eq. destruct (Hk eq_refl) as [E1 E2]. exists p'. cbn. rewrite lookup_insert_eq. done.
    + exists q. cbn. by rewrite lookup_insert_ne.
  - intros Hn. cbn. apply lookup_insert_None. split; [done|congruence].
  - intros Hjobs. apply map_Forall_insert_2; [|done]. rewrite Hj. by apply (Hjobs other p).
Qed.

Lemma frame_keeps_delete job other c :
  other <> job -> frame_keeps job c (set_pending (delete other (cn_pending c)) c).
Proof.
  intros Hne. split; try done.
  - intros client hash (q & Hq & Hr). exists q. cbn. by rewrite lookup_delete_ne.
  - intros Hn. cbn. by rewrite lookup_delete_ne.
  - intros Hjobs. by apply map_Forall_delete.
Qed.

Lemma frame_keeps_post job io p c :
  output_posts job [p] = [] -> frame_keeps job c (snd (post io p c)).
Proof.
  intros Hp. unfold post. destruct (io_post io); [reflexivity|]. apply frame_keeps_intro; try done.
  cbn [snd cn_posts add_post]. by rewrite output_posts_app, Hp, app_nil_r.
Qed.

Lemma frame_keeps_write job io kind stream payload c :
  frame_keeps job c (snd (write_numbered io kind stream payload c)).
Proof. unfold write_numbered. by destruct (io_write io); apply frame_keeps_intro. Qed.

Lemma ack_keeps job ack c :
  pending_job c -> keeps_command job (FrAck ack) -> frame_keeps job c (handle_ack ack c).
Proof.
  intros Hjobs Hk. unfold handle_ack. destruct (cn_pending c !! ack_job_id ack) as [p|] eqn:Hp; [|reflexivity].
  pose proof (Hjobs _ _ Hp) as Hj. cbn in Hj.
  cbn [finish_pending_command_response]. cbv zeta.
  match goal with |- frame_keeps _ _ (set_pending (if _ then <[_ := ?q]> _ else _) ?d) =>
    set (p' := q); set (c1 := d) end.
  assert (Hc1 : frame_keeps job c c1) by (unfold c1; destruct (option_map _ _) as [[? ?]|]; by apply frame_keeps_intro).
  assert (Hp1 : cn_pending c1 !! ack_job_id ack = Some p) by (unfold c1; by destruct (option_map _ _) as [[? ?]|]).
  clearbody c1. etrans; [exact Hc1|].
  assert (Hset : frame_keeps job c1 (set_pending (<[ ack_job_id ack := p' ]> (cn_pending c1)) c1))
    by (eapply frame_keeps_pending; [exact Hp1|done|done]).
  destruct (ack_accepted ack) eqn:Ea; [exact Hset|]. etrans; [exact Hset|].
  apply (frame_keeps_delete job (pc_job_id p) (set_pending _ c1)). cbn in Hk. rewrite Hj.
  destruct Hk as [Hk|Hk]; [congruence|done].
Qed.

Lemma resume_keeps job resume c :
  keeps_command job (FrResume resume) -> frame_keeps job c (handle_resume resume c).
Proof.
  intros Hk. cbn in Hk. unfold handle_resume. destruct (cn_client_id c) as [client|]; [|reflexivity].
  split; try done.
  - intros cl hash (q & Hq & Hr). exists q. cbn. by rewrite lookup_insert_ne.
  - intros Hn. cbn. by rewrite lookup_insert_ne.
  - intros Hjobs. apply map_Forall_insert_2; [|done]. unfold resumed_command.
    destruct (cn_pending c !! resume_job_id resume) as [p|] eqn:Hp; [|done]. by apply (Hjobs _ p).
Qed.

(** A frame that is no output of the job. *)
Lemma other_frame_keeps job s io frame c :
  pending_job c -> keeps_command job frame ->
  match frame with FrOutput _ => False | _ => True end ->
  frame_keeps job c (snd (handle_agent_frame s io frame c)).
Proof.
  intros Hjobs Hk Hno. destruct frame; cbn [handle_agent_frame]; try done.
  - repeat case_match; try reflexivity; by apply frame_keeps_post.
  - by apply ack_keeps.
  - unfold handle_cancel_ack. case_match; [by apply frame_keeps_intro|reflexivity].
  - unfold handle_terminal_ack. repeat (case_match; simplify_eq); [by apply frame_keeps_intro|reflexivity].
  - by apply resume_keeps.
  - repeat case_match; try reflexivity; apply frame_keeps_write.
  - repeat case_match; try reflexivity; by apply frame_keeps_post.
  - repeat case_match; try reflexivity; by apply frame_keeps_post.
Qed.

Lemma retained_keeps p output :
  let p' := snd (retain_output_if_response_waiting p output) in
  pc_job_id p' = pc_job_id p /\ pc_client_id p' = pc_client_id p /\ pc_payload_hash p' = pc_payload_hash p.
Proof.
  unfold retain_output_if_response_waiting. destruct (pc_response p); [|done]. by destruct (drop_retained _).
Qed.

(** An output of a pending command, in three parts: the post, the retention, the end. *)
Lemma handle_output_inv io q c c' :
  handle_output io q c = (Ok tt, c') ->
  (cn_pending c !! co_job_id (sq_output q) = None /\ c' = c) \/
  exists p p' incarnation n, cn_pending c !! co_job_id (sq_output q) = Some p /\
    cn_incarnation c = Some incarnation /\
    pc_job_id p' = pc_job_id p /\ pc_client_id p' = pc_client_id p /\ pc_payload_hash p' = pc_payload_hash p /\
    let c1 := add_truncated n (add_post (PostOutput (pc_client_id p)
                (output_ingest io (cn_session_id c) incarnation p q)) c) in
    let c2 := set_pending (<[ co_job_id (sq_output q) := p' ]> (cn_pending c1)) c1 in
    c' = if co_done (sq_output q) then set_pending (delete (pc_job_id p) (cn_pending c2)) c2 else c2.
Proof.
  unfold handle_output, post. intros Hh. destruct (cn_pending c !! co_job_id (sq_output q)) as [p|] eqn:Hp;
    [right|left; by simplify_eq].
  destruct (cn_incarnation c) as [incarnation|] eqn:Hi; [|done]. destruct (io_post io); [done|].
  pose proof (retained_keeps p (sq_output q)) as (E1 & E2 & E3).
  destruct (retain_output_if_response_waiting p (sq_output q)) as [n p']. cbn [snd] in *.
  exists p, p', incarnation, n. split; [done|]. split; [done|]. split; [done|]. split; [done|]. split; [done|].
  cbv zeta. injection Hh as <-. by destruct (co_done (sq_output q)).
Qed.

Lemma other_output_keeps job io q c c' :
  pending_job c -> co_job_id (sq_output q) <> job -> handle_output io q c = (Ok tt, c') -> frame_keeps job c c'.
Proof.
  intros Hjobs Hne Hh.
  destruct (handle_output_inv _ _ _ _ Hh) as [[_ ->]|(p & p' & inc & n & Hp & _ & E1 & E2 & E3 & ->)]; [reflexivity|].
  cbv zeta. set (c1 := add_truncated _ _).
  assert (Hc1 : frame_keeps job c c1).
  { apply frame_keeps_intro; try done. cbn [c1 cn_posts add_truncated add_post]. rewrite output_posts_app.
    unfold output_posts at 2. cbn. rewrite (proj2 (Z.eqb_neq _ _) Hne). by rewrite app_nil_r. }
  assert (Hp1 : cn_pending c1 !! co_job_id (sq_output q) = Some p) by done.
  pose proof (Hjobs _ _ Hp) as Hj. cbn in Hj. clearbody c1. etrans; [exact Hc1|].
  assert (Hset : frame_keeps job c1 (set_pending (<[ co_job_id (sq_output q) := p' ]> (cn_pending c1)) c1))
    by (eapply frame_keeps_pending; [exact Hp1|done|done]).
  destruct (co_done (sq_output q)); [|exact Hset]. etrans; [exact Hset|]. apply frame_keeps_delete. congruence.
Qed.

Lemma own_output_posts job io q c c' client hash incarnation :
  pending_job c -> co_job_id (sq_output q) = job -> handle_output io q c = (Ok tt, c') ->
  expects job client hash c -> cn_incarnation c = Some incarnation ->
  output_posts job (cn_posts c') = output_posts job (cn_posts c) ++
    [(client, mkOutputIngest gateway_id (cn_session_id c) incarnation false client job hash (sq_seq q)
                (Some (io_unix io)) (sq_output q))] /\
  pending_job c' /\ cn_incarnation c' = cn_incarnation c /\ cn_session_id c' = cn_session_id c /\
  cn_hello c' = cn_hello c /\
  if co_done (sq_output q) then cn_pending c' !! job = None else expects job client hash c'.
Proof.
  intros Hjobs <- Hh (p0 & Hp0 & <- & <-) Hi.
  destruct (handle_output_inv _ _ _ _ Hh) as [[Hn _]|(p & p' & inc & n & Hp & Hi' & E1 & E2 & E3 & ->)];
    [congruence|]. assert (p0 = p) as -> by congruence. assert (inc = incarnation) as -> by congruence.
  pose proof (Hjobs _ _ Hp) as Hj. cbn in Hj. cbv zeta.
  assert (Hj2 : pending_job (set_pending (<[ co_job_id (sq_output q) := p' ]> (cn_pending c)) c))
    by (apply map_Forall_insert_2; [congruence|done]).
  destruct (co_done (sq_output q)); cbn [cn_posts set_pending add_truncated add_post cn_incarnation cn_session_id cn_hello];
    rewrite output_posts_app; unfold output_posts at 2, output_ingest; cbn [omap list_omap oi_job_id]; rewrite Z.eqb_refl;
    (split; [done|]).
  - split; [by apply map_Forall_delete|]. repeat split. cbn. by rewrite Hj, lookup_delete_eq.
  - split; [exact Hj2|]. repeat split. exists p'. cbn. by rewrite lookup_insert_eq.
Qed.

(** A turn of the loop that leaves the connection alive handled its frame. *)
Lemma live_turn s gone io frame c :
  cn_ended (loop_turn s gone io (ArmFrame frame) c) = None -> looping c = true ->
  exists c', handle_agent_frame s io frame (forget_gone gone c) = (Ok tt, c') /\
    loop_turn s gone io (ArmFrame frame) c = c'.
Proof.
  intros He Hl. unfold loop_turn in *. rewrite Hl in *. cbn [loop_arm] in *. unfold settle in *.
  destruct (handle_agent_frame s io frame (forget_gone gone c)) as [[[]|e] c']; cbn in *; [by exists c'|done].
Qed.

Lemma reads_alive c turns : cn_ended (read_frames c turns) = None -> cn_ended c = None.
Proof.
  intros He. destruct (cn_ended c) as [e|] eqn:E; [|done]. rewrite ended_reads in He by (rewrite E; by eexists).
  congruence.
Qed.

Lemma reads_cons c s gone io frame turns :
  read_frames c ((s, gone, io, frame) :: turns) = read_frames (loop_turn s gone io (ArmFrame frame) c) turns.
Proof. done. Qed.

Lemma forget_gone_keeps job gone c : frame_keeps job c (forget_gone gone c).
Proof. by apply frame_keeps_intro. Qed.

(** After the last output nothing more of the job is posted. *)
Lemma absent_reads job c turns :
  Forall (fun '(_, frame) => keeps_command job frame) turns -> pending_job c -> cn_hello c = None ->
  cn_pending c !! job = None -> cn_ended (read_frames c turns) = None ->
  output_posts job (cn_posts (read_frames c turns)) = output_posts job (cn_posts c).
Proof.
  revert c. induction turns as [|[[[s gone] io] frame] turns IH]; intros c Hk Hjobs Hh Hn He; [done|].
  apply Forall_cons in Hk as [Hk Hks]. rewrite reads_cons in *.
  pose proof (reads_alive _ _ He) as He1.
  assert (Hl : looping c = true).
  { unfold looping. rewrite Hh. destruct (cn_ended c) eqn:E; [|done]. exfalso. unfold loop_turn, looping in He1.
    rewrite E in He1. congruence. }
  destruct (live_turn _ _ _ _ _ He1 Hl) as (c' & Hf & E). rewrite E in *.
  pose proof (forget_gone_keeps job gone c) as Hg. set (c1 := forget_gone gone c) in *. clearbody c1.
  assert (Hkeep : frame_keeps job c1 c').
  { pose proof (fk_jobs _ _ _ Hg Hjobs) as Hj1. destruct frame as [| | | | | | |q| | |];
      try (by rewrite <- (f_equal snd Hf : _ = c'); apply other_frame_keeps).
    destruct (decide (co_job_id (sq_output q) = job)) as [Eq|Hne]; [|by eapply other_output_keeps].
    destruct (handle_output_inv _ _ _ _ Hf) as [[_ ->]|(p & p' & ? & ? & Hp & _)]; [reflexivity|].
    pose proof (fk_absent _ _ _ Hg Hn). congruence. }
  assert (Hall : frame_keeps job c c') by (etrans; [exact Hg|exact Hkeep]). destruct Hall.
  rewrite <- fk_posts0. apply IH; auto. congruence.
Qed.

(** C14: The outputs of a command reach the API complete and in order: over consecutive frames that a
    connection reads without ending, of a command it is expecting outputs of it posts every output
    frame, up to and including the last one, once each and in order of arrival, under the client and
    payload hash the command was sent with and with the number the agent gave it; outputs of other jobs,
    telemetry and the other frames in between change nothing.  The frames hold no acknowledgement that
    rejects the command and no resumption of it, which would forget it or bind it anew. *)
Theorem posted_outputs_exact job client hash incarnation c turns :
  looping c = true -> pending_job c -> cn_incarnation c = Some incarnation -> expects job client hash c ->
  Forall (fun '(_, frame) => keeps_command job frame) turns ->
  cn_ended (read_frames c turns) = None ->
  output_posts job (cn_posts (read_frames c turns))
  = output_posts job (cn_posts c) ++ expected_posts job (cn_session_id c) incarnation client hash turns.
Proof.
  intros Hl. assert (Hh : cn_hello c = None) by (unfold looping in Hl; by destruct (cn_ended c), (cn_hello c)).
  clear Hl. revert c Hh. induction turns as [|[[[s gone] io] frame] turns IH]; intros c Hh Hjobs Hi Hex Hk He.
  { by rewrite app_nil_r. }
  apply Forall_cons in Hk as [Hk Hks]. rewrite reads_cons in *. pose proof (reads_alive _ _ He) as He1.
  assert (Hl : looping c = true).
  { unfold looping. rewrite Hh. destruct (cn_ended c) eqn:E; [|done]. exfalso. unfold loop_turn, looping in He1.
    rewrite E in He1. congruence. }
  destruct (live_turn _ _ _ _ _ He1 Hl) as (c' & Hf & E). rewrite E in *.
  pose proof (forget_gone_keeps job gone c) as Hg. set (c1 := forget_gone gone c) in *. clearbody c1.
  assert (Hrest : frame_keeps job c c' ->
    output_posts job (cn_posts (read_frames c' turns))
    = output_posts job (cn_posts c) ++ expected_posts job (cn_session_id c) incarnation client hash turns).
  { intros []. rewrite <- fk_posts0, <- fk_session0. apply IH; auto; congruence. }
  destruct frame as [| | | | | | |q| | |]; cbn [expected_posts];
    try (by apply Hrest; etrans; [exact Hg|]; rewrite <- (f_equal snd Hf : _ = c');
         apply other_frame_keeps; [apply Hg|..]).
  destruct (Z.eqb_spec (co_job_id (sq_output q)) job) as [Eq|Hne].
  2: { apply Hrest. etrans; [exact Hg|]. eapply other_output_keeps; [by apply Hg|done|exact Hf]. }
  destruct Hg as [Hg1 _ Hg2 Hg3 Hg4 Hg5 Hg6].
  destruct (own_output_posts job io q c1 c' client hash incarnation) as (Hp & Hj & Hi' & Hs & Hh' & Hd); auto;
    [congruence|].
  rewrite Hg5 in *. rewrite Hg2 in Hp. destruct (co_done (sq_output q)).
  - rewrite absent_reads by (try done; congruence). exact Hp.
  - rewrite (IH c') by (try done; congruence). rewrite Hp, Hs, <- app_assoc. done.
Qed.

End Outputs.

(** * A concrete gateway *)

Definition gateway_env_ex : GatewayEnv :=
  {| gateway_id := lit "gw-1"; release_version := lit "1.0.0"; server_build_number := 7 |}.
#[local] Existing Instance gateway_env_ex.

Definition edge : str := lit "edge-1".
Definition io_ok : Io := mkIo None None 1700000000 (Ok (true, lit "ok")).
Definition ping_request (job : Z) : JobRequest := mkJobRequest job 1 ConfigRead 30.
Definition ping_dispatch (job : Z) : GatewayCommandDispatch :=
  mkGatewayDispatch edge (ping_request job) (lit "hash") 11 (Some 5) None.
Definition hello_events (session : Z) : list GatewayEvent :=
  [GwAccept session (Some (lit "key")); GwHello session 1 (mkHello edge 11) (Ok (true, lit "ok"));
   GwHelloAnswer session 1 (Ok (true, lit "ok")); GwHelloReply session io_ok].
(** The agent connects; a command is sent to it. *)
Definition connected : Gateway :=
  gateway_run (initial_gateway 5)
    (hello_events 31 ++ [GwDispatch 2 2 None 900 (ping_dispatch 77); GwTurn 31 io_ok ArmMessage]).
Definition output_frame (job seq : Z) (done : bool) : AgentFrame :=
  FrOutput (mkSequenced seq (mkCommandOutput job Stdout [104] None done)).
Definition ex_turns : list read_turn :=
  map (fun frame => (gw_state connected, ∅, io_ok, frame))
    [output_frame 77 0 false; FrAck (mkAck 77 true (lit "accepted")); output_frame 78 0 false;
     output_frame 77 1 true; output_frame 77 2 false].
Definition ex_connection : Connection := default (new_connection 31 None) (gw_connections connected !! 31).

Lemma posted_outputs_exact_witness :
  map (fun post => oi_seq (snd post)) (output_posts 77 (cn_posts (read_frames ex_connection ex_turns))) = [0; 1] /\
  output_posts 77 (cn_posts (read_frames ex_connection ex_turns))
  = output_posts 77 (cn_posts ex_connection)
    ++ expected_posts 77 (cn_session_id ex_connection) 11 edge (lit "hash") ex_turns.
Proof.
  split; [vm_compute; reflexivity|].
  apply (posted_outputs_exact 77 edge (lit "hash") 11 ex_connection ex_turns).
  - vm_compute; reflexivity.
  - intros job p Hp. assert (Hc : cn_pending ex_connection = {[ 77 := new_pending edge (ping_request 77) (lit "hash") 0 ]})
      by (vm_compute; reflexivity).
    rewrite Hc in Hp. apply lookup_singleton_Some in Hp as [<- <-]. reflexivity.
  - vm_compute; reflexivity.
  - exists (new_pending edge (ping_request 77) (lit "hash") 0). repeat split; vm_compute; reflexivity.
  - apply Forall_map. repeat constructor.
  - vm_compute; reflexivity.
Defined.

Lemma route_leads_to_live_connection_witness :
  sessions (gw_state (gateway_run (initial_gateway 5) (hello_events 31 ++ hello_events 32))) !! edge
    = Some (mkSession 32 11) /\
  exists c, gw_connections (gateway_run (initial_gateway 5) (hello_events 31 ++ hello_events 32)) !! 32 = Some c /\
    cn_session_id c = 32 /\ cn_client_id c = Some edge /\ cn_finalized c = false.
Proof.
  split; [vm_compute; reflexivity|].
  apply (route_leads_to_live_connection (fun _ => edge) 5 (hello_events 31 ++ hello_events 32)) with (x := mkSession 32 11).
  - repeat constructor.
  - vm_compute; reflexivity.
Defined.

(** A deletion lease on a connected client; then a hello, a dispatch, a disconnect and an end. *)
Definition ex_lease_events : list GatewayEvent :=
  hello_events 31 ++ [GwControl 2 (OpAcquire (mkAcquire edge 901 Deletion false));
                      GwControl 3 (OpPrepare 3 (mkPrepare edge 901 5 1 false 60 Deletion))].
Definition ex_leased_gateway : Gateway := gateway_run (initial_gateway 5) ex_lease_events.
Definition ex_while_leased : list GatewayEvent :=
  hello_events 32 ++ [GwDispatch 4 4 None 901 (ping_dispatch 78);
                      GwControl 5 (OpDisconnect (mkDisconnect edge (lit "maintenance") None));
                      GwTurn 31 io_ok ArmClose; GwTurn 31 io_ok ArmDeadline; GwFinalize 31; GwOffline 31 6].
Definition ex_gateway_lease : DispatchFence := mkFence 901 5 1 Deletion (Prepared 60000000003 None).

Lemma leased_client_closed_off_witness :
  sessions (gw_state (gateway_run ex_leased_gateway ex_while_leased)) !! edge = None /\
  fences (gw_state (gateway_run ex_leased_gateway ex_while_leased)) !! edge = Some ex_gateway_lease.
Proof.
  split; [vm_compute; reflexivity|].
  refine (proj1 (leased_client_closed_off ex_leased_gateway ex_while_leased edge ex_gateway_lease 60000000003 None _ _ _ _)).
  - vm_compute; reflexivity.
  - reflexivity.
  - reflexivity.
  - repeat constructor.
Defined.

Lemma retained_outputs_longest_tail_witness :
  exists p', retain_output_if_response_waiting (new_pending edge (ping_request 77) (lit "hash") 0)
               (mkCommandOutput 77 Stdout [104] None false) = (0, p') /\
    vec_len (pc_outputs p') = 1 /\ retained_output_bytes (pc_outputs p') <= 1048576.
Proof.
  eexists. split; [vm_compute; reflexivity|]. split; [reflexivity|].
  destruct (retained_outputs_longest_tail (new_pending edge (ping_request 77) (lit "hash") 0)
    (mkCommandOutput 77 Stdout [104] None false) _ _ eq_refl (ex_intro _ 0 eq_refl)) as (k & _ & _ & _ & Hb & _).
  exact Hb.
Defined.

(** * A close reason that is too long *)

(** A second hello under a name of 200 characters of three bytes. *)
Definition long_name : str := repeat 8364 200.
Definition misnamed_hello : list GatewayEvent :=
  [GwHello 31 9 (mkHello long_name 11) (Ok (false, lit "client identity rejected"))].

(** The end of a connection whose error cannot be cut at 512 bytes is never processed: the
    connection has ended, no later event finalises it, the client's session still leads to it, and
    a dispatch to the client fails as closed instead of being told that the agent is offline. *)
Theorem long_error_keeps_session :
  let g := gateway_run connected (misnamed_hello ++ [GwFinalize 31; GwShutdown 31; GwFinalize 31]) in
  sessions (gw_state g) !! edge = Some (mkSession 31 11) /\
  option_map cn_ended (gw_connections g !! 31) <> Some None /\
  option_map cn_finalized (gw_connections g !! 31) = Some false /\
  snd (fst (dispatch_command 3 3 None 901 (ping_dispatch 78) g)) = Some SendClosed.
Proof.
  cbv zeta. split; [vm_compute; reflexivity|]. split; [vm_compute; discriminate|].
  split; vm_compute; reflexivity.
Qed.
